(* ===== verification/_CoqProject ===== *)
-Q . S2P
Prelude.v
Bytes.v
Text.v
Digest.v
Publication.v
Pkg.v
EspPartition.v
EspVerify.v
EspImage.v
FlashPlan.v
Dhcp.v
Elf.v
Cursor.v
ArmAttr.v
RiscvAttr.v
RiscvContract.v
Ordered.v
SymbolSets.v
LibReq.v
Localize.v
StateRes.v
MakeVars.v
MakeLines.v
MakeCond.v
MakeScan.v
ScanBranches.v
ScanHistory.v
ScanValues.v
Dirs.v
MakeExpr.v
MakeSpec.v
MakeRefine.v
MakeTheorems.v
CrashIO.v
FileSystem.v
FileSpecs.v
Journal.v
JournalSpecs.v
Transaction.v
Rollback.v
Apply.v
FileSet.v
CrashSafety.v
Commit.v
AllOrNothing.v
DurableSet.v
DurableSpecs.v
Publish.v
NoClobber.v
PublicationTheorems.v
OwnerGraph.v
OwnerRefine.v
OwnerMerge.v
OwnerSelect.v
OwnerTheorems.v
MetaProject.v
ProjectTheorems.v
PayloadPath.v
ArchiveTypes.v
ToolchainManifest.v
ProducerInputs.v
PackageIdentity.v
PrefixScan.v
TarWriter.v
TarReader.v
PayloadTree.v
Packaging.v
ArchiveScan.v
ArchiveSafety.v
Extraction.v
ExtractionSpecs.v
ArchiveMembers.v
ArchiveReadback.v
ExtractionTotal.v
PackageSpecs.v
ToolLayout.v
PackageSet.v
PackageSetSpecs.v
PackageTheorems.v
PackageCommand.v
