(* ===== verification/Prelude.v ===== *)
(** * aros-tools: a verification library

    aros-tools builds AROS: it translates MetaMake files, drives the toolchain
    and the collector, packs and verifies kickstart packages, ELF files and
    ESP32 images, and serves boards.  This library models the parts of it whose
    correctness is a matter of computation - readers and writers of binary and
    text formats, validators, planners, a protocol service, an expression
    evaluator, the crash-recoverable publication of file sets and the package
    archives of toolchains - and proves what they promise one another.

    ** Conventions

    Bytes, characters and machine integers are [Z]; widths are kept by
    explicit bounds, checked operations and wrap-around where the code has
    them.  [usize] has 64 bits.  A Rust [String] is the list of its Unicode
    scalar values, its length the number of its UTF-8 bytes.  A [Result] is a
    [res E A], whose third outcome [Stuck] is a panic or a loop that outlives
    the model's fuel, so a theorem that excludes [Stuck] is panic freedom and
    termination at once.  A method on [&mut self] that can fail is a [SR S E A]
    (file StateRes).  Message texts are the constructors of an error type.

    ** Files and the code they model (under src/crates/)

    Shared:
    - Prelude: outcomes, guards, checked arithmetic, tactics, list lemmas.
    - Bytes: little- and big-endian integers.  Text: strings, UTF-8, trimming,
      splitting, number parsing and aros-common/src/text.rs [decode_source].
    - Ordered: [BTreeMap] and [BTreeSet] as sorted lists over a class of orders.
    - StateRes: state with early exit, and the simulation [sim] of a stateful
      method by a pure reference, composing along the method's statements.
    - Cursor: readers that advance a slice, and the composition of exact readers.
    - Digest: aros-common/src/digest.rs over the class [Sha256], which stands
      for the crate sha2.  Publication: the portable names of
      aros-common/src/publication.rs, and its file primitives as the class
      [Publication] the clients are proved against.

    Durable publication (aros-common/src/publication.rs and publication/):
    - CrashIO: programs over a file system in which every call may fail, may be
      the last one or may leave a torn write, and the rules of the weakest
      precondition [wp] that the proofs below compose.
    - FileSystem: unix/filesystem.rs, unix/regular.rs and error.rs over a map
      from paths to nodes; FileSpecs: their specifications.
    - Journal: unix/journal.rs; JournalSpecs: replacing the journal.
    - Transaction: the commit, rollback and recovery of unix/mod.rs; Rollback,
      Apply: one operation; FileSet: a list of them; CrashSafety: the states a
      transaction passes through; Commit, AllOrNothing: the commit as a whole.
    - DurableSet: transaction.rs, the staging methods; DurableSpecs: the
      invariant of a staged set.
    - Publish: [publish_file_noclobber] and [publish_atomic_file]; NoClobber:
      their proofs.  PublicationTheorems: the theorems.

    Packages and flash images:
    - Pkg: aros-romtool/src/pkg.rs, writer, reader and command [create].
    - EspPartition: aros-common/src/esp_partition.rs and its source.rs, the CSV
      reader, the range rules and the table encoder.
    - EspVerify: aros-verify/src/esp_partition.rs, the independent decoder.
    - EspImage: aros-verify/src/esp_image.rs, the image container check.
    - FlashPlan: aros-common/src/flash_plan.rs, placements and erase spans.

    Boards:
    - Dhcp: aros-board/src/dhcp.rs, configuration checks, packet reader, answer
      policy, reply writer and service loop.

    Objects and the collector:
    - Elf: aros-common/src/elf.rs.  ArmAttr: elf/arm.rs.  RiscvAttr:
      elf/riscv.rs.  RiscvContract: elf/riscv/contract.rs.
    - SymbolSets: aros-collect/src/sets.rs.  LibReq: libreq.rs and extra.rs.
      Localize: the pure core of kobj_localize.rs.

    Make expressions (aros-transpiler/src/):
    - MakeVars: the scope of make_vars.rs and its positional queries.
    - MakeLines: its syntax of a line: assignments, comments, directives,
      references and define bodies.  MakeCond: the target context of parser.rs,
      three-valued truth and the evaluation of a condition.  MakeScan: the scan
      [collect_vars_impl_with_forward_locals] that fills a scope.
    - ScanBranches, ScanHistory, ScanValues: the theorems about the scan.
    - Dirs: the bounded expansion of dirs.rs.
    - MakeExpr: make_expr.rs, the whole evaluator.
    - MakeSpec: its reference semantics, without state and without budgets.
    - MakeRefine: the simulation of the one by the other, method by method.
    - MakeTheorems: the theorems about the evaluator, and scan and evaluator
      composed on small files.

    MetaMake metadata (aros-transpiler/src/):
    - OwnerGraph: metamake_owner_graph.rs, the bounded reader of [#MM] lines, the
      graph of targets, dependencies and owning makefiles, and selection.
    - OwnerRefine: the reading without limits and the graph of a list of
      declarations, and, with OwnerMerge, the simulation of the parser by it;
      OwnerSelect: the search; OwnerTheorems: printing rules, and the theorems.
    - MetaProject: metamake_project.rs, project configuration, global variables
      and the plan of source makefiles; ProjectTheorems: its theorems, and how it
      fits the owner graph.

    Toolchain packages (aros-toolchain/src/package*.rs, filesystem.rs,
    canonical.rs, recipe.rs, source_lock.rs, profiles.rs, and
    aros-common/src/toolchain_inventory.rs, toolchain_layout.rs,
    toolchain_manifest.rs, publication/payload_path.rs):
    - PayloadPath: portable paths and their collision keys.  ArchiveTypes: the
      contracts and errors, and the class [TarXz] that stands for the crates tar
      and xz2.  PrefixScan: the search for build prefixes while a file is read.
    - ToolchainManifest: compiler identities, manifests and release locks.
      ProducerInputs: recipes, source locks and profiles.  PackageIdentity: what
      they determine, the asset's name, the manifest and the SBOM.
    - TarWriter: the deterministic ustar and PAX writer of package.rs.
      TarReader: the header and PAX checks of package_verify/raw_tar.rs, and
      [TarXzLaws], what tar and xz2 document.
    - PayloadTree: directory trees and their canonical inventory.  Packaging:
      staging, prefix scan and archive of a candidate.
    - ArchiveScan: [scan_archive] over the interface [ArchiveConsumer] with the
      verifying consumer; Extraction: the extracting one, on a disk with
      symbolic links.
    - ToolLayout: the tools document, and declared tools resolved in an inventory
      and on disk.  PackageSet: verifying a package set and extracting it into a
      fresh root.  PackageCommand: packaging a candidate into a set.
    - ArchiveSafety: the log of a scan, its invariant, and the rule that carries
      a relation between two consumers through it.  ExtractionSpecs: where
      extraction writes and what it leaves.  ArchiveMembers, ArchiveReadback:
      what the writer wrote is accepted.  ExtractionTotal, PackageSpecs: the
      archive of a tree, and of a packaged candidate.  PackageSetSpecs: the
      extracting consumer simulates the verifying one.  PackageTheorems,
      PackageCommand: the theorems.

    The parts meet where the code makes them meet: the partition verifier is
    proved against the encoder, the flash planner and the package command run
    over the digest and publication interfaces, a durable set is committed by the
    transaction over the journal and the file primitives, the attribute decoders and the
    collector read the sections and symbols of Elf, the target contract uses the
    attribute decoder, and the evaluator asks the scope that the scan filled first
    and Dirs next; the globals a project configures are the ones the owner graph
    expands, and fit its limits; the archive writer is proved against the reader,
    and the reader, proved once for every consumer, against the disk.

    ** What the theorems show

    - Publication: whatever fails or crashes during a commit and during any
      number of recoveries, a recovery that returns leaves all targets old or
      all new and nothing behind, a commit that returns has published and one
      that fails with an ordinary error has changed nothing; recovery comes to
      an end; staging keeps a set publishable; the one-file publications never
      replace a file they were not asked to replace.  Two theorems show where
      the code falls short: a rollback that reports itself incomplete, and a
      double I/O error that mixes two sets.
    - Toolchain packages: the set that packaging makes verifies for the same
      request and extracts to the staged tree; whatever verification accepted
      extracts and passes the read-back; a validated release lock selects one
      artifact with a safe location and is read back as it was written; an
      accepted archive has portable, ordered, distinct paths within its limits;
      extraction changes nothing outside its root, whatever it is given and
      whatever fails; the inventory on disk is the one returned; tools found in
      the inventory are found on disk; the way files are cut into reads does not
      matter.  Three theorems show where the code falls short: chained links that
      leave the root, candidates that are packaged and then refused, and two
      limits on a manifest that disagree.
    - Formats: [Pkg.parse_iff_package], [EspImage.image_verifier_exact],
      [ArmAttr.arm_decoder_exact], [RiscvAttr.riscv_decoder_exact] and
      [Dhcp.option_reader_exact] say that a reader accepts exactly the words of
      an independently stated format and returns what they describe.
    - Round trips: [Pkg.serialize_parse_roundtrip],
      [EspVerify.encoded_table_verifies], [EspPartition.source_reader_complete]
      and [Elf.elf_file_roundtrip]; [EspVerify.verified_table_is_canonical] is
      the converse that a verified table is byte for byte the encoded one.
    - Policies: the validators of partitions, flash layouts, DHCP
      configurations and target contracts accept exactly the stated conditions;
      plans are disjoint, minimal and independent of the order of their inputs;
      the DHCP service answers only its client; package publication never
      exposes bytes that were not read back, nor replaces an unexpected file.
    - Collector: discovered sets, requirements and localization lists are those
      of a declarative reading of the object.
    - Make: the bounded evaluator returns the reference value or the reference
      error unless a limit stops it, restores its chain and bindings, stays
      within its budgets, and panics exactly where the final check splits a
      character; directory expansion is the bounded substitution closure.
    - The scan of an mmakefile: line states are exact for the conditions the
      target decides, queries at a line depend on the lines before it alone,
      values come only from lines known to be read, and files of plain
      assignments are read back exactly.
    - MetaMake metadata: the graph is that of the declarations, a selection is
      exactly what its roots reach and returns when its budget covers the graph,
      written rules are read back, global variables are what their assignments
      say one after the other, and a plan lists every source makefile once.
    - No panic and termination: stated on their own for the package and ELF
      readers, and as part of the exactness theorem elsewhere.

    ** Fuel

    Loops over a slice run on its length, which each iteration shortens, so
    fuel equal to the length (or the length and one) is never used up; the
    theorems that exclude [Stuck] prove it.  Recursion that the code bounds by
    a depth counter (32 levels in make_expr.rs, 12 in dirs.rs) recurses on that
    counter.  The queue of unresolved names in dirs.rs runs on its work budget
    and two, because every round pays one unit.  The scanners of make_vars.rs are
    structural on the text and on their depth counters (16); condition operands
    are expanded at even depths, so their counter never underflows.  The search
    of an owner graph runs for as many rounds as there are queued roots and
    edges, because a target's dependencies join the queue once.  The length of a
    PAX record is found in at most 21 rounds, the digits of a 64-bit number and
    one; records are read on the length of the extension.  Resolution of links
    recurses on the number of links that may still be followed (40, in the code
    and in the kernel).

    ** Failures and crashes

    A verdict per system call says whether it succeeds, fails or is the last one
    before the machine stops; a failing or stopping write may leave any prefix.
    Completed calls are visible after a crash, so the model does not tell a lost
    unsynced rename from one that never happened; the code's order of
    [fsync] calls is kept.  Other processes change nothing while the lock is
    held, and file timestamps, which [same_regular_snapshot] also compares, are
    not part of a node.  New inodes get an identity no live file has.  serde_json
    is the class [JournalCodec], a codec with its round trip.

    ** Not modelled

    Sockets, processes and devices; third-party crates (sha2, glob, serde, tar,
    xz2, unicode-normalization), which are parameters where modelled code calls
    them;
    allocation failure.  The publication of directory trees and the branch of
    [absolute_path] for macOS are left out.  Of digest.rs, text.rs and
    kobj_localize.rs the parts that open files or run tools are left out; of
    dirs.rs the reading of make.cfg.in, of parser.rs all but the values of a
    target.  Of the packages the snapshot copy in front of staging, of which the
    command takes the result, and the publication of the finished directory are
    left out; a file of a package set does not change while it is read.  The crates aros-cache,
    aros-cmake-engine, the rest of aros-toolchain,
    aros-ahi-runner, aros-fetch, aros-genmodule, aros-cli, aros-release,
    aros-macos-disk-claim, the SD and TFTP workflows of aros-board and the rule
    by rule translation of aros-transpiler are not modelled: they are orchestration,
    I/O, documents of a serialization library, or text templates.

    ** Order of extension

    The publication of directory trees, which also publishes packages; the
    configuration reader of dirs.rs;
    macro invocations of parser.rs; the partition binding of aros-common; path
    overlap and media trees; the module generator's configuration parser. *)

From stdpp Require Export base tactics list numbers option sets.
From Stdlib Require Export ZArith Lia.

#[global] Open Scope Z_scope.

(** ** Outcomes of a Rust computation

    A Rust function that returns [Result<A, E>] ends in [Ok] or [Err].  The
    third outcome, [Stuck], stands for every way the run can leave that
    contract: a slice index out of range, a checked-arithmetic overflow, a
    [copy_from_slice] of the wrong length, or a loop that outlives the budget
    the model gives it.  Theorems that a function is never [Stuck] are
    therefore at once panic-freedom and termination theorems. *)
Inductive res (E A : Type) : Type :=
| Ok (a : A)
| Err (e : E)
| Stuck.
Arguments Ok {E A} a.
Arguments Err {E A} e.
Arguments Stuck {E A}.

#[global] Instance res_ret E : MRet (res E) := fun A a => Ok a.
#[global] Instance res_bind E : MBind (res E) := fun A B f c =>
  match c with
  | Ok a => f a
  | Err e => Err e
  | Stuck => Stuck
  end.

(** A function returning [Option<A>] is a [res unit A]: [None] is [Err tt]. *)
Abbreviation ropt := (res unit).

(** [ensure!(b, e)], and the early [return Err(e)] of a guard on [negb b]. *)
Definition ensure {E} (b : bool) (e : E) : res E unit :=
  if b then Ok tt else Err e.

(** [if b { return Err(e) }]. *)
Definition refuse {E} (b : bool) (e : E) : res E unit :=
  if b then Err e else Ok tt.

(** [option.ok_or(e)?] *)
Definition ok_or {E A} (o : option A) (e : E) : res E A :=
  match o with Some a => Ok a | None => Err e end.

(** [result.map_err(|_| e)?] for a callee whose own error is discarded. *)
Definition map_err {E F A} (f : E -> F) (c : res E A) : res F A :=
  match c with Ok a => Ok a | Err e => Err (f e) | Stuck => Stuck end.

(** An operation that panics when its precondition fails. *)
Definition or_stuck {E A} (o : option A) : res E A :=
  match o with Some a => Ok a | None => Stuck end.

Definition is_ok {E A} (c : res E A) : bool :=
  match c with Ok _ => true | _ => false end.

(** [for x in l { s = f(s, x)?; }]: left fold with early exit. *)
Fixpoint foldM {E S A} (f : S -> A -> res E S) (s : S) (l : list A) : res E S :=
  match l with
  | [] => Ok s
  | x :: l => s' ← f s x; foldM f s' l
  end.

Section res_lemmas.
Context {E A B : Type}.

Lemma bind_Ok (c : res E A) (f : A -> res E B) b :
  (c ≫= f) = Ok b <-> exists a, c = Ok a /\ f a = Ok b.
Proof.
  destruct c; cbn; (split; [intros H; try discriminate; eauto
                           |intros (? & [= <-] & H); exact H]).
Qed.

Lemma Ok_bind (a : A) (f : A -> res E B) : (Ok a ≫= f) = f a.
Proof. done. Qed.

Lemma bind_not_Stuck (c : res E A) (f : A -> res E B) :
  c <> Stuck -> (forall a, c = Ok a -> f a <> Stuck) -> (c ≫= f) <> Stuck.
Proof. destruct c; cbn; naive_solver. Qed.

Lemma ok_or_Ok (o : option A) (e : E) a : ok_or o e = Ok a <-> o = Some a.
Proof. destruct o; cbn; naive_solver. Qed.

Lemma ok_or_not_Stuck (o : option A) (e : E) : ok_or o e <> Stuck.
Proof. by destruct o. Qed.

Lemma or_stuck_Ok (o : option A) a : or_stuck (E:=E) o = Ok a <-> o = Some a.
Proof. destruct o; cbn; naive_solver. Qed.

Lemma or_stuck_not_Stuck (o : option A) : is_Some o -> or_stuck (E:=E) o <> Stuck.
Proof. by intros [a ->]. Qed.
End res_lemmas.

Lemma ensure_Ok {E} b (e : E) u : ensure b e = Ok u <-> b = true.
Proof. destruct b, u; cbn; naive_solver. Qed.

Lemma ensure_not_Stuck {E} b (e : E) : ensure b e <> Stuck.
Proof. by destruct b. Qed.

Lemma refuse_Ok {E} b (e : E) u : refuse b e = Ok u <-> b = false.
Proof. destruct b, u; cbn; naive_solver. Qed.

Lemma refuse_not_Stuck {E} b (e : E) : refuse b e <> Stuck.
Proof. by destruct b. Qed.

Lemma map_err_Ok {E F A} (f : E -> F) (c : res E A) a :
  map_err f c = Ok a <-> c = Ok a.
Proof. destruct c; cbn; naive_solver. Qed.

Lemma map_err_not_Stuck {E F A} (f : E -> F) (c : res E A) :
  c <> Stuck -> map_err f c <> Stuck.
Proof. by destruct c. Qed.

Lemma foldM_app {E S A} (f : S -> A -> res E S) s l1 l2 :
  foldM f s (l1 ++ l2) = (s' ← foldM f s l1; foldM f s' l2).
Proof.
  revert s; induction l1 as [|x l1 IH]; intros s; cbn; [done|].
  destruct (f s x); cbn; auto.
Qed.

(** Loop invariants: [P] indexed by the processed prefix. *)
Lemma foldM_inv {E S A} (f : S -> A -> res E S) (P : list A -> S -> Prop) l :
  forall s,
  P [] s ->
  (forall pre x s s', P pre s -> f s x = Ok s' -> P (pre ++ [x]) s') ->
  forall s', foldM f s l = Ok s' -> P l s'.
Proof.
  intros s H0 Hstep.
  assert (forall pre s, P pre s -> forall s', foldM f s l = Ok s' -> P (pre ++ l) s') as Hgen.
  { induction l as [|x l IH]; intros pre s1 HP s2; cbn.
    - intros [= ->]. by rewrite app_nil_r.
    - intros (s3 & Hf & Hl)%bind_Ok.
      replace (pre ++ x :: l) with ((pre ++ [x]) ++ l) by by rewrite <- app_assoc.
      eauto. }
  intros s'. by apply (Hgen []).
Qed.

Lemma foldM_not_Stuck {E S A} (f : S -> A -> res E S) (P : S -> Prop) l :
  forall s, P s ->
  (forall s x, P s -> x ∈ l -> f s x <> Stuck) ->
  (forall s x s', P s -> x ∈ l -> f s x = Ok s' -> P s') ->
  foldM f s l <> Stuck.
Proof.
  induction l as [|x l IH]; intros s Hs Hns Hp; cbn; [done|].
  apply bind_not_Stuck; [apply Hns; [done|set_solver]|].
  intros s' Hs'. apply IH.
  - eapply Hp; [done| |done]. set_solver.
  - intros; apply Hns; [done|set_solver].
  - intros; eapply Hp; [done| |done]. set_solver.
Qed.

(** [inv_ok]: decompose every successful monadic hypothesis. *)
Ltac inv_ok_step :=
  match goal with
  | H : mbind _ ?c = Ok _ |- _ => apply bind_Ok in H; destruct H as (? & ? & ?)
  | H : mret _ = Ok _ |- _ => apply (inj Ok) in H
  | H : Ok _ = Ok _ |- _ => injection H as H; try subst
  | H : Err _ = Ok _ |- _ => discriminate H
  | H : Stuck = Ok _ |- _ => discriminate H
  | H : ensure _ _ = Ok _ |- _ => apply ensure_Ok in H
  | H : refuse _ _ = Ok _ |- _ => apply refuse_Ok in H
  | H : ok_or _ _ = Ok _ |- _ => apply ok_or_Ok in H
  | H : or_stuck _ = Ok _ |- _ => apply or_stuck_Ok in H
  | H : map_err _ _ = Ok _ |- _ => apply map_err_Ok in H
  | u : unit |- _ => destruct u
  end.
Ltac inv_ok := repeat inv_ok_step.

(** [bool_prop]: turn boolean guards into propositions. *)
Ltac bool_prop :=
  repeat match goal with
  | H : (_ && _) = true |- _ => apply andb_true_iff in H; destruct H
  | H : (_ || _) = false |- _ => apply orb_false_iff in H; destruct H
  | H : negb _ = true |- _ => apply negb_true_iff in H
  | H : negb _ = false |- _ => apply negb_false_iff in H
  | H : (_ <=? _) = true |- _ => apply Z.leb_le in H
  | H : (_ <=? _) = false |- _ => apply Z.leb_gt in H
  | H : (_ <? _) = true |- _ => apply Z.ltb_lt in H
  | H : (_ <? _) = false |- _ => apply Z.ltb_ge in H
  | H : (_ =? _) = true |- _ => apply Z.eqb_eq in H
  | H : (_ =? _) = false |- _ => apply Z.eqb_neq in H
  | H : bool_decide _ = true |- _ => apply bool_decide_eq_true in H
  | H : bool_decide _ = false |- _ => apply bool_decide_eq_false in H
  end.
Ltac inv_guards := inv_ok; bool_prop.

Create HintDb aros discriminated.
#[export] Hint Resolve ensure_not_Stuck refuse_not_Stuck ok_or_not_Stuck
  or_stuck_not_Stuck map_err_not_Stuck : aros.
#[export] Hint Extern 1 (Ok _ <> Stuck) => discriminate : aros.
#[export] Hint Extern 1 (Err _ <> Stuck) => discriminate : aros.

(** [not_stuck]: peel binds off a no-panic goal. *)
Ltac not_stuck_step :=
  match goal with
  | |- mbind _ _ <> Stuck => apply bind_not_Stuck; [|intros ? ?]
  | |- (if ?b then _ else _) <> Stuck => destruct b eqn:?
  | |- (match ?o with _ => _ end) <> Stuck => destruct o eqn:?
  | _ => solve [eauto with aros]
  end.
Ltac not_stuck := repeat (not_stuck_step; cbn beta).

(** ** Machine integers and checked arithmetic

    An unsigned w-bit integer is a [Z] in [0, 2^w).  Hosts of the tools are
    64-bit, so [usize] is 64 bits wide. *)
Definition u8_max : Z := 2 ^ 8 - 1.
Definition u16_max : Z := 2 ^ 16 - 1.
Definition u32_max : Z := 2 ^ 32 - 1.
Definition u64_max : Z := 2 ^ 64 - 1.
Definition usize_max : Z := u64_max.
(** The largest size of an allocation, so of any slice. *)
Definition isize_max : Z := 2 ^ 63 - 1.

Definition is_u8 (b : Z) : Prop := 0 <= b <= u8_max.
Definition is_u8b (b : Z) : bool := (0 <=? b) && (b <=? u8_max).

(** [uN::try_from(v)] for a nonnegative source value. *)
Definition try_from (max v : Z) : option Z :=
  if (0 <=? v) && (v <=? max) then Some v else None.
Definition checked_add (max a b : Z) : option Z :=
  if a + b <=? max then Some (a + b) else None.
Definition checked_mul (max a b : Z) : option Z :=
  if a * b <=? max then Some (a * b) else None.
Definition checked_sub (a b : Z) : option Z :=
  if b <=? a then Some (a - b) else None.

Lemma try_from_Some max v w : try_from max v = Some w <-> 0 <= v <= max /\ w = v.
Proof. unfold try_from. case_match eqn:Hb; bool_prop; [naive_solver lia|].
  split; [done|]. intros [? ->]. apply andb_false_iff in Hb. bool_prop.
  destruct Hb; bool_prop; lia. Qed.

Lemma checked_add_Some max a b c : checked_add max a b = Some c <-> c = a + b /\ a + b <= max.
Proof. unfold checked_add. case_match; bool_prop; naive_solver lia. Qed.

Lemma checked_mul_Some max a b c : checked_mul max a b = Some c <-> c = a * b /\ a * b <= max.
Proof. unfold checked_mul. case_match; bool_prop; naive_solver lia. Qed.

Lemma checked_sub_Some a b c : checked_sub a b = Some c <-> c = a - b /\ b <= a.
Proof. unfold checked_sub. case_match; bool_prop; naive_solver lia. Qed.

(** ** Slices

    Offsets are [Z], as the code computes them; [get_range] is
    [slice.get(a..b)] and [get_at] is [slice.get(i)]. *)
Definition len {A} (l : list A) : Z := Z.of_nat (length l).
Definition slice {A} (l : list A) (a b : Z) : list A :=
  take (Z.to_nat (b - a)) (drop (Z.to_nat a) l).
Definition get_range {A} (l : list A) (a b : Z) : option (list A) :=
  if (0 <=? a) && (a <=? b) && (b <=? len l) then Some (slice l a b) else None.
Definition get_at {A} (l : list A) (i : Z) : option A :=
  if 0 <=? i then l !! Z.to_nat i else None.

(** [slice.iter().position(p)] *)
Fixpoint position {A} (p : A -> bool) (l : list A) : option Z :=
  match l with
  | [] => None
  | x :: l => if p x then Some 0 else Z.succ <$> position p l
  end.

(** [vec![x; n]] *)
Definition fill {A} (n : Z) (x : A) : list A := replicate (Z.to_nat n) x.

(** [v.resize(n, x)] *)
Definition resize_to {A} (n : Z) (x : A) (l : list A) : list A :=
  if n <=? len l then take (Z.to_nat n) l else l ++ fill (n - len l) x.

(** [v[a..b].copy_from_slice(w)]: panics out of range or on unequal lengths. *)
Definition copy_at {A} (l : list A) (a b : Z) (w : list A) : option (list A) :=
  if (0 <=? a) && (a <=? b) && (b <=? len l) && (len w =? b - a)
  then Some (take (Z.to_nat a) l ++ w ++ drop (Z.to_nat b) l) else None.

(** These are rewritten with their laws, never unfolded by [cbn]. *)
#[global] Arguments len {A} l : simpl never.
#[global] Arguments slice {A} l a b : simpl never.
#[global] Arguments get_range {A} l a b : simpl never.
#[global] Arguments get_at {A} l i : simpl never.
#[global] Arguments copy_at {A} l a b w : simpl never.
#[global] Arguments resize_to {A} n x l : simpl never.
#[global] Arguments fill {A} n x : simpl never.

Section slices.
Context {A : Type}.
Implicit Types l p q s : list A.

Lemma len_nonneg l : 0 <= len l.
Proof. unfold len. lia. Qed.
Lemma len_nil : len (@nil A) = 0.
Proof. done. Qed.
Lemma len_cons x l : len (x :: l) = 1 + len l.
Proof. unfold len. cbn [length]. lia. Qed.
Lemma len_app p q : len (p ++ q) = len p + len q.
Proof. unfold len. rewrite length_app. lia. Qed.
Lemma len_fill n (x : A) : 0 <= n -> len (fill n x) = n.
Proof. intros. unfold len, fill. rewrite length_replicate. lia. Qed.
Lemma len_0 l : len l = 0 <-> l = [].
Proof. unfold len. destruct l; cbn; [done|]. split; [lia|done]. Qed.
Lemma len_take n l : 0 <= n <= len l -> len (take (Z.to_nat n) l) = n.
Proof. unfold len. rewrite length_take. lia. Qed.
Lemma len_drop n l : 0 <= n <= len l -> len (drop (Z.to_nat n) l) = len l - n.
Proof. unfold len. rewrite length_drop. lia. Qed.

Lemma len_slice l a b : 0 <= a -> a <= b -> b <= len l -> len (slice l a b) = b - a.
Proof. intros. unfold len, slice in *. rewrite length_take, length_drop. lia. Qed.

Lemma get_range_Some l a b s :
  get_range l a b = Some s <-> 0 <= a /\ a <= b /\ b <= len l /\ s = slice l a b.
Proof.
  unfold get_range. case_match eqn:Hb; bool_prop; [naive_solver|].
  split; [done|]. intros (?&?&?&?).
  rewrite !andb_false_iff in Hb. destruct Hb as [[Hb|Hb]|Hb]; bool_prop; lia.
Qed.

Lemma get_range_len l a b s : get_range l a b = Some s -> len s = b - a.
Proof. intros (?&?&?&->)%get_range_Some. by apply len_slice. Qed.

Lemma get_at_Some l i x : get_at l i = Some x -> 0 <= i < len l.
Proof.
  unfold get_at, len. case_match; [|done]. bool_prop.
  intros Hx%lookup_lt_Some. lia.
Qed.

Lemma get_at_is_Some l i : 0 <= i < len l -> is_Some (get_at l i).
Proof.
  intros [? ?]. unfold get_at, len in *.
  destruct (Z.leb_spec 0 i); [|lia]. apply lookup_lt_is_Some. lia.
Qed.

Lemma get_range_is_Some l a b : 0 <= a -> a <= b -> b <= len l -> is_Some (get_range l a b).
Proof. intros. exists (slice l a b). by apply get_range_Some. Qed.

(** The middle of a concatenation, the workhorse of every round trip. *)
Lemma slice_app_mid p s q a b :
  a = len p -> b = len p + len s -> slice (p ++ s ++ q) a b = s.
Proof.
  intros -> ->. unfold slice, len.
  rewrite drop_app_length' by lia. rewrite take_app_length' by lia. done.
Qed.

Lemma get_range_app_mid p s q a b :
  a = len p -> b = len p + len s -> get_range (p ++ s ++ q) a b = Some s.
Proof.
  intros -> ->. apply get_range_Some.
  pose proof (len_nonneg p). pose proof (len_nonneg s). pose proof (len_nonneg q).
  rewrite !len_app. repeat split; try lia. by rewrite slice_app_mid.
Qed.

Lemma slice_split l a b c :
  0 <= a -> a <= b -> b <= c -> c <= len l -> slice l a c = slice l a b ++ slice l b c.
Proof.
  intros. unfold slice.
  replace (Z.to_nat (c - a)) with (Z.to_nat (b - a) + Z.to_nat (c - b))%nat by lia.
  rewrite <- take_take_drop. f_equal. rewrite drop_drop. do 2 f_equal. lia.
Qed.

Lemma slice_full l : slice l 0 (len l) = l.
Proof. unfold slice, len. rewrite drop_0. apply take_ge. lia. Qed.

Lemma slice_empty l a : slice l a a = [].
Proof. unfold slice. by replace (Z.to_nat (a - a)) with 0%nat by lia. Qed.

Lemma slice_suffix l a : 0 <= a -> slice l a (len l) = drop (Z.to_nat a) l.
Proof. intros. unfold slice, len. apply take_ge. rewrite length_drop. lia. Qed.

Lemma slice_prefix l b : slice l 0 b = take (Z.to_nat b) l.
Proof. unfold slice. rewrite drop_0. f_equal. lia. Qed.

Lemma position_Some (f : A -> bool) l n :
  position f l = Some n ->
  exists x q, l = take (Z.to_nat n) l ++ x :: q /\ f x = true /\ 0 <= n < len l /\
    Forall (fun y => f y = false) (take (Z.to_nat n) l).
Proof.
  revert n; induction l as [|y l IH]; intros n; cbn; [done|].
  rewrite len_cons. pose proof (len_nonneg l).
  destruct (f y) eqn:Hy.
  - intros [= <-]. exists y, l. cbn. repeat split; try done; lia.
  - destruct (position f l) as [m|]; [|done]. intros [= <-].
    destruct (IH m) as (x & q & Hl & Hx & Hm & Hall); [done|].
    exists x, q. replace (Z.to_nat (Z.succ m)) with (S (Z.to_nat m)) by lia. cbn.
    repeat split; try lia; [by rewrite <- Hl|done|by constructor].
Qed.

Lemma position_None (f : A -> bool) l :
  position f l = None <-> Forall (fun y => f y = false) l.
Proof.
  induction l as [|y l IH]; cbn; [done|]. rewrite Forall_cons.
  destruct (f y); [naive_solver|]. destruct (position f l); cbn; naive_solver.
Qed.

Lemma position_app (f : A -> bool) p x q :
  Forall (fun y => f y = false) p -> f x = true -> position f (p ++ x :: q) = Some (len p).
Proof.
  intros Hp Hx. induction Hp as [|y p Hy Hp IH]; cbn; [by rewrite Hx|].
  rewrite Hy, IH, len_cons. cbn. f_equal. lia.
Qed.

Lemma copy_at_Some l a b w l' :
  copy_at l a b w = Some l' <->
  0 <= a /\ a <= b /\ b <= len l /\ len w = b - a /\
  l' = take (Z.to_nat a) l ++ w ++ drop (Z.to_nat b) l.
Proof.
  unfold copy_at. case_match eqn:Hb; bool_prop; [naive_solver|].
  split; [done|]. intros (?&?&?&?&?).
  rewrite !andb_false_iff in Hb. destruct Hb as [[[Hb|Hb]|Hb]|Hb]; bool_prop; lia.
Qed.

Lemma copy_at_len l a b w l' : copy_at l a b w = Some l' -> len l' = len l.
Proof.
  intros (?&?&?&?&->)%copy_at_Some. rewrite !len_app, len_take, len_drop by lia. lia.
Qed.
End slices.

#[export] Hint Resolve len_nonneg : aros.

(** ** Loops that accept exactly the lists of a prefix-closed property

    A validation loop carries a summary [abs] of the items seen so far; when
    each round accepts exactly the items that keep [L], the loop accepts
    exactly the lists in [L]. *)
Lemma foldM_iff {E S A} (f : S -> A -> res E S) (abs : list A -> S) (L : list A -> Prop) l :
  L [] -> (forall pre x, L (pre ++ [x]) -> L pre) ->
  (forall pre x s, x ∈ l -> L pre ->
     f (abs pre) x = Ok s <-> s = abs (pre ++ [x]) /\ L (pre ++ [x])) ->
  forall s, foldM f (abs []) l = Ok s <-> s = abs l /\ L l.
Proof.
  intros H0 Hpre. induction l as [|x l IH] using rev_ind; intros Hstep s; cbn [foldM].
  - split; [by intros [= <-]|by intros [-> _]].
  - assert (forall s, foldM f (abs []) l = Ok s <-> s = abs l /\ L l) as IH'.
    { apply IH. intros; apply Hstep; set_solver. }
    assert (x ∈ l ++ [x]) as Hx by set_solver.
    rewrite foldM_app, bind_Ok. cbn [foldM]. split.
    + intros (s1 & [-> HL]%IH' & (s2 & Hf & [= <-])%bind_Ok). by apply Hstep.
    + intros [-> HL]. exists (abs l). split; [apply IH'; eauto|].
      rewrite (proj2 (Hstep l x (abs (l ++ [x])) Hx (Hpre _ _ HL))) by done. done.
Qed.

(** A loop fails with the error of its first failing round. *)
Lemma foldM_Err {E S A} (f : S -> A -> res E S) l : forall s e, foldM f s l = Err e ->
  exists pre x post s', l = pre ++ x :: post /\ foldM f s pre = Ok s' /\ f s' x = Err e.
Proof.
  induction l as [|x l IH]; intros s e; cbn; [done|]. destruct (f s x) as [s1|e1|] eqn:Hx; cbn; [|intros [= <-]|done].
  - intros (pre & y & post & s' & -> & Hpre & Hy)%IH. exists (x :: pre), y, post, s'. cbn. by rewrite Hx.
  - by exists [], x, l, s.
Qed.

(** ** Pairwise properties of sequences *)
Section pairwise.
Context {A : Type} (R : A -> A -> Prop).

Lemma ForallOrdPairs_snoc l x :
  ForallOrdPairs R (l ++ [x]) <-> ForallOrdPairs R l /\ Forall (fun y => R y x) l.
Proof.
  induction l as [|y l IH]; cbn.
  - split; [by repeat constructor|]. intros _. repeat constructor.
  - split.
    + intros Hp. inversion Hp as [|? ? Hy Hl]; subst. apply IH in Hl as [Hl Hx].
      apply List.Forall_app in Hy as [Hy Hyx]. inversion Hyx; subst. split; constructor; done.
    + intros [Hp Hx]. inversion Hp; subst. inversion Hx; subst. constructor; [|by apply IH].
      apply List.Forall_app. by repeat constructor.
Qed.

Lemma ForallOrdPairs_lookup l :
  ForallOrdPairs R l <->
  forall i j x y, (i < j)%nat -> l !! i = Some x -> l !! j = Some y -> R x y.
Proof.
  induction l as [|z l IH]; [split; [done|constructor]|]. split.
  - intros Hp. inversion Hp as [|? ? Hz Hl]; subst. intros [|i] [|j] x y Hij; cbn; try lia.
    + intros [= <-] Hy%list_elem_of_lookup_2. rewrite List.Forall_forall in Hz.
      apply Hz. by apply list_elem_of_In.
    + apply IH; [done|lia].
  - intros Hp. constructor.
    + apply List.Forall_forall. intros y Hy%list_elem_of_In%list_elem_of_lookup_1.
      destruct Hy as [j Hy]. apply (Hp 0%nat (S j)); [lia|done|done].
    + apply IH. intros i j x y Hij. apply (Hp (S i) (S j)). lia.
Qed.
End pairwise.

Lemma ForallOrdPairs_impl {A} (R S : A -> A -> Prop) l :
  (forall x y, R x y -> S x y) -> ForallOrdPairs R l -> ForallOrdPairs S l.
Proof. intros HRS. rewrite !ForallOrdPairs_lookup. eauto. Qed.

Lemma NoDup_snoc {A} (l : list A) x : NoDup (l ++ [x]) <-> NoDup l /\ x ∉ l.
Proof. rewrite NoDup_app. setoid_rewrite list_elem_of_singleton. pose proof (NoDup_singleton x). naive_solver. Qed.

Lemma existsb_false_Forall {A} (f : A -> bool) l :
  existsb f l = false <-> Forall (fun x => f x = false) l.
Proof.
  induction l as [|x l IH]; cbn; [done|]. rewrite Forall_cons, orb_false_iff, IH. done.
Qed.

Lemma ensure_bind_Ok {E A} b (e : E) (k : unit -> res E A) x : (ensure b e ≫= k) = Ok x <-> b = true /\ k tt = Ok x.
Proof. destruct b; cbn; naive_solver. Qed.

Lemma refuse_bind_Ok {E A} b (e : E) (k : res E A) a :
  (_ ← refuse b e; k) = Ok a <-> b = false /\ k = Ok a.
Proof. destruct b; cbn; naive_solver. Qed.

Lemma NoDup_map_snoc {A B} (f : A -> B) l x :
  NoDup (map f (l ++ [x])) <-> NoDup (map f l) /\ f x ∉ map f l.
Proof. rewrite map_app. apply NoDup_snoc. Qed.

(** Bit [i] of [v], as the mask test [v & (1 << i) != 0] reads it. *)
Lemma land_pow2_testbit v i : 0 <= i -> negb (Z.land v (2 ^ i) =? 0) = Z.testbit v i.
Proof.
  intros Hi. destruct (Z.testbit v i) eqn:Hb.
  - rewrite negb_true_iff, Z.eqb_neq. intros H0.
    assert (Z.testbit (Z.land v (2 ^ i)) i = true) as Ht
      by by rewrite Z.land_spec, Hb, Z.pow2_bits_true.
    by rewrite H0, Z.bits_0 in Ht.
  - rewrite negb_false_iff, Z.eqb_eq. apply Z.bits_inj_0. intros j. rewrite Z.land_spec.
    destruct (decide (i = j)) as [<-|Hne]; [by rewrite Hb|].
    rewrite Z.pow2_bits_false by done. by rewrite andb_false_r.
Qed.

(** Running a successful prefix of a computation, one step at a time. *)
Lemma step_Ok {E A B} (c : res E A) (f : A -> res E B) a r : c = Ok a -> f a = r -> (c ≫= f) = r.
Proof. by intros -> <-. Qed.
Ltac step_by tac := eapply step_Ok; [solve [tac]|cbn beta].

Lemma step_refuse {E A} b (e : E) (k : unit -> res E A) r :
  b = false -> k tt = r -> (refuse b e ≫= k) = r.
Proof. by intros -> <-. Qed.
Lemma step_ensure {E A} b (e : E) (k : unit -> res E A) r :
  b = true -> k tt = r -> (ensure b e ≫= k) = r.
Proof. by intros -> <-. Qed.
(** [guard_by tac]: pass one guard whose condition [tac] decides. *)
Ltac guard_by tac := (apply step_refuse || apply step_ensure); [solve [tac]|cbn beta].

Lemma fill_add {A} a b (x : A) : 0 <= a -> 0 <= b -> fill (a + b) x = fill a x ++ fill b x.
Proof. intros. unfold fill. by rewrite Z2Nat.inj_add, replicate_add. Qed.

Lemma slice_one {A} (l : list A) i x : get_at l i = Some x -> slice l i (i + 1) = [x].
Proof.
  unfold get_at, slice. case_match; [|done]. intros Hx. bool_prop.
  replace (Z.to_nat (i + 1 - i)) with 1%nat by lia.
  by erewrite drop_S by exact Hx.
Qed.

Lemma existsb_fill (x : Z) l : existsb (fun b => negb (b =? x)) l = false -> l = fill (len l) x.
Proof.
  rewrite existsb_false_Forall. unfold fill, len. rewrite Nat2Z.id.
  induction 1 as [|y l Hy Hl IH]; [done|]. cbn. bool_prop. by subst; f_equal.
Qed.

Lemma fill_existsb (x : Z) n : existsb (fun b => negb (b =? x)) (fill n x) = false.
Proof. apply existsb_false_Forall, Forall_replicate, negb_false_iff, Z.eqb_refl. Qed.

Lemma slice_slice {A} (l : list A) a b c d :
  0 <= a -> 0 <= c -> c <= d -> a + d <= b -> b <= len l ->
  slice (slice l a b) c d = slice l (a + c) (a + d).
Proof.
  intros. unfold slice, len in *. rewrite skipn_firstn_comm, take_take, drop_drop.
  rewrite Nat.min_l by lia. f_equal; [lia|]. f_equal. lia.
Qed.

Lemma slice_app_l {A} (l1 l2 : list A) a b : 0 <= a -> b <= len l1 ->
  slice (l1 ++ l2) a b = slice l1 a b.
Proof.
  intros. unfold slice, len in *. destruct (decide (a <= b)).
  - rewrite drop_app_le by lia. apply take_app_le. rewrite length_drop. lia.
  - by replace (Z.to_nat (b - a)) with 0%nat by lia.
Qed.

Lemma get_at_app_l {A} (l1 l2 : list A) i : i < len l1 -> get_at (l1 ++ l2) i = get_at l1 i.
Proof. intros. unfold get_at, len in *. case_match; [|done]. bool_prop. apply lookup_app_l. lia. Qed.

Lemma get_at_mid {A} (p q : list A) x i : i = len p -> get_at (p ++ x :: q) i = Some x.
Proof.
  intros ->. unfold get_at, len. case_match; bool_prop; [|lia].
  by rewrite Nat2Z.id, list_lookup_middle.
Qed.

(** ** [slice.sort_by_key]: a stable sort by an integer key *)
Section sorting.
Context {A : Type} (key : A -> Z).

Fixpoint insert_by_key (x : A) (l : list A) : list A :=
  match l with
  | [] => [x]
  | y :: l' => if key x <=? key y then x :: l else y :: insert_by_key x l'
  end.
Definition sort_by_key (l : list A) : list A := foldr insert_by_key [] l.

Definition key_le (x y : A) : Prop := key x <= key y.

Lemma insert_by_key_perm x l : insert_by_key x l ≡ₚ x :: l.
Proof.
  induction l as [|y l IH]; cbn; [done|]. case_match; [done|].
  rewrite IH. apply Permutation_swap.
Qed.

Lemma sort_by_key_perm l : sort_by_key l ≡ₚ l.
Proof. induction l as [|x l IH]; cbn; [done|]. by rewrite insert_by_key_perm, IH. Qed.

Lemma insert_by_key_sorted x l : ForallOrdPairs key_le l -> ForallOrdPairs key_le (insert_by_key x l).
Proof.
  induction 1 as [|y l Hy Hl IH]; cbn; [repeat constructor|]. unfold key_le in *.
  destruct (Z.leb_spec (key x) (key y)).
  - constructor; [|by constructor]. constructor; [done|].
    eapply Forall_impl; [exact Hy|]. cbn. lia.
  - constructor; [|done]. rewrite insert_by_key_perm. constructor; [lia|done].
Qed.

Lemma sort_by_key_sorted l : ForallOrdPairs key_le (sort_by_key l).
Proof. induction l; cbn; [constructor|by apply insert_by_key_sorted]. Qed.

(** With distinct keys the sorted order is unique. *)
Lemma sorted_unique l1 l2 : l1 ≡ₚ l2 -> NoDup (map key l1) ->
  ForallOrdPairs key_le l1 -> ForallOrdPairs key_le l2 -> l1 = l2.
Proof.
  revert l2; induction l1 as [|x l1 IH]; intros l2 Hp Hnd H1 H2.
  - by apply Permutation_nil_l in Hp.
  - destruct l2 as [|y l2]; [by apply Permutation_nil_r in Hp|].
    inversion H1 as [|? ? Hx H1']; inversion H2 as [|? ? Hy H2']; subst.
    assert (x = y) as ->.
    { destruct (decide (key x = key y)) as [E|Hne].
      - assert (y ∈ x :: l1) as Hin by (rewrite Hp; set_solver).
        apply elem_of_cons in Hin as [->|Hin]; [done|].
        cbn in Hnd. apply NoDup_cons in Hnd as [Hnin _].
        exfalso. apply Hnin. rewrite E. by apply list_elem_of_fmap_2.
      - exfalso. assert (y ∈ x :: l1) as Hyin by (rewrite Hp; set_solver).
        assert (x ∈ y :: l2) as Hxin by (rewrite <- Hp; set_solver).
        apply elem_of_cons in Hyin as [->|Hyin]; [done|].
        apply elem_of_cons in Hxin as [->|Hxin]; [done|].
        rewrite Forall_forall in Hx, Hy. specialize (Hx y Hyin). specialize (Hy x Hxin).
        unfold key_le in *. lia. }
    f_equal. apply IH; [by apply Permutation_cons_inv in Hp|by apply NoDup_cons in Hnd as [_ ?]|done|done].
Qed.

Lemma sort_by_key_unique l1 l2 : l1 ≡ₚ l2 -> NoDup (map key l1) -> sort_by_key l1 = sort_by_key l2.
Proof.
  intros Hp Hnd. apply sorted_unique; auto using sort_by_key_sorted.
  - by rewrite !sort_by_key_perm.
  - by rewrite sort_by_key_perm.
Qed.
End sorting.

(** A symmetric pairwise property does not depend on the order. *)
Lemma ForallOrdPairs_perm {A} (R : A -> A -> Prop) l l' :
  (forall x y, R x y -> R y x) -> l ≡ₚ l' -> ForallOrdPairs R l -> ForallOrdPairs R l'.
Proof.
  intros Hsym Hp. induction Hp as [|x l l' Hp IH|x y l|l1 l2 l3 _ IH1 _ IH2]; intros HF; [done|..].
  - inversion HF; subst. constructor; [by rewrite <- Hp|auto].
  - inversion HF as [|? ? Hy HF']; inversion HF' as [|? ? Hx HF'']; subst.
    apply Forall_cons in Hy as [Hyx Hy]. repeat (constructor; auto).
  - auto.
Qed.

(** Pairwise distinct keys. *)
Lemma ForallOrdPairs_NoDup {A B} (f : A -> B) l :
  ForallOrdPairs (fun x y => f x <> f y) l -> NoDup (map f l).
Proof.
  induction 1 as [|x l Hx Hl IH]; cbn; [constructor|]. constructor; [|done].
  intros (y & E & Hy)%list_elem_of_fmap_1. rewrite Forall_forall in Hx. by apply (Hx y Hy).
Qed.

Lemma lor_disjoint a b : Z.land a b = 0 -> Z.lor a b = a + b.
Proof. intros Hl. by rewrite Z.add_nocarry_lxor, Z.lxor_lor. Qed.

Lemma foldM_ext {E S A} (f g : S -> A -> res E S) l :
  (forall s x, f s x = g s x) -> forall s, foldM f s l = foldM g s l.
Proof.
  intros Hfg. induction l as [|x l IH]; intros s; cbn; [done|]. rewrite Hfg.
  destruct (g s x); cbn; auto.
Qed.

Lemma get_range_prefix {A} (s q : list A) : get_range (s ++ q) 0 (len s) = Some s.
Proof. by apply (get_range_app_mid [] s q). Qed.
