(* ===== verification/Bytes.v ===== *)
(** * Bytes: fixed-width integers as byte strings

    [uN::to_le_bytes], [to_be_bytes] and their inverses.  A byte is a [Z];
    [Forall is_u8] says that a list really is a byte string. *)

From S2P Require Import Prelude.

(** [to_le_bytes] of an [n]-byte integer. *)
Fixpoint to_le (n : nat) (v : Z) : list Z :=
  match n with
  | O => []
  | S n => v mod 256 :: to_le n (v / 256)
  end.

(** [from_le_bytes] *)
Fixpoint of_le (l : list Z) : Z :=
  match l with
  | [] => 0
  | b :: l => b + 256 * of_le l
  end.

Definition to_be (n : nat) (v : Z) : list Z := rev (to_le n v).
Definition of_be (l : list Z) : Z := of_le (rev l).

Section endian.
Lemma length_to_le n v : length (to_le n v) = n.
Proof. revert v; induction n; intros; cbn; auto. Qed.

Lemma len_to_le n v : len (to_le n v) = Z.of_nat n.
Proof. unfold len. by rewrite length_to_le. Qed.

Lemma to_le_u8 n v : Forall is_u8 (to_le n v).
Proof.
  revert v; induction n; intros; cbn; constructor; auto.
  unfold is_u8, u8_max. pose proof (Z.mod_pos_bound v 256). lia.
Qed.

Lemma of_to_le n v : 0 <= v < 256 ^ Z.of_nat n -> of_le (to_le n v) = v.
Proof.
  revert v; induction n as [|n IH]; intros v Hv; cbn [to_le of_le].
  - change (Z.of_nat 0) with 0 in Hv. lia.
  - rewrite IH.
    + pose proof (Z.div_mod v 256). lia.
    + rewrite Nat2Z.inj_succ, Z.pow_succ_r in Hv by lia. split.
      * apply Z.div_pos; lia.
      * apply Z.div_lt_upper_bound; lia.
Qed.

Lemma to_of_le l : Forall is_u8 l -> to_le (length l) (of_le l) = l.
Proof.
  induction 1 as [|b l Hb Hl IH]; cbn; [done|].
  unfold is_u8, u8_max in Hb.
  replace ((b + 256 * of_le l) mod 256) with b.
  2:{ rewrite Z.mul_comm, Z_mod_plus_full, Z.mod_small; lia. }
  replace ((b + 256 * of_le l) / 256) with (of_le l).
  2:{ rewrite Z.mul_comm, Z.div_add, Z.div_small by lia. lia. }
  by rewrite IH.
Qed.

Lemma of_le_range l : Forall is_u8 l -> 0 <= of_le l < 256 ^ len l.
Proof.
  induction 1 as [|b l Hb Hl IH]; cbn [of_le]; [by cbn|].
  rewrite len_cons, Z.pow_add_r by (pose proof (len_nonneg l); lia).
  unfold is_u8, u8_max in Hb. lia.
Qed.

Lemma len_to_be n v : len (to_be n v) = Z.of_nat n.
Proof. unfold to_be, len. by rewrite length_rev, length_to_le. Qed.

Lemma to_be_u8 n v : Forall is_u8 (to_be n v).
Proof. unfold to_be. apply Forall_rev, to_le_u8. Qed.

Lemma of_to_be n v : 0 <= v < 256 ^ Z.of_nat n -> of_be (to_be n v) = v.
Proof. intros. unfold to_be, of_be. rewrite rev_involutive. by apply of_to_le. Qed.

Lemma to_of_be l : Forall is_u8 l -> to_be (length l) (of_be l) = l.
Proof.
  intros. unfold to_be, of_be. rewrite <- length_rev, to_of_le, rev_involutive by by apply Forall_rev.
  done.
Qed.

Lemma of_be_range l : Forall is_u8 l -> 0 <= of_be l < 256 ^ len l.
Proof.
  intros H. unfold of_be. replace (len l) with (len (rev l)) by (unfold len; by rewrite length_rev).
  by apply of_le_range, Forall_rev.
Qed.

Lemma Forall_slice {A} (P : A -> Prop) (l : list A) a b : Forall P l -> Forall P (slice l a b).
Proof. intros. unfold slice. by apply Forall_take, Forall_drop. Qed.

Lemma get_range_Forall {A} (P : A -> Prop) (l s : list A) a b :
  get_range l a b = Some s -> Forall P l -> Forall P s.
Proof. intros (_&_&_&->)%get_range_Some. apply Forall_slice. Qed.
End endian.

(** Width-specific instances used by the formats. *)
Lemma of_to_le_u32 v : 0 <= v <= u32_max -> of_le (to_le 4 v) = v.
Proof. intros. apply of_to_le. unfold u32_max in *. lia. Qed.
Lemma of_to_be_u32 v : 0 <= v <= u32_max -> of_be (to_be 4 v) = v.
Proof. intros. apply of_to_be. unfold u32_max in *. lia. Qed.

Lemma of_le_u32 l : len l = 4 -> Forall is_u8 l -> 0 <= of_le l <= u32_max.
Proof. intros Hl H%of_le_range. rewrite Hl in H. unfold u32_max. lia. Qed.
Lemma of_be_u32 l : len l = 4 -> Forall is_u8 l -> 0 <= of_be l <= u32_max.
Proof. intros Hl H%of_be_range. rewrite Hl in H. unfold u32_max. lia. Qed.

(** The value of four octets, most significant first. *)
Lemma of_be_4 w x y z : of_be [w; x; y; z] = w * 2 ^ 24 + x * 2 ^ 16 + y * 2 ^ 8 + z.
Proof. unfold of_be. cbn [rev app of_le]. lia. Qed.

#[export] Hint Resolve to_le_u8 to_be_u8 get_range_Forall Forall_slice : aros.
Global Opaque to_le to_be of_be.

(** Deciding [Forall is_u8] on concrete byte strings. *)
Lemma forallb_u8 l : forallb is_u8b l = true -> Forall is_u8 l.
Proof.
  rewrite forallb_forall, Forall_forall. intros Hl b Hb%list_elem_of_In%Hl.
  unfold is_u8b in Hb. bool_prop. done.
Qed.

(** A little-endian [u32] read in range, and the bytes it stands for. *)
Lemma u32_slice bytes i : Forall is_u8 bytes -> 0 <= i -> i + 4 <= len bytes ->
  0 <= of_le (slice bytes i (i + 4)) <= u32_max /\
  to_le 4 (of_le (slice bytes i (i + 4))) = slice bytes i (i + 4).
Proof.
  intros Hu Hi Hl. pose proof (len_slice bytes i (i + 4) ltac:(lia) ltac:(lia) ltac:(lia)) as E.
  split; [apply of_le_u32; [lia|by apply Forall_slice]|].
  replace 4%nat with (length (slice bytes i (i + 4))) at 1 by (unfold len in E; lia).
  apply to_of_le. by apply Forall_slice.
Qed.

Lemma get_at_u8 l i x : Forall is_u8 l -> get_at l i = Some x -> is_u8 x.
Proof.
  intros Hu. unfold get_at. case_match; [|done]. by apply Forall_lookup_1.
Qed.
