(* ===== verification/Text.v ===== *)
(** * Text: Rust strings, UTF-8 and the string operations the tools use

    A Rust [String] is the list of its Unicode scalar values; its bytes are
    recovered with [utf8].  Literals of the sources are ASCII and written with
    [rs].  The file also models [aros_common::text::decode_source]. *)

From S2P Require Import Prelude.
From Stdlib Require Strings.String Strings.Byte.
Export String.StringSyntax.

(** An ASCII literal of the source as a Rust string (equally: [b"..."]). *)
Definition rs (s : String.string) : list Z :=
  map (fun b => Z.of_N (Byte.to_N b)) (String.list_byte_of_string s).
Arguments rs _%_string_scope.

(** ** Characters *)
Definition is_scalar (c : Z) : bool :=
  ((0 <=? c) && (c <=? 0xD7FF)) || ((0xE000 <=? c) && (c <=? 0x10FFFF)).
Definition in_range (lo hi c : Z) : bool := (lo <=? c) && (c <=? hi).
Definition is_ascii_digit (c : Z) : bool := in_range 48 57 c.
Definition is_ascii_lowercase (c : Z) : bool := in_range 97 122 c.
Definition is_ascii_uppercase (c : Z) : bool := in_range 65 90 c.
Definition is_ascii_alphanumeric (c : Z) : bool :=
  is_ascii_digit c || is_ascii_lowercase c || is_ascii_uppercase c.
Definition is_ascii_hexdigit (c : Z) : bool :=
  is_ascii_digit c || in_range 97 102 c || in_range 65 70 c.
Definition is_ascii_graphic (c : Z) : bool := in_range 0x21 0x7e c.
Definition is_ascii_whitespace (c : Z) : bool :=
  (c =? 32) || (c =? 9) || (c =? 10) || (c =? 12) || (c =? 13).
Definition to_ascii_lower (c : Z) : Z := if is_ascii_uppercase c then c + 32 else c.
Definition to_ascii_upper (c : Z) : Z := if is_ascii_lowercase c then c - 32 else c.
Definition to_ascii_lowercase (s : list Z) : list Z := map to_ascii_lower s.
Definition to_ascii_uppercase (s : list Z) : list Z := map to_ascii_upper s.

(** [char::is_whitespace]: the Unicode property White_Space. *)
Definition is_whitespace (c : Z) : bool :=
  in_range 9 13 c || (c =? 0x20) || (c =? 0x85) || (c =? 0xA0) || (c =? 0x1680)
  || in_range 0x2000 0x200A c || (c =? 0x2028) || (c =? 0x2029) || (c =? 0x202F)
  || (c =? 0x205F) || (c =? 0x3000).

(** ** UTF-8 *)
Definition utf8_char (c : Z) : list Z :=
  if c <? 0x80 then [c]
  else if c <? 0x800 then [0xC0 + c / 64; 0x80 + c mod 64]
  else if c <? 0x10000 then [0xE0 + c / 4096; 0x80 + c / 64 mod 64; 0x80 + c mod 64]
  else [0xF0 + c / 262144; 0x80 + c / 4096 mod 64; 0x80 + c / 64 mod 64; 0x80 + c mod 64].

(** [str::as_bytes] *)
Definition utf8 (s : list Z) : list Z := s ≫= utf8_char.

(** [str::len] *)
Definition str_len (s : list Z) : Z := len (utf8 s).

Definition is_cont (b : Z) : bool := in_range 0x80 0xBF b.
(** Lead bytes, and second bytes that exclude overlong forms, surrogates and
    values above U+10FFFF. *)
Definition lead2 (b : Z) : bool := in_range 0xC2 0xDF b.
Definition lead3 (b : Z) : bool := in_range 0xE0 0xEF b.
Definition lead4 (b : Z) : bool := in_range 0xF0 0xF4 b.
Definition second3 (b0 b1 : Z) : bool :=
  if b0 =? 0xE0 then in_range 0xA0 0xBF b1
  else if b0 =? 0xED then in_range 0x80 0x9F b1
  else is_cont b1.
Definition second4 (b0 b1 : Z) : bool :=
  if b0 =? 0xF0 then in_range 0x90 0xBF b1
  else if b0 =? 0xF4 then in_range 0x80 0x8F b1
  else is_cont b1.
Definition dec2 (b0 b1 : Z) : Z := (b0 - 0xC0) * 64 + (b1 - 0x80).
Definition dec3 (b0 b1 b2 : Z) : Z := ((b0 - 0xE0) * 64 + (b1 - 0x80)) * 64 + (b2 - 0x80).
Definition dec4 (b0 b1 b2 b3 : Z) : Z :=
  (((b0 - 0xF0) * 64 + (b1 - 0x80)) * 64 + (b2 - 0x80)) * 64 + (b3 - 0x80).

(** [std::str::from_utf8] *)
Fixpoint from_utf8 (l : list Z) : option (list Z) :=
  match l with
  | [] => Some []
  | b0 :: l1 =>
    if in_range 0 0x7F b0 then cons b0 <$> from_utf8 l1 else
    match l1 with
    | [] => None
    | b1 :: l2 =>
      if lead2 b0 && is_cont b1 then cons (dec2 b0 b1) <$> from_utf8 l2 else
      match l2 with
      | [] => None
      | b2 :: l3 =>
        if lead3 b0 && second3 b0 b1 && is_cont b2
        then cons (dec3 b0 b1 b2) <$> from_utf8 l3 else
        match l3 with
        | [] => None
        | b3 :: l4 =>
          if lead4 b0 && second4 b0 b1 && is_cont b2 && is_cont b3
          then cons (dec4 b0 b1 b2 b3) <$> from_utf8 l4 else None
        end
      end
    end
  end.

(** [String::from_utf8_lossy]: every maximal invalid prefix becomes U+FFFD. *)
Fixpoint from_utf8_lossy (l : list Z) : list Z :=
  match l with
  | [] => []
  | b0 :: l1 =>
    if in_range 0 0x7F b0 then b0 :: from_utf8_lossy l1
    else if lead2 b0 then
      match l1 with
      | b1 :: l2 => if is_cont b1 then dec2 b0 b1 :: from_utf8_lossy l2
                    else 0xFFFD :: from_utf8_lossy l1
      | [] => [0xFFFD]
      end
    else if lead3 b0 then
      match l1 with
      | b1 :: l2 =>
        if second3 b0 b1 then
          match l2 with
          | b2 :: l3 => if is_cont b2 then dec3 b0 b1 b2 :: from_utf8_lossy l3
                        else 0xFFFD :: from_utf8_lossy l2
          | [] => [0xFFFD]
          end
        else 0xFFFD :: from_utf8_lossy l1
      | [] => [0xFFFD]
      end
    else if lead4 b0 then
      match l1 with
      | b1 :: l2 =>
        if second4 b0 b1 then
          match l2 with
          | b2 :: l3 =>
            if is_cont b2 then
              match l3 with
              | b3 :: l4 => if is_cont b3 then dec4 b0 b1 b2 b3 :: from_utf8_lossy l4
                            else 0xFFFD :: from_utf8_lossy l3
              | [] => [0xFFFD]
              end
            else 0xFFFD :: from_utf8_lossy l2
          | [] => [0xFFFD]
          end
        else 0xFFFD :: from_utf8_lossy l1
      | [] => [0xFFFD]
      end
    else 0xFFFD :: from_utf8_lossy l1
  end.

(** ** Searching and splitting (on strings and on byte strings alike) *)
Definition eqb_list (a b : list Z) : bool := bool_decide (a = b).

Fixpoint strip_prefix (p l : list Z) : option (list Z) :=
  match p, l with
  | [], _ => Some l
  | x :: p, y :: l => if x =? y then strip_prefix p l else None
  | _ :: _, [] => None
  end.
Definition starts_with (l p : list Z) : bool := bool_decide (is_Some (strip_prefix p l)).
Definition strip_suffix (p l : list Z) : option (list Z) :=
  @rev Z <$> strip_prefix (rev p) (rev l).
Definition ends_with (l p : list Z) : bool := bool_decide (is_Some (strip_suffix p l)).

(** [s.split(pred)] *)
Fixpoint split_on (f : Z -> bool) (l : list Z) : list (list Z) :=
  match l with
  | [] => [[]]
  | x :: l =>
    if f x then [] :: split_on f l
    else match split_on f l with
         | [] => [[x]]
         | w :: ws => (x :: w) :: ws
         end
  end.

(** [s.split_inclusive(c)] *)
Fixpoint split_inclusive (c : Z) (l : list Z) : list (list Z) :=
  match l with
  | [] => []
  | x :: l =>
    if x =? c then [x] :: split_inclusive c l
    else match split_inclusive c l with
         | [] => [[x]]
         | w :: ws => (x :: w) :: ws
         end
  end.

(** [s.split_once(c)] *)
Fixpoint split_once (c : Z) (l : list Z) : option (list Z * list Z) :=
  match l with
  | [] => None
  | x :: l => if x =? c then Some ([], l)
              else prod_map (cons x) id <$> split_once c l
  end.

Definition chop_newline (w : list Z) : list Z :=
  match strip_suffix [10] w with
  | None => w
  | Some w' => default w' (strip_suffix [13] w')
  end.
(** [s.lines()] *)
Definition lines (s : list Z) : list (list Z) := map chop_newline (split_inclusive 10 s).

Fixpoint trim_start (s : list Z) : list Z :=
  match s with
  | [] => []
  | c :: s' => if is_whitespace c then trim_start s' else s
  end.
Definition trim (s : list Z) : list Z := rev (trim_start (rev (trim_start s))).

(** ** Numbers as text *)
Definition to_digit (radix c : Z) : option Z :=
  let d := if is_ascii_digit c then c - 48
           else if is_ascii_lowercase c then c - 87
           else if is_ascii_uppercase c then c - 55
           else 36 in
  if d <? radix then Some d else None.

(** The value of a digit string read most significant digit first. *)
Fixpoint digits_value (radix acc : Z) (s : list Z) : option Z :=
  match s with
  | [] => Some acc
  | c :: s => d ← to_digit radix c; digits_value radix (acc * radix + d) s
  end.

(** [uN::from_str_radix] / [str::parse::<uN>]: an optional [+], then at least
    one digit, and a value of at most [max]. *)
Definition parse_uint (radix max : Z) (s : list Z) : option Z :=
  let body := match s with 43 :: ((_ :: _) as rest) => rest | _ => s end in
  match body with
  | [] => None
  | _ => v ← digits_value radix 0 body; try_from max v
  end.

Definition i64_min : Z := - 2 ^ 63.
Definition i64_max : Z := 2 ^ 63 - 1.

(** [str::parse::<i64>] *)
Definition parse_i64 (s : list Z) : option Z :=
  let '(neg, body) := match s with
                      | 43 :: ((_ :: _) as rest) => (false, rest)
                      | 45 :: ((_ :: _) as rest) => (true, rest)
                      | _ => (false, s)
                      end in
  match body with
  | [] => None
  | _ => v ← digits_value 10 0 body;
         let v := if neg then - v else v in
         if (i64_min <=? v) && (v <=? i64_max) then Some v else None
  end.

(** [Display] of integers: decimal, without leading zeros. *)
Fixpoint dec_digits (fuel : nat) (v : Z) (acc : list Z) : list Z :=
  match fuel with
  | O => acc
  | S fuel => let acc := (48 + v mod 10) :: acc in
              if v <? 10 then acc else dec_digits fuel (v / 10) acc
  end.
Definition show_dec (v : Z) : list Z :=
  if v <? 0 then 45 :: dec_digits (S (Z.to_nat (Z.log2 (- v)))) (- v) []
  else dec_digits (S (Z.to_nat (Z.log2 v))) v [].

(** ** Source text of unknown encoding: [aros_common::text] *)
Definition decode_source (bytes : list Z) : list Z :=
  match from_utf8 bytes with
  | Some text => text
  | None => bytes
  end.

(** ** Facts *)

(** Case analysis on the boolean range tests of a decoding hypothesis. *)
Ltac unfold_ranges :=
  unfold lead2, lead3, lead4, second3, second4, is_cont, is_scalar, in_range,
    is_ascii_digit, is_ascii_lowercase, is_ascii_uppercase in *.

Lemma in_range_true lo hi c : in_range lo hi c = true <-> lo <= c <= hi.
Proof. unfold in_range. rewrite andb_true_iff, !Z.leb_le. lia. Qed.
Lemma in_range_false lo hi c : in_range lo hi c = false <-> c < lo \/ hi < c.
Proof. unfold in_range. rewrite andb_false_iff, !Z.leb_gt. lia. Qed.

Lemma is_scalar_true c : is_scalar c = true <-> 0 <= c <= 0xD7FF \/ 0xE000 <= c <= 0x10FFFF.
Proof. unfold is_scalar. rewrite orb_true_iff, !andb_true_iff, !Z.leb_le. lia. Qed.

Lemma second3_true b0 b1 : second3 b0 b1 = true <->
  0x80 <= b1 <= 0xBF /\ (b0 = 0xE0 -> 0xA0 <= b1) /\ (b0 = 0xED -> b1 <= 0x9F).
Proof. unfold second3, is_cont. repeat case_match; bool_prop; rewrite ?in_range_true; lia. Qed.
Lemma second4_true b0 b1 : second4 b0 b1 = true <->
  0x80 <= b1 <= 0xBF /\ (b0 = 0xF0 -> 0x90 <= b1) /\ (b0 = 0xF4 -> b1 <= 0x8F).
Proof. unfold second4, is_cont. repeat case_match; bool_prop; rewrite ?in_range_true; lia. Qed.

(** Decoding one encoded scalar value, whatever follows. *)
Lemma from_utf8_char c l : is_scalar c = true ->
  from_utf8 (utf8_char c ++ l) = cons c <$> from_utf8 l.
Proof.
  intros Hc%is_scalar_true. unfold utf8_char.
  pose proof (Z.div_mod c 64). pose proof (Z.mod_pos_bound c 64).
  pose proof (Z.div_mod (c / 64) 64). pose proof (Z.mod_pos_bound (c / 64) 64).
  pose proof (Z.div_mod (c / 4096) 64). pose proof (Z.mod_pos_bound (c / 4096) 64).
  assert (c / 64 / 64 = c / 4096) as E1 by by rewrite Z.div_div.
  assert (c / 4096 / 64 = c / 262144) as E2 by by rewrite Z.div_div.
  rewrite E1 in *. rewrite E2 in *.
  repeat (case_match; bool_prop); cbn [app from_utf8].
  - rewrite (proj2 (in_range_true _ _ _)) by lia. done.
  - rewrite (proj2 (in_range_false 0 0x7F _)) by lia.
    unfold lead2, is_cont. rewrite !(proj2 (in_range_true _ _ _)) by lia. cbn [andb].
    unfold dec2. do 2 f_equal. f_equal. lia.
  - rewrite (proj2 (in_range_false 0 0x7F _)) by lia.
    unfold lead2. rewrite (proj2 (in_range_false 0xC2 0xDF _)) by lia. cbn [andb].
    unfold lead3. rewrite (proj2 (in_range_true 0xE0 0xEF _)) by lia.
    rewrite (proj2 (second3_true _ _)) by lia.
    unfold is_cont. rewrite (proj2 (in_range_true _ _ _)) by lia. cbn [andb].
    unfold dec3. do 2 f_equal. f_equal. lia.
  - rewrite (proj2 (in_range_false 0 0x7F _)) by lia.
    unfold lead2. rewrite (proj2 (in_range_false 0xC2 0xDF _)) by lia. cbn [andb].
    unfold lead3. rewrite (proj2 (in_range_false 0xE0 0xEF _)) by lia. cbn [andb].
    unfold lead4. rewrite (proj2 (in_range_true 0xF0 0xF4 _)) by lia.
    rewrite (proj2 (second4_true _ _)) by lia.
    unfold is_cont. rewrite !(proj2 (in_range_true _ _ _)) by lia. cbn [andb].
    unfold dec4. do 2 f_equal. f_equal. lia.
Qed.

Lemma from_utf8_utf8 s : Forall (fun c => is_scalar c = true) s -> from_utf8 (utf8 s) = Some s.
Proof.
  induction 1 as [|c s Hc Hs IH]; [done|].
  unfold utf8 in *. cbn [mbind list_bind]. rewrite from_utf8_char by done.
  by rewrite IH.
Qed.

Lemma div_mod_64 a b : 0 <= b < 64 -> (a * 64 + b) / 64 = a /\ (a * 64 + b) mod 64 = b.
Proof.
  intros. split.
  - rewrite Z.div_add_l, Z.div_small by lia. lia.
  - rewrite (Z.add_comm (a * 64)), Z_mod_plus_full, Z.mod_small by lia. done.
Qed.

(** The scalar decoded from a valid sequence encodes back to that sequence. *)
Lemma utf8_char_dec2 b0 b1 : lead2 b0 = true -> is_cont b1 = true ->
  utf8_char (dec2 b0 b1) = [b0; b1] /\ is_scalar (dec2 b0 b1) = true.
Proof.
  unfold lead2, is_cont. rewrite !in_range_true, is_scalar_true. intros H0 H1.
  unfold utf8_char, dec2.
  destruct (div_mod_64 (b0 - 0xC0) (b1 - 0x80)) as [-> ->]; [lia|].
  repeat (case_match; bool_prop; try lia). split; [repeat f_equal; lia|lia].
Qed.

Lemma utf8_char_dec3 b0 b1 b2 : lead3 b0 = true -> second3 b0 b1 = true -> is_cont b2 = true ->
  utf8_char (dec3 b0 b1 b2) = [b0; b1; b2] /\ is_scalar (dec3 b0 b1 b2) = true.
Proof.
  unfold lead3, is_cont. rewrite !in_range_true, is_scalar_true, second3_true. intros H0 H1 H2.
  unfold utf8_char. set (c := dec3 b0 b1 b2).
  destruct (div_mod_64 ((b0 - 0xE0) * 64 + (b1 - 0x80)) (b2 - 0x80)) as [Hd Hm]; [lia|].
  destruct (div_mod_64 (b0 - 0xE0) (b1 - 0x80)) as [Hd' Hm']; [lia|].
  assert (c / 4096 = b0 - 0xE0) as E by (change 4096 with (64 * 64); rewrite <- Z.div_div by lia;
    unfold c, dec3; by rewrite Hd, Hd').
  assert (c = ((b0 - 0xE0) * 64 + (b1 - 0x80)) * 64 + (b2 - 0x80)) by done.
  repeat (case_match; bool_prop; try lia). split; [|lia].
  rewrite E. unfold c, dec3. rewrite Hd, Hm, Hm'. repeat f_equal; lia.
Qed.

Lemma utf8_char_dec4 b0 b1 b2 b3 :
  lead4 b0 = true -> second4 b0 b1 = true -> is_cont b2 = true -> is_cont b3 = true ->
  utf8_char (dec4 b0 b1 b2 b3) = [b0; b1; b2; b3] /\ is_scalar (dec4 b0 b1 b2 b3) = true.
Proof.
  unfold lead4, is_cont. rewrite !in_range_true, is_scalar_true, second4_true. intros H0 H1 H2 H3.
  unfold utf8_char. set (c := dec4 b0 b1 b2 b3).
  destruct (div_mod_64 (((b0 - 0xF0) * 64 + (b1 - 0x80)) * 64 + (b2 - 0x80)) (b3 - 0x80))
    as [Hd Hm]; [lia|].
  destruct (div_mod_64 ((b0 - 0xF0) * 64 + (b1 - 0x80)) (b2 - 0x80)) as [Hd' Hm']; [lia|].
  destruct (div_mod_64 (b0 - 0xF0) (b1 - 0x80)) as [Hd'' Hm'']; [lia|].
  assert (c / 4096 = (b0 - 0xF0) * 64 + (b1 - 0x80)) as E
    by (change 4096 with (64 * 64); rewrite <- Z.div_div by lia; unfold c, dec4; by rewrite Hd, Hd').
  assert (c / 262144 = b0 - 0xF0) as E'
    by (change 262144 with (4096 * 64); rewrite <- Z.div_div by lia; by rewrite E, Hd'').
  assert (c = (((b0 - 0xF0) * 64 + (b1 - 0x80)) * 64 + (b2 - 0x80)) * 64 + (b3 - 0x80)) by done.
  repeat (case_match; bool_prop; try lia). split; [|lia].
  rewrite E, E', Hm''. unfold c, dec4. rewrite Hd, Hm, Hm'. repeat f_equal; lia.
Qed.

Lemma utf8_from_utf8 l s : from_utf8 l = Some s ->
  utf8 s = l /\ Forall (fun c => is_scalar c = true) s.
Proof.
  remember (length l) as n eqn:Hn. revert l s Hn.
  induction (lt_wf n) as [n _ IH]; intros l s -> H.
  destruct l as [|b0 l1]; [by injection H as <-|]. cbn [from_utf8] in H.
  destruct (in_range 0 0x7F b0) eqn:Ha.
  { apply in_range_true in Ha. apply fmap_Some in H as (s' & H & ->).
    destruct (IH (length l1) ltac:(cbn; lia) l1 s' eq_refl H) as [E F].
    unfold utf8 in *. cbn [mbind list_bind]. rewrite E. split.
    - unfold utf8_char. case_match; bool_prop; [done|lia].
    - constructor; [|done]. apply is_scalar_true. lia. }
  destruct l1 as [|b1 l2]; [done|].
  destruct (lead2 b0 && is_cont b1) eqn:H2; bool_prop.
  { apply fmap_Some in H as (s' & H & ->).
    destruct (IH (length l2) ltac:(cbn; lia) l2 s' eq_refl H) as [E F].
    destruct (utf8_char_dec2 b0 b1) as [Hc Hs]; [done..|].
    unfold utf8 in *. cbn [mbind list_bind]. rewrite E, Hc. split; [done|by constructor]. }
  destruct l2 as [|b2 l3]; [done|].
  destruct (lead3 b0 && second3 b0 b1 && is_cont b2) eqn:H3; bool_prop.
  { apply fmap_Some in H as (s' & H & ->).
    destruct (IH (length l3) ltac:(cbn; lia) l3 s' eq_refl H) as [E F].
    destruct (utf8_char_dec3 b0 b1 b2) as [Hc Hs]; [done..|].
    unfold utf8 in *. cbn [mbind list_bind]. rewrite E, Hc. split; [done|by constructor]. }
  destruct l3 as [|b3 l4]; [done|].
  destruct (lead4 b0 && second4 b0 b1 && is_cont b2 && is_cont b3) eqn:H4; [|done]. bool_prop.
  apply fmap_Some in H as (s' & H & ->).
  destruct (IH (length l4) ltac:(cbn; lia) l4 s' eq_refl H) as [E F].
  destruct (utf8_char_dec4 b0 b1 b2 b3) as [Hc Hs]; [done..|].
  unfold utf8 in *. cbn [mbind list_bind]. rewrite E, Hc. split; [done|by constructor].
Qed.

Definition is_ascii (c : Z) : Prop := 0 <= c < 128.

Lemma utf8_ascii s : Forall is_ascii s -> utf8 s = s.
Proof.
  unfold utf8. induction 1 as [|c s Hc Hs IH]; cbn [mbind list_bind]; [done|].
  rewrite IH. unfold utf8_char, is_ascii in *. case_match; bool_prop; [done|lia].
Qed.

Lemma str_len_ascii s : Forall is_ascii s -> str_len s = len s.
Proof. intros. unfold str_len. by rewrite utf8_ascii. Qed.

(** A string is at least as long in bytes as in characters. *)
Lemma str_len_ge s : len s <= str_len s.
Proof.
  unfold str_len, utf8. induction s as [|c s IH]; [done|].
  cbn [mbind list_bind]. rewrite len_cons, len_app.
  enough (1 <= len (utf8_char c)) by (unfold list_bind, mbind in *; lia).
  unfold utf8_char, len. repeat case_match; cbn; lia.
Qed.

Lemma eqb_list_true a b : eqb_list a b = true <-> a = b.
Proof. unfold eqb_list. by rewrite bool_decide_eq_true. Qed.

Lemma strip_prefix_Some p l r : strip_prefix p l = Some r <-> l = p ++ r.
Proof.
  revert l; induction p as [|x p IH]; intros l; cbn; [naive_solver|].
  destruct l as [|y l]; [naive_solver|].
  destruct (Z.eqb_spec x y) as [->|Hne]; [rewrite IH; naive_solver|naive_solver].
Qed.

Lemma starts_with_true l p : starts_with l p = true <-> exists r, l = p ++ r.
Proof.
  unfold starts_with. rewrite bool_decide_eq_true. unfold is_Some.
  by setoid_rewrite strip_prefix_Some.
Qed.

Lemma strip_suffix_Some p l r : strip_suffix p l = Some r <-> l = r ++ p.
Proof.
  unfold strip_suffix. rewrite fmap_Some. split.
  - intros (t & Ht & ->). apply strip_prefix_Some in Ht.
    by rewrite <- (rev_involutive l), Ht, rev_app_distr, rev_involutive.
  - intros ->. exists (rev r). rewrite strip_prefix_Some, rev_app_distr, rev_involutive. done.
Qed.

Lemma split_once_Some c l a b :
  split_once c l = Some (a, b) <-> l = a ++ c :: b /\ Forall (fun x => x <> c) a.
Proof.
  revert a b; induction l as [|x l IH]; intros a b; cbn.
  - split; [done|]. intros [H _]. by destruct a.
  - destruct (Z.eqb_spec x c) as [->|Hne].
    + split; [intros [= <- <-]; done|]. intros [H Hall]. destruct a as [|y a]; [naive_solver|].
      injection H as -> ->. apply Forall_cons in Hall. naive_solver.
    + rewrite fmap_Some. split.
      * intros ([a' b'] & [-> Ha]%IH & [= -> ->]). by split; [|constructor].
      * intros [H Hall]. destruct a as [|y a]; [naive_solver|].
        injection H as -> ->. apply Forall_cons in Hall as [_ Hall].
        exists (a, b). by rewrite IH.
Qed.

Lemma split_once_None c l : split_once c l = None <-> Forall (fun x => x <> c) l.
Proof.
  induction l as [|x l IH]; cbn; [done|]. rewrite Forall_cons.
  destruct (Z.eqb_spec x c) as [->|Hne]; [naive_solver|].
  rewrite fmap_None, IH. naive_solver.
Qed.

(** *** Decimal text *)
Lemma to_digit_dec d : 0 <= d < 10 -> to_digit 10 (48 + d) = Some d.
Proof.
  intros. unfold to_digit, is_ascii_digit.
  rewrite (proj2 (in_range_true _ _ _)) by lia. case_match; bool_prop; [f_equal; lia|lia].
Qed.

Lemma digits_value_dec fuel v acc : (0 < fuel)%nat -> 0 <= v < 10 ^ Z.of_nat fuel ->
  digits_value 10 0 (dec_digits fuel v acc) = digits_value 10 v acc.
Proof.
  revert v acc; induction fuel as [|fuel IH]; intros v acc Hf Hv; [lia|].
  cbn [dec_digits]. pose proof (Z.mod_pos_bound v 10). pose proof (Z.div_mod v 10).
  case_match; bool_prop.
  - cbn [digits_value]. rewrite to_digit_dec by lia. cbn.
    f_equal. rewrite Z.mod_small; lia.
  - rewrite Nat2Z.inj_succ, Z.pow_succ_r in Hv by lia.
    assert (v / 10 < 10 ^ Z.of_nat fuel) by (apply Z.div_lt_upper_bound; lia).
    rewrite IH; [|destruct fuel; [cbn in *; lia|lia]|split; [apply Z.div_pos; lia|done]].
    cbn [digits_value]. rewrite to_digit_dec by lia. cbn. f_equal. lia.
Qed.

Lemma pow10_log2 v : 0 < v -> v < 10 ^ Z.of_nat (S (Z.to_nat (Z.log2 v))).
Proof.
  intros Hv. pose proof (Z.log2_nonneg v). destruct (Z.log2_spec v Hv) as [_ Hlt].
  rewrite Nat2Z.inj_succ, Z2Nat.id by done.
  eapply Z.lt_le_trans; [exact Hlt|]. apply Z.pow_le_mono_l. lia.
Qed.

Lemma show_dec_value v : 0 <= v -> digits_value 10 0 (show_dec v) = Some v.
Proof.
  intros Hv. unfold show_dec. case_match; bool_prop; [lia|].
  rewrite digits_value_dec; [done|lia|]. split; [done|].
  destruct (decide (v = 0)) as [->|]; [done|]. apply pow10_log2. lia.
Qed.

Lemma dec_digits_hd fuel v acc : exists d l, dec_digits (S fuel) v acc = d :: l /\ 48 <= d < 58.
Proof.
  revert v acc; induction fuel as [|fuel IH]; intros v acc; cbn [dec_digits].
  - pose proof (Z.mod_pos_bound v 10). case_match; eexists _, _; (split; [done|lia]).
  - pose proof (Z.mod_pos_bound v 10). destruct (v <? 10); [eexists _, _; (split; [done|lia])|].
    apply (IH (v / 10) (48 + v mod 10 :: acc)).
Qed.

(** Printing then parsing a signed 64-bit integer is the identity. *)
Lemma parse_show_i64 v : i64_min <= v <= i64_max -> parse_i64 (show_dec v) = Some v.
Proof.
  intros Hr.
  destruct (decide (v < 0)) as [Hneg|Hpos].
  - pose proof (show_dec_value (- v) ltac:(lia)) as Hval. unfold show_dec in *.
    case_match eqn:E; bool_prop; [lia|]. case_match; bool_prop; [|lia].
    destruct (dec_digits_hd (Z.to_nat (Z.log2 (- v))) (- v) []) as (d & l & Hd & Hrange).
    rewrite Hd in *. cbn [parse_i64]. rewrite Hval. cbn. rewrite Z.opp_involutive.
    by rewrite (proj2 (Z.leb_le i64_min v)), (proj2 (Z.leb_le v i64_max)) by lia.
  - pose proof (show_dec_value v ltac:(lia)) as Hval. unfold show_dec in *.
    case_match eqn:E; bool_prop; [lia|].
    destruct (dec_digits_hd (Z.to_nat (Z.log2 v)) v []) as (d & l & Hd & Hrange).
    rewrite Hd in *. unfold parse_i64.
    destruct (decide (d = 43)); [lia|]. destruct (decide (d = 45)); [lia|].
    assert (match d :: l with
            | 43 :: ((_ :: _) as rest) => (false, rest)
            | 45 :: ((_ :: _) as rest) => (true, rest)
            | _ => (false, d :: l) end = (false, d :: l)) as ->.
    { repeat case_match; congruence. }
    rewrite Hval. cbn.
    by rewrite (proj2 (Z.leb_le i64_min v)), (proj2 (Z.leb_le v i64_max)) by lia.
Qed.

(** *** Encoding of sources *)
Lemma decode_source_utf8 s :
  Forall (fun c => is_scalar c = true) s -> decode_source (utf8 s) = s.
Proof. intros. unfold decode_source. by rewrite from_utf8_utf8. Qed.

(** Lossy decoding always yields scalar values. *)
Lemma from_utf8_lossy_scalar l : Forall (fun c => is_scalar c = true) (from_utf8_lossy l).
Proof.
  remember (length l) as n eqn:Hn. revert l Hn.
  induction (lt_wf n) as [n _ IH]; intros l ->.
  assert (forall l', (length l' < length l)%nat ->
    Forall (fun c => is_scalar c = true) (from_utf8_lossy l')) as IH' by eauto.
  clear IH. destruct l as [|b0 l1]; [constructor|]. cbn [length] in IH'. cbn [from_utf8_lossy].
  assert (is_scalar 0xFFFD = true) by done.
  repeat match goal with |- Forall _ (if ?b then _ else _) => destruct b eqn:? end;
  repeat (case_match; subst; cbn [length] in *);
  repeat (constructor; try done); try (apply IH'; cbn [length]; lia).
  - apply is_scalar_true. match goal with H : in_range _ _ _ = true |- _ => apply in_range_true in H end. lia.
  - by apply utf8_char_dec2.
  - by apply utf8_char_dec3.
  - by apply utf8_char_dec4.
Qed.

(** *** Splitting and trimming *)
Lemma split_on_single f w : Forall (fun x => f x = false) w -> split_on f w = [w].
Proof. induction 1 as [|x w Hx Hw IH]; cbn; [done|]. by rewrite Hx, IH. Qed.

Lemma split_on_app f w c l : Forall (fun x => f x = false) w -> f c = true ->
  split_on f (w ++ c :: l) = w :: split_on f l.
Proof.
  intros Hw Hc. induction Hw as [|x w Hx Hw IH]; cbn; [by rewrite Hc|].
  by rewrite Hx, IH.
Qed.

(** [Vec::join] on strings *)
Fixpoint join (sep : list Z) (ws : list (list Z)) : list Z :=
  match ws with
  | [] => []
  | [w] => w
  | w :: ws => w ++ sep ++ join sep ws
  end.

Lemma split_on_join c ws : ws <> [] -> Forall (Forall (fun x => x <> c)) ws ->
  split_on (Z.eqb c) (join [c] ws) = ws.
Proof.
  assert (forall w, Forall (fun x => x <> c) w -> Forall (fun x => (c =? x) = false) w) as Hb.
  { intros w Hw. eapply Forall_impl; [exact Hw|]. intros x Hx. by apply Z.eqb_neq. }
  intros Hne Hall. induction Hall as [|w ws Hw Hws IH]; [done|].
  destruct ws as [|w' ws]; [by apply split_on_single, Hb|].
  change (join [c] (w :: w' :: ws)) with (w ++ c :: join [c] (w' :: ws)).
  rewrite split_on_app by (auto using Z.eqb_refl). by rewrite IH.
Qed.

Lemma trim_start_id s : Forall (fun c => is_whitespace c = false) s -> trim_start s = s.
Proof. destruct 1 as [|c s Hc]; cbn; [done|]. by rewrite Hc. Qed.

Lemma trim_id s : Forall (fun c => is_whitespace c = false) s -> trim s = s.
Proof.
  intros Hs. unfold trim. rewrite (trim_start_id s), trim_start_id; [by rewrite rev_involutive|..];
    [by apply Forall_rev|done].
Qed.

Lemma Forall_trim_start (P : Z -> Prop) s : Forall P s -> Forall P (trim_start s).
Proof. induction 1 as [|c s Hc Hs IH]; cbn; [done|]. case_match; [done|by constructor]. Qed.

Lemma Forall_trim (P : Z -> Prop) s : Forall P s -> Forall P (trim s).
Proof. intros. unfold trim. by repeat (apply Forall_rev || apply Forall_trim_start). Qed.

Lemma split_inclusive_app c w l : Forall (fun x => x <> c) w ->
  split_inclusive c (w ++ c :: l) = (w ++ [c]) :: split_inclusive c l.
Proof.
  induction 1 as [|x w Hx Hw IH]; cbn; [by rewrite Z.eqb_refl|].
  apply Z.eqb_neq in Hx. by rewrite Hx, IH.
Qed.

(** A newline-terminated row without carriage returns is one line. *)
Lemma lines_row w l : Forall (fun x => x <> 10 /\ x <> 13) w -> lines (w ++ 10 :: l) = w :: lines l.
Proof.
  intros Hw. unfold lines. rewrite split_inclusive_app by (eapply Forall_impl; [done|naive_solver]).
  cbn [map]. f_equal. unfold chop_newline.
  rewrite (proj2 (strip_suffix_Some [10] (w ++ [10]) w)) by done.
  destruct (strip_suffix [13] w) as [r|] eqn:Hr; [|done].
  apply strip_suffix_Some in Hr as ->. apply Forall_app in Hw as [_ Hw].
  apply Forall_cons in Hw as [[_ ?] _]. done.
Qed.

Lemma lines_rows ws : Forall (Forall (fun x => x <> 10 /\ x <> 13)) ws ->
  lines (flat_map (fun w => w ++ [10]) ws) = ws.
Proof.
  induction 1 as [|w ws Hw Hws IH]; [done|]. cbn [flat_map]. rewrite <- app_assoc. cbn [app].
  by rewrite lines_row, IH.
Qed.

(** *** Digits *)
Lemma dec_digits_digit fuel v acc : Forall (fun c => is_ascii_digit c = true) acc ->
  Forall (fun c => is_ascii_digit c = true) (dec_digits fuel v acc).
Proof.
  revert v acc; induction fuel as [|fuel IH]; intros v acc Hacc; cbn [dec_digits]; [done|].
  assert (is_ascii_digit (48 + v mod 10) = true).
  { apply in_range_true. pose proof (Z.mod_pos_bound v 10). lia. }
  case_match; [by constructor|]. apply IH. by constructor.
Qed.

Lemma show_dec_digit v : 0 <= v -> Forall (fun c => is_ascii_digit c = true) (show_dec v).
Proof. intros. unfold show_dec. case_match; bool_prop; [lia|]. by apply dec_digits_digit. Qed.

Lemma dec_digits_len fuel v acc n : (0 < n)%nat -> 0 <= v < 10 ^ Z.of_nat n ->
  len (dec_digits fuel v acc) <= Z.of_nat n + len acc.
Proof.
  revert v acc n; induction fuel as [|fuel IH]; intros v acc n Hn Hv; cbn [dec_digits]; [lia|].
  case_match; bool_prop; rewrite ?len_cons; [lia|].
  destruct n as [|[|n]]; [lia|cbn in *; lia|].
  rewrite Nat2Z.inj_succ, Z.pow_succ_r in Hv by lia.
  etransitivity; [apply (IH _ _ (S n)); [lia|]|rewrite len_cons; lia].
  split; [apply Z.div_pos; lia|apply Z.div_lt_upper_bound; lia].
Qed.

Lemma show_dec_len v n : (0 < n)%nat -> 0 <= v < 10 ^ Z.of_nat n -> len (show_dec v) <= Z.of_nat n.
Proof.
  intros Hn Hv. unfold show_dec. case_match; bool_prop; [lia|].
  etransitivity; [by apply (dec_digits_len _ _ _ n)|]. rewrite len_nil. lia.
Qed.

Lemma dec_digits_lead fuel v acc : 0 < v < 10 ^ Z.of_nat fuel ->
  exists d l, dec_digits fuel v acc = d :: l /\ 48 < d < 58.
Proof.
  revert v acc; induction fuel as [|fuel IH]; intros v acc Hv; [cbn in *; lia|].
  cbn [dec_digits]. pose proof (Z.mod_pos_bound v 10).
  destruct (Z.ltb_spec v 10); [rewrite Z.mod_small by lia; eexists _, _; split; [done|lia]|].
  rewrite Nat2Z.inj_succ, Z.pow_succ_r in Hv by lia. apply IH.
  split; [apply Z.div_str_pos; lia|apply Z.div_lt_upper_bound; lia].
Qed.

(** Canonical: no leading zero unless the number is zero. *)
Lemma show_dec_lead v : 0 <= v ->
  show_dec v = [48] \/ exists d l, show_dec v = d :: l /\ 48 < d < 58.
Proof.
  intros Hv. destruct (decide (v = 0)) as [->|]; [by left|]. right. unfold show_dec.
  case_match; bool_prop; [lia|]. apply dec_digits_lead. split; [lia|]. apply pow10_log2. lia.
Qed.

Lemma parse_uint_bounds radix max s v : parse_uint radix max s = Some v -> 0 <= v <= max.
Proof.
  unfold parse_uint. repeat case_match; try done;
    intros (? & ? & [? ->]%try_from_Some)%bind_Some; lia.
Qed.

Lemma parse_uint_show max v : 0 <= v <= max -> parse_uint 10 max (show_dec v) = Some v.
Proof.
  intros Hv. pose proof (show_dec_value v ltac:(lia)) as Hval.
  destruct (show_dec_lead v ltac:(lia)) as [E|(d & l & E & Hd)]; rewrite E in *.
  - cbn in Hval. injection Hval as <-. unfold parse_uint. cbn.
    by apply try_from_Some.
  - unfold parse_uint. assert (match d :: l with
      | 43 :: ((_ :: _) as rest) => rest | _ => d :: l end = d :: l) as ->
      by (repeat case_match; congruence || (simplify_eq; lia)).
    rewrite Hval. cbn. by apply try_from_Some.
Qed.

Lemma strip_prefix_head c p d l : c <> d -> strip_prefix (c :: p) (d :: l) = None.
Proof. intros Hne. cbn. by rewrite (proj2 (Z.eqb_neq c d)). Qed.

Lemma starts_with_head c p d l : c <> d -> starts_with (d :: l) (c :: p) = false.
Proof.
  intros Hne. unfold starts_with. rewrite strip_prefix_head by done.
  apply bool_decide_eq_false_2. by intros [? ?].
Qed.

(** [eval_rs]: evaluate the string literals of the goal. *)
Ltac eval_rs :=
  repeat match goal with
  | |- context [rs ?s] => let v := eval vm_compute in (rs s) in change (rs s) with v
  end.

Lemma from_utf8_ascii s : Forall is_ascii s -> from_utf8 s = Some s.
Proof.
  intros Hs. rewrite <- (utf8_ascii s) at 1 by done. apply from_utf8_utf8.
  eapply Forall_impl; [exact Hs|]. unfold is_ascii. intros c Hc. apply is_scalar_true. lia.
Qed.

Lemma split_on_spec f l : exists w ws, split_on f l = w :: ws /\ Forall (fun x => f x = false) w /\
  ((ws = [] /\ l = w) \/ exists x l', l = w ++ x :: l' /\ f x = true /\ ws = split_on f l').
Proof.
  induction l as [|x l (w & ws & E & Hw & Hl)]; [exists [], []; naive_solver|]. cbn. destruct (f x) eqn:Ex.
  - exists [], (split_on f l). split; [done|]. split; [done|]. right. by exists x, l.
  - rewrite E. exists (x :: w), ws. split; [done|]. split; [by constructor|].
    destruct Hl as [ [-> ->]|(y & l' & -> & Hy & ->)]; [by left|]. right. by exists y, l'.
Qed.

(** A test that only ASCII bytes pass holds of all bytes iff it holds of all characters. *)
Lemma forallb_utf8 (f : Z -> bool) s : (forall b, f b = true -> b < 128) ->
  forallb f (utf8 s) = true <-> Forall (fun b => f b = true) s.
Proof.
  intros Hf. induction s as [|c s IH]; [done|]. unfold utf8 in *. rewrite bind_cons, forallb_app, andb_true_iff, IH, Forall_cons.
  enough (forallb f (utf8_char c) = f c) as -> by done. unfold utf8_char.
  destruct (Z.ltb_spec c 0x80) as [|Hc]; [cbn; apply andb_true_r|].
  pose proof (Z.div_le_mono 128 c 64 ltac:(lia) ltac:(lia)). pose proof (Z.div_pos c 4096 ltac:(lia) ltac:(lia)).
  pose proof (Z.div_pos c 262144 ltac:(lia) ltac:(lia)). change (128 / 64) with 2 in *.
  assert (forall b, 128 <= b -> f b = false) as Hb.
  { intros b Hb. destruct (f b) eqn:E; [|done]. apply Hf in E. lia. }
  rewrite (Hb c) by lia. repeat case_match; cbn; by rewrite Hb by lia.
Qed.

Lemma ends_with_true l p : ends_with l p = true <-> exists r, l = r ++ p.
Proof.
  unfold ends_with. rewrite bool_decide_eq_true. unfold is_Some. by setoid_rewrite strip_suffix_Some.
Qed.

(** ** More of [str] *)
Definition trim_end (s : list Z) : list Z := rev (trim_start (rev s)).

(** [s.split_whitespace()]: the maximal words free of white space. *)
Definition split_whitespace (s : list Z) : list (list Z) :=
  List.filter (fun w => negb (eqb_list w [])) (split_on is_whitespace s).

Definition contains_char (c : Z) (s : list Z) : bool := existsb (Z.eqb c) s.

(** [s.rsplit_once(c)] *)
Definition rsplit_once (c : Z) (s : list Z) : option (list Z * list Z) :=
  (fun x => (rev x.2, rev x.1)) <$> split_once c (rev s).

(** [haystack.contains(needle)] *)
Fixpoint contains_str (needle s : list Z) : bool :=
  starts_with s needle || match s with [] => false | _ :: s => contains_str needle s end.

(** [s.split(from)] for a nonempty [from]: the pieces between its leftmost
    non-overlapping occurrences; [skip] counts the rest of an occurrence. *)
Fixpoint split_str (from : list Z) (skip : nat) (s : list Z) : list (list Z) :=
  match s with
  | [] => [[]]
  | c :: s =>
    match skip with
    | S skip => split_str from skip s
    | O =>
      if starts_with (c :: s) from then [] :: split_str from (length from - 1) s
      else match split_str from O s with
           | [] => [[c]]
           | w :: ws => (c :: w) :: ws
           end
    end
  end.
(** [s.match_indices(from).count()] and [s.replace(from, to)] *)
Definition match_count (from s : list Z) : Z := len (split_str from O s) - 1.
Definition replace_str (from to s : list Z) : list Z := join to (split_str from O s).

(** [bounded_preview] and the like cut a string at the last character boundary
    that leaves at most [n] bytes. *)
Fixpoint take_bytes (n : Z) (s : list Z) : list Z :=
  match s with
  | [] => []
  | c :: s => if len (utf8_char c) <=? n then c :: take_bytes (n - len (utf8_char c)) s else []
  end.

Lemma str_len_app a b : str_len (a ++ b) = str_len a + str_len b.
Proof. unfold str_len, utf8. by rewrite bind_app, len_app. Qed.
Lemma str_len_nil : str_len [] = 0.
Proof. done. Qed.
Lemma str_len_nonneg s : 0 <= str_len s.
Proof. apply len_nonneg. Qed.
Lemma str_len_cons c s : str_len (c :: s) = len (utf8_char c) + str_len s.
Proof. unfold str_len, utf8. cbn. by rewrite len_app. Qed.
Lemma utf8_char_len c : 1 <= len (utf8_char c) <= 4.
Proof. unfold utf8_char. repeat case_match; unfold len; cbn [length]; lia. Qed.

Lemma trim_start_suffix s : exists p, s = p ++ trim_start s.
Proof.
  induction s as [|c s [p IH] ]; cbn; [by exists []|]. case_match; [|by exists []].
  exists (c :: p). cbn. by f_equal.
Qed.
Lemma trim_end_prefix s : exists p, s = trim_end s ++ p.
Proof.
  destruct (trim_start_suffix (rev s)) as [p Hp]. exists (rev p). unfold trim_end.
  rewrite <- rev_app_distr, <- Hp. by rewrite rev_involutive.
Qed.
Lemma str_len_trim_end s : str_len (trim_end s) <= str_len s.
Proof. destruct (trim_end_prefix s) as [p Hp]. rewrite Hp at 2. rewrite str_len_app. pose proof (str_len_nonneg p). lia. Qed.
Lemma str_len_trim_start s : str_len (trim_start s) <= str_len s.
Proof. destruct (trim_start_suffix s) as [p Hp]. rewrite Hp at 2. rewrite str_len_app. pose proof (str_len_nonneg p). lia. Qed.
Lemma trim_trim s : trim s = trim_end (trim_start s).
Proof. done. Qed.
Lemma str_len_trim s : str_len (trim s) <= str_len s.
Proof. rewrite trim_trim. pose proof (str_len_trim_end (trim_start s)). pose proof (str_len_trim_start s). lia. Qed.

(** The pieces of a split together are no longer than the text. *)
Lemma split_on_len f l : foldr (fun w n => str_len w + n) 0 (split_on f l) <= str_len l.
Proof.
  induction l as [|x l IH]; cbn [split_on]; [done|]. rewrite str_len_cons. pose proof (utf8_char_len x).
  destruct (f x); [cbn [foldr]; rewrite str_len_nil; lia|].
  destruct (split_on f l) as [|w ws]; cbn [foldr] in *; rewrite ?str_len_cons, ?str_len_nil; lia.
Qed.
Lemma split_on_word f l w : w ∈ split_on f l -> str_len w <= str_len l.
Proof.
  intros Hw. pose proof (split_on_len f l) as Hl. revert Hl. generalize (str_len l). revert Hw.
  generalize (split_on f l). induction l0 as [|v vs IH]; intros Hw n Hn; [by apply elem_of_nil in Hw|].
  cbn [foldr] in Hn. assert (0 <= foldr (fun w n => str_len w + n) 0 vs).
  { clear. induction vs as [|v vs IH]; cbn; [done|]. pose proof (str_len_nonneg v). lia. }
  pose proof (str_len_nonneg v). apply elem_of_cons in Hw as [->|Hw]; [lia|]. apply (IH Hw n). lia.
Qed.
Lemma split_whitespace_word s w : w ∈ split_whitespace s ->
  w <> [] /\ str_len w <= str_len s /\ w ∈ split_on is_whitespace s.
Proof.
  unfold split_whitespace. rewrite list_elem_of_In, filter_In. intros [Hw Hne].
  apply list_elem_of_In in Hw. split; [|split; [by eapply split_on_word|done] ].
  intros ->. discriminate.
Qed.

(** A string without white space in front. *)
Definition no_leading (s : list Z) : Prop := match s with [] => True | c :: _ => is_whitespace c = false end.
Lemma trim_start_leading s : no_leading (trim_start s).
Proof. induction s as [|c s IH]; cbn; [done|]. by destruct (is_whitespace c) eqn:E. Qed.
Lemma trim_start_fix s : no_leading s -> trim_start s = s.
Proof. destruct s as [|c s]; [done|]. cbn. by intros ->. Qed.
Lemma trim_fix s : no_leading s -> no_leading (rev s) -> trim s = s.
Proof. intros H1 H2. unfold trim. by rewrite (trim_start_fix s), (trim_start_fix (rev s)), rev_involutive. Qed.
Lemma no_leading_prefix a b : no_leading (a ++ b) -> no_leading a.
Proof. by destruct a. Qed.
Lemma trim_ends s : no_leading (trim s) /\ no_leading (rev (trim s)).
Proof.
  unfold trim. rewrite rev_involutive. split; [|apply trim_start_leading].
  destruct (trim_start_suffix (rev (trim_start s))) as [p Hp].
  apply (no_leading_prefix _ (rev p)). rewrite <- rev_app_distr, <- Hp, rev_involutive. apply trim_start_leading.
Qed.
Lemma trim_idemp s : trim (trim s) = trim s.
Proof. apply trim_fix; apply trim_ends. Qed.
