(* ===== verification/Digest.v ===== *)
(** * Digest: typed SHA-256 digests

    Models [crates/aros-common/src/digest.rs].  The compression function is
    the third-party crate [sha2]: it is a parameter of the model, the class
    [Sha256], which promises only what the code relies on, a 32-byte result. *)

From S2P Require Import Prelude Text.

Class Sha256 := {
  sha256_raw : list Z -> list Z;
  sha256_raw_len : forall l, len (sha256_raw l) = 32;
  sha256_raw_u8 : forall l, Forall is_u8 (sha256_raw l);
}.

Definition SHA256_HEX_LENGTH : Z := 64.
Definition HEX : list Z := rs "0123456789abcdef".

(** [HEX[usize::from(nibble)]] *)
Definition hex_digit (n : Z) : Z := default 0 (get_at HEX n).

(** [Sha256Digest::from_bytes]: two lower-case digits per byte. *)
Definition digest_from_bytes (bytes : list Z) : list Z :=
  flat_map (fun b => [hex_digit (Z.shiftr b 4); hex_digit (Z.land b 0x0f)]) bytes.

(** [FromStr for Sha256Digest] *)
Definition digest_parse (value : list Z) : option (list Z) :=
  if negb (str_len value =? SHA256_HEX_LENGTH) || negb (forallb is_ascii_hexdigit (utf8 value))
  then None else Some (to_ascii_lowercase value).

(** [sha256_bytes] *)
Definition sha256_bytes {H : Sha256} (bytes : list Z) : list Z :=
  digest_from_bytes (sha256_raw bytes).

(** A hash that satisfies the interface, for evaluation on concrete inputs:
    the first byte records the input length, the second its exclusive or. *)
Definition toy_hash (l : list Z) : list Z :=
  (len l mod 256) :: (foldr Z.add 7 l mod 256) :: fill 30 0.
Program Definition toy_sha256 : Sha256 := {| sha256_raw := toy_hash |}.
Next Obligation. intros l. unfold toy_hash. by rewrite !len_cons, len_fill. Qed.
Next Obligation.
  intros l. unfold toy_hash, is_u8, u8_max. repeat constructor; try lia;
    try (apply Z.mod_pos_bound; lia).
  - pose proof (Z.mod_pos_bound (len l) 256). lia.
  - pose proof (Z.mod_pos_bound (foldr Z.add 7 l) 256). lia.
Qed.

Lemma hex_digit_range n : 0 <= n < 16 ->
  is_ascii_hexdigit (hex_digit n) = true /\ to_ascii_lower (hex_digit n) = hex_digit n
  /\ is_ascii (hex_digit n).
Proof.
  intros Hn. assert (n ∈ seqZ 0 16) as Hin by (apply elem_of_seqZ; lia).
  revert n Hn Hin. change (seqZ 0 16) with [0;1;2;3;4;5;6;7;8;9;10;11;12;13;14;15].
  intros n _ Hin. unfold is_ascii.
  repeat (apply elem_of_cons in Hin as [->|Hin]; [vm_compute; repeat split; congruence|]).
  by apply elem_of_nil in Hin.
Qed.

Lemma nibbles b : is_u8 b -> 0 <= Z.shiftr b 4 < 16 /\ 0 <= Z.land b 0x0f < 16.
Proof.
  unfold is_u8, u8_max. intros H. rewrite Z.shiftr_div_pow2 by lia.
  change 0x0f with (Z.ones 4). rewrite Z.land_ones by lia. split.
  - split; [apply Z.div_pos; lia|apply Z.div_lt_upper_bound; lia].
  - apply Z.mod_pos_bound. lia.
Qed.

(** Facts shared by everything that reads a rendered digest. *)
Lemma digest_from_bytes_spec bytes : Forall is_u8 bytes ->
  len (digest_from_bytes bytes) = 2 * len bytes /\
  Forall is_ascii (digest_from_bytes bytes) /\
  forallb is_ascii_hexdigit (digest_from_bytes bytes) = true /\
  to_ascii_lowercase (digest_from_bytes bytes) = digest_from_bytes bytes.
Proof.
  induction 1 as [|b bytes Hb Hbs (IH1 & IH2 & IH3 & IH4)]; [by repeat split|].
  destruct (nibbles b Hb) as [Hhi Hlo].
  apply hex_digit_range in Hhi as (? & ? & ?), Hlo as (? & ? & ?).
  unfold digest_from_bytes in *. cbn [flat_map app]. rewrite !len_cons. repeat split.
  - lia.
  - by rewrite !Forall_cons.
  - cbn [forallb]. by rewrite !andb_true_iff.
  - unfold to_ascii_lowercase in *. cbn [map]. by repeat f_equal.
Qed.

(** A rendered digest parses back to itself. *)
Lemma digest_roundtrip bytes : Forall is_u8 bytes -> len bytes = 32 ->
  digest_parse (digest_from_bytes bytes) = Some (digest_from_bytes bytes).
Proof.
  intros Hu Hl. destruct (digest_from_bytes_spec bytes Hu) as (H1 & H2 & H3 & H4).
  unfold digest_parse. rewrite str_len_ascii, utf8_ascii, H1, H3, H4, Hl by done. done.
Qed.

(** MD5 (crate [md-5]) is only the legacy container checksum of ESP-IDF
    partition tables; the code relies on a 16-byte result. *)
Class Md5 := {
  md5_raw : list Z -> list Z;
  md5_raw_len : forall l, len (md5_raw l) = 16;
  md5_raw_u8 : forall l, Forall is_u8 (md5_raw l);
}.
Program Definition toy_md5 : Md5 := {| md5_raw l := take 16 (toy_hash l) |}.
Next Obligation. intros l. done. Qed.
Next Obligation. intros l. apply Forall_take. apply (@sha256_raw_u8 toy_sha256). Qed.

(** ** Hashing a stream

    A reader is the list of results its [read] calls will give: [None] is an
    I/O error, an empty chunk is end of file.  The hasher of [sha2] is the bytes
    it has absorbed. *)
Record Sha256Result := mkSha256Result { result_digest : list Z; result_size : Z }.
Inductive read_error := ReadFailed | TooLarge.

Section reader.
Context {H : Sha256}.

Fixpoint hash_loop (reads : list (option (list Z))) (absorbed : list Z) (size : Z)
  : res read_error Sha256Result :=
  match reads with
  | [] => Ok (mkSha256Result (digest_from_bytes (sha256_raw absorbed)) size)
  | None :: _ => Err ReadFailed
  | Some chunk :: reads =>
    if len chunk =? 0 then Ok (mkSha256Result (digest_from_bytes (sha256_raw absorbed)) size)
    else
      size ← ok_or (checked_add u64_max size (len chunk)) TooLarge;
      hash_loop reads (absorbed ++ chunk) size
  end.
Definition sha256_reader (reads : list (option (list Z))) : res read_error Sha256Result :=
  hash_loop reads [] 0.

(** [Read::take]: at most [limit] bytes pass through. *)
Fixpoint take_reader (limit : Z) (reads : list (option (list Z))) : list (option (list Z)) :=
  match reads with
  | [] => []
  | None :: reads => if limit =? 0 then [] else None :: take_reader limit reads
  | Some chunk :: reads =>
    if limit =? 0 then []
    else let chunk := take (Z.to_nat limit) chunk in
         Some chunk :: take_reader (limit - len chunk) reads
  end.

(** The bytes a reader delivers up to end of file; [None] when it fails. *)
Fixpoint stream (reads : list (option (list Z))) : option (list Z) :=
  match reads with
  | [] | Some [] :: _ => Some []
  | None :: _ => None
  | Some chunk :: reads => app chunk <$> stream reads
  end.

Lemma hash_loop_Ok reads absorbed size r :
  hash_loop reads absorbed size = Ok r <->
  exists bytes, stream reads = Some bytes /\
    (size + len bytes <= u64_max \/ bytes = []) /\
    r = mkSha256Result (sha256_bytes (absorbed ++ bytes)) (size + len bytes).
Proof.
  revert absorbed size; induction reads as [|[chunk|] reads IH]; intros absorbed size;
    cbn [hash_loop stream].
  - split; [intros [= <-]; exists []|intros (? & [= <-] & _ & ->)];
      rewrite app_nil_r, len_nil, Z.add_0_r; auto.
  - destruct chunk as [|c chunk].
    + rewrite len_nil. cbn [Z.eqb].
      split; [intros [= <-]; exists []|intros (? & [= <-] & _ & ->)];
        rewrite app_nil_r, len_nil, Z.add_0_r; auto.
    + remember (c :: chunk) as ch eqn:Hch. assert (0 < len ch) as Hpos
        by (subst; rewrite len_cons; pose proof (len_nonneg chunk); lia).
      rewrite (proj2 (Z.eqb_neq (len ch) 0)) by lia. rewrite bind_Ok.
      setoid_rewrite ok_or_Ok. setoid_rewrite checked_add_Some. setoid_rewrite IH. split.
      * intros (s & [-> Hs] & bytes & -> & Hb & ->). exists (ch ++ bytes).
        rewrite len_app, <- app_assoc, Z.add_assoc. split_and!; [by subst|left|done].
        destruct Hb as [Hb|Hb]; [lia|]. subst bytes. rewrite len_nil. lia.
      * intros (bytes & Hbytes & Hb & ->).
        assert (exists rest, stream reads = Some rest /\ bytes = ch ++ rest) as (rest & Hr & ->).
        { subst ch. destruct (stream reads) as [rest|]; [|done]. injection Hbytes as <-. by exists rest. }
        rewrite len_app in *. pose proof (len_nonneg rest).
        assert (size + (len ch + len rest) <= u64_max).
        { destruct Hb as [Hb|Hb]; [done|]. subst ch. done. }
        exists (size + len ch). split; [split; [done|lia]|]. exists rest.
        rewrite <- app_assoc, Z.add_assoc. split_and!; [done|left; lia|done].
  - naive_solver.
Qed.
End reader.

(** A stream shorter than the [take] budget has been read to its end. *)
Lemma take_reader_exact reads : forall limit b,
  0 < limit -> stream (take_reader limit reads) = Some b -> len b < limit -> stream reads = Some b.
Proof.
  induction reads as [|[chunk|] reads IH]; intros limit b Hl; cbn [take_reader]; [done| |].
  - rewrite (proj2 (Z.eqb_neq limit 0)) by lia. cbv zeta. destruct chunk as [|c chunk].
    { by rewrite take_nil. }
    remember (c :: chunk) as ch eqn:Hch. intros Hs Hb.
    destruct (decide (len ch < limit)) as [Hlt|Hge].
    + rewrite take_ge in Hs by (unfold len in Hlt; lia).
      assert (forall rs, stream (Some ch :: rs) = app ch <$> stream rs) as Hstream by by subst.
      rewrite Hstream in Hs |- *. apply fmap_Some in Hs as (b' & Hs & ->).
      rewrite len_app in Hb. apply fmap_Some. exists b'. split; [|done].
      apply (IH (limit - len ch)); [lia|done|lia].
    + exfalso. assert (len (take (Z.to_nat limit) ch) = limit) as Ht by (apply len_take; lia).
      rewrite Ht, Z.sub_diag in Hs.
      destruct (take (Z.to_nat limit) ch) as [|x l] eqn:E; [rewrite len_nil in Ht; lia|].
      cbn [stream] in Hs. apply fmap_Some in Hs as (b' & _ & ->).
      rewrite len_app in Hb. pose proof (len_nonneg b'). lia.
  - rewrite (proj2 (Z.eqb_neq limit 0)) by lia. done.
Qed.
