(* ===== verification/Publication.v ===== *)
(** * Publication: portable output names and the atomic-publication interface

    Models the pure part of [crates/aros-common/src/publication.rs]
    ([PortableOutputName], [casefold_path_key], the failure classes) and states,
    as the class [Publication], what its file-publication primitives promise
    the tools that call them. *)

From S2P Require Import Prelude Text Digest.

(** ** Portable names *)
Inductive name_error := NotPortable | ReservedDevice | NotRelative | NotUtf8 | EmptyPath.

(** [char::is_control] on ASCII is the Cc category. *)
Definition is_control (c : Z) : bool := in_range 0 31 c || in_range 127 159 c.
Definition invalid_character (c : Z) : bool :=
  is_control c || existsb (Z.eqb c) (rs "<>:/\|?*") || (c =? 34).

Definition reserved_stem (stem : list Z) : bool :=
  existsb (eqb_list stem) [rs "CON"; rs "PRN"; rs "AUX"; rs "NUL"] ||
  match (match strip_prefix (rs "COM") stem with
         | Some suffix => Some suffix
         | None => strip_prefix (rs "LPT") stem
         end) with
  | Some [d] => in_range 49 57 d
  | _ => false
  end.

(** [PortableOutputName::new] *)
Definition portable_output_name (value : list Z) : res name_error (list Z) :=
  _ ← refuse (eqb_list value []
              || negb (forallb (in_range 0 127) value)
              || eqb_list value (rs ".")
              || eqb_list value (rs "..")
              || ends_with value (rs ".") || ends_with value (rs " ")
              || existsb invalid_character value
              || (255 <? str_len value)) NotPortable;
  let stem := to_ascii_uppercase (default value (head (split_on (Z.eqb 46) value))) in
  _ ← refuse (reserved_stem stem) ReservedDevice;
  Ok value.

(** ** Paths

    A Unix path is its byte string; [components] normalises it as
    [std::path::Path::components] does. *)
Inductive component := RootDir | CurDir | ParentDir | Normal (name : list Z).

#[global] Instance component_eq_dec : EqDecision component.
Proof. solve_decision. Defined.

Definition is_absolute (p : list Z) : bool := starts_with p (rs "/").

(** Interior and trailing [.] pieces and empty pieces vanish; a leading [.] of
    a relative path is kept. *)
Definition piece_component (w : list Z) : option component :=
  if eqb_list w [] then None
  else if eqb_list w (rs ".") then None
  else if eqb_list w (rs "..") then Some ParentDir
  else Some (Normal w).
Definition components (p : list Z) : list component :=
  let pieces := split_on (Z.eqb 47) p in
  if is_absolute p then RootDir :: omap piece_component pieces
  else match pieces with
       | w :: _ => if eqb_list w (rs ".") then CurDir :: omap piece_component pieces
                   else omap piece_component pieces
       | [] => []
       end.

(** [Path::file_name] *)
Definition file_name (p : list Z) : option (list Z) :=
  match last (components p) with
  | Some (Normal name) => Some name
  | _ => None
  end.

(** One round of [casefold_path_key].  A portable name is ASCII, so
    [str::to_lowercase] is its ASCII lower-casing. *)
Definition fold_component (folded : list (list Z)) (c : component)
  : res name_error (list (list Z)) :=
  match c with
  | Normal value =>
    value ← ok_or (from_utf8 value) NotUtf8;
    portable ← portable_output_name value;
    Ok (folded ++ [to_ascii_lowercase portable])
  | _ => Err NotRelative
  end.
Definition casefold_components (path : list component) : res name_error (list Z) :=
  folded ← foldM fold_component [] path;
  _ ← refuse (match folded with [] => true | _ => false end) EmptyPath;
  Ok (join (rs "/") folded).
Definition casefold_path_key (p : list Z) : res name_error (list Z) :=
  casefold_components (components p).

(** A path with a key descends from its root: only normal components. *)
Definition is_normal (c : component) : Prop := exists n, c = Normal n.

Lemma casefold_components_relative cs key : casefold_components cs = Ok key ->
  Forall is_normal cs /\ cs <> [].
Proof.
  unfold casefold_components. intros (folded & Hf & [Hne _]%refuse_bind_Ok)%bind_Ok.
  apply (foldM_inv _ (fun pre l => Forall is_normal pre /\ length l = length pre)) in Hf as [Hall Hlen].
  - split; [done|]. intros E. rewrite E in Hlen. by destruct folded.
  - split; [constructor|done].
  - intros pre c l l' [Hpre Hlen] Hc. destruct c; try done. cbn in Hc. inv_ok.
    rewrite Forall_app, Forall_singleton, !length_app, Hlen. split; [|done]. split; [done|by eexists].
Qed.

Lemma casefold_relative p key : casefold_path_key p = Ok key ->
  Forall is_normal (components p) /\ components p <> [].
Proof. apply casefold_components_relative. Qed.

Lemma portable_output_name_not_Stuck value : portable_output_name value <> Stuck.
Proof. unfold portable_output_name. not_stuck. Qed.
#[export] Hint Resolve portable_output_name_not_Stuck : aros.

Lemma casefold_components_not_Stuck cs : casefold_components cs <> Stuck.
Proof.
  unfold casefold_components. not_stuck. apply (foldM_not_Stuck _ (fun _ => True)); [done| |done].
  intros l c _ _. destruct c; cbn; not_stuck.
Qed.
Lemma casefold_not_Stuck p : casefold_path_key p <> Stuck.
Proof. apply casefold_components_not_Stuck. Qed.
#[export] Hint Resolve casefold_components_not_Stuck casefold_not_Stuck : aros.

(** ** Publication outcomes *)
Record FileIdentity := mkIdentity { device : Z; inode : Z }.
Inductive AtomicFilePolicy :=
| AtomicNoClobber
| ReplaceIf (identity : FileIdentity) (sha256 : list Z).
Inductive RecoveryOutcome := RecoveryNone | RolledBack | CompletedCleanup | RemovedTreeStage.
Inductive PublicationFailureClass :=
| Conflict | UnsafeTarget | Unsupported | RecoveryIncomplete | CommitStateUncertain | Io.
Record PublicationReceipt := mkReceipt { recovery : RecoveryOutcome }.

(** What a caller sees of a failed publication: [publication_failure_class] and
    [is_rollback_incomplete] of the error. *)
Record PublicationError := mkPublicationError
  { failure_class : PublicationFailureClass; rollback_incomplete : bool }.

(** The primitives, over the states [W] of the file system.  The laws are the
    documented contract: a successful publication leaves exactly the given
    bytes at the target; no-clobber publication never replaces an existing
    file; a compare-and-swap publication only replaces the measured content;
    measuring a file reads its content ([None] is an I/O error). *)
Class Publication {H : Sha256} (W : Type) := {
  fs_read : W -> list Z -> option (list Z);
  measure_regular_file : W -> list Z -> option (option (FileIdentity * list Z));
  publish_atomic_file : W -> list Z -> list Z -> AtomicFilePolicy ->
    W * (PublicationReceipt + PublicationError);
  measure_reads : forall w p id bytes,
    measure_regular_file w p = Some (Some (id, bytes)) -> fs_read w p = Some bytes;
  publish_content : forall w w' p bytes pol receipt,
    publish_atomic_file w p bytes pol = (w', inl receipt) -> fs_read w' p = Some bytes;
  publish_noclobber : forall w w' p bytes receipt,
    publish_atomic_file w p bytes AtomicNoClobber = (w', inl receipt) -> fs_read w p = None;
  publish_cas : forall w w' p bytes id digest receipt,
    publish_atomic_file w p bytes (ReplaceIf id digest) = (w', inl receipt) ->
    exists old, fs_read w p = Some old /\ sha256_bytes old = digest;
}.

(** An in-memory file system that satisfies the interface. *)
Definition mem_read (w : list (list Z * list Z)) (p : list Z) : option (list Z) :=
  snd <$> List.find (fun f => eqb_list (fst f) p) w.
Definition mem_publish {H : Sha256} (w : list (list Z * list Z)) (p bytes : list Z)
  (pol : AtomicFilePolicy) : list (list Z * list Z) * (PublicationReceipt + PublicationError) :=
  let done := ((p, bytes) :: w, inl (mkReceipt RecoveryNone)) in
  let conflict := (w, inr (mkPublicationError Conflict false)) in
  match pol, mem_read w p with
  | AtomicNoClobber, None => done
  | ReplaceIf _ digest, Some old => if eqb_list (sha256_bytes old) digest then done else conflict
  | _, _ => conflict
  end.
Program Definition mem_publication {H : Sha256} : Publication (list (list Z * list Z)) := {|
  fs_read := mem_read;
  measure_regular_file w p := Some ((fun b => (mkIdentity 1 1, b)) <$> mem_read w p);
  publish_atomic_file := mem_publish
|}.
Next Obligation.
  intros H w p id bytes Hm. apply (inj Some), fmap_Some in Hm as (b & Hb & [= _ ->]). done.
Qed.
Next Obligation.
  intros H w w' p bytes pol receipt. unfold mem_publish.
  assert (mem_read ((p, bytes) :: w) p = Some bytes) as Hr.
  { unfold mem_read. cbn. by rewrite (proj2 (eqb_list_true p p)). }
  destruct pol, (mem_read w p); cbn; try case_match; intros; by simplify_eq.
Qed.
Next Obligation.
  intros H w w' p bytes receipt. unfold mem_publish. destruct (mem_read w p); [intros; by simplify_eq|done].
Qed.
Next Obligation.
  intros H w w' p bytes id digest receipt. unfold mem_publish.
  destruct (mem_read w p) as [old|]; [|intros; by simplify_eq].
  case_match eqn:E; intros; simplify_eq. apply eqb_list_true in E. eauto.
Qed.
