(* ===== verification/Pkg.v ===== *)
(** * Pkg: the AROS kickstart package container

    Models [crates/aros-romtool/src/pkg.rs]: the [PKG] writer [serialize], the
    reader [parse] and the command [create] that reads members, encodes them,
    reads the staged bytes back and hands them to the publication layer.  The
    container format itself is stated independently as the relation
    [is_package], which the reader decides and the writer produces. *)

From S2P Require Import Prelude Bytes Text Digest Publication.

(** ** Data *)
Record Entry := mkEntry { path : list Z; data : list Z }.

#[global] Instance Entry_eq_dec : EqDecision Entry.
Proof. solve_decision. Defined.

Definition MAGIC : list Z := rs "PKG".
Definition VERSION : Z := 1.
Definition HEADER_LEN : Z := 8.

(** The fields a [read_u32be] diagnostic names. *)
Inductive field := PackageSize | PathLength | DataLength.

(** One constructor per failure the writer and the reader can report. *)
Inductive pkg_error :=
| PathTooLong (p : list Z)
| MemberTooLarge (p : list Z)
| NotLatin1 (p : list Z)
| PackageTooLarge
| ShortHeader
| BadMagic (m : list Z)
| UnsupportedVersion (v : Z)
| SizeMismatch (declared actual : Z)
| AddressOverflow
| TruncatedField (f : field) (pos : Z)
| TruncatedPath (pos : Z)
| TruncatedPayload (p : list Z) (pos : Z).

(** ** Members *)
Definition is_elf (e : Entry) : bool := starts_with (data e) (127 :: rs "ELF").

Definition is_separator (c : Z) : bool := (c =? 47) || (c =? 92).

(** [rsplit(['/', '\\']).next()]: the last piece of the path. *)
Definition module_name (e : Entry) : list Z :=
  default (path e) (last (split_on is_separator (path e))).

(** [(path.len() + 4) & !3] *)
Definition padded_path_len (p : list Z) : Z := Z.land (str_len p + 4) (Z.lnot 3).

(** ** Writer *)
Definition serialize_entry (out : list Z) (e : Entry) : res pkg_error (list Z) :=
  let padded := padded_path_len (path e) in
  path_field ← ok_or (try_from u32_max (padded - 1)) (PathTooLong (path e));
  data_len ← ok_or (try_from u32_max (len (data e))) (MemberTooLarge (path e));
  _ ← ensure (forallb (fun c => c <? 0x100) (path e)) (NotLatin1 (path e));
  let path_bytes := map (fun c => c mod 256) (path e) in
  let out := out ++ to_be 4 path_field ++ path_bytes in
  pad ← or_stuck (checked_sub padded (len path_bytes));
  let out := resize_to (len out + pad) 0 out in
  Ok (out ++ to_be 4 data_len ++ data e).

Definition serialize (entries : list Entry) : res pkg_error (list Z) :=
  let out := MAGIC ++ [VERSION] ++ to_be 4 0 in
  out ← foldM serialize_entry out entries;
  total ← ok_or (try_from u32_max (len out)) PackageTooLarge;
  or_stuck (copy_at out 4 HEADER_LEN (to_be 4 total)).

(** ** Reader *)
Definition read_u32be (bytes : list Z) (pos : Z) (what : field) : res pkg_error Z :=
  stop ← ok_or (checked_add usize_max pos 4) AddressOverflow;
  slice ← ok_or (get_range bytes pos stop) (TruncatedField what pos);
  Ok (of_be slice).

(** One round of the member loop: the entry at [pos] and the offset after it. *)
Definition parse_member (bytes : list Z) (pos : Z) : res pkg_error (Entry * Z) :=
  path_len ← read_u32be bytes pos PathLength;
  pos ← ok_or (checked_add usize_max pos 4) AddressOverflow;
  width ← ok_or (checked_add usize_max path_len 1) AddressOverflow;
  path_end ← ok_or (checked_add usize_max pos width) AddressOverflow;
  raw ← ok_or (get_range bytes pos path_end) (TruncatedPath pos);
  let name_end := default (len raw) (position (fun b => b =? 0) raw) in
  let name := slice raw 0 name_end in
  let pos := path_end in
  data_len ← read_u32be bytes pos DataLength;
  pos ← ok_or (checked_add usize_max pos 4) AddressOverflow;
  data_end ← ok_or (checked_add usize_max pos data_len) AddressOverflow;
  payload ← ok_or (get_range bytes pos data_end) (TruncatedPayload name pos);
  Ok (mkEntry name payload, data_end).

(** [while pos < bytes.len()].  Every round consumes at least nine bytes, so a
    budget of one round per byte is never used up. *)
Fixpoint parse_members (fuel : nat) (bytes : list Z) (pos : Z) (entries : list Entry)
  : res pkg_error (list Entry) :=
  if pos <? len bytes then
    match fuel with
    | O => Stuck
    | S fuel => '(e, pos) ← parse_member bytes pos;
                parse_members fuel bytes pos (entries ++ [e])
    end
  else Ok entries.

Definition parse (bytes : list Z) : res pkg_error (list Entry) :=
  _ ← refuse (len bytes <? HEADER_LEN) ShortHeader;
  magic ← or_stuck (get_range bytes 0 3);
  _ ← refuse (negb (eqb_list magic MAGIC)) (BadMagic magic);
  version ← or_stuck (get_at bytes 3);
  _ ← refuse (negb (version =? VERSION)) (UnsupportedVersion version);
  declared ← read_u32be bytes 4 PackageSize;
  _ ← refuse (negb (declared =? len bytes)) (SizeMismatch declared (len bytes));
  parse_members (length bytes) bytes HEADER_LEN [].

(** ** The command: [create]

    Paths are Unix byte strings; [to_string_lossy] is [from_utf8_lossy]. *)
Inductive CreatePolicy := NoClobber | ReplaceIfSha256 (expected : list Z).
Inductive CreateFailureKind := InputFailure | Validation | PublicationFailure | RollbackIncomplete.
Inductive PathMode := Reference | Basename.
Record CreateFailure := mkCreateFailure
  { failure_kind : CreateFailureKind; failure_path : list Z;
    publication_class : option PublicationFailureClass }.
Record CreateOutcome := mkCreateOutcome
  { outcome_entries : list Entry; outcome_publication : PublicationReceipt }.

Definition basename (file : list Z) : list Z :=
  from_utf8_lossy (default file (file_name file)).
Definition recorded_path (mode : PathMode) (file : list Z) : list Z :=
  match mode with
  | Reference => if is_absolute file then basename file else from_utf8_lossy file
  | Basename => basename file
  end.

Definition failure (k : CreateFailureKind) (p : list Z) : CreateFailure := mkCreateFailure k p None.

Section create.
Context {H : Sha256} {W : Type} {P : Publication W}.

Definition read_member (w : W) (mode : PathMode) (entries : list Entry) (file : list Z)
  : res CreateFailure (list Entry) :=
  bytes ← ok_or (fs_read w file) (failure InputFailure file);
  Ok (entries ++ [mkEntry (recorded_path mode file) bytes]).

(** The first member the bootstrap would ignore, by index. *)
Definition first_non_elf (entries : list Entry) : option Z :=
  position (fun e => negb (is_elf e)) entries.

(** Everything before publication: read, check, encode, read back. *)
Definition stage (w : W) (output : list Z) (files : list (list Z)) (mode : PathMode)
  (allow_non_elf : bool) : res CreateFailure (list Entry * list Z) :=
  entries ← foldM (read_member w mode) [] files;
  _ ← (match first_non_elf entries with
       | Some index =>
         if negb allow_non_elf
         then culprit ← or_stuck (get_at files index); Err (failure Validation culprit)
         else Ok tt
       | None => Ok tt
       end);
  bytes ← map_err (fun _ => failure Validation output) (serialize entries);
  reparsed ← map_err (fun _ => failure Validation output) (parse bytes);
  _ ← refuse (negb (bool_decide (reparsed = entries))) (failure Validation output);
  Ok (entries, bytes).

Definition atomic_policy (w : W) (output : list Z) (policy : CreatePolicy)
  : res CreateFailure AtomicFilePolicy :=
  match policy with
  | NoClobber => Ok AtomicNoClobber
  | ReplaceIfSha256 expected =>
    measured ← ok_or (measure_regular_file w output) (failure PublicationFailure output);
    '(identity, current) ← ok_or measured
       (mkCreateFailure PublicationFailure output (Some Conflict));
    let actual := sha256_bytes current in
    _ ← refuse (negb (eqb_list actual expected))
          (mkCreateFailure PublicationFailure output (Some Conflict));
    Ok (ReplaceIf identity actual)
  end.

Definition create (w : W) (output : list Z) (files : list (list Z)) (mode : PathMode)
  (allow_non_elf : bool) (policy : CreatePolicy) : W * res CreateFailure CreateOutcome :=
  match (staged ← stage w output files mode allow_non_elf;
         pol ← atomic_policy w output policy; Ok (staged, pol)) with
  | Ok ((entries, bytes), pol) =>
    match publish_atomic_file w output bytes pol with
    | (w', inl receipt) => (w', Ok (mkCreateOutcome entries receipt))
    | (w', inr error) =>
      let k := if rollback_incomplete error then RollbackIncomplete else PublicationFailure in
      (w', Err (mkCreateFailure k output (Some (failure_class error))))
    end
  | Err f => (w, Err f)
  | Stuck => (w, Stuck)
  end.
End create.

(** ** The container format, as a relation

    [package = header, file*], with [file = pathLength, path, dataLength, data]:
    the path field holds a NUL-terminated (or full-width) name. *)
Inductive is_member : list Z -> Entry -> Prop :=
| Member name tail payload :
    Forall (fun b => b <> 0) name ->
    (tail = [] \/ exists t, tail = 0 :: t) ->
    1 <= len (name ++ tail) <= 2 ^ 32 ->
    len payload <= u32_max ->
    is_member (to_be 4 (len (name ++ tail) - 1) ++ (name ++ tail)
               ++ to_be 4 (len payload) ++ payload)
              (mkEntry name payload).

Inductive is_members : list Z -> list Entry -> Prop :=
| NoMembers : is_members [] []
| ConsMember m ms e es : is_member m e -> is_members ms es -> is_members (m ++ ms) (e :: es).

Definition is_package (bytes : list Z) (entries : list Entry) : Prop :=
  exists body, bytes = MAGIC ++ [VERSION] ++ to_be 4 (HEADER_LEN + len body) ++ body
    /\ HEADER_LEN + len body <= u32_max /\ is_members body entries.

Lemma read_u32be_Ok bytes pos what v :
  read_u32be bytes pos what = Ok v ->
  get_range bytes pos (pos + 4) = Some (slice bytes pos (pos + 4)) /\ v = of_be (slice bytes pos (pos + 4)).
Proof.
  unfold read_u32be. intros (stop & Hs & (s & Hg & Hv)%bind_Ok)%bind_Ok. inv_ok.
  apply checked_add_Some in Hs as [-> _].
  pose proof Hg as (?&?&?&->)%get_range_Some. done.
Qed.

Lemma read_u32be_at p v q pos what :
  0 <= v <= u32_max -> pos = len p -> len p + 4 <= usize_max ->
  read_u32be (p ++ to_be 4 v ++ q) pos what = Ok v.
Proof.
  intros Hv -> Hp. unfold read_u32be.
  rewrite (proj2 (checked_add_Some _ _ _ _)) by eauto. cbn.
  rewrite get_range_app_mid by (rewrite ?len_to_be; lia). cbn. by rewrite of_to_be_u32.
Qed.

(** A slice of length four is the big-endian image of its own value. *)
Lemma slice_be4 bytes pos s :
  get_range bytes pos (pos + 4) = Some s -> Forall is_u8 bytes ->
  s = to_be 4 (of_be s) /\ 0 <= of_be s <= u32_max.
Proof.
  intros H Hu8. pose proof (get_range_len _ _ _ _ H) as Hl.
  pose proof (get_range_Forall _ _ _ _ _ H Hu8) as Hs.
  split; [|apply of_be_u32; [lia|done]].
  rewrite <- (to_of_be s) at 1 by done. f_equal. unfold len in Hl. lia.
Qed.

(** Splitting a path field at its first NUL. *)
Lemma name_split raw :
  let n := default (len raw) (position (fun b => b =? 0) raw) in
  exists tail, raw = slice raw 0 n ++ tail /\ Forall (fun b => b <> 0) (slice raw 0 n) /\
    (tail = [] \/ exists t, tail = 0 :: t).
Proof.
  destruct (position (fun b => b =? 0) raw) as [n|] eqn:Hp; cbn.
  - apply position_Some in Hp as (x & q & Hraw & Hx & Hn & Hall). bool_prop. subst x.
    rewrite slice_prefix. exists (0 :: q). split; [done|]. split; [|eauto].
    eapply Forall_impl; [exact Hall|]. intros b Hb. cbn in Hb. bool_prop. exact Hb.
  - apply position_None in Hp. rewrite slice_full. exists []. rewrite app_nil_r.
    split; [done|]. split; [|auto]. eapply Forall_impl; [exact Hp|].
    intros b Hb. cbn in Hb. bool_prop. exact Hb.
Qed.

Lemma name_join name tail :
  Forall (fun b => b <> 0) name -> (tail = [] \/ exists t, tail = 0 :: t) ->
  slice (name ++ tail) 0 (default (len (name ++ tail)) (position (fun b => b =? 0) (name ++ tail)))
  = name.
Proof.
  intros Hn Ht. assert (Forall (fun b => (b =? 0) = false) name) as Hn'.
  { eapply Forall_impl; [done|]. intros b Hb. by apply Z.eqb_neq. }
  destruct Ht as [->|[t ->]].
  - rewrite app_nil_r. rewrite (proj2 (position_None _ _)) by done. apply slice_full.
  - rewrite position_app by done. cbn.
    rewrite <- (app_nil_l (name ++ _)). by apply slice_app_mid.
Qed.

Lemma parse_member_sound bytes pos e pos' :
  Forall is_u8 bytes -> 0 <= pos -> parse_member bytes pos = Ok (e, pos') ->
  pos + 9 <= pos' <= len bytes /\ is_member (slice bytes pos pos') e.
Proof.
  intros Hu8 Hpos H. unfold parse_member in H.
  apply bind_Ok in H as (n0 & Hn0 & H). apply bind_Ok in H as (p1 & Hp1 & H).
  apply bind_Ok in H as (w & Hw & H). apply bind_Ok in H as (pe & Hpe & H).
  apply bind_Ok in H as (raw & Hrw & H). apply bind_Ok in H as (d0 & Hd0 & H).
  apply bind_Ok in H as (p2 & Hp2 & H). apply bind_Ok in H as (de & Hde & H).
  apply bind_Ok in H as (payload & Hpl & H). inv_ok.
  repeat match goal with
  | H : checked_add _ _ _ = Some _ |- _ => apply checked_add_Some in H as [-> _]
  | H : read_u32be _ _ _ = Ok _ |- _ => apply read_u32be_Ok in H as [? ->]
  end.
  match goal with H1 : get_range bytes pos (pos + 4) = _ |- _ =>
    pose proof (slice_be4 _ _ _ H1 Hu8) as [Hbe1 Hr1]; apply get_range_Some in H1 as (_&_&Hlen1&_) end.
  set (n := of_be (slice bytes pos (pos + 4))) in *.
  match goal with H2 : get_range bytes (pos + 4) (pos + 4 + (n + 1)) = Some raw |- _ =>
    pose proof (get_range_len _ _ _ _ H2) as Hraw; apply get_range_Some in H2 as (_&_&Hlen2&Er) end.
  set (q := pos + 4 + (n + 1)) in *.
  match goal with H3 : get_range bytes q (q + 4) = _ |- _ =>
    pose proof (slice_be4 _ _ _ H3 Hu8) as [Hbe2 Hr2]; apply get_range_Some in H3 as (_&_&Hlen3&_) end.
  set (d := of_be (slice bytes q (q + 4))) in *.
  match goal with H4 : get_range bytes (q + 4) (q + 4 + d) = Some _ |- _ =>
    pose proof (get_range_len _ _ _ _ H4) as Hpay; apply get_range_Some in H4 as (_&_&Hlen4&Ep) end.
  split; [lia|].
  rewrite (slice_split bytes pos (pos + 4) (q + 4 + d)) by lia.
  rewrite (slice_split bytes (pos + 4) q (q + 4 + d)) by lia.
  rewrite (slice_split bytes q (q + 4) (q + 4 + d)) by lia.
  rewrite Hbe1, Hbe2, <- Er, <- Ep.
  destruct (name_split raw) as (tail & Hsplit & Hname & Htail).
  set (name := slice raw 0 _) in *.
  replace n with (len (name ++ tail) - 1) at 1 by (rewrite <- Hsplit; lia).
  rewrite Hsplit at 1. replace d with (len payload) by lia.
  apply Member; try done; rewrite <- ?Hsplit; unfold u32_max in *; lia.
Qed.

Lemma is_member_len m e : is_member m e -> 9 <= len m.
Proof.
  destruct 1 as [name tail payload ? ? Hf ?].
  rewrite len_app, !len_app, !len_to_be in *. pose proof (len_nonneg payload). lia.
Qed.

Lemma parse_member_complete p m q e :
  is_member m e -> len (p ++ m ++ q) <= u32_max ->
  parse_member (p ++ m ++ q) (len p) = Ok (e, len p + len m).
Proof.
  destruct 1 as [name tail payload Hname Htail Hf Hd]. intros Hlen.
  set (f := name ++ tail) in *.
  pose proof (len_nonneg p). pose proof (len_nonneg payload). pose proof (len_nonneg q).
  assert (len p + 4 + len f + 4 + len payload + len q <= u32_max) as Hsz.
  { rewrite !len_app, !len_to_be in Hlen. lia. }
  assert (u32_max < usize_max) by done. unfold u32_max in *.
  unfold parse_member.
  rewrite <- !app_assoc.
  rewrite (read_u32be_at p) by (unfold u32_max; lia). cbn.
  rewrite (proj2 (checked_add_Some _ _ _ _)) by (split; [done|lia]). cbn.
  rewrite (proj2 (checked_add_Some _ _ _ _)) by (split; [done|lia]). cbn.
  rewrite (proj2 (checked_add_Some _ _ _ _)) by (split; [done|lia]). cbn.
  replace (p ++ to_be 4 (len f - 1) ++ f ++ to_be 4 (len payload) ++ payload ++ q)
    with ((p ++ to_be 4 (len f - 1)) ++ f ++ (to_be 4 (len payload) ++ payload ++ q))
    by by rewrite <- !app_assoc.
  rewrite get_range_app_mid by (rewrite len_app, len_to_be; lia). cbn.
  assert (slice f 0 (default (len f) (position (fun b => b =? 0) f)) = name) as ->
    by by apply name_join.
  replace ((p ++ to_be 4 (len f - 1)) ++ f ++ to_be 4 (len payload) ++ payload ++ q)
    with (((p ++ to_be 4 (len f - 1)) ++ f) ++ to_be 4 (len payload) ++ (payload ++ q))
    by by rewrite <- !app_assoc.
  rewrite read_u32be_at by (rewrite ?len_app, ?len_to_be; unfold u32_max; lia). cbn.
  rewrite (proj2 (checked_add_Some _ _ _ _)) by (split; [done|lia]). cbn.
  rewrite (proj2 (checked_add_Some _ _ _ _)) by (split; [done|lia]). cbn.
  rewrite (app_assoc _ (to_be 4 (len payload))).
  rewrite get_range_app_mid by (rewrite ?len_app, ?len_to_be; lia). cbn.
  do 2 f_equal. rewrite !len_app, !len_to_be. lia.
Qed.

Lemma parse_members_sound fuel bytes pos acc es :
  Forall is_u8 bytes -> 0 <= pos -> pos <= len bytes -> parse_members fuel bytes pos acc = Ok es ->
  exists es', es = acc ++ es' /\ is_members (slice bytes pos (len bytes)) es'.
Proof.
  intros Hu8. revert pos acc; induction fuel as [|fuel IH]; intros pos acc Hp Hle; cbn [parse_members];
    (case_match; bool_prop; [|intros [= <-]; exists []; rewrite app_nil_r; split; [done|];
       replace pos with (len bytes) by lia; rewrite slice_empty; constructor]); [done|].
  intros ([e pos'] & Hm & Hrest)%bind_Ok.
  apply parse_member_sound in Hm as [Hpos' Hm]; [|done..].
  destruct (IH pos' (acc ++ [e])) as (es' & -> & Hms); [lia|lia|done|].
  exists (e :: es'). split; [by rewrite <- app_assoc|].
  rewrite (slice_split bytes pos pos') by lia. by constructor.
Qed.

Lemma parse_members_complete fuel p ms es acc :
  is_members ms es -> len (p ++ ms) <= u32_max -> (length ms <= fuel)%nat ->
  parse_members fuel (p ++ ms) (len p) acc = Ok (acc ++ es).
Proof.
  intros Hms. revert fuel p acc. induction Hms as [|m ms e es Hm Hms IH]; intros fuel p acc Hlen Hf.
  - rewrite !app_nil_r. destruct fuel; cbn; (case_match; bool_prop; [lia|done]).
  - pose proof (is_member_len _ _ Hm) as H9. pose proof (len_nonneg ms).
    destruct fuel as [|fuel]; [rewrite length_app in Hf; unfold len in H9; lia|].
    cbn [parse_members]. case_match; bool_prop; [|rewrite !len_app in *; lia].
    rewrite (parse_member_complete p m ms e) by done. cbn.
    replace (len p + len m) with (len (p ++ m)) by by rewrite len_app.
    rewrite app_assoc, IH by (rewrite <- ?app_assoc; try done; rewrite length_app in Hf; unfold len in H9; lia).
    by rewrite <- app_assoc.
Qed.

Lemma parse_package bytes es :
  Forall is_u8 bytes -> parse bytes = Ok es -> is_package bytes es.
Proof.
  intros Hu8. unfold parse. intros H. apply bind_Ok in H as ([] & Hlen & H). apply bind_Ok in H as (mg & Hm & H).
  apply bind_Ok in H as ([] & Hmg & H). apply bind_Ok in H as (v & Hv & H).
  apply bind_Ok in H as ([] & Hve & H). apply bind_Ok in H as (n & Hn & H).
  apply bind_Ok in H as ([] & Hnl & H). inv_guards. apply eqb_list_true in Hmg. subst.
  apply read_u32be_Ok in Hn as [Hg Hn]. pose proof (slice_be4 _ _ _ Hg Hu8) as [Hbe Hr].
  unfold HEADER_LEN in *. rewrite <- Hn in Hbe, Hr.
  apply parse_members_sound in H as (es' & -> & Hms); [|done|lia..]. cbn.
  exists (slice bytes 8 (len bytes)). unfold HEADER_LEN in *.
  rewrite len_slice by lia. replace (8 + (len bytes - 8)) with (len bytes) by lia.
  split; [|split; [lia|done]].
  apply get_range_Some in Hm as (_&_&_&Hm).
  rewrite <- (slice_full bytes) at 1.
  rewrite (slice_split bytes 0 3), (slice_split bytes 3 4), (slice_split bytes 4 8) by lia.
  rewrite <- Hm, <- Hbe. do 2 f_equal.
  change (bytes !! 3%nat = Some VERSION) in Hv. unfold slice. change (Z.to_nat (4 - 3)) with 1%nat.
  change (Z.to_nat 3) with 3%nat. by rewrite (drop_S _ _ _ Hv).
Qed.

Lemma package_parse bytes es : is_package bytes es -> parse bytes = Ok es.
Proof.
  intros (body & Hb & Hle & Hms). unfold HEADER_LEN in *.
  pose proof (len_nonneg body).
  assert (len bytes = 8 + len body) as Hl.
  { subst. rewrite !len_app, len_to_be. change (len MAGIC) with 3. change (len [VERSION]) with 1. lia. }
  assert (get_range bytes 0 3 = Some MAGIC) as H0
    by (subst; by apply (get_range_app_mid [] MAGIC)).
  assert (get_at bytes 3 = Some VERSION) as H1 by by subst.
  assert (read_u32be bytes 4 PackageSize = Ok (len bytes)) as H2.
  { rewrite Hl, Hb, app_assoc. apply read_u32be_at; try done. lia. }
  assert (parse_members (length bytes) bytes 8 [] = Ok es) as H3.
  { pose proof (parse_members_complete (length bytes)
      (MAGIC ++ [VERSION] ++ to_be 4 (8 + len body)) body es []) as Hc.
    rewrite <- !app_assoc, <- Hb in Hc. apply Hc; try done; [lia|].
    subst. rewrite !length_app. lia. }
  unfold parse, HEADER_LEN. rewrite (proj2 (Z.ltb_ge _ _)) by lia. cbn.
  rewrite H0. cbn. rewrite H1. cbn. rewrite H2. cbn. rewrite Z.eqb_refl. cbn. done.
Qed.

(** The bytes of one member, and the size it adds to the container. *)
Definition encode_member (e : Entry) : list Z :=
  let padded := padded_path_len (path e) in
  to_be 4 (padded - 1) ++ (path e ++ fill (padded - len (path e)) 0)
  ++ to_be 4 (len (data e)) ++ data e.
Definition member_size (e : Entry) : Z := padded_path_len (path e) + 8 + len (data e).
Definition total_size (es : list Entry) : Z := foldr (fun e n => member_size e + n) 0 es.

(** A Rust string holds Unicode scalar values. *)
Definition wf_entry (e : Entry) : Prop := Forall (fun c => is_scalar c = true) (path e).
Definition latin1 (e : Entry) : bool := forallb (fun c => c <? 0x100) (path e).

Lemma padded_bounds p :
  padded_path_len p mod 4 = 0 /\ str_len p + 1 <= padded_path_len p <= str_len p + 4.
Proof.
  unfold padded_path_len. change (Z.lnot 3) with (Z.lnot (Z.ones 2)).
  rewrite <- Z.ldiff_land, Z.ldiff_ones_r, Z.shiftl_mul_pow2, Z.shiftr_div_pow2 by lia.
  change (2 ^ 2) with 4. pose proof (Z.div_mod (str_len p + 4) 4).
  pose proof (Z.mod_pos_bound (str_len p + 4) 4). rewrite Z.mod_mul by lia. lia.
Qed.

Lemma padded_path p : len p < padded_path_len p.
Proof. pose proof (padded_bounds p). pose proof (str_len_ge p). lia. Qed.

Lemma len_encode_member e : len (encode_member e) = member_size e.
Proof.
  unfold encode_member, member_size. pose proof (padded_path (path e)).
  rewrite !len_app, !len_to_be, len_fill by lia. lia.
Qed.

Lemma latin1_bytes p : Forall (fun c => is_scalar c = true) p ->
  forallb (fun c => c <? 0x100) p = true -> map (fun c => c mod 256) p = p.
Proof.
  induction 1 as [|c p Hc Hp IH]; cbn [forallb map]; [done|]. intros H. bool_prop.
  apply is_scalar_true in Hc. rewrite IH, Z.mod_small by (try done; lia). done.
Qed.

(** What one round of the writer's loop appends, and when it refuses. *)
Lemma serialize_entry_spec out e : wf_entry e ->
  serialize_entry out e =
    if padded_path_len (path e) - 1 <=? u32_max then
      if len (data e) <=? u32_max then
        if latin1 e then Ok (out ++ encode_member e) else Err (NotLatin1 (path e))
      else Err (MemberTooLarge (path e))
    else Err (PathTooLong (path e)).
Proof.
  intros Hwf. unfold serialize_entry, try_from, latin1.
  pose proof (padded_path (path e)). pose proof (len_nonneg (path e)). pose proof (len_nonneg (data e)).
  rewrite (proj2 (Z.leb_le 0 (padded_path_len (path e) - 1))) by lia.
  rewrite (proj2 (Z.leb_le 0 (len (data e)))) by lia. cbn [andb].
  destruct (padded_path_len (path e) - 1 <=? u32_max); cbn; [|done].
  destruct (len (data e) <=? u32_max); cbn; [|done].
  destruct (forallb _ (path e)) eqn:Hl; cbn; [|done].
  rewrite latin1_bytes by done.
  rewrite (proj2 (checked_sub_Some _ _ (padded_path_len (path e) - len (path e)))) by lia. cbn.
  unfold resize_to, encode_member.
  remember (padded_path_len (path e) - len (path e)) as pad eqn:Hpad.
  remember (out ++ to_be 4 (padded_path_len (path e) - 1) ++ path e) as l eqn:El.
  rewrite (proj2 (Z.leb_gt (len l + pad) (len l))) by lia.
  replace (len l + pad - len l) with pad by lia. subst l. by rewrite <- !app_assoc.
Qed.

Lemma len_encode es : len (flat_map encode_member es) = total_size es.
Proof.
  induction es as [|e es IH]; [done|]. cbn [flat_map total_size foldr].
  by rewrite len_app, len_encode_member, IH.
Qed.

Lemma total_size_nonneg es : 0 <= total_size es.
Proof. rewrite <- len_encode. apply len_nonneg. Qed.

Lemma serialize_body_spec es : Forall wf_entry es -> forall out,
  foldM serialize_entry out es <> Stuck /\
  (forall out', foldM serialize_entry out es = Ok out' ->
    out' = out ++ (flat_map encode_member es) /\ forallb latin1 es = true /\
    Forall (fun e => padded_path_len (path e) - 1 <= u32_max /\ len (data e) <= u32_max) es) /\
  (forallb latin1 es = true -> total_size es <= u32_max ->
    foldM serialize_entry out es = Ok (out ++ (flat_map encode_member es))).
Proof.
  induction 1 as [|e es He Hes IH]; intros out.
  - cbn. rewrite app_nil_r. repeat split; try done; congruence.
  - cbn [foldM forallb total_size foldr]. fold (total_size es). rewrite serialize_entry_spec by done.
    destruct (IH (out ++ encode_member e)) as (IH1 & IH2 & IH3).
    pose proof (total_size_nonneg es) as Hpos.
    split; [|split].
    + repeat case_match; cbn; auto.
    + intros out'. repeat case_match; cbn; try done. bool_prop. intros (-> & Hl & Hf)%IH2.
      cbn [flat_map]. rewrite <- app_assoc. split; [done|].
      split; [exact Hl|by constructor].
    + intros Hl Hsz. bool_prop. unfold member_size in Hsz.
      pose proof (padded_path (path e)). pose proof (len_nonneg (path e)). pose proof (len_nonneg (data e)).
      rewrite !(proj2 (Z.leb_le _ _)) by lia.
      match goal with H : latin1 e = true |- _ => rewrite H end. cbn.
      rewrite IH3 by (try done; lia). cbn [flat_map]. by rewrite <- app_assoc.
Qed.

(** The container the writer produces, in full. *)
Definition container (es : list Entry) : list Z :=
  MAGIC ++ [VERSION] ++ to_be 4 (HEADER_LEN + total_size es) ++ (flat_map encode_member es).

Lemma patch_header es : HEADER_LEN + total_size es <= u32_max ->
  copy_at ((MAGIC ++ [VERSION] ++ to_be 4 0) ++ (flat_map encode_member es)) 4 HEADER_LEN
    (to_be 4 (HEADER_LEN + total_size es)) = Some (container es).
Proof.
  intros Hle. apply copy_at_Some. unfold HEADER_LEN in *.
  rewrite len_app, len_encode, len_to_be.
  change (len (MAGIC ++ [VERSION] ++ to_be 4 0)) with 8.
  pose proof (len_nonneg (flat_map encode_member es)) as Hp. rewrite len_encode in Hp.
  repeat split; lia.
Qed.

(** Appending members to a member list stays inside the format. *)
Lemma encode_member_is_member e :
  wf_entry e -> Forall (fun c => c <> 0) (path e) ->
  padded_path_len (path e) - 1 <= u32_max -> len (data e) <= u32_max ->
  is_member (encode_member e) e.
Proof.
  intros Hwf Hnul Hp Hd. destruct e as [p d]; cbn in *. unfold encode_member. cbn [path data].
  pose proof (padded_path p). pose proof (len_nonneg p).
  set (tail := fill (padded_path_len p - len p) 0).
  assert (padded_path_len p = len (p ++ tail)) as Hlen.
  { unfold tail. rewrite len_app, len_fill by lia. lia. }
  rewrite Hlen. apply Member; try done.
  - right. unfold tail, fill. destruct (Z.to_nat (padded_path_len p - len p)) eqn:E; [lia|].
    cbn. eauto.
  - unfold u32_max in *. lia.
Qed.

Lemma flat_map_members es :
  Forall (fun e => is_member (encode_member e) e) es -> is_members (flat_map encode_member es) es.
Proof. induction 1; cbn; by constructor. Qed.

Lemma serialize_Ok es bytes : Forall wf_entry es -> serialize es = Ok bytes ->
  bytes = container es /\ forallb latin1 es = true /\ HEADER_LEN + total_size es <= u32_max /\
  Forall (fun e => padded_path_len (path e) - 1 <= u32_max /\ len (data e) <= u32_max) es.
Proof.
  intros Hwf H. unfold serialize in H.
  apply bind_Ok in H as (out & Hout & H). apply bind_Ok in H as (total & Ht & H). inv_ok.
  destruct (serialize_body_spec es Hwf (MAGIC ++ [VERSION] ++ to_be 4 0)) as (_ & Hb & _).
  apply Hb in Hout as (-> & Hl & Hf). apply try_from_Some in Ht as [Ht ->].
  rewrite len_app, len_encode in Ht, H.
  change (len (MAGIC ++ [VERSION] ++ to_be 4 0)) with HEADER_LEN in Ht, H.
  rewrite patch_header in H by lia. injection H as <-. repeat split; try done; lia.
Qed.

(** C24.  The reader decides the container format: on every byte string [parse]
    succeeds with exactly the entries the format relation assigns to it. *)
Theorem parse_iff_package bytes es :
  Forall is_u8 bytes -> parse bytes = Ok es <-> is_package bytes es.
Proof. intros Hu8. split; [by apply parse_package|apply package_parse]. Qed.

(**  Round trip: whatever the writer accepts, the reader returns, for every
    list of members whose names are Unicode strings without NUL. *)
Theorem serialize_parse_roundtrip es bytes :
  Forall wf_entry es -> Forall (fun e => Forall (fun c => c <> 0) (path e)) es ->
  serialize es = Ok bytes -> parse bytes = Ok es.
Proof.
  intros Hwf Hnul H. apply serialize_Ok in H as (-> & _ & Hle & Hf); [|done].
  apply package_parse. exists (flat_map encode_member es).
  rewrite len_encode. split; [done|split; [done|]]. apply flat_map_members.
  rewrite Forall_forall in *. intros e He. apply encode_member_is_member; naive_solver.
Qed.

Lemma serialize_not_Stuck es : Forall wf_entry es -> serialize es <> Stuck.
Proof.
  intros Hwf. destruct (serialize_body_spec es Hwf (MAGIC ++ [VERSION] ++ to_be 4 0)) as (Hns & Hb & _).
  unfold serialize. apply bind_not_Stuck; [done|]. intros out (-> & _ & _)%Hb.
  apply bind_not_Stuck; [apply ok_or_not_Stuck|]. intros total Ht. inv_ok.
  apply try_from_Some in Ht as [Ht ->]. rewrite len_app, len_encode in *.
  change (len (MAGIC ++ [VERSION] ++ to_be 4 0)) with HEADER_LEN in *.
  by rewrite patch_header by lia.
Qed.

(**  The writer succeeds exactly when every name is ISO-8859-1 and the whole
    container fits a 32-bit size, and then emits [container]; it never panics. *)
Theorem serialize_succeeds_iff es :
  Forall wf_entry es ->
  serialize es <> Stuck /\
  (serialize es = Ok (container es) <->
   forallb latin1 es = true /\ HEADER_LEN + total_size es <= u32_max).
Proof.
  intros Hwf. split; [by apply serialize_not_Stuck|].
  destruct (serialize_body_spec es Hwf (MAGIC ++ [VERSION] ++ to_be 4 0)) as (_ & _ & Hc).
  split; [intros H; apply serialize_Ok in H; naive_solver|].
    intros [Hl Hsz]. unfold serialize. pose proof (total_size_nonneg es).
    rewrite Hc by (try done; unfold HEADER_LEN in Hsz; lia). rewrite Ok_bind, len_app, len_encode.
    change (len (MAGIC ++ [VERSION] ++ to_be 4 0)) with HEADER_LEN.
    rewrite (proj2 (try_from_Some _ _ _)) by (split; [unfold HEADER_LEN in *; lia|done]).
    cbn [ok_or]. by rewrite Ok_bind, patch_header.
Qed.

(** ** Totality *)
Lemma parse_member_not_Stuck bytes pos : parse_member bytes pos <> Stuck.
Proof. unfold parse_member, read_u32be. not_stuck. Qed.

Lemma parse_members_not_Stuck fuel bytes pos acc :
  Forall is_u8 bytes -> 0 <= pos -> len bytes - pos <= Z.of_nat fuel ->
  parse_members fuel bytes pos acc <> Stuck.
Proof.
  intros Hu8. revert pos acc; induction fuel as [|fuel IH]; intros pos acc Hpos Hf; cbn [parse_members];
    (case_match; bool_prop; [|done]); [lia|].
  apply bind_not_Stuck; [apply parse_member_not_Stuck|]. intros [e pos'] He.
  apply parse_member_sound in He as [? _]; [|done..]. apply IH; lia.
Qed.

Lemma parse_total bytes : Forall is_u8 bytes -> parse bytes <> Stuck.
Proof.
  intros Hu8. unfold parse, HEADER_LEN.
  apply bind_not_Stuck; [auto with aros|]. intros [] Hlen. inv_guards.
  apply bind_not_Stuck; [apply or_stuck_not_Stuck, get_range_is_Some; lia|]. intros magic _.
  apply bind_not_Stuck; [auto with aros|]. intros [] _.
  apply bind_not_Stuck; [apply or_stuck_not_Stuck, get_at_is_Some; lia|]. intros v _.
  apply bind_not_Stuck; [auto with aros|]. intros [] _.
  apply bind_not_Stuck; [unfold read_u32be; not_stuck|]. intros n _.
  apply bind_not_Stuck; [auto with aros|]. intros [] _.
  apply parse_members_not_Stuck; [done|lia|unfold len; lia].
Qed.

(**  The reader is total: on every byte string it returns a list of entries
    or a diagnostic; no index is out of range and the member loop ends. *)
Theorem parse_never_stuck bytes : Forall is_u8 bytes -> parse bytes <> Stuck.
Proof. apply parse_total. Qed.

(** Offset of the [dataLength] field of the member that follows [pre]. *)
Definition data_length_offset (pre : list Entry) (e : Entry) : Z :=
  HEADER_LEN + total_size pre + 4 + padded_path_len (path e).
Definition payload_total (es : list Entry) : Z := foldr (fun e n => len (data e) + n) 0 es.

Lemma total_size_mod4 es : total_size es mod 4 = payload_total es mod 4.
Proof.
  induction es as [|e es IH]; [done|]. cbn [total_size payload_total foldr].
  fold (total_size es) (payload_total es). unfold member_size.
  destruct (padded_bounds (path e)) as [Hm _].
  rewrite <- (Z.add_mod_idemp_r _ (payload_total es)), <- IH, Z.add_mod_idemp_r by lia.
  apply Z.mod_divide in Hm as [k Hk]; [|lia]. rewrite Hk.
  replace (k * 4 + 8 + len (data e) + total_size es)
    with (len (data e) + total_size es + (k + 2) * 4) by lia. by rewrite Z_mod_plus_full.
Qed.

Lemma total_size_app es es' : total_size (es ++ es') = total_size es + total_size es'.
Proof. rewrite <- !len_encode, flat_map_app, len_app. done. Qed.

(**  Where the [dataLength] field of a member lies: at an offset congruent,
    modulo four, to the sum of the payload lengths before it.  So the field is
    4-byte aligned exactly when those payloads sum to a multiple of four; the
    padding of the path field alone does not align it. *)
Theorem data_length_alignment pre e post bytes :
  Forall wf_entry (pre ++ e :: post) -> serialize (pre ++ e :: post) = Ok bytes ->
  let off := data_length_offset pre e in
  get_range bytes off (off + 4) = Some (to_be 4 (len (data e))) /\
  (off mod 4 = 0 <-> payload_total pre mod 4 = 0).
Proof.
  intros Hwf Hs off. apply serialize_Ok in Hs as (-> & _); [|done]. split.
  - unfold container. rewrite flat_map_app. cbn [flat_map]. unfold encode_member at 2.
    set (h := MAGIC ++ [VERSION] ++ to_be 4 (HEADER_LEN + total_size (pre ++ e :: post))).
    pose proof (padded_path (path e)). pose proof (len_nonneg (path e)).
    transitivity (get_range ((h ++ flat_map encode_member pre ++ to_be 4 (padded_path_len (path e) - 1)
      ++ (path e ++ fill (padded_path_len (path e) - len (path e)) 0))
      ++ to_be 4 (len (data e)) ++ (data e ++ flat_map encode_member post)) off (off + 4)).
    { f_equal. unfold h. by rewrite <- !app_assoc. }
    assert (len h = HEADER_LEN) as Hh by (unfold h; by rewrite !len_app, len_to_be).
    apply get_range_app_mid; unfold off, data_length_offset;
      rewrite !len_app, len_encode, !len_to_be, len_fill, Hh by lia; lia.
  - unfold off, data_length_offset, HEADER_LEN. destruct (padded_bounds (path e)) as [Hm _].
    rewrite <- total_size_mod4. apply Z.mod_divide in Hm as [k Hk]; [|lia]. rewrite Hk.
    replace (8 + total_size pre + 4 + k * 4) with (total_size pre + (k + 3) * 4) by lia.
    by rewrite Z_mod_plus_full.
Qed.

(** ** The command *)
Lemma to_be_Forall_container es : Forall wf_entry es -> forallb latin1 es = true ->
  Forall (fun e => Forall is_u8 (data e)) es -> Forall is_u8 (container es).
Proof.
  intros Hwf Hl Hd. unfold container. repeat apply Forall_app_2; try apply to_be_u8.
  - unfold MAGIC. vm_compute. repeat constructor; congruence.
  - repeat constructor; unfold VERSION, u8_max; lia.
  - revert Hwf Hl Hd. induction es as [|e es IH]; intros Hwf Hl Hd; cbn [flat_map]; [constructor|].
    apply Forall_cons in Hwf as [Hwf Hwfs], Hd as [Hd Hds].
    cbn [forallb] in Hl. apply andb_true_iff in Hl as [Hl Hls].
    apply Forall_app_2; [|auto]. unfold encode_member.
    repeat apply Forall_app_2; try apply to_be_u8; [| |done].
    + unfold latin1 in Hl. rewrite forallb_forall in Hl. unfold wf_entry in Hwf.
      rewrite Forall_forall in *. intros c Hc.
      pose proof (Hwf c Hc) as Hs%is_scalar_true. apply list_elem_of_In, Hl in Hc.
      bool_prop. unfold is_u8, u8_max. lia.
    + unfold fill. apply Forall_replicate. unfold is_u8, u8_max. lia.
Qed.

Section create_facts.
Context {H : Sha256} {W : Type} {P : Publication W}.
Variable w : W.
Hypothesis disk_bytes : forall p bytes, fs_read w p = Some bytes -> Forall is_u8 bytes.

Definition good_entry (e : Entry) : Prop := wf_entry e /\ Forall is_u8 (data e).

Lemma read_members_good mode files entries :
  foldM (read_member w mode) [] files = Ok entries ->
  Forall good_entry entries /\ length entries = length files.
Proof.
  apply (foldM_inv _ (fun pre es => Forall good_entry es /\ length es = length pre)); [done|].
  intros pre file es es' [IH Hlen] Hr. unfold read_member in Hr.
  apply bind_Ok in Hr as (bytes & Hb & Hr). inv_ok. split.
  - apply Forall_app_2; [done|]. constructor; [|done]. split; cbn; [|eauto].
    unfold wf_entry. cbn. unfold recorded_path, basename.
    destruct mode; [destruct (is_absolute file)|]; apply from_utf8_lossy_scalar.
  - rewrite !length_app. cbn. lia.
Qed.

Lemma first_non_elf_None entries :
  first_non_elf entries = None <-> Forall (fun e => is_elf e = true) entries.
Proof.
  unfold first_non_elf. rewrite position_None. apply Forall_iff. intros e. apply negb_false_iff.
Qed.

(** What a successful staging step establishes. *)
Lemma stage_Ok output files mode allow entries bytes :
  stage w output files mode allow = Ok (entries, bytes) ->
  serialize entries = Ok bytes /\ parse bytes = Ok entries /\ length entries = length files /\
  (allow = false -> Forall (fun e => is_elf e = true) entries).
Proof.
  intros Hs. unfold stage in Hs. apply bind_Ok in Hs as (es & Hr & Hs).
  apply bind_Ok in Hs as ([] & Helf & Hs). apply bind_Ok in Hs as (bs & Hser & Hs).
  apply bind_Ok in Hs as (re & Hpa & Hs). apply bind_Ok in Hs as ([] & Heq & Hs). inv_guards. subst re.
  apply read_members_good in Hr as [_ Hlen].
  split; [done|split; [done|split; [done|]]]. intros ->. apply first_non_elf_None. destruct (first_non_elf entries); [|done].
  cbn in Helf. by destruct (get_at files z).
Qed.

Lemma stage_not_Stuck output files mode allow : stage w output files mode allow <> Stuck.
Proof.
  unfold stage. apply bind_not_Stuck.
  { apply (foldM_not_Stuck _ (fun _ => True)); [done| |done]. intros. unfold read_member. not_stuck. }
  intros entries [Hg Hlen]%read_members_good.
  assert (Forall wf_entry entries) as Hwf by (eapply Forall_impl; [exact Hg|]; by intros e []).
  assert (Forall (fun e => Forall is_u8 (data e)) entries) as Hd
    by (eapply Forall_impl; [exact Hg|]; by intros e []).
  apply bind_not_Stuck.
  { destruct (first_non_elf entries) as [i|] eqn:Hi; [|done]. destruct (negb allow); [|done].
    apply position_Some in Hi as (_ & _ & _ & _ & Hi & _).
    apply bind_not_Stuck; [|done]. apply or_stuck_not_Stuck, get_at_is_Some. unfold len in *. lia. }
  intros [] _. apply bind_not_Stuck.
  { apply map_err_not_Stuck. by apply serialize_not_Stuck. }
  intros bytes Hs. apply map_err_Ok, serialize_Ok in Hs as (-> & Hl & _); [|done].
  apply bind_not_Stuck; [|intros; not_stuck].
  by apply map_err_not_Stuck, parse_total, to_be_Forall_container.
Qed.

Lemma atomic_policy_Ok output policy pol :
  atomic_policy w output policy = Ok pol ->
  match policy with
  | NoClobber => pol = AtomicNoClobber
  | ReplaceIfSha256 expected => exists id, pol = ReplaceIf id expected
  end.
Proof.
  destruct policy; cbn; [by intros [= <-]|]. intros Hp.
  apply bind_Ok in Hp as (m & Hm & Hp). apply bind_Ok in Hp as ([id cur] & Hc & Hp).
  apply bind_Ok in Hp as ([] & Heq & Hp). inv_guards. apply eqb_list_true in Heq as <-. eauto.
Qed.
End create_facts.


(** ** Witnesses *)
Definition foo_entry : Entry := mkEntry (rs "foo") (rs "barbarba").
Definition foo_bytes : list Z :=
  rs "PKG" ++ [1; 0;0;0;28; 0;0;0;3] ++ rs "foo" ++ [0; 0;0;0;8] ++ rs "barbarba".
Definition elf_entry : Entry := mkEntry (rs "exec") (127 :: rs "ELF!").

Ltac solve_wf := repeat constructor; vm_compute; congruence.

Lemma parse_iff_package_witness : is_package foo_bytes [foo_entry].
Proof.
  apply (parse_iff_package foo_bytes [foo_entry]).
  - apply forallb_u8. vm_compute. reflexivity.
  - vm_compute. reflexivity.
Defined.

Lemma serialize_parse_roundtrip_witness : parse foo_bytes = Ok [foo_entry].
Proof.
  apply (serialize_parse_roundtrip [foo_entry] foo_bytes); [solve_wf|solve_wf|].
  vm_compute. reflexivity.
Defined.

Lemma serialize_succeeds_iff_witness : serialize [foo_entry] = Ok (container [foo_entry]).
Proof.
  apply (serialize_succeeds_iff [foo_entry]); [solve_wf|]. split; [reflexivity|].
  vm_compute. congruence.
Defined.

Lemma parse_never_stuck_witness : parse (foo_bytes ++ [0]) <> Stuck.
Proof. apply (parse_never_stuck (foo_bytes ++ [0])). apply forallb_u8. vm_compute. reflexivity. Defined.

(** A five-byte payload pushes the next [dataLength] field off the boundary. *)
Lemma data_length_alignment_witness :
  data_length_offset [elf_entry] foo_entry mod 4 <> 0.
Proof.
  destruct (data_length_alignment [elf_entry] foo_entry [] (container [elf_entry; foo_entry]))
    as [_ Halign]; [solve_wf|vm_compute; reflexivity|].
  rewrite Halign. vm_compute. congruence.
Defined.

Definition demo_disk : list (list Z * list Z) := [(rs "/in/exec", 127 :: rs "ELF!")].
Definition demo_create :=
  create (H := toy_sha256) (P := @mem_publication toy_sha256) demo_disk (rs "/out.pkg")
    [rs "/in/exec"] Reference false NoClobber.

