(* ===== verification/EspPartition.v ===== *)
(** * EspPartition: source-resolved ESP-IDF partition tables

    Models [crates/aros-common/src/esp_partition.rs] and
    [esp_partition/source.rs]: the bounded CSV reader that resolves explicitly
    positioned partitions, its range and subtype checks, and the encoder of the
    unsigned 3 KiB table. *)

From S2P Require Import Prelude Bytes Text Digest.

Definition TABLE_BYTES : Z := 0xc00.
Definition SECTOR_BYTES : Z := 0x1000.
Definition RECORD_BYTES : Z := 32.

Record EspPartition := mkPartition
  { name : list Z; kind : Z; subtype : Z; offset : Z; size : Z; flags : Z }.
#[global] Instance EspPartition_eq_dec : EqDecision EspPartition.
Proof. solve_decision. Defined.

Record EspPartitionSource := mkSource { source_sha256 : list Z; partitions : list EspPartition }.
Record EspPartitionArtifact := mkArtifact
  { artifact_bytes : list Z; artifact_sha256 : list Z; artifact_source : EspPartitionSource;
    table_offset : Z; flash_bytes : Z }.

(** Why a CSV line is refused. *)
Inductive reason :=
| UnsupportedSyntax | FieldCount | BadLabel | TypeRange | SelfDescription | LeadingZero
| NotUnsigned | BadNumber | SlotInvalid | SlotUnsupported | SubtypeRange | UnknownFlag
| DuplicateFlag | SourceOrder.

Inductive part_error :=
| ByteBudget | NotUtf8Source | BadGeometry | LineBudget | RecordBudget
| LineError (line : Z) (r : reason)
| NoEntries | DuplicateLabel | UnsupportedFlags | BadRange | AppSizeUnaligned
| OverlapsTable | BeforeTable | RangesOverlap
| OtaReadonly | SmallNvs | OtaMetadata
| SourceDigest | TableCapacity.

(** ** Numbers and keywords *)

(** [value.strip_prefix("0x").or_else(|| value.strip_prefix("0X"))] *)
Definition strip_radix (lower upper : list Z) (value : list Z) : option (list Z) :=
  match strip_prefix lower value with
  | Some digits => Some digits
  | None => strip_prefix upper value
  end.

Definition unit_suffix (value : list Z) : list Z * Z :=
  match to_ascii_lower <$> last value with
  | Some 107 => (removelast value, 1024)
  | Some 109 => (removelast value, 1024 * 1024)
  | _ => (value, 1)
  end.

Definition radix_prefix (value : list Z) : res reason (list Z * Z) :=
  match strip_radix (rs "0x") (rs "0X") value with
  | Some digits => Ok (digits, 16)
  | None =>
    match strip_radix (rs "0b") (rs "0B") value with
    | Some digits => Ok (digits, 2)
    | None =>
      match strip_radix (rs "0o") (rs "0O") value with
      | Some digits => Ok (digits, 8)
      | None =>
        _ ← refuse ((1 <? str_len value) && starts_with value (rs "0")) LeadingZero;
        Ok (value, 10)
      end
    end
  end.

Definition parse_number (value : list Z) : res reason Z :=
  let '(value, multiplier) := unit_suffix value in
  '(digits, radix) ← radix_prefix value;
  _ ← refuse (eqb_list digits [] || starts_with digits (rs "+") || starts_with digits (rs "-"))
        NotUnsigned;
  ok_or (number ← parse_uint radix u32_max digits; checked_mul u32_max number multiplier) BadNumber.

Definition app_subtype_names : list (list Z * Z) := [(rs "factory", 0); (rs "test", 0x20)].
Definition data_subtype_names : list (list Z * Z) :=
  [(rs "ota", 0); (rs "phy", 1); (rs "nvs", 2); (rs "coredump", 3); (rs "nvs_keys", 4);
   (rs "efuse", 5); (rs "undefined", 6); (rs "esphttpd", 0x80); (rs "fat", 0x81);
   (rs "spiffs", 0x82); (rs "littlefs", 0x83); (rs "tee_ota", 0x90)].
Definition named_subtype (k : Z) (value : list Z) : option Z :=
  let table := if k =? 0 then app_subtype_names else if k =? 1 then data_subtype_names else [] in
  snd <$> List.find (fun '(n, _) => eqb_list n value) table.

(** One row of [[("ota_", 16, 0x10), ("tee_", 2, 0x30)]]. *)
Definition app_slot (prefix : list Z) (limit base : Z) (value : list Z) : option (res reason Z) :=
  index ← strip_prefix prefix value;
  Some (index ← ok_or (parse_uint 10 u8_max index) SlotInvalid;
        _ ← refuse ((limit <=? index) || negb (eqb_list (prefix ++ show_dec index) value))
              SlotUnsupported;
        Ok (base + index)).

Definition parse_subtype (k : Z) (value : list Z) : res reason Z :=
  let value := to_ascii_lowercase value in
  match named_subtype k value with
  | Some n => Ok n
  | None =>
    let slot := if k =? 0 then
                  match app_slot (rs "ota_") 16 0x10 value with
                  | Some r => Some r
                  | None => app_slot (rs "tee_") 2 0x30 value
                  end
                else None in
    match slot with
    | Some r => r
    | None => n ← parse_number value; ok_or (try_from u8_max n) SubtypeRange
    end
  end.

(** [for flag in value.split(':')] *)
Definition parse_flag (flags : Z) (flag : list Z) : res reason Z :=
  bit ← (if eqb_list flag (rs "encrypted") then Ok 1
         else if eqb_list flag (rs "readonly") then Ok 2
         else Err UnknownFlag);
  _ ← refuse (negb (Z.land flags bit =? 0)) DuplicateFlag;
  Ok (Z.lor flags bit).

Definition parse_flags (value : option (list Z)) : res reason Z :=
  match value with
  | Some ((_ :: _) as v) => foldM parse_flag 0 (split_on (Z.eqb 58) v)
  | _ => Ok 0
  end.

Definition is_label_char (b : Z) : bool :=
  is_ascii_alphanumeric b || (b =? 95) || (b =? 45) || (b =? 46).
Definition good_label (n : list Z) : bool :=
  negb (eqb_list n []) && (str_len n <=? 16) && forallb is_label_char (utf8 n)
  && negb (eqb_list n (rs ".")) && negb (eqb_list n (rs "..")).

(** The characters [$], NUL, backslash, double and single quote. *)
Definition is_forbidden (c : Z) : bool :=
  (c =? 36) || (c =? 0) || (c =? 92) || (c =? 34) || (c =? 39).

(** ** One CSV row: the fields of a declaration, then its position check *)
Definition parse_row (line : list Z) (previous_end : Z) : res reason EspPartition :=
  _ ← refuse (existsb is_forbidden line) UnsupportedSyntax;
  let fields := map trim (split_on (Z.eqb 44) line) in
  _ ← refuse (negb (in_range 5 6 (len fields))) FieldCount;
  label ← or_stuck (get_at fields 0);
  _ ← refuse (negb (good_label label)) BadLabel;
  type_field ← or_stuck (get_at fields 1);
  let lowered := to_ascii_lowercase type_field in
  k ← (if eqb_list lowered (rs "app") then Ok 0
       else if eqb_list lowered (rs "data") then Ok 1
       else n ← parse_number lowered; ok_or (try_from u8_max n) TypeRange);
  _ ← refuse ((k =? 2) || (k =? 3)) SelfDescription;
  subtype_field ← or_stuck (get_at fields 2);
  st ← parse_subtype k subtype_field;
  offset_field ← or_stuck (get_at fields 3);
  off ← parse_number offset_field;
  size_field ← or_stuck (get_at fields 4);
  sz ← parse_number size_field;
  fl ← parse_flags (get_at fields 5);
  _ ← refuse (off <? previous_end) SourceOrder;
  Ok (mkPartition label k st off sz fl).

Definition parse_line (st : list EspPartition * Z) (row : Z * list Z)
  : res part_error (list EspPartition * Z) :=
  let '(parts, previous_end) := st in
  let '(index, line) := row in
  _ ← refuse ((1024 <? str_len line) || (1024 <=? index)) LineBudget;
  let line := trim line in
  if eqb_list line [] || starts_with line (rs "#") then Ok st
  else
    _ ← refuse (94 <=? len parts) RecordBudget;
    p ← map_err (LineError (index + 1)) (parse_row line previous_end);
    Ok (parts ++ [p], offset p + size p).

(** ** Whole-table checks *)
Definition ranges_overlap (a b : EspPartition) : bool :=
  (offset a <? offset b + size b) && (offset b <? offset a + size a).

(** One round of [validate_ranges]; the state is the entries before [p]. *)
Definition validate_range (table_start table_end flash : Z) (prev : list EspPartition)
  (p : EspPartition) : res part_error (list EspPartition) :=
  let start := offset p in
  let stop := start + size p in
  let alignment := if kind p =? 0 then 0x10000 else SECTOR_BYTES in
  _ ← refuse (bool_decide (name p ∈ map name prev)) DuplicateLabel;
  _ ← refuse (negb (Z.land (flags p) (Z.lnot 3) =? 0)) UnsupportedFlags;
  _ ← refuse ((size p =? 0) || negb (start mod alignment =? 0) || (flash <? stop)) BadRange;
  _ ← refuse ((kind p =? 0) && negb (size p mod SECTOR_BYTES =? 0)) AppSizeUnaligned;
  _ ← refuse ((start <? table_end) && (table_start <? stop)) OverlapsTable;
  _ ← refuse (start <? table_end) BeforeTable;
  _ ← refuse (existsb (ranges_overlap p) prev) RangesOverlap;
  Ok (prev ++ [p]).
Definition validate_ranges (parts : list EspPartition) (table_start table_end flash : Z)
  : res part_error unit :=
  _ ← foldM (validate_range table_start table_end flash) [] parts; Ok tt.

(** The state of the subtype check: [ota_seen], [tee_ota_seen]. *)
Definition validate_data_subtype (seen : bool * bool) (p : EspPartition)
  : res part_error (bool * bool) :=
  let '(ota_seen, tee_ota_seen) := seen in
  let readonly := negb (Z.land (flags p) 2 =? 0) in
  _ ← refuse (((subtype p =? 0) || (subtype p =? 3)) && readonly) OtaReadonly;
  _ ← refuse ((subtype p =? 2) && (size p <? 0x3000) && negb readonly) SmallNvs;
  if subtype p =? 0 then
    _ ← refuse (ota_seen || negb (size p =? 0x2000)) OtaMetadata; Ok (true, tee_ota_seen)
  else if subtype p =? 0x90 then
    _ ← refuse (tee_ota_seen || negb (size p =? 0x2000)) OtaMetadata; Ok (ota_seen, true)
  else Ok seen.
Definition validate_data_subtypes (parts : list EspPartition) : res part_error unit :=
  _ ← foldM validate_data_subtype (false, false) (List.filter (fun p => kind p =? 1) parts); Ok tt.

(** ** The reader and the encoder *)
Section source.
Context {H : Sha256} {M : Md5}.

Definition bad_geometry (table_start table_end flash : Z) : bool :=
  (flash =? 0) || (2 ^ 32 <? flash) || negb (table_start mod SECTOR_BYTES =? 0)
  || (flash <? table_end).

Definition parse_esp_partition_source (bytes : list Z) (table_offset flash : Z)
  : res part_error EspPartitionSource :=
  _ ← refuse (64 * 1024 <? len bytes) ByteBudget;
  text ← ok_or (from_utf8 bytes) NotUtf8Source;
  let table_start := table_offset in
  let table_end := table_start + SECTOR_BYTES in
  _ ← refuse (bad_geometry table_start table_end flash) BadGeometry;
  '(parts, _) ← foldM parse_line ([], table_end) (imap (fun i l => (Z.of_nat i, l)) (lines text));
  _ ← refuse (match parts with [] => true | _ => false end) NoEntries;
  _ ← validate_ranges parts table_start table_end flash;
  _ ← validate_data_subtypes parts;
  Ok (mkSource (sha256_bytes bytes) parts).

Definition encode_record (output : list Z) (p : EspPartition) : res part_error (list Z) :=
  label ← or_stuck (copy_at (fill 16 0) 0 (str_len (name p)) (utf8 (name p)));
  Ok (output ++ [0xaa; 0x50; kind p; subtype p] ++ to_le 4 (offset p) ++ to_le 4 (size p)
      ++ label ++ to_le 4 (flags p)).

Definition encode_esp_partition_source (bytes : list Z) (expected_sha256 : list Z)
  (table_offset flash : Z) : res part_error EspPartitionArtifact :=
  _ ← refuse (64 * 1024 <? len bytes) ByteBudget;
  _ ← refuse (negb (eqb_list (sha256_bytes bytes) expected_sha256)) SourceDigest;
  source ← parse_esp_partition_source bytes table_offset flash;
  _ ← refuse (TABLE_BYTES <? (len (partitions source) + 2) * RECORD_BYTES) TableCapacity;
  output ← foldM encode_record [] (partitions source);
  let digest := md5_raw output in
  let output := output ++ [0xeb; 0xeb] ++ fill 14 0xff ++ digest in
  let output := resize_to TABLE_BYTES 0xff output in
  Ok (mkArtifact output (sha256_bytes output) source table_offset flash).
End source.

(** ** What a resolved layout promises *)
Definition stop (p : EspPartition) : Z := offset p + size p.
Definition before (p q : EspPartition) : Prop := stop p <= offset q.
Definition disjoint_ranges (p q : EspPartition) : Prop := stop p <= offset q \/ stop q <= offset p.
Definition readonly (p : EspPartition) : Prop := Z.testbit (flags p) 1 = true.

(** A declaration that fits the record format. *)
Record row_ok (p : EspPartition) : Prop := {
  row_label : 1 <= len (name p) <= 16 /\ Forall (fun c => is_label_char c = true) (name p);
  row_label_dots : name p <> rs "." /\ name p <> rs "..";
  row_kind : is_u8 (kind p) /\ kind p <> 2 /\ kind p <> 3;
  row_subtype : is_u8 (subtype p);
  row_offset : 0 <= offset p <= u32_max;
  row_size : 0 <= size p <= u32_max;
  row_flags : 0 <= flags p <= 3;
}.

(** A declaration placed legally behind the table sector. *)
Record placed (table_end flash : Z) (p : EspPartition) : Prop := {
  placed_size : 0 < size p;
  placed_start : table_end <= offset p;
  placed_stop : stop p <= flash;
  placed_aligned : offset p mod (if kind p =? 0 then 0x10000 else 0x1000) = 0;
  placed_app_size : kind p = 0 -> size p mod 0x1000 = 0;
  placed_flags : Z.land (flags p) (Z.lnot 3) = 0;
}.

(** The ESP-IDF rules on data subtypes. *)
Definition data_entry_ok (p : EspPartition) : Prop :=
  (subtype p = 0 \/ subtype p = 3 -> ~ readonly p) /\
  (subtype p = 2 -> size p < 0x3000 -> readonly p) /\
  (subtype p = 0 \/ subtype p = 0x90 -> size p = 0x2000).
Definition metadata_unique (p q : EspPartition) : Prop :=
  ~ (subtype p = subtype q /\ (subtype p = 0 \/ subtype p = 0x90)).
Definition data_partitions (parts : list EspPartition) : list EspPartition :=
  List.filter (fun p => kind p =? 1) parts.

Record table_layout (table_end flash : Z) (parts : list EspPartition) : Prop := {
  layout_labels : NoDup (map name parts);
  layout_placed : Forall (placed table_end flash) parts;
  layout_disjoint : ForallOrdPairs disjoint_ranges parts;
}.

Record source_layout (table_end flash : Z) (parts : list EspPartition) : Prop := {
  source_budget : 1 <= len parts <= 94;
  source_rows : Forall row_ok parts;
  source_table : table_layout table_end flash parts;
  source_order : ForallOrdPairs before parts;
  source_data : Forall data_entry_ok (data_partitions parts);
  source_metadata : ForallOrdPairs metadata_unique (data_partitions parts);
}.

(** ** Range validation is exactly [table_layout] *)
Definition nonneg_range (p : EspPartition) : Prop := 0 <= offset p /\ 0 <= size p.

Lemma table_layout_snoc te flash pre p :
  table_layout te flash (pre ++ [p]) <->
  table_layout te flash pre /\ name p ∉ map name pre /\ placed te flash p /\
  Forall (fun q => disjoint_ranges q p) pre.
Proof.
  split.
  - intros [Hl Hp Hd]. rewrite NoDup_map_snoc in Hl. apply Forall_app in Hp as [Hp Hpp].
    apply ForallOrdPairs_snoc in Hd as [Hd Hdp]. rewrite Forall_singleton in Hpp.
    destruct Hl. by split_and!; [split|..].
  - intros ([Hl Hp Hd] & Hn & Hpp & Hdp). split.
    + by rewrite NoDup_map_snoc.
    + apply Forall_app. by rewrite Forall_singleton.
    + by apply ForallOrdPairs_snoc.
Qed.

Lemma ranges_overlap_false p q : ranges_overlap p q = false <-> disjoint_ranges q p.
Proof.
  unfold ranges_overlap, disjoint_ranges, stop. rewrite andb_false_iff, !Z.ltb_ge. lia.
Qed.

Lemma validate_range_Ok ts te flash pre p s : nonneg_range p ->
  validate_range ts te flash pre p = Ok s <->
  s = pre ++ [p] /\ name p ∉ map name pre /\ placed te flash p /\
  Forall (fun q => disjoint_ranges q p) pre.
Proof.
  intros [Ho Hs]. unfold validate_range. rewrite !refuse_bind_Ok.
  rewrite bool_decide_eq_false, existsb_false_Forall.
  setoid_rewrite ranges_overlap_false.
  rewrite !orb_false_iff, !andb_false_iff, !negb_false_iff.
  rewrite !Z.eqb_neq, !Z.eqb_eq, !Z.ltb_ge. split.
  - intros (Hn & Hf & [[Hsz Ha] Hfl] & Happ & _ & Hte & Hd & [= <-]). repeat split; try done.
    + lia.
    + intros Hk. destruct Happ; done.
  - intros (-> & Hn & [? ? ? Ha Happ ?] & Hd). unfold stop, SECTOR_BYTES in *.
    repeat split; try done; try lia.
Qed.

Lemma validate_ranges_Ok parts ts te flash : Forall nonneg_range parts ->
  validate_ranges parts ts te flash = Ok tt <-> table_layout te flash parts.
Proof.
  intros Hnn. unfold validate_ranges. rewrite bind_Ok.
  assert (forall s, foldM (validate_range ts te flash) [] parts = Ok s <->
    s = parts /\ table_layout te flash parts) as Hfold.
  { apply (foldM_iff _ id (table_layout te flash)).
    - repeat constructor.
    - intros pre x. rewrite table_layout_snoc. by intros [? _].
    - intros pre x s Hx Hpre. rewrite Forall_forall in Hnn. cbn [id].
      rewrite table_layout_snoc, validate_range_Ok by auto. naive_solver. }
  setoid_rewrite Hfold. naive_solver.
Qed.

(** ** The data-subtype rules *)
Definition seen_metadata (pre : list EspPartition) : bool * bool :=
  (existsb (fun p => subtype p =? 0) pre, existsb (fun p => subtype p =? 0x90) pre).

Lemma readonly_bit p : negb (Z.land (flags p) 2 =? 0) = Z.testbit (flags p) 1.
Proof. by apply (land_pow2_testbit _ 1). Qed.

Lemma seen_metadata_snoc pre p : seen_metadata (pre ++ [p]) =
  ((seen_metadata pre).1 || (subtype p =? 0), (seen_metadata pre).2 || (subtype p =? 0x90)).
Proof. unfold seen_metadata. by rewrite !existsb_app; cbn; rewrite !orb_false_r. Qed.

(** A metadata subtype not seen in [pre] does not clash with any entry of it. *)
Lemma metadata_fresh pre p :
  Forall (fun q => metadata_unique q p) pre <->
  (subtype p = 0 -> (seen_metadata pre).1 = false) /\
  (subtype p = 0x90 -> (seen_metadata pre).2 = false).
Proof.
  unfold seen_metadata, metadata_unique. cbn. rewrite !existsb_false_Forall, !Forall_forall.
  setoid_rewrite Z.eqb_neq. split.
  - intros Hall. split; intros Hp q Hq Hs; apply (Hall q Hq); lia.
  - intros [H0 H1] q Hq [He [Hs|Hs]]; [apply (H0 ltac:(lia) q Hq Hs)|apply (H1 ltac:(lia) q Hq Hs)].
Qed.

Lemma validate_data_subtype_Ok pre p s :
  validate_data_subtype (seen_metadata pre) p = Ok s <->
  s = seen_metadata (pre ++ [p]) /\ data_entry_ok p /\ Forall (fun q => metadata_unique q p) pre.
Proof.
  rewrite metadata_fresh, seen_metadata_snoc. unfold validate_data_subtype, data_entry_ok, readonly.
  destruct (seen_metadata pre) as [o t]. rewrite !refuse_bind_Ok, readonly_bit.
  generalize (Z.testbit (flags p) 1). intros ro.
  destruct (Z.eqb_spec (subtype p) 0) as [H0|], (Z.eqb_spec (subtype p) 3),
    (Z.eqb_spec (subtype p) 2), (Z.eqb_spec (subtype p) 0x90); try lia;
  rewrite ?refuse_bind_Ok; destruct (Z.ltb_spec (size p) 0x3000), ro, o, t,
    (Z.eqb_spec (size p) 0x2000); cbn; naive_solver lia.
Qed.

Definition data_layout (parts : list EspPartition) : Prop :=
  Forall data_entry_ok parts /\ ForallOrdPairs metadata_unique parts.

Lemma data_layout_snoc pre p : data_layout (pre ++ [p]) <->
  data_layout pre /\ data_entry_ok p /\ Forall (fun q => metadata_unique q p) pre.
Proof.
  unfold data_layout. rewrite ForallOrdPairs_snoc, Forall_app, Forall_singleton. naive_solver.
Qed.

Lemma validate_data_subtypes_Ok parts :
  validate_data_subtypes parts = Ok tt <-> data_layout (data_partitions parts).
Proof.
  unfold validate_data_subtypes, data_partitions. rewrite bind_Ok.
  assert (forall l s, foldM validate_data_subtype (false, false) l = Ok s <->
    s = seen_metadata l /\ data_layout l) as Hfold.
  { intros l. apply (foldM_iff _ seen_metadata).
    - split; constructor.
    - intros pre x. rewrite data_layout_snoc. by intros [? _].
    - intros pre x s _ Hpre. rewrite data_layout_snoc, validate_data_subtype_Ok. naive_solver. }
  setoid_rewrite Hfold. naive_solver.
Qed.

(** ** Rows resolve to well-formed declarations *)
Lemma unit_suffix_pos value v k : unit_suffix value = (v, k) -> 1 <= k.
Proof. unfold unit_suffix. repeat case_match; intros [= <- <-]; lia. Qed.

Lemma parse_number_bounds value n : parse_number value = Ok n -> 0 <= n <= u32_max.
Proof.
  unfold parse_number. destruct (unit_suffix value) as [v k] eqn:Hu. apply unit_suffix_pos in Hu.
  intros ([digits radix] & _ & (u & _ & Hn%ok_or_Ok)%bind_Ok)%bind_Ok.
  apply bind_Some in Hn as (m & Hm%parse_uint_bounds & [-> Hmax]%checked_mul_Some). nia.
Qed.

Lemma is_label_char_ascii c : is_label_char c = true -> 45 <= c <= 122.
Proof.
  unfold is_label_char, is_ascii_alphanumeric, is_ascii_digit, is_ascii_lowercase,
    is_ascii_uppercase. rewrite !orb_true_iff, !in_range_true, !Z.eqb_eq. lia.
Qed.

Lemma utf8_char_label c : forallb is_label_char (utf8_char c) = true -> utf8_char c = [c].
Proof.
  unfold utf8_char. repeat case_match; bool_prop; [done|..];
    (intros Hall; cbn in Hall; apply andb_true_iff in Hall as [Hc%is_label_char_ascii _];
     exfalso; revert Hc; Z.to_euclidean_division_equations; lia).
Qed.

Lemma utf8_label n : forallb is_label_char (utf8 n) = true -> utf8 n = n.
Proof.
  unfold utf8. induction n as [|c n IH]; [done|]. cbn [mbind list_bind].
  rewrite forallb_app, andb_true_iff. intros [Hc Hn].
  rewrite (utf8_char_label _ Hc). cbn. f_equal. by apply IH.
Qed.

Lemma good_label_true n : good_label n = true <->
  (1 <= len n <= 16 /\ Forall (fun c => is_label_char c = true) n) /\ n <> rs "." /\ n <> rs "..".
Proof.
  unfold good_label, str_len. split.
  - intros Hg. bool_prop. assert (utf8 n = n) as Hu by by apply utf8_label.
    rewrite Hu in *. rewrite forallb_forall in *. unfold eqb_list in *. bool_prop.
    pose proof (len_nonneg n). rewrite <- len_0 in *. repeat split; try done; try lia.
    apply Forall_forall. setoid_rewrite list_elem_of_In. done.
  - intros ((Hl & Hc) & Hd & Hdd). rewrite utf8_ascii.
    2:{ eapply Forall_impl; [exact Hc|]. intros c Hl'%is_label_char_ascii. unfold is_ascii. lia. }
    unfold eqb_list. rewrite !bool_decide_eq_false_2; [|done|done|intros ->; rewrite len_nil in Hl; lia].
    rewrite (proj2 (Z.leb_le _ _)) by lia. cbn. rewrite andb_true_r, andb_true_r.
    apply forallb_forall. rewrite Forall_forall in Hc. setoid_rewrite list_elem_of_In in Hc. done.
Qed.

Lemma named_subtype_u8 k value n : named_subtype k value = Some n -> is_u8 n.
Proof.
  unfold named_subtype. intros ([l m] & Hf%find_some & ->)%fmap_Some. destruct Hf as [Hin _].
  assert (Forall (fun e => is_u8 e.2) (app_subtype_names ++ data_subtype_names)) as Hall.
  { unfold is_u8, u8_max. cbn. repeat constructor; cbn; lia. }
  rewrite Forall_forall in Hall. apply (Hall (l, m)). apply elem_of_app.
  repeat case_match; rewrite !list_elem_of_In; [by left|by right|done].
Qed.

Lemma app_slot_u8 prefix limit base value r n : 0 <= base -> base + limit <= 256 ->
  app_slot prefix limit base value = Some r -> r = Ok n -> is_u8 n.
Proof.
  intros Hb Hl. unfold app_slot. intros (index & _ & [= <-])%bind_Some Hr. inv_guards.
  match goal with H : parse_uint _ _ _ = Some _ |- _ => apply parse_uint_bounds in H end.
  unfold is_u8, u8_max in *. lia.
Qed.

Lemma parse_subtype_u8 k value n : parse_subtype k value = Ok n -> is_u8 n.
Proof.
  unfold parse_subtype. generalize (to_ascii_lowercase value). intros v.
  destruct (named_subtype k v) eqn:Hn; [intros [= <-]; by eapply named_subtype_u8|].
  destruct (if k =? 0 then _ else _) as [r|] eqn:Hs.
  - intros ->. destruct (k =? 0); [|done].
    destruct (app_slot _ 16 _ v) eqn:H1; [|by eapply (app_slot_u8 _ _ _ _ _ _ _ _ Hs)].
    injection Hs as ->. by eapply (app_slot_u8 _ _ _ _ _ _ _ _ H1).
  - intros. inv_ok. by match goal with H : try_from _ _ = Some _ |- _ =>
      apply try_from_Some in H as [? ->] end.
  Unshelve. all: lia.
Qed.

Lemma parse_flag_bounds fs flag fs' : 0 <= fs <= 3 -> parse_flag fs flag = Ok fs' -> 0 <= fs' <= 3.
Proof.
  intros Hfs. unfold parse_flag. intros (bit & Hbit & (u & _ & [= <-])%bind_Ok)%bind_Ok.
  assert (bit = 1 \/ bit = 2) as Hb by (repeat case_match; naive_solver).
  assert (fs = 0 \/ fs = 1 \/ fs = 2 \/ fs = 3) as Hc by lia.
  destruct Hb as [-> | ->], Hc as [-> | [-> | [-> | ->] ] ]; vm_compute; split; discriminate.
Qed.

Lemma parse_flags_bounds value fs : parse_flags value = Ok fs -> 0 <= fs <= 3.
Proof.
  unfold parse_flags. repeat case_match; try (intros [= <-]; lia).
  apply (foldM_inv _ (fun _ s => 0 <= s <= 3)); [lia|]. eauto using parse_flag_bounds.
Qed.

Lemma parse_row_ok line previous_end p :
  parse_row line previous_end = Ok p -> row_ok p /\ previous_end <= offset p.
Proof.
  unfold parse_row. intros.
  repeat match goal with
  | H : (_ ← refuse _ _; _) = Ok _ |- _ => apply refuse_bind_Ok in H as [? H]
  | H : mbind _ _ = Ok _ |- _ => apply bind_Ok in H as (? & ? & H)
  end. simplify_eq.
  repeat match goal with
  | H : negb (good_label _) = false |- _ => apply negb_false_iff, good_label_true in H as [? ?]
  | H : parse_number _ = Ok _ |- _ => apply parse_number_bounds in H
  | H : parse_subtype _ _ = Ok _ |- _ => apply parse_subtype_u8 in H
  | H : parse_flags _ = Ok _ |- _ => apply parse_flags_bounds in H
  end. bool_prop. split; [split; try done|done].
  split; [|done]. repeat case_match; simplify_eq; [done..|].
  inv_ok. by match goal with H : try_from _ _ = Some _ |- _ => apply try_from_Some in H as [? ->] end.
Qed.

Lemma parse_line_Ok parts pe row st : parse_line (parts, pe) row = Ok st ->
  st = (parts, pe) \/
  exists p, st = (parts ++ [p], stop p) /\ row_ok p /\ pe <= offset p /\ len parts < 94.
Proof.
  unfold parse_line. destruct row as [index line]. rewrite refuse_bind_Ok. intros [_ Hl].
  case_match; [inv_ok; by left|]. apply refuse_bind_Ok in Hl as [Hb Hl]. bool_prop.
  apply bind_Ok in Hl as (p & [? ?]%map_err_Ok%parse_row_ok & [= <-]). right. by exists p.
Qed.

(** The loop invariant of the reader: what [previous_end] bounds. *)
Record reader_inv (te : Z) (st : list EspPartition * Z) : Prop := {
  reader_budget : len st.1 <= 94;
  reader_rows : Forall row_ok st.1;
  reader_order : ForallOrdPairs before st.1;
  reader_end : Forall (fun p => stop p <= st.2) st.1;
}.

Lemma reader_inv_step te st row st' :
  reader_inv te st -> parse_line st row = Ok st' -> reader_inv te st'.
Proof.
  destruct st as [parts pe]. intros [Hb Hr Ho He] Hl.
  apply parse_line_Ok in Hl as [-> | (p & -> & Hp & Hpe & Hlen)]; [by split|]. cbn in *.
  pose proof (row_size _ Hp). split; cbn.
  - rewrite len_app, len_cons, len_nil. lia.
  - by rewrite Forall_app, Forall_singleton.
  - apply ForallOrdPairs_snoc. split; [done|]. eapply Forall_impl; [exact He|].
    unfold before. cbn. lia.
  - rewrite Forall_app, Forall_singleton. split; [|done]. eapply Forall_impl; [exact He|].
    unfold stop in *. cbn. lia.
Qed.

Lemma reader_loop te rows parts pe :
  foldM parse_line ([], te) rows = Ok (parts, pe) -> reader_inv te (parts, pe).
Proof.
  apply (foldM_inv _ (fun _ st => reader_inv te st)); [|intros; by eapply reader_inv_step].
  split; cbn; [done|constructor..].
Qed.

Lemma row_nonneg p : row_ok p -> nonneg_range p.
Proof. intros H. split; [apply (row_offset _ H)|apply (row_size _ H)]. Qed.

Lemma bad_geometry_false ts te flash : bad_geometry ts te flash = false <->
  flash <> 0 /\ flash <= 2 ^ 32 /\ ts mod SECTOR_BYTES = 0 /\ te <= flash.
Proof.
  unfold bad_geometry. rewrite !orb_false_iff, negb_false_iff, Z.eqb_neq, !Z.ltb_ge, Z.eqb_eq. tauto.
Qed.

(** *** No panic *)
Lemma parse_number_not_Stuck value : parse_number value <> Stuck.
Proof. unfold parse_number, radix_prefix. not_stuck. Qed.

Lemma parse_subtype_not_Stuck k value : parse_subtype k value <> Stuck.
Proof.
  pose proof parse_number_not_Stuck. unfold parse_subtype. not_stuck. subst.
  enough (forall prefix limit base v, app_slot prefix limit base v <> Some Stuck)
    by (repeat case_match; naive_solver).
  intros prefix limit base v (index & _ & [=E])%bind_Some. revert E.
  change (?a = Stuck -> False) with (a <> Stuck). not_stuck.
Qed.

Lemma parse_flags_not_Stuck value : parse_flags value <> Stuck.
Proof.
  unfold parse_flags. not_stuck. apply (foldM_not_Stuck _ (fun _ => True)); [done| |done].
  intros s x _ _. unfold parse_flag. not_stuck.
Qed.

Lemma parse_row_not_Stuck line pe : parse_row line pe <> Stuck.
Proof.
  pose proof parse_number_not_Stuck. pose proof parse_subtype_not_Stuck.
  pose proof parse_flags_not_Stuck.
  unfold parse_row. not_stuck.
  all: apply or_stuck_not_Stuck, get_at_is_Some;
    match goal with H : refuse (negb (in_range 5 6 _)) _ = Ok _ |- _ =>
      apply refuse_Ok, negb_false_iff, in_range_true in H end; lia.
Qed.
#[local] Hint Resolve parse_row_not_Stuck : aros.

Lemma parse_line_not_Stuck st row : parse_line st row <> Stuck.
Proof. unfold parse_line. destruct st, row. not_stuck. Qed.

Lemma validate_ranges_not_Stuck parts ts te flash : validate_ranges parts ts te flash <> Stuck.
Proof.
  unfold validate_ranges. not_stuck. apply (foldM_not_Stuck _ (fun _ => True)); [done| |done].
  intros s x _ _. unfold validate_range. not_stuck.
Qed.

Lemma validate_data_subtypes_not_Stuck parts : validate_data_subtypes parts <> Stuck.
Proof.
  unfold validate_data_subtypes. not_stuck. apply (foldM_not_Stuck _ (fun _ => True)); [done| |done].
  intros [o t] x _ _. unfold validate_data_subtype. not_stuck.
Qed.
#[local] Hint Resolve validate_ranges_not_Stuck validate_data_subtypes_not_Stuck : aros.

Section source_facts.
Context {H : Sha256} {M : Md5}.

Lemma parse_source_Ok bytes off flash src :
  parse_esp_partition_source bytes off flash = Ok src ->
  source_layout (off + SECTOR_BYTES) flash (partitions src) /\
  source_sha256 src = sha256_bytes bytes /\ len bytes <= 65536 /\
  bad_geometry off (off + SECTOR_BYTES) flash = false.
Proof.
  unfold parse_esp_partition_source. rewrite refuse_bind_Ok. intros [Hb Hp]. bool_prop.
  apply bind_Ok in Hp as (text & _ & [Hg Hp]%refuse_bind_Ok).
  apply bind_Ok in Hp as ([parts pe] & [Hbud Hrows Hord _]%reader_loop & [Hne Hp]%refuse_bind_Ok).
  cbn in *. apply bind_Ok in Hp as ([] & Hr & ([] & Hd & [= <-])%bind_Ok). cbn.
  apply validate_ranges_Ok in Hr; [|by eapply Forall_impl; [|apply row_nonneg]].
  apply validate_data_subtypes_Ok in Hd as [Hd1 Hd2].
  split_and!; [split; try done|done|lia|done].
  destruct parts; [done|]. rewrite len_cons in *. pose proof (len_nonneg parts). lia.
Qed.

Lemma parse_source_not_Stuck bytes off flash : parse_esp_partition_source bytes off flash <> Stuck.
Proof.
  unfold parse_esp_partition_source. not_stuck.
  apply (foldM_not_Stuck _ (fun _ => True)); [done| |done]. intros; apply parse_line_not_Stuck.
Qed.
End source_facts.

(** ** Every legal layout has a source text

    [render_source] prints a layout in the CSV subset with decimal numbers;
    the reader resolves it back to the same layout, so the reader accepts
    exactly the layouts of [source_layout]. *)
Definition render_flags (f : Z) : list Z :=
  join [58] ((if Z.testbit f 0 then [rs "encrypted"] else [])
             ++ (if Z.testbit f 1 then [rs "readonly"] else [])).
Definition render_fields (p : EspPartition) : list (list Z) :=
  [name p; show_dec (kind p); show_dec (subtype p); show_dec (offset p); show_dec (size p);
   render_flags (flags p)].
Definition render_row (p : EspPartition) : list Z := join [44] (render_fields p).
Definition render_source (parts : list EspPartition) : list Z :=
  flat_map (fun w => w ++ [10]) (map render_row parts).

(** Decimal numbers read back. *)
Lemma parse_number_unit value n k : 0 <= n <= u32_max -> unit_suffix value = (show_dec n, k) ->
  parse_number value = ok_or (checked_mul u32_max n k) BadNumber.
Proof.
  intros Hn Hu. unfold parse_number. rewrite Hu.
  assert (radix_prefix (show_dec n) = Ok (show_dec n, 10)) as Hr.
  { unfold radix_prefix, strip_radix.
    destruct (show_dec_lead n ltac:(lia)) as [->|(d & l & -> & Hd)]; [done|].
    eval_rs. rewrite !strip_prefix_head by lia.
    rewrite starts_with_head by lia. by rewrite andb_false_r. }
  rewrite Hr. cbn [mbind res_bind].
  assert (eqb_list (show_dec n) [] || starts_with (show_dec n) (rs "+")
          || starts_with (show_dec n) (rs "-") = false) as ->.
  { destruct (show_dec_lead n ltac:(lia)) as [->|(d & l & -> & Hd)]; [done|].
    unfold eqb_list. eval_rs. by rewrite !starts_with_head by lia. }
  by rewrite parse_uint_show.
Qed.

Lemma unit_suffix_digits n : 0 <= n -> unit_suffix (show_dec n) = (show_dec n, 1).
Proof.
  intros Hn. pose proof (show_dec_digit n Hn) as Hd. unfold unit_suffix.
  destruct (last (show_dec n)) as [c|] eqn:Hc; [|done].
  apply last_Some in Hc as [l Hc]. rewrite Hc in *. apply Forall_app in Hd as [_ Hd].
  rewrite Forall_singleton in Hd. unfold is_ascii_digit in Hd. apply in_range_true in Hd. cbn.
  unfold to_ascii_lower, is_ascii_uppercase.
  rewrite (proj2 (in_range_false 65 90 c)) by lia. repeat case_match; lia || done.
Qed.

Lemma parse_number_show n : 0 <= n <= u32_max -> parse_number (show_dec n) = Ok n.
Proof.
  intros Hn. rewrite (parse_number_unit _ n 1), ok_or_Ok by (done || apply unit_suffix_digits; lia).
  apply checked_mul_Some. lia.
Qed.

(** Byte-sized facts, decided by enumeration. *)
Lemma u8_enum (f : Z -> bool) : forallb f (seqZ 0 256) = true -> forall b, is_u8 b -> f b = true.
Proof.
  intros Hf b Hb. rewrite forallb_forall in Hf. apply Hf, list_elem_of_In, elem_of_seqZ.
  unfold is_u8, u8_max in Hb. lia.
Qed.

Lemma subtype_show k n : is_u8 n -> parse_subtype k (show_dec n) = Ok n.
Proof.
  assert (forall k, (k = 0 \/ k = 1 \/ k = 4) -> forall n, is_u8 n ->
    match parse_subtype k (show_dec n) with Ok m => m =? n | _ => false end = true) as Hen.
  { intros k' Hk. apply u8_enum. destruct Hk as [-> | [-> | ->] ]; by vm_compute. }
  intros Hn.
  assert (parse_subtype k = parse_subtype (if k =? 0 then 0 else if k =? 1 then 1 else 4)) as ->.
  { unfold parse_subtype, named_subtype.
    destruct (Z.eqb_spec k 0) as [-> |]; [done|]. destruct (Z.eqb_spec k 1) as [-> |]; done. }
  specialize (Hen (if k =? 0 then 0 else if k =? 1 then 1 else 4)
    ltac:(destruct (k =? 0), (k =? 1); auto) n Hn).
  case_match; try done. bool_prop. by subst.
Qed.

Lemma kind_show k : is_u8 k ->
  eqb_list (to_ascii_lowercase (show_dec k)) (rs "app") = false /\
  eqb_list (to_ascii_lowercase (show_dec k)) (rs "data") = false /\
  to_ascii_lowercase (show_dec k) = show_dec k.
Proof.
  intros Hk.
  assert (negb (eqb_list (to_ascii_lowercase (show_dec k)) (rs "app")) &&
    negb (eqb_list (to_ascii_lowercase (show_dec k)) (rs "data")) &&
    eqb_list (to_ascii_lowercase (show_dec k)) (show_dec k) = true) as Hb
    by (revert k Hk; apply u8_enum; by vm_compute).
  bool_prop. by rewrite <- eqb_list_true.
Qed.

(** The characters of a rendered field need no quoting. *)
Definition field_char (c : Z) : Prop := is_label_char c = true \/ c = 58.

Lemma field_char_plain c : field_char c ->
  45 <= c <= 122 /\ is_whitespace c = false /\ is_forbidden c = false.
Proof.
  intros Hc.
  assert (forallb (fun c => negb (is_label_char c || (c =? 58)) ||
    (in_range 45 122 c && negb (is_whitespace c) && negb (is_forbidden c))) (seqZ 0 256) = true)
    as Hen by by vm_compute.
  assert (is_u8 c) as Hu.
  { unfold is_u8, u8_max. destruct Hc as [Hc%is_label_char_ascii | ->]; lia. }
  pose proof (u8_enum _ Hen c Hu) as Hb. cbn beta in Hb.
  assert (is_label_char c || (c =? 58) = true) as Ht
    by (destruct Hc as [-> | ->]; [done|by rewrite orb_true_r]).
  rewrite Ht in Hb. cbn in Hb. rewrite !andb_true_iff, !negb_true_iff, in_range_true in Hb. tauto.
Qed.

Lemma digit_field_char v : 0 <= v -> Forall field_char (show_dec v).
Proof.
  intros Hv. eapply Forall_impl; [by apply show_dec_digit|]. intros c Hc. left.
  unfold is_label_char, is_ascii_alphanumeric. by rewrite Hc.
Qed.

(** Decided by enumeration of the four flag values. *)
Lemma flags_enum f : 0 <= f <= 3 ->
  parse_flags (Some (render_flags f)) = Ok f /\ Forall field_char (render_flags f) /\
  len (render_flags f) <= 18.
Proof.
  intros Hf. assert (f = 0 \/ f = 1 \/ f = 2 \/ f = 3) as Hc by lia.
  destruct Hc as [-> | [-> | [-> | ->] ] ]; (split; [reflexivity|]); (split; [|by vm_compute]);
    unfold field_char; apply Forall_forall; intros c Hc;
    repeat (apply elem_of_cons in Hc as [->|Hc]; [by (left + right)|]);
    by apply elem_of_nil in Hc.
Qed.

Lemma render_fields_chars p : row_ok p -> Forall (Forall field_char) (render_fields p).
Proof.
  intros [[_ Hl] _ [[Hk _] _] [Hs _] [Ho _] [Hz _] Hf]. unfold render_fields.
  repeat constructor; try (by apply digit_field_char); [|by apply flags_enum].
  eapply Forall_impl; [exact Hl|]. by left.
Qed.

Lemma Forall_join (P : Z -> Prop) sep ws :
  Forall P sep -> Forall (Forall P) ws -> Forall P (join sep ws).
Proof.
  intros Hs. induction 1 as [|w ws Hw Hws IH]; [constructor|]. cbn [join].
  destruct ws; [done|]. by rewrite !Forall_app.
Qed.

Lemma render_row_chars p : row_ok p -> Forall (fun c => 44 <= c <= 122 /\
  is_whitespace c = false /\ is_forbidden c = false) (render_row p).
Proof.
  intros Hp. apply Forall_join; [by repeat constructor|].
  eapply Forall_impl; [by apply render_fields_chars|]. intros w Hw.
  eapply Forall_impl; [exact Hw|]. intros c Hc%field_char_plain. naive_solver lia.
Qed.

Lemma len_render_row p : row_ok p -> len (render_row p) <= 65.
Proof.
  intros [[Hl _] _ [[Hk1 Hk2] _] [Hs1 Hs2] Ho Hz Hf]. unfold u8_max, u32_max in *.
  unfold render_row, render_fields. cbn [join]. rewrite !len_app. change (len [44]) with 1.
  destruct (flags_enum _ Hf) as (_ & _ & Hfl).
  pose proof (show_dec_len (kind p) 3 ltac:(lia) ltac:(lia)).
  pose proof (show_dec_len (subtype p) 3 ltac:(lia) ltac:(lia)).
  pose proof (show_dec_len (offset p) 10 ltac:(lia) ltac:(lia)).
  pose proof (show_dec_len (size p) 10 ltac:(lia) ltac:(lia)). lia.
Qed.

Lemma render_row_parse p pe : row_ok p -> pe <= offset p -> parse_row (render_row p) pe = Ok p.
Proof.
  intros Hp Hpe. unfold parse_row. pose proof (render_row_chars p Hp) as Hch.
  assert (existsb is_forbidden (render_row p) = false) as ->.
  { apply existsb_false_Forall. eapply Forall_impl; [exact Hch|]. naive_solver. }
  assert (map trim (split_on (Z.eqb 44) (render_row p)) = render_fields p) as ->.
  { pose proof (render_fields_chars p Hp) as Hf. unfold render_row. rewrite split_on_join.
    - rewrite <- (map_id (render_fields p)) at 2. apply map_ext_in. intros w Hw%list_elem_of_In.
      rewrite Forall_forall in Hf. apply trim_id. eapply Forall_impl; [by apply Hf|].
      intros c Hc%field_char_plain. naive_solver.
    - done.
    - eapply Forall_impl; [exact Hf|]. intros w Hw. eapply Forall_impl; [exact Hw|].
      intros c Hc%field_char_plain. lia. }
  destruct Hp as [Hl Hd [Hk [Hk2 Hk3] ] Hs Ho Hz Hf].
  destruct (kind_show _ Hk) as (E1 & E2 & E3). unfold is_u8, u8_max in Hk.
  step_by done. cbv zeta. unfold render_fields. step_by done. step_by done.
  step_by ltac:(by rewrite (proj2 (good_label_true (name p)))). step_by done. cbv zeta.
  step_by ltac:(rewrite E1, E2, E3; step_by ltac:(apply parse_number_show; unfold u32_max; lia);
                apply ok_or_Ok; by apply try_from_Some).
  step_by ltac:(by rewrite (proj2 (Z.eqb_neq (kind p) 2)), (proj2 (Z.eqb_neq (kind p) 3))).
  step_by done. step_by ltac:(by apply subtype_show).
  step_by done. step_by ltac:(by apply parse_number_show).
  step_by done. step_by ltac:(by apply parse_number_show).
  step_by ltac:(by apply (flags_enum _ Hf)).
  step_by ltac:(by rewrite (proj2 (Z.ltb_ge _ _))). by destruct p.
Qed.

Lemma render_row_line p pe pre i : row_ok p -> pe <= offset p -> len pre < 94 -> i < 1024 ->
  parse_line (pre, pe) (i, render_row p) = Ok (pre ++ [p], stop p).
Proof.
  intros Hp Hpe Hpre Hi. pose proof (render_row_chars p Hp) as Hch.
  unfold parse_line. rewrite str_len_ascii.
  2:{ eapply Forall_impl; [exact Hch|]. unfold is_ascii. cbn. lia. }
  pose proof (len_render_row p Hp).
  rewrite (proj2 (Z.ltb_ge 1024 _)), (proj2 (Z.leb_gt 1024 _)) by lia.
  cbn [orb refuse mbind res_bind]. rewrite trim_id.
  2:{ eapply Forall_impl; [exact Hch|]. naive_solver. }
  assert (eqb_list (render_row p) [] || starts_with (render_row p) (rs "#") = false) as ->.
  { destruct Hp as [[[Hl _] Hlc] _ _ _ _ _ _]. unfold render_row, render_fields. cbn [join].
    destruct (name p) as [|c n]; [rewrite len_nil in Hl; lia|].
    apply Forall_cons in Hlc as [Hc%is_label_char_ascii _]. cbn [app]. eval_rs.
    by rewrite starts_with_head by lia. }
  rewrite (proj2 (Z.leb_gt 94 _)) by lia. cbn [refuse mbind res_bind].
  by rewrite render_row_parse.
Qed.

Lemma render_rows_loop ps : forall i pre pe,
  Forall row_ok ps -> ForallOrdPairs before ps -> Forall (fun p => pe <= offset p) ps ->
  len pre + len ps <= 94 -> Z.of_nat i + len ps <= 1024 ->
  exists pe', foldM parse_line (pre, pe)
    (imap (fun j l => (Z.of_nat (i + j), l)) (map render_row ps)) = Ok (pre ++ ps, pe').
Proof.
  induction ps as [|p ps IH]; intros i pre pe Hrow Hord Hpe Hpre Hi.
  - exists pe. by rewrite app_nil_r.
  - inversion Hord as [|? ? Hb Hord']; subst. apply Forall_cons in Hrow as [Hp Hrow].
    apply Forall_cons in Hpe as [Hpe _]. rewrite len_cons in *. pose proof (len_nonneg ps).
    cbn [map imap foldM]. rewrite render_row_line by (done || lia). cbn [mbind res_bind].
    destruct (IH (S i) (pre ++ [p]) (stop p)) as [pe' Hl]; [done|done| |..].
    + eapply Forall_impl; [exact Hb|]. done.
    + rewrite len_app, len_cons, len_nil. lia.
    + lia.
    + exists pe'. rewrite <- app_assoc in Hl. cbn in Hl. rewrite <- Hl. f_equal.
      apply imap_ext. intros j l _. cbn. f_equal. lia.
Qed.

(** ** The encoder *)
Definition encode_label (n : list Z) : list Z := n ++ fill (16 - len n) 0.
Definition record_bytes (p : EspPartition) : list Z :=
  [0xaa; 0x50; kind p; subtype p] ++ to_le 4 (offset p) ++ to_le 4 (size p)
  ++ encode_label (name p) ++ to_le 4 (flags p).
Definition records_bytes (parts : list EspPartition) : list Z := flat_map record_bytes parts.

Lemma row_name_ascii p : row_ok p -> Forall is_ascii (name p).
Proof.
  intros Hp. destruct (row_label _ Hp) as [_ Hc]. eapply Forall_impl; [exact Hc|].
  intros c Hl%is_label_char_ascii. unfold is_ascii. lia.
Qed.

Lemma len_record_bytes p : row_ok p -> len (record_bytes p) = RECORD_BYTES.
Proof.
  intros Hp. destruct (row_label _ Hp) as [Hl _]. unfold record_bytes, encode_label.
  rewrite !len_app, !len_to_le, len_fill, !len_cons, len_nil by lia. unfold RECORD_BYTES. lia.
Qed.

Lemma len_records_bytes parts : Forall row_ok parts ->
  len (records_bytes parts) = RECORD_BYTES * len parts.
Proof.
  unfold records_bytes. induction 1 as [|p parts Hp Hps IH]; [done|]. cbn [flat_map].
  rewrite len_app, len_record_bytes, len_cons, IH by done. lia.
Qed.

Section encoder.
Context {H : Sha256} {M : Md5}.

(** The canonical unsigned table of a layout: records, MD5 record, erased padding. *)
Definition md5_record (body : list Z) : list Z := [0xeb; 0xeb] ++ fill 14 0xff ++ md5_raw body.
Definition canonical_table (parts : list EspPartition) : list Z :=
  records_bytes parts ++ md5_record (records_bytes parts)
  ++ fill (TABLE_BYTES - (len parts + 1) * RECORD_BYTES) 0xff.

Lemma encode_record_Ok output p : row_ok p -> encode_record output p = Ok (output ++ record_bytes p).
Proof.
  intros Hp. pose proof (row_name_ascii p Hp) as Ha. destruct (row_label _ Hp) as [Hl _].
  unfold encode_record. rewrite str_len_ascii, utf8_ascii by done.
  step_by ltac:(apply or_stuck_Ok, copy_at_Some; rewrite len_fill by lia; split_and!; try lia; done).
  change (take (Z.to_nat 0) (fill 16 0)) with (@nil Z).
  assert (drop (Z.to_nat (len (name p))) (fill 16 0) = fill (16 - len (name p)) 0) as ->.
  { unfold fill. rewrite drop_replicate. f_equal. unfold len in *. lia. }
  done.
Qed.

Lemma encode_records_Ok parts : Forall row_ok parts -> forall output,
  foldM encode_record output parts = Ok (output ++ records_bytes parts).
Proof.
  induction 1 as [|p parts Hp Hps IH]; intros output; cbn [foldM].
  - by rewrite app_nil_r.
  - rewrite encode_record_Ok by done. cbn [mbind res_bind]. rewrite IH, <- app_assoc. done.
Qed.

Lemma len_md5_record body : len (md5_record body) = RECORD_BYTES.
Proof. unfold md5_record. by rewrite !len_app, md5_raw_len, len_fill. Qed.

Lemma canonical_table_resize parts : Forall row_ok parts -> len parts <= 94 ->
  resize_to TABLE_BYTES 0xff
    (records_bytes parts ++ [0xeb; 0xeb] ++ fill 14 0xff ++ md5_raw (records_bytes parts))
  = canonical_table parts.
Proof.
  intros Hr Hl.
  change ([0xeb; 0xeb] ++ fill 14 0xff ++ md5_raw (records_bytes parts))
    with (md5_record (records_bytes parts)).
  pose proof (len_records_bytes parts Hr) as E1. pose proof (len_md5_record (records_bytes parts)) as E2.
  unfold resize_to, canonical_table. rewrite len_app, E1, E2.
  unfold TABLE_BYTES, RECORD_BYTES in *. rewrite (proj2 (Z.leb_gt _ _)) by lia.
  rewrite <- app_assoc. do 3 f_equal. lia.
Qed.

Lemma len_canonical_table parts : Forall row_ok parts -> len parts <= 94 ->
  len (canonical_table parts) = TABLE_BYTES.
Proof.
  intros Hr Hl. pose proof (len_nonneg parts). unfold canonical_table.
  rewrite !len_app, len_records_bytes, len_md5_record, len_fill
    by (done || unfold TABLE_BYTES, RECORD_BYTES; lia). unfold RECORD_BYTES, TABLE_BYTES. lia.
Qed.

Lemma encode_Ok_iff bytes sha off flash a :
  encode_esp_partition_source bytes sha off flash = Ok a <->
  exists src, parse_esp_partition_source bytes off flash = Ok src /\ sha = sha256_bytes bytes /\
    a = mkArtifact (canonical_table (partitions src)) (sha256_bytes (canonical_table (partitions src)))
          src off flash.
Proof.
  unfold encode_esp_partition_source. rewrite !refuse_bind_Ok. split.
  - intros (_ & Hsha & (src & Hp & [Hcap He]%refuse_bind_Ok)%bind_Ok).
    pose proof (parse_source_Ok _ _ _ _ Hp) as ([[_ Hbud] Hrows _ _ _ _] & _).
    rewrite encode_records_Ok in He by done. cbn [mbind res_bind app] in He.
    change (235 :: 235 :: ?l) with ([0xeb; 0xeb] ++ l) in He.
    rewrite canonical_table_resize in He by done. injection He as <-.
    exists src. apply negb_false_iff, eqb_list_true in Hsha. done.
  - intros (src & Hp & -> & ->).
    pose proof (parse_source_Ok _ _ _ _ Hp) as ([[_ Hbud] Hrows _ _ _ _] & _ & Hlen & _).
    split_and!; [apply Z.ltb_ge; lia|by apply negb_false_iff, eqb_list_true|].
    step_by done. rewrite refuse_bind_Ok.
    split; [unfold TABLE_BYTES, RECORD_BYTES; apply Z.ltb_ge; lia|].
    step_by ltac:(by apply encode_records_Ok). cbv zeta. cbn [app].
    change (235 :: 235 :: ?l) with ([0xeb; 0xeb] ++ l).
    by rewrite canonical_table_resize.
Qed.
End encoder.

Lemma render_source_ascii parts : Forall row_ok parts -> Forall is_ascii (render_source parts).
Proof.
  unfold render_source. induction 1 as [|p parts Hp Hps IH]; [constructor|]. cbn [map flat_map].
  rewrite !Forall_app, Forall_singleton. split_and!; [|done|done].
  eapply Forall_impl; [by apply render_row_chars|]. unfold is_ascii. cbn. lia.
Qed.

Lemma len_render_source parts : Forall row_ok parts -> len (render_source parts) <= 66 * len parts.
Proof.
  unfold render_source. induction 1 as [|p parts Hp Hps IH]; [done|]. cbn [map flat_map].
  pose proof (len_render_row p Hp). rewrite !len_app, !len_cons, len_nil. lia.
Qed.

Lemma lines_render_source parts : Forall row_ok parts ->
  lines (render_source parts) = map render_row parts.
Proof.
  intros Hr. apply lines_rows, Forall_map. eapply Forall_impl; [exact Hr|]. intros p Hp. cbn.
  eapply Forall_impl; [by apply render_row_chars|]. cbn. lia.
Qed.

(** ** Claims *)

(** Soundness of the source reader: every accepted CSV resolves to between
    1 and 94 declarations with unique portable labels, each well formed for the
    record format, aligned, non-empty, behind the table sector and inside the
    flash, in ascending non-overlapping order, and obeying the data-subtype
    rules; the recorded digest is the source's. *)
Theorem source_reader_sound {H : Sha256} bytes off flash src :
  parse_esp_partition_source bytes off flash = Ok src ->
  source_layout (off + SECTOR_BYTES) flash (partitions src) /\
  source_sha256 src = sha256_bytes bytes.
Proof. intros Hp. by apply parse_source_Ok in Hp as (? & ? & _). Qed.

(** Completeness of the source reader: for every legal geometry and every
    layout that satisfies the rules there is a source text, its decimal
    rendering, that the reader resolves to exactly that layout. *)
Theorem source_reader_complete {H : Sha256} off flash parts :
  0 <= off <= u32_max -> off mod SECTOR_BYTES = 0 -> 0 < flash <= 2 ^ 32 ->
  off + SECTOR_BYTES <= flash -> source_layout (off + SECTOR_BYTES) flash parts ->
  parse_esp_partition_source (render_source parts) off flash =
    Ok (mkSource (sha256_bytes (render_source parts)) parts).
Proof.
  intros Hoff Hal Hfl Hte [Hbud Hrows Htab Hord Hd1 Hd2]. unfold parse_esp_partition_source.
  pose proof (len_render_source parts Hrows).
  guard_by ltac:(apply Z.ltb_ge; lia).
  step_by ltac:(apply ok_or_Ok; by apply from_utf8_ascii, render_source_ascii). cbv zeta.
  guard_by ltac:(apply bad_geometry_false; lia).
  rewrite lines_render_source by done.
  destruct (render_rows_loop parts 0 [] (off + SECTOR_BYTES)) as [pe Hloop];
    [done|done| |rewrite ?(@len_nil EspPartition); lia..|].
  { eapply Forall_impl; [apply (layout_placed _ _ _ Htab)|]. by intros p Hp%placed_start. }
  step_by ltac:(exact Hloop). cbn [app].
  assert (match parts with [] => true | _ => false end = false) as ->
    by (destruct parts; [rewrite len_nil in Hbud; lia|done]).
  step_by done.
  step_by ltac:(apply validate_ranges_Ok; [by eapply Forall_impl; [|apply row_nonneg]|done]).
  step_by ltac:(by apply validate_data_subtypes_Ok). done.
Qed.

(** The range check accepts a table exactly when labels are unique, every
    entry is legally placed and ranges are pairwise disjoint; its explicit
    overlap-with-table test and order of refusals lose nothing. *)
Theorem validate_ranges_exact parts table_start table_end flash :
  Forall (fun p => 0 <= offset p <= u32_max /\ 0 <= size p <= u32_max) parts ->
  validate_ranges parts table_start table_end flash = Ok tt <-> table_layout table_end flash parts.
Proof.
  intros Hb. apply validate_ranges_Ok. eapply Forall_impl; [exact Hb|].
  unfold nonneg_range. cbn. lia.
Qed.

(** No index of a field, label copy or arithmetic goes out of range. *)
Lemma source_tools_not_Stuck {H : Sha256} {M : Md5} bytes sha off flash :
  parse_esp_partition_source bytes off flash <> Stuck /\
  encode_esp_partition_source bytes sha off flash <> Stuck.
Proof.
  split; [apply parse_source_not_Stuck|]. unfold encode_esp_partition_source.
  pose proof parse_source_not_Stuck. not_stuck.
  match goal with Hp : parse_esp_partition_source _ _ _ = Ok _ |- _ =>
    apply parse_source_Ok in Hp as ([_ Hrows _ _ _ _] & _) end.
  by rewrite encode_records_Ok.
Qed.

(** The encoder succeeds exactly on accepted sources of the bound digest
    (its capacity check never fires), and emits the canonical table: one
    32-byte record per declaration in order, the MD5 record over exactly these
    records, and erased padding up to 3 KiB with an end marker.  Reading and
    encoding terminate without panic on every input. *)
Theorem encoder_exact {H : Sha256} {M : Md5} bytes sha off flash a :
  (encode_esp_partition_source bytes sha off flash = Ok a <->
  exists src, parse_esp_partition_source bytes off flash = Ok src /\ sha = sha256_bytes bytes /\
    a = mkArtifact (canonical_table (partitions src))
          (sha256_bytes (canonical_table (partitions src))) src off flash /\
    len (artifact_bytes a) = TABLE_BYTES /\
    exists body, artifact_bytes a = body ++ fill RECORD_BYTES 0xff) /\
  parse_esp_partition_source bytes off flash <> Stuck /\ encode_esp_partition_source bytes sha off flash <> Stuck.
Proof.
  split; [|apply source_tools_not_Stuck].
  rewrite encode_Ok_iff. split; intros (src & Hp & Hs & Ha); [|by exists src; naive_solver].
  exists src. pose proof (parse_source_Ok _ _ _ _ Hp) as ([[_ Hbud] Hrows _ _ _ _] & _).
  subst a. cbn [artifact_bytes]. split_and!; try done; [by apply len_canonical_table|].
  exists (records_bytes (partitions src) ++ md5_record (records_bytes (partitions src))
          ++ fill (TABLE_BYTES - (len (partitions src) + 2) * RECORD_BYTES) 0xff).
  unfold canonical_table. rewrite <- !app_assoc, <- fill_add;
    [|unfold TABLE_BYTES, RECORD_BYTES; lia..].
  by replace (TABLE_BYTES - (len (partitions src) + 1) * RECORD_BYTES) with
    (TABLE_BYTES - (len (partitions src) + 2) * RECORD_BYTES + RECORD_BYTES) by lia.
Qed.

(** Numbers of the CSV subset: every accepted number is a [u32]; decimal
    rendering reads back, and a K or M suffix multiplies by 1024 or 1024 * 1024
    or is refused when the product does not fit. *)
Theorem parse_number_spec n :
  0 <= n <= u32_max ->
  parse_number (show_dec n) = Ok n /\
  parse_number (show_dec n ++ rs "K") =
    (if n * 1024 <=? u32_max then Ok (n * 1024) else Err BadNumber) /\
  parse_number (show_dec n ++ rs "m") =
    (if n * 1048576 <=? u32_max then Ok (n * 1048576) else Err BadNumber) /\
  (forall value v, parse_number value = Ok v -> 0 <= v <= u32_max).
Proof.
  intros Hn. split; [by apply parse_number_show|]. eval_rs.
  assert (forall c k, (to_ascii_lower c = 107 /\ k = 1024 \/ to_ascii_lower c = 109 /\ k = 1048576) ->
    unit_suffix (show_dec n ++ [c]) = (show_dec n, k)) as Hu.
  { intros c k Hc. unfold unit_suffix. rewrite last_snoc, removelast_last. cbn.
    by destruct Hc as [ [-> ->]|[-> ->] ]. }
  rewrite (parse_number_unit _ n _ Hn (Hu 75 1024 ltac:(auto))),
    (parse_number_unit _ n _ Hn (Hu 109 1048576 ltac:(auto))).
  split_and!; [..|apply parse_number_bounds]; unfold checked_mul; by case_match.
Qed.

(** ** Witnesses: a two-entry layout *)
Definition demo_parts : list EspPartition :=
  [mkPartition (rs "nvs") 1 2 0x9000 0x3000 0; mkPartition (rs "app.0") 0 0x10 0x10000 0x100000 3].
Definition demo_csv : list Z := render_source demo_parts.
Definition demo_flash : Z := 0x200000.

Lemma demo_layout : source_layout (0x8000 + SECTOR_BYTES) demo_flash demo_parts.
Proof.
  pose proof (@parse_source_Ok toy_sha256 demo_csv 0x8000 demo_flash
    (mkSource (@sha256_bytes toy_sha256 demo_csv) demo_parts)) as Hp.
  apply Hp. by vm_compute.
Qed.

Lemma source_reader_sound_witness : source_layout (0x8000 + SECTOR_BYTES) demo_flash demo_parts.
Proof.
  apply (@source_reader_sound toy_sha256 demo_csv 0x8000 demo_flash
    (mkSource (@sha256_bytes toy_sha256 demo_csv) demo_parts)). by vm_compute.
Defined.

Lemma source_reader_complete_witness :
  @parse_esp_partition_source toy_sha256 demo_csv 0x8000 demo_flash =
    Ok (mkSource (@sha256_bytes toy_sha256 demo_csv) demo_parts).
Proof.
  apply (@source_reader_complete toy_sha256 0x8000 demo_flash demo_parts);
    [by vm_compute..|apply demo_layout].
Defined.

Lemma validate_ranges_exact_witness :
  validate_ranges demo_parts 0x8000 0x9000 demo_flash = Ok tt.
Proof.
  apply validate_ranges_exact; [repeat constructor; by vm_compute|].
  apply (source_table _ _ _ demo_layout).
Defined.

Lemma parse_number_spec_witness : parse_number (show_dec 24 ++ rs "K") = Ok 24576.
Proof. apply (parse_number_spec 24). by vm_compute. Defined.
