(* ===== verification/EspVerify.v ===== *)
(** * EspVerify: independent decoding of ESP-IDF partition tables

    Models [crates/aros-verify/src/esp_partition.rs]: the decoder that measures
    a 3 KiB table record by record and compares it with the entries resolved
    from source.  Proved against the encoder of [EspPartition]: what is encoded
    verifies, and only the canonical encoding of the expected entries does. *)

From S2P Require Import Prelude Bytes Text Digest EspPartition.

Record EspPartitionFacts := mkFacts
  { facts_sha256 : list Z; facts_size : Z; facts_partitions : list EspPartition }.

Inductive verify_error :=
| VGeometry | VSize | EndsBeforeMd5 | TrailingData | InvalidMd5Record | Md5Differs
| UnsupportedRecord | BadLabelField | LabelNotUtf8 | NoEndMarker
| VDuplicateLabel | VUnsupportedFlags | VBadRange | VAppSize | VOverlapsTable | VBeforeTable
| VRangesOverlap | DiffersFromSource.

(** [bytes.as_chunks::<RECORD_BYTES>().0]: the whole records; a rest is ignored. *)
Fixpoint chunks (n : nat) (bytes : list Z) : list (list Z) :=
  match n with
  | O => []
  | S n => take 32 bytes :: chunks n (drop 32 bytes)
  end.
Definition as_chunks (bytes : list Z) : list (list Z) :=
  chunks (Z.to_nat (len bytes / RECORD_BYTES)) bytes.

Definition word (record : list Z) (offset : Z) : res verify_error Z :=
  w ← or_stuck (get_range record offset (offset + 4)); Ok (of_le w).

(** The loop body after the erased and checksum records are dealt with. *)
Definition decode_record (record : list Z) : res verify_error EspPartition :=
  label ← or_stuck (get_range record 12 28);
  let label_end := default 16 (position (Z.eqb 0) label) in
  head ← or_stuck (get_range label 0 label_end);
  tail ← or_stuck (get_range label label_end (len label));
  _ ← refuse ((label_end =? 0) || existsb (fun b => negb (in_range 0x21 0x7e b)) head
              || existsb (fun b => negb (b =? 0)) tail) BadLabelField;
  n ← ok_or (from_utf8 head) LabelNotUtf8;
  k ← or_stuck (get_at record 2);
  st ← or_stuck (get_at record 3);
  off ← word record 4;
  sz ← word record 8;
  fl ← word record 28;
  Ok (mkPartition n k st off sz fl).

Definition verify_range (table_start table_end flash : Z) (prev : list EspPartition)
  (p : EspPartition) : res verify_error (list EspPartition) :=
  let start := offset p in
  let stop := start + size p in
  let alignment := if kind p =? 0 then 0x10000 else SECTOR_BYTES in
  _ ← refuse (bool_decide (name p ∈ map name prev)) VDuplicateLabel;
  _ ← refuse (negb (Z.land (flags p) (Z.lnot 3) =? 0)) VUnsupportedFlags;
  _ ← refuse ((size p =? 0) || negb (start mod alignment =? 0) || (flash <? stop)) VBadRange;
  _ ← refuse ((kind p =? 0) && negb (size p mod SECTOR_BYTES =? 0)) VAppSize;
  _ ← refuse ((start <? table_end) && (table_start <? stop)) VOverlapsTable;
  _ ← refuse (start <? table_end) VBeforeTable;
  _ ← refuse (existsb (ranges_overlap p) prev) VRangesOverlap;
  Ok (prev ++ [p]).
Definition verify_ranges (parts : list EspPartition) (table_start table_end flash : Z)
  : res verify_error unit :=
  _ ← foldM (verify_range table_start table_end flash) [] parts; Ok tt.

Section verify.
Context {H : Sha256} {M : Md5}.

(** The record loop from record [index]; the result carries [end_seen]. *)
Fixpoint scan (bytes : list Z) (index : Z) (records : list (list Z)) (parts : list EspPartition)
  (checksum_seen : bool) : res verify_error (list EspPartition * bool) :=
  match records with
  | [] => Ok (parts, false)
  | record :: records =>
    if eqb_list record (fill RECORD_BYTES 0xff) then
      _ ← refuse (negb checksum_seen) EndsBeforeMd5;
      rest ← or_stuck (get_range bytes (index * RECORD_BYTES) (len bytes));
      _ ← refuse (existsb (fun b => negb (b =? 0xff)) rest) TrailingData;
      Ok (parts, true)
    else
      magic ← or_stuck (get_range record 0 2);
      if eqb_list magic [0xeb; 0xeb] then
        pad ← or_stuck (get_range record 2 16);
        _ ← refuse (checksum_seen || match parts with [] => true | _ => false end
                    || negb (eqb_list pad (fill 14 0xff))) InvalidMd5Record;
        body ← or_stuck (get_range bytes 0 (index * RECORD_BYTES));
        sum ← or_stuck (get_range record 16 (len record));
        _ ← refuse (negb (eqb_list sum (md5_raw body))) Md5Differs;
        scan bytes (index + 1) records parts true
      else
        _ ← refuse (checksum_seen || negb (eqb_list magic [0xaa; 0x50])) UnsupportedRecord;
        p ← decode_record record;
        scan bytes (index + 1) records (parts ++ [p]) checksum_seen
  end.

Definition verify_esp_partition_table (bytes : list Z) (table_offset flash : Z)
  (expected : list EspPartition) : res verify_error EspPartitionFacts :=
  let table_start := table_offset in
  let table_end := table_start + SECTOR_BYTES in
  _ ← refuse ((flash =? 0) || (2 ^ 32 <? flash) || negb (table_start mod SECTOR_BYTES =? 0)
              || (flash <? table_end) || match expected with [] => true | _ => false end) VGeometry;
  _ ← refuse (negb (len bytes =? TABLE_BYTES)) VSize;
  '(parts, end_seen) ← scan bytes 0 (as_chunks bytes) [] false;
  _ ← refuse (negb end_seen) NoEndMarker;
  _ ← verify_ranges parts table_start table_end flash;
  _ ← refuse (negb (bool_decide (parts = expected))) DiffersFromSource;
  Ok (mkFacts (sha256_bytes bytes) (len bytes) parts).
End verify.

(** ** The second range check agrees with the first *)
Lemma verify_range_Ok ts te flash pre p s :
  verify_range ts te flash pre p = Ok s <-> validate_range ts te flash pre p = Ok s.
Proof.
  unfold verify_range, validate_range. rewrite !refuse_bind_Ok.
  split; intros (?&?&?&?&?&?&?&[= <-]); by split_and!.
Qed.

Lemma verify_ranges_same parts ts te flash :
  verify_ranges parts ts te flash = Ok tt <-> validate_ranges parts ts te flash = Ok tt.
Proof.
  unfold verify_ranges, validate_ranges. rewrite !bind_Ok.
  assert (forall l pre s, foldM (verify_range ts te flash) pre l = Ok s <->
    foldM (validate_range ts te flash) pre l = Ok s) as Hf.
  { induction l as [|p l IH]; intros pre s; cbn; [naive_solver|].
    rewrite !bind_Ok. setoid_rewrite verify_range_Ok. setoid_rewrite IH. done. }
  setoid_rewrite Hf. naive_solver.
Qed.

Lemma verify_ranges_Ok parts ts te flash : Forall nonneg_range parts ->
  verify_ranges parts ts te flash = Ok tt <-> table_layout te flash parts.
Proof. intros. by rewrite verify_ranges_same, validate_ranges_Ok. Qed.

(** ** Records *)

(** The declarations a record can carry, as the verifier reads it. *)
Record record_ok (p : EspPartition) : Prop := {
  rec_label : 1 <= len (name p) <= 16 /\ Forall (fun c => 0x21 <= c <= 0x7e) (name p);
  rec_kind : is_u8 (kind p);
  rec_subtype : is_u8 (subtype p);
  rec_offset : 0 <= offset p <= u32_max;
  rec_size : 0 <= size p <= u32_max;
  rec_flags : 0 <= flags p <= u32_max;
}.

Lemma row_record_ok p : row_ok p -> record_ok p.
Proof.
  intros [[Hl Hc] _ [Hk _] Hs Ho Hz Hf]. split; try done.
  - split; [done|]. eapply Forall_impl; [exact Hc|]. intros c ?%is_label_char_ascii. lia.
  - unfold u32_max. lia.
Qed.

Lemma len_record p : record_ok p -> len (record_bytes p) = RECORD_BYTES.
Proof.
  intros [[Hl _] _ _ _ _ _]. unfold record_bytes, encode_label.
  rewrite !len_app, !len_to_le, len_fill, !len_cons, len_nil by lia. unfold RECORD_BYTES. lia.
Qed.

Section records.
Variables (p : EspPartition).
Hypothesis Hp : record_ok p.

Lemma record_name_ascii : Forall is_ascii (name p).
Proof.
  destruct Hp as [[_ Hc] _ _ _ _ _]. eapply Forall_impl; [exact Hc|]. unfold is_ascii. cbn. lia.
Qed.

(** The four regions of a record after its header. *)
Lemma record_regions :
  get_range (record_bytes p) 4 8 = Some (to_le 4 (offset p)) /\
  get_range (record_bytes p) 8 12 = Some (to_le 4 (size p)) /\
  get_range (record_bytes p) 12 28 = Some (encode_label (name p)) /\
  get_range (record_bytes p) 28 32 = Some (to_le 4 (flags p)).
Proof.
  destruct Hp as [[Hl _] _ _ _ _ _].
  assert (len (encode_label (name p)) = 16) as El
    by (unfold encode_label; rewrite len_app, len_fill; lia).
  unfold record_bytes. remember [0xaa; 0x50; kind p; subtype p] as h eqn:Hh.
  assert (len h = 4) as Eh by by subst.
  pose proof (len_to_le 4 (offset p)) as Eo. pose proof (len_to_le 4 (size p)) as Ez.
  pose proof (len_to_le 4 (flags p)) as Ef. split_and!.
  - apply get_range_app_mid; lia.
  - rewrite app_assoc. apply get_range_app_mid; rewrite ?len_app; lia.
  - rewrite app_assoc, (app_assoc _ (to_le 4 (size p))). apply get_range_app_mid; rewrite ?len_app; lia.
  - rewrite app_assoc, (app_assoc _ (to_le 4 (size p))), (app_assoc _ (encode_label _)).
    rewrite <- (app_nil_r (to_le 4 (flags p))) at 1. apply get_range_app_mid; rewrite ?len_app; lia.
Qed.

Lemma label_end_name : default 16 (position (Z.eqb 0) (encode_label (name p))) = len (name p).
Proof.
  destruct Hp as [[Hl Hc] _ _ _ _ _].
  assert (Forall (fun y => (0 =? y) = false) (name p)) as Hnz.
  { eapply Forall_impl; [exact Hc|]. cbn beta. intros c ?. apply Z.eqb_neq. lia. }
  unfold encode_label. destruct (decide (len (name p) = 16)) as [E|].
  - rewrite E. change (fill (16 - 16) 0) with (@nil Z). rewrite app_nil_r.
    by rewrite (proj2 (position_None _ _)).
  - unfold fill. replace (Z.to_nat (16 - len (name p))) with (S (Z.to_nat (15 - len (name p)))) by lia.
    cbn [replicate]. by rewrite position_app.
Qed.

Lemma decode_record_bytes : decode_record (record_bytes p) = Ok p.
Proof.
  pose proof record_name_ascii as Hasc. pose proof label_end_name as Hend.
  destruct record_regions as (Ro & Rs & Rl & Rf).
  destruct Hp as [[Hl Hc] Hk Hst Ho Hz Hf]. unfold decode_record.
  step_by ltac:(by apply or_stuck_Ok). cbv zeta. rewrite Hend. unfold encode_label.
  assert (len (name p ++ fill (16 - len (name p)) 0) = 16) as El by (rewrite len_app, len_fill; lia).
  step_by ltac:(apply or_stuck_Ok; apply (get_range_app_mid [] (name p)); done).
  step_by ltac:(apply or_stuck_Ok; rewrite <- (app_nil_r (fill _ _)) at 1;
    apply get_range_app_mid; [done|]; rewrite El, len_fill; lia).
  guard_by ltac:(rewrite !orb_false_iff, !existsb_false_Forall; split_and!;
    [apply Z.eqb_neq; lia
    |eapply Forall_impl; [exact Hc|]; intros c ?; by apply negb_false_iff, in_range_true
    |apply Forall_replicate; done]).
  step_by ltac:(by apply ok_or_Ok, from_utf8_ascii). step_by done. step_by done. unfold word.
  step_by ltac:(step_by ltac:(by apply or_stuck_Ok); by rewrite of_to_le_u32).
  step_by ltac:(step_by ltac:(by apply or_stuck_Ok); by rewrite of_to_le_u32).
  step_by ltac:(step_by ltac:(by apply or_stuck_Ok); by rewrite of_to_le_u32).
  by destruct p.
Qed.
End records.

Lemma word_Ok record off v : word record off = Ok v -> Forall is_u8 record ->
  slice record off (off + 4) = to_le 4 v /\ 0 <= v <= u32_max.
Proof.
  unfold word. intros (w & Hw & [= <-])%bind_Ok Hu. apply or_stuck_Ok in Hw.
  pose proof (get_range_Forall _ _ _ _ _ Hw Hu) as Hu4. pose proof (get_range_len _ _ _ _ Hw) as Hl.
  apply get_range_Some in Hw as (_ & _ & _ & <-).
  split; [|apply of_le_u32; [lia|done]].
  rewrite <- (to_of_le w) at 1 by done. f_equal. unfold len in Hl. lia.
Qed.

(** What the label test of the verifier establishes. *)
Lemma decode_label label : len label = 16 ->
  forall head tail e,
  e = default 16 (position (Z.eqb 0) label) ->
  get_range label 0 e = Some head -> get_range label e (len label) = Some tail ->
  (e =? 0) || existsb (fun b => negb (in_range 0x21 0x7e b)) head
    || existsb (fun b => negb (b =? 0)) tail = false ->
  label = encode_label head /\ 1 <= len head <= 16 /\ Forall (fun c => 0x21 <= c <= 0x7e) head.
Proof.
  intros Hl head tail e He Hh Ht Hg. rewrite !orb_false_iff, existsb_false_Forall in Hg.
  destruct Hg as [[H0 Hhd] Htl]. bool_prop. apply existsb_fill in Htl.
  pose proof (get_range_len _ _ _ _ Hh). pose proof (get_range_len _ _ _ _ Ht).
  apply get_range_Some in Hh as (? & ? & ? & ->), Ht as (? & ? & ? & ->). split_and!.
  - unfold encode_label. rewrite <- (slice_full label) at 1. rewrite (slice_split _ 0 e) by lia.
    f_equal. rewrite Htl at 1. f_equal. lia.
  - lia.
  - lia.
  - eapply Forall_impl; [exact Hhd|]. cbn beta. intros c Hc. by apply negb_false_iff, in_range_true in Hc.
Qed.

Lemma decode_record_sound record p : len record = RECORD_BYTES -> Forall is_u8 record ->
  get_range record 0 2 = Some [0xaa; 0x50] -> decode_record record = Ok p ->
  record = record_bytes p /\ record_ok p.
Proof.
  intros Hlen Hu Hmagic. unfold decode_record, RECORD_BYTES in *.
  intros (label & Hlab%or_stuck_Ok & Hd)%bind_Ok.
  apply bind_Ok in Hd as (head & Hh%or_stuck_Ok & (tail & Ht%or_stuck_Ok & [Hg Hd]%refuse_bind_Ok)%bind_Ok).
  pose proof (get_range_len _ _ _ _ Hlab) as Hll.
  destruct (decode_label label ltac:(lia) head tail _ eq_refl Hh Ht Hg) as (Hlabel & Hl & Hc).
  apply bind_Ok in Hd as (n & Hn%ok_or_Ok & (k & Hk%or_stuck_Ok & (st & Hst%or_stuck_Ok & Hd)%bind_Ok)%bind_Ok).
  apply bind_Ok in Hd as (off & Ho & (sz & Hz & (fl & Hf & [= <-])%bind_Ok)%bind_Ok).
  apply word_Ok in Ho as [Ho ?], Hz as [Hz ?], Hf as [Hf ?]; [|done..].
  rewrite from_utf8_ascii in Hn by (eapply Forall_impl; [exact Hc|]; unfold is_ascii; cbn; lia).
  injection Hn as <-. split.
  - unfold record_bytes. cbn [name kind subtype offset size flags].
    apply get_range_Some in Hmagic as (_ & _ & _ & Hmagic), Hlab as (_ & _ & _ & Hlab).
    apply slice_one in Hk, Hst. rewrite <- Hlabel, <- Ho, <- Hz, <- Hf, Hlab.
    change ([0xaa; 0x50; k; st] ++ ?l) with ([0xaa; 0x50] ++ [k] ++ [st] ++ l).
    rewrite Hmagic, <- Hk, <- Hst. rewrite <- (slice_full record) at 1. rewrite Hlen.
    by rewrite (slice_split _ 0 2), (slice_split _ 2 3), (slice_split _ 3 4), (slice_split _ 4 8),
      (slice_split _ 8 12), (slice_split _ 12 28) by lia.
  - split; cbn; eauto using get_at_u8.
Qed.

(** ** The record loop *)
Lemma concat_chunks n bytes : length bytes = (n * 32)%nat -> concat (chunks n bytes) = bytes.
Proof.
  revert bytes; induction n as [|n IH]; intros bytes Hl; cbn.
  - by destruct bytes.
  - rewrite IH by (rewrite length_drop; lia). apply take_drop.
Qed.

Lemma chunks_len n bytes : length bytes = (n * 32)%nat ->
  Forall (fun r => len r = RECORD_BYTES) (chunks n bytes).
Proof.
  revert bytes; induction n as [|n IH]; intros bytes Hl; cbn; constructor.
  - unfold len, RECORD_BYTES. rewrite length_take. lia.
  - apply IH. rewrite length_drop. lia.
Qed.

Lemma chunks_app rs m rest : Forall (fun r => len r = RECORD_BYTES) rs ->
  chunks (length rs + m) (concat rs ++ rest) = rs ++ chunks m rest.
Proof.
  induction 1 as [|r rs Hr Hrs IH]; [done|]. cbn [length Nat.add chunks concat].
  unfold len, RECORD_BYTES in Hr. rewrite <- app_assoc.
  rewrite take_app_length' by lia. rewrite drop_app_length' by lia. by rewrite IH.
Qed.

Section scan_facts.
Context {H : Sha256} {M : Md5}.

(** The bytes behind the loop's state. *)
Definition scanned (parts : list EspPartition) (checksum_seen : bool) : list Z :=
  records_bytes parts ++ if checksum_seen then md5_record (records_bytes parts) else [].

Lemma scanned_snoc parts p : scanned (parts ++ [p]) false = scanned parts false ++ record_bytes p.
Proof. unfold scanned, records_bytes. rewrite flat_map_app. cbn. by rewrite !app_nil_r. Qed.

Lemma scanned_md5 parts :
  scanned parts true = scanned parts false ++ md5_record (records_bytes parts).
Proof. unfold scanned. by rewrite app_nil_r. Qed.

Lemma md5_record_split record body : len record = RECORD_BYTES ->
  get_range record 0 2 = Some [0xeb; 0xeb] -> get_range record 2 16 = Some (fill 14 0xff) ->
  get_range record 16 (len record) = Some (md5_raw body) -> record = md5_record body.
Proof.
  intros Hl (_ & _ & _ & H1)%get_range_Some (_ & _ & _ & H2)%get_range_Some
    (_ & _ & _ & H3)%get_range_Some. unfold RECORD_BYTES in Hl.
  unfold md5_record. rewrite H1, H2, H3. rewrite <- (slice_full record) at 1. rewrite Hl.
  by rewrite (slice_split _ 0 2), (slice_split _ 2 16) by lia.
Qed.

Lemma scan_sound records : forall bytes index parts chk parts',
  Forall (fun r => len r = RECORD_BYTES) records -> Forall is_u8 bytes ->
  bytes = scanned parts chk ++ concat records -> len (scanned parts chk) = index * RECORD_BYTES ->
  Forall record_ok parts ->
  scan bytes index records parts chk = Ok (parts', true) ->
  Forall record_ok parts' /\ exists n, bytes = scanned parts' true ++ fill n 0xff.
Proof.
  induction records as [|record records IH]; intros bytes index parts chk parts' Hlen Hu Hb Hidx Hok;
    [done|]. cbn [scan]. apply Forall_cons in Hlen as [Hr Hlen]. cbn [concat] in Hb.
  assert (Forall is_u8 record) as Hur by (rewrite Hb in Hu; rewrite !Forall_app in Hu; tauto).
  case_match.
  - rewrite refuse_bind_Ok. intros [Hc Hs]. bool_prop. subst chk.
    apply bind_Ok in Hs as (rest & Hrest%or_stuck_Ok & [Hff%existsb_fill [= <-] ]%refuse_bind_Ok).
    split; [done|]. exists (len rest). apply get_range_Some in Hrest as (_ & _ & _ & Hrest).
    rewrite Hb at 1. rewrite <- Hff, Hrest, slice_suffix, Hb by (pose proof (len_nonneg (scanned parts true)); lia).
    f_equal. rewrite drop_app_length'; [done|]. unfold len in Hidx. lia.
  - intros (magic & Hm%or_stuck_Ok & Hs)%bind_Ok. destruct (eqb_list magic [0xeb; 0xeb]) eqn:Heb.
    + apply eqb_list_true in Heb as ->.
      apply bind_Ok in Hs as (pad & Hpad%or_stuck_Ok & [Hg Hs]%refuse_bind_Ok).
      rewrite !orb_false_iff, negb_false_iff, eqb_list_true in Hg. destruct Hg as [[-> _] ->].
      apply bind_Ok in Hs as (body & Hbody%or_stuck_Ok & (sum & Hsum%or_stuck_Ok & [Hd Hs]%refuse_bind_Ok)%bind_Ok).
      apply negb_false_iff, eqb_list_true in Hd as ->.
      assert (body = records_bytes parts) as ->.
      { apply get_range_Some in Hbody as (_ & _ & _ & ->). rewrite Hb, <- Hidx.
        rewrite slice_prefix. unfold len. rewrite Nat2Z.id, take_app_length.
        unfold scanned. apply app_nil_r. }
      apply md5_record_split in Hsum as Hrec; [|done..].
      apply IH in Hs; [done|done|done| |rewrite scanned_md5, len_app, <- Hrec; lia|done].
      by rewrite scanned_md5, <- Hrec, <- app_assoc.
    + rewrite refuse_bind_Ok, orb_false_iff, negb_false_iff, eqb_list_true in Hs.
      destruct Hs as [[-> ->] Hs]. apply bind_Ok in Hs as (p & Hp & Hs).
      apply decode_record_sound in Hp as [-> Hp]; [|done..].
      apply IH in Hs; [done|done|done| |rewrite scanned_snoc, len_app; lia|].
      * by rewrite scanned_snoc, <- app_assoc.
      * by rewrite Forall_app, Forall_singleton.
Qed.

(** A record is neither erased nor a checksum record. *)
Lemma record_head p : eqb_list (record_bytes p) (fill RECORD_BYTES 0xff) = false /\
  get_range (record_bytes p) 0 2 = Some [0xaa; 0x50].
Proof.
  split; [|by apply (get_range_app_mid [] [0xaa; 0x50])].
  unfold eqb_list. apply bool_decide_eq_false. by intros [=].
Qed.

Lemma scan_records ps : forall bytes index parts records,
  Forall record_ok ps ->
  scan bytes index (map record_bytes ps ++ records) parts false =
  scan bytes (index + len ps) records (parts ++ ps) false.
Proof.
  induction ps as [|p ps IH]; intros bytes index parts records Hok.
  - by rewrite len_nil, Z.add_0_r, app_nil_r.
  - apply Forall_cons in Hok as [Hp Hok]. destruct (record_head p) as [Hff Hm].
    cbn [map app scan]. rewrite Hff, Hm. cbn [or_stuck mbind res_bind].
    change (eqb_list [0xaa; 0x50] [0xeb; 0xeb]) with false. cbn [orb].
    change (eqb_list [0xaa; 0x50] [0xaa; 0x50]) with true. cbn [negb refuse mbind res_bind].
    rewrite decode_record_bytes by done. cbn [mbind res_bind]. rewrite IH by done.
    rewrite len_cons, <- app_assoc. f_equal. lia.
Qed.

Lemma scan_tail parts n records : parts <> [] -> 0 <= n ->
  len (records_bytes parts) = len parts * RECORD_BYTES ->
  scan (scanned parts true ++ fill n 0xff) (len parts)
    (md5_record (records_bytes parts) :: fill RECORD_BYTES 0xff :: records) parts false
  = Ok (parts, true).
Proof.
  intros Hne Hn Hlen. remember (records_bytes parts) as body eqn:Hbody.
  pose proof (md5_raw_len body) as Hd. pose proof (len_md5_record body) as Hmd.
  cbn [scan]. assert (eqb_list (md5_record body) (fill RECORD_BYTES 0xff) = false) as ->.
  { unfold eqb_list. apply bool_decide_eq_false. by intros [=]. }
  step_by ltac:(apply or_stuck_Ok; by apply (get_range_app_mid [] [0xeb; 0xeb])).
  change (eqb_list [0xeb; 0xeb] [0xeb; 0xeb]) with true. cbv iota.
  step_by ltac:(apply or_stuck_Ok; by apply (get_range_app_mid [0xeb; 0xeb] (fill 14 0xff))).
  guard_by ltac:(by destruct parts).
  unfold scanned. rewrite <- Hbody.
  step_by ltac:(apply or_stuck_Ok; rewrite <- app_assoc; by apply (get_range_app_mid [] body); rewrite ?Hlen).
  step_by ltac:(apply or_stuck_Ok; rewrite Hmd; unfold md5_record; rewrite app_assoc;
    rewrite <- (app_nil_r (md5_raw body)) at 1; apply get_range_app_mid; [done|rewrite Hd; done]).
  guard_by ltac:(by apply negb_false_iff, eqb_list_true).
  assert (eqb_list (fill RECORD_BYTES 0xff) (fill RECORD_BYTES 0xff) = true) as -> by done.
  guard_by done.
  step_by ltac:(apply or_stuck_Ok; rewrite <- (app_nil_r (fill n 0xff)) at 1;
    apply get_range_app_mid; rewrite !len_app, ?Hlen, ?Hmd; unfold RECORD_BYTES in *; lia).
  guard_by ltac:(apply fill_existsb). done.
Qed.

(** The erased remainder of a table still has whole records. *)
Lemma chunks_fill n m : (32 * n <= m)%nat ->
  chunks n (replicate m 0xff) = replicate n (replicate 32 0xff).
Proof.
  revert m; induction n as [|n IH]; intros m Hm; [done|]. cbn [chunks replicate].
  rewrite take_replicate, drop_replicate, IH by lia. by rewrite Nat.min_l by lia.
Qed.
End scan_facts.

(** ** The table as a whole *)
Section table_facts.
Context {H : Sha256} {M : Md5}.

Lemma canonical_scanned parts : canonical_table parts =
  scanned parts true ++ fill (TABLE_BYTES - (len parts + 1) * RECORD_BYTES) 0xff.
Proof. unfold canonical_table, scanned. by rewrite <- app_assoc. Qed.

Lemma len_records parts : Forall record_ok parts ->
  len (records_bytes parts) = len parts * RECORD_BYTES.
Proof.
  unfold records_bytes. induction 1 as [|p parts Hp Hps IH]; [done|]. cbn [flat_map].
  rewrite len_app, len_record, len_cons, IH by done. lia.
Qed.

Lemma record_nonneg p : record_ok p -> nonneg_range p.
Proof. intros [_ _ _ ? ? _]. split; lia. Qed.

Lemma as_chunks_canonical parts : Forall record_ok parts -> len parts <= 94 ->
  exists records, as_chunks (canonical_table parts) =
    map record_bytes parts ++ md5_record (records_bytes parts) :: fill RECORD_BYTES 0xff :: records.
Proof.
  intros Hok Hn. pose proof (len_nonneg parts) as Hnn. unfold len in Hn, Hnn.
  set (n := length parts) in *.
  exists (replicate (94 - n) (replicate 32 0xff)). unfold as_chunks.
  assert (len (canonical_table parts) = TABLE_BYTES) as ->.
  { rewrite canonical_scanned, scanned_md5. unfold scanned. rewrite app_nil_r, !len_app.
    rewrite len_records, len_md5_record, len_fill by (done || unfold TABLE_BYTES, RECORD_BYTES, len; lia).
    unfold TABLE_BYTES, RECORD_BYTES. lia. }
  change (Z.to_nat (TABLE_BYTES / RECORD_BYTES)) with 96%nat.
  replace 96%nat with (length (map record_bytes parts ++ [md5_record (records_bytes parts)]) + (95 - n))%nat
    by (rewrite length_app, length_map; cbn [length]; subst n; lia).
  assert (canonical_table parts = concat (map record_bytes parts ++ [md5_record (records_bytes parts)])
    ++ fill (TABLE_BYTES - (len parts + 1) * RECORD_BYTES) 0xff) as ->.
  { unfold canonical_table, records_bytes. rewrite concat_app, flat_map_concat_map. cbn [concat].
    by rewrite app_nil_r, <- app_assoc. }
  rewrite chunks_app.
  - unfold fill at 1. rewrite chunks_fill by (unfold TABLE_BYTES, RECORD_BYTES, len; subst n; lia).
    replace (95 - n)%nat with (S (94 - n)) by lia. by rewrite <- app_assoc.
  - rewrite Forall_app, Forall_singleton, Forall_map. split; [|apply len_md5_record].
    eapply Forall_impl; [exact Hok|]. apply len_record.
Qed.

Lemma verify_geometry ts te flash (expected : list EspPartition) :
  bad_geometry ts te flash = false -> expected <> [] ->
  (flash =? 0) || (2 ^ 32 <? flash) || negb (ts mod SECTOR_BYTES =? 0) || (flash <? te)
    || match expected with [] => true | _ => false end = false.
Proof. unfold bad_geometry. intros -> Hne. by destruct expected. Qed.

(** Acceptance of the canonical table, and nothing else. *)
Lemma verify_complete off flash parts :
  bad_geometry off (off + SECTOR_BYTES) flash = false -> 1 <= len parts <= 94 ->
  Forall record_ok parts -> table_layout (off + SECTOR_BYTES) flash parts ->
  verify_esp_partition_table (canonical_table parts) off flash parts =
    Ok (mkFacts (sha256_bytes (canonical_table parts)) TABLE_BYTES parts).
Proof.
  intros Hg Hn Hok Hlay. assert (parts <> []) as Hne by (intros ->; rewrite len_nil in Hn; lia).
  pose proof (len_records parts Hok) as Hlen. unfold verify_esp_partition_table.
  guard_by ltac:(by apply verify_geometry).
  assert (len (canonical_table parts) = TABLE_BYTES) as Hl.
  { rewrite canonical_scanned, scanned_md5. unfold scanned. rewrite app_nil_r, !len_app, Hlen.
    rewrite len_md5_record, len_fill by (unfold TABLE_BYTES, RECORD_BYTES; lia).
    unfold TABLE_BYTES, RECORD_BYTES. lia. }
  guard_by ltac:(by rewrite Hl).
  destruct (as_chunks_canonical parts Hok ltac:(lia)) as [records ->].
  rewrite scan_records by done. rewrite canonical_scanned. cbn [app].
  rewrite Z.add_0_l, scan_tail by (done || unfold TABLE_BYTES, RECORD_BYTES; lia).
  rewrite <- canonical_scanned. cbn [mbind res_bind]. guard_by done.
  step_by ltac:(apply verify_ranges_Ok; [by eapply Forall_impl; [|apply record_nonneg]|done]).
  guard_by ltac:(by rewrite bool_decide_eq_true_2). by rewrite Hl.
Qed.

Lemma verify_sound bytes off flash expected facts : Forall is_u8 bytes ->
  verify_esp_partition_table bytes off flash expected = Ok facts ->
  bytes = canonical_table expected /\
  facts = mkFacts (sha256_bytes bytes) TABLE_BYTES expected /\
  Forall record_ok expected /\ table_layout (off + SECTOR_BYTES) flash expected.
Proof.
  intros Hu. unfold verify_esp_partition_table. rewrite !refuse_bind_Ok. intros (Hg & Hl & Hs).
  bool_prop. apply bind_Ok in Hs as ([parts e] & Hscan & [He Hs]%refuse_bind_Ok). bool_prop. subst e.
  apply bind_Ok in Hs as ([] & Hr & [Heq [= <-] ]%refuse_bind_Ok). bool_prop. subst parts.
  assert (length bytes = (96 * 32)%nat) as Hlb by (unfold len, TABLE_BYTES in *; lia).
  unfold as_chunks in Hscan. replace (Z.to_nat (len bytes / RECORD_BYTES)) with 96%nat in Hscan
    by by rewrite Hl.
  apply scan_sound in Hscan as [Hok [n Hb] ];
    [|by apply chunks_len|done|by rewrite concat_chunks|done|constructor].
  apply verify_ranges_Ok in Hr; [|by eapply Forall_impl; [|apply record_nonneg]].
  split_and!; [|by rewrite Hl|done|done].
  rewrite canonical_scanned, Hb. f_equal. rewrite Hb, scanned_md5 in Hl. unfold scanned in Hl.
  rewrite app_nil_r, !len_app, len_records, len_md5_record in Hl by done.
  unfold fill, len in *. rewrite length_replicate in Hl. f_equal. lia.
Qed.
End table_facts.

(** *** No panic *)
Lemma decode_record_not_Stuck record : len record = RECORD_BYTES -> decode_record record <> Stuck.
Proof.
  unfold RECORD_BYTES. intros Hr. unfold decode_record, word.
  assert (forall a b, 0 <= a -> a <= b -> b <= 32 ->
    or_stuck (E := verify_error) (get_range record a b) <> Stuck) as Hrange.
  { intros. apply or_stuck_not_Stuck, get_range_is_Some; lia. }
  assert (forall i, 0 <= i < 32 -> or_stuck (E := verify_error) (get_at record i) <> Stuck) as Hat.
  { intros. apply or_stuck_not_Stuck, get_at_is_Some; lia. }
  apply bind_not_Stuck; [apply Hrange; lia|]. intros label Hlab%or_stuck_Ok%get_range_len.
  assert (0 <= default 16 (position (Z.eqb 0) label) <= 16) as He.
  { destruct (position _ label) as [e|] eqn:E; cbn; [|lia].
    apply position_Some in E as (? & ? & _ & _ & ? & _). lia. }
  cbv zeta. not_stuck; try (apply Hrange; lia); try (apply Hat; lia);
    apply or_stuck_not_Stuck, get_range_is_Some; lia.
Qed.

Section stuck.
Context {H : Sha256} {M : Md5}.

Lemma scan_not_Stuck records : forall bytes index parts chk,
  Forall (fun r => len r = RECORD_BYTES) records -> 0 <= index ->
  (index + len records) * RECORD_BYTES <= len bytes ->
  scan bytes index records parts chk <> Stuck.
Proof.
  unfold RECORD_BYTES. induction records as [|r records IH]; intros bytes index parts chk Hr Hi Hb;
    [done|].
  apply Forall_cons in Hr as [Hr1 Hr]. rewrite len_cons in Hb. pose proof (len_nonneg records).
  assert (forall a b, 0 <= a -> a <= b -> b <= 32 ->
    or_stuck (E := verify_error) (get_range r a b) <> Stuck) as Hrange.
  { intros. apply or_stuck_not_Stuck, get_range_is_Some; lia. }
  cbn [scan]. unfold RECORD_BYTES in *. not_stuck;
    try (apply Hrange; lia); try (apply IH; (done || lia));
    try (by apply decode_record_not_Stuck);
    apply or_stuck_not_Stuck, get_range_is_Some; lia.
Qed.

Lemma verify_ranges_not_Stuck parts ts te flash : verify_ranges parts ts te flash <> Stuck.
Proof.
  unfold verify_ranges. not_stuck. apply (foldM_not_Stuck _ (fun _ => True)); [done| |done].
  intros s x _ _. unfold verify_range. not_stuck.
Qed.
End stuck.

(** ** Claims *)

(** C26. Construction and independent verification agree: every table the
    encoder emits for a source is accepted by the verifier against the entries
    resolved from that source, and the verifier reports exactly these entries,
    the table's digest and its size. *)
Theorem encoded_table_verifies {H : Sha256} {M : Md5} bytes sha off flash a :
  encode_esp_partition_source bytes sha off flash = Ok a ->
  verify_esp_partition_table (artifact_bytes a) off flash (partitions (artifact_source a)) =
    Ok (mkFacts (artifact_sha256 a) TABLE_BYTES (partitions (artifact_source a))).
Proof.
  intros (src & Hp & _ & ->)%encode_Ok_iff. cbn.
  apply parse_source_Ok in Hp as ([Hbud Hrows Htab _ _ _] & _ & _ & Hg).
  apply verify_complete; try done. by eapply Forall_impl; [|apply row_record_ok].
Qed.

(** Also on strings of the wrong size, with stray records or unterminated labels. *)
Lemma verify_table_not_Stuck {H : Sha256} {M : Md5} bytes off flash expected :
  verify_esp_partition_table bytes off flash expected <> Stuck.
Proof.
  pose proof verify_ranges_not_Stuck. unfold verify_esp_partition_table. not_stuck.
  match goal with Hl : refuse (negb (len bytes =? _)) _ = Ok _ |- _ =>
    apply refuse_Ok, negb_false_iff, Z.eqb_eq in Hl end.
  assert (length bytes = (96 * 32)%nat) as Hlb by (unfold len, TABLE_BYTES in *; lia).
  unfold as_chunks. replace (Z.to_nat (len bytes / RECORD_BYTES)) with 96%nat
    by match goal with Hl : len bytes = _ |- _ => by rewrite Hl end.
  apply scan_not_Stuck; [by apply chunks_len|lia|]. unfold len, RECORD_BYTES.
  assert (forall n l, length (chunks n l) = n) as -> by (induction n; intros; cbn; auto). lia.
Qed.

(** C27. The verifier is not malleable: it accepts a byte string for the
    expected entries only if the string is their canonical encoding, byte for
    byte, and the entries form a legal layout; no second table verifies.  It
    terminates without panic on every byte string. *)
Theorem verified_table_is_canonical {H : Sha256} {M : Md5} bytes off flash expected facts :
  Forall is_u8 bytes ->
  verify_esp_partition_table bytes off flash expected <> Stuck /\
  (verify_esp_partition_table bytes off flash expected = Ok facts ->
   bytes = canonical_table expected /\ table_layout (off + SECTOR_BYTES) flash expected /\
   facts = mkFacts (sha256_bytes bytes) TABLE_BYTES expected).
Proof.
  intros Hu. split; [apply verify_table_not_Stuck|]. intros Hv. by apply verify_sound in Hv as (? & ? & _ & ?).
Qed.

Lemma encoded_table_verifies_witness :
  match @encode_esp_partition_source toy_sha256 toy_md5 demo_csv
          (@sha256_bytes toy_sha256 demo_csv) 0x8000 demo_flash with
  | Ok a => @verify_esp_partition_table toy_sha256 toy_md5 (artifact_bytes a) 0x8000 demo_flash
              (partitions (artifact_source a)) =
            Ok (mkFacts (artifact_sha256 a) TABLE_BYTES (partitions (artifact_source a)))
  | _ => False
  end.
Proof.
  destruct (@encode_esp_partition_source toy_sha256 toy_md5 demo_csv
    (@sha256_bytes toy_sha256 demo_csv) 0x8000 demo_flash) as [a| |] eqn:E;
    [exact (@encoded_table_verifies toy_sha256 toy_md5 demo_csv _ 0x8000 demo_flash a E)|
     exfalso; revert E; by vm_compute..].
Defined.

Definition demo_table : list Z := @canonical_table toy_md5 demo_parts.

Lemma verified_table_is_canonical_witness :
  table_layout (0x8000 + SECTOR_BYTES) demo_flash demo_parts.
Proof.
  apply (@verified_table_is_canonical toy_sha256 toy_md5 demo_table 0x8000 demo_flash demo_parts
    (mkFacts (@sha256_bytes toy_sha256 demo_table) TABLE_BYTES demo_parts)).
  - apply forallb_u8. by vm_compute.
  - by vm_compute.
Defined.
