(* ===== verification/EspImage.v ===== *)
(** * EspImage: ESP32 v1 application images

    Models [crates/aros-verify/src/esp_image.rs]: the complete container check
    of an image with an appended SHA-256, against a policy taken from source. *)

From S2P Require Import Prelude Bytes Text Digest.

Record EspImagePolicy := mkPolicy
  { chip_id : Z; revision_min : Z; revision_max : Z; flash_bytes : Z; maximum_image_bytes : Z }.
Record EspImageSegment := mkSegment { load_address : Z; file_offset : Z; size_bytes : Z }.
Record EspImageFacts := mkImageFacts
  { image_sha256 : list Z; image_size : Z; image_chip : Z; image_rev_min : Z; image_rev_max : Z;
    image_flash : Z; entry_point : Z; segments : list EspImageSegment }.

Inductive image_error :=
| BadPolicy | ImageSize | BadHeader | NoDigestFlag | ChipDiffers | RevisionDiffers
| BadCapacity | CapacityDiffers | HeaderOverflow | TruncatedHeader | UnalignedSegment
| PayloadOverflow | TruncatedPayload | AddressSpace | SegmentsOverlap
| DigestOverflow | ChecksumDiffers | TruncatedPadding | NonzeroPadding | TrailingImageData
| ImageDigestDiffers | EntryOutside.

(** [bytes[i]] after the length check. *)
Definition byte_at (bytes : list Z) (i : Z) : res image_error Z := or_stuck (get_at bytes i).
(** [uN::from_le_bytes] of [n] bytes at a checked offset. *)
Definition le_at (bytes : list Z) (i n : Z) : res image_error Z :=
  w ← or_stuck (get_range bytes i (i + n)); Ok (of_le w).

Definition overlaps (address address_end : Z) (previous : EspImageSegment) : bool :=
  let previous_start := load_address previous in
  let previous_end := previous_start + size_bytes previous in
  negb (previous_start =? 0) && (address <? previous_end) && (previous_start <? address_end).

(** Loop state: [cursor], [checksum], [segments]. *)
Definition segment_state : Type := Z * Z * list EspImageSegment.

(** One round of [for _ in 0..bytes[1]]. *)
Definition read_segment (bytes : list Z) (st : segment_state) : res image_error segment_state :=
  let '(cursor, checksum, segs) := st in
  header_end ← ok_or (checked_add usize_max cursor 8) HeaderOverflow;
  header ← ok_or (get_range bytes cursor header_end) TruncatedHeader;
  address ← le_at header 0 4;
  length ← le_at header 4 4;
  _ ← refuse (negb (length mod 4 =? 0)) UnalignedSegment;
  stop ← ok_or (checked_add usize_max header_end length) PayloadOverflow;
  payload ← ok_or (get_range bytes header_end stop) TruncatedPayload;
  let address_end := address + length in
  _ ← refuse (2 ^ 32 <? address_end) AddressSpace;
  _ ← refuse (negb (address =? 0) && negb (length =? 0)
              && existsb (overlaps address address_end) segs) SegmentsOverlap;
  let checksum := fold_left Z.lxor payload checksum in
  Ok (stop, checksum, segs ++ [mkSegment address header_end length]).

Fixpoint read_segments (n : nat) (bytes : list Z) (st : segment_state)
  : res image_error segment_state :=
  match n with
  | O => Ok st
  | S n => st ← read_segment bytes st; read_segments n bytes st
  end.

(** [digest.as_bytes().as_chunks::<2>().0.iter().zip(tail).all(..)] *)
Fixpoint digest_matches (hex tail : list Z) : bool :=
  match hex, tail with
  | h :: l :: hex, byte :: tail =>
    (h =? hex_digit (Z.shiftr byte 4)) && (l =? hex_digit (Z.land byte 15))
    && digest_matches hex tail
  | _, _ => true
  end.

Definition contains_entry (entry : Z) (s : EspImageSegment) : bool :=
  negb (load_address s =? 0) && (load_address s <=? entry)
  && (entry <? load_address s + size_bytes s).

Section verify.
Context {H : Sha256}.

(** The header checks before the segment loop; yields the entry point. *)
Definition verify_header (bytes : list Z) (policy : EspImagePolicy) : res image_error Z :=
  _ ← refuse ((revision_max policy <? revision_min policy) || (flash_bytes policy =? 0)
              || (maximum_image_bytes policy =? 0)
              || (flash_bytes policy <? maximum_image_bytes policy)) BadPolicy;
  _ ← refuse ((len bytes <? 24) || (maximum_image_bytes policy <? len bytes)) ImageSize;
  b0 ← byte_at bytes 0;
  b1 ← byte_at bytes 1;
  b2 ← byte_at bytes 2;
  _ ← refuse (negb (b0 =? 0xe9) || negb (in_range 1 16 b1) || (3 <? b2)) BadHeader;
  b23 ← byte_at bytes 23;
  reserved ← or_stuck (get_range bytes 19 23);
  _ ← refuse (negb (b23 =? 1) || negb (eqb_list reserved [0; 0; 0; 0])) NoDigestFlag;
  chip ← le_at bytes 12 2;
  rev_min ← le_at bytes 15 2;
  rev_max ← le_at bytes 17 2;
  _ ← refuse (negb (chip =? chip_id policy)) ChipDiffers;
  _ ← refuse (negb (rev_min =? revision_min policy) || negb (rev_max =? revision_max policy))
        RevisionDiffers;
  b3 ← byte_at bytes 3;
  let size_code := Z.shiftr b3 4 in
  _ ← refuse (7 <? size_code) BadCapacity;
  let flash := Z.shiftl (Z.shiftl 1 20) size_code in
  _ ← refuse (negb (flash =? flash_bytes policy)) CapacityDiffers;
  le_at bytes 4 4.

(** The checks behind the last segment. *)
Definition verify_trailer (bytes : list Z) (cursor checksum : Z) : res image_error unit :=
  let checksum_offset := Z.lor cursor 15 in
  digest_offset ← ok_or (checked_add usize_max checksum_offset 1) DigestOverflow;
  _ ← refuse (negb (bool_decide (get_at bytes checksum_offset = Some checksum))) ChecksumDiffers;
  padding ← ok_or (get_range bytes cursor checksum_offset) TruncatedPadding;
  _ ← refuse (existsb (fun b => negb (b =? 0)) padding) NonzeroPadding;
  total ← ok_or (checked_add usize_max digest_offset 32) DigestOverflow;
  _ ← refuse (negb (len bytes =? total)) TrailingImageData;
  hashed ← or_stuck (get_range bytes 0 digest_offset);
  tail ← or_stuck (get_range bytes digest_offset (len bytes));
  refuse (negb (digest_matches (sha256_bytes hashed) tail)) ImageDigestDiffers.

Definition verify_esp_image (bytes : list Z) (policy : EspImagePolicy)
  : res image_error EspImageFacts :=
  entry ← verify_header bytes policy;
  count ← byte_at bytes 1;
  '(cursor, checksum, segs) ← read_segments (Z.to_nat count) bytes (24, 0xef, []);
  _ ← verify_trailer bytes cursor checksum;
  _ ← refuse (negb (existsb (contains_entry entry) segs)) EntryOutside;
  Ok (mkImageFacts (sha256_bytes bytes) (len bytes) (chip_id policy) (revision_min policy)
        (revision_max policy) (flash_bytes policy) entry segs).
End verify.

(** ** What an accepted image is *)
Definition segment_bytes (s : Z * list Z) : list Z :=
  to_le 4 s.1 ++ to_le 4 (len s.2) ++ s.2.
Definition body_bytes (segs : list (Z * list Z)) : list Z := flat_map segment_bytes segs.
Definition xor_sum (segs : list (Z * list Z)) : Z :=
  fold_left Z.lxor (flat_map snd segs) 0xef.

(** The load segments at their file offsets. *)
Fixpoint place (cursor : Z) (segs : list (Z * list Z)) : list EspImageSegment :=
  match segs with
  | [] => []
  | (a, d) :: segs => mkSegment a (cursor + 8) (len d) :: place (cursor + 8 + len d) segs
  end.

(** [s] may follow [p]: a non-empty mapped segment does not meet an earlier mapped one. *)
Definition load_disjoint (p s : Z * list Z) : Prop :=
  s.1 <> 0 -> s.2 <> [] -> p.1 <> 0 -> p.1 + len p.2 <= s.1 \/ s.1 + len s.2 <= p.1.

Record segment_ok (s : Z * list Z) : Prop := {
  seg_address : 0 <= s.1 <= u32_max;
  seg_words : len s.2 mod 4 = 0;
  seg_space : s.1 + len s.2 <= 2 ^ 32;
  seg_length : len s.2 <= u32_max;
}.
Record segments_ok (segs : list (Z * list Z)) : Prop := {
  segs_each : Forall segment_ok segs;
  segs_disjoint : ForallOrdPairs load_disjoint segs;
}.

(** The 24-byte header for a policy. *)
Record header_ok (hdr : list Z) (policy : EspImagePolicy) (count entry : Z) : Prop := {
  hdr_len : len hdr = 24;
  hdr_magic : get_at hdr 0 = Some 0xe9;
  hdr_count : get_at hdr 1 = Some count /\ 1 <= count <= 16;
  hdr_mode : exists m, get_at hdr 2 = Some m /\ m <= 3;
  hdr_capacity : exists c, get_at hdr 3 = Some c /\ Z.shiftr c 4 <= 7 /\
                 flash_bytes policy = 2 ^ (20 + Z.shiftr c 4);
  hdr_entry : of_le (slice hdr 4 8) = entry;
  hdr_chip : of_le (slice hdr 12 14) = chip_id policy;
  hdr_rev_min : of_le (slice hdr 15 17) = revision_min policy;
  hdr_rev_max : of_le (slice hdr 17 19) = revision_max policy;
  hdr_reserved : slice hdr 19 23 = [0; 0; 0; 0];
  hdr_appended : get_at hdr 23 = Some 1;
}.

Definition policy_ok (policy : EspImagePolicy) : Prop :=
  revision_min policy <= revision_max policy /\ flash_bytes policy <> 0 /\
  maximum_image_bytes policy <> 0 /\ maximum_image_bytes policy <= flash_bytes policy.

(** Header and segments, zero padding to the last byte of a 16-byte block, the
    XOR checksum in that byte. *)
Definition signed_bytes (hdr : list Z) (segs : list (Z * list Z)) : list Z :=
  let body := hdr ++ body_bytes segs in
  body ++ fill (15 - len body mod 16) 0 ++ [xor_sum segs].

(** ** Generic facts *)
Lemma lor_15 c : Z.lor c 15 = c + (15 - c mod 16).
Proof.
  assert (Z.lor c 15 = Z.ldiff c (Z.ones 4) + Z.ones 4) as ->.
  { rewrite Z.add_nocarry_lxor, Z.lxor_lor; [|apply Z.bits_inj_0..];
      [apply Z.bits_inj'|..]; intros n; intros;
      rewrite ?Z.land_spec, ?Z.lor_spec, ?Z.ldiff_spec;
      change 15 with (Z.ones 4); by destruct (Z.testbit c n), (Z.testbit (Z.ones 4) n). }
  rewrite Z.ldiff_ones_r, Z.shiftl_mul_pow2, Z.shiftr_div_pow2 by lia.
  change (2 ^ 4) with 16. change (Z.ones 4) with 15. pose proof (Z.div_mod c 16). lia.
Qed.

Lemma le_at_Ok bytes i n v :
  le_at bytes i n = Ok v <-> 0 <= i /\ i <= i + n /\ i + n <= len bytes /\ v = of_le (slice bytes i (i + n)).
Proof.
  unfold le_at. rewrite bind_Ok. setoid_rewrite or_stuck_Ok. setoid_rewrite get_range_Some.
  naive_solver.
Qed.

Lemma le_at_mid p v q i : i = len p -> 0 <= v <= u32_max -> le_at (p ++ to_le 4 v ++ q) i 4 = Ok v.
Proof.
  intros -> Hv. unfold le_at. rewrite (get_range_app_mid p (to_le 4 v)) by by rewrite ?len_to_le.
  cbn. by rewrite of_to_le_u32.
Qed.

(** ** One segment *)
Section segment.
Variable bytes : list Z.
Hypothesis Hu8 : Forall is_u8 bytes.

Lemma overlaps_false a e p :
  overlaps a e p = false <->
  (load_address p <> 0 -> load_address p + size_bytes p <= a \/ e <= load_address p).
Proof.
  unfold overlaps. rewrite !andb_false_iff, negb_false_iff, Z.eqb_eq, !Z.ltb_ge.
  destruct (decide (load_address p = 0)); lia.
Qed.

Lemma read_segment_sound cursor checksum segs st :
  0 <= cursor -> read_segment bytes (cursor, checksum, segs) = Ok st ->
  exists s, segment_ok s /\ st = (cursor + 8 + len s.2, fold_left Z.lxor s.2 checksum,
                                 segs ++ [mkSegment s.1 (cursor + 8) (len s.2)]) /\
    slice bytes cursor (cursor + 8 + len s.2) = segment_bytes s /\
    cursor + 8 + len s.2 <= len bytes /\
    (s.1 <> 0 -> s.2 <> [] -> Forall (fun p => overlaps s.1 (s.1 + len s.2) p = false) segs).
Proof.
  intros Hc. unfold read_segment.
  intros (he & [-> _]%ok_or_Ok%checked_add_Some & Hr)%bind_Ok.
  apply bind_Ok in Hr as (header & (_ & _ & Hhl & ->)%ok_or_Ok%get_range_Some & Hr).
  apply bind_Ok in Hr as (address & (_ & _ & _ & Ha)%le_at_Ok & Hr).
  apply bind_Ok in Hr as (length & (_ & _ & _ & Hl)%le_at_Ok & [Hw Hr]%refuse_bind_Ok).
  apply bind_Ok in Hr as (stop & [-> _]%ok_or_Ok%checked_add_Some & Hr).
  apply bind_Ok in Hr as (payload & Hp%ok_or_Ok & [Hsp [Hov Hr]%refuse_bind_Ok]%refuse_bind_Ok).
  cbn zeta in Hr. injection Hr as <-. bool_prop.
  pose proof (get_range_len _ _ _ _ Hp) as Hpl. apply get_range_Some in Hp as (_ & Hle & Hend & Hp).
  rewrite slice_slice in Ha, Hl by lia. rewrite Z.add_0_r in Ha. replace (cursor + (0 + 4)) with (cursor + 4) in Ha by lia.
  replace (cursor + (4 + 4)) with (cursor + 8) in Hl by lia.
  destruct (u32_slice bytes cursor Hu8 ltac:(lia) ltac:(lia)) as [Hau Hab].
  destruct (u32_slice bytes (cursor + 4) Hu8 ltac:(lia) ltac:(lia)) as [Hlu Hlb].
  replace (cursor + 4 + 4) with (cursor + 8) in Hlu, Hlb by lia.
  rewrite <- Ha in Hau, Hab. rewrite <- Hl in Hlu, Hlb.
  assert (len payload = length) as Hpay by lia.
  exists (address, payload). cbn [fst snd]. rewrite Hpay. split_and!; try done.
  - split; cbn; rewrite ?Hpay; lia.
  - unfold segment_bytes. cbn [fst snd]. rewrite Hpay, Hab, Hlb, Hp.
    rewrite (slice_split _ cursor (cursor + 4)), (slice_split _ (cursor + 4) (cursor + 8)) by lia. done.
  - intros Ha0 Hp0. apply existsb_false_Forall. rewrite !andb_false_iff, !negb_false_iff, !Z.eqb_eq in Hov.
    destruct Hov as [[?|Hl0]|?]; [done| |done]. rewrite <- Hpay in Hl0. by apply len_0 in Hl0.
Qed.
End segment.

Lemma len_segment_bytes s : len (segment_bytes s) = 8 + len s.2.
Proof. unfold segment_bytes. rewrite !len_app, !len_to_le. lia. Qed.

Lemma read_segment_complete pre s post checksum segs :
  segment_ok s -> len (pre ++ segment_bytes s ++ post) <= usize_max ->
  (s.1 <> 0 -> s.2 <> [] -> Forall (fun p => overlaps s.1 (s.1 + len s.2) p = false) segs) ->
  read_segment (pre ++ segment_bytes s ++ post) (len pre, checksum, segs) =
  Ok (len pre + 8 + len s.2, fold_left Z.lxor s.2 checksum,
      segs ++ [mkSegment s.1 (len pre + 8) (len s.2)]).
Proof.
  destruct s as [a d]. cbn [fst snd]. intros [Ha Hw Hsp Hlen] Hmax Hov. cbn [fst snd] in *.
  pose proof (len_nonneg pre). pose proof (len_nonneg d). pose proof (len_nonneg post).
  assert (len (to_le 4 a ++ to_le 4 (len d)) = 8) as Eh by by rewrite len_app, !len_to_le.
  rewrite !len_app, len_segment_bytes in Hmax. cbn [snd] in Hmax. unfold read_segment.
  step_by ltac:(apply ok_or_Ok, checked_add_Some; split; [done|lia]).
  unfold segment_bytes. cbn [fst snd]. rewrite (app_assoc (to_le 4 a)), <- (app_assoc _ d).
  step_by ltac:(apply ok_or_Ok, get_range_app_mid; lia).
  step_by ltac:(by apply (le_at_mid [] a)).
  step_by ltac:(rewrite <- (app_nil_r (to_le 4 (len d))); by apply (le_at_mid (to_le 4 a) (len d))).
  guard_by ltac:(by rewrite Hw).
  step_by ltac:(apply ok_or_Ok, checked_add_Some; split; [done|lia]).
  step_by ltac:(apply ok_or_Ok; rewrite app_assoc; apply get_range_app_mid; rewrite len_app; lia).
  cbv zeta. guard_by ltac:(apply Z.ltb_ge; lia).
  guard_by ltac:(rewrite !andb_false_iff, !negb_false_iff, !Z.eqb_eq, len_0;
    destruct (decide (a = 0)); [by auto|]; destruct (decide (d = [])); [by auto|]; right;
    apply existsb_false_Forall; by apply Hov).
  done.
Qed.

(** ** The segment loop *)
Lemma place_app segs s cursor : place cursor (segs ++ [s]) =
  place cursor segs ++ [mkSegment s.1 (cursor + len (body_bytes segs) + 8) (len s.2)].
Proof.
  revert cursor; induction segs as [|[a d] segs IH]; intros cursor; cbn [app place].
  - destruct s. cbn. by rewrite Z.add_0_r.
  - rewrite IH. unfold body_bytes. cbn [flat_map]. rewrite len_app, len_segment_bytes.
    cbn [app snd]. do 4 f_equal. lia.
Qed.

Lemma place_disjoint segs s cursor :
  (s.1 <> 0 -> s.2 <> [] ->
   Forall (fun p => overlaps s.1 (s.1 + len s.2) p = false) (place cursor segs)) <->
  Forall (fun p => load_disjoint p s) segs.
Proof.
  revert cursor; induction segs as [|[a d] segs IH]; intros cursor.
  - split; intros; constructor.
  - rewrite Forall_cons, <- (IH (cursor + 8 + len d)). cbn [place]. setoid_rewrite Forall_cons.
    rewrite overlaps_false. cbn [load_address size_bytes]. unfold load_disjoint. cbn [fst snd].
    naive_solver.
Qed.

Lemma segments_ok_nil : segments_ok [].
Proof. split; [apply List.Forall_nil|apply List.FOP_nil]. Qed.

Lemma segments_ok_snoc segs s : segments_ok (segs ++ [s]) <->
  segments_ok segs /\ segment_ok s /\ Forall (fun p => load_disjoint p s) segs.
Proof.
  split.
  - intros [He Hd]. rewrite Forall_app, Forall_singleton in He. apply ForallOrdPairs_snoc in Hd.
    destruct He, Hd. by split_and!; [split|..].
  - intros ([He Hd] & Hs & Hp). split; [by rewrite Forall_app, Forall_singleton|].
    by apply ForallOrdPairs_snoc.
Qed.

Lemma body_bytes_snoc segs s : body_bytes (segs ++ [s]) = body_bytes segs ++ segment_bytes s.
Proof. unfold body_bytes. rewrite flat_map_app. cbn. by rewrite app_nil_r. Qed.

Lemma xor_sum_snoc segs s : xor_sum (segs ++ [s]) = fold_left Z.lxor s.2 (xor_sum segs).
Proof. unfold xor_sum. rewrite flat_map_app, fold_left_app. cbn. by rewrite app_nil_r. Qed.

(** The state after reading exactly [segs]. *)
Definition state_of (segs : list (Z * list Z)) : segment_state :=
  (24 + len (body_bytes segs), xor_sum segs, place 24 segs).

Lemma state_of_snoc segs s : state_of (segs ++ [s]) =
  (24 + len (body_bytes segs) + 8 + len s.2, fold_left Z.lxor s.2 (xor_sum segs),
   place 24 segs ++ [mkSegment s.1 (24 + len (body_bytes segs) + 8) (len s.2)]).
Proof.
  unfold state_of. rewrite body_bytes_snoc, xor_sum_snoc, place_app, len_app, len_segment_bytes.
  do 2 f_equal. lia.
Qed.

Lemma read_segments_sound n bytes : Forall is_u8 bytes -> forall segs st,
  segments_ok segs -> slice bytes 24 (24 + len (body_bytes segs)) = body_bytes segs ->
  24 + len (body_bytes segs) <= len bytes ->
  read_segments n bytes (state_of segs) = Ok st ->
  exists segs', length segs' = (length segs + n)%nat /\ st = state_of segs' /\ segments_ok segs' /\
    slice bytes 24 (24 + len (body_bytes segs')) = body_bytes segs' /\
    24 + len (body_bytes segs') <= len bytes.
Proof.
  intros Hu. induction n as [|n IH]; intros segs st Hok Hs Hlen; cbn [read_segments].
  - intros [= <-]. exists segs. by rewrite Nat.add_0_r.
  - intros (st1 & Hr & Hrest)%bind_Ok. pose proof (len_nonneg (body_bytes segs)).
    apply read_segment_sound in Hr as (s & Hsok & -> & Hsl & Hbnd & Hov); [|done|lia].
    rewrite <- state_of_snoc in Hrest. apply IH in Hrest as (segs' & Hl & Hsegs').
    + exists segs'. rewrite length_app in Hl. cbn in Hl. split; [lia|done].
    + rewrite segments_ok_snoc. by rewrite <- (place_disjoint segs s 24).
    + rewrite body_bytes_snoc, len_app, len_segment_bytes.
      rewrite (slice_split _ 24 (24 + len (body_bytes segs))) by (pose proof (len_nonneg s.2); lia).
      rewrite Hs. f_equal. rewrite <- Hsl. f_equal. lia.
    + rewrite body_bytes_snoc, len_app, len_segment_bytes. lia.
Qed.

Lemma read_segments_complete more : forall hdr segs post,
  len hdr = 24 -> len (hdr ++ body_bytes (segs ++ more) ++ post) <= usize_max ->
  segments_ok (segs ++ more) ->
  read_segments (length more) (hdr ++ body_bytes (segs ++ more) ++ post) (state_of segs) =
  Ok (state_of (segs ++ more)).
Proof.
  induction more as [|s more IH]; intros hdr segs post Hh Hmax Hok; cbn [read_segments length].
  - by rewrite app_nil_r.
  - specialize (IH hdr (segs ++ [s]) post Hh). rewrite <- app_assoc in IH. cbn [app] in IH.
    rewrite <- IH by done. rewrite state_of_snoc.
    assert (segments_ok (segs ++ [s])) as Hpre.
    { destruct Hok as [He Hd]. change (s :: more) with ([s] ++ more) in *. rewrite app_assoc in He, Hd.
      apply Forall_app in He as [He _]. split; [done|].
      rewrite ForallOrdPairs_lookup in *. intros i j x y Hij Hi Hj.
      apply (Hd i j x y Hij); by apply lookup_app_l_Some. }
    apply segments_ok_snoc in Hpre as (_ & Hs & Hdis).
    replace (hdr ++ body_bytes (segs ++ s :: more) ++ post) with
      ((hdr ++ body_bytes segs) ++ segment_bytes s ++ body_bytes more ++ post) in *.
    2:{ unfold body_bytes. rewrite flat_map_app. cbn [flat_map]. by rewrite <- !app_assoc. }
    unfold state_of at 1. rewrite <- Hh at 1. rewrite <- len_app.
    rewrite read_segment_complete; [|done|done|by apply place_disjoint]. cbn [mbind res_bind].
    by rewrite len_app, Hh.
Qed.

(** ** The appended digest *)
Lemma hex_digit_inj n m : 0 <= n < 16 -> 0 <= m < 16 -> hex_digit n = hex_digit m -> n = m.
Proof.
  assert (forall k, 0 <= k < 16 -> default 0 (to_digit 16 (hex_digit k)) = k) as Hdec.
  { intros k Hk. assert (k ∈ seqZ 0 16) as Hin by (apply elem_of_seqZ; lia).
    assert (forallb (fun k => default 0 (to_digit 16 (hex_digit k)) =? k) (seqZ 0 16) = true) as Hall
      by by vm_compute.
    rewrite forallb_forall in Hall. apply Z.eqb_eq, Hall. by apply list_elem_of_In. }
  intros Hn Hm E. by rewrite <- (Hdec n), <- (Hdec m), E.
Qed.

Lemma byte_nibbles b : b = 16 * Z.shiftr b 4 + Z.land b 15.
Proof.
  rewrite Z.shiftr_div_pow2 by lia. change 15 with (Z.ones 4). rewrite Z.land_ones by lia.
  change (2 ^ 4) with 16. pose proof (Z.div_mod b 16). lia.
Qed.

Lemma digest_matches_iff raw tail : Forall is_u8 raw -> Forall is_u8 tail -> len raw = len tail ->
  digest_matches (digest_from_bytes raw) tail = true <-> tail = raw.
Proof.
  intros Hr. revert tail. induction Hr as [|r raw Hr1 Hr IH]; intros tail Ht Hl.
  - rewrite len_nil in Hl. symmetry in Hl. apply len_0 in Hl as ->. done.
  - destruct tail as [|b tail]; [rewrite len_cons, len_nil in Hl; pose proof (len_nonneg raw); lia|].
    apply Forall_cons in Ht as [Hb Ht]. rewrite !len_cons in Hl.
    unfold digest_from_bytes in *. cbn [flat_map app digest_matches].
    rewrite !andb_true_iff, !Z.eqb_eq, IH by (done || lia).
    destruct (nibbles r Hr1), (nibbles b Hb). split; [|by intros [= -> ->]].
    intros [[E1%hex_digit_inj E2%hex_digit_inj] ->]; [|done..].
    f_equal. rewrite (byte_nibbles r), (byte_nibbles b). lia.
Qed.

(** ** The trailer *)
Section trailer.
Context {H : Sha256}.

Definition trailer (body : list Z) (checksum : Z) : list Z :=
  let signed := body ++ fill (15 - len body mod 16) 0 ++ [checksum] in
  signed ++ sha256_raw signed.

Lemma len_trailer body checksum : len (trailer body checksum) = Z.lor (len body) 15 + 33.
Proof.
  pose proof (Z.mod_pos_bound (len body) 16). unfold trailer.
  rewrite !len_app, len_fill, sha256_raw_len, lor_15, len_cons, len_nil by lia. lia.
Qed.

Lemma verify_trailer_sound bytes cursor checksum :
  Forall is_u8 bytes -> len bytes <= usize_max -> 0 <= cursor <= len bytes ->
  verify_trailer bytes cursor checksum = Ok tt ->
  bytes = trailer (slice bytes 0 cursor) checksum.
Proof.
  intros Hu Hmax Hc.
  assert (len (slice bytes 0 cursor) = cursor) as Hsl by (rewrite len_slice by lia; lia).
  pose proof (Z.mod_pos_bound cursor 16 ltac:(lia)) as Hmod. pose proof (lor_15 cursor) as Hlor.
  unfold verify_trailer. remember (Z.lor cursor 15) as co eqn:Hco.
  intros (d & [-> _]%ok_or_Ok%checked_add_Some & Hv)%bind_Ok.
  apply refuse_bind_Ok in Hv as [Hchk Hv]. bool_prop. apply slice_one in Hchk.
  apply bind_Ok in Hv as (pad & Hpad%ok_or_Ok & [Hz%existsb_fill Hv]%refuse_bind_Ok).
  apply bind_Ok in Hv as (total & [-> _]%ok_or_Ok%checked_add_Some & [Hl Hv]%refuse_bind_Ok). bool_prop.
  apply bind_Ok in Hv as (hashed & Hh%or_stuck_Ok & (tail & Ht%or_stuck_Ok & Hd%refuse_Ok)%bind_Ok).
  pose proof (get_range_len _ _ _ _ Hpad). pose proof (get_range_len _ _ _ _ Ht).
  apply get_range_Some in Hpad as (_ & _ & _ & Hpad), Hh as (_ & _ & _ & Hh), Ht as (_ & _ & _ & Ht).
  bool_prop. apply digest_matches_iff in Hd; [|apply sha256_raw_u8|subst tail; by apply Forall_slice
    |rewrite sha256_raw_len; lia].
  assert (hashed = slice bytes 0 cursor ++ fill (15 - cursor mod 16) 0 ++ [checksum]) as Hhash.
  { rewrite Hh, (slice_split _ 0 cursor), (slice_split _ cursor co) by lia.
    rewrite Hchk, <- Hpad, Hz. do 3 f_equal. lia. }
  unfold trailer. rewrite Hsl, <- Hhash, <- Hd, Hh, Ht.
  rewrite <- slice_split by lia. by rewrite slice_full.
Qed.

Lemma verify_trailer_complete bytes cursor checksum :
  Forall is_u8 bytes -> len bytes <= usize_max -> 0 <= cursor <= len bytes ->
  bytes = trailer (slice bytes 0 cursor) checksum ->
  verify_trailer bytes cursor checksum = Ok tt.
Proof.
  intros Hu Hmax Hc.
  assert (len (slice bytes 0 cursor) = cursor) as Hsl by (rewrite len_slice by lia; lia).
  pose proof (Z.mod_pos_bound cursor 16 ltac:(lia)) as Hmod. pose proof (lor_15 cursor) as Hlor.
  unfold verify_trailer. remember (Z.lor cursor 15) as co eqn:Hco.
  intros Hb. assert (len bytes = co + 33) as Hl.
  { rewrite Hb, len_trailer, Hsl. by subst. }
  remember (slice bytes 0 cursor) as body eqn:Hbody. unfold trailer in Hb. rewrite Hsl in Hb.
  remember (body ++ fill (15 - cursor mod 16) 0 ++ [checksum]) as signed eqn:Hsig.
  assert (len signed = co + 1) as Hsl2.
  { subst signed. rewrite !len_app, len_fill, len_cons, len_nil by lia. lia. }
  step_by ltac:(apply ok_or_Ok, checked_add_Some; split; [done|lia]).
  guard_by ltac:(apply negb_false_iff, bool_decide_eq_true_2; rewrite Hb, get_at_app_l by lia;
    rewrite Hsig, app_assoc; apply get_at_mid; rewrite len_app, len_fill; lia).
  step_by ltac:(apply ok_or_Ok; rewrite Hb, Hsig, <- !app_assoc; apply get_range_app_mid;
    rewrite ?len_fill; lia).
  guard_by ltac:(apply fill_existsb).
  step_by ltac:(apply ok_or_Ok, checked_add_Some; split; [done|lia]).
  guard_by ltac:(apply negb_false_iff, Z.eqb_eq; lia).
  step_by ltac:(apply or_stuck_Ok; rewrite Hb; by apply (get_range_app_mid [] signed)).
  step_by ltac:(apply or_stuck_Ok; rewrite Hl, Hb, <- (app_nil_r (sha256_raw signed));
    apply get_range_app_mid; [done|rewrite sha256_raw_len; lia]).
  unfold refuse, sha256_bytes. by rewrite (proj2 (digest_matches_iff _ _ (sha256_raw_u8 _) (sha256_raw_u8 _) eq_refl)).
Qed.
End trailer.

(** ** The header *)
Lemma byte_at_Ok bytes i v : byte_at bytes i = Ok v <-> get_at bytes i = Some v.
Proof. apply or_stuck_Ok. Qed.

Lemma flash_code c : 0 <= c -> Z.shiftl (Z.shiftl 1 20) c = 2 ^ (20 + c).
Proof. intros. by rewrite Z.shiftl_shiftl, Z.shiftl_1_l by lia. Qed.

Lemma policy_guard policy :
  (revision_max policy <? revision_min policy) || (flash_bytes policy =? 0)
  || (maximum_image_bytes policy =? 0) || (flash_bytes policy <? maximum_image_bytes policy) = false
  <-> policy_ok policy.
Proof. unfold policy_ok. rewrite !orb_false_iff, !Z.ltb_ge, !Z.eqb_neq. tauto. Qed.

(** Offsets below 24 only see the header. *)
Ltac in_header :=
  rewrite ?get_at_app_l, ?slice_app_l in * by lia.

Lemma verify_header_sound bytes policy entry : Forall is_u8 bytes ->
  verify_header bytes policy = Ok entry ->
  policy_ok policy /\ len bytes <= maximum_image_bytes policy /\
  exists hdr rest count, bytes = hdr ++ rest /\ header_ok hdr policy count entry.
Proof.
  intros Hu. unfold verify_header. rewrite !refuse_bind_Ok, policy_guard. intros (Hpol & Hsize & Hv).
  bool_prop. split; [done|]. split; [lia|].
  exists (slice bytes 0 24), (slice bytes 24 (len bytes)).
  assert (len (slice bytes 0 24) = 24) as Hl by (rewrite len_slice; lia).
  assert (bytes = slice bytes 0 24 ++ slice bytes 24 (len bytes)) as E
    by (rewrite <- slice_split by lia; by rewrite slice_full).
  assert (Forall is_u8 (slice bytes 0 24)) as Huh by by apply Forall_slice.
  rewrite E in Hv. clear Hu.
  revert Hv Hl Huh E. generalize (slice bytes 0 24) as hdr, (slice bytes 24 (len bytes)) as rest.
  intros hdr rest Hv Hl Huh E.
  repeat match goal with
  | H : (_ ← refuse _ _; _) = Ok _ |- _ => apply refuse_bind_Ok in H as [? H]
  | H : mbind _ _ = Ok _ |- _ => apply bind_Ok in H as (? & ? & H)
  | H : byte_at _ _ = Ok _ |- _ => apply byte_at_Ok in H
  | H : le_at _ _ _ = Ok _ |- _ => apply le_at_Ok in H as (_ & _ & _ & H)
  | H : or_stuck _ = Ok _ |- _ => apply or_stuck_Ok, get_range_Some in H as (_ & _ & _ & H)
  end.
  cbn zeta in *. bool_prop. in_header. subst.
  repeat match goal with
  | H : in_range _ _ _ = true |- _ => apply in_range_true in H
  | H : eqb_list _ _ = true |- _ => apply eqb_list_true in H
  end.
  eexists. split; [done|]. split; try done; [by eauto|].
  match goal with H : get_at hdr 3 = Some ?c |- _ => exists c;
    pose proof (get_at_u8 _ _ _ Huh H) as [? ?] end.
  rewrite flash_code in * by (apply Z.shiftr_nonneg; lia). done.
Qed.

Lemma verify_header_complete hdr rest policy count entry : Forall is_u8 hdr ->
  policy_ok policy -> len (hdr ++ rest) <= maximum_image_bytes policy ->
  header_ok hdr policy count entry -> verify_header (hdr ++ rest) policy = Ok entry.
Proof.
  intros Hu Hpol Hmax [Hl H0 [H1 Hc] [m [H2 Hm] ] [c (H3 & Hc7 & Hcap)] He Hch Hr1 Hr2 Hres H23].
  pose proof (len_nonneg rest). rewrite len_app in Hmax. unfold verify_header.
  assert (forall i v, i < 24 -> get_at hdr i = Some v -> byte_at (hdr ++ rest) i = Ok v) as Hbyte
    by (intros; apply byte_at_Ok; in_header; done).
  assert (forall i n v, 0 <= i -> 0 <= n -> i + n <= 24 -> of_le (slice hdr i (i + n)) = v ->
    le_at (hdr ++ rest) i n = Ok v) as Hle
    by (intros; apply le_at_Ok; rewrite len_app; in_header; split_and!; done || lia).
  guard_by ltac:(by apply policy_guard).
  guard_by ltac:(rewrite len_app; apply orb_false_iff; rewrite !Z.ltb_ge; lia).
  step_by ltac:(apply Hbyte; [lia|done]). step_by ltac:(apply Hbyte; [lia|done]).
  step_by ltac:(apply Hbyte; [lia|done]).
  guard_by ltac:(rewrite !orb_false_iff, !negb_false_iff, in_range_true, Z.ltb_ge; done).
  step_by ltac:(apply Hbyte; [lia|done]).
  step_by ltac:(apply or_stuck_Ok, get_range_Some; rewrite len_app; in_header; split_and!; done || lia).
  guard_by done.
  step_by ltac:(apply Hle; done || lia). step_by ltac:(apply Hle; done || lia).
  step_by ltac:(apply Hle; done || lia).
  guard_by ltac:(by apply negb_false_iff, Z.eqb_eq).
  guard_by ltac:(apply orb_false_iff; by rewrite !negb_false_iff, !Z.eqb_eq).
  step_by ltac:(apply Hbyte; [lia|done]). cbv zeta. guard_by ltac:(by apply Z.ltb_ge).
  pose proof (get_at_u8 _ _ _ Hu H3) as [? ?].
  rewrite flash_code by (apply Z.shiftr_nonneg; lia).
  guard_by ltac:(by apply negb_false_iff, Z.eqb_eq).
  apply Hle; done || lia.
Qed.

(** ** The whole image *)
Section image.
Context {H : Sha256}.

(** An image: its bytes, for a header and load segments. *)
Definition image_bytes (hdr : list Z) (segs : list (Z * list Z)) : list Z :=
  signed_bytes hdr segs ++ sha256_raw (signed_bytes hdr segs).

Definition entry_mapped (entry : Z) (segs : list (Z * list Z)) : Prop :=
  Exists (fun s => s.1 <> 0 /\ s.1 <= entry < s.1 + len s.2) segs.

Record is_image (policy : EspImagePolicy) (bytes : list Z) (facts : EspImageFacts) : Prop := {
  img_policy : policy_ok policy;
  img_room : len bytes <= maximum_image_bytes policy;
  img_parts : exists hdr segs,
    bytes = image_bytes hdr segs /\
    header_ok hdr policy (len segs) (entry_point facts) /\
    segments_ok segs /\ entry_mapped (entry_point facts) segs /\
    facts = mkImageFacts (sha256_bytes bytes) (len bytes) (chip_id policy) (revision_min policy)
              (revision_max policy) (flash_bytes policy) (entry_point facts) (place 24 segs);
}.

Lemma entry_mapped_place entry segs cursor :
  existsb (contains_entry entry) (place cursor segs) = true <-> entry_mapped entry segs.
Proof.
  unfold entry_mapped. revert cursor; induction segs as [|[a d] segs IH]; intros cursor; cbn [place existsb].
  - split; [done|]. intros Hex. inversion Hex.
  - rewrite orb_true_iff, IH, Exists_cons. unfold contains_entry. cbn.
    rewrite !andb_true_iff, negb_true_iff, Z.eqb_neq, Z.leb_le, Z.ltb_lt. tauto.
Qed.

Lemma image_trailer hdr segs : image_bytes hdr segs = trailer (hdr ++ body_bytes segs) (xor_sum segs).
Proof. done. Qed.

Lemma policy_flash hdr policy count entry : header_ok hdr policy count entry -> Forall is_u8 hdr ->
  flash_bytes policy <= usize_max.
Proof.
  intros Hh Hu. destruct (hdr_capacity _ _ _ _ Hh) as (c & Hc & H7 & ->).
  pose proof (get_at_u8 _ _ _ Hu Hc) as [? ?].
  transitivity (2 ^ 27); [apply Z.pow_le_mono_r; lia|done].
Qed.

Lemma verify_image_sound bytes policy facts : Forall is_u8 bytes ->
  verify_esp_image bytes policy = Ok facts -> is_image policy bytes facts.
Proof.
  intros Hu. unfold verify_esp_image. intros (entry & Hh & Hv)%bind_Ok.
  apply verify_header_sound in Hh as (Hpol & Hmax & hdr & rest & count & E & Hhdr); [|done].
  apply bind_Ok in Hv as (n & Hn%byte_at_Ok & ([[cursor chk] sl] & Hr & Hv)%bind_Ok).
  apply bind_Ok in Hv as ([] & Ht & [Hent [= <-] ]%refuse_bind_Ok).
  apply negb_false_iff in Hent.
  assert (Forall is_u8 hdr) as Huh by (rewrite E in Hu; by apply Forall_app in Hu as [? _]).
  pose proof (policy_flash _ _ _ _ Hhdr Huh) as Hfl.
  destruct Hpol as (Hp1 & Hp2 & Hp3 & Hp4). pose proof (hdr_len _ _ _ _ Hhdr) as Hlen.
  pose proof (len_nonneg rest). assert (len bytes = 24 + len rest) as Hlb by (rewrite E, len_app; lia).
  rewrite E, get_at_app_l in Hn by lia. destruct (hdr_count _ _ _ _ Hhdr) as [Hcount Hcr].
  rewrite Hcount in Hn. injection Hn as <-.
  apply (read_segments_sound _ bytes Hu []) in Hr as (segs & Hsl & [= -> -> ->] & Hsegs & Hbody & Hend);
    [|apply segments_ok_nil|done|change (len (body_bytes [])) with 0; lia].
  pose proof (len_nonneg (body_bytes segs)).
  apply verify_trailer_sound in Ht; [|done|lia|lia].
  assert (slice bytes 0 (24 + len (body_bytes segs)) = hdr ++ body_bytes segs) as Hpre.
  { rewrite (slice_split _ 0 24) by lia. rewrite Hbody. f_equal. rewrite E, slice_app_l by lia.
    rewrite <- Hlen. apply slice_full. }
  rewrite Hpre, <- image_trailer in Ht. apply entry_mapped_place in Hent.
  assert (count = len segs) as -> by (cbn in Hsl; unfold len; lia).
  split; [done|done|]. exists hdr, segs. done.
Qed.

Lemma verify_image_complete bytes policy facts : Forall is_u8 bytes ->
  is_image policy bytes facts -> verify_esp_image bytes policy = Ok facts.
Proof.
  intros Hu [Hpol Hroom (hdr & segs & E & Hhdr & Hsegs & Hent & ->)]. cbn [entry_point] in *.
  remember (entry_point facts) as entry eqn:He. clear He.
  assert (exists rest, bytes = hdr ++ body_bytes segs ++ rest) as [rest Eb].
  { rewrite E. unfold image_bytes, signed_bytes. eexists. by rewrite <- !app_assoc. }
  assert (Forall is_u8 hdr) as Huh by (rewrite Eb in Hu; by apply Forall_app in Hu as [? _]).
  pose proof (policy_flash _ _ _ _ Hhdr Huh) as Hfl. pose proof (hdr_len _ _ _ _ Hhdr) as Hlen.
  assert (len bytes <= usize_max) as Hmax by (destruct Hpol as (?&?&?&?); lia).
  destruct (hdr_count _ _ _ _ Hhdr) as [Hcount Hcr]. unfold verify_esp_image.
  step_by ltac:(rewrite Eb; eapply verify_header_complete; [done|done|by rewrite <- Eb|done]).
  step_by ltac:(apply byte_at_Ok; rewrite Eb, get_at_app_l by lia; done).
  replace (Z.to_nat (len segs)) with (length segs) by (unfold len; lia).
  step_by ltac:(rewrite Eb in Hmax |- *; by apply (read_segments_complete segs hdr [] rest)).
  unfold state_of. cbn [app].
  step_by ltac:(apply verify_trailer_complete; [done|done| |];
    [rewrite Eb, !len_app; pose proof (len_nonneg (body_bytes segs)); pose proof (len_nonneg rest); lia|];
    rewrite E at 1; rewrite image_trailer; f_equal; rewrite Eb, app_assoc;
    symmetry; apply (slice_app_mid [] (hdr ++ body_bytes segs)); [done|rewrite len_app, Hlen; done]).
  guard_by ltac:(apply negb_false_iff; by apply entry_mapped_place). done.
Qed.
End image.

(** *** No panic *)
Lemma byte_at_not_Stuck bytes i : 0 <= i < len bytes -> byte_at bytes i <> Stuck.
Proof. intros. by apply or_stuck_not_Stuck, get_at_is_Some. Qed.
Lemma le_at_not_Stuck bytes i n : 0 <= i -> 0 <= n -> i + n <= len bytes -> le_at bytes i n <> Stuck.
Proof.
  intros. unfold le_at. not_stuck. apply or_stuck_not_Stuck, get_range_is_Some; lia.
Qed.

Lemma read_segment_total bytes cursor checksum segs : 0 <= cursor ->
  read_segment bytes (cursor, checksum, segs) <> Stuck.
Proof.
  intros Hc. unfold read_segment. not_stuck;
  repeat match goal with
  | H : ok_or (get_range _ _ _) _ = Ok _ |- _ => apply ok_or_Ok, get_range_len in H
  | H : ok_or (checked_add _ _ _) _ = Ok _ |- _ => apply ok_or_Ok, checked_add_Some in H as [-> _]
  end; apply le_at_not_Stuck; lia.
Qed.

Lemma read_segments_total n bytes : Forall is_u8 bytes -> forall segs,
  segments_ok segs -> slice bytes 24 (24 + len (body_bytes segs)) = body_bytes segs ->
  24 + len (body_bytes segs) <= len bytes ->
  read_segments n bytes (state_of segs) <> Stuck.
Proof.
  intros Hu. induction n as [|n IH]; intros segs Hok Hs Hlen; cbn [read_segments]; [done|].
  apply bind_not_Stuck; [apply read_segment_total; pose proof (len_nonneg (body_bytes segs)); lia|].
  intros st Hst. assert (read_segments 1 bytes (state_of segs) = Ok st) as H1
    by (cbn [read_segments]; by rewrite Hst).
  apply (read_segments_sound 1 bytes Hu segs) in H1 as (segs' & _ & -> & ? & ? & ?); auto.
Qed.

Lemma verify_header_total {H : Sha256} bytes policy : verify_header bytes policy <> Stuck.
Proof.
  unfold verify_header. apply bind_not_Stuck; [auto with aros|intros _ _].
  apply bind_not_Stuck; [auto with aros|].
  intros [] Hs. apply refuse_Ok, orb_false_iff in Hs as [Hs _]. bool_prop.
  not_stuck; try (apply byte_at_not_Stuck; lia); try (apply le_at_not_Stuck; lia);
    apply or_stuck_not_Stuck, get_range_is_Some; lia.
Qed.

Lemma verify_trailer_total {H : Sha256} bytes cursor checksum : 0 <= cursor ->
  verify_trailer bytes cursor checksum <> Stuck.
Proof.
  intros Hc. pose proof (Z.mod_pos_bound cursor 16 ltac:(lia)). unfold verify_trailer.
  rewrite lor_15. not_stuck;
  repeat match goal with
  | H : ok_or (checked_add _ _ _) _ = Ok _ |- _ => apply ok_or_Ok, checked_add_Some in H as [-> _]
  | H : refuse (negb (len _ =? _)) _ = Ok _ |- _ => apply refuse_Ok, negb_false_iff, Z.eqb_eq in H
  end; apply or_stuck_not_Stuck, get_range_is_Some; lia.
Qed.

(** ** Claims *)

(** No header index, slice or offset computation goes out of range. *)
Lemma verify_image_not_Stuck {H : Sha256} bytes policy :
  Forall is_u8 bytes -> verify_esp_image bytes policy <> Stuck.
Proof.
  intros Hu. unfold verify_esp_image.
  apply bind_not_Stuck; [apply verify_header_total|]. intros entry Hh.
  apply verify_header_sound in Hh as (_ & _ & hdr & rest & count & E & Hhdr); [|done].
  pose proof (hdr_len _ _ _ _ Hhdr) as Hl. pose proof (len_nonneg rest).
  assert (24 <= len bytes) as Hlb by (rewrite E, len_app; lia).
  apply bind_not_Stuck; [apply byte_at_not_Stuck; lia|]. intros n _.
  assert (24 + len (body_bytes []) <= len bytes) as Hb0 by (change (len (body_bytes [])) with 0; lia).
  apply bind_not_Stuck; [by apply (read_segments_total _ bytes Hu []); [apply segments_ok_nil|..]|].
  intros [[cursor chk] segs] Hr.
  apply (read_segments_sound _ bytes Hu []) in Hr as (segs' & _ & [= -> -> ->] & _);
    [|apply segments_ok_nil|done..].
  pose proof (len_nonneg (body_bytes segs')).
  not_stuck. apply verify_trailer_total. lia.
Qed.

(** C28. The image verifier accepts exactly the well-formed images of the
    policy: a 24-byte header that matches the policy, the announced number of
    word-sized load segments back to back, mapped segments pairwise disjoint
    and inside the 32-bit space, zero padding, the XOR checksum in the last byte
    of a 16-byte block, the SHA-256 of everything before, nothing behind it, and
    an entry point inside a mapped segment; the facts it returns are these.  It
    terminates without panic on every byte string and policy. *)
Theorem image_verifier_exact {H : Sha256} bytes policy facts :
  Forall is_u8 bytes ->
  (verify_esp_image bytes policy = Ok facts <-> is_image policy bytes facts) /\
  verify_esp_image bytes policy <> Stuck.
Proof.
  intros Hu. split; [|by apply verify_image_not_Stuck].
  split; [by apply verify_image_sound|by apply verify_image_complete].
Qed.

(** ** Witness: an image with one mapped and one padding segment *)
Definition demo_header : list Z :=
  [0xe9; 2; 2; 0x10; 0x00; 0x00; 0x40; 0x40] ++ [0; 0; 0; 0] ++ [9; 0; 0; 1; 0; 99; 0]
  ++ [0; 0; 0; 0] ++ [1].
Definition demo_image : list Z :=
  @image_bytes toy_sha256 demo_header [(0x40400000, [1; 2; 3; 4]); (0, [0; 0; 0; 0])].
Definition demo_policy : EspImagePolicy := mkPolicy 9 1 99 0x200000 0x10000.
Definition demo_facts : EspImageFacts :=
  mkImageFacts (@sha256_bytes toy_sha256 demo_image) 96 9 1 99 0x200000 0x40400000
    [mkSegment 0x40400000 32 4; mkSegment 0 44 4].

Lemma image_verifier_exact_witness : @is_image toy_sha256 demo_policy demo_image demo_facts.
Proof.
  apply image_verifier_exact; [apply forallb_u8; by vm_compute|]. by vm_compute.
Defined.

