(* ===== verification/FlashPlan.v ===== *)
(** * FlashPlan: read-only planning of flash placements

    Models [crates/aros-common/src/flash_plan.rs]: validation of a resolved
    layout, remeasurement of every input file and computation of the payload
    and erase ranges. *)

From stdpp Require Import gmap.
From S2P Require Import Prelude Text Digest Publication.

Definition MAX_ROLES : Z := 64.

Record FlashRange := mkRange { start : Z; stop : Z }.
Record FlashSlot := mkSlot { role : list Z; range : FlashRange; native_build : bool }.
Record FlashLayout := mkLayout
  { source_contract_sha256 : list Z; flash_bytes : Z; erase_sector_bytes : Z;
    slots : list FlashSlot }.
Record FlashArtifact := mkFlashArtifact
  { art_role : list Z; relative_path : list Z; art_sha256 : list Z; art_size : Z;
    receipt_sha256 : list Z; native_build_set_sha256 : option (list Z) }.
Record FlashPlacement := mkPlacement
  { pl_role : list Z; pl_path : list Z; pl_sha256 : list Z; pl_size : Z; pl_receipt : list Z;
    payload : FlashRange; erase : FlashRange }.
Record FlashPlan := mkFlashPlan
  { plan_contract : list Z; resolved_layout_sha256 : list Z; plan_build_set : list Z;
    plan_flash_bytes : Z; plan_sector_bytes : Z; placements : list FlashPlacement }.

Inductive plan_error :=
| InvalidGeometry | InvalidRole | InvalidSlot | SlotsOverlap
| RoleSetDiffers | UnselectedRole | DuplicateRole | OversizedPath | UnsafePath | DuplicatePath
| BuildSetDiffers | ExceedsSlot | EraseExceedsSlot
| UnsafeInput | CannotInspect | SizeDiffers | BudgetOverflow | CannotMeasure | CannotRecheck
| InputChanged | CannotEncode.

(** [u64::is_power_of_two] *)
Definition is_power_of_two (v : Z) : bool := negb (v =? 0) && (Z.land v (v - 1) =? 0).

Definition is_role_char (b : Z) : bool :=
  is_ascii_lowercase b || is_ascii_digit b || (b =? 45) || (b =? 95).

(** ** Layout validation: the slots seen so far and the map of roles *)
Definition validate_slot (layout : FlashLayout)
  (st : list FlashSlot * gmap (list Z) FlashSlot) (slot : FlashSlot)
  : res plan_error (list FlashSlot * gmap (list Z) FlashSlot) :=
  let '(previous, roles) := st in
  let r := range slot in
  _ ← refuse (eqb_list (role slot) [] || (64 <? str_len (role slot))
              || negb (forallb is_role_char (utf8 (role slot)))
              || bool_decide (is_Some (roles !! role slot))) InvalidRole;
  let roles := <[role slot := slot]> roles in
  _ ← refuse ((stop r <=? start r) || (flash_bytes layout <? stop r)
              || negb (start r mod erase_sector_bytes layout =? 0)
              || negb (stop r mod erase_sector_bytes layout =? 0)) InvalidSlot;
  _ ← refuse (existsb (fun p => (start r <? stop (range p)) && (start (range p) <? stop r)) previous)
        SlotsOverlap;
  Ok (previous ++ [slot], roles).
Definition validate_layout (layout : FlashLayout) : res plan_error (gmap (list Z) FlashSlot) :=
  _ ← refuse ((flash_bytes layout =? 0) || (erase_sector_bytes layout =? 0)
              || negb (is_power_of_two (erase_sector_bytes layout))
              || negb (flash_bytes layout mod erase_sector_bytes layout =? 0)
              || match slots layout with [] => true | _ => false end
              || (MAX_ROLES <? len (slots layout))
              || negb (existsb native_build (slots layout))) InvalidGeometry;
  '(_, roles) ← foldM (validate_slot layout) ([], ∅) (slots layout);
  Ok roles.

(** ** Files

    What one run observes of an input: the open may be refused, the metadata
    calls may fail, and length, modification time and content may change
    between them. *)
Record Metadata := mkMetadata { meta_len : Z; modified : option Z }.
Record FileView := mkView
  { before : option Metadata; reads : list (option (list Z)); after : option Metadata }.

Section plan.
Context {H : Sha256}.
(** [open_regular_file_nofollow(root.join(path))], and [serde_json::to_vec]. *)
Variable open_file : list Z -> option FileView.
Variable layout_json : FlashLayout -> option (list Z).

Definition verify_file (path : list Z) (expected : FlashArtifact) : res plan_error unit :=
  view ← ok_or (open_file path) UnsafeInput;
  b ← ok_or (before view) CannotInspect;
  _ ← refuse (negb (meta_len b =? art_size expected)) SizeDiffers;
  limit ← ok_or (checked_add u64_max (art_size expected) 1) BudgetOverflow;
  measured ← map_err (fun _ => CannotMeasure) (sha256_reader (take_reader limit (reads view)));
  a ← ok_or (after view) CannotRecheck;
  refuse (negb (result_size measured =? art_size expected)
          || negb (eqb_list (result_digest measured) (art_sha256 expected))
          || negb (meta_len a =? art_size expected)
          || negb (bool_decide (modified b = modified a))) InputChanged.

(** Loop state: [roles], [paths], [placements]. *)
Definition plan_state : Type := gset (list Z) * gset (list Z) * list FlashPlacement.

Definition plan_artifact (layout : FlashLayout) (build_set : list Z)
  (roles : gmap (list Z) FlashSlot) (st : plan_state) (artifact : FlashArtifact)
  : res plan_error plan_state :=
  let '(seen, paths, out) := st in
  slot ← ok_or (roles !! art_role artifact) UnselectedRole;
  _ ← refuse (bool_decide (art_role artifact ∈ seen)) DuplicateRole;
  _ ← refuse (4096 <? str_len (relative_path artifact)) OversizedPath;
  let path := utf8 (relative_path artifact) in
  key ← map_err (fun _ => UnsafePath) (casefold_path_key path);
  _ ← refuse (bool_decide (key ∈ paths)) DuplicatePath;
  let expected_build_set := if native_build slot then Some build_set else None in
  _ ← refuse (negb (bool_decide (native_build_set_sha256 artifact = expected_build_set)))
        BuildSetDiffers;
  payload_end ← ok_or
    (stop' ← checked_add u64_max (start (range slot)) (art_size artifact);
     if negb (art_size artifact =? 0) && (stop' <=? stop (range slot)) then Some stop' else None)
    ExceedsSlot;
  mask ← or_stuck (checked_sub (erase_sector_bytes layout) 1);
  erase_end ← ok_or
    (stop' ← checked_add u64_max payload_end mask;
     let stop' := stop' / erase_sector_bytes layout * erase_sector_bytes layout in
     if stop' <=? stop (range slot) then Some stop' else None)
    EraseExceedsSlot;
  _ ← verify_file path artifact;
  Ok ({[art_role artifact]} ∪ seen, {[key]} ∪ paths,
      out ++ [mkPlacement (art_role artifact) (relative_path artifact) (art_sha256 artifact)
                (art_size artifact) (receipt_sha256 artifact)
                (mkRange (start (range slot)) payload_end) (mkRange (start (range slot)) erase_end)]).

Definition plan_flash_artifacts (layout : FlashLayout) (build_set : list Z)
  (artifacts : list FlashArtifact) : res plan_error FlashPlan :=
  roles ← validate_layout layout;
  _ ← refuse (negb (len artifacts =? Z.of_nat (size roles))) RoleSetDiffers;
  '(_, _, out) ← foldM (plan_artifact layout build_set roles) (∅, ∅, []) artifacts;
  let out := sort_by_key (fun p => start (payload p)) out in
  let normalized := mkLayout (source_contract_sha256 layout) (flash_bytes layout)
    (erase_sector_bytes layout) (sort_by_key (fun s => start (range s)) (slots layout)) in
  layout_bytes ← ok_or (layout_json normalized) CannotEncode;
  Ok (mkFlashPlan (source_contract_sha256 layout) (sha256_bytes layout_bytes) build_set
        (flash_bytes layout) (erase_sector_bytes layout) out).
End plan.

(** ** What a layout and a plan promise *)
Definition disjoint_slots (p s : FlashSlot) : Prop :=
  stop (range p) <= start (range s) \/ stop (range s) <= start (range p).

Record slot_ok (layout : FlashLayout) (s : FlashSlot) : Prop := {
  slot_role : 1 <= str_len (role s) <= 64 /\ forallb is_role_char (utf8 (role s)) = true;
  slot_range : start (range s) < stop (range s) <= flash_bytes layout;
  slot_start : (erase_sector_bytes layout | start (range s));
  slot_stop : (erase_sector_bytes layout | stop (range s));
}.

Record layout_ok (layout : FlashLayout) : Prop := {
  layout_flash : flash_bytes layout <> 0 /\ (erase_sector_bytes layout | flash_bytes layout);
  layout_sector : erase_sector_bytes layout <> 0 /\ is_power_of_two (erase_sector_bytes layout) = true;
  layout_count : 1 <= len (slots layout) <= 64;
  layout_native : Exists (fun s => native_build s = true) (slots layout);
  layout_slots : Forall (slot_ok layout) (slots layout);
  layout_roles : NoDup (map role (slots layout));
  layout_disjoint : ForallOrdPairs disjoint_slots (slots layout);
}.

(** The map of roles built from a list of slots. *)
Definition roles_of (l : list FlashSlot) : gmap (list Z) FlashSlot :=
  fold_left (fun m s => <[role s := s]> m) l ∅.

Lemma roles_of_snoc l s : roles_of (l ++ [s]) = <[role s := s]> (roles_of l).
Proof. unfold roles_of. by rewrite fold_left_app. Qed.

Lemma roles_of_lookup l r s : NoDup (map role l) ->
  roles_of l !! r = Some s <-> s ∈ l /\ role s = r.
Proof.
  induction l as [|x l IH] using rev_ind; intros Hnd.
  - split; [done|]. intros [Hin _]. by apply elem_of_nil in Hin.
  - apply NoDup_map_snoc in Hnd as [Hnd Hx]. rewrite roles_of_snoc, lookup_insert_Some, IH by done.
    rewrite elem_of_app, list_elem_of_singleton. split.
    + intros [[<- <-]|(Hne & Hs & <-)]; auto.
    + intros [[Hs| ->] <-]; [right|by left]. split_and!; try done.
      intros E. apply Hx. rewrite E. by apply list_elem_of_fmap_2.
Qed.

Lemma roles_of_is_Some l r : NoDup (map role l) -> is_Some (roles_of l !! r) <-> r ∈ map role l.
Proof.
  intros Hnd. unfold is_Some. setoid_rewrite roles_of_lookup; [|done]. split.
  - intros (s & Hs & <-). by apply list_elem_of_fmap_2.
  - intros (s & -> & Hs)%list_elem_of_fmap_1. eauto.
Qed.

Lemma roles_of_size l : NoDup (map role l) -> size (roles_of l) = length l.
Proof.
  induction l as [|x l IH] using rev_ind; intros Hnd; [done|].
  apply NoDup_map_snoc in Hnd as [Hnd Hx]. rewrite roles_of_snoc, map_size_insert_None, IH by
    (done || apply eq_None_not_Some; by rewrite roles_of_is_Some).
  rewrite length_app. cbn. lia.
Qed.

(** ** Layout validation is exactly [layout_ok] *)
Definition slots_layout (layout : FlashLayout) (l : list FlashSlot) : Prop :=
  Forall (slot_ok layout) l /\ NoDup (map role l) /\ ForallOrdPairs disjoint_slots l.

Lemma slots_layout_snoc layout l s : slots_layout layout (l ++ [s]) <->
  slots_layout layout l /\ slot_ok layout s /\ role s ∉ map role l /\
  Forall (fun p => disjoint_slots p s) l.
Proof.
  unfold slots_layout.
  rewrite Forall_app, Forall_singleton, NoDup_map_snoc, ForallOrdPairs_snoc. tauto.
Qed.

Lemma validate_slot_Ok layout pre s st : erase_sector_bytes layout <> 0 -> NoDup (map role pre) ->
  validate_slot layout (pre, roles_of pre) s = Ok st <->
  st = (pre ++ [s], roles_of (pre ++ [s])) /\ slot_ok layout s /\ role s ∉ map role pre /\
  Forall (fun p => disjoint_slots p s) pre.
Proof.
  intros Hsec Hnd. unfold validate_slot. rewrite !refuse_bind_Ok.
  rewrite !orb_false_iff, bool_decide_eq_false, roles_of_is_Some, existsb_false_Forall by done.
  rewrite !negb_false_iff, Z.leb_gt, !Z.ltb_ge, !Z.eqb_eq, roles_of_snoc.
  rewrite !Z.mod_divide by done.
  assert (forall p, (start (range s) <? stop (range p)) && (start (range p) <? stop (range s)) = false
    <-> disjoint_slots p s) as Hd.
  { intros p. unfold disjoint_slots. rewrite andb_false_iff, !Z.ltb_ge. tauto. }
  setoid_rewrite Hd.
  assert (eqb_list (role s) [] = false <-> 1 <= str_len (role s)) as He.
  { unfold eqb_list. rewrite bool_decide_eq_false, <- len_0. pose proof (str_len_ge (role s)).
    pose proof (len_nonneg (role s)). split; [lia|]. intros Hs E. apply len_0 in E. rewrite E in Hs.
    by cbn in Hs. }
  rewrite He. split.
  - intros ((((? & ?) & ?) & ?) & (((? & ?) & ?) & ?) & ? & [= <-]). by split_and!; [|split|..].
  - intros (-> & [[[? ?] ?] [? ?] ? ?] & ? & ?). by split_and!.
Qed.

Lemma validate_layout_Ok layout roles :
  validate_layout layout = Ok roles <-> layout_ok layout /\ roles = roles_of (slots layout).
Proof.
  unfold validate_layout. rewrite refuse_bind_Ok, bind_Ok.
  rewrite !orb_false_iff, !negb_false_iff, !Z.eqb_neq, Z.eqb_eq, Z.ltb_ge.
  assert (existsb native_build (slots layout) = true <-> Exists (fun s => native_build s = true) (slots layout)) as Hn.
  { rewrite existsb_exists, List.Exists_exists. done. }
  rewrite Hn.
  assert (match slots layout with [] => true | _ => false end = false <-> 1 <= len (slots layout)) as Hne.
  { destruct (slots layout); [rewrite len_nil; done|]. rewrite len_cons.
    pose proof (len_nonneg l). split; [lia|done]. }
  rewrite Hne.
  assert (erase_sector_bytes layout <> 0 -> forall s,
    foldM (validate_slot layout) ([], ∅) (slots layout) = Ok s <->
    s = (slots layout, roles_of (slots layout)) /\ slots_layout layout (slots layout)) as Hfold.
  { intros Hsec. apply (foldM_iff _ (fun pre => (pre, roles_of pre)) (slots_layout layout)).
    - repeat constructor.
    - intros pre x. rewrite slots_layout_snoc. tauto.
    - intros pre x s _ Hpre. rewrite slots_layout_snoc, validate_slot_Ok by (done || apply Hpre). tauto. }
  split.
  - intros (((((((? & Hsec) & ?) & Hmod) & ?) & ?) & ?) & ([sl rl] & Hf & [= <-])).
    apply Hfold in Hf as [[= -> ->] (? & ? & ?)]; [|done]. rewrite Z.mod_divide in Hmod by done.
    split; [|done]. by split.
  - intros [[[? ?] [Hsec ?] [? ?] ? ? ? ?] ->]. split; [rewrite Z.mod_divide by done; by split_and!|].
    exists (slots layout, roles_of (slots layout)). split; [|done]. by apply Hfold.
Qed.

(** ** Planning one artifact *)
Definition key_of (a : FlashArtifact) : option (list Z) :=
  match casefold_path_key (utf8 (relative_path a)) with Ok key => Some key | _ => None end.

(** [end] rounded up to whole erase sectors. *)
Definition round_up (sector v : Z) : Z := (v + (sector - 1)) / sector * sector.

Definition placement_in (layout : FlashLayout) (slot : FlashSlot) (a : FlashArtifact) : FlashPlacement :=
  mkPlacement (art_role a) (relative_path a) (art_sha256 a) (art_size a) (receipt_sha256 a)
    (mkRange (start (range slot)) (start (range slot) + art_size a))
    (mkRange (start (range slot))
             (round_up (erase_sector_bytes layout) (start (range slot) + art_size a))).
Definition place_of (layout : FlashLayout) (roles : gmap (list Z) FlashSlot) (a : FlashArtifact)
  : option FlashPlacement := (fun slot => placement_in layout slot a) <$> roles !! art_role a.

Lemma round_up_bounds sector v : 0 < sector ->
  (sector | round_up sector v) /\ v <= round_up sector v < v + sector.
Proof.
  intros Hs. unfold round_up. split; [by apply Z.divide_factor_r|].
  pose proof (Z.div_mod (v + (sector - 1)) sector ltac:(lia)).
  pose proof (Z.mod_pos_bound (v + (sector - 1)) sector ltac:(lia)). lia.
Qed.

(** Rounding never leaves an aligned slot. *)
Lemma round_up_le sector v bound : 0 < sector -> (sector | bound) -> v <= bound ->
  round_up sector v <= bound.
Proof.
  intros Hs [k ->] Hv. destruct (round_up_bounds sector v Hs) as [[j Hj] [_ Hlt]].
  assert (j < k + 1) by (apply (Z.mul_lt_mono_pos_r sector); lia).
  rewrite Hj. apply Z.mul_le_mono_nonneg_r; lia.
Qed.

Lemma is_power_of_two_spec v : 0 < v -> is_power_of_two v = true -> v = 2 ^ Z.log2 v.
Proof.
  intros Hv. unfold is_power_of_two. rewrite andb_true_iff, Z.eqb_eq. intros [_ Hland].
  destruct (Z.log2_spec v Hv) as [Hlo Hhi]. pose proof (Z.log2_nonneg v) as Hk.
  destruct (decide (v = 2 ^ Z.log2 v)) as [|Hne]; [done|]. exfalso.
  assert (Z.log2 (v - 1) = Z.log2 v) as Hlog by (apply Z.log2_unique; lia).
  assert (0 < v - 1) as Hpos by (pose proof (Z.pow_pos_nonneg 2 (Z.log2 v)); lia).
  assert (Z.testbit (Z.land v (v - 1)) (Z.log2 v) = true) as Hbit.
  { rewrite Z.land_spec, Z.bit_log2 by done. rewrite <- Hlog. by rewrite Z.bit_log2. }
  by rewrite Hland, Z.bits_0 in Hbit.
Qed.

(** A flash of whole sectors below 2^64 leaves room for one more sector. *)
Lemma sector_room sector flash : 0 < sector -> is_power_of_two sector = true ->
  (sector | flash) -> 0 < flash <= u64_max -> flash + sector <= 2 ^ 64.
Proof.
  intros Hs Hp Hd Hf. unfold u64_max in Hf.
  assert (sector <= flash) as Hle by (apply Z.divide_pos_le; [lia|done]).
  assert ((sector | 2 ^ 64)) as Hd64.
  { rewrite (is_power_of_two_spec sector Hs Hp). exists (2 ^ (64 - Z.log2 sector)).
    assert (Z.log2 sector < 64) by (apply Z.log2_lt_pow2; lia). pose proof (Z.log2_nonneg sector).
    rewrite <- Z.pow_add_r by lia. f_equal. lia. }
  assert ((sector | 2 ^ 64 - flash)) as Hd' by by apply Z.divide_sub_r.
  apply Z.divide_pos_le in Hd'; lia.
Qed.

Section plan_facts.
Context {H : Sha256}.
Variable open_file : list Z -> option FileView.
Variable layout_json : FlashLayout -> option (list Z).
Variables (layout : FlashLayout) (build_set : list Z).
Hypothesis Hlayout : layout_ok layout.
Hypothesis Hsector : 0 < erase_sector_bytes layout.
Hypothesis Hflash : 0 <= flash_bytes layout <= u64_max.

Let roles : gmap (list Z) FlashSlot := roles_of (slots layout).

(** What one artifact needs, on its own. *)
Record artifact_ok (a : FlashArtifact) : Prop := {
  ok_path_len : str_len (relative_path a) <= 4096;
  ok_path : is_Some (key_of a);
  ok_slot : exists slot, slot ∈ slots layout /\ role slot = art_role a /\
    native_build_set_sha256 a = (if native_build slot then Some build_set else None) /\
    start (range slot) + art_size a <= stop (range slot);
  ok_size : art_size a <> 0;
  ok_file : verify_file open_file (utf8 (relative_path a)) a = Ok tt;
}.

Definition summary (pre : list FlashArtifact) : plan_state :=
  (list_to_set (map art_role pre), list_to_set (omap key_of pre), omap (place_of layout roles) pre).

Definition artifacts_ok (l : list FlashArtifact) : Prop :=
  Forall artifact_ok l /\ NoDup (map art_role l) /\ NoDup (omap key_of l).

Lemma artifacts_ok_snoc l a key : key_of a = Some key ->
  artifacts_ok (l ++ [a]) <->
  artifacts_ok l /\ artifact_ok a /\ art_role a ∉ map art_role l /\ key ∉ omap key_of l.
Proof.
  intros Hk. unfold artifacts_ok. rewrite Forall_app, Forall_singleton, NoDup_map_snoc, omap_app.
  cbn. rewrite Hk, NoDup_snoc. tauto.
Qed.

Lemma summary_snoc pre a key p : key_of a = Some key -> place_of layout roles a = Some p ->
  summary (pre ++ [a]) =
  ({[art_role a]} ∪ (summary pre).1.1, {[key]} ∪ (summary pre).1.2, (summary pre).2 ++ [p]).
Proof.
  intros Hk Hp. unfold summary. rewrite map_app, !omap_app, !list_to_set_app_L. cbn.
  rewrite Hk, Hp. cbn. rewrite !union_empty_r_L. do 2 f_equal; set_solver.
Qed.

Lemma erase_fits slot a : slot ∈ slots layout -> start (range slot) + art_size a <= stop (range slot) ->
  start (range slot) + art_size a + (erase_sector_bytes layout - 1) <= u64_max /\
  round_up (erase_sector_bytes layout) (start (range slot) + art_size a) <= stop (range slot).
Proof.
  intros Hin Hle. destruct Hlayout as [[_ Hdiv] _ _ _ Hslots _ _].
  rewrite Forall_forall in Hslots. destruct (Hslots slot Hin) as [_ Hr _ Hst].
  split; [|by apply round_up_le].
  destruct Hlayout as [[Hf0 _] [_ Hp2] _ _ _ _ _].
  pose proof (sector_room _ _ Hsector Hp2 Hdiv ltac:(lia)) as Hroom. unfold u64_max in *. lia.
Qed.

(** One round of the loop. *)
Lemma plan_artifact_sound pre a st :
  plan_artifact open_file layout build_set roles (summary pre) a = Ok st ->
  exists key, key_of a = Some key /\ st = summary (pre ++ [a]) /\ artifact_ok a /\
    art_role a ∉ map art_role pre /\ key ∉ omap key_of pre.
Proof.
  unfold plan_artifact, summary at 1.
  intros (slot & Hslot%ok_or_Ok & Hv)%bind_Ok.
  apply refuse_bind_Ok in Hv as [Hseen Hv]. apply refuse_bind_Ok in Hv as [Hpl Hv]. bool_prop.
  apply bind_Ok in Hv as (key & Hkey%map_err_Ok & [Hpath [Hbs Hv]%refuse_bind_Ok]%refuse_bind_Ok).
  bool_prop.
  apply bind_Ok in Hv as (pe & (v & [-> Hv1]%checked_add_Some & Hpe)%ok_or_Ok%bind_Some & Hv).
  case_match eqn:Hfit; [|done]. injection Hpe as <-. bool_prop.
  apply bind_Ok in Hv as (mask & [-> _]%or_stuck_Ok%checked_sub_Some & Hv).
  apply bind_Ok in Hv as (ee & (w & [-> _]%checked_add_Some & Hee)%ok_or_Ok%bind_Some & Hv).
  case_match; [|done]. injection Hee as <-.
  apply bind_Ok in Hv as ([] & Hfile & [= <-]).
  assert (key_of a = Some key) as Hk by (unfold key_of; by rewrite Hkey).
  assert (place_of layout roles a = Some (placement_in layout slot a)) as Hp
    by (unfold place_of; by rewrite Hslot).
  apply roles_of_lookup in Hslot as [Hin Hrole]; [|apply Hlayout].
  rewrite elem_of_list_to_set in Hseen, Hpath. exists key. split; [done|].
  rewrite (summary_snoc _ _ key (placement_in layout slot a)) by done.
  split_and!; [done| |done|done]. split; [done|by eexists|exists slot; by split_and!|done|done].
Qed.

(** The erase-span check and the overflow checks never refuse. *)
Lemma plan_artifact_complete pre a key :
  key_of a = Some key -> artifact_ok a -> art_role a ∉ map art_role pre -> key ∉ omap key_of pre ->
  plan_artifact open_file layout build_set roles (summary pre) a = Ok (summary (pre ++ [a])).
Proof.
  intros Hk [Hpl _ (slot & Hin & Hrole & Hbs & Hfit) Hnz Hfile] Hseen Hpath.
  destruct (erase_fits slot a Hin Hfit) as [Hu64 Herase].
  assert (roles !! art_role a = Some slot) as Hslot
    by (apply roles_of_lookup; [apply Hlayout|done]).
  assert (place_of layout roles a = Some (placement_in layout slot a)) as Hp
    by (unfold place_of; by rewrite Hslot).
  rewrite (summary_snoc _ _ key (placement_in layout slot a)) by done.
  step_by ltac:(by apply ok_or_Ok).
  guard_by ltac:(by apply bool_decide_eq_false_2; rewrite elem_of_list_to_set).
  guard_by ltac:(by apply Z.ltb_ge).
  assert (casefold_path_key (utf8 (relative_path a)) = Ok key) as Hck
    by (unfold key_of in Hk; destruct (casefold_path_key _) as [k| |]; naive_solver).
  step_by ltac:(by rewrite Hck).
  guard_by ltac:(by apply bool_decide_eq_false_2; rewrite elem_of_list_to_set).
  guard_by ltac:(by apply negb_false_iff, bool_decide_eq_true_2).
  assert (start (range slot) + art_size a <= u64_max) as Hadd by lia.
  step_by ltac:(apply ok_or_Ok, bind_Some; eexists; split; [by apply checked_add_Some|];
    rewrite (proj2 (Z.eqb_neq _ _) Hnz), (proj2 (Z.leb_le _ _) Hfit); done).
  step_by ltac:(apply or_stuck_Ok, checked_sub_Some; split; [done|lia]).
  unfold round_up in Herase.
  step_by ltac:(apply ok_or_Ok, bind_Some; eexists; split; [by apply checked_add_Some|];
    cbv zeta; rewrite (proj2 (Z.leb_le _ _) Herase); done).
  step_by ltac:(exact Hfile). done.
Qed.

Lemma plan_loop artifacts s :
  foldM (plan_artifact open_file layout build_set roles) (∅, ∅, []) artifacts = Ok s <->
  s = summary artifacts /\ artifacts_ok artifacts.
Proof.
  assert (forall pre a, artifacts_ok (pre ++ [a]) -> exists key, key_of a = Some key) as Hkey.
  { intros pre a [Hall _]. rewrite Forall_app, Forall_singleton in Hall.
    destruct Hall as [_ Ha]. apply (ok_path _ Ha). }
  apply (foldM_iff _ summary artifacts_ok).
  - repeat constructor.
  - intros pre a Hok. destruct (Hkey _ _ Hok) as [key Hk].
    by destruct (proj1 (artifacts_ok_snoc pre a key Hk) Hok) as [? _].
  - intros pre a st _ Hpre. split.
    + intros (key & Hk & -> & Ha & Hr & Hp)%plan_artifact_sound. split; [done|].
      by rewrite (artifacts_ok_snoc pre a key Hk).
    + intros [-> Hok]. destruct (Hkey _ _ Hok) as [key Hk].
      destruct (proj1 (artifacts_ok_snoc pre a key Hk) Hok) as (_ & Ha & Hr & Hp).
      by eapply plan_artifact_complete.
Qed.
End plan_facts.

(** ** Files *)
Lemma verify_file_content {H : Sha256} open_file path a :
  verify_file open_file path a = Ok tt ->
  exists view content, open_file path = Some view /\ stream (reads view) = Some content /\
    len content = art_size a /\ sha256_bytes content = art_sha256 a.
Proof.
  unfold verify_file. intros (view & Hopen%ok_or_Ok & (b & _ & [_ Hv]%refuse_bind_Ok)%bind_Ok)%bind_Ok.
  apply bind_Ok in Hv as (limit & [-> _]%ok_or_Ok%checked_add_Some & Hv).
  apply bind_Ok in Hv as (m & Hm%map_err_Ok & (aft & _ & Hg%refuse_Ok)%bind_Ok).
  rewrite !orb_false_iff, !negb_false_iff, eqb_list_true, !Z.eqb_eq in Hg.
  destruct Hg as [[[Hsize Hdig] _] _].
  apply hash_loop_Ok in Hm as (content & Hs & _ & ->). cbn in Hsize, Hdig.
  exists view, content. split_and!; [done| |lia|done].
  pose proof (len_nonneg content). apply (take_reader_exact _ (art_size a + 1)); [lia|done|lia].
Qed.

Lemma hash_loop_not_Stuck {H : Sha256} rds absorbed size : hash_loop rds absorbed size <> Stuck.
Proof.
  revert absorbed size; induction rds as [|[c|] rds IH]; intros absorbed size; cbn; [done| |done].
  not_stuck.
Qed.
Lemma verify_file_not_Stuck {H : Sha256} open_file path a : verify_file open_file path a <> Stuck.
Proof. pose proof hash_loop_not_Stuck. unfold verify_file, sha256_reader. not_stuck. Qed.

(** ** The whole plan *)
Definition normalize (layout : FlashLayout) : FlashLayout :=
  mkLayout (source_contract_sha256 layout) (flash_bytes layout) (erase_sector_bytes layout)
    (sort_by_key (fun s => start (range s)) (slots layout)).

Section whole.
Context {H : Sha256}.
Variable open_file : list Z -> option FileView.
Variable layout_json : FlashLayout -> option (list Z).

(** The plan of a layout and its artifacts, as a set of placements in order. *)
Definition plan_for (layout : FlashLayout) (build_set : list Z) (artifacts : list FlashArtifact)
  (json : list Z) : FlashPlan :=
  mkFlashPlan (source_contract_sha256 layout) (sha256_bytes json) build_set (flash_bytes layout)
    (erase_sector_bytes layout)
    (sort_by_key (fun p => start (payload p))
       (omap (place_of layout (roles_of (slots layout))) artifacts)).

Lemma roles_permutation layout build_set artifacts : layout_ok layout ->
  artifacts_ok open_file layout build_set artifacts ->
  len artifacts = Z.of_nat (size (roles_of (slots layout))) <->
  map art_role artifacts ≡ₚ map role (slots layout).
Proof.
  intros Hl (Hall & Hnd & _). rewrite roles_of_size by apply Hl. unfold len. split.
  - intros Hlen. apply submseteq_length_Permutation.
    + apply NoDup_submseteq; [done|]. intros r (a & -> & Ha)%list_elem_of_fmap_1.
      rewrite Forall_forall in Hall. destruct (ok_slot _ _ _ _ (Hall a Ha)) as (s & Hs & <- & _).
      by apply list_elem_of_fmap_2.
    + rewrite !length_map. lia.
  - intros Hp%Permutation_length. rewrite !length_map in Hp. lia.
Qed.

Lemma plan_Ok_iff layout build_set artifacts p :
  0 <= flash_bytes layout <= u64_max -> 0 <= erase_sector_bytes layout ->
  plan_flash_artifacts open_file layout_json layout build_set artifacts = Ok p <->
  layout_ok layout /\ artifacts_ok open_file layout build_set artifacts /\
  map art_role artifacts ≡ₚ map role (slots layout) /\
  exists json, layout_json (normalize layout) = Some json /\
    p = plan_for layout build_set artifacts json.
Proof.
  intros Hf Hs. unfold plan_flash_artifacts. split.
  - intros (roles & [Hl ->]%validate_layout_Ok & [Hn Hv]%refuse_bind_Ok)%bind_Ok. bool_prop.
    assert (0 < erase_sector_bytes layout) as Hsec by (destruct (layout_sector _ Hl); lia).
    apply bind_Ok in Hv as ([[sn pt] out] & Hloop & (json & Hj%ok_or_Ok & [= <-])%bind_Ok).
    apply plan_loop in Hloop as [[= -> -> ->] Hok]; [|done..].
    split_and!; [done|done|by eapply roles_permutation|by exists json].
  - intros (Hl & Hok & Hperm & json & Hj & ->).
    assert (0 < erase_sector_bytes layout) as Hsec by (destruct (layout_sector _ Hl); lia).
    step_by ltac:(by apply validate_layout_Ok).
    guard_by ltac:(apply negb_false_iff, Z.eqb_eq; by eapply roles_permutation).
    step_by ltac:(by apply plan_loop). unfold summary. cbv zeta.
    step_by ltac:(apply ok_or_Ok; exact Hj). done.
Qed.
End whole.

(** ** Safety of the placements *)
Section safety.
Context {H : Sha256}.
Variable open_file : list Z -> option FileView.
Variables (layout : FlashLayout) (build_set : list Z) (artifacts : list FlashArtifact).
Hypothesis Hlayout : layout_ok layout.
Hypothesis Hsector : 0 < erase_sector_bytes layout.
Hypothesis Hok : artifacts_ok open_file layout build_set artifacts.

(** One placement inside its slot, with the smallest whole-sector erase span
    and a file below the root that was read to its end and hashed. *)
Record placement_safe (p : FlashPlacement) : Prop := {
  safe_slot : exists slot, slot ∈ slots layout /\ role slot = pl_role p /\
    start (payload p) = start (range slot) /\ start (erase p) = start (range slot) /\
    stop (erase p) <= stop (range slot);
  safe_payload : stop (payload p) = start (payload p) + pl_size p /\ pl_size p <> 0;
  safe_cover : stop (payload p) <= stop (erase p) < stop (payload p) + erase_sector_bytes layout;
  safe_aligned : (erase_sector_bytes layout | start (erase p)) /\ (erase_sector_bytes layout | stop (erase p));
  safe_path : Forall is_normal (components (utf8 (pl_path p)));
  safe_file : exists view content, open_file (utf8 (pl_path p)) = Some view /\
    stream (reads view) = Some content /\ len content = pl_size p /\ sha256_bytes content = pl_sha256 p;
}.

Definition out : list FlashPlacement := omap (place_of layout (roles_of (slots layout))) artifacts.

Lemma out_placement p : p ∈ out -> exists a slot, a ∈ artifacts /\ slot ∈ slots layout /\
  role slot = art_role a /\ p = placement_in layout slot a.
Proof.
  intros (a & Ha & Hp)%list_elem_of_omap. apply fmap_Some in Hp as (slot & Hslot & ->).
  apply roles_of_lookup in Hslot as [? ?]; [|apply Hlayout]. by exists a, slot.
Qed.

Lemma out_safe : Forall placement_safe out.
Proof.
  apply Forall_forall. intros p (a & slot & Ha & Hs & Hr & ->)%out_placement.
  destruct Hok as (Hall & _ & _). rewrite Forall_forall in Hall.
  destruct (Hall a Ha) as [_ [key Hk] (slot' & Hs' & Hr' & _ & Hfit) Hnz Hfile].
  assert (slot' = slot) as ->.
  { pose proof (layout_roles _ Hlayout) as Hnd.
    pose proof (proj2 (roles_of_lookup _ (art_role a) slot Hnd) (conj Hs Hr)) as E1.
    pose proof (proj2 (roles_of_lookup _ (art_role a) slot' Hnd) (conj Hs' Hr')) as E2. congruence. }
  pose proof (layout_slots _ Hlayout) as Hslots. rewrite Forall_forall in Hslots.
  destruct (Hslots slot Hs) as [_ _ Hstart Hstop].
  destruct (round_up_bounds (erase_sector_bytes layout) (start (range slot) + art_size a) Hsector)
    as [Hdiv Hround].
  split; cbn; [|done|done|done| |].
  - exists slot. split_and!; try done. by apply round_up_le.
  - unfold key_of in Hk. destruct (casefold_path_key _) as [k| |] eqn:E; [|done..].
    by apply casefold_relative in E as [? _].
  - by apply verify_file_content.
Qed.

Lemma out_roles : map pl_role out = map art_role artifacts.
Proof.
  unfold out. destruct Hok as (Hall & _ & _). clear Hok. induction Hall as [|a l Ha Hl IH]; [done|].
  destruct (ok_slot _ _ _ _ Ha) as (slot & Hs & Hr & _).
  assert (place_of layout (roles_of (slots layout)) a = Some (placement_in layout slot a)) as E.
  { unfold place_of. by rewrite (proj2 (roles_of_lookup _ (art_role a) slot (layout_roles _ Hlayout))). }
  cbn. rewrite E. cbn. by rewrite IH.
Qed.

(** Two placements of different roles own disjoint spans. *)
Lemma placements_disjoint p q : placement_safe p -> placement_safe q -> pl_role p <> pl_role q ->
  stop (erase p) <= start (erase q) \/ stop (erase q) <= start (erase p).
Proof.
  intros [(s & Hs & Hr & _ & Hp1 & Hp2) _ _ _ _ _] [(t & Ht & Hr' & _ & Hq1 & Hq2) _ _ _ _ _] Hne.
  pose proof (layout_disjoint _ Hlayout) as Hd. rewrite ForallOrdPairs_lookup in Hd.
  apply list_elem_of_lookup_1 in Hs as [i Hi], Ht as [j Hj].
  destruct (Nat.lt_trichotomy i j) as [Hij|[->|Hij]].
  - specialize (Hd i j s t Hij Hi Hj). unfold disjoint_slots in Hd. lia.
  - congruence.
  - specialize (Hd j i t s Hij Hj Hi). unfold disjoint_slots in Hd. lia.
Qed.

Lemma safe_nonempty p : placement_safe p -> 0 <= pl_size p -> start (erase p) < stop (erase p).
Proof.
  intros [(s & _ & _ & H1 & H2 & _) [H3 H4] [H5 _] _ _ _] H0. lia.
Qed.

Lemma sorted_out_disjoint : Forall (fun a => 0 <= art_size a) artifacts ->
  ForallOrdPairs (fun p q => stop (erase p) <= start (erase q))
    (sort_by_key (fun p => start (payload p)) out).
Proof.
  intros Hsz. pose proof (sort_by_key_sorted (fun p => start (payload p)) out) as Hsort.
  pose proof (sort_by_key_perm (fun p => start (payload p)) out) as Hperm.
  remember (sort_by_key _ out) as l eqn:El. clear El.
  assert (Forall placement_safe l) as Hsafe by (rewrite Hperm; apply out_safe).
  assert (Forall (fun p => 0 <= pl_size p) l) as Hpos.
  { rewrite Hperm. apply Forall_forall. intros p (a & slot & Ha & _ & _ & ->)%out_placement. cbn.
    rewrite Forall_forall in Hsz. auto. }
  assert (NoDup (map pl_role l)) as Hnd.
  { rewrite Hperm. rewrite out_roles. apply Hok. }
  rewrite ForallOrdPairs_lookup in *. intros i j p q Hij Hi Hj.
  specialize (Hsort i j p q Hij Hi Hj). unfold key_le in Hsort.
  rewrite Forall_lookup in Hsafe, Hpos.
  pose proof (Hsafe i p Hi) as Hp. pose proof (Hsafe j q Hj) as Hq.
  assert (pl_role p <> pl_role q) as Hne.
  { intros E. rewrite NoDup_alt in Hnd. assert (i = j); [|lia].
    apply (Hnd i j (pl_role p)); rewrite list_lookup_fmap; [by rewrite Hi|by rewrite Hj, E]. }
  pose proof (safe_nonempty q Hq (Hpos j q Hj)).
  destruct (safe_slot _ Hp) as (s & _ & _ & ? & ? & _), (safe_slot _ Hq) as (t & _ & _ & ? & ? & _).
  destruct (placements_disjoint p q Hp Hq Hne); lia.
Qed.

Lemma out_starts : Forall (fun a => 0 <= art_size a) artifacts ->
  NoDup (map (fun p => start (payload p)) out).
Proof.
  intros Hsz. rewrite <- (sort_by_key_perm (fun p => start (payload p)) out).
  apply ForallOrdPairs_NoDup. pose proof (sorted_out_disjoint Hsz) as Hd.
  assert (Forall (fun p => placement_safe p /\ 0 <= pl_size p)
    (sort_by_key (fun p => start (payload p)) out)) as Hall.
  { rewrite sort_by_key_perm. apply Forall_and. split; [apply out_safe|].
    apply Forall_forall. intros p (a & slot & Ha & _ & _ & ->)%out_placement. cbn.
    rewrite Forall_forall in Hsz. auto. }
  rewrite ForallOrdPairs_lookup in *. rewrite Forall_lookup in Hall.
  intros i j p q Hij Hi Hj. specialize (Hd i j p q Hij Hi Hj).
  destruct (Hall i p Hi) as [Hp Hp0], (Hall j q Hj) as [Hq _].
  pose proof (safe_nonempty p Hp Hp0).
  destruct (safe_slot _ Hp) as (s & _ & _ & ? & ? & _), (safe_slot _ Hq) as (t & _ & _ & ? & ? & _). lia.
Qed.
End safety.

(** ** Order of the inputs *)
Lemma roles_of_perm l l' : NoDup (map role l) -> l ≡ₚ l' -> roles_of l = roles_of l'.
Proof.
  intros Hnd Hp. assert (NoDup (map role l')) as Hnd' by by rewrite <- Hp.
  apply map_eq. intros r. apply option_eq. intros s. by rewrite !roles_of_lookup, Hp.
Qed.

Lemma disjoint_slots_sym p s : disjoint_slots p s -> disjoint_slots s p.
Proof. unfold disjoint_slots. tauto. Qed.

Lemma slots_starts layout : layout_ok layout ->
  NoDup (map (fun s => start (range s)) (slots layout)).
Proof.
  intros Hl. apply ForallOrdPairs_NoDup. pose proof (layout_disjoint _ Hl) as Hd.
  pose proof (layout_slots _ Hl) as Hs. rewrite ForallOrdPairs_lookup in *. rewrite Forall_lookup in Hs.
  intros i j x y Hij Hi Hj. specialize (Hd i j x y Hij Hi Hj). unfold disjoint_slots in Hd.
  destruct (slot_range _ _ (Hs i x Hi)), (slot_range _ _ (Hs j y Hj)). lia.
Qed.

Definition same_layout (layout layout' : FlashLayout) : Prop :=
  source_contract_sha256 layout = source_contract_sha256 layout' /\
  flash_bytes layout = flash_bytes layout' /\
  erase_sector_bytes layout = erase_sector_bytes layout' /\
  slots layout ≡ₚ slots layout'.

Lemma layout_ok_perm layout layout' : same_layout layout layout' -> layout_ok layout -> layout_ok layout'.
Proof.
  intros (_ & Ef & Es & Hp) [Hf Hs Hc Hn Hsl Hr Hd]. rewrite Ef, Es in *.
  split; try done; unfold len in *; rewrite <- ?Hp; try done.
  - eapply Forall_impl; [exact Hsl|]. intros s [? ? ? ?]. by split; rewrite <- ?Ef, <- ?Es.
  - by eapply ForallOrdPairs_perm; [apply disjoint_slots_sym| |].
Qed.

Lemma normalize_perm layout layout' : same_layout layout layout' -> layout_ok layout ->
  normalize layout = normalize layout'.
Proof.
  intros (Ec & Ef & Es & Hp) Hl. unfold normalize. rewrite Ec, Ef, Es. f_equal.
  apply sort_by_key_unique; [done|by apply slots_starts].
Qed.

(** ** Claims *)

(** In particular no underflow of the sector mask and no division by zero. *)
Lemma plan_not_Stuck {H : Sha256} open_file layout_json layout build_set artifacts :
  0 <= erase_sector_bytes layout ->
  plan_flash_artifacts open_file layout_json layout build_set artifacts <> Stuck.
Proof.
  intros Hs. unfold plan_flash_artifacts. apply bind_not_Stuck.
  - unfold validate_layout. not_stuck. apply (foldM_not_Stuck _ (fun _ => True)); [done| |done].
    intros [pre m] s _ _. unfold validate_slot. not_stuck.
  - intros roles [Hl ->]%validate_layout_Ok. destruct (layout_sector _ Hl) as [Hs0 _]. not_stuck.
    apply (foldM_not_Stuck _ (fun _ => True)); [done| |done].
    intros [ [seen paths] o] art _ _. pose proof verify_file_not_Stuck. unfold plan_artifact. not_stuck.
    apply or_stuck_not_Stuck. exists (erase_sector_bytes layout - 1). apply checked_sub_Some. lia.
Qed.

(** C29. The planner succeeds exactly when the layout is valid, the artifacts
    cover exactly its roles with distinct portable paths, fit their slots,
    carry the right build set and match their files, and the normalised layout
    serialises; the plan is then the sorted placements.  In particular the
    rounding of the erase span and the overflow tests never refuse an artifact
    whose payload fits.  Planning terminates without panic. *)
Theorem planner_exact {H : Sha256} open_file layout_json layout build_set artifacts p :
  0 <= flash_bytes layout <= u64_max -> 0 <= erase_sector_bytes layout ->
  (plan_flash_artifacts open_file layout_json layout build_set artifacts = Ok p <->
   layout_ok layout /\ artifacts_ok open_file layout build_set artifacts /\
   map art_role artifacts ≡ₚ map role (slots layout) /\
   exists json, layout_json (normalize layout) = Some json /\
     p = plan_for layout build_set artifacts json) /\
  plan_flash_artifacts open_file layout_json layout build_set artifacts <> Stuck.
Proof. intros Hf Hs. split; [by apply plan_Ok_iff|by apply plan_not_Stuck]. Qed.

(** Safety of a plan: exactly one placement per required role; every payload
    starts at its slot, is covered by the smallest whole-sector erase span and
    stays with it inside the slot; erase spans of different roles never meet;
    every file lies below the root and was read to its end with the recorded
    size and digest. *)
Theorem plan_is_safe {H : Sha256} open_file layout_json layout build_set artifacts p :
  0 <= flash_bytes layout <= u64_max -> 0 <= erase_sector_bytes layout ->
  Forall (fun a => 0 <= art_size a) artifacts ->
  plan_flash_artifacts open_file layout_json layout build_set artifacts = Ok p ->
  map pl_role (placements p) ≡ₚ map role (slots layout) /\
  Forall (placement_safe open_file layout) (placements p) /\
  ForallOrdPairs (fun a b => stop (erase a) <= start (erase b)) (placements p).
Proof.
  intros Hf Hs Hsz (Hl & Hok & Hperm & json & _ & ->)%plan_Ok_iff; [|done..]. cbn.
  assert (0 < erase_sector_bytes layout) as Hsec by (destruct (layout_sector _ Hl); lia).
  fold (out layout artifacts). split_and!; [|rewrite sort_by_key_perm|].
  - by rewrite sort_by_key_perm, (out_roles open_file layout build_set).
  - by eapply out_safe.
  - by eapply sorted_out_disjoint.
Qed.

(** A plan does not depend on the order in which slots or artifacts are
    listed, down to the digest of the resolved layout. *)
Theorem plan_order_independent {H : Sha256} open_file layout_json layout layout' build_set
  artifacts artifacts' p :
  0 <= flash_bytes layout <= u64_max -> 0 <= erase_sector_bytes layout ->
  Forall (fun a => 0 <= art_size a) artifacts ->
  same_layout layout layout' -> artifacts ≡ₚ artifacts' ->
  plan_flash_artifacts open_file layout_json layout build_set artifacts = Ok p ->
  plan_flash_artifacts open_file layout_json layout' build_set artifacts' = Ok p.
Proof.
  intros Hf Hs Hsz Hsame Hpa. pose proof Hsame as (Ec & Ef & Es & Hp).
  rewrite !plan_Ok_iff by (rewrite <- ?Ef, <- ?Es; done).
  intros (Hl & Hok & Hperm & json & Hj & ->).
  assert (0 < erase_sector_bytes layout) as Hsec by (destruct (layout_sector _ Hl); lia).
  assert (forall a, place_of layout (roles_of (slots layout)) a =
                    place_of layout' (roles_of (slots layout')) a) as Hplace.
  { intros a. rewrite <- (roles_of_perm (slots layout) (slots layout')) by (done || apply Hl).
    unfold place_of, placement_in. by rewrite Es. }
  split_and!; [by eapply layout_ok_perm| |by rewrite <- Hpa, <- Hp|exists json; split].
  - destruct Hok as (Hall & Hr & Hk). split_and!; [|by rewrite <- Hpa..]. rewrite <- Hpa.
    eapply Forall_impl; [exact Hall|]. intros a [? ? (s & ? & ?) ? ?]. split; try done.
    exists s. by rewrite <- Hp.
  - by rewrite <- (normalize_perm layout layout').
  - unfold plan_for. rewrite Ec, Ef, Es. f_equal.
    apply sort_by_key_unique; [|by eapply out_starts].
    rewrite Hpa. clear -Hplace. induction artifacts' as [|a l IH]; [done|]. cbn. rewrite Hplace.
    case_match; [by rewrite IH|done].
Qed.

(** ** Witness: two slots, two files *)
Definition demo_layout : FlashLayout :=
  mkLayout (rs "contract") 0x10000 0x1000
    [mkSlot (rs "app") (mkRange 0x4000 0x8000) true; mkSlot (rs "data") (mkRange 0x1000 0x2000) false].
Definition demo_file (n b : Z) : FileView :=
  mkView (Some (mkMetadata n (Some 7))) [Some (fill n b); Some []] (Some (mkMetadata n (Some 7))).
Definition demo_open (p : list Z) : option FileView :=
  if eqb_list p (rs "app.bin") then Some (demo_file 5 1)
  else if eqb_list p (rs "data/nvs.bin") then Some (demo_file 3 2) else None.
Definition demo_artifacts : list FlashArtifact :=
  [mkFlashArtifact (rs "data") (rs "data/nvs.bin") (@sha256_bytes toy_sha256 (fill 3 2)) 3 (rs "r2") None;
   mkFlashArtifact (rs "app") (rs "app.bin") (@sha256_bytes toy_sha256 (fill 5 1)) 5 (rs "r1") (Some (rs "set"))].
Definition demo_json (layout : FlashLayout) : option (list Z) := Some (flat_map role (slots layout)).
Definition demo_plan : FlashPlan :=
  @plan_for toy_sha256 demo_layout (rs "set") demo_artifacts (rs "dataapp").

Lemma demo_plan_Ok : @plan_flash_artifacts toy_sha256 demo_open demo_json demo_layout (rs "set")
  demo_artifacts = Ok demo_plan.
Proof. by vm_compute. Qed.

Lemma demo_bounds : 0 <= flash_bytes demo_layout <= u64_max /\ 0 <= erase_sector_bytes demo_layout /\
  Forall (fun a => 0 <= art_size a) demo_artifacts.
Proof. split_and!; [by vm_compute..|]. by repeat constructor. Qed.

Lemma planner_exact_witness : layout_ok demo_layout.
Proof.
  apply (@planner_exact toy_sha256 demo_open demo_json demo_layout (rs "set") demo_artifacts demo_plan);
    [apply demo_bounds|apply demo_bounds|apply demo_plan_Ok].
Defined.

Lemma plan_is_safe_witness :
  ForallOrdPairs (fun a b => stop (erase a) <= start (erase b)) (placements demo_plan).
Proof.
  apply (@plan_is_safe toy_sha256 demo_open demo_json demo_layout (rs "set") demo_artifacts demo_plan);
    [apply demo_bounds..|apply demo_plan_Ok].
Defined.

Lemma plan_order_independent_witness :
  @plan_flash_artifacts toy_sha256 demo_open demo_json
    (mkLayout (rs "contract") 0x10000 0x1000 (rev (slots demo_layout))) (rs "set")
    (rev demo_artifacts) = Ok demo_plan.
Proof.
  apply (@plan_order_independent toy_sha256 demo_open demo_json demo_layout _ (rs "set") demo_artifacts);
    [apply demo_bounds..| | |apply demo_plan_Ok].
  - split_and!; [done..|]. apply Permutation_rev.
  - apply Permutation_rev.
Defined.

