(* ===== verification/Dhcp.v ===== *)
(** * Dhcp: the restricted DHCPv4 service of a board-lab link

    Models [crates/aros-board/src/dhcp.rs]: configuration and interface checks,
    the packet reader, the answer policy, the reply writer and the service
    loop.  Opening and binding the socket and event logging are I/O. *)

From S2P Require Import Prelude Bytes Text.

Definition DHCP_SERVER_PORT : Z := 67.
Definition DHCP_CLIENT_PORT : Z := 68.
Definition BOOTP_HEADER_LEN : Z := 236.
Definition DHCP_FIXED_LEN : Z := BOOTP_HEADER_LEN + 4.
Definition MAX_DHCP_PACKET_LEN : Z := 4096.
Definition DHCP_MAGIC_COOKIE : list Z := [99; 130; 83; 99].
Definition OPTION_SUBNET_MASK : Z := 1.
Definition OPTION_REQUESTED_IP : Z := 50.
Definition OPTION_LEASE_TIME : Z := 51.
Definition OPTION_MESSAGE_TYPE : Z := 53.
Definition OPTION_SERVER_IDENTIFIER : Z := 54.
Definition OPTION_PAD : Z := 0.
Definition OPTION_END : Z := 255.

(** An [Ipv4Addr] is its four octets, most significant first. *)
Definition is_ipv4 (a : list Z) : Prop := len a = 4 /\ Forall is_u8 a.
Definition ipv4_to_u32 (a : list Z) : Z := of_be a.
Definition is_unspecified (a : list Z) : bool := eqb_list a [0; 0; 0; 0].
(** [Ipv4Addr::is_multicast]: 224.0.0.0/4. *)
Definition is_multicast (a : list Z) : bool :=
  match a with b :: _ => in_range 224 239 b | [] => false end.

(** ** Interfaces *)
Record LocalInterface := mkLocal { if_name : list Z; if_index : option Z; ipv4_address : option (list Z) }.
Record DhcpInterface := mkInterface { sel_name : list Z; sel_index : Z }.

Inductive if_error :=
| BadInterfaceName | NoIndex | NotPresent | ManyIndexes | IndexChanged | OwnerNoIndex
| NotAssigned | AmbiguousBind.

Definition validate_interface_name (n : list Z) : res if_error unit :=
  refuse (eqb_list n [] || existsb (Z.eqb 0) (utf8 n)) BadInterfaceName.

(** [DhcpInterface::new]; the index is a [NonZeroU32]. *)
Definition interface_new (n : list Z) (index : Z) : res if_error DhcpInterface :=
  _ ← validate_interface_name n; Ok (mkInterface n index).

(** [index.and_then(NonZeroU32::new)] *)
Definition usable_index (i : LocalInterface) : option Z :=
  index ← if_index i; if index =? 0 then None else Some index.

(** A [BTreeSet]: insertion without duplicates; only membership and size are read. *)
Definition set_insert {A} `{EqDecision A} (x : A) (s : list A) : list A :=
  if bool_decide (x ∈ s) then s else s ++ [x].

Definition add_index (n : list Z) (indexes : list Z) (i : LocalInterface) : res if_error (list Z) :=
  if eqb_list (if_name i) n then
    index ← ok_or (usable_index i) NoIndex; Ok (set_insert index indexes)
  else Ok indexes.
Definition index_for_name (interfaces : list LocalInterface) (n : list Z) : res if_error Z :=
  indexes ← foldM (add_index n) [] interfaces;
  match indexes with
  | [] => Err NotPresent
  | [index] => Ok index
  | _ => Err ManyIndexes
  end.

(** [DhcpInterface::resolve] over the enumerated interfaces. *)
Definition interface_resolve (interfaces : list LocalInterface) (n : list Z) : res if_error DhcpInterface :=
  _ ← validate_interface_name n;
  index ← index_for_name interfaces n;
  interface_new n index.

Definition add_owner (address : list Z) (owners : list (list Z * Z)) (i : LocalInterface)
  : res if_error (list (list Z * Z)) :=
  if bool_decide (ipv4_address i = Some address) then
    index ← ok_or (usable_index i) OwnerNoIndex; Ok (set_insert (if_name i, index) owners)
  else Ok owners.
Definition validate_interface_in_records (interfaces : list LocalInterface) (sel : DhcpInterface)
  (address : list Z) : res if_error unit :=
  current ← index_for_name interfaces (sel_name sel);
  _ ← refuse (negb (current =? sel_index sel)) IndexChanged;
  owners ← foldM (add_owner address) [] interfaces;
  _ ← refuse (negb (bool_decide ((sel_name sel, sel_index sel) ∈ owners))) NotAssigned;
  refuse (negb (len owners =? 1)) AmbiguousBind.

(** ** Configuration *)
Record DhcpConfig := mkConfig
  { server_address : list Z; target_address : list Z; expected_client_mac : list Z;
    subnet_mask : list Z; lease_seconds : Z }.

Inductive config_error :=
| NotUnicast | SameAddress | ZeroMac | MulticastMac | ZeroLease | BadMask | OtherSubnet
| ServerUnusable | TargetUnusable.

Definition validate_concrete_unicast (a : list Z) : res config_error unit :=
  refuse (is_unspecified a || is_multicast a || eqb_list a [255; 255; 255; 255]) NotUnicast.

(** [u32::leading_ones], by bits from the top. *)
Fixpoint leading_ones_from (n : nat) (v : Z) : Z :=
  match n with
  | O => 0
  | S n => if Z.testbit v (Z.of_nat n) then 1 + leading_ones_from n v else 0
  end.
Definition leading_ones (v : Z) : Z := leading_ones_from 32 v.
(** [!v] and [v << n] on [u32]. *)
Definition u32_not (v : Z) : Z := u32_max - v.
Definition u32_shl (v n : Z) : Z := Z.shiftl v n mod 2 ^ 32.

Definition validate (c : DhcpConfig) : res config_error unit :=
  _ ← validate_concrete_unicast (server_address c);
  _ ← validate_concrete_unicast (target_address c);
  _ ← refuse (eqb_list (server_address c) (target_address c)) SameAddress;
  _ ← refuse (eqb_list (expected_client_mac c) (fill 6 0)) ZeroMac;
  first ← or_stuck (get_at (expected_client_mac c) 0);
  _ ← refuse (negb (Z.land first 1 =? 0)) MulticastMac;
  _ ← refuse (lease_seconds c =? 0) ZeroLease;
  let mask := ipv4_to_u32 (subnet_mask c) in
  let prefix_len := leading_ones mask in
  let canonical_mask := if prefix_len =? 0 then 0 else u32_shl u32_max (32 - prefix_len) in
  _ ← refuse (negb (mask =? canonical_mask) || negb (in_range 1 30 prefix_len)) BadMask;
  let server := ipv4_to_u32 (server_address c) in
  let target := ipv4_to_u32 (target_address c) in
  let network := Z.land server mask in
  let broadcast := Z.lor network (u32_not mask) in
  _ ← refuse (negb (Z.land target mask =? network)) OtherSubnet;
  _ ← refuse ((server =? network) || (server =? broadcast)) ServerUnusable;
  refuse ((target =? network) || (target =? broadcast)) TargetUnusable.

(** [DhcpConfig::broadcast_destination]: address and port. *)
Definition broadcast_destination (c : DhcpConfig) : list Z * Z :=
  let server := ipv4_to_u32 (server_address c) in
  let mask := ipv4_to_u32 (subnet_mask c) in
  let broadcast := Z.lor (Z.land server mask) (u32_not mask) in
  (to_be 4 broadcast, DHCP_CLIENT_PORT).

(** ** Packets *)
Inductive DhcpMessageType := Discover | Offer | Request | Ack.
#[global] Instance DhcpMessageType_eq_dec : EqDecision DhcpMessageType.
Proof. solve_decision. Defined.
Definition from_option (value : Z) : option DhcpMessageType :=
  if value =? 1 then Some Discover
  else if value =? 2 then Some Offer
  else if value =? 3 then Some Request
  else if value =? 5 then Some Ack
  else None.
Definition message_code (t : DhcpMessageType) : Z :=
  match t with Discover => 1 | Offer => 2 | Request => 3 | Ack => 5 end.

Record DhcpRequest := mkRequest
  { transaction_id : list Z; seconds_elapsed : list Z; req_flags : list Z;
    client_address : list Z; relay_address : list Z; client_mac : list Z;
    message_type : DhcpMessageType; requested_address : option (list Z);
    server_identifier : option (list Z) }.
Record DhcpOptions := mkOptions
  { opt_type : option DhcpMessageType; opt_requested : option (list Z); opt_server : option (list Z) }.

Definition ipv4_from_option (value : list Z) : option (list Z) :=
  if len value =? 4 then Some value else None.

(** The handling of one option's value. *)
Definition apply_option (code : Z) (value : list Z) (o : DhcpOptions) : ropt DhcpOptions :=
  if code =? OPTION_MESSAGE_TYPE then
    _ ← refuse (negb (len value =? 1) || bool_decide (is_Some (opt_type o))) tt;
    b ← or_stuck (get_at value 0);
    t ← ok_or (from_option b) tt;
    Ok (mkOptions (Some t) (opt_requested o) (opt_server o))
  else if code =? OPTION_REQUESTED_IP then
    _ ← refuse (bool_decide (is_Some (opt_requested o))) tt;
    a ← ok_or (ipv4_from_option value) tt;
    Ok (mkOptions (opt_type o) (Some a) (opt_server o))
  else if code =? OPTION_SERVER_IDENTIFIER then
    _ ← refuse (bool_decide (is_Some (opt_server o))) tt;
    a ← ok_or (ipv4_from_option value) tt;
    Ok (mkOptions (opt_type o) (opt_requested o) (Some a))
  else Ok o.

(** [while offset < packet.len()]: the packet is consumed from the front; every
    round consumes at least one byte, so its length bounds the rounds. *)
Fixpoint parse_options_loop (fuel : nat) (packet : list Z) (o : DhcpOptions) : ropt DhcpOptions :=
  match fuel with
  | O => Stuck
  | S fuel =>
    match packet with
    | [] => Err tt
    | code :: rest =>
      if code =? OPTION_PAD then parse_options_loop fuel rest o
      else if code =? OPTION_END then Ok o
      else match rest with
           | [] => Err tt
           | value_len :: rest =>
             value ← ok_or (get_range rest 0 value_len) tt;
             o ← apply_option code value o;
             parse_options_loop fuel (drop (Z.to_nat value_len) rest) o
           end
    end
  end.
Definition parse_options (packet : list Z) : ropt DhcpOptions :=
  parse_options_loop (S (length packet)) packet (mkOptions None None None).

(** [ipv4_from_packet] *)
Definition ipv4_from_packet (packet : list Z) (offset : Z) : ropt (list Z) :=
  or_stuck (get_range packet offset (offset + 4)).
(** [packet[a..b].try_into().ok()?] *)
Definition field (packet : list Z) (a b : Z) : ropt (list Z) := or_stuck (get_range packet a b).

Definition request_parse (packet : list Z) : ropt DhcpRequest :=
  _ ← refuse (len packet <? DHCP_FIXED_LEN) tt;
  b0 ← or_stuck (get_at packet 0);
  b1 ← or_stuck (get_at packet 1);
  b2 ← or_stuck (get_at packet 2);
  cookie ← field packet BOOTP_HEADER_LEN DHCP_FIXED_LEN;
  _ ← refuse (negb (b0 =? 1) || negb (b1 =? 1) || negb (b2 =? 6)
              || negb (eqb_list cookie DHCP_MAGIC_COOKIE)) tt;
  tail ← field packet DHCP_FIXED_LEN (len packet);
  options ← parse_options tail;
  mt ← ok_or (opt_type options) tt;
  xid ← field packet 4 8;
  secs ← field packet 8 10;
  fl ← field packet 10 12;
  mac ← field packet 28 34;
  client ← ipv4_from_packet packet 12;
  relay ← ipv4_from_packet packet 24;
  Ok (mkRequest xid secs fl client relay mac mt (opt_requested options) (opt_server options)).

(** ** The answer policy *)
Definition response_type_for (r : DhcpRequest) (c : DhcpConfig) : ropt DhcpMessageType :=
  _ ← refuse (negb (is_unspecified (relay_address r))) tt;
  _ ← refuse (match server_identifier r with
              | Some identifier => negb (eqb_list identifier (server_address c))
              | None => false
              end) tt;
  match message_type r with
  | Discover => Ok Offer
  | Request =>
    requested ← ok_or (match requested_address r with
                       | Some a => Some a
                       | None => if negb (is_unspecified (client_address r))
                                 then Some (client_address r) else None
                       end) tt;
    _ ← ensure (eqb_list requested (target_address c)) tt;
    Ok Ack
  | Offer | Ack => Err tt
  end.

(** [copy_from_slice] into the reply under construction. *)
Definition put (a b : Z) (w l : list Z) : ropt (list Z) := or_stuck (copy_at l a b w).

Definition build_response (r : DhcpRequest) (c : DhcpConfig) (t : DhcpMessageType) : ropt (list Z) :=
  let response := fill DHCP_FIXED_LEN 0 in
  response ← put 0 1 [2] response;
  response ← put 1 2 [1] response;
  response ← put 2 3 [6] response;
  response ← put 4 8 (transaction_id r) response;
  response ← put 8 10 (seconds_elapsed r) response;
  response ← put 10 12 (req_flags r) response;
  response ← put 16 20 (target_address c) response;
  response ← put 20 24 (server_address c) response;
  response ← put 28 34 (client_mac r) response;
  response ← put BOOTP_HEADER_LEN DHCP_FIXED_LEN DHCP_MAGIC_COOKIE response;
  Ok (response ++ [OPTION_MESSAGE_TYPE; 1; message_code t]
      ++ [OPTION_SERVER_IDENTIFIER; 4] ++ server_address c
      ++ [OPTION_SUBNET_MASK; 4] ++ subnet_mask c
      ++ [OPTION_LEASE_TIME; 4] ++ to_be 4 (lease_seconds c)
      ++ [OPTION_END]).

Definition response_for (r : DhcpRequest) (c : DhcpConfig) : ropt (list Z) :=
  _ ← refuse (negb (eqb_list (client_mac r) (expected_client_mac c))) tt;
  t ← response_type_for r c;
  build_response r c t.

(** ** The service *)
Inductive serve_error :=
| BadConfig (e : config_error) | Enumeration | BadInterface (e : if_error) | BindFailed
| BroadcastFailed | LogFailed | ReceiveFailed.

(** What the loop waits for: a change of the shutdown flag, or a datagram with
    the sender's port; [send_failed] and [log_failed] are the outcomes of the
    calls that answer it. *)
Inductive serve_input :=
| ShutdownChanged (closed requested : bool)
| ReceiveError
| Received (datagram : list Z) (port : Z) (send_failed log_failed : bool).
Inductive ending := Waiting | Stopped | Failed (e : serve_error) | Panicked.
(** A transmission: the reply and its destination. *)
Definition transmission : Type := list Z * (list Z * Z).

(** [&receive_buffer[..received_len]]: a datagram cut to the receive buffer. *)
Definition received (datagram : list Z) : list Z :=
  take (Z.to_nat MAX_DHCP_PACKET_LEN) datagram.
(** [parse] then [response_for]. *)
Definition reply_to (c : DhcpConfig) (datagram : list Z) : ropt (list Z) :=
  request ← request_parse (received datagram);
  response_for request c.

Fixpoint serve_loop (c : DhcpConfig) (inputs : list serve_input) : list transmission * ending :=
  match inputs with
  | [] => ([], Waiting)
  | ShutdownChanged closed requested :: inputs =>
    if closed || requested then ([], Stopped) else serve_loop c inputs
  | ReceiveError :: _ => ([], Failed ReceiveFailed)
  | Received datagram port send_failed log_failed :: inputs =>
    if negb (port =? DHCP_CLIENT_PORT) then serve_loop c inputs
    else match reply_to c datagram with
         | Stuck => ([], Panicked)
         | Err _ => serve_loop c inputs
         | Ok response =>
           let sent := (response, broadcast_destination c) in
           if send_failed && log_failed then ([sent], Failed LogFailed)
           else let '(rest, e) := serve_loop c inputs in (sent :: rest, e)
         end
  end.

(** The I/O the service meets before its loop. *)
Record serve_env := mkEnv
  { interfaces : option (list LocalInterface); bind_ok : bool; broadcast_ok : bool;
    started_logged : bool; already_stopped : bool }.

Definition serve_setup (c : DhcpConfig) (sel : DhcpInterface) (env : serve_env)
  : res serve_error unit :=
  _ ← map_err BadConfig (validate c);
  records ← ok_or (interfaces env) Enumeration;
  _ ← map_err BadInterface (validate_interface_in_records records sel (server_address c));
  _ ← ensure (bind_ok env) BindFailed;
  _ ← ensure (broadcast_ok env) BroadcastFailed;
  ensure (started_logged env) LogFailed.
Definition serve_on_interface (c : DhcpConfig) (sel : DhcpInterface) (env : serve_env)
  (inputs : list serve_input) : list transmission * ending :=
  match serve_setup c sel env with
  | Stuck => ([], Panicked)
  | Err e => ([], Failed e)
  | Ok _ => if already_stopped env then ([], Stopped) else serve_loop c inputs
  end.

(** [serve_on_named_interface]: resolve the name, over a first enumeration of
    the interfaces, then serve on it. *)
Definition serve_on_named_interface (c : DhcpConfig) (n : list Z)
  (resolved : option (list LocalInterface)) (env : serve_env) (inputs : list serve_input)
  : list transmission * ending :=
  match (_ ← map_err BadInterface (validate_interface_name n);
         records ← ok_or resolved Enumeration;
         map_err BadInterface (interface_resolve records n)) with
  | Stuck => ([], Panicked)
  | Err e => ([], Failed e)
  | Ok sel => serve_on_interface c sel env inputs
  end.

(** ** Subnets, arithmetically *)
Section subnet.
Variables (h v : Z).
Hypothesis Hh : 0 <= h <= 32.
Hypothesis Hv : 0 <= v <= u32_max.

Lemma land_mask : Z.land v (2 ^ 32 - 2 ^ h) = v / 2 ^ h * 2 ^ h.
Proof.
  assert (2 ^ 32 - 2 ^ h = Z.shiftl (Z.ones (32 - h)) h) as ->.
  { rewrite Z.shiftl_mul_pow2, Z.ones_equiv by lia.
    assert (2 ^ (32 - h) * 2 ^ h = 2 ^ 32) by (rewrite <- Z.pow_add_r by lia; f_equal; lia). nia. }
  rewrite <- Z.shiftr_div_pow2, <- Z.shiftl_mul_pow2 by lia. apply Z.bits_inj'. intros n Hn.
  rewrite Z.land_spec, !Z.shiftl_spec by done. destruct (decide (n < h)) as [Hlt|Hge].
  - rewrite !(fun a => Z.testbit_neg_r a (n - h)) by lia. apply andb_false_r.
  - rewrite Z.shiftr_spec, Z.sub_add by lia. destruct (decide (n < 32)) as [Hn32|Hn32].
    + rewrite Z.ones_spec_low by lia. apply andb_true_r.
    + rewrite Z.ones_spec_high by lia. rewrite andb_false_r. symmetry.
      apply Z.bits_above_log2; [lia|]. destruct (decide (v = 0)) as [->|]; [cbn; lia|].
      apply Z.log2_lt_pow2; [lia|]. unfold u32_max in Hv.
      assert (2 ^ 32 <= 2 ^ n) by (apply Z.pow_le_mono_r; lia). lia.
Qed.

Lemma lor_host q : Z.lor (q * 2 ^ h) (2 ^ h - 1) = q * 2 ^ h + (2 ^ h - 1).
Proof.
  apply lor_disjoint. rewrite Z.sub_1_r, <- Z.ones_equiv, Z.land_ones by lia.
  apply Z.mod_mul. pose proof (Z.pow_pos_nonneg 2 h). lia.
Qed.
End subnet.

(** The canonical prefix masks, decided by enumeration. *)
Lemma prefix_masks n : 1 <= n <= 30 ->
  u32_shl u32_max (32 - n) = 2 ^ 32 - 2 ^ (32 - n) /\ leading_ones (2 ^ 32 - 2 ^ (32 - n)) = n.
Proof.
  intros Hn. assert (forallb (fun n => (u32_shl u32_max (32 - n) =? 2 ^ 32 - 2 ^ (32 - n))
    && (leading_ones (2 ^ 32 - 2 ^ (32 - n)) =? n)) (seqZ 1 30) = true) as Hall by by vm_compute.
  rewrite forallb_forall in Hall. specialize (Hall n).
  rewrite andb_true_iff, !Z.eqb_eq in Hall. apply Hall, list_elem_of_In, elem_of_seqZ. lia.
Qed.

Lemma mask_guard mask : let n := leading_ones mask in
  negb (mask =? if n =? 0 then 0 else u32_shl u32_max (32 - n)) || negb (in_range 1 30 n) = false <->
  exists h, 2 <= h <= 31 /\ mask = 2 ^ 32 - 2 ^ h.
Proof.
  cbv zeta. rewrite orb_false_iff, !negb_false_iff, Z.eqb_eq, in_range_true. split.
  - intros [Hm Hn]. rewrite (proj2 (Z.eqb_neq (leading_ones mask) 0)) in Hm by lia.
    rewrite (proj1 (prefix_masks _ Hn)) in Hm. exists (32 - leading_ones mask). lia.
  - intros (h & Hh & ->). destruct (prefix_masks (32 - h) ltac:(lia)) as [E1 E2].
    replace (32 - (32 - h)) with h in * by lia. rewrite E2.
    rewrite (proj2 (Z.eqb_neq (32 - h) 0)) by lia. replace (32 - (32 - h)) with h by lia.
    split; [done|lia].
Qed.

(** ** What a validated configuration promises *)
Definition unicast (a : list Z) : Prop :=
  let v := ipv4_to_u32 a in
  v <> 0 /\ v <> u32_max /\ ~ (224 * 2 ^ 24 <= v < 240 * 2 ^ 24).

(** [v] is a host of the [h]-bit subnet numbered [q], neither its network nor
    its broadcast address. *)
Definition usable_host (h q v : Z) : Prop := v / 2 ^ h = q /\ 0 < v mod 2 ^ h < 2 ^ h - 1.

Record config_typed (c : DhcpConfig) : Prop := {
  typed_server : is_ipv4 (server_address c);
  typed_target : is_ipv4 (target_address c);
  typed_mask : is_ipv4 (subnet_mask c);
  typed_mac : len (expected_client_mac c) = 6 /\ Forall is_u8 (expected_client_mac c);
  typed_lease : 0 <= lease_seconds c <= u32_max;
}.

Record config_ok (c : DhcpConfig) : Prop := {
  cfg_unicast : unicast (server_address c) /\ unicast (target_address c);
  cfg_distinct : server_address c <> target_address c;
  cfg_mac : expected_client_mac c <> fill 6 0 /\
            exists b, get_at (expected_client_mac c) 0 = Some b /\ Z.even b = true;
  cfg_lease : lease_seconds c <> 0;
  cfg_subnet : exists h q, 2 <= h <= 31 /\ ipv4_to_u32 (subnet_mask c) = 2 ^ 32 - 2 ^ h /\
    usable_host h q (ipv4_to_u32 (server_address c)) /\
    usable_host h q (ipv4_to_u32 (target_address c));
}.

Lemma ipv4_cases a : is_ipv4 a -> exists w x y z, a = [w; x; y; z] /\ is_u8 w /\ is_u8 x /\ is_u8 y /\ is_u8 z.
Proof.
  intros [Hl Hu]. unfold len in Hl. destruct a as [|w [|x [|y [|z [|? ?]]]]]; cbn in Hl; try lia.
  rewrite !Forall_cons in Hu. destruct Hu as (? & ? & ? & ? & _). by exists w, x, y, z.
Qed.

Lemma ipv4_value w x y z : ipv4_to_u32 [w; x; y; z] = w * 2 ^ 24 + x * 2 ^ 16 + y * 2 ^ 8 + z.
Proof. apply of_be_4. Qed.

Lemma ipv4_range a : is_ipv4 a -> 0 <= ipv4_to_u32 a <= u32_max.
Proof. intros [Hl Hu]. by apply of_be_u32. Qed.

Lemma unicast_guard a : is_ipv4 a ->
  is_unspecified a || is_multicast a || eqb_list a [255; 255; 255; 255] = false <-> unicast a.
Proof.
  intros (w & x & y & z & -> & Hw & Hx & Hy & Hz)%ipv4_cases. unfold unicast.
  rewrite ipv4_value, !orb_false_iff. unfold is_unspecified, is_multicast, eqb_list, is_u8, u8_max, u32_max in *.
  rewrite !bool_decide_eq_false, in_range_false. split.
  - intros [[H0 Hm] H255]. split_and!; [| |lia].
    + intros E. apply H0. assert (w = 0 /\ x = 0 /\ y = 0 /\ z = 0) as (-> & -> & -> & ->) by lia. done.
    + intros E. apply H255. assert (w = 255 /\ x = 255 /\ y = 255 /\ z = 255) as (-> & -> & -> & ->) by lia. done.
  - intros (H0 & H255 & Hm). split_and!; [intros [= -> -> -> ->]; lia|lia|intros [= -> -> -> ->]; lia].
Qed.

Lemma network_guards h s t : 2 <= h <= 31 -> 0 <= s <= u32_max -> 0 <= t <= u32_max ->
  let mask := 2 ^ 32 - 2 ^ h in
  let network := Z.land s mask in
  let broadcast := Z.lor network (u32_not mask) in
  network = s / 2 ^ h * 2 ^ h /\ broadcast = network + (2 ^ h - 1) /\
  ((Z.land t mask = network /\ (s <> network /\ s <> broadcast) /\ (t <> network /\ t <> broadcast)) <->
   usable_host h (s / 2 ^ h) s /\ usable_host h (s / 2 ^ h) t).
Proof.
  intros Hh Hs Ht. cbv zeta. rewrite !land_mask by lia.
  assert (u32_not (2 ^ 32 - 2 ^ h) = 2 ^ h - 1) as -> by (unfold u32_not, u32_max; lia).
  rewrite lor_host by lia. split; [done|]. split; [done|].
  assert (0 < 2 ^ h) as Hp by (apply Z.pow_pos_nonneg; lia). unfold usable_host.
  pose proof (Z.div_mod s (2 ^ h) ltac:(lia)). pose proof (Z.mod_pos_bound s (2 ^ h) Hp).
  pose proof (Z.div_mod t (2 ^ h) ltac:(lia)). pose proof (Z.mod_pos_bound t (2 ^ h) Hp).
  remember (s / 2 ^ h) as qs. remember (t / 2 ^ h) as qt. remember (2 ^ h) as p.
  split.
  - intros (E & Hsn & Htn). assert (qt = qs) as -> by nia. lia.
  - intros ((_ & Hsm) & (-> & Htm)). lia.
Qed.

Lemma even_bit b : negb (Z.land b 1 =? 0) = negb (Z.even b).
Proof. change 1 with (2 ^ 0). by rewrite land_pow2_testbit, Z.bit0_odd, <- Z.negb_even by lia. Qed.

Lemma validate_Ok c : config_typed c -> validate c = Ok tt <-> config_ok c.
Proof.
  intros [Hs Ht Hm [Hml Hmu] _].
  pose proof (ipv4_range _ Hs) as Hsr. pose proof (ipv4_range _ Ht) as Htr.
  unfold validate, validate_concrete_unicast. split.
  - intros Hv. rewrite !refuse_bind_Ok, !unicast_guard in Hv by done. unfold eqb_list in Hv.
    rewrite !bool_decide_eq_false in Hv. destruct Hv as (Hus & Hut & Hd & Hmac & Hv).
    apply bind_Ok in Hv as (b & Hb%or_stuck_Ok & Hv). cbv zeta in Hv.
    rewrite !refuse_bind_Ok, even_bit, mask_guard in Hv.
    destruct Hv as (Hev%negb_false_iff & Hl & (h & Hh & Em) & Hsub & Hsrv & Htgt%refuse_Ok). rewrite Em in *.
    rewrite !orb_false_iff, !Z.eqb_neq in Hsrv, Htgt. bool_prop.
    destruct (network_guards h _ _ Hh Hsr Htr) as (_ & _ & Hnet).
    destruct (proj1 Hnet) as [Hu1 Hu2]; [done|].
    split; try done; [split; [done|by exists b]|by eexists _, _].
  - intros [[Hus Hut] Hd [Hmac (b & Hb & Hev)] Hl (h & q & Hh & Em & Hu1 & Hu2)].
    guard_by ltac:(by apply unicast_guard). guard_by ltac:(by apply unicast_guard).
    guard_by ltac:(by apply bool_decide_eq_false_2). guard_by ltac:(by apply bool_decide_eq_false_2).
    step_by ltac:(by apply or_stuck_Ok). guard_by ltac:(rewrite even_bit; by apply negb_false_iff).
    guard_by ltac:(by apply Z.eqb_neq). cbv zeta. guard_by ltac:(apply mask_guard; by exists h).
    rewrite Em. destruct (network_guards h _ _ Hh Hsr Htr) as (_ & _ & Hnet).
    pose proof (proj1 Hu1) as Eq. rewrite <- Eq in Hu1, Hu2.
    destruct (proj2 Hnet (conj Hu1 Hu2)) as (H1 & H2 & H3).
    guard_by ltac:(by apply negb_false_iff, Z.eqb_eq).
    guard_by ltac:(by rewrite orb_false_iff, !Z.eqb_neq).
    apply refuse_Ok. by rewrite orb_false_iff, !Z.eqb_neq.
Qed.

(** ** Interfaces *)
Lemma set_insert_elem {A} `{EqDecision A} (x y : A) s : y ∈ set_insert x s <-> y = x \/ y ∈ s.
Proof.
  unfold set_insert. case_bool_decide; [set_solver|].
  rewrite elem_of_app, list_elem_of_singleton. tauto.
Qed.
Lemma set_insert_NoDup {A} `{EqDecision A} (x : A) s : NoDup s -> NoDup (set_insert x s).
Proof. unfold set_insert. case_bool_decide; [done|]. by rewrite NoDup_snoc. Qed.

(** A loop that collects [g x] for the selected items, failing when one has none. *)
Lemma collect_loop {E A B} `{EqDecision B} (sel : A -> bool) (g : A -> option B) (e : E) l :
  forall s s', NoDup s ->
  foldM (fun s x => if sel x then y ← ok_or (g x) e; Ok (set_insert y s) else Ok s) s l = Ok s' ->
  NoDup s' /\ (forall x, x ∈ l -> sel x = true -> is_Some (g x)) /\
  (forall y, y ∈ s' <-> y ∈ s \/ exists x, x ∈ l /\ sel x = true /\ g x = Some y).
Proof.
  induction l as [|x l IH]; intros s s' Hnd; cbn [foldM].
  - intros [= <-]. split; [done|]. split; [set_solver|]. intros y. set_solver.
  - intros (s1 & H1 & Hl)%bind_Ok. destruct (sel x) eqn:Hx.
    + apply bind_Ok in H1 as (y0 & Hy0%ok_or_Ok & [= <-]).
      apply IH in Hl as (? & Hall & Hmem); [|by apply set_insert_NoDup]. split; [done|]. split.
      * intros x' [->|Hx']%elem_of_cons Hs; [by eexists|eauto].
      * intros y. rewrite Hmem, set_insert_elem. split.
        -- intros [[->|?]|(x' & ? & ? & ?)]; [right; exists x; set_solver|by left|right; exists x'; set_solver].
        -- intros [?|(x' & [->|?]%elem_of_cons & ? & ?)]; [tauto|left; left; congruence|right; by exists x'].
    + injection H1 as <-. apply IH in Hl as (? & Hall & Hmem); [|done]. split; [done|]. split.
      * intros x' [->|Hx']%elem_of_cons Hs; [congruence|eauto].
      * intros y. rewrite Hmem. split.
        -- intros [?|(x' & ? & ? & ?)]; [by left|right; exists x'; set_solver].
        -- intros [?|(x' & [->|?]%elem_of_cons & ? & ?)]; [by left|congruence|right; by exists x'].
Qed.

Lemma collect_total {E A B} `{EqDecision B} (sel : A -> bool) (g : A -> option B) (e : E) l :
  (forall x, x ∈ l -> sel x = true -> is_Some (g x)) -> forall s,
  exists s', foldM (fun s x => if sel x then y ← ok_or (g x) e; Ok (set_insert y s) else Ok s) s l = Ok s'.
Proof.
  induction l as [|x l IH]; intros Hall s; cbn [foldM]; [by eexists|].
  assert (forall x, x ∈ l -> sel x = true -> is_Some (g x)) as Hl by (intros; apply Hall; set_solver).
  destruct (sel x) eqn:Hx; [|apply (IH Hl)].
  destruct (Hall x ltac:(set_solver) Hx) as [y ->]. apply (IH Hl).
Qed.

(** A duplicate-free list with one member. *)
Lemma singleton_iff {A} (l : list A) x : NoDup l -> l = [x] <-> x ∈ l /\ forall y, y ∈ l -> y = x.
Proof.
  intros Hnd. split.
  - intros ->. split; [set_solver|]. intros y. by rewrite list_elem_of_singleton.
  - intros [Hx Hall]. destruct l as [|a [|b l]]; [by apply elem_of_nil in Hx| |].
    + f_equal. apply Hall. set_solver.
    + exfalso. apply NoDup_cons in Hnd as [Ha _]. apply Ha.
      rewrite (Hall a), <- (Hall b); set_solver.
Qed.

Lemma index_for_name_Ok l n index : index_for_name l n = Ok index <->
  (exists i, i ∈ l /\ if_name i = n) /\
  (forall i, i ∈ l -> if_name i = n -> usable_index i = Some index).
Proof.
  unfold index_for_name, add_index.
  assert (forall s, foldM (fun s i => if eqb_list (if_name i) n then
      index ← ok_or (usable_index i) NoIndex; Ok (set_insert index s) else Ok s) [] l = Ok s ->
    s = [index] <-> (exists i, i ∈ l /\ if_name i = n) /\
      (forall i, i ∈ l -> if_name i = n -> usable_index i = Some index)) as Hs.
  { intros s Hf. apply collect_loop in Hf as (Hnd & Hall & Hmem); [|constructor].
    setoid_rewrite eqb_list_true in Hall. setoid_rewrite eqb_list_true in Hmem.
    rewrite singleton_iff by done. split.
    - intros [Hin Honly]. apply Hmem in Hin as [Hin|(i & Hi & Hn & _)]; [by apply elem_of_nil in Hin|].
      split; [by exists i|]. intros j Hj Hjn. destruct (Hall j Hj Hjn) as [y Hy]. rewrite Hy. f_equal.
      apply Honly, Hmem. right. by exists j.
    - intros [(i & Hi & Hn) Heq]. split.
      + apply Hmem. right. exists i. by auto.
      + intros y [Hy|(j & Hj & Hjn & Hjy)]%Hmem; [by apply elem_of_nil in Hy|].
        rewrite (Heq j Hj Hjn) in Hjy. congruence. }
  split.
  - intros (s & Hf & Hm)%bind_Ok. apply Hs in Hf as Hiff. apply Hiff.
    destruct s as [|a [|b s]]; congruence.
  - intros Hspec. destruct (collect_total (fun i => eqb_list (if_name i) n) usable_index NoIndex l) with (s := @nil Z)
      as [s Hf].
    { intros i Hi Hn%eqb_list_true. rewrite (proj2 Hspec i Hi Hn). by eexists. }
    rewrite Hf. cbn. apply Hs in Hf as Hiff. by rewrite (proj2 Hiff Hspec).
Qed.

(** The owner pair of a record. *)
Definition owner_of (i : LocalInterface) : option (list Z * Z) := pair (if_name i) <$> usable_index i.

Lemma add_owner_alt address s i : add_owner address s i =
  if bool_decide (ipv4_address i = Some address) then
    y ← ok_or (owner_of i) OwnerNoIndex; Ok (set_insert y s)
  else Ok s.
Proof. unfold add_owner, owner_of. case_bool_decide; [|done]. by destruct (usable_index i). Qed.

Lemma owner_of_Some i n x : owner_of i = Some (n, x) <-> if_name i = n /\ usable_index i = Some x.
Proof. unfold owner_of. destruct (usable_index i); cbn; naive_solver. Qed.

Lemma owners_Ok l sel address :
  (exists owners, foldM (add_owner address) [] l = Ok owners /\ owners = [(sel_name sel, sel_index sel)]) <->
  (exists i, i ∈ l /\ ipv4_address i = Some address) /\
  (forall i, i ∈ l -> ipv4_address i = Some address ->
     if_name i = sel_name sel /\ usable_index i = Some (sel_index sel)).
Proof.
  rewrite (foldM_ext _ _ l (add_owner_alt address)).
  set (f := fun i => bool_decide (ipv4_address i = Some address)).
  assert (forall i, f i = true <-> ipv4_address i = Some address) as Hf
    by (intros; apply bool_decide_eq_true). split.
  - intros (owners & Hfold & Ho). apply (collect_loop f owner_of) in Hfold as (Hnd & Hall & Hmem); [|constructor].
    apply singleton_iff in Ho as [Hin Honly]; [|done].
    apply Hmem in Hin as [Hin|(i & Hi & Ha%Hf & _)]; [by apply elem_of_nil in Hin|].
    split; [by exists i|]. intros j Hj Hja%Hf. destruct (Hall j Hj Hja) as [y Hy].
    rewrite <- owner_of_Some, Hy. f_equal. apply Honly, Hmem. right. by exists j.
  - intros [(i & Hi & Ha) Heq].
    destruct (collect_total f owner_of OwnerNoIndex l) with (s := @nil (list Z * Z)) as [owners Hfold].
    { intros j Hj Hja%Hf. eexists. apply owner_of_Some. by apply Heq. }
    exists owners. split; [done|].
    apply (collect_loop f owner_of) in Hfold as (Hnd & Hall & Hmem); [|constructor].
    apply singleton_iff; [done|]. split.
    + apply Hmem. right. exists i. rewrite owner_of_Some. split_and!; [done|by apply Hf|by apply Heq..].
    + intros y [Hy|(j & Hj & Hja%Hf & Hjy)]%Hmem; [by apply elem_of_nil in Hy|].
      pose proof (proj2 (owner_of_Some j _ _) (Heq j Hj Hja)) as E. congruence.
Qed.

Lemma interface_valid_Ok l sel address :
  validate_interface_in_records l sel address = Ok tt <->
  (forall i, i ∈ l -> if_name i = sel_name sel -> usable_index i = Some (sel_index sel)) /\
  (exists i, i ∈ l /\ ipv4_address i = Some address) /\
  (forall i, i ∈ l -> ipv4_address i = Some address ->
     if_name i = sel_name sel /\ usable_index i = Some (sel_index sel)).
Proof.
  rewrite <- owners_Ok. unfold validate_interface_in_records. split.
  - intros (current & Hc & [Hcur Hv]%refuse_bind_Ok)%bind_Ok. bool_prop. subst current.
    apply index_for_name_Ok in Hc as [_ Hall]. split; [done|].
    apply bind_Ok in Hv as (owners & Ho & [Hin Hlen%refuse_Ok]%refuse_bind_Ok). bool_prop.
    exists owners. split; [done|]. destruct owners as [|o [|o2 owners]].
    + by apply elem_of_nil in Hin.
    + apply list_elem_of_singleton in Hin. by subst.
    + rewrite !len_cons in Hlen. pose proof (len_nonneg owners). lia.
  - intros [Hall (owners & Ho & ->)].
    assert (index_for_name l (sel_name sel) = Ok (sel_index sel)) as Hidx.
    { apply index_for_name_Ok. split; [|done].
      assert (exists owners, foldM (add_owner address) [] l = Ok owners /\
        owners = [(sel_name sel, sel_index sel)]) as Hex by eauto.
      apply owners_Ok in Hex as [(i & Hi & Ha) Heq]. exists i. split; [done|]. by apply Heq. }
    step_by ltac:(exact Hidx). guard_by ltac:(by rewrite Z.eqb_refl).
    step_by ltac:(exact Ho). guard_by ltac:(apply negb_false_iff, bool_decide_eq_true_2; set_solver).
    done.
Qed.

(** ** Packets *)
Record request_ok (r : DhcpRequest) : Prop := {
  req_xid : len (transaction_id r) = 4;
  req_secs : len (seconds_elapsed r) = 2;
  req_fl : len (req_flags r) = 2;
  req_mac : len (client_mac r) = 6;
}.

(** The reply, field by field. *)
Definition reply_options (c : DhcpConfig) (t : DhcpMessageType) : list Z :=
  [OPTION_MESSAGE_TYPE; 1; message_code t] ++ [OPTION_SERVER_IDENTIFIER; 4] ++ server_address c
  ++ [OPTION_SUBNET_MASK; 4] ++ subnet_mask c ++ [OPTION_LEASE_TIME; 4] ++ to_be 4 (lease_seconds c)
  ++ [OPTION_END].
Definition reply_bytes (r : DhcpRequest) (c : DhcpConfig) (t : DhcpMessageType) : list Z :=
  [2; 1; 6; 0] ++ transaction_id r ++ seconds_elapsed r ++ req_flags r
  ++ [0; 0; 0; 0] ++ target_address c ++ server_address c ++ [0; 0; 0; 0]
  ++ client_mac r ++ fill 202 0 ++ DHCP_MAGIC_COOKIE ++ reply_options c t.

Lemma len_2 (l : list Z) : len l = 2 -> exists a b, l = [a; b].
Proof. unfold len. destruct l as [|a [|b [|? ?]]]; cbn; try lia. by exists a, b. Qed.
Lemma len_4 (l : list Z) : len l = 4 -> exists a b c d, l = [a; b; c; d].
Proof. unfold len. destruct l as [|a [|b [|c [|d [|? ?]]]]]; cbn; try lia. by exists a, b, c, d. Qed.
Lemma len_6 (l : list Z) : len l = 6 -> exists a b c d e f, l = [a; b; c; d; e; f].
Proof.
  unfold len. destruct l as [|a [|b [|c [|d [|e [|f [|? ?]]]]]]]; cbn; try lia. by exists a, b, c, d, e, f.
Qed.

Lemma build_response_bytes r c t : request_ok r -> config_typed c ->
  build_response r c t = Ok (reply_bytes r c t).
Proof.
  destruct r as [xid secs fl ca ra mac mt ra' si], c as [srv tgt emac mask lease].
  intros [Hx Hs Hf Hm] [[Ha _] [Ht _] _ _ _]. cbn in *.
  apply len_4 in Hx as (x1 & x2 & x3 & x4 & ->), Ha as (a1 & a2 & a3 & a4 & ->),
    Ht as (t1 & t2 & t3 & t4 & ->).
  apply len_2 in Hs as (s1 & s2 & ->), Hf as (f1 & f2 & ->).
  apply len_6 in Hm as (m1 & m2 & m3 & m4 & m5 & m6 & ->). reflexivity.
Qed.

(** *** Options as type-length-value items *)
Inductive item := Pad | Opt (code : Z) (value : list Z).
Definition item_ok (i : item) : Prop :=
  match i with Pad => True | Opt code value => 0 < code < 255 /\ len value <= 255 end.
Definition item_bytes (i : item) : list Z :=
  match i with Pad => [OPTION_PAD] | Opt code value => code :: len value :: value end.
Definition item_apply (o : DhcpOptions) (i : item) : ropt DhcpOptions :=
  match i with Pad => Ok o | Opt code value => apply_option code value o end.

Lemma apply_option_not_Stuck code value o : apply_option code value o <> Stuck.
Proof.
  unfold apply_option. not_stuck.
  match goal with H : refuse (negb (len _ =? 1) || _) _ = Ok _ |- _ =>
    apply refuse_Ok, orb_false_iff in H as [H _] end. bool_prop.
  apply or_stuck_not_Stuck, get_at_is_Some. lia.
Qed.
#[local] Hint Resolve apply_option_not_Stuck : aros.

Lemma parse_options_items items rest : Forall item_ok items -> forall fuel o,
  (length (flat_map item_bytes items ++ OPTION_END :: rest) < fuel)%nat ->
  parse_options_loop fuel (flat_map item_bytes items ++ OPTION_END :: rest) o =
  foldM item_apply o items.
Proof.
  induction 1 as [|i items Hi Hitems IH]; intros fuel o Hf; (destruct fuel as [|fuel]; [lia|]).
  - done.
  - destruct i as [|code value]; cbn [flat_map item_bytes app foldM item_apply] in *;
      cbn [parse_options_loop].
    + cbn. apply IH. cbn [length] in Hf. lia.
    + destruct Hi as [Hc Hl]. unfold OPTION_PAD, OPTION_END in *.
      rewrite (proj2 (Z.eqb_neq code 0)), (proj2 (Z.eqb_neq code 255)) by lia.
      rewrite <- app_assoc.
      rewrite get_range_prefix. cbn [ok_or mbind res_bind].
      destruct (apply_option code value o) as [o'| |]; cbn [mbind res_bind]; [|done..].
      rewrite drop_app_length' by (unfold len; lia). apply IH.
      cbn [length] in Hf. rewrite <- app_assoc, length_app in Hf. lia.
Qed.

Lemma parse_options_loop_total fuel : forall packet o,
  Forall is_u8 packet -> (length packet < fuel)%nat -> parse_options_loop fuel packet o <> Stuck.
Proof.
  induction fuel as [|fuel IH]; intros packet o Hu Hf; [lia|]. cbn [parse_options_loop].
  destruct packet as [|code rest]; [done|]. apply Forall_cons in Hu as [_ Hu]. cbn [length] in Hf.
  case_match; [apply IH; [done|lia]|]. case_match; [done|].
  destruct rest as [|n rest]; [done|]. apply Forall_cons in Hu as [_ Hu]. cbn [length] in Hf.
  not_stuck. apply IH; [by apply Forall_drop|]. rewrite length_drop. lia.
Qed.

Lemma request_parse_total packet : Forall is_u8 packet -> request_parse packet <> Stuck.
Proof.
  intros Hu. unfold request_parse, field, ipv4_from_packet. apply bind_not_Stuck; [auto with aros|].
  intros [] Hl. apply refuse_Ok in Hl. bool_prop. unfold DHCP_FIXED_LEN, BOOTP_HEADER_LEN in *.
  not_stuck; try (apply or_stuck_not_Stuck, get_at_is_Some; lia);
    try (apply or_stuck_not_Stuck, get_range_is_Some; lia).
  apply parse_options_loop_total; [|lia].
  match goal with H : or_stuck (get_range packet _ (len packet)) = Ok _ |- _ => apply or_stuck_Ok in H end.
  eauto with aros.
Qed.

Lemma request_parse_Ok packet r : request_parse packet = Ok r ->
  request_ok r /\ get_range packet 28 34 = Some (client_mac r) /\ get_at packet 0 = Some 1 /\
  get_range packet 4 8 = Some (transaction_id r).
Proof.
  unfold request_parse, field. intros Hp.
  repeat match goal with
  | H : (_ ← refuse _ _; _) = Ok _ |- _ => apply refuse_bind_Ok in H as [? H]
  | H : mbind _ _ = Ok _ |- _ => apply bind_Ok in H as (? & ? & H)
  end. injection Hp as <-.
  repeat match goal with H : or_stuck _ = Ok _ |- _ => apply or_stuck_Ok in H end. bool_prop. subst.
  split_and!; try done. split; cbn; by erewrite get_range_len by done.
Qed.

(** *** Replies *)
Lemma response_for_Ok r c resp : request_ok r -> config_typed c ->
  response_for r c = Ok resp <->
  client_mac r = expected_client_mac c /\
  exists t, response_type_for r c = Ok t /\ resp = reply_bytes r c t.
Proof.
  intros Hr Hc. unfold response_for. rewrite refuse_bind_Ok, negb_false_iff, eqb_list_true, bind_Ok.
  setoid_rewrite (fun t => build_response_bytes r c t Hr Hc). naive_solver.
Qed.

Lemma response_for_total r c : request_ok r -> config_typed c -> response_for r c <> Stuck.
Proof.
  intros Hr Hc. unfold response_for. not_stuck.
  - unfold response_type_for. not_stuck.
  - by rewrite build_response_bytes.
Qed.

Lemma reply_to_total c datagram : config_typed c -> Forall is_u8 datagram -> reply_to c datagram <> Stuck.
Proof.
  intros Hc Hu. unfold reply_to. apply bind_not_Stuck.
  - apply request_parse_total. by apply Forall_take.
  - intros r [Hr _]%request_parse_Ok. by apply response_for_total.
Qed.

(** A message is an answer exactly under these conditions. *)
Definition answers (r : DhcpRequest) (c : DhcpConfig) (t : DhcpMessageType) : Prop :=
  relay_address r = [0; 0; 0; 0] /\
  (forall s, server_identifier r = Some s -> s = server_address c) /\
  (message_type r = Discover /\ t = Offer \/
   message_type r = Request /\ t = Ack /\
     (requested_address r = Some (target_address c) \/
      requested_address r = None /\ client_address r = target_address c /\
      target_address c <> [0; 0; 0; 0])).

Lemma response_type_Ok r c t : response_type_for r c = Ok t <-> answers r c t.
Proof.
  unfold response_type_for, answers, is_unspecified.
  rewrite !refuse_bind_Ok, negb_false_iff, eqb_list_true.
  assert (match server_identifier r with
          | Some identifier => negb (eqb_list identifier (server_address c))
          | None => false end = false <->
          forall s, server_identifier r = Some s -> s = server_address c) as Hsrv.
  { destruct (server_identifier r) as [s|]; [rewrite negb_false_iff, eqb_list_true|]; naive_solver. }
  rewrite Hsrv. apply and_iff_compat_l, and_iff_compat_l.
  destruct (message_type r); [split; [by intros [= <-]; left|by intros [[_ ->]|[? _]]]|split; [done|by intros [[? _]|[? _]]]| |split; [done|by intros [[? _]|[? _]]]].
  rewrite bind_Ok. setoid_rewrite ok_or_Ok. setoid_rewrite bind_Ok. setoid_rewrite ensure_Ok.
  setoid_rewrite eqb_list_true. destruct (requested_address r) as [a|]; [naive_solver|].
  destruct (eqb_list (client_address r) [0; 0; 0; 0]) eqn:E; cbn.
  - apply eqb_list_true in E. split; [naive_solver|]. intros [[? _]|(_ & _ & [?|(_ & E2 & Hne)])]; congruence.
  - assert (client_address r <> [0; 0; 0; 0]) by (rewrite <- eqb_list_true; congruence). split.
    + intros (a & [= <-] & u & Ea & [= <-]). right. split_and!; [done..|]. right. by rewrite <- Ea.
    + intros [[? _]|(_ & -> & [?|(_ & E2 & _)])]; [done..|]. eexists. split; [done|]. by exists tt.
Qed.

(** ** The service loop *)
Definition answer_input (c : DhcpConfig) (i : serve_input) : option transmission :=
  match i with
  | Received datagram port _ _ =>
    if port =? DHCP_CLIENT_PORT then
      match reply_to c datagram with Ok resp => Some (resp, broadcast_destination c) | _ => None end
    else None
  | _ => None
  end.
Definition input_typed (i : serve_input) : Prop :=
  match i with Received datagram _ _ _ => Forall is_u8 datagram | _ => True end.

#[local] Opaque reply_to broadcast_destination received.

Lemma serve_loop_spec c inputs : config_typed c -> Forall input_typed inputs ->
  (serve_loop c inputs).2 <> Panicked /\
  exists k, (serve_loop c inputs).1 = omap (answer_input c) (take k inputs) /\
    ((serve_loop c inputs).2 = Waiting -> take k inputs = inputs).
Proof.
  intros Hc. induction 1 as [|i inputs Hi Hin [IHp (k & IHk & IHw)]].
  { split; [done|]. by exists 0%nat. }
  assert (answer_input c i = None -> serve_loop c (i :: inputs) = serve_loop c inputs ->
    (serve_loop c (i :: inputs)).2 <> Panicked /\
    exists k, (serve_loop c (i :: inputs)).1 = omap (answer_input c) (take k (i :: inputs)) /\
      ((serve_loop c (i :: inputs)).2 = Waiting -> take k (i :: inputs) = i :: inputs)) as Hskip.
  { intros Ha ->. split; [done|]. exists (S k). cbn. rewrite Ha. split; [done|].
    intros Hw. by rewrite IHw. }
  destruct i as [closed requested| |d port sf lf]; cbn [serve_loop] in *.
  - destruct (closed || requested); [split; [done|]; by exists 0%nat|by apply Hskip].
  - split; [done|]. by exists 0%nat.
  - cbn in Hi. cbn [answer_input] in Hskip. destruct (port =? DHCP_CLIENT_PORT) eqn:Hp; cbn [negb] in *;
      [|by apply Hskip].
    destruct (reply_to c d) as [resp| |] eqn:Hr; [|by apply Hskip|by destruct (reply_to_total c d)].
    clear Hskip. destruct (sf && lf).
    + split; [done|]. exists 1%nat. cbn. rewrite Hp, Hr. by rewrite take_0.
    + destruct (serve_loop c inputs) as [rest e]. cbn in *. split; [done|]. exists (S k). cbn.
      rewrite Hp, Hr. split; [by rewrite IHk|]. intros Hw. by rewrite IHw.
Qed.

#[local] Transparent reply_to broadcast_destination.

Lemma broadcast_value c : config_typed c -> config_ok c ->
  exists h q, 2 <= h <= 31 /\ usable_host h q (ipv4_to_u32 (server_address c)) /\
    usable_host h q (ipv4_to_u32 (target_address c)) /\
    broadcast_destination c = (to_be 4 (q * 2 ^ h + (2 ^ h - 1)), DHCP_CLIENT_PORT).
Proof.
  intros [Hs Ht _ _ _] [_ _ _ _ (h & q & Hh & Em & Hus & Hut)].
  exists h, q. split; [done|]. split; [done|]. split; [done|].
  unfold broadcast_destination. cbv zeta. rewrite Em.
  destruct (network_guards h _ _ Hh (ipv4_range _ Hs) (ipv4_range _ Ht)) as (E1 & E2 & _).
  rewrite E2, E1. by rewrite (proj1 Hus).
Qed.

Lemma validate_not_Stuck c : config_typed c -> validate c <> Stuck.
Proof.
  intros [_ _ _ [Hmac _] _]. unfold validate, validate_concrete_unicast. not_stuck.
  apply or_stuck_not_Stuck, get_at_is_Some. lia.
Qed.

Lemma index_for_name_not_Stuck l n : index_for_name l n <> Stuck.
Proof.
  unfold index_for_name. not_stuck. apply (foldM_not_Stuck _ (fun _ => True)); [done| |done].
  intros s i _ _. unfold add_index. not_stuck.
Qed.

Lemma serve_setup_not_Stuck c sel env : config_typed c -> serve_setup c sel env <> Stuck.
Proof.
  intros Hc. pose proof (validate_not_Stuck c Hc). pose proof index_for_name_not_Stuck.
  unfold serve_setup. not_stuck. apply map_err_not_Stuck.
  unfold validate_interface_in_records. not_stuck.
  apply (foldM_not_Stuck _ (fun _ => True)); [done| |done].
  intros s i _ _. unfold add_owner. not_stuck.
Qed.

Lemma serve_setup_Ok c sel env : config_typed c -> serve_setup c sel env = Ok tt ->
  config_ok c /\ exists records, interfaces env = Some records /\
    validate_interface_in_records records sel (server_address c) = Ok tt.
Proof.
  intros Hc. unfold serve_setup. intros ([] & Hv%map_err_Ok & Hs)%bind_Ok.
  apply bind_Ok in Hs as (records & Hr%ok_or_Ok & ([] & Hi%map_err_Ok & _)%bind_Ok).
  split; [by apply validate_Ok|by exists records].
Qed.

Lemma answer_input_Some c (inputs : list serve_input) i tx : config_typed c -> i ∈ inputs -> answer_input c i = Some tx ->
  tx.2 = broadcast_destination c /\
  exists datagram sf lf r t, Received datagram DHCP_CLIENT_PORT sf lf ∈ inputs /\
    request_parse (received datagram) = Ok r /\
    client_mac r = expected_client_mac c /\ answers r c t /\ tx.1 = reply_bytes r c t.
Proof.
  intros Hc Hi. unfold answer_input. destruct i as [| |d port sf lf]; [done..|].
  case_match eqn:Hp; [|done]. apply Z.eqb_eq in Hp as ->.
  destruct (reply_to c d) as [resp| |] eqn:Hr; [|done..]. intros [= <-]. split; [done|].
  unfold reply_to in Hr. apply bind_Ok in Hr as (r & Hreq & Hresp).
  apply request_parse_Ok in Hreq as Hro. destruct Hro as [Hro _].
  apply response_for_Ok in Hresp as (Hm & t & Ht%response_type_Ok & ->); [|done..].
  by exists d, sf, lf, r, t.
Qed.

(** ** Claims *)

(** Checks before the service starts.  The configuration check accepts
    exactly two distinct concrete unicast addresses that are usable hosts of one
    /1 to /30 subnet given by a contiguous mask, a unicast non-zero client MAC
    and a non-zero lease.  The interface check accepts exactly when the server
    address is assigned, every record that carries it belongs to the selected
    interface name with the selected non-zero index, and no record of that name
    has another index; so the socket can only be bound to the one selected link. *)
Theorem startup_checks_exact c interfaces sel address : config_typed c ->
  (validate c = Ok tt <-> config_ok c) /\
  (validate_interface_in_records interfaces sel address = Ok tt <->
   (forall i, i ∈ interfaces -> if_name i = sel_name sel -> usable_index i = Some (sel_index sel)) /\
   (exists i, i ∈ interfaces /\ ipv4_address i = Some address) /\
   (forall i, i ∈ interfaces -> ipv4_address i = Some address ->
      if_name i = sel_name sel /\ usable_index i = Some (sel_index sel))).
Proof. intros Hc. split; [by apply validate_Ok|apply interface_valid_Ok]. Qed.

(** C30. Runs of the service: whatever datagrams, failures and shutdown signals
    arrive, it never panics, it transmits nothing unless configuration and
    interface are valid, and its transmissions are, in order, the replies to a
    prefix of the inputs; each goes to port 68 of the subnet broadcast address,
    answers a request of the configured MAC from port 68, and leases only the
    target address. *)
Theorem service_answers_only_its_client c sel env inputs :
  config_typed c -> Forall input_typed inputs ->
  let '(sent, e) := serve_on_interface c sel env inputs in
  e <> Panicked /\
  (sent <> [] -> config_ok c /\ exists records, interfaces env = Some records /\
     validate_interface_in_records records sel (server_address c) = Ok tt) /\
  (exists k, sent = omap (answer_input c) (take k inputs)) /\
  Forall (fun tx => tx.2 = broadcast_destination c /\
    exists datagram sf lf r t, Received datagram DHCP_CLIENT_PORT sf lf ∈ inputs /\
      request_parse (received datagram) = Ok r /\ client_mac r = expected_client_mac c /\
      answers r c t /\ tx.1 = reply_bytes r c t) sent.
Proof.
  intros Hc Hin. unfold serve_on_interface.
  pose proof (serve_setup_not_Stuck c sel env Hc) as Hns.
  destruct (serve_setup c sel env) as [[]|e|] eqn:Hset; [|by split_and!; [..|exists 0%nat|]|done].
  apply serve_setup_Ok in Hset as [Hok Hif]; [|done].
  destruct (already_stopped env); [by split_and!; [..|exists 0%nat|]|].
  pose proof (serve_loop_spec c inputs Hc Hin) as [Hp (k & Hk & _)].
  destruct (serve_loop c inputs) as [sent e]. cbn [fst snd] in *.
  split_and!; [done|done|by exists k|]. subst sent. apply Forall_forall.
  intros tx (i & Hi & Ha)%list_elem_of_omap.
  apply elem_of_take in Hi as (j & Hi%list_elem_of_lookup_2 & _).
  by apply (answer_input_Some c inputs i).
Qed.

(** Answer policy: a request gets a reply exactly when it comes from the
    configured MAC, was not relayed, names no other server, and is a DISCOVER
    or a REQUEST for the target address; the reply is then the OFFER or ACK. *)
Theorem answer_policy_exact r c resp : request_ok r -> config_typed c ->
  response_for r c = Ok resp <->
  client_mac r = expected_client_mac c /\ exists t, answers r c t /\ resp = reply_bytes r c t.
Proof. intros Hr Hc. rewrite response_for_Ok by done. by setoid_rewrite response_type_Ok. Qed.

(** Replies: 262 bytes; the fields are where BOOTP puts them; the option
    reader finds the reply type and the server in them; and the request reader
    refuses a reply, so the service never answers itself. *)
Theorem replies_well_formed r c t : request_ok r -> config_typed c ->
  build_response r c t = Ok (reply_bytes r c t) /\
  len (reply_bytes r c t) = 262 /\
  get_range (reply_bytes r c t) 4 8 = Some (transaction_id r) /\
  get_range (reply_bytes r c t) 16 20 = Some (target_address c) /\
  get_range (reply_bytes r c t) 20 24 = Some (server_address c) /\
  get_range (reply_bytes r c t) 28 34 = Some (client_mac r) /\
  parse_options (slice (reply_bytes r c t) 240 262) =
    Ok (mkOptions (Some t) None (Some (server_address c))) /\
  request_parse (reply_bytes r c t) = Err tt.
Proof.
  intros Hr Hc. split; [by apply build_response_bytes|].
  destruct r as [xid secs fl ca ra mac mt ra' si], c as [srv tgt emac mask lease].
  destruct Hr as [Hx Hs Hf Hm], Hc as [[Ha _] [Ht _] [Hk _] _ _]. cbn in *.
  pose proof (len_to_be 4 lease) as Hls. unfold reply_bytes, reply_options. cbn [lease_seconds].
  remember (to_be 4 lease) as ls eqn:E. clear E.
  apply len_4 in Hx as (x1 & x2 & x3 & x4 & ->), Ha as (a1 & a2 & a3 & a4 & ->),
    Ht as (t1 & t2 & t3 & t4 & ->), Hk as (k1 & k2 & k3 & k4 & ->), Hls as (l1 & l2 & l3 & l4 & ->).
  apply len_2 in Hs as (s1 & s2 & ->), Hf as (f1 & f2 & ->).
  apply len_6 in Hm as (m1 & m2 & m3 & m4 & m5 & m6 & ->). destruct t; split_and!; reflexivity.
Qed.

(** Option reader: on any sequence of padding and type-length-value items
    up to the end option it applies the items in order and ignores what
    follows; on every other byte string it stops without panic. *)
Theorem option_reader_exact items rest packet :
  Forall item_ok items -> Forall is_u8 packet ->
  parse_options (flat_map item_bytes items ++ OPTION_END :: rest) =
    foldM item_apply (mkOptions None None None) items /\
  parse_options packet <> Stuck.
Proof.
  intros Hi Hu. unfold parse_options. split.
  - apply parse_options_items; [done|lia].
  - apply parse_options_loop_total; [done|lia].
Qed.

(** ** Witness: a /24 lab link *)
Definition demo_config : DhcpConfig :=
  mkConfig [192; 168; 7; 1] [192; 168; 7; 2] [2; 0; 0; 0; 0; 9] [255; 255; 255; 0] 3600.
Definition demo_request : DhcpRequest :=
  mkRequest [1; 2; 3; 4] [0; 0] [128; 0] [0; 0; 0; 0] [0; 0; 0; 0] [2; 0; 0; 0; 0; 9] Discover None None.
Definition demo_discover : list Z :=
  [1; 1; 6; 0; 1; 2; 3; 4; 0; 0; 128; 0] ++ fill 16 0 ++ [2; 0; 0; 0; 0; 9] ++ fill 202 0
  ++ DHCP_MAGIC_COOKIE ++ [53; 1; 1; 255].

Lemma demo_typed : config_typed demo_config.
Proof.
  split; cbn; try (split; [done|apply forallb_u8; by vm_compute]). by vm_compute.
Qed.

Lemma startup_checks_exact_witness : config_ok demo_config /\
  exists i, i ∈ [mkLocal (rs "usb0") (Some 4) (Some [192; 168; 7; 1])] /\ ipv4_address i = Some [192; 168; 7; 1].
Proof.
  destruct (startup_checks_exact demo_config [mkLocal (rs "usb0") (Some 4) (Some [192; 168; 7; 1])]
    (mkInterface (rs "usb0") 4) [192; 168; 7; 1] demo_typed) as [H1 H2].
  split; [apply H1; by vm_compute|apply H2; by vm_compute].
Defined.

Definition demo_inputs : list serve_input :=
  [Received demo_discover 68 false false; Received demo_discover 67 false false;
   ShutdownChanged false true].
Definition demo_env : serve_env :=
  mkEnv (Some [mkLocal (rs "usb0") (Some 4) (Some [192; 168; 7; 1])]) true true true false.
Definition demo_sent : list transmission :=
  [(reply_bytes demo_request demo_config Offer, ([192; 168; 7; 255], 68))].

Lemma demo_run :
  serve_on_interface demo_config (mkInterface (rs "usb0") 4) demo_env demo_inputs = (demo_sent, Stopped).
Proof. by vm_compute. Qed.

Lemma service_answers_only_its_client_witness :
  exists k, demo_sent = omap (answer_input demo_config) (take k demo_inputs).
Proof.
  pose proof (service_answers_only_its_client demo_config (mkInterface (rs "usb0") 4) demo_env
    demo_inputs demo_typed) as Hs.
  rewrite demo_run in Hs. apply Hs. unfold demo_inputs.
  rewrite !Forall_cons. split_and!; [apply forallb_u8; by vm_compute..|done|constructor].
Defined.

Lemma answer_policy_exact_witness :
  response_for demo_request demo_config = Ok (reply_bytes demo_request demo_config Offer).
Proof.
  apply answer_policy_exact; [by split|apply demo_typed|]. split; [done|]. exists Offer.
  split; [|done]. split; [done|]. split; [done|]. by left.
Defined.

Lemma replies_well_formed_witness :
  request_parse (reply_bytes demo_request demo_config Ack) = Err tt.
Proof. apply (replies_well_formed demo_request demo_config Ack); [by split|apply demo_typed]. Defined.

Lemma option_reader_exact_witness :
  parse_options ([0; 53; 1; 3; 50; 4; 10; 0; 0; 1; 255; 7]) =
    Ok (mkOptions (Some Request) (Some [10; 0; 0; 1]) None).
Proof.
  apply (option_reader_exact [Pad; Opt 53 [3]; Opt 50 [10; 0; 0; 1]] [7] []);
    [repeat constructor; by vm_compute|constructor].
Defined.
