(* ===== verification/Elf.v ===== *)
(** * Elf: the bounded ELF reader

    Models [crates/aros-common/src/elf.rs]: identification, the section table
    with its extended counts, name resolution under an allocation budget, and
    the symbol table, for little-endian ELF32 and ELF64. *)

From S2P Require Import Prelude Bytes Text.

Inductive Class := Elf32 | Elf64.
#[global] Instance Class_eq_dec : EqDecision Class.
Proof. solve_decision. Defined.

Definition pointer_bytes (c : Class) : Z := match c with Elf32 => 4 | Elf64 => 8 end.
Definition pointer_directive (c : Class) : list Z :=
  match c with Elf32 => rs "LONG" | Elf64 => rs "QUAD" end.

Inductive Home := Absolute | Undefined | InSection (index : Z).
Inductive Binding := Local | Global | Weak | OtherBinding (code : Z).

Record Section_ := mkSection
  { s_index : Z; s_name : list Z; s_kind : Z; s_flags : Z; s_address : Z; s_offset : Z;
    s_size : Z; s_align : Z; s_link : Z; s_entsize : Z }.
Record Symbol := mkSymbol
  { sym_name : list Z; sym_value : Z; sym_size : Z; sym_home : Home; sym_binding : Binding }.
Record Object := mkObject
  { obj_class : Class; obj_kind : Z; obj_machine : Z; obj_flags : Z; os_abi : Z; abi_version : Z;
    sections : list Section_; symbols : list Symbol }.

Definition section_names (o : Object) : list (list Z) := map s_name (sections o).

Definition SHF_WRITE : Z := 0x1.
Definition SHF_ALLOC : Z := 0x2.
Definition SHT_SYMTAB : Z := 2.
Definition SHT_STRTAB : Z := 3.
Definition SHT_NOBITS : Z := 8.
Definition SHN_UNDEF : Z := 0.
Definition SHN_ABS : Z := 0xfff1.
Definition SHN_XINDEX : Z := 0xffff.
Definition SHN_LORESERVE : Z := 0xff00.
Definition STB_LOCAL : Z := 0.
Definition STB_GLOBAL : Z := 1.
Definition STB_WEAK : Z := 2.

Definition is_alloc (s : Section_) : bool := negb (Z.land (s_flags s) SHF_ALLOC =? 0).
Definition is_write (s : Section_) : bool := negb (Z.land (s_flags s) SHF_WRITE =? 0).
Definition is_nobits (s : Section_) : bool := s_kind s =? SHT_NOBITS.

Inductive elf_error :=
| TruncatedElf | NameOffset | UnterminatedName | NameBudgetExceeded | NotElf | UnknownClass
| NotLittleEndian | TruncatedHeader | HeaderVersion | HeaderSize | AbsentTable | BadStride
| ReservedIndices | SectionCount | TableRange | TruncatedTable | NameTableIndex | NameTableType
| HeaderRange | TruncatedSection | IndexRange | TableBeyond | TruncatedTableBytes
| StringTableIndex | StringTableType | SymbolEntrySize | PartialSymbol | TruncatedSymbol.

(** [u16_at], [u32_at] and [u64_at] for a width of [n] bytes; [at + n] is
    ordinary arithmetic and would panic on overflow. *)
Definition uint_at (n : Z) (bytes : list Z) (at_ : Z) : res elf_error Z :=
  stop ← or_stuck (checked_add usize_max at_ n);
  w ← ok_or (get_range bytes at_ stop) TruncatedElf;
  Ok (of_le w).
Definition u16_at : list Z -> Z -> res elf_error Z := uint_at 2.
Definition u32_at : list Z -> Z -> res elf_error Z := uint_at 4.
Definition u64_at : list Z -> Z -> res elf_error Z := uint_at 8.

(** [NameBudget::new]: four times the file, at most 64 MiB. *)
Definition budget_new (file_bytes : Z) : Z :=
  Z.min (Z.min (file_bytes * 4) usize_max) (64 * 1024 * 1024).

(** [NameBudget::read]: the name and the remaining budget. *)
Definition budget_read (budget : Z) (table : list Z) (at_ : Z) : res elf_error (list Z * Z) :=
  if match table with [] => true | _ => false end && (at_ =? 0) then Ok ([], budget)
  else
    rest ← ok_or (get_range table at_ (len table)) NameOffset;
    size ← ok_or (position (Z.eqb 0) rest) UnterminatedName;
    _ ← ensure (size <=? budget) NameBudgetExceeded;
    raw ← or_stuck (get_range rest 0 size);
    let value := from_utf8_lossy raw in
    left ← ok_or (checked_sub budget (str_len value)) NameBudgetExceeded;
    Ok (value, left).

(** [RawSection]; its [name] is filled in by the section loop. *)
Record RawSection := mkRaw
  { raw_index : Z; name_offset : Z; raw_kind : Z; raw_flags : Z; raw_address : Z; raw_offset : Z;
    raw_size : Z; raw_align : Z; raw_link : Z; raw_entsize : Z }.

(** [From<RawSection> for Section] *)
Definition to_section (name : list Z) (r : RawSection) : Section_ :=
  mkSection (raw_index r) name (raw_kind r) (raw_flags r) (raw_address r) (raw_offset r)
    (raw_size r) (raw_align r) (raw_link r) (raw_entsize r).

Definition header_entsize (c : Class) : Z := match c with Elf64 => 0x40 | Elf32 => 0x28 end.

(** The fields of one header entry, in the order they are read. *)
Definition header_fields (c : Class) (bytes : list Z) : res elf_error (Z * Z * Z * Z * Z * Z * Z * Z * Z) :=
  match c with
  | Elf64 =>
    name ← u32_at bytes 0; kind ← u32_at bytes 4; flags ← u64_at bytes 8;
    address ← u64_at bytes 0x10; offset ← u64_at bytes 0x18; size ← u64_at bytes 0x20;
    link ← u32_at bytes 0x28; ent ← u64_at bytes 0x38; align ← u64_at bytes 0x30;
    Ok (name, kind, flags, address, offset, size, link, ent, align)
  | Elf32 =>
    name ← u32_at bytes 0; kind ← u32_at bytes 4; flags ← u32_at bytes 8;
    address ← u32_at bytes 0xc; offset ← u32_at bytes 0x10; size ← u32_at bytes 0x14;
    link ← u32_at bytes 0x18; ent ← u32_at bytes 0x24; align ← u32_at bytes 0x20;
    Ok (name, kind, flags, address, offset, size, link, ent, align)
  end.

Definition raw_section (bytes : list Z) (shoff index : Z) (c : Class) : res elf_error RawSection :=
  let entsize := header_entsize c in
  at_ ← ok_or (off ← checked_mul usize_max index entsize; checked_add usize_max shoff off) HeaderRange;
  stop ← ok_or (checked_add usize_max at_ entsize) HeaderRange;
  bytes ← ok_or (get_range bytes at_ stop) TruncatedSection;
  fields ← header_fields c bytes;
  let '(name, kind, flags, address, offset, size, link, ent, align) := fields in
  i ← ok_or (try_from u16_max index) IndexRange;
  Ok (mkRaw i name kind flags address offset size align link ent).

Definition table_bytes (bytes : list Z) (h : RawSection) : res elf_error (list Z) :=
  start ← ok_or (try_from usize_max (raw_offset h)) TableBeyond;
  size ← ok_or (try_from usize_max (raw_size h)) TableBeyond;
  stop ← ok_or (checked_add usize_max start size) TableBeyond;
  ok_or (get_range bytes start stop) TruncatedTableBytes.

Definition home_of (shndx : Z) : Home :=
  if shndx =? SHN_ABS then Absolute else if shndx =? SHN_UNDEF then Undefined else InSection shndx.
Definition binding_of (info : Z) : Binding :=
  let b := Z.shiftr info 4 in
  if b =? STB_LOCAL then Local else if b =? STB_GLOBAL then Global
  else if b =? STB_WEAK then Weak else OtherBinding b.

Definition symbol_entsize (c : Class) : Z := match c with Elf32 => 16 | Elf64 => 24 end.

(** The fields of the symbol entry at [at_]. *)
Definition symbol_fields (c : Class) (bytes : list Z) (at_ : Z) : res elf_error (Z * Z * Z * Z * Z) :=
  match c with
  | Elf64 =>
    name ← u32_at bytes at_; info ← ok_or (get_at bytes (at_ + 4)) TruncatedSymbol;
    shndx ← u16_at bytes (at_ + 6); value ← u64_at bytes (at_ + 8); size ← u64_at bytes (at_ + 0x10);
    Ok (name, info, shndx, value, size)
  | Elf32 =>
    name ← u32_at bytes at_; info ← ok_or (get_at bytes (at_ + 0xc)) TruncatedSymbol;
    shndx ← u16_at bytes (at_ + 0xe); value ← u32_at bytes (at_ + 4); size ← u32_at bytes (at_ + 8);
    Ok (name, info, shndx, value, size)
  end.

(** One round of the symbol loop; state: remaining budget and symbols so far. *)
Definition read_symbol (c : Class) (bytes names : list Z) (st : Z * list Symbol) (index : Z)
  : res elf_error (Z * list Symbol) :=
  let '(budget, out) := st in
  at_ ← or_stuck (checked_mul usize_max index (symbol_entsize c));
  fields ← symbol_fields c bytes at_;
  let '(name, info, shndx, value, size) := fields in
  '(n, budget) ← budget_read budget names name;
  Ok (budget, out ++ [mkSymbol n value size (home_of shndx) (binding_of info)]).

Definition read_symbols (bytes : list Z) (shoff shnum : Z) (c : Class) (symtab : RawSection)
  (budget : Z) : res elf_error (Z * list Symbol) :=
  _ ← ensure (raw_link symtab <? shnum) StringTableIndex;
  strtab ← raw_section bytes shoff (raw_link symtab) c;
  _ ← ensure (raw_kind strtab =? SHT_STRTAB) StringTableType;
  names ← table_bytes bytes strtab;
  entsize ← ok_or (try_from usize_max (raw_entsize symtab)) SymbolEntrySize;
  _ ← ensure (entsize =? symbol_entsize c) SymbolEntrySize;
  table ← table_bytes bytes symtab;
  _ ← ensure (len table mod entsize =? 0) PartialSymbol;
  foldM (read_symbol c table names) (budget, []) (seqZ 0 (len table / entsize)).

(** One round of the section loop; state: budget, sections and last symbol table. *)
Definition section_state : Type := Z * list Section_ * option RawSection.
Definition read_section (bytes : list Z) (shoff : Z) (c : Class) (names : list Z)
  (st : section_state) (index : Z) : res elf_error section_state :=
  let '(budget, out, symtab) := st in
  raw ← raw_section bytes shoff index c;
  '(name, budget) ← budget_read budget names (name_offset raw);
  let symtab := if raw_kind raw =? SHT_SYMTAB then Some raw else symtab in
  Ok (budget, out ++ [to_section name raw], symtab).

(** ** The file header *)
Record ElfHeader := mkHeader
  { h_class : Class; h_kind : Z; h_machine : Z; h_flags : Z; h_os_abi : Z; h_abi_version : Z;
    h_shoff : Z; h_shentsize : Z; h_shnum : Z; h_shstrndx : Z }.

Definition read_header (bytes : list Z) : res elf_error ElfHeader :=
  _ ← refuse (negb (bool_decide (get_range bytes 0 4 = Some [0x7f; 69; 76; 70]))) NotElf;
  c ← match get_at bytes 4 with
      | Some 1 => Ok Elf32
      | Some 2 => Ok Elf64
      | _ => Err UnknownClass
      end;
  _ ← refuse (negb (bool_decide (get_at bytes 5 = Some 1))) NotLittleEndian;
  let header_size := match c with Elf32 => 52 | Elf64 => 64 end in
  let header_size_offset := match c with Elf32 => 0x28 | Elf64 => 0x34 end in
  _ ← ensure (header_size <=? len bytes) TruncatedHeader;
  b6 ← or_stuck (get_at bytes 6);
  _ ← ensure (b6 =? 1) HeaderVersion;
  version ← u32_at bytes 0x14;
  _ ← ensure (version =? 1) HeaderVersion;
  ehsize ← u16_at bytes header_size_offset;
  _ ← ensure (ehsize =? header_size) HeaderSize;
  kind ← u16_at bytes 0x10;
  machine ← u16_at bytes 0x12;
  flags ← u32_at bytes (match c with Elf32 => 0x24 | Elf64 => 0x30 end);
  table ← match c with
    | Elf64 =>
      shoff ← u64_at bytes 0x28; ent ← u16_at bytes 0x3a; num ← u16_at bytes 0x3c;
      strndx ← u16_at bytes 0x3e; Ok (shoff, ent, num, strndx)
    | Elf32 =>
      shoff ← u32_at bytes 0x20; ent ← u16_at bytes 0x2e; num ← u16_at bytes 0x30;
      strndx ← u16_at bytes 0x32; Ok (shoff, ent, num, strndx)
    end;
  let '(shoff, ent, num, strndx) := table in
  abi ← or_stuck (get_at bytes 7);
  ver ← or_stuck (get_at bytes 8);
  Ok (mkHeader c kind machine flags abi ver shoff ent num strndx).

Definition object_of (h : ElfHeader) (ss : list Section_) (syms : list Symbol) : Object :=
  mkObject (h_class h) (h_kind h) (h_machine h) (h_flags h) (h_os_abi h) (h_abi_version h) ss syms.

Definition read (bytes : list Z) : res elf_error Object :=
  h ← read_header bytes;
  let c := h_class h in
  let expected_stride := header_entsize c in
  if h_shoff h =? 0 then
    _ ← ensure (((h_shentsize h =? 0) || (h_shentsize h =? expected_stride))
                && (h_shnum h =? 0) && (h_shstrndx h =? 0)) AbsentTable;
    Ok (object_of h [] [])
  else
    _ ← refuse (negb (h_shentsize h =? expected_stride)) BadStride;
    _ ← ensure ((h_shnum h <? SHN_LORESERVE)
                && ((h_shstrndx h <? SHN_LORESERVE) || (h_shstrndx h =? SHN_XINDEX))) ReservedIndices;
    shoff ← ok_or (try_from usize_max (h_shoff h)) TableRange;
    first ← raw_section bytes shoff 0 c;
    shnum ← (if h_shnum h =? 0 then ok_or (try_from usize_max (raw_size first)) SectionCount
             else Ok (h_shnum h));
    _ ← ensure (shnum <=? u16_max + 1) SectionCount;
    table_end ← ok_or (size ← checked_mul usize_max shnum (h_shentsize h);
                       checked_add usize_max shoff size) TableRange;
    _ ← ensure (table_end <=? len bytes) TruncatedTable;
    let shstrndx := if h_shstrndx h =? SHN_XINDEX then raw_link first else h_shstrndx h in
    _ ← refuse (shnum <=? shstrndx) NameTableIndex;
    names ← (if shstrndx =? 0 then Ok []
             else names_header ← raw_section bytes shoff shstrndx c;
                  _ ← ensure (raw_kind names_header =? SHT_STRTAB) NameTableType;
                  table_bytes bytes names_header);
    '(budget, ss, symtab) ← foldM (read_section bytes shoff c names)
                              (budget_new (len bytes), [], None) (seqZ 0 shnum);
    '(_, syms) ← match symtab with
                 | Some header => read_symbols bytes shoff shnum c header budget
                 | None => Ok (budget, [])
                 end;
    Ok (object_of h ss syms).

(** ** Records of little-endian fields *)
Definition enc (f : Z * Z) : list Z := to_le (Z.to_nat f.1) f.2.
Definition encode_fields (fs : list (Z * Z)) : list Z := flat_map enc fs.
Fixpoint widths (fs : list (Z * Z)) : Z := match fs with [] => 0 | f :: fs => f.1 + widths fs end.
Definition field_ok (f : Z * Z) : Prop := 0 <= f.1 /\ 0 <= f.2 < 256 ^ f.1.

Lemma len_encode_fields fs : Forall field_ok fs -> len (encode_fields fs) = widths fs.
Proof.
  unfold encode_fields. induction 1 as [|f fs [Hf _] Hfs IH]; [done|]. cbn [flat_map widths].
  rewrite len_app, IH. unfold enc. rewrite len_to_le. lia.
Qed.

(** Reading field [k] of a record that starts behind [pre]. *)
Lemma field_at pre post fs k n v at_ :
  Forall field_ok fs -> fs !! k = Some (n, v) -> at_ = len pre + widths (take k fs) ->
  at_ + n <= usize_max ->
  uint_at n (pre ++ encode_fields fs ++ post) at_ = Ok v.
Proof.
  intros Hok Hk -> Hmax. rewrite <- (take_drop_middle fs k (n, v) Hk) in Hok |- * at 1.
  apply Forall_app in Hok as [H1 H2]. apply Forall_cons in H2 as [[Hn Hv] _].
  cbn in Hn, Hv. unfold uint_at. step_by ltac:(apply or_stuck_Ok, checked_add_Some; done).
  assert (forall a b, encode_fields (a ++ (n, v) :: b) = encode_fields a ++ enc (n, v) ++ encode_fields b) as ->.
  { intros a b. unfold encode_fields. by rewrite flat_map_app. }
  rewrite <- !app_assoc, (app_assoc pre).
  step_by ltac:(apply ok_or_Ok, get_range_app_mid; rewrite ?len_app, ?len_encode_fields by done;
    unfold enc; rewrite ?len_to_le; cbn [fst snd]; lia).
  f_equal. unfold enc. apply of_to_le. cbn [fst snd]. by rewrite Z2Nat.id.
Qed.

(** A section header as the file holds it; [info] is not read. *)
Definition raw_fields (c : Class) (info : Z) (r : RawSection) : list (Z * Z) :=
  match c with
  | Elf64 => [(4, name_offset r); (4, raw_kind r); (8, raw_flags r); (8, raw_address r);
              (8, raw_offset r); (8, raw_size r); (4, raw_link r); (4, info); (8, raw_align r);
              (8, raw_entsize r)]
  | Elf32 => [(4, name_offset r); (4, raw_kind r); (4, raw_flags r); (4, raw_address r);
              (4, raw_offset r); (4, raw_size r); (4, raw_link r); (4, info); (4, raw_align r);
              (4, raw_entsize r)]
  end.
Definition encode_raw (c : Class) (info : Z) (r : RawSection) : list Z := encode_fields (raw_fields c info r).
Definition raw_ok (c : Class) (info : Z) (r : RawSection) : Prop := Forall field_ok (raw_fields c info r).

Lemma len_encode_raw c info r : raw_ok c info r -> len (encode_raw c info r) = header_entsize c.
Proof. intros Hr. unfold encode_raw. rewrite len_encode_fields by done. by destruct c. Qed.

(** A header table decodes entry by entry. *)
Definition header_table (c : Class) (hs : list (Z * RawSection)) : list Z :=
  flat_map (fun h => encode_raw c h.1 h.2) hs.

Lemma len_header_table c hs : Forall (fun h => raw_ok c h.1 h.2) hs ->
  len (header_table c hs) = len hs * header_entsize c.
Proof.
  unfold header_table. induction 1 as [|h hs Hh Hhs IH]; [done|]. cbn [flat_map].
  rewrite len_app, len_encode_raw, IH, len_cons by done. lia.
Qed.

Lemma header_fields_encode c info r : raw_ok c info r ->
  header_fields c (encode_raw c info r) =
  Ok (name_offset r, raw_kind r, raw_flags r, raw_address r, raw_offset r, raw_size r, raw_link r,
      raw_entsize r, raw_align r).
Proof.
  intros Hr.
  assert (forall k n v at_, raw_fields c info r !! k = Some (n, v) ->
    at_ = widths (take k (raw_fields c info r)) -> at_ + n <= 64 ->
    uint_at n (encode_raw c info r) at_ = Ok v) as Hf.
  { intros k n v at_ Hk Hat Hle. rewrite <- (app_nil_r (encode_raw _ _ _)).
    apply (field_at [] [] (raw_fields c info r) k); [done|done|done|unfold usize_max, u64_max; lia]. }
  unfold header_fields, u32_at, u64_at. destruct c.
  - step_by ltac:(by apply (Hf 0%nat)). step_by ltac:(by apply (Hf 1%nat)).
    step_by ltac:(by apply (Hf 2%nat)). step_by ltac:(by apply (Hf 3%nat)).
    step_by ltac:(by apply (Hf 4%nat)). step_by ltac:(by apply (Hf 5%nat)).
    step_by ltac:(by apply (Hf 6%nat)). step_by ltac:(by apply (Hf 9%nat)).
    by step_by ltac:(by apply (Hf 8%nat)).
  - step_by ltac:(by apply (Hf 0%nat)). step_by ltac:(by apply (Hf 1%nat)).
    step_by ltac:(by apply (Hf 2%nat)). step_by ltac:(by apply (Hf 3%nat)).
    step_by ltac:(by apply (Hf 4%nat)). step_by ltac:(by apply (Hf 5%nat)).
    step_by ltac:(by apply (Hf 6%nat)). step_by ltac:(by apply (Hf 9%nat)).
    by step_by ltac:(by apply (Hf 8%nat)).
Qed.

Lemma raw_section_at c pre hs1 info r hs2 post :
  len (pre ++ header_table c (hs1 ++ (info, r) :: hs2) ++ post) <= usize_max ->
  Forall (fun h => raw_ok c h.1 h.2) (hs1 ++ (info, r) :: hs2) ->
  raw_index r = len hs1 -> len hs1 <= u16_max ->
  raw_section (pre ++ header_table c (hs1 ++ (info, r) :: hs2) ++ post) (len pre) (len hs1) c = Ok r.
Proof.
  intros Hmax Hok Hidx Hu16. pose proof (len_nonneg hs1). pose proof (len_nonneg pre).
  pose proof Hok as Hall. apply Forall_app in Hok as [H1 H2]. apply Forall_cons in H2 as [Hr H2].
  cbn [fst snd] in Hr. pose proof (len_encode_raw c info r Hr) as Hlr.
  assert (0 < header_entsize c) as Hent by by destruct c.
  rewrite !len_app, len_header_table, len_app, len_cons in Hmax by done.
  pose proof (len_nonneg hs2). pose proof (len_nonneg post).
  assert (header_table c (hs1 ++ (info, r) :: hs2) =
    header_table c hs1 ++ encode_raw c info r ++ header_table c hs2) as E.
  { unfold header_table. by rewrite flat_map_app. }
  rewrite E, <- !app_assoc, (app_assoc pre). unfold raw_section. cbv zeta.
  step_by ltac:(apply ok_or_Ok, bind_Some; eexists; split;
    [apply checked_mul_Some; split; [reflexivity|nia]|apply checked_add_Some; split; [reflexivity|nia]]).
  step_by ltac:(apply ok_or_Ok, checked_add_Some; split; [reflexivity|nia]).
  step_by ltac:(apply ok_or_Ok, get_range_app_mid; rewrite len_app, len_header_table, ?Hlr by done; lia).
  step_by ltac:(by apply header_fields_encode). cbv beta iota.
  step_by ltac:(apply ok_or_Ok, try_from_Some; split; [lia|reflexivity]).
  rewrite <- Hidx. by destruct r.
Qed.

(** ** Symbol entries *)
(** The [st_shndx] and [st_info] values of the ELF specification. *)
Definition home_index (h : Home) : Z :=
  match h with Absolute => 0xfff1 | Undefined => 0 | InSection i => i end.
Definition binding_code (b : Binding) : Z :=
  match b with Local => 0 | Global => 1 | Weak => 2 | OtherBinding c => c end.
Definition home_ok (h : Home) : Prop := match h with InSection i => i <> 0 /\ i <> 0xfff1 | _ => True end.
Definition binding_ok (b : Binding) : Prop := match b with OtherBinding c => 3 <= c | _ => True end.

Record SymbolEntry := mkEntry
  { e_name : Z; e_binding : Binding; e_type : Z; e_other : Z; e_home : Home; e_value : Z; e_size : Z }.
Definition e_info (e : SymbolEntry) : Z := binding_code (e_binding e) * 16 + e_type e.
Definition e_shndx (e : SymbolEntry) : Z := home_index (e_home e).

Lemma home_of_index h : home_ok h -> home_of (home_index h) = h.
Proof. destruct h as [| |i]; [done|done|]. intros [H0 H1]. unfold home_of. cbn. repeat case_match; by bool_prop. Qed.
Lemma binding_of_info e : binding_ok (e_binding e) -> 0 <= e_type e < 16 -> binding_of (e_info e) = e_binding e.
Proof.
  intros Hb Ht. unfold binding_of, e_info. rewrite Z.shiftr_div_pow2 by done. change (2 ^ 4) with 16.
  rewrite Z.div_add_l, (Z.div_small (e_type e)), Z.add_0_r by lia.
  destruct (e_binding e); cbn in *; [done..|]. repeat case_match; bool_prop; unfold STB_LOCAL, STB_GLOBAL, STB_WEAK in *; lia || done.
Qed.

Definition symbol_record (c : Class) (e : SymbolEntry) : list (Z * Z) :=
  match c with
  | Elf64 => [(4, e_name e); (1, e_info e); (1, e_other e); (2, e_shndx e); (8, e_value e); (8, e_size e)]
  | Elf32 => [(4, e_name e); (4, e_value e); (4, e_size e); (1, e_info e); (1, e_other e); (2, e_shndx e)]
  end.
Definition encode_symbol (c : Class) (e : SymbolEntry) : list Z := encode_fields (symbol_record c e).
Definition entry_ok (c : Class) (e : SymbolEntry) : Prop :=
  Forall field_ok (symbol_record c e) /\ home_ok (e_home e) /\ binding_ok (e_binding e) /\ 0 <= e_type e < 16.

Lemma len_encode_symbol c e : entry_ok c e -> len (encode_symbol c e) = symbol_entsize c.
Proof. intros [He _]. unfold encode_symbol. rewrite len_encode_fields by done. by destruct c. Qed.

(** A one-byte field, as [get] reads it. *)
Lemma byte_field_at pre post fs k v at_ :
  Forall field_ok fs -> fs !! k = Some (1, v) -> at_ = len pre + widths (take k fs) ->
  get_at (pre ++ encode_fields fs ++ post) at_ = Some v.
Proof.
  intros Hok Hk ->. rewrite <- (take_drop_middle fs k (1, v) Hk) in Hok |- * at 1.
  apply Forall_app in Hok as [H1 H2]. apply Forall_cons in H2 as [[_ Hv] _]. cbn in Hv.
  assert (forall a b, encode_fields (a ++ (1, v) :: b) = encode_fields a ++ enc (1, v) ++ encode_fields b) as ->.
  { intros a b. unfold encode_fields. by rewrite flat_map_app. }
  rewrite <- !app_assoc, (app_assoc pre).
  assert (enc (1, v) = [v]) as ->.
  { unfold enc. cbn [fst snd]. pose proof (length_to_le 1 v) as Hl.
    pose proof (of_to_le 1 v ltac:(cbn; lia)) as Hof. change (Z.to_nat 1) with 1%nat.
    destruct (to_le 1 v) as [|x [|? ?]]; cbn in Hl; try lia. cbn in Hof. f_equal. lia. }
  cbn [app]. apply get_at_mid. by rewrite len_app, len_encode_fields.
Qed.

Lemma symbol_fields_encode c pre e post : entry_ok c e -> len pre + 64 <= usize_max ->
  symbol_fields c (pre ++ encode_symbol c e ++ post) (len pre) =
  Ok (e_name e, e_info e, e_shndx e, e_value e, e_size e).
Proof.
  intros [He _] Hmax.
  assert (forall k n v off, symbol_record c e !! k = Some (n, v) ->
    off = widths (take k (symbol_record c e)) -> off + n <= 64 ->
    uint_at n (pre ++ encode_symbol c e ++ post) (len pre + off) = Ok v) as Hf.
  { intros k n v off Hk Hoff Hle. apply (field_at pre post (symbol_record c e) k); [done|done|lia|lia]. }
  assert (forall k v off, symbol_record c e !! k = Some (1, v) ->
    off = widths (take k (symbol_record c e)) ->
    ok_or (get_at (pre ++ encode_symbol c e ++ post) (len pre + off)) TruncatedSymbol = Ok v) as Hb.
  { intros k v off Hk Hoff. apply ok_or_Ok, (byte_field_at pre post (symbol_record c e) k); [done|done|lia]. }
  unfold symbol_fields, u32_at, u64_at, u16_at.
  destruct c; rewrite <- (Z.add_0_r (len pre)) at 1.
  - step_by ltac:(by apply (Hf 0%nat)). step_by ltac:(by apply (Hb 3%nat)).
    step_by ltac:(by apply (Hf 5%nat)). step_by ltac:(by apply (Hf 1%nat)).
    by step_by ltac:(by apply (Hf 2%nat)).
  - step_by ltac:(by apply (Hf 0%nat)). step_by ltac:(by apply (Hb 1%nat)).
    step_by ltac:(by apply (Hf 3%nat)). step_by ltac:(by apply (Hf 4%nat)).
    by step_by ltac:(by apply (Hf 5%nat)).
Qed.

(** ** Names *)

(** [raw] is the NUL-terminated string at [at_]. *)
Definition name_at (table : list Z) (at_ : Z) (raw : list Z) : Prop :=
  exists p q, table = p ++ raw ++ 0 :: q /\ at_ = len p /\ Forall (fun b => b <> 0) raw.
Definition name_cost (raw : list Z) : Z := Z.max (len raw) (str_len (from_utf8_lossy raw)).

Lemma budget_read_at budget table at_ raw : name_at table at_ raw -> name_cost raw <= budget ->
  budget_read budget table at_ = Ok (from_utf8_lossy raw, budget - str_len (from_utf8_lossy raw)).
Proof.
  intros (p & q & -> & -> & Hnz) Hcost. unfold name_cost in Hcost. unfold budget_read.
  assert (match p ++ raw ++ 0 :: q with [] => true | _ => false end = false) as ->
    by (destruct p; [|done]; by destruct raw).
  cbn [andb].
  step_by ltac:(apply ok_or_Ok; rewrite <- (app_nil_r (raw ++ 0 :: q)) at 1;
    apply get_range_app_mid; rewrite ?len_app; lia).
  step_by ltac:(apply ok_or_Ok, position_app; [|done]; eapply Forall_impl; [exact Hnz|];
    intros b Hb; cbn beta in Hb; apply Z.eqb_neq; congruence).
  guard_by ltac:(apply Z.leb_le; lia).
  step_by ltac:(apply or_stuck_Ok, get_range_prefix). cbv zeta.
  step_by ltac:(apply ok_or_Ok, checked_sub_Some; split; [reflexivity|lia]). done.
Qed.

Lemma budget_read_Ok budget table at_ name left : budget_read budget table at_ = Ok (name, left) ->
  budget = str_len name + left /\ (0 <= budget -> 0 <= left).
Proof.
  unfold budget_read. case_match; [intros [= <- <-]; done|]. intros Hr. inv_ok.
  match goal with H : checked_sub _ _ = Some _ |- _ => apply checked_sub_Some in H as [-> ?] end.
  simplify_eq. lia.
Qed.

Lemma budget_read_not_Stuck budget table at_ : 0 <= at_ -> budget_read budget table at_ <> Stuck.
Proof.
  intros Hat. unfold budget_read. not_stuck.
  apply or_stuck_not_Stuck, get_range_is_Some; [lia|..];
  match goal with H : ok_or (position _ _) _ = Ok _ |- _ =>
    apply ok_or_Ok, position_Some in H as (? & ? & _ & _ & ? & _) end; lia.
Qed.

(** ** The symbol table *)
Definition symbol_of (raw : list Z) (e : SymbolEntry) : Symbol :=
  mkSymbol (from_utf8_lossy raw) (e_value e) (e_size e) (e_home e) (e_binding e).
Definition names_cost (l : list (list Z * SymbolEntry)) : Z := foldr (fun x a => name_cost x.1 + a) 0 l.

Lemma name_cost_nonneg raw : 0 <= name_cost raw.
Proof. unfold name_cost. pose proof (len_nonneg raw). lia. Qed.
Lemma names_cost_nonneg l : 0 <= names_cost l.
Proof.
  unfold names_cost. induction l as [|x l IH]; cbn [foldr]; [done|].
  pose proof (name_cost_nonneg x.1). lia.
Qed.

Lemma read_symbols_loop c names l : forall done out budget,
  Forall (fun x => entry_ok c x.2 /\ name_at names (e_name x.2) x.1) (done ++ l) ->
  len (flat_map (fun x => encode_symbol c x.2) (done ++ l)) + 64 <= usize_max ->
  names_cost l <= budget ->
  exists left, foldM (read_symbol c (flat_map (fun x => encode_symbol c x.2) (done ++ l)) names)
    (budget, out) (seqZ (len done) (len l)) =
    Ok (left, out ++ map (fun x => symbol_of x.1 x.2) l).
Proof.
  induction l as [|[raw e] l IH]; intros dn out budget Hok Hmax Hb.
  - exists budget. change (len (@nil (list Z * SymbolEntry))) with 0.
    rewrite seqZ_nil by lia. cbn [foldM map]. by rewrite (app_nil_r out).
  - assert (forall d, Forall (fun x => entry_ok c x.2 /\ name_at names (e_name x.2) x.1) d ->
      len (flat_map (fun x => encode_symbol c x.2) d) = len d * symbol_entsize c) as Hlen.
    { intros d. induction 1 as [|x d [Hx _] Hd IHd]; [done|]. cbn [flat_map].
      rewrite len_app, len_encode_symbol, IHd, len_cons by done. lia. }
    pose proof Hok as Hall. apply Forall_app in Hok as [Hd Hl]. apply Forall_cons in Hl as [[He Hn] Hl].
    cbn [fst snd] in *. rewrite len_cons. pose proof (len_nonneg l). pose proof (len_nonneg dn).
    rewrite seqZ_cons by lia. cbn [foldM]. cbn [names_cost foldr fst] in Hb.
    pose proof (names_cost_nonneg l) as Hcl. fold (names_cost l) in Hb.
    assert (flat_map (fun x => encode_symbol c x.2) (dn ++ (raw, e) :: l) =
      flat_map (fun x => encode_symbol c x.2) dn ++ encode_symbol c e ++
      flat_map (fun x => encode_symbol c x.2) l) as E by by rewrite flat_map_app.
    assert (0 < symbol_entsize c) as Hent by by destruct c.
    pose proof (Hlen _ Hall) as Hla. rewrite len_app, len_cons in Hla.
    assert (read_symbol c (flat_map (fun x => encode_symbol c x.2) (dn ++ (raw, e) :: l)) names
      (budget, out) (len dn) = Ok (budget - str_len (from_utf8_lossy raw), out ++ [symbol_of raw e])) as ->.
    { unfold read_symbol. step_by ltac:(apply or_stuck_Ok, checked_mul_Some; split; [reflexivity|nia]).
      rewrite E, <- (Hlen dn Hd).
      step_by ltac:(apply symbol_fields_encode; [done|rewrite (Hlen dn Hd); nia]). cbv beta iota.
      step_by ltac:(apply budget_read_at; [exact Hn|lia]). destruct He as (_ & Hh & Hbd & Ht).
      unfold symbol_of. by rewrite <- (home_of_index _ Hh), <- (binding_of_info e Hbd Ht). }
    cbn [mbind res_bind].
    destruct (IH (dn ++ [(raw, e)]) (out ++ [symbol_of raw e]) (budget - str_len (from_utf8_lossy raw)))
      as [left Hleft]; [by rewrite <- app_assoc|by rewrite <- app_assoc|unfold name_cost in *; lia|].
    exists left. rewrite len_app, len_cons, len_nil, <- !app_assoc in Hleft. cbn [app map] in *.
    replace (Z.succ (len dn)) with (len dn + (1 + 0)) by lia.
    replace (Z.pred (1 + len l)) with (len l) by lia. exact Hleft.
Qed.

(** ** The file header *)
Record OtherFields := mkOther { x_pad : list Z; x_entry : Z; x_phoff : Z; x_phentsize : Z; x_phnum : Z }.

Definition ident (h : ElfHeader) (x : OtherFields) : list Z :=
  [0x7f; 69; 76; 70; match h_class h with Elf32 => 1 | Elf64 => 2 end; 1; 1; h_os_abi h; h_abi_version h]
  ++ x_pad x.
Definition header_record (h : ElfHeader) (x : OtherFields) : list (Z * Z) :=
  let p := pointer_bytes (h_class h) in
  [(2, h_kind h); (2, h_machine h); (4, 1); (p, x_entry x); (p, x_phoff x); (p, h_shoff h);
   (4, h_flags h); (2, match h_class h with Elf32 => 52 | Elf64 => 64 end); (2, x_phentsize x);
   (2, x_phnum x); (2, h_shentsize h); (2, h_shnum h); (2, h_shstrndx h)].
Definition encode_header (h : ElfHeader) (x : OtherFields) : list Z :=
  ident h x ++ encode_fields (header_record h x).
Definition header_ok (h : ElfHeader) (x : OtherFields) : Prop :=
  Forall field_ok (header_record h x) /\ len (x_pad x) = 7.

Lemma len_encode_header h x : header_ok h x ->
  len (encode_header h x) = match h_class h with Elf32 => 52 | Elf64 => 64 end.
Proof.
  intros [Hf Hp]. unfold encode_header, ident. rewrite !len_app, Hp, len_encode_fields by done.
  unfold header_record. by destruct (h_class h).
Qed.

Lemma read_header_encode h x rest : header_ok h x -> read_header (encode_header h x ++ rest) = Ok h.
Proof.
  intros Hok. pose proof (len_encode_header h x Hok) as Hlen. destruct Hok as [Hf Hp].
  assert (forall k n v at_, header_record h x !! k = Some (n, v) ->
    at_ = 16 + widths (take k (header_record h x)) -> at_ + n <= 64 ->
    uint_at n (encode_header h x ++ rest) at_ = Ok v) as Hu.
  { intros k n v at_ Hk -> Hle. unfold encode_header. rewrite <- app_assoc.
    apply (field_at (ident h x) rest (header_record h x) k); [done|done| |unfold usize_max, u64_max; lia].
    unfold ident. by rewrite len_app, Hp. }
  assert (exists t, encode_header h x ++ rest = [0x7f; 69; 76; 70] ++
    [match h_class h with Elf32 => 1 | Elf64 => 2 end; 1; 1; h_os_abi h; h_abi_version h] ++ t) as [t Ht].
  { unfold encode_header, ident. rewrite <- !app_assoc. eexists. reflexivity. }
  unfold read_header, u16_at, u32_at, u64_at.
  guard_by ltac:(rewrite Ht; by rewrite (get_range_prefix [0x7f; 69; 76; 70])).
  step_by ltac:(rewrite Ht; instantiate (1 := h_class h); by destruct (h_class h)).
  guard_by ltac:(by rewrite Ht). cbv zeta.
  guard_by ltac:(apply Z.leb_le; rewrite len_app, Hlen; pose proof (len_nonneg rest); lia).
  step_by ltac:(by rewrite Ht). guard_by ltac:(done).
  step_by ltac:(by apply (Hu 2%nat)). guard_by ltac:(done).
  unfold header_record in Hu. destruct (h_class h) eqn:Hc.
  - step_by ltac:(by apply (Hu 7%nat)). guard_by ltac:(done). step_by ltac:(by apply (Hu 0%nat)).
    step_by ltac:(by apply (Hu 1%nat)). step_by ltac:(by apply (Hu 6%nat)).
    step_by ltac:(step_by ltac:(by apply (Hu 5%nat)); step_by ltac:(by apply (Hu 10%nat));
      step_by ltac:(by apply (Hu 11%nat)); step_by ltac:(by apply (Hu 12%nat)); reflexivity).
    rewrite Ht, <- Hc. by destruct h.
  - step_by ltac:(by apply (Hu 7%nat)). guard_by ltac:(done). step_by ltac:(by apply (Hu 0%nat)).
    step_by ltac:(by apply (Hu 1%nat)). step_by ltac:(by apply (Hu 6%nat)).
    step_by ltac:(step_by ltac:(by apply (Hu 5%nat)); step_by ltac:(by apply (Hu 10%nat));
      step_by ltac:(by apply (Hu 11%nat)); step_by ltac:(by apply (Hu 12%nat)); reflexivity).
    rewrite Ht, <- Hc. by destruct h.
Qed.

(** ** The section loop *)

(** A section of a laid-out file: the unread info word, the header and the raw name. *)
Record Placed := mkPlaced { pl_info : Z; pl_raw : RawSection; pl_name : list Z }.
Definition pl_header (p : Placed) : Z * RawSection := (pl_info p, pl_raw p).
Definition pl_section (p : Placed) : Section_ := to_section (from_utf8_lossy (pl_name p)) (pl_raw p).

(** The symbol table the reader uses: the last one. *)
Definition last_symtab (ps : list Placed) : option RawSection :=
  foldl (fun acc p => if raw_kind (pl_raw p) =? SHT_SYMTAB then Some (pl_raw p) else acc) None ps.
Definition placed_cost (ps : list Placed) : Z := foldr (fun p a => name_cost (pl_name p) + a) 0 ps.
Definition placed_len (ps : list Placed) : Z :=
  foldr (fun p a => str_len (from_utf8_lossy (pl_name p)) + a) 0 ps.

Lemma placed_cost_nonneg ps : 0 <= placed_cost ps.
Proof.
  unfold placed_cost. induction ps as [|p ps IH]; cbn [foldr]; [done|].
  pose proof (name_cost_nonneg (pl_name p)). lia.
Qed.
Lemma placed_len_cost ps : placed_len ps <= placed_cost ps.
Proof.
  unfold placed_cost, placed_len. induction ps as [|p ps IH]; cbn [foldr]; [done|].
  assert (str_len (from_utf8_lossy (pl_name p)) <= name_cost (pl_name p)) by (unfold name_cost; lia). lia.
Qed.

Lemma read_sections_loop c pre post names all : forall done rest budget,
  all = done ++ rest ->
  len (pre ++ header_table c (map pl_header all) ++ post) <= usize_max ->
  Forall (fun p => raw_ok c (pl_info p) (pl_raw p)) all ->
  (forall i p, all !! i = Some p -> raw_index (pl_raw p) = Z.of_nat i) -> len all <= u16_max + 1 ->
  Forall (fun p => name_at names (name_offset (pl_raw p)) (pl_name p)) all ->
  placed_cost rest <= budget ->
  foldM (read_section (pre ++ header_table c (map pl_header all) ++ post) (len pre) c names)
    (budget, map pl_section done, last_symtab done) (seqZ (len done) (len rest)) =
  Ok (budget - placed_len rest, map pl_section all, last_symtab all).
Proof.
  intros dn rest. revert dn. induction rest as [|p rest IH]; intros dn budget Eall Hmax Hok Hidx Hcount Hn Hb.
  - rewrite app_nil_r in Eall. subst all. change (len (@nil Placed)) with 0. rewrite seqZ_nil by lia. cbn.
    by rewrite Z.sub_0_r.
  - pose proof (len_nonneg rest). pose proof (len_nonneg dn). pose proof (placed_cost_nonneg rest).
    rewrite len_cons, seqZ_cons by lia. cbn [foldM].
    change (name_cost (pl_name p) + placed_cost rest <= budget) in Hb.
    assert (read_section (pre ++ header_table c (map pl_header all) ++ post) (len pre) c names
      (budget, map pl_section dn, last_symtab dn) (len dn) =
      Ok (budget - str_len (from_utf8_lossy (pl_name p)), map pl_section (dn ++ [p]),
          last_symtab (dn ++ [p]))) as ->.
    { unfold read_section. subst all. rewrite map_app in *. cbn [map] in *.
      assert (len (map pl_header dn) = len dn) as Hl by (unfold len; by rewrite length_map).
      rewrite len_app, len_cons in Hcount.
      assert (Forall (fun h => raw_ok c h.1 h.2) (map pl_header dn ++ pl_header p :: map pl_header rest)) as Hok'.
      { rewrite Forall_app, Forall_cons in Hok. destruct Hok as (? & ? & ?).
        apply Forall_app; split; [by apply Forall_map|constructor; [done|by apply Forall_map] ]. }
      pose proof (raw_section_at c pre (map pl_header dn) (pl_info p) (pl_raw p) (map pl_header rest) post
        Hmax Hok') as Hraw. rewrite Hl in Hraw.
      step_by ltac:(apply Hraw; [apply (Hidx (length dn)), list_lookup_middle; done|lia]).
      rewrite Forall_app, Forall_cons in Hn. destruct Hn as (_ & Hn & _).
      step_by ltac:(apply budget_read_at; [exact Hn|lia]).
      unfold last_symtab. cbv beta iota zeta. rewrite ?map_app, foldl_app. reflexivity. }
    cbn [mbind res_bind]. specialize (IH (dn ++ [p]) (budget - str_len (from_utf8_lossy (pl_name p)))).
    replace (Z.succ (len dn)) with (len (dn ++ [p])) by (rewrite len_app, len_cons, len_nil; lia).
    replace (Z.pred (1 + len rest)) with (len rest) by lia.
    rewrite IH; try done; [do 2 f_equal; f_equal; unfold placed_len; cbn [foldr]; lia
      |by rewrite <- app_assoc|unfold name_cost in Hb; lia].
Qed.

(** ** Laid-out files *)
Record Layout := mkLayout
  { l_header : ElfHeader; l_other : OtherFields; l_mid : list Z; l_placed : list Placed; l_tail : list Z;
    l_names : list Z; l_strings : list Z; l_symbols : list (list Z * SymbolEntry) }.

Definition layout_start (L : Layout) : list Z := encode_header (l_header L) (l_other L) ++ l_mid L.
Definition layout_bytes (L : Layout) : list Z :=
  layout_start L ++ header_table (h_class (l_header L)) (map pl_header (l_placed L)) ++ l_tail L.
Definition symbol_table (c : Class) (l : list (list Z * SymbolEntry)) : list Z :=
  flat_map (fun x => encode_symbol c x.2) l.

(** The file range a section header describes. *)
Definition holds (bytes : list Z) (r : RawSection) (content : list Z) : Prop :=
  get_range bytes (raw_offset r) (raw_offset r + raw_size r) = Some content.
(** Section [index] is a string table with the given content. *)
Definition string_table (L : Layout) (index : Z) (content : list Z) : Prop :=
  exists p, l_placed L !! Z.to_nat index = Some p /\ 0 <= index < len (l_placed L) /\
    raw_kind (pl_raw p) = SHT_STRTAB /\ holds (layout_bytes L) (pl_raw p) content.

Record layout_ok (L : Layout) (first : Placed) : Prop :=
  { lo_header : header_ok (l_header L) (l_other L);
    lo_size : len (layout_bytes L) <= isize_max;
    lo_shoff : h_shoff (l_header L) = len (layout_start L);
    lo_stride : h_shentsize (l_header L) = header_entsize (h_class (l_header L));
    lo_reserved : h_shnum (l_header L) < SHN_LORESERVE /\
      (h_shstrndx (l_header L) < SHN_LORESERVE \/ h_shstrndx (l_header L) = SHN_XINDEX);
    lo_first : l_placed L !! 0%nat = Some first;
    lo_sections : Forall (fun p => raw_ok (h_class (l_header L)) (pl_info p) (pl_raw p)) (l_placed L);
    lo_index : forall i p, l_placed L !! i = Some p -> raw_index (pl_raw p) = Z.of_nat i;
    lo_count : len (l_placed L) =
      (if h_shnum (l_header L) =? 0 then raw_size (pl_raw first) else h_shnum (l_header L));
    lo_limit : len (l_placed L) <= u16_max + 1;
    lo_names : let i := if h_shstrndx (l_header L) =? SHN_XINDEX then raw_link (pl_raw first)
                        else h_shstrndx (l_header L) in
      i <> 0 /\ string_table L i (l_names L);
    lo_named : Forall (fun p => name_at (l_names L) (name_offset (pl_raw p)) (pl_name p)) (l_placed L);
    lo_symbols : match last_symtab (l_placed L) with
      | None => l_symbols L = []
      | Some st => raw_entsize st = symbol_entsize (h_class (l_header L)) /\
          string_table L (raw_link st) (l_strings L) /\
          holds (layout_bytes L) st (symbol_table (h_class (l_header L)) (l_symbols L)) /\
          Forall (fun x => entry_ok (h_class (l_header L)) x.2 /\ name_at (l_strings L) (e_name x.2) x.1)
            (l_symbols L)
      end;
    lo_budget : placed_cost (l_placed L) + names_cost (l_symbols L) <= budget_new (len (layout_bytes L)) }.

Lemma placed_at L first i p : layout_ok L first -> l_placed L !! Z.to_nat i = Some p ->
  0 <= i < len (l_placed L) ->
  raw_section (layout_bytes L) (len (layout_start L)) i (h_class (l_header L)) = Ok (pl_raw p).
Proof.
  intros HL Hp Hi. set (c := h_class (l_header L)).
  pose proof (take_drop_middle _ _ _ Hp) as E. pose proof (lo_limit _ _ HL) as Hlim.
  assert (Z.to_nat i < length (l_placed L))%nat as Hlt by (unfold len in Hi; lia).
  pose proof (raw_section_at c (layout_start L) (map pl_header (take (Z.to_nat i) (l_placed L)))
    (pl_info p) (pl_raw p) (map pl_header (drop (S (Z.to_nat i)) (l_placed L))) (l_tail L)) as Hr.
  change (pl_info p, pl_raw p) with (pl_header p) in Hr. rewrite <- map_cons, <- map_app, E in Hr.
  assert (len (map pl_header (take (Z.to_nat i) (l_placed L))) = i) as El.
  { unfold len. rewrite length_map, length_take. lia. }
  rewrite El in Hr. apply Hr.
  - transitivity isize_max; [exact (lo_size _ _ HL)|done].
  - apply Forall_map. exact (lo_sections _ _ HL).
  - rewrite (lo_index _ _ HL _ _ Hp). lia.
  - lia.
Qed.

Lemma holds_table L first i p content : layout_ok L first -> l_placed L !! i = Some p ->
  holds (layout_bytes L) (pl_raw p) content -> table_bytes (layout_bytes L) (pl_raw p) = Ok content.
Proof.
  intros HL Hp Hh. pose proof (lo_size _ _ HL) as Hs.
  pose proof Hh as (? & ? & ? & _)%get_range_Some. unfold table_bytes.
  assert (isize_max < usize_max) by done.
  step_by ltac:(apply ok_or_Ok, try_from_Some; split; [lia|reflexivity]).
  step_by ltac:(apply ok_or_Ok, try_from_Some; split; [lia|reflexivity]).
  step_by ltac:(apply ok_or_Ok, checked_add_Some; split; [reflexivity|lia]).
  by apply ok_or_Ok.
Qed.

Lemma read_symbols_layout L first st : layout_ok L first -> last_symtab (l_placed L) = Some st ->
  forall budget, names_cost (l_symbols L) <= budget -> (exists i p, l_placed L !! i = Some p /\ pl_raw p = st) ->
  exists left, read_symbols (layout_bytes L) (len (layout_start L)) (len (l_placed L)) (h_class (l_header L))
    st budget = Ok (left, map (fun x => symbol_of x.1 x.2) (l_symbols L)).
Proof.
  intros HL Est budget Hb (i & p & Hp & Hraw). pose proof (lo_symbols _ _ HL) as Hs. rewrite Est in Hs.
  destruct Hs as (Hent & (ps & Hps & Hlink & Hkind & Hstr) & Htab & Hsyms).
  set (c := h_class (l_header L)) in *.
  assert (len (symbol_table c (l_symbols L)) = len (l_symbols L) * symbol_entsize c) as Hlen.
  { clear -Hsyms. unfold symbol_table. induction Hsyms as [|x l [Hx _] Hl IH]; [done|]. cbn [flat_map].
    rewrite len_app, len_encode_symbol, IH, len_cons by done. lia. }
  assert (0 < symbol_entsize c <= 24) as Hsz by (by destruct c).
  pose proof (lo_size _ _ HL) as Hsize. pose proof (get_range_len _ _ _ _ Htab) as Hl2.
  pose proof (proj1 (get_range_Some _ _ _ _) Htab) as (? & ? & ? & _).
  assert (isize_max + 64 <= usize_max) by done.
  destruct (read_symbols_loop c (l_strings L) (l_symbols L) [] [] budget) as [left Hleft];
    [done|change (len (symbol_table c (l_symbols L)) + 64 <= usize_max); lia|done|].
  exists left. unfold read_symbols. guard_by ltac:(apply Z.ltb_lt; lia).
  step_by ltac:(by apply (placed_at L first _ ps)). guard_by ltac:(by apply Z.eqb_eq).
  step_by ltac:(by apply (holds_table L first _ ps _ HL Hps)).
  step_by ltac:(rewrite Hent; apply ok_or_Ok, try_from_Some; split; [lia|reflexivity]).
  guard_by ltac:(apply Z.eqb_refl). subst st.
  step_by ltac:(by apply (holds_table L first i p _ HL Hp)). rewrite Hlen, Z.mod_mul, Z.div_mul by lia.
  guard_by ltac:(done). exact Hleft.
Qed.

Lemma last_symtab_In ps st : last_symtab ps = Some st -> exists i p, ps !! i = Some p /\ pl_raw p = st.
Proof.
  induction ps as [|p ps IH] using rev_ind; [done|]. unfold last_symtab. rewrite foldl_app. cbn [foldl].
  case_match; [intros [= <-]; exists (length ps), p; by rewrite list_lookup_middle|].
  intros (i & q & Hq & <-)%IH. exists i, q. split; [by apply lookup_app_l_Some|done].
Qed.

(** [read] on a file whose header and section-name table are in order. *)
Lemma read_with_table bytes h first nh names budget ss symtab left syms :
  let shoff := h_shoff h in let c := h_class h in
  let shnum := if h_shnum h =? 0 then raw_size first else h_shnum h in
  let i := if h_shstrndx h =? SHN_XINDEX then raw_link first else h_shstrndx h in
  read_header bytes = Ok h -> 0 < shoff -> h_shentsize h = header_entsize c ->
  h_shnum h < SHN_LORESERVE /\ (h_shstrndx h < SHN_LORESERVE \/ h_shstrndx h = SHN_XINDEX) ->
  raw_section bytes shoff 0 c = Ok first -> 0 <= shnum <= u16_max + 1 ->
  shoff + shnum * header_entsize c <= len bytes -> len bytes <= usize_max -> i <> 0 -> i < shnum ->
  raw_section bytes shoff i c = Ok nh -> raw_kind nh = SHT_STRTAB -> table_bytes bytes nh = Ok names ->
  foldM (read_section bytes shoff c names) (budget_new (len bytes), [], None) (seqZ 0 shnum) =
    Ok (budget, ss, symtab) ->
  match symtab with Some header => read_symbols bytes shoff shnum c header budget | None => Ok (budget, []) end
    = Ok (left, syms) ->
  read bytes = Ok (object_of h ss syms).
Proof.
  intros shoff c shnum i Hh Hoff Hstride [Hr1 Hr2] Hfirst Hn Hend Hmax Hi0 Hi Hnh Hkind Hnames Hss Hsyms.
  assert (0 < header_entsize c) as Hent by by destruct c.
  assert ((if h_shnum h =? 0 then ok_or (try_from usize_max (raw_size first)) SectionCount else Ok (h_shnum h))
    = Ok shnum) as Hnum.
  { unfold shnum in *. destruct (h_shnum h =? 0); [|done]. apply ok_or_Ok, try_from_Some. split; [|done].
    unfold u16_max, usize_max, u64_max in *. lia. }
  unfold read. step_by ltac:(exact Hh). cbv zeta. fold shoff c.
  rewrite (proj2 (Z.eqb_neq shoff 0)) by lia.
  guard_by ltac:(rewrite Hstride; by rewrite Z.eqb_refl).
  guard_by ltac:(apply andb_true_iff; rewrite orb_true_iff, !Z.ltb_lt, Z.eqb_eq; done).
  step_by ltac:(apply ok_or_Ok, try_from_Some; split; [nia|reflexivity]). step_by ltac:(exact Hfirst).
  step_by ltac:(exact Hnum).
  guard_by ltac:(apply Z.leb_le; lia).
  step_by ltac:(apply ok_or_Ok, bind_Some; eexists; rewrite Hstride; split;
    [apply checked_mul_Some|apply checked_add_Some]; (split; [reflexivity|nia])).
  guard_by ltac:(apply Z.leb_le; lia). fold i. guard_by ltac:(apply Z.leb_gt; lia).
  rewrite (proj2 (Z.eqb_neq i 0)) by lia.
  step_by ltac:(step_by ltac:(exact Hnh); guard_by ltac:(by apply Z.eqb_eq); exact Hnames).
  step_by ltac:(exact Hss). by step_by ltac:(exact Hsyms).
Qed.

(** C31. A file with a header, a section table (plain or extended counts), a
    section-name table and, if present, a symbol table with its strings reads
    as exactly those sections and symbols, in table order, for both classes,
    provided the names fit the budget. *)
Theorem elf_file_roundtrip L first : layout_ok L first ->
  read (layout_bytes L) = Ok (object_of (l_header L) (map pl_section (l_placed L))
                                (map (fun x => symbol_of x.1 x.2) (l_symbols L))).
Proof.
  intros HL. set (c := h_class (l_header L)). pose proof (lo_size _ _ HL) as Hsize.
  pose proof (lo_shoff _ _ HL) as Hoff. pose proof (lo_count _ _ HL) as Hcount.
  assert (isize_max < usize_max) as Hiu by done. pose proof (len_nonneg (l_placed L)).
  assert (0 < len (layout_start L) /\
    len (layout_start L) + len (l_placed L) * header_entsize c <= len (layout_bytes L)) as [Hstart Hend].
  { unfold layout_bytes. rewrite !len_app, len_header_table by (apply Forall_map, (lo_sections _ _ HL)).
    replace (len (map pl_header (l_placed L))) with (len (l_placed L)) by (unfold len; by rewrite length_map).
    unfold layout_start. rewrite len_app, len_encode_header by apply (lo_header _ _ HL). fold c.
    pose proof (len_nonneg (l_tail L)). pose proof (len_nonneg (l_mid L)). destruct c; lia. }
  destruct (lo_names _ _ HL) as [Hi0 (pn & Hpn & Hi & Hkind & Hnames)].
  pose proof (placed_cost_nonneg (l_placed L)). pose proof (placed_len_cost (l_placed L)).
  pose proof (lo_budget _ _ HL) as Hbud. pose proof (names_cost_nonneg (l_symbols L)).
  pose proof (read_sections_loop c (layout_start L) (l_tail L) (l_names L) (l_placed L) [] (l_placed L)
    (budget_new (len (layout_bytes L))) eq_refl (Z.le_trans _ _ _ Hsize (Z.lt_le_incl _ _ Hiu)) (lo_sections _ _ HL)
    (lo_index _ _ HL) (lo_limit _ _ HL) (lo_named _ _ HL) ltac:(lia)) as Hloop.
  assert (exists left, match last_symtab (l_placed L) with
    | Some st => read_symbols (layout_bytes L) (len (layout_start L)) (len (l_placed L)) c st
                   (budget_new (len (layout_bytes L)) - placed_len (l_placed L))
    | None => Ok (budget_new (len (layout_bytes L)) - placed_len (l_placed L), []) end =
    Ok (left, map (fun x => symbol_of x.1 x.2) (l_symbols L))) as [left Hsyms].
  { destruct (last_symtab (l_placed L)) as [st|] eqn:Est.
    - apply (read_symbols_layout L first st HL Est); [lia|by apply last_symtab_In].
    - pose proof (lo_symbols _ _ HL) as Hs. rewrite Est in Hs. rewrite Hs. by eexists. }
  eapply (read_with_table (layout_bytes L) (l_header L) (pl_raw first) (pl_raw pn) (l_names L));
    rewrite <- ?Hcount, ?Hoff; try eassumption; try lia.
  - unfold layout_bytes, layout_start. rewrite <- app_assoc. apply read_header_encode, (lo_header _ _ HL).
  - apply (lo_stride _ _ HL).
  - apply (lo_reserved _ _ HL).
  - apply (placed_at L first 0 first HL (lo_first _ _ HL)). lia.
  - pose proof (lo_limit _ _ HL). lia.
  - apply (placed_at L first _ pn HL Hpn Hi).
  - apply (holds_table L first _ pn _ HL Hpn Hnames).
Qed.

(** A file with a null section, one string table and a symbol table with two symbols. *)
Definition example_entries : list (list Z * SymbolEntry) :=
  [([], mkEntry 0 Local 0 0 Undefined 0 0); (rs "go", mkEntry 1 Global 0 0 (InSection 1) 0x20 8)].
Definition example_names : list Z := [0] ++ rs "go" ++ [0].
Definition example_layout : Layout :=
  mkLayout (mkHeader Elf64 1 62 0 15 1 116 64 3 1) (mkOther (fill 7 0) 0 0 0 0)
    (example_names ++ symbol_table Elf64 example_entries)
    [mkPlaced 0 (mkRaw 0 0 0 0 0 0 0 0 0 0) [];
     mkPlaced 0 (mkRaw 1 1 SHT_STRTAB 0 0 64 4 1 0 0) (rs "go");
     mkPlaced 0 (mkRaw 2 2 SHT_SYMTAB 0 0 68 48 8 1 24) (rs "o")]
    [] example_names example_names example_entries.

(** Deciders for the layout conditions. *)
Definition name_atb (table : list Z) (at_ : Z) (raw : list Z) : bool :=
  bool_decide (get_range table at_ (at_ + len raw + 1) = Some (raw ++ [0])) && forallb (fun b => negb (b =? 0)) raw.
Lemma name_atb_spec table at_ raw : name_atb table at_ raw = true -> name_at table at_ raw.
Proof.
  unfold name_atb. rewrite andb_true_iff, bool_decide_eq_true, forallb_forall.
  intros [(H0 & H1 & H2 & Hs)%get_range_Some Hnz]. pose proof (len_nonneg raw).
  exists (slice table 0 at_), (slice table (at_ + len raw + 1) (len table)). split; [|split].
  - rewrite <- (slice_full table) at 1. rewrite (slice_split table 0 at_) by lia.
    rewrite (slice_split table at_ (at_ + len raw + 1)) by lia. by rewrite <- Hs, <- app_assoc.
  - rewrite len_slice by lia. lia.
  - apply Forall_forall. intros b Hb%list_elem_of_In%Hnz. bool_prop. done.
Qed.

Lemma elf_file_roundtrip_witness :
  exists o, read (layout_bytes example_layout) = Ok o /\ len (sections o) = 3 /\ len (symbols o) = 2.
Proof.
  eexists. split; [apply (elf_file_roundtrip example_layout (mkPlaced 0 (mkRaw 0 0 0 0 0 0 0 0 0 0) []))|split; reflexivity].
  split; try (vm_compute; done).
  - split; [|done]. repeat (constructor; [split; vm_compute; done|]). constructor.
  - split; [done|by left].
  - repeat (constructor; [repeat (constructor; [split; vm_compute; done|]); constructor|]). constructor.
  - intros [|[|[|i] ] ] p; cbn; [intros [= <-]..|done]; done.
  - split; [done|]. eexists. repeat split; vm_compute; done.
  - repeat (constructor; [by apply name_atb_spec; vm_compute|]). constructor.
  - cbn. split; [done|]. split; [eexists; repeat split; vm_compute; done|]. split; [vm_compute; done|].
    repeat (constructor; [split; [split; [repeat (constructor; [split; vm_compute; done|]); constructor|done]
      |by apply name_atb_spec; vm_compute]|]). constructor.
Defined.

(** ** Totality *)
Lemma uint_at_not_Stuck n bytes at_ : at_ + n <= usize_max -> uint_at n bytes at_ <> Stuck.
Proof. intros. unfold uint_at. not_stuck. apply or_stuck_not_Stuck. eexists. by apply checked_add_Some. Qed.

Lemma uint_at_nonneg n bytes at_ v : Forall is_u8 bytes -> uint_at n bytes at_ = Ok v -> 0 <= v.
Proof.
  intros Hu Hr. unfold uint_at in Hr. inv_ok.
  match goal with H : get_range _ _ _ = Some _ |- _ => apply (get_range_Forall _ _ _ _ _ H), of_le_range in Hu end.
  lia.
Qed.

Ltac words := unfold u16_at, u32_at, u64_at; not_stuck; apply uint_at_not_Stuck.

Lemma header_fields_not_Stuck c bytes : header_fields c bytes <> Stuck.
Proof. unfold header_fields. destruct c; words; done. Qed.

Lemma raw_section_not_Stuck bytes shoff i c : raw_section bytes shoff i c <> Stuck.
Proof. unfold raw_section. not_stuck. apply header_fields_not_Stuck. Qed.

Lemma table_bytes_not_Stuck bytes r : table_bytes bytes r <> Stuck.
Proof. unfold table_bytes. not_stuck. Qed.

Lemma read_header_not_Stuck bytes : read_header bytes <> Stuck.
Proof.
  assert (forall i, 0 <= i -> i < len bytes -> is_Some (get_at bytes i)) as Hget.
  { intros i H0 H1. unfold get_at. rewrite (proj2 (Z.leb_le 0 i)) by done. apply lookup_lt_is_Some.
    unfold len in H1. lia. }
  unfold read_header. not_stuck_step; [not_stuck|]. not_stuck_step; [not_stuck|].
  not_stuck_step; [not_stuck|]. cbv zeta. not_stuck_step; [not_stuck|].
  match goal with H : ensure _ _ = Ok _ |- _ => apply ensure_Ok, Z.leb_le in H end.
  assert (52 <= len bytes) by (case_match; lia).
  unfold u16_at, u32_at, u64_at. not_stuck;
    first [by apply or_stuck_not_Stuck, Hget; lia|apply uint_at_not_Stuck; done
          |destruct a0; apply uint_at_not_Stuck; done].
Qed.

Lemma raw_section_fields bytes shoff i c r : Forall is_u8 bytes -> raw_section bytes shoff i c = Ok r ->
  raw_index r = i /\ 0 <= name_offset r /\ 0 <= raw_offset r /\ 0 <= raw_size r /\ 0 <= raw_link r.
Proof.
  intros Hu Hr. unfold raw_section, header_fields, u32_at, u64_at in Hr. inv_ok.
  match goal with H : get_range _ _ _ = Some _ |- _ => apply (get_range_Forall _ _ _ _ _ H) in Hu end.
  destruct c; inv_ok; simplify_eq; inv_ok;
    match goal with H : try_from _ _ = Some _ |- _ => apply try_from_Some in H as [_ ->] end;
    repeat match goal with H : uint_at _ _ _ = Ok _ |- _ => apply uint_at_nonneg in H; [|done] end; cbn; auto.
Qed.

Lemma symbol_fields_nonneg c bytes at_ name info shndx value size : Forall is_u8 bytes ->
  symbol_fields c bytes at_ = Ok (name, info, shndx, value, size) -> 0 <= name.
Proof.
  intros Hu Hs. unfold symbol_fields, u32_at in Hs.
  destruct c; inv_ok; simplify_eq; by eapply uint_at_nonneg.
Qed.

Lemma read_symbol_not_Stuck c bytes names st i : Forall is_u8 bytes ->
  0 <= i -> i * symbol_entsize c + 64 <= usize_max -> read_symbol c bytes names st i <> Stuck.
Proof.
  intros Hu H0 Hi. unfold read_symbol. destruct st as [budget out].
  not_stuck_step; [apply or_stuck_not_Stuck; eexists; apply checked_mul_Some; split; [reflexivity|lia]|].
  match goal with H : or_stuck _ = Ok _ |- _ => apply or_stuck_Ok, checked_mul_Some in H as [-> _] end.
  not_stuck_step; [unfold symbol_fields; destruct c; cbn [symbol_entsize] in *; words; lia|].
  destruct a as [[[[name info] shndx] value] size].
  not_stuck; apply budget_read_not_Stuck; by eapply symbol_fields_nonneg.
Qed.

Lemma table_bytes_len bytes r t : 0 <= raw_offset r -> table_bytes bytes r = Ok t ->
  len t <= len bytes /\ (Forall is_u8 bytes -> Forall is_u8 t).
Proof.
  intros H0 Ht. unfold table_bytes in Ht. inv_ok.
  match goal with H : get_range _ _ _ = Some _ |- _ =>
    pose proof (get_range_len _ _ _ _ H); pose proof (get_range_Forall is_u8 _ _ _ _ H);
    apply get_range_Some in H as (? & ? & ? & _) end. split; [lia|done].
Qed.

Lemma read_symbols_not_Stuck bytes shoff shnum c st budget : Forall is_u8 bytes -> len bytes <= isize_max ->
  0 <= raw_offset st -> read_symbols bytes shoff shnum c st budget <> Stuck.
Proof.
  intros Hu Hl H0. unfold read_symbols.
  do 7 (not_stuck_step; cbn beta;
    [first [apply raw_section_not_Stuck|apply table_bytes_not_Stuck|not_stuck]|]).
  not_stuck_step; [not_stuck|].
  match goal with H : ensure (_ =? symbol_entsize c) _ = Ok _ |- _ => apply ensure_Ok, Z.eqb_eq in H as -> end.
  match goal with H : table_bytes bytes st = Ok ?t |- _ => apply (table_bytes_len _ _ _ H0) in H as [Ht Hut] end.
  apply (foldM_not_Stuck _ (fun _ => True)); [done| |done].
  intros s i _ Hi%elem_of_seqZ. apply read_symbol_not_Stuck; [by apply Hut|lia|].
  assert (0 < symbol_entsize c <= 24) by (by destruct c).
  match type of Ht with len ?t <= _ => pose proof (Z.mul_div_le (len t) (symbol_entsize c) ltac:(lia)) end.
  assert (isize_max + 64 <= usize_max) by done. nia.
Qed.

(** The state of the section loop: sections in index order, each from its
    header, the spent budget, and a symbol table that is one of the headers. *)
Definition name_len (ns : list (list Z)) : Z := foldr (fun n a => str_len n + a) 0 ns.
Definition section_inv (bytes : list Z) (shoff : Z) (c : Class) (ids : list Z) (st : section_state) : Prop :=
  let '(budget, ss, symtab) := st in
  Forall2 (fun i s => exists r, raw_section bytes shoff i c = Ok r /\ s = to_section (s_name s) r) ids ss /\
  budget + name_len (map s_name ss) = budget_new (len bytes) /\ 0 <= budget /\
  (forall r, symtab = Some r -> 0 <= raw_offset r).

Lemma name_len_app a b : name_len (a ++ b) = name_len a + name_len b.
Proof. unfold name_len. induction a as [|n a IH]; cbn [app foldr]; lia. Qed.

Lemma read_section_inv bytes shoff c names ids i st st' : Forall is_u8 bytes ->
  section_inv bytes shoff c ids st -> read_section bytes shoff c names st i = Ok st' ->
  section_inv bytes shoff c (ids ++ [i]) st'.
Proof.
  intros Hu. destruct st as [ [budget ss] symtab]. intros (H1 & H2 & H0 & H3) Hr. unfold read_section in Hr.
  apply bind_Ok in Hr as (raw & Hraw & Hr). apply bind_Ok in Hr as ([name left] & [Hb Hb0]%budget_read_Ok & Hr).
  injection Hr as <-. split; [|split; [|split] ].
  - apply Forall2_app; [done|]. constructor; [|done]. by exists raw.
  - rewrite map_app, name_len_app. cbn. lia.
  - by apply Hb0.
  - intros r. case_match; [intros [= <-]|apply H3]. by apply raw_section_fields in Hraw as (_ & _ & ? & _).
Qed.

Lemma read_sections_inv bytes shoff c names n st : Forall is_u8 bytes ->
  foldM (read_section bytes shoff c names) (budget_new (len bytes), [], None) (seqZ 0 n) = Ok st ->
  section_inv bytes shoff c (seqZ 0 n) st.
Proof.
  intros Hu. apply (foldM_inv _ (section_inv bytes shoff c)).
  - split; [constructor|split; [cbn; lia|split; [|done] ] ].
    unfold budget_new. pose proof (len_nonneg bytes). unfold usize_max, u64_max. lia.
  - intros pre x s s'. by apply read_section_inv.
Qed.

Lemma read_section_not_Stuck bytes shoff c names st i : Forall is_u8 bytes ->
  read_section bytes shoff c names st i <> Stuck.
Proof.
  intros Hu. unfold read_section. destruct st as [ [budget ss] symtab].
  not_stuck_step; [apply raw_section_not_Stuck|]. not_stuck. apply budget_read_not_Stuck.
  by eapply raw_section_fields.
Qed.

Lemma read_not_Stuck bytes : Forall is_u8 bytes -> len bytes <= isize_max -> read bytes <> Stuck.
Proof.
  intros Hu Hl. unfold read. not_stuck_step; [apply read_header_not_Stuck|]. cbv zeta.
  not_stuck_step; [not_stuck|].
  do 9 (not_stuck_step; cbn beta; [first [apply raw_section_not_Stuck|not_stuck]|]).
  not_stuck_step; [not_stuck; first [apply raw_section_not_Stuck|apply table_bytes_not_Stuck]|].
  not_stuck_step.
  - apply (foldM_not_Stuck _ (fun _ => True)); [done| |done]. intros. by apply read_section_not_Stuck.
  - match goal with H : foldM _ _ _ = Ok ?st |- _ => apply read_sections_inv in H; [|done]; destruct st as [ [b ss] [r|] ] end.
    + not_stuck_step; [|not_stuck]. apply read_symbols_not_Stuck; [done|done|].
      match goal with H : section_inv _ _ _ _ _ |- _ => destruct H as (_ & _ & _ & H); by apply H end.
    + not_stuck.
Qed.

(** ** Soundness *)
Lemma read_symbols_spends c table names l : forall st st',
  foldM (read_symbol c table names) st l = Ok st' ->
  st'.1 + name_len (map sym_name st'.2) = st.1 + name_len (map sym_name st.2) /\
  len st'.2 = len st.2 + len l /\ (0 <= st.1 -> 0 <= st'.1).
Proof.
  induction l as [|i l IH]; intros st st'; cbn [foldM]; [intros [= <-]; rewrite len_nil; lia|].
  intros (s1 & Hs1 & H2%IH)%bind_Ok. rewrite len_cons.
  enough (s1.1 + name_len (map sym_name s1.2) = st.1 + name_len (map sym_name st.2) /\
          len s1.2 = len st.2 + 1 /\ (0 <= st.1 -> 0 <= s1.1)) by naive_solver lia.
  destruct st as [budget out]. unfold read_symbol in Hs1. cbn [fst snd].
  apply bind_Ok in Hs1 as (a & _ & Hs1). apply bind_Ok in Hs1 as ([[[[]]]] & _ & Hs1).
  apply bind_Ok in Hs1 as ([n left] & [Hb Hb0]%budget_read_Ok & Hs1). injection Hs1 as <-. cbn [fst snd].
  rewrite map_app, name_len_app, len_app, len_cons, len_nil. cbn. lia.
Qed.

Lemma read_symbols_bounds bytes shoff shnum c st budget left syms : 0 <= raw_offset st ->
  read_symbols bytes shoff shnum c st budget = Ok (left, syms) ->
  left + name_len (map sym_name syms) = budget /\ (0 <= budget -> 0 <= left) /\ len syms * symbol_entsize c <= len bytes.
Proof.
  intros H0 Hr. unfold read_symbols in Hr. inv_ok. bool_prop. subst.
  match goal with H : table_bytes _ st = Ok _ |- _ => apply (table_bytes_len _ _ _ H0) in H as [Ht _] end.
  match goal with H : foldM _ _ _ = Ok _ |- _ => apply read_symbols_spends in H as (Hb & Hl & Hp) end.
  cbn [fst snd] in *. split; [cbn in Hb; lia|]. split; [done|].
  assert (0 < symbol_entsize c) by (by destruct c). rewrite Hl, len_nil. unfold len at 1. rewrite length_seqZ.
  match type of Ht with len ?t <= _ => pose proof (Z.mul_div_le (len t) (symbol_entsize c) ltac:(lia));
    pose proof (Z.div_pos (len t) (symbol_entsize c) (len_nonneg t) ltac:(lia)) end. nia.
Qed.

Lemma u32_at_range bytes at_ v : Forall is_u8 bytes -> u32_at bytes at_ = Ok v -> 0 <= v <= u32_max.
Proof.
  intros Hu Hr. unfold u32_at, uint_at in Hr. inv_ok.
  match goal with H : get_range _ _ _ = Some _ |- _ => pose proof (get_range_len _ _ _ _ H);
    apply (get_range_Forall _ _ _ _ _ H) in Hu end.
  match goal with H : checked_add _ _ _ = Some _ |- _ => apply checked_add_Some in H as [-> _] end.
  apply of_le_u32; [lia|done].
Qed.

Lemma read_header_Ok bytes o : read bytes = Ok o -> exists h ss syms, read_header bytes = Ok h /\ o = object_of h ss syms.
Proof.
  unfold read. intros (h & Hh & Hr)%bind_Ok. cbv zeta in Hr. exists h. case_match; [inv_ok; eauto|].
  do 10 (apply bind_Ok in Hr as (? & ? & Hr)). apply bind_Ok in Hr as ([ [budget ss] symtab] & _ & Hr).
  apply bind_Ok in Hr as ([left syms] & _ & [= <-]). eauto.
Qed.

Lemma read_flags bytes o : Forall is_u8 bytes -> read bytes = Ok o -> 0 <= obj_flags o <= u32_max.
Proof.
  intros Hu (h & ss & syms & Hh & ->)%read_header_Ok. cbn [obj_flags object_of]. unfold read_header in Hh.
  do 13 (apply bind_Ok in Hh as (? & ? & Hh)).
  apply bind_Ok in Hh as ([ [ [shoff ent] num] strndx] & _ & Hh). inv_ok. cbn.
  by eapply u32_at_range.
Qed.

Lemma raw_section_inside bytes shoff i c r : raw_section bytes shoff i c = Ok r ->
  0 <= shoff + i * header_entsize c /\ shoff + (i + 1) * header_entsize c <= len bytes.
Proof.
  intros Hr. unfold raw_section in Hr. inv_ok.
  repeat match goal with
  | H : (_ ≫= _) = Some _ |- _ => apply bind_Some in H as (? & [-> _]%checked_mul_Some & [-> _]%checked_add_Some)
  | H : checked_add _ _ _ = Some _ |- _ => apply checked_add_Some in H as [-> _]
  | H : get_range _ _ _ = Some _ |- _ => apply get_range_Some in H as (? & ? & ? & _)
  end. lia.
Qed.

Lemma sections_of_headers bytes shoff c n ss : Forall is_u8 bytes ->
  Forall2 (fun i s => exists r, raw_section bytes shoff i c = Ok r /\ s = to_section (s_name s) r) (seqZ 0 n) ss ->
  forall i s, ss !! i = Some s -> s_index s = Z.of_nat i /\
    exists r, raw_section bytes shoff (Z.of_nat i) c = Ok r /\ s = to_section (s_name s) r.
Proof.
  intros Hu Hall i s Hs. destruct (Forall2_lookup_r _ _ _ _ _ Hall Hs) as (k & Hk & r & Hr & Hsec).
  apply lookup_seqZ in Hk as [-> _]. cbn in Hr. split; [|by exists r].
  rewrite Hsec. cbn. by apply raw_section_fields in Hr as [-> _].
Qed.

(** Reading any byte string of a possible length never panics: no index is
    out of range and no unchecked arithmetic overflows.  What a successful read
    returns is in the file: at most 65,536 sections
    in index order, each decoded from its header inside the file, symbols whose
    entries fit in the file, and names that together take no more than four
    times the file and no more than 64 MiB. *)
Theorem elf_reader_sound bytes : Forall is_u8 bytes -> len bytes <= isize_max -> read bytes <> Stuck /\
  forall o, read bytes = Ok o ->
  (exists shoff, 0 <= shoff /\ shoff + len (sections o) * header_entsize (obj_class o) <= len bytes /\
    forall i s, sections o !! i = Some s -> s_index s = Z.of_nat i /\
      exists r, raw_section bytes shoff (Z.of_nat i) (obj_class o) = Ok r /\ s = to_section (s_name s) r) /\
  len (sections o) <= 65536 /\ len (symbols o) * symbol_entsize (obj_class o) <= len bytes /\
  name_len (section_names o) + name_len (map sym_name (symbols o)) <=
    Z.min (4 * len bytes) (64 * 1024 * 1024).
Proof.
  intros Hu Hmax. split; [by apply read_not_Stuck|]. intros o Hr. pose proof (len_nonneg bytes). unfold read in Hr.
  apply bind_Ok in Hr as (h & _ & Hr). cbv zeta in Hr. case_match.
  - inv_ok. unfold section_names. unfold len in *. cbn. repeat split; try lia.
    exists 0. split; [done|]. split; [lia|]. intros i s. by rewrite lookup_nil.
  - do 10 (apply bind_Ok in Hr as (? & ? & Hr)). apply bind_Ok in Hr as ([ [budget ss] symtab] & Hss & Hr).
    apply bind_Ok in Hr as ([left syms] & Hsyms & [= <-]). inv_ok. bool_prop.
    apply read_sections_inv in Hss as (Hall & Hbud & Hpos & Hst); [|done].
    unfold section_names. cbn [obj_class object_of sections symbols].
    assert (left + name_len (map sym_name syms) = budget /\ 0 <= left /\
      len syms * symbol_entsize (h_class h) <= len bytes) as (Hleft & Hl0 & Hsz).
    { destruct symtab as [st|]; [|injection Hsyms as <- <-; change (len (@nil Symbol)) with 0;
        change (name_len (map sym_name [])) with 0; lia].
      apply read_symbols_bounds in Hsyms as (? & ? & ?); [auto|by apply Hst]. }
    pose proof (Forall2_length _ _ _ Hall) as Hlen. rewrite length_seqZ in Hlen.
    unfold budget_new in Hbud. assert (len ss <= 65536) by (unfold u16_max, len in *; lia).
    match goal with H : try_from _ (h_shoff h) = Some ?x |- _ =>
      rename x into shoff; apply try_from_Some in H as [Hs0 ->] end.
    repeat split; try lia. exists (h_shoff h). split; [lia|]. split; [|by apply (sections_of_headers _ _ _ _ _ Hu Hall)].
    match goal with H : raw_section _ _ 0 _ = Ok _ |- _ => apply raw_section_inside in H as [_ Hin] end.
    match goal with H : (_ ≫= _) = Some _ |- _ => apply bind_Some in H as (? & [-> _]%checked_mul_Some & [-> _]%checked_add_Some) end.
    assert (0 < header_entsize (h_class h)) by (by destruct (h_class h)). unfold len at 1. rewrite <- Hlen. nia.
Qed.

Lemma elf_reader_sound_witness : read (fill 70 0xff) = Err NotElf /\
  exists o, read (layout_bytes example_layout) = Ok o /\ len (sections o) <= 65536.
Proof.
  split; [reflexivity|].
  assert (exists o, read (layout_bytes example_layout) = Ok o) as [o Ho] by (eexists; vm_compute; reflexivity).
  exists o. split; [exact Ho|].
  apply (elf_reader_sound (layout_bytes example_layout)); [by apply forallb_u8; vm_compute|by vm_compute|exact Ho].
Defined.
