(* ===== verification/Cursor.v ===== *)
(** * Cursor: readers that advance a byte slice

    The attribute decoders take [&mut &[u8]] and move it past what they read.
    A reader is a function from the remaining bytes to a value and the bytes
    left; [Exact p R] says that [p] never panics and reads precisely the words
    the relation [R] describes.  The class composes along the code: sequencing,
    guards, [while !bytes.is_empty()] loops, LEB128 integers, length-prefixed
    blocks and NUL-terminated strings. *)

From S2P Require Import Prelude Bytes Text.

Definition cursor (E A : Type) : Type := list Z -> res E (A * list Z).

Class Exact {E A} (p : cursor E A) (R : list Z -> A -> Prop) : Prop :=
  { exact_total : forall bytes, Forall is_u8 bytes -> p bytes <> Stuck;
    exact_iff : forall bytes x rest, Forall is_u8 bytes ->
      p bytes = Ok (x, rest) <-> exists w, bytes = w ++ rest /\ R w x }.

(** The first byte and the slice behind it. *)
Lemma get_at_first (bytes : list Z) b : get_at bytes 0 = Some b -> exists rest, bytes = b :: rest.
Proof. destruct bytes as [|b' rest]; [done|]. cbn. intros [= ->]. by exists rest. Qed.
Lemma get_range_tail (b : Z) rest : get_range (b :: rest) 1 (len (b :: rest)) = Some rest.
Proof.
  pose proof (get_range_app_mid [b] rest [] 1 (len (b :: rest)) eq_refl ltac:(rewrite len_cons; reflexivity)) as Hr.
  by rewrite app_nil_r in Hr.
Qed.

Section exact.
Context {E : Type}.

Lemma exact_ext {A} (p q : cursor E A) (R S : list Z -> A -> Prop) :
  Exact p R -> (forall bytes, q bytes = p bytes) ->
  (forall w x, Forall is_u8 w -> R w x <-> S w x) -> Exact q S.
Proof.
  intros Hp Hq HRS. split; intros bytes; rewrite Hq; [apply exact_total|].
  intros x rest Hu. rewrite (exact_iff (p := p) (R := R)) by done.
  split; intros (w & -> & Hw); exists w; (split; [done|]); apply Forall_app in Hu as [Hu _]; by apply HRS.
Qed.

Lemma exact_eq {A} (p q : cursor E A) (R : list Z -> A -> Prop) :
  Exact p R -> (forall bytes, Forall is_u8 bytes -> q bytes = p bytes) -> Exact q R.
Proof.
  intros Hp Hq. split; intros bytes; [intros Hu; rewrite Hq by done; by apply exact_total|].
  intros x rest Hu. rewrite Hq by done. by apply exact_iff.
Qed.

Lemma exact_ret {A} (x : A) : Exact (E := E) (fun b => Ok (x, b)) (fun w y => w = [] /\ y = x).
Proof.
  split; [done|]. intros bytes y rest _. split.
  - intros [= <- <-]. by exists [].
  - by intros (w & -> & -> & ->).
Qed.

Lemma exact_bind {A B} (p : cursor E A) (q : A -> cursor E B) R S :
  Exact p R -> (forall x, Exact (q x) (S x)) ->
  Exact (fun b => '(x, b) ← p b; q x b)
    (fun w y => exists w1 w2 x, w = w1 ++ w2 /\ R w1 x /\ S x w2 y).
Proof.
  intros Hp Hq. split.
  - intros bytes Hu. apply bind_not_Stuck; [by apply exact_total|].
    intros [x rest] (w & -> & _)%exact_iff; [|done]. apply Forall_app in Hu as [_ Hu].
    by apply (exact_total (p := q x)).
  - intros bytes y rest Hu. rewrite bind_Ok. split.
    + intros ([x b] & (w1 & -> & HR)%exact_iff & Hrest); [|done]. apply Forall_app in Hu as [_ Hu].
      apply exact_iff in Hrest as (w2 & -> & HS); [|done].
      exists (w1 ++ w2). rewrite app_assoc. naive_solver.
    + intros (w & -> & w1 & w2 & x & -> & HR & HS). rewrite <- app_assoc in Hu |- *.
      exists (x, w2 ++ rest). split; [apply exact_iff; [done|]; by exists w1|].
      apply Forall_app in Hu as [_ Hu]. apply (exact_iff (p := q x)); [done|]. by exists w2.
Qed.

Lemma exact_ensure {A} b (e : E) (p : cursor E A) R : Exact p R ->
  Exact (fun bytes => _ ← ensure b e; p bytes) (fun w x => b = true /\ R w x).
Proof.
  intros Hp. destruct b; cbn.
  - eapply exact_ext; [exact Hp|done|naive_solver].
  - split; [done|]. intros bytes x rest _. naive_solver.
Qed.

Lemma exact_map {A B} (p : cursor E A) (f : A -> B) R : Exact p R ->
  Exact (fun bytes => '(x, b) ← p bytes; Ok (f x, b)) (fun w y => exists x, R w x /\ y = f x).
Proof.
  intros Hp. eapply exact_ext; [exact (exact_bind p (fun x b => Ok (f x, b)) R _ Hp (fun x => exact_ret (f x)))
    |done|].
  cbv beta. intros w y _. split; [intros (w1 & w2 & x & -> & HR & -> & ->); rewrite app_nil_r; eauto|].
  intros (x & HR & ->). exists w, [], x. rewrite app_nil_r. done.
Qed.

Lemma exact_if {A} (b : bool) (p q : cursor E A) R S : Exact p R -> Exact q S ->
  Exact (fun bytes => if b then p bytes else q bytes) (fun w x => if b then R w x else S w x).
Proof. by destruct b. Qed.

Lemma exact_fail {A} (e : E) : Exact (A := A) (fun _ => Err e) (fun _ _ => False).
Proof. split; [done|]. naive_solver. Qed.
End exact.

(** ** [while !bytes.is_empty() { .. }] *)
Fixpoint drain {E S} (fuel : nat) (body : S -> cursor E S) (s : S) (bytes : list Z) : res E S :=
  match bytes with
  | [] => Ok s
  | _ :: _ =>
    match fuel with
    | O => Stuck
    | S fuel => '(s, bytes) ← body s bytes; drain fuel body s bytes
    end
  end.

Inductive chunks {S} (R : S -> list Z -> S -> Prop) : S -> list Z -> S -> Prop :=
| chunks_nil s : chunks R s [] s
| chunks_cons s w1 s1 w2 s2 : R s w1 s1 -> chunks R s1 w2 s2 -> chunks R s (w1 ++ w2) s2.

Lemma chunks_inv {S} (R : S -> list Z -> S -> Prop) s w s' : chunks R s w s' ->
  (w = [] /\ s' = s) \/ exists w1 s1 w2, w = w1 ++ w2 /\ R s w1 s1 /\ chunks R s1 w2 s'.
Proof. destruct 1; eauto 10. Qed.

Lemma chunks_empty {S} (R : S -> list Z -> S -> Prop) s s' :
  (forall s w s', R s w s' -> w <> []) -> chunks R s [] s' <-> Ok (E := unit) s = Ok s'.
Proof.
  intros Hne. split; [|intros [= <-]; constructor].
  intros [ [_ ->]|(w1 & s1 & w2 & E & HR%Hne & _)]%chunks_inv; [done|]. by destruct w1.
Qed.

(** A body that always advances drains any input, with fuel for one round per byte. *)
Lemma drain_exact {E S} (body : S -> cursor E S) R :
  (forall s, Exact (body s) (R s)) -> (forall s w s', R s w s' -> w <> []) ->
  forall fuel s bytes, Forall is_u8 bytes -> (length bytes <= fuel)%nat ->
  drain fuel body s bytes <> Stuck /\ (forall s', drain fuel body s bytes = Ok s' <-> chunks R s bytes s').
Proof.
  intros Hb Hne. induction fuel as [|fuel IH]; intros s bytes Hu Hl.
  { destruct bytes; [|cbn in Hl; lia]. split; [done|]. intros s'. rewrite chunks_empty by done. naive_solver. }
  destruct bytes as [|b bytes].
  { split; [done|]. intros s'. rewrite chunks_empty by done. naive_solver. }
  remember (b :: bytes) as all eqn:Eall.
  assert (drain (Datatypes.S fuel) body s all = '(s1, b1) ← body s all; drain fuel body s1 b1) as ->
    by by rewrite Eall.
  assert (forall s1 b1, body s all = Ok (s1, b1) -> Forall is_u8 b1 /\ (length b1 <= fuel)%nat) as Hstep.
  { intros s1 b1 (w & Ew & HR)%exact_iff; [|done]. rewrite Ew in Hu, Hl. apply Forall_app in Hu as [_ Hu].
    split; [done|]. rewrite length_app in Hl. destruct w; [by apply Hne in HR|cbn in Hl; lia]. }
  split.
  - apply bind_not_Stuck; [by apply (exact_total (p := body s))|]. intros [s1 b1] [H1 H2]%Hstep. by apply IH.
  - intros s'. rewrite bind_Ok. split.
    + intros ([s1 b1] & H1 & H2). destruct (Hstep _ _ H1) as [Hu1 Hl1]. apply IH in H2; [|done..].
      destruct (proj1 (exact_iff _ _ _ Hu) H1) as (w & -> & HR). by econstructor.
    + intros [ [Ew _]|(w1 & s1 & w2 & Ew & HR & Hc)]%chunks_inv; [by subst|]. exists (s1, w2).
      assert (body s all = Ok (s1, w2)) as H1 by (apply exact_iff; [done|by exists w1]).
      split; [done|]. destruct (Hstep _ _ H1). by apply IH.
Qed.

(** ** LEB128 *)

(** The value of a LEB128 word, and its shape from byte [i] on: at most ten
    bytes, the tenth at most 1, continuation bits on all but the last; in
    canonical form no final zero byte is redundant. *)
Fixpoint leb_value (w : list Z) : Z :=
  match w with [] => 0 | b :: w => b mod 128 + 128 * leb_value w end.
Fixpoint leb_shape (canonical : bool) (i : Z) (w : list Z) : bool :=
  match w with
  | [] => false
  | b :: w =>
    (i <? 10) && (negb (i =? 9) || (b <=? 1)) &&
    (if b <? 128
     then match w with [] => true | _ => false end && (negb canonical || (i =? 0) || negb (b =? 0))
     else leb_shape canonical (i + 1) w)
  end.
Definition leb (canonical : bool) (w : list Z) (v : Z) : Prop :=
  leb_shape canonical 0 w = true /\ v = leb_value w.

Lemma leb_value_bounds canonical : forall w i, Forall is_u8 w -> leb_shape canonical i w = true -> 0 <= i ->
  0 <= leb_value w < 2 ^ (64 - 7 * i) /\ (i <= 9).
Proof.
  induction w as [|b w IH]; intros i Hu Hs Hi; cbn in Hs; [done|].
  apply Forall_cons in Hu as [Hb Hu]. unfold is_u8, u8_max in Hb.
  rewrite !andb_true_iff, orb_true_iff, negb_true_iff, Z.ltb_lt, Z.leb_le, Z.eqb_neq in Hs.
  destruct Hs as [ [H10 H9] Hs]. split; [|lia]. cbn [leb_value].
  pose proof (Z.mod_pos_bound b 128 ltac:(lia)).
  assert (i = 9 \/ i < 9) as [->|Hlt] by lia.
  { assert (b <= 1) by lia. destruct (b <? 128) eqn:E; bool_prop; [|lia]. destruct w; [|done].
    cbn. rewrite Z.mod_small by lia. lia. }
  assert (2 ^ (64 - 7 * i) = 128 * 2 ^ (64 - 7 * (i + 1))) as ->.
  { change 128 with (2 ^ 7). rewrite <- Z.pow_add_r by lia. f_equal. lia. }
  assert (0 < 2 ^ (64 - 7 * (i + 1))) by (apply Z.pow_pos_nonneg; lia).
  destruct (b <? 128) eqn:E; bool_prop.
  - destruct w; [|done]. cbn [leb_value]. lia.
  - apply IH in Hs; [|done|lia]. lia.
Qed.

Lemma lor_low_high v k n : 0 <= n -> 0 <= v < 2 ^ n -> Z.lor v (k * 2 ^ n) = v + k * 2 ^ n.
Proof.
  intros Hn Hv. apply lor_disjoint. apply Z.bits_inj'. intros m Hm. rewrite Z.land_spec, Z.bits_0.
  destruct (Z.lt_ge_cases m n) as [Hlt|Hge].
  - by rewrite Z.mul_pow2_bits_low, andb_false_r by lia.
  - rewrite <- (Z.mod_small v (2 ^ n)) by lia. by rewrite Z.mod_pow2_bits_high by lia.
Qed.

(** The accumulation step of the readers. *)
Lemma leb_accumulate v b i : 0 <= i -> 0 <= v < 2 ^ (7 * i) -> is_u8 b -> (i = 9 -> b <= 1) -> i <= 9 ->
  Z.lor v (Z.shiftl (Z.land b 0x7f) (i * 7) mod 2 ^ 64) = v + (b mod 128) * 2 ^ (7 * i) /\
  v + (b mod 128) * 2 ^ (7 * i) < 2 ^ (7 * (i + 1)).
Proof.
  intros Hi Hv Hb H9 Hi9. unfold is_u8, u8_max in Hb.
  change 0x7f with (Z.ones 7). rewrite Z.land_ones by lia. change (2 ^ 7) with 128.
  pose proof (Z.mod_pos_bound b 128 ltac:(lia)). replace (i * 7) with (7 * i) by lia.
  rewrite Z.shiftl_mul_pow2 by lia.
  assert (2 ^ (7 * (i + 1)) = 2 ^ (7 * i) * 128) as E.
  { replace (7 * (i + 1)) with (7 * i + 7) by lia. by rewrite Z.pow_add_r by lia. }
  assert (0 < 2 ^ (7 * i)) by (apply Z.pow_pos_nonneg; lia).
  split; [|nia]. rewrite (Z.mod_small _ (2 ^ 64)).
  - by apply lor_low_high; [lia|].
  - split; [nia|]. assert (i = 9 \/ i <= 8) as [->|Hi8] by lia.
    + specialize (H9 eq_refl). rewrite Z.mod_small by lia. lia.
    + assert (2 ^ (7 * i) <= 2 ^ 56) by (apply Z.pow_le_mono_r; lia). nia.
Qed.

Lemma land_high_bit b : is_u8 b -> (Z.land b 0x80 =? 0) = (b <? 128).
Proof.
  intros Hb. assert (forallb (fun b => Bool.eqb (Z.land b 0x80 =? 0) (b <? 128)) (seqZ 0 256) = true) as Hall
    by (vm_compute; reflexivity).
  rewrite forallb_forall in Hall. apply eqb_prop, Hall, list_elem_of_In, elem_of_seqZ.
  unfold is_u8, u8_max in Hb. lia.
Qed.

(** The first byte of a LEB128 word. *)
Lemma leb_first canonical i byte rest tl (P : Z -> Prop) : 0 <= i <= 9 ->
  (exists w, byte :: rest = w ++ tl /\ leb_shape canonical i w = true /\ P (leb_value w)) <->
  (negb (i =? 9) || (byte <=? 1)) = true /\
  (if byte <? 128
   then (negb canonical || ((i =? 0) || negb (byte =? 0))) = true /\ tl = rest /\ P (byte mod 128)
   else exists w, rest = w ++ tl /\ leb_shape canonical (i + 1) w = true /\ P (byte mod 128 + 128 * leb_value w)).
Proof.
  intros Hi. assert (i <? 10 = true) as Hi10 by (apply Z.ltb_lt; lia). split.
  - intros ([|b w] & Ew & Hs & HP); [done|]. cbn [leb_shape leb_value] in Hs, HP. injection Ew as <- ->.
    rewrite Hi10 in Hs. apply andb_true_iff in Hs as [Hg Hs]. split; [exact Hg|].
    destruct (byte <? 128); [|by exists w]. destruct w; [|done]. cbn in Hs, HP.
    rewrite Z.add_0_r in HP. by rewrite <- orb_assoc in Hs.
  - intros [Hg Hs]. destruct (byte <? 128) eqn:E.
    + destruct Hs as (Hc & -> & HP). exists [byte]. cbn. rewrite Hi10, Hg, E, <- orb_assoc, Hc.
      by rewrite Z.add_0_r.
    + destruct Hs as (w & -> & Hs & HP). exists (byte :: w). cbn [leb_shape leb_value]. by rewrite Hi10, Hg, E, Hs.
Qed.

(** Any loop with the readers' unfolding equation reads LEB128 words. *)
Section uleb.
Context {E : Type} (loop : nat -> Z -> Z -> list Z -> res E (Z * list Z)) (canonical : bool).
Context (truncated overflow redundant too_long : E).
Hypothesis loop_O : forall i v bytes, loop 0 i v bytes = Err too_long.
Hypothesis loop_S : forall n i v bytes, loop (S n) i v bytes =
  (byte ← ok_or (get_at bytes 0) truncated;
   rest ← or_stuck (get_range bytes 1 (len bytes));
   _ ← ensure (negb (i =? 9) || (byte <=? 1)) overflow;
   let v := Z.lor v (Z.shiftl (Z.land byte 0x7f) (i * 7) mod 2 ^ 64) in
   if Z.land byte 0x80 =? 0
   then _ ← ensure (negb canonical || ((i =? 0) || negb (byte =? 0))) redundant; Ok (v, rest)
   else loop n (i + 1) v rest).

Lemma loop_cons n i v byte rest : loop (S n) i v (byte :: rest) =
  (_ ← ensure (negb (i =? 9) || (byte <=? 1)) overflow;
   let v := Z.lor v (Z.shiftl (Z.land byte 0x7f) (i * 7) mod 2 ^ 64) in
   if Z.land byte 0x80 =? 0
   then _ ← ensure (negb canonical || ((i =? 0) || negb (byte =? 0))) redundant; Ok (v, rest)
   else loop n (i + 1) v rest).
Proof.
  rewrite loop_S. change (get_at (byte :: rest) 0) with (Some byte). cbn [ok_or mbind res_bind].
  by rewrite get_range_tail.
Qed.

Lemma loop_step n i v byte rest : 0 <= i <= 9 -> 0 <= v < 2 ^ (7 * i) -> is_u8 byte ->
  loop (S n) i v (byte :: rest) =
  (_ ← ensure (negb (i =? 9) || (byte <=? 1)) overflow;
   if byte <? 128
   then _ ← ensure (negb canonical || ((i =? 0) || negb (byte =? 0))) redundant;
        Ok (v + byte mod 128 * 2 ^ (7 * i), rest)
   else loop n (i + 1) (v + byte mod 128 * 2 ^ (7 * i)) rest).
Proof.
  intros Hi Hv Hb. rewrite loop_cons, land_high_bit by done. cbv zeta.
  destruct (negb (i =? 9) || (byte <=? 1)) eqn:Hg; [|done].
  rewrite orb_true_iff, negb_true_iff, Z.leb_le, Z.eqb_neq in Hg.
  destruct (leb_accumulate v byte i) as [-> _]; [lia|lia|done|lia|lia|done].
Qed.

Lemma loop_exact n : forall i v, Z.of_nat n = 10 - i -> 0 <= i -> 0 <= v < 2 ^ (7 * i) ->
  Exact (loop n i v) (fun w x => leb_shape canonical i w = true /\ x = v + leb_value w * 2 ^ (7 * i)).
Proof.
  induction n as [|n IH]; intros i v Hn Hi Hv.
  { split; intros bytes; rewrite loop_O; [done|]. intros x rest Hu. split; [done|].
    intros (w & -> & Hs & _). apply Forall_app in Hu as [Hu _].
    destruct (leb_value_bounds canonical w i Hu Hs Hi). lia. }
  assert (forall byte, is_u8 byte -> negb (i =? 9) || (byte <=? 1) = true ->
    Exact (loop n (i + 1) (v + byte mod 128 * 2 ^ (7 * i))) (fun w x => leb_shape canonical (i + 1) w = true /\
      x = v + (byte mod 128 + 128 * leb_value w) * 2 ^ (7 * i))) as Hnext.
  { intros byte Hb Hg. rewrite orb_true_iff, negb_true_iff, Z.leb_le, Z.eqb_neq in Hg.
    destruct (leb_accumulate v byte i) as [_ Hlt]; [lia|lia|done|lia|lia|].
    pose proof (Z.mod_pos_bound byte 128 ltac:(lia)).
    assert (0 < 2 ^ (7 * i)) by (apply Z.pow_pos_nonneg; lia).
    eapply exact_ext; [apply (IH (i + 1) (v + byte mod 128 * 2 ^ (7 * i))); [lia|lia|nia]|done|].
    cbv beta. intros w x _. replace (7 * (i + 1)) with (7 + 7 * i) by lia. rewrite Z.pow_add_r by lia.
    change (2 ^ 7) with 128. split; intros [H1 H2]; (split; [done|lia]). }
  split.
  - intros [|byte rest] Hu; [by rewrite loop_S|]. apply Forall_cons in Hu as [Hb Hu].
    rewrite loop_step by (done || lia). apply bind_not_Stuck; [not_stuck|]. intros [] Hg%ensure_Ok.
    not_stuck. by apply (exact_total (Exact := Hnext byte Hb Hg)).
  - intros [|byte rest] x tl Hu.
    { rewrite loop_S. split; [done|]. intros ([|] & Ew & Hs & _); [done|by destruct tl]. }
    apply Forall_cons in Hu as [Hb Hu]. rewrite loop_step by (done || lia).
    rewrite (leb_first canonical i byte rest tl (fun y => x = v + y * 2 ^ (7 * i))) by lia.
    destruct (negb (i =? 9) || (byte <=? 1)) eqn:Hg; cbn [ensure mbind res_bind]; [|naive_solver].
    destruct (byte <? 128).
    + destruct (negb canonical || _); cbn [ensure mbind res_bind]; naive_solver.
    + rewrite (exact_iff (Exact := Hnext byte Hb Hg)) by done. naive_solver.
Qed.

Lemma uleb_exact : Exact (loop 10 0 0) (leb canonical).
Proof.
  eapply exact_ext; [apply (loop_exact 10 0 0); lia|done|]. cbv beta. intros w x _.
  unfold leb. rewrite Z.mul_1_r. done.
Qed.
End uleb.

(** The canonical encoding. *)
Fixpoint uleb_bytes (n : nat) (v : Z) : list Z :=
  match n with
  | O => []
  | S n => if v <? 128 then [v] else (128 + v mod 128) :: uleb_bytes n (v / 128)
  end.
Definition uleb_encode (v : Z) : list Z := uleb_bytes 10 v.

Lemma leb_canonical_pos : forall w i, Forall is_u8 w -> 0 < i -> leb_shape true i w = true -> 0 < leb_value w.
Proof.
  induction w as [|b w IH]; intros i Hu Hi Hs; [done|]. apply Forall_cons in Hu as [Hb Hu].
  unfold is_u8, u8_max in Hb. cbn [leb_shape] in Hs. apply andb_true_iff in Hs as [_ Hs]. cbn [leb_value].
  pose proof (Z.mod_pos_bound b 128 ltac:(lia)). destruct (b <? 128) eqn:E; [apply Z.ltb_lt in E|apply Z.ltb_ge in E].
  - destruct w; [|done]. rewrite Z.mod_small by lia. cbn in Hs. rewrite orb_true_iff, negb_true_iff in Hs.
    rewrite Z.eqb_eq, Z.eqb_neq in Hs. cbn. lia.
  - apply IH in Hs; [lia|done|lia].
Qed.

Lemma leb_canonical_unique : forall w i n, Forall is_u8 w -> 0 <= i -> Z.of_nat n = 10 - i ->
  leb_shape true i w = true -> w = uleb_bytes n (leb_value w).
Proof.
  induction w as [|b w IH]; intros i n Hu Hi Hn Hs; [done|]. apply Forall_cons in Hu as [Hb Hu].
  unfold is_u8, u8_max in Hb. cbn [leb_shape] in Hs. apply andb_true_iff in Hs as [Hg Hs].
  apply andb_true_iff in Hg as [Hg _]. bool_prop. destruct n as [|n]; [lia|]. cbn [leb_value uleb_bytes].
  pose proof (Z.mod_pos_bound b 128 ltac:(lia)). destruct (b <? 128) eqn:E; [apply Z.ltb_lt in E|apply Z.ltb_ge in E].
  - destruct w; [|done]. cbn [leb_value]. rewrite Z.mul_0_r, Z.add_0_r, (Z.mod_small b) by lia.
    by rewrite (proj2 (Z.ltb_lt b 128)) by lia.
  - pose proof (leb_canonical_pos w (i + 1) Hu ltac:(lia) Hs).
    rewrite (proj2 (Z.ltb_ge _ 128)) by lia. rewrite (Z.add_comm (b mod 128)), Z.mul_comm.
    rewrite Z.div_add_l, (Z.div_small (b mod 128)), Z.add_0_r by lia.
    rewrite (Z.add_comm (leb_value w * 128)), Z.mod_add, Z.mod_mod by lia.
    f_equal; [|by apply (IH (i + 1)); [|lia|lia|]].
    rewrite <- (Z.mod_add b (-1)), Z.mod_small by lia. lia.
Qed.

Lemma uleb_bytes_leb n : forall i v, Z.of_nat n = 10 - i -> 0 <= i <= 9 -> 0 <= v < 2 ^ (64 - 7 * i) -> (0 < i -> 0 < v) ->
  leb_shape true i (uleb_bytes n v) = true /\ leb_value (uleb_bytes n v) = v.
Proof.
  induction n as [|n IH]; intros i v Hn Hi Hv Hpos; [lia|]. cbn [uleb_bytes].
  destruct (v <? 128) eqn:E; bool_prop.
  - cbn. rewrite (proj2 (Z.ltb_lt i 10)), (proj2 (Z.ltb_lt v 128)), Z.mod_small by lia.
    split; [|lia]. rewrite !andb_true_iff, !orb_true_iff, !negb_true_iff, Z.leb_le, Z.eqb_eq, !Z.eqb_neq.
    assert (i = 9 \/ i <> 9) as [->|] by lia; [change (2 ^ (64 - 7 * 9)) with 2 in Hv|]; lia.
  - assert (i = 9 \/ i <= 8) as [->|Hi8] by lia; [change (2 ^ (64 - 7 * 9)) with 2 in Hv; lia|].
    assert (2 ^ (64 - 7 * i) = 128 * 2 ^ (64 - 7 * (i + 1))) as Ep.
    { change 128 with (2 ^ 7). rewrite <- Z.pow_add_r by lia. f_equal. lia. }
    assert (128 * (v / 128) + v mod 128 = v) as Ev by (symmetry; apply Z.div_mod; lia).
    pose proof (Z.mod_pos_bound v 128 ltac:(lia)).
    destruct (IH (i + 1) (v / 128)) as [Hs Hval]; [lia|lia|lia|lia|].
    cbn [leb_shape leb_value]. rewrite (proj2 (Z.ltb_lt i 10)), (proj2 (Z.ltb_ge _ 128)) by lia.
    rewrite Hs, Hval, (proj2 (Z.eqb_neq i 9)) by lia. split; [done|].
    rewrite <- (Z.mul_1_l 128) at 1. rewrite Z.add_comm with (m := v mod 128), Z.mod_add, Z.mod_mod by lia. lia.
Qed.

Lemma leb_canonical w v : Forall is_u8 w -> leb true w v <-> 0 <= v <= u64_max /\ w = uleb_encode v.
Proof.
  intros Hu. unfold leb, uleb_encode, u64_max. split.
  - intros [Hs ->]. destruct (leb_value_bounds true w 0 Hu Hs ltac:(lia)).
    split; [lia|]. by apply (leb_canonical_unique w 0 10).
  - intros [Hv ->]. destruct (uleb_bytes_leb 10 0 v) as [-> ->]; [lia..|done].
Qed.

(** ** Length-prefixed blocks

    Both decoders have the same [block]: a little-endian length that counts
    itself and [tag_bytes] bytes before it; the slice returned starts at the
    length field. *)
Definition block_reader {E} (truncated invalid short beyond : E) (tag_bytes : Z) : cursor E (list Z) := fun bytes =>
  w ← ok_or (get_range bytes 0 4) truncated;
  size ← ok_or (checked_sub (of_le w) tag_bytes) invalid;
  _ ← ensure (4 <=? size) short;
  result ← ok_or (get_range bytes 0 size) beyond;
  rest ← or_stuck (get_range bytes size (len bytes));
  Ok (result, rest).

Definition frame (tag_bytes : Z) (payload : list Z) : list Z :=
  to_le 4 (tag_bytes + 4 + len payload) ++ payload.
Definition frame_ok (tag_bytes : Z) (payload : list Z) : Prop := tag_bytes + 4 + len payload <= u32_max.
Definition framed (tag_bytes : Z) (w payload : list Z) : Prop :=
  frame_ok tag_bytes payload /\ w = frame tag_bytes payload.

Lemma framed_tail tag w payload : framed tag w payload -> get_range w 4 (len w) = Some payload.
Proof.
  intros [_ ->]. unfold frame. rewrite <- (app_nil_r payload) at 2. apply get_range_app_mid; rewrite ?len_app, len_to_le; done.
Qed.

Lemma block_reader_exact {E} (e1 e2 e3 e4 : E) tag : 0 <= tag ->
  Exact (block_reader e1 e2 e3 e4 tag) (fun w r => r = w /\ exists p, framed tag w p).
Proof.
  intros Htag. split.
  - intros bytes Hu. unfold block_reader. not_stuck. apply or_stuck_not_Stuck, get_range_is_Some;
    repeat match goal with
    | H : ensure _ _ = Ok _ |- _ => apply ensure_Ok, Z.leb_le in H
    | H : ok_or (get_range _ 0 _) _ = Ok _ |- _ => apply ok_or_Ok, get_range_Some in H as (_ & _ & ? & _)
    end; lia.
  - intros bytes r rest Hu. unfold block_reader. split.
    + intros H. inv_ok. bool_prop.
      repeat match goal with
      | H : checked_sub _ _ = Some _ |- _ => apply checked_sub_Some in H as [-> ?]
      | H : get_range _ _ _ = Some _ |- _ => apply get_range_Some in H as (? & ? & ? & ->) end.
      remember (of_le (slice bytes 0 4)) as n eqn:En.
      destruct (u32_slice bytes 0 Hu ltac:(lia) ltac:(lia)) as [Hn Hle]. change (0 + 4) with 4 in Hn, Hle. rewrite <- En in Hn, Hle.
      exists (slice bytes 0 (n - tag)). split; [by rewrite <- slice_split, slice_full by lia|]. split; [done|].
      exists (slice bytes 4 (n - tag)). unfold framed, frame_ok, frame. rewrite len_slice by lia.
      replace (tag + 4 + (n - tag - 4)) with n by lia. split; [lia|]. rewrite Hle. apply slice_split; lia.
    + intros (w & -> & -> & p & Hp). pose proof Hp as [Hmax Ew]. unfold frame_ok, frame in *. pose proof (len_nonneg p).
      assert (len w = 4 + len p) as Hlen by (rewrite Ew, len_app, len_to_le; lia).
      step_by ltac:(apply ok_or_Ok; rewrite Ew, <- app_assoc; apply (get_range_app_mid []);
        rewrite ?len_to_le; done).
      rewrite of_to_le_u32 by lia. step_by ltac:(apply ok_or_Ok, checked_sub_Some; split; [reflexivity|lia]).
      replace (tag + 4 + len p - tag) with (len w) by lia. guard_by ltac:(apply Z.leb_le; lia).
      step_by ltac:(apply ok_or_Ok, get_range_prefix).
      step_by ltac:(apply or_stuck_Ok; rewrite <- (app_nil_r rest) at 1; apply get_range_app_mid; [done|];
        rewrite len_app; lia). done.
Qed.

(** A block, its header removed, read by a total reader of the payload. *)
Lemma payload_reads {E A} (e1 e2 e3 e4 : E) tag (f : list Z -> res E A) (P : list Z -> A -> Prop) : 0 <= tag ->
  (forall p, Forall is_u8 p -> f p <> Stuck /\ forall x, f p = Ok x <-> P p x) ->
  Exact (fun bytes => '(sub, rest) ← block_reader e1 e2 e3 e4 tag bytes;
                      inner ← or_stuck (get_range sub 4 (len sub)); x ← f inner; Ok (x, rest))
    (fun w x => exists p, frame_ok tag p /\ w = frame tag p /\ P p x).
Proof.
  intros Htag Hf. pose proof (block_reader_exact e1 e2 e3 e4 tag Htag) as Hb. split.
  - intros bytes Hu. not_stuck_step; [by apply exact_total|]. destruct a as [sub rest].
    match goal with H : block_reader _ _ _ _ _ _ = Ok _ |- _ => apply exact_iff in H as (w & -> & -> & p & Hp); [|done] end.
    rewrite (framed_tail _ _ _ Hp). cbn. not_stuck. apply Hf. destruct Hp as [_ ->].
    unfold frame in Hu. rewrite !Forall_app in Hu. tauto.
  - intros bytes x rest Hu. rewrite bind_Ok. split.
    + intros ([sub r] & H1 & H2). destruct (proj1 (exact_iff _ _ _ Hu) H1) as (w & -> & -> & p & Hp).
      rewrite (framed_tail _ _ _ Hp) in H2. cbn in H2. destruct Hp as [Hmax ->]. inv_ok.
      simplify_eq. exists (frame tag p). split; [done|]. exists p. split; [done|]. split; [done|].
      apply Hf; [|done]. unfold frame in Hu. rewrite !Forall_app in Hu. tauto.
    + intros (w & -> & p & Hp & -> & HP). assert (framed tag (frame tag p) p) as Hfr by done.
      exists (frame tag p, rest). split; [apply (exact_iff (Exact := Hb)); [done|]; exists (frame tag p); naive_solver|].
      rewrite (framed_tail _ _ _ Hfr). cbn. unfold frame in Hu. rewrite !Forall_app in Hu.
      by rewrite (proj2 (proj2 (Hf p ltac:(tauto)) x) HP).
Qed.

(** A reader applied to all of its input. *)
Lemma exact_all {E A} (p : cursor E A) R bytes x : Exact p R -> Forall is_u8 bytes ->
  p bytes = Ok (x, []) <-> R bytes x.
Proof.
  intros Hp Hu. rewrite (exact_iff (Exact := Hp)) by done. split.
  - intros (w & -> & HR). by rewrite app_nil_r.
  - intros HR. exists bytes. by rewrite app_nil_r.
Qed.

(** ** NUL-terminated strings *)
Definition cstring (s : list Z) : list Z := s ++ [0].
Lemma nul_split bytes n : position (Z.eqb 0) bytes = Some n ->
  exists w rest, bytes = w ++ 0 :: rest /\ n = len w /\ Forall (fun b => b <> 0) w /\
    get_range bytes 0 n = Some w /\ get_range bytes (n + 1) (len bytes) = Some rest.
Proof.
  intros Hp. destruct (position_Some _ _ _ Hp) as (x & q & E & Hx & Hn & Hall).
  apply Z.eqb_eq in Hx as <-. remember (take (Z.to_nat n) bytes) as w eqn:Ew.
  assert (n = len w) as -> by (rewrite Ew; unfold len in *; rewrite length_take; lia).
  exists w, q. rewrite E. split; [done|]. split; [done|]. split; [|split].
  - eapply Forall_impl; [exact Hall|]. cbv beta. intros b Hb%Z.eqb_neq. congruence.
  - apply get_range_prefix.
  - rewrite <- (app_nil_r q) at 1. change (w ++ 0 :: q ++ []) with (w ++ [0] ++ q ++ []).
    rewrite (app_assoc w). apply get_range_app_mid; rewrite !len_app, ?len_cons, ?len_nil; lia.
Qed.

Lemma nul_position w rest : Forall (fun b => b <> 0) w -> position (Z.eqb 0) (w ++ 0 :: rest) = Some (len w).
Proof.
  intros Hw. apply position_app; [|done]. eapply Forall_impl; [exact Hw|]. cbv beta. intros b Hb.
  apply Z.eqb_neq. congruence.
Qed.

(** A reader of a string checked and decoded by [f]. *)
Definition nul_reader {E A} (unterminated : E) (f : list Z -> res E A) : cursor E A := fun bytes =>
  size ← ok_or (position (Z.eqb 0) bytes) unterminated;
  raw ← or_stuck (get_range bytes 0 size);
  value ← f raw;
  rest ← or_stuck (get_range bytes (size + 1) (len bytes));
  Ok (value, rest).

Lemma nul_reader_exact {E A} (e : E) (f : list Z -> res E A) : (forall raw, f raw <> Stuck) ->
  Exact (nul_reader e f) (fun w x => exists raw, w = raw ++ [0] /\ Forall (fun b => b <> 0) raw /\ f raw = Ok x).
Proof.
  intros Hf. split.
  - intros bytes Hu. unfold nul_reader. not_stuck_step; [not_stuck|].
    match goal with H : ok_or _ _ = Ok _ |- _ => apply ok_or_Ok, nul_split in H as (w & rest & -> & -> & Hw & E1 & E2) end.
    rewrite E1, E2. not_stuck.
  - intros bytes x rest Hu. unfold nul_reader. split.
    + intros H. apply bind_Ok in H as (n & Hn%ok_or_Ok & H).
      apply nul_split in Hn as (w & q & -> & -> & Hw & E1 & E2). rewrite E1, E2 in H. cbn in H. inv_ok.
      simplify_eq. exists (w ++ [0]). rewrite <- app_assoc. naive_solver.
    + intros (w & -> & raw & -> & Hraw & Hx). rewrite <- app_assoc. cbn [app].
      pose proof (nul_position raw rest Hraw) as Hn. rewrite Hn. cbn [ok_or mbind res_bind].
      apply nul_split in Hn as (w' & q & Ew & El & Hw' & E1 & E2). rewrite E1, E2. cbn.
      assert (w' = raw /\ q = rest) as [-> ->].
      { apply app_inj_1 in Ew as [-> [= ->]]; [done|]. unfold len in El. lia. }
      by rewrite Hx.
Qed.

(** A loop whose rounds each read one encoded item reads encoded lists. *)
Section chunk_lists.
Context {S A : Type} (enc : A -> list Z) (ok : S -> A -> Prop) (step : S -> A -> S).

Fixpoint ok_list (s : S) (l : list A) : Prop :=
  match l with [] => True | x :: l => ok s x /\ ok_list (step s x) l end.

Lemma chunks_list s w s' :
  chunks (fun s w s' => exists x, w = enc x /\ ok s x /\ s' = step s x) s w s' <->
  exists l, w = flat_map enc l /\ ok_list s l /\ s' = foldl step s l.
Proof.
  split.
  - induction 1 as [s|s w1 s1 w2 s2 (x & -> & Hok & ->) _ (l & -> & Hl & ->)]; [by exists []|].
    by exists (x :: l).
  - intros (l & -> & Hl & ->). revert s Hl. induction l as [|x l IH]; intros s Hl; [constructor|].
    destruct Hl as [Hx Hl]. cbn. eapply chunks_cons; [by exists x|by apply IH].
Qed.
End chunk_lists.
