(* ===== verification/ArmAttr.v ===== *)
(** * ArmAttr: ARM build attributes

    Models [crates/aros-common/src/elf/arm.rs]: the bounded decoder of the
    [.ARM.attributes] section. *)

From stdpp Require Import gmap.
From S2P Require Import Prelude Bytes Text Elf Cursor.

Definition MACHINE : Z := 40.
Definition SHT_ATTRIBUTES : Z := 0x70000003.
Definition MAX_SECTION_SIZE : Z := 65536.
Definition MAX_VALUES : Z := 256.
Definition MAX_NTBS_SIZE : Z := 4096.

Inductive Value := Integer (n : Z) | String_ (s : list Z) | Compatibility (flag : Z) (vendor : list Z).
Abbreviation Values := (gmap Z Value).
Record Attributes := mkAttributes { values : Values }.

Inductive arm_error :=
| Elf (e : elf_error) | NeedElf32 | NotArm | Missing | DuplicateSections | WrongType | SizeOverflow | TooLarge
| OffsetOverflow | RangeOverflow | TruncatedAttributes | Format | DuplicateVendor | DuplicateAeabi | NoAeabi
| DuplicateScope | SectionScope | SymbolScope | UnknownScope | NoScope | TooMany | DuplicateAttribute
| NoDefaults | UnknownMandatory | TruncatedLength | InvalidLength | ShortBlock | BlockBeyond | Unterminated
| LongString | TruncatedInteger | IntegerOverflow | NonCanonical | NoIntegerEncoding | NotInteger.

Definition is_known_integer_tag (tag : Z) : bool :=
  bool_decide (tag ∈ [34; 36; 38; 42; 44; 46; 48; 50; 52]).

(** [Attributes::integer] *)
Definition integer (a : Attributes) (tag : Z) : res arm_error Z :=
  _ ← ensure (((6 <=? tag) && (tag <=? 31)) || is_known_integer_tag tag
              || ((66 <=? tag) && (64 <=? tag mod 128) && (tag mod 2 =? 0))) NoIntegerEncoding;
  match values a !! tag with
  | Some (Integer v) => Ok v
  | Some _ => Err NotInteger
  | None => Ok 0
  end.

(** [uleb]: [n] of the rounds [0..10] remain, [index] is the current one. *)
Fixpoint uleb_loop (n : nat) (index value : Z) (bytes : list Z) : res arm_error (Z * list Z) :=
  match n with
  | O => Err IntegerOverflow
  | S n =>
    byte ← ok_or (get_at bytes 0) TruncatedInteger;
    bytes ← or_stuck (get_range bytes 1 (len bytes));
    _ ← ensure (negb (index =? 9) || (byte <=? 1)) IntegerOverflow;
    let value := Z.lor value (Z.shiftl (Z.land byte 0x7f) (index * 7) mod 2 ^ 64) in
    if Z.land byte 0x80 =? 0
    then _ ← ensure ((index =? 0) || negb (byte =? 0)) NonCanonical; Ok (value, bytes)
    else uleb_loop n (index + 1) value bytes
  end.
Definition uleb : cursor arm_error Z := uleb_loop 10 0 0.

Definition ntbs : cursor arm_error (list Z) :=
  nul_reader Unterminated (fun raw => _ ← ensure (len raw <=? MAX_NTBS_SIZE) LongString; Ok raw).

Definition block : Z -> cursor arm_error (list Z) :=
  block_reader TruncatedLength InvalidLength ShortBlock BlockBeyond.

(** The value of one attribute, by its tag. *)
Definition value (tag : Z) : cursor arm_error Value := fun bytes =>
  if (tag =? 4) || (tag =? 5) then '(s, bytes) ← ntbs bytes; Ok (String_ s, bytes)
  else if tag =? 32 then
    '(flag, bytes) ← uleb bytes; '(vendor, bytes) ← ntbs bytes; Ok (Compatibility flag vendor, bytes)
  else if ((6 <=? tag) && (tag <=? 31)) || is_known_integer_tag tag then
    '(n, bytes) ← uleb bytes; Ok (Integer n, bytes)
  else if (65 <=? tag) && (64 <=? tag mod 128) then
    (if tag mod 2 =? 1 then '(s, bytes) ← ntbs bytes; Ok (String_ s, bytes)
     else '(n, bytes) ← uleb bytes; Ok (Integer n, bytes))
  else Err UnknownMandatory.

(** One round of [attributes]. *)
Definition attribute (values : Values) : cursor arm_error Values := fun bytes =>
  _ ← ensure (Z.of_nat (size values) <? MAX_VALUES) TooMany;
  '(tag, bytes) ← uleb bytes;
  _ ← ensure (bool_decide (values !! tag = None)) DuplicateAttribute;
  _ ← ensure (negb (tag =? 64)) NoDefaults;
  '(v, bytes) ← value tag bytes;
  Ok (<[tag := v]> values, bytes).
Definition attributes (bytes : list Z) : res arm_error Values := drain (length bytes) attribute ∅ bytes.

(** One round of [file_scope]. *)
Definition scope (file_attributes : option Values) : cursor arm_error (option Values) := fun body =>
  let tag_start := body in
  '(scope, body) ← uleb body;
  tag_bytes ← or_stuck (checked_sub (len tag_start) (len body));
  if scope =? 1 then
    _ ← ensure (bool_decide (file_attributes = None)) DuplicateScope;
    '(subsection, body) ← block tag_bytes body;
    inner ← or_stuck (get_range subsection 4 (len subsection));
    vs ← attributes inner;
    Ok (Some vs, body)
  else if scope =? 2 then Err SectionScope
  else if scope =? 3 then Err SymbolScope
  else Err UnknownScope.
Definition file_scope (body : list Z) : res arm_error Values :=
  file_attributes ← drain (length body) scope None body;
  ok_or file_attributes NoScope.

(** One round of [decode]; state: vendor names seen and the aeabi attributes. *)
Definition vendor_state : Type := gset (list Z) * option Values.
Definition aeabi_name : list Z := rs "aeabi".
Definition vendor (st : vendor_state) : cursor arm_error vendor_state := fun remaining =>
  let '(vendor_names, aeabi) := st in
  '(vendor_block, remaining) ← block 0 remaining;
  body ← or_stuck (get_range vendor_block 4 (len vendor_block));
  '(vendor_name, body) ← ntbs body;
  _ ← ensure (bool_decide (vendor_name ∉ vendor_names)) DuplicateVendor;
  let vendor_names := {[vendor_name]} ∪ vendor_names in
  if bool_decide (vendor_name = aeabi_name) then
    _ ← ensure (bool_decide (aeabi = None)) DuplicateAeabi;
    vs ← file_scope body;
    Ok ((vendor_names, Some vs), remaining)
  else Ok ((vendor_names, aeabi), remaining).

Definition decode (bytes : list Z) : res arm_error Attributes :=
  _ ← ensure (len bytes <=? MAX_SECTION_SIZE) TooLarge;
  _ ← ensure (bool_decide (get_at bytes 0 = Some 65)) Format;
  remaining ← or_stuck (get_range bytes 1 (len bytes));
  '(_, aeabi) ← drain (length remaining) vendor (∅, None) remaining;
  vs ← ok_or aeabi NoAeabi;
  Ok (mkAttributes vs).

Definition is_attributes (s : Section_) : bool := bool_decide (s_name s = rs ".ARM.attributes").
Definition read (bytes : list Z) : res arm_error Attributes :=
  object ← map_err Elf (Elf.read bytes);
  _ ← ensure (bool_decide (obj_class object = Elf32)) NeedElf32;
  _ ← ensure (obj_machine object =? MACHINE) NotArm;
  let found := filter is_attributes (sections object) in
  section ← ok_or (head found) Missing;
  _ ← ensure (match tail found with [] => true | _ => false end) DuplicateSections;
  _ ← ensure (s_kind section =? SHT_ATTRIBUTES) WrongType;
  size ← ok_or (try_from usize_max (s_size section)) SizeOverflow;
  _ ← ensure (size <=? MAX_SECTION_SIZE) TooLarge;
  start ← ok_or (try_from usize_max (s_offset section)) OffsetOverflow;
  stop ← ok_or (checked_add usize_max start size) RangeOverflow;
  data ← ok_or (get_range bytes start stop) TruncatedAttributes;
  decode data.

(** ** The encoding *)


(** How the ABI encodes the value of a tag. *)
Inductive shape := AsInteger | AsString | AsCompatibility.
#[global] Instance shape_eq_dec : EqDecision shape.
Proof. solve_decision. Defined.
Definition tag_shape (tag : Z) : option shape :=
  if (tag =? 4) || (tag =? 5) then Some AsString
  else if tag =? 32 then Some AsCompatibility
  else if ((6 <=? tag) && (tag <=? 31)) || is_known_integer_tag tag then Some AsInteger
  else if (65 <=? tag) && (64 <=? tag mod 128) then Some (if tag mod 2 =? 1 then AsString else AsInteger)
  else None.
Definition shape_of (v : Value) : shape :=
  match v with Integer _ => AsInteger | String_ _ => AsString | Compatibility _ _ => AsCompatibility end.

Definition string_ok (s : list Z) : Prop := Forall (fun b => b <> 0) s /\ len s <= MAX_NTBS_SIZE.
Definition is_u64 (n : Z) : Prop := 0 <= n <= u64_max.
Definition value_ok (v : Value) : Prop :=
  match v with
  | Integer n => is_u64 n
  | String_ s => string_ok s
  | Compatibility f s => is_u64 f /\ string_ok s
  end.
Definition encode_value (v : Value) : list Z :=
  match v with
  | Integer n => uleb_encode n
  | String_ s => cstring s
  | Compatibility f s => uleb_encode f ++ cstring s
  end.

Definition encode_attribute (x : Z * Value) : list Z := uleb_encode x.1 ++ encode_value x.2.
Definition attribute_ok (x : Z * Value) : Prop :=
  is_u64 x.1 /\ tag_shape x.1 = Some (shape_of x.2) /\ value_ok x.2.
Definition encode_attributes (l : list (Z * Value)) : list Z := flat_map encode_attribute l.
Definition attributes_ok (l : list (Z * Value)) : Prop :=
  NoDup l.*1 /\ Forall attribute_ok l /\ len l <= MAX_VALUES.

(** ** Readers of single items *)
#[local] Instance uleb_reads : Exact uleb (fun w v => is_u64 v /\ w = uleb_encode v).
Proof.
  eapply exact_ext; [apply (uleb_exact uleb_loop true TruncatedInteger IntegerOverflow NonCanonical IntegerOverflow);
    reflexivity|done|].
  intros w v Hu. by rewrite leb_canonical.
Qed.

#[local] Instance ntbs_reads : Exact ntbs (fun w s => string_ok s /\ w = cstring s).
Proof.
  eapply exact_ext; [apply (nul_reader_exact Unterminated (fun raw => _ ← ensure (len raw <=? MAX_NTBS_SIZE) LongString; Ok raw));
    intros raw; not_stuck|done|].
  cbv beta. intros w s _. unfold string_ok, cstring. split.
  - intros (raw & -> & Hraw & H). inv_ok. bool_prop. done.
  - intros [ [H1 H2] ->]. exists s. split; [done|]. split; [done|]. by rewrite (proj2 (Z.leb_le _ _) H2).
Qed.

Lemma uleb_encode_ne v : uleb_encode v <> [].
Proof. unfold uleb_encode. cbn [uleb_bytes]. by case_match. Qed.

Lemma integer_reads : Exact (fun bytes => '(n, bytes) ← uleb bytes; Ok (Integer n, bytes))
  (fun w v => shape_of v = AsInteger /\ value_ok v /\ w = encode_value v).
Proof.
  eapply exact_ext; [exact (exact_map uleb Integer _ uleb_reads)|done|].
  cbv beta. intros w v _. split; [naive_solver|]. destruct v; naive_solver.
Qed.
Lemma string_reads : Exact (fun bytes => '(s, bytes) ← ntbs bytes; Ok (String_ s, bytes))
  (fun w v => shape_of v = AsString /\ value_ok v /\ w = encode_value v).
Proof.
  eapply exact_ext; [exact (exact_map ntbs String_ _ ntbs_reads)|done|].
  cbv beta. intros w v _. split; [naive_solver|]. destruct v; naive_solver.
Qed.
Lemma compatibility_reads : Exact
  (fun bytes => '(flag, bytes) ← uleb bytes; '(vendor, bytes) ← ntbs bytes; Ok (Compatibility flag vendor, bytes))
  (fun w v => shape_of v = AsCompatibility /\ value_ok v /\ w = encode_value v).
Proof.
  eapply exact_ext; [exact (exact_bind uleb _ _ _ uleb_reads (fun f => exact_map ntbs (Compatibility f) _ ntbs_reads))|done|].
  cbv beta. intros w v _. split; [naive_solver|]. destruct v as [| |f s]; [naive_solver..|].
  intros (_ & [Hf Hs] & ->). exists (uleb_encode f), (cstring s), f. naive_solver.
Qed.

#[local] Instance value_reads tag :
  Exact (value tag) (fun w v => tag_shape tag = Some (shape_of v) /\ value_ok v /\ w = encode_value v).
Proof.
  unfold value, tag_shape.
  destruct ((tag =? 4) || (tag =? 5)); [|destruct (tag =? 32); [|destruct (_ || is_known_integer_tag tag);
    [|destruct ((65 <=? tag) && _); [destruct (tag mod 2 =? 1)|] ] ] ];
  first [eapply exact_ext; [exact string_reads|reflexivity|]
        |eapply exact_ext; [exact compatibility_reads|reflexivity|]
        |eapply exact_ext; [exact integer_reads|reflexivity|]
        |eapply exact_ext; [exact (exact_fail UnknownMandatory)|reflexivity|] ];
  cbv beta; intros w v _; intuition congruence.
Qed.

(** ** Attribute lists *)
Definition new_attribute (m : Values) (x : Z * Value) : Prop :=
  Z.of_nat (size m) < MAX_VALUES /\ m !! x.1 = None /\ attribute_ok x.
Definition add_attribute (m : Values) (x : Z * Value) : Values := <[x.1 := x.2]> m.

#[local] Instance attribute_reads m : Exact (attribute m)
  (fun w m' => exists x, w = encode_attribute x /\ new_attribute m x /\ m' = add_attribute m x).
Proof.
  eapply exact_ext; [exact (exact_ensure (Z.of_nat (size m) <? MAX_VALUES) TooMany _ _
    (exact_bind uleb _ _ _ uleb_reads (fun tag => exact_ensure (bool_decide (m !! tag = None)) DuplicateAttribute _ _
      (exact_ensure (negb (tag =? 64)) NoDefaults _ _
        (exact_map (value tag) (fun v => <[tag := v]> m) _ (value_reads tag))))))|reflexivity|].
  cbv beta. intros w m' _. rewrite Z.ltb_lt. setoid_rewrite bool_decide_eq_true.
  unfold new_attribute, attribute_ok, encode_attribute, add_attribute. split.
  - intros (Hs & w1 & w2 & tag & -> & [Ht ->] & Hn & _ & v & (Hsh & Hv & ->) & ->). by exists (tag, v).
  - intros ([tag v] & -> & (Hs & Hn & Ht & Hsh & Hv) & ->). cbn [fst snd] in *.
    split; [done|]. exists (uleb_encode tag), (encode_value v), tag. do 3 (split; [done|]).
    split; [apply negb_true_iff, Z.eqb_neq; by intros ->|by exists v].
Qed.

Lemma add_attributes l : foldl add_attribute ∅ l = list_to_map (rev l).
Proof.
  induction l as [|x l IH] using rev_ind; [done|]. rewrite foldl_app, rev_app_distr. cbn. by rewrite IH.
Qed.

Lemma new_attributes l : forall m, ok_list new_attribute add_attribute m l <->
  NoDup l.*1 /\ Forall attribute_ok l /\ (l = [] \/ Z.of_nat (size m) + len l <= MAX_VALUES) /\
  Forall (fun x => m !! x.1 = None) l.
Proof.
  induction l as [|x l IH]; intros m; cbn [ok_list fmap list_fmap]; [split; [|done]; intros _; repeat split; auto; constructor|].
  rewrite IH, NoDup_cons, !Forall_cons, len_cons. unfold new_attribute, add_attribute.
  pose proof (len_nonneg l). split.
  - intros ((Hs & Hm & Hok) & Hnd & Hall & Hsz & Hf). rewrite map_size_insert_None in Hsz by done.
    split_and!; try done.
    + rewrite list_elem_of_fmap. intros (y & Ey & Hy). rewrite Forall_forall in Hf. specialize (Hf y Hy).
      rewrite <- Ey, lookup_insert_eq in Hf. done.
    + right. destruct Hsz as [->|]; [rewrite len_nil; lia|lia].
    + eapply Forall_impl; [exact Hf|]. cbv beta. intros y [Hy _]%lookup_insert_None. done.
  - intros ((Hni & Hnd) & (Hok & Hall) & Hsz & Hm & Hf). destruct Hsz as [|Hsz]; [done|].
    rewrite map_size_insert_None by done. split_and!; try done; [lia|right; lia|].
    apply Forall_forall. intros y Hy. rewrite lookup_insert_ne; [by rewrite Forall_forall in Hf; apply Hf|].
    intros E. apply Hni, list_elem_of_fmap. by exists y.
Qed.

Lemma arm_attributes_exact bytes : Forall is_u8 bytes -> attributes bytes <> Stuck /\
  (forall m, attributes bytes = Ok m <->
    exists l, bytes = encode_attributes l /\ attributes_ok l /\ m = list_to_map l).
Proof.
  intros Hu. unfold attributes.
  destruct (drain_exact attribute _ (fun m => attribute_reads m)) with (fuel := length bytes) (s := ∅ : Values) (bytes := bytes)
    as [Hns Hiff]; [|done|done|].
  { intros m w m' (x & -> & _). unfold encode_attribute. pose proof (uleb_encode_ne x.1). by destruct (uleb_encode x.1). }
  split; [done|]. intros m. rewrite Hiff, chunks_list. unfold attributes_ok.
  assert (forall l, list_to_map (M := Values) (rev l) = list_to_map l \/ ~ NoDup l.*1) as Hrev.
  { intros l. destruct (decide (NoDup l.*1)); [left|by right]. symmetry. apply list_to_map_proper; [done|].
    apply Permutation_rev. }
  split; intros (l & -> & Hl & ->); exists l; (split; [done|]).
  - apply new_attributes in Hl as (H1 & H2 & H3 & _). rewrite add_attributes.
    split; [|by destruct (Hrev l)]. split; [done|]. split; [done|].
    destruct H3 as [->|H3]; [done|]. rewrite map_size_empty in H3. lia.
  - destruct Hl as (H1 & H2 & H3). rewrite add_attributes. split; [|by destruct (Hrev l)].
    apply new_attributes. rewrite map_size_empty. split_and!; try done; [right; lia|].
    apply Forall_forall. intros. apply lookup_empty.
Qed.

(** ** The file scope *)
Definition encode_scope (l : list (Z * Value)) : list Z := [1] ++ frame 1 (encode_attributes l).
Definition scope_ok (l : list (Z * Value)) : Prop := attributes_ok l /\ frame_ok 1 (encode_attributes l).

Definition add_scope (_ : option Values) (l : list (Z * Value)) : option Values := Some (list_to_map l).
Definition new_scope (s : option Values) (l : list (Z * Value)) : Prop := s = None /\ scope_ok l.

#[local] Instance scope_reads s : Exact (scope s)
  (fun w s' => exists l, w = encode_scope l /\ new_scope s l /\ s' = add_scope s l).
Proof.
  pose proof (payload_reads TruncatedLength InvalidLength ShortBlock BlockBeyond 1 attributes _ ltac:(lia) arm_attributes_exact) as Hp.
  assert (forall bytes n rest, Forall is_u8 bytes -> uleb bytes = Ok (n, rest) ->
    Forall is_u8 rest /\ checked_sub (len bytes) (len rest) = Some (len (uleb_encode n)) /\ bytes = uleb_encode n ++ rest) as Hl.
  { intros bytes n rest Hu (w & -> & _ & ->)%exact_iff; [|done]. apply Forall_app in Hu as [_ Hu].
    split; [done|]. split; [|done]. apply checked_sub_Some. rewrite len_app.
    pose proof (len_nonneg (uleb_encode n)). lia. }
  assert (forall s bytes, Forall is_u8 bytes -> scope s bytes =
    ('(n, rest) ← uleb bytes;
     if n =? 1 then _ ← ensure (bool_decide (s = None)) DuplicateScope;
       ('(vs, rest) ← ('(sub, rest) ← block 1 rest; inner ← or_stuck (get_range sub 4 (len sub));
                       vs ← attributes inner; Ok (vs, rest)); Ok (Some vs, rest))
     else if n =? 2 then Err SectionScope else if n =? 3 then Err SymbolScope else Err UnknownScope)) as Eq.
  { intros s0 bytes Hu. unfold scope. destruct (uleb bytes) as [ [n rest]| |] eqn:E; [|done..]. cbn [mbind res_bind].
    destruct (Hl _ _ _ Hu E) as (_ & -> & _). cbn [or_stuck mbind res_bind]. destruct (Z.eqb_spec n 1) as [->|]; [|done].
    change (len (uleb_encode 1)) with 1. destruct (ensure _ _); [|done..]. cbn.
    destruct (block 1 rest) as [ [sub r]| |]; [|done..]. cbn. destruct (or_stuck _); [|done..]. cbn.
    by destruct (attributes _). }
  eapply exact_eq; [|exact (Eq s)].
  eapply exact_ext; [exact (exact_bind uleb _ _ _ uleb_reads (fun n => exact_if (n =? 1) _ _ _ _
    (exact_ensure (bool_decide (s = None)) DuplicateScope _ _ (exact_map _ Some _ Hp))
    (exact_if (n =? 2) _ _ _ _ (exact_fail SectionScope)
      (exact_if (n =? 3) _ _ _ _ (exact_fail SymbolScope) (exact_fail UnknownScope)))))|reflexivity|].
  cbv beta. intros w s' _. unfold new_scope, scope_ok, add_scope, encode_scope. split.
  - intros (w1 & w2 & n & -> & [_ ->] & H). destruct (n =? 1) eqn:E1.
    + apply Z.eqb_eq in E1. subst n. destruct H as (Hs & vs & (p & Hok & -> & l & -> & Hat & ->) & ->). apply bool_decide_eq_true in Hs as ->.
      by exists l.
    + destruct (n =? 2), (n =? 3); done.
  - intros (l & -> & (-> & Hat & Hfr) & ->). exists [1], (frame 1 (encode_attributes l)), 1.
    split; [done|]. split; [split; [|done]; unfold is_u64, u64_max; lia|]. cbn [Z.eqb]. split; [done|].
    eexists. split; [|done]. exists (encode_attributes l). split; [done|]. split; [done|]. by exists l.
Qed.

Lemma file_scope_exact body : Forall is_u8 body -> file_scope body <> Stuck /\
  (forall m, file_scope body = Ok m <-> exists l, body = encode_scope l /\ scope_ok l /\ m = list_to_map l).
Proof.
  intros Hu. unfold file_scope.
  destruct (drain_exact scope _ (fun s => scope_reads s)) with (fuel := length body) (s := @None Values) (bytes := body)
    as [Hns Hiff]; [by intros s w s' (l & -> & _)|done|done|].
  split; [not_stuck|]. intros m. rewrite bind_Ok. setoid_rewrite Hiff. setoid_rewrite chunks_list. split.
  - intros (o & (ls & -> & Hls & ->) & Hm). destruct ls as [|l [|l' ls] ]; [done| |].
    + destruct Hls as [ [_ Hok] _]. exists l. cbn in *. rewrite app_nil_r. by simplify_eq.
    + by destruct Hls as (_ & [ [=] _] & _).
  - intros (l & -> & Hok & ->). exists (Some (list_to_map l)). split; [|done]. exists [l]. cbn. rewrite app_nil_r. done.
Qed.

(** ** Vendor blocks *)
Inductive Vendor := Aeabi (l : list (Z * Value)) | Other (name body : list Z).
Definition vendor_name (v : Vendor) : list Z := match v with Aeabi _ => aeabi_name | Other name _ => name end.
Definition vendor_payload (v : Vendor) : list Z :=
  cstring (vendor_name v) ++ match v with Aeabi l => encode_scope l | Other _ body => body end.
Definition encode_vendor (v : Vendor) : list Z := frame 0 (vendor_payload v).
Definition payload_ok (v : Vendor) : Prop :=
  match v with Aeabi l => scope_ok l | Other name _ => string_ok name /\ name <> aeabi_name end.
Definition vendor_ok (v : Vendor) : Prop := frame_ok 0 (vendor_payload v) /\ payload_ok v.

Definition add_vendor (st : vendor_state) (v : Vendor) : vendor_state :=
  ({[vendor_name v]} ∪ st.1, match v with Aeabi l => Some (list_to_map l) | Other _ _ => st.2 end).
Definition new_payload (st : vendor_state) (v : Vendor) : Prop :=
  payload_ok v /\ vendor_name v ∉ st.1 /\ (vendor_name v = aeabi_name -> st.2 = None).
Definition new_vendor (st : vendor_state) (v : Vendor) : Prop :=
  frame_ok 0 (vendor_payload v) /\ new_payload st v.

(** The payload of a vendor block. *)
Definition vendor_body (st : vendor_state) (inner : list Z) : res arm_error vendor_state :=
  '(name, body) ← ntbs inner;
  _ ← ensure (bool_decide (name ∉ st.1)) DuplicateVendor;
  if bool_decide (name = aeabi_name) then
    _ ← ensure (bool_decide (st.2 = None)) DuplicateAeabi;
    vs ← file_scope body; Ok ({[name]} ∪ st.1, Some vs)
  else Ok ({[name]} ∪ st.1, st.2).

Lemma aeabi_name_ok : string_ok aeabi_name.
Proof. split; [repeat constructor; done|done]. Qed.

Lemma vendor_body_exact st p : Forall is_u8 p -> vendor_body st p <> Stuck /\ forall st', vendor_body st p = Ok st' <->
  exists v, p = vendor_payload v /\ new_payload st v /\ st' = add_vendor st v.
Proof.
  intros Hu. unfold vendor_body, new_payload, add_vendor. split.
  - not_stuck_step; [by apply exact_total|]. destruct a as [name body].
    match goal with H : ntbs _ = Ok _ |- _ => apply exact_iff in H as (w & -> & _); [|done] end.
    apply Forall_app in Hu as [_ Hu]. not_stuck. by apply file_scope_exact.
  - intros st'. rewrite bind_Ok. split.
    + intros ([name body] & Hn & H). destruct (proj1 (exact_iff _ _ _ Hu) Hn) as (w & -> & Hname & ->).
      apply Forall_app in Hu as [_ Hu]. inv_ok. bool_prop.
      match goal with H : (if bool_decide _ then _ else _) = Ok _ |- _ => rename H into Hif end.
      case_bool_decide as Hae; [|injection Hif as <-; by exists (Other name body)].
      inv_ok. bool_prop. match goal with H : file_scope _ = Ok _ |- _ => apply file_scope_exact in H as (l & -> & Hl & ->); [|done] end.
      by exists (Aeabi l).
    + intros (v & -> & (Hok & Hni & Hae) & ->). exists (vendor_name v, match v with Aeabi l => encode_scope l | Other _ b => b end).
      assert (string_ok (vendor_name v)) as Hs by (destruct v; [apply aeabi_name_ok|apply Hok]).
      split; [apply exact_iff; [done|]; by exists (cstring (vendor_name v))|].
      guard_by ltac:(by apply bool_decide_eq_true). apply Forall_app in Hu as [_ Hu]. case_bool_decide as Hv.
      * destruct v as [l|]; [|by destruct Hok]. guard_by ltac:(by apply bool_decide_eq_true, Hae).
        by step_by ltac:(apply file_scope_exact; [done|]; by exists l).
      * by destruct v.
Qed.

#[local] Instance vendor_reads st : Exact (vendor st)
  (fun w st' => exists v, w = encode_vendor v /\ new_vendor st v /\ st' = add_vendor st v).
Proof.
  eapply exact_ext; [exact (payload_reads TruncatedLength InvalidLength ShortBlock BlockBeyond 0 (vendor_body st) _
    ltac:(lia) (vendor_body_exact st))| |].
  - intros bytes. unfold vendor, vendor_body, block. destruct st as [names aeabi]. cbn [fst snd].
    destruct (block_reader _ _ _ _ 0 bytes) as [ [sub rest]| |]; [|done..]. cbn. destruct (or_stuck _); [|done..]. cbn.
    destruct (ntbs _) as [ [name body]| |]; [|done..]. cbn.
    destruct (ensure (bool_decide (name ∉ names)) _); cbn; [|done..].
    case_bool_decide; [|done]. destruct (ensure _ _); [|done..]. cbn. by destruct (file_scope _).
  - cbv beta. intros w st' _. unfold encode_vendor, new_vendor. split; [naive_solver|].
    intros (v & -> & [Hf Hn] & ->). exists (vendor_payload v). naive_solver.
Qed.

Lemma drain_vendors l : forall st, ok_list new_vendor add_vendor st l <->
  NoDup (vendor_name <$> l) /\ Forall vendor_ok l /\ Forall (fun v => vendor_name v ∉ st.1) l /\
  (st.2 = None \/ aeabi_name ∉ vendor_name <$> l).
Proof.
  induction l as [|v l IH]; intros st; cbn [ok_list fmap list_fmap].
  { split; [intros _|done]. split_and!; [constructor..|right; apply not_elem_of_nil]. }
  rewrite IH, NoDup_cons, !Forall_cons, not_elem_of_cons. unfold new_vendor, new_payload, add_vendor, vendor_ok.
  cbn [fst snd]. rewrite !Forall_forall. setoid_rewrite not_elem_of_union. setoid_rewrite not_elem_of_singleton.
  split.
  - intros ((Hf & Hp & Hni & Hae) & Hnd & Hok & Hns & Hst). split_and!; try done.
    + intros (y & Ey & Hy)%list_elem_of_fmap. destruct (Hns y Hy). congruence.
    + intros y Hy. by apply Hns.
    + destruct v as [la|name body]; cbn in *; [left; auto|]. destruct Hp as [_ Hp]. naive_solver.
  - intros ((Hni & Hnd) & ((Hf & Hp) & Hok) & (Hns & Hns') & Hst). split_and!; try done.
    + intros E. destruct Hst as [|[Hst _] ]; [done|congruence].
    + intros y Hy. split; [|by apply Hns']. intros E. apply Hni, list_elem_of_fmap. by exists y.
    + destruct v as [la|name body]; cbn in *; [right; done|naive_solver].
Qed.

Lemma fold_vendors l : forall st m, NoDup (vendor_name <$> l) ->
  (foldl add_vendor st l).2 = Some m <->
  (exists la, Aeabi la ∈ l /\ m = list_to_map la) \/ (st.2 = Some m /\ forall la, Aeabi la ∉ l).
Proof.
  induction l as [|v l IH]; intros st m Hnd.
  { cbn. setoid_rewrite elem_of_nil. naive_solver. }
  apply NoDup_cons in Hnd as [Hni Hnd]. cbn [foldl]. rewrite IH by done.
  setoid_rewrite not_elem_of_cons. setoid_rewrite elem_of_cons. unfold add_vendor. cbn [snd].
  destruct v as [la|name body]; [|naive_solver].
  assert (forall lb, Aeabi lb ∉ l) as Hno.
  { intros lb Hlb. apply Hni, list_elem_of_fmap. by exists (Aeabi lb). }
  naive_solver.
Qed.

Lemma vendors_exact rest : Forall is_u8 rest -> drain (length rest) vendor (∅, None) rest <> Stuck /\
  forall m, (exists names, drain (length rest) vendor (∅, None) rest = Ok (names, Some m)) <->
  exists vs l, rest = flat_map encode_vendor vs /\ NoDup (vendor_name <$> vs) /\ Forall vendor_ok vs /\
    Aeabi l ∈ vs /\ m = list_to_map l.
Proof.
  intros Hu. destruct (drain_exact vendor _ (fun st => vendor_reads st)) with (fuel := length rest)
    (s := (∅, None) : vendor_state) (bytes := rest) as [Hns Hiff]; [|done|done|].
  { intros st w st' (v & -> & _) E. apply (f_equal len) in E. unfold encode_vendor, frame in E.
    rewrite len_app, len_to_le in E. pose proof (len_nonneg (vendor_payload v)). change (len (@nil Z)) with 0 in E. lia. }
  split; [done|]. intros m. setoid_rewrite Hiff. setoid_rewrite chunks_list. setoid_rewrite drain_vendors. cbn [fst snd]. split.
  - intros (names & vs & -> & (Hnd & Hok & _ & _) & Hst). apply (f_equal snd) in Hst. cbn in Hst. symmetry in Hst.
    apply fold_vendors in Hst as [(la & Hin & ->)|[ [=] _] ]; [|done]. by exists vs, la.
  - intros (vs & l & -> & Hnd & Hok & Hin & ->). exists (foldl add_vendor (∅, None) vs).1, vs. split; [done|]. split.
    + split_and!; try done; [|by left]. apply Forall_forall. intros v _. apply not_elem_of_empty.
    + rewrite <- (proj2 (fold_vendors vs (∅, None) (list_to_map l) Hnd)); [by destruct (foldl _ _ _)|]. left. by exists l.
Qed.

(** C32. The ARM attribute decoder is exact and never panics: it accepts a byte
    string iff it is at most 64 KiB, starts with the format byte and then is a
    sequence of length-framed vendor blocks with distinct names, one of them
    aeabi with exactly one File scope of at most 256 attributes, every integer
    in canonical ULEB128 and every value encoded as the ABI assigns to its tag;
    the result is the map of those attributes. *)
Theorem arm_decoder_exact bytes : Forall is_u8 bytes -> decode bytes <> Stuck /\
  (forall a, decode bytes = Ok a <-> len bytes <= MAX_SECTION_SIZE /\ exists vs l,
    bytes = 65 :: flat_map encode_vendor vs /\ NoDup (vendor_name <$> vs) /\ Forall vendor_ok vs /\
    Aeabi l ∈ vs /\ a = mkAttributes (list_to_map l)).
Proof.
  intros Hu. unfold decode.
  assert (forall rest, bytes = 65 :: rest -> get_range bytes 1 (len bytes) = Some rest) as Hget
    by (intros rest ->; apply get_range_tail).
  pose proof (get_at_first bytes 65) as Hfirst.
  assert (forall rest, bytes = 65 :: rest -> Forall is_u8 rest) as Hur.
  { intros rest ->. by apply Forall_cons in Hu as [_ Hu]. }
  split.
  - not_stuck_step; [not_stuck|]. not_stuck_step; [not_stuck|].
    match goal with H : ensure (bool_decide _) _ = Ok _ |- _ => apply ensure_Ok, bool_decide_eq_true in H end.
    destruct Hfirst as [rest Hrest]; [done|]. rewrite (Hget _ Hrest). cbn.
    not_stuck_step; [by apply vendors_exact, Hur|]. not_stuck.
  - intros a. split.
    + intros H. apply bind_Ok in H as (? & Hlen%ensure_Ok%Z.leb_le & H).
      apply bind_Ok in H as (? & Hf%ensure_Ok%bool_decide_eq_true & H).
      destruct Hfirst as [rest Hrest]; [done|]. pose proof (Hur _ Hrest) as Hu'. rewrite (Hget _ Hrest) in H. cbn in H.
      apply bind_Ok in H as ([names aeabi] & Hd & H). inv_ok. split; [done|].
      match goal with H : aeabi = Some _ |- _ => rewrite H in Hd end.
      destruct (proj1 (proj2 (vendors_exact rest Hu') _) (ex_intro _ _ Hd)) as (vs & l & -> & ? & ? & ? & ->).
      by exists vs, l.
    + intros (Hlen & vs & l & Hb & Hnd & Hok & Hin & ->).
      destruct (proj2 (proj2 (vendors_exact _ (Hur _ Hb)) (list_to_map l))) as [names Hd]; [by exists vs, l|].
      guard_by ltac:(by apply Z.leb_le). guard_by ltac:(by rewrite Hb). rewrite (Hget _ Hb). cbn. by rewrite Hd.
Qed.

(** A vendor block that is skipped, then the aeabi attributes. *)
Definition example_vendors : list Vendor :=
  [Other (rs "gnu") [7; 8]; Aeabi [(6, Integer 10); (5, String_ (rs "cortex")); (32, Compatibility 300 (rs "x"))] ].
Definition example_section : list Z := 65 :: flat_map encode_vendor example_vendors.

Lemma arm_decoder_exact_witness : exists a, decode example_section = Ok a /\ integer a 6 = Ok 10 /\ integer a 7 = Ok 0.
Proof.
  assert (len example_section <= MAX_SECTION_SIZE) as Hl by (vm_compute; done).
  destruct (arm_decoder_exact example_section) as [_ H]; [by apply forallb_u8; vm_compute|].
  eexists. split.
  - apply H. split; [exact Hl|]. exists example_vendors. eexists. split; [reflexivity|]. split; [|split; [|split] ].
    + apply (bool_decide_unpack _). vm_compute. done.
    + constructor; [|constructor; [|constructor] ].
      * split; [vm_compute; done|]. split; [split; [repeat constructor; done|vm_compute; done]|done].
      * split; [vm_compute; done|]. split; [|vm_compute; done]. split; [apply (bool_decide_unpack _); vm_compute; done|].
        split; [|vm_compute; done]. repeat constructor; vm_compute; done.
    + right. left.
    + reflexivity.
  - split; vm_compute; reflexivity.
Defined.
