(* ===== verification/RiscvAttr.v ===== *)
(** * RiscvAttr: RISC-V build attributes

    Models [crates/aros-common/src/elf/riscv.rs]: the bounded decoder of the
    [.riscv.attributes] section. *)

From stdpp Require Import gmap.
From S2P Require Import Prelude Bytes Text Elf Cursor.

Definition MACHINE : Z := 243.
Definition SHT_ATTRIBUTES : Z := 0x70000003.
Definition FLOAT_ABI_MASK : Z := 0x6.

Inductive Value := Integer (n : Z) | String_ (s : list Z).
#[global] Instance Value_eq_dec : EqDecision Value.
Proof. solve_decision. Defined.
Abbreviation Values := (gmap Z Value).
Record Attributes := mkAttributes { architecture : list Z; values : Values }.

Inductive riscv_error :=
| Elf (e : elf_error) | NotRiscv | Missing | DuplicateSections | WrongType | OffsetOverflow | SizeOverflow
| RangeOverflow | TruncatedAttributes | TooLarge | Format | UnsupportedVendor | DuplicateVendor
| ExpectedFileScope | MultipleFiles | UnknownMandatory | DuplicateAttribute | NoArchitecture
| InvalidArchitecture | NoVendor | TruncatedLength | InvalidLength | ShortBlock | BlockBeyond | Unterminated
| NotUtf8 | TruncatedInteger | IntegerOverflow.

(** [uleb]: [n] of the rounds remain; the source counts the shift. *)
Fixpoint uleb_loop (n : nat) (shift value : Z) (bytes : list Z) : res riscv_error (Z * list Z) :=
  match n with
  | O => Err IntegerOverflow
  | S n =>
    byte ← ok_or (get_at bytes 0) TruncatedInteger;
    bytes ← or_stuck (get_range bytes 1 (len bytes));
    _ ← ensure (negb (shift =? 63) || (byte <=? 1)) IntegerOverflow;
    let value := Z.lor value (Z.shiftl (Z.land byte 0x7f) shift mod 2 ^ 64) in
    if Z.land byte 0x80 =? 0 then Ok (value, bytes)
    else uleb_loop n (shift + 7) value bytes
  end.
Definition uleb : cursor riscv_error Z := uleb_loop 10 0 0.

Definition string : cursor riscv_error (list Z) :=
  nul_reader Unterminated (fun raw => ok_or (from_utf8 raw) NotUtf8).

Definition block : Z -> cursor riscv_error (list Z) :=
  block_reader TruncatedLength InvalidLength ShortBlock BlockBeyond.

(** One round of the attribute loop. *)
Definition attribute (values : Values) : cursor riscv_error Values := fun attributes =>
  '(tag, attributes) ← uleb attributes;
  _ ← ensure (bool_decide (tag ∈ [4; 5; 6; 8; 10; 12; 14; 16]) || (64 <=? tag mod 128)) UnknownMandatory;
  '(v, attributes) ← (if tag mod 2 =? 1 then '(s, attributes) ← string attributes; Ok (String_ s, attributes)
                      else '(n, attributes) ← uleb attributes; Ok (Integer n, attributes));
  _ ← ensure (bool_decide (values !! tag = None)) DuplicateAttribute;
  Ok (<[tag := v]> values, attributes).

(** The characters of an architecture string. *)
Definition selector_byte (b : Z) : bool := is_ascii_lowercase b || is_ascii_digit b || (b =? 95).
Definition architecture_ok (s : list Z) : bool :=
  negb (match s with [] => true | _ => false end) && (str_len s <=? 4096) && forallb selector_byte (utf8 s).

(** One round of the vendor loop. *)
Definition subsection (file : option Attributes) : cursor riscv_error (option Attributes) := fun remaining =>
  '(subsection, remaining) ← block 0 remaining;
  body ← or_stuck (get_range subsection 4 (len subsection));
  '(vendor, body) ← string body;
  _ ← ensure (bool_decide (vendor = rs "riscv")) UnsupportedVendor;
  _ ← ensure (bool_decide (file = None)) DuplicateVendor;
  let tag_start := body in
  '(tag, body) ← uleb body;
  _ ← ensure (tag =? 1) ExpectedFileScope;
  tag_bytes ← or_stuck (checked_sub (len tag_start) (len body));
  '(contents, body) ← block tag_bytes body;
  _ ← ensure (match body with [] => true | _ => false end) MultipleFiles;
  attributes ← or_stuck (get_range contents 4 (len contents));
  values ← drain (length attributes) attribute ∅ attributes;
  match values !! 5 with
  | Some (String_ architecture) =>
    _ ← ensure (architecture_ok architecture) InvalidArchitecture;
    Ok (Some (mkAttributes architecture values), remaining)
  | _ => Err NoArchitecture
  end.

Definition decode (bytes : list Z) : res riscv_error Attributes :=
  _ ← ensure (len bytes <=? 65536) TooLarge;
  _ ← ensure (bool_decide (get_at bytes 0 = Some 65)) Format;
  remaining ← or_stuck (get_range bytes 1 (len bytes));
  file ← drain (length remaining) subsection None remaining;
  ok_or file NoVendor.

Definition is_attributes (s : Section_) : bool := bool_decide (s_name s = rs ".riscv.attributes").
Definition read (bytes : list Z) : res riscv_error Attributes :=
  object ← map_err Elf (Elf.read bytes);
  _ ← ensure (obj_machine object =? MACHINE) NotRiscv;
  let found := filter is_attributes (sections object) in
  section ← ok_or (head found) Missing;
  _ ← ensure (match tail found with [] => true | _ => false end) DuplicateSections;
  _ ← ensure (s_kind section =? SHT_ATTRIBUTES) WrongType;
  start ← ok_or (try_from usize_max (s_offset section)) OffsetOverflow;
  size ← ok_or (try_from usize_max (s_size section)) SizeOverflow;
  stop ← ok_or (checked_add usize_max start size) RangeOverflow;
  data ← ok_or (get_range bytes start stop) TruncatedAttributes;
  decode data.

(** ** Words *)

(** A NUL-terminated UTF-8 string. *)
Definition string_word (w s : list Z) : Prop :=
  exists raw, w = cstring raw /\ Forall (fun b => b <> 0) raw /\ from_utf8 raw = Some s.

#[local] Instance uleb_reads : Exact uleb (leb false).
Proof.
  eapply exact_ext; [apply (uleb_exact (fun n i => uleb_loop n (7 * i)) false TruncatedInteger IntegerOverflow
    IntegerOverflow IntegerOverflow); [reflexivity|]|reflexivity|reflexivity].
  intros n i v bytes. cbn [uleb_loop]. replace (7 * (i + 1)) with (7 * i + 7) by lia.
  replace (7 * i =? 63) with (i =? 9) by (destruct (Z.eqb_spec i 9), (Z.eqb_spec (7 * i) 63); lia).
  by rewrite (Z.mul_comm 7 i).
Qed.

#[local] Instance string_reads : Exact string string_word.
Proof.
  eapply exact_ext; [apply (nul_reader_exact Unterminated (fun raw => ok_or (from_utf8 raw) NotUtf8)); intros; not_stuck
    |reflexivity|].
  cbv beta. intros w s _. unfold string_word, cstring. by setoid_rewrite ok_or_Ok.
Qed.

(** ** Attribute lists *)
Definition known_tag (tag : Z) : bool := bool_decide (tag ∈ [4; 5; 6; 8; 10; 12; 14; 16]) || (64 <=? tag mod 128).
Definition value_word (tag : Z) (w : list Z) (v : Value) : Prop :=
  match v with
  | String_ s => tag mod 2 = 1 /\ string_word w s
  | Integer n => tag mod 2 <> 1 /\ leb false w n
  end.

(** One attribute: its tag, its value and the two words that spell them. *)
Record Item := mkItem { i_tag : Z; i_value : Value; i_tag_word : list Z; i_value_word : list Z }.
Definition item_word (x : Item) : list Z := i_tag_word x ++ i_value_word x.
Definition item_ok (x : Item) : Prop :=
  leb false (i_tag_word x) (i_tag x) /\ known_tag (i_tag x) = true /\
  value_word (i_tag x) (i_value_word x) (i_value x).
Definition item_pair (x : Item) : Z * Value := (i_tag x, i_value x).

Definition new_item (m : Values) (x : Item) : Prop := item_ok x /\ m !! i_tag x = None.
Definition add_item (m : Values) (x : Item) : Values := <[i_tag x := i_value x]> m.

#[local] Instance value_reads tag : Exact
  (fun bytes => if tag mod 2 =? 1 then '(s, bytes) ← string bytes; Ok (String_ s, bytes)
                else '(n, bytes) ← uleb bytes; Ok (Integer n, bytes)) (value_word tag).
Proof.
  eapply exact_ext; [exact (exact_if (tag mod 2 =? 1) _ _ _ _ (exact_map string String_ _ string_reads)
    (exact_map uleb Integer _ uleb_reads))|reflexivity|].
  cbv beta. intros w v _. unfold value_word. destruct (Z.eqb_spec (tag mod 2) 1); destruct v; naive_solver.
Qed.

#[local] Instance attribute_reads m : Exact (attribute m)
  (fun w m' => exists x, w = item_word x /\ new_item m x /\ m' = add_item m x).
Proof.
  eapply exact_ext; [exact (exact_bind uleb _ _ _ uleb_reads (fun tag => exact_ensure (known_tag tag) UnknownMandatory _ _
    (exact_bind _ _ _ _ (value_reads tag) (fun v => exact_ensure (bool_decide (m !! tag = None)) DuplicateAttribute _ _
      (exact_ret (<[tag := v]> m))))))|reflexivity|].
  cbv beta. intros w m' _. setoid_rewrite bool_decide_eq_true. unfold new_item, item_ok, item_word, add_item. split.
  - intros (w1 & w2 & tag & -> & H1 & H2 & w3 & w4 & v & -> & H3 & H4 & -> & ->).
    exists (mkItem tag v w1 w3). rewrite app_nil_r. done.
  - intros ([tag v w1 w2] & -> & ((H1 & H2 & H3) & H4) & ->). cbn in *. exists w1, w2, tag.
    split_and!; try done. exists w2, [], v. by rewrite app_nil_r.
Qed.

Lemma leb_nonempty c w v : leb c w v -> w <> [].
Proof. by intros [Hs _] ->. Qed.

Lemma new_items l : forall m, ok_list new_item add_item m l <->
  NoDup (i_tag <$> l) /\ Forall item_ok l /\ Forall (fun x => m !! i_tag x = None) l.
Proof.
  induction l as [|x l IH]; intros m; cbn [ok_list fmap list_fmap]; [split; [intros _; split_and!; constructor|done]|].
  rewrite IH, NoDup_cons, !Forall_cons. unfold new_item, add_item. rewrite !Forall_forall. split.
  - intros ((Hok & Hm) & Hnd & Hall & Hf). split_and!; try done.
    + rewrite list_elem_of_fmap. intros (y & Ey & Hy). specialize (Hf y Hy).
      by rewrite <- Ey, lookup_insert_eq in Hf.
    + intros y Hy. by apply Hf, lookup_insert_None in Hy as [? _].
  - intros ((Hni & Hnd) & (Hok & Hall) & Hm & Hf). split_and!; try done.
    intros y Hy. rewrite lookup_insert_ne; [by apply Hf|]. intros E. apply Hni, list_elem_of_fmap. by exists y.
Qed.

Lemma add_items l : NoDup (i_tag <$> l) -> foldl add_item ∅ l = list_to_map (item_pair <$> l).
Proof.
  intros Hnd. transitivity (list_to_map (M := Values) (rev (item_pair <$> l))).
  - clear Hnd. induction l as [|x l IH] using rev_ind; [done|]. rewrite foldl_app, fmap_app, rev_app_distr. cbn. by rewrite IH.
  - symmetry. apply list_to_map_proper; [|apply Permutation_rev]. by rewrite <- list_fmap_compose.
Qed.

(** The bytes of an attribute list and the map they stand for. *)
Definition spells (bytes : list Z) (m : Values) : Prop :=
  exists l, bytes = flat_map item_word l /\ NoDup (i_tag <$> l) /\ Forall item_ok l /\ m = list_to_map (item_pair <$> l).

Lemma riscv_attributes_exact bytes : Forall is_u8 bytes -> drain (length bytes) attribute ∅ bytes <> Stuck /\
  forall m, drain (length bytes) attribute ∅ bytes = Ok m <-> spells bytes m.
Proof.
  intros Hu.
  destruct (drain_exact attribute _ (fun m => attribute_reads m)) with (fuel := length bytes) (s := ∅ : Values) (bytes := bytes)
    as [Hns Hiff]; [|done|done|].
  { intros m w m' ([tag v w1 w2] & -> & ((Hleb & _) & _) & _) E. apply app_eq_nil in E as [E _]. by apply leb_nonempty in Hleb. }
  split; [done|]. intros m. rewrite Hiff, chunks_list. unfold spells. split.
  - intros (l & -> & (Hnd & Hok & _)%new_items & ->). exists l. by rewrite add_items.
  - intros (l & -> & Hnd & Hok & ->). exists l. rewrite add_items by done. split; [done|]. split; [|done].
    apply new_items. split_and!; try done. apply Forall_forall. intros. apply lookup_empty.
Qed.

(** ** The vendor block *)
Definition vendor_name : list Z := rs "riscv".

Lemma vendor_word w : string_word w vendor_name <-> w = cstring vendor_name.
Proof.
  unfold string_word. split.
  - intros (raw & -> & _ & Hr). by apply utf8_from_utf8 in Hr as [<- _].
  - intros ->. exists vendor_name. split; [done|]. split; [repeat constructor; done|reflexivity].
Qed.

(** The payload of the vendor block and the attributes it declares. *)
Definition file_payload (body : list Z) (a : Attributes) : Prop :=
  exists wt p, body = cstring vendor_name ++ wt ++ frame (len wt) p /\ leb false wt 1 /\ frame_ok (len wt) p /\
    spells p (values a) /\ values a !! 5 = Some (String_ (architecture a)) /\ architecture_ok (architecture a) = true.

Definition contents_reader (contents : list Z) : res riscv_error Attributes :=
  vs ← drain (length contents) attribute ∅ contents;
  match vs !! 5 with
  | Some (String_ arch) => _ ← ensure (architecture_ok arch) InvalidArchitecture; Ok (mkAttributes arch vs)
  | _ => Err NoArchitecture
  end.
Definition body_reader (file : option Attributes) (body : list Z) : res riscv_error Attributes :=
  '(vendor, body) ← string body;
  _ ← ensure (bool_decide (vendor = vendor_name)) UnsupportedVendor;
  _ ← ensure (bool_decide (file = None)) DuplicateVendor;
  let tag_start := body in
  '(tag, body) ← uleb body;
  _ ← ensure (tag =? 1) ExpectedFileScope;
  tag_bytes ← or_stuck (checked_sub (len tag_start) (len body));
  '(contents, body) ← block tag_bytes body;
  _ ← ensure (match body with [] => true | _ => false end) MultipleFiles;
  contents ← or_stuck (get_range contents 4 (len contents));
  contents_reader contents.

Lemma contents_exact p : Forall is_u8 p -> contents_reader p <> Stuck /\ forall a, contents_reader p = Ok a <->
  spells p (values a) /\ values a !! 5 = Some (String_ (architecture a)) /\ architecture_ok (architecture a) = true.
Proof.
  intros Hu. unfold contents_reader. destruct (riscv_attributes_exact p Hu) as [Hns Hiff]. split; [not_stuck|].
  intros a. rewrite bind_Ok. setoid_rewrite Hiff. split.
  - intros (vs & Hs & H). destruct (vs !! 5) as [ [|arch]|] eqn:E5; [done| |done]. inv_ok. done.
  - intros (Hs & H5 & Hok). exists (values a). split; [done|]. rewrite H5, Hok. by destruct a.
Qed.

Lemma block_then_empty tag body : 0 <= tag -> Forall is_u8 body ->
  let run := ('(contents, body) ← block tag body;
              _ ← ensure (match body with [] => true | _ => false end) MultipleFiles;
              contents ← or_stuck (get_range contents 4 (len contents)); contents_reader contents) in
  run <> Stuck /\ forall a, run = Ok a <->
    exists p, body = frame tag p /\ frame_ok tag p /\ spells p (values a) /\
      values a !! 5 = Some (String_ (architecture a)) /\ architecture_ok (architecture a) = true.
Proof.
  intros Htag Hu run. unfold run, block.
  pose proof (block_reader_exact TruncatedLength InvalidLength ShortBlock BlockBeyond tag Htag) as Hb. split.
  - not_stuck_step; [by apply exact_total|]. destruct a as [sub rest].
    match goal with H : block_reader _ _ _ _ _ _ = Ok _ |- _ => apply exact_iff in H as (w & -> & -> & p & Hp); [|done] end.
    rewrite (framed_tail _ _ _ Hp). cbn [or_stuck mbind res_bind].
    apply Forall_app in Hu as [Hu _]. destruct Hp as [_ ->]. apply Forall_app in Hu as [_ Hu]. not_stuck.
    by apply contents_exact.
  - intros a. rewrite bind_Ok. split.
    + intros ([sub rest] & H1 & H2). destruct (proj1 (exact_iff _ _ _ Hu) H1) as (w & -> & -> & p & Hp).
      apply bind_Ok in H2 as (? & H2%ensure_Ok & H3). destruct rest; [|done]. rewrite app_nil_r in *.
      rewrite (framed_tail _ _ _ Hp) in H3. cbn in H3. destruct Hp as [Hf ->]. apply Forall_app in Hu as [_ Hu].
      apply contents_exact in H3; [|done]. by exists p.
    + intros (p & -> & Hf & Hs). exists (frame tag p, []). split.
      * apply (exact_all _ _ _ _ Hb Hu). split; [done|]. by exists p.
      * cbn [ensure mbind res_bind]. rewrite (framed_tail tag (frame tag p) p) by done. cbn.
        apply Forall_app in Hu as [_ Hu]. by apply contents_exact.
Qed.

Lemma body_exact file body : Forall is_u8 body -> body_reader file body <> Stuck /\ forall a, body_reader file body = Ok a <->
  file = None /\ file_payload body a.
Proof.
  intros Hu. unfold body_reader, file_payload. cbv zeta.
  assert (forall b t rest, Forall is_u8 b -> uleb b = Ok (t, rest) -> exists wt, b = wt ++ rest /\ leb false wt t /\
    Forall is_u8 rest /\ checked_sub (len b) (len rest) = Some (len wt)) as Htag.
  { intros b t rest Hub (wt & -> & Hl)%exact_iff; [|done]. apply Forall_app in Hub as [_ Hur]. exists wt.
    split_and!; try done. apply checked_sub_Some. rewrite len_app. pose proof (len_nonneg wt). lia. }
  split.
  - not_stuck_step; [by apply exact_total|]. destruct a as [vendor b1].
    match goal with H : string _ = Ok _ |- _ => apply exact_iff in H as (w & -> & _); [|done] end.
    apply Forall_app in Hu as [_ Hu]. do 2 (not_stuck_step; [not_stuck|]).
    not_stuck_step; [by apply exact_total|]. destruct a1 as [tag b2].
    match goal with H : uleb _ = Ok _ |- _ => apply Htag in H as (wt & -> & _ & Hu2 & ->); [|done] end.
    not_stuck_step; [not_stuck|]. cbn [or_stuck]. rewrite Ok_bind. by apply block_then_empty; [apply len_nonneg|].
  - intros a. rewrite bind_Ok. split.
    + intros ([vendor b1] & Hs & H). destruct (proj1 (exact_iff _ _ _ Hu) Hs) as (w & -> & Hw).
      apply Forall_app in Hu as [_ Hu]. apply bind_Ok in H as (? & Hv%ensure_Ok%bool_decide_eq_true & H). subst vendor.
      apply vendor_word in Hw as ->. apply bind_Ok in H as (? & Hn%ensure_Ok%bool_decide_eq_true & H).
      apply bind_Ok in H as ([tag b2] & Ht & H). apply Htag in Ht as (wt & -> & Hwt & Hu2 & E); [|done].
      apply bind_Ok in H as (? & H1%ensure_Ok%Z.eqb_eq & H). subst tag. rewrite E in H. cbn [or_stuck] in H.
      rewrite Ok_bind in H. apply block_then_empty in H as (p & -> & Hp); [|apply len_nonneg|done].
      split; [done|]. exists wt, p. naive_solver.
    + intros (-> & wt & p & -> & Hwt & Hp). exists (vendor_name, wt ++ frame (len wt) p). split.
      { apply (exact_iff (Exact := string_reads)); [done|]. exists (cstring vendor_name). split; [done|]. by apply vendor_word. }
      apply Forall_app in Hu as [_ Hu]. guard_by ltac:(by apply bool_decide_eq_true). guard_by ltac:(done).
      assert (uleb (wt ++ frame (len wt) p) = Ok (1, frame (len wt) p)) as Hul.
      { apply (exact_iff (Exact := uleb_reads)); [done|]. by exists wt. }
      step_by ltac:(exact Hul). guard_by ltac:(done).
      step_by ltac:(apply or_stuck_Ok, checked_sub_Some; rewrite len_app; split; [reflexivity|pose proof (len_nonneg wt); lia]).
      rewrite Z.add_simpl_r. apply Forall_app in Hu as [_ Hu]. apply block_then_empty; [apply len_nonneg|done|]. by exists p.
Qed.

(** One vendor block. *)
Definition encode_block (body : list Z) : list Z := frame 0 body.

#[local] Instance subsection_reads file : Exact (subsection file)
  (fun w file' => exists a, (exists p, frame_ok 0 p /\ w = encode_block p /\ file = None /\ file_payload p a) /\ file' = Some a).
Proof.
  eapply exact_ext; [exact (exact_map _ Some _ (payload_reads TruncatedLength InvalidLength ShortBlock BlockBeyond 0
    (body_reader file) _ ltac:(lia) (body_exact file)))| |cbv beta; intros w f _; unfold encode_block; naive_solver].
  intros bytes. unfold subsection, body_reader, contents_reader, block. cbv zeta.
  destruct (block_reader _ _ _ _ 0 bytes) as [ [sub rest]| |]; [|done..]. cbn [mbind res_bind].
  destruct (or_stuck _) as [b| |]; [|done..]. cbn [mbind res_bind].
  destruct (string b) as [ [vendor b1]| |]; [|done..]. cbn [mbind res_bind]. unfold vendor_name.
  destruct (ensure (bool_decide (vendor = _)) _); [|done..]. cbn [mbind res_bind].
  destruct (ensure (bool_decide (file = _)) _); [|done..]. cbn [mbind res_bind].
  destruct (uleb b1) as [ [tag b2]| |]; [|done..]. cbn [mbind res_bind].
  destruct (ensure (tag =? 1) _); [|done..]. cbn [mbind res_bind].
  destruct (or_stuck (checked_sub _ _)) as [tb| |]; [|done..]. cbn [mbind res_bind].
  destruct (block_reader _ _ _ _ tb b2) as [ [c b3]| |]; [|done..]. cbn [mbind res_bind].
  destruct (ensure _ MultipleFiles); [|done..]. cbn [mbind res_bind].
  destruct (or_stuck (get_range c 4 _)) as [at_| |]; [|done..]. cbn [mbind res_bind].
  destruct (drain _ _ _ _) as [vs| |]; [|done..]. cbn [mbind res_bind].
  destruct (vs !! 5) as [ [|arch]|]; [done| |done]. by destruct (ensure _ _).
Qed.

Lemma file_payload_unique_block : forall file w file', chunks (fun s w s' => exists a,
    (exists p, frame_ok 0 p /\ w = encode_block p /\ s = None /\ file_payload p a) /\ s' = Some a) file w file' ->
  file' = file /\ w = [] \/ file = None /\ exists a p, frame_ok 0 p /\ w = encode_block p /\ file_payload p a /\ file' = Some a.
Proof.
  induction 1 as [s|s w1 s1 w2 s2 (a & (p & Hp & -> & -> & Hf) & ->) _ IH]; [by left|]. right. split; [done|].
  destruct IH as [ [-> ->]|[ [=] _] ]. exists a, p. by rewrite app_nil_r.
Qed.

Lemma decode_exact bytes : Forall is_u8 bytes -> decode bytes <> Stuck /\
  (forall a, decode bytes = Ok a <-> len bytes <= 65536 /\
    exists p, frame_ok 0 p /\ bytes = 65 :: encode_block p /\ file_payload p a).
Proof.
  intros Hu. unfold decode.
  pose proof (get_at_first bytes 65) as Hfirst.
  assert (forall rest, bytes = 65 :: rest -> get_range bytes 1 (len bytes) = Some rest) as Hget
    by (intros rest ->; apply get_range_tail).
  assert (forall rest, bytes = 65 :: rest -> drain (length rest) subsection None rest <> Stuck /\
    forall f, drain (length rest) subsection None rest = Ok f <-> chunks (fun s w s' => exists a,
      (exists p, frame_ok 0 p /\ w = encode_block p /\ s = None /\ file_payload p a) /\ s' = Some a) None rest f) as Hd.
  { intros rest ->. apply Forall_cons in Hu as [_ Hu]. apply (drain_exact subsection _ (fun f => subsection_reads f)); [|done|done].
    intros s w s' (a & (p & _ & -> & _) & _) E. apply (f_equal len) in E. unfold encode_block, frame in E.
    rewrite len_app, len_to_le in E. pose proof (len_nonneg p). change (len (@nil Z)) with 0 in E. lia. }
  split.
  - do 2 (not_stuck_step; [not_stuck|]).
    match goal with H : ensure (bool_decide _) _ = Ok _ |- _ => apply ensure_Ok, bool_decide_eq_true, Hfirst in H as [rest Hrest] end.
    rewrite (Hget _ Hrest). cbn [or_stuck]. rewrite Ok_bind. not_stuck. by apply Hd.
  - intros a. split.
    + intros H. apply bind_Ok in H as (? & Hlen%ensure_Ok%Z.leb_le & H). split; [done|].
      apply bind_Ok in H as (? & [rest Hrest]%ensure_Ok%bool_decide_eq_true%Hfirst & H).
      rewrite (Hget _ Hrest) in H. cbn [or_stuck] in H. rewrite Ok_bind in H.
      apply bind_Ok in H as (f & Hf & ->%ok_or_Ok). apply Hd in Hf; [|done].
      apply file_payload_unique_block in Hf as [ [ [=] _]|(_ & a' & p & Hp & -> & Hpl & [= <-])]. by exists p.
    + intros (Hlen & p & Hp & Hb & Hpl). guard_by ltac:(by apply Z.leb_le). guard_by ltac:(by rewrite Hb).
      step_by ltac:(apply or_stuck_Ok, (Hget _ Hb)).
      step_by ltac:(apply (Hd _ Hb); rewrite <- (app_nil_r (encode_block p)); eapply chunks_cons;
        [by exists a; split; [exists p|]|constructor]). done.
Qed.

(** The RISC-V attribute decoder is exact and never panics: it accepts a
    byte string iff it is at most 64 KiB and holds the format byte and exactly
    one riscv vendor block with one File scope, whose attributes have distinct
    tags that are known or optional, odd tags UTF-8 strings and even tags
    LEB128 integers of 64 bits, and whose architecture attribute is present and
    a lower-case selector; the result is the map of those attributes. *)
Theorem riscv_decoder_exact bytes : Forall is_u8 bytes -> decode bytes <> Stuck /\
  (forall a, decode bytes = Ok a <-> len bytes <= 65536 /\
    exists p, frame_ok 0 p /\ bytes = 65 :: encode_block p /\ file_payload p a).
Proof. apply decode_exact. Qed.

(** An architecture string and an optional integer with a padded tag word. *)
Definition example_items : list Item :=
  [mkItem 5 (String_ (rs "rv32i2p1")) [5] (cstring (rs "rv32i2p1")); mkItem 4 (Integer 16) [0x84; 0] [16] ].
Definition example_payload : list Z := cstring vendor_name ++ [1] ++ frame 1 (flat_map item_word example_items).
Definition example_attributes : Attributes :=
  mkAttributes (rs "rv32i2p1") (list_to_map (item_pair <$> example_items)).

Lemma riscv_decoder_exact_witness : decode (65 :: encode_block example_payload) = Ok example_attributes.
Proof.
  apply (riscv_decoder_exact (65 :: encode_block example_payload)); [by apply forallb_u8; vm_compute|].
  split; [vm_compute; done|]. exists example_payload. split; [vm_compute; done|]. split; [reflexivity|].
  exists [1], (flat_map item_word example_items). split; [reflexivity|]. split; [by split|]. split; [vm_compute; done|].
  split; [|split; vm_compute; reflexivity].
  exists example_items. split; [reflexivity|]. split; [apply (bool_decide_unpack _); vm_compute; done|]. split; [|reflexivity].
  repeat constructor; try reflexivity; [|done].
  exists (rs "rv32i2p1"). split; [reflexivity|]. split; [repeat constructor; done|reflexivity].
Defined.

Lemma riscv_read_not_Stuck bytes : Forall is_u8 bytes -> len bytes <= isize_max -> read bytes <> Stuck.
Proof.
  intros Hu Hl. unfold read. not_stuck_step; [by apply map_err_not_Stuck, Elf.read_not_Stuck|]. cbv zeta.
  do 8 (not_stuck_step; [not_stuck|]). apply decode_exact.
  match goal with H : ok_or (get_range _ _ _) _ = Ok _ |- _ => apply ok_or_Ok in H; by apply (get_range_Forall _ _ _ _ _ H) end.
Qed.
