(* ===== verification/RiscvContract.v ===== *)
(** * RiscvContract: the RISC-V target contract

    Models [crates/aros-common/src/elf/riscv/contract.rs]: the closed target
    document, its validation, and the check of a produced ELF file against it.
    JSON decoding is a parameter. *)

From stdpp Require Import gmap.
From S2P Require Import Prelude Bytes Text Elf RiscvAttr.

Definition OS_ABI_AROS : Z := 15.
Definition AROS_ABI_VERSION : Z := 1.

Record TargetContract := mkContract
  { schema : list Z; isa : list Z; abi : list Z; code_model : list Z; c_architecture : list Z;
    unaligned_access : bool; atomic_abi : Z; x3_reg_usage : Z }.

Inductive ArtifactRole := CompilationUnit | ArosRelocatable | NativeCore.
#[global] Instance ArtifactRole_eq_dec : EqDecision ArtifactRole.
Proof. solve_decision. Defined.

Inductive contract_error :=
| TooLong | InvalidDocument | Convention | Schema | UnsafeSelector | CodeModel | AtomicOrX3 | ArchitectureWidth
| IBase | IsaWidth | NeedsF | NeedsFD | ReadElf (e : elf_error) | Machine | Width | NotExecutable | NotRelocatable
| FloatAbi | AbiFlags | ReadAttributes (e : riscv_error) | ArchitectureMismatch | StackAlignment | AttributeType
| AttributeMismatch | RvcFlag | TsoFlag | MissingMarking | UnitMarking.

Definition semantics (c : TargetContract) : res contract_error (Class * Z) :=
  if eqb_list (abi c) (rs "ilp32") then Ok (Elf32, 0)
  else if eqb_list (abi c) (rs "ilp32f") then Ok (Elf32, 2)
  else if eqb_list (abi c) (rs "ilp32d") then Ok (Elf32, 4)
  else if eqb_list (abi c) (rs "lp64") then Ok (Elf64, 0)
  else if eqb_list (abi c) (rs "lp64f") then Ok (Elf64, 2)
  else if eqb_list (abi c) (rs "lp64d") then Ok (Elf64, 4)
  else Err Convention.

Definition tokens (s : list Z) : list (list Z) := split_on (Z.eqb 95) s.
(** The closure [has]: some token is the extension followed by a digit. *)
Definition has (architecture extension : list Z) : bool :=
  existsb (fun token => match strip_prefix extension token with
                        | Some suffix => match utf8 suffix with b :: _ => is_ascii_digit b | [] => false end
                        | None => false
                        end) (tokens architecture).

Definition numeric (part : list Z) : bool :=
  negb (match part with [] => true | _ => false end) && forallb is_ascii_digit (utf8 part).
(** The closure on [base_version]: exactly two numeric parts around [p]. *)
Definition versioned (version : list Z) : bool :=
  match split_on (Z.eqb 112) version with
  | a :: b :: [] => numeric a && numeric b
  | _ => false
  end.

Definition width_of (class : Class) : list Z :=
  match class with Elf32 => rs "rv32" | Elf64 => rs "rv64" end.

Definition validate (c : TargetContract) : res contract_error unit :=
  _ ← ensure (eqb_list (schema c) (rs "aros-riscv-target-v1")) Schema;
  '(class, float_flags) ← semantics c;
  _ ← foldM (fun _ argument => ensure (architecture_ok argument) UnsafeSelector) tt [isa c; c_architecture c];
  _ ← ensure (eqb_list (code_model c) (rs "medlow") || eqb_list (code_model c) (rs "medany")) CodeModel;
  _ ← ensure ((atomic_abi c <=? 3) && (x3_reg_usage c <=? 3)) AtomicOrX3;
  let width := width_of class in
  _ ← ensure (starts_with (c_architecture c) width) ArchitectureWidth;
  let base := width ++ rs "i" in
  let base_version := match tokens (c_architecture c) with
                      | token :: _ => strip_prefix base token
                      | [] => None
                      end in
  _ ← ensure (match base_version with Some version => versioned version | None => false end) IBase;
  _ ← ensure (starts_with (isa c) base ||
              (bool_decide (class = Elf64) && starts_with (isa c) (rs "rva") && ends_with (isa c) (rs "u64"))) IsaWidth;
  _ ← ensure (negb (float_flags =? 2) || has (c_architecture c) (rs "f")) NeedsF;
  _ ← ensure (negb (float_flags =? 4) || (has (c_architecture c) (rs "f") && has (c_architecture c) (rs "d"))) NeedsFD;
  Ok tt.

Section parse.
(** [serde_json::from_slice] for the closed field record. *)
Context (from_slice : list Z -> option TargetContract).
Definition deserialize (record : TargetContract) : res contract_error TargetContract :=
  _ ← validate record; Ok record.
Definition parse (bytes : list Z) : res contract_error TargetContract :=
  _ ← ensure (len bytes <=? 16 * 1024) TooLong;
  record ← ok_or (from_slice bytes) InvalidDocument;
  contract ← map_err (fun _ => InvalidDocument) (deserialize record);
  _ ← validate contract;
  Ok contract.
End parse.

(** The value of an integer attribute, zero when it is absent. *)
Definition attribute_value (a : Attributes) (tag : Z) : res contract_error Z :=
  match values a !! tag with
  | None => Ok 0
  | Some (Integer v) => Ok v
  | Some (String_ _) => Err AttributeType
  end.

Definition verify (c : TargetContract) (bytes : list Z) (role : ArtifactRole) : res contract_error unit :=
  _ ← validate c;
  object ← map_err ReadElf (Elf.read bytes);
  '(class, float_flags) ← semantics c;
  _ ← ensure (obj_machine object =? MACHINE) Machine;
  _ ← ensure (bool_decide (obj_class object = class)) Width;
  _ ← (if bool_decide (role = NativeCore) then ensure (obj_kind object =? 2) NotExecutable
       else ensure (obj_kind object =? 1) NotRelocatable);
  _ ← ensure (Z.land (obj_flags object) FLOAT_ABI_MASK =? float_flags) FloatAbi;
  _ ← ensure (Z.land (obj_flags object) (Z.lxor 0x17 u32_max) =? 0) AbiFlags;
  attributes ← map_err ReadAttributes (RiscvAttr.read bytes);
  _ ← ensure (eqb_list (architecture attributes) (c_architecture c)) ArchitectureMismatch;
  _ ← ensure (match values attributes !! 4 with
              | None => true
              | Some value => bool_decide (value = Integer 16)
              end) StackAlignment;
  _ ← foldM (fun _ '(tag, expected) =>
        actual ← attribute_value attributes tag;
        ensure (actual =? expected) AttributeMismatch) tt
        [(6, Z.b2z (unaligned_access c)); (14, atomic_abi c); (16, x3_reg_usage c)];
  _ ← ensure ((Z.land (obj_flags object) 1 =? 0) || has (c_architecture c) (rs "c") || has (c_architecture c) (rs "zca")) RvcFlag;
  _ ← ensure ((Z.land (obj_flags object) 0x10 =? 0) || has (c_architecture c) (rs "ztso")) TsoFlag;
  let aros := (os_abi object =? OS_ABI_AROS) && (abi_version object =? AROS_ABI_VERSION) in
  if bool_decide (role = ArosRelocatable) then ensure aros MissingMarking
  else ensure (((os_abi object =? 0) && (abi_version object =? 0)) || aros) UnitMarking.

(** ** Flags *)
Definition supported_bits : Z := 0x17.

Lemma land_testbit_zero f m : 0 <= m -> Z.land f m = 0 <-> forall i, 0 <= i -> Z.testbit m i = true -> Z.testbit f i = false.
Proof.
  intros Hm. split.
  - intros E i Hi Ht. apply (f_equal (fun z => Z.testbit z i)) in E. rewrite Z.land_spec, Ht, andb_true_r, Z.bits_0 in E. done.
  - intros H. apply Z.bits_inj'. intros i Hi. rewrite Z.land_spec, Z.bits_0.
    destruct (Z.testbit m i) eqn:E; [by rewrite H|apply andb_false_r].
Qed.

Lemma testbit_below f n i : 0 <= f < 2 ^ n -> 0 <= n <= i -> Z.testbit f i = false.
Proof. intros Hf Hi. rewrite <- (Z.mod_small f (2 ^ n)) by done. by rewrite Z.mod_pow2_bits_high by lia. Qed.

Lemma supported_bit_list i : 0 <= i -> Z.testbit supported_bits i = true <-> i = 0 \/ i = 1 \/ i = 2 \/ i = 4.
Proof.
  intros Hi. destruct (Z.lt_ge_cases i 5).
  - assert (i = 0 \/ i = 1 \/ i = 2 \/ i = 3 \/ i = 4) as [->|[->|[->|[->| ->] ] ] ] by lia; cbn; intuition (try lia; done).
  - rewrite (testbit_below _ 5) by (unfold supported_bits; lia). intuition (try lia; done).
Qed.

(** The mask of unsupported flags, as a statement on bits. *)
Lemma unsupported_flags f : 0 <= f <= u32_max ->
  Z.land f (Z.lxor 0x17 u32_max) = 0 <->
  forall i, 0 <= i -> Z.testbit f i = true -> i = 0 \/ i = 1 \/ i = 2 \/ i = 4.
Proof.
  intros Hf. rewrite land_testbit_zero by (vm_compute; done). split.
  - intros H i Hi Ht. apply supported_bit_list; [done|]. destruct (Z.testbit supported_bits i) eqn:E; [done|].
    destruct (Z.lt_ge_cases i 32); [|by rewrite (testbit_below f 32) in Ht by (unfold u32_max in Hf; lia)].
    rewrite H in Ht; [done|done|]. rewrite Z.lxor_spec. fold supported_bits. rewrite E. unfold u32_max.
    change (2 ^ 32 - 1) with (Z.ones 32). by rewrite Z.ones_spec_low by lia.
  - intros H i Hi Hm. destruct (Z.testbit f i) eqn:Ht; [|done]. apply H in Ht; [|done].
    by destruct Ht as [->|[->|[->| ->] ] ].
Qed.

Lemma land_one_bit f n : 0 <= n -> (Z.land f (2 ^ n) =? 0) = negb (Z.testbit f n).
Proof. intros Hn. by rewrite <- land_pow2_testbit, negb_involutive. Qed.

Inductive precision := Soft | Single | Double.
Definition float_bits (p : precision) : Z := match p with Soft => 0 | Single => 2 | Double => 4 end.

Lemma float_flags_bits f p : Z.land f FLOAT_ABI_MASK = float_bits p <->
  (Z.testbit f 1 = true <-> p = Single) /\ (Z.testbit f 2 = true <-> p = Double).
Proof.
  assert (Z.land f FLOAT_ABI_MASK = Z.land (f mod 2 ^ 3) FLOAT_ABI_MASK) as ->
    by (rewrite <- Z.land_ones, <- Z.land_assoc by lia; reflexivity).
  rewrite <- (Z.mod_pow2_bits_low f 3 1), <- (Z.mod_pow2_bits_low f 3 2) by lia.
  pose proof (Z.mod_pos_bound f (2 ^ 3) ltac:(lia)) as Hr. remember (f mod 2 ^ 3) as r eqn:Er. clear f Er.
  assert (r = 0 \/ r = 1 \/ r = 2 \/ r = 3 \/ r = 4 \/ r = 5 \/ r = 6 \/ r = 7)
    as [->|[->|[->|[->|[->|[->|[->| ->] ] ] ] ] ] ] by lia; destruct p; cbn; naive_solver.
Qed.

(** ** What a contract says *)
Definition abi_name (class : Class) (p : precision) : list Z :=
  match class with Elf32 => rs "ilp32" | Elf64 => rs "lp64" end ++
  match p with Soft => [] | Single => rs "f" | Double => rs "d" end.

Lemma semantics_exact c class ff : semantics c = Ok (class, ff) <->
  exists p, abi c = abi_name class p /\ ff = float_bits p.
Proof.
  unfold semantics, eqb_list. split.
  - intros H. repeat case_bool_decide; simplify_eq; eexists;
    first [by instantiate (1 := Soft)|by instantiate (1 := Single)|by instantiate (1 := Double)].
  - intros (p & E & ->). destruct class, p; cbn in E; by rewrite E.
Qed.

Lemma semantics_not_Stuck c : semantics c <> Stuck.
Proof. unfold semantics. not_stuck. Qed.

(** A nonempty string of decimal digits. *)
Definition digits (s : list Z) : Prop := s <> [] /\ Forall (fun b => is_ascii_digit b = true) s.

(** The architecture string starts with the base, its version, and a token end. *)
Definition base_architecture (class : Class) (arch : list Z) : Prop :=
  exists major minor rest, arch = width_of class ++ rs "i" ++ major ++ rs "p" ++ minor ++ rest /\
    digits major /\ digits minor /\ (rest = [] \/ exists r, rest = 95 :: r).

Record contract_ok (c : TargetContract) (class : Class) (p : precision) : Prop :=
  { ck_schema : schema c = rs "aros-riscv-target-v1";
    ck_abi : abi c = abi_name class p;
    ck_isa : architecture_ok (isa c) = true;
    ck_arch : architecture_ok (c_architecture c) = true;
    ck_model : code_model c = rs "medlow" \/ code_model c = rs "medany";
    ck_atomic : atomic_abi c <= 3 /\ x3_reg_usage c <= 3;
    ck_base : base_architecture class (c_architecture c);
    ck_width : (exists r, isa c = width_of class ++ rs "i" ++ r) \/
      class = Elf64 /\ (exists r, isa c = rs "rva" ++ r) /\ (exists r, isa c = r ++ rs "u64");
    ck_single : p <> Soft -> has (c_architecture c) (rs "f") = true;
    ck_double : p = Double -> has (c_architecture c) (rs "d") = true }.

Lemma numeric_digits s : numeric s = true <-> digits s.
Proof.
  unfold numeric, digits. rewrite andb_true_iff, forallb_utf8.
  - destruct s; naive_solver.
  - intros b Hb%in_range_true. lia.
Qed.

Lemma versioned_spec v : versioned v = true <-> exists major minor, v = major ++ rs "p" ++ minor /\ digits major /\ digits minor.
Proof.
  assert (forall s, digits s -> Forall (fun x => (112 =? x) = false) s) as Hnop.
  { intros s [_ Hs]. eapply Forall_impl; [exact Hs|]. cbv beta. intros b Hb%in_range_true. apply Z.eqb_neq. lia. }
  unfold versioned. split.
  - destruct (split_on_spec (Z.eqb 112) v) as (w & ws & -> & Hw & [ [-> ->]|(x & l & -> & Hx & ->)]); [done|].
    destruct (split_on_spec (Z.eqb 112) l) as (w2 & ws2 & -> & Hw2 & [ [-> ->]|(y & l2 & -> & Hy & ->)]).
    + rewrite andb_true_iff, !numeric_digits. intros [H1 H2]. exists w, w2. apply Z.eqb_eq in Hx as <-. done.
    + by destruct (split_on_spec (Z.eqb 112) l2) as (w3 & ws3 & -> & _).
  - intros (major & minor & -> & H1 & H2). change (rs "p" ++ minor) with (112 :: minor).
    rewrite split_on_app, split_on_single by auto. by rewrite (proj2 (numeric_digits _) H1), (proj2 (numeric_digits _) H2).
Qed.

(** The checks of [validate] on the first token of the architecture string. *)
Lemma base_spec class arch :
  starts_with arch (width_of class) = true /\
  match (match tokens arch with token :: _ => strip_prefix (width_of class ++ rs "i") token | [] => None end) with
  | Some version => versioned version | None => false end = true <-> base_architecture class arch.
Proof.
  unfold base_architecture, tokens. split.
  - intros [_ H]. destruct (split_on_spec (Z.eqb 95) arch) as (w & ws & E & Hw & Hl). rewrite E in H.
    destruct (strip_prefix _ w) as [v|] eqn:Ep; [|done]. apply strip_prefix_Some in Ep as ->.
    apply versioned_spec in H as (major & minor & -> & H1 & H2).
    destruct Hl as [ [_ ->]|(x & l & -> & <-%Z.eqb_eq & _)].
    + exists major, minor, []. rewrite app_nil_r, <- app_assoc. naive_solver.
    + exists major, minor, (95 :: l). rewrite <- !app_assoc. naive_solver.
  - intros (major & minor & rest & -> & H1 & H2 & Hrest). split; [apply starts_with_true; by eexists|].
    assert (Forall (fun x => (95 =? x) = false) (width_of class ++ rs "i" ++ major ++ rs "p" ++ minor)) as Hno.
    { rewrite !Forall_app. split_and!; try (by destruct class; repeat constructor); try (by repeat constructor);
      [destruct H1 as [_ H1]; eapply Forall_impl; [exact H1|]|destruct H2 as [_ H2]; eapply Forall_impl; [exact H2|] ];
      cbv beta; intros b Hb%in_range_true; apply Z.eqb_neq; lia. }
    assert (exists ws, split_on (Z.eqb 95) (width_of class ++ rs "i" ++ major ++ rs "p" ++ minor ++ rest) =
      (width_of class ++ rs "i" ++ major ++ rs "p" ++ minor) :: ws) as [ws ->].
    { destruct Hrest as [->|[r ->] ].
      - rewrite app_nil_r, split_on_single by done. by eexists.
      - replace (width_of class ++ rs "i" ++ major ++ rs "p" ++ minor ++ 95 :: r) with
          ((width_of class ++ rs "i" ++ major ++ rs "p" ++ minor) ++ 95 :: r) by (by rewrite <- !app_assoc).
        rewrite split_on_app by done. by eexists. }
    rewrite (proj2 (strip_prefix_Some (width_of class ++ rs "i") _ (major ++ rs "p" ++ minor))) by (by rewrite <- app_assoc).
    apply versioned_spec. by exists major, minor.
Qed.

Lemma contract_validate_not_Stuck c : validate c <> Stuck.
Proof. unfold validate. not_stuck; [apply semantics_not_Stuck|]. cbn. not_stuck. Qed.

Lemma isa_width_spec class i :
  starts_with i (width_of class ++ rs "i") || (bool_decide (class = Elf64) && starts_with i (rs "rva") && ends_with i (rs "u64")) = true <->
  (exists r, i = width_of class ++ rs "i" ++ r) \/
  class = Elf64 /\ (exists r, i = rs "rva" ++ r) /\ (exists r, i = r ++ rs "u64").
Proof.
  rewrite orb_true_iff, !andb_true_iff, bool_decide_eq_true, !starts_with_true, ends_with_true.
  setoid_rewrite <- app_assoc. tauto.
Qed.

Lemma validate_exact c : validate c = Ok tt <-> exists class p, contract_ok c class p.
Proof.
  unfold validate, eqb_list. split.
  - intros H. apply bind_Ok in H as (? & Hs%ensure_Ok%bool_decide_eq_true & H).
    apply bind_Ok in H as ([class ff] & (p & Hp & ->)%semantics_exact & H). cbn [foldM] in H. cbv zeta in H. inv_ok.
    exists class, p. split; try done.
    + match goal with H : bool_decide _ || bool_decide _ = true |- _ => apply orb_true_iff in H end.
      rewrite !bool_decide_eq_true in *. done.
    + bool_prop. done.
    + by apply base_spec.
    + by apply isa_width_spec.
    + intros Hsoft. destruct p; [done|cbn in *; done|]. cbn in *. bool_prop. done.
    + intros ->. cbn in *. bool_prop. done.
  - intros (class & p & [Hs Ha Hi Har Hm Hat Hb Hw H1 H2]). apply base_spec in Hb as [Hb1 Hb2].
    guard_by ltac:(by apply bool_decide_eq_true). step_by ltac:(apply semantics_exact; eauto). cbn [foldM].
    rewrite Hi, Har. cbn [ensure mbind res_bind].
    guard_by ltac:(by rewrite orb_true_iff, !bool_decide_eq_true).
    guard_by ltac:(rewrite andb_true_iff, !Z.leb_le; done). guard_by ltac:(exact Hb1). guard_by ltac:(exact Hb2).
    guard_by ltac:(by apply isa_width_spec). destruct p; [done|by rewrite H1|by rewrite H1, H2].
Qed.

(** ** What a verified artifact satisfies *)
Record conforms (c : TargetContract) (bytes : list Z) (role : ArtifactRole) (class : Class) (p : precision)
  (o : Object) (a : Attributes) : Prop :=
  { cf_contract : contract_ok c class p;
    cf_object : Elf.read bytes = Ok o;
    cf_attributes : RiscvAttr.read bytes = Ok a;
    cf_machine : obj_machine o = MACHINE;
    cf_class : obj_class o = class;
    cf_kind : obj_kind o = match role with NativeCore => 2 | _ => 1 end;
    cf_flags : forall i, 0 <= i -> Z.testbit (obj_flags o) i = true ->
      i = 0 /\ (has (c_architecture c) (rs "c") = true \/ has (c_architecture c) (rs "zca") = true) \/
      i = 1 /\ p = Single \/ i = 2 /\ p = Double \/ i = 4 /\ has (c_architecture c) (rs "ztso") = true;
    cf_float : (p = Single -> Z.testbit (obj_flags o) 1 = true) /\ (p = Double -> Z.testbit (obj_flags o) 2 = true);
    cf_arch : architecture a = c_architecture c;
    cf_stack : forall v, values a !! 4 = Some v -> v = Integer 16;
    cf_integers : Forall (fun te => values a !! te.1 = Some (Integer te.2) \/ values a !! te.1 = None /\ te.2 = 0)
      [(6, Z.b2z (unaligned_access c)); (14, atomic_abi c); (16, x3_reg_usage c)];
    cf_marking : (os_abi o = OS_ABI_AROS /\ abi_version o = AROS_ABI_VERSION) \/
      (role <> ArosRelocatable /\ os_abi o = 0 /\ abi_version o = 0) }.

(** The flag guards of [verify] together. *)
Lemma flags_exact f p (cc zca ztso : bool) : 0 <= f <= u32_max ->
  (Z.land f FLOAT_ABI_MASK =? float_bits p) = true /\ (Z.land f (Z.lxor 0x17 u32_max) =? 0) = true /\
  (Z.land f 1 =? 0) || cc || zca = true /\ (Z.land f 0x10 =? 0) || ztso = true <->
  (forall i, 0 <= i -> Z.testbit f i = true -> i = 0 /\ (cc = true \/ zca = true) \/ i = 1 /\ p = Single \/
     i = 2 /\ p = Double \/ i = 4 /\ ztso = true) /\
  (p = Single -> Z.testbit f 1 = true) /\ (p = Double -> Z.testbit f 2 = true).
Proof.
  intros Hf. pose proof (land_one_bit f 0 ltac:(lia)) as E0. pose proof (land_one_bit f 4 ltac:(lia)) as E4.
  change (2 ^ 0) with 1 in E0. change (2 ^ 4) with 0x10 in E4. rewrite E0, E4. clear E0 E4.
  rewrite !Z.eqb_eq, float_flags_bits, unsupported_flags, !orb_true_iff, !negb_true_iff by done. split.
  - intros ((H1 & H2) & Hsup & H0 & H4). split; [|naive_solver]. intros i Hi Ht.
    destruct (Hsup i Hi Ht) as [->|[->|[->| ->] ] ]; rewrite Ht in *; naive_solver.
  - intros (Hall & Hs & Hd). split; [split; split; [|done|..]|split; [|split] ]; try done.
    + intros Ht. destruct (Hall 1 ltac:(lia) Ht) as [ [? _]|[ [_ ?]|[ [? _]|[? _] ] ] ]; done.
    + intros Ht. destruct (Hall 2 ltac:(lia) Ht) as [ [? _]|[ [? _]|[ [_ ?]|[? _] ] ] ]; done.
    + intros i Hi Ht. destruct (Hall i Hi Ht) as [ [? _]|[ [? _]|[ [? _]|[? _] ] ] ]; auto.
    + destruct (Z.testbit f 0) eqn:Ht; [|by left; left]. destruct (Hall 0 ltac:(lia) Ht) as [ [_ [?|?] ]|[ [? _]|[ [? _]|[? _] ] ] ]; auto; done.
    + destruct (Z.testbit f 4) eqn:Ht; [|by left]. destruct (Hall 4 ltac:(lia) Ht) as [ [? _]|[ [? _]|[ [? _]|[_ ?] ] ] ]; auto; done.
Qed.

Lemma attribute_check a tag expected : (actual ← attribute_value a tag; ensure (actual =? expected) AttributeMismatch) = Ok tt <->
  values a !! tag = Some (Integer expected) \/ values a !! tag = None /\ expected = 0.
Proof.
  unfold attribute_value. destruct (values a !! tag) as [ [v|s]|]; cbn [mbind res_bind].
  - rewrite ensure_Ok, Z.eqb_eq. split; [by intros ->; left|]. by intros [ [=]|[ [=] _] ].
  - split; [done|]. by intros [ [=]|[ [=] _] ].
  - rewrite ensure_Ok, Z.eqb_eq. split; [by intros <-; right|]. by intros [ [=]|[_ ->] ].
Qed.

Lemma attribute_checks a l : foldM (fun _ '(tag, expected) =>
    actual ← attribute_value a tag; ensure (actual =? expected) AttributeMismatch) tt l = Ok tt <->
  Forall (fun te => values a !! te.1 = Some (Integer te.2) \/ values a !! te.1 = None /\ te.2 = 0) l.
Proof.
  induction l as [|[tag expected] l IH]; cbn [foldM]; [done|]. rewrite Forall_cons, <- IH, <- attribute_check. cbn [fst snd].
  rewrite bind_Ok. split; [by intros ([] & H1 & H2)|]. intros [H1 H2]. by exists tt.
Qed.

Lemma verify_not_Stuck c bytes role : Forall is_u8 bytes -> len bytes <= isize_max -> verify c bytes role <> Stuck.
Proof.
  intros Hu Hl. unfold verify. not_stuck_step; [apply contract_validate_not_Stuck|].
  not_stuck_step; [by apply map_err_not_Stuck, Elf.read_not_Stuck|]. not_stuck_step; [apply semantics_not_Stuck|].
  destruct a1 as [class ff]. do 5 (not_stuck_step; [not_stuck|]).
  not_stuck_step; [by apply map_err_not_Stuck, riscv_read_not_Stuck|]. do 2 (not_stuck_step; [not_stuck|]).
  not_stuck_step; [|not_stuck]. apply (foldM_not_Stuck _ (fun _ => True)); [done| |done].
  intros s [tag expected] _ _. unfold attribute_value. not_stuck.
Qed.

Lemma kind_check k role :
  (if bool_decide (role = NativeCore) then ensure (k =? 2) NotExecutable else ensure (k =? 1) NotRelocatable) = Ok tt <->
  k = match role with NativeCore => 2 | _ => 1 end.
Proof. case_bool_decide as E; rewrite ensure_Ok, Z.eqb_eq; by destruct role. Qed.

Lemma marking_check abi ver role :
  (if bool_decide (role = ArosRelocatable) then ensure ((abi =? OS_ABI_AROS) && (ver =? AROS_ABI_VERSION)) MissingMarking
   else ensure (((abi =? 0) && (ver =? 0)) || ((abi =? OS_ABI_AROS) && (ver =? AROS_ABI_VERSION))) UnitMarking) = Ok tt <->
  (abi = OS_ABI_AROS /\ ver = AROS_ABI_VERSION) \/ (role <> ArosRelocatable /\ abi = 0 /\ ver = 0).
Proof.
  case_bool_decide as E; rewrite ensure_Ok, ?orb_true_iff, !andb_true_iff, !Z.eqb_eq; tauto.
Qed.

Lemma stack_check (o : option Value) :
  match o with None => true | Some value => bool_decide (value = Integer 16) end = true <->
  forall v, o = Some v -> v = Integer 16.
Proof. destruct o as [v|]; [|naive_solver]. rewrite bool_decide_eq_true. naive_solver. Qed.

(** C33. Verification against a RISC-V contract is exact and never panics: it
    succeeds iff the contract is well formed and the file is an ELF file of the
    contract's class and of the role's kind, with only the RVC, float ABI and
    TSO flags, each of them justified by the contract, with the contract's
    architecture, stack, alignment, atomic and x3 attributes, and with the AROS
    marking (or none, for files that are not AROS modules). *)
Theorem riscv_contract_exact c bytes role : Forall is_u8 bytes -> len bytes <= isize_max ->
  verify c bytes role <> Stuck /\
  (verify c bytes role = Ok tt <-> exists class p o a, conforms c bytes role class p o a).
Proof.
  intros Hu Hl. split; [by apply verify_not_Stuck|]. unfold verify, eqb_list. split.
  - intros H. apply bind_Ok in H as ([] & (class & p & Hc)%validate_exact & H).
    apply bind_Ok in H as (o & Ho%map_err_Ok & H). pose proof (read_flags bytes o Hu Ho) as Hf.
    rewrite (proj2 (semantics_exact c class (float_bits p))) in H by (eexists; split; [apply Hc|done]).
    cbn [mbind res_bind] in H.
    do 2 (apply bind_Ok in H as (? & ?%ensure_Ok & H)). apply bind_Ok in H as ([] & Hk%kind_check & H).
    do 2 (apply bind_Ok in H as (? & ?%ensure_Ok & H)). apply bind_Ok in H as (a & Ha%map_err_Ok & H).
    do 2 (apply bind_Ok in H as (? & ?%ensure_Ok & H)). apply bind_Ok in H as ([] & Hints%attribute_checks & H).
    do 2 (apply bind_Ok in H as (? & ?%ensure_Ok & H)). apply marking_check in H. rewrite Z.eqb_eq, bool_decide_eq_true in *.
    assert (Hflags := proj1 (flags_exact (obj_flags o) p (has (c_architecture c) (rs "c"))
      (has (c_architecture c) (rs "zca")) (has (c_architecture c) (rs "ztso")) Hf)).
    exists class, p, o, a. split; try done; first [by apply stack_check|apply Hflags; rewrite ?Z.eqb_eq; done].
  - intros (class & p & o & a & [Hc Ho Ha Hm Hcl Hk Hfl Hft Har Hst Hin Hmk]). pose proof (read_flags bytes o Hu Ho) as Hf.
    destruct (proj2 (flags_exact (obj_flags o) p _ _ _ Hf) (conj Hfl Hft)) as (F1 & F2 & F3 & F4).
    step_by ltac:(apply validate_exact; eauto). step_by ltac:(by apply map_err_Ok).
    step_by ltac:(apply semantics_exact; exists p; split; [apply Hc|reflexivity]). cbv beta iota.
    guard_by ltac:(by apply Z.eqb_eq). guard_by ltac:(by apply bool_decide_eq_true). step_by ltac:(by apply kind_check).
    guard_by ltac:(exact F1). guard_by ltac:(exact F2). step_by ltac:(apply map_err_Ok; exact Ha).
    guard_by ltac:(by apply bool_decide_eq_true). guard_by ltac:(by apply stack_check).
    step_by ltac:(by apply attribute_checks). guard_by ltac:(exact F3). guard_by ltac:(exact F4). by apply marking_check.
Qed.

(** A 32-bit soft-float module: a null section, names and the attributes. *)
Definition example_contract : TargetContract :=
  mkContract (rs "aros-riscv-target-v1") (rs "rv32i") (rs "ilp32") (rs "medany") (rs "rv32i2p1") false 0 0.
Definition example_strings : list Z := [0] ++ rs ".riscv.attributes" ++ [0].
Definition example_attribute_bytes : list Z := 65 :: encode_block example_payload.
Definition example_module : Layout :=
  mkLayout (mkHeader Elf32 1 243 0 15 1 100 40 3 1) (mkOther (fill 7 0) 0 0 0 0)
    (example_strings ++ example_attribute_bytes)
    [mkPlaced 0 (mkRaw 0 0 0 0 0 0 0 0 0 0) [];
     mkPlaced 0 (mkRaw 1 0 SHT_STRTAB 0 0 52 19 1 0 0) [];
     mkPlaced 0 (mkRaw 2 1 SHT_ATTRIBUTES 0 0 71 29 1 0 0) (rs ".riscv.attributes")]
    [] example_strings [] [].

Lemma riscv_contract_exact_witness :
  exists class p o a, conforms example_contract (layout_bytes example_module) ArosRelocatable class p o a.
Proof.
  apply (riscv_contract_exact example_contract (layout_bytes example_module) ArosRelocatable);
    [by apply forallb_u8; vm_compute|by vm_compute|vm_compute; reflexivity].
Defined.
