(* ===== verification/Ordered.v ===== *)
(** * Ordered: [BTreeMap] as a sorted association list

    A [BTreeMap<K, V>] iterates its entries in key order; the model keeps them
    in that order.  The key order is a class, with strings ordered by their
    characters (the order of their UTF-8 bytes). *)

From S2P Require Import Prelude Text.

Class StrictOrd {K : Type} (ltb : K -> K -> bool) : Prop :=
  { ltb_irrefl : forall a, ltb a a = false;
    ltb_trans : forall a b c, ltb a b = true -> ltb b c = true -> ltb a c = true;
    ltb_total : forall a b, ltb a b = false -> ltb b a = false -> a = b }.

Fixpoint str_ltb (a b : list Z) : bool :=
  match a, b with
  | _, [] => false
  | [], _ :: _ => true
  | x :: a, y :: b => (x <? y) || ((x =? y) && str_ltb a b)
  end.

#[global] Instance str_order : StrictOrd str_ltb.
Proof.
  split.
  - induction a as [|x a IH]; cbn; [done|]. by rewrite Z.ltb_irrefl, IH, andb_false_r.
  - induction a as [|x a IH]; intros [|y b] [|z c]; cbn; try done.
    rewrite !orb_true_iff, !andb_true_iff, !Z.ltb_lt, !Z.eqb_eq.
    intros [?|[-> H1] ] [?|[-> H2] ]; [left; lia..|]. right. split; [done|]. by eapply IH.
  - induction a as [|x a IH]; intros [|y b]; cbn; try done.
    rewrite !orb_false_iff, !andb_false_iff, !Z.ltb_ge, !Z.eqb_neq. intros [? H1] [? H2].
    assert (x = y) as -> by lia. f_equal. apply IH; naive_solver.
Qed.

(** A list in strict order is determined by its elements. *)
Lemma strictly_sorted_eq {A} (R : A -> A -> Prop) l l' : (forall a b, R a b -> R b a -> False) ->
  ForallOrdPairs R l -> ForallOrdPairs R l' -> (forall x, x ∈ l <-> x ∈ l') -> l = l'.
Proof.
  intros Hanti Hl. revert l'. induction Hl as [|k l Hx Hl IH]; intros l' Hl' E.
  - destruct l' as [|k' l']; [done|]. specialize (E k'). rewrite elem_of_cons, elem_of_nil in E. naive_solver.
  - rewrite Forall_forall in Hx. destruct Hl' as [|k' l' Hx' Hl'].
    { specialize (E k). rewrite elem_of_cons, elem_of_nil in E. naive_solver. }
    rewrite Forall_forall in Hx'. assert (k = k') as <-.
    { pose proof (proj1 (E k)) as E1. pose proof (proj2 (E k')) as E2. rewrite !elem_of_cons in E1, E2.
      destruct E1 as [|E1]; [by left|done|]. destruct E2 as [|E2]; [by left|done|]. exfalso. eauto. }
    f_equal. apply IH; [done|]. intros x. specialize (E x). rewrite !elem_of_cons in E.
    split; intros Hin; [destruct (proj1 E (or_intror Hin)) as [->|]|destruct (proj2 E (or_intror Hin)) as [->|] ];
      try done; exfalso; eauto.
Qed.

Section bmap.
Context {K V : Type} (ltb : K -> K -> bool) `{StrictOrd K ltb} `{EqDecision K}.

Definition key_lt (x y : K * V) : Prop := ltb x.1 y.1 = true.
Definition sorted_keys (m : list (K * V)) : Prop := ForallOrdPairs key_lt m.

Fixpoint bt_get (k : K) (m : list (K * V)) : option V :=
  match m with
  | [] => None
  | (k', v) :: m => if bool_decide (k = k') then Some v else bt_get k m
  end.

(** [insert], replacing the value of a key that is present. *)
Fixpoint bt_put (k : K) (v : V) (m : list (K * V)) : list (K * V) :=
  match m with
  | [] => [(k, v)]
  | (k', v') :: m' =>
    if bool_decide (k = k') then (k, v) :: m'
    else if ltb k k' then (k, v) :: m
    else (k', v') :: bt_put k v m'
  end.

Lemma bt_get_put k v m k' : bt_get k' (bt_put k v m) = if bool_decide (k' = k) then Some v else bt_get k' m.
Proof.
  induction m as [|[k0 v0] m IH]; cbn; [done|]. repeat case_bool_decide; subst; cbn; try done;
  repeat (case_bool_decide || case_match); simplify_eq; cbn; repeat (case_bool_decide; simplify_eq); try done;
  rewrite IH; repeat case_bool_decide; done.
Qed.

Lemma bt_put_put k v w m : bt_put k v (bt_put k w m) = bt_put k v m.
Proof.
  induction m as [|[k' v'] m IH]; cbn; [by rewrite bool_decide_eq_true_2|].
  case_bool_decide as Ek; cbn; [by rewrite bool_decide_eq_true_2|].
  destruct (ltb k k') eqn:E; cbn; [by rewrite bool_decide_eq_true_2|].
  by rewrite bool_decide_eq_false_2, E, IH.
Qed.

Lemma bt_put_same k v m : sorted_keys m -> bt_get k m = Some v -> bt_put k v m = m.
Proof.
  induction 1 as [|[k' v'] m Hx Hm IH]; [done|]. cbn. case_bool_decide as E; [by intros [= ->]; subst|].
  intros Hg. destruct (ltb k k') eqn:El; [|by rewrite IH]. exfalso.
  assert (ltb k' k = true) as Hk.
  { rewrite Forall_forall in Hx. clear -Hx Hg. induction m as [|[k2 v2] m IHm]; [done|]. cbn in Hg. case_bool_decide as E2.
    - subst k2. apply (Hx (k, v2)). by left.
    - apply IHm; [|done]. intros x Hin. apply Hx. by right. }
  pose proof (ltb_trans _ _ _ El Hk) as Hbad. by rewrite ltb_irrefl in Hbad.
Qed.

Lemma bt_put_elem k v m x : x ∈ bt_put k v m -> x = (k, v) \/ x ∈ m.
Proof.
  induction m as [|[k0 v0] m IH]; cbn; [rewrite elem_of_cons; naive_solver|].
  case_bool_decide; [rewrite !elem_of_cons; naive_solver|]. case_match; rewrite !elem_of_cons in *; naive_solver.
Qed.

Lemma bt_put_sorted k v m : sorted_keys m -> sorted_keys (bt_put k v m).
Proof.
  unfold sorted_keys. induction 1 as [|[k0 v0] m Hx Hm IH]; cbn; [repeat constructor|].
  case_bool_decide as E; [subst; by constructor|]. destruct (ltb k k0) eqn:Elt.
  - constructor; [|by constructor]. constructor; [done|]. eapply Forall_impl; [exact Hx|]. intros y Hy.
    unfold key_lt in *. cbn in *. by eapply ltb_trans.
  - constructor; [|done]. apply Forall_forall. intros y [->|Hy]%bt_put_elem; [|by rewrite Forall_forall in Hx; apply Hx].
    unfold key_lt. cbn. destruct (ltb k0 k) eqn:E0; [done|]. by destruct E; apply ltb_total.
Qed.

Lemma bt_get_elem k v m : sorted_keys m -> bt_get k m = Some v <-> (k, v) ∈ m.
Proof.
  unfold sorted_keys. induction 1 as [|[k0 v0] m Hx Hm IH]; cbn; [rewrite elem_of_nil; naive_solver|].
  rewrite elem_of_cons. case_bool_decide as E; [subst|naive_solver]. split; [naive_solver|].
  intros [ [= <-]|Hin]; [done|]. rewrite Forall_forall in Hx. specialize (Hx _ Hin). unfold key_lt in Hx. cbn in Hx.
  by rewrite ltb_irrefl in Hx.
Qed.

(** A map is determined by its lookups. *)
Lemma sorted_keys_eq m m' : sorted_keys m -> sorted_keys m' -> (forall k, bt_get k m = bt_get k m') -> m = m'.
Proof.
  intros Hm Hm' E. apply (strictly_sorted_eq key_lt); [|done..|].
  - intros a b H1 H2. pose proof (ltb_trans _ _ _ H1 H2) as H3. by rewrite ltb_irrefl in H3.
  - intros [k v]. by rewrite <- !bt_get_elem, E.
Qed.

Lemma sorted_keys_NoDup m : sorted_keys m -> NoDup m.*1.
Proof.
  unfold sorted_keys. induction 1 as [|[k0 v0] m Hx Hm IH]; cbn; constructor; [|done].
  rewrite list_elem_of_fmap. intros ([k v] & -> & Hin). rewrite Forall_forall in Hx. specialize (Hx _ Hin).
  unfold key_lt in Hx. cbn in Hx. by rewrite ltb_irrefl in Hx.
Qed.
End bmap.

(** ** [BTreeSet] as a sorted list *)
Section bset.
Context {K : Type} (ltb : K -> K -> bool) `{StrictOrd K ltb} `{EqDecision K}.

Definition sorted_set (s : list K) : Prop := ForallOrdPairs (fun a b => ltb a b = true) s.

Fixpoint bs_put (k : K) (s : list K) : list K :=
  match s with
  | [] => [k]
  | k' :: s' => if bool_decide (k = k') then s else if ltb k k' then k :: s else k' :: bs_put k s'
  end.
Definition bs_has (k : K) (s : list K) : bool := existsb (fun k' => bool_decide (k = k')) s.

Lemma elem_of_bs_put k s x : x ∈ bs_put k s <-> x = k \/ x ∈ s.
Proof.
  induction s as [|k' s IH]; cbn; [set_solver|]. case_bool_decide; [subst; set_solver|].
  case_match; rewrite !elem_of_cons; [done|]. rewrite IH. naive_solver.
Qed.

Lemma bs_has_true k s : bs_has k s = true <-> k ∈ s.
Proof.
  unfold bs_has. rewrite existsb_exists. split.
  - intros (x & Hx & ->%bool_decide_eq_true). by apply list_elem_of_In.
  - intros Hk. exists k. split; [by apply list_elem_of_In|by apply bool_decide_eq_true].
Qed.

Lemma bs_put_sorted k s : sorted_set s -> sorted_set (bs_put k s).
Proof.
  unfold sorted_set. induction 1 as [|k' s Hx Hs IH]; cbn; [repeat constructor|].
  case_bool_decide as E; [subst; by constructor|]. destruct (ltb k k') eqn:Elt.
  - constructor; [|by constructor]. constructor; [done|]. eapply Forall_impl; [exact Hx|].
    intros y Hy. by eapply ltb_trans.
  - constructor; [|done]. apply Forall_forall. intros y [->|Hy]%elem_of_bs_put; [|by rewrite Forall_forall in Hx; apply Hx].
    destruct (ltb k' k) eqn:E0; [done|]. by destruct E; apply ltb_total.
Qed.

(** A set is determined by its members. *)
Lemma sorted_set_eq s s' : sorted_set s -> sorted_set s' -> (forall x, x ∈ s <-> x ∈ s') -> s = s'.
Proof.
  apply strictly_sorted_eq. intros a b H1 H2. pose proof (ltb_trans _ _ _ H1 H2) as H3. by rewrite ltb_irrefl in H3.
Qed.
End bset.

(** ** A stable sort by an ordered key *)
Section sort_by.
Context {A K : Type} (ltb : K -> K -> bool) `{StrictOrd K ltb} (key : A -> K).

Fixpoint insert_by (x : A) (l : list A) : list A :=
  match l with
  | [] => [x]
  | y :: l' => if ltb (key y) (key x) then y :: insert_by x l' else x :: l
  end.
Definition sort_by (l : list A) : list A := foldr insert_by [] l.

(** What is in strict order stays as it is. *)
Lemma sort_by_sorted l : ForallOrdPairs (fun x y => ltb (key x) (key y) = true) l -> sort_by l = l.
Proof.
  induction 1 as [|x l Hx Hl IH]; [done|]. change (sort_by (x :: l)) with (insert_by x (sort_by l)). rewrite IH. destruct Hx as [|y l Hy _]; [done|]. cbn.
  destruct (ltb (key y) (key x)) eqn:E; [|done]. pose proof (ltb_trans _ _ _ Hy E) as Hc. by rewrite ltb_irrefl in Hc.
Qed.

Lemma insert_by_perm x l : insert_by x l ≡ₚ x :: l.
Proof.
  induction l as [|y l IH]; cbn; [done|]. case_match; [|done]. rewrite IH. apply Permutation_swap.
Qed.
Lemma sort_by_perm l : sort_by l ≡ₚ l.
Proof. induction l as [|x l IH]; [done|]. cbn. fold (sort_by l). by rewrite insert_by_perm, IH. Qed.

(** With distinct keys the result is in strict order. *)
Lemma sort_by_strict l : NoDup (map key l) -> ForallOrdPairs (fun x y => ltb (key x) (key y) = true) (sort_by l).
Proof.
  assert (forall x l, ForallOrdPairs (fun x y => ltb (key x) (key y) = true) l -> Forall (fun y => key y <> key x) l ->
    ForallOrdPairs (fun x y => ltb (key x) (key y) = true) (insert_by x l)) as Hins.
  { clear l. intros x l Hl. induction Hl as [|y l Hy Hl IH]; intros Hne; cbn; [repeat constructor|].
    apply Forall_cons in Hne as [Hyx Hne]. destruct (ltb (key y) (key x)) eqn:E.
    - constructor; [|by apply IH]. rewrite insert_by_perm. by constructor.
    - assert (ltb (key x) (key y) = true) as Hxy.
      { destruct (ltb (key x) (key y)) eqn:E'; [done|]. exfalso. apply Hyx. by apply ltb_total. }
      constructor; [|by constructor]. constructor; [done|]. eapply Forall_impl; [exact Hy|]. cbn. eauto using ltb_trans. }
  induction l as [|x l IH]; cbn; [constructor|]. intros [Hx Hnd]%NoDup_cons. apply Hins; [by apply IH|].
  fold (sort_by l). rewrite sort_by_perm. apply Forall_forall. intros y Hy E. apply Hx. rewrite <- E. by apply list_elem_of_fmap_2.
Qed.
End sort_by.

(** A list with distinct keys is sorted to the one list in strict order that has
    its elements. *)
Lemma sort_by_unique {A} (key : A -> list Z) l l' : NoDup (map key l) ->
  ForallOrdPairs (fun x y => str_ltb (key x) (key y) = true) l' -> (forall x, x ∈ l <-> x ∈ l') ->
  sort_by str_ltb key l = l'.
Proof.
  intros Hnd Hs Heq. apply (strictly_sorted_eq (fun x y => str_ltb (key x) (key y) = true)).
  - intros a b H1 H2. pose proof (ltb_trans _ _ _ H1 H2) as H3. by rewrite ltb_irrefl in H3.
  - by apply sort_by_strict; [apply _|].
  - done.
  - intros x. by rewrite (sort_by_perm str_ltb key l).
Qed.

(** [words.sort()] and [words.dedup()] on a list of strings. *)
Definition sort_words (words : list (list Z)) : list (list Z) := sort_by str_ltb id words.
Fixpoint dedup_adjacent (words : list (list Z)) : list (list Z) :=
  match words with
  | a :: ((b :: _) as rest) => if eqb_list a b then dedup_adjacent rest else a :: dedup_adjacent rest
  | _ => words
  end.

