(* ===== verification/SymbolSets.v ===== *)
(** * SymbolSets: symbol sets and their linker script

    Models [crates/aros-collect/src/sets.rs]: which sections of an object are
    entries of a symbol set, the sets they form, and the script that lays the
    sets out for the second link. *)

From S2P Require Import Prelude Text Elf Ordered.

Definition PREFIXES : list (list Z * Z) :=
  [(rs ".aros.set.", 10); (rs ".ctors", 1); (rs ".dtors", 1); (rs ".init_array", 1); (rs ".fini_array", 1)].

Record SymbolSet := mkSet
  { set_name : list Z; set_section : list Z; priorities : list Z; bare : bool; aros_set : bool }.
Record Parsed := mkParsed
  { p_name : list Z; p_section : list Z; p_priority : option Z; p_aros_set : bool }.

(** The reports; each carries what its message prints. *)
Inductive Skip :=
| NotPriority (section suffix : list Z)
| NoName (section : list Z)
| Unusable (section name : list Z)
| TwoSections (section name owner : list Z).

Definition symbol_byte (b : Z) : bool := is_ascii_alphanumeric b || (b =? 95).

(** [section[*offset..]] and [section[..*offset + name.len()]] cut behind an
    ASCII prefix, so character positions are byte positions. *)
Definition parse (section : list Z) : option (res Skip Parsed) :=
  '(prefix, offset) ← head (filter (fun x => starts_with section x.1 = true) PREFIXES);
  let aros := eqb_list prefix (rs ".aros.set.") in
  let rest := drop (Z.to_nat offset) section in
  Some (
    '(name, priority, base) ←
      match split_once 46 rest with
      | Some (name, suffix) =>
        match parse_i64 suffix with
        | Some priority => Ok (name, Some priority, take (Z.to_nat offset + length name) section)
        | None => Err (NotPriority section suffix)
        end
      | None => Ok (rest, None, section)
      end;
    _ ← refuse (match name with [] => true | _ => false end) (NoName section);
    _ ← refuse (negb (forallb symbol_byte (utf8 name))) (Unusable section name);
    Ok (mkParsed (to_ascii_uppercase name) base priority aros)).

(** One round of [discover]. *)
Definition discover_state : Type := list (list Z * SymbolSet) * list Skip.
Definition discover_step (st : discover_state) (section : list Z) : discover_state :=
  let '(found, skipped) := st in
  match parse section with
  | None => (found, skipped)
  | Some (Err reason) => (found, skipped ++ [reason])
  | Some (Ok parsed) =>
    let base := p_section parsed in
    let entry := match bt_get (p_name parsed) found with
                 | Some entry => entry
                 | None => mkSet (p_name parsed) base [] false (p_aros_set parsed)
                 end in
    let found := bt_put str_ltb (p_name parsed) entry found in
    if negb (eqb_list (set_section entry) base)
    then (found, skipped ++ [TwoSections section (set_name entry) (set_section entry)])
    else
      let entry := match p_priority parsed with
                   | Some priority =>
                     mkSet (set_name entry) (set_section entry)
                       (if bool_decide (priority ∈ priorities entry) then priorities entry
                        else priorities entry ++ [priority])
                       (bare entry) (aros_set entry)
                   | None => mkSet (set_name entry) (set_section entry) (priorities entry) true (aros_set entry)
                   end in
      (bt_put str_ltb (p_name parsed) entry found, skipped)
  | Some Stuck => (found, skipped)
  end.

Definition sort_priorities (s : SymbolSet) : SymbolSet :=
  mkSet (set_name s) (set_section s) (sort_by_key id (priorities s)) (bare s) (aros_set s).
Definition discover (sections : list (list Z)) : list SymbolSet * list Skip :=
  let '(found, skipped) := foldl discover_step ([], []) sections in
  let sets := map sort_priorities found.*2 in
  (sort_by str_ltb set_name sets, skipped).

(** ** The script *)
Definition writeln (out line : list Z) : list Z := out ++ line ++ [10].

Definition script_set (word width out : list Z) (s : SymbolSet) : list Z :=
  let name := set_name s in
  let out := writeln out (rs "    . = ALIGN(" ++ width ++ rs ");") in
  let out := writeln out (rs "    __" ++ name ++ rs "_LIST__ = .;") in
  let out := writeln out (rs "    " ++ word ++ rs "((__" ++ name ++ rs "_END__ - __" ++ name
                          ++ rs "_LIST__) / " ++ width ++ rs " - 2)") in
  let out := foldl (fun out priority =>
               writeln out (rs "    KEEP(*(" ++ set_section s ++ rs "." ++ show_dec priority ++ rs "))"))
               out (priorities s) in
  let out := writeln out (rs "    KEEP(*(" ++ set_section s ++ rs "))") in
  let out := writeln out (rs "    " ++ word ++ rs "(0)") in
  writeln out (rs "    __" ++ name ++ rs "_END__ = .;").

(** The two fixed parts, line by line. *)
Definition unlines (ls : list (list Z)) : list Z := foldl writeln [] ls.
Definition script_head : list (list Z) :=
  [rs "SECTIONS"; rs "{"; rs "  .text : {"; rs "    KEEP(*(.aros.startup))"; rs "    *(.text)";
   rs "    *(.text.*)"; rs "  }"; rs "  .aros.sets : {"].
Definition script_tail : list (list Z) :=
  [rs "  }"; rs "  .eh_frame : {"; rs "    PROVIDE(__eh_frame_start = .);"; rs "    KEEP(*(.eh_frame))";
   rs "    PROVIDE(__eh_frame_end = .);"; rs "  }"; rs "}"].

Definition script (sets : list SymbolSet) (class : Class) (libreq : list Z) : list Z :=
  let word := pointer_directive class in
  let width := show_dec (pointer_bytes class) in
  let out := foldl (fun out s =>
               writeln out (rs "EXTERN(__" ++ set_name s ++ rs "__symbol_set_handler_missing)"))
               [] (filter (fun s => aros_set s = true) sets) in
  let out := out ++ unlines script_head in
  let out := foldl (script_set word width) out sets in
  let out := out ++ libreq in
  out ++ unlines script_tail.

(** ** Reference definition: sections grouped by the set they name *)
Definition parsed_of (section : list Z) : option Parsed :=
  match parse section with Some (Ok p) => Some p | _ => None end.
Definition entries_of (l : list (list Z)) (n : list Z) : list Parsed :=
  filter (fun p => p_name p = n) (omap parsed_of l).

(** The distinct elements, in order of first occurrence. *)
Definition add_new (acc : list Z) (x : Z) : list Z := if bool_decide (x ∈ acc) then acc else acc ++ [x].
Definition distinct (l : list Z) : list Z := foldl add_new [] l.

(** The set named [n]: the first entry decides its section; the entries with
    that section give its priorities. *)
Definition group (n : list Z) (ps : list Parsed) : option SymbolSet :=
  match ps with
  | [] => None
  | p0 :: _ =>
    let mine := filter (fun p => p_section p = p_section p0) ps in
    Some (mkSet n (p_section p0) (distinct (omap p_priority mine))
            (existsb (fun p => bool_decide (p_priority p = None)) mine) (p_aros_set p0))
  end.
Definition spec_set (l : list (list Z)) (n : list Z) : option SymbolSet := group n (entries_of l n).

(** Why a section is reported, given all sections. *)
Definition skip_reason (all : list (list Z)) (section : list Z) : option Skip :=
  match parse section with
  | Some (Err r) => Some r
  | Some (Ok p) =>
    match spec_set all (p_name p) with
    | Some e => if eqb_list (set_section e) (p_section p) then None
                else Some (TwoSections section (set_name e) (set_section e))
    | None => None
    end
  | _ => None
  end.

Lemma parse_not_Stuck section : parse section <> Some Stuck.
Proof.
  unfold parse. destruct (head _) as [ [prefix offset]|]; cbn; [|done]. intros [= H]. revert H.
  enough (forall r : res Skip (list Z * option Z * list Z), r <> Stuck ->
    ('(name, priority, base) ← r; _ ← refuse (match name with [] => true | _ => false end) (NoName section);
     _ ← refuse (negb (forallb symbol_byte (utf8 name))) (Unusable section name);
     Ok (mkParsed (to_ascii_uppercase name) base priority (eqb_list prefix (rs ".aros.set.")))) <> Stuck) as Hr.
  { apply Hr. repeat case_match; done. }
  intros r Hr. not_stuck.
Qed.

Lemma entries_snoc l s n : entries_of (l ++ [s]) n =
  entries_of l n ++ match parsed_of s with Some p => if bool_decide (p_name p = n) then [p] else [] | None => [] end.
Proof.
  unfold entries_of. rewrite omap_app, filter_app. f_equal. cbn. destruct (parsed_of s) as [p|]; [|done]. cbn.
  by rewrite decide_bool_decide; case_bool_decide.
Qed.

(** Adding an entry to a group. *)
Definition extend (e : SymbolSet) (p : Parsed) : SymbolSet :=
  if eqb_list (set_section e) (p_section p) then
    match p_priority p with
    | Some priority => mkSet (set_name e) (set_section e) (add_new (priorities e) priority) (bare e) (aros_set e)
    | None => mkSet (set_name e) (set_section e) (priorities e) true (aros_set e)
    end
  else e.
Definition fresh (p : Parsed) : SymbolSet := mkSet (p_name p) (p_section p) [] false (p_aros_set p).

Lemma group_snoc n ps p : p_name p = n ->
  group n (ps ++ [p]) = Some (extend (default (fresh p) (group n ps)) p).
Proof.
  intros <-. destruct ps as [|p0 ps].
  - cbn. unfold extend, fresh. cbn. rewrite decide_True by done. cbn.
    assert (eqb_list (p_section p) (p_section p) = true) as -> by (by apply eqb_list_true). by destruct (p_priority p).
  - cbn [app group default]. unfold id. change (p0 :: ps ++ [p]) with ((p0 :: ps) ++ [p]).
    rewrite filter_app. set (mine := filter _ (p0 :: ps)). unfold extend. cbn [set_section set_name bare aros_set priorities].
    unfold eqb_list. case_bool_decide as E; cbn [filter list_filter].
    + rewrite decide_True by done. rewrite omap_app, existsb_app. unfold distinct. rewrite foldl_app. cbn.
      destruct (p_priority p) as [pr|]; cbn; [by rewrite orb_false_r|by rewrite orb_true_r].
    + rewrite decide_False by done. by rewrite app_nil_r.
Qed.

Lemma spec_set_snoc l s n : spec_set (l ++ [s]) n =
  match parsed_of s with
  | Some p => if bool_decide (p_name p = n) then Some (extend (default (fresh p) (spec_set l n)) p) else spec_set l n
  | None => spec_set l n
  end.
Proof.
  unfold spec_set. rewrite entries_snoc. destruct (parsed_of s) as [p|]; [|by rewrite app_nil_r].
  case_bool_decide; [by apply group_snoc|by rewrite app_nil_r].
Qed.

Lemma spec_set_name l n e : spec_set l n = Some e -> set_name e = n.
Proof. unfold spec_set, group. destruct (entries_of l n); [done|]. by intros [= <-]. Qed.

Lemma spec_set_present l s p : s ∈ l -> parsed_of s = Some p -> is_Some (spec_set l (p_name p)).
Proof.
  intros Hs Hp. unfold spec_set. destruct (entries_of l (p_name p)) as [|p0 ps] eqn:E; [|by eexists].
  assert (p ∈ entries_of l (p_name p)) as Hin.
  { unfold entries_of. apply list_elem_of_filter. split; [done|]. apply list_elem_of_omap. by exists s. }
  rewrite E in Hin. by apply elem_of_nil in Hin.
Qed.

Lemma extend_section e p : set_section (extend e p) = set_section e /\ set_name (extend e p) = set_name e.
Proof. unfold extend. by repeat case_match. Qed.

Lemma skip_reason_stable l s s' : s' ∈ l -> skip_reason (l ++ [s]) s' = skip_reason l s'.
Proof.
  intros Hs. unfold skip_reason. destruct (parse s') as [ [p| |]|] eqn:Hp; [|done..].
  destruct (spec_set_present l s' p Hs) as [e He]; [unfold parsed_of; by rewrite Hp|].
  rewrite spec_set_snoc, He. destruct (parsed_of s) as [p'|]; [|done]. case_bool_decide; [|done].
  cbn. by destruct (extend_section e p') as [-> ->].
Qed.

Lemma omap_ext_in {A B} (f g : A -> option B) (l : list A) : (forall x, x ∈ l -> f x = g x) -> omap f l = omap g l.
Proof.
  induction l as [|x l IH]; intros Hfg; [done|]. cbn. rewrite (Hfg x) by left. rewrite IH; [done|].
  intros y Hy. apply Hfg. by right.
Qed.

Lemma discover_invariant l : forall m sk, foldl discover_step ([], []) l = (m, sk) ->
  sorted_keys str_ltb m /\ (forall n, bt_get n m = spec_set l n) /\ sk = omap (skip_reason l) l.
Proof.
  induction l as [|s l IH] using rev_ind; intros m sk; [intros [= <- <-]; split; [constructor|done]|].
  rewrite foldl_app. destruct (foldl _ _ l) as [m0 sk0]. destruct (IH m0 sk0 eq_refl) as (Hsort & Hget & ->). clear IH.
  assert (omap (skip_reason (l ++ [s])) (l ++ [s]) =
    omap (skip_reason l) l ++ match skip_reason (l ++ [s]) s with Some r => [r] | None => [] end) as Eskip.
  { rewrite omap_app. apply (f_equal2 app); [|cbn; by destruct (skip_reason _ s)]. apply omap_ext_in.
    intros x Hx. by apply skip_reason_stable. }
  rewrite Eskip. cbn [foldl]. unfold discover_step.
  assert (skip_reason (l ++ [s]) s = match parse s with
    | Some (Err r) => Some r
    | Some (Ok p) => match spec_set (l ++ [s]) (p_name p) with
        | Some e => if eqb_list (set_section e) (p_section p) then None
                    else Some (TwoSections s (set_name e) (set_section e))
        | None => None end
    | _ => None end) as -> by done.
  pose proof (spec_set_snoc l s) as Hsnoc. unfold parsed_of in Hsnoc. pose proof (parse_not_Stuck s) as Hns.
  destruct (parse s) as [ [p|r|]|]; [|intros [= <- <-]; split; [done|]; split; [|done]; intros n; by rewrite Hsnoc|done
    |intros [= <- <-]; split; [done|]; split; [intros n; by rewrite Hsnoc|by rewrite app_nil_r] ].
  assert (match bt_get (p_name p) m0 with Some entry => entry
    | None => mkSet (p_name p) (p_section p) [] false (p_aros_set p) end = default (fresh p) (spec_set l (p_name p))) as ->.
  { rewrite Hget. by destruct (spec_set _ _). }
  rewrite (Hsnoc (p_name p)), bool_decide_true by done. set (e := default _ _). cbv zeta.
  assert (forall m1 x, (m1 = bt_put str_ltb (p_name p) x (bt_put str_ltb (p_name p) e m0) \/
      (m1 = bt_put str_ltb (p_name p) e m0 /\ x = e)) -> x = extend e p ->
    sorted_keys str_ltb m1 /\ (forall n, bt_get n m1 = spec_set (l ++ [s]) n)) as Hput.
  { intros m1 x Hm1 ->. split.
    - destruct Hm1 as [->|[-> _] ]; repeat (apply bt_put_sorted; [apply _|]); done.
    - intros n. rewrite Hsnoc. destruct (decide (n = p_name p)) as [->|Hne].
      + rewrite bool_decide_true by done. fold e.
        destruct Hm1 as [->|[-> Ex] ]; rewrite bt_get_put, bool_decide_true by done; [done|by rewrite Ex].
      + rewrite bool_decide_false by congruence.
        destruct Hm1 as [->|[-> _] ]; rewrite !bt_get_put, !bool_decide_false by done; apply Hget. }
  destruct (extend_section e p) as [Es En]. rewrite Es, En. unfold eqb_list. destruct (decide (set_section e = p_section p)) as [E|E].
  - rewrite !bool_decide_true by done. cbn [negb]. intros [= <- <-].
    edestruct Hput as [H1 H2]; [left; reflexivity| |split; [exact H1|split; [exact H2|by rewrite app_nil_r] ] ].
    unfold extend, eqb_list, add_new. rewrite bool_decide_true by done. by destruct (p_priority p).
  - rewrite !bool_decide_false by done. cbn [negb]. intros [= <- <-].
    edestruct Hput as [H1 H2]; [right; split; reflexivity| |split; [exact H1|split; [exact H2|done] ] ].
    unfold extend, eqb_list. by rewrite bool_decide_false by done.
Qed.

Lemma distinct_snoc l x : distinct (l ++ [x]) = add_new (distinct l) x.
Proof. unfold distinct. by rewrite foldl_app. Qed.
Lemma distinct_NoDup l : NoDup (distinct l).
Proof.
  induction l as [|x l IH] using rev_ind; [constructor|]. rewrite distinct_snoc. unfold add_new. case_bool_decide; [done|].
  apply NoDup_app. split; [done|]. split; [|apply NoDup_singleton]. intros y Hy ->%list_elem_of_singleton. done.
Qed.
Lemma distinct_elem l x : x ∈ distinct l <-> x ∈ l.
Proof.
  induction l as [|y l IH] using rev_ind; [done|]. rewrite distinct_snoc, elem_of_app, list_elem_of_singleton, <- IH.
  unfold add_new. case_bool_decide; [naive_solver|]. by rewrite elem_of_app, list_elem_of_singleton.
Qed.

Lemma sorted_strict (l : list Z) : NoDup l -> ForallOrdPairs Z.lt (sort_by_key id l).
Proof.
  intros Hnd. pose proof (sort_by_key_sorted id l) as Hs. pose proof (sort_by_key_perm id l) as Hp. rewrite <- Hp in Hnd.
  revert Hs Hnd. generalize (sort_by_key id l). intros l'. induction 1 as [|x l' Hx Hs IH]; intros Hnd; constructor.
  - apply NoDup_cons in Hnd as [Hni _]. rewrite Forall_forall in *. intros y Hy. specialize (Hx y Hy). unfold key_le, id in Hx.
    assert (x <> y) by (by intros ->). lia.
  - apply NoDup_cons in Hnd as [_ Hnd]. by apply IH.
Qed.

(** The set that holds a parsed section. *)
Definition holds_entry (s : SymbolSet) (p : Parsed) : Prop :=
  set_name s = p_name p /\ set_section s = p_section p /\
  match p_priority p with Some pr => pr ∈ priorities s | None => bare s = true end.

Lemma spec_set_holds l section p e : section ∈ l -> parsed_of section = Some p -> spec_set l (p_name p) = Some e ->
  set_section e = p_section p -> holds_entry (sort_priorities e) p.
Proof.
  intros Hin Hp He Hsec. pose proof (spec_set_name _ _ _ He) as Hn. unfold spec_set, group in He.
  destruct (entries_of l (p_name p)) as [|p0 ps] eqn:E; [done|].
  assert (p ∈ filter (fun q => p_section q = p_section p0) (p0 :: ps)) as Hmine.
  { rewrite <- E. apply list_elem_of_filter. injection He as <-. cbn in Hsec. split; [done|].
    unfold entries_of. apply list_elem_of_filter. split; [done|]. apply list_elem_of_omap. by exists section. }
  unfold holds_entry, sort_priorities. cbn [set_name set_section priorities bare]. split; [done|]. split; [done|].
  injection He as <-. cbn [priorities bare]. destruct (p_priority p) as [pr|] eqn:Epr.
  - rewrite sort_by_key_perm, distinct_elem. apply list_elem_of_omap. by exists p.
  - apply existsb_exists. exists p. rewrite <- list_elem_of_In. split; [done|]. by apply bool_decide_eq_true.
Qed.

Lemma discover_result sections : exists m, sorted_keys str_ltb m /\ (forall n, bt_get n m = spec_set sections n) /\
  discover sections = (map sort_priorities m.*2, omap (skip_reason sections) sections) /\
  ForallOrdPairs (fun a b => str_ltb (set_name a) (set_name b) = true) (map sort_priorities m.*2).
Proof.
  unfold discover. destruct (foldl discover_step ([], []) sections) as [m sk] eqn:E.
  apply discover_invariant in E as (Hsort & Hget & ->). exists m. split; [done|]. split; [done|].
  enough (ForallOrdPairs (fun a b => str_ltb (set_name a) (set_name b) = true) (map sort_priorities m.*2)) as Hsets
    by (by rewrite (sort_by_sorted str_ltb set_name _ Hsets)).
  assert (Forall (fun kv => set_name kv.2 = kv.1) m) as Hnames.
  { apply Forall_forall. intros [k v] Hkv. apply (bt_get_elem str_ltb) in Hkv; [|done]. rewrite Hget in Hkv.
    by apply spec_set_name in Hkv. }
  clear Hget. induction Hsort as [|[k v] m Hk Hm IH]; cbn; [constructor|]. apply Forall_cons in Hnames as [Hv Hnames].
  constructor; [|by apply IH]. apply Forall_map, Forall_fmap, Forall_forall. intros [k' v'] Hkv'.
  rewrite Forall_forall in Hk, Hnames. specialize (Hk _ Hkv'). specialize (Hnames _ Hkv'). cbn in *. by rewrite Hv, Hnames.
Qed.

Lemma discover_sets sections s : s ∈ (discover sections).1 <->
  exists e, spec_set sections (set_name s) = Some e /\ s = sort_priorities e.
Proof.
  destruct (discover_result sections) as (m & Hsort & Hget & -> & _). cbn [fst].
  rewrite list_elem_of_In, in_map_iff. setoid_rewrite <- list_elem_of_In. setoid_rewrite list_elem_of_fmap. split.
  - intros (e & <- & [k v] & -> & Hkv). apply (bt_get_elem str_ltb) in Hkv; [|done]. rewrite Hget in Hkv.
    exists v. split; [|done]. cbn. by rewrite (spec_set_name _ _ _ Hkv).
  - intros (e & He & ->). exists e. split; [done|]. exists (set_name e, e). split; [done|].
    by apply (bt_get_elem str_ltb); [|rewrite Hget].
Qed.


(** ** The grammar of set sections *)
Definition name_ok (name : list Z) : Prop := name <> [] /\ Forall (fun b => symbol_byte b = true) name.
Definition tail_ok (tail : list Z) (priority : option Z) : Prop :=
  match priority with
  | None => tail = []
  | Some pr => exists suffix, tail = 46 :: suffix /\ parse_i64 suffix = Some pr
  end.
(** A section of the set [name] with prefix [x]: the base name and the rest. *)
Definition base_of (x : list Z * Z) (name : list Z) : list Z := take (Z.to_nat x.2) x.1 ++ name.
Definition is_set_section (section : list Z) (p : Parsed) : Prop :=
  exists x name tail, x ∈ PREFIXES /\ (exists r, name = drop (Z.to_nat x.2) x.1 ++ r) /\ name_ok name /\
    tail_ok tail (p_priority p) /\ section = base_of x name ++ tail /\
    p = mkParsed (to_ascii_uppercase name) (base_of x name) (p_priority p) (eqb_list x.1 (rs ".aros.set.")).

Lemma symbol_byte_ascii b : symbol_byte b = true -> b < 128 /\ b <> 46 /\ b <> 10 /\ b <> 13.
Proof.
  unfold symbol_byte, is_ascii_alphanumeric, is_ascii_digit, is_ascii_lowercase, is_ascii_uppercase.
  rewrite !orb_true_iff, !in_range_true, Z.eqb_eq. lia.
Qed.

Lemma prefix_unique s x y : x ∈ PREFIXES -> y ∈ PREFIXES -> starts_with s x.1 = true -> starts_with s y.1 = true -> x = y.
Proof.
  intros Hx Hy [r ->]%starts_with_true [r' E]%starts_with_true. unfold PREFIXES in *.
  rewrite !elem_of_cons, elem_of_nil in Hx, Hy.
  destruct Hx as [->|[->|[->|[->|[->|[] ] ] ] ] ]; destruct Hy as [->|[->|[->|[->|[->|[] ] ] ] ] ]; try done; discriminate E.
Qed.

Lemma find_prefix s x : x ∈ PREFIXES -> starts_with s x.1 = true ->
  head (filter (fun x => starts_with s x.1 = true) PREFIXES) = Some x.
Proof.
  intros Hx Hs. destruct (filter _ PREFIXES) as [|y l] eqn:E.
  - assert (x ∈ filter (fun x => starts_with s x.1 = true) PREFIXES) as Hin by (by apply list_elem_of_filter).
    rewrite E in Hin. by apply elem_of_nil in Hin.
  - assert (y ∈ filter (fun x => starts_with s x.1 = true) PREFIXES) as Hin by (rewrite E; left).
    apply list_elem_of_filter in Hin as [Hy Hin]. cbn. f_equal. by eapply prefix_unique.
Qed.

(** The prefix itself has no dot behind its offset. *)
Lemma prefix_shape x : x ∈ PREFIXES -> Forall (fun b => b <> 46) (drop (Z.to_nat x.2) x.1) /\
  (Z.to_nat x.2 <= length x.1)%nat.
Proof.
  unfold PREFIXES. rewrite !elem_of_cons, elem_of_nil.
  intros [->|[->|[->|[->|[->|[] ] ] ] ] ]; split; try (cbn; lia); apply (bool_decide_unpack _); vm_compute; done.
Qed.

Lemma prefix_of_name (q name tail r : list Z) : Forall (fun b => b <> 46) q -> (tail = [] \/ exists t, tail = 46 :: t) ->
  name ++ tail = q ++ r -> exists r', name = q ++ r'.
Proof.
  intros Hq Ht. revert name. induction Hq as [|b q Hb Hq IH]; intros name E; [by exists name|].
  destruct name as [|c name]; cbn in E.
  - destruct Ht as [->|[t ->] ]; [done|]. injection E as <- _. done.
  - injection E as -> E. destruct (IH name E) as [r' ->]. by exists r'.
Qed.

Lemma name_check name : name_ok name <->
  (match name with [] => true | _ => false end) = false /\ negb (forallb symbol_byte (utf8 name)) = false.
Proof.
  unfold name_ok. rewrite negb_false_iff, forallb_utf8 by (intros b Hb%symbol_byte_ascii; lia). destruct name; naive_solver.
Qed.

Lemma parse_sound section p : parse section = Some (Ok p) -> is_set_section section p.
Proof.
  unfold parse. intros H. apply bind_Some in H as ([pre off] & Hhead & H). injection H as H.
  assert ((pre, off) ∈ filter (fun x => starts_with section x.1 = true) PREFIXES) as Hin.
  { destruct (filter _ PREFIXES); [done|]. injection Hhead as ->. left. }
  apply list_elem_of_filter in Hin as [Hst Hin]. cbn in Hst. pose proof (prefix_shape _ Hin) as [Hdot Hoff]. cbn in Hdot, Hoff.
  apply starts_with_true in Hst as [r ->]. rewrite drop_app_le in H by lia.
  assert (forall name tail, drop (Z.to_nat off) pre ++ r = name ++ tail -> pre ++ r = base_of (pre, off) name ++ tail /\
    take (Z.to_nat off + length name) (pre ++ r) = base_of (pre, off) name) as Hcut.
  { intros name tail E. unfold base_of. cbn [fst snd]. rewrite <- (take_drop (Z.to_nat off) pre) at 1 3.
    rewrite <- !app_assoc, E. split; [done|]. rewrite (app_assoc _ name). apply take_app_length'.
    rewrite length_app, length_take. lia. }
  exists (pre, off). cbn [fst snd].
  destruct (split_once 46 (drop (Z.to_nat off) pre ++ r)) as [ [name suffix]|] eqn:Es.
  + apply split_once_Some in Es as [Es Hname]. destruct (parse_i64 suffix) as [pr|] eqn:Epr; [|done].
    cbn [mbind res_bind] in H. rewrite !refuse_bind_Ok in H. destruct H as (H1 & H2 & [= <-]).
    destruct (Hcut _ _ Es) as [E1 ->]. exists name, (46 :: suffix). cbn [p_priority].
    split; [done|]. split; [|split; [by apply name_check|split; [by exists suffix|done] ] ].
    eapply prefix_of_name; [exact Hdot|right; by eexists|]. by rewrite <- Es.
  + cbn [mbind res_bind] in H. rewrite !refuse_bind_Ok in H. destruct H as (H1 & H2 & [= <-]).
    destruct (Hcut (drop (Z.to_nat off) pre ++ r) []) as [E1 _]; [by rewrite app_nil_r|].
    exists (drop (Z.to_nat off) pre ++ r), []. cbn [p_priority]. rewrite app_nil_r in E1.
    split; [done|]. split; [by exists r|]. split; [by apply name_check|]. split; [done|]. by rewrite app_nil_r, <- E1.
Qed.

Lemma parse_complete section p : is_set_section section p -> parse section = Some (Ok p).
Proof.
  intros ([pre off] & name & tail & Hin & [r Hr] & Hok & Htail & -> & Hp). cbn [fst snd] in *.
  pose proof (prefix_shape _ Hin) as [_ Hoff]. cbn [fst snd] in Hoff.
  apply name_check in Hok as Hok'. destruct Hok' as [H1 H2].
  assert (Forall (fun x => x <> 46) name) as Hdot.
  { destruct Hok as [_ Hok]. eapply Forall_impl; [exact Hok|]. cbv beta. intros b Hb%symbol_byte_ascii. tauto. }
  unfold parse. rewrite (find_prefix _ (pre, off) Hin).
  2:{ apply starts_with_true. unfold base_of. cbn [fst snd]. exists (r ++ tail).
      by rewrite Hr, !app_assoc, take_drop. }
  cbn [mbind option_bind]. f_equal.
  assert (length (take (Z.to_nat off) pre) = Z.to_nat off) as Hlt by (rewrite length_take; lia).
  assert (drop (Z.to_nat off) (base_of (pre, off) name ++ tail) = name ++ tail) as ->.
  { unfold base_of. cbn [fst snd]. rewrite <- app_assoc. by apply drop_app_length'. }
  rewrite Hp. destruct p as [pn ps [pr|] pa]; cbn [p_priority tail_ok] in *.
  + destruct Htail as (suffix & -> & Epr). rewrite (proj2 (split_once_Some 46 _ name suffix)) by done.
    rewrite Epr. cbn [mbind res_bind]. rewrite H1, H2. cbn. rewrite take_app_length'; [done|].
    unfold base_of. cbn [fst snd]. rewrite length_app. lia.
  + subst tail. rewrite !app_nil_r, (proj2 (split_once_None 46 name)) by done. cbn [mbind res_bind]. by rewrite H1, H2.
Qed.

(** [parse] accepts exactly the set sections, and reads them as the grammar says. *)
Lemma parse_Ok section p : parse section = Some (Ok p) <-> is_set_section section p.
Proof. split; [apply parse_sound|apply parse_complete]. Qed.

(** ** The script, line by line *)
Definition text (ls : list (list Z)) : list Z := flat_map (fun w => w ++ [10]) ls.
Definition keep_line (section : list Z) : list Z := rs "    KEEP(*(" ++ section ++ rs "))".

Definition set_lines (class : Class) (s : SymbolSet) : list (list Z) :=
  let word := pointer_directive class in let width := show_dec (pointer_bytes class) in let name := set_name s in
  [rs "    . = ALIGN(" ++ width ++ rs ");"; rs "    __" ++ name ++ rs "_LIST__ = .;";
   rs "    " ++ word ++ rs "((__" ++ name ++ rs "_END__ - __" ++ name ++ rs "_LIST__) / " ++ width ++ rs " - 2)"] ++
  map (fun pr => keep_line (set_section s ++ rs "." ++ show_dec pr)) (priorities s) ++
  [keep_line (set_section s); rs "    " ++ word ++ rs "(0)"; rs "    __" ++ name ++ rs "_END__ = .;"].
Definition script_lines (sets : list SymbolSet) (class : Class) (rows : list (list Z)) : list (list Z) :=
  map (fun s => rs "EXTERN(__" ++ set_name s ++ rs "__symbol_set_handler_missing)") (filter (fun s => aros_set s = true) sets)
  ++ script_head ++ flat_map (set_lines class) sets ++ rows ++ script_tail.

Lemma foldl_writeln {A} (f : A -> list Z) l : forall out, foldl (fun out x => writeln out (f x)) out l = out ++ text (map f l).
Proof.
  induction l as [|x l IH]; intros out; cbn [foldl map]; [by rewrite app_nil_r|]. rewrite IH. unfold writeln, text.
  cbn [flat_map]. by rewrite <- !app_assoc.
Qed.

Lemma unlines_text ls : unlines ls = text ls.
Proof. unfold unlines. rewrite (foldl_writeln id), map_id. done. Qed.

Lemma text_app a b : text (a ++ b) = text a ++ text b.
Proof. apply flat_map_app. Qed.

Lemma script_set_lines class s out :
  script_set (pointer_directive class) (show_dec (pointer_bytes class)) out s = out ++ text (set_lines class s).
Proof.
  unfold script_set, set_lines. cbv zeta.
  rewrite (foldl_writeln (fun pr => rs "    KEEP(*(" ++ set_section s ++ rs "." ++ show_dec pr ++ rs "))")).
  rewrite !text_app. unfold writeln. rewrite <- !app_assoc.
  replace (map (fun pr => keep_line (set_section s ++ rs "." ++ show_dec pr)) (priorities s)) with
    (map (fun pr => rs "    KEEP(*(" ++ set_section s ++ rs "." ++ show_dec pr ++ rs "))") (priorities s));
    [|apply map_ext; intros pr; unfold keep_line; by rewrite <- !app_assoc].
  unfold keep_line, text. cbn [flat_map]. by rewrite <- !app_assoc, ?app_nil_r.
Qed.

(** The script is the text of its lines. *)
Lemma script_text sets class rows : script sets class (text rows) = text (script_lines sets class rows).
Proof.
  unfold script, script_lines. cbv zeta.
  rewrite (foldl_writeln (fun s => rs "EXTERN(__" ++ set_name s ++ rs "__symbol_set_handler_missing)")).
  rewrite !unlines_text, !text_app. cbn [app].
  assert (forall out, foldl (script_set (pointer_directive class) (show_dec (pointer_bytes class))) out sets =
    out ++ text (flat_map (set_lines class) sets)) as ->; [|by rewrite <- !app_assoc].
  induction sets as [|s sets IH]; intros out; cbn [foldl flat_map]; [by rewrite app_nil_r|].
  by rewrite IH, script_set_lines, text_app, <- app_assoc.
Qed.

(** Which KEEP lines the script has. *)
Lemma keep_line_inj a b : keep_line a = keep_line b -> a = b.
Proof. unfold keep_line. intros E. apply (inj (app _)) in E. by apply (inj (fun l => l ++ _)) in E. Qed.

Definition no_keep (line : list Z) : Prop := starts_with line (rs "    KEEP(*(") = false.

Lemma no_keep_ne line section : no_keep line -> keep_line section <> line.
Proof.
  unfold no_keep. intros H <-. assert (starts_with (keep_line section) (rs "    KEEP(*(") = true) as Ht
    by (apply starts_with_true; by eexists). congruence.
Qed.

Lemma keep_in_set class s section : keep_line section ∈ set_lines class s <->
  section = set_section s \/ exists pr, pr ∈ priorities s /\ section = set_section s ++ rs "." ++ show_dec pr.
Proof.
  unfold set_lines. cbv zeta. rewrite !elem_of_app, !elem_of_cons, elem_of_nil.
  rewrite (list_elem_of_In (map _ _)), in_map_iff. setoid_rewrite <- list_elem_of_In. split.
  - intros [H|[(pr & E & Hpr)|H] ].
    + destruct H as [H|[H|[H|[] ] ] ]; exfalso; revert H; apply no_keep_ne; unfold no_keep; by destruct class.
    + right. exists pr. split; [done|]. by apply keep_line_inj.
    + destruct H as [H|[H|[H|[] ] ] ]; [left; by apply keep_line_inj|exfalso; revert H; apply no_keep_ne; unfold no_keep; by destruct class..].
  - intros [->|(pr & Hpr & ->)]; [by right; right; left|]. right. left. by exists pr.
Qed.

(** ** Lines without line breaks *)
Definition clean (line : list Z) : Prop := Forall (fun b => b <> 10 /\ b <> 13) line.

Lemma set_of_section sections s : s ∈ (discover sections).1 ->
  exists section p, section ∈ sections /\ parse section = Some (Ok p) /\ set_section s = p_section p /\ set_name s = p_name p.
Proof.
  intros (e & He & ->)%discover_sets. pose proof (spec_set_name _ _ _ He) as Hn. cbn in Hn. unfold spec_set, group in He.
  cbn [set_name sort_priorities] in He. destruct (entries_of sections (set_name e)) as [|p ps] eqn:E; [done|]. injection He as He.
  assert (p ∈ entries_of sections (set_name e)) as Hin by (rewrite E; left).
  apply list_elem_of_filter in Hin as [Hpn Hin]. apply list_elem_of_omap in Hin as (section & Hs & Hp).
  exists section, p. unfold parsed_of in Hp. destruct (parse section) as [ [q| |]|]; simplify_eq.
  cbn. split; [done|]. split; [done|]. rewrite <- He. done.
Qed.

Lemma priority_of_section sections s pr : s ∈ (discover sections).1 -> pr ∈ priorities s ->
  exists section p, section ∈ sections /\ parse section = Some (Ok p) /\ p_priority p = Some pr.
Proof.
  intros (e & He & ->)%discover_sets. cbn [priorities sort_priorities]. rewrite sort_by_key_perm.
  unfold spec_set, group in He. destruct (entries_of _ _) as [|p0 ps] eqn:E; [done|]. injection He as <-. cbn [priorities].
  rewrite distinct_elem, list_elem_of_omap. intros (p & Hp & Hpr). apply list_elem_of_filter in Hp as [_ Hp]. rewrite <- E in Hp.
  apply list_elem_of_filter in Hp as [_ Hp]. apply list_elem_of_omap in Hp as (section & Hs & Hp).
  exists section, p. unfold parsed_of in Hp. by destruct (parse section) as [ [q| |]|]; simplify_eq.
Qed.

Lemma parse_i64_range s v : parse_i64 s = Some v -> i64_min <= v <= i64_max.
Proof.
  unfold parse_i64. destruct (match s with 43 :: _ => _ | _ => _ end) as [neg body]. destruct body; [done|].
  intros (w & _ & H)%bind_Some. case_match; [|done]. bool_prop. simplify_eq. lia.
Qed.

Lemma section_priority section p pr : parse section = Some (Ok p) -> p_priority p = Some pr -> i64_min <= pr <= i64_max.
Proof.
  intros (x & name & tail & _ & _ & _ & Ht & _)%parse_sound E. rewrite E in Ht. destruct Ht as (suffix & _ & H).
  by apply parse_i64_range in H.
Qed.

Lemma show_dec_clean v : Forall (fun b => b <> 10 /\ b <> 13) (show_dec v).
Proof.
  assert (forall v, 0 <= v -> Forall (fun b => b <> 10 /\ b <> 13) (show_dec v)) as Hpos.
  { intros w Hw. eapply Forall_impl; [by apply show_dec_digit|]. cbv beta. intros b Hb%in_range_true. lia. }
  destruct (Z.lt_ge_cases v 0); [|by apply Hpos]. specialize (Hpos (- v) ltac:(lia)). unfold show_dec in *.
  rewrite (proj2 (Z.ltb_lt v 0)) by lia. rewrite (proj2 (Z.ltb_ge (- v) 0)) in Hpos by lia. constructor; [lia|done].
Qed.

Lemma to_ascii_upper_clean name : Forall (fun b => symbol_byte b = true) name -> clean (to_ascii_uppercase name).
Proof.
  intros Hn. apply Forall_map. eapply Forall_impl; [exact Hn|]. cbv beta. intros b Hb%symbol_byte_ascii.
  unfold to_ascii_upper, is_ascii_lowercase. destruct (in_range 97 122 b) eqn:E; [apply in_range_true in E; lia|tauto].
Qed.

Lemma set_section_clean section p : parse section = Some (Ok p) -> clean (p_section p) /\ clean (p_name p).
Proof.
  intros (x & name & tail & Hx & _ & [_ Hn] & _ & _ & ->)%parse_sound. cbn. split; [|by apply to_ascii_upper_clean].
  apply Forall_app. split.
  - apply Forall_take. revert Hx. unfold PREFIXES. rewrite !elem_of_cons, elem_of_nil.
    intros [->|[->|[->|[->|[->|[] ] ] ] ] ]; apply (bool_decide_unpack _); vm_compute; done.
  - eapply Forall_impl; [exact Hn|]. cbv beta. intros b Hb%symbol_byte_ascii. tauto.
Qed.

Lemma set_lines_clean class s : clean (set_section s) -> clean (set_name s) -> Forall clean (set_lines class s).
Proof.
  intros Hs Hn. unfold set_lines, keep_line. cbv zeta. unfold clean in *.
  assert (forall str, forallb (fun b => negb ((b =? 10) || (b =? 13))) (rs str) = true ->
    Forall (fun b => b <> 10 /\ b <> 13) (rs str)) as Hrs.
  { intros str. rewrite forallb_forall, Forall_forall. intros H b Hb%list_elem_of_In%H.
    apply negb_true_iff, orb_false_iff in Hb as [?%Z.eqb_neq ?%Z.eqb_neq]. done. }
  assert (Forall (fun b => b <> 10 /\ b <> 13) (pointer_directive class)) as Hw by (destruct class; by apply Hrs).
  pose proof (show_dec_clean (pointer_bytes class)) as Hb.
  rewrite !Forall_app, !Forall_cons, Forall_map. split_and!; try apply Forall_nil; repeat (apply Forall_app; split);
    try done; try (by apply Hrs).
  apply Forall_forall. intros pr _. repeat (apply Forall_app; split); try done; try (by apply Hrs). apply show_dec_clean.
Qed.

Lemma script_clean sections class rows : Forall clean rows -> Forall clean (script_lines (discover sections).1 class rows).
Proof.
  intros Hr. assert (forall s, s ∈ (discover sections).1 -> clean (set_section s) /\ clean (set_name s)) as Hset.
  { intros s (section & p & _ & Hp & -> & ->)%set_of_section. by apply set_section_clean in Hp. }
  unfold script_lines. rewrite !Forall_app. split_and!; try done.
  - apply Forall_map, Forall_forall. intros s [_ Hs]%list_elem_of_filter. apply Hset in Hs as [_ Hs].
    repeat (apply Forall_app; split); [|done|]; apply (bool_decide_unpack _); vm_compute; done.
  - apply (bool_decide_unpack _). vm_compute. done.
  - apply Forall_flat_map, Forall_forall. intros s Hs. apply Hset in Hs as [? ?]. by apply set_lines_clean.
  - apply (bool_decide_unpack _). vm_compute. done.
Qed.

(** The KEEP lines of a script, apart from the two fixed ones. *)
Lemma keep_in_script sets class rows section : Forall no_keep rows ->
  section <> rs ".aros.startup" -> section <> rs ".eh_frame" ->
  keep_line section ∈ script_lines sets class rows <-> exists s, s ∈ sets /\ (section = set_section s \/
    exists pr, pr ∈ priorities s /\ section = set_section s ++ rs "." ++ show_dec pr).
Proof.
  intros Hrows H1 H2. unfold script_lines. rewrite !elem_of_app. setoid_rewrite <- (keep_in_set class).
  assert (forall ls, Forall (fun l => no_keep l \/ l = keep_line (rs ".aros.startup") \/ l = keep_line (rs ".eh_frame")) ls ->
    keep_line section ∉ ls) as Hno.
  { intros ls Hls Hin. rewrite Forall_forall in Hls. destruct (Hls _ Hin) as [H|[H%keep_line_inj|H%keep_line_inj] ]; [|done..].
    by eapply no_keep_ne. }
  assert (keep_line section ∈ flat_map (set_lines class) sets <-> exists s, s ∈ sets /\ keep_line section ∈ set_lines class s) as Hflat.
  { rewrite list_elem_of_In, in_flat_map. by setoid_rewrite <- list_elem_of_In. }
  split.
  - intros [H|[H|[H|[H|H] ] ] ]; [| |by apply Hflat| |]; exfalso; revert H; apply Hno.
    + apply Forall_map, Forall_forall. intros s _. by left.
    + repeat (constructor; [first [by left|by right; left]|]). constructor.
    + eapply Forall_impl; [exact Hrows|]. auto.
    + repeat (constructor; [first [by left|by right; right]|]). constructor.
  - intros H. right. right. left. by apply Hflat.
Qed.

(** The script keeps an accepted set section exactly when the section is
    unsuffixed or its suffix is the canonical decimal form of its priority: a
    section spelled otherwise, such as [.init_array.00100], is accepted and not
    reported, and no line of the script matches it. *)
Theorem section_kept_iff_canonical sections section p class rows :
  section ∈ sections -> parse section = Some (Ok p) -> skip_reason sections section = None ->
  Forall clean rows -> Forall no_keep rows ->
  keep_line section ∈ lines (script (discover sections).1 class (text rows)) <->
  match p_priority p with Some pr => section = p_section p ++ rs "." ++ show_dec pr | None => True end.
Proof.
  intros Hin Hp Hskip Hclean Hrows.
  rewrite script_text, lines_rows by by apply script_clean.
  rewrite keep_in_script by (done || by intros ->; vm_compute in Hp). split.
  - intros (s & Hs & H). destruct (set_of_section _ _ Hs) as (sec0 & p0 & _ & Hp0 & Esec & _). rewrite Esec in H.
    pose proof Hp0 as (x & name & tail & Hx & Hpre & Hn & _ & _ & Ep0)%parse_sound.
    assert (forall t prio, tail_ok t prio -> section = p_section p0 ++ t ->
      p = mkParsed (to_ascii_uppercase name) (base_of x name) prio (eqb_list x.1 (rs ".aros.set."))) as Hparse.
    { intros t prio Ht E. rewrite Ep0 in E. cbn in E.
      assert (parse section = Some (Ok (mkParsed (to_ascii_uppercase name) (base_of x name) prio (eqb_list x.1 (rs ".aros.set."))))) as Hq.
      { apply parse_complete. exists x, name, t. split_and!; done. }
      rewrite Hp in Hq. by injection Hq. }
    destruct H as [H|(pr & Hpr & H)].
    + rewrite (Hparse [] None) by (done || by rewrite app_nil_r). done.
    + destruct (priority_of_section _ _ _ Hs Hpr) as (sec1 & p1 & _ & Hp1 & Epr). pose proof (section_priority _ _ _ Hp1 Epr).
      rewrite (Hparse (46 :: show_dec pr) (Some pr)); [|exists (show_dec pr); split; [done|by apply parse_show_i64]|done].
      cbn. by rewrite H, Ep0.
  - intros H. assert (parsed_of section = Some p) as Hpo by (unfold parsed_of; by rewrite Hp).
    destruct (spec_set_present _ _ _ Hin Hpo) as [e He]. pose proof (spec_set_name _ _ _ He) as Hn.
    unfold skip_reason in Hskip. rewrite Hp, He in Hskip. destruct (eqb_list _ _) eqn:Esec; [|done]. apply eqb_list_true in Esec.
    destruct (spec_set_holds _ _ _ _ Hin Hpo He Esec) as (_ & Hsec & Hprio). exists (sort_priorities e).
    split; [apply discover_sets; exists e; cbn; by rewrite Hn|]. rewrite Hsec.
    pose proof Hp as (x & name & tail & _ & _ & _ & Ht & Es & Ep)%parse_sound. destruct (p_priority p) as [pr|].
    + right. by exists pr.
    + left. cbn in Ht. subst tail. rewrite Es, app_nil_r. by rewrite Ep.
Qed.

(** The finding: accepted, not reported, and matched by no line. *)
Lemma section_kept_iff_canonical_witness :
  let section := rs ".init_array.00100" in
  (discover [section]).2 = [] /\ ~ keep_line section ∈ lines (script (discover [section]).1 Elf64 (text [])).
Proof.
  cbv zeta. split; [vm_compute; reflexivity|]. intros Hk.
  apply (section_kept_iff_canonical [rs ".init_array.00100"] (rs ".init_array.00100")
    (mkParsed (rs "INIT_ARRAY") (rs ".init_array") (Some 100) false) Elf64 []) in Hk;
    [vm_compute in Hk; discriminate Hk|left|vm_compute; reflexivity|vm_compute; reflexivity|constructor|constructor].
Defined.
