(* ===== verification/LibReq.v ===== *)
(** * LibReq: library-version requirements and first-pass facts

    Models [crates/aros-collect/src/libreq.rs], which turns the versioned
    markers of an object into published words, and [extra.rs], which reads from
    the same symbol table what the first pass still needs. *)

From S2P Require Import Prelude Text Elf Ordered SymbolSets.

Definition PREFIX : list Z := rs "__aros_libreq_".

Record Requirement := mkRequirement { req_symbol : list Z; req_version : Z }.

Inductive LibSkip :=
| NotVersion (name suffix : list Z)
| NoBase (name : list Z)
| SeveralVersions (symbol : list Z) (versions : list Z) (version : Z).

#[global] Instance Binding_eq_dec : EqDecision Binding.
Proof. solve_decision. Defined.
#[global] Instance Home_eq_dec : EqDecision Home.
Proof. solve_decision. Defined.

Definition eligible (s : Symbol) : bool :=
  if negb (starts_with (sym_name s) PREFIX) then false
  else match sym_home s with
       | Absolute => negb (bool_decide (sym_binding s = Local))
       | Undefined => bool_decide (sym_binding s = Weak)
       | InSection _ => false
       end.

(** What an eligible marker says: its base and version. *)
Definition marker (s : Symbol) : res LibSkip (list Z * Z) :=
  let rest := drop (length PREFIX) (sym_name s) in
  '(base, version) ←
    match split_once 46 rest with
    | Some (base, suffix) =>
      match parse_i64 suffix with
      | Some version => Ok (base, version)
      | None => Err (NotVersion (sym_name s) suffix)
      end
    | None => Ok (rest, 0)
    end;
  _ ← refuse (match base with [] => true | _ => false end) (NoBase (sym_name s));
  Ok (base, version).

(** One round of the first loop of [discover]. *)
Definition seen_state : Type := list (list Z * list Z) * list LibSkip.
Definition see (st : seen_state) (s : Symbol) : seen_state :=
  let '(seen, skipped) := st in
  match marker s with
  | Ok (base, version) =>
    let key := PREFIX ++ base in
    (bt_put str_ltb key (default [] (bt_get key seen) ++ [version]) seen, skipped)
  | Err r => (seen, skipped ++ [r])
  | Stuck => (seen, skipped)
  end.

(** [Vec::dedup]: equal neighbours become one. *)
Fixpoint dedup (l : list Z) : list Z :=
  match l with
  | [] => []
  | x :: l => match dedup l with
              | y :: l' => if x =? y then y :: l' else x :: y :: l'
              | [] => [x]
              end
  end.

(** One round of the second loop of [discover]. *)
Definition publish (st : list Requirement * list LibSkip) (kv : list Z * list Z) : list Requirement * list LibSkip :=
  let '(out, skipped) := st in
  let versions := dedup (sort_by_key id kv.2) in
  let version := default 0 (last versions) in
  let skipped := if 1 <? len (filter (fun v => v <> 0) versions)
                 then skipped ++ [SeveralVersions kv.1 versions version] else skipped in
  (out ++ [mkRequirement kv.1 version], skipped).

Definition discover (symbols : list Symbol) : list Requirement * list LibSkip :=
  let '(seen, skipped) := foldl see ([], []) (filter (fun s => eligible s = true) symbols) in
  foldl publish ([], skipped) seen.

Definition script (requirements : list Requirement) : list Z :=
  foldl (fun out r =>
    let out := writeln out (rs "    . = ALIGN(4);") in
    let out := writeln out (rs "    PROVIDE(" ++ req_symbol r ++ rs " = .);") in
    writeln out (rs "    LONG(" ++ show_dec (req_version r) ++ rs ")")) [] requirements.

(** ** [extra.rs] *)
Record Requirements := mkRequirements { cxx_pure_virtual : bool; pthread : bool }.
Definition extra_step (r : Requirements) (s : Symbol) : Requirements :=
  if negb (bool_decide (sym_home s = Undefined)) then r
  else
    let r := if eqb_list (sym_name s) (rs "__cxa_pure_virtual") && bool_decide (sym_binding s = Weak)
             then mkRequirements true (pthread r) else r in
    if starts_with (sym_name s) (rs "pthread_") && bool_decide (sym_binding s = Global)
    then mkRequirements (cxx_pure_virtual r) true else r.
Definition extra_discover (symbols : list Symbol) : Requirements :=
  foldl extra_step (mkRequirements false false) symbols.

(** ** The versions stated for a base *)
Definition stated (symbols : list Symbol) (key : list Z) : list Z :=
  omap (fun s => if eligible s then
                   match marker s with
                   | Ok (base, v) => if bool_decide (PREFIX ++ base = key) then Some v else None
                   | _ => None
                   end
                 else None) symbols.

Lemma marker_not_Stuck s : marker s <> Stuck.
Proof. unfold marker. not_stuck. Qed.

Lemma stated_snoc l s key : eligible s = true -> stated (l ++ [s]) key = stated l key ++
  match marker s with Ok (base, v) => if bool_decide (PREFIX ++ base = key) then [v] else [] | _ => [] end.
Proof.
  intros He. unfold stated. rewrite omap_app. apply (f_equal2 app); [done|]. cbn [omap list_omap]. rewrite He.
  destruct (marker s) as [ [base v]| |]; [|done..]. by case_bool_decide.
Qed.

Lemma see_invariant l : Forall (fun s => eligible s = true) l -> forall m sk, foldl see ([], []) l = (m, sk) ->
  sorted_keys str_ltb m /\
  (forall key, bt_get key m = if bool_decide (stated l key = []) then None else Some (stated l key)) /\
  sk = omap (fun s => match marker s with Err r => Some r | _ => None end) l.
Proof.
  induction l as [|s l IH] using rev_ind; intros Hel m sk; [intros [= <- <-]; split; [constructor|done]|].
  apply Forall_app in Hel as [Hel He]. rewrite Forall_singleton in He. specialize (IH Hel). rewrite foldl_app.
  destruct (foldl see _ l) as [m0 sk0]. destruct (IH m0 sk0 eq_refl) as (Hs & Hget & ->). clear IH. cbn [foldl]. unfold see.
  rewrite omap_app. cbn [omap list_omap]. pose proof (marker_not_Stuck s) as Hns.
  pose proof (fun key => stated_snoc l s key He) as Hsnoc. destruct (marker s) as [ [base v]|r|]; [| |done].
  - intros [<- <-]%pair_eq. split; [by apply (bt_put_sorted _)|]. split; [|by rewrite app_nil_r]. intros key.
    rewrite bt_get_put, Hsnoc, !Hget. destruct (decide (key = PREFIX ++ base)) as [->|Hne].
    + rewrite !(bool_decide_true (PREFIX ++ base = _)) by done.
      rewrite (bool_decide_false (_ ++ [v] = [])) by (by destruct (stated l _)).
      f_equal. case_bool_decide as E; [by rewrite E|done].
    + rewrite bool_decide_false, (bool_decide_false (PREFIX ++ base = key)) by congruence. by rewrite app_nil_r.
  - intros [= <- <-]. split; [done|]. split; [|done]. intros key. by rewrite Hsnoc, app_nil_r.
Qed.

(** ** Sorting and removing duplicates *)
Lemma dedup_spec l : ForallOrdPairs Z.le l -> ForallOrdPairs Z.lt (dedup l) /\ forall x, x ∈ dedup l <-> x ∈ l.
Proof.
  induction 1 as [|x l Hx Hl [IHs IHe] ]; [split; [constructor|done]|]. cbn [dedup].
  assert (Forall (Z.le x) (dedup l)) as Hxd by (rewrite Forall_forall in *; intros y Hy; by apply Hx, IHe).
  destruct (dedup l) as [|y l'] eqn:E.
  - split; [repeat constructor|]. intros z. specialize (IHe z). rewrite !elem_of_cons in *. tauto.
  - destruct (Z.eqb_spec x y) as [->|Hne].
    + split; [done|]. intros z. pose proof (IHe y) as Hy. specialize (IHe z). rewrite !elem_of_cons in *. naive_solver.
    + split; [|intros z; specialize (IHe z); rewrite !elem_of_cons in *; tauto].
      constructor; [|done]. apply Forall_cons in Hxd as [Hxy _]. inversion IHs as [|? ? Hy _]; subst.
      constructor; [lia|]. eapply Forall_impl; [exact Hy|]. intros z Hz. cbn in Hz. lia.
Qed.

Lemma last_max l : ForallOrdPairs Z.lt l -> forall v, last l = Some v -> v ∈ l /\ Forall (fun x => x <= v) l.
Proof.
  induction 1 as [|x l Hx Hl IH]; intros v; [done|]. rewrite last_cons. destruct (last l) as [w|] eqn:E.
  - intros [= <-]. destruct (IH w eq_refl) as [Hw Hall]. split; [by right|]. constructor; [|done].
    rewrite Forall_forall in Hx. specialize (Hx w Hw). lia.
  - intros [= <-]. apply last_None in E as ->. split; [left|repeat constructor; lia].
Qed.

(** The published version of a nonempty list of stated versions. *)
Definition published (versions : list Z) : list Z := dedup (sort_by_key id versions).

Lemma published_spec vs : ForallOrdPairs Z.lt (published vs) /\ forall x, x ∈ published vs <-> x ∈ vs.
Proof.
  unfold published. pose proof (sort_by_key_sorted id vs) as Hs.
  destruct (dedup_spec (sort_by_key id vs)) as [H1 H2].
  - eapply ForallOrdPairs_impl; [|exact Hs]. done.
  - split; [done|]. intros x. by rewrite H2, sort_by_key_perm.
Qed.

Lemma published_max vs : vs <> [] ->
  default 0 (last (published vs)) ∈ vs /\ Forall (fun x => x <= default 0 (last (published vs))) vs.
Proof.
  intros Hne. destruct (published_spec vs) as [Hs He]. destruct (last (published vs)) as [v|] eqn:E.
  - apply last_max in E as [Hv Hall]; [|done]. cbn. split; [by apply He|]. rewrite Forall_forall in *.
    intros x Hx. by apply Hall, He.
  - apply last_None in E. destruct vs as [|x vs]; [done|]. exfalso. apply (not_elem_of_nil x). rewrite <- E. apply He. left.
Qed.

(** ** The published requirements *)
Definition conflict (kv : list Z * list Z) : option LibSkip :=
  if 1 <? len (filter (fun v => v <> 0) (published kv.2))
  then Some (SeveralVersions kv.1 (published kv.2) (default 0 (last (published kv.2)))) else None.

Lemma publish_all m : forall out sk, foldl publish (out, sk) m =
  (out ++ map (fun kv => mkRequirement kv.1 (default 0 (last (published kv.2)))) m, sk ++ omap conflict m).
Proof.
  induction m as [|kv m IH]; intros out sk; cbn [foldl map omap list_omap]; [by rewrite !app_nil_r|].
  unfold publish at 2. rewrite IH. unfold conflict at 2. unfold published. destruct (1 <? _); by rewrite <- ?app_assoc.
Qed.

Lemma stated_cons s l key : stated (s :: l) key =
  match (if eligible s then match marker s with
           | Ok (base, v) => if bool_decide (PREFIX ++ base = key) then Some v else None | _ => None end else None) with
  | Some v => v :: stated l key
  | None => stated l key
  end.
Proof. reflexivity. Qed.

Lemma stated_filter symbols key : stated (filter (fun s => eligible s = true) symbols) key = stated symbols key.
Proof.
  induction symbols as [|s l IH]; [done|]. rewrite filter_cons, (stated_cons s l).
  destruct (decide (eligible s = true)) as [E|E]; [by rewrite stated_cons, IH|].
  apply not_true_is_false in E. by rewrite E.
Qed.

Lemma discover_seen symbols : exists m, sorted_keys str_ltb m /\
  (forall key, bt_get key m = if bool_decide (stated symbols key = []) then None else Some (stated symbols key)) /\
  discover symbols = (map (fun kv => mkRequirement kv.1 (default 0 (last (published kv.2)))) m,
    omap (fun s => match marker s with Err r => Some r | _ => None end) (filter (fun s => eligible s = true) symbols)
    ++ omap conflict m).
Proof.
  unfold discover. destruct (foldl see ([], []) _) as [m sk] eqn:E.
  apply see_invariant in E as (Hs & Hget & ->); [|apply Forall_forall; by intros s [? _]%list_elem_of_filter].
  exists m. split; [done|]. split; [intros key; by rewrite Hget, !stated_filter|]. by rewrite publish_all.
Qed.

Lemma seen_elem (m : list (list Z * list Z)) symbols key vs : sorted_keys str_ltb m ->
  (forall key, bt_get key m = if bool_decide (stated symbols key = []) then None else Some (stated symbols key)) ->
  (key, vs) ∈ m <-> vs = stated symbols key /\ vs <> [].
Proof.
  intros Hs Hget. rewrite <- (bt_get_elem str_ltb) by done. rewrite Hget. case_bool_decide as E; naive_solver.
Qed.

(** Each library base an object states a requirement for is published once,
    in name order, with the greatest version stated for it; the report lists
    exactly the markers that cannot be read and the bases for which two or more
    distinct nonzero versions are stated. *)
Theorem requirements_exact symbols :
  let out := (discover symbols).1 in let skipped := (discover symbols).2 in
  ForallOrdPairs (fun a b => str_ltb (req_symbol a) (req_symbol b) = true) out /\
  (forall r, r ∈ out <-> req_version r ∈ stated symbols (req_symbol r) /\
                         Forall (fun v => v <= req_version r) (stated symbols (req_symbol r))) /\
  (forall r, r ∈ skipped <->
    (exists s, s ∈ symbols /\ eligible s = true /\ marker s = Err r) \/
    (exists key, let vs := published (stated symbols key) in
       1 < len (filter (fun v => v <> 0) vs) /\ r = SeveralVersions key vs (default 0 (last vs)))).
Proof.
  cbv zeta. destruct (discover_seen symbols) as (m & Hs & Hget & ->). cbn [fst snd]. pose proof (seen_elem m symbols) as Hm.
  split; [|split].
  - clear Hget Hm. induction Hs as [|[k v] m Hk Hm IH]; cbn; [constructor|]. constructor; [|done].
    apply Forall_map. exact Hk.
  - intros [k v]. cbn [req_symbol req_version]. rewrite list_elem_of_In, in_map_iff. setoid_rewrite <- list_elem_of_In. split.
    + intros ([k' vs] & [= <- <-] & [-> Hne]%Hm); [|done..]. by apply published_max.
    + intros [Hv Hall]. assert (stated symbols k <> []) as Hne by (intros E; rewrite E in Hv; by apply elem_of_nil in Hv).
      exists (k, stated symbols k). split; [|by apply Hm]. cbn [fst snd]. f_equal.
      destruct (published_max _ Hne) as [H1 H2]. rewrite Forall_forall in Hall, H2. specialize (Hall _ H1). specialize (H2 _ Hv). cbv beta in Hall, H2. lia.
  - intros r. rewrite elem_of_app, !list_elem_of_omap. setoid_rewrite list_elem_of_filter. split.
    + intros [(s & [He Hin] & Hr)|([k vs] & [-> Hne]%Hm & Hc)]; [|..|done|done].
      * left. exists s. destruct (marker s); naive_solver.
      * right. exists k. unfold conflict in Hc. cbn [fst snd] in Hc.
        destruct (1 <? _) eqn:El; [|done]. apply Z.ltb_lt in El. by injection Hc as <-.
    + intros [(s & Hin & He & Hr)|(k & Hlen & ->)]; [left; exists s; by rewrite Hr|]. right. exists (k, stated symbols k).
      split; [apply Hm; [done|done|split; [done|] ]|].
      * intros E. rewrite E in Hlen. by cbn in Hlen.
      * unfold conflict. cbn [fst snd]. by rewrite (proj2 (Z.ltb_lt 1 _) Hlen).
Qed.

(** [extra.rs] looks for an undefined weak [__cxa_pure_virtual] and an
    undefined global [pthread_] symbol anywhere in the table. *)
Lemma extra_discover_exact symbols : extra_discover symbols = mkRequirements
  (existsb (fun s => bool_decide (sym_home s = Undefined) && (eqb_list (sym_name s) (rs "__cxa_pure_virtual") &&
     bool_decide (sym_binding s = Weak))) symbols)
  (existsb (fun s => bool_decide (sym_home s = Undefined) && (starts_with (sym_name s) (rs "pthread_") &&
     bool_decide (sym_binding s = Global))) symbols).
Proof.
  unfold extra_discover. induction symbols as [|s l IH] using rev_ind; [done|].
  rewrite foldl_app, IH, !existsb_app. cbn [foldl existsb]. rewrite !orb_false_r. unfold extra_step.
  destruct (bool_decide (sym_home s = Undefined)); cbn [negb andb]; [|by rewrite !orb_false_r].
  destruct (eqb_list (sym_name s) (rs "__cxa_pure_virtual") && _), (starts_with (sym_name s) (rs "pthread_") && _); cbn;
    by rewrite ?orb_true_r, ?orb_false_r.
Qed.
