(* ===== verification/Localize.v ===== *)
(** * Localize: KOBJ symbol localization

    Models the pure core of [crates/aros-collect/src/kobj_localize.rs]: which
    symbols of an object the make rule localizes, read from the text [nm]
    prints, the arguments [objcopy] gets, and the checks on its result.  Tool
    runs and file publication are not part of this model. *)

From S2P Require Import Prelude Bytes Text Elf.

Definition MAX_LOCALIZATION_ARGUMENT_BYTES : Z := 128 * 1024.
Definition FIXED_BASES : list (list Z) :=
  [rs "DOSBase"; rs "IntuitionBase"; rs "LayersBase"; rs "GfxBase"; rs "OOPBase";
   rs "UtilityBase"; rs "ExpansionBase"; rs "KeymapBase"; rs "KernelBase"].

Inductive localize_error :=
| UndefinedRow (line : Z) | FieldCount (line : Z) | Address (line : Z) | Type_ (line : Z)
| EmptyName | LongName | UnsafeName | NotUtf8 | SizeOverflow | ArgumentLimit
| NotElfObject (e : elf_error) | NotRelocatableObject | ChangedShape | ChangedAbi | NonPortableMode.

(** [awk]'s default field splitting. *)
Definition awk_fields (line : list Z) : list (list Z) :=
  filter (fun field => field <> []) (split_on (fun b => (b =? 32) || (b =? 9)) line).

(** [raw_name.strip_suffix(b"\r").unwrap_or(raw_name)] *)
Definition without_cr (raw_name : list Z) : list Z :=
  match strip_suffix [13] raw_name with Some name => name | None => raw_name end.

Definition is_dynamic_localization_name (raw_name : list Z) : bool :=
  let name := without_cr raw_name in
  if starts_with name (rs "__aros_lib") then true
  else match strip_prefix (rs "__") name with
       | None => false
       | Some rest => ends_with rest (rs "_LIST__") || ends_with rest (rs "_END__")
       end.

Definition safe_name_byte (b : Z) : bool :=
  is_ascii_alphanumeric b || bool_decide (b ∈ rs "_.$@-+").
Definition validate_dynamic_name (raw_name : list Z) : res localize_error unit :=
  let name := without_cr raw_name in
  _ ← refuse (match name with [] => true | _ => false end) EmptyName;
  _ ← ensure (len name <=? 1024) LongName;
  _ ← ensure (forallb safe_name_byte name) UnsafeName;
  Ok tt.

(** One round of [localization_symbols]; state: symbols and argument bytes. *)
Definition localization_line (st : list (list Z) * Z) (x : Z * list Z) : res localize_error (list (list Z) * Z) :=
  let '(symbols, argument_bytes) := st in
  let '(line_index, line) := x in
  match line with
  | [] => Ok st
  | _ =>
    let fields := awk_fields line in
    let is_type f := (len f =? 1) && match f with b :: _ => is_ascii_graphic b | [] => false end in
    match fields with
    | [f0; _] =>
      _ ← ensure (is_type f0) (UndefinedRow (line_index + 1)); Ok st
    | [f0; f1; name] =>
      _ ← ensure (negb (match f0 with [] => true | _ => false end) && forallb is_ascii_hexdigit f0) (Address (line_index + 1));
      _ ← ensure (is_type f1) (Type_ (line_index + 1));
      if negb (is_dynamic_localization_name name) then Ok st
      else
        _ ← validate_dynamic_name name;
        name ← ok_or (from_utf8 name) NotUtf8;
        argument_bytes ← ok_or (checked_add usize_max argument_bytes (str_len name + 2)) SizeOverflow;
        _ ← ensure (argument_bytes <=? MAX_LOCALIZATION_ARGUMENT_BYTES) ArgumentLimit;
        Ok (symbols ++ [name], argument_bytes)
    | _ => Err (FieldCount (line_index + 1))
    end
  end.

Definition argument_sum (symbols : list (list Z)) : Z := foldr (fun s a => str_len s + 2 + a) 0 symbols.
Definition localization_symbols (nm_output : list Z) : res localize_error (list (list Z)) :=
  let lines := split_on (Z.eqb 10) nm_output in
  '(symbols, _) ← foldM localization_line (FIXED_BASES, argument_sum FIXED_BASES) (zip (seqZ 0 (len lines)) lines);
  Ok symbols.

Definition objcopy_command (objcopy object : list Z) (symbols : list (list Z)) : list (list Z) :=
  foldl (fun command symbol => command ++ [rs "-L"] ++ [symbol]) ([objcopy] ++ [object]) symbols.

Definition read_relocatable_elf (bytes : list Z) : res localize_error Object :=
  object ← map_err NotElfObject (Elf.read bytes);
  _ ← ensure (obj_kind object =? 1) NotRelocatableObject;
  Ok object.

(** The comparison [localize] makes between the object before and after. *)
Definition check_localized (original localized : Object) : res localize_error unit :=
  _ ← ensure (bool_decide (obj_class localized = obj_class original) && (obj_machine localized =? obj_machine original)
              && (obj_flags localized =? obj_flags original)) ChangedShape;
  _ ← ensure ((os_abi localized =? os_abi original) && (abi_version localized =? abi_version original)) ChangedAbi;
  Ok tt.

(** Octal 7777, 0644 and 0755. *)
Definition portable_mode (st_mode : Z) : res localize_error Z :=
  let mode := Z.land st_mode 4095 in
  _ ← ensure ((mode =? 420) || (mode =? 493)) NonPortableMode;
  Ok mode.

(** ** The rows of [nm] *)
Definition one_graphic (f : list Z) : Prop := exists b, f = [b] /\ is_ascii_graphic b = true.
Definition hex_address (f : list Z) : Prop := f <> [] /\ Forall (fun b => is_ascii_hexdigit b = true) f.
(** A name of the safe alphabet, perhaps with the carriage return of its line. *)
Definition safe_name (raw : list Z) : Prop :=
  exists name, (raw = name \/ raw = name ++ [13]) /\ name <> [] /\ len name <= 1024 /\
    Forall (fun b => safe_name_byte b = true) name.
Definition row_ok (line : list Z) : Prop :=
  line = [] \/
  (exists t n, awk_fields line = [t; n] /\ one_graphic t) \/
  (exists a t n, awk_fields line = [a; t; n] /\ hex_address a /\ one_graphic t /\
     (is_dynamic_localization_name n = true -> safe_name n)).
(** The name a row selects. *)
Definition selected (line : list Z) : list (list Z) :=
  match awk_fields line with
  | [_; _; n] => if is_dynamic_localization_name n then [n] else []
  | _ => []
  end.

Lemma is_type_spec f : (len f =? 1) && match f with b :: _ => is_ascii_graphic b | [] => false end = true <-> one_graphic f.
Proof.
  unfold one_graphic. rewrite andb_true_iff, Z.eqb_eq. destruct f as [|b [|c f] ].
  - split; [by intros [_ ?]|]. by intros (b & ? & _).
  - split; [intros [_ ?]; by exists b|]. intros (b' & [= <-] & ?). done.
  - split; [rewrite !len_cons; pose proof (len_nonneg f); intros [? _]; lia|]. by intros (b' & [=] & _).
Qed.

Lemma safe_byte_ascii b : safe_name_byte b = true -> 0 <= b < 128 /\ b <> 13.
Proof.
  unfold safe_name_byte, is_ascii_alphanumeric, is_ascii_digit, is_ascii_lowercase, is_ascii_uppercase.
  rewrite !orb_true_iff, !in_range_true, bool_decide_eq_true. intros [H|H]; [lia|].
  revert H. cbn. rewrite !elem_of_cons, elem_of_nil. lia.
Qed.

Lemma without_cr_spec raw name : Forall (fun b => b <> 13) name ->
  without_cr raw = name <-> raw = name \/ raw = name ++ [13].
Proof.
  intros Hn. unfold without_cr. destruct (strip_suffix [13] raw) as [r|] eqn:E.
  - apply strip_suffix_Some in E as ->. split; [intros ->; by right|]. intros [E|E%(inj (fun l => l ++ _))]; [|done].
    rewrite <- E in Hn. apply Forall_app in Hn as [_ Hn]. by apply Forall_cons in Hn as [? _].
  - split; [by left|]. intros [->| ->]; [done|]. by rewrite (proj2 (strip_suffix_Some [13] (name ++ [13]) name)) in E.
Qed.

Lemma validate_dynamic_name_spec raw : validate_dynamic_name raw = Ok tt <-> safe_name raw.
Proof.
  assert (forall name, Forall (fun b => safe_name_byte b = true) name -> Forall (fun b => b <> 13) name) as Hcr.
  { intros name Hn. eapply Forall_impl; [exact Hn|]. cbv beta. intros b Hb%safe_byte_ascii. tauto. }
  unfold validate_dynamic_name, safe_name. split.
  - intros H. inv_ok. exists (without_cr raw). bool_prop.
    match goal with H : forallb _ _ = true |- _ => rewrite forallb_forall in H; rename H into Hs end.
    assert (Forall (fun b => safe_name_byte b = true) (without_cr raw)) as Hall.
    { apply Forall_forall. intros b Hb%list_elem_of_In. by apply Hs. }
    split; [apply without_cr_spec; [by apply Hcr|done]|]. split; [by intros E; rewrite E in *|]. done.
  - intros (name & Hraw & Hne & Hlen & Hall). rewrite (proj2 (without_cr_spec raw name (Hcr _ Hall)) Hraw).
    guard_by ltac:(by destruct name). guard_by ltac:(by apply Z.leb_le). 
    guard_by ltac:(apply forallb_forall; intros b Hb%list_elem_of_In; rewrite Forall_forall in Hall; by apply Hall). done.
Qed.

Lemma safe_name_ascii raw : safe_name raw -> Forall is_ascii raw.
Proof.
  intros (name & Hraw & _ & _ & Hall). assert (Forall is_ascii name) as Hn.
  { eapply Forall_impl; [exact Hall|]. cbv beta. intros b Hb%safe_byte_ascii. unfold is_ascii. lia. }
  destruct Hraw as [->| ->]; [done|]. apply Forall_app. split; [done|]. repeat constructor; done.
Qed.

Lemma hex_spec f : negb (match f with [] => true | _ => false end) && forallb is_ascii_hexdigit f = true <-> hex_address f.
Proof.
  unfold hex_address. rewrite andb_true_iff, negb_true_iff, forallb_forall, Forall_forall. setoid_rewrite <- list_elem_of_In.
  destruct f; naive_solver.
Qed.

(** ** The loop *)
Definition limit : Z := MAX_LOCALIZATION_ARGUMENT_BYTES.
Definition summary (pre : list (Z * list Z)) : list (list Z) * Z :=
  let symbols := FIXED_BASES ++ flat_map selected pre.*2 in (symbols, argument_sum symbols).
Definition rows_ok (pre : list (Z * list Z)) : Prop :=
  Forall row_ok pre.*2 /\ argument_sum (FIXED_BASES ++ flat_map selected pre.*2) <= limit.

Lemma argument_sum_app a b : argument_sum (a ++ b) = argument_sum a + argument_sum b.
Proof. unfold argument_sum. induction a as [|s a IH]; cbn [app foldr]; [lia|]. rewrite IH. lia. Qed.
Lemma argument_sum_nonneg l : 0 <= argument_sum l.
Proof.
  unfold argument_sum. induction l as [|s l IH]; cbn [foldr]; [done|].
  assert (0 <= str_len s) by apply len_nonneg. lia.
Qed.

Lemma localized_summary_snoc pre i line : summary (pre ++ [(i, line)]) =
  ((summary pre).1 ++ selected line, (summary pre).2 + argument_sum (selected line)).
Proof.
  unfold summary. rewrite fmap_app, flat_map_app. cbn [fst snd fmap list_fmap flat_map]. rewrite app_nil_r, app_assoc.
  f_equal. apply argument_sum_app.
Qed.
Lemma rows_ok_snoc pre i line : rows_ok (pre ++ [(i, line)]) <->
  rows_ok pre /\ row_ok line /\ (summary pre).2 + argument_sum (selected line) <= limit.
Proof.
  unfold rows_ok. pose proof (localized_summary_snoc pre i line) as E. apply (f_equal snd) in E. cbn [snd] in E.
  change (argument_sum (FIXED_BASES ++ flat_map selected (pre ++ [(i, line)]).*2)) with (summary (pre ++ [(i, line)])).2.
  change (argument_sum (FIXED_BASES ++ flat_map selected pre.*2)) with (summary pre).2.
  rewrite E, fmap_app, Forall_app. cbn. rewrite Forall_singleton. pose proof (argument_sum_nonneg (selected line)).
  split; intros H1; intuition lia.
Qed.

Lemma line_selects_nothing line : row_ok line -> (forall a t n, awk_fields line = [a; t; n] -> is_dynamic_localization_name n = false) ->
  selected line = [].
Proof.
  intros [->|[(t & n & E & _)|(a & t & n & E & _)] ] Hd; [done|unfold selected; by rewrite E|].
  unfold selected. rewrite E. by rewrite (Hd _ _ _ E).
Qed.

Lemma localization_line_spec pre i line s : rows_ok pre ->
  localization_line (summary pre) (i, line) = Ok s <->
  s = summary (pre ++ [(i, line)]) /\ rows_ok (pre ++ [(i, line)]).
Proof.
  intros Hpre. rewrite rows_ok_snoc, localized_summary_snoc. destruct (summary pre) as [symbols bytes] eqn:Es. cbn [fst snd].
  assert (bytes <= limit) as Hb by (destruct Hpre as [_ H]; unfold summary in Es; by simplify_eq).
  assert (0 <= bytes) as Hb0 by (unfold summary in Es; simplify_eq; apply argument_sum_nonneg).
  unfold localization_line. destruct line as [|c line].
  { unfold selected. cbn. rewrite app_nil_r, Z.add_0_r. unfold row_ok. naive_solver. }
  remember (c :: line) as whole eqn:Ew. assert (whole <> []) as Hne by by subst. clear Ew c line. cbv zeta.
  unfold row_ok, selected.
  destruct (awk_fields whole) as [|f0 [|f1 [|f2 [|f3 fs] ] ] ]; [naive_solver..| | |naive_solver].
  - rewrite bind_Ok. setoid_rewrite ensure_Ok. setoid_rewrite is_type_spec. cbn [argument_sum foldr].
    rewrite app_nil_r, Z.add_0_r. split; [intros (? & ? & [= <-]); naive_solver|].
    intros (-> & _ & [|[(t & n & [= <- <-] & Ht)|(a & t & n & [=] & _)] ] & _); [done|]. by exists tt.
  - rewrite !ensure_bind_Ok, hex_spec, is_type_spec.
    assert (forall P : Prop, (whole = [] \/ (exists t n, [f0; f1; f2] = [t; n] /\ one_graphic t) \/
      exists a t n, [f0; f1; f2] = [a; t; n] /\ hex_address a /\ one_graphic t /\ (is_dynamic_localization_name n = true -> safe_name n)) <->
      hex_address f0 /\ one_graphic f1 /\ (is_dynamic_localization_name f2 = true -> safe_name f2)) as Hrow.
    { intros _. split; [|intros; right; right; by exists f0, f1, f2].
      intros [|[(t & n & [=] & _)|(a & t & n & [= <- <- <-] & H)] ]; done. }
    rewrite (Hrow True). clear Hrow. destruct (is_dynamic_localization_name f2) eqn:Ed; cbn [negb].
    + rewrite (bind_Ok (validate_dynamic_name f2)). cbn [argument_sum foldr]. split.
      * intros (Ha & Ht & [] & Hs%validate_dynamic_name_spec & H). rewrite from_utf8_ascii in H by by apply safe_name_ascii.
        cbn [ok_or] in H. rewrite Ok_bind in H. apply bind_Ok in H as (n & [-> _]%ok_or_Ok%checked_add_Some & H).
        apply ensure_bind_Ok in H as [Hl%Z.leb_le [= <-]]. unfold limit. rewrite Z.add_0_r. split_and!; auto.
      * intros (-> & _ & (Ha & Ht & Hs) & Hl). specialize (Hs eq_refl). split; [done|]. split; [done|]. exists tt.
        split; [by apply validate_dynamic_name_spec|]. rewrite from_utf8_ascii by by apply safe_name_ascii. cbn [ok_or]. rewrite Ok_bind.
        rewrite Z.add_0_r in *. unfold limit, MAX_LOCALIZATION_ARGUMENT_BYTES in *.
        step_by ltac:(apply ok_or_Ok, checked_add_Some; split; [reflexivity|unfold usize_max, u64_max; lia]).
        by guard_by ltac:(by apply Z.leb_le).
    + cbn [argument_sum foldr]. rewrite app_nil_r, Z.add_0_r. split; [intros (Ha & Ht & [= <-]); split_and!; done|].
      intros (-> & _ & (Ha & Ht & _) & _). done.
Qed.

(** [localization_symbols] never panics and accepts an [nm] listing exactly
    when every row is blank, an undefined symbol or an address, a type and a
    name, every selected name is a safe symbol name, and the arguments fit in
    128 KiB; it returns the fixed bases and the selected names in row order.
    Otherwise the error is that of the first row that fails. *)
Theorem localization_exact nm_output :
  let lines := split_on (Z.eqb 10) nm_output in
  localization_symbols nm_output <> Stuck /\
  (forall symbols, localization_symbols nm_output = Ok symbols <->
     Forall row_ok lines /\ symbols = FIXED_BASES ++ flat_map selected lines /\
     argument_sum symbols <= MAX_LOCALIZATION_ARGUMENT_BYTES) /\
  (forall e, localization_symbols nm_output = Err e -> exists before line after,
     lines = before ++ line :: after /\ Forall row_ok before /\
     localization_line (FIXED_BASES ++ flat_map selected before, argument_sum (FIXED_BASES ++ flat_map selected before))
       (len before, line) = Err e).
Proof.
  cbv zeta. set (ls := split_on (Z.eqb 10) nm_output).
  assert ((zip (seqZ 0 (len ls)) ls).*2 = ls) as Hzip.
  { apply snd_zip. rewrite length_seqZ. unfold len. lia. }
  assert (forall l s, foldM localization_line (FIXED_BASES, argument_sum FIXED_BASES) l = Ok s <-> s = summary l /\ rows_ok l) as Hloop.
  { intros l. apply (foldM_iff localization_line summary rows_ok).
    - split; [constructor|vm_compute; done].
    - intros pre [i x] [H _]%rows_ok_snoc. done.
    - intros pre [i x] s _ Hpre. by apply localization_line_spec. }
  unfold localization_symbols. fold ls. split_and!.
  - not_stuck_step; [|not_stuck]. apply (foldM_not_Stuck _ (fun _ => True)); [done| |done]. intros [symbols n] [i x] _ _.
    unfold localization_line, validate_dynamic_name. not_stuck.
  - intros symbols. rewrite bind_Ok. setoid_rewrite Hloop. unfold summary, rows_ok. rewrite Hzip. split.
    + intros ([sy n] & [ [= -> ->] [Hok Hl] ] & [= <-]). done.
    + intros (Hok & -> & Hl). by eexists.
  - intros e H. destruct (foldM _ _ _) as [ [sy n]|e'|] eqn:E; cbn in H; [done| |done]. injection H as ->.
    apply foldM_Err in E as (pre & [i line] & post & s' & Ez & [-> [Hok _] ]%Hloop & He).
    rewrite Ez, fmap_app in Hzip. exists pre.*2, line, post.*2. split; [by rewrite <- Hzip|]. split; [done|].
    assert (i = len pre.*2) as ->; [|exact He].
    assert ((pre ++ (i, line) :: post) !! length pre = Some (i, line)) as Hi by by apply list_lookup_middle.
    rewrite <- Ez in Hi. apply lookup_zip_with_Some in Hi as (i' & l' & [= -> ->] & Hi & _).
    apply lookup_seqZ in Hi as [-> _]. unfold len. rewrite length_fmap. lia.
Qed.
