(* ===== verification/StateRes.v ===== *)
(** * StateRes: computations with a mutable state and an early exit

    A method on [&mut self] that returns [Result<A, E>] is a function from the
    state to an outcome and the state it leaves.  [sim lim I Q m p] relates
    such a method to a pure reference [p]: from a state in [I], a result is the
    result of [p], satisfies [Q] and leaves a state in [I]; an error is either
    one of the class [lim] (a resource limit) or exactly the error of [p]; and
    the method panics only where [p] does.  The relation composes along the
    code, so a refinement proof follows the method's statements. *)

From S2P Require Import Prelude.

Definition SR (S E A : Type) : Type := S -> res E A * S.

#[global] Instance SR_ret {S E} : MRet (SR S E) := fun A a s => (Ok a, s).
#[global] Instance SR_bind {S E} : MBind (SR S E) := fun A B f m s =>
  match m s with
  | (Ok a, s) => f a s
  | (Err e, s) => (Err e, s)
  | (Stuck, s) => (Stuck, s)
  end.

Section operations.
Context {S E : Type}.

(** A pure step. *)
Definition lift {A} (c : res E A) : SR S E A := fun s => (c, s).
Definition fail {A} (e : E) : SR S E A := fun s => (Err e, s).
Definition gets {A} (f : S -> A) : SR S E A := fun s => (Ok (f s), s).
Definition update (f : S -> S) : SR S E unit := fun s => (Ok tt, f s).

(** [for x in l { acc = f(acc, x)?; }] *)
Fixpoint forM {A B} (f : B -> A -> SR S E B) (acc : B) (l : list A) : SR S E B :=
  match l with
  | [] => mret acc
  | x :: l => acc ← f acc x; forM f acc l
  end.

(** [let r = m; undo; r?]: the state change is undone whether or not [m] fails. *)
Definition bracket {A} (enter leave : S -> S) (m : SR S E A) : SR S E A := fun s =>
  let '(r, s) := m (enter s) in (r, leave s).
End operations.

Lemma SR_bind_ext {S E A B} (m : SR S E A) (f g : A -> SR S E B) s :
  (forall a s, f a s = g a s) -> (m ≫= f) s = (m ≫= g) s.
Proof. intros Hfg. unfold mbind, SR_bind. destruct (m s) as [[a|e|] s']; auto. Qed.

Lemma SR_bind_Ok {S E A B} (m : SR S E A) (f : A -> SR S E B) s b s' :
  (m ≫= f) s = (Ok b, s') <-> exists a s1, m s = (Ok a, s1) /\ f a s1 = (Ok b, s').
Proof.
  unfold mbind, SR_bind. destruct (m s) as [[a|e|] s1]; split; try naive_solver.
Qed.

Lemma lift_Ok {S E A} (c : res E A) (s : S) a s' : lift c s = (Ok a, s') <-> c = Ok a /\ s' = s.
Proof. unfold lift. naive_solver. Qed.

(** Running a step that succeeds. *)
Lemma lift_bind {S E A B} (c : res E A) (f : A -> SR S E B) a s : c = Ok a -> (lift c ≫= f) s = f a s.
Proof. by intros ->. Qed.
Lemma SR_bind_step {S E A B} (m : SR S E A) (f : A -> SR S E B) a s s1 : m s = (Ok a, s1) -> (m ≫= f) s = f a s1.
Proof. unfold mbind, SR_bind. by intros ->. Qed.
Lemma SR_bind_mret {S E A} (m : SR S E A) s : (a ← m; mret a) s = m s.
Proof. unfold mbind, SR_bind, mret, SR_ret. by destruct (m s) as [ [a|e|] s']. Qed.
Lemma forM_app {S E A B} (f : B -> A -> SR S E B) b l1 l2 s b1 s1 : forM f b l1 s = (Ok b1, s1) ->
  forM f b (l1 ++ l2) s = forM f b1 l2 s1.
Proof.
  revert b s. induction l1 as [|x l1 IH]; intros b s; cbn [forM app]; [by intros [= <- <-]|].
  intros (b' & s' & Hx & Hrest)%SR_bind_Ok. rewrite (SR_bind_step _ _ _ _ _ Hx). by apply IH.
Qed.

Lemma gets_Ok {S E A} (f : S -> A) (s : S) a s' : gets (E:=E) f s = (Ok a, s') <-> a = f s /\ s' = s.
Proof. unfold gets. naive_solver. Qed.
Lemma update_Ok {S E} (f : S -> S) (s : S) u s' : update (E:=E) f s = (Ok u, s') <-> s' = f s.
Proof. unfold update. destruct u. naive_solver. Qed.

(** [inv_sr]: read a successful run backwards, statement by statement. *)
Ltac inv_sr_step :=
  match goal with
  | H : (_ ≫= _) _ = (Ok _, _) |- _ => apply SR_bind_Ok in H; destruct H as (? & ? & ? & ?)
  | H : lift _ _ = (Ok _, _) |- _ => apply lift_Ok in H; destruct H as [? ->]
  | H : gets _ _ = (Ok _, _) |- _ => apply gets_Ok in H; destruct H as [-> ->]
  | H : update _ _ = (Ok _, _) |- _ => apply update_Ok in H; subst
  | H : mret _ _ = (Ok _, _) |- _ => injection H as ? ?; subst
  | H : fail _ _ = (Ok _, _) |- _ => discriminate H
  end.
Ltac inv_sr := repeat (inv_sr_step; cbn beta in *).

(** ** State properties that hold whatever the outcome *)
Section preserves.
Context {S E : Type} (I : S -> Prop).

Definition preserves {A} (m : SR S E A) : Prop := forall s, I s -> I (m s).2.

Lemma preserves_bind {A B} (m : SR S E A) (f : A -> SR S E B) :
  preserves m -> (forall a, preserves (f a)) -> preserves (m ≫= f).
Proof.
  intros Hm Hf s Hs. specialize (Hm s Hs). unfold mbind, SR_bind.
  destruct (m s) as [[a|e|] s']; [by apply Hf|done|done].
Qed.
Lemma preserves_ret {A} (a : A) : preserves (mret a).
Proof. by intros s Hs. Qed.
Lemma preserves_lift {A} (c : res E A) : preserves (lift c).
Proof. by intros s Hs. Qed.
Lemma preserves_fail {A} (e : E) : preserves (A:=A) (fail e).
Proof. by intros s Hs. Qed.
Lemma preserves_forM {A B} (f : B -> A -> SR S E B) l : (forall b a, preserves (f b a)) ->
  forall b, preserves (forM f b l).
Proof.
  intros Hf. induction l as [|a l IH]; intros b; cbn [forM]; [apply preserves_ret|].
  apply preserves_bind; [apply Hf|intros; apply IH].
Qed.
End preserves.
Create HintDb preserves discriminated.
#[export] Hint Resolve preserves_ret preserves_lift preserves_fail : preserves.
(** [keep]: peel the statements of a method off a goal [preserves]. *)
Ltac keep := repeat (match goal with
  | |- preserves _ (_ ≫= _) => apply preserves_bind; [|intros ?]
  | |- preserves _ (forM _ _ _) => apply preserves_forM; intros ? ?
  | |- preserves _ (if ?b then _ else _) => destruct b
  | |- preserves _ (let '(_, _) := ?x in _) => destruct x
  | _ => solve [eauto with preserves]
  end; cbv zeta).

(** [traverse] of a fallible pure function. *)
Fixpoint mapR {E A B} (f : A -> res E B) (l : list A) : res E (list B) :=
  match l with
  | [] => Ok []
  | x :: l => b ← f x; bs ← mapR f l; Ok (b :: bs)
  end.

Lemma res_bind_assoc {E A B C} (c : res E A) (f : A -> res E B) (g : B -> res E C) :
  ((c ≫= f) ≫= g) = (c ≫= fun a => f a ≫= g).
Proof. by destruct c. Qed.

(** ** Simulation by a pure reference *)
Section sim.
Context {S E : Type} (lim : E -> Prop).

Definition sim {A} (I : S -> Prop) (Q : A -> Prop) (m : SR S E A) (p : res E A) : Prop :=
  forall s, I s ->
  match m s with
  | (Ok a, s') => p = Ok a /\ Q a /\ I s'
  | (Err e, _) => lim e \/ p = Err e
  | (Stuck, _) => p = Stuck
  end.

Lemma sim_ret {A} (I : S -> Prop) (Q : A -> Prop) a : Q a -> sim I Q (mret a) (Ok a).
Proof. intros HQ s HI. cbn. auto. Qed.

Lemma sim_fail {A} (I : S -> Prop) (Q : A -> Prop) e : sim I Q (fail e) (Err e).
Proof. intros s HI. cbn. auto. Qed.

Lemma sim_limit {A} (I : S -> Prop) (Q : A -> Prop) e p : lim e -> sim I Q (fail e) p.
Proof. intros He s HI. cbn. auto. Qed.

Lemma sim_lift {A} (I : S -> Prop) (Q : A -> Prop) c :
  (forall a, c = Ok a -> Q a) -> sim I Q (lift c) c.
Proof. intros HQ s HI. unfold lift. destruct c; auto. Qed.

Lemma sim_bind {A B} (I : S -> Prop) (Q : A -> Prop) (R : B -> Prop) m p f q :
  sim I Q m p -> (forall a, p = Ok a -> Q a -> sim I R (f a) (q a)) -> sim I R (m ≫= f) (p ≫= q).
Proof.
  intros Hm Hf s HI. specialize (Hm s HI). unfold mbind at 1, SR_bind.
  destruct (m s) as [[a|e|] s'].
  - destruct Hm as (Hp & HQ & HI'). rewrite Hp. cbn. by apply Hf.
  - destruct Hm as [Hl| ->]; [by left|by right].
  - by rewrite Hm.
Qed.

(** A step that contributes nothing to the reference: it only changes the
    state within [I] or stops at a limit. *)
Definition silent (I : S -> Prop) (m : SR S E unit) : Prop :=
  forall s, I s -> match m s with (Ok _, s') => I s' | (Err e, _) => lim e | (Stuck, _) => False end.

Lemma silent_bind (I : S -> Prop) m m' : silent I m -> silent I m' -> silent I (m ≫= fun _ => m').
Proof.
  intros Hm Hm' s Hs. specialize (Hm s Hs). unfold mbind, SR_bind.
  destruct (m s) as [[ []|e|] s']; [by apply Hm'|done|done].
Qed.

Lemma sim_silent {B} (I : S -> Prop) (R : B -> Prop) m f q :
  silent I m -> sim I R (f tt) q -> sim I R (m ≫= f) q.
Proof.
  intros Hm Hf s HI. specialize (Hm s HI). unfold mbind, SR_bind.
  destruct (m s) as [[ []|e|] s']; [by apply Hf|by left|done].
Qed.

Lemma sim_assoc {A B C} (I : S -> Prop) (R : C -> Prop) (m : SR S E A) (f : A -> SR S E B) (g : B -> SR S E C) q :
  sim I R (m ≫= fun a => f a ≫= g) q -> sim I R ((m ≫= f) ≫= g) q.
Proof.
  intros Hm s HI. specialize (Hm s HI). unfold mbind, SR_bind in *. by destruct (m s) as [[a|e|] s'].
Qed.

(** A step that may stop at a limit and otherwise yields a known value. *)
Lemma sim_bind_ok {A B} (I : S -> Prop) (Q : A -> Prop) (R : B -> Prop) m a f q :
  sim I Q m (Ok a) -> (Q a -> sim I R (f a) q) -> sim I R (m ≫= f) q.
Proof.
  intros Hm Hf. change q with ((Ok a : res E A) ≫= fun _ => q).
  eapply sim_bind; [done|]. intros a' [= <-]. done.
Qed.

Lemma sim_lift_ok {A B} (I : S -> Prop) (R : B -> Prop) (a : A) f q :
  sim I R (f a) q -> sim I R (lift (Ok a) ≫= f) q.
Proof. done. Qed.

Lemma sim_lift_err {A B} (I : S -> Prop) (R : B -> Prop) e (f : A -> SR S E B) :
  sim I R (lift (Err e) ≫= f) (Err e).
Proof. intros s HI. by right. Qed.

(** A pure step both sides take. *)
Lemma sim_pure {A B} (I : S -> Prop) (R : B -> Prop) (c : res E A) f q :
  (forall a, c = Ok a -> sim I R (f a) (q a)) -> sim I R (lift c ≫= f) (c ≫= q).
Proof. intros Hf. eapply (sim_bind I (fun _ => True)); [by apply sim_lift|auto]. Qed.

(** [gets] of a component the invariant fixes. *)
Lemma sim_gets_at {A B} (I : S -> Prop) (R : B -> Prop) (g : S -> A) a f q :
  (forall s, I s -> g s = a) -> sim I R (f a) q -> sim I R (gets g ≫= f) q.
Proof. intros Hg Hf s HI. unfold mbind, SR_bind, gets. rewrite (Hg s HI). by apply Hf. Qed.

Lemma sim_weaken {A} (I : S -> Prop) (Q R : A -> Prop) m p :
  sim I Q m p -> (forall a, p = Ok a -> Q a -> R a) -> sim I R m p.
Proof.
  intros Hm HR s HI. specialize (Hm s HI). destruct (m s) as [[a|e|] s']; [|done..].
  destruct Hm as (Hp & HQ & HI'). auto.
Qed.

Lemma sim_eq {A} (I : S -> Prop) (Q : A -> Prop) m p p' : sim I Q m p -> p = p' -> sim I Q m p'.
Proof. by intros ? ->. Qed.

(** What a run from a state in [I] shows. *)
Lemma sim_run {A} (I : S -> Prop) (Q : A -> Prop) m p s : sim I Q m p -> I s ->
  match fst (m s) with
  | Ok a => p = Ok a /\ Q a
  | Err e => lim e \/ p = Err e
  | Stuck => p = Stuck
  end.
Proof. intros Hm HI. specialize (Hm s HI). destruct (m s) as [[a|e|] s']; cbn; naive_solver. Qed.

Lemma sim_forM {A B} (I : S -> Prop) (Q : B -> Prop) (f : B -> A -> SR S E B) g l : forall acc,
  Q acc -> (forall acc x, x ∈ l -> Q acc -> sim I Q (f acc x) (g acc x)) ->
  sim I Q (forM f acc l) (foldM g acc l).
Proof.
  induction l as [|x l IH]; intros acc HQ Hf; cbn; [by apply sim_ret|].
  eapply sim_bind; [by apply Hf; [left|]|]. intros acc' _ HQ'. apply IH; [done|].
  intros acc'' y Hy. apply Hf. by right.
Qed.

(** A step whose result is a function of the reference's result. *)
Lemma sim_bind_map {A B C} (I : S -> Prop) (Q : A -> Prop) (R : B -> Prop) m (p : res E C) (h : C -> A) f q :
  sim I Q m (c ← p; Ok (h c)) -> (forall c, p = Ok c -> sim I R (f (h c)) (q c)) -> sim I R (m ≫= f) (p ≫= q).
Proof.
  intros Hm Hf s HI. specialize (Hm s HI). unfold mbind at 1, SR_bind. destruct (m s) as [[a|e|] s'], p as [c|e'|]; cbn in *;
    try (destruct Hm as [ | [=] ]; by left); try naive_solver.
Qed.

(** A loop that computes a value per element and folds it into the accumulator. *)
Lemma sim_forM_map {A B C} (I : S -> Prop) (f : C -> A -> SR S E C) (p : A -> res E B) (h : C -> B -> C) l : forall acc,
  (forall acc x, x ∈ l -> sim I (fun _ => True) (f acc x) (b ← p x; Ok (h acc b))) ->
  sim I (fun _ => True) (forM f acc l) (bs ← mapR p l; Ok (foldl h acc bs)).
Proof.
  induction l as [|x l IH]; intros acc Hf; cbn; [by apply sim_ret|].
  eapply sim_eq; [eapply (sim_bind I (fun _ => True) _ _ _ _ (fun acc => bs ← mapR p l; Ok (foldl h acc bs)));
                  [apply Hf; by left|]|].
  - intros acc' _ _. apply IH. intros acc'' y Hy. apply Hf. by right.
  - rewrite !res_bind_assoc. destruct (p x); cbn; [|done..]. by rewrite res_bind_assoc.
Qed.

Lemma sim_bracket {A} (I J : S -> Prop) (Q : A -> Prop) enter leave m p :
  (forall s, I s -> J (enter s)) -> (forall s, J s -> I (leave s)) ->
  sim J Q m p -> sim I Q (bracket enter leave m) p.
Proof.
  intros Hin Hout Hm s HI. unfold bracket. specialize (Hm (enter s) (Hin s HI)).
  destruct (m (enter s)) as [[a|e|] s']; [|done..]. destruct Hm as (? & ? & ?). auto.
Qed.
End sim.

Lemma mapR_length {E A B} (f : A -> res E B) l bs : mapR f l = Ok bs -> length bs = length l.
Proof.
  revert bs. induction l as [|x l IH]; intros bs Hb; cbn in Hb; inv_ok; [done|]. cbn. f_equal. eauto.
Qed.

Lemma mapR_not_Stuck {E A B} (f : A -> res E B) l :
  (forall x, x ∈ l -> f x <> Stuck) -> mapR f l <> Stuck.
Proof.
  induction l as [|x l IH]; intros Hf; cbn; [done|].
  apply bind_not_Stuck; [apply Hf; by left|]. intros b _.
  apply bind_not_Stuck; [apply IH; intros; apply Hf; by right|done].
Qed.
