(* ===== verification/MakeVars.v ===== *)
(** * MakeVars: Make variables as of a line

    Models the positional queries of
    [crates/aros-transpiler/src/make_vars.rs]: a scope keeps every assignment of
    an mmakefile in file order and answers per line. *)

From stdpp Require Import gmap.
From S2P Require Import Prelude Text.

Inductive AssignmentKind := SimpleSet | RecursiveSet | SetIfUnset | Append | Undefine.

#[global] Instance assignment_kind_eq_dec : EqDecision AssignmentKind.
Proof. solve_decision. Defined.

Abbreviation names := (gmap (list Z)).

(** [configuration] is only read by name, so its key order is not kept. *)
Record VarScope := mkScope
  { configuration : names (list Z);
    assignments : names (list (Z * list (list Z)));
    raw : names (list (Z * list Z));
    undefinitions : names (list Z);
    flavor_uncertainties : names (list (Z * option (list Z)));
    path_raw : names (list (Z * list Z));
    conditional_assignments : names (list (Z * AssignmentKind));
    opaque_assignments : names (list Z);
    opaque_all_assignments : list Z;
    path_replacements : names (list Z);
    uncertain_path_values : names (list Z);
    local_names : gset (list Z) }.

(** [history.iter().rev().find(|x| at(x) < line)] *)
Definition last_before {A} (at_ : A -> Z) (line : Z) (history : list A) : option A :=
  List.find (fun x => at_ x <? line) (rev history).

(** [Option::max] *)
Definition option_max (a b : option Z) : option Z :=
  match a, b with
  | Some x, Some y => Some (Z.max x y)
  | Some x, None | None, Some x => Some x
  | None, None => None
  end.

Section queries.
Context (s : VarScope).

(** The line of the last replacing assignment before [line]. *)
Definition reset_before (name : list Z) (line : Z) : option Z :=
  path_replacements s !! name ≫= last_before id line.

Definition has_opaque_assignment_before (name : list Z) (line : Z) : bool :=
  let latest_opaque := option_max (opaque_assignments s !! name ≫= last_before id line)
                                  (last_before id line (opaque_all_assignments s)) in
  let reset := reset_before name line in
  match latest_opaque with
  | None => false
  | Some opaque => match reset with None => true | Some reset => reset <? opaque end
  end.

Definition has_uncertain_path_value_before (name : list Z) (line : Z) : bool :=
  let reset := reset_before name line in
  match uncertain_path_values s !! name with
  | None => false
  | Some history =>
    existsb (fun at_ => (at_ <? line) && match reset with None => true | Some r => r <=? at_ end) history
  end.

(** An unresolved conditional assignment that no replacement has superseded. *)
Definition unresolved_conditional (name : list Z) (line : Z) : bool :=
  let reset := reset_before name line in
  match conditional_assignments s !! name with
  | None => false
  | Some history =>
    existsb (fun x => (x.1 <? line) && match reset with None => true | Some r => r <? x.1 end) history
  end.

Definition path_is_conditional_at (name : list Z) (line : Z) : bool :=
  has_opaque_assignment_before name line || unresolved_conditional name line
  || has_uncertain_path_value_before name line.
Definition conditionally_assigned_before (name : list Z) (line : Z) : bool :=
  path_is_conditional_at name line.
Definition is_known_local (name : list Z) : bool := bool_decide (name ∈ local_names s).

Definition raw_at (name : list Z) (line : Z) : option (list Z) :=
  if has_opaque_assignment_before name line || has_uncertain_path_value_before name line then None
  else match raw s !! name ≫= last_before fst line with
       | Some (_, v) => Some v
       | None => configuration s !! name
       end.

Definition frozen_raw_at (name : list Z) (line : Z) : option (list Z * Z) :=
  if has_opaque_assignment_before name line || negb (has_uncertain_path_value_before name line) then None
  else if unresolved_conditional name line then None
  else (fun x => (x.2, x.1)) <$> (raw s !! name ≫= last_before fst line).

Definition path_raw_at (name : list Z) (line : Z) : option (list Z) :=
  if has_opaque_assignment_before name line || has_uncertain_path_value_before name line then None
  else match path_raw s !! name ≫= last_before fst line with
       | Some (_, v) => Some v
       | None => configuration s !! name
       end.

Definition conditionally_appended_only_before (name : list Z) (line : Z) : bool :=
  match conditional_assignments s !! name with
  | None => false
  | Some history =>
    let before := List.filter (fun x => x.1 <? line) history in
    match before with
    | [] => false
    | _ => forallb (fun x => bool_decide (x.2 = Append)) before
    end
  end.

Definition is_defined_before (name : list Z) (line : Z) : bool :=
  if has_opaque_assignment_before name line then true
  else match raw s !! name ≫= last_before fst line, undefinitions s !! name ≫= last_before id line with
       | Some (set_at, _), Some undefine_at => undefine_at <? set_at
       | Some _, None => true
       | None, Some _ => false
       | None, None => bool_decide (is_Some (configuration s !! name))
       end.

(** Local assignments shadow the configuration; undecided names are dropped. *)
Definition snapshot (line : Z) : names (list (list Z)) :=
  filter (fun x => is_defined_before x.1 line = true /\ has_opaque_assignment_before x.1 line = false
                   /\ has_uncertain_path_value_before x.1 line = false)
    (omap (fun history => snd <$> last_before fst line history) (assignments s)
     ∪ (split_whitespace <$> configuration s)).
End queries.

Lemma find_append {A} (f : A -> bool) l1 l2 : List.find f l1 = None -> List.find f (l1 ++ l2) = List.find f l2.
Proof. induction l1 as [|x l1 IH]; cbn; [done|]. by destruct (f x). Qed.
