(* ===== verification/MakeLines.v ===== *)
(** * MakeLines: reading one logical line of an mmakefile

    Models the line syntax of [crates/aros-transpiler/src/make_vars.rs]:
    assignments, [undefine], comments, conditional directives and their
    operands, the references in a value, and the bodies of [define]. *)

From stdpp Require Import gmap.
From S2P Require Import Prelude Text Ordered MakeVars.

Definition is_name_char (c : Z) : bool := is_ascii_alphanumeric c || (c =? 95) || (c =? 45).
Definition is_scoped_variable_name (name : list Z) : bool :=
  negb (eqb_list name []) && forallb is_name_char name.

(** [haystack.find(needle)]; offsets count characters, which keeps their order. *)
Fixpoint find_str (needle s : list Z) : option nat :=
  if starts_with s needle then Some O
  else match s with
       | [] => None
       | _ :: s => S <$> find_str needle s
       end.
(** [s.find(|c| f(c))] as the text before and from the character. *)
Fixpoint break_at (f : Z -> bool) (s : list Z) : option (list Z * list Z) :=
  match s with
  | [] => None
  | c :: r => if f c then Some ([], s) else (fun x => (c :: x.1, x.2)) <$> break_at f r
  end.
(** [Iterator::min_by_key]: the first of the least elements. *)
Fixpoint min_by_key {A} (key : A -> nat) (l : list A) : option A :=
  match l with
  | [] => None
  | x :: l =>
    match min_by_key key l with
    | None => Some x
    | Some y => Some (if Nat.ltb (key y) (key x) then y else x)
    end
  end.
(** [Iterator::find_map] *)
Fixpoint find_map {A B} (f : A -> option B) (l : list A) : option B :=
  match l with
  | [] => None
  | x :: l => match f x with Some y => Some y | None => find_map f l end
  end.

(** ** Assignments and comments *)
Definition assignment_operators : list (list Z * AssignmentKind) :=
  [(rs "::=", SimpleSet); (rs ":=", SimpleSet); (rs "+=", Append); (rs "?=", SetIfUnset); (rs "=", RecursiveSet)].

Definition variable_assignment (line : list Z) : option (list Z * list Z * AssignmentKind) :=
  let trimmed := trim line in
  '(at_, width, kind) ← min_by_key (fun x => x.1.1)
    (omap (fun '(op, kind) => (fun at_ => (at_, length op, kind)) <$> find_str op trimmed) assignment_operators);
  let name := trim (take at_ trimmed) in
  if is_scoped_variable_name name then Some (name, trim (drop (at_ + width) trimmed), kind) else None.

(** An odd run of backslashes, read backwards from the marker. *)
Fixpoint escaped (before : list Z) : bool :=
  match before with
  | 92 :: before => negb (escaped before)
  | _ => false
  end.
Fixpoint strip_comment_from (before rest : list Z) : list Z :=
  match rest with
  | [] => rev before
  | c :: r => if (c =? 35) && negb (escaped before) then rev before else strip_comment_from (c :: before) r
  end.
Definition strip_make_comment (line : list Z) : list Z := strip_comment_from [] line.

Definition directive_tail (line word : list Z) : option (list Z) :=
  tail ← strip_prefix word line;
  match tail with
  | [] => Some []
  | c :: _ => if is_whitespace c || (c =? 40) then Some (trim tail) else None
  end.

Definition undefine_directive (line : list Z) : ropt (option (list Z)) :=
  let trimmed := trim (strip_make_comment line) in
  match variable_assignment trimmed with
  | Some _ => Ok None
  | None =>
    match directive_tail trimmed (rs "undefine") with
    | None => Ok None
    | Some tail => let name := trim tail in if is_scoped_variable_name name then Ok (Some name) else Err tt
    end
  end.

(** ** Operands of a conditional *)
Definition is_quote (c : Z) : bool := (c =? 39) || (c =? 34).

Fixpoint split_comma (quote : option Z) (paren brace : nat) (s : list Z) : option (list Z * list Z) :=
  match s with
  | [] => None
  | c :: r =>
    let skip quote paren brace := (fun x => (c :: x.1, x.2)) <$> split_comma quote paren brace r in
    match quote with
    | Some delimiter => skip (if c =? delimiter then None else quote) paren brace
    | None =>
      if is_quote c then skip (Some c) paren brace
      else if c =? 40 then skip None (S paren) brace
      else if c =? 41 then skip None (pred paren) brace
      else if c =? 123 then skip None paren (S brace)
      else if c =? 125 then skip None paren (pred brace)
      else if (c =? 44) && Nat.eqb paren 0 && Nat.eqb brace 0 then Some ([], r)
      else skip None paren brace
    end
  end.
Definition split_top_level_comma (raw : list Z) : option (list Z * list Z) := split_comma None 0 0 raw.

Definition take_condition_word (raw : list Z) : option (list Z * list Z) :=
  match trim_start raw with
  | [] => None
  | c :: after =>
    if is_quote c then
      '(word, rest) ← split_once c after;
      Some (c :: word ++ [c], rest)
    else Some (default (c :: after, []) (break_at is_whitespace (c :: after)))
  end.

Definition unquote_condition_value (raw : list Z) : list Z :=
  match trim raw with
  | c :: r =>
    if is_quote c && bool_decide (last r = Some c) then removelast r else c :: r
  | [] => []
  end.

Definition equality_operands (raw : list Z) : option (list Z * list Z) :=
  let raw := trim raw in
  if starts_with raw [40] && ends_with raw [41] then split_top_level_comma (removelast (tail raw))
  else
    '(left_, rest) ← take_condition_word raw;
    '(right_, trailing) ← take_condition_word rest;
    if eqb_list (trim trailing) [] then Some (unquote_condition_value left_, unquote_condition_value right_) else None.

Definition condition_pattern_matches (pattern word : list Z) : bool :=
  match split_once 37 pattern with
  | None => eqb_list pattern word
  | Some (prefix, suffix) =>
    (str_len prefix + str_len suffix <=? str_len word) && starts_with word prefix && ends_with word suffix
  end.

(** ** References in a value

    The scanners of a value all look for the next dollar, copy what is before
    it, and find the end of a reference by counting brackets.  [pieces] is that
    scan: every character outside references, and every reference with its
    body.  The end of the text inside a reference is an [Unclosed] piece.

    While a reference is open, [closing] holds the brackets still to come, the
    innermost first.  [expand_immediate_locals_impl] and
    [expand_condition_operand] count only openings of the reference's own kind;
    [scoped_variable_references] counts both kinds ([mixed]). *)
Inductive piece :=
| Literal (c : Z)
| Escaped                            (* [$$] *)
| Lone                               (* a dollar at the end, or before any other character *)
| Ref (opening : Z) (body : list Z)
| Unclosed (text : list Z).

Definition closer (c : Z) : option Z := if c =? 40 then Some 41 else if c =? 123 then Some 125 else None.
Definition nested_closer (mixed : bool) (opening c : Z) : option Z :=
  if mixed || (c =? opening) then closer c else None.

Record open_reference := mkOpen { opening_ : Z; top_ : Z; below_ : list Z; seen_ : list Z (* reversed *) }.

Fixpoint pieces (mixed : bool) (inside : option open_reference) (s : list Z) : list piece :=
  match s with
  | [] => match inside with
          | None => []
          | Some o => [Unclosed (36 :: opening_ o :: rev (seen_ o))]
          end
  | c :: r =>
    match inside with
    | None =>
      if negb (c =? 36) then Literal c :: pieces mixed None r
      else match r with
           | [] => [Lone]
           | d :: r' =>
             if d =? 36 then Escaped :: pieces mixed None r'
             else match closer d with
                  | Some close => pieces mixed (Some (mkOpen d close [] [])) r'
                  | None => Lone :: pieces mixed None r
                  end
           end
    | Some (mkOpen opening top below seen) =>
      let plain :=
        if c =? top then
          match below with
          | [] => Ref opening (rev seen) :: pieces mixed None r
          | b :: below => pieces mixed (Some (mkOpen opening b below (c :: seen))) r
          end
        else pieces mixed (Some (mkOpen opening top below (c :: seen))) r in
      match r with
      | [] => plain
      | d :: r' =>
        match (if c =? 36 then nested_closer mixed opening d else None) with
        | Some close => pieces mixed (Some (mkOpen opening close (top :: below) (d :: c :: seen))) r'
        | None => plain
        end
      end
    end
  end.

(** [scoped_variable_references]: names in references, nested ones too. *)
Fixpoint collect_references (depth : nat) (value : list Z) : list (list Z) :=
  match depth with
  | O => []
  | S depth =>
    pieces true None value ≫= fun p =>
      match p with
      | Ref _ body =>
        let body := trim body in
        if is_scoped_variable_name body then [body]
        else match split_once 58 body with
             | Some (name, suffix) =>
               let name := trim name in
               if is_scoped_variable_name name then name :: collect_references depth suffix
               else collect_references depth body
             | None => collect_references depth body
             end
      | _ => []
      end
  end.
Definition scoped_variable_references (value : list Z) : list (list Z) :=
  dedup_adjacent (sort_words (collect_references 16 value)).

Fixpoint scalar_references (value : list Z) : list (list Z) :=
  match value with
  | [] => []
  | c :: reference =>
    (if c =? 36 then
       match reference with
       | d :: r =>
         match closer d with
         | Some close => match split_once close r with Some (name, _) => [name] | None => [] end
         | None => []
         end
       | [] => []
       end
     else []) ++ scalar_references reference
  end.

(** Whether a word of a list is usable as a list item. *)
Definition keep_list_item (s : list Z) : bool :=
  if eqb_list s [] || contains_char 44 s then false
  else if starts_with s (rs "$(") && ends_with s [41] && negb (contains_char 41 (removelast (drop 2 s))) then true
  else negb (contains_char 36 s) && negb (contains_char 41 s).

(** ** Bodies of [define] *)
Inductive DefineBinding := Known (name : list Z) | UnknownName.

Definition is_modifier (word : list Z) : bool :=
  eqb_list word (rs "override") || eqb_list word (rs "export") || eqb_list word (rs "private").
(** [splitn(2, char::is_whitespace)], the second part trimmed. *)
Definition first_word (line : list Z) : list Z * list Z :=
  match break_at is_whitespace line with
  | None => (line, [])
  | Some (word, rest) => (word, trim (tail rest))
  end.
(** The [while] loop over modifiers; [left] is [3 - modifiers]. *)
Fixpoint skip_modifiers (left_ : nat) (word rest : list Z) : nat * list Z * list Z :=
  match left_ with
  | O => (O, word, rest)
  | S n => if is_modifier word then let '(word, rest) := first_word rest in skip_modifiers n word rest
           else (left_, word, rest)
  end.
Definition make_define_directive (line : list Z) : option (list Z * list Z) :=
  let line := trim_start (strip_make_comment (trim_start line)) in
  let '(word, rest) := first_word line in
  let '(left_, word, rest) := skip_modifiers 3 word rest in
  if eqb_list word (rs "define") || eqb_list word (rs "endef") then Some (word, rest)
  else if Nat.eqb left_ 0 && is_modifier word then Some (rs "define", [])
  else None.

Definition define_variable_name (arguments : list Z) : option (list Z) :=
  let arguments := trim arguments in
  let name := match variable_assignment arguments with Some (name, _, _) => name | None => arguments end in
  if is_scoped_variable_name name then Some name else None.

(** Per line: suppressed, and the name a top-level [define] binds. *)
Definition define_line (depth : Z) (raw_line : list Z) : bool * option DefineBinding * Z :=
  if starts_with raw_line [9] then (0 <? depth, None, depth)
  else
    let directive := make_define_directive raw_line in
    let inside_define := 0 <? depth in
    (inside_define || bool_decide (is_Some directive),
     match directive with
     | Some (word, arguments) =>
       if eqb_list word (rs "define") && negb inside_define then
         Some (match define_variable_name arguments with Some name => Known name | None => UnknownName end)
       else None
     | None => None
     end,
     match directive with
     | Some (word, arguments) =>
       if eqb_list word (rs "define") then Z.min usize_max (depth + 1)
       else if eqb_list arguments [] && inside_define then depth - 1
       else depth
     | None => depth
     end).
Fixpoint scan_define_bodies (depth : Z) (ls : list (list Z)) : list (bool * option DefineBinding) :=
  match ls with
  | [] => []
  | raw_line :: ls =>
    let '(suppressed, header, depth) := define_line depth raw_line in
    (suppressed, header) :: scan_define_bodies depth ls
  end.

(** A top-level [$(error ...)] call. *)
Definition is_make_error_directive (line : list Z) : bool :=
  let line := trim line in
  match strip_prefix (rs "$(error") line with
  | Some (c :: _) => ((c =? 32) || (c =? 9) || (c =? 41)) && ends_with line [41]
  | _ => false
  end.
