(* ===== verification/MakeCond.v ===== *)
(** * MakeCond: conditionals of an mmakefile under a partly known target

    Models the target context of [crates/aros-transpiler/src/parser.rs] and the
    conditional side of [make_vars.rs]: three-valued truth, the frame of an open
    conditional, and the evaluation of [ifeq], [ifneq], [ifdef] and [ifndef].
    An operand is [Err tt] when the code gives up on it ([None]) and [Stuck]
    when its depth counter would underflow. *)

From stdpp Require Import gmap.
From S2P Require Import Prelude Text Ordered MakeVars MakeLines.

(** ** The target *)
(** The fields the variable scan reads. *)
Record TargetContext := mkTarget
  { make_variables : names (list Z);
    cpu : option (list Z); platform : option (list Z); family : option (list Z); variant : option (list Z);
    toolchain : option (list Z); cpu32 : option (list Z); use_mmu : option (list Z); float_abi : option (list Z);
    mesa_version : option (list Z); target_llvm_ver : option (list Z); target_llvm_runtimes_style : option (list Z);
    target_rust : option (list Z); target_rust_ver : option (list Z) }.

Definition legacy_platform (c : TargetContext) : option (list Z) :=
  platform_ ← platform c;
  cpu_ ← cpu c;
  variant_ ← variant c;
  Some (if eqb_list variant_ [] || eqb_list platform_ (rs "pc") then platform_ ++ rs "-" ++ cpu_
        else variant_ ++ rs "-" ++ cpu_).

(** The arms of [TargetContext::value], in their order. *)
Definition selectors (c : TargetContext) : list (list Z * option (list Z)) :=
  [(rs "AROS_TARGET_CPU", cpu c); (rs "CPU", cpu c); (rs "AROS_TARGET_ARCH", platform c); (rs "ARCH", platform c);
   (rs "AROS_TARGET_PLATFORM", legacy_platform c); (rs "AROS_TARGET_FAMILY", family c); (rs "FAMILY", family c);
   (rs "AROS_TARGET_VARIANT", variant c); (rs "AROS_TOOLCHAIN", toolchain c); (rs "AROS_TARGET_CPU32", cpu32 c);
   (rs "USE_MMU", use_mmu c); (rs "GCC_CONFIG_FLOAT_ABI", float_abi c); (rs "OPT_MESAGL", mesa_version c);
   (rs "TARGET_LLVM_VER", target_llvm_ver c); (rs "TARGET_LLVM_RUNTIMES_STYLE", target_llvm_runtimes_style c);
   (rs "TARGET_RUST", target_rust c); (rs "TARGET_RUST_VER", target_rust_ver c)].
Definition target_value (c : TargetContext) (name : list Z) : option (list Z) :=
  match List.find (fun x => eqb_list x.1 name) (selectors c) with
  | Some (_, v) => v
  | None => make_variables c !! name
  end.

Definition CLOSED_TARGET_MAKE_SELECTORS : list (list Z) :=
  [rs "AROS_TARGET_CPU"; rs "CPU"; rs "AROS_TARGET_ARCH"; rs "ARCH"; rs "AROS_TARGET_PLATFORM";
   rs "AROS_TARGET_FAMILY"; rs "FAMILY"; rs "AROS_TARGET_VARIANT"; rs "AROS_TOOLCHAIN"; rs "AROS_TARGET_CPU32";
   rs "USE_MMU"; rs "GCC_CONFIG_FLOAT_ABI"; rs "OPT_MESAGL"; rs "TARGET_LLVM_VER";
   rs "TARGET_LLVM_RUNTIMES_STYLE"; rs "TARGET_RUST"; rs "TARGET_RUST_VER"].
Definition initial_make_configuration (context : option TargetContext) : names (list Z) :=
  match context with
  | None => ∅
  | Some c =>
    foldl (fun configuration selector =>
        match target_value c selector with
        | Some v => <[selector := v]> configuration
        | None => delete selector configuration
        end) (make_variables c) CLOSED_TARGET_MAKE_SELECTORS
  end.

(** ** Three-valued truth *)
Inductive ConditionalTruth := CFalse | CTrue | CUnknown.
#[global] Instance truth_eq_dec : EqDecision ConditionalTruth.
Proof. solve_decision. Defined.

Definition cnot (t : ConditionalTruth) : ConditionalTruth :=
  match t with CFalse => CTrue | CTrue => CFalse | CUnknown => CUnknown end.
Definition cand (a b : ConditionalTruth) : ConditionalTruth :=
  match a, b with
  | CFalse, _ | _, CFalse => CFalse
  | CTrue, CTrue => CTrue
  | _, _ => CUnknown
  end.
Definition cor (a b : ConditionalTruth) : ConditionalTruth :=
  match a, b with
  | CTrue, _ | _, CTrue => CTrue
  | CFalse, CFalse => CFalse
  | _, _ => CUnknown
  end.

Record ConditionalFrame := mkFrame
  { parent : ConditionalTruth; matched : ConditionalTruth; current : ConditionalTruth }.
Definition frame_new (p condition : ConditionalTruth) : ConditionalFrame := mkFrame p condition (cand p condition).
Definition else_if (f : ConditionalFrame) (condition : ConditionalTruth) : ConditionalFrame :=
  mkFrame (parent f) (cor (matched f) condition) (cand (cand (parent f) (cnot (matched f))) condition).
Definition otherwise (f : ConditionalFrame) : ConditionalFrame :=
  mkFrame (parent f) CTrue (cand (parent f) (cnot (matched f))).

(** ** Evaluation of a condition *)
Definition MAX_DEPTH_FOR_IMMEDIATE_EXPANSION : nat := 16.

Section evaluation.
Context (scope : VarScope) (context : TargetContext) (line : Z).

Section reference.
(** [expand_condition_operand] at [depth - 1]. *)
Context (operand : list Z -> ropt (list Z)).

Definition expand_condition_function (body : list Z) : ropt (list Z) :=
  '(name, args) ← ok_or (break_at is_whitespace body) tt;
  let name := trim name in
  let args := trim args in
  if eqb_list name (rs "strip") then
    v ← operand args;
    mret (join [32] (split_whitespace v))
  else if eqb_list name (rs "findstring") then
    '(needle, haystack) ← ok_or (split_top_level_comma args) tt;
    needle ← operand needle;
    haystack ← operand haystack;
    mret (if contains_str needle haystack then needle else [])
  else if eqb_list name (rs "filter") || eqb_list name (rs "filter-out") then
    '(patterns, words) ← ok_or (split_top_level_comma args) tt;
    patterns ← operand patterns;
    words ← operand words;
    let keep_matches := eqb_list name (rs "filter") in
    mret (join [32] (List.filter (fun word =>
      Bool.eqb (existsb (fun pattern => condition_pattern_matches pattern word) (split_whitespace patterns)) keep_matches)
      (split_whitespace words)))
  else Err tt.

Definition expand_condition_reference (body : list Z) : ropt (list Z) :=
  let body := trim body in
  if is_scoped_variable_name body then
    if path_is_conditional_at scope body line then Err tt
    else match raw_at scope body line with
         | Some v => operand v
         | None =>
           match target_value context body with
           | Some v => Ok v
           | None => if bool_decide (body ∈ local_names scope) then Ok [] else Err tt
           end
         end
  else expand_condition_function body.
End reference.

Fixpoint expand_condition_operand (depth : nat) (raw : list Z) : ropt (list Z) :=
  match depth with
  | O => Err tt
  | S reference_depth =>
    let operand text :=
      match reference_depth with
      | O => Stuck                                   (* [depth - 1] underflows *)
      | S depth => expand_condition_operand depth text
      end in
    output ← foldM (fun output p =>
      match p with
      | Literal c => Ok (output ++ [c])
      | Escaped => Ok (output ++ [36])
      | Ref _ body => v ← expand_condition_reference operand body; Ok (output ++ v)
      | Lone | Unclosed _ => Err tt
      end) [] (pieces false None raw);
    Ok (trim output)
  end.

(** [None], an undecidable condition, is [Unknown]. *)
Definition decided (negated : bool) (value : ropt bool) : res Empty_set ConditionalTruth :=
  match value with
  | Ok b => Ok (if xorb b negated then CTrue else CFalse)
  | Err _ => Ok CUnknown
  | Stuck => Stuck
  end.
Definition evaluate_conditional (directive args : list Z) : res Empty_set ConditionalTruth :=
  let negated := eqb_list directive (rs "ifneq") || eqb_list directive (rs "ifndef") in
  if eqb_list directive (rs "ifeq") || eqb_list directive (rs "ifneq") then
    decided negated
      ('(left_, right_) ← ok_or (equality_operands args) tt;
       left_ ← expand_condition_operand MAX_DEPTH_FOR_IMMEDIATE_EXPANSION left_;
       right_ ← expand_condition_operand MAX_DEPTH_FOR_IMMEDIATE_EXPANSION right_;
       mret (eqb_list left_ right_))
  else if eqb_list directive (rs "ifdef") || eqb_list directive (rs "ifndef") then
    let name := trim args in
    if path_is_conditional_at scope name line then Ok CUnknown
    else
      let v := match raw_at scope name line with Some v => Some v | None => target_value context name end in
      decided negated (ok_or ((fun v => negb (eqb_list v [])) <$> v) tt)
  else Ok CUnknown.
End evaluation.
