(* ===== verification/MakeScan.v ===== *)
(** * MakeScan: from the text of an mmakefile to its variable scope

    Models the scan of [crates/aros-transpiler/src/make_vars.rs]
    ([collect_vars_impl_with_forward_locals] and what it calls): conditionals
    select lines, assignments extend the histories of [MakeVars]. *)

From stdpp Require Import gmap.
From S2P Require Import Prelude Text Ordered MakeVars MakeLines MakeCond.

Inductive VariableFlavor := Simple | Recursive_ | UnknownFlavor.
#[global] Instance flavor_eq_dec : EqDecision VariableFlavor.
Proof. solve_decision. Defined.

(** [includes::is_deferred_path_var] *)
Definition known_vars : list (list Z) :=
  [rs "SRCDIR"; rs "TOP"; rs "GENINCDIR"; rs "PORTSDIR"; rs "PORTSSOURCEDIR"; rs "GENDIR"; rs "AROS_INCLUDES";
   rs "CPU"; rs "ARCH"; rs "FAMILY"].
Definition is_deferred_path_var (name : list Z) : bool :=
  eqb_list name (rs "OBJDIR") || existsb (eqb_list name) known_vars.

(** ** Values as of now *)
Section now.
Context (s : VarScope).

(** The last entry of a history, or the configured value. *)
Definition latest (m : names (list (Z * list Z))) (name : list Z) : option (list Z) :=
  match m !! name ≫= last with
  | Some (_, v) => Some v
  | None => configuration s !! name
  end.
Definition latest_raw (name : list Z) : option (list Z) :=
  if has_opaque_assignment_before s name usize_max || has_uncertain_path_value_before s name usize_max then None
  else latest (raw s) name.
Definition latest_raw_for_append (name : list Z) : option (list Z) :=
  if has_opaque_assignment_before s name usize_max then None else latest (raw s) name.

Fixpoint path_depends_on_conditional_at (line : Z) (depth : nat) (guard : list (list Z)) (name : list Z) : bool :=
  if path_is_conditional_at s name line then true
  else match depth with
       | O => true
       | S depth =>
         if existsb (eqb_list name) guard then true
         else match path_raw_at s name line with
              | None => false
              | Some v => existsb (path_depends_on_conditional_at line depth (guard ++ [name])) (scalar_references v)
              end
       end.

Fixpoint flavor_uncertainty_reason_inner (line : Z) (depth : nat) (visiting : gset (list Z)) (name : list Z)
  : option (list Z) :=
  match (flavor_uncertainties s !! name ≫= last_before fst line) ≫= snd with
  | Some reason => Some reason
  | None =>
    match depth with
    | O => None
    | S depth =>
      if bool_decide (name ∈ visiting) then None
      else
        v ← raw_at s name line;
        find_map (fun dependency =>
            (fun reason => name ++ rs " depends on " ++ dependency ++ rs ", whose value is uncertain: " ++ reason)
            <$> flavor_uncertainty_reason_inner line depth ({[name]} ∪ visiting) dependency)
          (scoped_variable_references v)
    end
  end.
Definition flavor_uncertainty_reason_at (line : Z) (name : list Z) : option (list Z) :=
  flavor_uncertainty_reason_inner line 16 ∅ name.

(** ** Freezing the references of a simply expanded value *)
Section immediate.
Context (path_names : option (gset (list Z))).

Definition local_value (name : list Z) : option (list Z) :=
  if eqb_list name (rs "CURDIR") || eqb_list name (rs "OBJDIR") then None
  else match path_names with
       | Some _ => if is_deferred_path_var name then None else latest (path_raw s) name
       | None => latest_raw name
       end.
(** A file-local variable absent now is empty. *)
Definition absent_local (name : list Z) : bool :=
  negb (eqb_list name (rs "CURDIR")) && negb (is_deferred_path_var name)
  && match path_names with Some names => bool_decide (name ∈ names) | None => false end.

Fixpoint expand_immediate_locals_impl (depth : nat) (raw : list Z) : list Z :=
  match depth with
  | O => raw
  | S depth =>
    if negb (contains_char 36 raw) then raw
    else
      pieces false None raw ≫= fun p =>
        match p with
        | Literal c => [c]
        | Escaped | Lone => [36]
        | Unclosed text => text
        | Ref opening body =>
          let simple := is_scoped_variable_name body in
          match (if simple then local_value body else None) with
          | Some v => expand_immediate_locals_impl depth v
          | None =>
            if simple && absent_local body then []
            else 36 :: opening :: expand_immediate_locals_impl depth body ++ option_list (closer opening)
          end
        end
  end.
End immediate.
Definition expand_immediate_locals (raw : list Z) (depth : nat) : list Z :=
  expand_immediate_locals_impl None depth raw.
End now.

(** ** The state of the scan *)
Record ScanState := mkScan
  { scope : VarScope;
    conditional_depth : Z;
    conditional_stack : list ConditionalFrame;       (* innermost first *)
    flavors : names VariableFlavor;
    line_states : list ConditionalTruth;
    halted : bool }.

Definition set_scope (s : VarScope) (st : ScanState) : ScanState :=
  mkScan s (conditional_depth st) (conditional_stack st) (flavors st) (line_states st) (halted st).
Definition set_stack (l : list ConditionalFrame) (st : ScanState) : ScanState :=
  mkScan (scope st) (conditional_depth st) l (flavors st) (line_states st) (halted st).
Definition set_depth (d : Z) (st : ScanState) : ScanState :=
  mkScan (scope st) d (conditional_stack st) (flavors st) (line_states st) (halted st).
Definition push_line_state (t : ConditionalTruth) (st : ScanState) : ScanState :=
  mkScan (scope st) (conditional_depth st) (conditional_stack st) (flavors st) (line_states st ++ [t]) (halted st).
Definition halt (st : ScanState) : ScanState :=
  mkScan (scope st) (conditional_depth st) (conditional_stack st) (flavors st) (line_states st) true.

(** [map.entry(name).or_default().push(x)] *)
Definition push_at {A} (name : list Z) (x : A) (m : names (list A)) : names (list A) :=
  <[name := default [] (m !! name) ++ [x]]> m.

Definition add_local (name : list Z) (s : VarScope) : VarScope :=
  mkScope (configuration s) (assignments s) (raw s) (undefinitions s) (flavor_uncertainties s) (path_raw s)
    (conditional_assignments s) (opaque_assignments s) (opaque_all_assignments s) (path_replacements s)
    (uncertain_path_values s) ({[name]} ∪ local_names s).
Definition push_opaque (binding : DefineBinding) (line : Z) (s : VarScope) : VarScope :=
  let '(known, all) := match binding with
                       | Known name => (push_at name line (opaque_assignments s), opaque_all_assignments s)
                       | UnknownName => (opaque_assignments s, opaque_all_assignments s ++ [line])
                       end in
  mkScope (configuration s) (assignments s) (raw s) (undefinitions s) (flavor_uncertainties s) (path_raw s)
    (conditional_assignments s) known all (path_replacements s) (uncertain_path_values s) (local_names s).
Definition push_conditional (name : list Z) (x : Z * AssignmentKind) (s : VarScope) : VarScope :=
  mkScope (configuration s) (assignments s) (raw s) (undefinitions s) (flavor_uncertainties s) (path_raw s)
    (push_at name x (conditional_assignments s)) (opaque_assignments s) (opaque_all_assignments s)
    (path_replacements s) (uncertain_path_values s) (local_names s).
Definition push_undefinition (name : list Z) (line : Z) (s : VarScope) : VarScope :=
  mkScope (configuration s) (assignments s) (raw s) (push_at name line (undefinitions s)) (flavor_uncertainties s)
    (path_raw s) (conditional_assignments s) (opaque_assignments s) (opaque_all_assignments s)
    (path_replacements s) (uncertain_path_values s) (local_names s).
Definition push_replacement (name : list Z) (line : Z) (s : VarScope) : VarScope :=
  mkScope (configuration s) (assignments s) (raw s) (undefinitions s) (flavor_uncertainties s) (path_raw s)
    (conditional_assignments s) (opaque_assignments s) (opaque_all_assignments s)
    (push_at name line (path_replacements s)) (uncertain_path_values s) (local_names s).
Definition push_flavor_uncertainty (name : list Z) (x : Z * option (list Z)) (s : VarScope) : VarScope :=
  mkScope (configuration s) (assignments s) (raw s) (undefinitions s) (push_at name x (flavor_uncertainties s))
    (path_raw s) (conditional_assignments s) (opaque_assignments s) (opaque_all_assignments s)
    (path_replacements s) (uncertain_path_values s) (local_names s).
Definition push_uncertain (name : list Z) (line : Z) (s : VarScope) : VarScope :=
  mkScope (configuration s) (assignments s) (raw s) (undefinitions s) (flavor_uncertainties s) (path_raw s)
    (conditional_assignments s) (opaque_assignments s) (opaque_all_assignments s) (path_replacements s)
    (push_at name line (uncertain_path_values s)) (local_names s).
Definition push_path_raw (name : list Z) (x : Z * list Z) (s : VarScope) : VarScope :=
  mkScope (configuration s) (assignments s) (raw s) (undefinitions s) (flavor_uncertainties s)
    (push_at name x (path_raw s)) (conditional_assignments s) (opaque_assignments s) (opaque_all_assignments s)
    (path_replacements s) (uncertain_path_values s) (local_names s).
Definition push_value (name : list Z) (line : Z) (text : list Z) (words : list (list Z)) (s : VarScope) : VarScope :=
  mkScope (configuration s) (push_at name (line, words) (assignments s)) (push_at name (line, text) (raw s))
    (undefinitions s) (flavor_uncertainties s) (path_raw s) (conditional_assignments s) (opaque_assignments s)
    (opaque_all_assignments s) (path_replacements s) (uncertain_path_values s) (local_names s).

(** ** One assignment *)
Section assign.
Context (path_names : gset (list Z)) (line : Z) (name value : list Z) (kind : AssignmentKind).

Definition flavor_of (s : VarScope) (fl : names VariableFlavor) : VariableFlavor :=
  match kind with
  | SimpleSet => Simple
  | RecursiveSet | SetIfUnset | Undefine => Recursive_
  | Append =>
    match fl !! name with
    | Some f => f
    | None => if bool_decide (is_Some (configuration s !! name)) then UnknownFlavor else Recursive_
    end
  end.

Definition flavor_uncertainty (flavor : VariableFlavor) (s : VarScope) : option (list Z) :=
  if bool_decide (kind = Append) && bool_decide (flavor = UnknownFlavor) && contains_char 36 value then
    Some (name ++ rs " appends Make references to a configuration value whose recursive/simple flavor is unknown")
  else if (bool_decide (kind = SimpleSet) || bool_decide (kind = Append)) && bool_decide (flavor = Simple) then
    find_map (fun dependency =>
        (fun reason => name ++ rs " freezes a value from " ++ dependency ++ rs " with uncertain Make flavor: " ++ reason)
        <$> flavor_uncertainty_reason_at s line dependency)
      (scoped_variable_references value)
  else None.

Definition record_flavor (uncertainty : option (list Z)) (s : VarScope) : VarScope :=
  match kind, uncertainty with
  | Append, None => s
  | _, _ => push_flavor_uncertainty name (line, uncertainty) s
  end.

Definition record_uncertain (flavor : VariableFlavor) (s : VarScope) : VarScope :=
  if bool_decide (flavor = Simple)
     && existsb (path_depends_on_conditional_at s line MAX_DEPTH_FOR_IMMEDIATE_EXPANSION []) (scalar_references value)
  then push_uncertain name line s else s.

Definition path_value (flavor : VariableFlavor) (s : VarScope) : list Z :=
  let path_rhs := if bool_decide (flavor = Simple)
                  then expand_immediate_locals_impl s (Some path_names) MAX_DEPTH_FOR_IMMEDIATE_EXPANSION value
                  else value in
  if bool_decide (kind = Append) then trim (default [] (latest s (path_raw s) name) ++ rs " " ++ path_rhs) else path_rhs.

Definition expanded_value (flavor : VariableFlavor) (s : VarScope) : list Z :=
  let expanded_rhs := if bool_decide (flavor = Simple)
                      then expand_immediate_locals s value MAX_DEPTH_FOR_IMMEDIATE_EXPANSION
                      else value in
  if bool_decide (kind = Append) then
    match latest_raw_for_append s name with
    | Some old =>
      if eqb_list old [] then expanded_rhs
      else if eqb_list expanded_rhs [] then old
      else old ++ rs " " ++ expanded_rhs
    | None => expanded_rhs
    end
  else expanded_rhs.

Definition list_values (expanded : list Z) : list (list Z) :=
  List.filter keep_list_item
    (map (fun s => trim (List.filter (fun c => negb ((c =? 34) || (c =? 92))) s))
      (List.filter (fun s => negb (eqb_list s [92])) (split_whitespace expanded))).

(** What an assignment that takes effect records, statement by statement. *)
Definition record_value (branch_true : bool) (flavor : VariableFlavor) (s : VarScope) : VarScope :=
  let s := if bool_decide (kind = Undefine) then push_undefinition name line s else s in
  let s := if branch_true && (bool_decide (kind = SimpleSet) || bool_decide (kind = RecursiveSet) || bool_decide (kind = Undefine))
           then push_replacement name line s else s in
  let s := record_flavor (flavor_uncertainty flavor s) s in
  let s := record_uncertain flavor s in
  let s := push_path_raw name (line, path_value flavor s) s in
  let expanded := expanded_value flavor s in
  push_value name line (trim expanded) (list_values expanded) s.

Definition assign (has_context : bool) (branch_state : ConditionalTruth) (st : ScanState) : ScanState :=
  let s := add_local name (scope st) in
  let s := if bool_decide (branch_state = CUnknown) then push_conditional name (line, kind) s else s in
  if has_context && negb (bool_decide (branch_state = CTrue)) then set_scope s st
  else if bool_decide (kind = SetIfUnset) && is_defined_before s name line then set_scope s st
  else
    let flavor := flavor_of s (flavors st) in
    let s := record_value (bool_decide (branch_state = CTrue)) flavor s in
    mkScan s (conditional_depth st) (conditional_stack st) (<[name := flavor]> (flavors st)) (line_states st) (halted st).
End assign.

(** ** One line *)
Definition CONDITIONALS : list (list Z) := [rs "ifeq"; rs "ifneq"; rs "ifdef"; rs "ifndef"].
Definition conditional_directive (trimmed : list Z) : option (list Z * list Z) :=
  find_map (fun word => (fun tail => (word, tail)) <$> directive_tail trimmed word) CONDITIONALS.

(** The assignment or undefinition a line makes. *)
Definition line_assignment (line : list Z) : option (list Z * list Z * AssignmentKind) :=
  match variable_assignment line with
  | Some a => Some a
  | None => match undefine_directive line with
            | Ok (Some name) => Some (name, [], Undefine)
            | _ => None
            end
  end.

Definition commented_assignment (raw_line : list Z) : option (list Z) :=
  rest ← strip_prefix [35] (trim_start raw_line);
  (fun x => x.1.1) <$> variable_assignment (trim_start rest).

Section scan.
Context (context : option TargetContext) (path_names : gset (list Z)).
Abbreviation R := (res Empty_set).

Definition innermost (st : ScanState) : ConditionalTruth :=
  match conditional_stack st with [] => CTrue | f :: _ => current f end.
Definition branch_state_of (st : ScanState) : ConditionalTruth :=
  match context with
  | None => if 0 <? conditional_depth st then CUnknown else CTrue
  | Some _ => if halted st then CUnknown else innermost st
  end.

Definition open_conditional (line_no : Z) (directive args : list Z) (st : ScanState) : R ScanState :=
  match context with
  | Some ctx =>
    condition ← evaluate_conditional (scope st) ctx line_no directive args;
    mret (set_stack (frame_new (innermost st) condition :: conditional_stack st) st)
  | None => mret (set_depth (conditional_depth st + 1) st)
  end.

Definition close_conditional (st : ScanState) : ScanState :=
  match context with
  | Some _ => set_stack (tail (conditional_stack st)) st
  | None => set_depth (Z.max 0 (conditional_depth st - 1)) st
  end.

Definition else_conditional (line_no : Z) (trimmed : list Z) (st : ScanState) : R ScanState :=
  match context, conditional_stack st with
  | Some ctx, frame :: rest =>
    let tail := trim (drop 4 trimmed) in
    frame ← (if eqb_list tail [] then mret (otherwise frame)
             else match conditional_directive tail with
                  | Some (directive, args) =>
                    condition ← evaluate_conditional (scope st) ctx line_no directive args;
                    mret (else_if frame condition)
                  | None => mret (else_if frame CUnknown)
                  end);
    mret (set_stack (frame :: rest) st)
  | _, _ => mret st
  end.

(** The line state, a [define] header, and the name of a commented-out
    assignment (with a context, on a line that is read at all). *)
Definition skipped (raw_line : list Z) (suppressed : bool) : bool := suppressed || starts_with raw_line [9].
Definition enter_line (line_no : Z) (raw_line : list Z) (suppressed : bool) (header : option DefineBinding)
  (st : ScanState) : ScanState :=
  let branch_state := branch_state_of st in
  let st := push_line_state branch_state st in
  let st := match header with
            | Some binding => if bool_decide (branch_state = CFalse) then st
                              else set_scope (push_opaque binding line_no (scope st)) st
            | None => st
            end in
  match (if bool_decide (is_Some context) && negb (skipped raw_line suppressed)
         then commented_assignment raw_line else None) with
  | Some name => set_scope (add_local name (scope st)) st
  | None => st
  end.

Definition scan_line (line_no : Z) (raw_line : list Z) (suppressed : bool) (header : option DefineBinding)
  (st : ScanState) : R ScanState :=
  let branch_state := branch_state_of st in
  let has_context := bool_decide (is_Some context) in
  let st := enter_line line_no raw_line suppressed header st in
  if skipped raw_line suppressed then mret st
  else
    let line := strip_make_comment raw_line in
    let trimmed := trim line in
    if starts_with trimmed [35] || starts_with trimmed [37] then mret st
    else if has_context && negb (bool_decide (branch_state = CFalse)) && is_make_error_directive trimmed then mret (halt st)
    else match conditional_directive trimmed with
         | Some (directive, args) => open_conditional line_no directive args st
         | None =>
           if eqb_list trimmed (rs "endif") then mret (close_conditional st)
           else if eqb_list trimmed (rs "else") || starts_with trimmed (rs "else ") then else_conditional line_no trimmed st
           else match line_assignment line with
                | Some (name, value, kind) => mret (assign path_names line_no name value kind has_context branch_state st)
                | None => mret st
                end
         end.

(** The lines of a file with their numbers and what the [define] scan says. *)
Fixpoint scan_lines (line_no : Z) (ls : list (list Z * (bool * option DefineBinding))) (st : ScanState) : R ScanState :=
  match ls with
  | [] => mret st
  | (raw_line, (suppressed, header)) :: ls =>
    st ← scan_line line_no raw_line suppressed header st;
    scan_lines (line_no + 1) ls st
  end.
End scan.

(** ** The whole file *)
Definition annotate (ls : list (list Z)) : list (list Z * (bool * option DefineBinding)) :=
  zip ls (scan_define_bodies 0 ls).
(** Lines outside of [define] bodies and recipes. *)
Definition source_lines (ls : list (list Z)) : list (list Z) :=
  map fst (List.filter (fun x => negb x.2.1 && negb (starts_with x.1 [9])) (annotate ls)).

Definition path_name (line : list Z) : option (list Z) :=
  let line := match strip_prefix [35] (trim_start line) with Some rest => trim_start rest | None => line end in
  (fun x => x.1.1) <$> variable_assignment (strip_make_comment line).
Definition path_names_of (ls : list (list Z)) : gset (list Z) := list_to_set (omap path_name (source_lines ls)).

Definition forward_local (raw_line : list Z) : option (list Z) :=
  match commented_assignment raw_line with
  | Some name => Some name
  | None => (fun x => x.1.1) <$> variable_assignment (strip_make_comment raw_line)
  end.
Definition initial_scope (context : option TargetContext) (locals : gset (list Z)) : VarScope :=
  mkScope (initial_make_configuration context) ∅ ∅ ∅ ∅ ∅ ∅ ∅ [] ∅ ∅ locals.
Definition initial_state (s : VarScope) : ScanState := mkScan s 0 [] ∅ [] false.

Definition collect_vars_impl_with_forward_locals (joined : list Z) (context : option TargetContext)
  (forward_locals : bool) : res Empty_set (VarScope * list ConditionalTruth) :=
  let ls := lines joined in
  let locals := if bool_decide (is_Some context) && forward_locals
                then list_to_set (omap forward_local (source_lines ls)) else ∅ in
  st ← scan_lines context (path_names_of ls) 0 (annotate ls) (initial_state (initial_scope context locals));
  mret (scope st, line_states st).
Definition collect_vars_impl (joined : list Z) (context : option TargetContext) :=
  collect_vars_impl_with_forward_locals joined context false.
Definition collect_vars (joined : list Z) : res Empty_set VarScope :=
  x ← collect_vars_impl joined None; mret x.1.
Definition collect_vars_with_context (joined : list Z) (context : TargetContext) : res Empty_set VarScope :=
  x ← collect_vars_impl joined (Some context); mret x.1.
