(* ===== verification/ScanBranches.v ===== *)
(** * ScanBranches: which lines of an mmakefile are read

    The conditionals of a file nest; a line is read when every conditional
    around it takes the branch the line is in, and a conditional takes the
    first branch whose condition holds.  That is stated here for two-valued
    conditions, an oracle, without the frames of the scan.  The three-valued
    line states of [MakeScan] turn out to be exact: [True] and [False] are what
    every oracle consistent with the decided conditions says, and [Unknown]
    means that consistent oracles disagree, or that an [$(error)] may have
    stopped the file before. *)

From stdpp Require Import gmap.
From S2P Require Import Prelude Text Ordered MakeVars MakeLines MakeCond MakeScan.

(** ** Conditions are always evaluated

    Operands are expanded at even depths only, so the counter of the reference
    between two operands is never zero. *)
Section operands.
Context (s : VarScope) (c : TargetContext) (line : Z).

Lemma reference_not_Stuck (operand : list Z -> ropt (list Z)) body :
  (forall text, operand text <> Stuck) -> expand_condition_reference s c line operand body <> Stuck.
Proof.
  intros Hop. unfold expand_condition_reference, expand_condition_function.
  repeat match goal with
  | |- operand _ <> Stuck => apply Hop
  | |- (let '(_, _) := ?x in _) <> Stuck => destruct x
  | _ => not_stuck_step
  end; try done.
Qed.

Lemma operand_not_Stuck k raw : expand_condition_operand s c line (2 * k) raw <> Stuck.
Proof.
  revert raw. induction k as [|k IH]; intros raw; [done|].
  replace (2 * S k)%nat with (S (S (2 * k))) by lia. cbn [expand_condition_operand].
  apply bind_not_Stuck; [|done]. apply (foldM_not_Stuck _ (fun _ => True)); [done| |done].
  intros out p _ _. destruct p; try done. apply bind_not_Stuck; [|done]. by apply reference_not_Stuck.
Qed.

Lemma decided_Ok negated v : v <> Stuck -> exists t, decided negated v = Ok t.
Proof. destruct v; [eexists; reflexivity..|done]. Qed.

Lemma evaluate_total directive args : exists t, evaluate_conditional s c line directive args = Ok t.
Proof.
  assert (forall raw, expand_condition_operand s c line MAX_DEPTH_FOR_IMMEDIATE_EXPANSION raw <> Stuck)
    as Hop by apply (operand_not_Stuck 8).
  unfold evaluate_conditional. destruct (_ || _).
  - apply decided_Ok. apply bind_not_Stuck; [auto with aros|]. intros [l r] _.
    apply bind_not_Stuck; [apply Hop|]. intros ? _. apply bind_not_Stuck; [apply Hop|done].
  - destruct (_ || _); [|by eexists]. case_match; [by eexists|]. apply decided_Ok. auto with aros.
Qed.
End operands.

(** ** What a line does to the open conditionals *)
Inductive control := Opens | ElseIf | Else | Closes | Plain.

Definition trimmed_line (raw_line : list Z) : list Z := trim (strip_make_comment raw_line).
Definition control_of (raw_line : list Z) (suppressed : bool) : control :=
  let trimmed := trimmed_line raw_line in
  if skipped raw_line suppressed || (starts_with trimmed [35] || starts_with trimmed [37]) then Plain
  else match conditional_directive trimmed with
       | Some _ => Opens
       | None => if eqb_list trimmed (rs "endif") then Closes
                 else if eqb_list trimmed (rs "else") || starts_with trimmed (rs "else ") then
                   if eqb_list (trim (drop 4 trimmed)) [] then Else else ElseIf
                 else Plain
       end.

(** The text of the condition on a line that has one. *)
Definition condition_text (raw_line : list Z) (suppressed : bool) : list Z :=
  match control_of raw_line suppressed with
  | ElseIf => trim (drop 4 (trimmed_line raw_line))
  | _ => trimmed_line raw_line
  end.

Section branches.
Context (c : TargetContext) (path_names : gset (list Z)).

(** The truth the scan gives the condition on a line. *)
Definition condition_of (line_no : Z) (raw_line : list Z) (suppressed : bool) (header : option DefineBinding)
  (st : ScanState) : ConditionalTruth :=
  match conditional_directive (condition_text raw_line suppressed) with
  | Some (directive, args) =>
    match evaluate_conditional (scope (enter_line (Some c) line_no raw_line suppressed header st)) c line_no directive args with
    | Ok t => t
    | _ => CUnknown
    end
  | None => CUnknown
  end.

Definition control_stack (k : control) (t inner : ConditionalTruth) (stack : list ConditionalFrame) : list ConditionalFrame :=
  match k, stack with
  | Opens, _ => frame_new inner t :: stack
  | ElseIf, f :: rest => else_if f t :: rest
  | Else, f :: rest => otherwise f :: rest
  | Closes, _ => tail stack
  | _, _ => stack
  end.
Definition stops (raw_line : list Z) (suppressed : bool) (t : ConditionalTruth) : bool :=
  negb (skipped raw_line suppressed) && negb (bool_decide (t = CFalse)) && is_make_error_directive (trimmed_line raw_line).

Lemma enter_line_control line_no raw_line suppressed header st :
  let st' := enter_line (Some c) line_no raw_line suppressed header st in
  conditional_stack st' = conditional_stack st /\ halted st' = halted st /\
  line_states st' = line_states st ++ [branch_state_of (Some c) st].
Proof. unfold enter_line. cbn zeta. repeat case_match; auto. Qed.

Lemma assign_control line name value kind ctx b st :
  let st' := assign path_names line name value kind ctx b st in
  conditional_stack st' = conditional_stack st /\ halted st' = halted st /\ line_states st' = line_states st.
Proof. unfold assign. cbn zeta. repeat case_match; auto. Qed.

Lemma error_head s : is_make_error_directive s = true -> trim s = s -> exists r, s = 36 :: r.
Proof.
  unfold is_make_error_directive. intros H Ht. rewrite Ht in H. destruct (strip_prefix _ _) eqn:E; [|done].
  apply strip_prefix_Some in E. rewrite E. by eexists.
Qed.
Lemma dollar_plain r : conditional_directive (36 :: r) = None /\ eqb_list (36 :: r) (rs "endif") = false /\
  eqb_list (36 :: r) (rs "else") = false /\ starts_with (36 :: r) (rs "else ") = false /\
  starts_with (36 :: r) [35] = false /\ starts_with (36 :: r) [37] = false.
Proof. done. Qed.

Lemma trim_trimmed raw_line : trim (trimmed_line raw_line) = trimmed_line raw_line.
Proof. apply trim_idemp. Qed.

(** A line that is no directive leaves the conditionals alone. *)
Lemma plain_control line_no line b st : exists st',
  match line_assignment line with
  | Some (name, value, kind) => mret (assign path_names line_no name value kind true b st)
  | None => mret st
  end = Ok (E:=Empty_set) st' /\
  conditional_stack st' = conditional_stack st /\ halted st' = halted st /\ line_states st' = line_states st.
Proof. destruct (line_assignment line) as [[[? ?] ?]|]; eexists; (split; [reflexivity|]); [apply assign_control|done]. Qed.

Lemma else_control line_no t st : exists st' b,
  else_conditional (Some c) line_no t st = Ok st' /\ halted st' = halted st /\ line_states st' = line_states st /\
  (forall directive args, conditional_directive (trim (drop 4 t)) = Some (directive, args) ->
     evaluate_conditional (scope st) c line_no directive args = Ok b) /\
  (conditional_directive (trim (drop 4 t)) = None -> b = CUnknown) /\
  conditional_stack st' = control_stack (if eqb_list (trim (drop 4 t)) [] then Else else ElseIf) b
    (innermost st) (conditional_stack st).
Proof.
  unfold else_conditional.
  assert (exists b, (forall directive args, conditional_directive (trim (drop 4 t)) = Some (directive, args) ->
     evaluate_conditional (scope st) c line_no directive args = Ok b) /\
     (conditional_directive (trim (drop 4 t)) = None -> b = CUnknown)) as [b [Hb Hn]].
  { destruct (conditional_directive _) as [[d a]|]; [|by exists CUnknown].
    destruct (evaluate_total (scope st) c line_no d a) as [b Hb]. exists b. split; [|done]. by intros ? ? [= <- <-]. }
  destruct (conditional_stack st) as [|f rest] eqn:Es.
  { exists st, b. rewrite Es. repeat split; auto. by destruct (eqb_list _ _). }
  destruct (eqb_list (trim (drop 4 t)) []); [by exists (set_stack (otherwise f :: rest) st), b|].
  exists (set_stack (else_if f b :: rest) st), b. split; [|by repeat split; auto].
  destruct (conditional_directive (trim (drop 4 t))) as [[d a]|]; [|by rewrite Hn].
  by rewrite (Hb d a).
Qed.

Lemma scan_line_control line_no raw_line suppressed header st : exists st',
  scan_line (Some c) path_names line_no raw_line suppressed header st = Ok st' /\
  conditional_stack st' = control_stack (control_of raw_line suppressed)
    (condition_of line_no raw_line suppressed header st) (innermost st) (conditional_stack st) /\
  halted st' = (halted st || stops raw_line suppressed (branch_state_of (Some c) st)) /\
  line_states st' = line_states st ++ [branch_state_of (Some c) st].
Proof.
  destruct (enter_line_control line_no raw_line suppressed header st) as (Hstack & Hhalt & Hstates).
  unfold scan_line, condition_of, condition_text, stops, control_of. fold (trimmed_line raw_line).
  set (st0 := enter_line _ _ _ _ _ _) in *. pose proof (trim_trimmed raw_line) as Htrim.
  set (t := trimmed_line raw_line) in *.
  assert (innermost st0 = innermost st) as Hinner by (unfold innermost; by rewrite Hstack).
  rewrite <- Hstack, <- Hinner. cbn [bool_decide is_Some_dec decide decide_rel andb].
  destruct (skipped raw_line suppressed); cbn [orb negb andb].
  { exists st0. by rewrite Hhalt, Hstates, orb_false_r. }
  destruct (plain_control line_no (strip_make_comment raw_line) (branch_state_of (Some c) st) st0)
    as (stp & Hp & Hpstack & Hphalt & Hpstates).
  destruct (is_make_error_directive t) eqn:He; cycle 1.
  - rewrite andb_false_r, orb_false_r. destruct (_ || _); [by exists st0; rewrite Hhalt|].
    destruct (conditional_directive t) as [[d a]|] eqn:Hd.
    + rewrite Hd. destruct (evaluate_total (scope st0) c line_no d a) as [b Hb]. cbn. rewrite Hb.
      eexists. split; [reflexivity|]. cbn. by rewrite Hhalt.
    + destruct (eqb_list t (rs "endif")); [eexists; split; [reflexivity|]; cbn; by rewrite Hhalt|].
      destruct (_ || _); cycle 1.
      { exists stp. by rewrite Hp, Hpstack, Hphalt, Hpstates, Hhalt. }
      destruct (else_control line_no t st0) as (st' & b & -> & Hh & Hl & Hb & Hn & Hs).
      exists st'. rewrite Hs, Hh, Hl, Hhalt. split; [done|]. split; [|done].
      destruct (eqb_list (trim (drop 4 t)) []); [by destruct (conditional_stack st0)|].
      destruct (conditional_directive (trim (drop 4 t))) as [[d a]|] eqn:Hd'; [by rewrite (Hb d a)|by rewrite Hn].
  - destruct (error_head t He Htrim) as [r Hr]. rewrite Hr.
    destruct (dollar_plain r) as (-> & -> & -> & -> & -> & ->). rewrite <- Hr, ?He. cbn [orb].
    destruct (bool_decide (branch_state_of (Some c) st = CFalse)); cbn [negb andb orb].
    + exists stp. by rewrite Hp, Hpstack, Hphalt, Hpstates, Hhalt, orb_false_r.
    + exists (halt st0). by rewrite orb_true_r.
Qed.
End branches.

(** ** The lines a file reads, for two-valued conditions

    A branch of an open conditional: the conditions of the branches before it
    and its own; [else] always holds.  Conditions are named by their lines. *)
Inductive branch_condition := Always | On (line : Z).
Record branch := mkBranch { earlier : list branch_condition; this : branch_condition }.

Definition holds (oracle : Z -> bool) (x : branch_condition) : bool :=
  match x with Always => true | On line => oracle line end.
Definition taken (oracle : Z -> bool) (b : branch) : bool :=
  forallb (fun x => negb (holds oracle x)) (earlier b) && holds oracle (this b).
Definition is_read (oracle : Z -> bool) (open_ : list branch) : bool := forallb (taken oracle) open_.

Definition structure_step (line_no : Z) (k : control) (open_ : list branch) : list branch :=
  match k, open_ with
  | Opens, _ => mkBranch [] (On line_no) :: open_
  | ElseIf, b :: rest => mkBranch (earlier b ++ [this b]) (On line_no) :: rest
  | Else, b :: rest => mkBranch (earlier b ++ [this b]) Always :: rest
  | Closes, _ => tail open_
  | _, _ => open_
  end.
Fixpoint open_branches (line_no : Z) (ls : list (list Z * (bool * option DefineBinding))) (open_ : list branch)
  : list branch :=
  match ls with
  | [] => open_
  | (raw_line, (suppressed, _)) :: ls =>
    open_branches (line_no + 1) ls (structure_step line_no (control_of raw_line suppressed) open_)
  end.

(** An oracle respects the conditions that are decided. *)
Definition consistent (d : Z -> ConditionalTruth) (oracle : Z -> bool) : Prop :=
  forall line, (d line = CTrue -> oracle line = true) /\ (d line = CFalse -> oracle line = false).

(** ** Three-valued evaluation is exact

    Every condition occurs once in the formula of a line, as a literal that is
    to hold or not to hold. *)
Section exact.
Context (d : Z -> ConditionalTruth).

Definition truth (x : branch_condition) : ConditionalTruth := match x with Always => CTrue | On line => d line end.
Definition any_of (l : list branch_condition) : ConditionalTruth := foldl (fun acc x => cor acc (truth x)) CFalse l.
Definition status (open_ : list branch) : ConditionalTruth :=
  foldr (fun b acc => cand (cand acc (cnot (any_of (earlier b)))) (truth (this b))) CTrue open_.

Definition literals_of (b : branch) : list (branch_condition * bool) := map (fun x => (x, false)) (earlier b) ++ [(this b, true)].
Definition literals (open_ : list branch) : list (branch_condition * bool) := open_ ≫= literals_of.
Definition literal_truth (l : branch_condition * bool) : ConditionalTruth := if l.2 then truth l.1 else cnot (truth l.1).
Definition satisfied (oracle : Z -> bool) (l : branch_condition * bool) : bool := Bool.eqb (holds oracle l.1) l.2.

Lemma cand_true a b : cand a b = CTrue <-> a = CTrue /\ b = CTrue.
Proof. destruct a, b; naive_solver. Qed.
Lemma cand_false a b : cand a b = CFalse <-> a = CFalse \/ b = CFalse.
Proof. destruct a, b; naive_solver. Qed.
Lemma cor_true a b : cor a b = CTrue <-> a = CTrue \/ b = CTrue.
Proof. destruct a, b; naive_solver. Qed.
Lemma cor_false a b : cor a b = CFalse <-> a = CFalse /\ b = CFalse.
Proof. destruct a, b; naive_solver. Qed.
Lemma cnot_true a : cnot a = CTrue <-> a = CFalse.
Proof. by destruct a. Qed.
Lemma cnot_false a : cnot a = CFalse <-> a = CTrue.
Proof. by destruct a. Qed.

Lemma any_true l : any_of l = CTrue <-> Exists (fun x => truth x = CTrue) l.
Proof.
  induction l as [|x l IH] using rev_ind; [by rewrite Exists_nil|].
  unfold any_of in *. rewrite foldl_app, Exists_app, Exists_cons, Exists_nil. cbn. rewrite cor_true. tauto.
Qed.
Lemma any_false l : any_of l = CFalse <-> Forall (fun x => truth x = CFalse) l.
Proof.
  induction l as [|x l IH] using rev_ind; [by rewrite Forall_nil|].
  unfold any_of in *. rewrite foldl_app, Forall_app, Forall_cons, Forall_nil. cbn. rewrite cor_false. tauto.
Qed.

Lemma status_true open_ : status open_ = CTrue <-> Forall (fun l => literal_truth l = CTrue) (literals open_).
Proof.
  induction open_ as [|b open_ IH]; [by rewrite Forall_nil|].
  cbn [status foldr literals mbind list_bind]. rewrite !cand_true, cnot_true, any_false.
  unfold literals_of. rewrite !Forall_app, Forall_map, Forall_singleton. cbn.
  setoid_rewrite cnot_true. fold (status open_). rewrite IH. unfold literals. tauto.
Qed.
Lemma status_false open_ : status open_ = CFalse <-> Exists (fun l => literal_truth l = CFalse) (literals open_).
Proof.
  induction open_ as [|b open_ IH]; [by rewrite Exists_nil|].
  cbn [status foldr literals mbind list_bind]. rewrite !cand_false, cnot_false, any_true.
  unfold literals_of. rewrite !Exists_app, Exists_map, Exists_cons, Exists_nil. cbn.
  setoid_rewrite cnot_false. fold (status open_). rewrite IH. unfold literals. tauto.
Qed.

Lemma is_read_literals oracle open_ : is_read oracle open_ = forallb (satisfied oracle) (literals open_).
Proof.
  induction open_ as [|b open_ IH]; [done|]. cbn [is_read forallb literals mbind list_bind].
  rewrite forallb_app. unfold is_read, literals in IH. rewrite IH. f_equal. unfold taken, literals_of.
  rewrite forallb_app. cbn. unfold satisfied. cbn. rewrite andb_true_r. f_equal.
  - induction (earlier b) as [|x l IH']; [done|]. cbn. rewrite IH'. by destruct (holds oracle x).
  - by destruct (holds oracle (this b)).
Qed.
Lemma literal_sound oracle l : consistent d oracle ->
  (literal_truth l = CTrue -> satisfied oracle l = true) /\ (literal_truth l = CFalse -> satisfied oracle l = false).
Proof.
  intros Hc. destruct l as [[|line] []]; unfold literal_truth, satisfied; cbn; try done;
    destruct (Hc line) as [Ht Hf]; rewrite ?cnot_true, ?cnot_false; split; intros H;
    rewrite ?(Ht H), ?(Hf H); done.
Qed.

Definition unique_polarity (open_ : list branch) : Prop :=
  forall line, (On line, true) ∈ literals open_ -> (On line, false) ∉ literals open_.
(** The oracle that decides every open condition in favour of [open_]. *)
Definition favourable (open_ : list branch) (line : Z) : bool :=
  match d line with
  | CTrue => true
  | CFalse => false
  | CUnknown => existsb (fun l => match l with (On n, true) => n =? line | _ => false end) (literals open_)
  end.
Lemma favourable_wants open_ line : d line = CUnknown ->
  (favourable open_ line = true <-> (On line, true) ∈ literals open_).
Proof.
  unfold favourable. intros ->. rewrite existsb_exists. setoid_rewrite <- list_elem_of_In. split.
  - intros ([[|n] []] & Hin & He); try done. bool_prop. by subst.
  - intros Hin. exists (On line, true). split; [done|]. apply Z.eqb_refl.
Qed.
Lemma favourable_consistent open_ : consistent d (favourable open_).
Proof. intros line. unfold favourable. by destruct (d line). Qed.
Lemma favourable_reads open_ : unique_polarity open_ -> status open_ <> CFalse -> is_read (favourable open_) open_ = true.
Proof.
  intros Hu Hs. rewrite is_read_literals. apply forallb_forall. intros l Hin%list_elem_of_In.
  assert (literal_truth l <> CFalse) as Hl.
  { intros Hl. apply Hs, status_false, Exists_exists. eauto. }
  destruct (literal_truth l) eqn:E; [done| |].
  - by apply (literal_sound (favourable open_)); [apply favourable_consistent|].
  - destruct l as [[|line] pol]; [by destruct pol|]. unfold satisfied. cbn.
    assert (d line = CUnknown) as Hd by (unfold literal_truth in E; cbn in E; by destruct pol, (d line)).
    pose proof (favourable_wants open_ line Hd) as Hw. destruct pol.
    + by rewrite (proj2 Hw).
    + destruct (favourable open_ line); [|done]. exfalso. eapply Hu; [by apply Hw|done].
Qed.

Lemma unknown_literal open_ : status open_ = CUnknown -> exists line pol, (On line, pol) ∈ literals open_ /\ d line = CUnknown.
Proof.
  intros Hs. assert (Exists (fun l => literal_truth l = CUnknown) (literals open_)) as He.
  { destruct (decide (Exists (fun l => literal_truth l = CUnknown) (literals open_))) as [|Hn]; [done|].
    exfalso. assert (status open_ <> CFalse) as Hf by by rewrite Hs. rewrite status_false in Hf.
    assert (status open_ = CTrue) as Ht; [|by rewrite Hs in Ht]. apply status_true.
    rewrite Exists_exists in Hn, Hf. apply Forall_forall. intros l Hl.
    destruct (literal_truth l) eqn:E; [|done|]; exfalso; eauto. }
  apply Exists_exists in He as ([[|line] pol] & Hin & Hl); [by destruct pol|].
  exists line, pol. split; [done|]. unfold literal_truth in Hl. cbn in Hl. by destruct pol, (d line).
Qed.

(** Two consistent oracles disagree on a line whose state is unknown. *)
Lemma status_exact open_ : unique_polarity open_ ->
  (status open_ = CTrue -> forall oracle, consistent d oracle -> is_read oracle open_ = true) /\
  (status open_ = CFalse -> forall oracle, consistent d oracle -> is_read oracle open_ = false) /\
  (status open_ = CUnknown -> exists yes no, consistent d yes /\ consistent d no /\
     is_read yes open_ = true /\ is_read no open_ = false).
Proof.
  intros Hu. split; [|split].
  - intros Hs%status_true oracle Hc. rewrite is_read_literals. apply forallb_forall. intros l Hin%list_elem_of_In.
    rewrite Forall_forall in Hs. by apply (literal_sound oracle); auto.
  - intros (l & Hin & Hl)%status_false%Exists_exists oracle Hc. rewrite is_read_literals.
    apply not_true_is_false. intros Hall. rewrite forallb_forall in Hall.
    apply list_elem_of_In in Hin. specialize (Hall _ Hin). by rewrite (proj2 (literal_sound oracle l Hc) Hl) in Hall.
  - intros Hs. destruct (unknown_literal _ Hs) as (line & pol & Hin & Hd).
    exists (favourable open_), (fun n => if n =? line then negb pol else favourable open_ n).
    split; [apply favourable_consistent|]. split.
    { intros n. destruct (Z.eqb_spec n line) as [->|]; [by rewrite Hd|]. apply favourable_consistent. }
    split; [apply favourable_reads; [done|by rewrite Hs]|].
    rewrite is_read_literals. apply not_true_is_false. intros Hall. rewrite forallb_forall in Hall.
    apply list_elem_of_In in Hin. specialize (Hall _ Hin). unfold satisfied in Hall. cbn in Hall.
    rewrite Z.eqb_refl in Hall. by destruct pol.
Qed.
End exact.

(** ** The frames of the scan hold exactly these statuses *)
Section frames.
Context (d : Z -> ConditionalTruth).

Definition frame_of (below : list branch) (b : branch) : ConditionalFrame :=
  mkFrame (status d below) (any_of d (earlier b ++ [this b]))
    (cand (cand (status d below) (cnot (any_of d (earlier b)))) (truth d (this b))).
Fixpoint frames_of (open_ : list branch) : list ConditionalFrame :=
  match open_ with [] => [] | b :: below => frame_of below b :: frames_of below end.

Lemma frames_status open_ : match frames_of open_ with [] => CTrue | f :: _ => current f end = status d open_.
Proof. by destruct open_. Qed.
Lemma any_snoc l x : any_of d (l ++ [x]) = cor (any_of d l) (truth d x).
Proof. unfold any_of. by rewrite foldl_app. Qed.

Lemma frames_step line_no k t open_ : (k = Opens \/ k = ElseIf -> d line_no = t) ->
  control_stack k t (status d open_) (frames_of open_) = frames_of (structure_step line_no k open_).
Proof.
  intros Hd. destruct k; cbn.
  - rewrite <- Hd by auto. unfold frame_new, frame_of. cbn. f_equal. f_equal; [by destruct (d line_no)|].
    by destruct (status d open_).
  - destruct open_ as [|b open_]; [done|]. cbn [frames_of]. rewrite <- Hd by auto. unfold else_if, frame_of.
    cbn [parent matched current earlier this truth]. by rewrite (any_snoc (earlier b ++ [this b])).
  - destruct open_ as [|b open_]; [done|]. cbn [frames_of]. unfold otherwise, frame_of.
    cbn [parent matched current earlier this truth]. f_equal. f_equal.
    + rewrite (any_snoc (earlier b ++ [this b])). by destruct (any_of d _).
    + by destruct (cand _ _).
  - by destruct open_.
  - done.
Qed.
End frames.

(** Conditions are named by the lines they stand on, so none occurs twice. *)
Definition line_of (x : branch_condition) : option Z := match x with Always => None | On line => Some line end.
Definition condition_lines (open_ : list branch) : list Z := omap line_of (map fst (literals open_)).
Definition fresh (line_no : Z) (open_ : list branch) : Prop :=
  NoDup (condition_lines open_) /\ Forall (fun line => 0 <= line < line_no) (condition_lines open_).

Lemma condition_lines_cons b open_ :
  condition_lines (b :: open_) = omap line_of (earlier b ++ [this b]) ++ condition_lines open_.
Proof.
  unfold condition_lines, literals. cbn. rewrite map_app, omap_app. f_equal. f_equal. unfold literals_of.
  rewrite map_app, map_map, map_id. done.
Qed.

Lemma fresh_add line_no b open_ l x : earlier b ++ [this b] = l -> 0 <= line_no -> fresh line_no (b :: open_) ->
  x = Always \/ x = On line_no -> fresh (line_no + 1) (mkBranch l x :: open_).
Proof.
  intros <- H0 [Hnd Hb] Hx. unfold fresh in *. rewrite condition_lines_cons in *. cbn [earlier this].
  rewrite omap_app. assert (Forall (fun line => 0 <= line < line_no + 1)
    (omap line_of (earlier b ++ [this b]) ++ condition_lines open_)) as Hb' by (eapply Forall_impl; [done|cbn; lia]).
  assert (line_no ∉ omap line_of (earlier b ++ [this b]) ++ condition_lines open_) as Hn.
  { intros Hin. rewrite Forall_forall in Hb. specialize (Hb _ Hin). lia. }
  rewrite <- app_assoc. destruct Hx as [-> | ->]; cbn; [done|].
  rewrite Forall_app, Forall_cons in *. rewrite NoDup_app, NoDup_cons in *. destruct Hb' as [H1 H2].
  destruct Hnd as (N1 & N2 & N3). rewrite not_elem_of_app in Hn. destruct Hn as [Hn1 Hn2].
  split; [split; [done|split; [|done]]|split; [done|split; [lia|done]]].
  intros y Hy [->|Hin]%elem_of_cons; [done|]. by apply (N2 y).
Qed.

Lemma fresh_weaken line_no open_ : fresh line_no open_ -> fresh (line_no + 1) open_.
Proof. intros [H1 H2]. split; [done|]. eapply Forall_impl; [done|]. cbn. lia. Qed.

Lemma fresh_step line_no k open_ : 0 <= line_no -> fresh line_no open_ -> fresh (line_no + 1) (structure_step line_no k open_).
Proof.
  intros H0 Hf. destruct k; cbn [structure_step].
  - destruct Hf as [Hnd Hb]. split; rewrite condition_lines_cons; cbn.
    + apply NoDup_cons. split; [|done]. intros Hin. rewrite Forall_forall in Hb. specialize (Hb _ Hin). lia.
    + apply Forall_cons. split; [lia|]. eapply Forall_impl; [done|]. cbn. lia.
  - destruct open_ as [|b open_]; [by apply fresh_weaken|]. eapply fresh_add; eauto.
  - destruct open_ as [|b open_]; [by apply fresh_weaken|]. eapply fresh_add; eauto.
  - apply fresh_weaken. destruct open_ as [|b open_]; [done|]. destruct Hf as [Hnd Hb]. unfold fresh. cbn.
    rewrite condition_lines_cons in *. apply NoDup_app in Hnd as (_ & _ & ?). by apply Forall_app in Hb as [_ ?].
  - by apply fresh_weaken.
Qed.

Lemma fresh_polarity line_no open_ : fresh line_no open_ -> unique_polarity open_.
Proof.
  intros [Hnd _] line. unfold condition_lines in Hnd. revert Hnd.
  generalize (literals open_) as l. induction l as [|[x p] l IH]; cbn; [set_solver|]. intros Hnd.
  assert (forall q, (On line, q) ∈ l -> line ∈ omap line_of (map fst l)) as Hin.
  { intros q Hq. apply list_elem_of_omap. exists (On line). split; [|done]. apply list_elem_of_fmap. by exists (On line, q). }
  destruct x as [|n]; cbn in Hnd.
  - intros [[=]|Ht]%elem_of_cons [[=]|Hf]%elem_of_cons. by eapply IH.
  - apply NoDup_cons in Hnd as [Hn Hnd].
    rewrite !elem_of_cons. intros [Et|Ht] [Ef|Hf].
    + congruence.
    + injection Et as -> <-. by apply Hn, (Hin false).
    + injection Ef as -> <-. by apply Hn, (Hin true).
    + by eapply IH.
Qed.

(** ** Line states of a file *)
Section file.
Context (c : TargetContext) (path_names : gset (list Z)).
Abbreviation line_info := (list Z * (bool * option DefineBinding))%type.

(** The conditions of a file as the scan decides them, one per line. *)
Fixpoint decisions (line_no : Z) (ls : list line_info) (st : ScanState) : list ConditionalTruth :=
  match ls with
  | [] => []
  | (raw_line, (suppressed, header)) :: ls =>
    condition_of c line_no raw_line suppressed header st ::
    match scan_line (Some c) path_names line_no raw_line suppressed header st with
    | Ok st => decisions (line_no + 1) ls st
    | _ => []
    end
  end.

(** A line that may have stopped the file: an [$(error)] not known to be unread. *)
Definition may_stop (states : list ConditionalTruth) (ls : list line_info) (j : nat) : Prop :=
  exists raw_line suppressed header t, ls !! j = Some (raw_line, (suppressed, header)) /\
    states !! j = Some t /\ stops raw_line suppressed t = true.

Lemma may_stop_cons states ls t x j : may_stop states ls j -> may_stop (t :: states) (x :: ls) (S j).
Proof. intros (r & p & h & u & H). by exists r, p, h, u. Qed.

Lemma states_exact (d : Z -> ConditionalTruth) ls : forall line_no st open_,
  0 <= line_no -> conditional_stack st = frames_of d open_ -> fresh line_no open_ ->
  (forall i t, decisions line_no ls st !! i = Some t -> d (line_no + Z.of_nat i) = t) ->
  exists st' states, scan_lines (Some c) path_names line_no ls st = Ok st' /\
    line_states st' = line_states st ++ states /\ length states = length ls /\
    forall i t, states !! i = Some t ->
      fresh (line_no + Z.of_nat i) (open_branches line_no (take i ls) open_) /\
      (t = status d (open_branches line_no (take i ls) open_) \/
       t = CUnknown /\ (halted st = true \/ exists j, (j < i)%nat /\ may_stop states ls j)).
Proof.
  induction ls as [|[raw_line [suppressed header]] ls IH]; intros line_no st open_ H0 Hstack Hf Hd.
  { exists st, []. rewrite app_nil_r. split; [done|]. split; [done|]. split; [done|]. by intros [|i] t. }
  destruct (scan_line_control c path_names line_no raw_line suppressed header st) as (st1 & E & Hs1 & Hh1 & Hl1).
  cbn [decisions scan_lines] in *. rewrite E in *. cbn [mbind res_bind].
  set (k := control_of raw_line suppressed) in *. set (b := branch_state_of (Some c) st) in *.
  destruct (IH (line_no + 1) st1 (structure_step line_no k open_)) as (st' & states & -> & Hl & Hlen & Hi); [lia| | | |].
  { rewrite Hs1, Hstack. unfold innermost. rewrite Hstack, frames_status. apply frames_step.
    intros _. rewrite <- (Hd O _ eq_refl). f_equal. lia. }
  { by apply fresh_step. }
  { intros i t Ht. rewrite <- (Hd (S i) t Ht). f_equal. lia. }
  exists st', (b :: states). split; [done|]. split; [by rewrite Hl, Hl1, <- app_assoc|]. split; [by cbn; rewrite Hlen|].
  intros [|i] t Ht.
  - injection Ht as <-. rewrite Z.add_0_r. split; [done|]. cbn [take open_branches]. unfold b, branch_state_of.
    destruct (halted st) eqn:Eh; [by right; auto|]. left. unfold innermost. by rewrite Hstack, frames_status.
  - cbn [take open_branches]. destruct (Hi i t Ht) as [Hfr Hcase].
    split; [by replace (line_no + Z.of_nat (S i)) with (line_no + 1 + Z.of_nat i) by lia|].
    destruct Hcase as [|[-> [Hh|(j & Hj & Hstop)]]]; [by left|right; split; [done|]..].
    + rewrite Hh1 in Hh. apply orb_true_iff in Hh as [|Hst]; [by left|]. right. exists O. split; [lia|].
      by exists raw_line, suppressed, header, b.
    + right. exists (S j). split; [lia|by apply may_stop_cons].
Qed.
End file.

(** C35. The scan always ends with one state per line, and these states are
    exact.  For conditions as far as the target decides them, a line is [True]
    only if it is read whatever the undecided conditions are, [False] only if
    it is never read, and [Unknown] only if both can happen or an [$(error)]
    may have stopped the file before it. *)
Theorem branch_states_exact (c : TargetContext) (path_names : gset (list Z)) (s : VarScope)
  (ls : list (list Z * (bool * option DefineBinding))) :
  exists st, scan_lines (Some c) path_names 0 ls (initial_state s) = Ok st /\
    length (line_states st) = length ls /\
    forall i t, line_states st !! i = Some t ->
      let d line := default CUnknown (decisions c path_names 0 ls (initial_state s) !! Z.to_nat line) in
      let open_ := open_branches 0 (take i ls) [] in
      (t = CTrue -> forall oracle, consistent d oracle -> is_read oracle open_ = true) /\
      (t = CFalse -> forall oracle, consistent d oracle -> is_read oracle open_ = false) /\
      (t = CUnknown ->
         (exists yes no, consistent d yes /\ consistent d no /\ is_read yes open_ = true /\ is_read no open_ = false) \/
         exists j, (j < i)%nat /\ may_stop (line_states st) ls j).
Proof.
  set (d := fun line => default CUnknown (decisions c path_names 0 ls (initial_state s) !! Z.to_nat line)).
  destruct (states_exact c path_names d ls 0 (initial_state s) []) as (st & states & Hst & Hl & Hlen & Hi); [lia|done| | |].
  { split; [apply NoDup_nil_2|constructor]. }
  { intros i t Ht. unfold d. replace (Z.to_nat (0 + Z.of_nat i)) with i by lia. by rewrite Ht. }
  exists st. cbn in Hl. subst states. split; [done|]. split; [done|]. intros i t Ht. cbn zeta. fold d.
  destruct (Hi i t Ht) as [Hf Hcase]. destruct (status_exact d _ (fresh_polarity _ _ Hf)) as (HT & HF & HU).
  destruct Hcase as [->|[-> [ [=]|Hj] ] ]; [|by split; [|split; [|right] ] ]. split; [done|]. split; [done|]. intros E. left. by apply HU.
Qed.
