(* ===== verification/ScanHistory.v ===== *)
(** * ScanHistory: what the scan records, and where

    The scan of [MakeScan] only appends to the histories of a scope, and only
    entries of the line it is on.  From this follow that a query at a line
    depends on the lines before it alone, and the invariant of a collected
    scope: histories in file order, values only from lines that are read. *)

From stdpp Require Import gmap relations.
From Stdlib Require Import Sorting.Sorted.
From S2P Require Import Prelude Text Ordered MakeVars MakeLines MakeCond MakeScan ScanBranches.

(** ** Steps of recording

    One entry appended by a line whose state is [t]; [ctx] tells whether there
    is a target context. *)
Inductive recorded (ctx : bool) (t : ConditionalTruth) (line : Z) : VarScope -> VarScope -> Prop :=
| rec_local n s : recorded ctx t line s (add_local n s)
| rec_opaque b s : t <> CFalse -> recorded ctx t line s (push_opaque b line s)
| rec_conditional n k s : n ∈ local_names s -> t = CUnknown -> recorded ctx t line s (push_conditional n (line, k) s)
| rec_undefinition n s : n ∈ local_names s -> (ctx = true -> t = CTrue) -> recorded ctx t line s (push_undefinition n line s)
| rec_replacement n s : n ∈ local_names s -> t = CTrue -> recorded ctx t line s (push_replacement n line s)
| rec_flavor n r s : n ∈ local_names s -> (ctx = true -> t = CTrue) ->
    recorded ctx t line s (push_flavor_uncertainty n (line, r) s)
| rec_uncertain n s : n ∈ local_names s -> (ctx = true -> t = CTrue) -> recorded ctx t line s (push_uncertain n line s)
| rec_path_raw n v s : n ∈ local_names s -> (ctx = true -> t = CTrue) -> recorded ctx t line s (push_path_raw n (line, v) s)
| rec_value n v ws s : n ∈ local_names s -> (ctx = true -> t = CTrue) -> recorded ctx t line s (push_value n line v ws s).

Lemma record_value_recorded names line name value kind ctx t flavor s :
  name ∈ local_names s -> (ctx = true -> t = CTrue) ->
  rtc (recorded ctx t line) s (record_value names line name value kind (bool_decide (t = CTrue)) flavor s).
Proof.
  intros Hn Ht. unfold record_value.
  set (s1 := if bool_decide (kind = Undefine) then push_undefinition name line s else s).
  assert (rtc (recorded ctx t line) s s1 /\ name ∈ local_names s1) as [H1 Hn1].
  { subst s1. destruct (bool_decide _); [|done]. split; [by apply rtc_once; constructor|done]. }
  clearbody s1.
  set (s2 := if (_ : bool) then push_replacement name line s1 else s1).
  assert (rtc (recorded ctx t line) s1 s2 /\ name ∈ local_names s2) as [H2 Hn2].
  { subst s2. destruct (bool_decide_reflect (t = CTrue)); cbn; [|done].
    destruct (_ || _); [|done]. split; [by apply rtc_once; constructor|done]. }
  clearbody s2.
  set (s3 := record_flavor _ _ _ _ s2).
  assert (rtc (recorded ctx t line) s2 s3 /\ name ∈ local_names s3) as [H3 Hn3].
  { subst s3. unfold record_flavor. destruct kind, (flavor_uncertainty _ _ _ _ _ s2);
      (split; [first [apply rtc_once, rec_flavor; done|apply rtc_refl]|exact Hn2]). }
  clearbody s3.
  set (s4 := record_uncertain _ _ _ flavor s3).
  assert (rtc (recorded ctx t line) s3 s4 /\ name ∈ local_names s4) as [H4 Hn4].
  { subst s4. unfold record_uncertain. destruct (_ && _); (split; [|exact Hn3]); [|apply rtc_refl].
    by apply rtc_once, rec_uncertain. }
  clearbody s4. etrans; [exact H1|]. etrans; [exact H2|]. etrans; [exact H3|]. etrans; [exact H4|].
  eapply rtc_l; [by apply rec_path_raw|]. by apply rtc_once, rec_value.
Qed.

Lemma assign_recorded names line name value kind ctx t st :
  rtc (recorded ctx t line) (scope st) (scope (assign names line name value kind ctx t st)).
Proof.
  unfold assign.
  set (s1 := if bool_decide (t = CUnknown) then push_conditional name (line, kind) (add_local name (scope st))
             else add_local name (scope st)).
  assert (rtc (recorded ctx t line) (scope st) s1 /\ name ∈ local_names s1) as [H1 Hn].
  { subst s1. destruct (bool_decide_reflect (t = CUnknown)); (split; [|cbn; set_solver]).
    - eapply rtc_l; [apply rec_local|]. apply rtc_once. constructor; [cbn; set_solver|done].
    - by apply rtc_once, rec_local. }
  destruct (ctx && negb (bool_decide (t = CTrue))) eqn:E; [done|]. destruct (bool_decide (kind = SetIfUnset) && _); [done|].
  etrans; [exact H1|]. apply record_value_recorded; [done|]. intros ->. cbn in E. by bool_prop.
Qed.

Lemma enter_line_recorded ctx line raw_line suppressed header st :
  rtc (recorded (bool_decide (is_Some ctx)) (branch_state_of ctx st) line) (scope st)
    (scope (enter_line ctx line raw_line suppressed header st)).
Proof.
  unfold enter_line. cbn zeta.
  set (st1 := match header with Some binding => if bool_decide (branch_state_of ctx st = CFalse) then _ else _ | None => _ end).
  assert (rtc (recorded (bool_decide (is_Some ctx)) (branch_state_of ctx st) line) (scope st) (scope st1)) as H1.
  { subst st1. destruct header; [|done]. destruct (bool_decide_reflect (branch_state_of ctx st = CFalse)); [done|].
    by apply rtc_once, rec_opaque. }
  case_match; [|done]. etrans; [exact H1|]. apply rtc_once, rec_local.
Qed.

(** [inv_ok] for a method that returns a state. *)
Ltac inv_return := inv_ok; repeat match goal with H : mret _ = Ok _ |- _ => injection H as <- end.

Lemma scan_line_recorded ctx names line raw_line suppressed header st st' :
  scan_line ctx names line raw_line suppressed header st = Ok st' ->
  rtc (recorded (bool_decide (is_Some ctx)) (branch_state_of ctx st) line) (scope st) (scope st') /\
  line_states st' = line_states st ++ [branch_state_of ctx st].
Proof.
  pose proof (enter_line_recorded ctx line raw_line suppressed header st) as He.
  assert (line_states (enter_line ctx line raw_line suppressed header st) = line_states st ++ [branch_state_of ctx st]) as Hl
    by (unfold enter_line; cbn zeta; repeat case_match; done).
  unfold scan_line. set (st0 := enter_line _ _ _ _ _ _) in *.
  assert (forall st'', scope st'' = scope st0 -> line_states st'' = line_states st0 ->
    rtc (recorded (bool_decide (is_Some ctx)) (branch_state_of ctx st) line) (scope st) (scope st'') /\
    line_states st'' = line_states st ++ [branch_state_of ctx st]) as Hsame by (intros st'' -> ->; auto).
  destruct (skipped _ _); [intros [= <-]; auto|]. destruct (_ || _); [intros [= <-]; auto|].
  destruct (_ && _ && _); [intros [= <-]; auto|].
  destruct (conditional_directive _) as [[d a]|].
  { unfold open_conditional. destruct ctx; intros; inv_return; by apply Hsame. }
  destruct (eqb_list _ _); [intros [= <-]; apply Hsame; unfold close_conditional; by destruct ctx|].
  destruct (_ || _).
  { unfold else_conditional. destruct ctx, (conditional_stack st0) eqn:Es; intros; inv_return; by apply Hsame. }
  destruct (line_assignment _) as [[[n v] k]|]; intros [= <-]; [|auto]. split.
  - etrans; [exact He|]. apply assign_recorded.
  - rewrite <- Hl. unfold assign. repeat case_match; done.
Qed.

(** ** Later lines do not matter

    [later n s s']: [s'] is [s] with entries of lines from [n] on appended. *)
Definition hist {A} (m : names (list A)) (name : list Z) : list A := default [] (m !! name).
Definition grows {A} (at_ : A -> Z) (n : Z) (h h' : list A) : Prop :=
  exists extra, h' = h ++ extra /\ Forall (fun x => n <= at_ x) extra.

Record later (n : Z) (s s' : VarScope) : Prop :=
  { later_configuration : configuration s' = configuration s;
    later_assignments : forall name, grows fst n (hist (assignments s) name) (hist (assignments s') name);
    later_raw : forall name, grows fst n (hist (raw s) name) (hist (raw s') name);
    later_undefinitions : forall name, grows id n (hist (undefinitions s) name) (hist (undefinitions s') name);
    later_flavor : forall name, grows fst n (hist (flavor_uncertainties s) name) (hist (flavor_uncertainties s') name);
    later_path_raw : forall name, grows fst n (hist (path_raw s) name) (hist (path_raw s') name);
    later_conditional : forall name,
      grows fst n (hist (conditional_assignments s) name) (hist (conditional_assignments s') name);
    later_opaque : forall name, grows id n (hist (opaque_assignments s) name) (hist (opaque_assignments s') name);
    later_opaque_all : grows id n (opaque_all_assignments s) (opaque_all_assignments s');
    later_replacements : forall name, grows id n (hist (path_replacements s) name) (hist (path_replacements s') name);
    later_uncertain : forall name,
      grows id n (hist (uncertain_path_values s) name) (hist (uncertain_path_values s') name) }.

Lemma grows_refl {A} (at_ : A -> Z) n h : grows at_ n h h.
Proof. exists []. by rewrite app_nil_r. Qed.
Lemma grows_trans {A} (at_ : A -> Z) n h1 h2 h3 : grows at_ n h1 h2 -> grows at_ n h2 h3 -> grows at_ n h1 h3.
Proof. intros (e1 & -> & H1) (e2 & -> & H2). exists (e1 ++ e2). by rewrite app_assoc, Forall_app. Qed.
Lemma grows_snoc {A} (at_ : A -> Z) n h x : n <= at_ x -> grows at_ n h (h ++ [x]).
Proof. intros Hx. exists [x]. by rewrite Forall_singleton. Qed.
Lemma hist_push {A} (m : names (list A)) (name : list Z) (x : A) (name' : list Z) :
  hist (push_at name x m) name' = if decide (name = name') then hist m name' ++ [x] else hist m name'.
Proof.
  unfold hist, push_at. destruct (decide (name = name')) as [->|Hn].
  - by rewrite lookup_insert_eq.
  - by rewrite lookup_insert_ne.
Qed.
Lemma grows_push {A} (at_ : A -> Z) (n : Z) (m : names (list A)) (name : list Z) (x : A) (name' : list Z) :
  n <= at_ x -> grows at_ n (hist m name') (hist (push_at name x m) name').
Proof. intros Hx. rewrite hist_push. case_decide; [by apply grows_snoc|apply grows_refl]. Qed.
#[export] Hint Resolve grows_refl grows_trans grows_snoc grows_push : aros.

#[global] Instance later_preorder n : PreOrder (later n).
Proof.
  split.
  - intros s. split; auto with aros.
  - intros s1 s2 s3 H1 H2. destruct H1, H2. split; try congruence; eauto using grows_trans.
Qed.

Lemma recorded_later ctx t line n s s' : n <= line -> recorded ctx t line s s' -> later n s s'.
Proof.
  intros Hn H. destruct H; split; intros; cbn; auto with aros;
    destruct b; cbn; auto with aros.
Qed.
Lemma records_later ctx t line n s s' : n <= line -> rtc (recorded ctx t line) s s' -> later n s s'.
Proof. intros Hn. induction 1; [done|]. etrans; [by eapply recorded_later|done]. Qed.

Lemma scan_lines_later ctx names ls : forall line n st st', n <= line ->
  scan_lines ctx names line ls st = Ok st' ->
  later n (scope st) (scope st') /\ exists states, line_states st' = line_states st ++ states /\ length states = length ls.
Proof.
  induction ls as [|[raw_line [suppressed header]] ls IH]; intros line n st st' Hn; cbn [scan_lines].
  - intros [= <-]. split; [done|]. exists []. by rewrite app_nil_r.
  - intros (st1 & H1 & H2)%bind_Ok. apply scan_line_recorded in H1 as [Hr Hs].
    destruct (IH (line + 1) n st1 st' ltac:(lia) H2) as (Hl & states & Hs' & Hlen). split.
    + etrans; [by eapply records_later|done].
    + exists (branch_state_of ctx st :: states). cbn. by rewrite Hs', Hs, <- app_assoc, Hlen.
Qed.

(** Queries at or before [n] cannot tell the scopes apart. *)
Section queries.
Context (n line : Z) (s s' : VarScope) (Hl : later n s s') (Hn : line <= n).

Lemma find_later {A} (at_ : A -> Z) h h' : grows at_ n h h' -> last_before at_ line h' = last_before at_ line h.
Proof.
  intros (extra & -> & He). unfold last_before. rewrite rev_app_distr. apply find_append.
  destruct (List.find _ _) as [x|] eqn:Hf; [|done]. apply find_some in Hf as [Hin Hx]. apply in_rev in Hin.
  rewrite Forall_forall in He. apply list_elem_of_In, He in Hin. bool_prop. lia.
Qed.
Lemma exists_later {A} (at_ : A -> Z) f h h' : grows at_ n h h' ->
  existsb (fun x => (at_ x <? line) && f x) h' = existsb (fun x => (at_ x <? line) && f x) h.
Proof.
  intros (extra & -> & He). rewrite existsb_app. replace (existsb _ extra) with false; [apply orb_false_r|].
  symmetry. apply not_true_is_false. intros (x & Hin & Hx)%existsb_exists. rewrite Forall_forall in He.
  apply list_elem_of_In, He in Hin. bool_prop. lia.
Qed.
Lemma lookup_hist {A} (at_ : A -> Z) (m : names (list A)) (name : list Z) : (m !! name ≫= last_before at_ line) = last_before at_ line (hist m name).
Proof. unfold hist. by destruct (m !! name). Qed.
Lemma exists_hist {A} (m : names (list A)) (name : list Z) (f : A -> bool) :
  match m !! name with None => false | Some h => existsb f h end = existsb f (hist m name).
Proof. unfold hist. by destruct (m !! name). Qed.

Lemma lookup_later {A} (at_ : A -> Z) (m m' : names (list A)) (name : list Z) : grows at_ n (hist m name) (hist m' name) ->
  (m' !! name ≫= last_before at_ line) = (m !! name ≫= last_before at_ line).
Proof. intros H. rewrite !lookup_hist. by apply find_later. Qed.

Lemma reset_later name : reset_before s' name line = reset_before s name line.
Proof. apply lookup_later, Hl. Qed.
Lemma opaque_later name : has_opaque_assignment_before s' name line = has_opaque_assignment_before s name line.
Proof.
  unfold has_opaque_assignment_before. rewrite reset_later, (lookup_later id (opaque_assignments s)) by apply Hl.
  by rewrite (find_later id (opaque_all_assignments s)) by apply Hl.
Qed.
Lemma uncertain_later name : has_uncertain_path_value_before s' name line = has_uncertain_path_value_before s name line.
Proof.
  unfold has_uncertain_path_value_before. rewrite reset_later, !exists_hist. apply (exists_later id), Hl.
Qed.
Lemma unresolved_later name : unresolved_conditional s' name line = unresolved_conditional s name line.
Proof. unfold unresolved_conditional. rewrite reset_later, !exists_hist. apply (exists_later fst), Hl. Qed.
Lemma defined_later name : is_defined_before s' name line = is_defined_before s name line.
Proof.
  unfold is_defined_before. rewrite opaque_later, (lookup_later fst (raw s)) by apply Hl.
  by rewrite (lookup_later id (undefinitions s)), (later_configuration _ _ _ Hl) by apply Hl.
Qed.
Lemma raw_at_later name : raw_at s' name line = raw_at s name line.
Proof.
  unfold raw_at. rewrite opaque_later, uncertain_later, (lookup_later fst (raw s)) by apply Hl.
  by rewrite (later_configuration _ _ _ Hl).
Qed.
Lemma path_raw_at_later name : path_raw_at s' name line = path_raw_at s name line.
Proof.
  unfold path_raw_at. rewrite opaque_later, uncertain_later, (lookup_later fst (path_raw s)) by apply Hl.
  by rewrite (later_configuration _ _ _ Hl).
Qed.
Lemma frozen_later name : frozen_raw_at s' name line = frozen_raw_at s name line.
Proof.
  unfold frozen_raw_at. by rewrite opaque_later, uncertain_later, unresolved_later, (lookup_later fst (raw s)) by apply Hl.
Qed.
Lemma conditional_later name : conditionally_assigned_before s' name line = conditionally_assigned_before s name line.
Proof.
  unfold conditionally_assigned_before, path_is_conditional_at. by rewrite opaque_later, uncertain_later, unresolved_later.
Qed.
Lemma snapshot_later : snapshot s' line = snapshot s line.
Proof.
  unfold snapshot. rewrite (later_configuration _ _ _ Hl).
  assert (omap (fun h : list (Z * list (list Z)) => snd <$> last_before fst line h) (assignments s')
        = omap (fun h => snd <$> last_before fst line h) (assignments s)) as ->.
  { apply map_eq. intros name. rewrite !lookup_omap.
    pose proof (lookup_later fst _ _ name (later_assignments _ _ _ Hl name)) as H.
    destruct (assignments s' !! name), (assignments s !! name); cbn in *; first [by rewrite H|by rewrite <- H|done]. }
  apply map_filter_ext. intros name x _. cbn. by rewrite defined_later, opaque_later, uncertain_later.
Qed.
End queries.

(** ** The scan always ends *)
Lemma scan_line_total ctx names line raw_line suppressed header st :
  exists st', scan_line ctx names line raw_line suppressed header st = Ok st'.
Proof.
  destruct ctx as [c|].
  - destruct (scan_line_control c names line raw_line suppressed header st) as (st' & H & _). eauto.
  - unfold scan_line, open_conditional, else_conditional. repeat case_match; eexists; reflexivity.
Qed.
Lemma scan_lines_total ctx names ls : forall line st, exists st', scan_lines ctx names line ls st = Ok st'.
Proof.
  induction ls as [|[raw_line [suppressed header]] ls IH]; intros line st; [by eexists|]. cbn [scan_lines].
  destruct (scan_line_total ctx names line raw_line suppressed header st) as [st1 ->]. apply IH.
Qed.
Lemma scan_lines_app ctx names l1 l2 : forall line st,
  scan_lines ctx names line (l1 ++ l2) st =
  (st1 ← scan_lines ctx names line l1 st; scan_lines ctx names (line + len l1) l2 st1).
Proof.
  induction l1 as [|[raw_line [suppressed header]] l1 IH]; intros line st.
  - cbn. by rewrite Z.add_0_r.
  - cbn [app scan_lines]. destruct (scan_line _ _ _ _ _ _ _) as [st1| |]; [|done..].
    cbn [mbind res_bind]. rewrite IH. rewrite len_cons. by rewrite Z.add_assoc.
Qed.

(** The [define] scan reads from the top, so it agrees on a prefix. *)
Lemma scan_define_bodies_app l1 l2 : forall depth, exists tail,
  scan_define_bodies depth (l1 ++ l2) = scan_define_bodies depth l1 ++ tail /\ length tail = length l2.
Proof.
  induction l1 as [|x l1 IH]; intros depth.
  - exists (scan_define_bodies depth l2). split; [done|]. revert depth.
    induction l2 as [|y l2 IH]; intros depth; [done|]. cbn. destruct (define_line depth y) as [[? ?] ?]. cbn. by rewrite IH.
  - cbn. destruct (define_line depth x) as [[? ?] depth']. destruct (IH depth') as (tail & -> & Ht). by exists tail.
Qed.
Lemma scan_define_bodies_length ls depth : length (scan_define_bodies depth ls) = length ls.
Proof. destruct (scan_define_bodies_app [] ls depth) as (tail & E & Ht). cbn in E. by rewrite E. Qed.
Lemma annotate_app l1 l2 : exists tail, annotate (l1 ++ l2) = annotate l1 ++ tail.
Proof.
  unfold annotate. destruct (scan_define_bodies_app l1 l2 0) as (tail & -> & _). exists (zip l2 tail).
  apply zip_with_app. by rewrite scan_define_bodies_length.
Qed.
Lemma annotate_len ls : len (annotate ls) = len ls.
Proof. unfold annotate, len. by rewrite length_zip_with_l_eq by by rewrite scan_define_bodies_length. Qed.

(** A declaration sees what stands before it and nothing else: whatever
    follows a prefix of an mmakefile, the scan decides the lines of the prefix
    alike, and every query at a line up to its end has the answer that the
    prefix alone gives. *)
Theorem scan_positional (ctx : option TargetContext) (path_names : gset (list Z)) (s : VarScope)
  (l1 l2 : list (list Z)) : exists st1 st2 states,
  scan_lines ctx path_names 0 (annotate l1) (initial_state s) = Ok st1 /\
  scan_lines ctx path_names 0 (annotate (l1 ++ l2)) (initial_state s) = Ok st2 /\
  line_states st2 = line_states st1 ++ states /\
  forall line, line <= len l1 ->
    snapshot (scope st2) line = snapshot (scope st1) line /\
    forall name,
      raw_at (scope st2) name line = raw_at (scope st1) name line /\
      path_raw_at (scope st2) name line = path_raw_at (scope st1) name line /\
      frozen_raw_at (scope st2) name line = frozen_raw_at (scope st1) name line /\
      is_defined_before (scope st2) name line = is_defined_before (scope st1) name line /\
      conditionally_assigned_before (scope st2) name line = conditionally_assigned_before (scope st1) name line.
Proof.
  destruct (scan_lines_total ctx path_names (annotate l1) 0 (initial_state s)) as [st1 H1].
  destruct (annotate_app l1 l2) as [tail Ht].
  destruct (scan_lines_total ctx path_names tail (0 + len (annotate l1)) st1) as [st2 H2].
  destruct (scan_lines_later ctx path_names tail (0 + len (annotate l1)) (len l1) st1 st2) as (Hl & states & Hs & _);
    [rewrite annotate_len; lia|done|].
  exists st1, st2, states. rewrite Ht, scan_lines_app, H1. do 3 (split; [done|]). intros line Hle.
  split; [by apply (snapshot_later (len l1))|]. intros name.
  repeat split; [eapply raw_at_later|eapply path_raw_at_later|eapply frozen_later|eapply defined_later|eapply conditional_later]; done.
Qed.

(** ** The invariant of a collected scope *)
Inductive history := Assignments | Raw | Undefinitions | Flavors | PathRaw | Conditional | OpaqueNames | OpaqueAll
                   | Replacements | Uncertain.
(** The lines of a history, in the order they were recorded. *)
Definition lines_of (s : VarScope) (h : history) (name : list Z) : list Z :=
  match h with
  | Assignments => map fst (hist (assignments s) name)
  | Raw => map fst (hist (raw s) name)
  | Undefinitions => hist (undefinitions s) name
  | Flavors => map fst (hist (flavor_uncertainties s) name)
  | PathRaw => map fst (hist (path_raw s) name)
  | Conditional => map fst (hist (conditional_assignments s) name)
  | OpaqueNames => hist (opaque_assignments s) name
  | OpaqueAll => opaque_all_assignments s
  | Replacements => hist (path_replacements s) name
  | Uncertain => hist (uncertain_path_values s) name
  end.
(** The state a line must have to add to a history. *)
Definition admits (ctx : bool) (h : history) (t : ConditionalTruth) : Prop :=
  match h with
  | Conditional => t = CUnknown
  | OpaqueNames | OpaqueAll => t <> CFalse
  | Replacements => t = CTrue
  | _ => ctx = true -> t = CTrue
  end.
Definition needs_local (h : history) : Prop := h <> OpaqueNames /\ h <> OpaqueAll.

Record collected (ctx : bool) (states : list ConditionalTruth) (s : VarScope) : Prop :=
  { in_order : forall h name, StronglySorted Z.le (lines_of s h name);
    from_read : forall h name line, line ∈ lines_of s h name ->
      exists i t, line = Z.of_nat i /\ states !! i = Some t /\ admits ctx h t;
    are_local : forall h name line, line ∈ lines_of s h name -> needs_local h -> name ∈ local_names s;
    same_lines : forall name, lines_of s Assignments name = lines_of s Raw name }.

Lemma recorded_lines ctx t line s s' : recorded ctx t line s s' -> local_names s ⊆ local_names s' /\
  (lines_of s' Assignments = lines_of s Assignments /\ lines_of s' Raw = lines_of s Raw \/
   forall name, lines_of s Assignments name = lines_of s Raw name -> lines_of s' Assignments name = lines_of s' Raw name) /\
  forall h name, lines_of s' h name = lines_of s h name \/
    lines_of s' h name = lines_of s h name ++ [line] /\ admits ctx h t /\ (needs_local h -> name ∈ local_names s').
Proof.
  intros H. destruct H as [| [] s| | | | | | |]; (split; [cbn; set_solver|]); (split; [try (by left); right; intros name Hn|]);
    try (intros [] name'; cbn [lines_of add_local push_opaque push_conditional push_undefinition push_replacement
      push_flavor_uncertainty push_uncertain push_path_raw push_value assignments raw undefinitions flavor_uncertainties
      path_raw conditional_assignments opaque_assignments opaque_all_assignments path_replacements uncertain_path_values];
      rewrite ?hist_push; try (by left); try case_decide; subst; rewrite ?map_app; try (by left); right;
      (split; [done|]); (split; [done|]); intros []; done).
  cbn [lines_of push_value assignments raw] in *. rewrite !hist_push. case_decide; [|done]. by rewrite !map_app, Hn.
Qed.

Lemma sorted_snoc l (x : Z) : StronglySorted Z.le l -> (forall y, y ∈ l -> y <= x) -> StronglySorted Z.le (l ++ [x]).
Proof.
  induction 1 as [|y l Hs IH Hy]; intros Hx; cbn; [by repeat constructor|]. constructor.
  - apply IH. set_solver.
  - apply Forall_app. split; [done|]. apply Forall_singleton. apply Hx. set_solver.
Qed.

(** One step on the line after [states], whose state is [t]. *)
Lemma recorded_collected ctx t states s s' : recorded ctx t (Z.of_nat (length states)) s s' ->
  collected ctx (states ++ [t]) s -> collected ctx (states ++ [t]) s'.
Proof.
  intros (Hloc & Hsame & Hlines)%recorded_lines [Ho Hr Ha Hm]. split.
  - intros h name. destruct (Hlines h name) as [->|(-> & _)]; [done|]. apply sorted_snoc; [done|].
    intros y (i & u & -> & Hi & _)%Hr. apply lookup_lt_Some in Hi. rewrite length_app in Hi. cbn in Hi. lia.
  - intros h name line. destruct (Hlines h name) as [->|(-> & Hadm & _)]; [apply Hr|].
    intros [?|E]%elem_of_app; [by apply (Hr h name)|]. apply list_elem_of_singleton in E as ->. exists (length states), t.
    by rewrite lookup_app_r, Nat.sub_diag by lia.
  - intros h name line Hin Hn. destruct (Hlines h name) as [E|(_ & _ & Hl)]; [|by auto].
    rewrite E in Hin. apply Hloc. eauto.
  - intros name. destruct Hsame as [[E1 E2]|E]; [by rewrite E1, E2|by apply E].
Qed.

Lemma collected_weaken ctx t states s : collected ctx states s -> collected ctx (states ++ [t]) s.
Proof.
  intros [Ho Hr Ha Hm]. split; try done. intros h name line (i & u & -> & Hi & Hadm)%Hr.
  exists i, u. split; [done|]. split; [|done]. rewrite lookup_app_l; [done|]. by apply lookup_lt_Some in Hi.
Qed.

Lemma scan_lines_collected ctx names ls : forall st st',
  scan_lines ctx names (len (line_states st)) ls st = Ok st' ->
  collected (bool_decide (is_Some ctx)) (line_states st) (scope st) ->
  collected (bool_decide (is_Some ctx)) (line_states st') (scope st').
Proof.
  induction ls as [|[raw_line [suppressed header]] ls IH]; intros st st'; cbn [scan_lines].
  - by intros [= <-].
  - intros (st1 & H1 & H2)%bind_Ok Hc. apply scan_line_recorded in H1 as [Hr Hs].
    apply (IH st1); [rewrite Hs, len_app, len_cons; by rewrite Z.add_0_r|]. rewrite Hs. unfold len in Hr.
    apply (collected_weaken _ (branch_state_of ctx st)) in Hc. revert Hc. induction Hr; [done|].
    intros Hc. apply IHHr. by eapply recorded_collected.
Qed.

Lemma initial_collected ctx s_ctx locals : collected ctx [] (initial_scope s_ctx locals).
Proof.
  assert (forall h name, lines_of (initial_scope s_ctx locals) h name = []) as E
    by (intros []; cbn; unfold hist; intros; by rewrite ?lookup_empty).
  split; intros; rewrite ?E in *; try done; [constructor|set_solver|set_solver].
Qed.

