(* ===== verification/ScanValues.v ===== *)
(** * ScanValues: the values of an mmakefile without references

    A file of assignments and [undefine] lines whose values hold no reference
    has an obvious meaning: an environment, updated line by line.  The scan of
    [MakeScan] reads such a file back exactly, at every line of it. *)

From stdpp Require Import gmap relations.
From S2P Require Import Prelude Text Ordered MakeVars MakeLines MakeCond MakeScan ScanBranches ScanHistory.

(** ** What the lines mean *)
Record assignment := mkAssignment { a_name : list Z; a_kind : AssignmentKind; a_value : list Z }.
Abbreviation environment := (names (list Z)).

Definition perform (e : environment) (a : assignment) : environment :=
  match a_kind a with
  | SimpleSet | RecursiveSet => <[a_name a := a_value a]> e
  | SetIfUnset => match e !! a_name a with Some _ => e | None => <[a_name a := a_value a]> e end
  | Append =>
    let old := default [] (e !! a_name a) in
    <[a_name a := if eqb_list old [] then a_value a
                  else if eqb_list (a_value a) [] then old else old ++ [32] ++ a_value a]> e
  | Undefine => delete (a_name a) e
  end.

(** ** How they are written *)
Definition operator (k : AssignmentKind) : list Z :=
  match k with SimpleSet => rs ":=" | RecursiveSet => rs "=" | SetIfUnset => rs "?=" | Append => rs "+=" | Undefine => [] end.
Definition print (a : assignment) : list Z :=
  match a_kind a with
  | Undefine => rs "undefine " ++ a_name a
  | k => a_name a ++ [32] ++ operator k ++ (if eqb_list (a_value a) [] then [] else 32 :: a_value a)
  end.
Definition text (l : list assignment) : list Z := flat_map (fun w => w ++ [10]) (map print l).

(** Words that open another kind of line. *)
Definition reserved : list (list Z) :=
  CONDITIONALS ++ [rs "else"; rs "define"; rs "endef"; rs "override"; rs "export"; rs "private"].
Definition plain_char (c : Z) : Prop := c <> 36 /\ c <> 35 /\ c <> 10 /\ c <> 13.
Record well_formed (a : assignment) : Prop :=
  { wf_name : is_scoped_variable_name (a_name a) = true;
    wf_reserved : a_kind a = Undefine \/ a_name a ∉ reserved;
    wf_undefine : a_kind a = Undefine -> a_value a = [];
    wf_value : Forall plain_char (a_value a);
    wf_trimmed : trim (a_value a) = a_value a }.

(** ** A line that starts with a word of name characters *)
Definition name_char (c : Z) : Prop := is_name_char c = true.

Lemma name_char_facts c : name_char c ->
  is_whitespace c = false /\ c <> 9 /\ c <> 32 /\ c <> 35 /\ c <> 36 /\ c <> 37 /\ c <> 40 /\ c <> 43 /\ c <> 58 /\ c <> 61 /\ c <> 63
  /\ c <> 10 /\ c <> 13.
Proof.
  unfold name_char, is_name_char, is_ascii_alphanumeric, is_ascii_digit, is_ascii_lowercase, is_ascii_uppercase.
  rewrite !orb_true_iff, !in_range_true, !Z.eqb_eq. intros H. split; [|lia].
  unfold is_whitespace, in_range. rewrite ?orb_false_iff, ?andb_false_iff, ?Z.eqb_neq, ?Z.leb_gt. lia.
Qed.

Lemma scoped_name_spec w : is_scoped_variable_name w = true <-> w <> [] /\ Forall name_char w.
Proof.
  unfold is_scoped_variable_name. rewrite andb_true_iff, negb_true_iff. unfold eqb_list.
  rewrite bool_decide_eq_false, forallb_forall, Forall_forall. setoid_rewrite <- list_elem_of_In. done.
Qed.

Lemma break_at_word f w c r : Forall (fun x => f x = false) w -> f c = true -> break_at f (w ++ c :: r) = Some (w, c :: r).
Proof. intros Hw Hc. induction Hw as [|x w Hx Hw IH]; cbn; [by rewrite Hc|]. by rewrite Hx, IH. Qed.

(** A prefix of name characters ends inside the word. *)
Lemma prefix_in_word p w c r tail : Forall name_char p -> ~ name_char c ->
  w ++ c :: r = p ++ tail -> exists x, w = p ++ x /\ tail = x ++ c :: r.
Proof.
  intros Hp Hc. revert w. induction Hp as [|y p Hy Hp IH]; intros w Heq; cbn in *; [by exists w|].
  destruct w as [|z w]; cbn in Heq; [injection Heq as <- _; done|]. injection Heq as -> Heq.
  destruct (IH w Heq) as (x & -> & ->). by exists x.
Qed.

Lemma find_map_None {A B} (f : A -> option B) l : (forall x, x ∈ l -> f x = None) -> find_map f l = None.
Proof.
  induction l as [|x l IH]; intros H; cbn; [done|]. rewrite H by apply list_elem_of_here.
  apply IH. intros y Hy. apply H. by apply list_elem_of_further.
Qed.

Section word_line.
Context (w r : list Z) (Hw : w <> []) (Hc : Forall name_char w) (Hres : w ∉ reserved).
Let t := w ++ 32 :: r.

Lemma space_no_name : ~ name_char 32.
Proof. done. Qed.
Lemma word_head : exists c r', t = c :: r' /\ name_char c.
Proof. unfold t. destruct Hc; [done|]. cbn. by eexists _, _. Qed.
Lemma word_starts p d : ~ name_char d -> starts_with t (d :: p) = false.
Proof.
  intros Hd. destruct word_head as (c & r' & -> & Hn). apply starts_with_head. intros ->. done.
Qed.

Lemma word_no_conditional : conditional_directive t = None.
Proof.
  apply find_map_None. intros p Hp. assert (Forall name_char p) as Hpc.
  { assert (Forall (Forall name_char) CONDITIONALS) as HF by repeat constructor. rewrite Forall_forall in HF. auto. }
  unfold directive_tail. destruct (strip_prefix p t) as [tail|] eqn:E; [|done].
  apply strip_prefix_Some in E. destruct (prefix_in_word _ _ _ _ _ Hpc space_no_name E) as (x & Hx & ->).
  destruct x as [|y x]; [rewrite app_nil_r in Hx; subst; exfalso; apply Hres, elem_of_app; by left|]. cbn.
  subst w. apply Forall_app in Hc as [_ Hc']. inversion Hc' as [|? ? Hy _]; subst.
  destruct (name_char_facts y Hy) as (-> & H). cbn. by rewrite (proj2 (Z.eqb_neq y 40)) by tauto.
Qed.

Lemma word_no_else : eqb_list t (rs "endif") = false /\ eqb_list t (rs "else") = false /\ starts_with t (rs "else ") = false.
Proof.
  assert (forall p, Forall name_char p -> eqb_list t p = false) as H.
  { intros p Hp. apply not_true_is_false. rewrite eqb_list_true. unfold t. intros <-.
    apply Forall_app in Hp as [_ Hp]. by inversion Hp. }
  rewrite !H by repeat constructor. repeat split. apply not_true_is_false. intros (x & Hx)%starts_with_true.
  destruct (prefix_in_word (rs "else") w 32 r (32 :: x)) as (y & -> & Hy); [repeat constructor|done|exact Hx|].
  destruct y as [|c y]; [apply Hres; rewrite app_nil_r; set_solver|]. apply Forall_app in Hc as [_ Hc'].
  injection Hy as <- _. by inversion Hc'.
Qed.

Lemma word_no_error : trim t = t -> is_make_error_directive t = false.
Proof.
  intros Ht. unfold is_make_error_directive. rewrite Ht.
  destruct word_head as (c & r' & -> & Hn). destruct (name_char_facts c Hn).
  change (rs "$(error") with (36 :: rs "(error"). by rewrite strip_prefix_head by naive_solver.
Qed.

Lemma word_no_comment : commented_assignment t = None.
Proof.
  unfold commented_assignment. destruct word_head as (c & r' & -> & Hn). destruct (name_char_facts c Hn) as (Hws & H).
  rewrite trim_start_fix by done. by rewrite strip_prefix_head by naive_solver.
Qed.

Lemma first_word_is : first_word t = (w, trim r).
Proof.
  unfold first_word, t. rewrite break_at_word; [done| |done]. eapply Forall_impl; [exact Hc|].
  intros c Hn. by apply name_char_facts in Hn as [? _].
Qed.

Lemma word_no_define : strip_make_comment t = t -> make_define_directive t = None.
Proof.
  intros Hs. unfold make_define_directive.
  assert (trim_start t = t) as E.
  { apply trim_start_fix. destruct word_head as (c & r' & -> & Hn). by apply name_char_facts in Hn as [? _]. }
  rewrite E, Hs, E, first_word_is.
  assert (forall p, p ∈ reserved -> eqb_list w p = false) as Hne.
  { intros p Hp. apply not_true_is_false. rewrite eqb_list_true. intros ->. done. }
  assert (is_modifier w = false) as Hm.
  { unfold is_modifier. rewrite !Hne; [done|..]; apply elem_of_app; right; repeat constructor. }
  cbn [skip_modifiers]. rewrite Hm, !Hne; [done|..]; apply elem_of_app; right; repeat constructor.
Qed.
End word_line.

(** ** Reading an assignment back *)
Lemma find_str_app h n pre s : Forall (fun c => c <> h) pre ->
  find_str (h :: n) (pre ++ s) = Nat.add (length pre) <$> find_str (h :: n) s.
Proof.
  induction 1 as [|c pre Hc Hp IH]; [change ([] ++ s) with s; by destruct (find_str (h :: n) s)|]. change ((c :: pre) ++ s) with (c :: (pre ++ s)).
  cbn [find_str]. rewrite starts_with_head by done. rewrite IH. by destruct (find_str _ s).
Qed.
Lemma find_str_start n s : starts_with s n = true -> find_str n s = Some O.
Proof. intros H. destruct s; cbn; by rewrite H. Qed.
Lemma find_str_later n s k : starts_with s n = false -> find_str n s = Some k -> (0 < k)%nat.
Proof. intros H. destruct s; cbn; rewrite H; [done|]. destruct (find_str n s); cbn; [|done]. intros [= <-]. lia. Qed.

Lemma min_by_key_unique {A} (key : A -> nat) l1 x l2 : Forall (fun y => (key x < key y)%nat) (l1 ++ l2) ->
  min_by_key key (l1 ++ x :: l2) = Some x.
Proof.
  intros [H1 H2]%Forall_app. assert (min_by_key key (x :: l2) = Some x) as E.
  { cbn [min_by_key]. assert (forall y, min_by_key key l2 = Some y -> (key x < key y)%nat) as Hm.
    { clear H1. induction H2 as [|z l2 Hz Hl2 IH]; [done|]. cbn [min_by_key]. intros y.
      destruct (min_by_key key l2) as [u|]; [|by intros [= <-]]. intros [= <-]. case_match; auto. }
    destruct (min_by_key key l2) as [y|]; [|done]. specialize (Hm y eq_refl).
    by rewrite (proj2 (Nat.ltb_ge _ _)) by lia. }
  induction H1 as [|z l1 Hz Hl1 IH]; [exact E|]. cbn [app min_by_key]. rewrite IH. by rewrite (proj2 (Nat.ltb_lt _ _)).
Qed.

Section operators.
Context (pre rest : list Z).
Let candidate (x : list Z * AssignmentKind) : option (nat * nat * AssignmentKind) :=
  let '(op, kind) := x in (fun at_ => (at_, length op, kind)) <$> find_str op (pre ++ rest).

Lemma candidates_later l : Forall (fun x => starts_with rest x.1 = false) l ->
  Forall (fun x => exists h n, x.1 = h :: n /\ Forall (fun c => c <> h) pre) l ->
  Forall (fun y => (length pre < y.1.1)%nat) (omap candidate l).
Proof.
  induction 1 as [|[op k] l Hop Hl IH]; intros Hh; [constructor|]. inversion Hh as [|? ? (h & n & E & Hpre) Hh']; subst.
  cbn in *. subst op. unfold candidate. cbn. rewrite find_str_app by done.
  destruct (find_str (h :: n) rest) as [j|] eqn:Ej; cbn; [|by apply IH]. constructor; [|by apply IH].
  cbn. apply find_str_later in Ej; [lia|done].
Qed.

Lemma first_operator l1 op kind l2 : starts_with rest op = true ->
  Forall (fun x => starts_with rest x.1 = false) (l1 ++ l2) ->
  Forall (fun x => exists h n, x.1 = h :: n /\ Forall (fun c => c <> h) pre) (l1 ++ (op, kind) :: l2) ->
  min_by_key (fun x => x.1.1) (omap candidate (l1 ++ (op, kind) :: l2)) = Some (length pre, length op, kind).
Proof.
  intros Hop Hl Hh. apply Forall_app in Hl as [Hl1 Hl2], Hh as [Hh1 Hh2].
  inversion Hh2 as [|? ? (h & n & E & Hpre) Hh3]; subst. cbn in E. subst op. rewrite omap_app. cbn [omap list_omap].
  assert (candidate (h :: n, kind) = Some (length pre, length (h :: n), kind)) as ->.
  { unfold candidate. rewrite find_str_app, find_str_start by done. cbn. by rewrite Nat.add_0_r. }
  apply min_by_key_unique, Forall_app. split; by apply candidates_later.
Qed.
End operators.

Lemma trim_word w : Forall name_char w -> trim (w ++ [32]) = w.
Proof.
  intros Hw. assert (Forall (fun c => is_whitespace c = false) w) as Hns
    by (eapply Forall_impl; [done|]; intros c Hc; by apply name_char_facts in Hc as [? _]).
  unfold trim. destruct w as [|c w]; [done|]. rewrite (trim_start_fix ((c :: w) ++ [32])) by (inversion Hns; subst; assumption).
  rewrite rev_app_distr. change (trim_start (rev [32] ++ ?l)) with (trim_start l).
  rewrite trim_start_id by (by apply Forall_rev). apply rev_involutive.
Qed.

Lemma no_operator_char c : c ∈ [58; 43; 63; 61] -> ~ name_char c /\ c <> 32.
Proof. rewrite !elem_of_cons, elem_of_nil. intros [-> |[-> |[-> |[-> |[]]]]]; done. Qed.

Lemma read_assignment name kind value : is_scoped_variable_name name = true -> kind <> Undefine -> trim value = value ->
  let t := name ++ [32] ++ operator kind ++ (if eqb_list value [] then [] else 32 :: value) in
  trim t = t -> variable_assignment t = Some (name, value, kind).
Proof.
  intros Hname Hk Hv t Ht. pose proof Hname as [Hne Hc]%scoped_name_spec. unfold variable_assignment. rewrite Ht.
  set (tail := if eqb_list value [] then [] else 32 :: value) in *.
  assert (t = (name ++ [32]) ++ operator kind ++ tail) as Et by (unfold t; by rewrite <- app_assoc).
  assert (forall h, h ∈ [58; 43; 63; 61] -> Forall (fun c => c <> h) (name ++ [32])) as Hpre.
  { intros h [Hh H32]%no_operator_char. apply Forall_app. split; [|by repeat constructor].
    eapply Forall_impl; [exact Hc|]. intros c Hn ->. done. }
  assert (Forall (fun x : list Z * AssignmentKind => exists h n, x.1 = h :: n /\ Forall (fun c => c <> h) (name ++ [32]))
    assignment_operators) as Hops
    by (repeat (apply Forall_cons; split; [eexists _, _; split; [reflexivity|apply Hpre; repeat constructor]|]); constructor).
  assert (min_by_key (fun x => x.1.1)
    (omap (fun '(op, kind) => (fun at_ => (at_, length op, kind)) <$> find_str op t) assignment_operators)
    = Some (length (name ++ [32]), length (operator kind), kind)) as E.
  { rewrite Et. destruct kind; [apply (first_operator _ _ [_] (rs ":=") SimpleSet [_; _; _])
      |apply (first_operator _ _ [_; _; _; _] (rs "=") RecursiveSet [])
      |apply (first_operator _ _ [_; _; _] (rs "?=") SetIfUnset [_])
      |apply (first_operator _ _ [_; _] (rs "+=") Append [_; _])|done]; try exact Hops; repeat constructor. }
  rewrite E. cbn [mbind option_bind]. rewrite Et, take_app_length, trim_word, Hname by done.
  rewrite <- length_app, app_assoc, drop_app_length. do 3 f_equal. unfold tail.
  destruct (eqb_list value []) eqn:Ev; [by apply eqb_list_true in Ev as ->|]. exact Hv.
Qed.

(** ** The text of a line *)
Lemma no_trailing_app x y : y <> [] -> no_leading (rev y) -> no_leading (rev (x ++ y)).
Proof. intros Hy. rewrite rev_app_distr. destruct (rev y) eqn:E; [|done]. apply (f_equal (@rev Z)) in E. by rewrite rev_involutive in E. Qed.
Lemma strip_comment_id s : Forall (fun c => c <> 35) s -> strip_make_comment s = s.
Proof.
  intros Hs. unfold strip_make_comment. change s with (rev [] ++ s) at 2. generalize (@nil Z) as before.
  induction Hs as [|c s Hc Hs IH]; intros before; cbn; [by rewrite app_nil_r|].
  rewrite (proj2 (Z.eqb_neq c 35)) by done. cbn. rewrite IH. cbn. by rewrite <- app_assoc.
Qed.

Definition line_char (c : Z) : Prop := c <> 35 /\ c <> 10 /\ c <> 13.
Lemma name_line_char w : Forall name_char w -> Forall line_char w.
Proof. intros H. eapply Forall_impl; [exact H|]. intros c Hc. apply name_char_facts in Hc. unfold line_char. tauto. Qed.

Lemma undefine_not_reserved : rs "undefine" ∉ reserved.
Proof. apply (bool_decide_eq_false_1 (rs "undefine" ∈ reserved)). vm_compute. reflexivity. Qed.

Section line.
Context (a : assignment) (Ha : well_formed a).

Lemma print_shape : exists w r, print a = w ++ 32 :: r /\ w <> [] /\ Forall name_char w /\ w ∉ reserved.
Proof.
  pose proof (wf_name a Ha) as [Hne Hc]%scoped_name_spec. unfold print. destruct (wf_reserved a Ha) as [Hk|Hres].
  - rewrite Hk. exists (rs "undefine"), (a_name a). split; [done|]. split; [done|]. split; [by repeat constructor|].
    exact undefine_not_reserved.
  - destruct (a_kind a); try (eexists (a_name a), _; split; [reflexivity|done]).
    exists (rs "undefine"), (a_name a). split; [done|]. split; [done|]. split; [by repeat constructor|].
    exact undefine_not_reserved.
Qed.

Lemma print_chars : Forall line_char (print a).
Proof.
  pose proof (wf_name a Ha) as [_ Hc%name_line_char]%scoped_name_spec.
  assert (Forall line_char (a_value a)) as Hv
    by (eapply Forall_impl; [apply (wf_value a Ha)|]; unfold plain_char, line_char; tauto).
  assert (Forall line_char (if eqb_list (a_value a) [] then [] else 32 :: a_value a)) as Hv'
    by (case_match; [constructor|by constructor]).
  unfold print. destruct (a_kind a); repeat (apply Forall_app; split); try done; by repeat constructor.
Qed.

Lemma print_trim : trim (print a) = print a.
Proof.
  destruct print_shape as (w & r & E & Hne & Hc & _). apply trim_fix.
  - rewrite E. destruct Hc as [|c w Hn _]; [done|]. cbn. by apply name_char_facts in Hn as [? _].
  - pose proof (wf_name a Ha) as [Hnn Hcn]%scoped_name_spec. unfold print.
    assert (no_leading (rev (a_value a))) as Hv by (rewrite <- (wf_trimmed a Ha); apply trim_ends).
    assert (forall x op, op <> [] -> no_leading (rev op) ->
      no_leading (rev (x ++ [32] ++ op ++ (if eqb_list (a_value a) [] then [] else 32 :: a_value a)))) as Hop.
    { intros x op H1 H2. destruct (eqb_list (a_value a) []) eqn:Ev.
      - rewrite app_nil_r. apply no_trailing_app; [by destruct op|]. by apply no_trailing_app.
      - assert (a_value a <> []) as Hv0 by (intros E0; by rewrite E0 in Ev).
        rewrite !app_assoc. change (32 :: a_value a) with ([32] ++ a_value a). rewrite app_assoc. by apply no_trailing_app. }
    destruct (a_kind a); try (by apply Hop). apply no_trailing_app; [done|].
    assert (Forall name_char (rev (a_name a))) as Hr by (by apply Forall_rev).
    destruct Hr as [|c l Hn _]; [done|]. cbn. by apply name_char_facts in Hn as [? _].
Qed.

Lemma print_strip : strip_make_comment (print a) = print a.
Proof. apply strip_comment_id. eapply Forall_impl; [apply print_chars|]. unfold line_char. tauto. Qed.

Lemma find_str_chars n s k c : find_str n s = Some k -> c ∈ n -> c ∈ s.
Proof.
  revert k. induction s as [|d s IH]; intros k; cbn.
  - destruct (starts_with [] n) eqn:E; [|done]. apply starts_with_true in E as [r E]. symmetry in E.
    apply app_nil in E as [-> _]. set_solver.
  - destruct (starts_with (d :: s) n) eqn:E.
    + apply starts_with_true in E as [r ->]. set_solver.
    + destruct (find_str n s) eqn:Ef; [|done]. intros _ Hc. apply list_elem_of_further. by eapply IH.
Qed.

Lemma print_assignment : line_assignment (print a) = Some (a_name a, a_value a, a_kind a).
Proof.
  pose proof print_trim as Ht. pose proof print_strip as Hs. pose proof (wf_name a Ha) as Hn.
  unfold line_assignment. destruct (decide (a_kind a = Undefine)) as [Hk|Hk].
  - rewrite Hk, (wf_undefine a Ha Hk). apply scoped_name_spec in Hn as Hn'. destruct Hn' as [Hne Hc].
    assert (print a = rs "undefine " ++ a_name a) as E by (unfold print; by rewrite Hk).
    assert (variable_assignment (print a) = None) as Hnone.
    { assert (61 ∉ print a) as H61.
      { rewrite E. intros [H|H]%elem_of_app; [vm_compute in H; set_solver|].
        rewrite Forall_forall in Hc. specialize (Hc _ H). done. }
      assert (forall op, 61 ∈ op -> find_str op (print a) = None) as Hf.
      { intros op Hop. destruct (find_str op (print a)) eqn:Ef; [|done]. exfalso. by eapply H61, find_str_chars. }
      unfold variable_assignment. rewrite Ht. unfold assignment_operators. cbn [omap list_omap].
      rewrite !Hf by (vm_compute; set_solver). done. }
    rewrite Hnone. unfold undefine_directive. rewrite Hs, Ht, Hnone, E.
    change (directive_tail (rs "undefine " ++ a_name a) (rs "undefine")) with (Some (trim (32 :: a_name a))).
    cbn iota beta zeta. rewrite trim_idemp. change (trim (32 :: a_name a)) with (trim (a_name a)).
    rewrite trim_id by (eapply Forall_impl; [exact Hc|]; intros c Hn'; by apply name_char_facts in Hn' as [? _]).
    by rewrite Hn.
  - assert (print a = a_name a ++ [32] ++ operator (a_kind a) ++ (if eqb_list (a_value a) [] then [] else 32 :: a_value a)) as E
      by (unfold print; by destruct (a_kind a)).
    rewrite E in *. by rewrite (read_assignment (a_name a) (a_kind a) (a_value a) Hn Hk (wf_trimmed a Ha) Ht).
Qed.
End line.

(** ** One line of the scan *)
Record quiet (st : ScanState) : Prop :=
  { q_halted : halted st = false; q_stack : conditional_stack st = []; q_depth : conditional_depth st = 0;
    q_opaque : opaque_assignments (scope st) = ∅; q_opaque_all : opaque_all_assignments (scope st) = [];
    q_uncertain : uncertain_path_values (scope st) = ∅ }.

Lemma quiet_branch ctx st : quiet st -> branch_state_of ctx st = CTrue.
Proof. intros H. unfold branch_state_of, innermost. rewrite (q_halted _ H), (q_stack _ H), (q_depth _ H). by destruct ctx. Qed.

Lemma scan_print ctx names n st a : well_formed a -> quiet st ->
  scan_line ctx names n (print a) false None st =
  Ok (assign names n (a_name a) (a_value a) (a_kind a) (bool_decide (is_Some ctx)) CTrue (push_line_state CTrue st)).
Proof.
  intros Ha Hq. destruct (print_shape a Ha) as (w & r & E & Hne & Hc & Hres).
  unfold scan_line, enter_line, skipped. rewrite (quiet_branch ctx st Hq).
  assert (forall d, ~ name_char d -> starts_with (print a) [d] = false) as Hd
    by (intros d H; rewrite E; by apply word_starts).
  assert (commented_assignment (print a) = None) as Hcom by (rewrite E; by apply word_no_comment).
  rewrite print_strip, print_trim, !Hd, Hcom by done. cbn [orb negb andb].
  assert (is_make_error_directive (print a) = false) as ->.
  { pose proof (print_trim a Ha) as Ht. rewrite E in *. by apply word_no_error. }
  rewrite andb_false_r. rewrite E at 1. rewrite word_no_conditional by done.
  destruct (word_no_else w r Hne Hc Hres) as (H1 & H2 & H3). rewrite <- E in H1, H2, H3. rewrite H1, H2, H3. cbn [orb].
  rewrite print_assignment by done. by destruct (bool_decide (is_Some ctx)).
Qed.

Lemma annotate_print l : Forall well_formed l -> annotate (map print l) = map (fun a => (print a, (false, None))) l.
Proof.
  intros Hl. unfold annotate. induction Hl as [|a l Ha Hl IH]; [done|]. cbn.
  destruct (print_shape a Ha) as (w & r & E & Hne & Hc & Hres).
  assert (define_line 0 (print a) = (false, None, 0)) as ->; [|by rewrite IH].
  unfold define_line. rewrite E at 1. rewrite word_starts by done.
  pose proof (print_strip a Ha) as Hs. rewrite E in *. by rewrite word_no_define.
Qed.

(** ** Values and definedness as of now *)
Definition defined_now (s : VarScope) (name : list Z) : bool :=
  match last (hist (raw s) name), last (hist (undefinitions s) name) with
  | Some (set_at, _), Some undefine_at => undefine_at <? set_at
  | Some _, None => true
  | None, Some _ => false
  | None, None => bool_decide (is_Some (configuration s !! name))
  end.

Record reads (n : Z) (st : ScanState) (e : environment) : Prop :=
  { r_quiet : quiet st;
    r_raw : forall name, Forall (fun x => x.1 < n) (hist (raw (scope st)) name);
    r_undefinitions : forall name, Forall (fun x => x < n) (hist (undefinitions (scope st)) name);
    r_value : forall name, default [] (latest (scope st) (raw (scope st)) name) = default [] (e !! name);
    r_defined : forall name, defined_now (scope st) name = bool_decide (is_Some (e !! name));
    r_trimmed : forall name v, e !! name = Some v -> trim v = v }.

Lemma last_before_last {A} (at_ : A -> Z) n h : Forall (fun x => at_ x < n) h -> last_before at_ n h = last h.
Proof.
  intros Hh. unfold last_before. destruct h as [|x h] using rev_ind; [done|].
  rewrite rev_app_distr, last_snoc. apply Forall_app in Hh as [_ Hx]. apply Forall_cons in Hx as [Hx _].
  cbn [rev app List.find]. by rewrite (proj2 (Z.ltb_lt _ _) Hx).
Qed.
Lemma quiet_opaque st name n : quiet st -> has_opaque_assignment_before (scope st) name n = false.
Proof. intros H. unfold has_opaque_assignment_before. by rewrite (q_opaque _ H), (q_opaque_all _ H), lookup_empty. Qed.
Lemma quiet_uncertain st name n : quiet st -> has_uncertain_path_value_before (scope st) name n = false.
Proof. intros H. unfold has_uncertain_path_value_before. by rewrite (q_uncertain _ H), lookup_empty. Qed.

Lemma reads_defined n st e name : reads n st e -> is_defined_before (scope st) name n = bool_decide (is_Some (e !! name)).
Proof.
  intros H. rewrite <- (r_defined _ _ _ H). unfold is_defined_before, defined_now.
  rewrite quiet_opaque, !lookup_hist by apply H. rewrite !last_before_last; [done|..]; apply H.
Qed.
Lemma reads_value n st e name : reads n st e -> default [] (raw_at (scope st) name n) = default [] (e !! name).
Proof.
  intros H. rewrite <- (r_value _ _ _ H). unfold raw_at, latest. rewrite quiet_opaque, quiet_uncertain by apply H. cbn [orb].
  rewrite lookup_hist, last_before_last by apply H. unfold hist. by destruct (raw (scope st) !! name).
Qed.

(** ** An assignment without references *)
Lemma no_dollar value : Forall plain_char value -> contains_char 36 value = false /\ scalar_references value = [].
Proof.
  induction 1 as [|c l Hc Hl [IH1 IH2]]; [done|]. unfold contains_char in *. cbn [existsb scalar_references].
  destruct Hc as [Hc _]. rewrite (proj2 (Z.eqb_neq 36 c)), (proj2 (Z.eqb_neq c 36)) by done. by rewrite IH1, IH2.
Qed.
Lemma immediate_plain s depth value : contains_char 36 value = false -> expand_immediate_locals s value depth = value.
Proof. intros H. unfold expand_immediate_locals. destruct depth; [done|]. cbn [expand_immediate_locals_impl]. by rewrite H. Qed.

Definition combined (kind : AssignmentKind) (old value : list Z) : list Z :=
  if bool_decide (kind = Append) then
    if eqb_list old [] then value else if eqb_list value [] then old else old ++ [32] ++ value
  else value.

(** What such an assignment leaves in the histories that values come from. *)
Lemma record_value_plain names line name value kind flavor s : Forall plain_char value ->
  opaque_assignments s = ∅ -> opaque_all_assignments s = [] ->
  let s' := record_value names line name value kind true flavor s in
  raw s' = push_at name (line, trim (combined kind (default [] (latest s (raw s) name)) value)) (raw s) /\
  undefinitions s' = (if bool_decide (kind = Undefine) then push_at name line (undefinitions s) else undefinitions s) /\
  configuration s' = configuration s /\ opaque_assignments s' = ∅ /\ opaque_all_assignments s' = [] /\
  uncertain_path_values s' = uncertain_path_values s.
Proof.
  intros [Hv Hr]%no_dollar Ho Hoa. unfold record_value.
  set (s1 := if bool_decide (kind = Undefine) then push_undefinition name line s else s).
  set (s2 := if (_ : bool) then push_replacement name line s1 else s1).
  set (s3 := record_flavor _ _ _ _ s2).
  assert (record_uncertain line name value flavor s3 = s3) as -> by (unfold record_uncertain; by rewrite Hr, andb_false_r).
  assert (raw s3 = raw s /\ configuration s3 = configuration s /\ opaque_assignments s3 = ∅ /\ opaque_all_assignments s3 = [] /\
    uncertain_path_values s3 = uncertain_path_values s /\
    undefinitions s3 = if bool_decide (kind = Undefine) then push_at name line (undefinitions s) else undefinitions s)
    as (Eraw & Ec & Eo & Eoa & Eu & Eun).
  { subst s3 s2 s1. unfold record_flavor. destruct kind, (flavor_uncertainty _ _ _ _ _ _); done. }
  clearbody s3. cbn [raw undefinitions configuration opaque_assignments opaque_all_assignments uncertain_path_values push_value push_path_raw].
  rewrite Eraw, Ec, Eo, Eoa, Eu, Eun. split; [|done]. do 3 f_equal.
  unfold expanded_value, combined, latest_raw_for_append, has_opaque_assignment_before.
  cbn [opaque_assignments opaque_all_assignments push_path_raw configuration raw]. rewrite Eo, Eoa, lookup_empty. cbn [mbind option_bind].
  rewrite (immediate_plain _ _ value Hv). unfold latest. cbn [raw configuration push_path_raw]. rewrite Eraw, Ec.
  replace (if bool_decide (flavor = Simple) then value else value) with value by (by destruct (bool_decide (flavor = Simple))).
  destruct (bool_decide (kind = Append)); [|done].
  by destruct (match raw s !! name ≫= last with Some _ => _ | None => _ end).
Qed.

Lemma combined_trimmed kind old value : trim old = old -> trim value = value ->
  trim (combined kind old value) = combined kind old value.
Proof.
  intros Ho Hv. unfold combined. destruct (bool_decide _); [|done].
  destruct (eqb_list old []) eqn:E1; [done|]. destruct (eqb_list value []) eqn:E2; [done|].
  assert (old <> [] /\ value <> []) as [H1 H2] by (split; intros ->; done).
  apply trim_fix.
  - pose proof (trim_ends old) as [H _]. rewrite Ho in H. by destruct old.
  - rewrite app_assoc. apply no_trailing_app; [done|]. pose proof (trim_ends value) as [_ H]. by rewrite Hv in H.
Qed.

Lemma perform_spec e a : well_formed a ->
  perform e a = if bool_decide (a_kind a = Undefine) then delete (a_name a) e
                else if bool_decide (a_kind a = SetIfUnset) && bool_decide (is_Some (e !! a_name a)) then e
                else <[a_name a := combined (a_kind a) (default [] (e !! a_name a)) (a_value a)]> e.
Proof. intros Ha. unfold perform, combined. destruct (a_kind a), (e !! a_name a); done. Qed.

Lemma default_trimmed (e : environment) (name : list Z) :
  (forall n v, e !! n = Some v -> trim v = v) -> trim (default [] (e !! name)) = default [] (e !! name).
Proof. intros H. destruct (e !! name) as [v|] eqn:E; [by apply (H name)|done]. Qed.

Lemma hist_last {A} (m : names (list A)) (name : list Z) : (m !! name ≫= last) = last (hist m name).
Proof. unfold hist. by destruct (m !! name). Qed.

Section step.
Context (ctx : bool) (path_names : gset (list Z)) (n : Z) (st : ScanState) (e : environment) (a : assignment).
Context (Ha : well_formed a) (Hr : reads n st e).
Let st' := assign path_names n (a_name a) (a_value a) (a_kind a) ctx CTrue (push_line_state CTrue st).

(** The scope after an assignment that takes effect. *)
Definition effective (s s' : VarScope) : Prop :=
  raw s' = push_at (a_name a) (n, combined (a_kind a) (default [] (e !! a_name a)) (a_value a)) (raw s) /\
  undefinitions s' = (if bool_decide (a_kind a = Undefine) then push_at (a_name a) n (undefinitions s) else undefinitions s) /\
  configuration s' = configuration s.

Lemma assign_cases : quiet st' /\
  ((a_kind a = SetIfUnset /\ is_Some (e !! a_name a) /\ raw (scope st') = raw (scope st) /\
    undefinitions (scope st') = undefinitions (scope st) /\ configuration (scope st') = configuration (scope st)) \/
   (~ (a_kind a = SetIfUnset /\ is_Some (e !! a_name a)) /\ effective (scope st) (scope st'))).
Proof.
  unfold st', assign. change (bool_decide (CTrue = CUnknown)) with false. change (bool_decide (CTrue = CTrue)) with true.
  cbn [negb]. rewrite andb_false_r.
  set (s := add_local (a_name a) (scope (push_line_state CTrue st))).
  change (is_defined_before s (a_name a) n) with (is_defined_before (scope st) (a_name a) n).
  rewrite (reads_defined n st e) by done. pose proof (r_quiet _ _ _ Hr) as Hq.
  destruct (bool_decide (a_kind a = SetIfUnset) && bool_decide (is_Some (e !! a_name a))) eqn:E.
  - bool_prop. split; [by destruct Hq|]. by left.
  - assert (~ (a_kind a = SetIfUnset /\ is_Some (e !! a_name a))) as Hn.
    { intros [H1 H2]. by rewrite (bool_decide_eq_true_2 _ H1), (bool_decide_eq_true_2 _ H2) in E. }
    set (flavor := flavor_of _ _ _ _).
    destruct (record_value_plain path_names n (a_name a) (a_value a) (a_kind a) flavor s)
      as (E1 & E2 & E3 & E4 & E5 & E6); [apply (wf_value a Ha)|apply Hq..|].
    split; [destruct Hq; split; try done; cbn [scope]; by rewrite E6|]. right. split; [done|].
    unfold effective. cbn [scope]. rewrite E1, E2, E3. repeat split. do 2 f_equal.
    change (latest s (raw s) (a_name a)) with (latest (scope st) (raw (scope st)) (a_name a)).
    rewrite (r_value _ _ _ Hr). apply combined_trimmed; [apply default_trimmed, (r_trimmed _ _ _ Hr)|apply (wf_trimmed a Ha)].
Qed.

Lemma effective_reads s' (new : list Z) : new = combined (a_kind a) (default [] (e !! a_name a)) (a_value a) ->
  effective (scope st) s' ->
  let e' := if bool_decide (a_kind a = Undefine) then delete (a_name a) e else <[a_name a := new]> e in
  forall name, default [] (latest s' (raw s') name) = default [] (e' !! name) /\
    defined_now s' name = bool_decide (is_Some (e' !! name)) /\ (forall v, e' !! name = Some v -> trim v = v).
Proof.
  intros Hnew (E1 & E2 & E3) e' name. rewrite <- Hnew in E1.
  pose proof (r_value _ _ _ Hr name) as Hval. pose proof (r_defined _ _ _ Hr name) as Hdef.
  assert (trim new = new) as Htrim.
  { rewrite Hnew. apply combined_trimmed; [apply default_trimmed, (r_trimmed _ _ _ Hr)|apply (wf_trimmed a Ha)]. }
  unfold latest, defined_now in *. rewrite E1, E2, E3, hist_last, hist_push in *.
  destruct (decide (a_name a = name)) as [<-|Hne].
  - rewrite last_snoc. unfold e'. destruct (bool_decide_reflect (a_kind a = Undefine)) as [Hk|Hk].
    + rewrite lookup_delete_eq, hist_push, decide_True, last_snoc, Z.ltb_irrefl by done.
      repeat split; [|done]. rewrite Hnew, Hk. unfold combined. by rewrite (wf_undefine a Ha Hk).
    + rewrite lookup_insert_eq. repeat split; [|by intros v [= <-]].
      destruct (last (hist (undefinitions (scope st)) (a_name a))) as [u|] eqn:Hu; [|done].
      pose proof (r_undefinitions _ _ _ Hr (a_name a)) as HF. rewrite Forall_forall in HF.
      apply last_Some_elem_of, HF in Hu. rewrite (proj2 (Z.ltb_lt u n)) by done. symmetry. by apply bool_decide_eq_true_2.
  - assert (e' !! name = e !! name) as -> 
      by (unfold e'; destruct (bool_decide _); [by apply lookup_delete_ne|by apply lookup_insert_ne]).
    split; [done|]. split; [|apply (r_trimmed _ _ _ Hr)].
    destruct (bool_decide (a_kind a = Undefine)); rewrite ?hist_push, ?decide_False by done; done.
Qed.

Lemma push_bounds {A} (at_ : A -> Z) (m : names (list A)) (x : A) (name : list Z) :
  (forall name, Forall (fun y => at_ y < n) (hist m name)) -> at_ x = n ->
  Forall (fun y => at_ y < n + 1) (hist m name) /\ Forall (fun y => at_ y < n + 1) (hist (push_at (a_name a) x m) name).
Proof.
  intros Hm Hx. assert (Forall (fun y => at_ y < n + 1) (hist m name)) as H
    by (eapply Forall_impl; [apply Hm|]; cbn; lia).
  split; [done|]. rewrite hist_push. case_decide; [|done]. apply Forall_app. split; [done|]. constructor; [lia|done].
Qed.

Lemma reads_step : reads (n + 1) st' (perform e a).
Proof.
  destruct assign_cases as [Hq Hcase]. rewrite perform_spec by done.
  pose proof (fun x name => push_bounds fst (raw (scope st)) x name (r_raw _ _ _ Hr)) as Hraw.
  pose proof (fun name => push_bounds id (undefinitions (scope st)) n name (r_undefinitions _ _ _ Hr) eq_refl) as Hund.
  destruct Hcase as [(Hk & He & E1 & E2 & E3)|(Hn & Heff)].
  - rewrite (bool_decide_eq_true_2 _ Hk), (bool_decide_eq_true_2 _ He), (bool_decide_eq_false_2 (a_kind a = Undefine)) by congruence.
    cbn [andb]. split; try done; intros name; unfold latest, defined_now; rewrite ?E1, ?E2, ?E3;
      [by apply (Hraw (n, []))|apply Hund|apply (r_value _ _ _ Hr)|apply (r_defined _ _ _ Hr)|apply (r_trimmed _ _ _ Hr)].
  - replace (bool_decide (a_kind a = SetIfUnset) && bool_decide (is_Some (e !! a_name a))) with false
      by (symmetry; apply not_true_is_false; intros H; bool_prop; tauto).
    pose proof (effective_reads (scope st') _ eq_refl Heff) as Hall. destruct Heff as (E1 & E2 & E3).
    split; [done| | |apply Hall..]; intros name.
    + rewrite E1. by apply Hraw.
    + rewrite E2. case_match; apply Hund.
Qed.
End step.

Lemma reads_lines ctx path_names l : forall n st e, Forall well_formed l -> reads n st e ->
  exists st', scan_lines ctx path_names n (map (fun a => (print a, (false, None))) l) st = Ok st' /\
    reads (n + len l) st' (foldl perform e l).
Proof.
  induction l as [|a l IH]; intros n st e Hl Hr.
  - exists st. by rewrite Z.add_0_r.
  - inversion Hl as [|? ? Ha Hl']; subst. cbn [map scan_lines foldl].
    rewrite scan_print by (first [done|apply Hr]). cbn [mbind res_bind].
    destruct (IH (n + 1) _ _ Hl' (reads_step (bool_decide (is_Some ctx)) path_names n st e a Ha Hr)) as (st' & H & Hr').
    exists st'. split; [exact H|]. by rewrite len_cons, Z.add_assoc.
Qed.

Lemma initial_reads ctx locals : (forall name v, initial_make_configuration ctx !! name = Some v -> trim v = v) ->
  reads 0 (initial_state (initial_scope ctx locals)) (initial_make_configuration ctx).
Proof.
  intros Hc. split; try done; intros name; unfold latest, defined_now, hist; cbn [scope initial_state initial_scope raw undefinitions];
    rewrite ?lookup_empty; try done; constructor.
Qed.

(** C36. A file of assignments, conditional defaults, appends and undefinitions
    without references is read exactly: at every line, the value of every name
    is the one the lines before it give it, starting from the target's
    configuration, and a name counts as defined exactly if it is. *)
Theorem assignments_exact (ctx : option TargetContext) (forward_locals : bool) (l : list assignment) :
  Forall well_formed l ->
  (forall name v, initial_make_configuration ctx !! name = Some v -> trim v = v) ->
  exists s states, collect_vars_impl_with_forward_locals (text l) ctx forward_locals = Ok (s, states) /\
    forall k name, (k <= length l)%nat ->
      let e := foldl perform (initial_make_configuration ctx) (take k l) in
      default [] (raw_at s name (Z.of_nat k)) = default [] (e !! name) /\
      is_defined_before s name (Z.of_nat k) = bool_decide (is_Some (e !! name)).
Proof.
  intros Hl Hc. unfold collect_vars_impl_with_forward_locals.
  assert (lines (text l) = map print l) as ->.
  { apply lines_rows, Forall_map. eapply Forall_impl; [exact Hl|]. intros a Ha.
    eapply Forall_impl; [apply (print_chars a Ha)|]. unfold line_char. tauto. }
  rewrite annotate_print by done. set (init := initial_scope ctx _). set (names := path_names_of _).
  destruct (scan_lines_total ctx names (map (fun a => (print a, (false, None))) l) 0 (initial_state init)) as [st Hst].
  exists (scope st), (line_states st). rewrite Hst. split; [done|]. intros k name Hk. cbn zeta.
  rewrite <- (take_drop k l), map_app, scan_lines_app in Hst.
  destruct (reads_lines ctx names (take k l) 0 (initial_state init) (initial_make_configuration ctx)) as (st1 & H1 & Hr);
    [by apply Forall_take|by apply initial_reads|].
  rewrite H1 in Hst. cbn [mbind res_bind] in Hst.
  replace (0 + len (take k l)) with (Z.of_nat k) in Hr by (unfold len; rewrite length_take; lia).
  eapply (scan_lines_later _ _ _ _ (Z.of_nat k)) in Hst as [Hlater _]; [|unfold len; rewrite length_map, length_take; lia].
  rewrite (raw_at_later _ _ _ _ Hlater), (defined_later _ _ _ _ Hlater) by lia.
  split; [by apply reads_value|by apply reads_defined].
Qed.

Definition demo_target : TargetContext :=
  mkTarget {[rs "CFLAGS" := rs "-O2"]} (Some (rs "m68k")) (Some (rs "amiga")) None None None None None None None None None None None.
Definition demo_lines : list assignment :=
  [mkAssignment (rs "FILES") SimpleSet (rs "gdbstub"); mkAssignment (rs "CFLAGS") Append (rs "-g");
   mkAssignment (rs "FILES") SimpleSet (rs "gdbstop"); mkAssignment (rs "CPU") SetIfUnset (rs "arm");
   mkAssignment (rs "CFLAGS") Undefine []; mkAssignment (rs "CFLAGS") SetIfUnset (rs "-O0")].

Lemma demo_well_formed : Forall well_formed demo_lines.
Proof.
  repeat apply Forall_cons_2; [..|constructor];
    (split; [done|first [left; reflexivity|right; apply (bool_decide_eq_false_1 (_ ∈ reserved)); vm_compute; reflexivity]
            |done|repeat constructor; done|done]).
Qed.

(** The two values of [FILES], the configured and the redefined [CFLAGS]. *)
Lemma assignments_exact_witness : exists s states,
  collect_vars_impl_with_forward_locals (text demo_lines) (Some demo_target) false = Ok (s, states) /\
  default [] (raw_at s (rs "FILES") 2) = rs "gdbstub" /\ default [] (raw_at s (rs "FILES") 3) = rs "gdbstop" /\
  default [] (raw_at s (rs "CFLAGS") 2) = rs "-O2 -g" /\ default [] (raw_at s (rs "CFLAGS") 6) = rs "-O0" /\
  is_defined_before s (rs "CFLAGS") 5 = false.
Proof.
  destruct (assignments_exact (Some demo_target) false demo_lines demo_well_formed) as (s & states & E & H).
  { assert (map_Forall (fun _ v => trim v = v) (initial_make_configuration (Some demo_target))) as Hc
      by (apply (bool_decide_unpack _); vm_compute; exact I). exact Hc. }
  exists s, states. split; [exact E|].
  split; [etransitivity; [apply (H 2%nat (rs "FILES")); cbn; lia|vm_compute; reflexivity]|].
  split; [etransitivity; [apply (H 3%nat (rs "FILES")); cbn; lia|vm_compute; reflexivity]|].
  split; [etransitivity; [apply (H 2%nat (rs "CFLAGS")); cbn; lia|vm_compute; reflexivity]|].
  split; [etransitivity; [apply (H 6%nat (rs "CFLAGS")); cbn; lia|vm_compute; reflexivity]|].
  etransitivity; [apply (H 5%nat (rs "CFLAGS")); cbn; lia|vm_compute; reflexivity].
Defined.
