(* ===== verification/Dirs.v ===== *)
(** * Dirs: expansion of directory variables

    Models the expansion side of [crates/aros-transpiler/src/dirs.rs]: bounded
    expansion of [$(NAME)] chains against the table read from the
    configuration, with or without a file-local lookup in front, and the
    diagnosis of what could not be resolved.  Reading the configuration into
    the table is not part of this file. *)

From stdpp Require Import gmap.
From S2P Require Import Prelude Text Ordered StateRes.

Definition MAX_DEPTH : nat := 12.
Definition MAX_EXPANSION_VALUE_BYTES : Z := 4 * 1024 * 1024.
Definition MAX_EXPANSION_OUTPUT_BYTES : Z := 16 * 1024 * 1024.
Definition MAX_EXPANSION_SCANNED_BYTES : Z := 64 * 1024 * 1024.
Definition MAX_EXPANSION_WORK_UNITS : Z := 1048576.
Definition MAX_EXPANSION_LIST_ITEMS : Z := 65536.
Definition EXPANSION_RESOURCE_ERROR : list Z := rs "directory expansion exceeded its resource budget".

(** The fields of [DirVars] that expansion reads. *)
Record DirVars := mkDirs
  { resolved : gmap (list Z) (list Z);
    source_proven_resolved : gmap (list Z) (list Z);
    unproven_variables : gset (list Z);
    sticky_unproven_variables : gset (list Z);
    source_evaluation_unproven : bool;
    source_dependency_tracking_unproven : bool;
    materialized : gmap (list Z) (list Z) }.

Record ExpansionBudget := mkBudget
  { output_bytes : Z; scanned_bytes : Z; work_units : Z; list_items : Z }.
Definition budget_default : ExpansionBudget := mkBudget 0 0 0 0.

(** The reason of a [None]; the code does not distinguish the two. *)
Inductive stop := NoValue | OverBudget.

(** The state of an expansion: its budget and whatever the local lookup, an
    [Fn] with interior mutability, writes to ([G]). *)
Section expansion.
Context {G : Type}.
Abbreviation X := (SR (ExpansionBudget * G) stop).

Definition charge_output (bytes : Z) : X unit := fun '(b, g) =>
  match checked_add usize_max (output_bytes b) bytes with
  | Some total => if MAX_EXPANSION_OUTPUT_BYTES <? total then (Err OverBudget, (b, g))
                  else (Ok tt, (mkBudget total (scanned_bytes b) (work_units b) (list_items b), g))
  | None => (Err OverBudget, (b, g))
  end.
Definition charge_scan (bytes : Z) : X unit := fun '(b, g) =>
  match checked_add usize_max (scanned_bytes b) bytes with
  | Some total => if MAX_EXPANSION_SCANNED_BYTES <? total then (Err OverBudget, (b, g))
                  else (Ok tt, (mkBudget (output_bytes b) total (work_units b) (list_items b), g))
  | None => (Err OverBudget, (b, g))
  end.
Definition charge_work (units : Z) : X unit := fun '(b, g) =>
  match checked_add usize_max (work_units b) units with
  | Some total => if MAX_EXPANSION_WORK_UNITS <? total then (Err OverBudget, (b, g))
                  else (Ok tt, (mkBudget (output_bytes b) (scanned_bytes b) total (list_items b), g))
  | None => (Err OverBudget, (b, g))
  end.
Definition charge_item : X unit := fun '(b, g) =>
  if MAX_EXPANSION_LIST_ITEMS <=? list_items b then (Err OverBudget, (b, g))
  else (Ok tt, (mkBudget (output_bytes b) (scanned_bytes b) (work_units b) (list_items b + 1), g)).

(** [if size > MAX_EXPANSION_VALUE_BYTES { return None; }] *)
Definition check_value (size : Z) : X unit :=
  lift (refuse (MAX_EXPANSION_VALUE_BYTES <? size) OverBudget).

Definition append_expansion (output text : list Z) : X (list Z) :=
  next_len ← lift (ok_or (checked_add usize_max (str_len output) (str_len text)) OverBudget);
  _ ← check_value next_len;
  _ ← charge_output (str_len text);
  mret (output ++ text).

(** The text before the first [$(], and the text after it. *)
Fixpoint find_open (text : list Z) : option (list Z * list Z) :=
  match text with
  | c :: ((d :: rest) as tail) =>
    if (c =? 36) && (d =? 40) then Some ([], rest) else prod_map (cons c) id <$> find_open tail
  | _ => None
  end.

(** A nested reference or a function call is not a plain variable. *)
Definition not_plain (name : list Z) : bool := contains_char 36 name || contains_char 32 name.

(** The scan both expansions share: literal segments are copied, the name of
    each reference is expanded by [expand_name].  [fuel] counts references. *)
Fixpoint expand_segments (fuel : nat) (expand_name : list Z -> X (list Z)) (out raw : list Z) : X (list Z) :=
  match fuel with
  | O => lift Stuck
  | S fuel =>
    match find_open raw with
    | None => append_expansion out raw
    | Some (segment, rest) =>
      out ← append_expansion out segment;
      '(name, rest) ← lift (ok_or (split_once 41 rest) NoValue);
      _ ← lift (refuse (not_plain name) NoValue);
      _ ← charge_work 1;
      expanded ← expand_name name;
      out ← append_expansion out expanded;
      expand_segments fuel expand_name out rest
    end
  end.

(** The guards every level of an expansion starts with. *)
Definition enter_level (raw : list Z) : X unit :=
  _ ← check_value (str_len raw); _ ← charge_scan (str_len raw); charge_work 1.

Section table.
Context (d : DirVars).

Fixpoint expand_depth (depth : nat) (require_source_proven : bool) (raw : list Z) : X (list Z) :=
  _ ← lift (refuse (require_source_proven
              && (source_evaluation_unproven d || source_dependency_tracking_unproven d)) NoValue);
  match depth with
  | O => lift (Err NoValue)
  | S depth =>
    _ ← enter_level raw;
    expand_segments (S (length raw)) (fun name =>
      _ ← lift (refuse (require_source_proven
                  && (bool_decide (name ∈ unproven_variables d)
                      || bool_decide (name ∈ sticky_unproven_variables d))) NoValue);
      value ← lift (ok_or ((if require_source_proven then source_proven_resolved d else resolved d) !! name) NoValue);
      expand_depth depth require_source_proven value) [] raw
  end.

(** [local] is called with the state it may write. *)
Context (local : list Z -> G -> option (list Z) * G).
Definition call_local (name : list Z) : X (option (list Z)) := fun '(b, g) =>
  let '(v, g) := local name g in (Ok v, (b, g)).

Fixpoint expand_with_depth (depth : nat) (raw : list Z) : X (list Z) :=
  match depth with
  | O => lift (Err NoValue)
  | S depth =>
    _ ← enter_level raw;
    expand_segments (S (length raw)) (fun name =>
      found ← call_local name;
      match found with
      | Some value => _ ← check_value (str_len value); _ ← charge_output (str_len value);
                      expand_with_depth depth value
      | None => value ← lift (ok_or (resolved d !! name) NoValue); expand_with_depth depth value
      end) [] raw
  end.

Definition push_diagnostic_value (queue : list (list Z)) (value : list Z) (already_charged : bool)
  : X (list (list Z)) :=
  _ ← check_value (str_len value);
  _ ← charge_item;
  _ ← (if negb already_charged then charge_output (str_len value) else mret tt);
  mret (queue ++ [value]).

(** A [BTreeSet] of names: its elements in order. *)
Abbreviation name_set := (list (list Z * unit)).

(** The references of one text: their values join the queue, or their names the
    missing ones. *)
Definition missing_reference (st : list (list Z) * name_set) (name : list Z) : X (list (list Z) * name_set) :=
  let '(queue, missing) := st in
  if not_plain name then mret st
  else
    _ ← charge_work 1;
    found ← call_local name;
    match (match found with Some v => Some v | None => resolved d !! name end) with
    | Some value =>
      _ ← check_value (str_len value);
      _ ← charge_output (str_len value);
      queue ← push_diagnostic_value queue value true;
      mret (queue, missing)
    | None =>
      if bool_decide (is_Some (bt_get name missing)) then mret st
      else _ ← charge_item; _ ← charge_output (str_len name); mret (queue, bt_put str_ltb name tt missing)
    end.

Fixpoint missing_scan (fuel : nat) (st : list (list Z) * name_set) (text : list Z) : X (list (list Z) * name_set) :=
  match fuel with
  | O => lift Stuck
  | S fuel =>
    match find_open text with
    | None => mret st
    | Some (_, rest) =>
      match split_once 41 rest with
      | None => mret st
      | Some (name, rest) => st ← missing_reference st name; missing_scan fuel st rest
      end
    end
  end.

(** [while let Some(text) = queue.pop_back()]: every round charges a unit of
    work, so the budget bounds the rounds. *)
Fixpoint missing_loop (fuel : nat) (st : list (list Z) * name_set) : X name_set :=
  match fuel with
  | O => lift Stuck
  | S fuel =>
    match last st.1 with
    | None => mret st.2
    | Some text =>
      _ ← enter_level text;
      st ← missing_scan (S (length text)) (removelast st.1, st.2) text;
      missing_loop fuel st
    end
  end.

Definition missing_in_with (raw : list Z) : X (list (list Z)) :=
  _ ← check_value (str_len raw);
  _ ← charge_item;
  _ ← charge_output (str_len raw);
  missing ← missing_loop (Z.to_nat MAX_EXPANSION_WORK_UNITS + 2) ([raw], []);
  mret (map fst missing).

Definition not_plain_suffix : list Z := rs " (not a plain variable reference)".

(** [expand_with]: the value, or the names that stand in its way. *)
Definition expand_with (raw : list Z) (g : G) : res unit (list Z + list (list Z)) * G :=
  let over := Ok (inr [EXPANSION_RESOURCE_ERROR]) in
  let '(r, st) := expand_with_depth MAX_DEPTH raw (budget_default, g) in
  match r with
  | Ok value => (Ok (inl value), st.2)
  | Stuck => (Stuck, st.2)
  | Err _ =>
    let '(r, st) := missing_in_with raw st in
    match r with
    | Stuck => (Stuck, st.2)
    | Err _ => (over, st.2)
    | Ok [] =>
      let message := raw ++ not_plain_suffix in
      match (_ ← check_value (str_len raw); _ ← charge_item; _ ← check_value (str_len message);
             charge_output (str_len message)) st with
      | (Ok _, st) => (Ok (inr [message]), st.2)
      | (_, st) => (over, st.2)
      end
    | Ok missing => (Ok (inr missing), st.2)
    end
  end.
End table.
End expansion.

(** [expand] and [expand_source_proven] *)
Definition expand_top (d : DirVars) (require_source_proven : bool) (raw : list Z) : res stop (list Z) :=
  fst (expand_depth (G := unit) d MAX_DEPTH require_source_proven raw (budget_default, tt)).
Definition some_ok {E A} (r : res E A) : option A := match r with Ok a => Some a | _ => None end.
Definition expand (d : DirVars) (raw : list Z) : option (list Z) := some_ok (expand_top d false raw).
Definition expand_source_proven (d : DirVars) (raw : list Z) : option (list Z) := some_ok (expand_top d true raw).

(** [missing_in]: one level, without a local lookup. *)
Fixpoint missing_once (d : DirVars) (fuel : nat) (missing : list (list Z * unit)) (text : list Z)
  : SR (ExpansionBudget * unit) stop (list (list Z * unit)) :=
  match fuel with
  | O => lift Stuck
  | S fuel =>
    match find_open text with
    | None => mret missing
    | Some (_, rest) =>
      match split_once 41 rest with
      | None => mret missing
      | Some (name, rest) =>
        missing ← (if not_plain name then mret missing
                   else _ ← charge_work 1;
                        if bool_decide (is_Some (resolved d !! name)) || bool_decide (is_Some (bt_get name missing))
                        then mret missing
                        else _ ← charge_item; _ ← charge_output (str_len name);
                             mret (bt_put str_ltb name tt missing));
        missing_once d fuel missing rest
      end
    end
  end.
Definition missing_in (d : DirVars) (raw : list Z) : res stop (list (list Z)) :=
  match fst ((_ ← enter_level raw; missing_once d (S (length raw)) [] raw) (budget_default, tt)) with
  | Ok missing => Ok (map fst missing)
  | Err _ => Ok [EXPANSION_RESOURCE_ERROR]
  | Stuck => Stuck
  end.

(** ** What expansion means

    [Expands lookup depth raw v]: replacing every plain reference of [raw] by
    the expansion of its value, chains at most [depth] long, gives [v]. *)
Inductive Expands (lookup : list Z -> option (list Z)) : nat -> list Z -> list Z -> Prop :=
| Expands_literal depth raw : find_open raw = None -> Expands lookup (S depth) raw raw
| Expands_reference depth pre name rest value v w :
  find_open pre = None -> Forall (fun c => c <> 41) name -> not_plain name = false ->
  lookup name = Some value -> Expands lookup depth value v -> Expands lookup (S depth) rest w ->
  Expands lookup (S depth) (pre ++ 36 :: 40 :: name ++ 41 :: rest) (pre ++ v ++ w).

(** The same as a function. *)
Fixpoint closure_segments (fuel : nat) (f : list Z -> res stop (list Z)) (raw : list Z) : res stop (list Z) :=
  match fuel with
  | O => Stuck
  | S fuel =>
    match find_open raw with
    | None => Ok raw
    | Some (segment, rest) =>
      '(name, rest) ← ok_or (split_once 41 rest) NoValue;
      _ ← refuse (not_plain name) NoValue;
      v ← f name;
      w ← closure_segments fuel f rest;
      Ok (segment ++ v ++ w)
    end
  end.
Fixpoint closure (lookup : list Z -> option (list Z)) (depth : nat) (raw : list Z) : res stop (list Z) :=
  match depth with
  | O => Err NoValue
  | S depth =>
    closure_segments (S (length raw)) (fun name => value ← ok_or (lookup name) NoValue; closure lookup depth value) raw
  end.

Lemma find_open_cons c d t : find_open (c :: d :: t) =
  if (c =? 36) && (d =? 40) then Some ([], t) else prod_map (cons c) id <$> find_open (d :: t).
Proof. done. Qed.

Lemma find_open_Some text pre rest : find_open text = Some (pre, rest) <->
  text = pre ++ 36 :: 40 :: rest /\ find_open pre = None.
Proof.
  revert pre. induction text as [|c text IH]; intros pre; [cbn; split; [done|intros [E _]; by destruct pre]|].
  destruct text as [|d text].
  { cbn. split; [done|]. intros [E _]. destruct pre as [|? [|? ?] ]; discriminate. }
  rewrite find_open_cons. destruct ((c =? 36) && (d =? 40)) eqn:Hcd.
  - bool_prop. subst. split; [intros [= <- <-]; done|]. intros [E Hp].
    destruct pre as [|a [|b pre] ]; cbn in E, Hp; by simplify_eq.
  - rewrite fmap_Some. split.
    + intros ([p r] & Hf & [= -> ->]). apply IH in Hf as [E Hp]. rewrite E. split; [done|].
      destruct p as [|b p]; [done|]. injection E as -> E. by rewrite find_open_cons, Hcd, Hp.
    + intros [E Hp]. destruct pre as [|a pre]; [cbn in E; by simplify_eq|]. injection E as <- E.
      exists (pre, rest). split; [|done]. apply IH. split; [done|]. destruct pre as [|b pre]; [done|].
      injection E as <- E. rewrite find_open_cons, Hcd in Hp. by destruct (find_open (d :: pre)).
Qed.

Lemma find_open_shorter text pre rest name tail :
  find_open text = Some (pre, rest) -> split_once 41 rest = Some (name, tail) -> (length tail < length text)%nat.
Proof.
  intros [-> _]%find_open_Some [-> _]%split_once_Some. rewrite !length_app. cbn. rewrite length_app. cbn. lia.
Qed.

Section closure_facts.
Context (lookup : list Z -> option (list Z)).

Lemma closure_segments_spec depth raw v fuel : (length raw < fuel)%nat ->
  (forall value w, closure lookup depth value = Ok w <-> Expands lookup depth value w) ->
  closure_segments fuel (fun name => value ← ok_or (lookup name) NoValue; closure lookup depth value) raw = Ok v <->
  Expands lookup (S depth) raw v.
Proof.
  intros Hfuel Hc. revert raw v Hfuel. induction fuel as [|fuel IH]; intros raw v Hfuel; [lia|]. cbn [closure_segments].
  destruct (find_open raw) as [[pre rest]|] eqn:Ho.
  - split.
    + intros Hr. pose proof Ho as [Eraw Hp]%find_open_Some. inv_ok. match goal with x : _ * _ |- _ => destruct x as [name tail] end. inv_guards.
      pose proof (find_open_shorter _ _ _ _ _ Ho ltac:(eassumption)).
      match goal with H : split_once _ _ = Some _ |- _ => apply split_once_Some in H as [-> Hn] end.
      eapply Expands_reference; try done; [by apply Hc|]. apply IH; [lia|done].
    + inversion 1 as [|? p name r value v' w' Hp' Hn Hpl Hl Hv Hw]; subst; [congruence|].
      assert (find_open (p ++ 36 :: 40 :: name ++ 41 :: r) = Some (p, name ++ 41 :: r)) as Ho' by by apply find_open_Some.
      rewrite Ho in Ho'. injection Ho' as -> ->.
      assert (split_once 41 (name ++ 41 :: r) = Some (name, r)) as Hs by by apply split_once_Some.
      rewrite Hs. cbn. rewrite Hpl, Hl. cbn. apply Hc in Hv. rewrite Hv. cbn.
      assert (closure_segments fuel (fun name => value ← ok_or (lookup name) NoValue; closure lookup depth value) r = Ok w') as ->; [|done].
      apply IH; [|done]. pose proof (find_open_shorter _ _ _ _ _ Ho Hs). lia.
  - split; [intros [= ->]; by constructor|].
    inversion 1 as [|? p name r value v' w' Hp' Hn Hpl Hl Hv Hw]; subst; [done|].
    assert (find_open (p ++ 36 :: 40 :: name ++ 41 :: r) = Some (p, name ++ 41 :: r)) as Ho' by by apply find_open_Some.
    congruence.
Qed.

Lemma closure_spec depth : forall raw v, closure lookup depth raw = Ok v <-> Expands lookup depth raw v.
Proof.
  induction depth as [|depth IH]; intros raw v; cbn [closure]; [split; [done|inversion 1]|].
  by apply closure_segments_spec; [lia|].
Qed.
End closure_facts.

(** ** The bounded expansion refines it *)
Definition small (v : list Z) : Prop := str_len v <= MAX_EXPANSION_VALUE_BYTES.

Section refinement.
Context {G : Type}.
Abbreviation budget_limit := (fun e : stop => e = OverBudget).
Abbreviation any := (fun _ : ExpansionBudget * G => True).

Lemma charge_output_silent n : silent budget_limit any (charge_output n).
Proof. intros [b g] _. unfold charge_output. destruct (checked_add _ _ _); [destruct (_ <? _)|]; done. Qed.
Lemma charge_scan_silent n : silent budget_limit any (charge_scan n).
Proof. intros [b g] _. unfold charge_scan. destruct (checked_add _ _ _); [destruct (_ <? _)|]; done. Qed.
Lemma expansion_work_silent n : silent budget_limit any (charge_work n).
Proof. intros [b g] _. unfold charge_work. destruct (checked_add _ _ _); [destruct (_ <? _)|]; done. Qed.
Lemma check_value_silent n : silent budget_limit any (check_value n).
Proof. intros [b g] _. unfold check_value, lift, refuse. by destruct (_ <? _). Qed.
Lemma enter_level_silent raw : silent budget_limit any (enter_level raw).
Proof.
  unfold enter_level. repeat apply silent_bind;
    auto using check_value_silent, charge_scan_silent, expansion_work_silent.
Qed.

Lemma append_expansion_sim out text :
  sim budget_limit any small (append_expansion out text) (Ok (out ++ text)).
Proof.
  intros [b g] _. unfold append_expansion, check_value, lift, mbind, SR_bind. cbn -[charge_output].
  destruct (checked_add _ _ _) as [n|] eqn:Hn; cbn -[charge_output]; [|by left].
  apply checked_add_Some in Hn as [-> _]. unfold refuse. destruct (_ <? _) eqn:Hlt; cbn -[charge_output]; [by left|]. bool_prop.
  pose proof (charge_output_silent (str_len text) (b, g) I) as Hc.
  destruct (charge_output _ _) as [[ []|e|] s']; cbn in *; [|by left|done]. unfold small. rewrite str_len_app. done.
Qed.

Lemma expand_segments_sim fuel (expand_name : list Z -> SR (ExpansionBudget * G) stop (list Z)) f :
  (forall name, sim budget_limit any (fun _ => True) (expand_name name) (f name)) ->
  forall out raw, sim budget_limit any small (expand_segments fuel expand_name out raw)
    (w ← closure_segments fuel f raw; Ok (out ++ w)).
Proof.
  intros Hf. induction fuel as [|fuel IH]; intros out raw; cbn [expand_segments closure_segments]; [by apply sim_lift|].
  destruct (find_open raw) as [[segment rest]|]; [|cbn; apply append_expansion_sim].
  eapply sim_bind_ok; [apply append_expansion_sim|]. intros _.
  rewrite res_bind_assoc. apply sim_pure. intros [name tail] _. cbv beta iota.
  rewrite res_bind_assoc. apply sim_pure. intros _ _. apply sim_silent; [apply expansion_work_silent|].
  rewrite res_bind_assoc. eapply sim_bind; [apply Hf|]. intros v _ _. rewrite res_bind_assoc.
  eapply sim_bind_ok; [apply append_expansion_sim|]. intros _.
  eapply sim_eq; [apply IH|]. destruct (closure_segments fuel f tail); cbn; [|done..]. by rewrite <- !app_assoc.
Qed.

Context (d : DirVars).

(** The table an expansion reads. *)
Definition table (require_source_proven : bool) (name : list Z) : option (list Z) :=
  if require_source_proven then
    if bool_decide (name ∈ unproven_variables d) || bool_decide (name ∈ sticky_unproven_variables d) then None
    else source_proven_resolved d !! name
  else resolved d !! name.

Lemma bind_Ok_nil (r : res stop (list Z)) : (w ← r; Ok ([] ++ w)) = r.
Proof. by destruct r. Qed.

Lemma expand_depth_sim flag depth : forall raw,
  (flag = true -> source_evaluation_unproven d = false /\ source_dependency_tracking_unproven d = false) ->
  sim budget_limit any small (expand_depth d depth flag raw) (closure (table flag) depth raw).
Proof.
  induction depth as [|depth IH]; intros raw Hp; cbn [expand_depth closure];
    (replace (flag && _) with false by (destruct flag; [|done]; by destruct (Hp eq_refl) as [-> ->]));
    apply sim_lift_ok; [by apply sim_lift|].
  apply sim_silent; [apply enter_level_silent|].
  eapply sim_eq; [apply expand_segments_sim|apply bind_Ok_nil]. intros name. cbn beta.
  unfold table. destruct flag; cbn [andb].
  - destruct (_ || _); [apply sim_lift_err|]. apply sim_lift_ok, sim_pure. intros value _.
    eapply sim_weaken; [by apply IH|done].
  - apply sim_lift_ok, sim_pure. intros value _. eapply sim_weaken; [by apply IH|done].
Qed.

(** A local lookup whose answer is a function of the name. *)
Context (local : list Z -> G -> option (list Z) * G) (answer : list Z -> option (list Z)).
Context (Hlocal : forall name g, fst (local name g) = answer name).

Definition both (name : list Z) : option (list Z) :=
  match answer name with Some v => Some v | None => resolved d !! name end.

Lemma expand_with_depth_sim depth : forall raw,
  sim budget_limit any small (expand_with_depth d local depth raw) (closure both depth raw).
Proof.
  induction depth as [|depth IH]; intros raw; cbn [expand_with_depth closure]; [by apply sim_lift|].
  apply sim_silent; [apply enter_level_silent|].
  eapply sim_eq; [apply expand_segments_sim|apply bind_Ok_nil]. intros name. cbn beta.
  eapply (sim_bind_ok _ _ (fun _ => True) _ _ (answer name)).
  { intros [b g] _. unfold call_local. pose proof (Hlocal name g) as Hg. by destruct (local name g) as [? ?]; cbn in *; subst. }
  intros _. unfold both. destruct (answer name) as [value|]; cbn.
  - apply sim_silent; [apply check_value_silent|]. apply sim_silent; [apply charge_output_silent|].
    eapply sim_weaken; [apply IH|done].
  - apply sim_pure. intros value _. eapply sim_weaken; [apply IH|done].
Qed.
End refinement.

(** ** Termination, with any local lookup

    [steady m]: [m] never panics, and no step gives work back. *)
Section totality.
Context {G : Type}.
Definition steady {A} (m : SR (ExpansionBudget * G) stop A) : Prop :=
  forall s, fst (m s) <> Stuck /\ work_units (fst s) <= work_units (fst (snd (m s))).

Lemma steady_bind {A B} (m : SR (ExpansionBudget * G) stop A) (f : A -> SR (ExpansionBudget * G) stop B) :
  steady m -> (forall a, steady (f a)) -> steady (m ≫= f).
Proof.
  intros Hm Hf s. specialize (Hm s). unfold mbind, SR_bind. destruct (m s) as [[a|e|] s']; cbn in *; [|by destruct Hm|by destruct Hm].
  specialize (Hf a s') as [? ?]. split; [done|lia].
Qed.
Lemma steady_lift {A} (c : res stop A) : c <> Stuck -> steady (lift c).
Proof. intros Hc s. cbn. split; [done|lia]. Qed.
Lemma steady_pure {A B} (c : res stop A) (f : A -> SR (ExpansionBudget * G) stop B) :
  c <> Stuck -> (forall a, c = Ok a -> steady (f a)) -> steady (lift c ≫= f).
Proof. intros Hc Hf s. destruct c as [a|e|]; [by apply Hf|split; [done|apply Z.le_refl]|done]. Qed.
Lemma steady_ret {A} (a : A) : steady (mret a).
Proof. intros s. cbn. split; [done|lia]. Qed.
Lemma steady_output n : steady (charge_output n).
Proof. intros [b g]. unfold charge_output. destruct (checked_add _ _ _); [destruct (_ <? _)|]; cbn; (split; [done|lia]). Qed.
Lemma steady_scan n : steady (charge_scan n).
Proof. intros [b g]. unfold charge_scan. destruct (checked_add _ _ _); [destruct (_ <? _)|]; cbn; (split; [done|lia]). Qed.
Lemma steady_item : steady charge_item.
Proof. intros [b g]. unfold charge_item. destruct (_ <=? _); cbn; (split; [done|lia]). Qed.
Lemma charge_one (s : ExpansionBudget * G) : fst (charge_work 1 s) <> Stuck /\
  work_units (fst s) <= work_units (fst (snd (charge_work 1 s))) /\
  (fst (charge_work 1 s) = Ok tt -> work_units (fst s) < work_units (fst (snd (charge_work 1 s))) <= MAX_EXPANSION_WORK_UNITS).
Proof.
  destruct s as [b g]. unfold charge_work. destruct (checked_add _ _ _) as [t|] eqn:Ht; [|cbn; split_and!; [done|lia|done] ].
  apply checked_add_Some in Ht as [-> _]. destruct (_ <? _) eqn:Hlt; cbn; bool_prop; (split_and!; [done|lia|done || (intros _; lia)]).
Qed.
Lemma steady_work : steady (charge_work 1).
Proof. intros s. pose proof (charge_one s). naive_solver. Qed.
Lemma steady_check n : steady (check_value n).
Proof. apply steady_lift, refuse_not_Stuck. Qed.
Lemma steady_enter raw : steady (enter_level raw).
Proof.
  unfold enter_level. repeat (apply steady_bind; [|intros ?]); auto using steady_check, steady_scan, steady_work.
Qed.
Lemma steady_append out text : steady (append_expansion out text).
Proof.
  unfold append_expansion. repeat (apply steady_bind; [|intros ?]); auto using steady_check, steady_output, steady_ret.
  apply steady_lift, ok_or_not_Stuck.
Qed.

Ltac steady_one := first
  [apply steady_append|apply steady_work|apply steady_check|apply steady_output|apply steady_scan|apply steady_item
  |apply steady_ret|apply steady_enter|apply steady_lift, refuse_not_Stuck|apply steady_lift, ok_or_not_Stuck|eauto].
Ltac steady_step := apply steady_bind; [steady_one|intros ?].

Lemma steady_segments (f : list Z -> SR (ExpansionBudget * G) stop (list Z)) : (forall name, steady (f name)) ->
  forall fuel out raw, (length raw < fuel)%nat -> steady (expand_segments fuel f out raw).
Proof.
  intros Hf. induction fuel as [|fuel IH]; intros out raw Hl; [lia|]. cbn [expand_segments].
  destruct (find_open raw) as [[seg rest]|] eqn:Ho; [|apply steady_append].
  apply steady_bind; [apply steady_append|]. intros out'.
  apply steady_pure; [apply ok_or_not_Stuck|]. intros [name tail] Hs%ok_or_Ok.
  pose proof (find_open_shorter _ _ _ _ _ Ho Hs).
  do 4 steady_step. apply IH. lia.
Qed.

Context (d : DirVars) (local : list Z -> G -> option (list Z) * G).

Lemma steady_local name : steady (call_local local name).
Proof. intros [b g]. unfold call_local. destruct (local name g). cbn. split; [done|lia]. Qed.

Lemma steady_expand_depth flag depth raw : steady (expand_depth d depth flag raw).
Proof.
  revert raw. induction depth as [|depth IH]; intros raw; cbn [expand_depth];
    (apply steady_pure; [apply refuse_not_Stuck|]; intros _ _); [by apply steady_lift|].
  apply steady_bind; [apply steady_enter|]. intros _. apply steady_segments; [|lia]. intros name.
  do 2 steady_step. apply IH.
Qed.

Lemma steady_expand_with_depth depth raw : steady (expand_with_depth d local depth raw).
Proof.
  revert raw. induction depth as [|depth IH]; intros raw; cbn [expand_with_depth]; [by apply steady_lift|].
  apply steady_bind; [apply steady_enter|]. intros _. apply steady_segments; [|lia]. intros name.
  apply steady_bind; [apply steady_local|]. intros [value|].
  - do 2 steady_step. apply IH.
  - steady_step. apply IH.
Qed.

Lemma steady_missing_reference st name : steady (missing_reference d local st name).
Proof.
  unfold missing_reference, push_diagnostic_value. destruct st as [queue missing]. destruct (not_plain name); [apply steady_ret|].
  steady_step. apply steady_bind; [apply steady_local|intros found].
  destruct (match found with Some v => Some v | None => resolved d !! name end) as [value|].
  - do 2 steady_step. apply steady_bind; [|intros ?; apply steady_ret]. do 3 steady_step. apply steady_ret.
  - destruct (bool_decide _); [apply steady_ret|]. do 2 steady_step. apply steady_ret.
Qed.

Lemma steady_missing_scan fuel : forall st text, (length text < fuel)%nat -> steady (missing_scan d local fuel st text).
Proof.
  induction fuel as [|fuel IH]; intros st text Hl; [lia|]. cbn [missing_scan].
  destruct (find_open text) as [[seg rest]|] eqn:Ho; [|apply steady_ret].
  destruct (split_once 41 rest) as [[name tail]|] eqn:Hs; [|apply steady_ret].
  apply steady_bind; [apply steady_missing_reference|]. intros st'. apply IH.
  pose proof (find_open_shorter _ _ _ _ _ Ho Hs). lia.
Qed.

Lemma missing_loop_total fuel : forall st s, MAX_EXPANSION_WORK_UNITS - work_units (fst s) < Z.of_nat fuel ->
  0 < Z.of_nat fuel -> fst (missing_loop d local fuel st s) <> Stuck.
Proof.
  induction fuel as [|fuel IH]; intros st s Hw Hpos; [lia|]. cbn [missing_loop].
  destruct (last st.1) as [text|]; [|done]. unfold enter_level, mbind at 1, SR_bind at 1.
  set (m := _ ← check_value _; _ ← charge_scan _; charge_work 1).
  assert (steady m) as Hm by apply steady_enter. specialize (Hm s).
  assert (fst (m s) = Ok tt -> work_units (fst s) < work_units (fst (snd (m s))) <= MAX_EXPANSION_WORK_UNITS) as Hone.
  { unfold m, mbind, SR_bind. pose proof (steady_check (str_len text) s) as [_ H1].
    destruct (check_value _ s) as [[ []|e|] s1]; cbn in *; try done.
    pose proof (steady_scan (str_len text) s1) as [_ H2].
    destruct (charge_scan _ s1) as [[ []|e|] s2]; cbn in *; try done.
    intros H3. pose proof (charge_one s2) as (_ & _ & H4). specialize (H4 H3). lia. }
  destruct (m s) as [[ []|e|] s1]; cbn -[missing_scan] in *; [|done|by destruct Hm]. specialize (Hone eq_refl).
  unfold mbind, SR_bind.
  pose proof (steady_missing_scan (S (length text)) (removelast st.1, st.2) text ltac:(lia) s1) as [H1 H2].
  destruct (missing_scan _ _ _ _ _ s1) as [[st'|e|] s2]; cbn -[missing_scan] in *; [|done|done]. apply IH; lia.
Qed.

Lemma missing_in_with_total raw s : 0 <= work_units (fst s) -> fst (missing_in_with d local raw s) <> Stuck.
Proof.
  intros Hs. unfold missing_in_with, mbind, SR_bind.
  set (fuel := (Z.to_nat MAX_EXPANSION_WORK_UNITS + 2)%nat).
  assert (MAX_EXPANSION_WORK_UNITS < Z.of_nat fuel /\ 0 < Z.of_nat fuel) as [Hf0 Hf1].
  { unfold fuel. rewrite Nat2Z.inj_add, Z2Nat.id; unfold MAX_EXPANSION_WORK_UNITS; lia. }
  clearbody fuel.
  pose proof (steady_check (str_len raw) s) as [? ?]. destruct (check_value _ s) as [[ []|e|] s1]; cbn in *; try done.
  pose proof (steady_item s1) as [? ?]. destruct (charge_item s1) as [[ []|e|] s2]; cbn in *; try done.
  pose proof (steady_output (str_len raw) s2) as [? ?].
  destruct (charge_output _ s2) as [[ []|e|] s3]; cbn in *; try done.
  pose proof (missing_loop_total fuel ([raw], []) s3 ltac:(lia) Hf1) as Hl.
  by destruct (missing_loop _ _ _ _ s3) as [[m|e|] s4].
Qed.

Lemma expand_with_total raw g : fst (expand_with d local raw g) <> Stuck.
Proof.
  unfold expand_with. pose proof (steady_expand_with_depth MAX_DEPTH raw (budget_default, g)) as [H1 H2].
  destruct (expand_with_depth _ _ _ _ _) as [[v|e|] s1]; cbn in *; [done| |done].
  pose proof (missing_in_with_total raw s1 H2) as H3.
  destruct (missing_in_with _ _ _ s1) as [[m|e'|] s2]; cbn in *; [|done|done].
  destruct m; [|done]. match goal with |- context [match ?x with _ => _ end] => by destruct x as [[ ] ] end.
Qed.
End totality.

(** ** The diagnosis names only what has no value *)
Section diagnosis.
Context {G : Type} (d : DirVars) (local : list Z -> G -> option (list Z) * G) (answer : list Z -> option (list Z)).
Context (Hlocal : forall name g, fst (local name g) = answer name).

Definition yields {A} (Q : A -> Prop) (m : SR (ExpansionBudget * G) stop A) : Prop :=
  forall s a s', m s = (Ok a, s') -> Q a.
Definition unresolved (l : list (list Z * unit)) : Prop :=
  sorted_keys str_ltb l /\ Forall (fun x => both d answer x.1 = None) l.

Lemma yields_bind {A B} (P : A -> Prop) (Q : B -> Prop) m (f : A -> SR _ stop B) :
  yields P m -> (forall a, P a -> yields Q (f a)) -> yields Q (m ≫= f).
Proof.
  intros Hm Hf s b s' Hb. unfold mbind, SR_bind in Hb. destruct (m s) as [[a|e|] s1] eqn:E; try done.
  eapply Hf; [|exact Hb]. by eapply Hm.
Qed.
Lemma yields_ret {A} (Q : A -> Prop) a : Q a -> yields Q (mret a).
Proof. intros HQ s b s' [= <- <-]. done. Qed.
Lemma yields_any {A} (m : SR (ExpansionBudget * G) stop A) : yields (fun _ => True) m.
Proof. by intros s a s'. Qed.

Lemma missing_reference_yields st name : unresolved st.2 ->
  yields (fun st' => unresolved st'.2) (missing_reference d local st name).
Proof.
  destruct st as [queue missing]. intros Hm. unfold missing_reference. destruct (not_plain name); [by apply yields_ret|].
  eapply yields_bind; [apply yields_any|intros _ _].
  eapply (yields_bind (fun v => v = answer name)).
  { intros [b g] v s' Hv. unfold call_local in Hv. pose proof (Hlocal name g) as Hn.
    destruct (local name g) as [v' g']. cbn in *. by simplify_eq. }
  intros found ->. destruct (match answer name with Some v => Some v | None => resolved d !! name end) eqn:Hb.
  - do 3 (eapply yields_bind; [apply yields_any|intros ? _]). by apply yields_ret.
  - destruct (bool_decide _); [by apply yields_ret|].
    do 2 (eapply yields_bind; [apply yields_any|intros ? _]). apply yields_ret. cbn. destruct Hm as [Hs Hn].
    split; [by apply (bt_put_sorted _)|]. apply Forall_forall. intros x [->|Hx]%bt_put_elem; [exact Hb|].
    rewrite Forall_forall in Hn. by apply Hn.
Qed.

Lemma missing_scan_yields fuel : forall st text, unresolved st.2 ->
  yields (fun st' => unresolved st'.2) (missing_scan d local fuel st text).
Proof.
  induction fuel as [|fuel IH]; intros st text Hm; cbn [missing_scan]; [by intros s a s'|].
  destruct (find_open text) as [[seg rest]|]; [|by apply yields_ret].
  destruct (split_once 41 rest) as [[name tail]|]; [|by apply yields_ret].
  eapply yields_bind; [by apply missing_reference_yields|]. intros st' Hst'. by apply IH.
Qed.

Lemma missing_loop_yields fuel : forall st, unresolved st.2 -> yields unresolved (missing_loop d local fuel st).
Proof.
  induction fuel as [|fuel IH]; intros st Hm; cbn [missing_loop]; [by intros s a s'|].
  destruct (last st.1) as [text|]; [|by apply yields_ret].
  eapply yields_bind; [apply yields_any|intros _ _].
  eapply yields_bind; [by apply missing_scan_yields|]. intros st' Hst'. by apply IH.
Qed.

Lemma missing_in_with_yields raw :
  yields (fun names => Forall (fun n => both d answer n = None) names /\ NoDup names) (missing_in_with d local raw).
Proof.
  unfold missing_in_with. do 3 (eapply yields_bind; [apply yields_any|intros ? _]).
  eapply yields_bind; [apply missing_loop_yields; split; constructor|]. intros m [Hs Hn]. apply yields_ret.
  split; [by apply Forall_map|]. by apply (sorted_keys_NoDup _).
Qed.
End diagnosis.

(** Without a local lookup the two expansions are the same computation. *)
Definition no_local (name : list Z) (g : unit) : option (list Z) * unit := (None, g).

Lemma expand_segments_ext {G} fuel (f g : list Z -> SR (ExpansionBudget * G) stop (list Z)) :
  (forall name s, f name s = g name s) ->
  forall out raw s, expand_segments fuel f out raw s = expand_segments fuel g out raw s.
Proof.
  intros Hfg. induction fuel as [|fuel IH]; intros out raw s; cbn [expand_segments]; [done|].
  destruct (find_open raw) as [[seg rest]|]; [|done]. apply SR_bind_ext. intros out' s1.
  apply SR_bind_ext. intros [name tail] s2. apply SR_bind_ext. intros _ s3. apply SR_bind_ext. intros _ s0.
  transitivity ((g name ≫= fun v => out ← append_expansion out' v; expand_segments fuel f out tail) s0).
  - unfold mbind at 1 3, SR_bind at 1 3. by rewrite Hfg.
  - apply SR_bind_ext. intros v ?. apply SR_bind_ext. intros ? ?. apply IH.
Qed.

Lemma expand_with_depth_none d depth : forall raw s,
  expand_with_depth d no_local depth raw s = expand_depth d depth false raw s.
Proof.
  induction depth as [|depth IH]; intros raw s; [done|]. cbn [expand_with_depth expand_depth andb refuse].
  transitivity ((_ ← enter_level raw; expand_segments (S (length raw)) (fun name =>
      _ ← lift (Ok tt); value ← lift (ok_or (resolved d !! name) NoValue);
      expand_depth d depth false value) [] raw) s); [|done].
  apply SR_bind_ext. intros _ s'. apply expand_segments_ext. intros name [b [] ]. unfold mbind, SR_bind, call_local, no_local, lift. cbn [andb refuse].
  destruct (ok_or (resolved d !! name) NoValue); [apply IH|done..].
Qed.

#[local] Opaque MAX_DEPTH.

(** Expansion of directory variables, against the substitution semantics:
    a value is the full expansion of the text and at most 4 MiB; a refusal that
    is not a budget refusal means that the text has no expansion; with a
    file-local lookup in front the same holds for the combined table, and
    otherwise the names reported are without a value, or the single report that
    a budget was exceeded or that the text is not made of plain references;
    without a local lookup the two routines agree; neither panics or diverges,
    cyclic tables included. *)
Theorem expansion_exact {G} (d : DirVars) (local : list Z -> G -> option (list Z) * G)
    (answer : list Z -> option (list Z)) (raw : list Z) (g : G) :
  (forall name g, fst (local name g) = answer name) ->
  match expand_top d false raw with
  | Ok v => Expands (fun n => resolved d !! n) MAX_DEPTH raw v /\ small v
  | Err NoValue => forall v, ~ Expands (fun n => resolved d !! n) MAX_DEPTH raw v
  | Err OverBudget => True
  | Stuck => False
  end /\
  match fst (expand_with d local raw g) with
  | Ok (inl v) => Expands (both d answer) MAX_DEPTH raw v /\ small v
  | Ok (inr names) => names = [EXPANSION_RESOURCE_ERROR] \/ names = [raw ++ not_plain_suffix] \/
                      (Forall (fun n => both d answer n = None) names /\ NoDup names)
  | _ => False
  end /\
  (forall v, fst (expand_with d no_local raw tt) = Ok (inl v) <-> expand d raw = Some v).
Proof.
  intros Hlocal. split; [|split].
  - unfold expand_top. pose proof (expand_depth_sim (G := unit) d false MAX_DEPTH raw ltac:(done) (budget_default, tt) I) as Hs.
    pose proof (steady_expand_depth (G := unit) d false MAX_DEPTH raw (budget_default, tt)) as [Hns _].
    destruct (expand_depth _ _ _ _ _) as [[v|e|] s]; cbn in *; [|destruct e; [|done]|done].
    + destruct Hs as (Hc & Hv & _). split; [by apply closure_spec|done].
    + destruct Hs as [?|Hc]; [done|]. intros v Hv%closure_spec. discriminate (eq_trans (eq_sym Hv) Hc).
  - pose proof (expand_with_total d local raw g) as Hns. unfold expand_with in *.
    pose proof (expand_with_depth_sim d local answer Hlocal MAX_DEPTH raw (budget_default, g) I) as Hs.
    destruct (expand_with_depth _ _ _ _ _) as [[v|e|] s]; cbn -[missing_in_with] in *; [| |done].
    { destruct Hs as (Hc & Hv & _). split; [by apply closure_spec|done]. }
    pose proof (missing_in_with_yields d local answer Hlocal raw s) as Hy.
    destruct (missing_in_with _ _ _ s) as [[names|e'|] s1] eqn:Hm; cbn in *; [|by left|done].
    specialize (Hy _ _ eq_refl). destruct names as [|n names]; [|by right; right].
    match goal with |- context [match ?x with _ => _ end] => destruct x as [[ ] ?] end; cbn; auto.
  - intros v. unfold expand_with, expand, expand_top, some_ok. rewrite expand_with_depth_none.
    destruct (expand_depth _ _ _ _ _) as [[w|e|] s]; cbn -[missing_in_with]; [naive_solver| |done].
    split; [|done]. destruct (missing_in_with _ _ _ s) as [[names|e'|] s1]; cbn; [|done..].
    destruct names; [|done]. match goal with |- context [match ?x with _ => _ end] => by destruct x as [[ ] ?] end.
Qed.

(** A chain through the table, a file-local name in front of it, and a cycle. *)
Definition demo_dirs : DirVars :=
  mkDirs {[rs "AROSDIR" := rs "${AROS_BUILD_DIR}/SYS"; rs "AROS_PREFS" := rs "$(AROSDIR)/Prefs"; rs "LOOP" := rs "$(LOOP)"]}
    ∅ ∅ ∅ false false ∅.
Definition demo_local (name : list Z) (g : unit) : option (list Z) * unit :=
  (if eqb_list name (rs "EXEDIR") then Some (rs "$(AROS_PREFS)/Quick") else None, g).

Lemma expansion_exact_witness :
  expand demo_dirs (rs "$(AROS_PREFS)/x") = Some (rs "${AROS_BUILD_DIR}/SYS/Prefs/x") /\
  expand demo_dirs (rs "$(LOOP)") = None /\
  Expands (both demo_dirs (fun n => fst (demo_local n tt))) MAX_DEPTH (rs "$(EXEDIR)") (rs "${AROS_BUILD_DIR}/SYS/Prefs/Quick").
Proof.
  split; [vm_compute; reflexivity|]. split; [vm_compute; reflexivity|].
  destruct (expansion_exact demo_dirs demo_local (fun n => fst (demo_local n tt)) (rs "$(EXEDIR)") tt) as (_ & Hw & _).
  { intros n [ ]. reflexivity. }
  assert (fst (expand_with demo_dirs demo_local (rs "$(EXEDIR)") tt) = Ok (inl (rs "${AROS_BUILD_DIR}/SYS/Prefs/Quick"))) as E
    by (vm_compute; reflexivity).
  rewrite E in Hw. apply Hw.
Defined.
