(* ===== verification/MakeExpr.v ===== *)
(** * MakeExpr: bounded evaluation of GNU Make expressions

    Models [crates/aros-transpiler/src/make_expr.rs]: the recursive evaluator
    of [$(...)] references, substitution references and list functions, with
    its four resource budgets, its cycle check and its loop variables.  The
    variable scopes it consults are those of [MakeVars] and [Dirs]; pattern
    matching over the file system is the third-party crate [glob], the
    class [Glob]. *)

From stdpp Require Import gmap.
From S2P Require Import Prelude Text Ordered Publication StateRes MakeVars Dirs.

Definition MAX_EXPANSION_DEPTH : nat := 32.
Definition MAX_VALUE_BYTES : Z := 4 * 1024 * 1024.
Definition MAX_EMITTED_BYTES : Z := 16 * 1024 * 1024.
Definition MAX_SCANNED_BYTES : Z := 64 * 1024 * 1024.
Definition MAX_WORK_UNITS : Z := 1048576.
Definition MAX_LIST_ITEMS : Z := 65536.
Definition MAX_ERROR_PREVIEW_BYTES : Z := 128.
Definition ESCAPED_DOLLAR : Z := 0xE000.

(** The resources of [ResourceLimit], and the messages of [InvalidSyntax]. *)
Inductive Resource := ScannedBytes | EmittedBytes | WorkUnits | ListItems | ValueBytes.
Inductive Detail :=
| AbsoluteDirectory | PathNotUtf8 (purpose : list Z) | ArgumentCount (function : list Z) (got : Z)
| UnclosedBrace | UnclosedReference | UnclosedArguments | EmptyVariableName
| InvalidVariableName (name : list Z) | EmptyLoopVariable | EmptySearch | NoEqual
| WordIndex (function value : list Z) | ValueName | WildcardArity.
Inductive MakeExprError :=
| InvalidSyntax (expression : list Z) (detail : Detail)
| UnresolvedVariables (missing expansion_chain : list (list Z))
| VariableCycle (expansion_chain : list (list Z))
| UnsafeVariable (name detail : list Z) (expansion_chain : list (list Z))
| ExpansionLimit (expression : list Z)
| ResourceLimit (resource : Resource) (limit : Z)
| UnsupportedFunction (name : list Z)
| UnsupportedReference (reference : list Z)
| DeferredWildcard (pattern : list Z)
| WildcardError (pattern detail : list Z)
| FilesystemAccessDisabled (regular_files_only : bool).

(** ** Text scanning *)
Definition bounded_preview (value : list Z) : list Z :=
  if str_len value <=? MAX_ERROR_PREVIEW_BYTES then value
  else take_bytes MAX_ERROR_PREVIEW_BYTES value ++ [0x2026].

Definition path_text (path purpose : list Z) : res MakeExprError (list Z) :=
  ok_or (from_utf8 path) (InvalidSyntax (from_utf8_lossy path) (PathNotUtf8 purpose)).

(** The scanners walk a text and count [$(] against [)].  A position the code
    returns is here the text before it and the text from it on. *)
Definition cons_fst {A} (c : Z) (x : list Z * A) : list Z * A := (c :: x.1, x.2).

(** [reference_end]: the body up to the [)] that closes depth [depth], and the
    text after it. *)
Fixpoint close_paren (depth : Z) (l : list Z) : option (list Z * list Z) :=
  match l with
  | [] => None
  | c :: r =>
    let plain := if c =? 41 then if depth =? 1 then Some ([], r) else cons_fst c <$> close_paren (depth - 1) r
                 else cons_fst c <$> close_paren depth r in
    match r with
    | d :: r' => if (c =? 36) && (d =? 40) then (fun x => cons_fst c (cons_fst d x)) <$> close_paren (depth + 1) r'
                 else plain
    | [] => plain
    end
  end.
(** [raw] starts at the dollar. *)
Definition reference_end (raw : list Z) : res MakeExprError (list Z * list Z) :=
  ok_or (close_paren 1 (drop 2 raw)) (InvalidSyntax (bounded_preview raw) UnclosedReference).

(** [top_level_byte] and [top_level_whitespace]: the first character outside
    every reference that satisfies [f]. *)
Fixpoint top_level (f : Z -> bool) (depth : Z) (l : list Z) : option (list Z * list Z) :=
  match l with
  | [] => None
  | c :: r =>
    let plain := if (c =? 41) && (0 <? depth) then cons_fst c <$> top_level f (depth - 1) r
                 else if f c && (depth =? 0) then Some ([], l)
                 else cons_fst c <$> top_level f depth r in
    match r with
    | d :: r' => if (c =? 36) && (d =? 40) then (fun x => cons_fst c (cons_fst d x)) <$> top_level f (depth + 1) r'
                 else plain
    | [] => plain
    end
  end.
Definition cons_head (c : Z) (ws : list (list Z)) : list (list Z) :=
  match ws with [] => [[c]] | w :: ws => (c :: w) :: ws end.

(** [count] is [out.len()]. *)
Fixpoint split_pieces (raw : list Z) (separator depth count : Z) (l : list Z) : res MakeExprError (list (list Z)) :=
  match l with
  | [] => if negb (depth =? 0) then Err (InvalidSyntax (bounded_preview raw) UnclosedArguments)
          else if MAX_LIST_ITEMS <=? count then Err (ResourceLimit ListItems MAX_LIST_ITEMS)
          else Ok [[]]
  | c :: r =>
    let plain :=
      if (c =? 41) && (0 <? depth) then ws ← split_pieces raw separator (depth - 1) count r; Ok (cons_head c ws)
      else if (c =? separator) && (depth =? 0) then
        if MAX_LIST_ITEMS <=? count then Err (ResourceLimit ListItems MAX_LIST_ITEMS)
        else ws ← split_pieces raw separator depth (count + 1) r; Ok ([] :: ws)
      else ws ← split_pieces raw separator depth count r; Ok (cons_head c ws) in
    match r with
    | d :: r' => if (c =? 36) && (d =? 40)
                 then ws ← split_pieces raw separator (depth + 1) count r'; Ok (cons_head c (cons_head d ws))
                 else plain
    | [] => plain
    end
  end.
Definition split_top_level (raw : list Z) (separator : Z) : res MakeExprError (list (list Z)) :=
  split_pieces raw separator 0 0 raw.

Definition split_substitution_reference (body : list Z)
  : res MakeExprError (list Z * option (list Z * list Z)) :=
  match top_level (Z.eqb 58) 0 body with
  | None => Ok (body, None)
  | Some (name, from) =>
    let remainder := drop 1 from in
    '(before, after) ← ok_or (top_level (Z.eqb 61) 0 remainder) (InvalidSyntax (bounded_preview body) NoEqual);
    Ok (name, Some (before, drop 1 after))
  end.

(** ** Words *)
Definition pattern_stem (pattern word : list Z) : option (list Z) :=
  match split_once 37 pattern with
  | None => if eqb_list pattern word then Some [] else None
  | Some (prefix, suffix) =>
    if (str_len word <? str_len prefix + str_len suffix) || negb (starts_with word prefix)
       || negb (ends_with word suffix) then None
    else strip_prefix prefix word ≫= strip_suffix suffix
  end.

Definition last_component (word : list Z) : list Z :=
  match rsplit_once 47 word with Some (_, tail) => tail | None => word end.
Definition nonempty (w : list Z) : option (list Z) := if eqb_list w [] then None else Some w.
Definition notdir (word : list Z) : option (list Z) := nonempty (last_component word).
Definition directory_part (word : list Z) : list Z :=
  match rsplit_once 47 word with Some (head, _) => head ++ [47] | None => rs "./" end.
Definition basename (word : list Z) : option (list Z) :=
  let component := last_component word in
  nonempty (match rsplit_once 46 component with
            | None => word
            | Some (stem, _) => take (length word - length component + length stem) word
            end).
Definition suffix (word : list Z) : option (list Z) :=
  (fun x => 46 :: x.2) <$> rsplit_once 46 (last_component word).

Definition parse_word_index (function value raw_args : list Z) : res MakeExprError Z :=
  ok_or (index ← parse_uint 10 usize_max (trim value); if 0 <? index then Some index else None)
    (InvalidSyntax (bounded_preview raw_args) (WordIndex function value)).

Definition deferred_references : list (list Z) :=
  [rs "AROS_SOURCE_DIR"; rs "CMAKE_BINARY_DIR"; rs "AROS_BUILD_DIR"; rs "AROS_SYS_DIR"; rs "AROS_BOOT_DIR";
   rs "AROS_BOOT_ARCH_DIR"; rs "AROS_PORTS_DIR"; rs "AROS_PORTS_SOURCE_DIR"; rs "AROS_TARGET_CPU";
   rs "AROS_TARGET_CPU32"; rs "AROS_TARGET_PLATFORM"; rs "AROS_TARGET_LEGACY_PLATFORM"; rs "AROS_TARGET_FAMILY";
   rs "AROS_TARGET_VARIANT"; rs "AROS_TARGET_ICONSET"; rs "AROS_BUILD_DATE_DMY"; rs "AROS_BUILD_DATE_ISO"].
Definition is_deferred_cmake_reference (name : list Z) : bool := bool_decide (name ∈ deferred_references).

(** [reject_unsupported_references].  The reference of the error is the slice
    [raw[cursor..cursor + 2]], which panics when the character after the dollar
    is longer than one byte. *)
Fixpoint reject_from (fuel : nat) (l : list Z) : res MakeExprError unit :=
  match fuel with
  | O => Stuck
  | S fuel =>
    match l with
    | [] => Ok tt
    | c :: r =>
      if negb (c =? 36) then reject_from fuel r
      else match r with
           | [] => Err (UnsupportedReference [36])
           | d :: r' =>
             if d =? 36 then reject_from fuel r'
             else if d =? 123 then
               match split_once 125 r' with
               | None => Err (UnsupportedReference (bounded_preview l))
               | Some (_, rest) => reject_from fuel rest
               end
             else if len (utf8_char d) =? 1 then Err (UnsupportedReference [36; d])
             else Stuck
           end
    end
  end.
Definition reject_unsupported_references (raw : list Z) : res MakeExprError unit :=
  reject_from (S (length raw)) raw.

Definition concatenate_path_prefix (prefix suffix : list Z) : list Z :=
  match ends_with prefix [47], starts_with suffix [47] with
  | true, true => prefix ++ drop 1 suffix
  | false, false => if negb (eqb_list prefix []) && negb (eqb_list suffix []) then prefix ++ [47] ++ suffix
                    else prefix ++ suffix
  | _, _ => prefix ++ suffix
  end.

(** ** The evaluator's state *)
Record EvalState := mkEval
  { scanned : Z; emitted : Z; work : Z; items : Z;
    expansion_chain : list (list Z); loop_vars : list (list Z * list Z) }.
Definition eval_init : EvalState := mkEval 0 0 0 0 [] [].

Abbreviation Ev := (SR EvalState MakeExprError).

Definition set_scanned (n : Z) (s : EvalState) := mkEval n (emitted s) (work s) (items s) (expansion_chain s) (loop_vars s).
Definition set_emitted (n : Z) (s : EvalState) := mkEval (scanned s) n (work s) (items s) (expansion_chain s) (loop_vars s).
Definition set_work (n : Z) (s : EvalState) := mkEval (scanned s) (emitted s) n (items s) (expansion_chain s) (loop_vars s).
Definition set_items (n : Z) (s : EvalState) := mkEval (scanned s) (emitted s) (work s) n (expansion_chain s) (loop_vars s).

(** [self.expansion_chain.push] / [pop], [self.loop_vars.extend] / [truncate] *)
Definition push_chain (name : list Z) (s : EvalState) :=
  mkEval (scanned s) (emitted s) (work s) (items s) (expansion_chain s ++ [name]) (loop_vars s).
Definition pop_chain (s : EvalState) :=
  mkEval (scanned s) (emitted s) (work s) (items s) (removelast (expansion_chain s)) (loop_vars s).
Definition push_loops (bindings : list (list Z * list Z)) (s : EvalState) :=
  mkEval (scanned s) (emitted s) (work s) (items s) (expansion_chain s) (loop_vars s ++ bindings).
Definition pop_loops (n : nat) (s : EvalState) :=
  mkEval (scanned s) (emitted s) (work s) (items s) (expansion_chain s) (take (length (loop_vars s) - n) (loop_vars s)).

Definition charge (get : EvalState -> Z) (set : Z -> EvalState -> EvalState) (limit : Z) (resource : Resource)
  (amount : Z) : Ev unit := fun s =>
  match checked_add usize_max (get s) amount with
  | None => (Err (ResourceLimit resource limit), s)
  | Some next => if limit <? next then (Err (ResourceLimit resource limit), s) else (Ok tt, set next s)
  end.
Definition charge_scanned : Z -> Ev unit := charge scanned set_scanned MAX_SCANNED_BYTES ScannedBytes.
Definition charge_emitted : Z -> Ev unit := charge emitted set_emitted MAX_EMITTED_BYTES EmittedBytes.
Definition charge_work : Z -> Ev unit := charge work set_work MAX_WORK_UNITS WorkUnits.
Definition charge_items : Z -> Ev unit := charge items set_items MAX_LIST_ITEMS ListItems.

Definition value_limit : MakeExprError := ResourceLimit ValueBytes MAX_VALUE_BYTES.
Definition work_limit : MakeExprError := ResourceLimit WorkUnits MAX_WORK_UNITS.
Definition scan_limit : MakeExprError := ResourceLimit ScannedBytes MAX_SCANNED_BYTES.
Definition emit_limit : MakeExprError := ResourceLimit EmittedBytes MAX_EMITTED_BYTES.
Definition check_value_size (size : Z) : Ev unit := lift (refuse (MAX_VALUE_BYTES <? size) value_limit).
(** [checked.ok_or_else(|| limit)?] *)
Definition within {A} (o : option A) (e : MakeExprError) : Ev A := lift (ok_or o e).

Definition saturating_add (a b : Z) : Z := Z.min usize_max (a + b).
Definition saturating_mul (a b : Z) : Z := Z.min usize_max (a * b).
Definition add_all (init : Z) (sizes : list Z) : option Z :=
  foldl (fun acc n => size ← acc; checked_add usize_max size n) (Some init) sizes.

Definition append_output (output piece : list Z) : Ev (list Z) :=
  next_len ← within (checked_add usize_max (str_len output) (str_len piece)) value_limit;
  _ ← check_value_size next_len;
  _ ← charge_work 1;
  _ ← charge_emitted (str_len piece);
  mret (output ++ piece).

Definition append_char (output : list Z) (character : Z) : Ev (list Z) :=
  let n := len (utf8_char character) in
  next_len ← within (checked_add usize_max (str_len output) n) value_limit;
  _ ← check_value_size next_len;
  _ ← charge_work 1;
  _ ← charge_emitted n;
  mret (output ++ [character]).

Definition append_word (output : list Z) (pieces : list (list Z)) : Ev (list Z) :=
  word_len ← within (add_all 0 (map str_len pieces)) value_limit;
  _ ← charge_work 1;
  if word_len =? 0 then mret output
  else
    let separator_len := Z.b2z (negb (eqb_list output [])) in
    next_len ← within (size ← checked_add usize_max (str_len output) separator_len;
                       checked_add usize_max size word_len) value_limit;
    _ ← check_value_size next_len;
    _ ← charge_items 1;
    _ ← charge_emitted (saturating_add separator_len word_len);
    mret (output ++ (if eqb_list output [] then [] else [32]) ++ concat pieces).

Definition make_words (raw : list Z) : Ev (list (list Z)) :=
  _ ← charge_scanned (str_len raw);
  forM (fun words word =>
    _ ← charge_items 1; _ ← charge_emitted (str_len word); _ ← charge_work 1;
    mret (words ++ [word])) [] (split_whitespace raw).

Definition join_words (words : list (list Z)) : Ev (list Z) :=
  payload_bytes ← within (add_all 0 (map str_len words)) value_limit;
  let separator_bytes := Z.max 0 (len words - 1) in
  bytes ← within (checked_add usize_max payload_bytes separator_bytes) value_limit;
  _ ← check_value_size bytes;
  _ ← charge_emitted bytes;
  _ ← charge_work (len words);
  mret (join [32] words).

Definition function_arguments_between (function raw : list Z) (minimum : Z) (maximum : option Z) : Ev (list (list Z)) :=
  _ ← charge_scanned (str_len raw);
  args ← lift (split_top_level raw 44);
  _ ← lift (refuse ((len args <? minimum) || match maximum with Some m => m <? len args | None => false end)
              (InvalidSyntax (bounded_preview raw) (ArgumentCount function (len args))));
  _ ← charge_items (len args);
  mret args.
Definition function_arguments (function raw : list Z) (expected : Z) : Ev (list (list Z)) :=
  function_arguments_between function raw expected (Some expected).
Definition function_arguments_at_least (function raw : list Z) (minimum : Z) : Ev (list (list Z)) :=
  function_arguments_between function raw minimum None.

(** The scan of one word against one pattern. *)
Definition charge_match (pattern word : list Z) : Ev unit :=
  let n := saturating_add (str_len pattern) (str_len word) in _ ← charge_scanned n; charge_work n.
Fixpoint any_match (patterns : list (list Z)) (word : list Z) : Ev bool :=
  match patterns with
  | [] => mret false
  | pattern :: patterns =>
    _ ← charge_match pattern word;
    if bool_decide (is_Some (pattern_stem pattern word)) then mret true else any_match patterns word
  end.
Definition filter_words (patterns words : list (list Z)) (keep_matches : bool) : Ev (list Z) :=
  comparisons ← within (checked_mul usize_max (len patterns) (len words)) work_limit;
  _ ← charge_work comparisons;
  forM (fun output word =>
    matched ← any_match patterns word;
    if Bool.eqb matched keep_matches then append_word output [word] else mret output) [] words.

Definition patsubst_words (pattern replacement : list Z) (words : list (list Z)) : Ev (list Z) :=
  forM (fun output word =>
    _ ← charge_match word pattern;
    match pattern_stem pattern word with
    | Some stem =>
      match split_once 37 replacement with
      | Some (before, after) => append_word output [before; stem; after]
      | None => append_word output [replacement]
      end
    | None => append_word output [word]
    end) [] words.

Definition suffix_substitute_words (words : list (list Z)) (from to : list Z) : Ev (list Z) :=
  forM (fun output word =>
    _ ← charge_match word from;
    match strip_suffix from word with
    | Some stem => append_word output [stem; to]
    | None => append_word output [word]
    end) [] words.

Definition finish_value (value : list Z) : Ev (list Z) :=
  _ ← charge_scanned (str_len value);
  _ ← lift (reject_unsupported_references value);
  if negb (contains_char ESCAPED_DOLLAR value) then mret value
  else
    let escaped_count := len (List.filter (Z.eqb ESCAPED_DOLLAR) value) in
    output_len ← within (length ← checked_sub (str_len value) (saturating_mul escaped_count 3);
                         checked_add usize_max length escaped_count) value_limit;
    _ ← check_value_size output_len;
    _ ← charge_emitted output_len;
    _ ← charge_work escaped_count;
    mret (map (fun c => if c =? ESCAPED_DOLLAR then 36 else c) value).

(** ** The context *)
Record MakeExprContext := mkContext
  { scope : VarScope; dirs : DirVars; line : Z;
    source_dir : list Z; relative_dir : list Z;
    lookup : option (list Z -> option (list Z));
    guard : option (list Z -> option (list Z));
    filesystem_enabled : bool }.

(** The [glob] crate and the file system it walks: escaping of a literal, the
    matches of a pattern (or the error of an invalid one, an error in place of
    an unreadable entry), and [Path::is_file]. *)
Class Glob :=
  { pattern_escape : list Z -> list Z;
    glob_with : list Z -> list Z + list (list Z + list Z);
    is_file : list Z -> bool }.

(** [Path::join] *)
Definition path_join (base rel : list Z) : list Z :=
  if is_absolute rel then rel
  else if negb (eqb_list base []) && negb (ends_with base [47]) then base ++ [47] ++ rel
  else base ++ rel.

(** [Path::strip_prefix]: the text behind the components of [root], without the
    separators and [.] pieces at its ends. *)
Definition vanishes (w : list Z) : bool := bool_decide (piece_component w = None).
Fixpoint drop_vanishing (ws : list (list Z)) : list (list Z) :=
  match ws with [] => [] | w :: ws' => if vanishes w then drop_vanishing ws' else ws end.
Definition trim_right_pieces (ws : list (list Z)) : list (list Z) := rev (drop_vanishing (rev ws)).
Fixpoint drop_components (n : nat) (ws : list (list Z)) : list (list Z) :=
  match ws with
  | [] => []
  | w :: ws' => match n with
                | O => ws
                | S n' => if vanishes w then drop_components n ws' else drop_components n' ws'
                end
  end.
Definition is_piece (c : component) : bool := match c with RootDir | CurDir => false | _ => true end.
Definition path_strip_prefix (path root : list Z) : option (list Z) :=
  let cr := components root in
  let pieces := split_on (Z.eqb 47) path in
  if bool_decide (take (length cr) (components path) = cr) then
    Some (match cr, pieces with
          | [], first :: rest =>
            if is_absolute path then [47] ++ join [47] (trim_right_pieces rest)
            else join [47] (first :: trim_right_pieces rest)
          | _, _ => join [47] (trim_right_pieces (drop_vanishing (drop_components (length (List.filter is_piece cr)) pieces)))
          end)
  else None.

Record Env := mkEnv { env : MakeExprContext; source_text : list Z; relative_text : list Z; wildcard_root : list Z }.

Definition evaluator_new (c : MakeExprContext) : res MakeExprError Env :=
  _ ← refuse (is_absolute (relative_dir c)) (InvalidSyntax (from_utf8_lossy (relative_dir c)) AbsoluteDirectory);
  source ← path_text (source_dir c) (rs "source directory");
  relative ← (if eqb_list (relative_dir c) [] then Ok (rs ".")
              else path_text (relative_dir c) (rs "relative mmakefile directory"));
  Ok (mkEnv c source relative (path_join (source_dir c) (relative_dir c))).

Section evaluator.
Context `{Glob} (e : Env).

Definition context_value (name : list Z) : option (list Z) :=
  if eqb_list name (rs "SRCDIR") then Some (rs "${AROS_SOURCE_DIR}")
  else if eqb_list name (rs "TOP") then Some (rs "${AROS_BUILD_DIR}")
  else if eqb_list name (rs "CURDIR") then Some (relative_text e)
  else None.

Definition call_opt {A} (f : option (list Z -> option A)) (name : list Z) : option A := f ≫= fun f => f name.

Definition guard_reason (name : list Z) : option (list Z) :=
  if conditionally_assigned_before (scope (env e)) name (line (env e))
  then Some (rs "assigned inside an unevaluated Make conditional")
  else call_opt (guard (env e)) name.

(** The file-local lookup [resolve_variable] puts in front of the directory
    table; it records the last name the guard refused. *)
Definition local_lookup (chain : list (list Z)) (nested : list Z) (guarded : option (list Z * list Z))
  : option (list Z) * option (list Z * list Z) :=
  match context_value nested with
  | Some value => (Some value, guarded)
  | None =>
    match guard_reason nested with
    | Some detail => (None, Some (nested, detail))
    | None =>
      (match call_opt (lookup (env e)) nested with
       | Some value => Some value
       | None => if bool_decide (nested ∈ chain) then None else raw_at (scope (env e)) nested (line (env e))
       end, guarded)
    end
  end.

(** [resolve_variable] reads the chain and the loop variables only. *)
Definition resolve (chain : list (list Z)) (loops : list (list Z * list Z)) (name : list Z) : res MakeExprError (list Z) :=
  match List.find (fun x => eqb_list x.1 name) (rev loops) with
  | Some (_, value) => Ok value
  | None =>
    match context_value name with
    | Some value => Ok value
    | None =>
      _ ← (match guard_reason name with Some detail => Err (UnsafeVariable name detail chain) | None => Ok tt end);
      match call_opt (lookup (env e)) name with
      | Some value => Ok value
      | None =>
        match raw_at (scope (env e)) name (line (env e)) with
        | Some value => Ok value
        | None =>
          let reference := rs "$(" ++ name ++ rs ")" in
          match expand (dirs (env e)) reference with
          | Some expanded => Ok expanded
          | None =>
            match expand_with (dirs (env e)) (local_lookup chain) reference None with
            | (Stuck, _) => Stuck
            | (_, Some (name, detail)) => Err (UnsafeVariable name detail chain)
            | (Ok (inl expanded), None) => Ok expanded
            | (Ok (inr missing), None) => Err (UnresolvedVariables missing chain)
            | (Err _, None) => Stuck
            end
          end
        end
      end
    end
  end.
Definition resolve_variable (name : list Z) : Ev (list Z) := fun s =>
  (resolve (expansion_chain s) (loop_vars s) name, s).

(** ** [wildcard] *)
Definition deferred_text : list Z := rs "${".
Definition source_prefix : list Z := rs "${AROS_SOURCE_DIR}".
Definition ports_prefix : list Z := rs "${AROS_PORTS_DIR}".

(** The physical pattern, the pattern given to [glob], and the physical and
    symbolic root of a pattern below a CMake directory. *)
Definition plan_pattern (original escaped_root escaped_source : list Z)
  : res MakeExprError (list Z * list Z * option (list Z * list Z)) :=
  let deferred := DeferredWildcard (bounded_preview original) in
  match strip_prefix source_prefix original with
  | Some tail =>
    _ ← refuse (contains_str deferred_text tail) deferred;
    Ok (concatenate_path_prefix (source_text e) tail, concatenate_path_prefix escaped_source tail,
        Some (source_text e, source_prefix))
  | None =>
    match strip_prefix ports_prefix original with
    | Some tail =>
      _ ← refuse (contains_str deferred_text tail) deferred;
      ports_root ← ok_or (materialized (dirs (env e)) !! rs "AROS_PORTS_DIR") deferred;
      ports_text ← path_text ports_root (rs "Ports directory");
      Ok (concatenate_path_prefix ports_text tail, concatenate_path_prefix (pattern_escape ports_text) tail,
          Some (ports_text, ports_prefix))
    | None =>
      _ ← refuse (contains_str deferred_text original) deferred;
      Ok (original,
          if is_absolute original || eqb_list escaped_root [] then original
          else concatenate_path_prefix escaped_root original, None)
    end
  end.

(** How a match is written into the list. *)
Definition shown_path (original : list Z) (absolute : bool) (backing : option (list Z * list Z)) (path : list Z)
  : res MakeExprError (list Z) :=
  match backing with
  | Some (physical_root, logical_root) =>
    relative ← ok_or (path_strip_prefix path (utf8 physical_root))
      (WildcardError (bounded_preview original)
         (rs "match escaped materialized directory `" ++ bounded_preview physical_root ++ rs "`"));
    relative ← path_text relative (rs "materialized wildcard result");
    Ok (if eqb_list relative [] then logical_root else logical_root ++ rs "/" ++ relative)
  | None =>
    path_text (if absolute then path else default path (path_strip_prefix path (wildcard_root e)))
      (rs "wildcard result")
  end.

Definition one_match (original : list Z) (absolute regular_files_only : bool) (backing : option (list Z * list Z))
  (st : list (list Z) * Z) (result : list Z + list Z) : Ev (list (list Z) * Z) :=
  let '(matches, pattern_bytes) := st in
  path ← lift (match result with
               | inr path => Ok path
               | inl error => Err (WildcardError (bounded_preview original) (bounded_preview error))
               end);
  _ ← charge_work 1;
  _ ← charge_items 1;
  if regular_files_only && negb (is_file path) then mret st
  else
    shown ← lift (shown_path original absolute backing path);
    _ ← charge_emitted (str_len shown);
    pattern_bytes ← within (checked_add usize_max pattern_bytes (str_len shown)) value_limit;
    _ ← check_value_size pattern_bytes;
    mret (matches ++ [shown], pattern_bytes).

(** [words.sort()]: by their characters, that is by their UTF-8 bytes. *)
Definition max_len (words : list (list Z)) : Z := foldr (fun w n => Z.max (str_len w) n) 0 words.

(** [n * (ilog2(max(n, 1)) + 1) * max(longest, 1)] *)
Definition charge_sort (words : list (list Z)) : Ev unit :=
  comparisons ← within (checked_mul usize_max (len words) (Z.log2 (Z.max (len words) 1) + 1)) work_limit;
  total ← within (checked_mul usize_max comparisons (Z.max (max_len words) 1)) work_limit;
  charge_work total.

Definition one_pattern (regular_files_only : bool) (escaped_root escaped_source : list Z)
  (st : list (list Z) * Z) (original : list Z) : Ev (list (list Z) * Z) :=
  let '(output, output_bytes) := st in
  _ ← charge_work (str_len original);
  '(materialized_pattern, glob_pattern, backing) ← lift (plan_pattern original escaped_root escaped_source);
  _ ← lift (refuse (contains_str deferred_text materialized_pattern) (DeferredWildcard (bounded_preview original)));
  paths ← lift (match glob_with glob_pattern with
                | inr paths => Ok paths
                | inl error => Err (WildcardError (bounded_preview original) (bounded_preview error))
                end);
  '(matches, pattern_bytes) ←
    forM (one_match original (is_absolute materialized_pattern) regular_files_only backing) ([], 0) paths;
  let separator_count := saturating_add (Z.max 0 (len matches - 1))
    (Z.b2z (negb (bool_decide (output = [])) && negb (bool_decide (matches = [])))) in
  next_output_bytes ← within (size ← checked_add usize_max output_bytes pattern_bytes;
                              checked_add usize_max size separator_count) value_limit;
  _ ← check_value_size next_output_bytes;
  _ ← charge_sort matches;
  _ ← lift (refuse (bool_decide (matches = []) && match backing with
                     | Some (_, logical) => eqb_list logical ports_prefix
                     | None => false
                     end) (DeferredWildcard (bounded_preview original)));
  mret (output ++ sort_words matches, next_output_bytes).

Definition wildcard (expanded_patterns : list Z) (regular_files_only : bool) : Ev (list (list Z)) :=
  _ ← lift (refuse (negb (filesystem_enabled (env e))) (FilesystemAccessDisabled regular_files_only));
  _ ← charge_scanned (str_len expanded_patterns);
  _ ← lift (reject_unsupported_references expanded_patterns);
  patterns ← make_words expanded_patterns;
  root_text ← lift (path_text (wildcard_root e) (rs "wildcard root"));
  '(output, _) ← forM (one_pattern regular_files_only (pattern_escape root_text) (pattern_escape (source_text e)))
                   ([], 0) patterns;
  mret output.

(** ** Functions

    [ev] expands an argument: [self.expand_text(_, depth)]. *)
Section functions.
Context (ev : list Z -> Ev (list Z)).

Definition fn_foreach (name raw_args : list Z) : Ev (list Z) :=
  args ← function_arguments name raw_args 3;
  match args with
  | [a0; a1; a2] =>
    variable ← ev (trim a0);
    let variable := trim variable in
    _ ← lift (refuse (eqb_list variable []) (InvalidSyntax raw_args EmptyLoopVariable));
    expanded_list ← ev (trim a1);
    list ← make_words expanded_list;
    '(output, _) ← forM (fun st word =>
      let '(output, index) := st in
      _ ← charge_items 1;
      _ ← charge_emitted (str_len variable);
      _ ← charge_work 1;
      expanded ← bracket (push_loops [(variable, word)]) (pop_loops 1) (ev a2);
      output ← (if negb (index =? 0) then append_char output 32 else mret output);
      output ← append_output output expanded;
      mret (output, index + 1)) ([], 0) list;
    mret output
  | _ => lift Stuck
  end.

Definition fn_pairwise (name raw_args : list Z) : Ev (list Z) :=
  args ← function_arguments name raw_args 2;
  match args with
  | [a0; a1] =>
    first ← ev (trim a0);
    expanded_words ← ev (trim a1);
    words ← make_words expanded_words;
    if eqb_list name (rs "addprefix") || eqb_list name (rs "addsuffix") then
      let affix := trim first in
      forM (fun output word =>
        append_word output (if eqb_list name (rs "addprefix") then [affix; word] else [word; affix])) [] words
    else
      patterns ← make_words first;
      filter_words patterns words (eqb_list name (rs "filter"))
  | _ => lift Stuck
  end.

Definition fn_patsubst (name raw_args : list Z) : Ev (list Z) :=
  args ← function_arguments name raw_args 3;
  match args with
  | [a0; a1; a2] =>
    pattern ← ev (trim a0);
    replacement ← ev (trim a1);
    expanded_words ← ev (trim a2);
    words ← make_words expanded_words;
    patsubst_words (trim pattern) (trim replacement) words
  | _ => lift Stuck
  end.

Definition fn_subst (name raw_args : list Z) : Ev (list Z) :=
  args ← function_arguments name raw_args 3;
  match args with
  | [a0; a1; a2] =>
    from ← ev a0;
    _ ← lift (refuse (eqb_list from []) (InvalidSyntax (bounded_preview raw_args) EmptySearch));
    to ← ev a1;
    text ← ev a2;
    _ ← charge_scanned (str_len text);
    let matches := match_count from text in
    removed ← within (checked_mul usize_max matches (str_len from)) value_limit;
    added ← within (checked_mul usize_max matches (str_len to)) value_limit;
    output_len ← within (length ← checked_sub (str_len text) removed; checked_add usize_max length added) value_limit;
    _ ← check_value_size output_len;
    _ ← charge_work matches;
    _ ← charge_emitted output_len;
    mret (replace_str from to text)
  | _ => lift Stuck
  end.

Definition fn_findstring (name raw_args : list Z) : Ev (list Z) :=
  args ← function_arguments name raw_args 2;
  match args with
  | [a0; a1] =>
    needle ← ev a0;
    haystack ← ev a1;
    _ ← charge_scanned (saturating_add (str_len needle) (str_len haystack));
    _ ← charge_work 1;
    mret (if contains_str needle haystack then needle else [])
  | _ => lift Stuck
  end.

(** [word] and [wordlist] *)
Definition fn_word (name raw_args : list Z) : Ev (list Z) :=
  let single := eqb_list name (rs "word") in
  args ← function_arguments name raw_args (if single then 2 else 3);
  match args with
  | a0 :: rest =>
    v0 ← ev (trim a0);
    first ← lift (parse_word_index name v0 raw_args);
    '(last_, text) ← (match rest with
      | [a1] => mret (first, a1)
      | [a1; a2] => v1 ← ev (trim a1); last_ ← lift (parse_word_index name v1 raw_args); mret (last_, a2)
      | _ => lift Stuck
      end);
    expanded_words ← ev text;
    words ← make_words expanded_words;
    if (first =? 0) || (last_ <? first) || (len words <? first) then mret []
    else join_words (take (Z.to_nat (Z.min last_ (len words) - (first - 1))) (drop (Z.to_nat (first - 1)) words))
  | _ => lift Stuck
  end.

(** [left.get(i)] and [right.get(i)] for every index of the longer list. *)
Fixpoint zip_longest (xs ys : list (list Z)) : list (list (list Z)) :=
  match xs, ys with
  | [], ys => map (fun y => [[]; y]) ys
  | x :: xs, [] => map (fun x => [x; []]) (x :: xs)
  | x :: xs, y :: ys => [x; y] :: zip_longest xs ys
  end.
Definition fn_join (name raw_args : list Z) : Ev (list Z) :=
  args ← function_arguments name raw_args 2;
  match args with
  | [a0; a1] =>
    expanded_left ← ev a0;
    xs ← make_words expanded_left;
    expanded_right ← ev a1;
    ys ← make_words expanded_right;
    forM append_word [] (zip_longest xs ys)
  | _ => lift Stuck
  end.

Definition fn_if (name raw_args : list Z) : Ev (list Z) :=
  args ← function_arguments_between name raw_args 2 (Some 3);
  match args with
  | a0 :: a1 :: rest =>
    condition ← ev a0;
    ev (if eqb_list (trim condition) [] then default [] (head rest) else a1)
  | _ => lift Stuck
  end.

Fixpoint or_and (is_or : bool) (last_ : list Z) (args : list (list Z)) : Ev (list Z) :=
  match args with
  | [] => mret (if is_or then [] else last_)
  | argument :: args =>
    value ← ev argument;
    if Bool.eqb is_or (negb (eqb_list value [])) then mret value else or_and is_or value args
  end.
Definition fn_or_and (name raw_args : list Z) : Ev (list Z) :=
  args ← function_arguments_at_least name raw_args 1;
  or_and (eqb_list name (rs "or")) [] args.

Definition transform (name word : list Z) : option (list Z) :=
  if eqb_list name (rs "notdir") then notdir word
  else if eqb_list name (rs "dir") then Some (directory_part word)
  else if eqb_list name (rs "basename") then basename word
  else suffix word.
Definition fn_unary (name raw_args : list Z) : Ev (list Z) :=
  args ← function_arguments name raw_args 1;
  match args with
  | [a0] =>
    expanded ← ev (trim a0);
    if bool_decide (name ∈ [rs "notdir"; rs "dir"; rs "basename"; rs "suffix"]) then
      words ← make_words expanded;
      forM (fun output word =>
        _ ← charge_work (str_len word);
        match transform name word with
        | Some transformed => append_word output [transformed]
        | None => mret output
        end) [] words
    else if eqb_list name (rs "sort") then
      words ← make_words expanded;
      _ ← charge_sort words;
      join_words (dedup_adjacent (sort_words words))
    else if eqb_list name (rs "strip") then words ← make_words expanded; join_words words
    else words ← wildcard expanded false; join_words words
  | _ => lift Stuck
  end.

(** [firstword], [lastword] and [words] *)
Definition fn_count (name raw_args : list Z) : Ev (list Z) :=
  args ← function_arguments name raw_args 1;
  match args with
  | [a0] =>
    expanded ← ev a0;
    words ← make_words expanded;
    mret (if eqb_list name (rs "firstword") then default [] (head words)
          else if eqb_list name (rs "lastword") then default [] (last words)
          else show_dec (len words))
  | _ => lift Stuck
  end.

Definition fn_value (name raw_args : list Z) : Ev (list Z) :=
  args ← function_arguments name raw_args 1;
  match args with
  | [a0] =>
    let variable := trim a0 in
    _ ← lift (refuse (eqb_list variable [] || existsb is_whitespace variable)
                (InvalidSyntax (bounded_preview raw_args) ValueName));
    value ← resolve_variable variable;
    _ ← check_value_size (str_len value);
    _ ← charge_emitted (str_len value);
    _ ← charge_work (str_len value);
    mret value
  | _ => lift Stuck
  end.

Definition fn_call (name raw_args : list Z) : Ev (list Z) :=
  args ← function_arguments_at_least name raw_args 1;
  match args with
  | a0 :: rest =>
    callee ← ev (trim a0);
    let callee := trim callee in
    if eqb_list callee (rs "WILDCARD") then
      _ ← lift (refuse (negb (len args =? 2)) (InvalidSyntax (bounded_preview raw_args) WildcardArity));
      match rest with
      | [a1] => patterns ← ev (trim a1); words ← wildcard patterns true; join_words words
      | _ => lift Stuck
      end
    else
      body ← resolve_variable callee;
      bindings ← forM (fun bindings argument =>
        value ← ev argument; mret (bindings ++ [(show_dec (len bindings), value)])) [(rs "0", callee)] rest;
      _ ← charge_items (len bindings);
      bracket (push_loops bindings) (pop_loops (length bindings)) (ev body)
  | _ => lift Stuck
  end.

Definition is_one_of (name : list Z) (l : list (list Z)) : bool := bool_decide (name ∈ l).
Definition evaluate_function (name raw_args : list Z) : Ev (list Z) :=
  if eqb_list name (rs "foreach") then fn_foreach name raw_args
  else if is_one_of name [rs "addprefix"; rs "addsuffix"; rs "filter"; rs "filter-out"] then fn_pairwise name raw_args
  else if eqb_list name (rs "patsubst") then fn_patsubst name raw_args
  else if eqb_list name (rs "subst") then fn_subst name raw_args
  else if eqb_list name (rs "findstring") then fn_findstring name raw_args
  else if is_one_of name [rs "word"; rs "wordlist"] then fn_word name raw_args
  else if eqb_list name (rs "join") then fn_join name raw_args
  else if eqb_list name (rs "if") then fn_if name raw_args
  else if is_one_of name [rs "or"; rs "and"] then fn_or_and name raw_args
  else if is_one_of name [rs "notdir"; rs "dir"; rs "basename"; rs "suffix"; rs "sort"; rs "strip"; rs "wildcard"]
       then fn_unary name raw_args
  else if is_one_of name [rs "firstword"; rs "lastword"; rs "words"] then fn_count name raw_args
  else if eqb_list name (rs "value") then fn_value name raw_args
  else if eqb_list name (rs "call") then fn_call name raw_args
  else lift (Err (UnsupportedFunction name)).

(** ** References *)
Definition check_cycle (name : list Z) : Ev unit :=
  chain ← gets expansion_chain;
  _ ← charge_work (len chain);
  compared_bytes ← within (add_all (saturating_mul (str_len name) (len chain)) (map str_len chain)) scan_limit;
  _ ← charge_scanned compared_bytes;
  match position (eqb_list name) chain with
  | None => mret tt
  | Some at_ =>
    let cycle := drop (Z.to_nat at_) chain in
    chain_bytes ← within (size ← add_all 0 (map str_len cycle); checked_add usize_max size (str_len name)) emit_limit;
    _ ← charge_emitted chain_bytes;
    _ ← charge_work (len chain - at_ + 1);
    lift (Err (VariableCycle (cycle ++ [name])))
  end.

Definition evaluate_variable (body : list Z) : Ev (list Z) :=
  scan ← within (checked_mul usize_max (str_len body) 2) scan_limit;
  _ ← charge_scanned scan;
  '(raw_name, substitution) ← lift (split_substitution_reference body);
  expanded_name ← ev raw_name;
  let name := trim expanded_name in
  _ ← check_value_size (str_len name);
  _ ← charge_emitted (str_len name);
  _ ← charge_work 1;
  _ ← lift (refuse (eqb_list name [] || existsb is_whitespace name)
              (InvalidSyntax (bounded_preview body) (InvalidVariableName name)));
  _ ← check_cycle name;
  raw_value ← resolve_variable name;
  expanded ← bracket (push_chain name) pop_chain (ev raw_value);
  match substitution with
  | None => mret expanded
  | Some (raw_from, raw_to) =>
    expanded_from ← ev raw_from;
    let from := trim expanded_from in
    expanded_to ← ev raw_to;
    let to := trim expanded_to in
    words ← make_words expanded;
    if contains_char 37 from then patsubst_words from to words else suffix_substitute_words words from to
  end.

Definition evaluate_reference (body : list Z) : Ev (list Z) :=
  let trimmed := trim_start body in
  _ ← charge_scanned (str_len trimmed);
  _ ← lift (refuse (eqb_list trimmed []) (InvalidSyntax (rs "$()") EmptyVariableName));
  match top_level is_ascii_whitespace 0 trimmed with
  | Some (name, args) => evaluate_function name (trim_start args)
  | None => evaluate_variable (trim_end trimmed)
  end.
End functions.

(** The [while cursor < raw.len()] loop of [expand_text]. *)
Fixpoint expand_loop (fuel : nat) (evaluate : list Z -> Ev (list Z)) (out raw : list Z) : Ev (list Z) :=
  match fuel with
  | O => lift Stuck
  | S fuel =>
    match raw with
    | [] => mret out
    | _ =>
      match split_once 36 raw with
      | None => append_output out raw
      | Some (before, after) =>
        out ← append_output out before;
        let here := 36 :: after in
        match after with
        | [] => out ← append_char out 36; expand_loop fuel evaluate out after
        | next :: tail =>
          if next =? 36 then out ← append_char out ESCAPED_DOLLAR; expand_loop fuel evaluate out tail
          else if next =? 40 then
            _ ← charge_scanned (str_len here);
            '(body, rest) ← lift (reference_end here);
            expanded ← evaluate body;
            out ← append_output out expanded;
            expand_loop fuel evaluate out rest
          else if next =? 123 then
            _ ← charge_scanned (str_len here);
            '(body, rest) ← lift (ok_or (split_once 125 tail) (InvalidSyntax (bounded_preview here) UnclosedBrace));
            if is_deferred_cmake_reference body then
              out ← append_output out (rs "${" ++ body ++ rs "}");
              expand_loop fuel evaluate out rest
            else
              expanded ← evaluate body;
              out ← append_output out expanded;
              expand_loop fuel evaluate out rest
          else out ← append_char out 36; expand_loop fuel evaluate out after
        end
      end
    end
  end.

(** [depth] only decreases through a reference, so it is the recursion. *)
Fixpoint expand_text (depth : nat) (raw : list Z) : Ev (list Z) :=
  match depth with
  | O => lift (Err (ExpansionLimit (bounded_preview raw)))
  | S depth =>
    _ ← charge_scanned (str_len raw);
    expand_loop (S (length raw)) (evaluate_reference (expand_text depth)) [] raw
  end.
End evaluator.

Definition evaluate_make_expr `{Glob} (raw : list Z) (c : MakeExprContext) : res MakeExprError (list Z) :=
  e ← evaluator_new c;
  fst ((value ← expand_text e MAX_EXPANSION_DEPTH raw; finish_value value) eval_init).

Definition evaluate_make_list `{Glob} (raw : list Z) (c : MakeExprContext) : res MakeExprError (list (list Z)) :=
  e ← evaluator_new c;
  fst ((expanded ← expand_text e MAX_EXPANSION_DEPTH raw; value ← finish_value expanded; make_words value) eval_init).
