(* ===== verification/MakeSpec.v ===== *)
(** * MakeSpec: what a Make expression means

    A reference semantics for the evaluator of [MakeExpr]: no state and no
    budgets, list functions as functions on word lists, the chain of variables
    under expansion and the loop bindings as arguments.  The evaluator refines
    it up to resource limits; panics and errors agree. *)

From stdpp Require Import gmap.
From S2P Require Import Prelude Text Ordered Publication StateRes MakeVars Dirs MakeExpr.

Abbreviation R := (res MakeExprError).
Abbreviation bindings := (list (list Z * list Z)).

(** Words separated by single spaces; empty words vanish. *)
Definition unwords (ws : list (list Z)) : list Z :=
  join [32] (List.filter (fun w => negb (eqb_list w [])) ws).

Inductive token := Literal (s : list Z) | Escaped | Reference (body : list Z) | Malformed (error : MakeExprError).

(** The text as a sequence of literals and references. *)
Fixpoint tokens (fuel : nat) (raw : list Z) : list token :=
  match fuel with
  | O => []
  | S fuel =>
    match split_once 36 raw with
    | None => [Literal raw]
    | Some (before, after) =>
      Literal before ::
      match after with
      | [] => Literal [36] :: tokens fuel after
      | next :: tail =>
        if next =? 36 then Escaped :: tokens fuel tail
        else if next =? 40 then
          match close_paren 1 tail with
          | Some (body, rest) => Reference body :: tokens fuel rest
          | None => [Malformed (InvalidSyntax (bounded_preview (36 :: after)) UnclosedReference)]
          end
        else if next =? 123 then
          match split_once 125 tail with
          | Some (body, rest) =>
            (if is_deferred_cmake_reference body then Literal (rs "${" ++ body ++ rs "}") else Reference body)
            :: tokens fuel rest
          | None => [Malformed (InvalidSyntax (bounded_preview (36 :: after)) UnclosedBrace)]
          end
        else Literal [36] :: tokens fuel after
      end
    end
  end.

Definition arguments (function raw : list Z) (minimum : Z) (maximum : option Z) : R (list (list Z)) :=
  args ← split_top_level raw 44;
  _ ← refuse ((len args <? minimum) || match maximum with Some m => m <? len args | None => false end)
        (InvalidSyntax (bounded_preview raw) (ArgumentCount function (len args)));
  Ok args.

Definition matches_any (patterns : list (list Z)) (word : list Z) : bool :=
  existsb (fun p => bool_decide (is_Some (pattern_stem p word))) patterns.
Definition patsubst_word (pattern replacement word : list Z) : list Z :=
  match pattern_stem pattern word with
  | None => word
  | Some stem => match split_once 37 replacement with
                 | Some (before, after) => before ++ stem ++ after
                 | None => replacement
                 end
  end.
Definition replace_suffix (from to word : list Z) : list Z :=
  match strip_suffix from word with Some stem => stem ++ to | None => word end.
Definition substitute (from to : list Z) (words : list (list Z)) : list Z :=
  unwords (map (if contains_char 37 from then patsubst_word from to else replace_suffix from to) words).

Section reference.
Context `{Glob} (e : Env).

(** The matches of the patterns, each pattern's in order. *)
Definition match_of (original : list Z) (absolute regular_files_only : bool) (backing : option (list Z * list Z))
  (result : list Z + list Z) : R (list (list Z)) :=
  match result with
  | inl error => Err (WildcardError (bounded_preview original) (bounded_preview error))
  | inr path => if regular_files_only && negb (is_file path) then Ok []
                else shown ← shown_path e original absolute backing path; Ok [shown]
  end.
Definition found_by (regular_files_only : bool) (root_text original : list Z) : R (list (list Z)) :=
  '(materialized_pattern, glob_pattern, backing) ←
    plan_pattern e original (pattern_escape root_text) (pattern_escape (source_text e));
  _ ← refuse (contains_str deferred_text materialized_pattern) (DeferredWildcard (bounded_preview original));
  paths ← (match glob_with glob_pattern with
           | inr paths => Ok paths
           | inl error => Err (WildcardError (bounded_preview original) (bounded_preview error))
           end);
  found ← mapR (match_of original (is_absolute materialized_pattern) regular_files_only backing) paths;
  _ ← refuse (bool_decide (concat found = []) && match backing with
                | Some (_, logical) => eqb_list logical ports_prefix | None => false end)
        (DeferredWildcard (bounded_preview original));
  Ok (concat found).
Definition wildcard_of (patterns : list Z) (regular_files_only : bool) : R (list (list Z)) :=
  _ ← refuse (negb (filesystem_enabled (env e))) (FilesystemAccessDisabled regular_files_only);
  _ ← reject_unsupported_references patterns;
  root_text ← path_text (wildcard_root e) (rs "wildcard root");
  found ← mapR (fun p => words ← found_by regular_files_only root_text p; Ok (sort_words words)) (split_whitespace patterns);
  Ok (concat found).

(** [ev chain loops text] expands an argument. *)
Section functions.
Context (ev : list (list Z) -> bindings -> list Z -> R (list Z)).
Context (chain : list (list Z)) (loops : bindings).
Abbreviation arg := (ev chain loops).

Definition foreach_of (name raw_args : list Z) : R (list Z) :=
  args ← arguments name raw_args 3 (Some 3);
  match args with
  | [a0; a1; a2] =>
    variable ← arg (trim a0);
    _ ← refuse (eqb_list (trim variable) []) (InvalidSyntax raw_args EmptyLoopVariable);
    words ← arg (trim a1);
    vs ← mapR (fun word => ev chain (loops ++ [(trim variable, word)]) a2) (split_whitespace words);
    Ok (join [32] vs)
  | _ => Stuck
  end.

Definition pairwise_of (name raw_args : list Z) : R (list Z) :=
  args ← arguments name raw_args 2 (Some 2);
  match args with
  | [a0; a1] =>
    first ← arg (trim a0);
    words ← arg (trim a1);
    Ok (unwords (
      if eqb_list name (rs "addprefix") then map (fun w => trim first ++ w) (split_whitespace words)
      else if eqb_list name (rs "addsuffix") then map (fun w => w ++ trim first) (split_whitespace words)
      else List.filter (fun w => Bool.eqb (matches_any (split_whitespace first) w) (eqb_list name (rs "filter")))
             (split_whitespace words)))
  | _ => Stuck
  end.

Definition patsubst_of (name raw_args : list Z) : R (list Z) :=
  args ← arguments name raw_args 3 (Some 3);
  match args with
  | [a0; a1; a2] =>
    pattern ← arg (trim a0);
    replacement ← arg (trim a1);
    words ← arg (trim a2);
    Ok (unwords (map (patsubst_word (trim pattern) (trim replacement)) (split_whitespace words)))
  | _ => Stuck
  end.

Definition subst_of (name raw_args : list Z) : R (list Z) :=
  args ← arguments name raw_args 3 (Some 3);
  match args with
  | [a0; a1; a2] =>
    from ← arg a0;
    _ ← refuse (eqb_list from []) (InvalidSyntax (bounded_preview raw_args) EmptySearch);
    to ← arg a1;
    text ← arg a2;
    Ok (replace_str from to text)
  | _ => Stuck
  end.

Definition findstring_of (name raw_args : list Z) : R (list Z) :=
  args ← arguments name raw_args 2 (Some 2);
  match args with
  | [a0; a1] => needle ← arg a0; haystack ← arg a1; Ok (if contains_str needle haystack then needle else [])
  | _ => Stuck
  end.

(** Words [first] to [last_], counted from one. *)
Definition word_range (first last_ : Z) (words : list (list Z)) : list (list Z) :=
  take (Z.to_nat (last_ - first + 1)) (drop (Z.to_nat (first - 1)) words).
Definition word_of (name raw_args : list Z) : R (list Z) :=
  args ← arguments name raw_args (if eqb_list name (rs "word") then 2 else 3)
           (Some (if eqb_list name (rs "word") then 2 else 3));
  match args with
  | [a0; a1] =>
    v0 ← arg (trim a0); first ← parse_word_index name v0 raw_args;
    words ← arg a1;
    Ok (join [32] (word_range first first (split_whitespace words)))
  | [a0; a1; a2] =>
    v0 ← arg (trim a0); first ← parse_word_index name v0 raw_args;
    v1 ← arg (trim a1); last_ ← parse_word_index name v1 raw_args;
    words ← arg a2;
    Ok (join [32] (word_range first last_ (split_whitespace words)))
  | _ => Stuck
  end.

Definition join_of (name raw_args : list Z) : R (list Z) :=
  args ← arguments name raw_args 2 (Some 2);
  match args with
  | [a0; a1] =>
    xs ← arg a0; ys ← arg a1;
    Ok (unwords (map (@concat Z) (zip_longest (split_whitespace xs) (split_whitespace ys))))
  | _ => Stuck
  end.

Definition if_of (name raw_args : list Z) : R (list Z) :=
  args ← arguments name raw_args 2 (Some 3);
  match args with
  | a0 :: a1 :: rest =>
    condition ← arg a0;
    if eqb_list (trim condition) [] then arg (default [] (head rest)) else arg a1
  | _ => Stuck
  end.

(** The first nonempty value, or nothing; the first empty value, or the last. *)
Fixpoint first_nonempty (args : list (list Z)) : R (list Z) :=
  match args with
  | [] => Ok []
  | a :: args => v ← arg a; match v with [] => first_nonempty args | _ => Ok v end
  end.
Fixpoint all_nonempty (last_ : list Z) (args : list (list Z)) : R (list Z) :=
  match args with
  | [] => Ok last_
  | a :: args => v ← arg a; match v with [] => Ok [] | _ => all_nonempty v args end
  end.
Definition or_and_of (name raw_args : list Z) : R (list Z) :=
  args ← arguments name raw_args 1 None;
  if eqb_list name (rs "or") then first_nonempty args else all_nonempty [] args.

Definition unary_of (name raw_args : list Z) : R (list Z) :=
  args ← arguments name raw_args 1 (Some 1);
  match args with
  | [a0] =>
    expanded ← arg (trim a0);
    let words := split_whitespace expanded in
    if is_one_of name [rs "notdir"; rs "dir"; rs "basename"; rs "suffix"] then
      Ok (unwords (omap (transform name) words))
    else if eqb_list name (rs "sort") then Ok (join [32] (dedup_adjacent (sort_words words)))
    else if eqb_list name (rs "strip") then Ok (join [32] words)
    else found ← wildcard_of expanded false; Ok (join [32] found)
  | _ => Stuck
  end.

Definition count_of (name raw_args : list Z) : R (list Z) :=
  args ← arguments name raw_args 1 (Some 1);
  match args with
  | [a0] =>
    expanded ← arg a0;
    let words := split_whitespace expanded in
    Ok (if eqb_list name (rs "firstword") then default [] (head words)
        else if eqb_list name (rs "lastword") then default [] (last words)
        else show_dec (len words))
  | _ => Stuck
  end.

Definition value_of (name raw_args : list Z) : R (list Z) :=
  args ← arguments name raw_args 1 (Some 1);
  match args with
  | [a0] =>
    _ ← refuse (eqb_list (trim a0) [] || existsb is_whitespace (trim a0))
          (InvalidSyntax (bounded_preview raw_args) ValueName);
    resolve e chain loops (trim a0)
  | _ => Stuck
  end.

Definition numbered (values : list (list Z)) : bindings :=
  imap (fun i v => (show_dec (Z.of_nat i), v)) values.
Definition call_of (name raw_args : list Z) : R (list Z) :=
  args ← arguments name raw_args 1 None;
  match args with
  | a0 :: rest =>
    callee ← arg (trim a0);
    if eqb_list (trim callee) (rs "WILDCARD") then
      _ ← refuse (negb (len args =? 2)) (InvalidSyntax (bounded_preview raw_args) WildcardArity);
      match rest with
      | [a1] => patterns ← arg (trim a1); found ← wildcard_of patterns true; Ok (join [32] found)
      | _ => Stuck
      end
    else
      body ← resolve e chain loops (trim callee);
      values ← mapR arg rest;
      ev chain (loops ++ numbered (trim callee :: values)) body
  | _ => Stuck
  end.

Definition function_of (name raw_args : list Z) : R (list Z) :=
  if eqb_list name (rs "foreach") then foreach_of name raw_args
  else if is_one_of name [rs "addprefix"; rs "addsuffix"; rs "filter"; rs "filter-out"] then pairwise_of name raw_args
  else if eqb_list name (rs "patsubst") then patsubst_of name raw_args
  else if eqb_list name (rs "subst") then subst_of name raw_args
  else if eqb_list name (rs "findstring") then findstring_of name raw_args
  else if is_one_of name [rs "word"; rs "wordlist"] then word_of name raw_args
  else if eqb_list name (rs "join") then join_of name raw_args
  else if eqb_list name (rs "if") then if_of name raw_args
  else if is_one_of name [rs "or"; rs "and"] then or_and_of name raw_args
  else if is_one_of name [rs "notdir"; rs "dir"; rs "basename"; rs "suffix"; rs "sort"; rs "strip"; rs "wildcard"]
       then unary_of name raw_args
  else if is_one_of name [rs "firstword"; rs "lastword"; rs "words"] then count_of name raw_args
  else if eqb_list name (rs "value") then value_of name raw_args
  else if eqb_list name (rs "call") then call_of name raw_args
  else Err (UnsupportedFunction name).

(** A variable, unless it is already being expanded; then its substitution. *)
Definition variable_of (body : list Z) : R (list Z) :=
  '(raw_name, substitution) ← split_substitution_reference body;
  expanded_name ← arg raw_name;
  let name := trim expanded_name in
  _ ← refuse (eqb_list name [] || existsb is_whitespace name)
        (InvalidSyntax (bounded_preview body) (InvalidVariableName name));
  _ ← (match position (eqb_list name) chain with
       | Some at_ => Err (VariableCycle (drop (Z.to_nat at_) chain ++ [name]))
       | None => Ok tt
       end);
  raw_value ← resolve e chain loops name;
  expanded ← ev (chain ++ [name]) loops raw_value;
  match substitution with
  | None => Ok expanded
  | Some (raw_from, raw_to) =>
    from ← arg raw_from; to ← arg raw_to;
    Ok (substitute (trim from) (trim to) (split_whitespace expanded))
  end.

Definition reference_of (body : list Z) : R (list Z) :=
  let trimmed := trim_start body in
  _ ← refuse (eqb_list trimmed []) (InvalidSyntax (rs "$()") EmptyVariableName);
  match top_level is_ascii_whitespace 0 trimmed with
  | Some (name, args) => function_of name (trim_start args)
  | None => variable_of (trim_end trimmed)
  end.

Definition token_value (t : token) : R (list Z) :=
  match t with
  | Literal s => Ok s
  | Escaped => Ok [ESCAPED_DOLLAR]
  | Reference body => reference_of body
  | Malformed error => Err error
  end.
End functions.

(** The value of a text: the values of its tokens, one after the other. *)
Fixpoint value_at (depth : nat) (chain : list (list Z)) (loops : bindings) (raw : list Z) : R (list Z) :=
  match depth with
  | O => Err (ExpansionLimit (bounded_preview raw))
  | S depth => vs ← mapR (token_value (value_at depth) chain loops) (tokens (S (length raw)) raw); Ok (concat vs)
  end.
End reference.

(** Escaped dollars become dollars once nothing else is left to expand. *)
Definition finished (value : list Z) : R (list Z) :=
  _ ← reject_unsupported_references value;
  Ok (map (fun c => if c =? ESCAPED_DOLLAR then 36 else c) value).
Definition make_value `{Glob} (raw : list Z) (c : MakeExprContext) : R (list Z) :=
  e ← evaluator_new c;
  value ← value_at e MAX_EXPANSION_DEPTH [] [] raw;
  finished value.
