(* ===== verification/MakeRefine.v ===== *)
(** * MakeRefine: the bounded evaluator refines the reference semantics

    Each method of [MakeExpr] simulates its counterpart of [MakeSpec]: it
    returns the same value or error, unless a resource limit stops it first;
    it restores the chain and the loop variables, keeps every counter within
    its limit, and returns at most 4 MiB. *)

From stdpp Require Import gmap.
From S2P Require Import Prelude Text Ordered Publication StateRes MakeVars Dirs MakeExpr MakeSpec.

Definition is_limit (e : MakeExprError) : Prop := exists r n, e = ResourceLimit r n.

(** The evaluator's invariant: the stacks are those of the caller, and the
    counters within their limits. *)
Record inv (chain : list (list Z)) (loops : bindings) (s : EvalState) : Prop := mkInv
  { inv_chain : expansion_chain s = chain;
    inv_loops : loop_vars s = loops;
    inv_scanned : scanned s <= MAX_SCANNED_BYTES;
    inv_emitted : emitted s <= MAX_EMITTED_BYTES;
    inv_work : work s <= MAX_WORK_UNITS;
    inv_items : items s <= MAX_LIST_ITEMS }.

Definition bounded (v : list Z) : Prop := str_len v <= MAX_VALUE_BYTES.

Lemma limit_is_limit r n : is_limit (ResourceLimit r n).
Proof. by eexists _, _. Qed.
#[export] Hint Resolve limit_is_limit : aros.

Section primitives.
Context (chain : list (list Z)) (loops : bindings).
Abbreviation I := (inv chain loops).
Abbreviation sims Q m p := (sim is_limit I Q m p).

Lemma charge_silent get set limit r n :
  (forall m s, I s -> m <= limit -> I (set m s)) -> silent is_limit I (charge get set limit r n).
Proof.
  intros Hset s Hs. unfold charge. destruct (checked_add _ _ _) as [m|]; [|by eauto with aros].
  destruct (limit <? m) eqn:Hlt; [by eauto with aros|]. bool_prop. by apply Hset.
Qed.
Lemma charge_scanned_silent n : silent is_limit I (charge_scanned n).
Proof. apply charge_silent. intros m s [] Hm. by split. Qed.
Lemma charge_emitted_silent n : silent is_limit I (charge_emitted n).
Proof. apply charge_silent. intros m s [] Hm. by split. Qed.
Lemma charge_work_silent n : silent is_limit I (charge_work n).
Proof. apply charge_silent. intros m s [] Hm. by split. Qed.
Lemma charge_items_silent n : silent is_limit I (charge_items n).
Proof. apply charge_silent. intros m s [] Hm. by split. Qed.

Lemma sim_within {A B} (Q : B -> Prop) (o : option A) err f q :
  is_limit err -> (forall a, o = Some a -> sims Q (f a) q) -> sims Q (within o err ≫= f) q.
Proof.
  intros He Hf. unfold within. destruct o as [a|]; cbn [ok_or]; [by apply sim_lift_ok, Hf|].
  intros s Hs. left. done.
Qed.

Lemma sim_check {B} (Q : B -> Prop) n (f : unit -> Ev B) q :
  (n <= MAX_VALUE_BYTES -> sims Q (f tt) q) -> sims Q (check_value_size n ≫= f) q.
Proof.
  intros Hf. unfold check_value_size, refuse. destruct (MAX_VALUE_BYTES <? n) eqn:Hlt; bool_prop.
  - intros s Hs. left. unfold value_limit. eauto with aros.
  - apply sim_lift_ok. auto.
Qed.
End primitives.

(** [quiet]: step over the accounting of a method. *)
Ltac quiet_step :=
  first [apply sim_silent; [first [apply charge_scanned_silent|apply charge_emitted_silent|apply charge_work_silent
                                  |apply charge_items_silent]|]
        |apply sim_within; [by eexists _, _|intros ? ?]
        |apply sim_check; intros ?].
Ltac quiet := repeat quiet_step.

Lemma bounded_nil : bounded [].
Proof. done. Qed.
#[export] Hint Resolve bounded_nil : aros.

Lemma str_len_zero s : str_len s = 0 -> s = [].
Proof. destruct s as [|c s]; [done|]. rewrite str_len_cons. pose proof (utf8_char_len c). pose proof (str_len_nonneg s). lia. Qed.

Lemma str_len_concat ws : str_len (concat ws) = foldr (fun w n => str_len w + n) 0 ws.
Proof. induction ws as [|w ws IH]; cbn; [done|]. by rewrite str_len_app, IH. Qed.

Lemma add_all_Some init ns n : add_all init ns = Some n -> n = init + foldr Z.add 0 ns.
Proof.
  unfold add_all. revert init n. induction ns as [|x ns IH]; intros init n; cbn; [intros [= ->]; lia|].
  destruct (checked_add usize_max init x) as [m|] eqn:Hm.
  - intros Hn%IH. apply checked_add_Some in Hm as [-> _]. lia.
  - clear. intros Hn. exfalso. revert Hn. induction ns; cbn; auto; discriminate.
Qed.

Lemma add_all_pieces pieces n : add_all 0 (map str_len pieces) = Some n -> n = str_len (concat pieces).
Proof.
  intros ->%add_all_Some. rewrite str_len_concat, Z.add_0_l. induction pieces as [|w ws IH]; cbn; [done|]. by rewrite IH.
Qed.

(** ** Building a list of words *)
Definition add_word (out w : list Z) : list Z :=
  if eqb_list w [] then out else out ++ (if eqb_list out [] then [] else [32]) ++ w.

Lemma unwords_cons w ws : unwords (w :: ws) =
  if eqb_list w [] then unwords ws else if eqb_list (unwords ws) [] then w else w ++ [32] ++ unwords ws.
Proof.
  unfold unwords. cbn [List.filter]. destruct (eqb_list w []) eqn:Hw; cbn; [done|].
  destruct (List.filter _ ws) as [|v vs] eqn:Hf; cbn; [done|].
  assert (v <> []) as Hv.
  { intros ->. assert (In [] (List.filter (fun w => negb (eqb_list w [])) ws)) as Hin by (rewrite Hf; by left).
    apply filter_In in Hin as [_ ?]. done. }
  destruct vs as [|u vs]; cbn; unfold eqb_list; case_bool_decide; try done. by destruct v.
Qed.

Lemma add_word_unwords out ws : foldl add_word out ws =
  if eqb_list out [] then unwords ws else if eqb_list (unwords ws) [] then out else out ++ [32] ++ unwords ws.
Proof.
  revert out. induction ws as [|w ws IH]; intros out; cbn [foldl].
  - unfold unwords. cbn. by repeat case_match; bool_prop; try apply eqb_list_true in H; subst.
  - rewrite IH, unwords_cons. unfold add_word, eqb_list.
    repeat (case_bool_decide; subst; cbn; try done); rewrite ?app_nil_r, <- ?app_assoc in *; cbn in *;
      try (by destruct w); try (by destruct out); try done.
Qed.

Lemma foldl_add_word ws : foldl add_word [] ws = unwords ws.
Proof. by rewrite add_word_unwords. Qed.

Lemma res_bind_ret {E A} (c : res E A) : (c ≫= fun a => Ok a) = c.
Proof. by destruct c. Qed.

Lemma foldM_snoc {E A} (l acc : list A) : foldM (fun ws w => Ok (E := E) (ws ++ [w])) acc l = Ok (acc ++ l).
Proof.
  revert acc. induction l as [|w l IH]; intros acc; cbn; [by rewrite app_nil_r|]. by rewrite IH, <- app_assoc.
Qed.

Section words.
Context (chain : list (list Z)) (loops : bindings).
Abbreviation sims Q m p := (sim is_limit (inv chain loops) Q m p).

Lemma append_output_sim out piece : sims bounded (append_output out piece) (Ok (out ++ piece)).
Proof.
  unfold append_output. quiet. apply sim_ret. unfold bounded. rewrite str_len_app.
  match goal with H : checked_add _ _ _ = Some _ |- _ => apply checked_add_Some in H as [-> _] end. done.
Qed.

Lemma append_char_sim out c : sims bounded (append_char out c) (Ok (out ++ [c])).
Proof.
  unfold append_char. quiet. apply sim_ret. unfold bounded. rewrite str_len_app, str_len_cons, str_len_nil.
  match goal with H : checked_add _ _ _ = Some _ |- _ => apply checked_add_Some in H as [-> _] end. lia.
Qed.

Lemma append_word_sim out pieces : bounded out ->
  sims bounded (append_word out pieces) (Ok (add_word out (concat pieces))).
Proof.
  intros Hout. unfold append_word. quiet_step.
  match goal with H : add_all _ _ = Some _ |- _ => apply add_all_pieces in H as -> end.
  quiet. unfold add_word. destruct (str_len (concat pieces) =? 0) eqn:Hz; bool_prop.
  - apply str_len_zero in Hz as ->. by apply sim_ret.
  - replace (eqb_list (concat pieces) []) with false
      by (symmetry; unfold eqb_list; apply bool_decide_eq_false; intros Hc; by rewrite Hc in Hz).
    quiet. apply sim_ret. unfold bounded. rewrite !str_len_app.
    match goal with H : mbind _ _ = Some _ |- _ => apply bind_Some in H as (? & [-> _]%checked_add_Some & [-> _]%checked_add_Some) end.
    destruct (eqb_list out []); cbn in *; rewrite ?str_len_nil in *; [lia|]. change (str_len [32]) with 1. lia.
Qed.

(** A loop that appends one word (or none) per element. *)
Lemma word_loop_sim {A} (f : list Z -> A -> Ev (list Z)) (g : A -> list Z) l :
  (forall out x, x ∈ l -> bounded out -> sims bounded (f out x) (Ok (add_word out (g x)))) ->
  sims bounded (forM f [] l) (Ok (unwords (map g l))).
Proof.
  intros Hf. eapply sim_eq; [apply (sim_forM _ _ bounded f (fun out x => Ok (add_word out (g x)))); [done|auto]|].
  rewrite <- foldl_add_word. generalize (@nil Z). clear. induction l as [|x l IH]; intros out; cbn; [done|apply IH].
Qed.

Lemma make_words_sim raw : sims (fun _ => True) (make_words raw) (Ok (split_whitespace raw)).
Proof.
  unfold make_words. quiet. eapply sim_eq.
  - apply (sim_forM _ _ (fun _ => True) _ (fun ws w => Ok (ws ++ [w]))); [done|]. intros ws w _ _. quiet. by apply sim_ret.
  - apply foldM_snoc.
Qed.

Lemma str_len_join ws : str_len (join [32] ws) = foldr Z.add 0 (map str_len ws) + Z.max 0 (len ws - 1).
Proof.
  induction ws as [|w ws IH]; [done|]. rewrite len_cons. destruct ws as [|v ws]; [cbn [join map foldr]; change (len (@nil (list Z))) with 0; lia|].
  change (join [32] (w :: v :: ws)) with (w ++ [32] ++ join [32] (v :: ws)).
  rewrite !str_len_app, IH. change (str_len [32]) with 1. cbn [map foldr]. rewrite len_cons. pose proof (len_nonneg ws). lia.
Qed.

Lemma join_words_sim ws : sims bounded (join_words ws) (Ok (join [32] ws)).
Proof.
  unfold join_words. quiet_step. quiet. apply sim_ret. unfold bounded. rewrite str_len_join.
  repeat match goal with H : checked_add _ _ _ = Some _ |- _ => apply checked_add_Some in H as [-> _] end.
  match goal with H : add_all _ _ = Some _ |- _ => apply add_all_Some in H as -> end. lia.
Qed.

Lemma arguments_sim name raw lo hi :
  sims (fun _ => True) (function_arguments_between name raw lo hi) (arguments name raw lo hi).
Proof.
  unfold function_arguments_between, arguments. quiet. apply sim_pure. intros args _. apply sim_pure. intros _ _.
  quiet. by apply sim_ret.
Qed.

Lemma charge_match_silent p w : silent is_limit (inv chain loops) (charge_match p w).
Proof. apply silent_bind; [apply charge_scanned_silent|apply charge_work_silent]. Qed.

Lemma arguments_len name raw lo hi args : arguments name raw lo hi = Ok args ->
  lo <= len args /\ (forall h, hi = Some h -> len args <= h).
Proof.
  unfold arguments. intros Ha. inv_guards. split; [done|]. intros h ->. by bool_prop.
Qed.

Lemma any_match_sim patterns w : sims (fun _ => True) (any_match patterns w) (Ok (matches_any patterns w)).
Proof.
  unfold matches_any. induction patterns as [|p ps IH]; cbn; [by apply sim_ret|].
  apply sim_silent; [apply charge_match_silent|]. case_bool_decide; [by apply sim_ret|exact IH].
Qed.
End words.

(** ** List functions *)
Section lists.
Context (chain : list (list Z)) (loops : bindings).
Abbreviation sims Q m p := (sim is_limit (inv chain loops) Q m p).

Lemma unwords_filter (f : list Z -> bool) ws :
  unwords (map (fun w => if f w then w else []) ws) = unwords (List.filter f ws).
Proof.
  induction ws as [|w ws IH]; [done|]. cbn [map List.filter]. destruct (f w); rewrite !unwords_cons, IH; done.
Qed.

Lemma add_word_nil out : add_word out [] = out.
Proof. done. Qed.

Lemma filter_words_sim patterns ws keep : sims bounded (filter_words patterns ws keep)
  (Ok (unwords (List.filter (fun w => Bool.eqb (matches_any patterns w) keep) ws))).
Proof.
  unfold filter_words. quiet. rewrite <- unwords_filter. apply word_loop_sim. intros out w _ Hout.
  eapply sim_bind_ok; [apply any_match_sim|]. intros _. destruct (Bool.eqb _ keep).
  - eapply sim_eq; [by apply append_word_sim|]. cbn. by rewrite app_nil_r.
  - by apply sim_ret.
Qed.

Lemma patsubst_words_sim pattern replacement ws : sims bounded (patsubst_words pattern replacement ws)
  (Ok (unwords (map (patsubst_word pattern replacement) ws))).
Proof.
  unfold patsubst_words. apply word_loop_sim. intros out w _ Hout.
  apply sim_silent; [apply charge_match_silent|]. unfold patsubst_word.
  repeat case_match; (eapply sim_eq; [by apply append_word_sim|]); cbn; by rewrite ?app_nil_r.
Qed.

Lemma suffix_substitute_sim ws from to : sims bounded (suffix_substitute_words ws from to)
  (Ok (unwords (map (replace_suffix from to) ws))).
Proof.
  unfold suffix_substitute_words. apply word_loop_sim. intros out w _ Hout.
  apply sim_silent; [apply charge_match_silent|]. unfold replace_suffix.
  case_match; (eapply sim_eq; [by apply append_word_sim|]); cbn; by rewrite ?app_nil_r.
Qed.

Lemma charge_sort_silent ws : silent is_limit (inv chain loops) (charge_sort ws).
Proof.
  intros s Hs. unfold charge_sort, within, lift, mbind, SR_bind.
  destruct (checked_mul _ (len ws) _) as [n|]; cbn -[charge_work]; [|by eexists _, _].
  destruct (checked_mul _ n _) as [m|]; cbn -[charge_work]; [|by eexists _, _]. by apply charge_work_silent.
Qed.

(** Steps of a filesystem walk. *)
Context `{Glob} (e : Env).

Lemma one_match_sim original absolute regular backing st result :
  sims (fun _ => True) (one_match e original absolute regular backing st result)
    (found ← match_of e original absolute regular backing result;
     Ok (st.1 ++ found, st.2 + str_len (concat found))).
Proof.
  destruct st as [acc bytes]. unfold one_match, match_of. destruct result as [error|path]; cbn [fst snd]; [apply sim_lift_err|].
  apply sim_lift_ok. quiet. destruct (regular && negb (is_file path)).
  - eapply sim_eq; [by apply sim_ret|]. cbn. by rewrite app_nil_r, Z.add_0_r.
  - rewrite res_bind_assoc. apply sim_pure. intros shown _. quiet. eapply sim_eq; [by apply sim_ret|]. cbn.
    match goal with H : checked_add _ _ _ = Some _ |- _ => apply checked_add_Some in H as [-> _] end.
    by rewrite app_nil_r.
Qed.

Lemma matches_fold original absolute regular backing paths : forall acc bytes,
  foldM (fun st result => found ← match_of e original absolute regular backing result;
     Ok (st.1 ++ found, st.2 + str_len (concat found))) (acc, bytes) paths =
  (found ← mapR (match_of e original absolute regular backing) paths;
   Ok (acc ++ concat found, bytes + str_len (concat (concat found)))).
Proof.
  induction paths as [|p ps IH]; intros acc bytes; cbn; [by rewrite app_nil_r, Z.add_0_r|].
  destruct (match_of e _ _ _ _ p) as [found|err|]; cbn; [|done..]. rewrite IH.
  destruct (mapR _ ps) as [rest|err|]; cbn; [|done..].
  by rewrite concat_app, str_len_app, <- app_assoc, Z.add_assoc.
Qed.

(** The size of the list after one more pattern. *)
Definition grown (output : list (list Z)) (bytes : Z) (found : list (list Z)) : Z :=
  bytes + str_len (concat found) +
  saturating_add (Z.max 0 (len found - 1)) (Z.b2z (negb (bool_decide (output = [])) && negb (bool_decide (found = [])))).

Lemma one_pattern_sim regular root_text st original :
  sims (fun _ => True) (one_pattern e regular (pattern_escape root_text) (pattern_escape (source_text e)) st original)
    (found ← found_by e regular root_text original; Ok (st.1 ++ sort_words found, grown st.1 st.2 found)).
Proof.
  destruct st as [output bytes]. unfold one_pattern, found_by. cbn [fst snd]. quiet.
  rewrite res_bind_assoc. apply sim_pure. intros [[mat gl] backing] _. cbv beta iota.
  rewrite res_bind_assoc. apply sim_pure. intros _ _. rewrite res_bind_assoc. apply sim_pure. intros paths _.
  rewrite res_bind_assoc.
  assert (forall k : list (list (list Z)) -> R (list (list Z) * Z),
    (found ← mapR (match_of e original (is_absolute mat) regular backing) paths; k found) =
    ('(m, b) ← foldM (fun st result => found ← match_of e original (is_absolute mat) regular backing result;
       Ok (st.1 ++ found, st.2 + str_len (concat found))) ([], 0) paths;
     found ← mapR (match_of e original (is_absolute mat) regular backing) paths; k found)) as Hk.
  { intros k. rewrite matches_fold. by destruct (mapR _ paths). }
  rewrite Hk. eapply sim_bind; [apply (sim_forM _ _ (fun _ => True)); [done|intros; apply one_match_sim]|].
  rewrite matches_fold. intros [found pb] Hm _. destruct (mapR _ paths) as [l|err|]; cbn in Hm; try done.
  injection Hm as <- <-. cbn [mbind res_bind]. quiet. apply sim_silent; [apply charge_sort_silent|].
  rewrite res_bind_assoc. apply sim_pure. intros _ _. eapply sim_eq; [by apply sim_ret|].
  match goal with H : mbind _ _ = Some _ |- _ => apply bind_Some in H as (? & [-> _]%checked_add_Some & [-> _]%checked_add_Some) end.
  done.
Qed.

Lemma patterns_fold regular root_text ps : forall acc bytes,
  ('(output, _) ← foldM (fun st original => found ← found_by e regular root_text original;
     Ok (st.1 ++ sort_words found, grown st.1 st.2 found)) (acc, bytes) ps; Ok output) =
  (found ← mapR (fun p => words ← found_by e regular root_text p; Ok (sort_words words)) ps; Ok (acc ++ concat found)).
Proof.
  induction ps as [|p ps IH]; intros acc bytes; cbn; [by rewrite app_nil_r|].
  destruct (found_by e regular root_text p) as [found|err|]; cbn; [|done..]. rewrite IH.
  destruct (mapR _ ps); cbn; [|done..]. by rewrite <- app_assoc.
Qed.

Lemma wildcard_sim patterns regular : sims (fun _ => True) (wildcard e patterns regular) (wildcard_of e patterns regular).
Proof.
  unfold wildcard, wildcard_of. apply sim_pure. intros _ _. quiet. apply sim_pure. intros _ _.
  eapply sim_bind_ok; [apply make_words_sim|]. intros _. apply sim_pure. intros root_text _.
  eapply sim_eq; [|apply (patterns_fold regular root_text (split_whitespace patterns) [] 0)].
  eapply sim_bind; [apply (sim_forM _ _ (fun _ => True)); [done|intros; apply one_pattern_sim]|].
  intros [output b] _ _. by apply sim_ret.
Qed.
End lists.

(** ** Sizes and ranges *)
Lemma split_str_len from : from <> [] -> forall s skip, exists w ws, split_str from skip s = w :: ws /\
  str_len (drop skip s) = foldr (fun w n => str_len w + n) 0 (w :: ws) + len ws * str_len from.
Proof.
  intros Hf. induction s as [|c s IH]; intros skip; cbn [split_str].
  { exists [], []. by rewrite drop_nil. }
  destruct skip as [|skip]; [|destruct (IH skip) as (w & ws & -> & Hlen); exists w, ws; done].
  destruct (starts_with (c :: s) from) eqn:Hs.
  - destruct (IH (length from - 1)%nat) as (w & ws & -> & Hlen). exists [], (w :: ws). split; [done|].
    apply starts_with_true in Hs as [r Hr]. destruct from as [|f from]; [done|]. injection Hr as <- ->.
    cbn [length] in Hlen. rewrite Nat.sub_succ, Nat.sub_0_r, drop_app_length in Hlen.
    rewrite drop_0, len_cons. cbn [foldr] in *. rewrite str_len_nil, str_len_cons, str_len_app, Hlen, str_len_cons. lia.
  - destruct (IH O) as (w & ws & -> & Hlen). exists (c :: w), ws. split; [done|].
    rewrite drop_0 in *. cbn [foldr] in *. rewrite !str_len_cons, Hlen. lia.
Qed.

Lemma str_len_join_any sep w ws : str_len (join sep (w :: ws)) =
  foldr (fun w n => str_len w + n) 0 (w :: ws) + len ws * str_len sep.
Proof.
  revert w. induction ws as [|v ws IH]; intros w; [cbn [join foldr]; change (len (@nil (list Z))) with 0; lia|].
  change (join sep (w :: v :: ws)) with (w ++ sep ++ join sep (v :: ws)).
  rewrite !str_len_app, IH, len_cons. cbn [foldr]. lia.
Qed.

Lemma str_len_replace from to text : from <> [] ->
  str_len (replace_str from to text) = str_len text - match_count from text * str_len from + match_count from text * str_len to.
Proof.
  intros Hf. unfold replace_str, match_count. destruct (split_str_len from Hf text O) as (w & ws & -> & Hlen).
  rewrite str_len_join_any, len_cons. rewrite drop_0 in Hlen. lia.
Qed.

Lemma word_range_eq name v raw first last_ ws : parse_word_index name v raw = Ok first ->
  join [32] (word_range first last_ ws) =
  if (first =? 0) || (last_ <? first) || (len ws <? first) then []
  else join [32] (take (Z.to_nat (Z.min last_ (len ws) - (first - 1))) (drop (Z.to_nat (first - 1)) ws)).
Proof.
  unfold parse_word_index. intros (i & Hi & Hpos)%ok_or_Ok%bind_Some.
  assert (0 < first) by (destruct (0 <? i) eqn:E; bool_prop; by simplify_eq). unfold word_range, len.
  rewrite (proj2 (Z.eqb_neq first 0)) by lia. cbn [orb].
  destruct (last_ <? first) eqn:Hl; bool_prop; cbn [orb].
  { replace (Z.to_nat (last_ - first + 1)) with O by lia. by rewrite take_0. }
  destruct (Z.of_nat (length ws) <? first) eqn:Hw; bool_prop; [rewrite drop_ge by lia; by rewrite take_nil|].
  f_equal. destruct (Z.min_spec last_ (Z.of_nat (length ws))) as [ [? ->]|[? ->] ].
  - f_equal. lia.
  - rewrite !firstn_all2; [done|rewrite length_drop; lia..].
Qed.

Lemma words_count v : len (split_whitespace v) <= str_len v.
Proof.
  pose proof (split_on_len is_whitespace v) as Hl. unfold split_whitespace.
  assert (forall ws, len (List.filter (fun w => negb (eqb_list w [])) ws) <= foldr (fun w n => str_len w + n) 0 ws) as Hf;
    [|specialize (Hf (split_on is_whitespace v)); lia].
  clear. induction ws as [|w ws IH]; [done|]. cbn [List.filter foldr]. pose proof (str_len_nonneg w).
  unfold eqb_list at 1. case_bool_decide as Hw; cbn [negb]; [lia|]. rewrite len_cons.
  destruct (Z.eq_dec (str_len w) 0) as [Hz%str_len_zero|]; [done|lia].
Qed.

Lemma bounded_word v o : bounded v -> (forall w, o = Some w -> w ∈ split_whitespace v) -> bounded (default [] o).
Proof.
  intros Hv Ho. destruct o as [w|]; cbn; [|done]. destruct (split_whitespace_word v w (Ho w eq_refl)) as (_ & Hw & _).
  unfold bounded in *. lia.
Qed.

Lemma bounded_count v : bounded v -> bounded (show_dec (len (split_whitespace v))).
Proof.
  intros Hv. pose proof (words_count v). pose proof (len_nonneg (split_whitespace v)). unfold bounded in *.
  rewrite str_len_ascii.
  - pose proof (show_dec_len (len (split_whitespace v)) 7 ltac:(lia)) as Hs. unfold MAX_VALUE_BYTES in *.
    change (Z.of_nat 7) with 7 in Hs. lia.
  - eapply Forall_impl; [by apply show_dec_digit|]. intros c Hc. unfold is_ascii_digit in Hc.
    apply in_range_true in Hc. unfold is_ascii. lia.
Qed.

Lemma unwords_omap (f : list Z -> option (list Z)) ws :
  unwords (map (fun w => default [] (f w)) ws) = unwords (omap f ws).
Proof.
  induction ws as [|w ws IH]; [done|]. cbn [map]. rewrite unwords_cons, IH.
  change (omap f (w :: ws)) with (match f w with Some v => v :: omap f ws | None => omap f ws end).
  destruct (f w) as [v|]; [by rewrite unwords_cons|done].
Qed.

(** ** Functions of the vocabulary *)
Section functions.
Context `{Glob} (e : Env).
Context (ev : list Z -> Ev (list Z)) (evr : list (list Z) -> bindings -> list Z -> R (list Z)).
Context (Hev : forall chain loops text, sim is_limit (inv chain loops) bounded (ev text) (evr chain loops text)).
Context (chain : list (list Z)) (loops : bindings).
Abbreviation sims Q m p := (sim is_limit (inv chain loops) Q m p).

Lemma resolve_sim name : sims (fun _ => True) (resolve_variable e name) (resolve e chain loops name).
Proof.
  intros s Hs. unfold resolve_variable. pose proof Hs as [Hc Hl _ _ _ _]. rewrite Hc, Hl.
  destruct (resolve e chain loops name); auto.
Qed.

(** A nested expansion under more loop bindings. *)
Lemma under_loops bs text :
  sims bounded (bracket (push_loops bs) (pop_loops (length bs)) (ev text)) (evr chain (loops ++ bs) text).
Proof.
  apply (sim_bracket _ _ (inv chain (loops ++ bs))); [| |apply Hev].
  - intros s [Hc Hl]. split; cbn; try done. by rewrite Hl.
  - intros s [Hc Hl]. split; cbn; try done. rewrite Hl, length_app. apply take_app_length'. lia.
Qed.

Lemma under_variable name text :
  sims bounded (bracket (push_chain name) pop_chain (ev text)) (evr (chain ++ [name]) loops text).
Proof.
  apply (sim_bracket _ _ (inv (chain ++ [name]) loops)); [| |apply Hev].
  - intros s [Hc Hl]. split; cbn; try done. by rewrite Hc.
  - intros s [Hc Hl]. split; cbn; try done. by rewrite Hc, removelast_last.
Qed.

(** [by_args]: the arguments of a function, as many as it expects. *)
Ltac by_args args := eapply sim_bind; [apply arguments_sim|]; intros args _ _.
Ltac expands v H := eapply sim_bind; [apply Hev|]; intros v _ H.
Ltac words := eapply sim_bind_ok; [apply make_words_sim|]; intros _.
Ltac arity args := repeat (destruct args as [|? args]; try (by apply sim_lift)).

(** The foreach loop: a space before every expansion but the first. *)
Definition add_item (st : list Z * Z) (v : list Z) : list Z * Z :=
  ((if negb (st.2 =? 0) then st.1 ++ [32] else st.1) ++ v, st.2 + 1).

Lemma join_cons v vs : join [32] (v :: vs) = v ++ concat (map (cons 32) vs).
Proof.
  revert v. induction vs as [|u vs IH]; intros v; [cbn; by rewrite app_nil_r|].
  change (join [32] (v :: u :: vs)) with (v ++ [32] ++ join [32] (u :: vs)). by rewrite IH.
Qed.

Lemma add_item_join vs : fst (foldl add_item ([], 0) vs) = join [32] vs.
Proof.
  assert (forall vs st, 0 < st.2 -> fst (foldl add_item st vs) = st.1 ++ concat (map (cons 32) vs)) as Hpos.
  { induction vs0 as [|v vs0 IH]; intros [out n] Hn; cbn [foldl]; [cbn; by rewrite app_nil_r|].
    cbn [snd] in Hn. rewrite IH by (cbn; lia). unfold add_item. cbn [fst snd map concat].
    rewrite (proj2 (Z.eqb_neq n 0)) by lia. cbn. by rewrite <- !app_assoc. }
  destruct vs as [|v vs]; [done|]. rewrite join_cons. cbn [foldl]. by rewrite Hpos.
Qed.

Lemma foldM_mapR {A B S E} (f : A -> res E B) (g : S -> B -> S) l : forall s,
  foldM (fun s x => v ← f x; Ok (g s v)) s l = (vs ← mapR f l; Ok (foldl g s vs)).
Proof.
  induction l as [|x l IH]; intros s; cbn; [done|]. destruct (f x); cbn; [|done..]. rewrite IH. by destruct (mapR f l).
Qed.

Lemma fn_foreach_sim name raw : sims bounded (fn_foreach ev name raw) (foreach_of evr chain loops name raw).
Proof.
  unfold fn_foreach, foreach_of. by_args args. arity args.
  expands variable Hvar. apply sim_pure. intros _ _. expands list_ Hlist. words.
  eapply sim_eq; [eapply (sim_bind _ _ (fun x => bounded x.1) _ _
      (foldM (fun st word => v ← evr chain (loops ++ [(trim variable, word)]) l1; Ok (add_item st v)) ([], 0) (split_whitespace list_))
      _ (fun st => Ok st.1))|].
  - apply sim_forM; [done|]. intros [out index] w _ Hout. cbn [fst] in Hout. quiet.
    eapply sim_bind; [apply (under_loops [(trim variable, w)])|]. intros v _ Hv. unfold add_item. cbn [fst snd].
    destruct (negb (index =? 0)).
    + eapply sim_bind_ok; [apply append_char_sim|]. intros _. eapply sim_bind_ok; [apply append_output_sim|]. intros Hb.
      by apply sim_ret.
    + apply sim_lift_ok. eapply sim_bind_ok; [apply append_output_sim|]. intros Hb. by apply sim_ret.
  - intros [out index] _ Hb. by apply sim_ret.
  - rewrite foldM_mapR. destruct (mapR _ _) as [vs|err|]; cbn; [|done..]. by rewrite add_item_join.
Qed.

Lemma fn_pairwise_sim name raw :
  is_one_of name [rs "addprefix"; rs "addsuffix"; rs "filter"; rs "filter-out"] = true ->
  sims bounded (fn_pairwise ev name raw) (pairwise_of evr chain loops name raw).
Proof.
  intros Hname. unfold fn_pairwise, pairwise_of. by_args args. arity args.
  expands fst_ Hfst. expands ws Hws. words. destruct (eqb_list name (rs "addprefix")) eqn:H1; cbn [orb].
  - apply word_loop_sim. intros out w _ Hout. eapply sim_eq; [by apply append_word_sim|]. cbn. by rewrite app_nil_r.
  - destruct (eqb_list name (rs "addsuffix")) eqn:H2; cbn [orb].
    + apply word_loop_sim. intros out w _ Hout. eapply sim_eq; [by apply append_word_sim|]. cbn. by rewrite app_nil_r.
    + words. apply filter_words_sim.
Qed.

Lemma fn_patsubst_sim name raw : sims bounded (fn_patsubst ev name raw) (patsubst_of evr chain loops name raw).
Proof.
  unfold fn_patsubst, patsubst_of. by_args args. arity args.
  expands p Hp. expands r Hr. expands ws Hws. words. apply patsubst_words_sim.
Qed.

Lemma fn_findstring_sim name raw : sims bounded (fn_findstring ev name raw) (findstring_of evr chain loops name raw).
Proof.
  unfold fn_findstring, findstring_of. by_args args. arity args.
  expands needle Hn. expands hay Hh. quiet. apply sim_ret. by case_match.
Qed.

Lemma fn_join_sim name raw : sims bounded (fn_join ev name raw) (join_of evr chain loops name raw).
Proof.
  unfold fn_join, join_of. by_args args. arity args. expands xs Hx. words. expands ys Hy. words.
  apply word_loop_sim. intros out ws _ Hout. by apply append_word_sim.
Qed.

Lemma fn_if_sim name raw : sims bounded (fn_if ev name raw) (if_of evr chain loops name raw).
Proof.
  unfold fn_if, if_of. by_args args. destruct args as [|a0 [|a1 rest] ]; try (by apply sim_lift).
  expands c Hc. case_match; apply Hev.
Qed.

Lemma or_and_sim (is_or : bool) args : forall last_, bounded last_ ->
  sims bounded (or_and ev is_or last_ args)
    (if is_or then first_nonempty evr chain loops args else all_nonempty evr chain loops last_ args).
Proof.
  induction args as [|a args IH]; intros last_ Hl; cbn [or_and first_nonempty all_nonempty].
  - destruct is_or; by apply sim_ret.
  - destruct is_or; (expands v Hv); destruct v as [|c v]; cbn [eqb_list Bool.eqb negb];
      first [by apply sim_ret|by apply IH].
Qed.

Lemma fn_or_and_sim name raw : sims bounded (fn_or_and ev name raw) (or_and_of evr chain loops name raw).
Proof. unfold fn_or_and, or_and_of. by_args args. by apply or_and_sim. Qed.

Lemma fn_value_sim name raw : sims bounded (fn_value e name raw) (value_of e chain loops name raw).
Proof.
  unfold fn_value, value_of. by_args args. arity args. apply sim_pure. intros _ _.
  rewrite <- (res_bind_ret (resolve e chain loops (trim l))).
  eapply sim_bind; [apply resolve_sim|]. intros v _ _. quiet. by apply sim_ret.
Qed.

Lemma fn_subst_sim name raw : sims bounded (fn_subst ev name raw) (subst_of evr chain loops name raw).
Proof.
  unfold fn_subst, subst_of. by_args args. arity args. expands from Hf. apply sim_pure. intros [] Hne%refuse_Ok.
  assert (from <> []) by (intros E; by rewrite E in Hne).
  expands to Ht. expands text Hx. quiet. apply sim_ret. unfold bounded. rewrite str_len_replace by done.
  repeat match goal with
  | H : checked_mul _ _ _ = Some _ |- _ => apply checked_mul_Some in H as [-> _]
  | H : mbind _ _ = Some _ |- _ => apply bind_Some in H as (? & [-> _]%checked_sub_Some & [-> _]%checked_add_Some)
  end. lia.
Qed.

Lemma fn_word_sim name raw : sims bounded (fn_word ev name raw) (word_of evr chain loops name raw).
Proof.
  unfold fn_word, word_of.
  assert (forall v first last_ text, parse_word_index name v raw = Ok first ->
    sims bounded (expanded_words ← ev text; words ← make_words expanded_words;
      if (first =? 0) || (last_ <? first) || (len words <? first) then mret []
      else join_words (take (Z.to_nat (Z.min last_ (len words) - (first - 1))) (drop (Z.to_nat (first - 1)) words)))
      (words ← evr chain loops text; Ok (join [32] (word_range first last_ (split_whitespace words))))) as Hrange.
  { intros v first last_ text Hi. expands ws Hws. words. rewrite (word_range_eq name v raw) by done.
    case_match; [by apply sim_ret|apply join_words_sim]. }
  destruct (eqb_list name (rs "word")); (eapply sim_bind; [apply arguments_sim|]); intros args Hargs _;
    apply arguments_len in Hargs as [Hlo Hhi]; specialize (Hhi _ eq_refl); unfold len in Hlo, Hhi;
    destruct args as [|a0 [|a1 [|a2 [|a3 args] ] ] ]; cbn in Hlo, Hhi; try lia;
    (expands v Hv; apply sim_pure; intros first_ Hfirst).
  - apply (sim_lift_ok _ _ _ (first_, a1)). by eapply Hrange.
  - apply sim_assoc. expands v1 Hv1. apply sim_assoc, sim_pure. intros last_ _.
    apply (sim_lift_ok _ _ _ (last_, a2)). by eapply Hrange.
Qed.

Lemma fn_unary_sim name raw :
  sims bounded (fn_unary e ev name raw) (unary_of e evr chain loops name raw).
Proof.
  unfold fn_unary, unary_of, is_one_of. by_args args. arity args. expands v Hv. case_bool_decide.
  - words. rewrite <- unwords_omap. apply word_loop_sim. intros out w _ Hout. quiet.
    destruct (transform name w); cbn; [|by apply sim_ret].
    eapply sim_eq; [by apply append_word_sim|]. cbn. by rewrite app_nil_r.
  - destruct (eqb_list name (rs "sort")).
    + words. apply sim_silent; [apply charge_sort_silent|]. apply join_words_sim.
    + destruct (eqb_list name (rs "strip")); [words; apply join_words_sim|].
      eapply sim_bind; [apply wildcard_sim|]. intros found _ _. apply join_words_sim.
Qed.

Lemma fn_count_sim name raw : sims bounded (fn_count ev name raw) (count_of evr chain loops name raw).
Proof.
  unfold fn_count, count_of. by_args args. arity args. expands v Hv. words. apply sim_ret.
  destruct (eqb_list name (rs "firstword")); [|destruct (eqb_list name (rs "lastword"))].
  - apply (bounded_word v); [done|]. intros w Hw. destruct (split_whitespace v); [done|]. cbn in Hw. simplify_eq. left.
  - apply (bounded_word v); [done|]. intros w Hw. by apply last_Some_elem_of.
  - by apply bounded_count.
Qed.

Lemma number_bindings vs : forall acc : bindings,
  foldl (fun bs v => bs ++ [(show_dec (len bs), v)]) acc vs = acc ++ imap (fun i v => (show_dec (len acc + Z.of_nat i), v)) vs.
Proof.
  induction vs as [|v vs IH]; intros acc; cbn [foldl imap]; [by rewrite app_nil_r|].
  rewrite IH, <- app_assoc, len_app. cbn [app]. f_equal. f_equal; [f_equal; f_equal; lia|].
  apply imap_ext. intros i x _. cbn. do 2 f_equal. unfold len. cbn. lia.
Qed.

Lemma fn_call_sim name raw : sims bounded (fn_call e ev name raw) (call_of e evr chain loops name raw).
Proof.
  unfold fn_call, call_of. by_args args. destruct args as [|a0 rest]; [by apply sim_lift|]. expands callee Hc.
  destruct (eqb_list (trim callee) (rs "WILDCARD")).
  - apply sim_pure. intros _ _. destruct rest as [|a1 [|? ?] ]; try (by apply sim_lift).
    expands ps Hps. eapply sim_bind; [apply wildcard_sim|]. intros found _ _. apply join_words_sim.
  - eapply sim_bind; [apply resolve_sim|]. intros body _ _.
    assert (forall k : bindings -> R (list Z), (vs ← mapR (evr chain loops) rest; k (numbered (trim callee :: vs))) =
      (bs ← foldM (fun bs a => v ← evr chain loops a; Ok (bs ++ [(show_dec (len bs), v)])) [(rs "0", trim callee)] rest; k bs)) as Hk.
    { intros k. rewrite (foldM_mapR (evr chain loops) (fun bs v => bs ++ [(show_dec (len bs), v)])).
      destruct (mapR _ rest) as [vs|err|]; cbn [mbind res_bind]; [|done..]. rewrite number_bindings. f_equal.
      unfold numbered. cbn [imap app]. f_equal. apply imap_ext. intros i x _. cbn. do 2 f_equal. unfold len. cbn. lia. }
    rewrite (Hk (fun bs => evr chain (loops ++ bs) body)).
    eapply (sim_bind _ _ (fun _ => True)); [|intros bs _ _; quiet; apply under_loops].
    apply sim_forM; [done|]. intros bs a _ _. expands v Hv. by apply sim_ret.
Qed.

Lemma evaluate_function_sim name raw :
  sims bounded (evaluate_function e ev name raw) (function_of e evr chain loops name raw).
Proof.
  unfold evaluate_function, function_of.
  repeat match goal with |- sim _ _ _ (if ?b then _ else _) _ => destruct b eqn:? end;
    auto using fn_foreach_sim, fn_pairwise_sim, fn_patsubst_sim, fn_subst_sim, fn_findstring_sim, fn_word_sim,
      fn_join_sim, fn_if_sim, fn_or_and_sim, fn_unary_sim, fn_count_sim, fn_value_sim, fn_call_sim.
  by apply sim_lift.
Qed.
End functions.

(** ** References and texts *)
Section references.
Context `{Glob} (e : Env).
Context (ev : list Z -> Ev (list Z)) (evr : list (list Z) -> bindings -> list Z -> R (list Z)).
Context (Hev : forall chain loops text, sim is_limit (inv chain loops) bounded (ev text) (evr chain loops text)).
Context (chain : list (list Z)) (loops : bindings).
Abbreviation sims Q m p := (sim is_limit (inv chain loops) Q m p).
Ltac expands v H := eapply sim_bind; [apply Hev|]; intros v _ H.

Lemma check_cycle_sim name : sims (fun _ => True) (check_cycle name)
  (match position (eqb_list name) chain with
   | Some at_ => Err (VariableCycle (drop (Z.to_nat at_) chain ++ [name]))
   | None => Ok tt
   end).
Proof.
  unfold check_cycle. apply (sim_gets_at _ _ _ _ chain); [by intros s []|]. quiet.
  destruct (position (eqb_list name) chain); [quiet; by apply sim_lift|by apply sim_ret].
Qed.

Lemma evaluate_variable_sim body : sims bounded (evaluate_variable e ev body) (variable_of e evr chain loops body).
Proof.
  unfold evaluate_variable, variable_of. quiet. apply sim_pure. intros [raw_name substitution] _. cbv beta iota.
  expands name Hname. quiet. apply sim_pure. intros _ _.
  eapply sim_bind; [apply check_cycle_sim|]. intros _ _ _. eapply sim_bind; [by apply resolve_sim|]. intros value _ _.
  eapply sim_bind; [by apply under_variable|]. intros expanded _ Hx.
  destruct substitution as [[raw_from raw_to]|]; [|by apply sim_ret]. expands from Hf. expands to Ht.
  eapply sim_bind_ok; [apply make_words_sim|]. intros _. unfold substitute.
  destruct (contains_char 37 (trim from)); [apply patsubst_words_sim|apply suffix_substitute_sim].
Qed.

Lemma evaluate_reference_sim body : sims bounded (evaluate_reference e ev body) (reference_of e evr chain loops body).
Proof.
  unfold evaluate_reference, reference_of. quiet. apply sim_pure. intros _ _.
  destruct (top_level _ 0 _) as [[name args]|]; [by apply evaluate_function_sim|apply evaluate_variable_sim].
Qed.

Lemma close_paren_length depth l : forall body rest, close_paren depth l = Some (body, rest) -> (length rest < length l)%nat.
Proof.
  remember (length l) as n eqn:Hn. revert depth l Hn. induction n as [n IH] using lt_wf_ind. intros depth l -> body rest.
  destruct l as [|c r]; cbn [close_paren]; [done|].
  assert (forall b x, (cons_fst c <$> close_paren b r) = Some (body, x) -> (length x < length r)%nat) as Hplain.
  { intros b x ([b1 x1] & Hc & [= -> ->])%fmap_Some. apply (IH (length r) ltac:(cbn; lia) _ r eq_refl _ _ Hc). }
  intros Hr. cbn [length]. destruct r as [|d r'].
  - revert Hr. repeat case_match; [intros [= <- <-]; cbn; lia|..]; intros Hr%Hplain; lia.
  - destruct ((c =? 36) && (d =? 40)).
    + apply fmap_Some in Hr as ([b1 x1] & Hc & [= -> ->]). apply (IH (length r') ltac:(cbn; lia) _ r' eq_refl) in Hc. cbn. lia.
    + revert Hr. repeat case_match; [intros [= <- <-]; cbn; lia|..]; intros Hr%Hplain; cbn in *; lia.
Qed.

Lemma split_once_length c l a b : split_once c l = Some (a, b) -> (length b < length l)%nat.
Proof. intros [-> _]%split_once_Some. rewrite length_app. cbn. lia. Qed.

Lemma expand_loop_sim evaluate evaluater fuel :
  (forall body, sims bounded (evaluate body) (evaluater body)) ->
  forall out raw, (length raw < fuel)%nat -> bounded out ->
  sims bounded (expand_loop fuel evaluate out raw)
    (vs ← mapR (fun t => match t with Literal s => Ok s | Escaped => Ok [ESCAPED_DOLLAR]
                         | Reference body => evaluater body | Malformed error => Err error end) (tokens fuel raw);
     Ok (out ++ concat vs)).
Proof.
  intros Heval. set (tv := fun t => match t with Literal s => _ | _ => _ end).
  induction fuel as [|fuel IH]; intros out raw Hl Hout; [lia|]. cbn [expand_loop tokens].
  assert (forall t ts out, (vs ← mapR tv (t :: ts); Ok (out ++ concat vs)) =
    (v ← tv t; vs ← mapR tv ts; Ok ((out ++ v) ++ concat vs))) as Hcons.
  { intros t ts o. cbn [mapR]. destruct (tv t); cbn; [|done..]. destruct (mapR tv ts); cbn; [|done..]. by rewrite <- app_assoc. }
  assert (forall out1 out2 rest, (length rest < fuel)%nat -> sims bounded (append_output out1 out2) (Ok (out1 ++ out2)) ->
    sims bounded (append_output out1 out2 ≫= fun o => expand_loop fuel evaluate o rest)
      (vs ← mapR tv (tokens fuel rest); Ok ((out1 ++ out2) ++ concat vs))) as Hnext.
  { intros o1 o2 rest Hr Ha. eapply sim_bind_ok; [exact Ha|]. intros Hb. by apply IH. }
  destruct raw as [|c raw]; [cbn; eapply sim_eq; [by apply sim_ret|by rewrite app_nil_r]|].
  destruct (split_once 36 (c :: raw)) as [[before after]|] eqn:Hs.
  2: { cbn. rewrite app_nil_r. apply append_output_sim. }
  pose proof (split_once_length _ _ _ _ Hs) as Hla. rewrite Hcons. cbn [tv mbind res_bind].
  eapply sim_bind_ok; [apply append_output_sim|]. intros Hb. cbv zeta.
  assert (forall c rest, (length rest < fuel)%nat ->
    sims bounded (append_char (out ++ before) c ≫= fun o => expand_loop fuel evaluate o rest)
      (vs ← mapR tv (tokens fuel rest); Ok (((out ++ before) ++ [c]) ++ concat vs))) as Hchar.
  { intros c' rest Hr. eapply sim_bind_ok; [apply append_char_sim|]. intros Hb'. by apply IH. }
  assert (forall body rest, (length rest < fuel)%nat ->
    sims bounded (expanded ← evaluate body; o ← append_output (out ++ before) expanded; expand_loop fuel evaluate o rest)
      (v ← evaluater body; vs ← mapR tv (tokens fuel rest); Ok (((out ++ before) ++ v) ++ concat vs))) as Href.
  { intros body rest Hr. eapply sim_bind; [apply Heval|]. intros v _ Hv. apply Hnext; [done|apply append_output_sim]. }
  cbn [length] in Hl, Hla. destruct after as [|next tail]; [rewrite Hcons; apply Hchar; cbn in *; lia|]. cbn [length] in Hla.
  destruct (next =? 36); [rewrite Hcons; apply Hchar; lia|].
  destruct (next =? 40).
  { quiet. unfold reference_end. change (drop 2 (36 :: next :: tail)) with tail. destruct (close_paren 1 tail) as [[body rest]|] eqn:Hc; cbn [ok_or].
    - apply sim_lift_ok. cbv beta iota. rewrite Hcons. apply Href. apply close_paren_length in Hc. lia.
    - cbn [mapR tv mbind res_bind]. apply sim_lift_err. }
  destruct (next =? 123).
  { quiet. destruct (split_once 125 tail) as [[body rest]|] eqn:Hc; cbn [ok_or]; [|cbn [mapR tv mbind res_bind]; apply sim_lift_err].
    apply sim_lift_ok. cbv beta iota. apply split_once_length in Hc. rewrite Hcons.
    destruct (is_deferred_cmake_reference body); [apply Hnext; [lia|apply append_output_sim]|apply Href; lia]. }
  rewrite Hcons. apply Hchar. cbn. lia.
Qed.
End references.

Lemma expand_text_sim `{Glob} (e : Env) depth : forall chain loops raw,
  sim is_limit (inv chain loops) bounded (expand_text e depth raw) (value_at e depth chain loops raw).
Proof.
  induction depth as [|depth IH]; intros chain loops raw; cbn [expand_text value_at]; [by apply sim_lift|].
  quiet. eapply sim_eq.
  - apply (expand_loop_sim chain loops (evaluate_reference e (expand_text e depth))
      (reference_of e (value_at e depth) chain loops) (S (length raw))); [|apply Nat.lt_succ_diag_r|exact bounded_nil].
    intros body. apply evaluate_reference_sim. exact IH.
  - reflexivity.
Qed.

Lemma filter_escaped value : contains_char ESCAPED_DOLLAR value = false ->
  map (fun c => if c =? ESCAPED_DOLLAR then 36 else c) value = value.
Proof.
  unfold contains_char. induction value as [|c value IH]; [done|]. cbn [existsb map]. intros [Hc Hv]%orb_false_iff.
  by rewrite Z.eqb_sym, Hc, IH.
Qed.

Lemma str_len_unescape value :
  str_len (map (fun c => if c =? ESCAPED_DOLLAR then 36 else c) value) =
  str_len value - 3 * len (List.filter (Z.eqb ESCAPED_DOLLAR) value) + len (List.filter (Z.eqb ESCAPED_DOLLAR) value).
Proof.
  induction value as [|c value IH]; [done|]. cbn [map List.filter]. rewrite !str_len_cons, IH, (Z.eqb_sym ESCAPED_DOLLAR).
  destruct (c =? ESCAPED_DOLLAR) eqn:Hc; [|lia]. apply Z.eqb_eq in Hc as ->. rewrite len_cons.
  change (len (utf8_char 36)) with 1. change (len (utf8_char ESCAPED_DOLLAR)) with 3. lia.
Qed.

Lemma finish_value_sim chain loops value : bounded value ->
  sim is_limit (inv chain loops) bounded (finish_value value) (finished value).
Proof.
  intros Hv. unfold finish_value, finished. quiet. apply sim_pure. intros _ _.
  destruct (contains_char ESCAPED_DOLLAR value) eqn:Hc; cbn [negb]; [|rewrite filter_escaped by done; by apply sim_ret].
  quiet. apply sim_ret. unfold bounded. rewrite str_len_unescape.
  match goal with H : mbind _ _ = Some _ |- _ => apply bind_Some in H as (? & [-> Hsub]%checked_sub_Some & [-> _]%checked_add_Some) end.
  unfold saturating_mul in *. pose proof (len_nonneg (List.filter (Z.eqb ESCAPED_DOLLAR) value)).
  destruct (Z.min_spec usize_max (len (List.filter (Z.eqb ESCAPED_DOLLAR) value) * 3)) as [ [? E]|[? E] ]; rewrite E in *; lia.
Qed.
