(* ===== verification/MakeTheorems.v ===== *)
(** * MakeTheorems: what holds of the Make expression evaluator

    The properties of [evaluate_make_expr] and [evaluate_make_list] that follow
    from the simulation of [MakeRefine], the words and patterns they work on,
    and the panic of the final reference check. *)

From stdpp Require Import gmap.
From S2P Require Import Prelude Text Publication Ordered StateRes MakeVars MakeLines MakeCond MakeScan.
From S2P Require Import Dirs MakeExpr MakeSpec MakeRefine.

Lemma inv_init : inv [] [] eval_init.
Proof. by split. Qed.

Lemma evaluate_sim `{Glob} e raw : sim is_limit (inv [] []) bounded
  (value ← expand_text e MAX_EXPANSION_DEPTH raw; finish_value value)
  (value ← value_at e MAX_EXPANSION_DEPTH [] [] raw; finished value).
Proof. eapply sim_bind; [apply expand_text_sim|]. intros v _ Hv. by apply finish_value_sim. Qed.

#[local] Opaque MAX_EXPANSION_DEPTH.

(** C38. The bounded evaluator implements the reference semantics of Make
    expressions: a value is the reference value, at most 4 MiB long; an error
    that is not a resource limit is the reference error, for unresolved, unsafe
    and cyclic variables, malformed text and unsupported functions alike; it
    panics only where the reference does; and a list is the value's words. *)
Theorem evaluator_refines `{Glob} (raw : list Z) (c : MakeExprContext) :
  match evaluate_make_expr raw c with
  | Ok v => make_value raw c = Ok v /\ str_len v <= MAX_VALUE_BYTES
  | Err err => is_limit err \/ make_value raw c = Err err
  | Stuck => make_value raw c = Stuck
  end /\
  match evaluate_make_list raw c with
  | Ok words => exists v, make_value raw c = Ok v /\ words = split_whitespace v
  | Err err => is_limit err \/ make_value raw c = Err err
  | Stuck => make_value raw c = Stuck
  end.
Proof.
  unfold evaluate_make_expr, evaluate_make_list, make_value. destruct (evaluator_new c) as [e|err|]; cbn [mbind res_bind]; [|by auto..].
  split; [apply (sim_run _ _ _ _ _ _ (evaluate_sim e raw) inv_init)|].
  assert (sim is_limit (inv [] []) (fun _ => True)
    (expanded ← expand_text e MAX_EXPANSION_DEPTH raw; value ← finish_value expanded; make_words value)
    (value ← value_at e MAX_EXPANSION_DEPTH [] [] raw; v ← finished value; Ok (split_whitespace v))) as Hw.
  { eapply sim_bind; [apply expand_text_sim|]. intros v _ Hv. eapply sim_bind; [by apply finish_value_sim|].
    intros w _ _. apply make_words_sim. }
  pose proof (sim_run _ _ _ _ _ _ Hw inv_init) as Hr. rewrite <- res_bind_assoc in Hr.
  destruct (fst _) as [ws|err|]; [destruct Hr as [Hr _]; apply bind_Ok in Hr as (v & Hv & [= <-]); eauto|..];
    destruct (value_at e MAX_EXPANSION_DEPTH [] [] raw ≫= finished); naive_solver.
Qed.

(** C39. Every expansion, at any depth and from any reachable state, gives back
    the stacks it was given: the chain of variables under expansion and the
    loop and argument bindings, pushed and popped by references, [foreach] and
    [call]; it keeps all four counters within their limits, and its value
    within 4 MiB. *)
Theorem evaluator_invariant `{Glob} (e : Env) (depth : nat) (raw : list Z) (s s' : EvalState) (v : list Z) :
  inv (expansion_chain s) (loop_vars s) s -> expand_text e depth raw s = (Ok v, s') ->
  expansion_chain s' = expansion_chain s /\ loop_vars s' = loop_vars s /\
  scanned s' <= MAX_SCANNED_BYTES /\ emitted s' <= MAX_EMITTED_BYTES /\
  work s' <= MAX_WORK_UNITS /\ items s' <= MAX_LIST_ITEMS /\ str_len v <= MAX_VALUE_BYTES.
Proof.
  intros Hs Hx. pose proof (expand_text_sim e depth (expansion_chain s) (loop_vars s) raw s Hs) as Hr.
  rewrite Hx in Hr. destruct Hr as (_ & Hv & [ ]). done.
Qed.

(** ** The final reference check *)

(** Texts whose dollars are all escaped pairs or symbolic [${...}] names. *)
Inductive closed : list Z -> Prop :=
| closed_nil : closed []
| closed_char c l : c <> 36 -> closed l -> closed (c :: l)
| closed_dollar l : closed l -> closed (36 :: 36 :: l)
| closed_symbol body l : Forall (fun c => c <> 125) body -> closed l -> closed (36 :: 123 :: body ++ 125 :: l).

(** A dollar of the text in front of a character of several bytes. *)
Definition splits_character (l : list Z) : Prop :=
  exists pre d post, l = pre ++ 36 :: d :: post /\ closed pre /\ 1 < len (utf8_char d).

Lemma reject_sound fuel : forall l, (length l < fuel)%nat ->
  (reject_from fuel l = Ok tt -> closed l) /\ (reject_from fuel l = Stuck -> splits_character l).
Proof.
  induction fuel as [|fuel IH]; intros l Hl; [lia|]. cbn [reject_from].
  destruct l as [|c r]; [split; [constructor|done]|]. cbn in Hl.
  assert (forall pre l', (length l' < fuel)%nat -> (forall l, closed l -> closed (pre ++ l)) ->
    (reject_from fuel l' = Ok tt -> closed (pre ++ l')) /\ (reject_from fuel l' = Stuck -> splits_character (pre ++ l'))) as Hstep.
  { intros pre l' Hl' Hpre. destruct (IH l' Hl') as [H1 H2]. split; [auto|]. intros Hs%H2.
    destruct Hs as (p & d & post & -> & Hp & Hd). exists (pre ++ p), d, post. rewrite <- app_assoc. auto. }
  destruct (c =? 36) eqn:Hc; cbn [negb]; [apply Z.eqb_eq in Hc as ->|apply (Hstep [c]); [lia|]; intros; constructor; [by apply Z.eqb_neq|done] ].
  destruct r as [|d r']; [done|]. cbn in Hl.
  destruct (d =? 36) eqn:Hd; [apply Z.eqb_eq in Hd as ->; apply (Hstep [36; 36]); [lia|]; by constructor|].
  destruct (d =? 123) eqn:Hb.
  - apply Z.eqb_eq in Hb as ->. destruct (split_once 125 r') as [[body rest]|] eqn:Hs; [|done].
    pose proof (split_once_length _ _ _ _ Hs). apply split_once_Some in Hs as [-> Hn].
    replace (36 :: 123 :: body ++ 125 :: rest) with ((36 :: 123 :: body ++ [125]) ++ rest)
      by (cbn; by rewrite <- app_assoc).
    apply Hstep; [lia|]. intros l Hcl. cbn. rewrite <- app_assoc. by apply (closed_symbol body l).
  - destruct (len (utf8_char d) =? 1) eqn:Hu; [done|]. split; [done|]. intros _. apply Z.eqb_neq in Hu.
    exists [], d, r'. pose proof (utf8_char_len d). split; [done|]. split; [constructor|lia].
Qed.

Lemma reject_closed fuel pre l : closed pre -> (length (pre ++ l) < fuel)%nat ->
  exists fuel', (length l < fuel')%nat /\ reject_from fuel (pre ++ l) = reject_from fuel' l.
Proof.
  intros Hp. revert fuel. induction Hp as [|c pre Hc Hp IH|pre Hp IH|body pre Hb Hp IH]; intros fuel Hl.
  - by exists fuel.
  - destruct fuel as [|fuel]; [cbn in Hl; lia|]. destruct (IH fuel) as (f & Hf & E); [cbn in Hl; lia|].
    exists f. split; [done|]. cbn [app reject_from]. by rewrite (proj2 (Z.eqb_neq _ _)).
  - destruct fuel as [|fuel]; [cbn in Hl; lia|]. destruct (IH fuel) as (f & Hf & E); [cbn in Hl; lia|].
    exists f. split; [done|]. cbn [app reject_from]. done.
  - destruct fuel as [|fuel]; [cbn in Hl; lia|]. rewrite <- app_comm_cons in *. cbn [app] in *. rewrite <- app_assoc in *. cbn [app] in *.
    destruct (IH fuel) as (f & Hf & E); [cbn in Hl; rewrite length_app in Hl; cbn in Hl; lia|].
    exists f. split; [done|]. cbn [reject_from]. change (negb (36 =? 36)) with false. change (123 =? 36) with false.
    change (123 =? 123) with true. cbv iota.
    by rewrite (proj2 (split_once_Some 125 (body ++ 125 :: pre ++ l) body (pre ++ l))).
Qed.

Lemma reject_spec l : (reject_unsupported_references l = Ok tt <-> closed l) /\
  (reject_unsupported_references l = Stuck <-> splits_character l).
Proof.
  unfold reject_unsupported_references. destruct (reject_sound (S (length l)) l) as [H1 H2]; [lia|]. split; (split; [done|]).
  - intros Hc. destruct (reject_closed (S (length l)) l [] Hc) as (f & Hf & E); [rewrite app_nil_r; lia|].
    rewrite app_nil_r in E. rewrite E. destruct f; [cbn in Hf; lia|done].
  - intros (pre & d & post & -> & Hc & Hd).
    destruct (reject_closed (S (length (pre ++ 36 :: d :: post))) pre (36 :: d :: post) Hc) as (f & Hf & E); [lia|].
    rewrite E. destruct f as [|f]; [lia|]. cbn [reject_from]. change (negb (36 =? 36)) with false. cbv iota.
    rewrite (proj2 (Z.eqb_neq d 36)), (proj2 (Z.eqb_neq d 123)), (proj2 (Z.eqb_neq (len (utf8_char d)) 1));
      [done|lia|intros ->; cbn in Hd; done..].
Qed.

(** ** The reference never panics below the final check *)
Lemma split_pieces_not_Stuck raw sep : forall l depth count, split_pieces raw sep depth count l <> Stuck.
Proof.
  intros l. remember (length l) as n eqn:Hn. revert l Hn. induction n as [n IH] using lt_wf_ind. intros l -> depth count.
  destruct l as [|c r]; cbn [split_pieces]; [by repeat case_match|].
  assert (forall b k f, (ws ← split_pieces raw sep b k r; Ok (f ws)) <> (Stuck : R (list (list Z)))) as Hr.
  { intros b k f. apply bind_not_Stuck; [apply (IH (length r)); [cbn; lia|done]|done]. }
  destruct r as [|d r']; [by repeat case_match|]. destruct ((c =? 36) && (d =? 40)); [|by repeat case_match].
  apply bind_not_Stuck; [apply (IH (length r')); [cbn; lia|done]|done].
Qed.

Lemma arguments_not_Stuck name raw lo hi : arguments name raw lo hi <> Stuck.
Proof. unfold arguments. not_stuck. apply split_pieces_not_Stuck. Qed.

Lemma expand_with_not_Err {G} d (local : list Z -> G -> option (list Z) * G) raw g err g' :
  expand_with d local raw g <> (Err err, g').
Proof.
  unfold expand_with. destruct (expand_with_depth _ _ _ _ _) as [[v|e|] st]; [done| |done].
  destruct (missing_in_with _ _ _ _) as [[l|e'|] st']; [|done..]. destruct l; [|done].
  match goal with |- context [match ?x with _ => _ end] => destruct x as [[ ] ] end; done.
Qed.

Lemma resolve_not_Stuck e chain loops name : resolve e chain loops name <> Stuck.
Proof.
  unfold resolve. repeat (case_match; try done). cbn. repeat (case_match; try done); simplify_eq.
  all: try match goal with H : expand_with ?d ?l ?r ?g = (Err _, _) |- _ => by apply expand_with_not_Err in H end.
  all: match goal with H : expand_with ?d ?l ?r ?g = (Stuck, _) |- _ =>
    pose proof (expand_with_total d l r g) as Ht; by rewrite H in Ht end.
Qed.

Section safe.
Context `{Glob} (e : Env) (Hfs : filesystem_enabled (env e) = false).
Context (ev : list (list Z) -> bindings -> list Z -> R (list Z)).
Context (Hev : forall chain loops text, ev chain loops text <> Stuck).
Context (chain : list (list Z)) (loops : bindings).

Lemma wildcard_of_not_Stuck patterns regular : wildcard_of e patterns regular <> Stuck.
Proof. unfold wildcard_of. by rewrite Hfs. Qed.

Lemma parse_word_index_not_Stuck f v r : parse_word_index f v r <> Stuck.
Proof. apply ok_or_not_Stuck. Qed.

#[local] Hint Resolve arguments_not_Stuck resolve_not_Stuck wildcard_of_not_Stuck parse_word_index_not_Stuck
  mapR_not_Stuck : aros.

(** One argument list, of the length the function asked for. *)
Ltac by_arguments := apply bind_not_Stuck; [apply arguments_not_Stuck|];
  let a := fresh "args" in let H1 := fresh "Hargs" in intros a H1;
  apply arguments_len in H1 as [? Hhi]; try specialize (Hhi _ eq_refl); unfold len in *;
  destruct a as [|? [|? [|? [|? ?] ] ] ]; cbn [length] in *; try lia.
Ltac safe := repeat first
  [done|apply Hev|apply resolve_not_Stuck|apply wildcard_of_not_Stuck|apply parse_word_index_not_Stuck
  |apply refuse_not_Stuck|apply ok_or_not_Stuck
  |apply mapR_not_Stuck; intros ? _|apply bind_not_Stuck; [|intros ? _] | case_match].

Lemma first_nonempty_not_Stuck args : first_nonempty ev chain loops args <> Stuck.
Proof. induction args as [|a args IH]; cbn; [done|]. apply bind_not_Stuck; [apply Hev|]. by intros [|c v] _. Qed.
Lemma all_nonempty_not_Stuck args : forall l, all_nonempty ev chain loops l args <> Stuck.
Proof.
  induction args as [|a args IH]; intros l; cbn; [done|]. apply bind_not_Stuck; [apply Hev|].
  intros [|c v] _; [done|apply IH].
Qed.

Lemma function_of_not_Stuck name raw : function_of e ev chain loops name raw <> Stuck.
Proof.
  unfold function_of. repeat match goal with |- (if ?b then _ else _) <> Stuck => destruct b end; [..|done].
  - unfold foreach_of. by_arguments; safe.
  - unfold pairwise_of. by_arguments; safe.
  - unfold patsubst_of. by_arguments; safe.
  - unfold subst_of. by_arguments; safe.
  - unfold findstring_of. by_arguments; safe.
  - unfold word_of. destruct (eqb_list name (rs "word")); by_arguments; safe.
  - unfold join_of. by_arguments; safe.
  - unfold if_of. by_arguments; safe.
  - unfold or_and_of. apply bind_not_Stuck; [apply arguments_not_Stuck|]. intros args _.
    case_match; [apply first_nonempty_not_Stuck|apply all_nonempty_not_Stuck].
  - unfold unary_of. by_arguments; safe.
  - unfold count_of. by_arguments; safe.
  - unfold value_of. by_arguments; safe.
  - unfold call_of. apply bind_not_Stuck; [apply arguments_not_Stuck|]. intros args Hargs.
    apply arguments_len in Hargs as [Hlen _]. unfold len in *. destruct args as [|a0 rest]; [cbn in Hlen; lia|].
    apply bind_not_Stuck; [apply Hev|intros callee _]. case_match; [|safe].
    apply bind_not_Stuck; [apply refuse_not_Stuck|]. intros [] Hr%refuse_Ok. bool_prop. cbn [length] in *.
    destruct rest as [|a1 [|? ?] ]; cbn [length] in *; try lia. safe.
Qed.

Lemma reference_of_not_Stuck body : reference_of e ev chain loops body <> Stuck.
Proof.
  unfold reference_of. apply bind_not_Stuck; [apply refuse_not_Stuck|intros _ _].
  destruct (top_level _ _ _) as [[name args]|]; [apply function_of_not_Stuck|].
  unfold variable_of, split_substitution_reference. safe.
Qed.
End safe.

Lemma value_at_not_Stuck `{Glob} e depth : filesystem_enabled (env e) = false ->
  forall chain loops raw, value_at e depth chain loops raw <> Stuck.
Proof.
  intros Hfs. induction depth as [|depth IH]; intros chain loops raw; cbn [value_at]; [done|].
  apply bind_not_Stuck; [|done]. apply mapR_not_Stuck. intros [s| |body|err] _; cbn; [done|done| |done].
  by apply reference_of_not_Stuck.
Qed.

(** C40. Without file-system access the evaluator panics in one situation only,
    and then always unless a resource limit stops it first: the expanded text
    has a dollar, neither escaped nor opening a symbolic name, in front of a
    character longer than one byte; the check that is to refuse such a dollar
    slices that character.  A text of escaped pairs and symbolic names only is
    the one it accepts, every other text ends in an error value. *)
Theorem panic_iff_split_character `{Glob} (raw : list Z) (c : MakeExprContext) :
  filesystem_enabled c = false ->
  (evaluate_make_expr raw c = Stuck ->
   exists e v, evaluator_new c = Ok e /\ value_at e MAX_EXPANSION_DEPTH [] [] raw = Ok v /\ splits_character v) /\
  (forall e v, evaluator_new c = Ok e -> value_at e MAX_EXPANSION_DEPTH [] [] raw = Ok v ->
   (splits_character v -> evaluate_make_expr raw c = Stuck \/ exists err, evaluate_make_expr raw c = Err err /\ is_limit err) /\
   (forall w, evaluate_make_expr raw c = Ok w -> closed v /\ w = map (fun c => if c =? ESCAPED_DOLLAR then 36 else c) v)).
Proof.
  intros Hfs. unfold evaluate_make_expr.
  destruct (evaluator_new c) as [e|err|] eqn:He; cbn [mbind res_bind]; [|done|].
  2: { exfalso. unfold evaluator_new, path_text in He. revert He.
       destruct (is_absolute _); [done|]. cbn. destruct (from_utf8 (source_dir c)); [|done]. cbn.
       destruct (eqb_list _ _); [done|]. by destruct (from_utf8 (relative_dir c)). }
  assert (filesystem_enabled (env e) = false) as Hfe.
  { unfold evaluator_new in He. inv_ok. done. }
  pose proof (sim_run _ _ _ _ _ _ (evaluate_sim e raw) inv_init) as Hr.
  pose proof (value_at_not_Stuck e MAX_EXPANSION_DEPTH Hfe [] [] raw) as Hns.
  destruct (fst _) as [w|err|] eqn:Hev.
  - split; [done|]. intros e' v [= <-] Hv. rewrite Hv in Hr. destruct Hr as [Hr _]. unfold finished in Hr. cbn [mbind res_bind] in Hr.
    apply bind_Ok in Hr as ([] & Hrej & [= <-]). pose proof (proj1 (proj1 (reject_spec v)) Hrej). split; [|naive_solver].
    intros Hsp%(proj2 (reject_spec v)). congruence.
  - split; [done|]. intros e' v [= <-] Hv. rewrite Hv in Hr. split; [|done]. intros Hsp. right. exists err. split; [done|].
    destruct Hr as [?|Hr]; [done|]. unfold finished in Hr. cbn [mbind res_bind] in Hr. apply (proj2 (reject_spec v)) in Hsp. by rewrite Hsp in Hr.
  - split; [|by intros ? ? _ _; split; [left|done] ]. intros _. destruct (value_at _ _ _ _ _) as [v|err|] eqn:Hv; [|done..].
    exists e, v. split; [done|]. split; [done|]. unfold finished in Hr. cbn [mbind res_bind] in Hr.
    destruct (reject_unsupported_references v) as [[]|err|] eqn:Hrej; [done|done|]. by apply (proj2 (reject_spec v)).
Qed.

(** A file that assigns [FILES] twice around a declaration, a pair of cyclic
    variables, a macro, and a variable that is a single dollar. *)
#[local] Instance no_files : Glob := Build_Glob id (fun _ => inr []) (fun _ => false).
Definition demo_scope : VarScope :=
  mkScope ∅ ∅ {[rs "FILES" := [(0, rs "a.c b.c"); (5, rs "z.c")]; rs "LEFT" := [(0, rs "$(RIGHT)")];
                rs "RIGHT" := [(1, rs "x$(LEFT)")]; rs "WRAP" := [(0, rs "<$(1)>")]; rs "DOLLAR" := [(0, rs "$")]]}
    ∅ ∅ ∅ ∅ ∅ [] ∅ ∅ ∅.
Definition demo_context : MakeExprContext :=
  mkContext demo_scope demo_dirs 3 (rs "/src") (rs "rom/dos") None None false.

Example evaluates_lists : evaluate_make_expr (rs "$(FILES:%.c=obj/%.o) $(AROS_PREFS) $(call WRAP,x) $(sort b a b)") demo_context
  = Ok (rs "obj/a.o obj/b.o ${AROS_BUILD_DIR}/SYS/Prefs <x> a b").
Proof. vm_compute. reflexivity. Qed.
Example evaluates_cycle : evaluate_make_expr (rs "$(LEFT)") demo_context = Err (VariableCycle [rs "LEFT"; rs "RIGHT"; rs "LEFT"]).
Proof. vm_compute. reflexivity. Qed.

Lemma evaluator_invariant_witness :
  exists v s', expand_text (mkEnv demo_context (rs "/src") (rs "rom/dos") (rs "/src/rom/dos")) 32
    (rs "$(foreach f,$(FILES),<$(f)>)") eval_init = (Ok v, s') /\ v = rs "<a.c> <b.c>" /\ loop_vars s' = [].
Proof.
  set (s := eval_init). eexists _, _. split; [vm_compute; reflexivity|]. split; [vm_compute; reflexivity|].
  refine (proj1 (proj2 (evaluator_invariant _ 32 (rs "$(foreach f,$(FILES),<$(f)>)") s _ (rs "<a.c> <b.c>") _ _))).
  - exact inv_init.
  - instantiate (1 := mkEnv demo_context (rs "/src") (rs "rom/dos") (rs "/src/rom/dos")). vm_compute. reflexivity.
Defined.

(** [$(DOLLAR)$$], all ASCII, and a dollar in front of a letter with an accent. *)
Lemma panic_iff_split_character_witness :
  evaluate_make_expr (rs "$(DOLLAR)$$") demo_context = Stuck /\ evaluate_make_expr [36; 233] demo_context = Stuck /\
  exists e v, evaluator_new demo_context = Ok e /\ value_at e MAX_EXPANSION_DEPTH [] [] [36; 233] = Ok v /\ splits_character v.
Proof.
  assert (evaluate_make_expr [36; 233] demo_context = Stuck) as Hs by (vm_compute; reflexivity).
  split; [vm_compute; reflexivity|]. split; [exact Hs|].
  apply (panic_iff_split_character [36; 233] demo_context); [reflexivity|exact Hs].
Defined.

(** ** Patterns and file names *)
Lemma pattern_stem_percent prefix suff w s : Forall (fun c => c <> 37) prefix ->
  pattern_stem (prefix ++ 37 :: suff) w = Some s <-> w = prefix ++ s ++ suff.
Proof.
  intros Hp. unfold pattern_stem. rewrite (proj2 (split_once_Some 37 (prefix ++ 37 :: suff) prefix suff)) by done. split.
  - case_match eqn:Hc; [done|]. intros (r & Hr%strip_prefix_Some & Hs%strip_suffix_Some)%bind_Some. by subst.
  - intros ->. rewrite !str_len_app. pose proof (str_len_nonneg s).
    rewrite (proj2 (Z.ltb_ge _ _)) by lia.
    rewrite (proj2 (starts_with_true (prefix ++ s ++ suff) prefix)) by by eexists.
    rewrite (proj2 (ends_with_true (prefix ++ s ++ suff) suff)) by (exists (prefix ++ s); by rewrite <- app_assoc).
    cbn. apply bind_Some. exists (s ++ suff). split; [by apply strip_prefix_Some|by apply strip_suffix_Some].
Qed.

Lemma pattern_stem_plain p w s : Forall (fun c => c <> 37) p -> pattern_stem p w = Some s <-> w = p /\ s = [].
Proof.
  intros Hp. unfold pattern_stem. rewrite (proj2 (split_once_None 37 p) Hp). unfold eqb_list. case_bool_decide; naive_solver.
Qed.

Lemma rsplit_once_Some c l a b : rsplit_once c l = Some (a, b) <-> l = a ++ c :: b /\ Forall (fun x => x <> c) b.
Proof.
  unfold rsplit_once. rewrite fmap_Some. split.
  - intros ([x y] & [E Hx]%split_once_Some & [= -> ->]). split; [|by apply Forall_rev].
    rewrite <- (rev_involutive l), E, rev_app_distr. cbn. by rewrite <- app_assoc.
  - intros [-> Hb]. exists (rev b, rev a). cbn. rewrite !rev_involutive. split; [|done]. apply split_once_Some.
    rewrite rev_app_distr. cbn. rewrite <- app_assoc. split; [done|by apply Forall_rev].
Qed.
Lemma rsplit_once_None c l : rsplit_once c l = None <-> Forall (fun x => x <> c) l.
Proof.
  unfold rsplit_once. rewrite fmap_None, split_once_None. split; [|apply Forall_rev].
  intros Hl%Forall_rev. by rewrite rev_involutive in Hl.
Qed.

Lemma last_component_spec w : exists d, w = d ++ last_component w /\ Forall (fun c => c <> 47) (last_component w) /\
  (d = [] \/ exists d', d = d' ++ [47]) /\ directory_part w = (if eqb_list d [] then rs "./" else d).
Proof.
  unfold last_component, directory_part. destruct (rsplit_once 47 w) as [[a b]|] eqn:Hr.
  - apply rsplit_once_Some in Hr as [-> Hb]. exists (a ++ [47]). rewrite <- app_assoc. split; [done|]. split; [done|].
    split; [eauto|]. unfold eqb_list. case_bool_decide; [by destruct a|done].
  - apply rsplit_once_None in Hr. exists []. split_and!; [done|done|by left|done].
Qed.

(** The word functions take words apart exactly: a [%] pattern matches a
    word with stem [s] if and only if the word is the pattern with [s] for the
    percent sign, and a plain pattern only itself; [dir] and [notdir] split a
    word behind its last slash; [basename] and [suffix] split it before the
    last dot of its last component; a part that is empty is dropped. *)
Theorem word_functions_exact (w : list Z) :
  (forall p s, pattern_stem p w = Some s <->
     (Forall (fun c => c <> 37) p /\ w = p /\ s = []) \/
     (exists prefix suff, p = prefix ++ 37 :: suff /\ Forall (fun c => c <> 37) prefix /\ w = prefix ++ s ++ suff)) /\
  (exists d n, w = d ++ n /\ Forall (fun c => c <> 47) n /\ (d = [] \/ exists d', d = d' ++ [47]) /\
     directory_part w = (if eqb_list d [] then rs "./" else d) /\ notdir w = nonempty n) /\
  (exists b x, w = b ++ x /\ basename w = nonempty b /\ suffix w = nonempty x /\
     ((x = [] /\ Forall (fun c => c <> 46) (last_component w)) \/
      exists t, x = 46 :: t /\ Forall (fun c => c <> 46 /\ c <> 47) t)).
Proof.
  split; [|split].
  - intros p s. destruct (split_once 37 p) as [[prefix suff]|] eqn:Hp.
    + apply split_once_Some in Hp as [-> Hp]. rewrite pattern_stem_percent by done. split; [by intros ->; right; eauto|].
      intros [(Hall & _)|(a & b & E & Ha & ->)].
      * apply Forall_app in Hall as [_ Hall]. by apply Forall_cons in Hall as [? _].
      * assert (split_once 37 (prefix ++ 37 :: suff) = Some (a, b)) as Hs by by apply split_once_Some.
        rewrite (proj2 (split_once_Some 37 _ prefix suff)) in Hs by done. by simplify_eq.
    + apply split_once_None in Hp. rewrite pattern_stem_plain by done. split; [by left|].
      intros [(_ & -> & ->)|(a & b & -> & _)]; [done|]. apply Forall_app in Hp as [_ Hp]. by apply Forall_cons in Hp as [? _].
  - destruct (last_component_spec w) as (d & E & Hn & Hd & Hdir). by exists d, (last_component w).
  - destruct (last_component_spec w) as (d & E & Hn & Hd & _). unfold basename, suffix.
    destruct (rsplit_once 46 (last_component w)) as [[stem t]|] eqn:Hr; cbn.
    + apply rsplit_once_Some in Hr as [Hlc Ht]. exists (d ++ stem), (46 :: t). rewrite <- app_assoc, <- Hlc. split; [done|].
      split; [|split; [done|right; exists t; split; [done|] ] ].
      * f_equal. clear Hn. revert E Hlc. generalize (last_component w). intros lc -> ->. rewrite app_assoc.
        apply take_app_length'. rewrite !length_app. cbn. lia.
      * rewrite Hlc in Hn. apply Forall_app in Hn as [_ Hn]. apply Forall_cons in Hn as [_ Hn]. by apply Forall_and.
    + apply rsplit_once_None in Hr. exists w, []. rewrite app_nil_r. split_and!; [done..|]. by left.
Qed.

#[local] Instance no_glob : Glob := Build_Glob id (fun _ => inr []) (fun _ => false).

(** The value of an expression at the end of a file, without a target. *)
Definition file_value (ls : list (list Z)) (expression : list Z) : option (list Z) :=
  match collect_vars (flat_map (fun w => w ++ [10]) ls) with
  | Ok s =>
    match evaluate_make_expr expression
            (mkContext s (mkDirs ∅ ∅ ∅ ∅ false false ∅) (len ls) (rs "/src") (rs "rom/dos") None None false) with
    | Ok v => Some v
    | _ => None
    end
  | _ => None
  end.

(** References and function arguments of a simply expanded value keep the value
    they had where the assignment stands. *)
Lemma simple_value_frozen :
  file_value [rs "A := a.c"; rs "B := $(A)"; rs "A := b.c"] (rs "$(B)") = Some (rs "a.c") /\
  file_value [rs "A := a.c"; rs "B := $(patsubst %.c,%.o,$(A))"; rs "A := b.c"] (rs "$(B)") = Some (rs "a.o").
Proof. split; vm_compute; reflexivity. Qed.

(** A substitution reference does not: [B := $(A:.c=.o)] follows a later
    assignment of [A], as if it had been recursive. *)
Lemma substitution_reference_not_frozen :
  file_value [rs "A := a.c"; rs "B := $(A:.c=.o)"; rs "A := b.c"] (rs "$(B)") = Some (rs "b.o").
Proof. vm_compute. reflexivity. Qed.
