(* ===== verification/CrashIO.v ===== *)
(** * CrashIO: programs whose every system call may fail or be the last

    A program is a function from a state and a list of injected faults to an
    outcome, the state it leaves and the faults it has not met.  Each system
    call consults the next fault: the call goes through, fails with an I/O
    error, or the process dies there; a call that transfers data may have
    moved some of it before it fails or dies.  When the list is exhausted every
    call goes through, so a statement about all fault lists covers an I/O error
    or a crash at every call, and the empty list is the undisturbed run.

    The second half is a weakest-precondition calculus with three
    postconditions: of normal return, of a returned error, and of a crash. *)

From S2P Require Import Prelude.

Inductive verdict := Go | Fails (written : nat) | Crashes (written : nat).

(** [Ret] and [Throw] are [Ok] and [Err] of a fallible function; after
    [Crashed] nothing runs; [Panicked] is a failed assertion. *)
Inductive outcome (E A : Type) := Ret (a : A) | Throw (e : E) | Crashed | Panicked.
Arguments Ret {E A} a.
Arguments Throw {E A} e.
Arguments Crashed {E A}.
Arguments Panicked {E A}.

(** [S] the state, [C] the system calls, [E] the errors. *)
Definition IO (S C E A : Type) : Type :=
  S -> list (C -> verdict) -> outcome E A * S * list (C -> verdict).

#[global] Instance IO_ret S C E : MRet (IO S C E) := fun A a s f => (Ret a, s, f).
#[global] Instance IO_bind S C E : MBind (IO S C E) := fun A B k m s f =>
  match m s f with
  | (Ret a, s', f') => k a s' f'
  | (Throw e, s', f') => (Throw e, s', f')
  | (Crashed, s', f') => (Crashed, s', f')
  | (Panicked, s', f') => (Panicked, s', f')
  end.

Section programs.
Context {S C E : Type}.

Definition throw {A} (e : E) : IO S C E A := fun s f => (Throw e, s, f).
Definition panic {A} : IO S C E A := fun s f => (Panicked, s, f).

(** A pure fallible computation; [Stuck] is a panic. *)
Definition pure {A} (c : res E A) : IO S C E A :=
  match c with Ok a => mret a | Err e => throw e | Stuck => panic end.

(** The result of a fallible call as a value: [match m { Ok(a) => .., Err(e) => .. }]. *)
Definition attempt {A} (m : IO S C E A) : IO S C E (A + E) := fun s f =>
  match m s f with
  | (Ret a, s', f') => (Ret (inl a), s', f')
  | (Throw e, s', f') => (Ret (inr e), s', f')
  | (Crashed, s', f') => (Crashed, s', f')
  | (Panicked, s', f') => (Panicked, s', f')
  end.

(** The system call [c]: [answer] is what the kernel does and replies, [torn]
    what a transfer interrupted after some units leaves behind, [injected] the
    error an injected fault is reported as. *)
Definition call {A} (injected : E) (c : C) (torn : nat -> S -> S)
  (answer : S -> outcome E A * S) : IO S C E A := fun s f =>
  match f with
  | [] => (answer s, [])
  | v :: f =>
    match v c with
    | Go => (answer s, f)
    | Fails n => (Throw injected, torn n s, f)
    | Crashes n => (Crashed, torn n s, f)
    end
  end.

(** [for x in l { acc = step(acc, x)?; }] *)
Fixpoint forI {A B} (step : B -> A -> IO S C E B) (acc : B) (l : list A) : IO S C E B :=
  match l with
  | [] => mret acc
  | x :: l => acc' ← step acc x; forI step acc' l
  end.
End programs.

(** ** Weakest preconditions

    [ok] is the set of faults that may be injected: with no fault allowed the
    judgement speaks of the undisturbed run. *)
Section wp.
Context {S C E : Type} (ok : (C -> verdict) -> Prop).

(** Some fault is possible at all. *)
Definition faulty : Prop := exists v, ok v.

Definition wp {A} (m : IO S C E A) (Q : A -> S -> Prop) (X : E -> S -> Prop) (D : S -> Prop)
  (s : S) : Prop :=
  forall f, Forall ok f ->
  match m s f with
  | (Ret a, s', f') => Q a s' /\ Forall ok f'
  | (Throw e, s', f') => X e s' /\ Forall ok f'
  | (Crashed, s', _) => D s' /\ faulty
  | (Panicked, _, _) => False
  end.

(** Call [c] may be made to fail, or to be the last, after [n] units. *)
Definition may_fail (c : C) (n : nat) : Prop := exists v, ok v /\ v c = Fails n.
Definition may_crash (c : C) (n : nat) : Prop := exists v, ok v /\ v c = Crashes n.
Lemma may_fail_faulty c n : may_fail c n -> faulty.
Proof. intros (v & H & _). by exists v. Qed.
Lemma may_crash_faulty c n : may_crash c n -> faulty.
Proof. intros (v & H & _). by exists v. Qed.

Section rules.
Context {A B : Type}.
Implicit Types (m : IO S C E A) (Q : A -> S -> Prop) (X : E -> S -> Prop) (D : S -> Prop).

Lemma wp_ret a Q X D s : Q a s -> wp (mret a) Q X D s.
Proof. by intros H f Hf. Qed.

Lemma wp_throw e Q X D s : X e s -> wp (throw e : IO S C E A) Q X D s.
Proof. by intros H f Hf. Qed.

Lemma wp_pure (c : res E A) Q X D s :
  c <> Stuck -> (forall a, c = Ok a -> Q a s) -> (forall e, c = Err e -> X e s) ->
  wp (pure c) Q X D s.
Proof. destruct c; intros Hs HQ HX f Hf; cbn; auto. Qed.

Lemma wp_pure_ok (c : res E A) a Q X D s : c = Ok a -> Q a s -> wp (pure c) Q X D s.
Proof. intros -> H. by apply wp_ret. Qed.

Lemma wp_mono m Q Q' X X' D D' s :
  wp m Q' X' D' s ->
  (forall a s', Q' a s' -> Q a s') -> (forall e s', X' e s' -> X e s') ->
  (forall s', D' s' -> D s') -> wp m Q X D s.
Proof.
  intros H HQ HX HD f Hf. specialize (H f Hf).
  destruct (m s f) as [ [ [ | | |] s'] f']; naive_solver.
Qed.

Lemma wp_bind m (k : A -> IO S C E B) (Q : B -> S -> Prop) X D s :
  wp m (fun a s' => wp (k a) Q X D s') X D s -> wp (m ≫= k) Q X D s.
Proof.
  intros H f Hf. specialize (H f Hf). unfold mbind, IO_bind.
  destruct (m s f) as [ [ [a|e| |] s'] f']; [|done..]. destruct H as [H Hf']. by apply H.
Qed.

Lemma wp_assoc {T} m (k : A -> IO S C E B) (k' : B -> IO S C E T) (Q : T -> S -> Prop) X D s :
  wp (m ≫= (fun a => k a ≫= k')) Q X D s -> wp ((m ≫= k) ≫= k') Q X D s.
Proof.
  intros H f Hf. specialize (H f Hf). unfold mbind, IO_bind in *.
  by destruct (m s f) as [ [ [a|e| |] s'] f'].
Qed.

Lemma wp_attempt m (Q : A + E -> S -> Prop) X D s :
  wp m (fun a s' => Q (inl a) s') (fun e s' => Q (inr e) s') D s -> wp (attempt m) Q X D s.
Proof.
  intros H f Hf. specialize (H f Hf). unfold attempt.
  by destruct (m s f) as [ [ [a|e| |] s'] f'].
Qed.

Lemma wp_call injected c torn (answer : S -> outcome E A * S) Q X D s :
  match answer s with
  | (Ret a, s') => Q a s'
  | (Throw e, s') => X e s'
  | _ => False
  end ->
  (forall n, may_fail c n -> X injected (torn n s)) ->
  (forall n, may_crash c n -> D (torn n s)) ->
  wp (call injected c torn answer) Q X D s.
Proof.
  intros Ha HX HD [|v f] Hf; unfold call.
  - by destruct (answer s) as [ [a|e| |] s'].
  - apply Forall_cons in Hf as [Hv Hf]. destruct (v c) eqn:Hc.
    + by destruct (answer s) as [ [a|e| |] s'].
    + split; [|done]. apply HX. by exists v.
    + split; [apply HD|]; by exists v.
Qed.

(** What a run gives, from its weakest precondition. *)
Lemma wp_run m Q X D s f : wp m Q X D s -> Forall ok f ->
  match m s f with
  | (Ret a, s', _) => Q a s'
  | (Throw e, s', _) => X e s'
  | (Crashed, s', _) => D s' /\ faulty
  | (Panicked, _, _) => False
  end.
Proof.
  intros H Hf. specialize (H f Hf). by destruct (m s f) as [ [ [a|e| |] s'] f']; [apply H|apply H| |].
Qed.
End rules.

(** A loop invariant indexed by the items already processed; the items may
    carry more than what the loop sees of them. *)
Lemma wp_forI {T A B} (g : T -> A) (step : B -> A -> IO S C E B) (I : list T -> B -> S -> Prop)
  (Q : B -> S -> Prop) (X : E -> S -> Prop) (D : S -> Prop) l : forall pre acc s,
  I pre acc s ->
  (forall pre' x post acc s, pre ++ l = pre' ++ x :: post -> I pre' acc s ->
     wp (step acc (g x)) (fun acc' s' => I (pre' ++ [x]) acc' s') X D s) ->
  (forall acc s, I (pre ++ l) acc s -> Q acc s) ->
  wp (forI step acc (map g l)) Q X D s.
Proof.
  induction l as [|x l IH]; intros pre acc s HI Hstep HQ; cbn [forI map].
  - apply wp_ret, HQ. by rewrite app_nil_r.
  - apply wp_bind. eapply wp_mono; [by apply (Hstep pre x l)| |done|done].
    intros acc' s' HI'. apply (IH (pre ++ [x])); [done| |].
    + intros pre' y post acc2 s2 Heq. apply Hstep with post. by rewrite <- Heq, <- app_assoc.
    + intros acc2 s2 H2. apply HQ. by rewrite <- app_assoc in H2.
Qed.
End wp.

#[global] Opaque wp.

(** No fault: the undisturbed run. *)
Definition calm {C} (v : C -> verdict) : Prop := False.
Lemma calm_not_faulty {C} : ~ faulty (C:=C) calm.
Proof. by intros []. Qed.

(** Any fault at any call. *)
Definition any_fault {C} (v : C -> verdict) : Prop := True.
Lemma any_fault_all {C} (f : list (C -> verdict)) : Forall any_fault f.
Proof. by apply Forall_forall. Qed.
