(* ===== verification/FileSystem.v ===== *)
(** * FileSystem: the no-follow file primitives of publication

    Models [crates/aros-common/src/publication/unix/filesystem.rs] and the
    readers of [unix/regular.rs] over a file system that is a map from paths to
    nodes.  The system calls are the kernel's ([rustix] only forwards them);
    each one is a [call] of [CrashIO], so it can fail or be the last.  A
    descriptor is named by the path it was opened at: no modelled program
    renames or removes a directory it holds open, and no other process touches
    the tree (writers hold the publication lock).  Timestamps are not part of
    a node. *)

From stdpp Require Import gmap.
From S2P Require Import Prelude Text Digest Publication CrashIO.

(** ** Paths

    A [Path] is its sequence of components, which is what its equality, its
    prefix tests and its traversal look at. *)
Abbreviation path := (list component).

#[global] Instance identity_eq_dec : EqDecision FileIdentity.
Proof. solve_decision. Defined.
#[global] Instance component_countable : Countable component.
Proof.
  refine (inj_countable'
    (fun c => match c with RootDir => inl 0%nat | CurDir => inl 1%nat | ParentDir => inl 2%nat
              | Normal n => inr n end)
    (fun x => match x with inl 0%nat => RootDir | inl 1%nat => CurDir | inl _ => ParentDir
              | inr n => Normal n end) _).
  by intros [].
Defined.

Definition path_eq_dec : EqDecision path := _.
Definition path_countable : Countable path := _.

Definition path_is_absolute (p : path) : bool :=
  match p with RootDir :: _ => true | _ => false end.

(** [Path::parent] and [Path::file_name] *)
Definition parent_of (p : path) : option path :=
  match last p with
  | None | Some RootDir => None
  | Some _ => Some (removelast p)
  end.
Definition leaf_of (p : path) : option (list Z) :=
  match last p with
  | Some (Normal name) => Some name
  | _ => None
  end.

(** [Path::strip_prefix] and [Path::join] of one plain name *)
Fixpoint strip_scope (scope p : path) : option path :=
  match scope, p with
  | [], _ => Some p
  | a :: scope, b :: p => if decide (a = b) then strip_scope scope p else None
  | _ :: _, [] => None
  end.
Definition join_name (p : path) (name : list Z) : path := p ++ [Normal name].

(** ** Nodes and errors *)
Inductive node :=
| Dir (id : FileIdentity)
| Reg (id : FileIdentity) (bytes : list Z) (mode : Z)
| Irregular (id : FileIdentity) (symlink : bool).
Abbreviation nodes := (@gmap path path_eq_dec path_countable node).

#[global] Instance node_eq_dec : EqDecision node.
Proof. solve_decision. Defined.

Definition node_id (n : node) : FileIdentity :=
  match n with Dir id | Reg id _ _ | Irregular id _ => id end.

Inductive errno := NOENT | EXIST | NOTDIR | LOOP | ISDIR | EIO.
Inductive ErrorKind :=
| NotFound | AlreadyExists | InvalidInput | InvalidData | PermissionDenied
| NotADirectory | IsADirectory | FilesystemLoop | InvalidFilename | UnsupportedKind | OtherKind.

(** Where an error is raised; its message is not modelled further. *)
Inductive site :=
| NoFileName | NoParentDirectory | NotNormalized | TraversalChanged
| NotRegular | ReadLimit | ChangedWhileReading
| StagedIdentityChanged | ReadbackFailed | RemoveMismatch | AuxParentChanged
| CleanupIncomplete | BadJournal | JournalUnparsable | RecoveryIncompleteAt | JournalNotRemoved
| UnownedJournalStage | JournalDisappeared
| CommitParentChanged | TargetChanged | BackupChanged | StageChanged | InstalledMismatch
| RollbackParentChanged | RollbackErrors | RestoredMismatch
| RollbackIncomplete | CommittedUnsynced | TargetExists | PublishedMismatch | RenamedUnsynced
| EscapesScope | PortableCollision | ConflictingMutation | DuplicateMarker | NonPortableMode
| NonPortableName | SerializationFailed | InjectedPath | CasPrecondition | CasChanged | NoContainmentScope.

(** [std::io::Error]: from the kernel, with a kind, or carrying a typed
    [PublicationError]. *)
Inductive error :=
| Os (e : errno)
| Failure (kind : ErrorKind) (at_site : site)
| Typed (e : PublicationError) (at_site : site).

Definition kind (e : error) : ErrorKind :=
  match e with
  | Os NOENT => NotFound | Os EXIST => AlreadyExists | Os NOTDIR => NotADirectory
  | Os ISDIR => IsADirectory | Os LOOP => FilesystemLoop | Os EIO => OtherKind
  | Failure k _ => k
  | Typed _ _ => OtherKind
  end.
Definition is_not_found (e : error) : bool :=
  match kind e with NotFound => true | _ => false end.

(** [publication_failure_class] and [is_rollback_incomplete] *)
Definition publication_failure_class (e : error) : PublicationFailureClass :=
  match e with
  | Typed source _ => failure_class source
  | _ => match kind e with
         | AlreadyExists => Conflict
         | InvalidInput | InvalidFilename | NotADirectory | IsADirectory | PermissionDenied => UnsafeTarget
         | UnsupportedKind => Unsupported
         | _ => Io
         end
  end.
Definition is_rollback_incomplete (e : error) : bool :=
  match e with Typed source _ => rollback_incomplete source | _ => false end.

(** The constructors of [PublicationError], wrapped by [io_failure]. *)
Definition io_rollback (at_site : site) : error :=
  Typed (mkPublicationError RecoveryIncomplete true) at_site.
Definition io_uncertain (at_site : site) : error :=
  Typed (mkPublicationError CommitStateUncertain false) at_site.
Definition io_conflict (at_site : site) : error :=
  Typed (mkPublicationError Conflict false) at_site.
Definition other (at_site : site) : error := Failure OtherKind at_site.

(** [combine_primary_and_cleanup], which is only called with [rollback = true] *)
Definition combine_primary_and_cleanup (primary : error) (cleanup : list error) : error :=
  match cleanup with [] => primary | _ => io_rollback CleanupIncomplete end.

(** ** The kernel

    A new node gets an identity no live node has; identities of removed nodes
    may come back. *)
Class Os_params := {
  fresh_identity : nodes -> FileIdentity;
  fresh_identity_unused : forall (s : nodes) p n, s !! p = Some n -> node_id n <> fresh_identity s;
  umask : Z;
  current_directory : path;
}.

(** A kernel that satisfies the interface, for evaluation on concrete inputs:
    inode numbers grow. *)
Definition max_inode (s : nodes) : Z :=
  foldr (fun pn m => Z.max (inode (node_id (snd pn))) m) 0 (map_to_list s).
Lemma max_inode_spec s p n : s !! p = Some n -> inode (node_id n) <= max_inode s.
Proof.
  intros Hs. apply elem_of_map_to_list in Hs. unfold max_inode. revert Hs. generalize (map_to_list s). intros l.
  induction l as [|x l IH]; [by intros ?%elem_of_nil|]. intros [<- |Hl%IH]%elem_of_cons; cbn; lia.
Qed.
Program Definition toy_os : Os_params :=
  {| fresh_identity s := mkIdentity 1 (max_inode s + 1); umask := 0; current_directory := [RootDir] |}.
Next Obligation.
  intros s p n Hs%max_inode_spec E. apply (f_equal inode) in E. cbn in E. lia.
Qed.

Inductive syscall :=
| CurrentDir
| OpenDir (p : path) | Mkdir (p : path)
| Fstat (p : path) | Statat (p : path)
| OpenRead (p : path) | ReadToEnd (p : path)
| OpenCreate (p : path) | SetPermissions (p : path) | WriteAll (p : path)
| Fsync (p : path) | Flock (p : path)
| RenameAt (source target : path) | Unlink (p : path)
| FailPoint (name : list Z).

Abbreviation io := (IO nodes syscall error).

(** [Stat]: the fields the code reads. *)
Record stat := mkStat { st_identity : FileIdentity; st_is_file : bool; st_mode : Z; st_size : Z }.
Definition stat_of (n : node) : stat :=
  match n with
  | Reg id bytes mode => mkStat id true mode (len bytes)
  | Dir id => mkStat id false 0 0
  | Irregular id _ => mkStat id false 0 0
  end.

Section kernel.
Context {O : Os_params}.

Definition sys {A} (c : syscall) (answer : nodes -> outcome error A * nodes) : io A :=
  call (Os EIO) c (fun _ s => s) answer.

Definition current_dir : io path := sys CurrentDir (fun s => (Ret current_directory, s)).

Definition open_dir (p : path) : io unit := sys (OpenDir p) (fun s =>
  (match s !! p with
   | Some (Dir _) => Ret tt
   | Some _ => Throw (Os NOTDIR)
   | None => Throw (Os NOENT)
   end, s)).

Definition mkdir (p : path) : io unit := sys (Mkdir p) (fun s =>
  match s !! p with
  | Some _ => (Throw (Os EXIST), s)
  | None => (Ret tt, <[p := Dir (fresh_identity s)]> s)
  end).

Definition fstat (p : path) : io stat := sys (Fstat p) (fun s =>
  (match s !! p with Some n => Ret (stat_of n) | None => Throw (Os NOENT) end, s)).
Definition statat (p : path) : io stat := sys (Statat p) (fun s =>
  (match s !! p with Some n => Ret (stat_of n) | None => Throw (Os NOENT) end, s)).

(** Without following a final symbolic link. *)
Definition open_read (p : path) : io unit := sys (OpenRead p) (fun s =>
  (match s !! p with
   | Some (Irregular _ true) => Throw (Os LOOP)
   | Some _ => Ret tt
   | None => Throw (Os NOENT)
   end, s)).

(** [take(limit).read_to_end] *)
Definition read_to_end (p : path) (limit : Z) : io (list Z) := sys (ReadToEnd p) (fun s =>
  (match s !! p with
   | Some (Reg _ bytes _) =>
     Ret (if len bytes <=? limit then bytes else take (Z.to_nat limit) bytes)
   | _ => Throw (Os ISDIR)
   end, s)).

(** [O_CREAT | O_EXCL] *)
Definition create_new (p : path) (raw_mode : Z) : io unit := sys (OpenCreate p) (fun s =>
  match s !! p with
  | Some _ => (Throw (Os EXIST), s)
  | None => (Ret tt, <[p := Reg (fresh_identity s) [] (Z.land raw_mode (Z.lnot umask))]> s)
  end).

(** [O_CREAT] alone: an existing regular file is opened as it is. *)
Definition create_or_open (p : path) (raw_mode : Z) : io unit := sys (OpenCreate p) (fun s =>
  match s !! p with
  | Some (Reg _ _ _) => (Ret tt, s)
  | Some (Dir _) => (Throw (Os ISDIR), s)
  | Some (Irregular _ symlink) => (if symlink then Throw (Os LOOP) else Ret tt, s)
  | None => (Ret tt, <[p := Reg (fresh_identity s) [] (Z.land raw_mode (Z.lnot umask))]> s)
  end).

Definition on_regular (p : path) (f : FileIdentity -> list Z -> Z -> node) (s : nodes) : nodes :=
  match s !! p with
  | Some (Reg id bytes mode) => <[p := f id bytes mode]> s
  | _ => s
  end.
Definition set_permissions (p : path) (mode : Z) : io unit := sys (SetPermissions p) (fun s =>
  (Ret tt, on_regular p (fun id bytes _ => Reg id bytes mode) s)).

(** A write that fails or is interrupted may have appended a part. *)
Definition write_all (p : path) (contents : list Z) : io unit :=
  call (Os EIO) (WriteAll p)
    (fun n => on_regular p (fun id bytes mode => Reg id (bytes ++ take n contents) mode))
    (fun s => (Ret tt, on_regular p (fun id bytes mode => Reg id (bytes ++ contents) mode) s)).

(** Durability only: the visible tree is unchanged. *)
Definition fsync (p : path) : io unit := sys (Fsync p) (fun s => (Ret tt, s)).
Definition flock (p : path) : io unit := sys (Flock p) (fun s => (Ret tt, s)).

Definition unlink (p : path) : io unit := sys (Unlink p) (fun s =>
  match s !! p with
  | None => (Throw (Os NOENT), s)
  | Some (Dir _) => (Throw (Os ISDIR), s)
  | Some _ => (Ret tt, delete p s)
  end).

Definition renameat_noreplace (source target : path) : io unit := sys (RenameAt source target) (fun s =>
  match s !! source, s !! target with
  | None, _ => (Throw (Os NOENT), s)
  | _, Some _ => (Throw (Os EXIST), s)
  | Some n, None => (Ret tt, <[target := n]> (delete source s))
  end).

(** Renaming one link of a file over another link of it does nothing. *)
Definition renameat (source target : path) : io unit := sys (RenameAt source target) (fun s =>
  match s !! source, s !! target with
  | None, _ => (Throw (Os NOENT), s)
  | Some _, Some (Dir _) => (Throw (Os ISDIR), s)
  | Some n, Some old =>
    (Ret tt, if decide (node_id old = node_id n) then s else <[target := n]> (delete source s))
  | Some n, None => (Ret tt, <[target := n]> (delete source s))
  end).

(** Debug builds can be asked to fail here; release builds go through. *)
Definition test_fail_point (name : list Z) : io unit := sys (FailPoint name) (fun s => (Ret tt, s)).
End kernel.

(** ** [filesystem.rs] and [regular.rs] *)
Record ParentHandle := mkParent { fd : path; leaf : list Z; handle_path : path }.
Definition snapshot : Type := FileIdentity * list Z * Z.

(** [sibling_name]: [{nonce:016x}] of a [u64] is sixteen digits. *)
Definition hex16 (n : Z) : list Z :=
  map (fun i => hex_digit (Z.land (Z.shiftr n (4 * i)) 15)) [15;14;13;12;11;10;9;8;7;6;5;4;3;2;1;0].
Definition sibling_name {H : Sha256} (leaf purpose : list Z) (nonce : Z) : list Z :=
  rs ".aros-" ++ purpose ++ rs "-" ++ take 16 (sha256_bytes leaf) ++ rs "-" ++ hex16 nonce.

(** The octal literals of the source. *)
Definition o600 : Z := 6 * 64.
Definition o644 : Z := 6 * 64 + 4 * 8 + 4.
Definition o755 : Z := 7 * 64 + 5 * 8 + 5.
Definition o7777 : Z := 8 ^ 4 - 1.

Definition permission_mode_from_stat (st : stat) : Z := Z.land (st_mode st) o7777.
Definition same_regular_snapshot (before after : stat) (bytes : Z) : bool :=
  bool_decide (st_identity before = st_identity after) && (0 <=? st_size before)
  && (st_size before =? bytes) && (st_size before =? st_size after)
  && (st_mode before =? st_mode after).
Definition saturating_succ (n : Z) : Z := if n <? u64_max then n + 1 else u64_max.

Section primitives.
Context {O : Os_params} {H : Sha256}.

(** [absolute_path] outside macOS *)
Definition absolute_path (p : path) : io path :=
  if path_is_absolute p then mret p else cwd ← current_dir; mret (cwd ++ p).

(** One component of the descriptor walk of [open_parent]. *)
Definition walk (create : bool) (fd : path) (c : component) : io path :=
  match c with
  | RootDir => mret fd
  | Normal name =>
    let next := join_name fd name in
    opened ← attempt (open_dir next);
    match opened with
    | inl _ => mret next
    | inr (Os NOENT) =>
      if create then
        made ← attempt (mkdir next);
        _ ← match made with
            | inl _ => fsync fd
            | inr (Os EXIST) => mret tt
            | inr e => throw e
            end;
        _ ← open_dir next;
        mret next
      else throw (Os NOENT)
    | inr e => throw e
    end
  | CurDir | ParentDir => throw (Failure InvalidInput NotNormalized)
  end.

Definition open_parent (p : path) (create : bool) : io ParentHandle :=
  absolute ← absolute_path p;
  leaf ← pure (ok_or (leaf_of absolute) (Failure InvalidInput NoFileName));
  parent_path ← pure (ok_or (parent_of absolute) (Failure InvalidInput NoParentDirectory));
  _ ← open_dir [RootDir];
  traversed ← forI (walk create) [RootDir] parent_path;
  path_stat ← fstat traversed;
  _ ← open_dir traversed;
  reopened_stat ← fstat traversed;
  _ ← pure (ensure (bool_decide (st_identity path_stat = st_identity reopened_stat))
                   (other TraversalChanged));
  mret (mkParent traversed leaf parent_path).

(** The node a handle's leaf names. *)
Definition at_leaf (h : ParentHandle) : path := join_name (fd h) (leaf h).

Definition read_regular_with_mode_bounded (p : path) (max_bytes : Z) : io (option snapshot) :=
  parent ← attempt (open_parent p false);
  match parent with
  | inr e => if is_not_found e then mret None else throw e
  | inl parent =>
    opened ← attempt (open_read (at_leaf parent));
    match opened with
    | inr (Os NOENT) => mret None
    | inr e => throw e
    | inl _ =>
      st ← fstat (at_leaf parent);
      _ ← pure (ensure (st_is_file st) (Failure InvalidInput NotRegular));
      bytes ← read_to_end (at_leaf parent) (saturating_succ max_bytes);
      _ ← pure (refuse (max_bytes <? Z.min (len bytes) u64_max) (Failure InvalidInput ReadLimit));
      final_stat ← fstat (at_leaf parent);
      _ ← pure (ensure (same_regular_snapshot st final_stat (len bytes)) (other ChangedWhileReading));
      mret (Some (st_identity st, bytes, permission_mode_from_stat st))
    end
  end.
Definition read_regular_with_mode (p : path) : io (option snapshot) :=
  read_regular_with_mode_bounded p u64_max.
Definition read_regular_bounded (p : path) (max_bytes : Z) : io (option (FileIdentity * list Z)) :=
  snapshot ← read_regular_with_mode_bounded p max_bytes;
  mret (fst <$> snapshot).
Definition read_regular (p : path) : io (option (FileIdentity * list Z)) :=
  read_regular_bounded p u64_max.

Definition identity_at_fd (fd : path) (leaf : list Z) : io (option FileIdentity) :=
  st ← attempt (statat (join_name fd leaf));
  match st with
  | inl st => if st_is_file st then mret (Some (st_identity st)) else throw (Failure InvalidInput NotRegular)
  | inr (Os NOENT) => mret None
  | inr e => throw e
  end.
Definition identity_at (parent : ParentHandle) (leaf : list Z) : io (option FileIdentity) :=
  identity_at_fd (fd parent) leaf.

Definition rename_noclobber (source_parent : ParentHandle) (source : list Z)
  (target_parent : ParentHandle) (target : list Z) : io unit :=
  renameat_noreplace (join_name (fd source_parent) source) (join_name (fd target_parent) target).

Definition remove_at (parent : ParentHandle) (expected : option FileIdentity) : io unit :=
  current ← identity_at parent (leaf parent);
  match current with
  | None => mret tt
  | Some _ =>
    _ ← pure (refuse (bool_decide (is_Some expected) && negb (bool_decide (current = expected)))
                     (other RemoveMismatch));
    _ ← unlink (at_leaf parent);
    fsync (fd parent)
  end.

Definition remove_at_exact_mode (parent : ParentHandle) (expected : FileIdentity)
  (expected_digest : list Z) (expected_mode : option Z) : io unit :=
  current ← read_regular_with_mode (join_name (handle_path parent) (leaf parent));
  match current with
  | None => mret tt
  | Some (identity, bytes, mode) =>
    _ ← pure (refuse (negb (bool_decide (identity = expected))
                      || negb (eqb_list (sha256_bytes bytes) expected_digest)
                      || match expected_mode with Some e => negb (e =? mode) | None => false end)
                     (other RemoveMismatch));
    _ ← unlink (at_leaf parent);
    fsync (fd parent)
  end.
Definition remove_at_exact (parent : ParentHandle) (expected : FileIdentity)
  (expected_digest : list Z) : io unit :=
  remove_at_exact_mode parent expected expected_digest None.
Definition remove_regular_exact (p : path) (expected : FileIdentity) (expected_digest : list Z)
  : io unit :=
  parent ← open_parent p false;
  remove_at_exact parent expected expected_digest.

(** [write_new_file_mode]: the closure that fills the created file, and the
    removal of the file when it fails. *)
Definition fill_new_file (p : path) (parent : ParentHandle) (identity : FileIdentity)
  (contents : list Z) (mode : Z) : io unit :=
  _ ← test_fail_point (rs "stage-before-write");
  _ ← set_permissions (at_leaf parent) mode;
  _ ← write_all (at_leaf parent) contents;
  _ ← fsync (at_leaf parent);
  st ← fstat (at_leaf parent);
  _ ← pure (ensure (bool_decide (st_identity st = identity)) (other StagedIdentityChanged));
  _ ← fsync (fd parent);
  measured ← read_regular_with_mode p;
  pure (ensure (match measured with
                | Some (current, bytes, current_mode) =>
                  bool_decide (current = identity)
                  && eqb_list (sha256_bytes bytes) (sha256_bytes contents)
                  && (current_mode =? mode)
                | None => false
                end) (other ReadbackFailed)).
Definition write_new_file_mode (p : path) (contents : list Z) (mode : Z) : io FileIdentity :=
  parent ← open_parent p true;
  _ ← create_new (at_leaf parent) mode;
  st ← fstat (at_leaf parent);
  let identity := st_identity st in
  written ← attempt (fill_new_file p parent identity contents mode);
  match written with
  | inl _ => mret identity
  | inr e =>
    cleanup ← attempt (remove_at parent (Some identity));
    throw (combine_primary_and_cleanup e (match cleanup with inl _ => [] | inr c => [c] end))
  end.
Definition write_new_file (p : path) (contents : list Z) : io FileIdentity :=
  write_new_file_mode p contents o644.

Definition sync_parent (p : path) : io unit :=
  parent ← open_parent p false;
  fsync (fd parent).
End primitives.
