(* ===== verification/FileSpecs.v ===== *)
(** * FileSpecs: what the file primitives do

    Weakest preconditions of the primitives of [FileSystem], from an arbitrary
    state, for an arbitrary set of injected faults: the state each one leaves
    on return, on error and at a crash.  Programs above them are executed
    symbolically with these lemmas. *)

From stdpp Require Import gmap.
From S2P Require Import Prelude Text Digest Publication CrashIO FileSystem.

(** ** Paths and directories *)
Definition normal_path (p : path) : Prop :=
  exists (ds : list (list Z)) (l : list Z), p = RootDir :: map Normal ds ++ [Normal l].
Definition under (q p : path) : Prop := q <> [] /\ exists r, r <> [] /\ p = q ++ r.
Definition is_dir (s : nodes) (q : path) : Prop := exists id, s !! q = Some (Dir id).
Definition dirs (s : nodes) (p : path) : Prop := forall q, under q p -> is_dir s q.

(** The handle [open_parent] returns for a normalised path. *)
Definition handle (p : path) : ParentHandle :=
  mkParent (removelast p) (default [] (leaf_of p)) (removelast p).

(** The file system after the missing ancestors of [p] are made. *)
Definition grown (p : path) (s s' : nodes) : Prop :=
  forall q, s' !! q = s !! q \/ (s !! q = None /\ is_dir s' q /\ under q p).

(** What a read of a node sees: [None] is a node that cannot be read. *)
Definition node_measure (max : Z) (n : option node) : option (option snapshot) :=
  match n with
  | None => Some None
  | Some (Reg id bytes mode) =>
    if len bytes <=? max then Some (Some (id, bytes, Z.land mode o7777)) else None
  | Some _ => None
  end.
Definition measure_bounded (max : Z) (s : nodes) (p : path) : option (option snapshot) :=
  node_measure max (s !! p).
Definition measure (s : nodes) (p : path) : option (option snapshot) := measure_bounded u64_max s p.

(** The calls of [open_parent] and of a read. *)
Definition dir_call (p : path) (c : syscall) : Prop :=
  (exists q, c = OpenDir q /\ q `prefix_of` p) \/ c = Fstat (removelast p).
Definition read_call (p : path) (c : syscall) : Prop :=
  dir_call p c \/ c = OpenRead p \/ c = Fstat p \/ c = ReadToEnd p.

Lemma normal_not_under_self p : ~ under p p.
Proof. intros [_ (r & Hr & E)]. apply (f_equal length) in E. rewrite length_app in E. destruct r; [done|cbn in E; lia]. Qed.

Lemma normal_path_shape p : normal_path p ->
  at_leaf (handle p) = p /\ path_is_absolute p = true /\ leaf_of p = Some (leaf (handle p))
  /\ parent_of p = Some (removelast p) /\ join_name (handle_path (handle p)) (leaf (handle p)) = p
  /\ under (removelast p) p.
Proof.
  intros (ds & l & ->). unfold at_leaf, handle, leaf_of, parent_of, join_name.
  rewrite !app_comm_cons, !last_snoc. cbn [default fd leaf handle_path].
  rewrite !removelast_last. repeat split; try done. by exists [Normal l].
Qed.

Lemma grown_refl p s : grown p s s.
Proof. intros q. by left. Qed.
Lemma grown_mkdir p s s' q id : grown p s s' -> under q p -> s' !! q = None ->
  grown p s (<[q := Dir id]> s').
Proof.
  intros Hg Hu Hn q'. destruct (decide (q' = q)) as [->|Hne].
  - right. destruct (Hg q) as [E|(E & [id' E'] & _)]; [|congruence].
    split; [congruence|]. split; [|done]. exists id. by rewrite lookup_insert_eq.
  - rewrite lookup_insert_ne by done. destruct (Hg q') as [E|(E & [id' E'] & Hu')]; [by left|right].
    split; [done|]. split; [|done]. exists id'. by simplify_map_eq.
Qed.
Lemma grown_dir p s s' q : grown p s s' -> is_dir s q -> is_dir s' q.
Proof. intros Hg [id Hq]. destruct (Hg q) as [E|(E & _)]; [exists id; congruence|congruence]. Qed.

(** ** Calls *)
Section specs.
Context {O : Os_params} {H : Sha256} (ok : (syscall -> verdict) -> Prop).
Implicit Types (p q : path) (s : nodes) (create : bool) (X : error -> nodes -> Prop) (D : nodes -> Prop).
Abbreviation wp := (wp ok).
Abbreviation faulty := (faulty ok).
Abbreviation may_fail := (may_fail ok).

Lemma wp_sys {A} (c : syscall) (answer : nodes -> outcome error A * nodes) (Q : A -> nodes -> Prop)
  X D s :
  match answer s with
  | (Ret a, s') => Q a s'
  | (Throw e, s') => X e s'
  | _ => False
  end ->
  (forall n, may_fail c n -> X (Os EIO) s) -> (faulty -> D s) -> wp (sys c answer) Q X D s.
Proof.
  intros Ha HX HD. apply wp_call; [done|done|]. intros n Hn. eapply HD, may_crash_faulty, Hn.
Qed.

(** Symbolic execution: bind, then the given specification. *)
Ltac wstep lem := apply wp_bind; eapply lem.

Lemma wp_open_dir p (Q : unit -> nodes -> Prop) X D s :
  is_dir s p -> Q tt s -> (forall n, may_fail (OpenDir p) n -> X (Os EIO) s) -> (faulty -> D s) ->
  wp (open_dir p) Q X D s.
Proof. intros [id Hp] HQ HX HD. apply wp_sys; [by rewrite Hp|done..]. Qed.

Lemma wp_open_dir_cases p (Q : unit -> nodes -> Prop) X D s :
  (is_dir s p -> Q tt s) -> (s !! p = None -> X (Os NOENT) s) -> (~ is_dir s p -> X (Os NOTDIR) s) ->
  (faulty -> X (Os EIO) s) -> (faulty -> D s) -> wp (open_dir p) Q X D s.
Proof.
  intros HQ HX HX' HX'' HD. apply wp_sys; [|intros n Hn; eapply HX'', may_fail_faulty, Hn|done].
  destruct (s !! p) as [ [id|id b m|id sl]|] eqn:E; [apply HQ; by exists id|apply HX'..|by apply HX].
  all: intros [id' Hid]; congruence.
Qed.

Lemma wp_mkdir p (Q : unit -> nodes -> Prop) X D s :
  s !! p = None -> Q tt (<[p := Dir (fresh_identity s)]> s) -> (faulty -> X (Os EIO) s) -> (faulty -> D s) ->
  wp (mkdir p) Q X D s.
Proof.
  intros Hp HQ HX HD. apply wp_sys; [by rewrite Hp| |done]. intros n Hn. eapply HX, may_fail_faulty, Hn.
Qed.

Lemma wp_fstat p (n : node) (Q : stat -> nodes -> Prop) X D s :
  s !! p = Some n -> Q (stat_of n) s -> (forall n, may_fail (Fstat p) n -> X (Os EIO) s) ->
  (faulty -> D s) -> wp (fstat p) Q X D s.
Proof. intros Hp HQ HX HD. apply wp_sys; [by rewrite Hp|done..]. Qed.

Lemma wp_fsync p (Q : unit -> nodes -> Prop) X D s :
  Q tt s -> (faulty -> X (Os EIO) s) -> (faulty -> D s) -> wp (fsync p) Q X D s.
Proof. intros HQ HX HD. apply wp_sys; [done| |done]. intros n Hn. eapply HX, may_fail_faulty, Hn. Qed.

Lemma wp_fail_point (name : list Z) (Q : unit -> nodes -> Prop) X D s :
  Q tt s -> (faulty -> X (Os EIO) s) -> (faulty -> D s) -> wp (test_fail_point name) Q X D s.
Proof. intros HQ HX HD. apply wp_sys; [done| |done]. intros n Hn. eapply HX, may_fail_faulty, Hn. Qed.

Lemma wp_unlink p (id : FileIdentity) (b : list Z) (m : Z) (Q : unit -> nodes -> Prop) X D s :
  s !! p = Some (Reg id b m) -> Q tt (delete p s) -> (faulty -> X (Os EIO) s) -> (faulty -> D s) ->
  wp (unlink p) Q X D s.
Proof.
  intros Hp HQ HX HD. apply wp_sys; [by rewrite Hp| |done]. intros n Hn. eapply HX, may_fail_faulty, Hn.
Qed.

(** The two outcomes of a no-clobber rename, and its preconditions. *)
Lemma wp_rename_noreplace (a b : path) (n : node) (Q : unit -> nodes -> Prop) X D s :
  s !! a = Some n -> s !! b = None -> Q tt (<[b := n]> (delete a s)) ->
  (faulty -> X (Os EIO) s) -> (faulty -> D s) -> wp (renameat_noreplace a b) Q X D s.
Proof.
  intros Ha Hb HQ HX HD. apply wp_sys; [by rewrite Ha, Hb| |done].
  intros k Hn. eapply HX, may_fail_faulty, Hn.
Qed.

(** ** [open_parent] *)
Lemma wp_walk create (ds : list (list Z)) : forall q (Q : path -> nodes -> Prop) X D s,
  (forall ds1 ds2, ds = ds1 ++ ds2 -> ds1 <> [] -> is_dir s (q ++ map Normal ds1)) ->
  Q (q ++ map Normal ds) s ->
  (forall r n, r `prefix_of` (q ++ map Normal ds) -> may_fail (OpenDir r) n -> X (Os EIO) s) ->
  (faulty -> D s) -> wp (forI (walk create) q (map Normal ds)) Q X D s.
Proof.
  induction ds as [|d ds IH]; intros q Q X D s Hdirs HQ HX HD; cbn [map forI].
  { apply wp_ret. by rewrite app_nil_r in HQ. }
  unfold walk at 1. apply wp_bind, wp_bind, wp_attempt.
  assert (forall ds', q ++ map Normal (d :: ds') = join_name q d ++ map Normal ds') as Hmove.
  { intros ds'. unfold join_name. by rewrite <- app_assoc. }
  apply wp_open_dir; [apply (Hdirs [d] ds); done| | |done].
  - apply wp_ret, IH; [|by rewrite <- Hmove|intros r n; rewrite <- Hmove; apply HX|done].
    intros ds1 ds2 -> Hne. rewrite <- Hmove. by apply (Hdirs (d :: ds1) ds2).
  - intros n Hn. apply wp_throw. eapply HX, Hn. rewrite Hmove. by eexists.
Qed.

Lemma wp_open_parent p create (Q : ParentHandle -> nodes -> Prop) X D s :
  normal_path p -> dirs s p -> Q (handle p) s ->
  (forall c n, dir_call p c -> may_fail c n -> X (Os EIO) s) -> (faulty -> D s) ->
  wp (open_parent p create) Q X D s.
Proof.
  intros Hp Hdirs HQ HX HD. destruct (normal_path_shape p Hp) as (_ & Habs & Hleaf & Hpar & _ & Hup).
  assert (forall q n, q `prefix_of` p -> may_fail (OpenDir q) n -> X (Os EIO) s) as HXd.
  { intros q n Hq. apply HX. left. eauto. }
  assert (forall n, may_fail (Fstat (removelast p)) n -> X (Os EIO) s) as HXf.
  { intros n. apply HX. by right. }
  unfold open_parent, absolute_path. rewrite Habs.
  apply wp_bind, wp_ret. rewrite Hleaf, Hpar. apply wp_bind, wp_ret, wp_bind, wp_ret.
  destruct Hp as (ds & l & ->). rewrite app_comm_cons, removelast_last in *.
  wstep wp_open_dir; [apply Hdirs; split; [done|]; by exists (map Normal ds ++ [Normal l]); destruct ds| | |done].
  2: { intros n. apply HXd. by eexists. }
  apply wp_bind. cbn [forI]. apply wp_bind, wp_ret. apply wp_walk; [| | |done].
  - intros ds1 ds2 -> _. apply Hdirs. split; [done|].
    exists (map Normal ds2 ++ [Normal l]). rewrite map_app, <- app_comm_cons, app_assoc. by destruct ds2.
  - destruct (Hdirs _ Hup) as [id Hid]. wstep wp_fstat; [done| |done|done].
    wstep wp_open_dir; [by exists id| | |done]; [|intros n; apply HXd; by eexists].
    wstep wp_fstat; [done| |done|done]. apply wp_bind. eapply wp_pure_ok; [by rewrite bool_decide_true|].
    apply wp_ret. unfold handle in HQ. by rewrite removelast_last, Hleaf in HQ.
  - intros r n [k Hk]. apply HXd. exists (k ++ [Normal l]). by rewrite app_assoc, <- Hk.
Qed.

(** Making the missing ancestors: any prefix of the work may be what remains. *)
Lemma wp_walk_create (ds : list (list Z)) : forall q p (Q : path -> nodes -> Prop) X D s0 s,
  (forall ds1 ds2, ds = ds1 ++ ds2 -> ds1 <> [] -> under (q ++ map Normal ds1) p) ->
  grown p s0 s ->
  (forall s', grown p s0 s' -> (forall r, is_dir s r -> is_dir s' r) ->
     (forall ds1 ds2, ds = ds1 ++ ds2 -> ds1 <> [] -> is_dir s' (q ++ map Normal ds1)) ->
     Q (q ++ map Normal ds) s') ->
  (forall e s', grown p s0 s' -> faulty \/ ~ dirs s0 p -> X e s') -> (forall s', grown p s0 s' -> D s') ->
  wp (forI (walk true) q (map Normal ds)) Q X D s.
Proof.
  induction ds as [|d ds IH]; intros q p Q X D s0 s Hu Hg HQ HX HD; cbn [map forI].
  { apply wp_ret. rewrite <- (app_nil_r q). apply HQ; [done..|]. by intros [] ds2. }
  assert (forall ds', q ++ map Normal (d :: ds') = join_name q d ++ map Normal ds') as Hmove.
  { intros ds'. unfold join_name. by rewrite <- app_assoc. }
  set (next := join_name q d).
  assert (under next p) as Hnext by by apply (Hu [d] ds).
  assert (forall s1, grown p s0 s1 -> (forall r, is_dir s r -> is_dir s1 r) -> is_dir s1 next ->
    wp (forI (walk true) next (map Normal ds)) Q X D s1) as Hrest.
  { intros s1 Hg1 Hmono Hd. eapply IH; [|exact Hg1| |exact HX|exact HD].
    - intros ds1 ds2 -> Hne. unfold next. rewrite <- Hmove. by apply (Hu (d :: ds1) ds2).
    - intros s' Hg' Hmono' Hdirs. unfold next. rewrite <- Hmove. apply HQ; [done|by auto|].
      intros [|d' ds1] ds2 Heq Hne; [done|]. injection Heq as <- ->. rewrite Hmove.
      destruct ds1; [rewrite app_nil_r; auto|]. by apply (Hdirs (l :: ds1) ds2). }
  unfold walk at 1. fold next. apply wp_bind, wp_bind, wp_attempt, wp_open_dir_cases; [| |auto..].
  - intros Hd. by apply wp_ret, Hrest.
  - intros Hs. apply wp_bind, wp_attempt, wp_mkdir; [done| |intros F; apply wp_bind, wp_throw; auto|auto].
    assert (grown p s0 (<[next:=Dir (fresh_identity s)]> s)) as Hg1 by by apply grown_mkdir.
    assert (is_dir (<[next:=Dir (fresh_identity s)]> s) next) as Hd by (eexists; by rewrite lookup_insert_eq).
    apply wp_bind, wp_fsync; [|auto..]. apply wp_bind, wp_open_dir; [done| | |auto].
    2: { intros n Hn. apply HX; [done|left]. by eapply may_fail_faulty. }
    apply wp_ret, Hrest; [done| |done]. intros r [id Hr].
    destruct (decide (r = next)) as [E|]; [subst r; unfold next in *; congruence|]. exists id. by rewrite lookup_insert_ne.
  - intros Hno. apply wp_throw, HX; [done|right]. intros Hd. apply Hno. eapply grown_dir; [done|auto].
  - intros F. apply wp_throw; auto.
Qed.

Lemma wp_open_parent_create p (Q : ParentHandle -> nodes -> Prop) X D s :
  normal_path p ->
  (forall s', grown p s s' -> dirs s' p -> Q (handle p) s') ->
  (forall e s', grown p s s' -> faulty \/ ~ dirs s p -> X e s') -> (forall s', grown p s s' -> D s') ->
  wp (open_parent p true) Q X D s.
Proof.
  intros Hp HQ HX HD. destruct (normal_path_shape p Hp) as (_ & Habs & Hleaf & Hpar & _ & Hup).
  pose proof (grown_refl p s) as Hr.
  unfold open_parent, absolute_path. rewrite Habs.
  apply wp_bind, wp_ret. rewrite Hleaf, Hpar. apply wp_bind, wp_ret, wp_bind, wp_ret.
  assert (under [RootDir] p) as Hroot0.
  { destruct Hp as (ds & l & ->). split; [done|]. exists (map Normal ds ++ [Normal l]). by destruct ds. }
  assert (~ is_dir s [RootDir] -> ~ dirs s p) as Hnoroot by (intros Hno Hd; apply Hno; auto).
  apply wp_bind, wp_open_dir_cases; [intros Hroot| |by auto|by auto|by auto].
  2: { intros Hs. apply HX; [done|right]. apply Hnoroot. intros [id Hid]. congruence. }
  destruct Hp as (ds & l & ->). rewrite app_comm_cons, removelast_last in *.
  apply wp_bind. cbn [forI]. apply wp_bind, wp_ret. eapply wp_walk_create; [|exact Hr| |exact HX|exact HD].
  - intros ds1 ds2 -> _. split; [done|]. exists (map Normal ds2 ++ [Normal l]).
    rewrite map_app, <- app_comm_cons, app_assoc. by destruct ds2.
  - intros s' Hg Hmono Hds. assert (dirs s' ((RootDir :: map Normal ds) ++ [Normal l])) as Hd.
    { intros q [Hne (r & Hr' & Heq)]. destruct r as [|c r _] using rev_ind; [done|].
      rewrite app_assoc in Heq. apply app_inj_tail in Heq as [Heq _].
      destruct q as [|c0 q]; [done|]. injection Heq as <- Heq.
      apply map_eq_app in Heq as (ds1 & ds2 & -> & <- & <-).
      destruct ds1; [auto|]. by apply (Hds _ ds2). }
    assert (forall c n, may_fail c n -> X (Os EIO) s') as HXf.
    { intros c n Hc. apply HX; [done|left]. by eapply may_fail_faulty. }
    destruct (Hd _ Hup) as [id Hid]. wstep wp_fstat; [done| |by eauto|by auto].
    wstep wp_open_dir; [by exists id| |by eauto|by auto]. wstep wp_fstat; [done| |by eauto|by auto].
    apply wp_bind. eapply wp_pure_ok; [by rewrite bool_decide_true|]. apply wp_ret.
    specialize (HQ s' Hg Hd). unfold handle in HQ. by rewrite removelast_last, Hleaf in HQ.
Qed.

(** ** Reading *)
Lemma wp_read_bounded p (max : Z) (Q : option snapshot -> nodes -> Prop) X D s :
  0 <= max <= u64_max -> normal_path p -> dirs s p ->
  (forall r, measure_bounded max s p = Some r -> Q r s) ->
  (forall e, measure_bounded max s p = None -> X e s) ->
  (forall c n, read_call p c -> may_fail c n -> X (Os EIO) s) -> (faulty -> D s) ->
  wp (read_regular_with_mode_bounded p max) Q X D s.
Proof.
  intros Hmax Hp Hdirs HQ HX HXf HD. destruct (normal_path_shape p Hp) as (Hat & _).
  assert (forall n, may_fail (OpenRead p) n -> X (Os EIO) s) as HX1 by (intros n; apply HXf; unfold read_call; tauto).
  assert (forall n, may_fail (Fstat p) n -> X (Os EIO) s) as HX2 by (intros n; apply HXf; unfold read_call; tauto).
  assert (forall n, may_fail (ReadToEnd p) n -> X (Os EIO) s) as HX3 by (intros n; apply HXf; unfold read_call; tauto).
  unfold read_regular_with_mode_bounded. apply wp_bind, wp_attempt, wp_open_parent; [done|done| | |done].
  2: { intros c n Hc Hn. cbn. apply wp_throw. eapply HXf, Hn. by left. }
  rewrite Hat. apply wp_bind, wp_attempt, wp_sys; [| |done].
  2: { intros n Hn. apply wp_throw. eauto. }
  unfold measure_bounded, node_measure in HQ, HX.
  destruct (s !! p) as [ [id|id b m|id [] ]|] eqn:Hs; [| |by apply wp_throw, HX| |by apply wp_ret, HQ].
  1,3: wstep wp_fstat; [exact Hs| |exact HX2|done]; apply wp_bind, wp_throw; by apply HX.
  wstep wp_fstat; [exact Hs| |exact HX2|done]. apply wp_bind, wp_ret.
  apply wp_bind, wp_sys; [|exact HX3|done]. rewrite Hs. pose proof (len_nonneg b).
  assert (len b <= max -> (len b <=? saturating_succ max) = true) as Hlim.
  { intros Hle. apply Z.leb_le. unfold saturating_succ, u64_max in *. destruct (max <? _) eqn:E; bool_prop; lia. }
  destruct (len b <=? max) eqn:Hb; bool_prop.
  - rewrite Hlim by done. apply wp_bind. eapply wp_pure_ok; [unfold refuse; rewrite (proj2 (Z.ltb_ge _ _)) by lia; done|].
    wstep wp_fstat; [exact Hs| |exact HX2|done]. apply wp_bind. eapply wp_pure_ok; [|by apply wp_ret, HQ].
    unfold ensure, same_regular_snapshot. cbn. rewrite bool_decide_true, !Z.eqb_refl by done.
    by rewrite (proj2 (Z.leb_le 0 _)) by lia.
  - apply wp_bind. eapply wp_pure; [apply refuse_not_Stuck| |intros e _; by apply HX].
    intros [] Hr. wstep wp_fstat; [exact Hs| |exact HX2|done].
    apply wp_bind, wp_pure; [apply ensure_not_Stuck| |intros e _; by apply HX].
    intros [] He%ensure_Ok. exfalso. apply refuse_Ok in Hr. bool_prop.
    unfold same_regular_snapshot in He. cbn [stat_of st_size st_identity st_mode] in He. bool_prop.
    set (limit := saturating_succ max) in *. assert (0 <= limit /\ (limit = max + 1 /\ max < u64_max \/ limit = u64_max)) as [? Hl].
    { unfold limit, saturating_succ. destruct (max <? u64_max) eqn:E; bool_prop; unfold u64_max in *; lia. }
    clearbody limit. destruct (len b <=? limit) eqn:E2; bool_prop; [unfold u64_max in *; lia|].
    rewrite len_take in * by lia. lia.
Qed.

Lemma wp_read p (Q : option snapshot -> nodes -> Prop) X D s :
  normal_path p -> dirs s p ->
  (forall r, measure s p = Some r -> Q r s) -> (forall e, measure s p = None -> X e s) ->
  (forall c n, read_call p c -> may_fail c n -> X (Os EIO) s) -> (faulty -> D s) ->
  wp (read_regular_with_mode p) Q X D s.
Proof. intros. by apply wp_read_bounded. Qed.

Lemma wp_read_regular p (Q : option (FileIdentity * list Z) -> nodes -> Prop) X D s :
  normal_path p -> dirs s p ->
  (forall r, measure s p = Some r -> Q (fst <$> r) s) -> (forall e, measure s p = None -> X e s) ->
  (forall c n, read_call p c -> may_fail c n -> X (Os EIO) s) -> (faulty -> D s) ->
  wp (read_regular p) Q X D s.
Proof.
  intros. apply wp_bind, wp_read_bounded; try done.
  intros r Hr. by apply wp_ret; auto.
Qed.

(** ** Probing

    Reading where the directories may be missing: in a file system whose nodes
    all have their ancestors, that is reading an absent file. *)
Definition tree s : Prop := forall p n q, s !! p = Some n -> under q p -> is_dir s q.

Definition above (p : path) : list path := map (fun k => take k p) (seq 1 (length p - 1)).
Lemma above_spec p q : q ∈ above p <-> under q p.
Proof.
  unfold above. rewrite list_elem_of_fmap. split.
  - intros (k & -> & Hk%elem_of_seq). split; [destruct k, p; cbn in *; [lia|lia|lia|done] |].
    exists (drop k p). split; [|by rewrite take_drop]. intros E. apply (f_equal length) in E. rewrite length_drop in E. cbn in E. lia.
  - intros [Hq (r & Hr & ->)]. exists (length q). rewrite take_app_length. split; [done|]. apply elem_of_seq.
    rewrite length_app. destruct q, r; cbn in *; try done. lia.
Qed.
Lemma dirs_above s p : Forall (is_dir s) (above p) <-> dirs s p.
Proof. rewrite Forall_forall. unfold dirs. by setoid_rewrite above_spec. Qed.

#[global] Instance is_dir_dec s q : Decision (is_dir s q).
Proof. unfold is_dir. destruct (s !! q) as [ [id| |]|]; [left; by eexists|right; by intros [? ?]..]. Defined.
#[global] Instance dirs_dec s p : Decision (dirs s p).
Proof.
  destruct (decide (Forall (is_dir s) (above p))) as [Hd|Hd]; [left|right]; [by apply dirs_above|].
  intros Hall. by apply Hd, dirs_above.
Defined.
Lemma tree_forall s : map_Forall (fun p _ => dirs s p) s <-> tree s.
Proof. split; [intros Hs p n q Hp Hq; by apply (Hs p n Hp)|intros Hs p n Hp q Hq; by eapply Hs]. Qed.
#[global] Instance tree_dec s : Decision (tree s).
Proof. destruct (decide (map_Forall (fun p _ => dirs s p) s)) as [Hd|Hd]; [left|right]; by rewrite <- tree_forall. Defined.

Lemma wp_walk_probe (ds : list (list Z)) : forall q (Q : path -> nodes -> Prop) X D s,
  ((forall ds1 ds2, ds = ds1 ++ ds2 -> ds1 <> [] -> is_dir s (q ++ map Normal ds1)) -> Q (q ++ map Normal ds) s) ->
  ((exists ds1 ds2, ds = ds1 ++ ds2 /\ s !! (q ++ map Normal ds1) = None) -> X (Os NOENT) s) ->
  (forall e, is_not_found e = false -> X e s) -> (faulty -> D s) ->
  wp (forI (walk false) q (map Normal ds)) Q X D s.
Proof.
  induction ds as [|d ds IH]; intros q Q X D s HQ HX HX' HD; cbn [map forI].
  { apply wp_ret. rewrite <- (app_nil_r q). apply HQ. by intros [] ds2. }
  assert (forall ds', q ++ map Normal (d :: ds') = join_name q d ++ map Normal ds') as Hmove.
  { intros ds'. unfold join_name. by rewrite <- app_assoc. }
  unfold walk at 1. apply wp_bind, wp_bind, wp_attempt, wp_open_dir_cases; [| | | |done].
  - intros Hd. apply wp_ret, IH; [|intros (ds1 & ds2 & -> & Hn)|done|done].
    + intros Hds. rewrite <- Hmove. apply HQ. intros [|d' ds1] ds2 Heq Hne; [done|]. injection Heq as <- ->. rewrite Hmove.
      destruct ds1; [by rewrite app_nil_r|]. by apply (Hds _ ds2).
    + apply HX. exists (d :: ds1), ds2. by rewrite Hmove.
  - intros Hn. apply wp_throw, HX. exists [d], ds. by rewrite Hmove, app_nil_r.
  - intros _. by apply wp_throw, HX'.
  - intros _. by apply wp_throw, HX'.
Qed.

Lemma wp_open_parent_missing p (Q : ParentHandle -> nodes -> Prop) X D s :
  normal_path p -> ~ dirs s p -> ((exists q, under q p /\ s !! q = None) -> X (Os NOENT) s) ->
  (forall e, is_not_found e = false -> X e s) -> (faulty -> D s) -> wp (open_parent p false) Q X D s.
Proof.
  intros Hp Hno HX HX' HD. destruct (normal_path_shape p Hp) as (_ & Habs & Hleaf & Hpar & _ & Hup).
  unfold open_parent, absolute_path. rewrite Habs.
  apply wp_bind, wp_ret. rewrite Hleaf, Hpar. apply wp_bind, wp_ret, wp_bind, wp_ret.
  assert (under [RootDir] p) as Hroot0.
  { destruct Hp as (ds & l & ->). split; [done|]. exists (map Normal ds ++ [Normal l]). by destruct ds. }
  apply wp_bind, wp_open_dir_cases; [intros Hroot|intros Hn; apply HX; exists [RootDir]; by split|intros _; by apply HX'..|done].
  destruct Hp as (ds & l & ->). rewrite app_comm_cons, removelast_last in *.
  apply wp_bind. cbn [forI]. apply wp_bind, wp_ret. apply wp_walk_probe; [|intros (ds1 & ds2 & -> & Hn)|done|done].
  - intros Hds. destruct Hno. intros q [Hne (r & Hr' & Heq)]. destruct r as [|c r _] using rev_ind; [done|].
    rewrite app_assoc in Heq. apply app_inj_tail in Heq as [Heq _].
    destruct q as [|c0 q]; [done|]. injection Heq as <- Heq.
    apply map_eq_app in Heq as (ds1 & ds2 & -> & <- & <-).
    destruct ds1; [auto|]. by apply (Hds _ ds2).
  - apply HX. exists ([RootDir] ++ map Normal ds1). split; [|done]. split; [done|].
    exists (map Normal ds2 ++ [Normal l]). split; [by destruct ds2|]. cbn. by rewrite map_app, <- app_assoc.
Qed.

Lemma wp_read_probe p (Q : option snapshot -> nodes -> Prop) X D s :
  normal_path p -> tree s -> (forall r, measure s p = Some r -> Q r s) -> (forall e, X e s) ->
  (faulty -> D s) -> wp (read_regular_with_mode p) Q X D s.
Proof.
  intros Hp Ht HQ HX HD. destruct (decide (dirs s p)) as [Hd|Hno]; [by apply wp_read; auto|].
  unfold read_regular_with_mode, read_regular_with_mode_bounded.
  apply wp_bind, wp_attempt, wp_open_parent_missing; [done|done| | |done].
  - intros (q & Hq & Hn). apply wp_ret, HQ. unfold measure, measure_bounded.
    destruct (s !! p) as [n|] eqn:E; [|done]. destruct (Ht p n q E Hq) as [id ?]. congruence.
  - intros e He. rewrite He. by apply wp_throw.
Qed.

(** ** Removing *)
Definition removable s p (id : FileIdentity) (digest : list Z) (mode : option Z) : Prop :=
  exists b m, measure s p = Some (Some (id, b, m)) /\ sha256_bytes b = digest /\
  match mode with Some e => e = m | None => True end.

Lemma measure_Some s p id b m : measure s p = Some (Some (id, b, m)) ->
  exists m', s !! p = Some (Reg id b m') /\ m = Z.land m' o7777.
Proof. unfold measure, measure_bounded, node_measure. intros E. repeat case_match; naive_solver. Qed.
Lemma measure_absent s p : measure s p = Some None <-> s !! p = None.
Proof. unfold measure, measure_bounded, node_measure. split; intros E; repeat case_match; naive_solver. Qed.

Lemma wp_remove_exact_mode p id digest mode (Q : unit -> nodes -> Prop) X D s :
  normal_path p -> dirs s p ->
  (s !! p = None \/ removable s p id digest mode -> Q tt (delete p s)) ->
  (forall e s', (s' = s \/ removable s p id digest mode /\ s' = delete p s) ->
     faulty \/ (s' = s /\ s !! p <> None /\ ~ removable s p id digest mode) -> X e s') ->
  (forall s', (s' = s \/ removable s p id digest mode /\ s' = delete p s) -> D s') ->
  wp (remove_at_exact_mode (handle p) id digest mode) Q X D s.
Proof.
  intros Hp Hdirs HQ HX HD. destruct (normal_path_shape p Hp) as (Hat & _ & _ & _ & Hj & _).
  unfold remove_at_exact_mode. rewrite Hj. apply wp_bind, wp_read; [done|done| | | |auto].
  - intros r Hr. destruct r as [ [ [id' b] m]|].
    2: { apply measure_absent in Hr as Hn. apply wp_ret. rewrite <- (delete_id s p) by done. auto. }
    apply measure_Some in Hr as Hs. destruct Hs as (m' & Hs & ->).
    apply wp_bind, wp_pure; [apply refuse_not_Stuck| |].
    + intros [] Hg%refuse_Ok. rewrite !orb_false_iff, !negb_false_iff in Hg.
      destruct Hg as [ [Hid%bool_decide_eq_true Hd%eqb_list_true] Hm]. subst id'.
      assert (removable s p id digest mode) as Hrem.
      { exists b, (Z.land m' o7777). split; [done|]. split; [done|]. destruct mode; bool_prop; done. }
      rewrite Hat. wstep wp_unlink; [exact Hs| |auto..]. apply wp_fsync; auto 6.
    + intros e He. apply HX; [by left|right]. split; [done|]. split; [congruence|].
      intros (b' & m2 & Hm & Hd & Hmode). rewrite Hr in Hm. injection Hm as <- <- <-.
      unfold refuse in He. rewrite bool_decide_true in He by done.
      rewrite (proj2 (eqb_list_true _ _) Hd) in He. destruct mode; [|done].
      subst z. by rewrite Z.eqb_refl in He.
  - intros e Hn. apply HX; [by left|right]. split; [done|]. split.
    + intros Hs. by rewrite (proj2 (measure_absent s p) Hs) in Hn.
    + intros (b & m & Hm & _). congruence.
  - intros c n _ Hn. apply HX; [by left|left]. by eapply may_fail_faulty.
Qed.

Lemma wp_remove_regular_exact p id digest (Q : unit -> nodes -> Prop) X D s :
  normal_path p -> dirs s p ->
  (s !! p = None \/ removable s p id digest None -> Q tt (delete p s)) ->
  (forall e s', (s' = s \/ removable s p id digest None /\ s' = delete p s) ->
     faulty \/ (s' = s /\ s !! p <> None /\ ~ removable s p id digest None) -> X e s') ->
  (forall s', (s' = s \/ removable s p id digest None /\ s' = delete p s) -> D s') ->
  wp (remove_regular_exact p id digest) Q X D s.
Proof.
  intros Hp Hdirs HQ HX HD. unfold remove_regular_exact. apply wp_bind, wp_open_parent; [done|done| | |auto].
  - by apply wp_remove_exact_mode.
  - intros c n _ Hn. apply HX; [by left|left]. by eapply may_fail_faulty.
Qed.

(** ** Creating *)
(** The states a new file [p] with the given contents passes through. *)
Definition being_written p (contents : list Z) (s s' : nodes) : Prop :=
  s' = s \/ (s !! p = None /\ exists k m, s' = <[p := Reg (fresh_identity s) (take k contents) m]> s).

Lemma dirs_insert_self s p n : dirs s p -> dirs (<[p := n]> s) p.
Proof.
  intros Hd q Hq. destruct (Hd q Hq) as [id Hid]. exists id. rewrite lookup_insert_ne; [done|].
  intros ->. by eapply normal_not_under_self.
Qed.

Lemma wp_identity_at p (Q : option FileIdentity -> nodes -> Prop) X D s :
  normal_path p ->
  (forall id b m, s !! p = Some (Reg id b m) -> Q (Some id) s) -> (s !! p = None -> Q None s) ->
  (forall e, faulty \/ (s !! p <> None /\ forall id b m, s !! p <> Some (Reg id b m)) -> X e s) ->
  (faulty -> D s) -> wp (identity_at (handle p) (leaf (handle p))) Q X D s.
Proof.
  intros Hp HQ HN HX HD. destruct (normal_path_shape p Hp) as (Hat & _). unfold at_leaf in Hat.
  unfold identity_at, identity_at_fd. rewrite Hat. apply wp_bind, wp_attempt, wp_sys; [| |done].
  - destruct (s !! p) as [ [id|id b m|id sl]|] eqn:Hs; cbn [stat_of st_is_file st_identity].
    + apply wp_throw, HX. right. by split.
    + eapply wp_ret, HQ. done.
    + apply wp_throw, HX. right. by split.
    + by apply wp_ret, HN.
  - intros n Hn. apply wp_throw, HX. left. by eapply may_fail_faulty.
Qed.

Lemma wp_remove_at p id b m (Q : unit -> nodes -> Prop) X D s :
  normal_path p -> s !! p = Some (Reg id b m) ->
  (forall s', s' = s \/ s' = delete p s -> Q tt s' /\ (forall e, X e s') /\ D s') ->
  wp (remove_at (handle p) (Some id)) Q X D s.
Proof.
  intros Hp Hs HQ. destruct (HQ s) as (HQ1 & HX1 & HD1); [by left|].
  destruct (HQ (delete p s)) as (HQ2 & HX2 & HD2); [by right|].
  destruct (normal_path_shape p Hp) as (Hat & _). unfold remove_at.
  apply wp_bind, wp_identity_at; [done| |congruence|done|done].
  intros id' b' m' Hs'. rewrite Hs in Hs'. injection Hs' as <- <- <-.
  apply wp_bind. eapply wp_pure_ok; [by rewrite (bool_decide_true (Some id = Some id))|].
  rewrite Hat. wstep wp_unlink; [exact Hs| |done..]. by apply wp_fsync.
Qed.

(** Filling the created file fails only by an injected fault. *)
Lemma wp_fill_new_file p contents mode m0 id (Q : unit -> nodes -> Prop) X D s :
  normal_path p -> dirs s p -> len contents <= u64_max -> Z.land mode o7777 = mode ->
  Q tt (<[p := Reg id contents mode]> s) ->
  (forall e k m, faulty -> X e (<[p := Reg id (take k contents) m]> s)) ->
  (forall k m, D (<[p := Reg id (take k contents) m]> s)) ->
  wp (fill_new_file p (handle p) id contents mode) Q X D (<[p := Reg id [] m0]> s).
Proof.
  intros Hp Hdirs Hlen Hmode HQ HX HD. destruct (normal_path_shape p Hp) as (Hat & _).
  assert (take (length contents) contents = contents) as Hfull by by rewrite take_ge.
  pose proof (HX (Os EIO) (length contents) mode) as HX1. pose proof (HD (length contents) mode) as HD1.
  rewrite Hfull in HX1, HD1.
  unfold fill_new_file. rewrite !Hat. wstep wp_fail_point; [|intros F; by apply (HX _ 0%nat)|intros _; by apply (HD 0%nat)].
  apply wp_bind, wp_sys.
  2: { intros n Hn. apply (HX _ 0%nat). by eapply may_fail_faulty. }
  2: { intros _. by apply (HD 0%nat). }
  unfold on_regular. rewrite lookup_insert_eq, insert_insert_eq.
  apply wp_bind, wp_call; unfold on_regular; rewrite lookup_insert_eq, ?insert_insert_eq; cbn [app].
  2: { intros n Hn. rewrite insert_insert_eq. apply HX. by eapply may_fail_faulty. }
  2: { intros n Hn. rewrite insert_insert_eq. apply HD. }
  wstep wp_fsync; [|done..]. wstep wp_fstat; [by rewrite lookup_insert_eq| | |done].
  2: { intros n Hn. apply HX1. by eapply may_fail_faulty. }
  apply wp_bind. eapply wp_pure_ok; [by rewrite bool_decide_true|]. wstep wp_fsync; [|done..].
  apply wp_bind, wp_read; [done|by apply dirs_insert_self| | | |done].
  - intros r Hr. unfold measure, measure_bounded, node_measure in Hr. rewrite lookup_insert_eq in Hr.
    rewrite (proj2 (Z.leb_le _ _) Hlen) in Hr. injection Hr as <-.
    eapply wp_pure_ok; [|exact HQ]. unfold ensure.
    by rewrite bool_decide_true, (proj2 (eqb_list_true _ _)), Hmode, Z.eqb_refl by done.
  - intros e Hr. unfold measure, measure_bounded, node_measure in Hr. rewrite lookup_insert_eq in Hr.
    by rewrite (proj2 (Z.leb_le _ _) Hlen) in Hr.
  - intros c n _ Hn. apply HX1. by eapply may_fail_faulty.
Qed.

Lemma wp_write_new_file_mode p contents mode (Q : FileIdentity -> nodes -> Prop) X D s :
  normal_path p -> dirs s p -> len contents <= u64_max -> Z.land mode o7777 = mode ->
  (s !! p = None -> Q (fresh_identity s) (<[p := Reg (fresh_identity s) contents mode]> s)) ->
  (forall e s', being_written p contents s s' -> faulty \/ (s' = s /\ s !! p <> None) -> X e s') ->
  (forall s', being_written p contents s s' -> D s') ->
  wp (write_new_file_mode p contents mode) Q X D s.
Proof.
  intros Hp Hdirs Hlen Hmode HQ HX HD. destruct (normal_path_shape p Hp) as (Hat & _).
  assert (being_written p contents s s) as Hnone by by left.
  unfold write_new_file_mode. apply wp_bind, wp_open_parent; [done|done| | |auto].
  2: { intros c n _ Hn. apply HX; [done|left]. by eapply may_fail_faulty. }
  rewrite Hat. apply wp_bind, wp_sys; [| |auto].
  2: { intros n Hn. apply HX; [done|left]. by eapply may_fail_faulty. }
  destruct (s !! p) as [n|] eqn:Hs; [apply HX; [done|by right]|]. set (id := fresh_identity s).
  assert (forall k m, being_written p contents s (<[p := Reg id (take k contents) m]> s)) as Hsome
    by (right; eauto).
  wstep wp_fstat; [by rewrite lookup_insert_eq| | |intros _; by apply HD, (Hsome 0%nat)].
  2: { intros n Hn. apply HX; [apply (Hsome 0%nat)|left]. by eapply may_fail_faulty. }
  cbn [st_identity stat_of]. apply wp_bind, wp_attempt, wp_fill_new_file; [done..| | |].
  - apply wp_ret. by apply HQ.
  - intros e k m F. apply wp_bind, wp_attempt. eapply wp_remove_at; [done|by rewrite lookup_insert_eq|].
    intros s' Hs'. assert (being_written p contents s s') as Hb.
    { destruct Hs' as [->| ->]; [done|]. by rewrite delete_insert_id. }
    split; [|split]; [|intros c|]; [apply wp_throw; auto..|auto].
  - auto.
Qed.
End specs.
