(* ===== verification/Journal.v ===== *)
(** * Journal: the recovery journal of a publication

    Models [crates/aros-common/src/publication/unix/journal.rs] and the journal
    types of [unix/mod.rs]: encoding behind an ownership marker, validation of
    what a recovery reads, replacement through a staged file and a rename, and
    the cleanup of an interrupted replacement.  JSON is the crate [serde_json]:
    the class [JournalCodec]. *)

From stdpp Require Import gmap.
From S2P Require Import Prelude Text Digest Publication CrashIO FileSystem.

Definition JOURNAL_STAGE_MAGIC : list Z := rs "AROS-PUBLICATION-JOURNAL-v2" ++ [10].
Definition SCHEMA_V2 : list Z := rs "aros-publication-journal-v2".
Definition SCHEMA_V3 : list Z := rs "aros-publication-journal-v3".

Inductive JournalState := Prepared | Committed.
Record JournalOperation := mkOperation {
  target : path;
  stage : option path;
  backup : option path;
  parent_identity : FileIdentity;
  original : option FileIdentity;
  original_digest : option (list Z);
  original_mode : option Z;
  desired_digest : option (list Z);
  desired_mode : option Z;
  installed : option FileIdentity;
}.
Record Journal := mkJournal {
  schema : list Z;
  nonce : Z;
  state : JournalState;
  operations : list JournalOperation;
}.

#[global] Instance journal_state_eq_dec : EqDecision JournalState.
Proof. solve_decision. Defined.
#[global] Instance journal_operation_eq_dec : EqDecision JournalOperation.
Proof. solve_decision. Defined.
#[global] Instance journal_eq_dec : EqDecision Journal.
Proof. solve_decision. Defined.

(** [serde_json::to_vec] (which fails on a path that is not UTF-8) and
    [from_slice]: what was written is read back, and a vector holds at most
    [isize::MAX] bytes. *)
Class JournalCodec := {
  to_vec : Journal -> option (list Z);
  from_slice : list Z -> option Journal;
  from_to : forall j b, to_vec j = Some b -> from_slice b = Some j;
  to_vec_len : forall j b, to_vec j = Some b -> len b <= isize_max;
}.

(** A codec that satisfies the interface, for evaluation on concrete inputs:
    self-delimiting encodings, composed. *)
Record coding (A : Type) := mkCoding {
  enc : A -> list Z;
  dec : list Z -> option (A * list Z);
  dec_enc : forall a rest, dec (enc a ++ rest) = Some (a, rest);
}.
Arguments enc {A} c a.
Arguments dec {A} c l.
Arguments dec_enc {A} c a rest.

Program Definition coding_Z : coding Z :=
  {| enc z := [z]; dec l := match l with z :: l => Some (z, l) | [] => None end |}.
Next Obligation. done. Qed.
Program Definition coding_pair {A B} (a : coding A) (b : coding B) : coding (A * B) :=
  {| enc x := enc a (fst x) ++ enc b (snd x); dec l := '(x, l) ← dec a l; '(y, l) ← dec b l; Some ((x, y), l) |}.
Next Obligation. intros A B a b [x y] rest. cbn. rewrite <- app_assoc, dec_enc. cbn. by rewrite dec_enc. Qed.
Program Definition coding_option {A} (a : coding A) : coding (option A) :=
  {| enc o := match o with Some x => 1 :: enc a x | None => [0] end;
     dec l := match l with
              | t :: l => if t =? 0 then Some (None, l) else '(x, l) ← dec a l; Some (Some x, l)
              | [] => None
              end |}.
Next Obligation. intros A a [x|] rest; [|done]. cbn. by rewrite dec_enc. Qed.
Fixpoint dec_many {A} (a : coding A) (n : nat) (l : list Z) : option (list A * list Z) :=
  match n with
  | O => Some ([], l)
  | S n => '(x, l) ← dec a l; '(xs, l) ← dec_many a n l; Some (x :: xs, l)
  end.
Program Definition coding_list {A} (a : coding A) : coding (list A) :=
  {| enc xs := len xs :: flat_map (enc a) xs;
     dec l := match l with n :: l => dec_many a (Z.to_nat n) l | [] => None end |}.
Next Obligation.
  intros A a xs rest. unfold len. cbn. rewrite Nat2Z.id. induction xs as [|x xs IH]; [done|].
  cbn. rewrite <- app_assoc, dec_enc. cbn. by rewrite IH.
Qed.
Program Definition coding_iso {A B} (a : coding A) (f : B -> A) (g : A -> B) (gf : forall b, g (f b) = b) : coding B :=
  {| enc b := enc a (f b); dec l := '(x, l) ← dec a l; Some (g x, l) |}.
Next Obligation. intros A B a f g gf b rest. cbn. rewrite dec_enc. cbn. by rewrite gf. Qed.

Definition coding_component : coding component :=
  coding_iso (coding_pair coding_Z (coding_list coding_Z))
    (fun c => match c with RootDir => (0, []) | CurDir => (1, []) | ParentDir => (2, []) | Normal n => (3, n) end)
    (fun '(t, n) => if t =? 0 then RootDir else if t =? 1 then CurDir else if t =? 2 then ParentDir else Normal n) ltac:(by intros []).
Definition coding_identity : coding FileIdentity :=
  coding_iso (coding_pair coding_Z coding_Z) (fun i => (device i, inode i)) (fun '(d, i) => mkIdentity d i) ltac:(by intros []).
Definition coding_operation : coding JournalOperation :=
  let path := coding_list coding_component in let text := coding_list coding_Z in
  coding_iso
    (coding_pair (coding_pair path (coding_pair (coding_option path) (coding_option path)))
      (coding_pair (coding_pair coding_identity (coding_option coding_identity))
        (coding_pair (coding_pair (coding_option text) (coding_option coding_Z))
          (coding_pair (coding_pair (coding_option text) (coding_option coding_Z)) (coding_option coding_identity)))))
    (fun o => ((target o, (stage o, backup o)), ((parent_identity o, original o),
       ((original_digest o, original_mode o), ((desired_digest o, desired_mode o), installed o)))))
    (fun '((t, (s, b)), ((p, oi), ((od, om), ((dd, dm), i)))) => mkOperation t s b p oi od om dd dm i) ltac:(by intros []).
Definition coding_journal : coding Journal :=
  coding_iso (coding_pair (coding_pair (coding_list coding_Z) coding_Z) (coding_pair coding_Z (coding_list coding_operation)))
    (fun j => ((schema j, nonce j), (match state j with Prepared => 0 | Committed => 1 end, operations j)))
    (fun '((s, n), (st, o)) => mkJournal s n (if st =? 0 then Prepared else Committed) o) ltac:(by intros [? ? [] ?]).

Definition toy_to_vec (j : Journal) : option (list Z) :=
  if len (enc coding_journal j) <=? isize_max then Some (enc coding_journal j) else None.
Definition toy_from_slice (b : list Z) : option Journal :=
  match dec coding_journal b with Some (j, []) => Some j | _ => None end.
Lemma toy_to_vec_inv j b : toy_to_vec j = Some b -> b = enc coding_journal j /\ len b <= isize_max.
Proof.
  unfold toy_to_vec. destruct (len (enc coding_journal j) <=? isize_max) eqn:E; [|done]. bool_prop.
  intros Hb. assert (b = enc coding_journal j) as -> by by injection Hb. done.
Qed.
Lemma toy_from_to j b : toy_to_vec j = Some b -> toy_from_slice b = Some j.
Proof.
  intros [-> _]%toy_to_vec_inv. unfold toy_from_slice. by rewrite <- (app_nil_r (enc coding_journal j)), dec_enc.
Qed.
Definition toy_codec : JournalCodec :=
  {| to_vec := toy_to_vec; from_slice := toy_from_slice; from_to := toy_from_to;
     to_vec_len j b Hj := proj2 (toy_to_vec_inv j b Hj) |}.

(** [set.insert(x)] on an ordered set: [None] when already present. *)
Definition set_insert {A} `{EqDecision A} (x : A) (set : list A) : option (list A) :=
  if decide (x ∈ set) then None else Some (x :: set).

Definition is_someb {A} (o : option A) : bool := match o with Some _ => true | None => false end.

Section journal.
Context {O : Os_params} {H : Sha256}.

(** *** Validation *)
Definition bad {A} : res error A := Err (io_rollback BadJournal).

(** [nonce + index as u64] *)
Definition nonce_at (nonce index : Z) : option Z := checked_add u64_max nonce index.

Definition validate_operation (mode_aware : bool) (scope : path) (nonce : Z)
  (seen : list path * list (list Z)) (indexed : Z * JournalOperation)
  : res error (list path * list (list Z)) :=
  let '(targets, collision_keys) := seen in
  let '(index, op) := indexed in
  _ ← ensure (path_is_absolute (target op) && is_someb (strip_scope scope (target op)))
             (io_rollback BadJournal);
  targets ← ok_or (set_insert (target op) targets) (io_rollback BadJournal);
  relative ← ok_or (strip_scope scope (target op)) (io_rollback BadJournal);
  collision_key ← map_err (fun _ => io_rollback BadJournal) (casefold_components relative);
  collision_keys ← ok_or (set_insert collision_key collision_keys) (io_rollback BadJournal);
  _ ← refuse (xorb (is_someb (original op)) (is_someb (original_digest op))
              || mode_aware && xorb (is_someb (original op)) (is_someb (original_mode op))
              || negb mode_aware && is_someb (original_mode op)) (io_rollback BadJournal);
  _ ← refuse (match original_mode op with Some mode => o7777 <? mode | None => false end)
             (io_rollback BadJournal);
  parent ← ok_or (parent_of (target op)) (io_rollback BadJournal);
  leaf ← ok_or (leaf_of (target op)) (io_rollback BadJournal);
  n ← or_stuck (nonce_at nonce index);
  let expected_stage := join_name parent (sibling_name leaf (rs "stage") n) in
  let expected_backup := join_name parent (sibling_name leaf (rs "backup") n) in
  _ ← refuse (match stage op with Some p => negb (bool_decide (p = expected_stage)) | None => false end
              || match backup op with Some p => negb (bool_decide (p = expected_backup)) | None => false end
              || xorb (is_someb (stage op)) (is_someb (desired_digest op))
              || mode_aware && xorb (is_someb (stage op)) (is_someb (desired_mode op))
              || negb mode_aware && is_someb (desired_mode op)
              || match desired_mode op with
                 | Some mode => negb ((mode =? o644) || (mode =? o755))
                 | None => false
                 end
              || is_someb (installed op) && negb (is_someb (stage op))
              || xorb (is_someb (backup op)) (is_someb (original op))) (io_rollback BadJournal);
  Ok (targets, collision_keys).

Fixpoint enumerate_from {A} (n : Z) (l : list A) : list (Z * A) :=
  match l with [] => [] | x :: l => (n, x) :: enumerate_from (n + 1) l end.

Definition validate_journal (journal : Journal) (journal_path : path) : res error unit :=
  mode_aware ← (if eqb_list (schema journal) SCHEMA_V2 then Ok false
                else if eqb_list (schema journal) SCHEMA_V3 then Ok true
                else bad);
  scope ← ok_or (parent_of journal_path) (io_rollback BadJournal);
  _ ← foldM (validate_operation mode_aware scope (nonce journal)) ([], [])
        (enumerate_from 0 (operations journal));
  Ok tt.

Context {K : JournalCodec}.

(** *** Encoding *)
Definition encode_journal (journal : Journal) : res error (list Z) :=
  json ← ok_or (to_vec journal) (other SerializationFailed);
  Ok (JOURNAL_STAGE_MAGIC ++ json).

Definition parse_journal (bytes : list Z) : res error Journal :=
  json ← ok_or (strip_prefix JOURNAL_STAGE_MAGIC bytes) (Failure InvalidData BadJournal);
  ok_or (from_slice json) (other SerializationFailed).

(** *** Replacement *)
Definition stage_of (journal_path : path) : path :=
  join_name (removelast journal_path)
    (sibling_name (default [] (leaf_of journal_path)) (rs "journal-stage") 0).

Definition journal_stage_path (journal_path : path) : io path :=
  parent ← open_parent journal_path true;
  mret (join_name (handle_path parent) (sibling_name (leaf parent) (rs "journal-stage") 0)).

Definition owned_stage (bytes : list Z) : bool :=
  eqb_list bytes [] || starts_with JOURNAL_STAGE_MAGIC bytes || starts_with bytes JOURNAL_STAGE_MAGIC.

Definition cleanup_journal_stage (journal_path : path) : io unit :=
  staged_path ← journal_stage_path journal_path;
  staged ← read_regular staged_path;
  match staged with
  | None => mret tt
  | Some (identity, bytes) =>
    _ ← pure (ensure (owned_stage bytes) (io_rollback UnownedJournalStage));
    remove_regular_exact staged_path identity (sha256_bytes bytes)
  end.

Definition committed_fail_point (journal : Journal) (name : list Z) : io unit :=
  match state journal with Committed => test_fail_point name | Prepared => mret tt end.

(** The closure of [write_journal] that makes the staged journal visible. *)
Definition update_journal (parent : ParentHandle) (staged_path : path) (journal : Journal) : io unit :=
  staged ← open_parent staged_path false;
  _ ← committed_fail_point journal (rs "before-committed-journal");
  current ← identity_at parent (leaf parent);
  _ ← match current with
      | Some _ => renameat (at_leaf staged) (at_leaf parent)
      | None => rename_noclobber staged (leaf staged) parent (leaf parent)
      end;
  _ ← committed_fail_point journal (rs "committed-journal-after-rename-before-sync");
  fsync (fd parent).

Definition write_journal (journal_path : path) (journal : Journal) : io unit :=
  bytes ← pure (encode_journal journal);
  parent ← open_parent journal_path true;
  staged_path ← journal_stage_path journal_path;
  _ ← cleanup_journal_stage journal_path;
  staged_identity ← write_new_file_mode staged_path bytes o600;
  update ← attempt (update_journal parent staged_path journal);
  match update with
  | inl _ => mret tt
  | inr e =>
    cleanup ← attempt (remove_regular_exact staged_path staged_identity (sha256_bytes bytes));
    throw (combine_primary_and_cleanup e (match cleanup with inl _ => [] | inr c => [c] end))
  end.

(** [remove_journal] of [unix/mod.rs] *)
Definition remove_journal (p : path) (expected : FileIdentity) : io unit :=
  _ ← test_fail_point (rs "journal-remove");
  current ← read_regular p;
  current ← pure (ok_or current (Failure NotFound JournalDisappeared));
  remove_regular_exact p expected (sha256_bytes (snd current)).
End journal.
