(* ===== verification/JournalSpecs.v ===== *)
(** * JournalSpecs: what the journal primitives do

    Weakest preconditions of the journal operations: a replacement leaves the
    old or the new journal visible at every moment, and an interrupted one is
    recognised and removed by the next. *)

From stdpp Require Import gmap.
From S2P Require Import Prelude Text Digest Publication CrashIO FileSystem FileSpecs Journal.

(** ** Siblings *)
Lemma sibling_normal p name : normal_path p ->
  normal_path (join_name (removelast p) name) /\
  forall r, under r (join_name (removelast p) name) <-> under r p.
Proof.
  intros (ds & l & ->). unfold join_name. rewrite app_comm_cons, removelast_last. split; [by exists ds, name|].
  intros r. unfold under. split; intros [Hr (u & Hu & E)]; (split; [done|]).
  all: destruct u as [|c u _] using rev_ind; [done|]; rewrite app_assoc in E;
    apply app_inj_tail in E as [E _]; rewrite E.
  - exists (u ++ [Normal l]). rewrite <- app_assoc. split; [by destruct u|done].
  - exists (u ++ [Normal name]). rewrite <- app_assoc. split; [by destruct u|done].
Qed.

(** ** Encoding *)
Lemma strip_prefix_app p l : strip_prefix p (p ++ l) = Some l.
Proof. by apply strip_prefix_Some. Qed.
Lemma starts_with_app p l : starts_with (p ++ l) p = true.
Proof. unfold starts_with. apply bool_decide_true. rewrite strip_prefix_app. by eexists. Qed.

Section encoding.
Context {O : Os_params} {H : Sha256} {K : JournalCodec}.

Lemma encode_inv j bytes : encode_journal j = Ok bytes ->
  exists json, to_vec j = Some json /\ bytes = JOURNAL_STAGE_MAGIC ++ json.
Proof.
  unfold encode_journal. destruct (to_vec j) as [json|] eqn:E; [|done].
  intros Hj. exists json. split; [done|]. by injection Hj.
Qed.

(** A journal reads back as it was written. *)
Lemma parse_encode j bytes : encode_journal j = Ok bytes -> parse_journal bytes = Ok j.
Proof.
  intros (json & Hj & ->)%encode_inv. unfold parse_journal.
  rewrite strip_prefix_app. cbn. by rewrite (from_to _ _ Hj).
Qed.

Lemma encode_len j bytes : encode_journal j = Ok bytes -> len bytes <= u64_max.
Proof.
  intros (json & Hj & ->)%encode_inv.
  apply to_vec_len in Hj. rewrite len_app. unfold isize_max, u64_max in *.
  change (len JOURNAL_STAGE_MAGIC) with 28. lia.
Qed.

(** However much of a journal was written to its stage, the stage is recognised
    as this program's own. *)
Lemma owned_prefix j bytes n : encode_journal j = Ok bytes -> owned_stage (take n bytes) = true.
Proof.
  intros (json & Hj & ->)%encode_inv. unfold owned_stage.
  destruct (decide (n <= length JOURNAL_STAGE_MAGIC)%nat) as [Hn|Hn].
  - rewrite take_app_le by done. rewrite <- (take_drop n JOURNAL_STAGE_MAGIC) at 2.
    by rewrite starts_with_app, orb_true_r.
  - rewrite take_app_ge by lia. by rewrite starts_with_app, orb_true_r.
Qed.
End encoding.

Section specs.
Context {O : Os_params} {H : Sha256} {K : JournalCodec} (ok : (syscall -> verdict) -> Prop).
Implicit Types (X : error -> nodes -> Prop) (D : nodes -> Prop) (s : nodes).
Abbreviation wp := (wp ok).
Abbreviation faulty := (faulty ok).

Context (J : path) (HJ : normal_path J) (HJS : stage_of J <> J).
Abbreviation JS := (stage_of J).

Lemma stage_of_normal : normal_path JS.
Proof using HJ. by apply sibling_normal. Qed.
Lemma stage_of_dirs s : dirs s J -> dirs s JS.
Proof using HJ. intros Hd q Hq. apply Hd. by apply (sibling_normal J) in Hq. Qed.
Local Hint Resolve stage_of_normal stage_of_dirs : core.

(** The journal's stage is absent or an interrupted replacement. *)
Definition stage_owned s : Prop :=
  s !! JS = None \/ exists id b m, s !! JS = Some (Reg id b m) /\ owned_stage b = true /\ len b <= u64_max.

Lemma wp_journal_stage_path (Q : path -> nodes -> Prop) X D s :
  dirs s J -> Q JS s -> (faulty -> X (Os EIO) s) -> (faulty -> D s) ->
  wp (journal_stage_path J) Q X D s.
Proof using HJ.
  intros Hd HQ HX HD. unfold journal_stage_path. apply wp_bind, wp_open_parent; [done|done| | |done].
  - by apply wp_ret.
  - intros c n _ Hn. eapply HX, may_fail_faulty, Hn.
Qed.

Lemma wp_cleanup_journal_stage (Q : unit -> nodes -> Prop) X D s :
  dirs s J -> stage_owned s -> Q tt (delete JS s) ->
  (forall e s', s' = s \/ s' = delete JS s -> faulty -> X e s') ->
  (forall s', s' = s \/ s' = delete JS s -> D s') -> wp (cleanup_journal_stage J) Q X D s.
Proof using HJ.
  intros Hd Ho HQ HX HD. unfold cleanup_journal_stage.
  apply wp_bind, wp_journal_stage_path; [done| |auto..].
  apply wp_bind, wp_read_regular; [auto..| | | |auto].
  - intros r Hr. destruct r as [ [ [id b] m]|]; cbn.
    + apply measure_Some in Hr as (m' & Hs & ->). destruct Ho as [Hn|(id' & b' & m2 & Hs' & Hown & Hlen)]; [congruence|].
      rewrite Hs in Hs'. injection Hs' as <- <- <-. rewrite Hown. apply wp_bind, wp_ret.
      assert (removable s JS id (sha256_bytes b) None) as Hrem.
      { exists b, (Z.land m' o7777). unfold measure, measure_bounded, node_measure. by rewrite Hs, (proj2 (Z.leb_le _ _)). }
      apply wp_remove_regular_exact; auto.
      * intros e s' Hs' [F|(_ & _ & Hno)]; [|done]. apply HX; [|done]. naive_solver.
      * naive_solver.
    + apply measure_absent in Hr. apply wp_ret. rewrite <- (delete_id s JS) by done. auto.
  - intros e Hn. exfalso. unfold measure, measure_bounded, node_measure in Hn.
    destruct Ho as [Ho|(id' & b' & m2 & Hs' & _ & Hlen)]; [by rewrite Ho in Hn|].
    by rewrite Hs', (proj2 (Z.leb_le _ _)) in Hn.
  - intros c n _ Hn. apply HX; [by left|]. by eapply may_fail_faulty.
Qed.

(** The journal's place, and the file system once a replacement is visible. *)
Definition replaced (bytes : list Z) s : nodes :=
  <[J := Reg (fresh_identity (delete JS s)) bytes o600]> (delete JS s).
Definition journal_slot s : Prop := s !! J = None \/ exists id b m, s !! J = Some (Reg id b m).

Lemma wp_fail_point_if j name (Q : unit -> nodes -> Prop) X D s :
  Q tt s -> (faulty -> X (Os EIO) s) -> (faulty -> D s) -> wp (committed_fail_point j name) Q X D s.
Proof. intros. unfold committed_fail_point. destruct (state j); [by apply wp_ret|by apply wp_fail_point]. Qed.

Lemma wp_update_journal j bytes (Q : unit -> nodes -> Prop) X D s (s1 : nodes) id :
  dirs s J -> journal_slot s -> id = fresh_identity (delete JS s) ->
  s1 = <[JS := Reg id bytes o600]> (delete JS s) ->
  Q tt (replaced bytes s) -> (forall e s', s' = s1 \/ s' = replaced bytes s -> faulty -> X e s') ->
  (forall s', s' = s1 \/ s' = replaced bytes s -> D s') ->
  wp (update_journal (handle J) JS j) Q X D s1.
Proof using HJ HJS.
  intros Hd Hslot -> -> HQ HX HD. set (n := Reg (fresh_identity (delete JS s)) bytes o600) in *.
  destruct (normal_path_shape J HJ) as (HatJ & _), (normal_path_shape JS stage_of_normal) as (HatS & _).
  assert (delete JS (<[JS:=n]> (delete JS s)) = delete JS s) as Hback.
  { by rewrite delete_insert_eq, delete_delete_eq. }
  assert (dirs (<[JS := n]> (delete JS s)) JS) as HdS.
  { apply dirs_insert_self. intros q Hq. destruct (stage_of_dirs s Hd q Hq) as [id Hid]. exists id.
    rewrite lookup_delete_ne; [done|]. intros <-. by eapply normal_not_under_self. }
  unfold update_journal. apply wp_bind, wp_open_parent; [auto|done| | |auto].
  2: { intros c k _ Hk. apply HX; [by left|]. by eapply may_fail_faulty. }
  apply wp_bind, wp_fail_point_if; [|auto..].
  assert (<[JS:=n]> (delete JS s) !! J = s !! J) as HlJ.
  { by rewrite lookup_insert_ne, lookup_delete_ne by done. }
  assert (forall k, wp (_ ← committed_fail_point j k; fsync (fd (handle J))) Q X D (replaced bytes s)) as Htail.
  { intros k. apply wp_bind, wp_fail_point_if; [|auto..]. apply wp_fsync; auto. }
  apply wp_bind, wp_identity_at; [done| | | |auto]; rewrite ?HlJ.
  - intros id b m Hs. apply wp_bind. rewrite HatJ, HatS. apply wp_sys; [|intros k Hk; apply HX; [by left|by eapply may_fail_faulty]|auto].
    rewrite lookup_insert_eq, HlJ, Hs. cbn [node_id]. rewrite decide_False; [by rewrite Hback|].
    assert (delete JS s !! J = Some (Reg id b m)) as HsJ by by rewrite lookup_delete_ne.
    by apply (fresh_identity_unused (delete JS s) J) in HsJ.
  - intros Hs. apply wp_bind. unfold rename_noclobber. unfold at_leaf in HatJ, HatS. rewrite HatJ, HatS.
    eapply wp_rename_noreplace; [by rewrite lookup_insert_eq|by rewrite HlJ| |auto..].
    by rewrite Hback.
  - intros e [F|[Hne Hno] ]; [auto|]. exfalso. destruct Hslot as [?|(id & b & m & ?)]; [done|]. by eapply Hno.
Qed.

(** The states a replacement of the journal passes through: nothing done, the
    stage cleaned and partly written, the new journal visible. *)
Definition replacing (j : Journal) s s' : Prop :=
  s' = s \/ exists bytes, encode_journal j = Ok bytes /\
    (being_written JS bytes (delete JS s) s' \/ s' = replaced bytes s).

Lemma dirs_delete_stage s : dirs s J -> dirs (delete JS s) JS.
Proof using HJ.
  intros Hd q Hq. destruct (stage_of_dirs s Hd q Hq) as [id Hid]. exists id.
  rewrite lookup_delete_ne; [done|]. intros <-. by eapply normal_not_under_self.
Qed.
Local Hint Resolve dirs_delete_stage : core.

Lemma dirs_replaced bytes s : dirs s J -> dirs (replaced bytes s) JS.
Proof using HJ.
  intros Hd q Hq. destruct (dirs_delete_stage s Hd q Hq) as [id Hid]. exists id. unfold replaced.
  rewrite lookup_insert_ne; [done|]. intros <-. apply (sibling_normal J) in Hq; [|done].
  by eapply normal_not_under_self.
Qed.

Lemma wp_write_journal j (Q : unit -> nodes -> Prop) X D s :
  dirs s J -> stage_owned s -> journal_slot s ->
  (forall bytes, encode_journal j = Ok bytes -> Q tt (replaced bytes s)) ->
  (forall e s', replacing j s s' -> faulty \/ to_vec j = None -> X e s') ->
  (forall s', replacing j s s' -> D s') -> wp (write_journal J j) Q X D s.
Proof using HJ HJS.
  intros Hd Hown Hslot HQ HX HD. unfold write_journal.
  assert (replacing j s s) as Hsame by by left.
  destruct (encode_journal j) as [bytes|e|] eqn:Hj;
    [|unfold encode_journal in Hj; destruct (to_vec j) eqn:Hv..]; try done.
  2: { apply wp_bind, wp_throw, HX; auto. }
  assert (forall s', being_written JS bytes (delete JS s) s' \/ s' = replaced bytes s -> replacing j s s') as Hrep
    by (right; eauto).
  assert (being_written JS bytes (delete JS s) (delete JS s)) as Hdel by by left.
  apply wp_bind, wp_ret, wp_bind, wp_open_parent; [done|done| |intros; apply HX; [done|left; by eapply may_fail_faulty]|auto].
  apply wp_bind, wp_journal_stage_path; [done| |auto..].
  apply wp_bind, wp_cleanup_journal_stage; [done|done| |intros e s' [-> | ->]; auto|intros s' [-> | ->]; auto].
  set (n := Reg (fresh_identity (delete JS s)) bytes o600).
  assert (being_written JS bytes (delete JS s) (<[JS := n]> (delete JS s))) as Hdone.
  { right. split; [by rewrite lookup_delete_eq|]. exists (length bytes), o600. by rewrite take_ge. }
  apply wp_bind, wp_write_new_file_mode; auto; [by eapply encode_len| |].
  2: { intros e s' Hw [F|[_ Hne] ]; [auto|]. by rewrite lookup_delete_eq in Hne. }
  intros _. apply wp_bind, wp_attempt. eapply wp_update_journal; try done; [apply wp_ret; auto| |].
  2: { intros s' [-> | ->]; auto. }
  intros e s' Hs' F. apply wp_bind, wp_attempt.
  assert (forall c s2, replacing j s s2 ->
    wp (throw (combine_primary_and_cleanup e c) : io unit) Q X D s2) as Hthrow by (intros; apply wp_throw; auto).
  destruct Hs' as [-> | ->].
  - fold n. assert (delete JS (<[JS:=n]> (delete JS s)) = delete JS s) as Hback
      by by rewrite delete_insert_eq, delete_delete_eq.
    apply wp_remove_regular_exact; rewrite ?Hback; [by auto|by auto using dirs_insert_self| | |].
    + intros _. apply Hthrow. auto.
    + intros c s' [-> |[_ ->] ] _; apply Hthrow; auto.
    + intros s' [-> |[_ ->] ]; auto.
  - assert (replaced bytes s !! JS = None) as Hno.
    { unfold replaced. rewrite lookup_insert_ne by done. apply lookup_delete_eq. }
    apply wp_remove_regular_exact; rewrite ?(delete_id (replaced bytes s)) by done;
      [by auto|by auto using dirs_replaced| | |].
    + intros _. apply Hthrow. auto.
    + intros c s' [-> |[_ ->] ] _; apply Hthrow; auto.
    + intros s' [-> |[_ ->] ]; auto.
Qed.

(** The journal [j] is visible at its path. *)
Definition journal_is (j : Journal) s : Prop :=
  exists bytes id m, encode_journal j = Ok bytes /\ s !! J = Some (Reg id bytes m).

Lemma journal_is_measure j s : journal_is j s ->
  exists id bytes m, measure s J = Some (Some (id, bytes, m)) /\ parse_journal bytes = Ok j
    /\ removable s J id (sha256_bytes bytes) None.
Proof.
  intros (bytes & id & m & He & Hs). exists id, bytes, (Z.land m o7777).
  assert (measure s J = Some (Some (id, bytes, Z.land m o7777))) as Hm.
  { unfold measure, measure_bounded, node_measure. by rewrite Hs, (proj2 (Z.leb_le _ _)) by (by eapply encode_len). }
  split; [done|]. split; [by apply parse_encode|]. by exists bytes, (Z.land m o7777).
Qed.

Lemma wp_remove_journal id (Q : unit -> nodes -> Prop) X D s :
  dirs s J -> (exists b m, measure s J = Some (Some (id, b, m))) -> Q tt (delete J s) ->
  (forall e s', s' = s \/ s' = delete J s -> faulty -> X e s') ->
  (forall s', s' = s \/ s' = delete J s -> D s') -> wp (remove_journal J id) Q X D s.
Proof using HJ.
  intros Hd (b & m & Hm) HQ HX HD. unfold remove_journal. apply wp_bind, wp_fail_point; [|auto..].
  apply wp_bind, wp_read_regular; [done|done| | |intros; apply HX; [auto|by eapply may_fail_faulty]|auto].
  - intros r Hr. rewrite Hm in Hr. injection Hr as <-. apply wp_bind, wp_ret. cbn.
    assert (removable s J id (sha256_bytes b) None) as Hrem by by exists b, m.
    apply wp_remove_regular_exact; [done|done|by auto| |].
    + intros e s' [-> |[_ ->] ] [F|(_ & _ & ?)]; auto; done.
    + intros s' [-> |[_ ->] ]; auto.
  - intros e Hn. congruence.
Qed.
End specs.
