(* ===== verification/Transaction.v ===== *)
(** * Transaction: journalled multi-file publication

    Models [crates/aros-common/src/publication/unix/mod.rs]: committing a set of
    planned changes under a journal, rolling an interrupted set back, finishing
    a committed one, and the one-file no-clobber publication.  A commit renames
    every existing target to a sibling backup and the staged file over it; the
    journal records the intent first, is marked committed after the last
    rename, and is removed when the backups are gone. *)

From stdpp Require Import gmap.
From S2P Require Import Prelude Text Digest Publication CrashIO FileSystem Journal.

Inductive DesiredState := Write (contents : list Z) (mode : Z) | Remove.
Record PlannedChange := mkChange {
  change_path : path;
  change_original : option FileIdentity;
  change_original_digest : option (list Z);
  change_original_mode : option Z;
  desired : DesiredState;
}.

#[global] Instance desired_state_eq_dec : EqDecision DesiredState.
Proof. solve_decision. Defined.

(** The messages [rollback_operation] collects. *)
Inductive rollback_site :=
| OpenTargetParent | RemoveInstalled | LacksJournalProof | UnexpectedTarget | MeasureTarget
| RestoreBackup | OverUnexpectedTarget | MeasureRestoreTarget | BackupMismatch | BackupMissing
| MeasureWithoutBackup | MeasureBackup | OpenBackupParent | RemoveStage.

Definition with_installed (op : JournalOperation) (id : FileIdentity) : JournalOperation :=
  mkOperation (target op) (stage op) (backup op) (parent_identity op) (original op)
    (original_digest op) (original_mode op) (desired_digest op) (desired_mode op) (Some id).

(** The process id and the counter of transactions in this process. *)
Definition transaction_nonce (pid sequence : Z) : Z :=
  Z.lxor (Z.shiftl pid 32) sequence.

Section transaction.
Context {O : Os_params} {H : Sha256}.

Definition snapshot_matches (current : option snapshot) (expected_identity : option FileIdentity)
  (expected_digest : option (list Z)) (expected_mode : option Z) : bool :=
  match current with
  | Some (identity, contents, mode) =>
    bool_decide (Some identity = expected_identity)
    && bool_decide (Some (sha256_bytes contents) = expected_digest)
    && match expected_mode with None => true | Some expected => expected =? mode end
  | None => negb (is_someb expected_identity) && negb (is_someb expected_digest)
            && negb (is_someb expected_mode)
  end.
Definition matches_original (op : JournalOperation) (current : option snapshot) : bool :=
  snapshot_matches current (original op) (original_digest op) (original_mode op).
Definition matches_desired (op : JournalOperation) (current : option snapshot) : bool :=
  snapshot_matches current (installed op) (desired_digest op) (desired_mode op).

(** [errors.push(..)] on failure *)
Definition noting {E} {A} (site : E) (r : A + error) : list E :=
  match r with inl _ => [] | inr _ => [site] end.

(** [if identity_from_stat(&rfs::fstat(&parent.fd)?) != operation.parent_identity] *)
Definition check_parent (op : JournalOperation) (parent : ParentHandle) (at_site : site) : io unit :=
  st ← fstat (fd parent);
  pure (ensure (bool_decide (st_identity st = parent_identity op)) (other at_site)).

(** *** Auxiliary files *)
Definition remove_operation_aux_exact (op : JournalOperation) (p : path) (expected : FileIdentity)
  (expected_digest : list Z) (expected_mode : option Z) : io unit :=
  parent ← open_parent p false;
  _ ← check_parent op parent AuxParentChanged;
  remove_at_exact_mode parent expected expected_digest expected_mode.

Definition remove_operation_aux_unidentified (op : JournalOperation) (p : path) : io unit :=
  parent ← open_parent p false;
  _ ← check_parent op parent AuxParentChanged;
  current ← read_regular p;
  match current with
  | None => mret tt
  | Some (identity, bytes) => remove_at_exact parent identity (sha256_bytes bytes)
  end.

Definition remove_owned_stage (op : JournalOperation) (p : path) : io unit :=
  match installed op, desired_digest op with
  | Some identity, Some digest => remove_operation_aux_exact op p identity digest (desired_mode op)
  | _, _ => remove_operation_aux_unidentified op p
  end.

(** *** Rolling back *)
Definition verify_original_restored (op : JournalOperation) : io unit :=
  restored ← read_regular_with_mode (target op);
  pure (ensure (matches_original op restored) (other RestoredMismatch)).

Definition rollback_target (op : JournalOperation) (parent : ParentHandle) : io (list rollback_site) :=
  current ← attempt (read_regular_with_mode (target op));
  match current with
  | inl current =>
    if matches_desired op current then
      match installed op, desired_digest op with
      | Some identity, Some digest =>
        removed ← attempt (remove_at_exact_mode parent identity digest (desired_mode op));
        mret (noting RemoveInstalled removed)
      | _, _ => mret [LacksJournalProof]
      end
    else if is_someb current && negb (matches_original op current) then mret [UnexpectedTarget]
    else mret []
  | inr _ => mret [MeasureTarget]
  end.

Definition restore_backup (op : JournalOperation) (backup_parent target_parent : ParentHandle)
  : io (list rollback_site) :=
  current ← attempt (read_regular_with_mode (target op));
  match current with
  | inl None =>
    restored ← attempt (_ ← rename_noclobber backup_parent (leaf backup_parent)
                              target_parent (leaf target_parent);
                        _ ← sync_parent (target op);
                        verify_original_restored op);
    mret (noting RestoreBackup restored)
  | inl current => if matches_original op current then mret [] else mret [OverUnexpectedTarget]
  | inr _ => mret [MeasureRestoreTarget]
  end.

Definition without_backup (op : JournalOperation) : io (list rollback_site) :=
  current ← attempt (read_regular_with_mode (target op));
  match current with
  | inl current =>
    if matches_original op current then mret []
    else if is_someb (original op) then mret [BackupMissing] else mret []
  | inr _ => mret [MeasureWithoutBackup]
  end.

Definition rollback_backup (op : JournalOperation) (target_parent : ParentHandle + error)
  (backup_path : path) : io (list rollback_site) :=
  backup_parent ← attempt (open_parent backup_path false);
  match backup_parent, target_parent with
  | inl backup_parent, inl target_parent =>
    found ← attempt (read_regular_with_mode backup_path);
    match found with
    | inl found =>
      if matches_original op found then restore_backup op backup_parent target_parent
      else match found with
           | Some _ => mret [BackupMismatch]
           | None => without_backup op
           end
    | inr _ => mret [MeasureBackup]
    end
  | inr _, _ => mret [OpenBackupParent]
  | inl _, inr _ => mret []
  end.

Definition rollback_operation (op : JournalOperation) : io unit :=
  target_parent ← attempt (open_parent (target op) false);
  let e0 := noting OpenTargetParent target_parent in
  _ ← match target_parent with
      | inl parent => check_parent op parent RollbackParentChanged
      | inr _ => mret tt
      end;
  e1 ← match target_parent with inl parent => rollback_target op parent | inr _ => mret [] end;
  e2 ← match backup op with Some p => rollback_backup op target_parent p | None => mret [] end;
  e3 ← match stage op with
       | Some p => removed ← attempt (remove_owned_stage op p); mret (noting RemoveStage removed)
       | None => mret []
       end;
  match e0 ++ e1 ++ e2 ++ e3 with
  | [] => mret tt
  | _ => throw (other RollbackErrors)
  end.

Definition collect_errors {A} (f : A -> io unit) (errors : list error) (x : A) : io (list error) :=
  r ← attempt (f x);
  mret (match r with inl _ => errors | inr e => errors ++ [e] end).

Definition rollback_operations (ops : list JournalOperation) : io (list error) :=
  forI (collect_errors rollback_operation) [] (rev ops).

(** *** Finishing a committed set *)
Definition cleanup_stage (op : JournalOperation) : io unit :=
  match stage op with Some p => remove_owned_stage op p | None => mret tt end.
Definition cleanup_backup (op : JournalOperation) : io unit :=
  match backup op with
  | Some p =>
    match original op, original_digest op with
    | Some identity, Some digest => remove_operation_aux_exact op p identity digest (original_mode op)
    | _, _ => throw (other RollbackErrors)
    end
  | None => mret tt
  end.
Definition cleanup_stages (ops : list JournalOperation) : io (list error) :=
  forI (collect_errors cleanup_stage) [] ops.
Definition cleanup_committed (ops : list JournalOperation) : io (list error) :=
  errors ← cleanup_stages ops;
  forI (collect_errors cleanup_backup) errors ops.

(** *** Applying *)
Definition apply_backup (op : JournalOperation) (parent : ParentHandle) (backup_path : path) : io unit :=
  backup ← open_parent backup_path false;
  _ ← rename_noclobber parent (leaf parent) backup (leaf backup);
  moved ← read_regular_with_mode backup_path;
  _ ← (if matches_original op moved then mret tt
       else _ ← attempt (rename_noclobber backup (leaf backup) parent (leaf parent));
            throw (other BackupChanged));
  sync_parent (target op).

Definition apply_stage (op : JournalOperation) (parent : ParentHandle) (stage_path : path) : io unit :=
  staged ← read_regular_with_mode stage_path;
  _ ← pure (ensure (matches_desired op staged) (other StageChanged));
  stage ← open_parent stage_path false;
  _ ← rename_noclobber stage (leaf stage) parent (leaf parent);
  installed ← read_regular_with_mode (target op);
  _ ← pure (ensure (matches_desired op installed) (other InstalledMismatch));
  sync_parent (target op).

Definition apply_operation (op : JournalOperation) : io unit :=
  parent ← open_parent (target op) false;
  _ ← check_parent op parent CommitParentChanged;
  current ← read_regular_with_mode (target op);
  _ ← pure (ensure (matches_original op current) (other TargetChanged));
  _ ← match backup op with Some p => apply_backup op parent p | None => mret tt end;
  match stage op with Some p => apply_stage op parent p | None => mret tt end.

Context {K : JournalCodec}.

(** *** Recovery *)
Definition nonempty {A} (l : list A) : bool := match l with [] => false | _ => true end.

Definition recover_if_needed (journal_path : path) : io RecoveryOutcome :=
  _ ← cleanup_journal_stage journal_path;
  current ← read_regular journal_path;
  match current with
  | None => mret RecoveryNone
  | Some (journal_identity, bytes) =>
    journal ← pure (map_err (fun _ => io_rollback JournalUnparsable) (parse_journal bytes));
    _ ← pure (validate_journal journal journal_path);
    '(outcome, errors) ← match state journal with
                         | Committed => errors ← cleanup_committed (operations journal);
                                        mret (CompletedCleanup, errors)
                         | Prepared => errors ← rollback_operations (operations journal);
                                       mret (RolledBack, errors)
                         end;
    _ ← pure (refuse (nonempty errors) (io_rollback RecoveryIncompleteAt));
    removed ← attempt (remove_journal journal_path journal_identity);
    match removed with
    | inl _ => mret outcome
    | inr _ => throw (io_rollback JournalNotRemoved)
    end
  end.

Definition finish_failed_transaction (journal_path : path) (primary : error) (rollback : list error)
  : io unit :=
  if nonempty rollback then throw (io_rollback RollbackIncomplete)
  else
    cleaned ← attempt (cleanup_journal_stage journal_path);
    match cleaned with
    | inr _ => throw (io_rollback RollbackIncomplete)
    | inl _ =>
      current ← attempt (read_regular journal_path);
      match current with
      | inr _ | inl None => throw (io_rollback RollbackIncomplete)
      | inl (Some (identity, _)) =>
        removed ← attempt (remove_journal journal_path identity);
        match removed with
        | inr _ => throw (io_rollback RollbackIncomplete)
        | inl _ => throw primary
        end
      end
    end.

Definition finish_cleanup_only_publication (journal_path : path) (primary : error) : io unit :=
  recovered ← attempt (recover_if_needed journal_path);
  match recovered with
  | inl _ => throw primary
  | inr _ => throw (io_rollback RollbackIncomplete)
  end.

(** *** Committing *)
Definition build_operation (nonce : Z) (built : list (JournalOperation * option (list Z)))
  (indexed : Z * PlannedChange) : io (list (JournalOperation * option (list Z))) :=
  let '(index, change) := indexed in
  parent ← open_parent (change_path change) true;
  n ← pure (or_stuck (nonce_at nonce index));
  let sibling purpose := join_name (handle_path parent) (sibling_name (leaf parent) purpose n) in
  st ← fstat (fd parent);
  let operation stage digest mode :=
    mkOperation (change_path change) stage
      (match change_original change with Some _ => Some (sibling (rs "backup")) | None => None end)
      (st_identity st) (change_original change) (change_original_digest change)
      (change_original_mode change) digest mode None in
  mret (built ++ [match desired change with
                  | Write contents mode =>
                    (operation (Some (sibling (rs "stage"))) (Some (sha256_bytes contents)) (Some mode),
                     Some contents)
                  | Remove => (operation None None None, None)
                  end]).

Definition fail_with_rollback (journal_path : path) (ops : list JournalOperation) (e : error) : io unit :=
  rollback ← rollback_operations ops;
  finish_failed_transaction journal_path e rollback.

(** Write every stage, recording its identity; [done] are the operations
    already staged, in order. *)
Fixpoint write_stages (journal_path : path) (done : list JournalOperation)
  (todo : list (JournalOperation * option (list Z))) (k : list JournalOperation -> io unit) : io unit :=
  match todo with
  | [] => k done
  | (op, None) :: todo => write_stages journal_path (done ++ [op]) todo k
  | (op, Some contents) :: rest =>
    stage_path ← pure (or_stuck (stage op));
    mode ← pure (or_stuck (desired_mode op));
    written ← attempt (write_new_file_mode stage_path contents mode);
    match written with
    | inl identity => write_stages journal_path (done ++ [with_installed op identity]) rest k
    | inr e => fail_with_rollback journal_path (done ++ map fst todo) e
    end
  end.

Fixpoint apply_all (journal_path : path) (ops todo : list JournalOperation) (k : io unit) : io unit :=
  match todo with
  | [] => k
  | op :: todo =>
    applied ← attempt (apply_operation op);
    match applied with
    | inr e => fail_with_rollback journal_path ops e
    | inl _ =>
      point ← attempt (test_fail_point (rs "after-apply"));
      match point with
      | inr e => fail_with_rollback journal_path ops e
      | inl _ => apply_all journal_path ops todo k
      end
    end
  end.

(** What the journal path holds, as far as it can be read and parsed. *)
Definition visible_journal (journal_path : path) : io (option Journal) :=
  current ← attempt (read_regular journal_path);
  mret (match current with
        | inl (Some (_, bytes)) => match parse_journal bytes with Ok j => Some j | _ => None end
        | _ => None
        end).

(** After the last rename: mark the journal committed, remove the backups and
    the journal. *)
Definition finish_commit (journal_path : path) (journal : Journal) : io unit :=
  written ← attempt (write_journal journal_path journal);
  match written with
  | inr e =>
    current ← visible_journal journal_path;
    if bool_decide (current = Some journal) then throw (io_uncertain CommittedUnsynced)
    else fail_with_rollback journal_path (operations journal) e
  | inl _ =>
    cleanup ← cleanup_committed (operations journal);
    _ ← pure (refuse (nonempty cleanup) (io_rollback CleanupIncomplete));
    current ← read_regular journal_path;
    current ← pure (ok_or current (io_rollback JournalDisappeared));
    removed ← attempt (remove_journal journal_path (fst current));
    match removed with
    | inl _ => mret tt
    | inr _ => throw (io_rollback JournalNotRemoved)
    end
  end.

Definition commit (journal_path : path) (changes : list PlannedChange) (nonce : Z) : io unit :=
  built ← forI (build_operation nonce) [] (enumerate_from 0 changes);
  _ ← write_journal journal_path (mkJournal SCHEMA_V3 nonce Prepared (map fst built));
  write_stages journal_path [] built (fun ops =>
    written ← attempt (write_journal journal_path (mkJournal SCHEMA_V3 nonce Prepared ops));
    match written with
    | inr e => fail_with_rollback journal_path ops e
    | inl _ =>
      apply_all journal_path ops ops
        (finish_commit journal_path (mkJournal SCHEMA_V3 nonce Committed ops))
    end).
End transaction.
