(* ===== verification/Rollback.v ===== *)
(** * Rollback: one operation of an interrupted publication

    The states one journalled operation passes through, and what rolling it
    back does in each of them: whatever fails or wherever the process dies, the
    target still holds its original, or the original is in the backup. *)

From stdpp Require Import gmap.
From S2P Require Import Prelude Text Digest Publication CrashIO FileSystem FileSpecs Journal JournalSpecs Transaction.

Definition cells (op : JournalOperation) : list path :=
  target op :: option_list (backup op) ++ option_list (stage op).

Lemma elem_of_option_list {A} (x : A) (o : option A) : x ∈ option_list o <-> o = Some x.
Proof. destruct o; cbn; rewrite ?list_elem_of_singleton, ?elem_of_nil; naive_solver. Qed.

Section operation.
Context {O : Os_params} {H : Sha256}.

(** ** The states of an operation

    [before] is the node the target held when the commit began, [after] the
    contents and mode to publish, [None] for a removal. *)
Record op_wf (op : JournalOperation) (before : option node) (after : option (list Z * Z)) : Prop := {
  wf_target : normal_path (target op);
  wf_sibling : forall p, backup op = Some p \/ stage op = Some p ->
    exists name, p = join_name (removelast (target op)) name;
  wf_cells : NoDup (cells op);
  wf_original : (is_Some (backup op) <-> is_Some (original op))
    /\ (is_Some (original op) <-> is_Some (original_digest op))
    /\ (is_Some (original op) <-> is_Some (original_mode op));
  wf_desired : match after with
    | Some (contents, mode) => is_Some (stage op) /\ desired_digest op = Some (sha256_bytes contents)
        /\ desired_mode op = Some mode /\ len contents <= u64_max /\ Z.land mode o7777 = mode
    | None => stage op = None /\ desired_digest op = None /\ desired_mode op = None
        /\ installed op = None /\ is_Some (original op)
    end;
  wf_fresh : forall id n, installed op = Some id -> before = Some n -> node_id n <> id;
}.

Section states.
Context (op : JournalOperation) (before : option node) (after : option (list Z * Z)).
Implicit Types (s : nodes).

(** The snapshot the operation was planned on is what the target held. *)
Definition orig_ok : Prop :=
  exists r, node_measure u64_max before = Some r /\ matches_original op r = true.
Definition ready : Prop := is_Some (stage op) -> is_Some (installed op).

Definition unapplied s : Prop :=
  s !! target op = before /\ forall b, backup op = Some b -> s !! b = None.
Definition backed_up s : Prop :=
  orig_ok /\ s !! target op = None /\ exists b, backup op = Some b /\ s !! b = before.
Definition placed s : Prop :=
  orig_ok /\ (exists id contents mode, installed op = Some id /\ after = Some (contents, mode)
    /\ s !! target op = Some (Reg id contents mode))
  /\ forall b, backup op = Some b -> s !! b = before.

Definition stage_gone s : Prop := forall p, stage op = Some p -> s !! p = None.
Definition staged s : Prop := forall p, stage op = Some p ->
  exists id contents mode, installed op = Some id /\ after = Some (contents, mode)
    /\ s !! p = Some (Reg id contents mode).
Definition stage_ok s : Prop := forall p, stage op = Some p ->
  s !! p = None \/
  match installed op with
  | Some id => exists contents mode, after = Some (contents, mode) /\ s !! p = Some (Reg id contents mode)
  | None => exists id b m, s !! p = Some (Reg id b m) /\ len b <= u64_max
  end.

(** What recovery relies on while the journal says [Prepared]. *)
Definition prep s : Prop := stage_ok s /\ (unapplied s \/ ready /\ (backed_up s \/ placed s)).

(** The directory of the operation is the one it was planned in. *)
Definition home s : Prop :=
  dirs s (target op) /\ s !! removelast (target op) = Some (Dir (parent_identity op)).
Definition elsewhere s s' : Prop := forall q, q ∉ cells op -> s' !! q = s !! q.

Definition evolves s s' : Prop :=
  prep s' /\ elsewhere s s' /\ home s' /\ (unapplied s -> unapplied s').

Context (Hwf : op_wf op before after).

Lemma cell_not_under q p : q ∈ cells op -> p ∈ cells op -> ~ under q p.
Proof using Hwf.
  assert (forall q, q ∈ cells op -> length q = length (target op)) as Hlen.
  { intros r [-> |Hr]%elem_of_cons; [done|]. rewrite elem_of_app, !elem_of_option_list in Hr.
    destruct (wf_sibling _ _ _ Hwf r Hr) as [name ->].
    destruct (wf_target _ _ _ Hwf) as (ds & l & ->). unfold join_name.
    by rewrite app_comm_cons, removelast_last, !length_app. }
  intros Hq Hp [_ (r & Hr & E)]. apply (f_equal length) in E.
  rewrite length_app, (Hlen _ Hq), (Hlen _ Hp) in E. destruct r; [done|cbn in E; lia].
Qed.

Lemma cell_normal p : p ∈ cells op -> normal_path p /\ removelast p = removelast (target op)
  /\ forall r, under r p <-> under r (target op).
Proof using Hwf.
  intros [-> |Hp]%elem_of_cons; [by split; [apply Hwf|]|].
  rewrite elem_of_app, !elem_of_option_list in Hp. destruct (wf_sibling _ _ _ Hwf p Hp) as [name ->].
  destruct (sibling_normal (target op) name (wf_target _ _ _ Hwf)) as [Hn Hu].
  split; [done|]. split; [|done]. unfold join_name. by rewrite removelast_last.
Qed.

(** Changing the operation's own files leaves its directory in place. *)
Lemma home_elsewhere s s' : elsewhere s s' -> home s -> home s'.
Proof using Hwf.
  intros He [Hd Hp]. assert (forall q, under q (target op) -> q ∉ cells op) as Hout.
  { intros q Hu Hq. by apply (cell_not_under q (target op)) in Hu; [..|left]. }
  split.
  - intros q Hq. destruct (Hd q Hq) as [id Hid]. exists id. by rewrite He by auto.
  - rewrite He; [done|]. apply Hout. by apply normal_path_shape, Hwf.
Qed.

Lemma elsewhere_trans s s1 s2 : elsewhere s s1 -> elsewhere s1 s2 -> elsewhere s s2.
Proof. intros H1 H2 q Hq. by rewrite H2, H1. Qed.
Lemma elsewhere_insert s p n : p ∈ cells op -> elsewhere s (<[p := n]> s).
Proof. intros Hp q Hq. rewrite lookup_insert_ne; [done|]. by intros ->. Qed.
Lemma elsewhere_delete s p : p ∈ cells op -> elsewhere s (delete p s).
Proof. intros Hp q Hq. rewrite lookup_delete_ne; [done|]. by intros ->. Qed.
Lemma evolves_trans s s1 s2 : evolves s s1 -> evolves s1 s2 -> evolves s s2.
Proof. intros (? & ? & ? & ?) (? & ? & ? & ?). split; [done|]. split; [by eapply elsewhere_trans|]. auto. Qed.
Lemma evolves_refl s : prep s -> home s -> evolves s s.
Proof. by intros. Qed.

(** ** The files of an operation *)
Lemma cells_distinct : target op ∈ cells op
  /\ (forall b, backup op = Some b -> b ∈ cells op /\ b <> target op)
  /\ (forall p, stage op = Some p -> p ∈ cells op /\ p <> target op)
  /\ (forall b p, backup op = Some b -> stage op = Some p -> b <> p).
Proof using Hwf.
  pose proof (wf_cells _ _ _ Hwf) as Hnd. unfold cells in *. apply NoDup_cons in Hnd as [Hout Hnd].
  apply NoDup_app in Hnd as (_ & Hdis & _). setoid_rewrite elem_of_app in Hout.
  setoid_rewrite elem_of_option_list in Hout. setoid_rewrite elem_of_option_list in Hdis.
  split; [by left|]. split; [|split].
  - intros b Hb. rewrite elem_of_cons, elem_of_app, !elem_of_option_list. split; [by auto|].
    intros ->. tauto.
  - intros p Hp. rewrite elem_of_cons, elem_of_app, !elem_of_option_list. split; [by auto|].
    intros ->. tauto.
  - intros b p Hb Hp ->. by apply (Hdis p).
Qed.

Lemma cell_dirs s p : home s -> p ∈ cells op ->
  normal_path p /\ dirs s p /\ s !! fd (handle p) = Some (Dir (parent_identity op)).
Proof using Hwf.
  intros [Hd Hp] Hin. destruct (cell_normal p Hin) as (Hn & Hr & Hu). split; [done|]. split.
  - intros q Hq. by apply Hd, Hu.
  - cbn [handle fd]. by rewrite Hr.
Qed.

Context (ok : (syscall -> verdict) -> Prop).
Abbreviation wp := (wp ok).
Abbreviation faulty := (faulty ok).
Implicit Types (X : error -> nodes -> Prop) (D : nodes -> Prop).

Lemma wp_cell_parent s p (Q : ParentHandle -> nodes -> Prop) X D : home s -> p ∈ cells op ->
  Q (handle p) s -> (faulty -> X (Os EIO) s) -> D s -> wp (open_parent p false) Q X D s.
Proof using Hwf.
  intros Hh Hp HQ HX HD. destruct (cell_dirs s p Hh Hp) as (Hn & Hd & _).
  apply wp_open_parent; [done|done|done| |done]. intros c n _ Hc. eapply HX, may_fail_faulty, Hc.
Qed.

Lemma wp_cell_check s p site (Q : unit -> nodes -> Prop) X D : home s -> p ∈ cells op ->
  Q tt s -> (faulty -> X (Os EIO) s) -> D s ->
  wp (check_parent op (handle p) site) Q X D s.
Proof using Hwf.
  intros Hh Hp HQ HX HD. destruct (cell_dirs s p Hh Hp) as (_ & _ & Hf).
  apply wp_bind. eapply wp_fstat; [exact Hf| |intros n Hn; eapply HX, may_fail_faulty, Hn|done].
  cbn [stat_of st_identity]. rewrite bool_decide_true by done. by apply wp_ret.
Qed.

Lemma wp_cell_read s p (Q : option snapshot -> nodes -> Prop) X D : home s -> p ∈ cells op ->
  (forall r, node_measure u64_max (s !! p) = Some r -> Q r s) ->
  (forall e, faulty \/ node_measure u64_max (s !! p) = None -> X e s) -> D s ->
  wp (read_regular_with_mode p) Q X D s.
Proof using Hwf.
  intros Hh Hp HQ HX HD. destruct (cell_dirs s p Hh Hp) as (Hn & Hd & _).
  apply wp_read; [done|done|done| | |done].
  - intros e He. apply HX. by right.
  - intros c n _ Hc. apply HX. left. by eapply may_fail_faulty.
Qed.

Lemma wp_cell_remove s p id digest mode (Q : unit -> nodes -> Prop) X D : home s -> p ∈ cells op ->
  (s !! p = None \/ removable s p id digest mode -> Q tt (delete p s)) ->
  (forall e s', (s' = s \/ removable s p id digest mode /\ s' = delete p s) ->
     faulty \/ (s' = s /\ s !! p <> None /\ ~ removable s p id digest mode) -> X e s') ->
  (forall s', (s' = s \/ removable s p id digest mode /\ s' = delete p s) -> D s') ->
  wp (remove_at_exact_mode (handle p) id digest mode) Q X D s.
Proof using Hwf.
  intros Hh Hp HQ HX HD. destruct (cell_dirs s p Hh Hp) as (Hn & Hd & _). by apply wp_remove_exact_mode.
Qed.

Lemma wp_sync_home s (Q : unit -> nodes -> Prop) X D : home s ->
  Q tt s -> (faulty -> X (Os EIO) s) -> D s -> wp (sync_parent (target op)) Q X D s.
Proof using Hwf.
  intros Hh HQ HX HD. apply wp_bind, wp_cell_parent; [done|apply (proj1 cells_distinct)| |done|done].
  apply wp_fsync; auto.
Qed.

(** ** What the snapshots tell apart *)
Lemma orig_ok_cases : orig_ok -> (backup op = None /\ original op = None /\ before = None)
  \/ exists b id c m, backup op = Some b /\ original op = Some id /\ before = Some (Reg id c m)
       /\ len c <= u64_max.
Proof using Hwf.
  intros (r & Hr & Hm). destruct (wf_original _ _ _ Hwf) as (Hbo & _ & _).
  unfold matches_original, snapshot_matches in Hm. destruct r as [ [ [id c] m]|].
  - right. rewrite !andb_true_iff in Hm. destruct Hm as [ [Ho%bool_decide_eq_true _] _].
    destruct (proj2 Hbo) as [b Hb]; [by eexists|].
    unfold node_measure in Hr. repeat case_match; simplify_eq. bool_prop. by exists b, id, c, mode.
  - left. destruct (original op) eqn:Eo; [done|]. unfold node_measure in Hr. repeat case_match; simplify_eq.
    destruct (backup op); [|done]. destruct (proj1 Hbo); [by eexists|done].
Qed.

Lemma orig_ok_unique r : node_measure u64_max before = Some r -> orig_ok <-> matches_original op r = true.
Proof. intros Hr. unfold orig_ok. rewrite Hr. split; [intros (r' & [= <-] & Hm); done|eauto]. Qed.

Lemma desired_absent : matches_desired op None = true -> after = None.
Proof using Hwf.
  pose proof (wf_desired _ _ _ Hwf) as Hd. unfold matches_desired, snapshot_matches.
  destruct after as [ [c m]|]; [|done]. destruct Hd as (_ & -> & _). cbn. by rewrite andb_false_r.
Qed.

(** The original is never taken for the installed file. *)
Lemma original_not_desired r : node_measure u64_max before = Some r -> matches_desired op r = true ->
  after = None /\ ~ orig_ok.
Proof using Hwf.
  intros Hr Hm. destruct r as [ [ [id c] m]|].
  - exfalso. unfold matches_desired, snapshot_matches in Hm. rewrite !andb_true_iff in Hm.
    destruct Hm as [ [Hi%bool_decide_eq_true _] _]. unfold node_measure in Hr. repeat case_match; simplify_eq.
    by eapply (wf_fresh _ _ _ Hwf).
  - apply desired_absent in Hm as Ha. split; [done|]. rewrite (orig_ok_unique None Hr).
    pose proof (wf_desired _ _ _ Hwf) as Hd. rewrite Ha in Hd. destruct Hd as (_ & _ & _ & _ & [id Ho]).
    unfold matches_original, snapshot_matches. by rewrite Ho.
Qed.

Lemma placed_snapshot s : placed s -> exists id c m, installed op = Some id /\ after = Some (c, m)
  /\ s !! target op = Some (Reg id c m)
  /\ node_measure u64_max (s !! target op) = Some (Some (id, c, m))
  /\ matches_desired op (Some (id, c, m)) = true /\ matches_original op (Some (id, c, m)) = false
  /\ desired_digest op = Some (sha256_bytes c)
  /\ removable s (target op) id (sha256_bytes c) (desired_mode op).
Proof using Hwf.
  intros (Hok & (id & c & m & Hi & Ha & Ht) & _). pose proof (wf_desired _ _ _ Hwf) as Hd. rewrite Ha in Hd.
  destruct Hd as (_ & Hdig & Hmode & Hlen & Hm).
  assert (node_measure u64_max (s !! target op) = Some (Some (id, c, m))) as Hmeas.
  { rewrite Ht. cbn [node_measure]. by rewrite (proj2 (Z.leb_le _ _) Hlen), Hm. }
  exists id, c, m. split_and!; try done.
  - unfold matches_desired, snapshot_matches. by rewrite Hi, Hdig, Hmode, !bool_decide_true, Z.eqb_refl by done.
  - unfold matches_original, snapshot_matches. rewrite bool_decide_false; [done|]. intros Ho.
    destruct (orig_ok_cases Hok) as [(_ & Hn & _)|(b & id' & c' & m' & _ & Ho' & Hb & _)]; [congruence|].
    rewrite Ho' in Ho. injection Ho as ->. by apply (wf_fresh _ _ _ Hwf id' (Reg id' c' m')).
  - exists c, m. split; [done|]. split; [done|]. by rewrite Hmode.
Qed.

Lemma stage_after p : stage op = Some p -> exists c m, after = Some (c, m)
  /\ desired_digest op = Some (sha256_bytes c) /\ desired_mode op = Some m /\ len c <= u64_max
  /\ Z.land m o7777 = m.
Proof using Hwf.
  intros Hp. pose proof (wf_desired _ _ _ Hwf) as Hd. destruct after as [ [c m]|]; [|destruct Hd; congruence].
  destruct Hd as (_ & Hd). by exists c, m.
Qed.
Lemma removal_fields : after = None ->
  stage op = None /\ desired_digest op = None /\ installed op = None /\ is_Some (original op).
Proof using Hwf. intros Ha. pose proof (wf_desired _ _ _ Hwf) as Hd. rewrite Ha in Hd. tauto. Qed.

(** ** Transitions *)
Lemma stage_ok_other s s' : (forall p, stage op = Some p -> s' !! p = s !! p) -> stage_ok s -> stage_ok s'.
Proof. intros Heq Hok p Hp. rewrite Heq by done. auto. Qed.

Lemma unplace s : stage_ok s -> ready -> placed s ->
  let s' := delete (target op) s in unapplied s' \/ ready /\ backed_up s'.
Proof using Hwf.
  intros Hs Hr Hp. destruct cells_distinct as (_ & HB & _). destruct Hp as (Hok & _ & Hb). cbn.
  destruct (orig_ok_cases Hok) as [(Hn & _ & Hbef)|(b & id & c & m & Hbk & _ & _)].
  - left. split; [by rewrite lookup_delete_eq|]. intros b Hb'. congruence.
  - right. split; [done|]. split; [done|]. split; [by rewrite lookup_delete_eq|]. exists b. split; [done|].
    rewrite lookup_delete_ne by (by destruct (HB b Hbk)). auto.
Qed.

Lemma restore s b n : backup op = Some b -> before = Some n -> unapplied (<[target op := n]> (delete b s)).
Proof using Hwf.
  intros Hb Hn. destruct cells_distinct as (_ & HB & _). split; [by rewrite lookup_insert_eq|].
  intros b' Hb'. rewrite Hb in Hb'. injection Hb' as <-. destruct (HB b Hb) as [_ Hne].
  rewrite lookup_insert_ne by done. apply lookup_delete_eq.
Qed.

Lemma stage_removed s p : stage op = Some p ->
  (unapplied s -> unapplied (delete p s)) /\ (backed_up s -> backed_up (delete p s))
  /\ (placed s -> placed (delete p s)) /\ stage_gone (delete p s).
Proof using Hwf.
  intros Hp. destruct cells_distinct as (_ & _ & HS & HBS). destruct (HS p Hp) as [_ Hne].
  assert (delete p s !! target op = s !! target op) as HT by by rewrite lookup_delete_ne.
  assert (forall b, backup op = Some b -> delete p s !! b = s !! b) as HB.
  { intros b Hb. rewrite lookup_delete_ne; [done|]. intros ->. by eapply HBS. }
  split; [|split; [|split] ].
  - intros [Ht Hb]. split; [by rewrite HT|]. intros b Hb'. rewrite HB; auto.
  - intros (Hok & Ht & b & Hb & Hbef). split; [done|]. split; [by rewrite HT|]. exists b. by rewrite HB.
  - intros (Hok & Hpl & Hb). split; [done|]. split; [by rewrite HT|]. intros b Hb'. rewrite HB; auto.
  - intros p' Hp'. rewrite Hp in Hp'. injection Hp' as <-. apply lookup_delete_eq.
Qed.

(** A change of the operation's own files that keeps [prep]. *)
Lemma evolves_by s s' : home s -> elsewhere s s' -> prep s' -> (unapplied s -> unapplied s') -> evolves s s'.
Proof using Hwf. intros Hh He Hp Hu. split; [done|]. split; [done|]. split; [|done]. by eapply home_elsewhere. Qed.

(** ** Rolling back *)
Lemma wp_remove_owned_stage s p (Q : unit -> nodes -> Prop) X D :
  stage op = Some p -> home s -> stage_ok s -> Q tt (delete p s) ->
  (forall e s', s' = s \/ s' = delete p s -> faulty -> X e s') ->
  (forall s', s' = s \/ s' = delete p s -> D s') -> wp (remove_owned_stage op p) Q X D s.
Proof using Hwf.
  intros Hp Hh Hok HQ HX HD. destruct cells_distinct as (_ & _ & HS & _). destruct (HS p Hp) as [Hin _].
  destruct (stage_after p Hp) as (c & m & Ha & Hdig & Hmode & Hlen & Hm). unfold remove_owned_stage.
  rewrite Hdig. specialize (Hok p Hp).
  assert (forall id digest mode (rem : s !! p <> None -> removable s p id digest mode),
    wp (remove_at_exact_mode (handle p) id digest mode) Q X D s) as Hremove.
  { intros id digest mode Hrem. apply wp_cell_remove; [done|done|by auto| |].
    - intros e s' Hs' [F|(_ & Hne & Hno)]; [|exfalso; auto]. apply HX; [tauto|done].
    - intros s' Hs'. apply HD. tauto. }
  destruct (installed op) as [id|].
  - apply wp_bind, wp_cell_parent; [done|done| |auto..]. apply wp_bind, wp_cell_check; [done|done| |auto..].
    apply Hremove. intros Hne. destruct Hok as [?|(c' & m' & Ha' & Hs)]; [done|].
    rewrite Ha in Ha'. injection Ha' as <- <-. exists c, m. unfold measure, measure_bounded, node_measure. rewrite Hs, (proj2 (Z.leb_le _ _) Hlen), Hm, Hmode. done.
  - apply wp_bind, wp_cell_parent; [done|done| |auto..]. apply wp_bind, wp_cell_check; [done|done| |auto..].
    apply wp_bind, wp_bind. apply wp_cell_read; [done|done| | |auto].
    + intros r Hr. apply wp_ret. destruct r as [ [ [id b] m']|]; cbn.
      * apply Hremove. intros _. by exists b, m'.
      * apply wp_ret. rewrite <- (delete_id s p); [done|]. by apply measure_absent.
    + intros e [F|Hn]; [auto|]. exfalso. destruct Hok as [Ho|(id & b & m' & Ho & Hb)]; rewrite Ho in Hn; cbn in Hn; [done|].
      by rewrite (proj2 (Z.leb_le _ _) Hb) in Hn.
Qed.

(** The target: an installed file is removed, an original is left alone.  The
    third cause of an error is a removal that was applied. *)
Definition target_done s s' (errs : list rollback_site) : Prop :=
  evolves s s' /\ (errs = [] \/ ~ faulty -> unapplied s' \/ ready /\ backed_up s') /\
  (errs <> [] -> faulty \/ ~ orig_ok \/ (after = None /\ backed_up s /\ s' = s)) /\
  (forall p, stage op = Some p -> s' !! p = s !! p).

Lemma wp_rollback_target s (Q : list rollback_site -> nodes -> Prop) X D :
  home s -> prep s -> (forall errs s', target_done s s' errs -> Q errs s') ->
  (forall s', evolves s s' -> D s') -> wp (rollback_target op (handle (target op))) Q X D s.
Proof using Hwf.
  intros Hh Hpr HQ HD. pose proof (evolves_refl s Hpr Hh) as Href. destruct cells_distinct as (HT & _ & HS & _).
  assert (forall errs, unapplied s \/ ready /\ backed_up s ->
    (errs <> [] -> faulty \/ ~ orig_ok \/ (after = None /\ backed_up s /\ s = s)) -> Q errs s) as Hstay
    by (intros errs Hu He; by apply HQ).
  pose proof Hpr as [Hst [Hu|[Hr [Hb|Hpl] ] ] ]; unfold rollback_target; apply wp_bind, wp_attempt.
  - pose proof Hu as [Ht _]. apply wp_cell_read; [done|done| | |auto]; rewrite Ht.
    + intros r Hr. destruct (matches_desired op r) eqn:Hd.
      * destruct (original_not_desired r Hr Hd) as [Ha Hno].
        destruct (removal_fields Ha) as (_ & _ & -> & _). apply wp_ret, Hstay; tauto.
      * destruct (is_someb r && negb (matches_original op r)) eqn:Ho; apply wp_ret, Hstay; [tauto| |tauto|done].
        intros _. rewrite (orig_ok_unique r Hr). bool_prop. right; left. congruence.
    + intros e He. apply wp_ret, Hstay; [tauto|]. intros _. destruct He as [F|He]; [tauto|].
      right; left. intros (r & Hr & _). congruence.
  - pose proof Hb as (_ & Ht & _). apply wp_cell_read; [done|done| | |auto]; rewrite Ht.
    + intros r Hm. injection Hm as <-. destruct (matches_desired op None) eqn:Hd; [|by apply wp_ret, Hstay; [tauto|done] ].
      pose proof (desired_absent Hd) as Ha. destruct (removal_fields Ha) as (_ & _ & -> & _).
      apply wp_ret, Hstay; tauto.
    + intros e [F|He]; [|done]. apply wp_ret, Hstay; tauto.
  - destruct (placed_snapshot s Hpl) as (id & c & m & Hi & Ha & Ht & Hm & Hd & _ & Hdig & Hrem).
    assert (forall p, stage op = Some p -> delete (target op) s !! p = s !! p) as Hstage.
    { intros p Hp. rewrite lookup_delete_ne; [done|]. by destruct (HS p Hp). }
    pose proof (unplace s Hst Hr Hpl) as Hun. cbv zeta in Hun. assert (evolves s (delete (target op) s)) as Hev.
    { apply evolves_by; [done|by apply elsewhere_delete| |].
      - split; [by eapply stage_ok_other|tauto].
      - intros [Hs1 _]. destruct Hun as [?|(_ & _ & _ & b & Hb & Hs2)]; [done|].
        exfalso. destruct Hpl as (Hok & _ & _). rewrite Ht in Hs1. by eapply (wf_fresh _ _ _ Hwf). }
    apply wp_cell_read; [done|done| | |auto]; rewrite Hm.
    + intros r [= <-]. rewrite Hd, Hi, Hdig. apply wp_bind, wp_attempt, wp_cell_remove; [done|done| | |].
      * intros _. apply wp_ret, HQ. by split.
      * intros e s' Hs' [F|(_ & _ & Hno)]; [|done]. apply wp_ret, HQ. cbn.
        destruct Hs' as [-> |[_ ->] ]; (split; [done|]); (split; [|by split; [tauto|] ]); [|by auto].
        by intros [?|?].
      * intros s' [-> |[_ ->] ]; auto.
    + intros e [F|?]; [|done]. apply wp_ret, HQ. split; [done|]. split; [by intros [?|?]|]. by split; [tauto|].
Qed.

(** The backup: moved back when the target is free. *)
Definition backup_done s s' (errs : list rollback_site) : Prop :=
  evolves s s' /\ (errs = [] \/ ~ faulty -> unapplied s \/ ready /\ backed_up s -> unapplied s') /\
  (errs <> [] -> faulty \/ ~ orig_ok \/ placed s) /\
  (forall p, stage op = Some p -> s' !! p = s !! p).

Lemma restored_state s b : backup op = Some b -> home s -> stage_ok s -> backed_up s ->
  exists n, s !! b = Some n /\ s !! target op = None /\ before = Some n
  /\ let s' := <[target op := n]> (delete b s) in
     unapplied s' /\ evolves s s' /\ (forall p, stage op = Some p -> s' !! p = s !! p).
Proof using Hwf.
  intros Hb Hh Hst Hbk. pose proof Hbk as (Hok & Ht & b' & Hb' & Hs). rewrite Hb in Hb'. injection Hb' as <-.
  destruct cells_distinct as (HT & HB & HS & HBS). destruct (HB b Hb) as [Hin Hne].
  destruct (orig_ok_cases Hok) as [(? & _)|(b' & id & c & m & _ & _ & Hbef & _)]; [congruence|].
  exists (Reg id c m). split; [congruence|]. split; [done|]. split; [done|]. cbv zeta.
  pose proof (restore s b _ Hb Hbef) as Hun. split; [done|].
  assert (forall p, stage op = Some p -> <[target op := Reg id c m]> (delete b s) !! p = s !! p) as Hstage.
  { intros p Hp. destruct (HS p Hp) as [_ Hp']. rewrite lookup_insert_ne by done.
    rewrite lookup_delete_ne; [done|]. by apply HBS. }
  split; [|done]. apply evolves_by; [done| | |done].
  - eapply elsewhere_trans; [by apply elsewhere_delete|by apply elsewhere_insert].
  - split; [by eapply stage_ok_other|by left].
Qed.

Lemma wp_restore_backup s b (Q : list rollback_site -> nodes -> Prop) X D :
  backup op = Some b -> home s -> stage_ok s -> ready -> backed_up s ->
  (forall errs s', backup_done s s' errs -> Q errs s') -> (forall s', evolves s s' -> D s') ->
  wp (restore_backup op (handle b) (handle (target op))) Q X D s.
Proof using Hwf.
  intros Hb Hh Hst Hr Hbk HQ HD. assert (evolves s s) as Href by (apply evolves_refl; [by split; auto|done]).
  destruct cells_distinct as (HT & HB & _). destruct (HB b Hb) as [Hin Hne].
  destruct (restored_state s b Hb Hh Hst Hbk) as (n & Hsb & Ht & Hbef & Hun & Hev & Hstage).
  assert (forall errs, errs <> [] -> faulty -> Q errs s) as Hstay.
  { intros errs He F. apply HQ. split; [done|]. split; [by intros [?|?]|]. by split; [tauto|]. }
  assert (forall errs, (errs <> [] -> faulty) -> Q errs (<[target op := n]> (delete b s))) as Hback.
  { intros errs He. apply HQ. split; [done|]. split; [done|]. by split; [tauto|]. }
  destruct Hev as (Hpr' & He' & Hh' & Hm'). assert (evolves s (<[target op := n]> (delete b s))) as Hev by by split.
  unfold restore_backup. apply wp_bind, wp_attempt, wp_cell_read; [done|done| | |auto]; rewrite Ht.
  2: { intros e [F|?]; [|done]. by apply wp_ret, Hstay. }
  intros r [= <-]. apply wp_bind, wp_attempt, wp_bind. unfold rename_noclobber.
  destruct (normal_path_shape b) as (Hatb & _); [by apply (cell_normal b Hin)|].
  destruct (normal_path_shape (target op)) as (Hatt & _); [by apply (cell_normal _ HT)|].
  unfold at_leaf in Hatb, Hatt. rewrite Hatb, Hatt.
  eapply wp_rename_noreplace; [done|done| |intros F; by apply wp_ret, Hstay|auto].
  apply wp_bind, wp_sync_home; [done| |intros F; by apply wp_ret, Hback|auto].
  apply wp_bind, wp_cell_read; [done|done| | |auto]; rewrite lookup_insert_eq.
  - intros r Hr'. pose proof Hbk as (Hok & _). rewrite <- Hbef in Hr'.
    rewrite (proj1 (orig_ok_unique r Hr') Hok). by apply wp_ret, wp_ret, Hback.
  - intros e [F|He]; [by apply wp_ret, Hback|]. exfalso. pose proof Hbk as ((r & Hr' & _) & _). rewrite <- Hbef in He. congruence.
Qed.

Lemma wp_without_backup s (Q : list rollback_site -> nodes -> Prop) X D :
  home s -> prep s -> unapplied s ->
  (forall errs, backup_done s s errs -> Q errs s) -> D s -> wp (without_backup op) Q X D s.
Proof using Hwf.
  intros Hh Hpr Hu HQ HD. destruct cells_distinct as (HT & _).
  assert (forall errs, (errs <> [] -> faulty \/ ~ orig_ok) -> Q errs s) as Hstay.
  { intros errs He. apply HQ. split; [by apply evolves_refl|]. split; [done|]. by split; [tauto|]. }
  unfold without_backup. pose proof Hu as [Ht _].
  apply wp_bind, wp_attempt, wp_cell_read; [done|done| | |done]; rewrite Ht.
  - intros r Hr. destruct (matches_original op r) eqn:Hm; [by apply wp_ret, Hstay|].
    destruct (is_someb (original op)); apply wp_ret, Hstay; [|done]. intros _. right.
    rewrite (orig_ok_unique r Hr). congruence.
  - intros e He. apply wp_ret, Hstay. intros _. destruct He as [?|He]; [tauto|].
    right. intros (r & Hr & _). congruence.
Qed.

Lemma wp_rollback_backup s b tp (Q : list rollback_site -> nodes -> Prop) X D :
  backup op = Some b -> home s -> prep s ->
  tp = inl (handle (target op)) \/ faulty /\ (exists e, tp = inr e) ->
  (forall errs s', evolves s s' -> (tp = inl (handle (target op)) -> backup_done s s' errs) ->
     (forall p, stage op = Some p -> s' !! p = s !! p) -> Q errs s') ->
  (forall s', evolves s s' -> D s') -> wp (rollback_backup op tp b) Q X D s.
Proof using Hwf.
  intros Hb Hh Hpr Htp HQ HD. pose proof (evolves_refl s Hpr Hh) as Href.
  destruct cells_distinct as (HT & HB & _). destruct (HB b Hb) as [Hin _].
  assert (forall errs s', backup_done s s' errs -> Q errs s') as Hdone.
  { intros errs s' Hd. pose proof Hd as (He & _ & _ & Hs). by apply HQ. }
  assert (forall errs, errs <> [] -> faulty \/ (~ orig_ok \/ placed s) /\ ~ (unapplied s \/ ready /\ backed_up s) -> Q errs s) as Hfault.
  { intros errs He Hc. apply Hdone. split; [done|]. split; [|by split; [tauto|] ]. intros [?|Hn] Hs; [done|tauto]. }
  unfold rollback_backup. apply wp_bind, wp_attempt, wp_cell_parent; [done|done| |intros F; by apply wp_ret, Hfault; auto|auto].
  destruct Htp as [-> |[F [e ->] ] ]; [|by apply wp_ret, HQ].
  apply wp_bind, wp_attempt, wp_cell_read; [done|done| | |auto].
  - intros r Hr. pose proof Hpr as [Hst [Hu|[Hrd [Hbk|Hpl] ] ] ].
    + pose proof Hu as [_ Hnob]. rewrite (Hnob b Hb) in Hr. injection Hr as <-.
      destruct (wf_original _ _ _ Hwf) as (Hbo & _). destruct (proj1 Hbo) as [id Hid]; [by eexists|].
      unfold matches_original at 1, snapshot_matches. rewrite Hid. cbn.
      apply wp_without_backup; auto.
    + pose proof Hbk as (Hok & _ & b' & Hb' & Hs). rewrite Hb in Hb'. injection Hb' as <-. rewrite Hs in Hr.
      rewrite (proj1 (orig_ok_unique r Hr) Hok). by apply wp_restore_backup.
    + pose proof Hpl as (Hok & _ & Hs). rewrite (Hs b Hb) in Hr. rewrite (proj1 (orig_ok_unique r Hr) Hok).
      destruct (placed_snapshot s Hpl) as (id & c & m & _ & _ & _ & Hm & _ & Hno & _ & _).
      unfold restore_backup. apply wp_bind, wp_attempt, wp_cell_read; [done|done| | |auto].
      * intros r' Hr'. rewrite Hm in Hr'. injection Hr' as <-. rewrite Hno. apply wp_ret, Hdone.
        split; [done|]. split; [|by split; [tauto|] ]. intros [?|Hn] [Hu|[_ Hbk] ]; [done|done| |].
        -- exfalso. pose proof Hu as [_ Hnob]. specialize (Hnob b Hb).
           destruct (orig_ok_cases Hok) as [(? & _)|(b' & ? & ? & ? & ? & _ & Hbef & _)]; [congruence|].
           specialize (Hs b Hb). congruence.
        -- exfalso. destruct Hbk as (_ & Ht & _). by rewrite Ht in Hm.
      * intros e [F|?]; [apply wp_ret, Hfault; auto|congruence].
  - intros e [F|He]; [apply wp_ret, Hfault; auto|]. exfalso. pose proof Hpr as [_ [ [_ Hn]|[_ [Hbk|Hpl] ] ] ].
    + by rewrite (Hn b Hb) in He.
    + destruct Hbk as ((r & Hr & _) & _ & b' & Hb' & Hs). rewrite Hb in Hb'. injection Hb' as <-. congruence.
    + destruct Hpl as ((r & Hr & _) & _ & Hs). rewrite (Hs b Hb) in He. congruence.
Qed.

Definition rollback_stage : io (list rollback_site) :=
  match stage op with
  | Some p => removed ← attempt (remove_owned_stage op p); mret (noting RemoveStage removed)
  | None => mret []
  end.
Lemma wp_rollback_stage s (Q : list rollback_site -> nodes -> Prop) X D :
  home s -> prep s ->
  (forall errs s', evolves s s' -> (errs = [] \/ ~ faulty -> stage_gone s') -> (errs <> [] -> faulty) -> Q errs s') ->
  (forall s', evolves s s' -> D s') -> wp rollback_stage Q X D s.
Proof using Hwf.
  intros Hh Hpr HQ HD. pose proof (evolves_refl s Hpr Hh) as Href. unfold rollback_stage.
  destruct (stage op) as [p|] eqn:Hp; [|apply wp_ret, HQ; [done| |done]; intros _ p Hp'; congruence].
  destruct cells_distinct as (_ & _ & HS & _). destruct (HS p Hp) as [Hin _].
  destruct (stage_removed s p Hp) as (Hu & Hb & Hpl & Hgone). pose proof Hpr as [Hst Hcase].
  assert (evolves s (delete p s)) as Hev.
  { apply evolves_by; [done|by apply elsewhere_delete| |done]. split; [|tauto].
    intros p' Hp'. left. by apply Hgone. }
  apply wp_bind, wp_attempt, wp_remove_owned_stage; [done|done|done| | |].
  - by apply wp_ret, HQ.
  - intros e s' Hs' F. apply wp_ret, HQ; [by destruct Hs' as [-> | ->]|by intros [?|?]|done].
  - intros s' [-> | ->]; auto.
Qed.

(** ** One operation

    The errors collected before the stage is removed: [e0] from opening the
    directory, [e1] from the target, [e2] from the backup. *)
Definition reported (e0 e1 e2 : list rollback_site) s s' : Prop :=
  evolves s s' /\ (e0 <> [] -> faulty) /\ (e0 ++ e1 ++ e2 = [] \/ ~ faulty -> unapplied s') /\
  (e1 ++ e2 <> [] -> faulty \/ ~ orig_ok \/ (after = None /\ backed_up s /\ unapplied s')).

Lemma wp_rollback_end e0 e1 e2 s s2 (Q : unit -> nodes -> Prop) X D : reported e0 e1 e2 s s2 ->
  (forall s', evolves s s' -> unapplied s' -> stage_gone s' -> Q tt s') ->
  (forall e s', evolves s s' -> faulty \/ ~ orig_ok \/ (after = None /\ backed_up s /\ unapplied s' /\ stage_gone s') -> X e s') ->
  (forall s', evolves s s' -> D s') ->
  wp (e3 ← rollback_stage;
      match e0 ++ e1 ++ e2 ++ e3 with [] => mret tt | _ => throw (other RollbackErrors) end : io unit) Q X D s2.
Proof using Hwf.
  intros (Hev & He0 & Hun & Herr) HQ HX HD. pose proof Hev as (Hp2 & _ & Hh2 & _).
  apply wp_bind, wp_rollback_stage; [done|done| |intros s3 H3; apply HD; by eapply evolves_trans].
  intros e3 s3 H3 Hgone He3. assert (evolves s s3) as Hev3 by by eapply evolves_trans.
  pose proof H3 as (_ & _ & _ & Hmono). destruct (e0 ++ e1 ++ e2 ++ e3) as [|x xs] eqn:Hall.
  - rewrite !app_assoc in Hall. apply app_eq_nil in Hall as [Hall ->]. rewrite <- app_assoc in Hall.
    apply wp_ret. auto.
  - apply wp_throw, HX; [done|]. destruct (decide (e0 = [])) as [-> |]; [|auto].
    destruct (decide (e3 = [])) as [-> |]; [|auto]. destruct (decide (e1 ++ e2 = [])) as [E|Hne].
    { exfalso. by rewrite app_nil_r, E in Hall. }
    destruct (Herr Hne) as [?|[?|(Ha & Hb & Hu2)] ]; [auto|auto|]. right. right. auto 7.
Qed.

(** A file installed at the target is neither unapplied nor backed up. *)
Lemma placed_not_unapplied s b : backup op = Some b -> placed s -> ~ unapplied s.
Proof using Hwf.
  intros Hb (Hok & _ & Hs) [_ Hn]. specialize (Hs b Hb). specialize (Hn b Hb).
  destruct (orig_ok_cases Hok) as [(? & _)|(? & ? & ? & ? & _ & _ & Hbef & _)]; congruence.
Qed.
Lemma placed_not_backed_up s : placed s -> ~ backed_up s.
Proof. intros (_ & (? & ? & ? & _ & _ & Ht) & _) (_ & Ht' & _). congruence. Qed.

Lemma reported_backup b e1 e2 s s1 s2 : backup op = Some b ->
  target_done s s1 e1 -> prep s1 -> evolves s1 s2 -> backup_done s1 s2 e2 -> reported [] e1 e2 s s2.
Proof using Hwf.
  intros Hb (Hev1 & Hun1 & Herr1 & _) Hp1 H2 (_ & Hun2 & Herr2 & _).
  split; [by eapply evolves_trans|]. split; [done|]. split.
  { cbn [app]. intros [E|Hn]; [apply app_eq_nil in E as [-> ->] |]; auto. }
  intros Hne. destruct (decide (e2 = [])) as [-> |He2].
  { rewrite app_nil_r in Hne. destruct (Herr1 Hne) as [?|[?|(Ha & Hbk & ->)] ]; [auto|auto|].
    right. right. split; [done|]. split; [done|]. apply Hun2; [by left|].
    destruct Hp1 as [_ [?|?] ]; [by left|]. right. tauto. }
  destruct (Herr2 He2) as [?|[?|Hpl] ]; [auto|auto|]. destruct (decide (e1 = [])) as [-> |He1].
  - destruct (Hun1 (or_introl eq_refl)) as [Hu|[_ Hbk] ]; exfalso;
      [by eapply placed_not_unapplied|by eapply placed_not_backed_up].
  - destruct (Herr1 He1) as [?|[?|(Ha & Hbk & ->)] ]; [auto|auto|]. exfalso. by eapply placed_not_backed_up.
Qed.

(** On success the target holds its original again and nothing of the operation
    is left; an error means an injected fault, a target that was not the
    planned one, or, although everything was put back, an applied removal. *)
Lemma wp_rollback_operation s (Q : unit -> nodes -> Prop) X D :
  home s -> prep s ->
  (forall s', evolves s s' -> unapplied s' -> stage_gone s' -> Q tt s') ->
  (forall e s', evolves s s' -> faulty \/ ~ orig_ok \/ (after = None /\ backed_up s /\ unapplied s' /\ stage_gone s') -> X e s') ->
  (forall s', evolves s s' -> D s') -> wp (rollback_operation op) Q X D s.
Proof using Hwf.
  intros Hh Hpr HQ HX HD. pose proof (evolves_refl s Hpr Hh) as Href.
  assert (HXf : forall e s', evolves s s' -> faulty -> X e s') by auto.
  unfold rollback_operation. apply wp_bind, wp_attempt. destruct cells_distinct as (HT & _).
  apply wp_cell_parent; [done|done| | |auto].
  - apply wp_bind, wp_cell_check; [done|done| |auto|auto].
    apply wp_bind, wp_rollback_target; [done|done| |auto]. intros e1 s1 Hdone. pose proof Hdone as (Hev1 & Hun1 & Herr1 & _).
    pose proof Hev1 as (Hp1 & _ & Hh1 & _). destruct (backup op) as [b|] eqn:Hb.
    + apply wp_bind, wp_rollback_backup; [done|done|done|by left| |intros s2 H2; apply HD; by eapply evolves_trans].
      intros e2 s2 H2 Hd _. apply (wp_rollback_end [] e1 e2 s); [|done|done|done].
      by eapply reported_backup, Hd.
    + apply wp_bind, wp_ret. apply (wp_rollback_end [] e1 [] s); [|done|done|done].
      split; [done|]. split; [done|]. cbn [app]. rewrite app_nil_r. split.
      * intros E. destruct (Hun1 E) as [?|(_ & _ & _ & b & Hb' & _)]; [done|congruence].
      * intros Hne. destruct (Herr1 Hne) as [?|[?|(_ & (_ & _ & b & Hb' & _) & _)] ]; [auto|auto|congruence].
  - intros F. apply wp_bind, wp_ret, wp_bind, wp_ret.
    assert (forall e2 s2, evolves s s2 -> reported [OpenTargetParent] [] e2 s s2) as Hrep.
    { intros e2 s2 H2. split; [done|]. split; [done|]. split; [by intros [?|?]|auto]. }
    destruct (backup op) as [b|] eqn:Hb.
    + apply wp_bind, wp_rollback_backup; [done|done|done|right; eauto| |auto].
      intros e2 s2 H2 _ _. apply (wp_rollback_end [OpenTargetParent] [] e2 s); auto.
    + apply wp_bind, wp_ret. apply (wp_rollback_end [OpenTargetParent] [] [] s); auto.
Qed.
End states.
End operation.
