(* ===== verification/Apply.v ===== *)
(** * Apply: one operation of a publication, forwards

    Applying an operation takes it from [unapplied] to [applied] through the
    states [Rollback] undoes, and cleaning up after the commit keeps what was
    published. *)

From stdpp Require Import gmap.
From S2P Require Import Prelude Text Digest Publication CrashIO FileSystem FileSpecs Journal JournalSpecs Transaction Rollback.

Section operation.
Context {O : Os_params} {H : Sha256}.
Context (op : JournalOperation) (before : option node) (after : option (list Z * Z)).
Context (Hwf : op_wf op before after) (ok : (syscall -> verdict) -> Prop).
Abbreviation wp := (wp ok).
Abbreviation faulty := (faulty ok).
Implicit Types (X : error -> nodes -> Prop) (D : nodes -> Prop) (s : nodes).
Abbreviation orig_ok := (orig_ok op before).
Abbreviation unapplied := (unapplied op before).
Abbreviation backed_up := (backed_up op before).
Abbreviation placed := (placed op before after).
Abbreviation prep := (prep op before after).
Abbreviation staged := (staged op after).
Abbreviation home := (home op).
Abbreviation elsewhere := (elsewhere op).
Abbreviation stage_gone := (stage_gone op).

(** Published: the target is as desired, whether or not the backup is left. *)
Definition target_desired s : Prop :=
  match after with
  | Some (contents, mode) => exists id, installed op = Some id /\ s !! target op = Some (Reg id contents mode)
  | None => s !! target op = None
  end.
Definition backup_gone s : Prop := forall b, backup op = Some b -> s !! b = None.
Definition published s : Prop :=
  orig_ok /\ target_desired s /\ stage_gone s
  /\ forall b, backup op = Some b -> s !! b = None \/ s !! b = before.

Definition steps s s' : Prop := prep s' /\ elsewhere s s' /\ home s'.

Lemma steps_trans s s1 s2 : steps s s1 -> steps s1 s2 -> steps s s2.
Proof. intros (? & ? & ?) (? & ? & ?). split; [done|]. split; [by eapply elsewhere_trans|done]. Qed.

Lemma staged_ok s : staged s -> stage_ok op after s.
Proof. intros Hs p Hp. destruct (Hs p Hp) as (id & c & m & Hi & Ha & Hl). right. rewrite Hi. eauto. Qed.
Lemma staged_ready s : staged s -> ready op.
Proof. intros Hs [p Hp]. destruct (Hs p Hp) as (id & _ & _ & Hi & _). by eexists. Qed.

(** ** The backup rename *)
Lemma backed_up_state s b : backup op = Some b -> home s -> unapplied s -> staged s -> orig_ok ->
  exists n, s !! target op = Some n /\ s !! b = None /\ before = Some n
  /\ let s' := <[b := n]> (delete (target op) s) in backed_up s' /\ staged s' /\ steps s s'.
Proof using Hwf.
  intros Hb Hh [Ht Hnb] Hst Hok. destruct (cells_distinct op before after Hwf) as (HT & HB & HS & HBS).
  destruct (HB b Hb) as [Hin Hne].
  destruct (orig_ok_cases op before after Hwf Hok) as [(? & _)|(b' & id & c & m & Hb' & _ & Hbef & _)]; [congruence|].
  rewrite Hb in Hb'. injection Hb' as <-. exists (Reg id c m). split; [congruence|]. split; [auto|]. split; [done|].
  assert (backed_up (<[b := Reg id c m]> (delete (target op) s))) as Hbk.
  { split; [done|]. split; [by rewrite lookup_insert_ne, lookup_delete_eq|].
    exists b. split; [done|]. by rewrite lookup_insert_eq. }
  assert (staged (<[b := Reg id c m]> (delete (target op) s))) as Hst'.
  { intros p Hp. destruct (Hst p Hp) as (i & c' & m' & Hi & Ha & Hl). exists i, c', m'. split_and!; [done..|].
    destruct (HS p Hp) as [_ Hp']. rewrite lookup_insert_ne by (by apply HBS). by rewrite lookup_delete_ne. }
  split; [done|]. split; [done|]. assert (elsewhere s (<[b := Reg id c m]> (delete (target op) s))) as He.
  { apply (elsewhere_trans _ s (delete (target op) s)); [by apply elsewhere_delete|by apply elsewhere_insert]. }
  split; [|split; [done|by eapply home_elsewhere] ]. split; [by apply staged_ok|]. right.
  split; [by eapply staged_ready|by left].
Qed.

Lemma wp_apply_backup s b (Q : unit -> nodes -> Prop) X D :
  backup op = Some b -> home s -> unapplied s -> staged s -> orig_ok ->
  (forall s', steps s s' -> backed_up s' -> staged s' -> Q tt s') ->
  (forall e s', steps s s' -> faulty -> X e s') -> (forall s', steps s s' -> D s') ->
  wp (apply_backup op (handle (target op)) b) Q X D s.
Proof using Hwf.
  intros Hb Hh Hu Hst Hok HQ HX HD. destruct (cells_distinct op before after Hwf) as (HT & HB & _).
  destruct (HB b Hb) as [Hin Hne].
  assert (steps s s) as Href.
  { split; [|by split]. split; [by apply staged_ok|by left]. }
  destruct (backed_up_state s b Hb Hh Hu Hst Hok) as (n & Ht & Hsb & Hbef & Hbk & Hst' & Hsteps).
  pose proof Hsteps as (_ & _ & Hh').
  unfold apply_backup. apply wp_bind. eapply wp_cell_parent; [done|done|done| |auto..].
  destruct (normal_path_shape b) as (Hatb & _); [by apply (cell_normal op before after Hwf b Hin)|].
  destruct (normal_path_shape (target op)) as (Hatt & _); [by apply (cell_normal op before after Hwf _ HT)|].
  unfold at_leaf in Hatb, Hatt. unfold rename_noclobber. rewrite Hatb, Hatt.
  apply wp_bind. eapply wp_rename_noreplace; [done|done| |auto..].
  apply wp_bind. eapply wp_cell_read; [done|done|done| | |auto]; rewrite lookup_insert_eq, <- Hbef.
  - intros r Hr. rewrite (proj1 (orig_ok_unique op before r Hr) Hok). apply wp_bind, wp_ret.
    eapply wp_sync_home; [done|done| |auto..]. auto.
  - intros e [F|He]; [auto|]. exfalso. destruct Hok as (r & Hr & _). congruence.
Qed.

(** ** The stage rename *)
Lemma placed_state s p : stage op = Some p -> home s -> staged s -> orig_ok ->
  s !! target op = None -> (forall b, backup op = Some b -> s !! b = before) ->
  exists id c m, s !! p = Some (Reg id c m)
  /\ node_measure u64_max (s !! p) = Some (Some (id, c, m)) /\ matches_desired op (Some (id, c, m)) = true
  /\ let s' := <[target op := Reg id c m]> (delete p s) in placed s' /\ stage_gone s' /\ steps s s'.
Proof using Hwf.
  intros Hp Hh Hst Hok Ht Hb. destruct (cells_distinct op before after Hwf) as (HT & HB & HS & HBS).
  destruct (HS p Hp) as [Hin Hne]. destruct (Hst p Hp) as (id & c & m & Hi & Ha & Hl).
  exists id, c, m. split; [done|]. assert (placed (<[target op := Reg id c m]> (delete p s))) as Hpl.
  { split; [done|]. split; [exists id, c, m; by rewrite lookup_insert_eq|]. intros b Hb'.
    destruct (HB b Hb') as [_ Hbne]. rewrite lookup_insert_ne by done.
    rewrite lookup_delete_ne; [auto|]. intros ->. by eapply HBS. }
  destruct (placed_snapshot op before after Hwf _ Hpl) as (id' & c' & m' & Hi' & Ha' & _ & Hm & Hd & _).
  rewrite Hi in Hi'. injection Hi' as <-. rewrite Ha in Ha'. injection Ha' as <- <-.
  rewrite lookup_insert_eq, <- Hl in Hm. split; [done|]. split; [done|]. split; [done|].
  assert (stage_gone (<[target op := Reg id c m]> (delete p s))) as Hg.
  { intros p' Hp'. rewrite Hp in Hp'. injection Hp' as <-. by rewrite lookup_insert_ne, lookup_delete_eq. }
  split; [done|]. assert (elsewhere s (<[target op := Reg id c m]> (delete p s))) as He.
  { apply (elsewhere_trans _ s (delete p s)); [by apply elsewhere_delete|by apply elsewhere_insert]. }
  split; [|split; [done|by eapply home_elsewhere] ]. split; [intros p' Hp'; left; auto|]. right.
  split; [by eapply staged_ready|by right].
Qed.

Lemma wp_apply_stage s p (Q : unit -> nodes -> Prop) X D :
  stage op = Some p -> home s -> prep s -> staged s -> orig_ok ->
  s !! target op = None -> (forall b, backup op = Some b -> s !! b = before) ->
  (forall s', steps s s' -> placed s' -> stage_gone s' -> Q tt s') ->
  (forall e s', steps s s' -> faulty -> X e s') -> (forall s', steps s s' -> D s') ->
  wp (apply_stage op (handle (target op)) p) Q X D s.
Proof using Hwf.
  intros Hp Hh Hpr Hst Hok Ht Hb HQ HX HD. destruct (cells_distinct op before after Hwf) as (HT & _ & HS & _).
  destruct (HS p Hp) as [Hin Hne]. assert (steps s s) as Href by by split.
  destruct (placed_state s p Hp Hh Hst Hok Ht Hb) as (id & c & m & Hl & Hm & Hd & Hpl & Hg & Hsteps).
  pose proof Hsteps as (_ & _ & Hh'). unfold apply_stage. apply wp_bind.
  eapply wp_cell_read; [done|done|done| | |auto]; rewrite Hm; [|intros e [F|?]; [auto|done] ].
  intros r [= <-]. apply wp_bind. rewrite Hd. apply wp_ret, wp_bind.
  eapply wp_cell_parent; [done|done|done| |auto..].
  destruct (normal_path_shape p) as (Hatp & _); [by apply (cell_normal op before after Hwf p Hin)|].
  destruct (normal_path_shape (target op)) as (Hatt & _); [by apply (cell_normal op before after Hwf _ HT)|].
  unfold at_leaf in Hatp, Hatt. unfold rename_noclobber. rewrite Hatp, Hatt.
  apply wp_bind. eapply wp_rename_noreplace; [done|done| |auto..].
  apply wp_bind. eapply wp_cell_read; [done|done|done| | |auto]; rewrite lookup_insert_eq, <- Hl, Hm;
    [|intros e [F|?]; [auto|done] ].
  intros r [= <-]. rewrite Hd. apply wp_bind, wp_ret. eapply wp_sync_home; [done|done| |auto..]. auto.
Qed.

(** ** One operation *)
Definition applied s : Prop :=
  match after with Some _ => placed s | None => backed_up s end /\ stage_gone s.

Lemma wp_apply_rest s (Q : unit -> nodes -> Prop) X D :
  home s -> prep s -> staged s -> orig_ok ->
  s !! target op = None -> (forall b, backup op = Some b -> s !! b = before) ->
  (is_Some (backup op) -> backed_up s) ->
  (forall s', steps s s' -> applied s' -> Q tt s') ->
  (forall e s', steps s s' -> faulty -> X e s') -> (forall s', steps s s' -> D s') ->
  wp (match stage op with Some p => apply_stage op (handle (target op)) p | None => mret tt end) Q X D s.
Proof using Hwf.
  intros Hh Hpr Hst Hok Ht Hb Hbk HQ HX HD. pose proof (wf_desired _ _ _ Hwf) as Hd. unfold applied in HQ.
  destruct (stage op) as [p|] eqn:Hp.
  - destruct (stage_after op before after Hwf p Hp) as (c & m & Ha & _).
    apply wp_apply_stage; try done. intros s' Hs Hpl Hg. apply HQ; [done|]. split; [by destruct after|done].
  - apply wp_ret, HQ; [by split|]. split; [|intros p Hp'; congruence].
    destruct after as [ [c m]|]; [by destruct Hd as [ [? ?] _]|]. destruct Hd as (_ & _ & _ & _ & Ho).
    apply Hbk. by apply (wf_original _ _ _ Hwf).
Qed.

Lemma wp_apply_operation s (Q : unit -> nodes -> Prop) X D :
  home s -> unapplied s -> staged s ->
  (forall s', steps s s' -> applied s' -> Q tt s') ->
  (forall e s', steps s s' -> faulty \/ ~ orig_ok -> X e s') -> (forall s', steps s s' -> D s') ->
  wp (apply_operation op) Q X D s.
Proof using Hwf.
  intros Hh Hu Hst HQ HX HD. destruct (cells_distinct op before after Hwf) as (HT & HB & HS & HBS).
  assert (prep s) as Hpr by (split; [by apply staged_ok|by left]). assert (steps s s) as Href by by split.
  assert (forall e s', steps s s' -> faulty -> X e s') as HXf by auto.
  unfold apply_operation. apply wp_bind. eapply wp_cell_parent; [done|done|done| |auto..].
  apply wp_bind. eapply wp_cell_check; [done|done|done| |auto..].
  pose proof Hu as [Ht Hnb]. apply wp_bind. eapply wp_cell_read; [done|done|done| | |auto]; rewrite Ht.
  2: { intros e [F|He]; [auto|]. apply HX; [done|right]. intros (r & Hr & _). congruence. }
  intros r Hr. destruct (matches_original op r) eqn:Hm.
  2: { apply wp_bind, wp_throw, HX; [done|right]. rewrite (orig_ok_unique op before r Hr). congruence. }
  assert orig_ok as Hok by by exists r. apply wp_bind, wp_ret. destruct (backup op) as [b|] eqn:Hb.
  - apply wp_bind, wp_apply_backup; [done..| |auto|auto]. intros s1 H1 Hbk Hst1. pose proof H1 as (Hp1 & _ & Hh1).
    pose proof Hbk as (_ & Ht1 & b' & Hb' & Hs1).
    apply wp_apply_rest; [done|done|done|done|done| | |eauto using steps_trans..].
    + intros b2 Hb2. congruence.
    + done.
  - apply wp_bind, wp_ret.
    destruct (orig_ok_cases op before after Hwf Hok) as [(_ & _ & Hn)|(b' & ? & ? & ? & Hb' & _)]; [|congruence].
    apply wp_apply_rest; [done|done|done|done|congruence| | |auto..].
    + intros b' Hb'. congruence.
    + intros [b' Hb']. congruence.
Qed.

(** ** After the commit *)
Lemma applied_published s : applied s -> published s.
Proof using Hwf.
  intros [Ha Hg]. unfold published, target_desired. destruct after as [ [c m]|] eqn:E.
  - destruct Ha as (Hok & (id & c' & m' & Hi & [= <- <-] & Ht) & Hb). split_and!; eauto.
  - destruct Ha as (Hok & Ht & b & Hb & Hs). split_and!; [done..|]. intros b' Hb'. right. congruence.
Qed.

Lemma wp_cleanup_stage s (Q : unit -> nodes -> Prop) X D :
  home s -> published s -> Q tt s -> (faulty -> forall e, X e s) -> D s -> wp (cleanup_stage op) Q X D s.
Proof using Hwf.
  intros Hh (_ & _ & Hg & _) HQ HX HD. unfold cleanup_stage. destruct (stage op) as [p|] eqn:Hp; [|by apply wp_ret].
  pose proof (Hg p Hp) as Hn. eapply wp_remove_owned_stage; [done|done|done| | | |].
  - intros p' Hp'. left. auto.
  - by rewrite delete_id.
  - intros e s' Hs F. rewrite (delete_id s) in Hs by done. destruct Hs as [-> | ->]; auto.
  - intros s' Hs. rewrite (delete_id s) in Hs by done. destruct Hs as [-> | ->]; auto.
Qed.

Lemma wp_cleanup_backup s (Q : unit -> nodes -> Prop) X D :
  home s -> published s ->
  (forall s', elsewhere s s' -> home s' -> published s' -> backup_gone s' -> Q tt s') ->
  (forall e s', elsewhere s s' -> home s' -> published s' -> faulty -> X e s') ->
  (forall s', elsewhere s s' -> home s' -> published s' -> D s') -> wp (cleanup_backup op) Q X D s.
Proof using Hwf.
  intros Hh Hpub HQ HX HD. pose proof Hpub as (Hok & Ht & Hg & Hb). unfold cleanup_backup.
  destruct (backup op) as [b|] eqn:Eb; [|apply wp_ret, HQ; [done..|]; intros b Hb'; congruence].
  destruct (cells_distinct op before after Hwf) as (HT & HB & HS & HBS). destruct (HB b Eb) as [Hin Hne].
  destruct (orig_ok_cases op before after Hwf Hok) as [(? & _)|(b' & id & c & m & _ & Ho & Hbef & Hlen)]; [congruence|].
  assert (published (delete b s)) as Hpub'.
  { split; [done|]. split; [|split].
    - unfold target_desired in *. by rewrite lookup_delete_ne.
    - intros p Hp. rewrite lookup_delete_ne; [auto|]. by apply HBS.
    - intros b2 Hb2. rewrite Eb in Hb2. injection Hb2 as <-. left. apply lookup_delete_eq. }
  assert (elsewhere s s) as Hsame by done.
  assert (elsewhere s (delete b s)) as He by by apply elsewhere_delete.
  assert (home (delete b s)) as Hh' by by eapply home_elsewhere.
  pose proof Hok as (r & Hr & Hm). rewrite Hbef in Hr. cbn [node_measure] in Hr.
  rewrite (proj2 (Z.leb_le _ _) Hlen) in Hr. injection Hr as <-. unfold matches_original, snapshot_matches in Hm.
  rewrite !andb_true_iff in Hm. destruct Hm as [ [_ Hdig%bool_decide_eq_true] Hmode]. rewrite Ho, <- Hdig.
  apply wp_bind. eapply wp_cell_parent; [done|done|done| |auto..].
  apply wp_bind. eapply wp_cell_check; [done|done|done| |auto..].
  assert (s !! b <> None -> removable s b id (sha256_bytes c) (original_mode op)) as Hrem.
  { intros Hnn. destruct (Hb b eq_refl) as [?|Hs]; [done|]. exists c, (Z.land m o7777).
    unfold measure, measure_bounded, node_measure. rewrite Hs, Hbef, (proj2 (Z.leb_le _ _) Hlen).
    split; [done|]. split; [done|]. destruct (original_mode op); bool_prop; done. }
  eapply wp_cell_remove; [done|done|done| | |].
  - intros _. apply HQ; [done..|]. intros b2 Hb2. rewrite Eb in Hb2. injection Hb2 as <-. apply lookup_delete_eq.
  - intros e s' Hs' [F|(_ & Hnn & Hno)]; [|exfalso; auto]. destruct Hs' as [-> |[_ ->] ]; auto.
  - intros s' [-> |[_ ->] ]; auto.
Qed.
End operation.
