(* ===== verification/FileSet.v ===== *)
(** * FileSet: all operations of a publication together

    The operations of one journal touch disjoint files, so what [Rollback] and
    [Apply] say of one operation holds of the whole set under the loops of the
    code. *)

From stdpp Require Import gmap.
From S2P Require Import Prelude Text Digest Publication CrashIO FileSystem FileSpecs Journal JournalSpecs Transaction Rollback Apply.

(** An operation with the node its target held and what it publishes. *)
Record item := mkItem { i_op : JournalOperation; i_before : option node; i_after : option (list Z * Z) }.
Definition all_cells (items : list item) : list path := flat_map (fun it => cells (i_op it)) items.

Section file_set.
Context {O : Os_params} {H : Sha256}.
Implicit Types (it : item) (s : nodes) (items : list item).

Definition item_wf it : Prop := op_wf (i_op it) (i_before it) (i_after it).
Definition item_ok it : Prop := orig_ok (i_op it) (i_before it).
Definition item_unapplied it s : Prop := unapplied (i_op it) (i_before it) s.
Definition item_prep it s : Prop := prep (i_op it) (i_before it) (i_after it) s.
Definition item_staged it s : Prop := staged (i_op it) (i_after it) s.
Definition item_applied it s : Prop := applied (i_op it) (i_before it) (i_after it) s.
Definition item_published it s : Prop := published (i_op it) (i_before it) (i_after it) s.
Definition item_home it s : Prop := home (i_op it) s.
Definition rolled it s : Prop := item_unapplied it s /\ stage_gone (i_op it) s.
Definition finished it s : Prop := item_published it s /\ backup_gone (i_op it) s.

(** No file belongs to two operations, or is an ancestor of another. *)
Definition separate items : Prop :=
  (forall it, it ∈ items -> item_wf it) /\ NoDup (all_cells items) /\
  (forall p q, p ∈ all_cells items -> q ∈ all_cells items -> ~ under p q).

(** ** Locality

    Every predicate on an operation only looks at its own files. *)
Definition agree it s s' : Prop := forall q, q ∈ cells (i_op it) -> s' !! q = s !! q.

Lemma agree_target it s s' : agree it s s' -> s' !! target (i_op it) = s !! target (i_op it).
Proof. intros Ha. apply Ha. by left. Qed.
Lemma agree_backup it s s' b : agree it s s' -> backup (i_op it) = Some b -> s' !! b = s !! b.
Proof. intros Ha Hb. apply Ha. unfold cells. rewrite elem_of_cons, elem_of_app, !elem_of_option_list. auto. Qed.
Lemma agree_stage it s s' p : agree it s s' -> stage (i_op it) = Some p -> s' !! p = s !! p.
Proof. intros Ha Hp. apply Ha. unfold cells. rewrite elem_of_cons, elem_of_app, !elem_of_option_list. auto. Qed.

Section local.
Context (it : item) (s s' : nodes) (Ha : agree it s s').
Local Ltac localize :=
  repeat match goal with
  | |- context [s' !! target (i_op it)] => rewrite (agree_target it s s' Ha)
  | Hb : backup (i_op it) = Some ?b |- context [s' !! ?b] => rewrite (agree_backup it s s' b Ha Hb)
  | Hp : stage (i_op it) = Some ?p |- context [s' !! ?p] => rewrite (agree_stage it s s' p Ha Hp)
  end.

Lemma unapplied_local : item_unapplied it s -> item_unapplied it s'.
Proof using Ha. intros [Ht Hb]. split; localize; [done|]. intros b Hb'. localize. auto. Qed.
Lemma gone_local : stage_gone (i_op it) s -> stage_gone (i_op it) s'.
Proof using Ha. intros Hg p Hp. localize. auto. Qed.
Lemma backup_gone_local : backup_gone (i_op it) s -> backup_gone (i_op it) s'.
Proof using Ha. intros Hg p Hp. localize. auto. Qed.
Lemma staged_local : item_staged it s -> item_staged it s'.
Proof using Ha. intros Hs p Hp. localize. auto. Qed.
Lemma backed_up_local : backed_up (i_op it) (i_before it) s -> backed_up (i_op it) (i_before it) s'.
Proof using Ha. intros (Hok & Ht & b & Hb & Hs). split; [done|]. split; localize; [done|]. exists b. by localize. Qed.
Lemma placed_local : placed (i_op it) (i_before it) (i_after it) s -> placed (i_op it) (i_before it) (i_after it) s'.
Proof using Ha. intros (Hok & Hp & Hb). split; [done|]. split; localize; [done|]. intros b Hb'. localize. auto. Qed.
Lemma prep_local : item_prep it s -> item_prep it s'.
Proof using Ha.
  intros [Hs Hc]. split; [intros p Hp; localize; by apply Hs|].
  destruct Hc as [?|[? [?|?] ] ]; [left|right; split; [done|left] |right; split; [done|right] ].
  - by apply unapplied_local.
  - by apply backed_up_local.
  - by apply placed_local.
Qed.
Lemma applied_local : item_applied it s -> item_applied it s'.
Proof using Ha.
  intros [Hc Hg]. split; [|by apply gone_local].
  pose proof backed_up_local. pose proof placed_local. by destruct (i_after it); auto.
Qed.
Lemma rolled_local : rolled it s -> rolled it s'.
Proof using Ha. intros [? ?]. split; [by apply unapplied_local|by apply gone_local]. Qed.
Lemma published_local : item_published it s -> item_published it s'.
Proof using Ha.
  intros (Hok & Ht & Hg & Hb). split; [done|]. split; [|split; [by apply gone_local|] ].
  - unfold target_desired in *. destruct (i_after it) as [ [c m]|]; localize; done.
  - intros b Hb'. localize. auto.
Qed.
Lemma finished_local : finished it s -> finished it s'.
Proof using Ha. intros [? ?]. split; [by apply published_local|by apply backup_gone_local]. Qed.
End local.

(** ** Moving one operation *)
Lemma elem_all_cells items it p : it ∈ items -> p ∈ cells (i_op it) -> p ∈ all_cells items.
Proof. intros Hi Hp. apply list_elem_of_In, in_flat_map. exists it. by rewrite <- !list_elem_of_In. Qed.

Lemma all_cells_app l1 l2 : all_cells (l1 ++ l2) = all_cells l1 ++ all_cells l2.
Proof. apply flat_map_app. Qed.

Lemma all_cells_cons it items : all_cells (it :: items) = cells (i_op it) ++ all_cells items.
Proof. done. Qed.

Lemma separate_disjoint pre it post it' q : separate (pre ++ it :: post) ->
  it' ∈ pre \/ it' ∈ post -> q ∈ cells (i_op it') -> q ∉ cells (i_op it).
Proof.
  intros (_ & Hnd & _) Hin Hq Hq'. rewrite all_cells_app in Hnd. apply NoDup_app in Hnd as (_ & Hdis & Hnd).
  rewrite all_cells_cons in Hnd, Hdis. apply NoDup_app in Hnd as (_ & Hdis' & _). destruct Hin as [Hin|Hin].
  - eapply Hdis; [by eapply elem_all_cells|]. apply elem_of_app. by left.
  - eapply Hdis'; [exact Hq'|by eapply elem_all_cells].
Qed.

Lemma elsewhere_agree pre it post it' s s' : separate (pre ++ it :: post) -> elsewhere (i_op it) s s' ->
  it' ∈ pre \/ it' ∈ post -> agree it' s s'.
Proof. intros Hsep He Hin q Hq. apply He. by eapply separate_disjoint. Qed.

(** Files outside the set are untouched. *)
Definition outside items s s' : Prop := forall q, q ∉ all_cells items -> s' !! q = s !! q.
Lemma outside_refl items s : outside items s s.
Proof. done. Qed.
Lemma outside_trans items s s1 s2 : outside items s s1 -> outside items s1 s2 -> outside items s s2.
Proof. intros H1 H2 q Hq. by rewrite H2, H1. Qed.
Lemma elsewhere_outside items it s s' : it ∈ items -> elsewhere (i_op it) s s' -> outside items s s'.
Proof. intros Hin He q Hq. apply He. intros Hc. by apply Hq, (elem_all_cells items it). Qed.

(** The directories survive any change of the set's own files. *)
Lemma dirs_outside items s s' p : separate items -> (forall q, under q p -> q ∉ all_cells items) ->
  outside items s s' -> dirs s p -> dirs s' p.
Proof. intros Hsep Hp Ho Hd q Hq. destruct (Hd q Hq) as [id Hid]. exists id. by rewrite Ho by auto. Qed.

Lemma separate_under items it q : separate items -> it ∈ items -> under q (target (i_op it)) -> q ∉ all_cells items.
Proof.
  intros (_ & _ & Hu) Hin Hq Hc. eapply (Hu q (target (i_op it))); [done| |done].
  apply (elem_all_cells items it); [done|]. by left.
Qed.

Lemma home_outside items it s s' : separate items -> it ∈ items -> outside items s s' ->
  item_home it s -> item_home it s'.
Proof.
  intros Hsep Hin Ho [Hd Hp]. split.
  - eapply dirs_outside; [done|by intros; eapply separate_under|done|done].
  - rewrite Ho; [done|]. eapply separate_under; [done|done|]. destruct Hsep as (Hwf & _).
    by apply normal_path_shape, (Hwf it Hin).
Qed.

Lemma separate_perm items items' : items ≡ₚ items' -> separate items -> separate items'.
Proof.
  intros Hp (Hwf & Hnd & Hu). assert (all_cells items ≡ₚ all_cells items') as Hc.
  { unfold all_cells. rewrite !flat_map_concat_map. by rewrite Hp. }
  split; [|split].
  - intros it. rewrite <- Hp. apply Hwf.
  - by rewrite <- Hc.
  - intros p q. rewrite <- Hc. apply Hu.
Qed.

Context (ok : (syscall -> verdict) -> Prop).
Abbreviation wp := (wp ok).
Abbreviation faulty := (faulty ok).
Implicit Types (X : error -> nodes -> Prop) (D : nodes -> Prop).

(** ** Rolling the set back *)
Definition still items s s' : Prop :=
  (forall it, it ∈ items -> item_prep it s' /\ item_home it s') /\ outside items s s' /\
  (forall it, it ∈ items -> item_unapplied it s -> item_unapplied it s').

(** Without errors everything is back; without faults everything is back even
    where an applied removal was reported as an error; an error has a cause. *)
Definition rolled_back items s s' (errs : list error) : Prop :=
  still items s s' /\
  (forall it, it ∈ items -> errs = [] \/ (~ faulty /\ item_ok it) -> rolled it s') /\
  (errs <> [] -> faulty \/ (exists it, it ∈ items /\ ~ item_ok it) \/ exists it, it ∈ items /\ ~ item_unapplied it s).

Lemma still_step pre it post s s1 s2 : separate (pre ++ it :: post) ->
  still (pre ++ it :: post) s s1 -> evolves (i_op it) (i_before it) (i_after it) s1 s2 ->
  still (pre ++ it :: post) s s2.
Proof.
  intros Hsep (Hp & Ho & Hu) (Hp2 & He & Hh2 & Hu2).
  assert (it ∈ pre ++ it :: post) as Hin by (apply elem_of_app; right; by left).
  assert (forall it', it' ∈ pre ++ it :: post -> it' = it \/ agree it' s1 s2) as Hcase.
  { intros it' [Hi|[-> |Hi]%elem_of_cons]%elem_of_app; [right|by left|right];
      apply (elsewhere_agree pre it post); tauto. }
  assert (outside (pre ++ it :: post) s1 s2) as Ho2 by by eapply elsewhere_outside.
  split; [|split].
  - intros it' Hi. destruct (Hcase it' Hi) as [-> |Ha]; [done|]. destruct (Hp it' Hi) as [? ?].
    split; [by apply (prep_local it' s1)|by apply (home_outside (pre ++ it :: post) it' s1)].
  - by eapply outside_trans.
  - intros it' Hi Hs. destruct (Hcase it' Hi) as [-> |Ha]; [by apply Hu2, Hu|]. apply (unapplied_local it' s1); auto.
Qed.

Lemma wp_rollback_operations items s (Q : list error -> nodes -> Prop) X D :
  separate items -> (forall it, it ∈ items -> item_prep it s /\ item_home it s) ->
  (forall errs s', rolled_back items s s' errs -> Q errs s') -> (forall s', still items s s' -> D s') ->
  wp (rollback_operations (map i_op items)) Q X D s.
Proof.
  intros Hsep Hpre HQ HD. unfold rollback_operations. rewrite <- map_rev.
  assert (rev items ≡ₚ items) as Hperm by (symmetry; apply Permutation_rev).
  pose proof (separate_perm _ _ (Permutation_sym Hperm) Hsep) as Hsep'. set (its := rev items) in *.
  assert (forall s', still its s s' -> still items s s') as Hstill.
  { intros s' (H1 & H2 & H3). split; [intros it; rewrite <- Hperm; apply H1|]. split.
    - intros q Hq. apply H2. contradict Hq. unfold all_cells in *. by rewrite Hperm in Hq.
    - intros it. rewrite <- Hperm. apply H3. }
  apply (wp_forI ok i_op _ (fun done errs s' => still its s s' /\
    (forall it, it ∈ done -> errs = [] \/ (~ faulty /\ item_ok it) -> rolled it s') /\
    (errs <> [] -> faulty \/ (exists it, it ∈ its /\ ~ item_ok it) \/ exists it, it ∈ its /\ ~ item_unapplied it s)))
    with (pre := []).
  - split; [|by split; [intros it ?%elem_of_nil|] ]. split; [|by split].
    intros it. rewrite Hperm. apply Hpre.
  - cbn [app]. intros pre it post errs s1 Heq (Hst & Hdone & Hcalm). rewrite Heq in Hsep'.
    assert (it ∈ its) as Hin by (rewrite Heq; apply elem_of_app; right; by left).
    pose proof Hst as (Hp1 & _ & Hu1). destruct (Hp1 it Hin) as [Hprep Hhome].
    pose proof Hsep' as (Hwf & _ & _). rewrite <- Heq in Hwf. specialize (Hwf it Hin).
    assert (forall s2, evolves (i_op it) (i_before it) (i_after it) s1 s2 -> still its s s2 /\
      forall it', it' ∈ pre -> rolled it' s1 -> rolled it' s2) as Hmove.
    { intros s2 Hev. split; [rewrite Heq in *; by eapply still_step|]. intros it' Hi.
      apply rolled_local. apply (elsewhere_agree pre it post); [done|apply Hev|by left]. }
    apply wp_bind, wp_attempt. eapply wp_rollback_operation; [exact Hwf|done|done| | |].
    + intros s2 Hev Hu Hg. destruct (Hmove s2 Hev) as [? Hr]. apply wp_ret. split; [done|]. split; [|done].
      intros it' [Hi| ->%list_elem_of_singleton]%elem_of_app Hc; [auto|by split].
    + intros e s2 Hev Hc. destruct (Hmove s2 Hev) as [? Hr]. apply wp_ret. split; [done|]. split.
      * intros it' Hi [E|Hn]; [by destruct errs|].
        apply elem_of_app in Hi as [Hi| ->%list_elem_of_singleton]; [auto|].
        destruct Hn as [Hn Hok], Hc as [?|[?|(_ & _ & Hu & Hg)] ]; [done|done|by split].
      * intros _. destruct Hc as [?|[?|(_ & Hbk & _)] ]; [by left|right; left; by exists it|].
        right; right. exists it. split; [done|]. intros Hu0. specialize (Hu1 it Hin Hu0) as [Ht _].
        destruct Hbk as (Hok' & Ht' & b & Hb & Hs).
        destruct (orig_ok_cases _ _ _ Hwf Hok') as [(? & _)|(? & ? & ? & ? & _ & _ & Hbef & _)]; congruence.
    + intros s2 Hev. apply HD, Hstill, Hmove, Hev.
  - cbn [app]. intros errs s' (Hst & Hdone & Hcalm). apply HQ. split; [by apply Hstill|]. split.
    + intros it Hi. apply Hdone. by rewrite Hperm.
    + intros Hne. destruct (Hcalm Hne) as [?|[(it & Hi & ?)|(it & Hi & ?)] ]; [by left|right; left|right; right];
        rewrite Hperm in Hi; eauto.
Qed.

(** ** Finishing a committed set *)
Definition settled items s s' : Prop :=
  (forall it, it ∈ items -> item_published it s' /\ item_home it s') /\ outside items s s'.

Lemma settled_step pre it post s s1 s2 : separate (pre ++ it :: post) ->
  settled (pre ++ it :: post) s s1 -> elsewhere (i_op it) s1 s2 -> item_home it s2 -> item_published it s2 ->
  settled (pre ++ it :: post) s s2 /\ (forall it', it' ∈ pre \/ it' ∈ post -> agree it' s1 s2).
Proof.
  intros Hsep (Hp & Ho) He Hh Hpub. assert (it ∈ pre ++ it :: post) as Hin by (apply elem_of_app; right; by left).
  assert (outside (pre ++ it :: post) s1 s2) as Ho2 by by eapply elsewhere_outside.
  assert (forall it', it' ∈ pre \/ it' ∈ post -> agree it' s1 s2) as Hag
    by (intros it' Hi; by apply (elsewhere_agree pre it post)).
  split; [|done]. split; [|by eapply outside_trans].
  intros it' Hi. destruct (Hp it' Hi) as [? ?]. apply elem_of_app in Hi as Hi'. rewrite elem_of_cons in Hi'.
  destruct Hi' as [Hi'|[-> |Hi'] ]; [|done|]; (split; [apply (published_local it' s1); auto|]);
    by apply (home_outside (pre ++ it :: post) it' s1).
Qed.

Lemma wp_cleanup_stages items s (Q : list error -> nodes -> Prop) X D :
  separate items -> (forall it, it ∈ items -> item_published it s /\ item_home it s) ->
  (forall errs, (errs <> [] -> faulty) -> Q errs s) -> D s -> wp (cleanup_stages (map i_op items)) Q X D s.
Proof.
  intros (Hwf & _) Hall HQ HD. unfold cleanup_stages.
  apply (wp_forI ok i_op _ (fun _ errs s' => s' = s /\ (errs <> [] -> faulty))) with (pre := []); [done| |].
  - cbn [app]. intros pre it post errs s' -> [-> He].
    assert (it ∈ pre ++ it :: post) as Hin by (apply elem_of_app; right; by left). destruct (Hall it Hin) as [Hp Hh].
    apply wp_bind, wp_attempt. eapply wp_cleanup_stage; [by apply Hwf|done|done| | |done].
    + by apply wp_ret.
    + intros F e. by apply wp_ret.
  - intros errs s' [-> He]. auto.
Qed.

Lemma wp_cleanup_committed items s (Q : list error -> nodes -> Prop) X D :
  separate items -> (forall it, it ∈ items -> item_published it s /\ item_home it s) ->
  (forall errs s', settled items s s' -> (errs = [] -> forall it, it ∈ items -> finished it s') ->
     (errs <> [] -> faulty) -> Q errs s') ->
  (forall s', settled items s s' -> D s') -> wp (cleanup_committed (map i_op items)) Q X D s.
Proof.
  intros Hsep Hall HQ HD. assert (settled items s s) as Href by by split. unfold cleanup_committed.
  apply wp_bind, wp_cleanup_stages; [done|done| |auto]. intros errs0 Herrs0.
  apply (wp_forI ok i_op _ (fun done errs s' => settled items s s' /\
    (errs = [] -> forall it, it ∈ done -> finished it s') /\ (errs <> [] -> faulty))) with (pre := []).
  - split; [done|]. split; [|done]. by intros _ it ?%elem_of_nil.
  - cbn [app]. intros pre it post errs s1 Heq (Hset & Hdone & He). rewrite Heq in *.
    assert (it ∈ pre ++ it :: post) as Hin by (apply elem_of_app; right; by left).
    pose proof Hset as [Hp1 _]. destruct (Hp1 it Hin) as [Hpub Hh]. pose proof Hsep as (Hwf & _).
    apply wp_bind, wp_attempt. eapply wp_cleanup_backup; [by apply Hwf|done|done| | |].
    + intros s2 Hel Hh2 Hpub2 Hg. destruct (settled_step pre it post s s1 s2) as [Hset2 Hag]; try done.
      apply wp_ret. split; [done|]. split; [|done]. intros E it' [Hi| ->%list_elem_of_singleton]%elem_of_app; [|by split].
      apply (finished_local it' s1); auto.
    + intros e s2 Hel Hh2 Hpub2 F. destruct (settled_step pre it post s s1 s2) as [Hset2 Hag]; try done.
      apply wp_ret. split; [done|]. split; [|done]. by destruct errs.
    + intros s2 Hel Hh2 Hpub2. destruct (settled_step pre it post s s1 s2) as [Hset2 Hag]; try done. auto.
  - cbn [app]. intros errs s' (Hset & Hdone & He). auto.
Qed.

(** ** Applying the set *)
Lemma applied_prep it s : item_wf it -> item_applied it s -> item_prep it s.
Proof.
  intros Hwf [Hc Hg]. split; [intros p Hp; left; auto|]. right. unfold ready.
  destruct (i_after it) as [ [c m]|] eqn:Ea.
  - split; [|by right]. destruct Hc as (_ & (id & _ & _ & Hi & _) & _). by eexists.
  - split; [|by left]. destruct (removal_fields _ _ _ Hwf Ea) as (-> & _). by intros [? ?].
Qed.
Lemma unapplied_prep it s : item_unapplied it s -> item_staged it s -> item_prep it s.
Proof. intros Hu Hs. split; [by apply staged_ok|by left]. Qed.

Context {K : JournalCodec}.

Lemma wp_apply_all J items (k : io unit) (Q : unit -> nodes -> Prop) X D s0 : separate items ->
  (forall s', outside items s0 s' -> (forall it, it ∈ items -> item_applied it s' /\ item_home it s') -> wp k Q X D s') ->
  (forall e s', outside items s0 s' -> (forall it, it ∈ items -> item_prep it s' /\ item_home it s') ->
     faulty \/ (exists it, it ∈ items /\ ~ item_ok it) -> wp (fail_with_rollback J (map i_op items) e) Q X D s') ->
  (forall s', outside items s0 s' -> (forall it, it ∈ items -> item_prep it s' /\ item_home it s') -> D s') ->
  forall todo pre s, items = pre ++ todo -> outside items s0 s ->
  (forall it, it ∈ items -> item_home it s) -> (forall it, it ∈ pre -> item_applied it s) ->
  (forall it, it ∈ todo -> item_unapplied it s /\ item_staged it s) ->
  wp (apply_all J (map i_op items) (map i_op todo) k) Q X D s.
Proof.
  intros Hsep Hk Hfail HD. induction todo as [|it todo IH]; intros pre s Heq Hout Hhome Hpre Htodo; cbn [map apply_all].
  { rewrite app_nil_r in Heq. subst pre. apply Hk; auto. }
  pose proof Hsep as (Hwf & _). assert (it ∈ items) as Hin by (rewrite Heq; apply elem_of_app; right; by left).
  assert (forall s2, steps (i_op it) (i_before it) (i_after it) s s2 -> outside items s0 s2
    /\ (forall it', it' ∈ items -> item_home it' s2) /\ (forall it', it' ∈ pre -> item_applied it' s2)
    /\ (forall it', it' ∈ todo -> item_unapplied it' s2 /\ item_staged it' s2)
    /\ (forall it', it' ∈ items -> item_prep it' s2 /\ item_home it' s2)) as Hmove.
  { intros s2 (Hp2 & He & Hh2). assert (outside items s s2) as Ho2 by by eapply elsewhere_outside.
    assert (forall it', it' ∈ pre \/ it' ∈ todo -> agree it' s s2) as Hag.
    { intros it' Hi. rewrite Heq in Hsep. by apply (elsewhere_agree pre it todo). }
    assert (forall it', it' ∈ items -> item_home it' s2) as Hh by (intros; apply (home_outside items it' s); auto).
    assert (forall it', it' ∈ pre -> item_applied it' s2) as Ha by (intros it' Hi; apply (applied_local it' s); auto).
    assert (forall it', it' ∈ todo -> item_unapplied it' s2 /\ item_staged it' s2) as Ht.
    { intros it' Hi. destruct (Htodo it') as [? ?]; [by right|].
      split; [apply (unapplied_local it' s)|apply (staged_local it' s)]; auto. }
    split; [by eapply outside_trans|]. split; [done|]. split; [done|]. split; [done|]. intros it' Hi. split; [|auto].
    rewrite Heq in Hi. apply elem_of_app in Hi as [Hi|[-> |Hi]%elem_of_cons]; [|done|].
    - apply applied_prep; [|auto]. apply Hwf. rewrite Heq. apply elem_of_app. by left.
    - destruct (Ht it' Hi). by apply unapplied_prep. }
  destruct (Htodo it) as [Hu Hst]; [by left|]. apply wp_bind, wp_attempt.
  eapply wp_apply_operation; [by apply Hwf|by apply Hhome|exact Hu|exact Hst| | |].
  - intros s2 Hst2 Happ. destruct (Hmove s2 Hst2) as (Ho & Hh & Ha & Ht & Hp).
    apply wp_bind, wp_attempt, wp_fail_point; [|intros F; apply Hfail; auto|auto].
    apply (IH (pre ++ [it])); [by rewrite <- app_assoc|done|done| |done].
    intros it' [Hi| ->%list_elem_of_singleton]%elem_of_app; auto.
  - intros e s2 Hst2 Hc. destruct (Hmove s2 Hst2) as (Ho & Hh & Ha & Ht & Hp). apply Hfail; [done|done|].
    destruct Hc; [by left|right]. by exists it.
  - intros s2 Hst2. destruct (Hmove s2 Hst2) as (Ho & Hh & Ha & Ht & Hp). auto.
Qed.
End file_set.
