(* ===== verification/CrashSafety.v ===== *)
(** * CrashSafety: publication is all or nothing

    The invariant of a publication at every moment: either the old file set can
    still be recovered ([Old]) or the new one is complete ([New]), decided by
    the visible journal.  Every program that runs under the journal lock keeps
    it, whatever fails and wherever the process dies. *)

From stdpp Require Import gmap.
From S2P Require Import Prelude Text Digest Publication CrashIO FileSystem FileSpecs Journal JournalSpecs Transaction Rollback Apply FileSet.

Section safety.
Context {O : Os_params} {H : Sha256} {K : JournalCodec}.
Context (J : path) (HJ : normal_path J) (HJS : stage_of J <> J) (nonce : Z) (fs0 : nodes).
Abbreviation JS := (stage_of J).
Implicit Types (it : item) (s : nodes) (items : list item).

Definition record (st : JournalState) items : Journal := mkJournal SCHEMA_V3 nonce st (map i_op items).

(** The operations are separate from each other and from the journal's files. *)
Definition layout items : Prop :=
  separate items /\ J ∉ all_cells items /\ JS ∉ all_cells items /\
  forall q, q ∈ all_cells items -> ~ under q J /\ ~ under J q /\ ~ under JS q.

(** Every file outside the transaction is as it was; directories may have been
    made. *)
Definition control items : list path := J :: JS :: all_cells items.
Definition framed items s : Prop := forall q, q ∉ control items ->
  s !! q = fs0 !! q \/ (fs0 !! q = None /\ is_dir s q).

Definition base items s : Prop := stage_owned J s /\ dirs s J /\ framed items s.
Definition Idle items s : Prop := base items s /\ s !! J = None /\ forall it, it ∈ items -> rolled it s.
Definition Pending items s : Prop :=
  base items s /\ journal_is J (record Prepared items) s /\ forall it, it ∈ items -> item_prep it s /\ item_home it s.
Definition Old items s : Prop := Idle items s \/ Pending items s.
Definition Closing items s : Prop :=
  base items s /\ journal_is J (record Committed items) s
  /\ forall it, it ∈ items -> item_published it s /\ item_home it s.
Definition Done items s : Prop := base items s /\ s !! J = None /\ forall it, it ∈ items -> finished it s.
Definition New items s : Prop := Closing items s \/ Done items s.

(** ** Steps of the journal and of the operations *)
Lemma JS_normal : normal_path JS.
Proof using HJ. by apply stage_of_normal. Qed.

Lemma base_stage items s s' : s' = s \/ s' = delete JS s -> base items s -> base items s'.
Proof using HJ.
  intros [-> | ->]; [done|]. intros (Ho & Hd & Hf). split; [left; apply lookup_delete_eq|]. split.
  - intros q Hq. destruct (Hd q Hq) as [id Hid]. exists id. rewrite lookup_delete_ne; [done|].
    intros <-. apply (normal_not_under_self JS), (sibling_normal J _ HJ), Hq.
  - intros q Hq. destruct (decide (q = JS)) as [-> |Hne].
    { exfalso. apply Hq. unfold control. right. by left. }
    rewrite lookup_delete_ne by done. destruct (Hf q Hq) as [?|[? [id Hid] ] ]; [by left|right].
    split; [done|]. exists id. by rewrite lookup_delete_ne.
Qed.

Lemma base_journal items s : layout items -> base items s -> base items (delete J s).
Proof using HJ HJS.
  intros Hl (Ho & Hd & Hf). split; [|split].
  - unfold stage_owned. by rewrite lookup_delete_ne by done.
  - intros q Hq. destruct (Hd q Hq) as [id Hid]. exists id. rewrite lookup_delete_ne; [done|].
    intros <-. by eapply normal_not_under_self.
  - intros q Hq. destruct (decide (q = J)) as [-> |Hne]; [exfalso; apply Hq; by left|].
    rewrite lookup_delete_ne by done. destruct (Hf q Hq) as [?|[? [id Hid] ] ]; [by left|right].
    split; [done|]. exists id. by rewrite lookup_delete_ne.
Qed.

(** Files of the journal are not files of an operation. *)
Lemma control_agree items it s p n : layout items -> it ∈ items -> p = J \/ p = JS ->
  agree it s (partial_alter (fun _ => n) p s).
Proof.
  intros (_ & HJc & HJSc & _) Hin Hp q Hq. rewrite lookup_partial_alter_ne; [done|].
  apply (elem_all_cells items it) in Hq; [|done]. intros <-. by destruct Hp as [-> | ->].
Qed.

Lemma control_home items it s p n : layout items -> it ∈ items -> p = J \/ p = JS ->
  item_home it s -> item_home it (partial_alter (fun _ => n) p s).
Proof using HJ.
  intros (Hsep & _ & _ & Hu) Hin Hp [Hd Hpar].
  assert (target (i_op it) ∈ all_cells items) as Ht by (apply (elem_all_cells items it); [done|by left]).
  destruct (Hu _ Ht) as (_ & HuJ & HuJS).
  assert (forall q, under q (target (i_op it)) -> partial_alter (fun _ => n) p s !! q = s !! q) as Hsame.
  { intros q Hq. rewrite lookup_partial_alter_ne; [done|]. intros <-. by destruct Hp as [-> | ->]. }
  split.
  - intros q Hq. destruct (Hd q Hq) as [id Hid]. exists id. by rewrite Hsame.
  - rewrite Hsame; [done|]. destruct Hsep as (Hwf & _). by apply normal_path_shape, (Hwf it Hin).
Qed.

(** The set's own files are not the journal's. *)
Lemma outside_journal items s s' : layout items -> outside items s s' -> s' !! J = s !! J /\ s' !! JS = s !! JS.
Proof. intros (_ & HJc & HJSc & _) Ho. by split; apply Ho. Qed.

Lemma base_outside items s s' : layout items -> outside items s s' -> base items s -> base items s'.
Proof.
  intros Hl Ho (Hs & Hd & Hf). destruct (outside_journal items s s' Hl Ho) as [HeJ HeJS]. split; [|split].
  - unfold stage_owned. by rewrite HeJS.
  - destruct Hl as (Hsep & _ & _ & Hu). eapply dirs_outside; [done| |done|done].
    intros q Hq Hc. by destruct (Hu q Hc).
  - intros q Hq. assert (q ∉ all_cells items) as Hc by (intros ?; apply Hq; by right; right).
    destruct (Hf q Hq) as [?|[? [id Hid] ] ]; [left; by rewrite Ho|right]. split; [done|]. exists id. by rewrite Ho.
Qed.

Lemma journal_is_same j s s' : s' !! J = s !! J -> journal_is J j s -> journal_is J j s'.
Proof. intros He (b & id & m & Hj & Hs). exists b, id, m. by rewrite He. Qed.

Context (ok : (syscall -> verdict) -> Prop).
Abbreviation wp := (wp ok).
Abbreviation faulty := (faulty ok).
Implicit Types (X : error -> nodes -> Prop) (D : nodes -> Prop).

(** ** Recovery *)
Definition valid items : Prop := forall st, validate_journal (record st items) J = Ok tt.

Lemma idle_stage items s s' : layout items -> s' = s \/ s' = delete JS s -> Idle items s -> Idle items s'.
Proof using HJ HJS.
  intros Hl Hs (Hb & Hn & Hr). destruct Hs as [-> | ->]; [done|]. split; [by eapply base_stage; [right|] |]. split.
  - by rewrite lookup_delete_ne.
  - intros it Hi. eapply rolled_local; [|by apply Hr]. by apply (control_agree items it s JS None); auto.
Qed.

Lemma pending_stage items s s' : layout items -> s' = s \/ s' = delete JS s -> Pending items s -> Pending items s'.
Proof using HJ HJS.
  intros Hl Hs (Hb & Hj & Hr). destruct Hs as [-> | ->]; [done|]. split; [by eapply base_stage; [right|] |]. split.
  - eapply journal_is_same; [|done]. by rewrite lookup_delete_ne.
  - intros it Hi. destruct (Hr it Hi) as [Hp Hh]. split.
    + eapply prep_local; [|done]. by apply (control_agree items it s JS None); auto.
    + by apply (control_home items it s JS None); auto.
Qed.

Lemma closing_stage items s s' : layout items -> s' = s \/ s' = delete JS s -> Closing items s -> Closing items s'.
Proof using HJ HJS.
  intros Hl Hs (Hb & Hj & Hr). destruct Hs as [-> | ->]; [done|]. split; [by eapply base_stage; [right|] |]. split.
  - eapply journal_is_same; [|done]. by rewrite lookup_delete_ne.
  - intros it Hi. destruct (Hr it Hi) as [Hp Hh]. split.
    + eapply published_local; [|done]. by apply (control_agree items it s JS None); auto.
    + by apply (control_home items it s JS None); auto.
Qed.

Lemma done_stage items s s' : layout items -> s' = s \/ s' = delete JS s -> Done items s -> Done items s'.
Proof using HJ HJS.
  intros Hl Hs (Hb & Hn & Hr). destruct Hs as [-> | ->]; [done|]. split; [by eapply base_stage; [right|] |]. split.
  - by rewrite lookup_delete_ne.
  - intros it Hi. eapply finished_local; [|by apply Hr]. by apply (control_agree items it s JS None); auto.
Qed.

(** Once everything is back, or everything is clean, the journal can go. *)
Lemma pending_drop items s : layout items -> Pending items s -> (forall it, it ∈ items -> rolled it s) ->
  Idle items (delete J s).
Proof using HJ HJS.
  intros Hl (Hb & _) Hr. split; [by apply base_journal|]. split; [apply lookup_delete_eq|].
  intros it Hi. eapply rolled_local; [|by apply Hr]. by apply (control_agree items it s J None); auto.
Qed.
Lemma closing_drop items s : layout items -> Closing items s -> (forall it, it ∈ items -> finished it s) ->
  Done items (delete J s).
Proof using HJ HJS.
  intros Hl (Hb & _) Hr. split; [by apply base_journal|]. split; [apply lookup_delete_eq|].
  intros it Hi. eapply finished_local; [|by apply Hr]. by apply (control_agree items it s J None); auto.
Qed.

Lemma pending_still items s s' : layout items -> Pending items s -> still items s s' -> Pending items s'.
Proof.
  intros Hl (Hb & Hj & _) (Hp & Ho & _). split; [by eapply base_outside|]. split; [|done].
  eapply journal_is_same; [|done]. by apply (outside_journal items).
Qed.
Lemma closing_settled items s s' : layout items -> Closing items s -> settled items s s' -> Closing items s'.
Proof.
  intros Hl (Hb & Hj & _) (Hp & Ho). split; [by eapply base_outside|]. split; [|done].
  eapply journal_is_same; [|done]. by apply (outside_journal items).
Qed.

(** Operations that were not applied stay so. *)
Definition kept items s s' : Prop := forall it, it ∈ items -> item_unapplied it s -> item_unapplied it s'.
Lemma kept_refl items s : kept items s s.
Proof. by intros it. Qed.
Lemma kept_trans items s s1 s2 : kept items s s1 -> kept items s1 s2 -> kept items s s2.
Proof. intros H1 H2 it Hi Hu. auto. Qed.
Lemma kept_control items s p : layout items -> p = J \/ p = JS -> kept items s (delete p s).
Proof. intros Hl Hp it Hi. apply unapplied_local. by apply (control_agree items it s p None). Qed.
Hint Resolve kept_refl : core.

(** What an unsuccessful recovery of the old set means: its cause, and that
    without faults the set is back all the same. *)
Definition old_error items s s' : Prop :=
  (faulty \/ (exists it, it ∈ items /\ ~ item_ok it) \/ exists it, it ∈ items /\ ~ item_unapplied it s) /\
  (~ faulty -> (forall it, it ∈ items -> item_ok it) -> forall it, it ∈ items -> rolled it s').

Lemma faulty_old_error items s s' : faulty -> old_error items s s'.
Proof. intros F. split; [by left|done]. Qed.
Hint Resolve faulty_old_error : core.

Lemma pending_measure items st s : journal_is J (record st items) s -> exists id bytes m,
  measure s J = Some (Some (id, bytes, m)) /\ parse_journal bytes = Ok (record st items).
Proof. intros Hj. destruct (journal_is_measure J _ _ Hj) as (id & b & m & Hm & Hp & _). eauto. Qed.

(** The end of a recovery: report what failed, or drop the journal. *)
Definition conclude (id : FileIdentity) (oc : RecoveryOutcome) (errors : list error) : io RecoveryOutcome :=
  _ ← pure (refuse (nonempty errors) (io_rollback RecoveryIncompleteAt));
  removed ← attempt (remove_journal J id);
  match removed with
  | inl _ => mret oc
  | inr _ => throw (io_rollback JournalNotRemoved)
  end.

Lemma wp_conclude id oc errs s (Q : RecoveryOutcome -> nodes -> Prop) X D :
  dirs s J -> (exists b m, measure s J = Some (Some (id, b, m))) ->
  (errs = [] -> Q oc (delete J s)) -> (forall e, errs <> [] -> X e s) ->
  (errs = [] -> forall e s', s' = s \/ s' = delete J s -> faulty -> X e s') ->
  (errs = [] -> forall s', s' = s \/ s' = delete J s -> D s') -> wp (conclude id oc errs) Q X D s.
Proof using HJ HJS.
  intros Hd Hm HQ HXe HX HD. unfold conclude. destruct errs as [|e errs]; [|by apply wp_bind, wp_throw, HXe].
  apply wp_bind, wp_ret, wp_bind, wp_attempt. apply wp_remove_journal; [done|done|done|by apply wp_ret, HQ| |by apply HD].
  intros e s' Hs F. apply wp_throw. by apply HX.
Qed.

Lemma wp_recover_pending items s id (Q : RecoveryOutcome -> nodes -> Prop) X D :
  layout items -> Pending items s -> (exists b m, measure s J = Some (Some (id, b, m))) ->
  (forall oc s', Idle items s' -> Q oc s') ->
  (forall e s', Old items s' -> kept items s s' -> old_error items s s' -> X e s') ->
  (forall s', Old items s' -> kept items s s' -> D s') ->
  wp (errors ← rollback_operations (map i_op items); conclude id RolledBack errors) Q X D s.
Proof using HJ HJS.
  intros Hl Hpend Hm HQ HX HD. pose proof Hl as (Hsep & _). pose proof Hpend as (_ & _ & Hpr).
  assert (forall s2, still items s s2 -> kept items s s2) as Hstill by (intros s2 (_ & _ & Hu); exact Hu).
  apply wp_bind, wp_rollback_operations; [done|done| |intros s2 H2; apply HD; [right; by eapply pending_still|auto] ].
  intros errs s2 (H2 & Hrolled & Hcause). assert (Pending items s2) as Hpend2 by by eapply pending_still.
  assert (kept items s s2) as Hk2 by auto.
  assert (measure s2 J = measure s J) as Hsame.
  { unfold measure, measure_bounded. destruct H2 as (_ & Ho & _). by destruct (outside_journal items s s2 Hl Ho) as [-> _]. }
  assert (errs = [] -> forall s3, s3 = s2 \/ s3 = delete J s2 -> Old items s3 /\ kept items s s3) as Hdrop.
  { intros E s3 [-> | ->]; [split; [by right|auto] |]. split; [left|eapply kept_trans; [done|apply kept_control; auto] ].
    apply pending_drop; [done|done|]. intros it Hi. by apply Hrolled; [|left]. }
  apply wp_conclude; [by destruct Hpend2 as ( (_ & ? & _) & _)|by rewrite Hsame| | | |].
  - intros E. apply HQ, pending_drop; [done|done|]. intros it Hi. by apply Hrolled; [|left].
  - intros e Hne. apply HX; [by right|done|]. split; [by apply Hcause|].
    intros Hn Hok it Hi. apply Hrolled; [done|right]. auto.
  - intros E e s3 H3 F. destruct (Hdrop E s3 H3). auto.
  - intros E s3 H3. destruct (Hdrop E s3 H3). auto.
Qed.

(** Opening the journal, up to the journal found. *)
Lemma wp_recover_open items s (Q : RecoveryOutcome -> nodes -> Prop) X D (s1 := delete JS s) :
  valid items -> dirs s J -> stage_owned J s -> dirs s1 J ->
  (s1 !! J = None -> Q RecoveryNone s1) ->
  (s1 !! J = None \/ exists st, journal_is J (record st items) s1) ->
  (forall st id, journal_is J (record st items) s1 -> (exists b m, measure s1 J = Some (Some (id, b, m))) ->
     wp (match st with
         | Committed => errors ← cleanup_committed (map i_op items); conclude id CompletedCleanup errors
         | Prepared => errors ← rollback_operations (map i_op items); conclude id RolledBack errors
         end) Q X D s1) ->
  (forall e s', s' = s \/ s' = s1 -> faulty -> X e s') -> (forall s', s' = s \/ s' = s1 -> D s') ->
  wp (recover_if_needed J) Q X D s.
Proof using HJ HJS.
  intros Hv Hd Hown Hd1 HN Hcase Hk HX HD. unfold recover_if_needed.
  apply wp_bind, wp_cleanup_journal_stage; [done|done|done| |intros; apply HX; auto|intros; apply HD; auto].
  fold s1. clearbody s1. destruct Hcase as [Hn|[st Hj] ].
  - apply measure_absent in Hn as Hm.
    apply wp_bind, wp_read_regular; [done|done| |intros e He; congruence|intros c n _ Hc; apply HX; [by right|by eapply may_fail_faulty]|intros _; apply HD; by right].
    intros r Hr. rewrite Hm in Hr. injection Hr as <-. by apply wp_ret, HN.
  - destruct (pending_measure items st s1 Hj) as (id & bytes & m & Hm & Hparse).
    apply wp_bind, wp_read_regular; [done|done| |intros e He; congruence|intros c n _ Hc; apply HX; [by right|by eapply may_fail_faulty]|intros _; apply HD; by right].
    intros r Hr. rewrite Hm in Hr. injection Hr as <-. cbn [fmap option_fmap option_map fst]. rewrite Hparse.
    apply wp_bind, wp_ret. rewrite (Hv st). apply wp_bind, wp_ret. cbn [state record operations].
    specialize (Hk st id Hj ltac:(eauto)). destruct st; apply wp_assoc; exact Hk.
Qed.

Lemma journal_prepared_or_committed items st st' s : journal_is J (record st items) s -> journal_is J (record st' items) s -> st = st'.
Proof.
  intros (b & id & m & He & Hs) (b' & id' & m' & He' & Hs'). rewrite Hs in Hs'. injection Hs' as _ <- _.
  apply parse_encode in He, He'. rewrite He in He'. by injection He'.
Qed.

Lemma wp_recover_old items s (Q : RecoveryOutcome -> nodes -> Prop) X D :
  layout items -> valid items -> Old items s ->
  (forall oc s', Idle items s' -> Q oc s') ->
  (forall e s', Old items s' -> kept items s s' -> old_error items s s' -> X e s') ->
  (forall s', Old items s' -> kept items s s' -> D s') -> wp (recover_if_needed J) Q X D s.
Proof using HJ HJS.
  intros Hl Hv Hold HQ HX HD. assert (kept items s (delete JS s)) as Hun by (apply kept_control; auto).
  assert (forall s', s' = s \/ s' = delete JS s -> Old items s' /\ kept items s s') as Hstage.
  { intros s' Hs. split; [|by destruct Hs as [-> | ->] ]. destruct Hold; [left; by eapply idle_stage|right; by eapply pending_stage]. }
  assert (base items s) as (Hown & Hd & _) by (destruct Hold as [ [? _]|[? _] ]; done).
  destruct (Hstage (delete JS s)) as [Hold1 _]; [by right|].
  assert (base items (delete JS s)) as (_ & Hd1 & _) by (destruct Hold1 as [ [? _]|[? _] ]; done).
  apply (wp_recover_open items); [done|done|done|done| | | | |].
  - intros Hn. destruct Hold1 as [Hidle|(_ & (b & id & m & _ & Hs) & _)]; [by apply HQ|congruence].
  - destruct Hold1 as [(_ & Hn & _)|(_ & Hj & _)]; [by left|right; by exists Prepared].
  - intros st id Hj Hm. destruct Hold1 as [(_ & Hn & _)|Hpend]; [destruct Hj as (b & ? & ? & _ & Hs); congruence|].
    pose proof Hpend as (_ & Hj' & _). rewrite (journal_prepared_or_committed items st Prepared _ Hj Hj').
    apply wp_recover_pending; [done|done|done|done| |].
    + intros e s' Hs Hk [Hcause Hr]. apply HX; [done|by eapply kept_trans|]. split; [|done].
      destruct Hcause as [?|[?|(it & Hi & Hnu)] ]; [by left|right; by left|right; right]. exists it. split; [done|]. auto.
    + intros s' Hs Hk. apply HD; [done|by eapply kept_trans].
  - intros e s' Hs F. destruct (Hstage s' Hs). auto.
  - intros s' Hs. destruct (Hstage s' Hs). auto.
Qed.

Lemma wp_recover_closing items s id (Q : RecoveryOutcome -> nodes -> Prop) X D :
  layout items -> Closing items s -> (exists b m, measure s J = Some (Some (id, b, m))) ->
  (forall oc s', Done items s' -> Q oc s') ->
  (forall e s', New items s' -> faulty -> X e s') -> (forall s', New items s' -> D s') ->
  wp (errors ← cleanup_committed (map i_op items); conclude id CompletedCleanup errors) Q X D s.
Proof using HJ HJS.
  intros Hl Hcl Hm HQ HX HD. pose proof Hl as (Hsep & _). pose proof Hcl as (_ & _ & Hpr).
  apply wp_bind, wp_cleanup_committed; [done|done| |intros s2 H2; apply HD; left; by eapply closing_settled].
  intros errs s2 H2 Hfin Hcause. assert (Closing items s2) as Hcl2 by by eapply closing_settled.
  assert (measure s2 J = measure s J) as Hsame.
  { unfold measure, measure_bounded. destruct H2 as (_ & Ho). by destruct (outside_journal items s s2 Hl Ho) as [-> _]. }
  apply wp_conclude; [by destruct Hcl2 as ( (_ & ? & _) & _)|by rewrite Hsame| | | |].
  - intros E. by apply HQ, closing_drop; auto.
  - intros e Hne. apply HX; [by left|auto].
  - intros E e s3 [-> | ->] F; apply HX; auto; [by left|right; apply closing_drop; auto].
  - intros E s3 [-> | ->]; apply HD; [by left|right; apply closing_drop; auto].
Qed.

Lemma wp_recover_new items s (Q : RecoveryOutcome -> nodes -> Prop) X D :
  layout items -> valid items -> New items s ->
  (forall oc s', Done items s' -> Q oc s') ->
  (forall e s', New items s' -> faulty -> X e s') ->
  (forall s', New items s' -> D s') -> wp (recover_if_needed J) Q X D s.
Proof using HJ HJS.
  intros Hl Hv Hnew HQ HX HD.
  assert (forall s', s' = s \/ s' = delete JS s -> New items s') as Hstage.
  { intros s' Hs. destruct Hnew; [left; by eapply closing_stage|right; by eapply done_stage]. }
  assert (base items s) as (Hown & Hd & _) by (destruct Hnew as [ [? _]|[? _] ]; done).
  assert (New items (delete JS s)) as Hnew1 by auto.
  assert (base items (delete JS s)) as (_ & Hd1 & _) by (destruct Hnew1 as [ [? _]|[? _] ]; done).
  apply (wp_recover_open items); [done|done|done|done| | | |auto|auto].
  - intros Hn. destruct Hnew1 as [(_ & (b & id & m & _ & Hs) & _)|Hdone]; [congruence|by apply HQ].
  - destruct Hnew1 as [(_ & Hj & _)|(_ & Hn & _)]; [right; by exists Committed|by left].
  - intros st id Hj Hm. destruct Hnew1 as [Hcl|(_ & Hn & _)]; [|destruct Hj as (b & ? & ? & _ & Hs); congruence].
    pose proof Hcl as (_ & Hj' & _). rewrite (journal_prepared_or_committed items st Committed _ Hj Hj').
    by apply wp_recover_closing.
Qed.

(** ** Failing before the commit

    An error that names neither an incomplete rollback nor an uncertain commit
    promises that no target has changed. *)
Definition plain (e : error) : Prop :=
  match publication_failure_class e with RecoveryIncomplete | CommitStateUncertain => False | _ => True end.
Definition Failed items (e : error) s : Prop :=
  Old items s /\ (plain e -> forall it, it ∈ items -> item_unapplied it s).

(** Before anything is applied. *)
Definition Quiet items s : Prop := Old items s /\ forall it, it ∈ items -> item_unapplied it s.
Lemma quiet_failed items e s : Quiet items s -> Failed items e s.
Proof. intros [? ?]. by split. Qed.
Lemma idle_quiet items s : Idle items s -> Quiet items s.
Proof. intros Hs. split; [by left|]. intros it Hi. destruct Hs as (_ & _ & Hr). by apply Hr. Qed.
Lemma kept_quiet items s s' : (forall it, it ∈ items -> item_unapplied it s) -> kept items s s' -> Old items s' -> Quiet items s'.
Proof. intros Hu Hk Hs. split; [done|]. intros it Hi. auto. Qed.

Lemma pending_failed items at_site s : Pending items s -> Failed items (io_rollback at_site) s.
Proof. intros Hp. split; [by right|done]. Qed.
Lemma idle_failed items e s : Idle items s -> Failed items e s.
Proof. intros Hs. by apply quiet_failed, idle_quiet. Qed.
Hint Resolve pending_failed idle_failed : core.

(**

    [items] are the operations in memory, [items_d] those of the journal on
    disk, which may not know the staged identities yet. *)
Lemma wp_finish_failed items_d e errs s (Q : unit -> nodes -> Prop) X D :
  layout items_d -> Pending items_d s -> (errs = [] -> forall it, it ∈ items_d -> rolled it s) ->
  (forall e s', Failed items_d e s' -> kept items_d s s' -> X e s') ->
  (forall s', Old items_d s' -> kept items_d s s' -> D s') ->
  wp (finish_failed_transaction J e errs) Q X D s.
Proof using HJ HJS.
  intros Hl Hpend Hrolled HX HD.
  assert (forall p s', Pending items_d s' -> kept items_d s s' -> X (io_rollback p) s') as HXp by auto.
  assert (kept items_d s (delete JS s)) as Hk1 by (apply kept_control; auto).
  assert (forall s', s' = s \/ s' = delete JS s -> kept items_d s s') as Hks by (intros s' [-> | ->]; auto).
  unfold finish_failed_transaction. destruct errs as [|x errs]; cbn [nonempty]; [|by apply wp_throw, HXp; auto].
  assert (forall s', s' = s \/ s' = delete JS s -> Pending items_d s') as Hstage by (intros; by eapply pending_stage).
  pose proof Hpend as ( (Hown & Hd & _) & _ & _).
  apply wp_bind, wp_attempt, wp_cleanup_journal_stage; [done|done|done| |intros; apply wp_throw, HXp; auto|intros; apply HD; [right|]; auto].
  assert (Pending items_d (delete JS s)) as Hp1 by auto.
  assert (forall it, it ∈ items_d -> rolled it (delete JS s)) as Hr1.
  { intros it Hi. eapply rolled_local; [by apply (control_agree items_d it s JS None); auto|by apply Hrolled]. }
  set (s1 := delete JS s) in *. clearbody s1. pose proof Hp1 as ( (_ & Hd1 & _) & Hj & _).
  destruct (pending_measure items_d Prepared s1 Hj) as (id & bytes & m & Hm & _).
  apply wp_bind, wp_attempt, wp_read_regular; [done|done| |intros e' He; congruence|intros; apply wp_throw; auto|intros _; apply HD; [by right|done] ].
  intros r Hr. rewrite Hm in Hr. injection Hr as <-. cbn [fmap option_fmap option_map fst].
  pose proof (pending_drop items_d s1 Hl Hp1 Hr1) as Hidle.
  assert (kept items_d s (delete J s1)) as Hk2 by (eapply kept_trans; [done|apply kept_control; auto]).
  apply wp_bind, wp_attempt. eapply wp_remove_journal; [done|done|eauto|by apply wp_throw, HX; auto| |].
  - intros e' s2 [-> | ->] F; apply wp_throw, HX; auto.
  - intros s2 [-> | ->]; apply HD; auto; [by right|by left].
Qed.

Lemma wp_fail_with_rollback items items_d e s (Q : unit -> nodes -> Prop) X D :
  separate items -> layout items_d -> (forall it, it ∈ items -> item_prep it s /\ item_home it s) ->
  (forall s', still items s s' -> Pending items_d s' /\ kept items_d s s') ->
  (forall s', (forall it, it ∈ items -> rolled it s') -> forall it, it ∈ items_d -> rolled it s') ->
  (forall e s', Failed items_d e s' -> kept items_d s s' -> X e s') ->
  (forall s', Old items_d s' -> kept items_d s s' -> D s') ->
  wp (fail_with_rollback J (map i_op items) e) Q X D s.
Proof using HJ HJS.
  intros Hsep Hl Hpr Htrans Hroll HX HD. unfold fail_with_rollback.
  apply wp_bind, wp_rollback_operations; [done|done| |intros s' Hs'; destruct (Htrans s' Hs'); apply HD; [by right|done] ].
  intros errs s' (Hst & Hr & _). destruct (Htrans s' Hst) as [Hp Hk]. apply (wp_finish_failed items_d); [done|done| | |].
  - intros ->. apply Hroll. intros it Hi. by apply Hr; [|left].
  - intros e' s2 Hf Hk2. apply HX; [done|by eapply kept_trans].
  - intros s2 Ho Hk2. apply HD; [done|by eapply kept_trans].
Qed.

(** ** Replacing the journal *)
Lemma being_written_lookup p contents s s' q : being_written p contents s s' -> q <> p -> s' !! q = s !! q.
Proof. intros [-> |(_ & k & m & ->)] Hq; [done|]. by rewrite lookup_insert_ne. Qed.

Lemma replacing_base items j s s' : layout items -> base items s -> replacing J j s s' -> base items s'.
Proof using HJ HJS.
  intros Hl (Hown & Hd & Hf) [-> |(bytes & He & Hs)]; [done|].
  assert (forall q, q <> J -> q <> JS -> s' !! q = s !! q) as Hsame.
  { intros q Hq Hq'. destruct Hs as [Hs| ->].
    - rewrite (being_written_lookup _ _ _ _ q Hs Hq'). by rewrite lookup_delete_ne.
    - unfold replaced. rewrite lookup_insert_ne by done. by rewrite lookup_delete_ne. }
  split; [|split].
  - destruct Hs as [ [-> |(_ & k & m & ->)] | ->].
    + left. apply lookup_delete_eq.
    + right. eexists _, _, _. rewrite lookup_insert_eq. split; [done|]. split; [by eapply owned_prefix|].
      pose proof (encode_len _ _ He). unfold len in *. rewrite length_take. lia.
    + left. unfold replaced. rewrite lookup_insert_ne by done. apply lookup_delete_eq.
  - intros q Hq. destruct (Hd q Hq) as [id Hid]. exists id. rewrite Hsame; [done| |].
    + intros ->. by eapply normal_not_under_self.
    + intros ->. apply (normal_not_under_self JS), (sibling_normal J _ HJ), Hq.
  - intros q Hq. assert (q <> J /\ q <> JS) as [? ?].
    { split; intros ->; apply Hq; [by left|right; by left]. }
    destruct (Hf q Hq) as [?|[? [id Hid] ] ]; [left; by rewrite Hsame|right]. split; [done|]. exists id. by rewrite Hsame.
Qed.

Lemma replacing_agree items it j s s' : layout items -> it ∈ items -> replacing J j s s' ->
  agree it s s' /\ (item_home it s -> item_home it s').
Proof using HJ.
  intros Hl Hi [-> |(bytes & He & Hs)]; [by split|].
  assert (agree it s (delete JS s) /\ (item_home it s -> item_home it (delete JS s))) as [Ha Hh].
  { split; [by apply (control_agree items it s JS None); auto|by apply (control_home items it s JS None); auto]. }
  assert (forall p n, p = J \/ p = JS -> agree it s (<[p := n]> (delete JS s)) /\
    (item_home it s -> item_home it (<[p := n]> (delete JS s)))) as Hins.
  { intros p n Hp. split.
    - intros q Hq. etransitivity; [exact (control_agree items it (delete JS s) p (Some n) Hl Hi Hp q Hq)|by apply Ha].
    - intros Hs'. apply (control_home items it (delete JS s) p (Some n)); auto. }
  destruct Hs as [ [-> |(_ & k & m & ->)] | ->]; [done|apply Hins; by right|apply Hins; by left].
Qed.

(** Which journal is visible while it is being replaced. *)
Lemma replacing_journal j0 j s s' : replacing J j s s' ->
  (s !! J = None \/ journal_is J j0 s) ->
  (s' !! J = s !! J) \/ journal_is J j s'.
Proof using HJS.
  intros [-> |(bytes & He & Hs)] Hj; [by left|]. destruct Hs as [Hs| ->].
  - left. rewrite (being_written_lookup _ _ _ _ J Hs) by done. by rewrite lookup_delete_ne.
  - right. eexists _, _, _. split; [done|]. unfold replaced. by rewrite lookup_insert_eq.
Qed.

(** ** The commit point *)
Lemma applied_replacing items s s' : layout items -> Pending items s ->
  (forall it, it ∈ items -> item_applied it s) -> replacing J (record Committed items) s s' ->
  (Pending items s' /\ s' !! J = s !! J) \/ Closing items s'.
Proof using HJ HJS.
  intros Hl (Hb & Hj & Hall) Happ Hs. pose proof Hl as ((Hwf & _) & _). assert (base items s') as Hb' by by eapply replacing_base.
  assert (forall it, it ∈ items -> item_applied it s' /\ item_home it s') as Hall'.
  { intros it Hi. destruct (replacing_agree items it _ s s' Hl Hi Hs) as [Ha Hh]. destruct (Hall it Hi).
    split; [apply (applied_local it s); auto|auto]. }
  destruct (replacing_journal (record Prepared items) _ s s' Hs) as [HeJ|Hj']; [by right|left|right].
  - split; [|done]. split; [done|]. split; [by eapply journal_is_same|]. intros it Hi. destruct (Hall' it Hi) as [Ha Hh].
    split; [|done]. apply applied_prep; auto.
  - split; [done|]. split; [done|]. intros it Hi. destruct (Hall' it Hi) as [Ha Hh]. split; [|done].
    apply applied_published; [by apply Hwf|done].
Qed.

Lemma wp_visible_journal items st s (Q : option Journal -> nodes -> Prop) X D :
  (forall c n, read_call J c -> ~ may_fail ok c n) -> dirs s J -> journal_is J (record st items) s ->
  Q (Some (record st items)) s -> D s -> wp (visible_journal J) Q X D s.
Proof using H HJ.
  intros Hrel Hd Hj HQ HD. destruct (pending_measure items st s Hj) as (id & bytes & m & Hm & Hparse).
  unfold visible_journal. apply wp_bind, wp_attempt, wp_read_regular; [done|done| |intros e He; congruence| |done].
  - intros r Hr. rewrite Hm in Hr. injection Hr as <-. apply wp_ret. cbn. by rewrite Hparse.
  - intros c n Hc Hn. by destruct (Hrel c n Hc).
Qed.

Lemma wp_close items s (Q : unit -> nodes -> Prop) X D :
  layout items -> Closing items s -> (forall s', Done items s' -> Q tt s') ->
  (forall e s', New items s' -> ~ plain e \/ (exists c n, read_call J c /\ may_fail ok c n) -> faulty -> X e s') ->
  (forall s', New items s' -> D s') ->
  wp (cleanup ← cleanup_committed (map i_op items);
      _ ← pure (refuse (nonempty cleanup) (io_rollback CleanupIncomplete));
      current ← read_regular J;
      current ← pure (ok_or current (io_rollback JournalDisappeared));
      removed ← attempt (remove_journal J (fst current));
      match removed with
      | inl _ => mret tt
      | inr _ => throw (io_rollback JournalNotRemoved)
      end) Q X D s.
Proof using HJ HJS.
  intros Hl Hcl HQ HX HD. pose proof Hl as (Hsep & _). pose proof Hcl as (_ & _ & Hall).
  assert (forall p s', Closing items s' -> faulty -> X (io_rollback p) s') as HXc by (intros; apply HX; [by left|auto..]).
  apply wp_bind, wp_cleanup_committed; [done|done| |intros s2 H2; apply HD; left; by eapply closing_settled].
  intros errs s2 H2 Hfin Hcause. assert (Closing items s2) as Hcl2 by by eapply closing_settled.
  destruct errs as [|e errs]; [|apply wp_bind, wp_throw, HXc; auto]. apply wp_bind, wp_ret.
  pose proof Hcl2 as ( (_ & Hd2 & _) & Hj2 & _). destruct (pending_measure items Committed s2 Hj2) as (id & bytes & m & Hm & _).
  apply wp_bind, wp_read_regular; [done|done| |intros e He; congruence| |intros _; apply HD; by left].
  2: { intros c n Hc Hn. apply HX; [by left|right; eauto|by eapply may_fail_faulty]. }
  intros r Hr. rewrite Hm in Hr. injection Hr as <-. apply wp_bind, wp_ret. cbn [fst].
  pose proof (closing_drop items s2 Hl Hcl2 (Hfin eq_refl)) as Hdone.
  apply wp_bind, wp_attempt. eapply wp_remove_journal; [done|done|eauto|by apply wp_ret, HQ| |].
  - intros e s3 [-> | ->] F; apply wp_throw, HX; auto; [by left|by right].
  - intros s3 [-> | ->]; apply HD; [by left|by right].
Qed.

Lemma wp_finish_commit items s (Q : unit -> nodes -> Prop) X D :
  (forall c n, read_call J c -> ~ may_fail ok c n) ->
  layout items -> Pending items s -> (forall it, it ∈ items -> item_applied it s) ->
  (forall s', Done items s' -> Q tt s') ->
  (forall e s', Failed items e s' \/ New items s' /\ ~ plain e ->
     faulty \/ to_vec (record Committed items) = None -> X e s') ->
  (forall s', Old items s' \/ New items s' -> D s') ->
  wp (finish_commit J (record Committed items)) Q X D s.
Proof using HJ HJS.
  intros Hrel Hl Hpend Happ HQ HX HD. pose proof Hpend as ( (Hown & Hd & _) & Hj & _). pose proof Hl as (Hsep & _).
  unfold finish_commit. apply wp_bind, wp_attempt. apply wp_write_journal; [done|done|done|done| | | |].
  - right. destruct Hj as (b & id & m & _ & Hs). eauto.
  - intros bytes He. cbn [operations record].
    destruct (applied_replacing items s (replaced J bytes s) Hl Hpend Happ) as [ [(_ & Hj2 & _) _]|Hcl].
    + right. eauto.
    + exfalso. destruct Hj2 as (b2 & id2 & m2 & He2 & Hs2). unfold replaced in Hs2. rewrite lookup_insert_eq in Hs2.
      injection Hs2 as _ -> _. apply parse_encode in He, He2. rewrite He in He2. by injection He2.
    + apply wp_close; [done|done|done| |intros; apply HD; by right]. intros e s' Hn [Hp|(c & n & Hc & Hf)] F; [|by destruct (Hrel c n Hc)].
      apply HX; [by right|by left].
  - intros e s' Hs' Hcause. destruct (applied_replacing items s s' Hl Hpend Happ Hs') as [ [Hp' _]|Hcl].
    + pose proof Hp' as ( (_ & Hd' & _) & Hj' & Hall').
      apply wp_bind, (wp_visible_journal items Prepared); [done|done|done| |apply HD; left; by right].
      rewrite bool_decide_false by done. cbn [operations record].
      apply (wp_fail_with_rollback items items); [done|done|done| | | |].
      * intros s2 H2. split; [by eapply pending_still|by destruct H2 as (_ & _ & Hu)].
      * done.
      * intros e' s2 H2 _. apply HX; [by left|done].
      * intros s2 H2 _. apply HD. by left.
    + pose proof Hcl as ( (_ & Hd' & _) & Hj' & _).
      apply wp_bind, (wp_visible_journal items Committed); [done|done|done| |apply HD; right; by left].
      rewrite bool_decide_true by done. apply wp_throw, HX; [right; split; [by left|auto]|done].
  - intros s' Hs'. apply HD. destruct (applied_replacing items s s' Hl Hpend Happ Hs') as [ [? _]|?]; [left; by right|right; by left].
Qed.
End safety.
