(* ===== verification/Commit.v ===== *)
(** * Commit: the whole run of a publication

    From planned changes to the journal, the stages, the renames and the
    cleanup: at every moment of [commit] the set is [Old] or [New].  Then the
    operations [commit] builds from its changes, when a set of changes can be
    committed at all ([admissible]), and that the journal of such a set is
    accepted by the validation every recovery makes. *)

From stdpp Require Import gmap.
From S2P Require Import Prelude Text Digest Publication CrashIO FileSystem FileSpecs Journal JournalSpecs Transaction Rollback Apply FileSet CrashSafety.

(** An operation as the first journal has it, and with its stage written. *)
Definition set_installed (op : JournalOperation) (id : option FileIdentity) : JournalOperation :=
  mkOperation (target op) (stage op) (backup op) (parent_identity op) (original op)
    (original_digest op) (original_mode op) (desired_digest op) (desired_mode op) id.
Definition set_item (id : option FileIdentity) (it : item) : item :=
  mkItem (set_installed (i_op it) id) (i_before it) (i_after it).
Definition forget : item -> item := set_item None.

Section stages.
Context {O : Os_params} {H : Sha256}.
Implicit Types (it : item) (s : nodes) (items : list item).

Lemma forget_cells items : all_cells (map forget items) = all_cells items.
Proof. induction items as [|it items IH]; [done|]. cbn [map]. rewrite !all_cells_cons, IH. done. Qed.

Lemma set_item_wf it id : item_wf it ->
  match id with Some i => is_Some (stage (i_op it)) /\ forall n, i_before it = Some n -> node_id n <> i | None => True end ->
  item_wf (set_item id it).
Proof.
  intros [Ht Hs Hc Ho Hd Hf] Hid. split; try done.
  - unfold item_wf in *. cbn [set_item i_after i_op set_installed stage desired_digest desired_mode installed original] in *.
    destruct (i_after it) as [ [c m]|]; [done|]. destruct Hd as (Hst & ? & ? & ? & ?). split_and!; try done.
    destruct id as [i|]; [|done]. destruct Hid as [ [? E] _]. congruence.
  - cbn. intros i n -> Hn. by apply Hid.
Qed.

Lemma forget_separate items : separate items -> separate (map forget items).
Proof.
  intros (Hwf & Hnd & Hu). split; [|by rewrite forget_cells].
  intros it (it' & -> & Hi)%list_elem_of_fmap. by apply set_item_wf; [apply Hwf|].
Qed.

(** Staging an operation does not change which files it has. *)
Lemma staged_separate pre it post id : separate (pre ++ it :: post) -> item_wf (set_item id it) ->
  separate (pre ++ set_item id it :: post).
Proof.
  intros (Hwf & Hnd & Hu) Hit. unfold separate. rewrite all_cells_app, all_cells_cons in *. split; [|done].
  intros it' [Hi|[-> |Hi]%elem_of_cons]%elem_of_app; [|done|]; apply Hwf, elem_of_app; [by left|right; by right].
Qed.

(** Before anything is applied, knowing less about the stages is no loss. *)
Lemma forget_prep it s : item_wf it -> item_prep it s -> item_unapplied it s -> item_prep (forget it) s.
Proof.
  intros Hwf [Hst _] Hu. split; [|by left]. intros p Hp. destruct (Hst p Hp) as [?|Hs]; [by left|right].
  cbn [forget set_item i_op set_installed installed]. destruct (installed (i_op it)) as [id|]; [|done].
  destruct Hs as (c & m & Ha & Hs). destruct (stage_after _ _ _ Hwf p Hp) as (c' & m' & Ha' & _ & _ & Hlen & _).
  rewrite Ha in Ha'. injection Ha' as <- <-. eauto.
Qed.

(** Writing a stage only touches that stage. *)
Lemma being_written_elsewhere op p contents s s' : stage op = Some p -> being_written p contents s s' ->
  elsewhere op s s'.
Proof.
  intros Hp Hw q Hq. apply (being_written_lookup _ _ _ _ _ Hw). intros ->. apply Hq. unfold cells.
  rewrite elem_of_cons, elem_of_app, !elem_of_option_list. auto.
Qed.
End stages.

Section commit.
Context {O : Os_params} {H : Sha256} {K : JournalCodec}.
Context (J : path) (HJ : normal_path J) (HJS : stage_of J <> J) (nonce : Z) (fs0 : nodes).
Context (ok : (syscall -> verdict) -> Prop).
Abbreviation wp := (wp ok).
Abbreviation Pending := (Pending J nonce fs0).
Abbreviation Old := (Old J nonce fs0).
Abbreviation New := (New J nonce fs0).
Abbreviation layout := (layout J).
Abbreviation Quiet := (Quiet J nonce fs0).
Implicit Types (it : item) (s : nodes) (items : list item) (X : error -> nodes -> Prop) (D : nodes -> Prop).

(** The staging phase: the journal on disk knows the operations without their
    stages, nothing is applied. *)
Definition Staging items s : Prop :=
  Pending (map forget items) s /\ forall it, it ∈ items -> item_unapplied it s /\ item_home it s.

Lemma staging_step pre it post p contents s s' :
  layout (map forget (pre ++ it :: post)) -> separate (pre ++ it :: post) -> Staging (pre ++ it :: post) s ->
  stage (i_op it) = Some p -> len contents <= u64_max -> being_written p contents s s' ->
  Staging (pre ++ it :: post) s' /\ (forall it', it' ∈ pre \/ it' ∈ post -> agree it' s s').
Proof using HJ.
  intros Hl Hsep [(Hb & Hj & Hpr) Hun] Hp Hlen Hw.
  assert (it ∈ pre ++ it :: post) as Hin by (apply elem_of_app; right; by left).
  assert (elsewhere (i_op it) s s') as He by by eapply being_written_elsewhere.
  assert (outside (map forget (pre ++ it :: post)) s s') as Ho.
  { intros q Hq. rewrite forget_cells in Hq. by apply (elsewhere_outside (pre ++ it :: post) it). }
  assert (forall it', it' ∈ pre \/ it' ∈ post -> agree it' s s') as Hag
    by (intros it' Hi; by apply (elsewhere_agree pre it post)).
  pose proof Hsep as (Hwf & _). destruct (cells_distinct _ _ _ (Hwf it Hin)) as (_ & _ & HS & HBS).
  assert (forall it', it' ∈ pre ++ it :: post -> item_unapplied it' s' /\ item_home it' s') as Hun'.
  { intros it' Hi. destruct (Hun it' Hi) as [Hu Hh]. split.
    - apply elem_of_app in Hi as Hi'. rewrite elem_of_cons in Hi'.
      destruct Hi' as [?|[-> |?] ]; [apply (unapplied_local it' s); auto| |apply (unapplied_local it' s); auto].
      destruct Hu as [Ht Hb']. split.
      + rewrite (being_written_lookup _ _ _ _ _ Hw); [done|]. destruct (HS p Hp). congruence.
      + intros b Hb''. rewrite (being_written_lookup _ _ _ _ _ Hw); [auto|]. by apply HBS.
    - apply (home_outside (pre ++ it :: post) it' s); [done|done| |done]. by apply (elsewhere_outside _ it). }
  split; [|done]. split; [|done]. split; [by eapply base_outside|]. split.
  { eapply journal_is_same; [|done]. by apply (outside_journal J (map forget (pre ++ it :: post))). }
  intros it0 (it' & -> & Hi)%list_elem_of_fmap. destruct (Hun' it' Hi) as [Hu Hh]. split; [|done].
  assert (item_prep (forget it') s) as Hp0 by (apply Hpr, list_elem_of_fmap; eauto).
  apply elem_of_app in Hi as Hi'. rewrite elem_of_cons in Hi'. destruct Hi' as [Hi'|[-> |Hi'] ].
  - apply (prep_local (forget it') s); [exact (Hag it' (or_introl Hi'))|done].
  - split; [|by left]. intros p' Hp'. cbn in Hp'. rewrite Hp in Hp'. injection Hp' as <-.
    destruct Hw as [-> |(Hn & k & m & ->)]; [by apply Hp0|]. right. cbn. eexists _, _, _.
    rewrite lookup_insert_eq. split; [done|]. unfold len in *. rewrite length_take. lia.
  - apply (prep_local (forget it') s); [exact (Hag it' (or_intror Hi'))|done].
Qed.

(** Failing while staging. *)
Lemma wp_fail_staging items e s (Q : unit -> nodes -> Prop) X D :
  layout (map forget items) -> separate items -> Staging items s -> (forall it, it ∈ items -> item_prep it s) ->
  (forall e s', Quiet (map forget items) s' -> X e s') -> (forall s', Quiet (map forget items) s' -> D s') ->
  wp (fail_with_rollback J (map i_op items) e) Q X D s.
Proof using HJ HJS.
  intros Hl Hsep [Hpend Hun] Hpr HX HD. pose proof Hsep as (Hwf & _).
  assert (forall it, it ∈ map forget items -> item_unapplied it s) as Hquiet.
  { intros it0 (it & -> & Hi)%list_elem_of_fmap. by destruct (Hun it Hi). }
  apply (wp_fail_with_rollback J HJ HJS nonce fs0 ok items (map forget items)); [done|done| | | | |].
  - intros it Hi. split; [auto|]. by apply Hun.
  - intros s' (Hp & Ho & Hu). destruct Hpend as (Hb & Hj & _).
    assert (outside (map forget items) s s') as Ho' by (intros q Hq; rewrite forget_cells in Hq; auto).
    split; [split; [by eapply base_outside|]; split|].
    { eapply journal_is_same; [|done]. by apply (outside_journal J (map forget items)). }
    { intros it0 (it & -> & Hi)%list_elem_of_fmap. destruct (Hp it Hi) as [Hpi Hh]. split; [|done].
      apply forget_prep; [by apply Hwf|done|]. apply Hu; [done|]. by apply Hun. }
    intros it0 (it & -> & Hi)%list_elem_of_fmap. exact (Hu it Hi).
  - intros s' Hr it0 (it & -> & Hi)%list_elem_of_fmap. exact (Hr it Hi).
  - intros e' s' [Ho _] Hk. apply HX. by eapply kept_quiet.
  - intros s' Ho Hk. apply HD. by eapply kept_quiet.
Qed.

Lemma forget_id it : installed (i_op it) = None -> forget it = it.
Proof. destruct it as [ [] b a]. cbn. by intros ->. Qed.

(** A change to be staged: its operation and the contents to write. *)
Definition staging_input it : JournalOperation * option (list Z) := (i_op it, fst <$> i_after it).

(** The state with one more stage written. *)
Lemma stage_written pre it todo p c m s : separate (pre ++ it :: todo) -> Staging (pre ++ it :: todo) s ->
  layout (map forget (pre ++ it :: todo)) -> stage (i_op it) = Some p -> i_after it = Some (c, m) -> len c <= u64_max ->
  s !! p = None -> (forall it', it' ∈ pre -> item_staged it' s) ->
  let id := fresh_identity s in let s1 := <[p := Reg id c m]> s in let pre' := pre ++ [set_item (Some id) it] in
  separate (pre' ++ todo) /\ Staging (pre' ++ todo) s1 /\ (forall it', it' ∈ pre' -> item_staged it' s1) /\
  (forall it', it' ∈ todo -> stage_gone (i_op it') s -> stage_gone (i_op it') s1).
Proof using HJ.
  intros Hsep Hst Hl Hp Ha Hlen Hfree Hpre. cbn zeta. rewrite <- !app_assoc. cbn [app]. set (id := fresh_identity s).
  set (s1 := <[p := Reg id c m]> s). assert (it ∈ pre ++ it :: todo) as Hin by (apply elem_of_app; right; by left).
  destruct (staging_step pre it todo p c s s1 Hl Hsep Hst Hp Hlen) as [Hst1 Hag].
  { right. split; [done|]. exists (length c), m. by rewrite take_ge. }
  pose proof Hst as [_ Hun]. pose proof Hsep as (Hwf & _). split_and!.
  - apply staged_separate; [done|]. apply set_item_wf; [by apply Hwf|]. split; [by eexists|]. intros n Hn.
    destruct (Hun it Hin) as [ [Ht _] _]. rewrite Hn in Ht. by apply (fresh_identity_unused s _ n Ht).
  - destruct Hst1 as [Hp1 Hu1]. split; [by rewrite !map_app in *|].
    intros it' [Hi|[-> |Hi]%elem_of_cons]%elem_of_app; [|exact (Hu1 it Hin)|];
      apply Hu1, elem_of_app; [by left|right; by right].
  - intros it' [Hi| ->%list_elem_of_singleton]%elem_of_app; [apply (staged_local it' s); auto|].
    intros p' Hp'. cbn in Hp'. rewrite Hp in Hp'. injection Hp' as <-. exists id, c, m. unfold s1.
    by rewrite lookup_insert_eq.
  - intros it' Hi. apply (gone_local it' s). auto.
Qed.

Lemma wp_write_stages items_d (k : list JournalOperation -> io unit) (Q : unit -> nodes -> Prop) X D :
  layout items_d ->
  (forall items s', map forget items = items_d -> separate items -> Staging items s' ->
     (forall it, it ∈ items -> item_staged it s') -> wp (k (map i_op items)) Q X D s') ->
  (forall e s', Quiet items_d s' -> faulty ok -> X e s') -> (forall s', Quiet items_d s' -> D s') ->
  forall todo pre s, map forget (pre ++ todo) = items_d -> separate (pre ++ todo) -> Staging (pre ++ todo) s ->
  (forall it, it ∈ pre -> item_staged it s) ->
  (forall it, it ∈ todo -> installed (i_op it) = None /\ stage_gone (i_op it) s) ->
  wp (write_stages J (map i_op pre) (map staging_input todo) k) Q X D s.
Proof using HJ HJS.
  intros Hl Hk HX HD. induction todo as [|it todo IH]; intros pre s Heq Hsep Hst Hpre Htodo; cbn [map write_stages].
  { rewrite app_nil_r in *. auto. }
  assert (it ∈ pre ++ it :: todo) as Hin by (apply elem_of_app; right; by left).
  pose proof Hsep as (Hwf & _). pose proof (Hwf it Hin) as Hwfi. unfold staging_input at 1.
  destruct (Htodo it ltac:(by left)) as [Hnone Hgone].
  destruct (i_after it) as [ [c m]|] eqn:Ha; cbn [fmap option_fmap option_map fst].
  2: { destruct (removal_fields _ _ _ Hwfi Ha) as (Hstage & _).
    change [i_op it] with (map i_op [it]). rewrite <- map_app. apply IH; rewrite <- ?app_assoc; [done|done|done| |].
    - intros it' [Hi| ->%list_elem_of_singleton]%elem_of_app; [auto|]. intros p Hp. congruence.
    - intros it' Hi. apply Htodo. by right. }
  pose proof (wf_desired _ _ _ Hwfi) as Hd. rewrite Ha in Hd. destruct Hd as ([p Hp] & _ & Hmode & Hlen & Hm).
  rewrite Hp, Hmode. apply wp_bind, wp_ret, wp_bind, wp_ret, wp_bind, wp_attempt.
  destruct Hst as [Hpend Hun]. assert (Staging (pre ++ it :: todo) s) as Hst by by split.
  destruct (cells_distinct _ _ _ Hwfi) as (_ & _ & HS & _). destruct (HS p Hp) as [Hpin _].
  destruct (cell_dirs _ _ _ Hwfi s p) as (Hnp & Hdp & _); [by apply Hun|done|]. rewrite <- Heq in Hl.
  assert (forall s', being_written p c s s' -> Staging (pre ++ it :: todo) s' /\
    forall it', it' ∈ pre \/ it' ∈ todo -> agree it' s s') as Hstep by (intros; by eapply staging_step).
  apply wp_write_new_file_mode; [done|done|done|done| | |].
  - intros Hfree. destruct (stage_written pre it todo p c m s) as (Hsep1 & Hst1 & Hstg1 & Hgone1); try done.
    change [with_installed (i_op it) (fresh_identity s)] with (map i_op [set_item (Some (fresh_identity s)) it]).
    rewrite <- map_app. apply IH; [|done|done|done|].
    + rewrite <- Heq, <- app_assoc, !map_app. done.
    + intros it' Hi. destruct (Htodo it') as [? ?]; [by right|]. auto.
  - intros e s' Hw [F|[_ Hne] ]; [|by rewrite (Hgone p Hp) in Hne]. destruct (Hstep s' Hw) as [Hst' Hag]. cbn [map fst]. rewrite map_map. cbn [fst staging_input].
    rewrite <- (map_cons i_op it), <- map_app.
    apply wp_fail_staging; rewrite ?Heq; [by rewrite <- Heq|done|done| |auto|done].
    destruct Hst' as [(_ & _ & Hpr) Hun']. intros it' Hi. apply elem_of_app in Hi as Hi'. destruct Hi' as [Hi'|Hi'].
    + apply unapplied_prep; [by apply Hun'|apply (staged_local it' s); auto].
    + destruct (Htodo it' Hi') as [Hn _]. rewrite <- (forget_id it' Hn). apply Hpr, list_elem_of_fmap. eauto.
  - intros s' Hw. destruct (Hstep s' Hw) as [ [Hst' Hun'] _]. apply HD. rewrite <- Heq. split; [by right|].
    intros it0 (it' & -> & Hi)%list_elem_of_fmap. by destruct (Hun' it' Hi).
Qed.
End commit.

(** ** From planned changes to operations *)
Section planned.
Context {O : Os_params} {H : Sha256}.
Context (J : path) (nonce : Z) (fs0 : nodes) (changes : list PlannedChange).
Abbreviation JS := (stage_of J).
Abbreviation indexed := (enumerate_from 0 changes).

(** The sibling of a target the operation with index [i] uses. *)
Definition sibling (i : Z) (ch : PlannedChange) (purpose : list Z) : path :=
  join_name (removelast (change_path ch))
    (sibling_name (default [] (leaf_of (change_path ch))) purpose (nonce + i)).
Definition after_of (d : DesiredState) : option (list Z * Z) :=
  match d with Write contents mode => Some (contents, mode) | Remove => None end.
Definition op_of (ic : Z * PlannedChange) (pid : FileIdentity) : JournalOperation :=
  let '(i, ch) := ic in
  mkOperation (change_path ch)
    (match desired ch with Write _ _ => Some (sibling i ch (rs "stage")) | Remove => None end)
    (match change_original ch with Some _ => Some (sibling i ch (rs "backup")) | None => None end)
    pid (change_original ch) (change_original_digest ch) (change_original_mode ch)
    (sha256_bytes ∘ fst <$> after_of (desired ch)) (snd <$> after_of (desired ch)) None.
Definition item_of (ic : Z * PlannedChange) (pid : FileIdentity) : item :=
  mkItem (op_of ic pid) (fs0 !! change_path (snd ic)) (after_of (desired (snd ic))).

Definition nobody : FileIdentity := mkIdentity 0 0.
Definition footprint : list path := flat_map (fun ic => cells (op_of ic nobody)) indexed.

(** A change as [DurableFileSet] plans it. *)
Definition planned (ch : PlannedChange) : Prop :=
  (is_Some (change_original ch) <-> is_Some (change_original_digest ch)) /\
  (is_Some (change_original ch) <-> is_Some (change_original_mode ch)) /\
  (forall m, change_original_mode ch = Some m -> 0 <= m <= o7777) /\
  match desired ch with
  | Write contents mode => len contents <= u64_max /\ (mode = o644 \/ mode = o755)
  | Remove => is_Some (change_original ch)
  end.

(** The change's key in the casefold collision map. *)
Definition key_of (ch : PlannedChange) : option (list Z) :=
  scope ← parent_of J;
  relative ← strip_scope scope (change_path ch);
  match casefold_components relative with Ok key => Some key | _ => None end.

Record admissible : Prop := {
  adm_journal : normal_path J /\ dirs fs0 J /\ fs0 !! J = None /\ fs0 !! JS = None;
  adm_targets : forall ch, ch ∈ changes -> normal_path (change_path ch) /\ planned ch;
  adm_portable : (forall ch, ch ∈ changes -> is_Some (key_of ch)) /\ NoDup (omap key_of changes);
  adm_distinct : NoDup (J :: JS :: footprint);
  adm_antichain : forall p q, p ∈ J :: JS :: footprint -> q ∈ J :: JS :: footprint -> ~ under p q;
  adm_unused : forall ic p, ic ∈ indexed -> backup (op_of ic nobody) = Some p \/ stage (op_of ic nobody) = Some p ->
    fs0 !! p = None;
  adm_nonce : 0 <= nonce /\ nonce + len changes <= u64_max;
}.

(** The operations of a run: the directory found and the stage written vary. *)
Definition plans (ic : Z * PlannedChange) (it : item) : Prop :=
  exists pid inst, it = set_item inst (item_of ic pid) /\ (is_Some inst -> desired (snd ic) <> Remove).
Definition items_for (items : list item) : Prop :=
  Forall2 plans indexed items /\ forall it, it ∈ items -> item_wf it.

(** ** Enumeration *)
Lemma enumerate_elem {A} (l : list A) : forall n i x, (i, x) ∈ enumerate_from n l ->
  n <= i < n + len l /\ x ∈ l.
Proof.
  induction l as [|y l IH]; intros n i x; cbn; [by intros ?%elem_of_nil|]. rewrite len_cons.
  pose proof (len_nonneg l). intros [ [= -> ->] |Hi%IH]%elem_of_cons; [split; [lia|by left]|].
  destruct Hi as [? ?]. split; [lia|by right].
Qed.

Lemma enumerate_map {A B} (f : A -> B) (l : list A) : forall n,
  enumerate_from n (map f l) = map (fun ix => (fst ix, f (snd ix))) (enumerate_from n l).
Proof. induction l as [|y l IH]; intros n; [done|]. cbn. by rewrite IH. Qed.

Lemma enumerate_snd {A} (l : list A) : forall n, map snd (enumerate_from n l) = l.
Proof. induction l as [|y l IH]; intros n; [done|]. cbn. by rewrite IH. Qed.

Context (Hadm : admissible).

(** ** The items of a run are laid out *)
Lemma plans_cells ic it : plans ic it -> cells (i_op it) = cells (op_of ic nobody).
Proof. intros (pid & inst & -> & _). by destruct ic. Qed.

Lemma items_cells items : items_for items -> all_cells items = footprint.
Proof.
  intros [Hf _]. unfold footprint. induction Hf as [|ic it ics items Hp Hf IH]; [done|].
  rewrite all_cells_cons. cbn [flat_map]. by rewrite (plans_cells ic it Hp), IH.
Qed.

Lemma items_layout items : items_for items -> layout J items.
Proof using Hadm.
  intros Hi. pose proof (items_cells items Hi) as Hc. destruct Hadm as [_ _ _ Hd Ha _ _].
  apply NoDup_cons in Hd as [HJ [HJS Hd]%NoDup_cons]. unfold layout, separate. rewrite Hc.
  assert (forall q, q ∈ footprint -> q ∈ J :: JS :: footprint) as Hin by (intros; right; by right).
  split_and!; [by apply Hi|done| |by rewrite elem_of_cons in HJ; tauto|done|].
  - intros p q Hp Hq. by apply Ha; apply Hin.
  - intros q Hq. split_and!; apply Ha; auto; [by left|by left|right; by left].
Qed.

Lemma item_of_wf ic pid : ic ∈ indexed -> item_wf (item_of ic pid).
Proof using Hadm.
  intros Hi. destruct ic as [i ch]. destruct (enumerate_elem _ _ _ _ Hi) as [_ Hch].
  destruct (adm_targets Hadm ch Hch) as [Hn (Hd & Hm & _ & Hdes)].
  assert (NoDup (cells (op_of (i, ch) nobody))) as Hnd.
  { pose proof (adm_distinct Hadm) as Hnd. apply NoDup_cons in Hnd as [_ [_ Hnd]%NoDup_cons].
    unfold footprint in Hnd. apply list_elem_of_split in Hi as (l1 & l2 & E). rewrite E, flat_map_app in Hnd.
    apply NoDup_app in Hnd as (_ & _ & Hnd). by apply NoDup_app in Hnd as (? & _). }
  split; cbn [item_of op_of i_op i_before i_after target backup stage original original_digest original_mode
    desired_digest desired_mode installed snd]; [done| |exact Hnd| | |done].
  - intros p [Hp|Hp]; [destruct (change_original ch)|destruct (desired ch)]; try done; injection Hp as <-; by eexists.
  - split; [|done]. destruct (change_original ch); split; intros [? ?]; try done; by eexists.
  - destruct (desired ch) as [c m|]; cbn.
    + destruct Hdes as [Hlen Hmode]. split; [by eexists|]. split_and!; [done..|]. by destruct Hmode as [-> | ->].
    + by split_and!.
Qed.

(** Operations just built, nothing staged. *)
Definition builds (ic : Z * PlannedChange) (it : item) : Prop := exists pid, it = item_of ic pid.

Lemma builds_for items : Forall2 builds indexed items ->
  items_for items /\ map forget items = items /\ forall it, it ∈ items -> installed (i_op it) = None.
Proof using Hadm.
  intros Hf. assert (forall it, it ∈ items -> exists ic pid, ic ∈ indexed /\ it = item_of ic pid) as Hof.
  { intros it [k Hk]%list_elem_of_lookup. destruct (Forall2_lookup_r _ _ _ _ _ Hf Hk) as (ic & Hic & pid & ->).
    exists ic, pid. split; [by eapply list_elem_of_lookup_2|done]. }
  assert (forall ic pid, installed (i_op (item_of ic pid)) = None) as Hnone by by intros [].
  split; [split|split].
  - eapply Forall2_impl; [done|]. intros ic it [pid ->]. exists pid, None. split; [|by intros [? ?] ]. by destruct ic.
  - intros it Hi. destruct (Hof it Hi) as (ic & pid & Hin & ->). by apply item_of_wf.
  - apply list_eq_same_length with (n := length items); [done|by rewrite length_map|].
    intros k x y Hk Hx Hy. rewrite list_lookup_fmap, Hy in Hx. injection Hx as <-. apply forget_id.
    apply list_elem_of_lookup_2 in Hy. destruct (Hof y Hy) as (ic & pid & _ & ->). apply Hnone.
  - intros it Hi. destruct (Hof it Hi) as (ic & pid & _ & ->). apply Hnone.
Qed.

Lemma unbuilt_builds : Forall2 builds indexed (map (fun ic => item_of ic nobody) indexed).
Proof. apply Forall2_fmap_r, Forall_Forall2_diag, Forall_forall. intros ic _. by exists nobody. Qed.

(** Staging keeps the plan. *)
Lemma staged_for items items' : items_for items -> map forget items' = items -> separate items' -> items_for items'.
Proof.
  intros [Hf _] <- (Hwf & _). split; [|done]. rewrite Forall2_fmap_r in Hf. 
  apply Forall2_same_length_lookup_2; [by eapply Forall2_length|]. intros k ic it Hic Hit.
  destruct (Forall2_lookup_lr _ _ _ _ _ _ Hf Hic Hit) as (pid & inst & He & _).
  exists pid, (installed (i_op it)). assert (it = set_item (installed (i_op it)) (forget it)) as Heq by by destruct it as [ [] ].
  split; [rewrite Heq at 1; by rewrite He|]. intros Hs Hrem.
  pose proof (Hwf it (list_elem_of_lookup_2 _ _ _ Hit)) as Hw.
  assert (i_after it = None) as Ha.
  { change (i_after it) with (i_after (forget it)). rewrite He. destruct ic as [i ch]. cbn in *. by rewrite Hrem. }
  destruct (removal_fields _ _ _ Hw Ha) as (_ & _ & Hn & _). rewrite Hn in Hs. by destruct Hs.
Qed.

(** ** The journal of a run is valid *)
Lemma set_insert_new {A} `{EqDecision A} (x : A) l : x ∉ l -> set_insert x l = Some (x :: l).
Proof. intros Hx. unfold set_insert. by rewrite decide_False. Qed.

Lemma is_someb_iff {A B} (a : option A) (b : option B) : (is_Some a <-> is_Some b) -> xorb (is_someb a) (is_someb b) = false.
Proof.
  intros [H1 H2]. destruct a, b; cbn; [done| | |done].
  - destruct H1 as [? ?]; [by eexists|done].
  - destruct H2 as [? ?]; [by eexists|done].
Qed.

Lemma validate_step scope i ch it key targets keys :
  parent_of J = Some scope -> plans (i, ch) it -> normal_path (change_path ch) -> planned ch ->
  key_of ch = Some key -> change_path ch ∉ targets -> key ∉ keys -> nonce + i <= u64_max ->
  validate_operation true scope nonce (targets, keys) (i, i_op it)
  = Ok (change_path ch :: targets, key :: keys).
Proof.
  intros Hsc (pid & inst & -> & Hinst) Hn (Hd & Hm & Hmode & Hdes) Hkey Ht Hk Hnonce.
  unfold key_of in Hkey. rewrite Hsc in Hkey. cbn in Hkey.
  destruct (strip_scope scope (change_path ch)) as [rel|] eqn:Hrel; [|done]. cbn in Hkey.
  destruct (casefold_components rel) as [k| |] eqn:Hfold; [|done..]. injection Hkey as ->.
  destruct (normal_path_shape _ Hn) as (_ & Habs & Hleaf & Hpar & _).
  unfold validate_operation. cbn [set_item item_of i_op op_of set_installed target stage backup original original_digest
    original_mode desired_digest desired_mode installed snd].
  rewrite Habs, Hrel. cbn [is_someb andb ensure]. rewrite Ok_bind, set_insert_new by done. cbn [ok_or]. rewrite Ok_bind, Ok_bind.
  rewrite Hfold. cbn [map_err]. rewrite Ok_bind, set_insert_new by done. cbn [ok_or]. rewrite Ok_bind.
  rewrite (is_someb_iff _ _ Hd), (is_someb_iff _ _ Hm). cbn [andb orb negb refuse]. rewrite Ok_bind.
  replace (match change_original_mode ch with Some mode => o7777 <? mode | None => false end) with false.
  2: { destruct (change_original_mode ch) as [m|]; [|done]. specialize (Hmode m eq_refl). symmetry. apply Z.ltb_ge. lia. }
  cbn [refuse]. rewrite Ok_bind, Hpar, Hleaf. cbn [ok_or]. rewrite !Ok_bind. unfold nonce_at, checked_add.
  rewrite (proj2 (Z.leb_le _ _)) by done. cbn [or_stuck]. rewrite Ok_bind.
  assert (change_original ch = None -> is_someb (change_original ch) = false) as Ho by by intros ->.
  assert (is_Some inst -> exists c m, desired ch = Write c m) as Hinst'.
  { intros Hs. specialize (Hinst Hs). cbn in Hinst. destruct (desired ch); [eauto|done]. }
  unfold sibling. rewrite Hleaf. cbn [default].
  destruct (change_original ch), (desired ch) as [c m|] eqn:Ed; cbn [after_of fmap option_fmap option_map snd fst compose is_someb xorb andb orb negb].
  all: rewrite ?bool_decide_true by done; cbn [negb orb].
  - destruct Hdes as [_ [-> | ->] ]; by destruct inst.
  - destruct inst as [id|]; [|done]. destruct Hinst' as (? & ? & ?); [by eexists|done].
  - destruct Hdes as [_ [-> | ->] ]; by destruct inst.
  - by destruct Hdes as [? ?].
Qed.

Lemma validate_all scope : parent_of J = Some scope -> forall chs items n targets keys,
  Forall2 plans (enumerate_from n chs) items -> nonce + n + len chs <= u64_max ->
  (forall ch, ch ∈ chs -> normal_path (change_path ch) /\ planned ch /\ is_Some (key_of ch)) ->
  NoDup (map change_path chs) -> (forall ch, ch ∈ chs -> change_path ch ∉ targets) ->
  NoDup (omap key_of chs) -> (forall key, key ∈ omap key_of chs -> key ∉ keys) ->
  exists seen, foldM (validate_operation true scope nonce) (targets, keys) (enumerate_from n (map i_op items)) = Ok seen.
Proof.
  intros Hsc. induction chs as [|ch chs IH]; intros items n targets keys Hf Hn Hall Hnd Ht Hndk Hk.
  { apply Forall2_nil_inv_l in Hf as ->. by eexists. }
  cbn [enumerate_from] in Hf. apply Forall2_cons_inv_l in Hf as (it & items' & Hp & Hf & ->).
  destruct (Hall ch ltac:(by left)) as (Hnp & Hpl & [key Hkey]). rewrite len_cons in Hn. pose proof (len_nonneg chs).
  cbn [omap list_omap] in Hndk, Hk. rewrite Hkey in Hndk, Hk. apply NoDup_cons in Hndk as [Hkn Hndk].
  cbn [map] in Hnd. apply NoDup_cons in Hnd as [Hpn Hnd].
  cbn [map enumerate_from foldM]. rewrite (validate_step scope n ch it key); try done; [|by apply Ht; left|by apply Hk; left|lia].
  rewrite Ok_bind. apply IH; [done|lia| |done| |done|].
  - intros ch' Hc. apply Hall. by right.
  - intros ch' Hc [E|Hin]%elem_of_cons; [|by eapply Ht; [right|] ].
    apply Hpn. rewrite <- E. apply list_elem_of_fmap. eauto.
  - intros key' Hk' [-> |Hin]%elem_of_cons; [done|]. by eapply Hk; [right|].
Qed.

Lemma NoDup_flat_map_head {A B} (f : A -> list B) (g : A -> B) l :
  (forall x, x ∈ l -> g x ∈ f x) -> NoDup (flat_map f l) -> NoDup (map g l).
Proof.
  induction l as [|x l IH]; intros Hg Hnd; [constructor|]. cbn in *. apply NoDup_app in Hnd as (_ & Hdis & Hnd).
  constructor; [|apply IH; [intros; apply Hg; by right|done] ].
  intros (y & E & Hy)%list_elem_of_fmap. apply (Hdis (g x)); [apply Hg; by left|].
  apply list_elem_of_In, in_flat_map. exists y. rewrite <- !list_elem_of_In. split; [done|].
  rewrite E. apply Hg. by right.
Qed.

Lemma items_valid items : items_for items -> valid J nonce items.
Proof using Hadm.
  intros [Hf _] st. unfold validate_journal, record. cbn [schema operations].
  change (eqb_list SCHEMA_V3 SCHEMA_V2) with false. change (eqb_list SCHEMA_V3 SCHEMA_V3) with true. cbn iota.
  rewrite Ok_bind. destruct Hadm as [(HJ & _) Htg [Hkeys Hndk] Hnd _ _ Hnonce].
  destruct (normal_path_shape J HJ) as (_ & _ & _ & Hpar & _). rewrite Hpar. cbn [ok_or]. rewrite Ok_bind.
  destruct (validate_all (removelast J) Hpar changes items 0 [] []) as [seen Hseen]; try done.
  - lia.
  - intros ch Hc. destruct (Htg ch Hc). auto.
  - apply NoDup_cons in Hnd as [_ [_ Hnd]%NoDup_cons]. rewrite <- (enumerate_snd changes 0), map_map.
    eapply NoDup_flat_map_head; [|exact Hnd]. intros [i ch] _. by left.
  - by intros ? _ ?%elem_of_nil.
  - by intros ? _ ?%elem_of_nil.
  - cbn [Journal.nonce]. by rewrite Hseen.
Qed.
End planned.
