(* ===== verification/AllOrNothing.v ===== *)
(** * AllOrNothing: what a publication promises

    A commit, whatever fails and wherever it is cut off, followed by any number
    of recoveries that fail or are cut off themselves, ends in the old file set
    or in the new one, never in a mixture; an undisturbed commit publishes, and
    two undisturbed recoveries always finish. *)

From stdpp Require Import gmap.
From S2P Require Import Prelude Text Digest Publication CrashIO FileSystem FileSpecs Journal JournalSpecs Transaction Rollback Apply FileSet CrashSafety Commit.

Section run.
Context {O : Os_params} {H : Sha256} {K : JournalCodec}.
Context (J : path) (nonce : Z) (fs0 : nodes) (changes : list PlannedChange).
Context (Hadm : admissible J nonce fs0 changes).
Context (ok : (syscall -> verdict) -> Prop).
Abbreviation JS := (stage_of J).
Abbreviation indexed := (enumerate_from 0 changes).
Abbreviation wp := (wp ok).
Abbreviation faulty := (faulty ok).
Abbreviation footprint := (footprint nonce changes).
Abbreviation items_for := (items_for nonce fs0 changes).
Abbreviation Idle := (Idle J fs0).
Abbreviation Pending := (Pending J nonce fs0).
Abbreviation Old := (Old J nonce fs0).
Abbreviation New := (New J nonce fs0).
Implicit Types (it : item) (s : nodes) (items : list item) (X : error -> nodes -> Prop) (D : nodes -> Prop).

Lemma journal_normal : normal_path J.
Proof using Hadm. by destruct Hadm as [(? & _) ]. Qed.
Lemma stage_distinct : stage_of J <> J.
Proof using Hadm.
  pose proof (adm_distinct _ _ _ _ Hadm) as Hd. apply NoDup_cons in Hd as [Hd _].
  intros E. apply Hd. rewrite <- E at 1. by left.
Qed.
Hint Resolve journal_normal stage_distinct : core.

(** ** Building the operations *)
Definition untouched s : Prop := forall q,
  s !! q = fs0 !! q \/ (fs0 !! q = None /\ is_dir s q /\ q ∉ J :: JS :: footprint).

Lemma untouched_grown ch s s' : ch ∈ changes -> untouched s -> grown (change_path ch) s s' -> untouched s'.
Proof using Hadm.
  intros Hc Hu Hg q. destruct (Hg q) as [-> |(Hn & Hd & Hund)]; [|right].
  - destruct (Hu q) as [?|(Hn & [id Hd] & Hq)]; [by left|right]. split; [done|]. split; [|done].
    eapply grown_dir; [done|by exists id].
  - split; [|split; [done|] ].
    + destruct (Hu q) as [<- |(? & [id Hd'] & _)]; [done|congruence].
    + intros Hq. destruct Hadm as [_ _ _ _ Ha _ _]. apply (Ha q (change_path ch)) in Hund; [done|done|].
      right. right. unfold footprint. apply list_elem_of_In, in_flat_map.
      rewrite <- (enumerate_snd changes 0) in Hc. apply list_elem_of_fmap in Hc as ([i ch'] & -> & Hi).
      exists (i, ch'). rewrite <- !list_elem_of_In. split; [done|]. by left.
Qed.

Lemma home_grown p it s s' : grown p s s' -> item_home it s -> item_home it s'.
Proof.
  intros Hg [Hd Hp]. split; [intros q Hq; by eapply grown_dir; [|apply Hd] |].
  destruct (Hg (removelast (target (i_op it)))) as [-> |(Hn & _)]; [done|congruence].
Qed.

(** Reasons for an error other than an injected fault. *)
Definition obstacle : Prop :=
  (exists ch, ch ∈ changes /\ ~ dirs fs0 (change_path ch)) \/
  (exists items it, items_for items /\ it ∈ items /\ ~ item_ok it) \/
  (exists items st, items_for items /\ to_vec (record nonce st items) = None).

Definition built_state (built : list (JournalOperation * option (list Z))) s (done : list (Z * PlannedChange)) : Prop :=
  untouched s /\ exists items, Forall2 (builds nonce fs0) done items /\ built = map staging_input items
    /\ forall it, it ∈ items -> item_home it s.

Lemma dirs_untouched s p : untouched s -> dirs fs0 p -> dirs s p.
Proof.
  intros Hu Hd q Hq. destruct (Hd q Hq) as [id Hid]. exists id. destruct (Hu q) as [-> |(Hn & _)]; [done|congruence].
Qed.

Lemma wp_build_operation done ic post built s (Q : _ -> nodes -> Prop) X D :
  indexed = done ++ ic :: post -> built_state built s done ->
  (forall built' s', built_state built' s' (done ++ [ic]) -> Q built' s') ->
  (forall e s', untouched s' -> faulty \/ obstacle -> X e s') -> (forall s', untouched s' -> D s') ->
  wp (build_operation nonce built ic) Q X D s.
Proof using Hadm.
  intros Hidx (Hu & items & Hf & -> & Hh) HQ HX HD. destruct ic as [i ch].
  assert ((i, ch) ∈ indexed) as Hi by (rewrite Hidx; apply elem_of_app; right; by left).
  destruct (enumerate_elem _ _ _ _ Hi) as [Hrange Hc]. destruct (adm_targets _ _ _ _ Hadm ch Hc) as [Hnp _].
  unfold build_operation. apply wp_bind, wp_open_parent_create; [done| | |].
  - intros s' Hg Hd. assert (untouched s') as Hu' by by eapply untouched_grown.
    unfold nonce_at, checked_add. destruct (adm_nonce _ _ _ _ Hadm) as [? ?].
    rewrite (proj2 (Z.leb_le _ _)) by lia. apply wp_bind, wp_ret.
    destruct (normal_path_shape _ Hnp) as (_ & _ & _ & _ & _ & Hup). destruct (Hd _ Hup) as [pid Hpid].
    apply wp_bind. eapply wp_fstat; [exact Hpid| |intros n Hn; apply HX; [done|left; by eapply may_fail_faulty]|auto].
    apply wp_ret, HQ. split; [done|]. exists (items ++ [item_of nonce fs0 (i, ch) pid]).
    split; [apply Forall2_app; [done|]; constructor; [by exists pid|constructor] |]. split.
    + rewrite map_app. f_equal. cbn [map]. f_equal. unfold staging_input, item_of, op_of, sibling.
      cbn [i_op i_after snd stat_of st_identity handle handle_path leaf]. by destruct (desired ch).
    + intros it [Hin| ->%list_elem_of_singleton]%elem_of_app; [by eapply home_grown; [|apply Hh] |]. by split.
  - intros e s' Hg Hcause. apply HX; [by eapply untouched_grown|]. destruct Hcause as [?|Hno]; [by left|right; left].
    exists ch. split; [done|]. intros Hd. by apply Hno, dirs_untouched.
  - intros s' Hg. apply HD. by eapply untouched_grown.
Qed.

Lemma wp_build (Q : _ -> nodes -> Prop) X D :
  (forall items s, Forall2 (builds nonce fs0) indexed items -> untouched s ->
     (forall it, it ∈ items -> item_home it s) -> Q (map staging_input items) s) ->
  (forall e s', untouched s' -> faulty \/ obstacle -> X e s') -> (forall s', untouched s' -> D s') ->
  wp (forI (build_operation nonce) [] indexed) Q X D fs0.
Proof using Hadm.
  intros HQ HX HD. rewrite <- (map_id indexed).
  apply (wp_forI ok id _ (fun done built s => built_state built s done)) with (pre := []).
  - split; [intros q; by left|]. exists []. split; [constructor|]. split; [done|]. by intros it ?%elem_of_nil.
  - cbn [app]. intros done ic post built s Heq Hb. by eapply wp_build_operation.
  - cbn [app]. intros built s (Hu & items & Hf & -> & Hh). auto.
Qed.

(** ** The first journal *)
Lemma untouched_idle items s : items_for items -> untouched s -> Idle items s.
Proof using Hadm.
  intros Hi Hu. pose proof (items_cells _ _ _ items Hi) as Hc. destruct (adm_journal _ _ _ _ Hadm) as (HnJ & HdJ & HfJ & HfS).
  assert (forall q, q ∈ J :: JS :: footprint -> s !! q = fs0 !! q) as Hsame.
  { intros q Hq. destruct (Hu q) as [?|(_ & _ & ?)]; done. }
  split; [|split].
  - split; [left; rewrite Hsame; [done|right; by left] |]. split; [by apply dirs_untouched|].
    intros q Hq. destruct (Hu q) as [?|(? & ? & _)]; auto.
  - rewrite Hsame; [done|by left].
  - intros it Hin. destruct Hi as [Hf _]. apply list_elem_of_lookup in Hin as [k Hk].
    destruct (Forall2_lookup_r _ _ _ _ _ Hf Hk) as (ic & Hic & pid & inst & -> & _). apply list_elem_of_lookup_2 in Hic.
    assert (forall p, p ∈ cells (op_of nonce ic nobody) -> s !! p = fs0 !! p) as Hcell.
    { intros p Hp. apply Hsame. right. right. unfold footprint. apply list_elem_of_In, in_flat_map.
      exists ic. by rewrite <- !list_elem_of_In. }
    pose proof (fun p => adm_unused _ _ _ _ Hadm ic p Hic) as Hun. destruct ic as [i ch].
    assert (forall p, backup (op_of nonce (i, ch) nobody) = Some p \/ stage (op_of nonce (i, ch) nobody) = Some p -> s !! p = None) as Haux.
    { intros p Hp. rewrite Hcell; [by apply Hun|]. unfold cells. rewrite elem_of_cons, elem_of_app, !elem_of_option_list. tauto. }
    split; [split|].
    + apply Hcell. by left.
    + intros b Hb. apply Haux. by left.
    + intros p Hp. apply Haux. by right.
Qed.

Lemma rolled_prep it s : rolled it s -> item_prep it s.
Proof. intros [Hu Hg]. split; [intros p Hp; left; auto|by left]. Qed.

Lemma idle_replacing items s s' : items_for items -> Idle items s -> (forall it, it ∈ items -> item_home it s) ->
  replacing J (record nonce Prepared items) s s' ->
  (Idle items s' \/ Pending items s') /\ (s' !! J <> None -> Pending items s').
Proof using Hadm.
  intros Hi (Hb & Hn & Hr) Hh Hrep. pose proof (items_layout _ _ _ _ Hadm items Hi) as Hl.
  assert (base J fs0 items s') as Hb' by by eapply replacing_base.
  assert (forall it, it ∈ items -> rolled it s' /\ item_home it s') as Hall.
  { intros it Hin. destruct (replacing_agree J journal_normal items it _ s s' Hl Hin Hrep) as [Ha Hh'].
    split; [apply (rolled_local it s); auto|auto]. }
  destruct (replacing_journal J stage_distinct (record nonce Prepared items) _ s s' Hrep) as [HeJ|Hj]; [by left| |].
  - rewrite Hn in HeJ. split; [left|done]. split; [done|]. split; [done|]. intros it Hin. by apply Hall.
  - assert (Pending items s') as Hp; [|by auto]. split; [done|]. split; [done|]. intros it Hin.
    destruct (Hall it Hin). split; [by apply rolled_prep|done].
Qed.

(** ** The second journal *)
Lemma staging_replacing items s s' : items_for items -> items_for (map forget items) ->
  Staging J nonce fs0 items s -> (forall it, it ∈ items -> item_staged it s) ->
  replacing J (record nonce Prepared items) s s' ->
  (forall it, it ∈ items -> item_unapplied it s' /\ item_staged it s' /\ item_home it s') /\
  (Staging J nonce fs0 items s' \/ Pending items s') /\
  (journal_is J (record nonce Prepared items) s' -> Pending items s').
Proof using Hadm.
  intros Hi Hi0 [(Hb & Hj & Hpr) Hun] Hst Hrep. pose proof (items_layout _ _ _ _ Hadm items Hi) as Hl.
  pose proof (items_layout _ _ _ _ Hadm _ Hi0) as Hl0.
  assert (base J fs0 (map forget items) s') as Hb' by by eapply replacing_base.
  assert (forall it, it ∈ items -> item_unapplied it s' /\ item_staged it s' /\ item_home it s') as Hall.
  { intros it Hin. destruct (replacing_agree J journal_normal items it _ s s' Hl Hin Hrep) as [Ha Hh'].
    destruct (Hun it Hin). split; [apply (unapplied_local it s); auto|]. split; [apply (staged_local it s); auto|auto]. }
  assert (journal_is J (record nonce Prepared items) s' -> Pending items s') as Hpend.
  { intros Hj'. split; [|split; [done|] ].
    - destruct Hb' as (? & ? & Hf). split; [done|]. split; [done|]. intros q Hq. apply Hf.
      unfold control in *. by rewrite forget_cells.
    - intros it Hin. destruct (Hall it Hin) as (? & ? & ?). split; [by apply unapplied_prep|done]. }
  split; [done|]. split; [|done].
  destruct (replacing_journal J stage_distinct (record nonce Prepared (map forget items)) _ s s' Hrep) as [HeJ|Hj']; [by right|left|by right; auto].
  split; [|intros it Hin; by destruct (Hall it Hin) as (? & _ & ?)]. split; [done|]. split; [by eapply journal_is_same|].
  intros it0 (it & -> & Hin)%list_elem_of_fmap. destruct (Hall it Hin) as (Hu & Hs & Hh). split; [|done].
  apply forget_prep; [by apply Hi|by apply unapplied_prep|done].
Qed.

(** ** The whole run *)
Definition Reach s : Prop := exists items, items_for items /\ (Old items s \/ New items s).
Definition Refused (e : error) s : Prop := exists items, items_for items /\
  (Failed J nonce fs0 items e s \/ New items s /\ ~ plain e).
Lemma reach_old items s : items_for items -> Old items s -> Reach s.
Proof. intros ? ?. exists items. auto. Qed.
Lemma reach_pending items s : items_for items -> Pending items s -> Reach s.
Proof. intros ? ?. exists items. split; [done|]. left. by right. Qed.
Lemma refused_failed items e s : items_for items -> Failed J nonce fs0 items e s -> Refused e s.
Proof. intros ? ?. exists items. auto. Qed.
Lemma refused_reach e s : Refused e s -> Reach s.
Proof. intros (items & Hi & [ [? _]|[? _] ]); exists items; auto. Qed.
Lemma refused_quiet items e s : items_for items -> Quiet J nonce fs0 items s -> Refused e s.
Proof. intros ? ?. by eapply refused_failed, quiet_failed. Qed.
Lemma reach_quiet items s : items_for items -> Quiet J nonce fs0 items s -> Reach s.
Proof. intros ? [? _]. by eapply reach_old. Qed.
Hint Resolve reach_old reach_pending refused_failed refused_quiet reach_quiet : core.

Lemma wp_apply_phase items s (Q : unit -> nodes -> Prop) X D :
  (forall c n, read_call J c -> ~ may_fail ok c n) -> items_for items -> Pending items s ->
  (forall it, it ∈ items -> item_unapplied it s /\ item_staged it s /\ item_home it s) ->
  (forall s', Done J fs0 items s' -> Q tt s') ->
  (forall e s', Refused e s' -> faulty \/ obstacle -> X e s') -> (forall s', Reach s' -> D s') ->
  wp (apply_all J (map i_op items) (map i_op items) (finish_commit J (record nonce Committed items))) Q X D s.
Proof using Hadm.
  intros Hrel Hi Hpend Hall HQ HX HD. pose proof (items_layout _ _ _ _ Hadm items Hi) as Hl.
  pose proof Hl as (Hsep & _). destruct Hpend as (Hb & Hj & _).
  assert (forall s', outside items s s' -> (forall it, it ∈ items -> item_prep it s' /\ item_home it s') -> Pending items s') as Hstay.
  { intros s' Ho Hp. split; [by eapply base_outside|]. split; [|done].
    eapply journal_is_same; [|done]. by apply (outside_journal J items). }
  apply (wp_apply_all ok J items) with (s0 := s) (pre := []); [done| | | |done|done| |by intros it ?%elem_of_nil|].
  - intros s' Ho Hap. apply (wp_finish_commit J journal_normal stage_distinct nonce fs0 ok); [done|done| | |done| |].
    + apply Hstay; [done|]. intros it Hin. destruct (Hap it Hin). split; [|done]. apply applied_prep; [by apply Hi|done].
    + intros it Hin. by apply Hap.
    + intros e s2 H2 Hc. apply HX; [by exists items|]. destruct Hc as [?|Hc]; [by left|right; right; right]. eauto.
    + intros s2 H2. apply HD. by exists items.
  - intros e s' Ho Hp Hc. apply (wp_fail_with_rollback J journal_normal stage_distinct nonce fs0 ok items items); [done|done|done| |done| |].
    + intros s2 (Hp2 & Ho2 & Hu2). split; [apply Hstay; [by eapply outside_trans|done]|exact Hu2].
    + intros e' s2 H2 _. apply HX; [by eapply refused_failed|]. destruct Hc as [?|(it & Hin & ?)]; [by left|right; right; left]. eauto.
    + intros s2 H2 _. apply HD. by eapply reach_old.
  - intros s' Ho Hp. apply HD. eapply reach_pending; [done|auto].
  - intros it Hin. by apply Hall.
  - intros it Hin. by destruct (Hall it Hin) as (? & ? & _).
Qed.

(** From the last stage on. *)
Lemma wp_staged_phase items (k : io unit) s (Q : unit -> nodes -> Prop) X D :
  items_for items -> items_for (map forget items) ->
  Staging J nonce fs0 items s -> (forall it, it ∈ items -> item_staged it s) ->
  (forall s', Pending items s' -> (forall it, it ∈ items -> item_unapplied it s' /\ item_staged it s' /\ item_home it s') ->
     wp k Q X D s') ->
  (forall e items' s', items_for items' -> Quiet J nonce fs0 items' s' -> faulty \/ obstacle -> X e s') ->
  (forall items' s', items_for items' -> Quiet J nonce fs0 items' s' -> D s') ->
  wp (written ← attempt (write_journal J (record nonce Prepared items));
      match written with
      | inr e => fail_with_rollback J (map i_op items) e
      | inl _ => k
      end) Q X D s.
Proof using Hadm.
  intros Hi Hi0 Hst Hstg Hk HX HD. pose proof Hst as [( (Hown & Hd & _) & Hj & _) _].
  pose proof (items_layout _ _ _ _ Hadm items Hi) as Hl. pose proof (items_layout _ _ _ _ Hadm _ Hi0) as Hl0.
  pose proof (fun s3 => staging_replacing items s s3 Hi Hi0 Hst Hstg) as Hrep.
  apply wp_bind, wp_attempt, (wp_write_journal ok J journal_normal stage_distinct); [done|done| | | |].
  - right. destruct Hj as (b & id & m & _ & Hs2). eauto.
  - intros bytes Henc. destruct (Hrep (replaced J bytes s)) as (Hall & _ & Hp); [right; eauto|].
    apply Hk; [|done]. apply Hp. eexists _, _, _. split; [done|]. unfold replaced. by rewrite lookup_insert_eq.
  - intros e s3 H3 Hc. destruct (Hrep s3 H3) as (Hall & Hcase & _).
    assert (faulty \/ obstacle) as Hcause.
    { destruct Hc as [?|Hc]; [by left|right; right; right]. by exists items, Prepared. }
    destruct Hcase as [Hst3|Hp3].
    + apply (wp_fail_staging J journal_normal stage_distinct nonce fs0 ok); [done|by destruct Hl|done| |eauto|eauto].
      intros it Hin. destruct (Hall it Hin) as (? & ? & ?). by apply unapplied_prep.
    + assert (forall it, it ∈ items -> item_unapplied it s3) as Hun3 by (intros it Hin; by apply Hall).
      apply (wp_fail_with_rollback J journal_normal stage_distinct nonce fs0 ok items items);
        [by destruct Hl|done|by apply Hp3| |done| |].
      * intros s4 H4. split; [by eapply pending_still|by destruct H4 as (_ & _ & ?)].
      * intros e' s4 [Ho _] Hkp. apply (HX e' items); [done| |done]. by eapply kept_quiet.
      * intros s4 Ho Hkp. apply (HD items); [done|]. by eapply kept_quiet.
  - intros s3 H3. destruct (Hrep s3 H3) as (Hall & [ [Hst3 _]|Hp3] & _).
    + apply (HD (map forget items)); [done|]. split; [by right|]. intros it0 (it & -> & Hin)%list_elem_of_fmap. by apply (Hall it).
    + apply (HD items); [done|]. split; [by right|]. intros it Hin. by apply Hall.
Qed.

(** Up to the first journal nothing is touched but the journal's own files. *)
Lemma first_journal items s s' : items_for items -> Idle items s -> (forall it, it ∈ items -> item_home it s) ->
  replacing J (record nonce Prepared items) s s' ->
  (forall it, it ∈ items -> rolled it s') /\ Quiet J nonce fs0 items s'.
Proof using Hadm.
  intros Hi Hidle Hh Hrep. destruct (idle_replacing items s s' Hi Hidle Hh Hrep) as [Hold _].
  assert (forall it, it ∈ items -> rolled it s') as Hr.
  { intros it Hin. destruct (replacing_agree J journal_normal items it _ s s' (items_layout _ _ _ _ Hadm items Hi) Hin Hrep) as [Ha _].
    apply (rolled_local it s); [done|]. by apply Hidle. }
  split; [done|]. split; [done|]. intros it Hin. by apply Hr.
Qed.

Lemma wp_commit : (forall c n, read_call J c -> ~ may_fail ok c n) ->
  wp (commit J changes nonce) (fun _ s => exists items, items_for items /\ Done J fs0 items s)
    (fun e s => Refused e s /\ (faulty \/ obstacle)) Reach fs0.
Proof using Hadm.
  intros Hrel. pose proof (unbuilt_builds nonce fs0 changes) as Hub.
  destruct (builds_for _ _ _ _ Hadm _ Hub) as (Hui & _).
  unfold commit. apply wp_bind, wp_build.
  2: { intros e s Hs Hc. split; [|done]. eapply refused_failed; [exact Hui|]. by apply idle_failed, untouched_idle. }
  2: { intros s Hs. eapply reach_old; [exact Hui|left; by apply untouched_idle]. }
  intros items s Hb Hs Hh. destruct (builds_for _ _ _ _ Hadm _ Hb) as (Hi & Hforget & Hinst).
  pose proof (untouched_idle items s Hi Hs) as Hidle. pose proof (items_layout _ _ _ _ Hadm items Hi) as Hl.
  pose proof Hidle as ( (Hown & Hd & _) & Hn & _). rewrite map_map. cbn [fst staging_input].
  pose proof (fun s' => first_journal items s s' Hi Hidle Hh) as Hfirst.
  apply wp_bind. apply (wp_write_journal ok J journal_normal stage_distinct); [done|done|by left| | |].
  2: { intros e s' Hrep Hc. split; [by eapply refused_quiet; [|by apply Hfirst] |]. destruct Hc; [by left|right; right; right].
       by exists items, Prepared. }
  2: { intros s' Hrep. eapply reach_quiet; [done|]. by apply Hfirst. }
  intros bytes Henc. set (s1 := replaced J bytes s).
  assert (replacing J (record nonce Prepared items) s s1) as Hrep1 by (right; eauto).
  destruct (idle_replacing items s s1 Hi Hidle Hh Hrep1) as [_ Hp1].
  assert (Pending items s1) as Hpend1 by (apply Hp1; unfold s1, replaced; by rewrite lookup_insert_eq).
  destruct (Hfirst s1 Hrep1) as [Hroll1 _].
  change [] with (map i_op []). apply (wp_write_stages J journal_normal stage_distinct nonce fs0 ok items); [done| | | | | | |by intros it ?%elem_of_nil|].
  - intros items' s2 Hf' Hsep' Hst' Hstg'. assert (items_for items') as Hi' by by eapply staged_for.
    rewrite <- Hf' in Hi. apply wp_staged_phase; [done|done|done|done| |eauto|eauto].
    intros s3 Hp3 Hall3. apply wp_apply_phase; [done|done|done|done| |done|done]. eauto.
  - eauto.
  - eauto.
  - cbn [app]. done.
  - cbn [app]. by destruct Hl.
  - cbn [app]. split; [by rewrite Hforget|]. intros it Hin. split; [by apply Hroll1|]. by apply Hpend1.
  - intros it Hin. split; [auto|]. by apply Hroll1.
Qed.
End run.

(** ** Statements *)
Definition state_after {A} (r : outcome error A * nodes * list (syscall -> verdict)) : nodes := snd (fst r).
Definition result_of {A} (r : outcome error A * nodes * list (syscall -> verdict)) : outcome error A := fst (fst r).

(** No call that reading the journal makes fails; it may still be the last. *)
Definition journal_readable (J : path) (v : syscall -> verdict) : Prop :=
  forall c n, read_call J c -> v c <> Fails n.

Section statements.
Context {O : Os_params} {H : Sha256} {K : JournalCodec}.
Implicit Types (s : nodes).

(** Recoveries one after the other, each with its own faults. *)
Fixpoint recoveries (J : path) (runs : list (list (syscall -> verdict))) s : nodes :=
  match runs with
  | [] => s
  | f :: runs => recoveries J runs (state_after (recover_if_needed J s f))
  end.

Context (J : path) (nonce : Z) (fs0 : nodes) (changes : list PlannedChange).
Abbreviation items_for := (items_for nonce fs0 changes).

(** The target of a change has not been touched, or is as desired. *)
Definition left_alone s (ch : PlannedChange) : Prop := s !! change_path ch = fs0 !! change_path ch.
Definition made s (ch : PlannedChange) : Prop :=
  match desired ch with
  | Write contents mode => exists id, s !! change_path ch = Some (Reg id contents mode)
  | Remove => s !! change_path ch = None
  end.
(** The target is what it was when the change was planned. *)
Definition current_change (ch : PlannedChange) : Prop :=
  exists r, node_measure u64_max (fs0 !! change_path ch) = Some r /\
  snapshot_matches r (change_original ch) (change_original_digest ch) (change_original_mode ch) = true.

(** Nothing of the transaction is left, and no other file has changed. *)
Definition tidy s : Prop :=
  s !! J = None /\
  (forall ic p, ic ∈ enumerate_from 0 changes ->
     backup (op_of nonce ic nobody) = Some p \/ stage (op_of nonce ic nobody) = Some p -> s !! p = None) /\
  (forall q, q ∉ J :: stage_of J :: footprint nonce changes ->
     s !! q = fs0 !! q \/ (fs0 !! q = None /\ is_dir s q)).
Definition all_old s : Prop := (forall ch, ch ∈ changes -> left_alone s ch) /\ tidy s.
Definition all_new s : Prop := (forall ch, ch ∈ changes -> made s ch /\ current_change ch) /\ tidy s.

Context (Hadm : admissible J nonce fs0 changes).

Lemma item_for items ic : items_for items -> ic ∈ enumerate_from 0 changes ->
  exists pid inst, set_item inst (item_of nonce fs0 ic pid) ∈ items.
Proof.
  intros [Hf _] [k Hk]%list_elem_of_lookup. destruct (Forall2_lookup_l _ _ _ _ _ Hf Hk) as (it & Hit & pid & inst & -> & _).
  exists pid, inst. by eapply list_elem_of_lookup_2.
Qed.

Lemma change_for items ch : items_for items -> ch ∈ changes ->
  exists i pid inst, set_item inst (item_of nonce fs0 (i, ch) pid) ∈ items.
Proof.
  intros Hi Hc. rewrite <- (enumerate_snd changes 0) in Hc. apply list_elem_of_fmap in Hc as ([i ch'] & -> & Hin).
  exists i. by apply item_for.
Qed.

Lemma framed_tidy items s : items_for items -> framed J fs0 items s ->
  forall q, q ∉ J :: stage_of J :: footprint nonce changes -> s !! q = fs0 !! q \/ (fs0 !! q = None /\ is_dir s q).
Proof. intros Hi Hf q Hq. apply Hf. unfold control. by rewrite (items_cells _ _ _ _ Hi). Qed.

Lemma idle_all_old items s : items_for items -> Idle J fs0 items s -> all_old s.
Proof.
  intros Hi ( (_ & _ & Hf) & Hn & Hr). split; [|split; [done|split; [|by eapply framed_tidy] ] ].
  - intros ch Hc. destruct (change_for items ch Hi Hc) as (i & pid & inst & Hin). by destruct (Hr _ Hin) as [ [Ht _] _].
  - intros [i ch] p Hic Hp. destruct (item_for items (i, ch) Hi Hic) as (pid & inst & Hin).
    destruct (Hr _ Hin) as [ [_ Hb] Hg]. destruct Hp; [by apply Hb|by apply Hg].
Qed.

Lemma done_all_new items s : items_for items -> Done J fs0 items s -> all_new s.
Proof.
  intros Hi ( (_ & _ & Hf) & Hn & Hr). split; [|split; [done|split; [|by eapply framed_tidy] ] ].
  - intros ch Hc. destruct (change_for items ch Hi Hc) as (i & pid & inst & Hin). destruct (Hr _ Hin) as [(Hok & Ht & _) _].
    split; [|exact Hok]. unfold target_desired in Ht. unfold made. cbn [set_item item_of i_after i_op snd] in Ht.
    destruct (desired ch) as [c m|]; [|exact Ht]. destruct Ht as (id & _ & Ht). by exists id.
  - intros [i ch] p Hic Hp. destruct (item_for items (i, ch) Hi Hic) as (pid & inst & Hin).
    destruct (Hr _ Hin) as [(_ & _ & Hg & _) Hb]. destruct Hp; [by apply Hb|by apply Hg].
Qed.

(** ** Runs *)
Lemma reliable_reads (f : list (syscall -> verdict)) : Forall (journal_readable J) f ->
  forall c n, read_call J c -> ~ may_fail (journal_readable J) c n.
Proof. intros _ c n Hc (v & Hv & E). by apply (Hv c n Hc). Qed.

Lemma commit_reach f : Forall (journal_readable J) f ->
  result_of (commit J changes nonce fs0 f) <> Panicked /\
  Reach J nonce fs0 changes (state_after (commit J changes nonce fs0 f)) /\
  (result_of (commit J changes nonce fs0 f) = Ret tt -> all_new (state_after (commit J changes nonce fs0 f))) /\
  (forall e, result_of (commit J changes nonce fs0 f) = Throw e -> plain e ->
     forall ch, ch ∈ changes -> left_alone (state_after (commit J changes nonce fs0 f)) ch).
Proof using Hadm.
  intros Hf. pose proof (wp_run _ _ _ _ _ _ f (wp_commit J nonce fs0 changes Hadm _ (reliable_reads f Hf)) Hf) as Hrun.
  unfold result_of, state_after. destruct (commit J changes nonce fs0 f) as [ [ [ []|e| |] s] f']; cbn in *; [| | |done].
  - destruct Hrun as (items & Hi & Hd). split_and!; [done| |intros _; by eapply done_all_new|done].
    exists items. split; [done|]. right. by right.
  - destruct Hrun as [Href _]. split_and!; [done|by eapply refused_reach|done|]. intros e' [= <-] Hplain ch Hc.
    destruct Href as (items & Hi & [ [_ Hun]|[_ ?] ]); [|done].
    destruct (change_for items ch Hi Hc) as (i & pid & inst & Hin). by destruct (Hun Hplain _ Hin) as [Ht _].
  - by destruct Hrun as [? _].
Qed.

Lemma recover_reach s f : Reach J nonce fs0 changes s ->
  Reach J nonce fs0 changes (state_after (recover_if_needed J s f)) /\
  (forall oc, result_of (recover_if_needed J s f) = Ret oc ->
     let s' := state_after (recover_if_needed J s f) in all_old s' \/ all_new s') /\
  result_of (recover_if_needed J s f) <> Panicked.
Proof using Hadm.
  intros (items & Hi & Hcase). pose proof (journal_normal J nonce fs0 changes Hadm) as HJ.
  pose proof (stage_distinct J nonce fs0 changes Hadm) as HJS.
  pose proof (items_layout _ _ _ _ Hadm items Hi) as Hl. pose proof (items_valid _ _ _ _ Hadm items Hi) as Hv.
  assert (wp any_fault (recover_if_needed J) (fun _ s' => Idle J fs0 items s' \/ Done J fs0 items s')
    (fun _ s' => Old J nonce fs0 items s' \/ New J nonce fs0 items s')
    (fun s' => Old J nonce fs0 items s' \/ New J nonce fs0 items s') s) as Hwp.
  { destruct Hcase as [Hold|Hnew]; [eapply (wp_recover_old J); eauto|eapply wp_recover_new; eauto]. }
  apply (wp_run _ _ _ _ _ _ f) in Hwp; [|apply any_fault_all]. unfold result_of, state_after.
  destruct (recover_if_needed J s f) as [ [ [oc|e| |] s'] f']; cbn in *; [| | |done].
  - split; [|split; [|done] ].
    + exists items. split; [done|]. destruct Hwp; [left; by left|right; by right].
    + intros _ _. destruct Hwp; [left; by eapply idle_all_old|right; by eapply done_all_new].
  - split; [by exists items|]. by split.
  - split; [by exists items; destruct Hwp|]. by split.
Qed.

Lemma recoveries_reach runs : forall s, Reach J nonce fs0 changes s -> Reach J nonce fs0 changes (recoveries J runs s).
Proof using Hadm.
  induction runs as [|f runs IH]; intros s Hs; [done|]. cbn. apply IH. by apply recover_reach.
Qed.

(** ** Undisturbed runs *)
Definition encodable : Prop := forall items st, items_for items -> is_Some (to_vec (record nonce st items)).

Lemma current_items : (forall ch, ch ∈ changes -> current_change ch) ->
  forall items it, items_for items -> it ∈ items -> item_ok it.
Proof.
  intros Hcur items it [Hf _] [k Hk]%list_elem_of_lookup.
  destruct (Forall2_lookup_r _ _ _ _ _ Hf Hk) as ([i ch] & Hic & pid & inst & -> & _).
  apply list_elem_of_lookup_2, enumerate_elem in Hic as [_ Hc]. exact (Hcur ch Hc).
Qed.

Lemma commit_calm : (forall ch, ch ∈ changes -> dirs fs0 (change_path ch) /\ current_change ch) -> encodable ->
  result_of (commit J changes nonce fs0 []) = Ret tt /\ all_new (state_after (commit J changes nonce fs0 [])).
Proof using Hadm.
  intros Hch Henc. pose proof (wp_commit J nonce fs0 changes Hadm calm (fun c n _ Hf => calm_not_faulty (may_fail_faulty _ c n Hf))) as Hwp.
  apply (wp_run _ _ _ _ _ _ []) in Hwp; [|constructor]. unfold result_of, state_after.
  destruct (commit J changes nonce fs0 []) as [ [ [ []|e| |] s] f']; cbn in *.
  - destruct Hwp as (items & Hi & Hd). split; [done|]. by eapply done_all_new.
  - destruct Hwp as [_ [F|[(ch & Hc & Hno)|[(items & it & Hi & Hin & Hno)|(items & st & Hi & Hno)] ] ] ]; exfalso.
    + by apply calm_not_faulty in F.
    + by apply Hno, Hch.
    + apply Hno. eapply current_items; [|done|done]. intros ch Hc. by apply Hch.
    + destruct (Henc items st Hi) as [? ?]. congruence.
  - by destruct Hwp as [_ ?%calm_not_faulty].
  - done.
Qed.

(** After one undisturbed recovery nothing is left to roll back. *)
Definition Settled s : Prop := exists items, items_for items /\
  ((Old J nonce fs0 items s /\ forall it, it ∈ items -> rolled it s) \/ Done J fs0 items s).

Lemma recover_calm s : (forall ch, ch ∈ changes -> current_change ch) -> Reach J nonce fs0 changes s ->
  Settled (state_after (recover_if_needed J s [])) /\
  (Settled s -> exists oc, result_of (recover_if_needed J s []) = Ret oc).
Proof using Hadm.
  intros Hcur (items & Hi & Hcase). pose proof (journal_normal J nonce fs0 changes Hadm) as HJ.
  pose proof (stage_distinct J nonce fs0 changes Hadm) as HJS. pose proof (current_items Hcur) as Hok.
  pose proof (fun items Hi => items_layout _ _ _ _ Hadm items Hi) as Hl.
  pose proof (fun items Hi => items_valid _ _ _ _ Hadm items Hi) as Hv.
  assert (forall Q (X : error -> nodes -> Prop) (D : nodes -> Prop), wp calm (recover_if_needed J) Q X D s ->
    match recover_if_needed J s [] with (Ret a, s', _) => Q a s' | (Throw e, s', _) => X e s' | _ => False end) as Hrun.
  { intros Q X D Hwp. apply (wp_run _ _ _ _ _ _ []) in Hwp; [|constructor].
    destruct (recover_if_needed J s []) as [ [ [a|e| |] s'] f']; [done|done| |done]. by destruct Hwp as [_ ?%calm_not_faulty]. }
  unfold result_of, state_after. split.
  - assert (wp calm (recover_if_needed J) (fun _ => Settled) (fun _ => Settled) (fun _ => True) s) as Hwp%Hrun.
    { destruct Hcase as [Hold|Hnew].
      - eapply wp_recover_old; eauto.
        + intros _ s' Hs. exists items. split; [done|left]. split; [by left|]. by destruct Hs as (_ & _ & ?).
        + intros e s' Hs _ [_ Hr]. exists items. split; [done|left]. split; [done|].
          apply Hr; [apply calm_not_faulty|]. intros it Hin. by eapply Hok.
      - eapply wp_recover_new; eauto.
        + intros _ s' Hs. exists items. split; [done|by right].
        + intros e s' _ F. by apply calm_not_faulty in F. }
    by destruct (recover_if_needed J s []) as [ [ [a|e| |] s'] f'].
  - intros (items' & Hi' & Hset).
    assert (wp calm (recover_if_needed J) (fun _ _ => True) (fun _ _ => False) (fun _ => True) s) as Hwp%Hrun.
    { destruct Hset as [ [Hold Hr]|Hdone].
      - eapply wp_recover_old; eauto. intros e s' _ _ [Hcause _]. destruct Hcause as [F|[(it & Hin & Hno)|(it & Hin & Hno)] ].
        + by apply calm_not_faulty in F.
        + by eapply Hno, Hok.
        + by apply Hno, Hr.
      - eapply wp_recover_new; [done|done|by apply Hl|by apply Hv|by right|done| |done].
        intros e s' _ F. by apply calm_not_faulty in F. }
    destruct (recover_if_needed J s []) as [ [ [a|e| |] s'] f']; [by eexists|done..].
Qed.
End statements.
