(* ===== verification/DurableSet.v ===== *)
(** * DurableSet: staging a set of file changes

    Models [crates/aros-common/src/publication/transaction.rs] and the names of
    journals and locks in [publication.rs].  The staging methods mutate the set
    even when they return an error, so a method yields the set it leaves
    together with its result. *)

From stdpp Require Import gmap.
From S2P Require Import Prelude Text Digest Publication Ordered CrashIO FileSystem Journal Transaction.

(** ** The order of paths

    [Path] is compared by its components; root, [.] and [..] come before the
    names, which are compared by their bytes. *)
Definition component_rank (c : component) : Z :=
  match c with RootDir => 1 | CurDir => 2 | ParentDir => 3 | Normal _ => 4 end.
Definition component_ltb (a b : component) : bool :=
  match a, b with
  | Normal x, Normal y => str_ltb x y
  | _, _ => component_rank a <? component_rank b
  end.
Fixpoint path_ltb (a b : path) : bool :=
  match a, b with
  | _, [] => false
  | [], _ :: _ => true
  | x :: a, y :: b => component_ltb x y || (bool_decide (x = y) && path_ltb a b)
  end.

#[global] Instance component_order : StrictOrd component_ltb.
Proof.
  split.
  - intros [| | |x]; try done. apply (ltb_irrefl (ltb := str_ltb)).
  - intros [| | |x] [| | |y] [| | |z]; cbn; try done. apply (ltb_trans (ltb := str_ltb)).
  - intros [| | |x] [| | |y]; cbn; try done. intros H1 H2. f_equal. by apply (ltb_total (ltb := str_ltb)).
Qed.

#[global] Instance path_order : StrictOrd path_ltb.
Proof.
  split.
  - induction a as [|x a IH]; cbn; [done|]. by rewrite ltb_irrefl, IH, andb_false_r.
  - induction a as [|x a IH]; intros [|y b] [|z c]; cbn; try done.
    rewrite !orb_true_iff, !andb_true_iff, !bool_decide_eq_true.
    intros [Hxy|[-> H1] ] [Hyz|[-> H2] ]; [left; by eapply ltb_trans|by left..|]. right. split; [done|]. by eapply IH.
  - induction a as [|x a IH]; intros [|y b]; cbn; try done.
    rewrite !orb_false_iff, !andb_false_iff, !bool_decide_eq_false. intros [Hxy H1] [Hyx H2].
    assert (x = y) as -> by by apply (ltb_total (ltb := component_ltb)). f_equal. apply IH; naive_solver.
Qed.

(** ** Journals and locks *)
Section names.
Context {H : Sha256}.

Definition utf8_leaf (p : path) (at_site : site) : res error (list Z) :=
  leaf ← ok_or (leaf_of p) (Failure InvalidInput at_site);
  ok_or (from_utf8 leaf) (Failure InvalidInput at_site).
Definition portable (name : list Z) : res error (list Z) :=
  map_err (fun _ => Failure InvalidInput NonPortableName) (portable_output_name name).

Definition validate_target_leaf (p : path) : res error unit :=
  leaf ← utf8_leaf p NoFileName;
  _ ← portable leaf;
  Ok tt.

(** The name holds only ASCII characters, so its bytes are its characters. *)
Definition publication_journal_path (target : path) (purpose : list Z) : res error path :=
  parent ← ok_or (parent_of target) (Failure InvalidInput NoParentDirectory);
  leaf ← utf8_leaf target NoFileName;
  leaf ← portable leaf;
  _ ← portable purpose;
  let digest := sha256_bytes (to_ascii_lowercase leaf) in
  Ok (join_name parent (rs ".aros-" ++ purpose ++ rs "-" ++ take 32 digest ++ rs "-transaction.json")).

Definition LOCK_PREFIX : list Z := rs ".aros-lock-".
Definition LOCK_SUFFIX : list Z := rs "-0000000000000000".

Definition publication_journal_lock_path (journal : path) : res error path :=
  parent ← ok_or (parent_of journal) (Failure InvalidInput NoParentDirectory);
  leaf ← utf8_leaf journal NoFileName;
  let digest := sha256_bytes (utf8 leaf) in
  Ok (join_name parent (LOCK_PREFIX ++ take 16 digest ++ LOCK_SUFFIX)).

Definition is_publication_journal_lock_name (name : list Z) : bool :=
  match strip_prefix LOCK_PREFIX name ≫= strip_suffix LOCK_SUFFIX with
  | Some digest => (len (utf8 digest) =? 16)
                   && forallb (fun byte => is_ascii_digit byte || in_range 97 102 byte) (utf8 digest)
  | None => false
  end.
End names.

(** ** The set *)
Record DurableFileSet := mkSet {
  journal : path;
  scope : path;
  recovery : RecoveryOutcome;
  changes : list (path * PlannedChange);
  commit_marker : option PlannedChange;
  collision_keys : list (list Z * path);
}.
Definition with_changes (t : DurableFileSet) (c : list (path * PlannedChange)) : DurableFileSet :=
  mkSet (journal t) (scope t) (recovery t) c (commit_marker t) (collision_keys t).
Definition with_marker (t : DurableFileSet) (ch : PlannedChange) : DurableFileSet :=
  mkSet (journal t) (scope t) (recovery t) (changes t) (Some ch) (collision_keys t).
Definition with_keys (t : DurableFileSet) (k : list (list Z * path)) : DurableFileSet :=
  mkSet (journal t) (scope t) (recovery t) (changes t) (commit_marker t) k.

(** A method on [&mut self]. *)
Definition method (A : Type) : Type := DurableFileSet -> io (DurableFileSet * (A + error)).
#[global] Instance method_ret : MRet method := fun A a t => mret (t, inl a).
#[global] Instance method_bind : MBind method := fun A B k m t =>
  '(t', r) ← m t;
  match r with inl a => k a t' | inr e => mret (t', inr e) end.
Definition performing {A} (m : io A) : method A := fun t => r ← attempt m; mret (t, r).
Definition fallible {A} (c : res error A) : method A := performing (pure c).
Definition get : method DurableFileSet := fun t => mret (t, inl t).
Definition put (t' : DurableFileSet) : method unit := fun _ => mret (t', inl tt).

Section methods.
Context {O : Os_params} {H : Sha256}.

Definition validate_portable_mode (mode : Z) : res error unit :=
  ensure ((mode =? o644) || (mode =? o755)) (Failure InvalidInput NonPortableMode).

Definition register_target (p : path) : method unit :=
  t ← get;
  relative ← fallible (ok_or (strip_scope (scope t) p) (Failure PermissionDenied EscapesScope));
  key ← fallible (map_err (fun _ => Failure InvalidInput NonPortableName) (casefold_components relative));
  match bt_get key (collision_keys t) with
  | Some existing => fallible (ensure (bool_decide (existing = p)) (Failure AlreadyExists PortableCollision))
  | None => put (with_keys t (bt_put str_ltb key p (collision_keys t)))
  end.

Definition insert_change (p : path) (ch : PlannedChange) : method unit :=
  t ← get;
  if bool_decide ((change_path <$> commit_marker t) = Some p)
  then fallible (Err (Failure InvalidInput ConflictingMutation))
  else match bt_get p (changes t) with
       | Some existing =>
         fallible (ensure (bool_decide (desired existing = desired ch)) (Failure InvalidInput ConflictingMutation))
       | None => put (with_changes t (bt_put path_ltb p ch (changes t)))
       end.

(** The fields of a change that record what the target held. *)
Definition snapshot_change (p : path) (current : option snapshot) (d : DesiredState) : PlannedChange :=
  match current with
  | Some (identity, bytes, mode) => mkChange p (Some identity) (Some (sha256_bytes bytes)) (Some mode) d
  | None => mkChange p None None None d
  end.

Definition stage_write_inner (p : path) (contents : list Z) (mode : Z) (enforce_mode : bool) : method bool :=
  p ← performing (absolute_path p);
  _ ← register_target p;
  current ← performing (read_regular_with_mode p);
  if match current with
     | Some (_, bytes, current_mode) =>
       eqb_list bytes contents && (negb enforce_mode || (current_mode =? mode))
     | None => false
     end
  then mret false
  else
    _ ← insert_change p (snapshot_change p current (Write contents mode));
    mret true.

Definition stage_write (p : path) (contents : list Z) : method bool :=
  stage_write_inner p contents o644 false.
Definition stage_write_mode (p : path) (contents : list Z) (mode : Z) : method bool :=
  _ ← fallible (validate_portable_mode mode);
  stage_write_inner p contents mode true.

Definition stage_create_mode (p : path) (contents : list Z) (mode : Z) : method unit :=
  _ ← fallible (validate_portable_mode mode);
  p ← performing (absolute_path p);
  _ ← register_target p;
  current ← performing (read_regular_with_mode p);
  _ ← fallible (refuse (is_someb current) (Failure AlreadyExists TargetExists));
  insert_change p (mkChange p None None None (Write contents mode)).

Definition stage_remove (p : path) : method bool :=
  p ← performing (absolute_path p);
  _ ← register_target p;
  current ← performing (read_regular_with_mode p);
  match current with
  | None => mret false
  | Some (original, bytes, original_mode) =>
    _ ← insert_change p (mkChange p (Some original) (Some (sha256_bytes bytes)) (Some original_mode) Remove);
    mret true
  end.

Definition stage_commit_marker (p : path) (contents : list Z) : method unit :=
  p ← performing (absolute_path p);
  t ← get;
  _ ← fallible (refuse (is_someb (commit_marker t)) (Failure InvalidInput DuplicateMarker));
  _ ← fallible (refuse (is_someb (bt_get p (changes t))) (Failure InvalidInput ConflictingMutation));
  _ ← register_target p;
  current ← performing (read_regular_with_mode p);
  t ← get;
  put (with_marker t (snapshot_change p current (Write contents o644))).

Definition ordered_changes (c : list (path * PlannedChange)) (marker : option PlannedChange) : list PlannedChange :=
  map snd c ++ option_list marker.

(** ** Opening and committing *)
Definition lock_for_journal (journal : path) : io unit :=
  lock_path ← pure (publication_journal_lock_path journal);
  parent ← open_parent lock_path true;
  _ ← create_or_open (at_leaf parent) o600;
  flock (at_leaf parent).

Context {K : JournalCodec}.

Definition new (journal : path) : io DurableFileSet :=
  journal ← absolute_path journal;
  scope ← pure (ok_or (parent_of journal) (Failure InvalidInput NoContainmentScope));
  _ ← lock_for_journal journal;
  recovery ← recover_if_needed journal;
  mret (mkSet journal scope recovery [] None []).

(** The receipt carries the recovery that opening the set performed. *)
Definition commit_set (nonce : Z) (t : DurableFileSet) : io PublicationReceipt :=
  match changes t, commit_marker t with
  | [], None => mret (mkReceipt (recovery t))
  | _, _ =>
    _ ← commit (journal t) (ordered_changes (changes t) (commit_marker t)) nonce;
    mret (mkReceipt (recovery t))
  end.
End methods.
