(* ===== verification/DurableSpecs.v ===== *)
(** * DurableSpecs: the invariant of a staged set

    Whatever methods are called and however they fail, the set keeps one change
    per path, no two changes collide on a case-insensitive host, every change
    records what its target holds, and staging never touches the disk. *)

From stdpp Require Import gmap.
From S2P Require Import Prelude Text Digest Publication Ordered CrashIO FileSystem FileSpecs Journal JournalSpecs.
From S2P Require Import Transaction Rollback Apply FileSet CrashSafety Commit AllOrNothing DurableSet.

(** A call of one of the staging methods; [run_call] forgets its result. *)
Inductive stage_call :=
| StageWrite (p : path) (contents : list Z)
| StageWriteMode (p : path) (contents : list Z) (mode : Z)
| StageCreateMode (p : path) (contents : list Z) (mode : Z)
| StageRemove (p : path)
| StageCommitMarker (p : path) (contents : list Z).

(** Contents are a [&[u8]], at most [isize::MAX] bytes. *)
Definition call_contents (c : stage_call) : list Z :=
  match c with
  | StageWrite _ b | StageWriteMode _ b _ | StageCreateMode _ b _ | StageCommitMarker _ b => b
  | StageRemove _ => []
  end.

Section specs.
Context {O : Os_params} {H : Sha256}.
Implicit Types (t : DurableFileSet) (s : nodes) (ch : PlannedChange).

Definition left_by {A} (m : method A) t : io DurableFileSet := r ← m t; mret (fst r).
Definition run_call (c : stage_call) t : io DurableFileSet :=
  match c with
  | StageWrite p b => left_by (stage_write p b) t
  | StageWriteMode p b m => left_by (stage_write_mode p b m) t
  | StageCreateMode p b m => left_by (stage_create_mode p b m) t
  | StageRemove p => left_by (stage_remove p) t
  | StageCommitMarker p b => left_by (stage_commit_marker p b) t
  end.
Fixpoint run_calls (calls : list stage_call) t : io DurableFileSet :=
  match calls with
  | [] => mret t
  | c :: calls => t ← run_call c t; run_calls calls t
  end.

(** ** The invariant *)
Definition path_key (sc p : path) : option (list Z) :=
  relative ← strip_scope sc p;
  match casefold_components relative with Ok key => Some key | _ => None end.
Definition keyed t (p : path) : Prop :=
  exists key, path_key (scope t) p = Some key /\ bt_get key (collision_keys t) = Some p.
Definition planned_set t : list PlannedChange := ordered_changes (changes t) (commit_marker t).

Record staged_set s t : Prop := {
  set_journal : normal_path (journal t) /\ parent_of (journal t) = Some (scope t);
  set_sorted : sorted_keys path_ltb (changes t);
  set_paths : forall p ch, (p, ch) ∈ changes t -> change_path ch = p;
  set_changes : forall ch, ch ∈ planned_set t ->
    keyed t (change_path ch) /\ planned ch /\ current_change s ch;
  set_marker : forall ch, commit_marker t = Some ch -> bt_get (change_path ch) (changes t) = None;
}.

Lemma strip_scope_app sc p r : strip_scope sc p = Some r -> p = sc ++ r.
Proof.
  revert p. induction sc as [|c sc IH]; intros p; cbn; [by intros [= ->]|]. destruct p as [|c' p]; [done|].
  case_decide; [subst|done]. intros Hr%IH. by subst.
Qed.

(** What is keyed below a normalised scope is a normalised path. *)
Lemma keyed_normal s t p : staged_set s t -> keyed t p -> normal_path p.
Proof.
  intros Hs (key & Hk & _). destruct (set_journal _ _ Hs) as [(ds & l & Ej) Hpar].
  assert (scope t = RootDir :: map Normal ds) as Esc.
  { unfold parent_of in Hpar. rewrite Ej, app_comm_cons, last_snoc, removelast_last in Hpar. by injection Hpar. }
  unfold path_key in Hk. destruct (strip_scope (scope t) p) as [r|] eqn:Hr; [|done]. cbn in Hk.
  apply strip_scope_app in Hr as ->. destruct (casefold_components r) as [k| |] eqn:Hc; [|done..].
  apply casefold_components_relative in Hc as [Hn Hne]. rewrite Esc.
  assert (exists names, r = map Normal names) as [names ->].
  { clear -Hn. induction Hn as [|c r [n ->] _ [names ->] ]; [by exists []|]. by exists (n :: names). }
  destruct names as [|n names _] using rev_ind; [done|]. exists (ds ++ names), n. by rewrite !map_app, app_assoc.
Qed.

Lemma put_lookup_other {V} k (v : V) m k' : bt_get k m = None -> k' <> k ->
  bt_get k' (bt_put str_ltb k v m) = bt_get k' m.
Proof. intros Hn Hne. rewrite bt_get_put. by rewrite bool_decide_false. Qed.

Lemma keyed_more t key p q : bt_get key (collision_keys t) = None -> keyed t q ->
  keyed (with_keys t (bt_put str_ltb key p (collision_keys t))) q.
Proof.
  intros Hn (k & Hk & Hg). exists k. split; [done|]. cbn [with_keys collision_keys]. rewrite put_lookup_other; [done|done|].
  intros ->. congruence.
Qed.

Lemma staged_more s t key p : bt_get key (collision_keys t) = None -> staged_set s t ->
  staged_set s (with_keys t (bt_put str_ltb key p (collision_keys t))).
Proof.
  intros Hn [Hj Hso Hp Hc Hm]. split; try done. intros ch Hch. destruct (Hc ch Hch) as (Hk & ?).
  split; [by apply keyed_more|done].
Qed.

Lemma planned_set_elem t ch : ch ∈ planned_set t <-> (exists p, (p, ch) ∈ changes t) \/ commit_marker t = Some ch.
Proof.
  unfold planned_set, ordered_changes. rewrite elem_of_app, elem_of_option_list, list_elem_of_fmap.
  split; (intros [Hc|Hc]; [left|by right]).
  - destruct Hc as ([p ch'] & -> & Hc). by exists p.
  - destruct Hc as [p Hc]. by exists (p, ch).
Qed.

Lemma staged_insert s t p ch : staged_set s t -> change_path ch = p -> keyed t p -> planned ch -> current_change s ch ->
  (change_path <$> commit_marker t) <> Some p -> bt_get p (changes t) = None ->
  staged_set s (with_changes t (bt_put path_ltb p ch (changes t))).
Proof.
  intros [Hj Hso Hp Hc Hm] Hpath Hk Hpl Hcur Hmark Hnone.
  split; cbn [with_changes changes commit_marker]; [done|by apply (bt_put_sorted path_ltb)| | |].
  - intros q ch' [ [= -> ->]|Hin]%bt_put_elem; [done|by apply Hp].
  - intros ch' [ [q [ [= -> ->]|Hin]%bt_put_elem]|Hmk]%planned_set_elem; [by rewrite Hpath|apply Hc|apply Hc].
    + apply planned_set_elem. left. by exists q.
    + apply planned_set_elem. by right.
  - intros mk Hmk. rewrite bt_get_put. case_bool_decide as E; [|by apply Hm]. destruct Hmark. by rewrite Hmk, <- E.
Qed.

Lemma staged_mark s t ch : staged_set s t -> keyed t (change_path ch) -> planned ch -> current_change s ch ->
  bt_get (change_path ch) (changes t) = None -> staged_set s (with_marker t ch).
Proof.
  intros [Hj Hso Hp Hc Hm] Hk Hpl Hcur Hnone. split; [done|done|done| |]; cbn [with_marker changes commit_marker].
  - intros ch' [Hch|[= ->] ]%planned_set_elem; [|done]. apply Hc, planned_set_elem. by left.
  - by intros ch' [= <-].
Qed.

(** ** Methods *)
Context (ok : (syscall -> verdict) -> Prop) (s : nodes) (Htree : tree s).

(** [m] leaves the disk alone and the set sound, and [Q] when it succeeds. *)
Definition keeps {A} (m : method A) (Q : A -> DurableFileSet -> Prop) t : Prop :=
  wp ok (m t) (fun tr s' => s' = s /\ staged_set s (fst tr) /\ match snd tr with inl a => Q a (fst tr) | inr _ => True end)
    (fun _ _ => False) (fun s' => s' = s) s.

Lemma keeps_ret {A} (a : A) Q t : staged_set s t -> Q a t -> keeps (mret a) Q t.
Proof. intros Ht HQ. by apply wp_ret. Qed.
Lemma keeps_bind {A B} (m : method A) (k : A -> method B) Q t :
  keeps m (fun a t' => staged_set s t' -> keeps (k a) Q t') t -> keeps (m ≫= k) Q t.
Proof.
  intros Hm. unfold keeps, mbind, method_bind. apply wp_bind. eapply wp_mono; [exact Hm| |done|done].
  intros [t' r] s' (-> & Ht' & Hr). cbn in *. destruct r as [a|e]; [by apply Hr|]. by apply wp_ret.
Qed.
Lemma keeps_performing {A} (m : io A) (Q : A -> DurableFileSet -> Prop) t : staged_set s t ->
  wp ok m (fun a s' => s' = s /\ Q a t) (fun _ s' => s' = s) (fun s' => s' = s) s -> keeps (performing m) Q t.
Proof.
  intros Ht Hm. apply wp_bind, wp_attempt. eapply wp_mono; [exact Hm| | |done].
  - intros a s' [-> HQ]. by apply wp_ret.
  - intros e s' ->. by apply wp_ret.
Qed.
Lemma keeps_fallible {A} (c : res error A) (Q : A -> DurableFileSet -> Prop) t : staged_set s t -> c <> Stuck ->
  (forall a, c = Ok a -> Q a t) -> keeps (fallible c) Q t.
Proof. intros Ht Hc HQ. apply keeps_performing; [done|]. apply wp_pure; auto. Qed.
Lemma keeps_get Q t : staged_set s t -> Q t t -> keeps get Q t.
Proof. intros Ht HQ. by apply wp_ret. Qed.
Lemma keeps_put t' (Q : unit -> DurableFileSet -> Prop) t : staged_set s t' -> Q tt t' -> keeps (put t') Q t.
Proof. intros Ht HQ. by apply wp_ret. Qed.

Lemma keeps_absolute p (Q : path -> DurableFileSet -> Prop) t : staged_set s t -> (forall q, Q q t) ->
  keeps (performing (absolute_path p)) Q t.
Proof.
  intros Ht HQ. apply keeps_performing; [done|]. unfold absolute_path. destruct (path_is_absolute p); [by apply wp_ret|].
  apply wp_bind, wp_sys; [by apply wp_ret|done|done].
Qed.

Lemma keeps_register p (Q : unit -> DurableFileSet -> Prop) t : staged_set s t ->
  (forall t', keyed t' p -> changes t' = changes t -> commit_marker t' = commit_marker t -> journal t' = journal t -> Q tt t') ->
  keeps (register_target p) Q t.
Proof.
  intros Ht HQ. unfold register_target. apply keeps_bind, keeps_get; [done|]. intros _.
  apply keeps_bind, keeps_fallible; [done|not_stuck|]. intros rel Hrel%ok_or_Ok _.
  apply keeps_bind, keeps_fallible; [done|not_stuck|]. intros key Hkey%map_err_Ok _.
  assert (path_key (scope t) p = Some key) as Hpk by (unfold path_key; rewrite Hrel; cbn; by rewrite Hkey).
  destruct (bt_get key (collision_keys t)) as [existing|] eqn:Hg.
  - apply keeps_fallible; [done|not_stuck|]. intros [] He%ensure_Ok. bool_prop. subst existing.
    apply HQ; [|done..]. by exists key.
  - apply keeps_put; [by apply staged_more|]. apply HQ; [|done..]. exists key. split; [done|].
    cbn [with_keys collision_keys]. rewrite bt_get_put. by rewrite bool_decide_true.
Qed.

Lemma keeps_insert p ch (Q : unit -> DurableFileSet -> Prop) t : staged_set s t -> change_path ch = p -> keyed t p ->
  planned ch -> current_change s ch -> (forall t', Q tt t') -> keeps (insert_change p ch) Q t.
Proof.
  intros Ht Hpath Hk Hpl Hcur HQ. unfold insert_change. apply keeps_bind, keeps_get; [done|]. intros _.
  case_bool_decide as Hmark; [by apply keeps_fallible|].
  destruct (bt_get p (changes t)) as [existing|] eqn:Hg.
  - apply keeps_fallible; [done|not_stuck|]. by intros [] _.
  - apply keeps_put; [|done]. by apply staged_insert.
Qed.

Lemma keeps_read p (Q : option snapshot -> DurableFileSet -> Prop) t : staged_set s t -> keyed t p ->
  (forall r, measure s p = Some r -> Q r t) -> keeps (performing (read_regular_with_mode p)) Q t.
Proof using Htree.
  intros Ht Hk HQ. apply keeps_performing; [done|]. apply wp_read_probe; [by eapply keyed_normal|done| |done|done]. auto.
Qed.

(** The changes the methods plan. *)
Definition portable_mode (m : Z) : Prop := m = o644 \/ m = o755.
Lemma validate_portable_mode_Ok m u : validate_portable_mode m = Ok u -> portable_mode m.
Proof. intros Hm%ensure_Ok. unfold portable_mode. apply orb_true_iff in Hm as [?%Z.eqb_eq|?%Z.eqb_eq]; auto. Qed.

Lemma snapshot_current p r d : measure s p = Some r -> current_change s (snapshot_change p r d).
Proof.
  intros Hm. exists r. destruct r as [ [ [id b] m]|]; [|by split]. split; [done|]. cbn.
  by rewrite !bool_decide_true, Z.eqb_refl.
Qed.
Lemma measure_mode p id b m : measure s p = Some (Some (id, b, m)) -> 0 <= m <= o7777.
Proof.
  intros (m' & _ & ->)%measure_Some. change o7777 with (Z.ones 12). rewrite Z.land_ones by done.
  change (Z.ones 12) with (2 ^ 12 - 1). pose proof (Z.mod_pos_bound m' (2 ^ 12)). lia.
Qed.
Lemma snapshot_planned p r d : measure s p = Some r ->
  match d with Write b m => len b <= isize_max /\ portable_mode m | Remove => is_Some r end ->
  planned (snapshot_change p r d).
Proof.
  intros Hm Hd. unfold planned.
  assert (forall m, change_original_mode (snapshot_change p r d) = Some m -> 0 <= m <= o7777) as Hmode.
  { destruct r as [ [ [id b] m0]|]; cbn; [|done]. intros m [= <-]. by eapply measure_mode. }
  destruct r as [ [ [id b] m]|]; cbn [snapshot_change change_original change_original_digest desired];
    (split_and!; [by split; intros [? ?]; eauto|by split; intros [? ?]; eauto|exact Hmode|]).
  - destruct d as [c k|]; [|by eexists]. unfold isize_max, u64_max in *. destruct Hd. split; [lia|done].
  - destruct d as [c k|]; [|done]. unfold isize_max, u64_max in *. destruct Hd. split; [lia|done].
Qed.
Lemma snapshot_path p r d : change_path (snapshot_change p r d) = p.
Proof. by destruct r as [ [ [? ?] ?]|]. Qed.

Lemma keeps_stage_inner p b m enforce t : staged_set s t -> len b <= isize_max -> portable_mode m ->
  keeps (stage_write_inner p b m enforce) (fun _ _ => True) t.
Proof using Htree.
  intros Ht Hb Hm. unfold stage_write_inner. apply keeps_bind, keeps_absolute; [done|]. intros q _.
  apply keeps_bind, keeps_register; [done|]. intros t1 Hk _ _ _ Ht1.
  apply keeps_bind, keeps_read; [done|done|]. intros r Hr _.
  match goal with |- context [if ?c then _ else _] => destruct c end; [by apply keeps_ret|].
  apply keeps_bind, keeps_insert; [done|apply snapshot_path|done|by apply snapshot_planned|by apply snapshot_current|].
  intros t2 Ht2. by apply keeps_ret.
Qed.

Lemma keeps_create p b m t : staged_set s t -> len b <= isize_max ->
  keeps (stage_create_mode p b m) (fun _ _ => True) t.
Proof using Htree.
  intros Ht Hb. unfold stage_create_mode. apply keeps_bind, keeps_fallible; [done|unfold validate_portable_mode; not_stuck|].
  intros [] Hm%validate_portable_mode_Ok _. apply keeps_bind, keeps_absolute; [done|]. intros q _.
  apply keeps_bind, keeps_register; [done|]. intros t1 Hk _ _ _ Ht1.
  apply keeps_bind, keeps_read; [done|done|]. intros r Hr _.
  apply keeps_bind, keeps_fallible; [done|not_stuck|]. intros [] Hnone%refuse_Ok _.
  destruct r; [done|]. change (mkChange q None None None (Write b m)) with (snapshot_change q None (Write b m)).
  apply keeps_insert; [done|done|done|by apply snapshot_planned|by apply snapshot_current|done].
Qed.

Lemma keeps_remove p t : staged_set s t -> keeps (stage_remove p) (fun _ _ => True) t.
Proof using Htree.
  intros Ht. unfold stage_remove. apply keeps_bind, keeps_absolute; [done|]. intros q _.
  apply keeps_bind, keeps_register; [done|]. intros t1 Hk _ _ _ Ht1.
  apply keeps_bind, keeps_read; [done|done|]. intros [ [ [id b] m]|] Hr _; [|by apply keeps_ret].
  apply keeps_bind. change (mkChange q (Some id) (Some (sha256_bytes b)) (Some m) Remove)
    with (snapshot_change q (Some (id, b, m)) Remove).
  apply keeps_insert; [done|done|done|apply snapshot_planned; [done|by eexists]|by apply snapshot_current|].
  intros t2 Ht2. by apply keeps_ret.
Qed.

Lemma keeps_marker p b t : staged_set s t -> len b <= isize_max ->
  keeps (stage_commit_marker p b) (fun _ _ => True) t.
Proof using Htree.
  intros Ht Hb. unfold stage_commit_marker. apply keeps_bind, keeps_absolute; [done|]. intros q _.
  apply keeps_bind, keeps_get; [done|]. intros _.
  apply keeps_bind, keeps_fallible; [done|not_stuck|]. intros [] _ _.
  apply keeps_bind, keeps_fallible; [done|not_stuck|]. intros [] Hnone%refuse_Ok _.
  apply keeps_bind, keeps_register; [done|]. intros t1 Hk Hc Hm _ Ht1.
  apply keeps_bind, keeps_read; [done|done|]. intros r Hr _.
  apply keeps_bind, keeps_get; [done|]. intros _. apply keeps_put; [|done].
  apply staged_mark; rewrite ?snapshot_path; [done|done| |by apply snapshot_current|].
  - apply snapshot_planned; [done|]. split; [done|by left].
  - rewrite Hc. by destruct (bt_get q (changes t)).
Qed.

Lemma wp_left_by {A} (m : method A) t : keeps m (fun _ _ => True) t ->
  wp ok (left_by m t) (fun t' s' => s' = s /\ staged_set s t') (fun _ _ => False) (fun s' => s' = s) s.
Proof.
  intros Hm. apply wp_bind. eapply wp_mono; [exact Hm| |done|done]. intros [t' r] s' (-> & Ht & _). by apply wp_ret.
Qed.

Lemma wp_run_call c t : len (call_contents c) <= isize_max -> staged_set s t ->
  wp ok (run_call c t) (fun t' s' => s' = s /\ staged_set s t') (fun _ _ => False) (fun s' => s' = s) s.
Proof using Htree.
  intros Hc Ht. destruct c; cbn [run_call call_contents] in *; apply wp_left_by.
  - apply keeps_stage_inner; [done|done|by left].
  - unfold stage_write_mode. apply keeps_bind, keeps_fallible; [done|unfold validate_portable_mode; not_stuck|].
    intros [] Hm%validate_portable_mode_Ok _. by apply keeps_stage_inner.
  - by apply keeps_create.
  - by apply keeps_remove.
  - by apply keeps_marker.
Qed.

Lemma wp_run_calls calls : Forall (fun c => len (call_contents c) <= isize_max) calls -> forall t, staged_set s t ->
  wp ok (run_calls calls t) (fun t' s' => s' = s /\ staged_set s t') (fun _ _ => False) (fun s' => s' = s) s.
Proof using Htree.
  induction 1 as [|c calls Hc _ IH]; intros t Ht; cbn [run_calls]; [by apply wp_ret|].
  apply wp_bind. eapply wp_mono; [by apply wp_run_call| |done|done]. intros t' s' [-> Ht']. by apply IH.
Qed.

(** ** What the set gives to [commit] *)
Lemma planned_keys t : staged_set s t ->
  (forall ch, ch ∈ planned_set t -> normal_path (change_path ch) /\ planned ch) /\
  (forall ch, ch ∈ planned_set t -> is_Some (key_of (journal t) ch)) /\
  NoDup (map change_path (planned_set t)) /\ NoDup (omap (key_of (journal t)) (planned_set t)).
Proof.
  intros Ht. pose proof Ht as [ [Hn Hpar] Hso Hp Hc Hm].
  assert (forall ch, key_of (journal t) ch = path_key (scope t) (change_path ch)) as Hkey.
  { intros ch. unfold key_of. by rewrite Hpar. }
  assert (NoDup (map change_path (planned_set t))) as Hnd.
  { unfold planned_set, ordered_changes. rewrite map_app, map_map.
    replace (map (fun x => change_path (snd x)) (changes t)) with (changes t).*1.
    2: { apply list_fmap_ext. intros i [p ch] Hi. symmetry. apply Hp. by eapply list_elem_of_lookup_2. }
    apply NoDup_app. split; [by apply (sorted_keys_NoDup path_ltb)|]. split; [|destruct (commit_marker t); cbn; repeat constructor; by intros ?%elem_of_nil].
    intros p ([q ch] & -> & Hin)%list_elem_of_fmap (mk & E & Hmk%elem_of_option_list)%list_elem_of_fmap.
    specialize (Hm mk Hmk). cbn in *. rewrite <- E in Hm. pose proof (proj2 (bt_get_elem path_ltb _ _ _ Hso) Hin). congruence. }
  split; [|split; [|split; [done|] ] ].
  - intros ch Hch. destruct (Hc ch Hch) as (Hk & Hpl & _). split; [by eapply keyed_normal|done].
  - intros ch Hch. destruct (Hc ch Hch) as ( (k & Hk & _) & _). rewrite Hkey. by eexists.
  - assert (forall ch, ch ∈ planned_set t -> keyed t (change_path ch)) as Hkd by (intros ch Hch; by apply Hc).
    clear Hc. induction (planned_set t) as [|ch l IH]; [constructor|]. cbn [map] in Hnd. apply NoDup_cons in Hnd as [Hni Hnd].
    assert (NoDup (omap (key_of (journal t)) l)) as Hl by (apply IH; [done|intros; apply Hkd; by right]).
    cbn [omap list_omap]. destruct (key_of (journal t) ch) as [k|] eqn:E; [|done]. constructor; [|done].
    intros (ch' & Hin & E')%list_elem_of_omap. apply Hni.
    destruct (Hkd ch) as (k1 & Hk1 & Hg1); [by left|]. destruct (Hkd ch') as (k2 & Hk2 & Hg2); [by right|].
    rewrite Hkey in E, E'. rewrite Hk1 in E. rewrite Hk2 in E'. injection E as ->. injection E' as ->.
    rewrite Hg1 in Hg2. injection Hg2 as ->. apply list_elem_of_fmap. by exists ch'.
Qed.
End specs.

(** ** Committing a staged set *)
Definition opened (J : path) (rec : RecoveryOutcome) : DurableFileSet := mkSet J (removelast J) rec [] None [].

Section commits.
Context {O : Os_params} {H : Sha256} {K : JournalCodec}.
Implicit Types (t : DurableFileSet) (s : nodes).

Lemma opened_staged J rec s : normal_path J -> staged_set s (opened J rec).
Proof.
  intros HJ. split; [|constructor| | |done]; cbn.
  - split; [done|]. by apply normal_path_shape.
  - by intros p ch ?%elem_of_nil.
  - by intros ch ?%elem_of_nil.
Qed.

(** [t] is what the calls make of a set opened on the disk [s]. *)
Definition staged_by (J : path) (calls : list stage_call) s t : Prop :=
  exists rec f f', run_calls calls (opened J rec) s f = (Ret t, s, f').

Lemma staged_by_set J calls s t : normal_path J -> tree s -> Forall (fun c => len (call_contents c) <= isize_max) calls ->
  staged_by J calls s t -> staged_set s t.
Proof.
  intros HJ Ht Hc (rec & f & f' & E).
  pose proof (wp_run _ _ _ _ _ _ f (wp_run_calls any_fault s Ht calls Hc _ (opened_staged J rec s HJ)) (any_fault_all f)) as Hrun.
  rewrite E in Hrun. by destruct Hrun.
Qed.

(** What [commit] needs beside the set: the journal's directory is there and its
    names are free, no target is the directory of another or a name of the
    transaction, and the nonce leaves room for the indices. *)
Record room (J : path) (nonce : Z) s (chs : list PlannedChange) : Prop := {
  room_journal : dirs s J /\ s !! J = None /\ s !! stage_of J = None;
  room_distinct : NoDup (J :: stage_of J :: footprint nonce chs);
  room_antichain : forall p q, p ∈ J :: stage_of J :: footprint nonce chs ->
    q ∈ J :: stage_of J :: footprint nonce chs -> ~ under p q;
  room_unused : forall ic p, ic ∈ enumerate_from 0 chs ->
    backup (op_of nonce ic nobody) = Some p \/ stage (op_of nonce ic nobody) = Some p -> s !! p = None;
  room_nonce : 0 <= nonce /\ nonce + len chs <= u64_max;
}.

Lemma staged_admissible nonce s t : staged_set s t -> room (journal t) nonce s (planned_set t) ->
  admissible (journal t) nonce s (planned_set t).
Proof.
  intros Ht [ (Hd & HJ & HJS) Hdis Hant Hun Hn]. destruct (planned_keys s t Ht) as (Htg & Hkey & _ & Hnd).
  destruct (set_journal _ _ Ht) as [Hnp _]. by split.
Qed.

Lemma admissible_room J nonce s chs : admissible J nonce s chs -> room J nonce s chs.
Proof. intros [ (_ & ? & ? & ?) _ _ ? ? ? ?]. by split. Qed.

(** Paths of one length are not below each other. *)
Lemma antichain_by_length n (l : list path) : Forall (fun p => length p = n) l ->
  forall p q, p ∈ l -> q ∈ l -> ~ under p q.
Proof.
  rewrite Forall_forall. intros Hl p q Hp Hq [_ (r & Hr & E)].
  apply (f_equal length) in E. rewrite length_app, (Hl p Hp), (Hl q Hq) in E. destruct r; [done|cbn in E; lia].
Qed.

Lemma staged_current s t : staged_set s t -> forall ch, ch ∈ planned_set t -> current_change s ch.
Proof. intros Ht ch Hch. by apply (set_changes _ _ Ht). Qed.

Lemma start_reach J nonce s chs : admissible J nonce s chs -> Reach J nonce s chs s.
Proof.
  intros Hadm. destruct (builds_for _ _ _ _ Hadm _ (unbuilt_builds nonce s chs)) as (Hi & _).
  eexists. split; [exact Hi|]. left. left. apply (untouched_idle J nonce s chs Hadm); [done|]. intros q. by left.
Qed.

(** An empty set commits without touching the disk. *)
Lemma commit_set_run nonce t s f : 
  (planned_set t = [] /\ commit_set nonce t s f = (Ret (mkReceipt (recovery t)), s, f)) \/
  exists s' f', snd (fst (commit (journal t) (planned_set t) nonce s f)) = s' /\
    commit_set nonce t s f =
    (match fst (fst (commit (journal t) (planned_set t) nonce s f)) with
     | Ret _ => Ret (mkReceipt (recovery t)) | Throw e => Throw e | Crashed => Crashed | Panicked => Panicked end, s', f').
Proof.
  unfold commit_set. fold (planned_set t).
  assert (exists s' f', snd (fst (commit (journal t) (planned_set t) nonce s f)) = s' /\
    (_ ← commit (journal t) (planned_set t) nonce; mret (mkReceipt (recovery t))) s f =
    (match fst (fst (commit (journal t) (planned_set t) nonce s f)) with
     | Ret _ => Ret (mkReceipt (recovery t)) | Throw e => Throw e | Crashed => Crashed | Panicked => Panicked end, s', f')) as Hrun.
  { unfold mbind, IO_bind. destruct (commit (journal t) (planned_set t) nonce s f) as [ [ [ []|e| |] s'] f']; by exists s', f'. }
  destruct (changes t) as [|c cs] eqn:Ec; [|by right]. destruct (commit_marker t) eqn:Em; [by right|left].
  split; [|done]. unfold planned_set. by rewrite Ec, Em.
Qed.

Lemma empty_all_new J nonce s : s !! J = None -> all_new J nonce s [] s.
Proof.
  intros HJ. split; [by intros ch ?%elem_of_nil|]. split; [done|]. split; [by intros ic p ?%elem_of_nil|]. by left.
Qed.

Lemma commit_set_reach nonce t s f : staged_set s t -> room (journal t) nonce s (planned_set t) ->
  Forall (journal_readable (journal t)) f -> let r := commit_set nonce t s f in
  result_of r <> Panicked /\
  Reach (journal t) nonce s (planned_set t) (state_after r) /\
  (forall rec, result_of r = Ret rec -> rec = mkReceipt (recovery t) /\ all_new (journal t) nonce s (planned_set t) (state_after r)) /\
  (forall e, result_of r = Throw e -> plain e -> forall ch, ch ∈ planned_set t -> left_alone s (state_after r) ch).
Proof.
  intros Ht Hroom Hf. pose proof (staged_admissible nonce s t Ht Hroom) as Hadm. cbn zeta.
  destruct (commit_set_run nonce t s f) as [ [Ee Er]|(s' & f' & Es & Er)]; rewrite Er.
  - unfold result_of, state_after. cbn [fst snd]. split_and!; [done|by apply start_reach| |done].
    intros rec [= <-]. split; [done|]. rewrite Ee. apply empty_all_new. by apply Hroom.
  - destruct (commit_reach _ _ _ _ Hadm f Hf) as (Hp & Hreach & Hret & Hthrow). unfold result_of, state_after in *. cbn [fst snd].
    rewrite Es in *. destruct (fst (fst (commit _ _ _ _ _))) as [ []|e| |]; split_and!; try done.
    + intros rec [= <-]. split; [done|]. by apply Hret.
    + intros e' [= <-]. by apply Hthrow.
Qed.
End commits.
