(* ===== verification/Publish.v ===== *)
(** * Publish: publishing one file

    Models [publish_atomic_file] of [publication.rs] and
    [publish_file_noclobber] of [unix/mod.rs].  A no-clobber publication has no
    original to restore, so its journal is marked committed before the rename:
    recovery then only removes the stage and can never delete the published
    file. *)

From stdpp Require Import gmap.
From S2P Require Import Prelude Text Digest Publication Ordered CrashIO FileSystem Journal Transaction DurableSet.

Section publish.
Context {O : Os_params} {H : Sha256} {K : JournalCodec}.

(** Renaming the stage over the absent target, with the checks that follow. *)
Definition install_noclobber (target : path) (parent stage : ParentHandle) (installed : FileIdentity)
  (expected_digest : list Z) : io unit :=
  _ ← rename_noclobber stage (leaf stage) parent (leaf parent);
  published ← read_regular_with_mode target;
  _ ← pure (ensure (match published with
                    | Some (identity, bytes, mode) => bool_decide (identity = installed)
                        && bool_decide (sha256_bytes bytes = expected_digest) && (mode =? o644)
                    | None => false
                    end) (other PublishedMismatch));
  _ ← test_fail_point (rs "file-after-rename-before-sync");
  fsync (fd parent).

(** After the committed journal: rename, clean up, remove the journal. *)
Definition release_noclobber (target journal stage_path : path) (parent : ParentHandle)
  (op : JournalOperation) (installed : FileIdentity) (expected_digest : list Z) : io unit :=
  stage ← open_parent stage_path false;
  result ← attempt (install_noclobber target parent stage installed expected_digest);
  match result with
  | inr e =>
    found ← attempt (identity_at parent (leaf parent));
    if bool_decide (match found with inl id => id | inr _ => None end = Some installed)
    then throw (io_uncertain RenamedUnsynced)
    else finish_cleanup_only_publication journal e
  | inl _ =>
    cleanup ← cleanup_committed [op];
    _ ← pure (refuse (nonempty cleanup) (io_rollback CleanupIncomplete));
    current ← read_regular journal;
    current ← pure (ok_or current (io_rollback JournalDisappeared));
    removed ← attempt (remove_journal journal (fst current));
    match removed with
    | inl _ => mret tt
    | inr _ => throw (io_rollback JournalNotRemoved)
    end
  end.

(** Everything after the target has been found absent. *)
Definition publish_absent (target journal : path) (parent : ParentHandle) (contents : list Z) (nonce : Z)
  : io unit :=
  let stage_path := join_name (handle_path parent) (sibling_name (leaf parent) (rs "stage") nonce) in
  let expected_digest := sha256_bytes contents in
  st ← fstat (fd parent);
  let op := mkOperation target (Some stage_path) None (st_identity st) None None None
              (Some expected_digest) (Some o644) None in
  _ ← write_journal journal (mkJournal SCHEMA_V3 nonce Prepared [op]);
  written ← attempt (write_new_file stage_path contents);
  match written with
  | inr e => fail_with_rollback journal [op] e
  | inl installed =>
    let op := with_installed op installed in
    updated ← attempt (write_journal journal (mkJournal SCHEMA_V3 nonce Prepared [op]));
    match updated with
    | inr e => fail_with_rollback journal [op] e
    | inl _ =>
      committed ← attempt (write_journal journal (mkJournal SCHEMA_V3 nonce Committed [op]));
      match committed with
      | inr e => finish_cleanup_only_publication journal e
      | inl _ => release_noclobber target journal stage_path parent op installed expected_digest
      end
    end
  end.

Definition publish_file_noclobber (target : path) (contents : list Z) (nonce : Z) : io PublicationReceipt :=
  journal ← pure (publication_journal_path target (rs "file"));
  _ ← lock_for_journal journal;
  recovery ← recover_if_needed journal;
  parent ← open_parent target true;
  present ← identity_at parent (leaf parent);
  _ ← pure (refuse (is_someb present) (Failure AlreadyExists TargetExists));
  _ ← publish_absent target journal parent contents nonce;
  mret (mkReceipt recovery).

(** The compare-and-swap precondition of [ReplaceIf]. *)
Definition cas_matches (measured : option (FileIdentity * list Z)) (identity : FileIdentity) (sha256 : list Z) : bool :=
  match measured with
  | Some (current, contents) => bool_decide (current = identity) && bool_decide (sha256_bytes contents = sha256)
  | None => false
  end.

Definition publish_atomic_file (target : path) (contents : list Z) (policy : AtomicFilePolicy) (nonce : Z)
  : io PublicationReceipt :=
  _ ← pure (validate_target_leaf target);
  target ← absolute_path target;
  _ ← test_fail_point (rs "path");
  match policy with
  | AtomicNoClobber => publish_file_noclobber target contents nonce
  | ReplaceIf identity sha256 =>
    journal ← pure (publication_journal_path target (rs "file"));
    transaction ← new journal;
    measured ← read_regular target;
    _ ← pure (ensure (cas_matches measured identity sha256) (io_conflict CasPrecondition));
    '(transaction, staged) ← stage_write target contents transaction;
    _ ← match staged with inl _ => mret tt | inr e => throw e end;
    measured ← read_regular target;
    _ ← pure (ensure (cas_matches measured identity sha256) (io_conflict CasChanged));
    commit_set nonce transaction
  end.
End publish.
