(* ===== verification/NoClobber.v ===== *)
(** * NoClobber: the proofs of one-file publication

    The journal of a no-clobber publication says committed before the rename;
    from then on recovery only removes the stage, and the target, absent or
    published, is never touched again.  The compare-and-swap publication measures
    the target under the lock, stages one change, measures again and commits the
    set of that change. *)

From stdpp Require Import gmap.
From S2P Require Import Prelude Text Digest Publication Ordered CrashIO FileSystem FileSpecs Journal JournalSpecs.
From S2P Require Import Transaction Rollback Apply FileSet CrashSafety Commit AllOrNothing DurableSet DurableSpecs Publish.

(** ** Recovery after the commit mark *)
Section released.
Context {O : Os_params} {H : Sha256} {K : JournalCodec}.
Context (J : path) (HJ : normal_path J) (HJS : stage_of J <> J) (nonce : Z) (fs0 : nodes).
Context (it : item) (stage_path : path).
Context (Hl : layout J [it]) (Hv : valid J nonce [it]) (Hok : item_ok it).
Context (Hback : backup (i_op it) = None) (Hstage : stage (i_op it) = Some stage_path).
Context (ok : (syscall -> verdict) -> Prop).
Abbreviation JS := (stage_of J).
Abbreviation T := (target (i_op it)).
Abbreviation Idle := (Idle J fs0 [it]).
Abbreviation Done := (Done J fs0 [it]).
Abbreviation wp := (wp ok).
Abbreviation faulty := (faulty ok).
Implicit Types (s : nodes) (X : error -> nodes -> Prop) (D : nodes -> Prop).

Definition Released s : Prop :=
  base J fs0 [it] s /\ journal_is J (record nonce Committed [it]) s /\ item_prep it s /\ item_home it s.
(** Where a recovery from [s0] may leave the disk. *)
Definition Resolved s0 s : Prop := (Idle s \/ Done s) /\ s !! T = s0 !! T.
Definition Resolving s0 s : Prop := (Released s /\ s !! T = s0 !! T) \/ Resolved s0 s.

Lemma it_in : it ∈ [it].
Proof. by left. Qed.
Hint Resolve it_in : core.
Lemma it_wf : item_wf it.
Proof using Hl. destruct Hl as [(Hwf & _) _]. auto. Qed.
Lemma target_not_control p : p = J \/ p = JS -> T <> p.
Proof using Hl.
  destruct Hl as (_ & HJc & HJSc & _). assert (T ∈ all_cells [it]) as HT by (apply (elem_all_cells [it] it); [done|by left]).
  intros [-> | ->] E; rewrite E in HT; done.
Qed.
Lemma target_not_stage : stage_path <> T /\ stage_path ∈ cells (i_op it).
Proof using Hl Hstage. destruct (cells_distinct _ _ _ it_wf) as (_ & _ & HS & _). by destruct (HS _ Hstage). Qed.

Lemma prep_cases s : item_prep it s -> item_unapplied it s \/ placed (i_op it) (i_before it) (i_after it) s.
Proof using Hback. intros [_ [?|[_ [(_ & _ & b & Hb & _)|?] ] ] ]; [by left|congruence|by right]. Qed.

Lemma released_stage s s' : s' = s \/ s' = delete JS s -> Released s -> Released s' /\ s' !! T = s !! T.
Proof using HJ HJS Hl.
  intros Hs (Hb & Hj & Hp & Hh). split.
  - destruct Hs as [-> | ->]; [done|]. split; [by eapply base_stage; [|right|] |]. split.
    { eapply journal_is_same; [|done]. by rewrite lookup_delete_ne. }
    split; [|by apply (control_home J HJ [it] it s JS None); auto].
    apply (prep_local it s); [|done]. by apply (control_agree J [it] it s JS None); auto.
  - destruct Hs as [-> | ->]; [done|]. apply lookup_delete_ne. apply not_eq_sym, target_not_control. by right.
Qed.

Lemma released_unstage s : Released s -> Released (delete stage_path s) /\ delete stage_path s !! T = s !! T
  /\ stage_gone (i_op it) (delete stage_path s) /\ delete stage_path s !! J = s !! J.
Proof using HJ Hl Hback Hstage.
  intros (Hb & Hj & Hp & Hh). destruct target_not_stage as [Hne Hin].
  destruct (stage_removed _ _ _ it_wf s stage_path Hstage) as (Hu & Hbk & Hpl & Hg).
  assert (elsewhere (i_op it) s (delete stage_path s)) as He by by apply elsewhere_delete.
  assert (outside [it] s (delete stage_path s)) as Ho by by apply (elsewhere_outside [it] it).
  split; [|split_and!; [by apply lookup_delete_ne|done|by apply (outside_journal J [it])] ].
  split; [by eapply base_outside|]. split; [|split].
  - eapply journal_is_same; [|done]. by apply (outside_journal J [it]).
  - destruct Hp as [Hst Hc]. split; [intros p Hp; left; by apply Hg|]. destruct Hc as [?|[Hr [?|?] ] ]; auto.
  - by eapply home_elsewhere; [apply it_wf| |].
Qed.

Lemma released_drop s : Released s -> stage_gone (i_op it) s -> Resolved s (delete J s).
Proof using HJ HJS Hl Hback Hok.
  intros (Hb & Hj & Hp & Hh) Hg. split; [|apply lookup_delete_ne, not_eq_sym, target_not_control; by left].
  assert (agree it s (delete J s)) as Ha by (apply (control_agree J [it] it s J None); auto).
  assert (base J fs0 [it] (delete J s)) as Hb' by by apply base_journal.
  destruct (prep_cases s Hp) as [Hu|Hpl]; [left|right].
  - split; [done|]. split; [apply lookup_delete_eq|]. intros it' ->%list_elem_of_singleton.
    apply (rolled_local it s); [done|by split].
  - split; [done|]. split; [apply lookup_delete_eq|]. intros it' ->%list_elem_of_singleton.
    apply (finished_local it s); [done|]. split; [|intros b Hb''; congruence]. destruct Hpl as (_ & (id & c & m & Hi & Haft & Ht) & Hbk).
    split; [done|]. split; [unfold target_desired; rewrite Haft; eauto|]. split; [done|]. intros b Hb''. congruence.
Qed.

Lemma wp_cleanup_released s (Q : list error -> nodes -> Prop) X D : Released s ->
  (forall errs s', Released s' -> s' !! T = s !! T -> s' !! J = s !! J -> (errs = [] -> stage_gone (i_op it) s') -> Q errs s') ->
  (forall s', Released s' -> s' !! T = s !! T -> D s') -> wp (cleanup_committed [i_op it]) Q X D s.
Proof using HJ Hl Hback Hstage.
  intros Hrel HQ HD. pose proof Hrel as (_ & _ & [Hst _] & Hh). destruct (released_unstage s Hrel) as (Hrel' & Ht' & Hg' & HJ').
  assert (forall errs s', Released s' -> s' !! T = s !! T -> s' !! J = s !! J -> (errs = [] -> stage_gone (i_op it) s') ->
    wp (forI (collect_errors cleanup_backup) errs [i_op it]) Q X D s') as Htail.
  { intros errs s' Hr Ht HeJ Hg. cbn [forI]. unfold collect_errors, cleanup_backup. rewrite Hback.
    apply wp_bind, wp_bind, wp_attempt, wp_ret, wp_ret, wp_ret. auto. }
  unfold cleanup_committed, cleanup_stages. cbn [forI]. apply wp_bind, wp_bind. unfold collect_errors at 1, cleanup_stage.
  rewrite Hstage. apply wp_bind, wp_attempt. eapply wp_remove_owned_stage; [apply it_wf|done|done|done| | |].
  - by apply wp_ret, wp_ret, Htail.
  - intros e s' Hs _. apply wp_ret, wp_ret. apply Htail; [destruct Hs as [-> | ->]; done..|done].
  - intros s' [-> | ->]; auto.
Qed.

Lemma wp_recover_released s (Q : RecoveryOutcome -> nodes -> Prop) X D : Released s ->
  (forall oc s', Resolved s s' -> Q oc s') -> (forall e s', Resolving s s' -> X e s') ->
  (forall s', Resolving s s' -> D s') -> wp (recover_if_needed J) Q X D s.
Proof using HJ HJS Hl Hv Hok Hback Hstage.
  intros Hrel HQ HX HD. pose proof Hrel as ( (Hown & Hd & _) & _ & _).
  destruct (released_stage s (delete JS s)) as [Hrel1 Ht1]; [by right|done|].
  pose proof Hrel1 as ( (_ & Hd1 & _) & Hj1 & _).
  assert (forall s', s' = s \/ s' = delete JS s -> Resolving s s') as Hst by (intros s' Hs; left; by apply released_stage).
  apply (wp_recover_open J HJ HJS nonce ok [it]); [done|done|done|done| | | |intros e s' Hs _; apply HX; auto|auto].
  - intros Hn. destruct Hj1 as (b & id & m & _ & Hs). congruence.
  - right. by exists Committed.
  - intros st id Hj Hm. rewrite (journal_prepared_or_committed J nonce [it] st Committed _ Hj Hj1).
    apply wp_bind, wp_cleanup_released; [done| |intros s' Hr Ht; apply HD; left; split; [done|congruence] ].
    intros errs s2 Hr2 Ht2 HJ2 Hg. assert (s2 !! T = s !! T) as Hts by congruence. pose proof Hr2 as ( (_ & Hd2 & _) & _).
    assert (errs = [] -> Resolved s (delete J s2)) as Hdrop.
    { intros E. destruct (released_drop s2 Hr2 (Hg E)) as [? Ht3]. split; [done|congruence]. }
    assert (measure s2 J = measure (delete JS s) J) as Hsame by (unfold measure, measure_bounded; by rewrite HJ2).
    apply (wp_conclude J HJ HJS ok); [done|by rewrite Hsame| | | |].
    + intros E. by apply HQ, Hdrop.
    + intros e _. apply HX. by left.
    + intros E e s3 [-> | ->] _; apply HX; [by left|right; by apply Hdrop].
    + intros E s3 [-> | ->]; apply HD; [by left|right; by apply Hdrop].
Qed.
End released.

(** ** The whole publication *)
Section publication.
Context {O : Os_params} {H : Sha256} {K : JournalCodec}.
Context (J T : path) (contents : list Z) (nonce : Z) (fs0 : nodes).
Definition creation : PlannedChange := mkChange T None None None (Write contents o644).
Context (Hadm : admissible J nonce fs0 [creation]) (Habs : fs0 !! T = None) (HdT : dirs fs0 T).
Context (ok : (syscall -> verdict) -> Prop).
Abbreviation JS := (stage_of J).
Abbreviation items_for := (items_for nonce fs0 [creation]).
Abbreviation Idle := (Idle J fs0).
Abbreviation Done := (Done J fs0).
Abbreviation Pending := (Pending J nonce fs0).
Abbreviation Released := (Released J nonce fs0).
Abbreviation wp := (wp ok).
Abbreviation faulty := (faulty ok).
Implicit Types (s : nodes) (it : item) (X : error -> nodes -> Prop) (D : nodes -> Prop).

Definition stage_file : path := sibling nonce 0 creation (rs "stage").
Definition Unplaced it s : Prop := Old J nonce fs0 [it] s /\ item_unapplied it s.
Definition Reach1 s : Prop := exists it, items_for [it] /\ (Unplaced it s \/ Released it s \/ Done [it] s).

Let HJ : normal_path J := journal_normal J nonce fs0 [creation] Hadm.
Let HJS : stage_of J <> J := stage_distinct J nonce fs0 [creation] Hadm.
Lemma target_normal : normal_path T.
Proof using Hadm. by destruct (adm_targets _ _ _ _ Hadm creation ltac:(by left)). Qed.

Lemma creation_item it : items_for [it] -> target (i_op it) = T /\ backup (i_op it) = None /\
  stage (i_op it) = Some stage_file /\ i_before it = None /\ i_after it = Some (contents, o644) /\ item_ok it.
Proof using Habs.
  intros [Hf _]. apply Forall2_cons_inv_l in Hf as (it' & rest & (pid & inst & -> & _) & _ & E). injection E as -> _.
  split_and!; [done..|exact Habs|done|]. exists None. split; [|done]. cbn. by rewrite Habs.
Qed.

Lemma reach1_unplaced it s : items_for [it] -> Unplaced it s -> Reach1 s.
Proof. intros ? ?. exists it. auto. Qed.
Lemma reach1_released it s : items_for [it] -> Released it s -> Reach1 s.
Proof. intros ? ?. exists it. auto. Qed.
Lemma idle_unplaced it s : Idle [it] s -> Unplaced it s.
Proof. intros Hi. split; [by left|]. destruct Hi as (_ & _ & Hr). apply (Hr it). by left. Qed.
Lemma resolving_reach1 it s0 s : items_for [it] -> Resolving J nonce fs0 it s0 s -> Reach1 s.
Proof.
  intros Hi [ [Hr _]|[ [Hidle|Hdone] _] ]; exists it; split; auto. left. by apply idle_unplaced.
Qed.

Lemma closing_released it s : items_for [it] -> Closing J nonce fs0 [it] s -> Released it s.
Proof using Habs.
  intros Hi (Hb & Hj & Hall). destruct (creation_item it Hi) as (_ & Hback & _ & _ & Haft & _).
  destruct (Hall it ltac:(by left)) as [(Hok & Ht & Hg & _) Hh]. split; [done|]. split; [done|]. split; [|done].
  unfold target_desired in Ht. rewrite Haft in Ht. destruct Ht as (id & Hid & Ht). split; [intros p Hp; left; auto|].
  right. split; [intros _; by exists id|]. right. split; [done|]. split; [exists id, contents, o644; auto|]. intros b Hb'. congruence.
Qed.

(** Recovery from any state of the publication. *)
Lemma wp_recover_reach1 s (Q : RecoveryOutcome -> nodes -> Prop) X D : Reach1 s ->
  (forall oc s' it, items_for [it] -> Idle [it] s' \/ Done [it] s' -> (s !! T <> None -> s' !! T = s !! T) -> Q oc s') ->
  (forall e s', Reach1 s' -> (s !! T <> None -> s' !! T = s !! T) -> X e s') ->
  (forall s', Reach1 s' -> (s !! T <> None -> s' !! T = s !! T) -> D s') -> wp (recover_if_needed J) Q X D s.
Proof using Hadm Habs.
  intros (it & Hi & Hcase) HQ HX HD. destruct (creation_item it Hi) as (Ht & Hb & Hs & Hbef & Haft & Hok).
  pose proof (items_layout _ _ _ _ Hadm [it] Hi) as Hl. pose proof (items_valid _ _ _ _ Hadm [it] Hi) as Hv.
  destruct Hcase as [ [Hold Hun]|[Hrel|Hdone] ].
  - assert (s !! T = None) as Hn by (destruct Hun as [HT _]; congruence).
    eapply (wp_recover_old J HJ HJS nonce fs0 ok [it]); [done|done|done| | |].
    + intros oc s' Hidle. by apply (HQ oc s' it); [|left|].
    + intros e s' Hold' Hk _. apply HX; [|done]. eapply reach1_unplaced; [done|]. split; [done|]. apply Hk; [by left|done].
    + intros s' Hold' Hk. apply HD; [|done]. eapply reach1_unplaced; [done|]. split; [done|]. apply Hk; [by left|done].
  - assert (forall s', Resolving J nonce fs0 it s s' -> s' !! T = s !! T) as Hsame.
    { rewrite <- Ht. by intros s' [ [_ ?]|[_ ?] ]. }
    eapply (wp_recover_released J HJ HJS nonce fs0 it); [done|done|done|done|done|done| | |].
    + intros oc s' Hr. apply (HQ oc s' it); [done|by destruct Hr|]. intros _. apply Hsame. by right.
    + intros e s' Hr. apply HX; [by eapply resolving_reach1|]. auto.
    + intros s' Hr. apply HD; [by eapply resolving_reach1|]. auto.
  - assert (forall s', New J nonce fs0 [it] s' -> Reach1 s' /\ s' !! T = s !! T) as Hnew.
    { intros s' Hn. split; [destruct Hn as [Hc|Hd]; exists it; auto using closing_released|].
      assert (item_published it s) as (_ & Hps & _) by (destruct Hdone as (_ & _ & Hf); apply (Hf it); by left).
      assert (item_published it s') as (_ & Hps' & _).
      { destruct Hn as [(_ & _ & Hf)|(_ & _ & Hf)]; apply (Hf it); by left. }
      unfold target_desired in *. rewrite Haft in *. destruct Hps as (id & Hid & Hs1), Hps' as (id' & Hid' & Hs2). congruence. }
    eapply (wp_recover_new J HJ HJS nonce fs0 ok [it]); [done|done|by right| | |].
    + intros oc s' Hd'. apply (HQ oc s' it); [done|by right|]. intros _. by apply Hnew; right.
    + intros e s' Hn _. apply HX; by intros; apply Hnew.
    + intros s' Hn. apply HD; by intros; apply Hnew.
Qed.

Lemma wp_cleanup_only e s (Q : unit -> nodes -> Prop) X D : Reach1 s ->
  (forall e s', Reach1 s' -> X e s') -> (forall s', Reach1 s' -> D s') ->
  wp (finish_cleanup_only_publication J e) Q X D s.
Proof using Hadm Habs.
  intros Hs HX HD. unfold finish_cleanup_only_publication. apply wp_bind, wp_attempt, wp_recover_reach1; [done| | |auto].
  - intros oc s' it Hi Hc _. apply wp_throw, HX. exists it. split; [done|].
    destruct Hc; [left; by apply idle_unplaced|auto].
  - intros e' s' Hr _. apply wp_throw. auto.
Qed.

(** The mark: the journal becomes visible as committed or stays as it was. *)
Lemma mark_replacing it s s' : items_for [it] -> Pending [it] s -> item_unapplied it s -> item_staged it s ->
  replacing J (record nonce Committed [it]) s s' ->
  item_unapplied it s' /\ item_staged it s' /\ item_home it s' /\
  (Unplaced it s' \/ Released it s') /\ (journal_is J (record nonce Committed [it]) s' -> Released it s').
Proof using Hadm.
  intros Hi (Hb & Hj & Hall) Hu Hst Hrep. pose proof (items_layout _ _ _ _ Hadm [it] Hi) as Hl.
  destruct (Hall it ltac:(by left)) as [_ Hh].
  destruct (replacing_agree J HJ [it] it _ s s' Hl ltac:(by left) Hrep) as [Ha Hh']. specialize (Hh' Hh).
  assert (base J fs0 [it] s') as Hb' by by eapply replacing_base.
  assert (item_unapplied it s') as Hu' by by apply (unapplied_local it s).
  assert (item_staged it s') as Hst' by by apply (staged_local it s).
  assert (item_prep it s') as Hp' by by apply unapplied_prep.
  assert (journal_is J (record nonce Committed [it]) s' -> Released it s') as Hr by (intros Hj'; by split).
  split_and!; try done. destruct (replacing_journal J HJS (record nonce Prepared [it]) _ s s' Hrep) as [HeJ|Hj'];
    [by right|left|right; auto]. split; [|done]. right. split; [done|]. split; [by eapply journal_is_same|].
  by intros it' ->%list_elem_of_singleton.
Qed.

(** Renaming the stage into place. *)
Lemma install_state it s : items_for [it] -> Released it s -> item_unapplied it s -> item_staged it s ->
  exists id, installed (i_op it) = Some id /\ s !! stage_file = Some (Reg id contents o644) /\ s !! T = None /\
  let s' := <[T := Reg id contents o644]> (delete stage_file s) in
  Released it s' /\ item_published it s' /\ item_home it s'.
Proof using Hadm Habs.
  intros Hi (Hb & Hj & _ & Hh) Hu Hst. destruct (creation_item it Hi) as (Ht & Hback & Hstg & Hbef & Haft & Hok).
  pose proof (items_layout _ _ _ _ Hadm [it] Hi) as Hl. pose proof (it_wf J it Hl) as Hwf.
  destruct Hu as [HT _]. rewrite Hbef, Ht in HT.
  destruct (placed_state _ _ _ Hwf s stage_file Hstg Hh Hst Hok ltac:(by rewrite Ht)) as (id & c & m & Hs & _ & _ & Hpl & Hg & Hsteps).
  { intros b Hb'. congruence. }
  destruct (Hst stage_file Hstg) as (id' & c' & m' & Hid & Ha & Hs'). rewrite Haft in Ha. injection Ha as <- <-.
  rewrite Hs in Hs'. injection Hs' as -> -> ->. rewrite Ht in Hpl, Hg, Hsteps.
  destruct Hsteps as (Hp' & He & Hh'). set (s' := <[T := Reg id' contents o644]> (delete stage_file s)) in *.
  assert (outside [it] s s') as Ho by (eapply elsewhere_outside; [by left|done]).
  assert (item_published it s') as Hpub by (apply applied_published; [done|]; split; [by rewrite Haft in *|done]).
  assert (Released it s') as Hr.
  { split; [by eapply base_outside|]. split; [|done]. eapply journal_is_same; [|done]. by apply (outside_journal J [it]). }
  exists id'. by split_and!.
Qed.

Lemma wp_install it id s (Q : unit -> nodes -> Prop) X D : items_for [it] -> Released it s -> item_unapplied it s ->
  item_staged it s -> installed (i_op it) = Some id ->
  (forall s', Released it s' -> item_published it s' -> item_home it s' -> Q tt s') ->
  (forall e s', Released it s' -> X e s') -> (forall s', Released it s' -> D s') ->
  wp (install_noclobber T (handle T) (handle stage_file) id (sha256_bytes contents)) Q X D s.
Proof using Hadm Habs.
  intros Hi Hrel Hu Hst Hid HQ HX HD. destruct (creation_item it Hi) as (Ht & _ & Hstg & _).
  destruct (install_state it s Hi Hrel Hu Hst) as (id' & Hid' & Hs & HT & Hrel' & Hpub & Hh).
  rewrite Hid in Hid'. injection Hid' as <-. pose proof (items_layout _ _ _ _ Hadm [it] Hi) as Hl.
  pose proof (it_wf J it Hl) as Hwf. destruct (cells_distinct _ _ _ Hwf) as (HTin & _ & HS & _).
  destruct (HS stage_file Hstg) as [Hsin _]. rewrite Ht in HTin.
  destruct (normal_path_shape stage_file) as (Hats & _); [by apply (cell_normal _ _ _ Hwf)|].
  destruct (normal_path_shape T target_normal) as (Hatt & _). unfold at_leaf in Hats, Hatt.
  unfold install_noclobber, rename_noclobber. rewrite Hats, Hatt.
  apply wp_bind. eapply wp_rename_noreplace; [exact Hs|exact HT| |auto..].
  apply wp_bind. eapply wp_cell_read; [exact Hwf|exact Hh|exact HTin| |intros e _; auto|auto].
  rewrite lookup_insert_eq. destruct (adm_targets _ _ _ _ Hadm creation ltac:(by left)) as [_ (_ & _ & _ & [Hlen _])].
  cbn [node_measure]. rewrite (proj2 (Z.leb_le _ _) Hlen). intros r [= <-]. apply wp_bind.
  eapply wp_pure_ok; [by rewrite !bool_decide_true|]. apply wp_bind, wp_fail_point; [|auto..]. apply wp_fsync; auto.
Qed.

Lemma wp_release it id s (Q : unit -> nodes -> Prop) X D : items_for [it] -> Released it s -> item_unapplied it s ->
  item_staged it s -> installed (i_op it) = Some id ->
  (forall s', Done [it] s' -> Q tt s') -> (forall e s', Reach1 s' -> X e s') -> (forall s', Reach1 s' -> D s') ->
  wp (release_noclobber T J stage_file (handle T) (i_op it) id (sha256_bytes contents)) Q X D s.
Proof using Hadm Habs.
  intros Hi Hrel Hu Hst Hid HQ HX HD. destruct (creation_item it Hi) as (Ht & Hback & Hstg & _).
  pose proof (items_layout _ _ _ _ Hadm [it] Hi) as Hl. pose proof (it_wf J it Hl) as Hwf.
  destruct (cells_distinct _ _ _ Hwf) as (_ & _ & HS & _). destruct (HS stage_file Hstg) as [Hsin _].
  assert (forall s', Released it s' -> Reach1 s') as Hreach by (intros; by eapply reach1_released).
  pose proof Hrel as (_ & _ & _ & Hh). unfold release_noclobber. apply wp_bind.
  eapply wp_cell_parent; [exact Hwf|exact Hh|exact Hsin| |auto|auto].
  apply wp_bind, wp_attempt. apply (wp_install it); [done|done|done|done|done| | |auto].
  - intros s' Hrel' Hpub Hh'. pose proof Hrel' as (Hb' & Hj' & _). change [i_op it] with (map i_op [it]).
    apply (wp_close J HJ HJS nonce fs0 ok [it]); [done| |done| |].
    + split; [done|]. split; [done|]. by intros it' ->%list_elem_of_singleton.
    + intros e s2 [Hc|Hd] _ _; apply HX; [by apply Hreach, closing_released|exists it; auto].
    + intros s2 [Hc|Hd]; apply HD; [by apply Hreach, closing_released|exists it; auto].
  - intros e s' Hrel'. apply wp_bind, wp_attempt, wp_identity_at; [apply target_normal| | |intros e' _|auto].
    + intros id' b m _. case_bool_decide; [apply wp_throw; auto|]. by apply wp_cleanup_only; auto.
    + intros _. case_bool_decide; [done|]. by apply wp_cleanup_only; auto.
    + case_bool_decide; [done|]. by apply wp_cleanup_only; auto.
Qed.

(** From the last stage on: the mark and the release. *)
Lemma wp_mark it id s (Q : unit -> nodes -> Prop) X D : items_for [it] -> Pending [it] s -> item_unapplied it s ->
  item_staged it s -> installed (i_op it) = Some id ->
  (forall s', Done [it] s' -> Q tt s') -> (forall e s', Reach1 s' -> X e s') -> (forall s', Reach1 s' -> D s') ->
  wp (committed ← attempt (write_journal J (record nonce Committed [it]));
      match committed with
      | inr e => finish_cleanup_only_publication J e
      | inl _ => release_noclobber T J stage_file (handle T) (i_op it) id (sha256_bytes contents)
      end) Q X D s.
Proof using Hadm Habs.
  intros Hi Hpend Hu Hst Hid HQ HX HD. pose proof (fun s' => mark_replacing it s s' Hi Hpend Hu Hst) as Hmark.
  assert (forall s', replacing J (record nonce Committed [it]) s s' -> Reach1 s') as Hreach.
  { intros s' Hrep. destruct (Hmark s' Hrep) as (_ & _ & _ & [?|?] & _); exists it; auto. }
  pose proof Hpend as ( (Hown & Hd & _) & Hj & _).
  apply wp_bind, wp_attempt, (wp_write_journal ok J HJ HJS); [done|done| | | |auto].
  - right. destruct Hj as (b & i & m & _ & Hs). eauto.
  - intros bytes Henc. destruct (Hmark (replaced J bytes s)) as (Hu' & Hst' & _ & _ & Hr); [right; eauto|].
    apply wp_release; [done| |done|done|done|done|done|done]. apply Hr. eexists _, _, _. split; [done|].
    unfold replaced. by rewrite lookup_insert_eq.
  - intros e s' Hrep _. apply wp_cleanup_only; auto.
Qed.

Lemma single_item items : items_for items -> exists it, items = [it].
Proof.
  intros [Hf _]. apply Forall2_cons_inv_l in Hf as (it & rest & _ & Hf & ->). apply Forall2_nil_inv_l in Hf as ->. by exists it.
Qed.
Lemma quiet_reach1 items s : items_for items -> Quiet J nonce fs0 items s -> Reach1 s.
Proof.
  intros Hi [Ho Hu]. destruct (single_item items Hi) as [it ->]. eapply reach1_unplaced; [done|]. split; [done|]. apply Hu. by left.
Qed.

(** What follows the first journal, as the continuation of writing one stage. *)
Definition after_stage (ops : list JournalOperation) : io unit :=
  match ops with
  | [op] =>
    updated ← attempt (write_journal J (mkJournal SCHEMA_V3 nonce Prepared [op]));
    match updated with
    | inr e => fail_with_rollback J [op] e
    | inl _ =>
      committed ← attempt (write_journal J (mkJournal SCHEMA_V3 nonce Committed [op]));
      match committed with
      | inr e => finish_cleanup_only_publication J e
      | inl _ => release_noclobber T J stage_file (handle T) op (default nobody (installed op)) (sha256_bytes contents)
      end
    end
  | _ => mret tt
  end.

Lemma wp_after_stage items s (Q : unit -> nodes -> Prop) X D :
  items_for items -> items_for (map forget items) -> Staging J nonce fs0 items s ->
  (forall it, it ∈ items -> item_staged it s) ->
  (forall it s', items_for [it] -> Done [it] s' -> Q tt s') -> (forall e s', Reach1 s' -> X e s') ->
  (forall s', Reach1 s' -> D s') -> wp (after_stage (map i_op items)) Q X D s.
Proof using Hadm Habs.
  intros Hi Hi0 Hst Hstg HQ HX HD. destruct (single_item items Hi) as [it ->]. cbn [map after_stage].
  destruct (creation_item it Hi) as (_ & _ & Hstage & _).
  destruct (Hstg it ltac:(by left) stage_file Hstage) as (id & _ & _ & Hid & _). rewrite Hid.
  apply (wp_staged_phase J nonce fs0 [creation] Hadm ok [it]); [done|done|done|done| | |].
  - intros s' Hp Hall. destruct (Hall it ltac:(by left)) as (Hu & Hs' & _). apply wp_mark; [done|done|done|done|done| |done|done].
    intros s2 Hd. by apply (HQ it).
  - intros e items' s' Hi' Hq _. apply HX. by eapply quiet_reach1.
  - intros items' s' Hi' Hq. apply HD. by eapply quiet_reach1.
Qed.

Lemma wp_publish_absent (Q : unit -> nodes -> Prop) X D :
  (forall it s', items_for [it] -> Done [it] s' -> Q tt s') -> (forall e s', Reach1 s' -> X e s') ->
  (forall s', Reach1 s' -> D s') -> wp (publish_absent T J (handle T) contents nonce) Q X D fs0.
Proof using Hadm Habs HdT.
  intros HQ HX HD. destruct (normal_path_shape T target_normal) as (_ & _ & _ & _ & _ & Hup). destruct (HdT _ Hup) as [pid Hpid].
  set (it := item_of nonce fs0 (0, creation) pid). assert (Forall2 (builds nonce fs0) (enumerate_from 0 [creation]) [it]) as Hb.
  { repeat constructor. by exists pid. }
  destruct (builds_for _ _ _ _ Hadm _ Hb) as (Hi & Hforget & _). pose proof (items_layout _ _ _ _ Hadm [it] Hi) as Hl.
  assert (untouched J nonce fs0 [creation] fs0) as Hun by by left.
  pose proof (untouched_idle J nonce fs0 [creation] Hadm [it] fs0 Hi Hun) as Hidle.
  pose proof Hidle as ( (Hown & Hd & _) & Hn & _).
  assert (forall it', it' ∈ [it] -> item_home it' fs0) as Hh by (intros it' ->%list_elem_of_singleton; by split).
  assert (join_name (handle_path (handle T)) (sibling_name (leaf (handle T)) (rs "stage") nonce) = stage_file) as Hsf.
  { unfold stage_file, sibling. by rewrite Z.add_0_r. }
  unfold publish_absent. rewrite Hsf. apply wp_bind.
  assert (Reach1 fs0) as Hreach0 by (eapply quiet_reach1; [exact Hi|by apply idle_quiet]).
  eapply wp_fstat; [exact Hpid| |by auto|by auto]. cbn [stat_of st_identity].
  change (mkOperation T (Some stage_file) None pid None None None (Some (sha256_bytes contents)) (Some o644) None) with (i_op it).
  pose proof (fun s' => first_journal J nonce fs0 [creation] Hadm [it] fs0 s' Hi Hidle Hh) as Hfirst.
  assert (forall s', replacing J (record nonce Prepared [it]) fs0 s' -> Reach1 s') as Hrepl.
  { intros s' Hrep. eapply quiet_reach1; [exact Hi|]. by apply Hfirst. }
  apply wp_bind, (wp_write_journal ok J HJ HJS); [done|done|by left| |by auto|by auto].
  intros bytes Henc. set (s1 := replaced J bytes fs0).
  assert (replacing J (record nonce Prepared [it]) fs0 s1) as Hrep1 by (right; eauto).
  destruct (idle_replacing J nonce fs0 [creation] Hadm [it] fs0 s1 Hi Hidle Hh Hrep1) as [_ Hp1].
  assert (Pending [it] s1) as Hpend by (apply Hp1; unfold s1, replaced; by rewrite lookup_insert_eq).
  destruct (Hfirst s1 Hrep1) as [Hroll _].
  apply (wp_write_stages J HJ HJS nonce fs0 ok [it] after_stage Q X D Hl) with (todo := [it]) (pre := []).
  - intros items s' Hf Hsep Hst Hstg. assert (items_for items) as Hi' by by eapply staged_for.
    rewrite <- Hf in Hi. by apply wp_after_stage.
  - intros e s' Hq _. apply HX. by eapply quiet_reach1.
  - intros s' Hq. apply HD. by eapply quiet_reach1.
  - cbn [app]. done.
  - by destruct Hl.
  - cbn [app]. split; [by rewrite Hforget|]. intros it' Hin. split; [by apply Hroll|]. by apply Hpend.
  - by intros it' ?%elem_of_nil.
  - intros it' Hin. split; [by apply list_elem_of_singleton in Hin as ->|by apply Hroll].
Qed.
End publication.

(** ** Under the lock *)
Section locked.
Context {O : Os_params} {H : Sha256} {K : JournalCodec}.
Implicit Types (s : nodes) (f : list (syscall -> verdict)).

Lemma journal_sibling T purpose J : normal_path T -> publication_journal_path T purpose = Ok J ->
  exists name, J = join_name (removelast T) name.
Proof.
  intros HT HJ. destruct (normal_path_shape T HT) as (_ & _ & _ & Hpar & _). unfold publication_journal_path in HJ.
  rewrite Hpar in HJ. cbn [ok_or] in HJ. inv_ok. by eexists.
Qed.
Lemma lock_sibling J L : normal_path J -> publication_journal_lock_path J = Ok L ->
  exists name, L = join_name (removelast J) name.
Proof.
  intros HJ HL. destruct (normal_path_shape J HJ) as (_ & _ & _ & Hpar & _). unfold publication_journal_lock_path in HL.
  rewrite Hpar in HL. cbn [ok_or] in HL. inv_ok. by eexists.
Qed.

(** With nothing to recover, recovery changes nothing. *)
Lemma wp_recover_nothing (ok : (syscall -> verdict) -> Prop) J s (Q : RecoveryOutcome -> nodes -> Prop)
  (X : error -> nodes -> Prop) (D : nodes -> Prop) :
  normal_path J -> stage_of J <> J -> dirs s J -> s !! J = None -> s !! stage_of J = None ->
  Q RecoveryNone s -> (forall e, X e s) -> D s -> wp ok (recover_if_needed J) Q X D s.
Proof.
  intros HJ HJS Hd Hn HnS HQ HX HD. unfold recover_if_needed.
  apply wp_bind, wp_cleanup_journal_stage; rewrite ?(delete_id s) by done; [done|done|by left| |by intros e s' [-> | ->]|by intros s' [-> | ->] ].
  apply wp_bind, wp_read_regular; [done|done| |done|done|done]. intros r Hr. apply measure_absent in Hn as Hm.
  rewrite Hm in Hr. injection Hr as <-. by apply wp_ret.
Qed.

Lemma wp_lock_present (ok : (syscall -> verdict) -> Prop) J L s (Q : unit -> nodes -> Prop)
  (X : error -> nodes -> Prop) (D : nodes -> Prop) id b m :
  normal_path J -> dirs s J -> publication_journal_lock_path J = Ok L -> s !! L = Some (Reg id b m) ->
  Q tt s -> (forall e, X e s) -> D s -> wp ok (lock_for_journal J) Q X D s.
Proof.
  intros HJ Hd HL Hs HQ HX HD. destruct (lock_sibling J L HJ HL) as [name E].
  destruct (sibling_normal J name HJ) as [HnL Hu]. rewrite <- E in HnL, Hu.
  unfold lock_for_journal. rewrite HL. apply wp_bind, wp_ret, wp_bind, wp_open_parent; [done| | |done|done].
  { intros q Hq. by apply Hd, Hu. }
  destruct (normal_path_shape L HnL) as (Hat & _). rewrite Hat.
  apply wp_bind, wp_sys; [rewrite Hs|done|done]. by apply wp_sys.
Qed.

Lemma wp_publish_noclobber (ok : (syscall -> verdict) -> Prop) J L T contents nonce s id b m :
  admissible J nonce s [creation T contents] -> publication_journal_path T (rs "file") = Ok J ->
  publication_journal_lock_path J = Ok L -> s !! L = Some (Reg id b m) ->
  wp ok (publish_file_noclobber T contents nonce)
    (fun _ s' => s !! T = None /\ exists it, items_for nonce s [creation T contents] [it] /\ Done J s [it] s')
    (fun _ s' => (s !! T = None -> Reach1 J T contents nonce s s') /\ (s !! T <> None -> s' = s))
    (fun s' => (s !! T = None -> Reach1 J T contents nonce s s') /\ (s !! T <> None -> s' = s)) s.
Proof.
  intros Hadm HJp HL Hs. pose proof (journal_normal _ _ _ _ Hadm) as HJ. pose proof (stage_distinct _ _ _ _ Hadm) as HJS.
  pose proof (target_normal J T contents nonce s Hadm) as HT. destruct (adm_journal _ _ _ _ Hadm) as (_ & Hd & HnJ & HnS).
  destruct (journal_sibling T _ J HT HJp) as [name E]. destruct (sibling_normal T name HT) as [_ Hu].
  assert (dirs s T) as HdT by (intros q Hq; apply Hd; rewrite E; by apply Hu).
  assert ((s !! T = None -> Reach1 J T contents nonce s s) /\ (s !! T <> None -> s = s)) as Hstart.
  { split; [|done]. intros Habs. destruct (builds_for _ _ _ _ Hadm _ (unbuilt_builds nonce s _)) as (Hi & _).
    eapply quiet_reach1; [exact Hi|]. apply idle_quiet, (untouched_idle J nonce s _ Hadm); [done|by left]. }
  unfold publish_file_noclobber. rewrite HJp. apply wp_bind, wp_ret.
  apply wp_bind. eapply wp_lock_present; [done|done|done|done| |done|done].
  apply wp_bind, wp_recover_nothing; [done|done|done|done|done| |done|done].
  apply wp_bind, wp_open_parent; [done|done| |done|done].
  apply wp_bind, wp_identity_at; [done| | |done|done].
  - intros id' b' m' HT'. by apply wp_bind, wp_throw.
  - intros Habs. apply wp_bind, wp_ret. apply wp_bind, (wp_publish_absent J T contents nonce s Hadm Habs HdT).
    + intros it s' Hi Hdone. apply wp_ret. eauto.
    + intros e s' Hr. by split.
    + intros s' Hr. by split.
Qed.

(** ** Runs *)
Lemma recover_reach1_run J T contents nonce fs0 s f :
  admissible J nonce fs0 [creation T contents] -> fs0 !! T = None -> Reach1 J T contents nonce fs0 s ->
  let r := recover_if_needed J s f in
  Reach1 J T contents nonce fs0 (state_after r) /\ (s !! T <> None -> state_after r !! T = s !! T) /\
  result_of r <> Panicked /\
  (forall oc, result_of r = Ret oc ->
     all_old J nonce fs0 [creation T contents] (state_after r) \/ all_new J nonce fs0 [creation T contents] (state_after r)).
Proof.
  intros Hadm Habs Hs. set (settles := fun s' => all_old J nonce fs0 [creation T contents] s' \/ all_new J nonce fs0 [creation T contents] s').
  set (keeps := fun s' => Reach1 J T contents nonce fs0 s' /\ (s !! T <> None -> s' !! T = s !! T)).
  assert (wp any_fault (recover_if_needed J) (fun _ s' => keeps s' /\ settles s') (fun _ => keeps) keeps s) as Hwp.
  { apply (wp_recover_reach1 J T contents nonce fs0 Hadm Habs); [done| |by split|by split].
    intros oc s' it Hi Hc Hk. split.
    - split; [|done]. exists it. split; [done|]. destruct Hc; [left; by apply idle_unplaced|auto].
    - destruct Hc; [left; by eapply idle_all_old|right; by eapply done_all_new]. }
  apply (wp_run _ _ _ _ _ _ f) in Hwp; [|apply any_fault_all]. unfold result_of, state_after. cbn zeta.
  destruct (recover_if_needed J s f) as [ [ [oc|e| |] s'] f']; cbn [fst snd]; [| | |done].
  - destruct Hwp as [ [? ?] ?]. by split_and!.
  - destruct Hwp as [? ?]. by split_and!.
  - destruct Hwp as [ [? ?] _]. by split_and!.
Qed.

Lemma recoveries_reach1 J T contents nonce fs0 runs : admissible J nonce fs0 [creation T contents] -> fs0 !! T = None ->
  forall s, Reach1 J T contents nonce fs0 s -> Reach1 J T contents nonce fs0 (recoveries J runs s) /\
  (s !! T <> None -> recoveries J runs s !! T = s !! T).
Proof.
  intros Hadm Habs. induction runs as [|f runs IH]; intros s Hs; [by split|]. cbn [recoveries].
  destruct (recover_reach1_run J T contents nonce fs0 s f Hadm Habs Hs) as (Hs1 & Ht1 & _).
  destruct (IH _ Hs1) as [Hs2 Ht2]. split; [done|]. intros Hne. rewrite Ht2; [auto|]. by rewrite Ht1.
Qed.

Lemma recover_nothing_run J s f : normal_path J -> stage_of J <> J -> dirs s J -> s !! J = None -> s !! stage_of J = None ->
  state_after (recover_if_needed J s f) = s.
Proof.
  intros HJ HJS Hd Hn HnS. assert (wp any_fault (recover_if_needed J) (fun _ s' => s' = s) (fun _ s' => s' = s) (fun s' => s' = s) s) as Hwp
    by by apply wp_recover_nothing.
  apply (wp_run _ _ _ _ _ _ f) in Hwp; [|apply any_fault_all]. unfold state_after.
  destruct (recover_if_needed J s f) as [ [ [oc|e| |] s'] f']; [done|done|by destruct Hwp|done].
Qed.
Lemma recoveries_nothing J runs s : normal_path J -> stage_of J <> J -> dirs s J -> s !! J = None -> s !! stage_of J = None ->
  recoveries J runs s = s.
Proof. intros HJ HJS Hd Hn HnS. induction runs as [|f runs IH]; [done|]. cbn [recoveries]. by rewrite recover_nothing_run. Qed.

Lemma publish_run J L T contents nonce s f id b m :
  admissible J nonce s [creation T contents] -> publication_journal_path T (rs "file") = Ok J ->
  publication_journal_lock_path J = Ok L -> s !! L = Some (Reg id b m) ->
  let r := publish_file_noclobber T contents nonce s f in
  result_of r <> Panicked /\ (s !! T = None -> Reach1 J T contents nonce s (state_after r)) /\
  (s !! T <> None -> state_after r = s /\ forall oc, result_of r <> Ret oc) /\
  (forall oc, result_of r = Ret oc -> all_new J nonce s [creation T contents] (state_after r)).
Proof.
  intros Hadm HJ HL Hs. cbn zeta.
  pose proof (wp_run _ _ _ _ _ _ f (wp_publish_noclobber any_fault J L T contents nonce s id b m Hadm HJ HL Hs) (any_fault_all f)) as Hrun.
  unfold result_of, state_after. destruct (publish_file_noclobber T contents nonce s f) as [ [ [oc|e| |] s'] f']; cbn [fst snd]; [| | |done].
  - destruct Hrun as (Habs & it & Hi & Hd). split_and!; [done|intros _; exists it; auto|done|]. intros _ _. by eapply done_all_new.
  - destruct Hrun as [H1 H2]. split_and!; [done|done| |done]. intros Hne. split; [auto|done].
  - destruct Hrun as [ [H1 H2] _]. split_and!; [done|done| |done]. intros Hne. split; [auto|done].
Qed.
End locked.

(** ** Compare and swap *)
Section replace.
Context {O : Os_params} {H : Sha256} {K : JournalCodec}.
Context (ok : (syscall -> verdict) -> Prop).
Context (J L T : path) (contents : list Z) (nonce : Z) (s : nodes).
Context (HT : normal_path T) (Hleaf : validate_target_leaf T = Ok tt)
  (HJp : publication_journal_path T (rs "file") = Ok J) (HL : publication_journal_lock_path J = Ok L)
  (Hlock : exists id b m, s !! L = Some (Reg id b m)) (Htree : tree s) (Hlen : len contents <= isize_max).
Context (found : FileIdentity) (old : list Z) (old_mode : Z)
  (Hfound : measure s T = Some (Some (found, old, old_mode))).

(** The one change of the set. *)
Definition replacement : PlannedChange := snapshot_change T (Some (found, old, old_mode)) (Write contents o644).
Context (Hroom : room J nonce s [replacement]).
Abbreviation wp := (wp ok).
Abbreviation Reach := (Reach J nonce s [replacement]).
Implicit Types (X : error -> nodes -> Prop) (D : nodes -> Prop) (t : DurableFileSet).

Lemma replace_journal : normal_path J.
Proof using HT HJp. destruct (journal_sibling T _ J HT HJp) as [name E]. rewrite E. by apply sibling_normal. Qed.
Lemma replace_dirs : dirs s T.
Proof using HT HJp Hroom.
  destruct (journal_sibling T _ J HT HJp) as [name E]. destruct (room_journal _ _ _ _ Hroom) as [Hd _].
  intros q Hq. apply Hd. rewrite E. by apply sibling_normal.
Qed.
Lemma replace_stage_distinct : stage_of J <> J.
Proof using Hroom. pose proof (room_distinct _ _ _ _ Hroom) as Hd. apply NoDup_cons in Hd as [Hd _]. intros E. apply Hd. rewrite <- E at 1. by left. Qed.

Lemma wp_new (Q : DurableFileSet -> nodes -> Prop) X D :
  Q (opened J RecoveryNone) s -> (forall e, X e s) -> D s -> wp (new J) Q X D s.
Proof using HT HJp HL Hlock Hroom.
  intros HQ HX HD. destruct (room_journal _ _ _ _ Hroom) as (Hd & HnJ & HnS). destruct Hlock as (id & b & m & Hs).
  pose proof replace_journal as HJ. destruct (normal_path_shape J HJ) as (_ & Habs & _ & Hpar & _).
  unfold new, absolute_path. rewrite Habs. apply wp_bind, wp_ret. rewrite Hpar. apply wp_bind, wp_ret.
  apply wp_bind. eapply wp_lock_present; [done|done|done|done| |done|done].
  apply wp_bind, wp_recover_nothing; [done|apply replace_stage_distinct|done|done|done| |done|done]. by apply wp_ret.
Qed.

(** The set holds the replacement, or nothing when the contents are there; in
    either case the replacement can be committed. *)
Definition prepared t : Prop :=
  journal t = J /\ admissible J nonce s [replacement] /\
  (planned_set t = [replacement] \/ planned_set t = [] /\ old = contents).

Lemma keeps_first_write : keeps ok s (stage_write T contents) (fun _ t => prepared t) (opened J RecoveryNone).
Proof using HT HJp Htree Hlen Hfound Hroom.
  pose proof (opened_staged J RecoveryNone s replace_journal) as Ho. destruct (normal_path_shape T HT) as (_ & Habs & _).
  unfold stage_write, stage_write_inner. apply keeps_bind, keeps_performing; [done|]. unfold absolute_path. rewrite Habs.
  apply wp_ret. split; [done|]. intros _. apply keeps_bind, keeps_register; [done|]. intros t Hk Hc Hm Hj Ht.
  apply keeps_bind, keeps_read; [done|done|done|]. intros r Hr _. rewrite Hfound in Hr. injection Hr as <-.
  cbn [opened changes commit_marker journal] in Hc, Hm, Hj.
  assert (staged_set s (with_changes t [(T, replacement)])) as Ht'.
  { change [(T, replacement)] with (bt_put path_ltb T replacement []).
    rewrite <- Hc. apply staged_insert; [done|done|done| |by apply snapshot_current|by rewrite Hm|by rewrite Hc].
    eapply snapshot_planned; [done|]. split; [done|by left]. }
  assert (planned_set (with_changes t [(T, replacement)]) = [replacement]) as Hps.
  { unfold planned_set. cbn [with_changes changes commit_marker]. by rewrite Hm. }
  assert (admissible J nonce s [replacement]) as Hadm.
  { rewrite <- Hps, <- Hj. apply (staged_admissible nonce s _ Ht'). rewrite Hps. cbn [with_changes journal]. by rewrite Hj. }
  destruct (eqb_list old contents) eqn:E; cbn [andb orb negb].
  - apply keeps_ret; [done|]. split; [done|]. split; [done|right]. unfold planned_set. rewrite Hc, Hm. split; [done|]. by apply eqb_list_true.
  - apply keeps_bind. fold replacement. unfold insert_change. apply keeps_bind, keeps_get; [done|]. intros _.
    rewrite Hm. cbn [fmap option_fmap option_map]. rewrite bool_decide_false by done. rewrite Hc. cbn [bt_get bt_put].
    apply keeps_put; [done|]. intros _. apply keeps_ret; [done|]. split; [done|]. split; [done|by left].
Qed.

Lemma wp_cas_read (Q : option (FileIdentity * list Z) -> nodes -> Prop) X D :
  Q (Some (found, old)) s -> (forall e, X e s) -> D s -> wp (read_regular T) Q X D s.
Proof using HT HJp Hroom Hfound.
  intros HQ HX HD. apply wp_read_regular; [done|apply replace_dirs| |done|done|done].
  intros r Hr. rewrite Hfound in Hr. by injection Hr as <-.
Qed.

(** Everything up to the commit leaves the disk alone and ends with the set. *)
Lemma wp_replace identity sha256 (Q : PublicationReceipt -> nodes -> Prop) X D :
  (forall t, cas_matches (Some (found, old)) identity sha256 = true -> staged_set s t -> prepared t ->
     wp (commit_set nonce t) Q X D s) ->
  (forall e, X e s) -> D s ->
  wp (publish_atomic_file T contents (ReplaceIf identity sha256) nonce) Q X D s.
Proof using HT Hleaf HJp HL Hlock Htree Hlen Hfound Hroom.
  intros Hk HX HD. destruct (normal_path_shape T HT) as (_ & Habs & _).
  unfold publish_atomic_file, absolute_path. rewrite Hleaf, Habs. apply wp_bind, wp_ret, wp_bind, wp_ret.
  apply wp_bind, wp_fail_point; [|done|done]. rewrite HJp. apply wp_bind, wp_ret.
  apply wp_bind, wp_new; [|done|done]. apply wp_bind, wp_cas_read; [|done|done].
  destruct (cas_matches (Some (found, old)) identity sha256) eqn:Hcas; [|by apply wp_bind, wp_throw].
  apply wp_bind, wp_ret. apply wp_bind. eapply wp_mono; [exact keeps_first_write| |done|by intros s' ->].
  intros [t [b|e] ] s' (-> & Ht & Hp); cbn [fst snd] in *; [|by apply wp_bind, wp_throw].
  apply wp_bind, wp_ret. apply wp_bind, wp_cas_read; [|done|done]. rewrite Hcas. apply wp_bind, wp_ret. by apply Hk.
Qed.

Definition holds_contents (s' : nodes) : Prop := exists id m, s' !! T = Some (Reg id contents m).

Lemma wp_commit_replacement t : (forall c n, read_call J c -> ~ may_fail ok c n) -> staged_set s t -> prepared t ->
  wp (commit_set nonce t) (fun _ s' => holds_contents s' /\ Reach s') (fun _ s' => Reach s') Reach s.
Proof using Hfound.
  intros Hrel Ht (Hj & Hadm & Hcase). unfold commit_set. fold (planned_set t).
  assert (planned_set t = [replacement] ->
    wp (_ ← commit (journal t) (planned_set t) nonce; mret (mkReceipt (recovery t)))
      (fun _ s' => holds_contents s' /\ Reach s') (fun _ s' => Reach s') Reach s) as Hrun.
  { intros ->. rewrite Hj. apply wp_bind. eapply wp_mono; [exact (wp_commit J nonce s [replacement] Hadm ok Hrel)| | |done].
    - intros [] s' (items & Hi & Hd). apply wp_ret. split; [|exists items; split; [done|right; by right] ].
      destruct (done_all_new J nonce s [replacement] items s' Hi Hd) as [Hnew _].
      destruct (Hnew replacement ltac:(by left)) as [ [id Hm] _]. by exists id, o644.
    - intros e s' [Hr _]. by eapply refused_reach. }
  destruct Hcase as [E|[E Hsame] ].
  - destruct (changes t) as [|c cs] eqn:Ec; [|by apply Hrun]. destruct (commit_marker t) eqn:Em; [by apply Hrun|].
    unfold planned_set in E. by rewrite Ec, Em in E.
  - unfold planned_set, ordered_changes in E. apply app_eq_nil in E as [Ec%fmap_nil_inv Em]. rewrite Ec.
    destruct (commit_marker t); [done|]. apply wp_ret. split; [|by apply start_reach].
    destruct (measure_Some _ _ _ _ _ Hfound) as (m & Hs & _). exists found, m. by rewrite <- Hsame.
Qed.

(** The whole publication. *)
Lemma wp_replace_if identity sha256 : (forall c n, read_call J c -> ~ may_fail ok c n) ->
  wp (publish_atomic_file T contents (ReplaceIf identity sha256) nonce)
    (fun _ s' => cas_matches (Some (found, old)) identity sha256 = true /\ holds_contents s' /\ Reach s')
    (fun _ s' => s' = s \/ cas_matches (Some (found, old)) identity sha256 = true /\ Reach s')
    (fun s' => s' = s \/ cas_matches (Some (found, old)) identity sha256 = true /\ Reach s') s.
Proof using HT Hleaf HJp HL Hlock Htree Hlen Hfound Hroom.
  intros Hrel. apply wp_replace; [|by left|by left]. intros t Hcas Ht Hp.
  eapply wp_mono; [by apply wp_commit_replacement|..]; cbn; auto.
Qed.
End replace.
