(* ===== verification/PublicationTheorems.v ===== *)
(** * PublicationTheorems: what publishing a set of files promises

    The properties of a [DurableFileSet] from its opening to the last recovery,
    each with a run of the model on a small disk that meets its hypotheses. *)

From stdpp Require Import gmap.
From S2P Require Import Prelude Text Digest Publication Ordered CrashIO FileSystem FileSpecs Journal JournalSpecs.
From S2P Require Import Transaction Rollback Apply FileSet CrashSafety Commit AllOrNothing DurableSet DurableSpecs Publish NoClobber.

(** ** A small disk

    [/w] holds [a] and [b]; the set removes [a], rewrites [b] and marks the
    generation with [m]. *)
Module Demo.
#[local] Existing Instance toy_os.
#[local] Existing Instance toy_sha256.
#[local] Existing Instance toy_codec.
Definition root : path := [RootDir].
Definition W : path := join_name root (rs "w").
Definition J : path := join_name W (rs "j").
Definition fa : path := join_name W (rs "a").
Definition fb : path := join_name W (rs "b").
Definition fm : path := join_name W (rs "m").
Definition disk : nodes := {[ root := Dir (mkIdentity 1 1); W := Dir (mkIdentity 1 2);
  fa := Reg (mkIdentity 1 3) [10; 11] o644; fb := Reg (mkIdentity 1 4) [20] o755 ]}.
Definition calls : list stage_call :=
  [StageCommitMarker fm [7]; StageWrite fb [99]; StageRemove fa; StageWriteMode fb [1] 9].
Definition staged : DurableFileSet :=
  match run_calls calls (opened J RecoveryNone) disk [] with (Ret t, _, _) => t | _ => opened J RecoveryNone end.
Definition nonce : Z := 7.

Lemma J_normal : normal_path J.
Proof. by exists [rs "w"], (rs "j"). Qed.
Lemma disk_tree : tree disk.
Proof. apply (bool_decide_unpack _). vm_compute. exact I. Qed.
Lemma calls_sized : Forall (fun c => len (call_contents c) <= isize_max) calls.
Proof. apply (bool_decide_unpack _). vm_compute. exact I. Qed.
Definition returned {A} (r : outcome error A * nodes * list (syscall -> verdict)) : bool :=
  match result_of r with Ret _ => true | _ => false end.
Lemma staged_run : staged_by J calls disk staged.
Proof.
  assert (returned (run_calls calls (opened J RecoveryNone) disk []) = true) as Hret by (vm_compute; reflexivity).
  exists RecoveryNone, [], (snd (run_calls calls (opened J RecoveryNone) disk [])). unfold staged.
  pose proof (wp_run _ _ _ _ _ _ [] (wp_run_calls any_fault disk disk_tree calls calls_sized _
    (opened_staged J RecoveryNone disk J_normal)) (any_fault_all [])) as Hrun.
  destruct (run_calls calls (opened J RecoveryNone) disk []) as [ [ [t|e| |] s'] f']; [|done..]. by destruct Hrun as [-> _].
Qed.

(** The changes, in the order they are applied. *)
Definition planned_changes : list PlannedChange := [
  mkChange fa (Some (mkIdentity 1 3)) (Some (sha256_bytes [10; 11])) (Some o644) Remove;
  mkChange fb (Some (mkIdentity 1 4)) (Some (sha256_bytes [20])) (Some o755) (Write [99] o644);
  mkChange fm None None None (Write [7] o644)].
Lemma staged_changes : journal staged = J /\ planned_set staged = planned_changes.
Proof. split; vm_compute; reflexivity. Qed.
Lemma staged_room : room (journal staged) nonce disk (planned_set staged).
Proof.
  destruct staged_changes as [-> ->]. split.
  - split_and!; [|vm_compute; reflexivity..]. apply (bool_decide_unpack _). vm_compute. exact I.
  - apply (bool_decide_unpack _). vm_compute. exact I.
  - apply (antichain_by_length 3). repeat constructor.
  - intros ic p Hic Hp. assert (Forall (fun ic => forall p, p ∈ option_list (backup (op_of nonce ic nobody)) ++
      option_list (stage (op_of nonce ic nobody)) -> disk !! p = None) (enumerate_from 0 planned_changes)) as Hall.
    { repeat (constructor; [apply Forall_forall; apply (bool_decide_unpack _); vm_compute; exact I|]). constructor. }
    rewrite Forall_forall in Hall. apply (Hall ic Hic). by rewrite elem_of_app, !elem_of_option_list.
  - split; [done|]. vm_compute. discriminate.
Qed.
End Demo.

Section theorems.
Context {O : Os_params} {H : Sha256} {K : JournalCodec}.
Implicit Types (s : nodes) (t : DurableFileSet) (f g : list (syscall -> verdict)) (runs : list (list (syscall -> verdict))).



(** C5. An undisturbed commit of a staged set, whose targets have their
    directories and whose journal can be encoded, returns and publishes every
    change. *)
Theorem undisturbed_commit_publishes (J : path) calls s t (nonce : Z) :
  normal_path J -> tree s -> Forall (fun c => len (call_contents c) <= isize_max) calls ->
  staged_by J calls s t -> room (journal t) nonce s (planned_set t) ->
  (forall ch, ch ∈ planned_set t -> dirs s (change_path ch)) -> encodable nonce s (planned_set t) ->
  result_of (commit_set nonce t s []) = Ret (mkReceipt (recovery t)) /\
  all_new (journal t) nonce s (planned_set t) (state_after (commit_set nonce t s [])).
Proof.
  intros HJ Htree Hc Hby Hroom Hdirs Henc. pose proof (staged_by_set J calls s t HJ Htree Hc Hby) as Ht.
  pose proof (staged_admissible nonce s t Ht Hroom) as Hadm.
  assert (exists rec, result_of (commit_set nonce t s []) = Ret rec) as [rec Hrec].
  { destruct (commit_calm _ _ _ _ Hadm) as [Hret _]; [intros ch Hch; split; [auto|by eapply staged_current]|done|].
    destruct (commit_set_run nonce t s []) as [ [_ ->]|(s' & f' & _ & ->)]; [by eexists|].
    unfold result_of in *. cbn [fst]. rewrite Hret. by eexists. }
  destruct (commit_set_reach nonce t s [] Ht Hroom (List.Forall_nil _)) as (_ & _ & Hret & _).
  destruct (Hret rec Hrec) as [<- Hnew]. done.
Qed.

(** C6. Staging keeps the set publishable.  Whatever methods are called, with
    whatever arguments and faults, they neither change the disk nor panic, and
    they leave a set with one change per path, no two changes alike on a
    case-insensitive host, every target below the journal's directory and
    portably named, every change holding the identity, digest and mode its
    target has, and the commit marker last. *)
Theorem staging_keeps_set (J : path) (rec : RecoveryOutcome) calls s f :
  normal_path J -> tree s -> Forall (fun c => len (call_contents c) <= isize_max) calls ->
  let r := run_calls calls (opened J rec) s f in
  state_after r = s /\
  (result_of r = Crashed \/ exists t, result_of r = Ret t /\
    NoDup (map change_path (planned_set t)) /\ NoDup (omap (key_of (journal t)) (planned_set t)) /\
    (forall ch, ch ∈ planned_set t -> normal_path (change_path ch) /\ is_Some (key_of (journal t) ch) /\
       planned ch /\ current_change s ch) /\
    (forall mk, commit_marker t = Some mk -> last (planned_set t) = Some mk)).
Proof.
  intros HJ Htree Hc. cbn zeta.
  pose proof (wp_run _ _ _ _ _ _ f (wp_run_calls any_fault s Htree calls Hc _ (opened_staged J rec s HJ)) (any_fault_all f)) as Hrun.
  unfold state_after, result_of. destruct (run_calls calls (opened J rec) s f) as [ [ [t|e| |] s'] f']; cbn [fst snd];
    [|done|split; [by destruct Hrun|by left]|done].
  destruct Hrun as [-> Ht]. split; [done|right]. exists t. split; [done|].
  destruct (planned_keys s t Ht) as (Htg & Hkey & Hnd & Hndk). split_and!; [done|done| |].
  - intros ch Hch. destruct (Htg ch Hch). split_and!; [done|auto|done|by eapply staged_current].
  - intros mk Hmk. unfold planned_set, ordered_changes. rewrite Hmk. apply last_snoc.
Qed.

(** C4. A no-clobber publication of one file, interrupted anywhere and followed
    by any interrupted recoveries, leaves the target absent or complete: when it
    returns, the file is published and nothing else is left; an existing target
    is refused and nothing is touched; once the target is visible no later
    recovery removes or changes it; and when a recovery returns, the disk is as
    before or holds exactly the new file. *)
Theorem noclobber_all_or_nothing (J L T : path) (contents : list Z) (nonce : Z) s f runs g :
  admissible J nonce s [creation T contents] -> publication_journal_path T (rs "file") = Ok J ->
  publication_journal_lock_path J = Ok L -> (exists id b m, s !! L = Some (Reg id b m)) ->
  let r := publish_file_noclobber T contents nonce s f in
  let s2 := recoveries J runs (state_after r) in
  let last := recover_if_needed J s2 g in
  result_of r <> Panicked /\
  (forall oc, result_of r = Ret oc -> all_new J nonce s [creation T contents] (state_after r)) /\
  (s !! T <> None -> s2 = s /\ forall oc, result_of r <> Ret oc) /\
  (state_after r !! T <> None -> s2 !! T = state_after r !! T) /\
  (s !! T = None -> forall oc, result_of last = Ret oc ->
     all_old J nonce s [creation T contents] (state_after last) \/
     all_new J nonce s [creation T contents] (state_after last)).
Proof.
  intros Hadm HJ HL (id & b & m & Hs). cbn zeta.
  destruct (publish_run J L T contents nonce s f id b m Hadm HJ HL Hs) as (Hp & Hreach & Hex & Hret).
  assert (s !! T <> None -> recoveries J runs s = s) as Hnothing.
  { intros _. destruct (adm_journal _ _ _ _ Hadm) as (HnJ & Hd & Hn & HnS).
    apply recoveries_nothing; [done|by eapply stage_distinct|done..]. }
  split_and!; [done|done| | |].
  - intros Hne. destruct (Hex Hne) as [-> ?]. auto.
  - destruct (s !! T) as [n|] eqn:ET.
    + intros _. destruct (Hex ltac:(done)) as [-> _]. by rewrite Hnothing.
    + apply (recoveries_reach1 J T contents nonce s runs Hadm ET). auto.
  - intros Habs. destruct (recoveries_reach1 J T contents nonce s runs Hadm Habs _ (Hreach Habs)) as [Hr2 _].
    apply (recover_reach1_run J T contents nonce s _ g Hadm Habs Hr2).
Qed.

End theorems.

(** ** Runs that meet the hypotheses *)
#[local] Existing Instance toy_os.
#[local] Existing Instance toy_sha256.
#[local] Existing Instance toy_codec.
Definition go (c : syscall) : verdict := Go.
Definition fails (c : syscall) : verdict := Fails 0.
Definition dies (c : syscall) : verdict := Crashes 0.
(** The run goes well for [n] calls and dies at the next. *)
Definition cut (n : nat) : list (syscall -> verdict) := replicate n go ++ [dies].

Lemma cut_readable J n : Forall (journal_readable J) (cut n).
Proof.
  apply Forall_app. split; [|constructor; [by intros c k _|constructor] ].
  apply Forall_replicate. by intros c k _.
Qed.



Lemma staging_keeps_set_witness : state_after (run_calls Demo.calls (opened Demo.J RecoveryNone) Demo.disk (cut 9)) = Demo.disk.
Proof. apply staging_keeps_set; [exact Demo.J_normal|exact Demo.disk_tree|exact Demo.calls_sized]. Defined.

Lemma demo_encodable : encodable Demo.nonce Demo.disk (planned_set Demo.staged).
Proof.
  destruct Demo.staged_changes as [_ ->]. intros items st [Hf _]. unfold Demo.planned_changes in Hf.
  cbn [enumerate_from] in Hf.
  apply Forall2_cons_inv_l in Hf as (i1 & items1 & (p1 & n1 & -> & _) & Hf & ->).
  apply Forall2_cons_inv_l in Hf as (i2 & items2 & (p2 & n2 & -> & _) & Hf & ->).
  apply Forall2_cons_inv_l in Hf as (i3 & items3 & (p3 & n3 & -> & _) & Hf & ->).
  apply Forall2_nil_inv_l in Hf as ->. destruct st, n1, n2, n3; vm_compute; eauto.
Qed.

Lemma undisturbed_commit_publishes_witness :
  result_of (commit_set Demo.nonce Demo.staged Demo.disk []) = Ret (mkReceipt (recovery Demo.staged)).
Proof.
  apply (undisturbed_commit_publishes Demo.J Demo.calls Demo.disk Demo.staged Demo.nonce).
  - exact Demo.J_normal.
  - exact Demo.disk_tree.
  - exact Demo.calls_sized.
  - exact Demo.staged_run.
  - exact Demo.staged_room.
  - rewrite (proj2 Demo.staged_changes). apply Forall_forall.
    repeat (constructor; [apply (bool_decide_unpack _); vm_compute; exact I|]). constructor.
  - exact demo_encodable.
Defined.

(** Publishing the file [n] beside its lock. *)
Definition new_file : path := join_name Demo.W (rs "n").
Definition new_journal : path :=
  match publication_journal_path new_file (rs "file") with Ok p => p | _ => [] end.
Definition new_lock : path :=
  match publication_journal_lock_path new_journal with Ok p => p | _ => [] end.
Definition locked_disk : nodes := <[new_lock := Reg (mkIdentity 1 5) [] o600]> Demo.disk.
Lemma new_admissible : admissible new_journal 9 locked_disk [creation new_file [1; 2; 3] ].
Proof.
  split.
  - split_and!; [by eexists [rs "w"], _|apply (bool_decide_unpack _); vm_compute; exact I|vm_compute; reflexivity..].
  - intros ch ->%list_elem_of_singleton. split; [by exists [rs "w"], (rs "n")|]. unfold planned. cbn.
    split_and!; [by split; intros [? ?]..|done|vm_compute; discriminate|by left].
  - split; [|by apply (bool_decide_unpack _); vm_compute]. intros ch ->%list_elem_of_singleton. vm_compute. by eexists.
  - apply (bool_decide_unpack _). vm_compute. exact I.
  - apply (antichain_by_length 3). repeat constructor.
  - intros ic p ->%list_elem_of_singleton [Hp|Hp]; [done|]. injection Hp as <-. vm_compute. reflexivity.
  - split; [done|]. vm_compute. discriminate.
Qed.

Lemma noclobber_all_or_nothing_witness :
  let r := publish_file_noclobber new_file [1; 2; 3] 9 locked_disk (cut 235) in
  let last := recover_if_needed new_journal (recoveries new_journal [cut 20] (state_after r)) [] in
  result_of r = Crashed /\ result_of last = Ret CompletedCleanup /\
  (all_old new_journal 9 locked_disk [creation new_file [1; 2; 3] ] (state_after last) \/
   all_new new_journal 9 locked_disk [creation new_file [1; 2; 3] ] (state_after last)).
Proof.
  cbn zeta. split; [vm_compute; reflexivity|]. split; [vm_compute; reflexivity|].
  eapply (noclobber_all_or_nothing new_journal new_lock new_file [1; 2; 3] 9 locked_disk (cut 235) [cut 20] []).
  - exact new_admissible.
  - vm_compute. reflexivity.
  - vm_compute. reflexivity.
  - eexists _, _, _. vm_compute. reflexivity.
  - vm_compute. reflexivity.
  - vm_compute. reflexivity.
Defined.

(** Replacing [b] beside its lock. *)
Definition b_journal : path :=
  match publication_journal_path Demo.fb (rs "file") with Ok p => p | _ => [] end.
Definition b_lock : path :=
  match publication_journal_lock_path b_journal with Ok p => p | _ => [] end.
Definition b_disk : nodes := <[b_lock := Reg (mkIdentity 1 5) [] o600]> Demo.disk.
Lemma b_admissible : admissible b_journal 9 b_disk [replacement Demo.fb [5] (mkIdentity 1 4) [20] o755].
Proof.
  split.
  - split_and!; [by eexists [rs "w"], _|apply (bool_decide_unpack _); vm_compute; exact I|vm_compute; reflexivity..].
  - intros ch ->%list_elem_of_singleton. split; [by exists [rs "w"], (rs "b")|]. unfold planned. cbn.
    split_and!; [by split; intros [? ?]; eauto..| |vm_compute; discriminate|by left]. intros m [= <-]. by split.
  - split; [|by apply (bool_decide_unpack _); vm_compute]. intros ch ->%list_elem_of_singleton. vm_compute. by eexists.
  - apply (bool_decide_unpack _). vm_compute. exact I.
  - apply (antichain_by_length 3). repeat constructor.
  - intros ic p ->%list_elem_of_singleton [Hp|Hp]; injection Hp as <-; vm_compute; reflexivity.
  - split; [done|]. vm_compute. discriminate.
Qed.


(** ** Where the code falls short *)
Definition contents_at (s : nodes) (p : path) : option (list Z) :=
  match s !! p with Some (Reg _ bytes _) => Some bytes | _ => None end.



(** Contradictory requests for one file are only refused when the later one
    would change the file: after [stage_remove a], [stage_write a] with the
    contents [a] already has answers [false], "nothing to do", and the commit
    then removes [a]; with other contents it is refused as conflicting. *)
Theorem unchanged_write_misses_conflict :
  let '(removed, s1, _) := stage_remove Demo.fa (opened Demo.J RecoveryNone) Demo.disk [] in
  match removed with
  | Ret (t1, inl true) =>
    match stage_write Demo.fa [10; 11] t1 s1 [], stage_write Demo.fa [12] t1 s1 [] with
    | (Ret (t2, inl false), s2, _), (Ret (_, inr e), _, _) =>
      e = Failure InvalidInput ConflictingMutation /\
      result_of (commit_set Demo.nonce t2 s2 []) = Ret (mkReceipt RecoveryNone) /\
      contents_at (state_after (commit_set Demo.nonce t2 s2 [])) Demo.fa = None
    | _, _ => False
    end
  | _ => False
  end.
Proof. vm_compute. done. Qed.
