(* ===== verification/OwnerGraph.v ===== *)
(** * OwnerGraph: the owner graph of MetaMake declarations

    Models [crates/aros-transpiler/src/metamake_owner_graph.rs]: the bounded
    parser of the [#MM] lines of expanded makefiles, the graph of targets,
    dependencies and owning makefiles it builds, and the selection of what a
    list of roots reaches.  Every step pays into a counter with a limit; the
    counters are the state of the parser.  A string is the list of its UTF-8
    bytes here, since the code works on [as_bytes]. *)

From S2P Require Import Prelude Text Ordered StateRes.

Definition REFERENCE_IDENTITY_BYTES : Z := 4095.
Definition REFERENCE_VARIABLE_BYTES : Z := 255.

Record Limits := mkLimits {
  preserve_empty_endpoints : bool;
  max_files : Z; max_total_bytes : Z; max_file_bytes : Z; max_total_lines : Z;
  max_line_bytes : Z; max_tokens : Z; max_targets : Z; max_edges : Z; max_work : Z;
  max_global_bindings : Z; max_global_bytes : Z; max_global_value_bytes : Z;
  max_identity_bytes : Z; max_total_identity_copy_bytes : Z;
}.

Definition default_limits : Limits :=
  mkLimits false 20000 (64 * 1024 * 1024) (8 * 1024 * 1024) 2000000 (64 * 1024) 2000000 500000
    1000000 4000000 16384 (16 * 1024 * 1024) (1024 * 1024) REFERENCE_IDENTITY_BYTES (64 * 1024 * 1024).

(** ** Data *)
Record LocalTarget := mkLocal { virtual_local : bool; local_dependencies : list (list Z) }.
Record DependencyProvenance := mkDependency { raw_expression : list Z; concrete : list Z }.
Record TargetDeclarationProvenance := mkDeclaration {
  expanded_line : Z;
  file : list Z;
  raw_target : list Z;
  target : list Z;
  virtual_target : bool;
  bare_marker : bool;
  claims_make_owner : bool;
  declared_dependencies : list DependencyProvenance;
}.
Abbreviation declaration := TargetDeclarationProvenance.
Record LocalFileParse := mkParse {
  local_targets : list (list Z * LocalTarget);
  local_declarations : list declaration;
}.
Record MetaMakeOwnerGraph := mkGraph {
  known_targets : list (list Z);
  dependencies : list (list Z * list (list Z));
  owners : list (list Z * list (list Z));
  declarations : list declaration;
}.
Record Selection := mkSelection {
  reached_targets : list (list Z);
  missing_endpoints : list (list Z);
  selected_owner_files : list (list Z);
}.

(** The messages of the code; a limit names what it counts. *)
Inductive graph_error :=
| CounterOverflow (label : list Z) | LimitExceeded (label : list Z)
| FileLimit | PathLimit | FileByteLimit | LineByteLimit | ContinuationLimit | ContinuedLineLimit
| BindingLimit | VariableNameLimit | ValueLimit | RootLimit
| RuleEdgeLimit | PairOverflow | GlobalTargetLimit | FileTargetLimit | TargetEdgeLimit
| InvalidAbsent | BoundAndAbsent
| UnterminatedContinuation | EmptyContinuation | EmptyDisabledContinuation | BadContinuation
| NonUtf8Directive | NonAsciiDirective | MalformedVirtual | BareWithoutTarget | BareTokenCount | NoTarget
| QuotedToken | ControlByte | NonUtf8Token | TokenCap
| UnsupportedDollar | UnterminatedReference | NonUtf8Name | UnsupportedName | Unbound (name : list Z)
| ControlExpansion | EmptyIdentity | WhitespaceIdentity | NonUtf8Identity
| InvalidSourceLine | MissingSourceLine | NotADeclaration | SourceLimit.

(** ** Counters *)
Record Counters := mkCounters {
  total_bytes : Z; total_lines : Z; tokens_seen : Z; provenance_edges_seen : Z;
  work : Z; identity_copy_bytes : Z; global_edge_count : Z;
  local_edge_pairs : Z;   (** of the makefile that is being read *)
}.
Definition zero_counters : Counters := mkCounters 0 0 0 0 0 0 0 0.

Inductive counter :=
| TotalBytes | TotalLines | Tokens | ProvenanceEdges | Work | IdentityCopies | GlobalEdges | LocalEdges.

#[global] Instance counter_eq_dec : EqDecision counter.
Proof. solve_decision. Defined.

Definition counter_of (s : Counters) (c : counter) : Z :=
  match c with
  | TotalBytes => total_bytes s | TotalLines => total_lines s | Tokens => tokens_seen s
  | ProvenanceEdges => provenance_edges_seen s | Work => work s
  | IdentityCopies => identity_copy_bytes s | GlobalEdges => global_edge_count s
  | LocalEdges => local_edge_pairs s
  end.
Definition set_counter (c : counter) (v : Z) (s : Counters) : Counters :=
  match s with
  | mkCounters b l t p w i g e =>
    match c with
    | TotalBytes => mkCounters v l t p w i g e | TotalLines => mkCounters b v t p w i g e
    | Tokens => mkCounters b l v p w i g e | ProvenanceEdges => mkCounters b l t v w i g e
    | Work => mkCounters b l t p v i g e | IdentityCopies => mkCounters b l t p w v g e
    | GlobalEdges => mkCounters b l t p w i v e | LocalEdges => mkCounters b l t p w i g v
    end
  end.
(** The limit the code passes along with a counter. *)
Definition max_of (limits : Limits) (c : counter) : Z :=
  match c with
  | TotalBytes => max_total_bytes limits | TotalLines => max_total_lines limits
  | Tokens => max_tokens limits | ProvenanceEdges => max_edges limits | Work => max_work limits
  | IdentityCopies => max_total_identity_copy_bytes limits
  | GlobalEdges | LocalEdges => max_edges limits
  end.

(** [checked_add] *)
Definition counter_add (current amount max : Z) (label : list Z) : res graph_error Z :=
  next ← ok_or (checked_add usize_max current amount) (CounterOverflow label);
  _ ← refuse (max <? next) (LimitExceeded label);
  Ok next.

Abbreviation parser := (SR Counters graph_error).

(** [BTreeSet::extend] and collecting into a set *)
Definition bs_extend (new s : list (list Z)) : list (list Z) := foldl (fun s x => bs_put str_ltb x s) s new.

(** [s.split_terminator(c)] *)
Definition split_terminator (c : Z) (s : list Z) : list (list Z) :=
  match rev (split_on (Z.eqb c) s) with
  | [] :: ws => rev ws
  | ws => rev ws
  end.

Fixpoint trim_ascii_start (bytes : list Z) : list Z :=
  match bytes with
  | b :: bytes' => if is_ascii_whitespace b then trim_ascii_start bytes' else bytes
  | [] => []
  end.

(** [logical.iter().rposition(|b| !b.is_ascii_whitespace())] and the byte there *)
Definition last_nonspace (logical : list Z) : option Z := head (trim_ascii_start (rev logical)).

Section owner_graph.
Context (limits : Limits) (globals : list (list Z * list Z)).

Definition charge (c : counter) (amount : Z) (label : list Z) : parser unit :=
  current ← gets (fun s => counter_of s c);
  next ← lift (counter_add current amount (max_of limits c) label);
  update (set_counter c next).
Definition bump (label : list Z) : parser unit := charge Work 1 label.
Definition charge_identity_copy (amount : Z) (label : list Z) : parser unit :=
  charge IdentityCopies amount label.
Definition count_tokens (count : Z) : parser unit := charge Tokens count (rs "token").

(** ** Lines *)
Fixpoint continue_with (logical : list Z) (continuation_work : Z) (rest : list (list Z))
  : parser (list Z * list (list Z)) :=
  _ ← bump (rs "continuation work");
  if negb (bool_decide (last_nonspace logical = Some 92)) then mret (logical, rest)
  else
    let continuation_work := continuation_work + 1 in
    _ ← lift (refuse (max_total_lines limits <? continuation_work) ContinuationLimit);
    match rest with
    | [] => fail UnterminatedContinuation
    | next :: rest =>
      if starts_with next (rs "##M") then
        _ ← lift (refuse (eqb_list logical []) EmptyContinuation);
        final ← lift (ok_or (last next) EmptyDisabledContinuation);
        continue_with (removelast logical ++ [final]) continuation_work rest
      else
        _ ← lift (refuse (negb (starts_with next (rs "#MM")) || (len next <? 4)) BadContinuation);
        _ ← lift (refuse (eqb_list logical []) EmptyContinuation);
        let logical := removelast logical ++ drop 4 next in
        _ ← lift (refuse (max_line_bytes limits <? len logical) ContinuedLineLimit);
        continue_with logical continuation_work rest
    end.

Definition collect_continuations (first : list Z) (rest : list (list Z))
  : parser (list Z * list (list Z)) :=
  '(logical, rest) ← continue_with first 0 rest;
  _ ← lift (ok_or (from_utf8 logical) NonUtf8Directive);
  mret (logical, rest).

(** One token and what follows it. *)
Fixpoint token_bytes (bytes : list Z) : res graph_error (list Z * list Z) :=
  match bytes with
  | [] => Ok ([], [])
  | b :: rest =>
    if is_ascii_whitespace b then Ok ([], bytes)
    else
      _ ← refuse (b =? 34) QuotedToken;
      _ ← ensure (is_ascii_graphic b) ControlByte;
      '(token, rest) ← token_bytes rest;
      Ok (b :: token, rest)
  end.
Fixpoint tokenize_from (fuel : nat) (bytes : list Z) (tokens : list (list Z))
  : res graph_error (list (list Z)) :=
  match trim_ascii_start bytes with
  | [] => Ok tokens
  | bytes =>
    match fuel with
    | O => Stuck
    | S fuel =>
      '(token, rest) ← token_bytes bytes;
      _ ← ok_or (from_utf8 token) NonUtf8Token;
      let tokens := tokens ++ [token] in
      _ ← refuse (254 <? len tokens) TokenCap;
      tokenize_from fuel rest tokens
    end
  end.
Definition tokenize_make_args (bytes : list Z) : res graph_error (list (list Z)) :=
  tokenize_from (length bytes) bytes [].

(** ** Identities *)
(** The value of the reference whose dollar has just been read, and the text
    behind its parenthesis. *)
Definition global_expansion (after : list Z) : res graph_error (list Z * list Z) :=
  match after with
  | 40 :: body =>
    '(name, rest) ← ok_or (split_once 41 body) UnterminatedReference;
    _ ← ok_or (from_utf8 name) NonUtf8Name;
    _ ← refuse (eqb_list name [] || (REFERENCE_VARIABLE_BYTES <? len name)
                || existsb (fun b => negb (is_ascii_graphic b) || (b =? 36) || (b =? 40)) name)
               UnsupportedName;
    value ← ok_or (bt_get name globals) (Unbound name);
    Ok (value, rest)
  | _ => Err UnsupportedDollar
  end.

Fixpoint measure_identity (fuel : nat) (bytes : list Z) (output_len : Z) : res graph_error Z :=
  match bytes, fuel with
  | [], _ => Ok output_len
  | _, O => Stuck
  | b :: rest, S fuel =>
    let identity_limit := Z.min (max_identity_bytes limits) REFERENCE_IDENTITY_BYTES in
    if negb (b =? 36) then
      output_len ← counter_add output_len 1 identity_limit (rs "identity byte");
      measure_identity fuel rest output_len
    else
      '(value, rest) ← global_expansion rest;
      _ ← refuse (existsb (fun b => negb (is_ascii_graphic b)) value) ControlExpansion;
      output_len ← counter_add output_len (len value) identity_limit (rs "identity byte");
      measure_identity fuel rest output_len
  end.
Fixpoint copy_identity (fuel : nat) (bytes : list Z) : res graph_error (list Z) :=
  match bytes, fuel with
  | [], _ => Ok []
  | _, O => Stuck
  | b :: rest, S fuel =>
    if b =? 36 then
      '(value, rest) ← global_expansion rest;
      result ← copy_identity fuel rest;
      Ok (value ++ result)
    else
      result ← copy_identity fuel rest;
      Ok (b :: result)
  end.

Definition substitute_identity (token : list Z) : parser (list Z) :=
  output_len ← lift (measure_identity (length token) token 0);
  _ ← lift (refuse ((output_len =? 0) && negb (preserve_empty_endpoints limits)) EmptyIdentity);
  _ ← charge_identity_copy output_len (rs "expanded identity");
  result ← lift (copy_identity (length token) token);
  _ ← lift (refuse (existsb is_ascii_whitespace result) WhitespaceIdentity);
  _ ← lift (ok_or (from_utf8 result) NonUtf8Identity);
  mret result.

(** ** One makefile *)
Definition merge_local_target (targets : list (list Z * LocalTarget)) (name : list Z) (virtual : bool)
  (deps : list (list Z)) : res graph_error (list (list Z * LocalTarget)) :=
  _ ← refuse (negb (bool_decide (is_Some (bt_get name targets))) && (max_targets limits <=? len targets))
             FileTargetLimit;
  match bt_get name targets with
  | None =>
    _ ← refuse (max_edges limits <? len deps) TargetEdgeLimit;
    Ok (bt_put str_ltb name (mkLocal virtual deps) targets)
  | Some old =>
    _ ← refuse (max_edges limits <? Z.min (len (local_dependencies old) + len deps) usize_max) TargetEdgeLimit;
    Ok (bt_put str_ltb name (mkLocal (virtual_local old && virtual)
                               (bs_extend deps (local_dependencies old))) targets)
  end.

Definition declare (st : LocalFileParse) (d : declaration) (virtual : bool) (deps : list (list Z))
  : parser LocalFileParse :=
  targets ← lift (merge_local_target (local_targets st) (target d) virtual deps);
  mret (mkParse targets (local_declarations st ++ [d])).

(** A bare [#MM]: the target is the first word of the next line. *)
Definition parse_bare (path : list Z) (line : Z) (virtual : bool) (next : list Z) (st : LocalFileParse)
  : parser LocalFileParse :=
  let target_text := match split_once 58 next with Some (before, _) => before | None => next end in
  parsed ← lift (tokenize_make_args target_text);
  _ ← count_tokens (len parsed);
  raw ← lift (match parsed with [raw] => Ok raw | _ => Err BareTokenCount end);
  name ← substitute_identity raw;
  _ ← bump (rs "provenance declaration work");
  _ ← charge_identity_copy (len path) (rs "provenance makefile path copy");
  _ ← charge_identity_copy (len raw) (rs "provenance raw target copy");
  _ ← charge_identity_copy (len name) (rs "target name copy for provenance");
  declare st (mkDeclaration line path raw name virtual true true []) false [].

Definition expand_target (acc : list (list Z * list Z)) (raw : list Z) : parser (list (list Z * list Z)) :=
  name ← substitute_identity raw;
  mret (acc ++ [(raw, name)]).
Definition expand_dependency (acc : list (list Z) * list (list Z * list Z)) (raw : list Z)
  : parser (list (list Z) * list (list Z * list Z)) :=
  endpoint ← substitute_identity raw;
  _ ← charge_identity_copy (len endpoint) (rs "dependency identity copy for graph set");
  mret (bs_put str_ltb endpoint (fst acc), snd acc ++ [(raw, endpoint)]).

Definition copy_dependency (acc : list DependencyProvenance) (token : list Z * list Z)
  : parser (list DependencyProvenance) :=
  _ ← charge_identity_copy (len (fst token)) (rs "provenance raw dependency copy");
  _ ← charge_identity_copy (len (snd token)) (rs "provenance dependency endpoint copy");
  mret (acc ++ [mkDependency (fst token) (snd token)]).
Definition declare_target (path : list Z) (line : Z) (virtual : bool) (dependency_names : list (list Z))
  (dependency_tokens : list (list Z * list Z)) (st : LocalFileParse) (token : list Z * list Z)
  : parser LocalFileParse :=
  _ ← bump (rs "parse work");
  provenance ← forM copy_dependency [] dependency_tokens;
  _ ← charge_identity_copy (len path) (rs "provenance makefile path copy");
  _ ← charge_identity_copy (len (fst token)) (rs "provenance raw target copy");
  _ ← charge_identity_copy (len (snd token)) (rs "local target name copy for merged map");
  declare st (mkDeclaration line path (fst token) (snd token) virtual false (negb virtual) provenance)
    virtual dependency_names.

Definition clone_dependencies (names : list (list Z)) (_ : unit) (_ : list Z * list Z) : parser unit :=
  forM (fun _ name => charge_identity_copy (len name) (rs "per-target dependency clone")) tt names.

Definition parse_rule (path : list Z) (line : Z) (virtual : bool) (rest : list Z) (st : LocalFileParse)
  : parser LocalFileParse :=
  let '(target_text, dependency_text) :=
    match split_once 58 rest with Some parts => parts | None => (rest, []) end in
  raw_targets ← lift (tokenize_make_args target_text);
  raw_dependencies ← lift (tokenize_make_args dependency_text);
  _ ← count_tokens (len raw_targets + len raw_dependencies);
  _ ← lift (refuse (len raw_targets =? 0) NoTarget);
  target_tokens ← forM expand_target [] raw_targets;
  '(dependency_names, dependency_tokens) ← forM expand_dependency ([], []) raw_dependencies;
  _ ← lift (refuse (max_edges limits <? len dependency_names) RuleEdgeLimit);
  edge_pairs ← lift (ok_or (checked_mul usize_max (len target_tokens) (len dependency_names)) PairOverflow);
  provenance_edge_pairs ←
    lift (ok_or (checked_mul usize_max (len target_tokens) (len dependency_tokens)) PairOverflow);
  _ ← charge LocalEdges edge_pairs (rs "per-file declared edge");
  _ ← charge ProvenanceEdges provenance_edge_pairs (rs "global provenance edge");
  _ ← charge Work edge_pairs (rs "parse work");
  _ ← charge Work provenance_edge_pairs (rs "provenance parse work");
  _ ← forM (clone_dependencies dependency_names) tt target_tokens;
  forM (declare_target path line virtual dependency_names dependency_tokens) st target_tokens.

(** A directive, and the lines that are left behind it. *)
Definition parse_directive (path : list Z) (line : Z) (first : list Z) (rest : list (list Z)) (st : LocalFileParse)
  : parser (LocalFileParse * list (list Z)) :=
  '(logical, rest) ← collect_continuations first rest;
  _ ← lift (refuse (existsb (fun b => negb (b <? 128)) logical) NonAsciiDirective);
  let body := drop 3 logical in
  let virtual := bool_decide (head body = Some 45) in
  let body := trim_ascii_start (if virtual then drop 1 body else body) in
  _ ← lift (refuse (bool_decide (head body = Some 45)) MalformedVirtual);
  if eqb_list body [] then
    match rest with
    | [] => fail BareWithoutTarget
    | next :: rest =>
      st ← parse_bare path line virtual next st;
      mret (st, rest)
    end
  else
    st ← parse_rule path line virtual body st;
    mret (st, rest).

(** [rest] are the lines that are left of [total]. *)
Fixpoint parse_lines (fuel : nat) (path : list Z) (total : Z) (rest : list (list Z)) (st : LocalFileParse)
  : parser LocalFileParse :=
  match rest, fuel with
  | [], _ => mret st
  | _, O => lift Stuck
  | line :: rest, S fuel =>
    _ ← bump (rs "parse work");
    let line_index := total - len rest in
    if negb (starts_with line (rs "#MM")) then parse_lines fuel path total rest st
    else
      '(st, rest) ← parse_directive path line_index line rest st;
      parse_lines fuel path total rest st
  end.
Definition parse_file_lines (lines : list (list Z)) (path : list Z) : parser LocalFileParse :=
  _ ← update (set_counter LocalEdges 0);
  parse_lines (length lines) path (len lines) lines (mkParse [] []).

(** ** All makefiles *)
Definition validate_global (bytes : Z) (binding : list Z * list Z) : res graph_error Z :=
  let '(name, value) := binding in
  _ ← refuse (Z.min (max_identity_bytes limits) REFERENCE_VARIABLE_BYTES <? len name) VariableNameLimit;
  _ ← refuse (max_global_value_bytes limits <? len value) ValueLimit;
  bytes ← counter_add bytes (len name) (max_global_bytes limits) (rs "global byte");
  counter_add bytes (len value) (max_global_bytes limits) (rs "global byte").
Definition validate_global_limits : res graph_error unit :=
  _ ← refuse (max_global_bindings limits <? len globals) BindingLimit;
  _ ← foldM validate_global 0 globals;
  Ok tt.

Definition read_line (_ : unit) (line : list Z) : parser unit :=
  _ ← lift (refuse (max_line_bytes limits <? len line) LineByteLimit);
  charge TotalLines 1 (rs "line").
Definition read_file (parsed_files : list (list Z * LocalFileParse)) (entry : list Z * list Z)
  : parser (list (list Z * LocalFileParse)) :=
  let '(path, contents) := entry in
  _ ← lift (refuse (max_identity_bytes limits <? len path) PathLimit);
  _ ← charge TotalBytes (len contents) (rs "total byte");
  _ ← lift (refuse (max_file_bytes limits <? len contents) FileByteLimit);
  let physical_lines := split_terminator 10 contents in
  _ ← forM read_line tt physical_lines;
  local ← parse_file_lines physical_lines path;
  _ ← charge_identity_copy (len path) (rs "makefile path copy");
  mret (parsed_files ++ [(path, local)]).

Definition merge_edge (edges : list (list Z)) (dependency : list Z) : parser (list (list Z)) :=
  _ ← bump (rs "graph merge work");
  _ ← (if bs_has dependency edges then mret tt else charge GlobalEdges 1 (rs "global edge"));
  mret (bs_put str_ltb dependency edges).
Definition merge_target (path : list Z) (g : MetaMakeOwnerGraph) (entry : list Z * LocalTarget)
  : parser MetaMakeOwnerGraph :=
  let '(name, t) := entry in
  _ ← bump (rs "graph merge work");
  _ ← charge_identity_copy (len name) (rs "global target identity copy");
  let known := bs_put str_ltb name (known_targets g) in
  _ ← lift (refuse (max_targets limits <? len known) GlobalTargetLimit);
  _ ← charge_identity_copy (len name) (rs "global dependency-map key copy");
  edges ← forM merge_edge (default [] (bt_get name (dependencies g))) (local_dependencies t);
  let deps := bt_put str_ltb name edges (dependencies g) in
  if virtual_local t then mret (mkGraph known deps (owners g) (declarations g))
  else
    _ ← bump (rs "graph merge work");
    _ ← charge_identity_copy (len path) (rs "owner path copy");
    let files := bs_put str_ltb path (default [] (bt_get name (owners g))) in
    mret (mkGraph known deps (bt_put str_ltb name files (owners g)) (declarations g)).
Definition merge_file (g : MetaMakeOwnerGraph) (parsed : list Z * LocalFileParse) : parser MetaMakeOwnerGraph :=
  let '(path, local) := parsed in
  _ ← charge Work (len (local_declarations local)) (rs "provenance merge work");
  let g := mkGraph (known_targets g) (dependencies g) (owners g) (declarations g ++ local_declarations local) in
  forM (merge_target path) g (local_targets local).

Definition empty_graph : MetaMakeOwnerGraph := mkGraph [] [] [] [].
Definition build_graph (files : list (list Z * list Z)) : parser MetaMakeOwnerGraph :=
  _ ← lift (refuse (max_files limits <? len files) FileLimit);
  _ ← lift validate_global_limits;
  parsed_files ← forM read_file [] files;
  forM merge_file empty_graph parsed_files.
Definition parse_expanded_files (files : list (list Z * list Z)) : res graph_error MetaMakeOwnerGraph :=
  fst (build_graph files zero_counters).

(** ** Selection *)
Definition select_root (g : MetaMakeOwnerGraph) (acc : list (list Z) * list (list Z)) (root : list Z)
  : parser (list (list Z) * list (list Z)) :=
  let '(queue, missing) := acc in
  _ ← bump (rs "selection work");
  _ ← lift (refuse (max_identity_bytes limits <? len root) RootLimit);
  if negb (eqb_list root []) && bs_has root (known_targets g) then
    _ ← charge_identity_copy (len root) (rs "selection root copy");
    mret (queue ++ [root], missing)
  else
    _ ← charge_identity_copy (len root) (rs "missing-root identity copy");
    mret (queue, bs_put str_ltb root missing).

Definition select_owner (files : list (list Z)) (owner : list Z) : parser (list (list Z)) :=
  _ ← charge_identity_copy (len owner) (rs "selected-owner path copy");
  mret (bs_put str_ltb owner files).
Definition select_dependency (g : MetaMakeOwnerGraph) (acc : list (list Z) * list (list Z)) (dependency : list Z)
  : parser (list (list Z) * list (list Z)) :=
  let '(queue, missing) := acc in
  _ ← bump (rs "selection work");
  if negb (eqb_list dependency []) && bs_has dependency (known_targets g) then
    _ ← charge_identity_copy (len dependency) (rs "dependency queue copy");
    mret (queue ++ [dependency], missing)
  else
    _ ← charge_identity_copy (len dependency) (rs "missing-dependency identity copy");
    mret (queue, bs_put str_ltb dependency missing).

Definition dependencies_of (g : MetaMakeOwnerGraph) (t : list Z) : list (list Z) :=
  default [] (bt_get t (dependencies g)).
Definition owners_of (g : MetaMakeOwnerGraph) (t : list Z) : list (list Z) :=
  default [] (bt_get t (owners g)).

Fixpoint select_from (fuel : nat) (g : MetaMakeOwnerGraph) (queue : list (list Z)) (sel : Selection)
  : parser Selection :=
  match queue, fuel with
  | [], _ => mret sel
  | _, O => lift Stuck
  | t :: queue, S fuel =>
    _ ← bump (rs "selection work");
    _ ← charge_identity_copy (len t) (rs "reached-target copy");
    if bs_has t (reached_targets sel) then select_from fuel g queue sel
    else
      files ← forM select_owner (selected_owner_files sel) (owners_of g t);
      '(queue, missing) ← forM (select_dependency g) (queue, missing_endpoints sel) (dependencies_of g t);
      select_from fuel g queue (mkSelection (bs_put str_ltb t (reached_targets sel)) missing files)
  end.

(** Enough rounds: every round takes one target from the queue, and a target's
    dependencies join the queue once. *)
Definition rounds (g : MetaMakeOwnerGraph) (queue : list (list Z)) : nat :=
  length queue + length (concat (map snd (dependencies g))).
Definition select (g : MetaMakeOwnerGraph) (roots : list (list Z)) : res graph_error Selection :=
  fst ((select_roots ← forM (select_root g) ([], []) roots;
        let '(queue, missing) := select_roots in
        select_from (rounds g queue) g queue (mkSelection [] missing [])) zero_counters).
End owner_graph.

(** ** Declared absence and source lines *)
Definition missing_marker (name : list Z) : list Z := rs "?$(" ++ name ++ rs ")".
Definition close_absent (closed : list (list Z * list Z)) (name : list Z)
  : res graph_error (list (list Z * list Z)) :=
  _ ← refuse (eqb_list name [] || (251 <? len name)
              || existsb (fun b => negb (is_ascii_graphic b) || (b =? 36) || (b =? 40) || (b =? 41) || (b =? 34)) name)
             InvalidAbsent;
  _ ← refuse (bool_decide (is_Some (bt_get name closed))) BoundAndAbsent;
  Ok (bt_put str_ltb name (missing_marker name) closed).
Definition parse_with_declared_absence (limits : Limits) (files globals : list (list Z * list Z))
  (absent : list (list Z)) : res graph_error MetaMakeOwnerGraph :=
  _ ← refuse (max_global_bindings limits <? Z.min (len globals + len absent) usize_max) BindingLimit;
  _ ← validate_global_limits limits globals;
  closed ← foldM close_absent globals absent;
  parse_expanded_files limits closed files.

Definition source_declaration_at (source : list Z) (source_line : Z) : res graph_error (list Z) :=
  let ls := lines source in
  index ← ok_or (checked_sub source_line 1) InvalidSourceLine;
  first ← ok_or (get_at ls index) MissingSourceLine;
  _ ← ensure (starts_with first (rs "#MM")) NotADeclaration;
  let limits := default_limits in
  _ ← refuse ((max_total_lines limits <? len ls) || (max_line_bytes limits <? len first)) SourceLimit;
  '(logical, _) ← fst (collect_continuations limits first (drop (Z.to_nat (index + 1)) ls) zero_counters);
  Ok logical.
