(* ===== verification/OwnerRefine.v ===== *)
(** * OwnerRefine: the owner graph without limits, and the parser against it

    The reference for OwnerGraph is a reader of [#MM] lines that counts nothing
    and only lists declarations, and the graph as a comprehension over that list.
    Every step of the parser is simulated by it up to limits, from counters
    within their limits. *)

From S2P Require Import Prelude Text Ordered StateRes OwnerGraph.

(** The errors by which a limit stops the parser. *)
Definition is_limit (e : graph_error) : Prop :=
  match e with
  | CounterOverflow _ | LimitExceeded _ | FileLimit | PathLimit | FileByteLimit | LineByteLimit
  | ContinuationLimit | ContinuedLineLimit | BindingLimit | VariableNameLimit | ValueLimit | RootLimit
  | RuleEdgeLimit | PairOverflow | GlobalTargetLimit | FileTargetLimit | TargetEdgeLimit => True
  | _ => False
  end.

Section reference.
Context (preserve_empty : bool) (globals : list (list Z * list Z)).

(** A line that ends in a backslash loses its last byte and gains the next
    line; a disabled next line only contributes its last byte. *)
Fixpoint logical_line (logical : list Z) (rest : list (list Z)) : res graph_error (list Z * list (list Z)) :=
  if negb (bool_decide (last_nonspace logical = Some 92)) then Ok (logical, rest)
  else
    match rest with
    | [] => Err UnterminatedContinuation
    | next :: rest =>
      if starts_with next (rs "##M") then
        final ← ok_or (last next) EmptyDisabledContinuation;
        logical_line (removelast logical ++ [final]) rest
      else
        _ ← refuse (negb (starts_with next (rs "#MM")) || (len next <? 4)) BadContinuation;
        logical_line (removelast logical ++ drop 4 next) rest
    end.

Definition directive_line (first : list Z) (rest : list (list Z)) : res graph_error (list Z * list (list Z)) :=
  '(logical, rest) ← logical_line first rest;
  _ ← ok_or (from_utf8 logical) NonUtf8Directive;
  Ok (logical, rest).

(** One pass over a token; values are not read again. *)
Fixpoint expand_identity (fuel : nat) (bytes : list Z) : res graph_error (list Z) :=
  match bytes, fuel with
  | [], _ => Ok []
  | _, O => Stuck
  | b :: rest, S fuel =>
    if b =? 36 then
      '(value, rest) ← global_expansion globals rest;
      _ ← refuse (existsb (fun b => negb (is_ascii_graphic b)) value) ControlExpansion;
      result ← expand_identity fuel rest;
      Ok (value ++ result)
    else
      result ← expand_identity fuel rest;
      Ok (b :: result)
  end.
Definition identity (token : list Z) : res graph_error (list Z) :=
  text ← expand_identity (length token) token;
  _ ← refuse (eqb_list text [] && negb preserve_empty) EmptyIdentity;
  Ok text.

Definition bare_declaration (path : list Z) (line : Z) (virtual : bool) (next : list Z)
  : res graph_error (list declaration) :=
  parsed ← tokenize_make_args (match split_once 58 next with Some (before, _) => before | None => next end);
  raw ← (match parsed with [raw] => Ok raw | _ => Err BareTokenCount end);
  name ← identity raw;
  Ok [mkDeclaration line path raw name virtual true true []].

Definition rule_declarations (path : list Z) (line : Z) (virtual : bool) (body : list Z)
  : res graph_error (list declaration) :=
  let '(target_text, dependency_text) :=
    match split_once 58 body with Some parts => parts | None => (body, []) end in
  raw_targets ← tokenize_make_args target_text;
  raw_dependencies ← tokenize_make_args dependency_text;
  _ ← refuse (len raw_targets =? 0) NoTarget;
  targets ← mapR (fun raw => name ← identity raw; Ok (raw, name)) raw_targets;
  deps ← mapR (fun raw => endpoint ← identity raw; Ok (mkDependency raw endpoint)) raw_dependencies;
  Ok (map (fun t => mkDeclaration line path (fst t) (snd t) virtual false (negb virtual) deps) targets).

(** What one directive declares, and the lines behind it. *)
Definition directive_declarations (path : list Z) (line : Z) (first : list Z) (rest : list (list Z))
  : res graph_error (list declaration * list (list Z)) :=
  '(logical, rest) ← directive_line first rest;
  _ ← refuse (existsb (fun b => negb (b <? 128)) logical) NonAsciiDirective;
  let body := drop 3 logical in
  let virtual := bool_decide (head body = Some 45) in
  let body := trim_ascii_start (if virtual then drop 1 body else body) in
  _ ← refuse (bool_decide (head body = Some 45)) MalformedVirtual;
  if eqb_list body [] then
    match rest with
    | [] => Err BareWithoutTarget
    | next :: rest => ds ← bare_declaration path line virtual next; Ok (ds, rest)
    end
  else ds ← rule_declarations path line virtual body; Ok (ds, rest).

Fixpoint line_declarations (fuel : nat) (path : list Z) (total : Z) (rest : list (list Z))
  : res graph_error (list declaration) :=
  match rest, fuel with
  | [], _ => Ok []
  | _, O => Stuck
  | line :: rest, S fuel =>
    if negb (starts_with line (rs "#MM")) then line_declarations fuel path total rest
    else
      '(ds, rest') ← directive_declarations path (total - len rest) line rest;
      more ← line_declarations fuel path total rest';
      Ok (ds ++ more)
  end.
Definition file_declarations (entry : list Z * list Z) : res graph_error (list declaration) :=
  let '(path, contents) := entry in
  let ls := split_terminator 10 contents in
  line_declarations (length ls) path (len ls) ls.

Definition all_declarations (files : list (list Z * list Z)) : res graph_error (list declaration) :=
  per_file ← mapR file_declarations files;
  Ok (concat per_file).
End reference.

(** The targets of one makefile: repeated declarations join their dependencies,
    and one that claims the makefile makes the target real. *)
Definition set_of (l : list (list Z)) : list (list Z) := bs_extend l [].
Definition endpoints (d : declaration) : list (list Z) := map concrete (declared_dependencies d).
Definition local_target (old : option LocalTarget) (d : declaration) : LocalTarget :=
  match old with
  | None => mkLocal (negb (claims_make_owner d)) (set_of (endpoints d))
  | Some old => mkLocal (virtual_local old && negb (claims_make_owner d))
                  (bs_extend (set_of (endpoints d)) (local_dependencies old))
  end.
Definition add_declaration (st : LocalFileParse) (d : declaration) : LocalFileParse :=
  mkParse (bt_put str_ltb (target d) (local_target (bt_get (target d) (local_targets st)) d) (local_targets st))
    (local_declarations st ++ [d]).
Definition local_of (ds : list declaration) : LocalFileParse := foldl add_declaration (mkParse [] []) ds.

(** ** The graph of a list of declarations *)
Definition about (t : list Z) (d : declaration) : bool := bool_decide (target d = t).

Definition known_of (ds : list declaration) : list (list Z) := set_of (map target ds).
Definition owned_of (ds : list declaration) : list (list Z) :=
  set_of (map target (List.filter claims_make_owner ds)).
Definition edges_of (ds : list declaration) (t : list Z) : list (list Z) :=
  set_of (concat (map endpoints (List.filter (about t) ds))).
Definition files_of (ds : list declaration) (t : list Z) : list (list Z) :=
  set_of (map file (List.filter claims_make_owner (List.filter (about t) ds))).
Definition graph_of (ds : list declaration) : MetaMakeOwnerGraph :=
  mkGraph (known_of ds) (map (fun t => (t, edges_of ds t)) (known_of ds))
    (map (fun t => (t, files_of ds t)) (owned_of ds)) ds.

(** ** The simulation *)
Lemma counter_add_ok current amount max label next : counter_add current amount max label = Ok next ->
  next = current + amount /\ next <= max.
Proof.
  unfold counter_add. intros (n & Hn & H)%bind_Ok. apply ok_or_Ok, checked_add_Some in Hn as [-> _].
  apply bind_Ok in H as (? & H%refuse_Ok & [= <-]). bool_prop. lia.
Qed.
Lemma counter_add_err current amount max label e : counter_add current amount max label = Err e -> is_limit e.
Proof.
  unfold counter_add. destruct (checked_add _ _ _); cbn; [|by intros [= <-]].
  destruct (max <? z); cbn; [by intros [= <-]|done].
Qed.
Lemma counter_add_not_Stuck current amount max label : counter_add current amount max label <> Stuck.
Proof. unfold counter_add. not_stuck. Qed.

Lemma trim_ascii_start_suffix bytes : exists p, bytes = p ++ trim_ascii_start bytes.
Proof.
  induction bytes as [|b bytes [p IH] ]; cbn; [by exists []|]. case_match; [|by exists []].
  exists (b :: p). cbn. by f_equal.
Qed.

Lemma trim_ascii_start_head bytes b rest : trim_ascii_start bytes = b :: rest -> is_ascii_whitespace b = false.
Proof.
  induction bytes as [|c bytes IH]; cbn; [done|]. destruct (is_ascii_whitespace c) eqn:Ec; [done|]. by intros [= <- _].
Qed.

(** ** Tokens *)
Definition plain_byte (b : Z) : Prop := is_ascii_graphic b = true /\ b <> 34.
Lemma plain_ascii b : plain_byte b -> is_ascii b.
Proof. intros [Hb _]. apply in_range_true in Hb. unfold is_ascii. lia. Qed.
Lemma graphic_not_space b : is_ascii_graphic b = true -> is_ascii_whitespace b = false.
Proof. intros Hb%in_range_true. unfold is_ascii_whitespace. lia. Qed.

Lemma token_bytes_ok bytes token rest : token_bytes bytes = Ok (token, rest) ->
  bytes = token ++ rest /\ Forall plain_byte token /\
  match bytes with b :: _ => is_ascii_whitespace b = false -> token <> [] | [] => True end.
Proof.
  revert token rest. induction bytes as [|b bytes IH]; intros token rest; cbn.
  { by intros [= <- <-]. }
  destruct (is_ascii_whitespace b) eqn:Eb; [by intros [= <- <-]|]. rewrite refuse_bind_Ok. intros [Hq H].
  apply ensure_bind_Ok in H as [Hg H]. apply bind_Ok in H as ([token' rest'] & H & [= <- <-]).
  apply IH in H as (-> & Hall & _). split; [done|]. split; [|done]. constructor; [|done]. split; [done|]. by bool_prop.
Qed.

Lemma token_bytes_not_Stuck bytes : token_bytes bytes <> Stuck.
Proof.
  induction bytes as [|b bytes IH]; cbn; [done|]. case_match; [done|]. not_stuck.
Qed.

Lemma tokenize_from_ok fuel : forall bytes tokens out, tokenize_from fuel bytes tokens = Ok out ->
  Forall (fun t => t <> [] /\ Forall plain_byte t) tokens -> Forall (fun t => t <> [] /\ Forall plain_byte t) out.
Proof.
  induction fuel as [|fuel IH]; intros bytes tokens out; cbn.
  { case_match; [by intros [= <-]|done]. }
  destruct (trim_ascii_start bytes) as [|b bytes'] eqn:Et; [by intros [= <-]|].
  intros ([token rest] & Hb & H)%bind_Ok Htok. apply bind_Ok in H as (? & _ & H).
  apply bind_Ok in H as (? & _ & H). eapply IH; [exact H|]. rewrite Forall_app, Forall_singleton.
  split; [done|]. apply (token_bytes_ok (b :: bytes')) in Hb as (_ & Hall & Hne). split; [|done]. apply Hne.
  by eapply trim_ascii_start_head.
Qed.
Lemma tokenize_ok bytes out : tokenize_make_args bytes = Ok out -> Forall (fun t => t <> [] /\ Forall plain_byte t) out.
Proof. intros H. by eapply tokenize_from_ok. Qed.

Lemma tokenize_from_not_Stuck fuel : forall bytes tokens, (length bytes <= fuel)%nat ->
  tokenize_from fuel bytes tokens <> Stuck.
Proof.
  induction fuel as [|fuel IH]; intros bytes tokens Hl; cbn.
  { destruct bytes; [done|cbn in Hl; lia]. }
  destruct (trim_ascii_start_suffix bytes) as [p Hp]. destruct (trim_ascii_start bytes) as [|b bytes'] eqn:Et; [done|].
  pose proof (trim_ascii_start_head _ _ _ Et) as Hb.
  apply bind_not_Stuck; [apply (token_bytes_not_Stuck (b :: bytes'))|]. intros [token rest] Ht.
  apply (token_bytes_ok (b :: bytes')) in Ht as (E & _ & Hne). not_stuck. apply IH.
  apply (f_equal length) in E, Hp. rewrite length_app in E, Hp. specialize (Hne Hb).
  destruct token; [done|]. cbn in *. lia.
Qed.
Lemma tokenize_not_Stuck bytes : tokenize_make_args bytes <> Stuck.
Proof. by apply tokenize_from_not_Stuck. Qed.
#[export] Hint Resolve tokenize_not_Stuck : aros.

Section refine.
Context (limits : Limits) (globals : list (list Z * list Z)).
Abbreviation preserve := (preserve_empty_endpoints limits).

(** ** Identities *)
Lemma global_expansion_shorter after value rest : global_expansion globals after = Ok (value, rest) ->
  (length rest < length after)%nat.
Proof.
  destruct after as [|c body]; [done|]. cbn. destruct (decide (c = 40)) as [->|Hc].
  - intros ([name rest'] & H%ok_or_Ok & Hk)%bind_Ok. apply split_once_Some in H as [-> _].
    inv_ok. rewrite length_app. cbn. lia.
  - intros H. exfalso. revert H. repeat case_match; try done; lia.
Qed.
Lemma global_expansion_not_Stuck after : global_expansion globals after <> Stuck.
Proof. unfold global_expansion. repeat case_match; not_stuck. Qed.
Hint Resolve global_expansion_not_Stuck : aros.

Lemma expand_identity_not_Stuck fuel : forall bytes, (length bytes <= fuel)%nat ->
  expand_identity globals fuel bytes <> Stuck.
Proof.
  induction fuel as [|fuel IH]; intros [|b bytes] Hl; cbn in *; try done; [lia|].
  destruct (b =? 36).
  - apply bind_not_Stuck; [auto with aros|]. intros [value rest] Hr%global_expansion_shorter. not_stuck. apply IH. lia.
  - not_stuck. apply IH. lia.
Qed.
Lemma identity_not_Stuck token : identity preserve globals token <> Stuck.
Proof. unfold identity. not_stuck. by apply expand_identity_not_Stuck. Qed.

Lemma measure_expand fuel : forall bytes n,
  match measure_identity limits globals fuel bytes n with
  | Ok m => exists text, expand_identity globals fuel bytes = Ok text /\ m = n + len text
  | Err e => is_limit e \/ expand_identity globals fuel bytes = Err e
  | Stuck => expand_identity globals fuel bytes = Stuck
  end.
Proof.
  induction fuel as [|fuel IH]; intros [|b bytes] n; cbn; try done.
  1, 2: exists []; rewrite len_nil; split; [done|lia].
  destruct (b =? 36); cbn.
  - destruct (global_expansion globals bytes) as [ [value rest]|e|]; cbn; [|by right|done].
    destruct (refuse _ _) as [ []|e|] eqn:Er; cbn; [|by right|done].
    destruct (counter_add _ _ _ _) as [m|e|] eqn:Ec; cbn; [|left; by eapply counter_add_err|by apply counter_add_not_Stuck in Ec].
    apply counter_add_ok in Ec as [-> _]. specialize (IH rest (n + len value)).
    destruct (measure_identity _ _ fuel rest _) as [m|e|].
    + destruct IH as (text & -> & ->). cbn. eexists. split; [done|]. rewrite len_app. lia.
    + destruct IH as [ | ->]; [by left|by right].
    + by rewrite IH.
  - destruct (counter_add _ _ _ _) as [m|e|] eqn:Ec; cbn; [|left; by eapply counter_add_err|by apply counter_add_not_Stuck in Ec].
    apply counter_add_ok in Ec as [-> _]. specialize (IH bytes (n + 1)).
    destruct (measure_identity _ _ fuel bytes _) as [m|e|].
    + destruct IH as (text & -> & ->). cbn. eexists. split; [done|]. rewrite len_cons. lia.
    + destruct IH as [ | ->]; [by left|by right].
    + by rewrite IH.
Qed.

Lemma copy_expand fuel : forall bytes text, expand_identity globals fuel bytes = Ok text ->
  copy_identity globals fuel bytes = Ok text.
Proof.
  induction fuel as [|fuel IH]; intros [|b bytes] text; cbn; try done. destruct (b =? 36).
  - intros ([value rest] & -> & H)%bind_Ok. cbn. inv_ok. by erewrite IH.
  - intros (result & H & [= <-])%bind_Ok. by rewrite (IH _ _ H).
Qed.

Lemma expand_graphic fuel : forall bytes text, expand_identity globals fuel bytes = Ok text ->
  Forall (fun b => is_ascii_graphic b = true) bytes -> Forall (fun b => is_ascii_graphic b = true) text.
Proof.
  induction fuel as [|fuel IH]; intros [|b bytes] text; cbn; try done; try (by intros [= <-]).
  intros H [Hb Hbs]%Forall_cons. revert H. destruct (b =? 36).
  - intros ([value rest] & Hg & H)%bind_Ok. apply refuse_bind_Ok in H as [Hv H].
    apply bind_Ok in H as (result & H & [= <-]). apply Forall_app. split.
    + apply existsb_false_Forall in Hv. eapply Forall_impl; [exact Hv|]. intros x Hx. by apply negb_false_iff.
    + eapply IH; [done|]. destruct bytes as [|c bytes]; [done|]. cbn in Hg. revert Hg. repeat case_match; try done.
      intros ([name rest'] & Hs%ok_or_Ok & Hk)%bind_Ok. inv_ok. apply split_once_Some in Hs as [-> _].
      apply Forall_cons in Hbs as [_ Hbs]. apply Forall_app in Hbs as [_ [_ Hbs]%Forall_cons]. done.
  - intros (result & H & [= <-])%bind_Ok. constructor; [done|]. by eapply IH.
Qed.

(** ** Counters *)
Definition within (s : Counters) : Prop := forall c, counter_of s c <= max_of limits c.
Definition sims {A} (Q : A -> Prop) (m : parser A) (p : res graph_error A) : Prop :=
  sim is_limit within Q m p.
Abbreviation quiet := (silent is_limit within).

Lemma counter_of_set s c v c' : counter_of (set_counter c v s) c' = if decide (c = c') then v else counter_of s c'.
Proof. by destruct s, c, c'. Qed.

Lemma quiet_charge c amount label : quiet (charge limits c amount label).
Proof.
  intros s Hs. unfold charge, mbind, SR_bind, gets, lift, update. destruct (counter_add _ _ _ _) as [v|e|] eqn:E; cbn.
  - apply counter_add_ok in E as [-> Hv]. intros c'. rewrite counter_of_set. case_decide; [by subst|apply Hs].
  - by eapply counter_add_err.
  - by apply counter_add_not_Stuck in E.
Qed.
Lemma quiet_bump label : quiet (bump limits label).
Proof. apply quiet_charge. Qed.
Lemma quiet_copy amount label : quiet (charge_identity_copy limits amount label).
Proof. apply quiet_charge. Qed.
Lemma quiet_tokens n : quiet (count_tokens limits n).
Proof. apply quiet_charge. Qed.
Lemma quiet_limit b e : is_limit e -> quiet (lift (refuse b e)).
Proof. intros He s Hs. destruct b; cbn; done. Qed.
Lemma quiet_forM {A} (f : unit -> A -> parser unit) l : (forall u x, x ∈ l -> quiet (f u x)) -> quiet (forM f tt l).
Proof.
  induction l as [|x l IH]; intros Hf; cbn; [by intros s Hs|].
  intros s Hs. unfold mbind, SR_bind. specialize (Hf tt x (list_elem_of_here _ _)) as Hx. specialize (Hx s Hs).
  destruct (f tt x s) as [[ []|e|] s']; [|done..]. apply IH; [|done]. intros u y Hy. apply Hf. by right.
Qed.

(** Steps the reference does not take. *)
Ltac quiet_step := first
  [ eapply sim_silent; [first [apply quiet_bump|apply quiet_copy|apply quiet_tokens|apply quiet_charge
                              |by apply quiet_limit]|] ].

Lemma sims_identity token : Forall plain_byte token ->
  sims (fun _ => True) (substitute_identity limits globals token) (identity preserve globals token).
Proof.
  intros Htok. unfold sims, substitute_identity, identity. pose proof (measure_expand (length token) token 0) as Hm.
  intros s Hs. unfold mbind at 1, SR_bind, lift at 1.
  destruct (measure_identity _ _ _ _ _) as [n|e|]; [|destruct Hm as [ | ->]; [by left|by right]|by rewrite Hm].
  destruct Hm as (text & Ht & ->). rewrite Ht, Ok_bind. revert s Hs. change (sims (fun _ => True)
    (_ ← lift (refuse ((0 + len text =? 0) && negb preserve) EmptyIdentity);
     _ ← charge_identity_copy limits (0 + len text) (rs "expanded identity");
     result ← lift (copy_identity globals (length token) token);
     _ ← lift (refuse (existsb is_ascii_whitespace result) WhitespaceIdentity);
     _ ← lift (ok_or (from_utf8 result) NonUtf8Identity); mret result)
    (_ ← refuse (eqb_list text [] && negb preserve) EmptyIdentity; Ok text)).
  replace (0 + len text =? 0) with (eqb_list text []); last first.
  { destruct text as [|b text]; [done|]. rewrite len_cons. pose proof (len_nonneg text).
    symmetry. apply Z.eqb_neq. lia. }
  eapply sim_pure. intros _ _. quiet_step. rewrite (copy_expand _ _ _ Ht). apply sim_lift_ok.
  assert (Forall (fun b => is_ascii_graphic b = true) text) as Hg.
  { eapply expand_graphic; [done|]. eapply Forall_impl; [exact Htok|]. by intros b [Hb _]. }
  replace (existsb is_ascii_whitespace text) with false; last first.
  { symmetry. apply existsb_false_Forall. eapply Forall_impl; [exact Hg|]. intros b Hb. by apply graphic_not_space. }
  apply sim_lift_ok. rewrite from_utf8_ascii; [by apply sim_ret|].
  eapply Forall_impl; [exact Hg|]. intros b Hb%in_range_true. unfold is_ascii. lia.
Qed.

(** ** Lines *)
Lemma sims_continue rest : forall logical n,
  sims (fun _ => True) (continue_with limits logical n rest) (logical_line logical rest).
Proof.
  assert (forall logical, last_nonspace logical = Some 92 -> eqb_list logical [] = false) as Hne.
  { intros [|b l] Hl; [done|]. by apply bool_decide_eq_false_2. }
  induction rest as [|next rest IH]; intros logical n; cbn [continue_with logical_line]; quiet_step;
    (case_bool_decide as Hl; cbn [negb]; [|by apply sim_ret]); quiet_step; [apply sim_fail|].
  rewrite (Hne _ Hl). destruct (starts_with next (rs "##M")).
  - apply sim_lift_ok. eapply sim_pure. intros final _. apply IH.
  - eapply sim_pure. intros _ _. apply sim_lift_ok. quiet_step. apply IH.
Qed.

Lemma sims_collect first rest :
  sims (fun _ => True) (collect_continuations limits first rest) (directive_line first rest).
Proof.
  unfold collect_continuations. eapply sim_bind; [apply sims_continue|]. intros [logical rest'] _ _.
  eapply sim_pure. intros _ _. by apply sim_ret.
Qed.

(** ** Declarations *)
Lemma sims_declare st d virtual deps : virtual = negb (claims_make_owner d) -> deps = set_of (endpoints d) ->
  sims (fun _ => True) (declare limits st d virtual deps) (Ok (add_declaration st d)).
Proof.
  intros -> ->. unfold declare, merge_local_target.
  change (Ok (add_declaration st d)) with
    (ts ← Ok (local_targets (add_declaration st d)); Ok (mkParse ts (local_declarations st ++ [d])) : res graph_error _).
  eapply (sim_bind _ _ (fun _ => True)); [|intros ts _ _; by apply sim_ret].
  intros s Hs. unfold lift, add_declaration. cbn [local_targets].
  destruct (refuse _ FileTargetLimit) as [ []|e|] eqn:E0; cbn.
  2: { left. unfold refuse in E0. case_match; by simplify_eq. }
  2: by apply refuse_not_Stuck in E0.
  destruct (bt_get (target d) (local_targets st)) as [old|]; cbn;
    (destruct (refuse _ TargetEdgeLimit) as [ []|e|] eqn:E1; cbn; [done| |by apply refuse_not_Stuck in E1]);
    left; unfold refuse in E1; case_match; by simplify_eq.
Qed.

Lemma sims_bare path line virtual next st :
  sims (fun _ => True) (parse_bare limits globals path line virtual next st)
    (ds ← bare_declaration preserve globals path line virtual next; Ok (foldl add_declaration st ds)).
Proof.
  unfold parse_bare, bare_declaration. eapply sim_eq; [|symmetry; apply res_bind_assoc]. eapply sim_pure.
  intros parsed Hp%tokenize_ok. quiet_step. eapply sim_eq; [|symmetry; apply res_bind_assoc]. eapply sim_pure.
  intros raw Hraw. assert (Forall plain_byte raw) as Hplain.
  { destruct parsed as [|raw' [|] ]; [done| |done]. simplify_eq. by inversion_clear Hp as [|?? [_ ?] _]. }
  eapply sim_eq; [|symmetry; apply res_bind_assoc]. eapply sim_bind; [by apply sims_identity|]. intros name _ _.
  do 4 quiet_step. by apply sims_declare.
Qed.

Lemma sims_targets l acc : Forall (Forall plain_byte) l ->
  sims (fun _ => True) (forM (expand_target limits globals) acc l)
    (ts ← mapR (fun raw => name ← identity preserve globals raw; Ok (raw, name)) l; Ok (acc ++ ts)).
Proof.
  intros Hl. eapply sim_eq.
  - apply (sim_forM_map is_limit within _ (fun raw => name ← identity preserve globals raw; Ok (raw, name))
             (fun acc t => acc ++ [t])).
    intros acc' raw Hr. unfold expand_target. eapply sim_eq; [|symmetry; apply res_bind_assoc].
    eapply sim_bind; [apply sims_identity; by rewrite Forall_forall in Hl; apply Hl|]. intros name _ _. by apply sim_ret.
  - destruct (mapR _ l) as [ts|e|]; cbn; [|done..]. f_equal. clear. revert acc.
    induction ts as [|t ts IH]; intros acc; cbn; [by rewrite app_nil_r|]. by rewrite IH, <- app_assoc.
Qed.

Definition dependency_token (d : DependencyProvenance) : list Z * list Z := (raw_expression d, concrete d).
Lemma sims_dependencies l : Forall (Forall plain_byte) l ->
  sims (fun _ => True) (forM (expand_dependency limits globals) ([], []) l)
    (ds ← mapR (fun raw => endpoint ← identity preserve globals raw; Ok (mkDependency raw endpoint)) l;
     Ok (set_of (map concrete ds), map dependency_token ds)).
Proof.
  intros Hl. eapply sim_eq.
  - apply (sim_forM_map is_limit within _ (fun raw => endpoint ← identity preserve globals raw; Ok (mkDependency raw endpoint))
             (fun acc d => (bs_put str_ltb (concrete d) (fst acc), snd acc ++ [dependency_token d]))).
    intros acc raw Hr. unfold expand_dependency. eapply sim_eq; [|symmetry; apply res_bind_assoc].
    eapply sim_bind; [apply sims_identity; by rewrite Forall_forall in Hl; apply Hl|]. intros name _ _.
    quiet_step. by apply sim_ret.
  - destruct (mapR _ l) as [ds|e|]; cbn; [|done..]. f_equal. unfold set_of, bs_extend.
    enough (forall names tokens, foldl (fun acc d => (bs_put str_ltb (concrete d) acc.1, acc.2 ++ [dependency_token d])) (names, tokens) ds
      = (foldl (fun s x => bs_put str_ltb x s) names (map concrete ds), tokens ++ map dependency_token ds)) as E by apply E.
    induction ds as [|d ds IH]; intros names tokens; cbn; [by rewrite app_nil_r|]. by rewrite IH, <- app_assoc.
Qed.

Lemma sims_copies ds acc :
  sims (fun _ => True) (forM (copy_dependency limits) acc (map dependency_token ds)) (Ok (acc ++ ds)).
Proof.
  revert acc. induction ds as [|d ds IH]; intros acc; cbn; [rewrite app_nil_r; by apply sim_ret|].
  eapply (sim_bind_ok _ _ (fun _ => True) _ _ (acc ++ [d])); [|intros _].
  - unfold copy_dependency. do 2 quiet_step. by destruct d; apply sim_ret.
  - replace (acc ++ d :: ds) with ((acc ++ [d]) ++ ds) by by rewrite <- app_assoc. apply IH.
Qed.

Lemma sims_declare_targets path line virtual deps ts st :
  sims (fun _ => True)
    (forM (declare_target limits path line virtual (set_of (map concrete deps)) (map dependency_token deps)) st ts)
    (Ok (foldl add_declaration st
           (map (fun t => mkDeclaration line path (fst t) (snd t) virtual false (negb virtual) deps) ts))).
Proof.
  revert st. induction ts as [|t ts IH]; intros st; cbn; [by apply sim_ret|].
  eapply (sim_bind_ok _ _ (fun _ => True)); [|intros _; apply IH].
  unfold declare_target. quiet_step. eapply (sim_bind_ok _ _ (fun _ => True)); [apply (sims_copies deps [])|].
  intros _. do 3 quiet_step. apply sims_declare; [cbn; by rewrite negb_involutive|done].
Qed.

Lemma quiet_clones names ts : quiet (forM (clone_dependencies limits names) tt ts).
Proof. apply quiet_forM. intros u t _. apply quiet_forM. intros ? ? _. apply quiet_copy. Qed.

Lemma sims_product {B} (R : B -> Prop) a b f q :
  sims R (f (a * b)) q -> sims R (lift (ok_or (checked_mul usize_max a b) PairOverflow) ≫= f) q.
Proof.
  intros Hf s Hs. unfold mbind, SR_bind, lift. destruct (checked_mul usize_max a b) as [c|] eqn:E; cbn; [|by left].
  apply checked_mul_Some in E as [-> _]. by apply Hf.
Qed.

Lemma sims_rule path line virtual body st :
  sims (fun _ => True) (parse_rule limits globals path line virtual body st)
    (ds ← rule_declarations preserve globals path line virtual body; Ok (foldl add_declaration st ds)).
Proof.
  assert (forall l : list (list Z), Forall (fun t => t <> [] /\ Forall plain_byte t) l -> Forall (Forall plain_byte) l) as Hweak.
  { intros l Hl. eapply Forall_impl; [exact Hl|]. by intros t [_ ?]. }
  unfold parse_rule, rule_declarations. destruct (match split_once 58 body with Some _ => _ | None => _ end) as [tt_ dt].
  rewrite !res_bind_assoc. eapply sim_pure. intros raw_targets Ht%tokenize_ok%Hweak.
  rewrite !res_bind_assoc. eapply sim_pure. intros raw_deps Hd%tokenize_ok%Hweak. quiet_step.
  rewrite !res_bind_assoc. eapply sim_pure. intros _ _.
  eapply sim_bind_map; [by apply sims_targets|]. intros ts _.
  rewrite !res_bind_assoc. eapply sim_bind_map; [by apply sims_dependencies|]. intros ds _. cbn.
  quiet_step. do 2 apply sims_product. do 4 quiet_step. eapply sim_silent; [apply quiet_clones|].
  apply sims_declare_targets.
Qed.

Lemma sims_directive path line first rest st :
  sims (fun _ => True) (parse_directive limits globals path line first rest st)
    ('(ds, rest) ← directive_declarations preserve globals path line first rest;
     Ok (foldl add_declaration st ds, rest)).
Proof.
  unfold parse_directive, directive_declarations. rewrite res_bind_assoc.
  eapply sim_bind; [apply sims_collect|]. intros [logical rest'] _ _. cbn beta iota zeta.
  rewrite !res_bind_assoc. eapply sim_pure. intros _ _. eapply sim_pure. intros _ _.
  destruct (eqb_list _ _); [destruct rest' as [|next rest']; [apply sim_fail|]|]; rewrite !res_bind_assoc.
  - eapply sim_bind_map; [apply sims_bare|]. intros ds _. by apply sim_ret.
  - eapply sim_bind_map; [apply sims_rule|]. intros ds _. by apply sim_ret.
Qed.

Lemma sims_lines fuel : forall path total rest st,
  sims (fun _ => True) (parse_lines limits globals fuel path total rest st)
    (ds ← line_declarations preserve globals fuel path total rest; Ok (foldl add_declaration st ds)).
Proof.
  induction fuel as [|fuel IH]; intros path total [|line rest] st; cbn [parse_lines line_declarations];
    try (by apply sim_ret); [intros s Hs; done|].
  quiet_step. destruct (negb _); [apply IH|]. rewrite res_bind_assoc.
  eapply (sim_bind_map _ _ (fun _ => True) _ _ _ (fun r => (foldl add_declaration st (fst r), snd r)));
    [eapply sim_eq; [apply sims_directive|]|].
  - by destruct (directive_declarations _ _ _ _ _ _) as [ [ds rest']|e|].
  - intros [ds rest'] _. cbn. eapply sim_eq; [apply IH|].
    destruct (line_declarations _ _ _ _ _ _); cbn; [|done..]. by rewrite foldl_app.
Qed.

Definition sane : Prop := forall c, 0 <= max_of limits c.
Lemma sims_file_lines lines path : sane ->
  sims (fun _ => True) (parse_file_lines limits globals lines path)
    (ds ← line_declarations preserve globals (length lines) path (len lines) lines; Ok (local_of ds)).
Proof.
  intros Hsane. unfold parse_file_lines. eapply sim_silent; [|apply sims_lines].
  intros s Hs c. cbn. rewrite counter_of_set. case_decide; [apply Hsane|apply Hs].
Qed.

Definition local_file (entry : list Z * list Z) (ds : list declaration) : list Z * LocalFileParse :=
  (fst entry, local_of ds).
Lemma sims_read_file parsed entry : sane ->
  sims (fun _ => True) (read_file limits globals parsed entry)
    (ds ← file_declarations preserve globals entry; Ok (parsed ++ [local_file entry ds])).
Proof.
  intros Hsane. destruct entry as [path contents]. unfold read_file, file_declarations. do 3 quiet_step.
  eapply sim_silent.
  { apply quiet_forM. intros u l _. apply silent_bind; [by apply quiet_limit|apply quiet_charge]. }
  eapply sim_bind_map; [by apply sims_file_lines|]. intros ds _. quiet_step. by apply sim_ret.
Qed.
End refine.
