(* ===== verification/OwnerMerge.v ===== *)
(** * OwnerMerge: the merged graph is the graph of the declarations

    Makefiles are merged target by target; the result depends only on what they
    declare. *)

From S2P Require Import Prelude Text Ordered StateRes OwnerGraph OwnerRefine.

Abbreviation sset := (sorted_set str_ltb).
Abbreviation smap := (sorted_keys str_ltb).

(** ** Sets *)
Lemma elem_of_bs_extend new s x : x ∈ bs_extend new s <-> x ∈ new \/ x ∈ s.
Proof.
  revert s. induction new as [|y new IH]; intros s; cbn; [set_solver|].
  unfold bs_extend in IH. rewrite IH, (elem_of_bs_put str_ltb), elem_of_cons. naive_solver.
Qed.
Lemma bs_extend_sorted new s : sset s -> sset (bs_extend new s).
Proof. revert s. induction new as [|y new IH]; intros s Hs; cbn; [done|]. apply (IH (bs_put str_ltb y s)). by apply (bs_put_sorted str_ltb). Qed.
Lemma elem_of_set_of l x : x ∈ set_of l <-> x ∈ l.
Proof. unfold set_of. rewrite elem_of_bs_extend. set_solver. Qed.
Lemma set_of_sorted l : sset (set_of l).
Proof. apply bs_extend_sorted. constructor. Qed.

(** ** Maps to sets *)
Definition maps_to (K : list Z -> Prop) (D : list Z -> list Z -> Prop) (m : list (list Z * list (list Z))) : Prop :=
  smap m /\ forall t, match bt_get t m with
                      | Some l => K t /\ sset l /\ (forall x, x ∈ l <-> D t x)
                      | None => ~ K t
                      end.

Lemma maps_to_put (K K' : list Z -> Prop) (D D' : list Z -> list Z -> Prop) m t l : maps_to K D m -> sset l ->
  (forall x, x ∈ l <-> D' t x) -> (forall t', K' t' <-> t' = t \/ K t') ->
  (forall t' x, t' <> t -> D' t' x <-> D t' x) -> maps_to K' D' (bt_put str_ltb t l m).
Proof.
  intros [Hm Hget] Hl Hin HK HD. split; [by apply (bt_put_sorted str_ltb)|]. intros t'. rewrite (bt_get_put str_ltb).
  case_bool_decide as E; [subst; naive_solver|]. specialize (Hget t'). destruct (bt_get t' m); [|naive_solver].
  destruct Hget as (Hk & Hs & Hx). split_and!; [naive_solver|done|]. intros x. by rewrite Hx, HD.
Qed.
Lemma maps_to_ext (K K' : list Z -> Prop) (D D' : list Z -> list Z -> Prop) m : maps_to K D m ->
  (forall t, K t <-> K' t) -> (forall t x, D t x <-> D' t x) -> maps_to K' D' m.
Proof.
  intros [Hm Hget] HK HD. split; [done|]. intros t. specialize (Hget t).
  destruct (bt_get t m); rewrite <- HK; [|done]. destruct Hget as (? & ? & Hx). split_and!; [done..|].
  intros x. by rewrite Hx, HD.
Qed.
Lemma maps_to_unique K D m m' : maps_to K D m -> maps_to K D m' -> m = m'.
Proof.
  intros [Hm Hg] [Hm' Hg']. apply (sorted_keys_eq str_ltb); [done..|]. intros t. specialize (Hg t). specialize (Hg' t).
  destruct (bt_get t m) as [l|], (bt_get t m') as [l'|]; try naive_solver. f_equal.
  destruct Hg as (_ & ? & E), Hg' as (_ & ? & E'). apply (sorted_set_eq str_ltb); [done..|].
  intros x. by rewrite E, E'.
Qed.
Lemma maps_to_default K D m t : maps_to K D m -> (forall x, D t x -> K t) ->
  sset (default [] (bt_get t m)) /\ forall x, x ∈ default [] (bt_get t m) <-> D t x.
Proof.
  intros [_ Hget] HK. specialize (Hget t). destruct (bt_get t m) as [l|]; cbn; [naive_solver|].
  split; [constructor|]. intros x. rewrite elem_of_nil. naive_solver.
Qed.

(** ** A graph, by what it relates *)
Record describes (K : list Z -> Prop) (D O : list Z -> list Z -> Prop) (g : MetaMakeOwnerGraph) : Prop := {
  known_sorted : sset (known_targets g);
  known_iff : forall t, t ∈ known_targets g <-> K t;
  deps_map : maps_to K D (dependencies g);
  owners_map : maps_to (fun t => exists f, O t f) O (owners g);
  deps_known : forall t x, D t x -> K t;
}.

Lemma describes_ext (K K' : list Z -> Prop) (D D' O O' : list Z -> list Z -> Prop) g : describes K D O g ->
  (forall t, K t <-> K' t) -> (forall t x, D t x <-> D' t x) -> (forall t x, O t x <-> O' t x) -> describes K' D' O' g.
Proof.
  intros [Hs Hk Hd Ho Hdk] HK HD HO. split; [done| | | |].
  - intros t. by rewrite Hk, HK.
  - by eapply maps_to_ext.
  - eapply maps_to_ext; [done| |done]. intros t. by setoid_rewrite HO.
  - intros t x Hx. apply HK. eapply Hdk. by apply HD.
Qed.
Lemma describes_unique K D O g g' : describes K D O g -> describes K D O g' -> declarations g = declarations g' -> g = g'.
Proof.
  intros [Hs Hk Hd Ho _] [Hs' Hk' Hd' Ho' _] E. destruct g, g'; cbn in *. f_equal; [| | |done].
  - apply (sorted_set_eq str_ltb); [done..|]. intros x. by rewrite Hk, Hk'.
  - by eapply maps_to_unique.
  - by eapply maps_to_unique.
Qed.

(** ** Merging without counters *)
Definition add_target (path : list Z) (g : MetaMakeOwnerGraph) (entry : list Z * LocalTarget) : MetaMakeOwnerGraph :=
  let '(name, t) := entry in
  mkGraph (bs_put str_ltb name (known_targets g))
    (bt_put str_ltb name (bs_extend (local_dependencies t) (default [] (bt_get name (dependencies g)))) (dependencies g))
    (if virtual_local t then owners g
     else bt_put str_ltb name (bs_put str_ltb path (default [] (bt_get name (owners g)))) (owners g))
    (declarations g).
Definition add_file (g : MetaMakeOwnerGraph) (parsed : list Z * LocalFileParse) : MetaMakeOwnerGraph :=
  foldl (add_target (fst parsed))
    (mkGraph (known_targets g) (dependencies g) (owners g) (declarations g ++ local_declarations (snd parsed)))
    (local_targets (snd parsed)).

Lemma describes_add_target K D O g path name lt : describes K D O g ->
  describes (fun t => t = name \/ K t) (fun t x => t = name /\ x ∈ local_dependencies lt \/ D t x)
    (fun t f => t = name /\ f = path /\ virtual_local lt = false \/ O t f) (add_target path g (name, lt)).
Proof.
  intros [Hs Hk Hd Ho Hdk]. split; cbn.
  - by apply (bs_put_sorted str_ltb).
  - intros t. by rewrite (elem_of_bs_put str_ltb), Hk.
  - destruct (maps_to_default _ _ _ name Hd (Hdk name)) as [Hds Hdi].
    eapply maps_to_put; [exact Hd|by apply bs_extend_sorted| |naive_solver|naive_solver].
    intros x. rewrite elem_of_bs_extend, Hdi. naive_solver.
  - destruct (virtual_local lt).
    + eapply maps_to_ext; [exact Ho|naive_solver|naive_solver].
    + destruct (maps_to_default _ _ _ name Ho) as [Hos Hoi]; [naive_solver|].
      eapply maps_to_put; [exact Ho|by apply (bs_put_sorted str_ltb)| |naive_solver|naive_solver].
      intros x. rewrite (elem_of_bs_put str_ltb), Hoi. naive_solver.
  - naive_solver.
Qed.

Lemma describes_add_targets path l : forall K D O g, describes K D O g ->
  describes (fun t => (exists lt, (t, lt) ∈ l) \/ K t)
    (fun t x => (exists lt, (t, lt) ∈ l /\ x ∈ local_dependencies lt) \/ D t x)
    (fun t f => (exists lt, (t, lt) ∈ l /\ f = path /\ virtual_local lt = false) \/ O t f)
    (foldl (add_target path) g l).
Proof.
  induction l as [|[name lt] l IH]; intros K D O g Hg.
  - eapply describes_ext; [exact Hg|..]; intros; setoid_rewrite elem_of_nil; naive_solver.
  - eapply describes_ext; [apply IH, describes_add_target, Hg|..]; intros; setoid_rewrite elem_of_cons; naive_solver.
Qed.
Lemma declarations_add_targets path l g : declarations (foldl (add_target path) g l) = declarations g.
Proof. revert g. induction l as [|[name lt] l IH]; intros g; cbn [foldl]; [done|]. by rewrite IH. Qed.

(** ** One makefile, by its declarations *)
Definition declares (ds : list declaration) (t : list Z) : Prop := exists d, d ∈ ds /\ target d = t.
Definition depends (ds : list declaration) (t x : list Z) : Prop := exists d, d ∈ ds /\ target d = t /\ x ∈ endpoints d.
Definition owned_by (ds : list declaration) (t f : list Z) : Prop :=
  exists d, d ∈ ds /\ target d = t /\ claims_make_owner d = true /\ file d = f.

Record local_spec (ds : list declaration) (m : list (list Z * LocalTarget)) : Prop := {
  local_sorted : smap m;
  local_get : forall t, match bt_get t m with
    | Some lt => declares ds t /\ sset (local_dependencies lt) /\ (forall x, x ∈ local_dependencies lt <-> depends ds t x) /\
                 (virtual_local lt = false <-> exists d, d ∈ ds /\ target d = t /\ claims_make_owner d = true)
    | None => ~ declares ds t
    end;
}.

Lemma local_declarations_of ds : local_declarations (local_of ds) = ds.
Proof.
  induction ds as [|d ds IH] using rev_ind; [done|]. unfold local_of in *. rewrite foldl_app. cbn. by rewrite IH.
Qed.

Lemma local_target_spec ds d old :
  match old with
  | Some lt => sset (local_dependencies lt) /\ (forall x, x ∈ local_dependencies lt <-> depends ds (target d) x) /\
               (virtual_local lt = false <-> exists d', d' ∈ ds /\ target d' = target d /\ claims_make_owner d' = true)
  | None => ~ declares ds (target d)
  end ->
  let lt := local_target old d in
  sset (local_dependencies lt) /\ (forall x, x ∈ local_dependencies lt <-> depends (ds ++ [d]) (target d) x) /\
  (virtual_local lt = false <-> exists d', d' ∈ ds ++ [d] /\ target d' = target d /\ claims_make_owner d' = true).
Proof.
  unfold depends, declares. setoid_rewrite elem_of_app. setoid_rewrite list_elem_of_singleton. intros Hold.
  destruct old as [lt|]; cbn.
  - destruct Hold as (Hs & Hd & Hv). split_and!; [by apply bs_extend_sorted| |].
    + intros x. rewrite elem_of_bs_extend, elem_of_set_of, Hd. naive_solver.
    + rewrite andb_false_iff, Hv, negb_false_iff. naive_solver.
  - split_and!; [apply set_of_sorted| |].
    + intros x. rewrite elem_of_set_of. naive_solver.
    + rewrite negb_false_iff. naive_solver.
Qed.

Lemma local_of_spec ds : local_spec ds (local_targets (local_of ds)).
Proof.
  induction ds as [|d ds [Hs Hget] ] using rev_ind.
  { split; [constructor|]. intros t (d & Hd%elem_of_nil & _). done. }
  unfold local_of in *. rewrite foldl_app. cbn [foldl]. set (old := foldl _ _ ds) in *. unfold add_declaration.
  cbn [local_targets]. split; [by apply (bt_put_sorted str_ltb)|]. intros t. rewrite (bt_get_put str_ltb).
  case_bool_decide as E; [subst t|].
  - destruct (local_target_spec ds d (bt_get (target d) (local_targets old))) as (H1 & H2 & H3).
    { specialize (Hget (target d)). by destruct (bt_get _ _); [destruct Hget as (_ & ?)|]. }
    split_and!; [|done..]. exists d. set_solver.
  - specialize (Hget t). unfold declares, depends in *.
    destruct (bt_get t _) as [lt|]; setoid_rewrite elem_of_app; setoid_rewrite list_elem_of_singleton; [|naive_solver].
    destruct Hget as (H1 & H2 & H3 & H4). split_and!; [naive_solver|done| |].
    + intros x. rewrite H3. naive_solver.
    + rewrite H4. naive_solver.
Qed.

Lemma local_elem ds t lt : (t, lt) ∈ local_targets (local_of ds) <-> bt_get t (local_targets (local_of ds)) = Some lt.
Proof. symmetry. apply (bt_get_elem str_ltb). apply local_of_spec. Qed.

(** ** All makefiles *)
Lemma describes_add_file path ds all g : Forall (fun d => file d = path) ds ->
  describes (declares all) (depends all) (owned_by all) g ->
  describes (declares (all ++ ds)) (depends (all ++ ds)) (owned_by (all ++ ds)) (add_file g (path, local_of ds)).
Proof.
  intros Hfile Hg. pose proof (local_get _ _ (local_of_spec ds)) as Hget.
  assert (forall t lt, bt_get t (local_targets (local_of ds)) = Some lt -> declares ds t /\
    (forall x, x ∈ local_dependencies lt <-> depends ds t x) /\
    (virtual_local lt = false <-> exists d, d ∈ ds /\ target d = t /\ claims_make_owner d = true)) as Hsome.
  { intros t lt E. specialize (Hget t). rewrite E in Hget. naive_solver. }
  assert (forall t, declares ds t -> exists lt, bt_get t (local_targets (local_of ds)) = Some lt) as Hex.
  { intros t Ht. specialize (Hget t). destruct (bt_get t _); [eauto|done]. }
  rewrite Forall_forall in Hfile. unfold add_file. cbn [fst snd]. eapply describes_ext.
  - apply (describes_add_targets path _ (declares all) (depends all) (owned_by all)). destruct Hg. by split.
  - intros t. setoid_rewrite local_elem. unfold declares at 2. setoid_rewrite elem_of_app. split.
    + intros [(lt & [ (d & ? & ?) _]%Hsome)|(d & ? & ?)]; eauto.
    + intros (d & [Hd|Hd] & Ht); [by right; exists d|left]. apply Hex. by exists d.
  - intros t x. setoid_rewrite local_elem. unfold depends. setoid_rewrite elem_of_app. split.
    + intros [(lt & (_ & Hx & _)%Hsome & (d & ? & ? & ?)%Hx)|(d & ? & ? & ?)]; eauto 6.
    + intros (d & [Hd|Hd] & Ht & Hx); [right; by exists d|left]. destruct (Hex t) as [lt Hlt]; [by exists d|].
      exists lt. split; [done|]. apply Hsome in Hlt as (_ & -> & _). by exists d.
  - intros t f. setoid_rewrite local_elem. unfold owned_by. setoid_rewrite elem_of_app. split.
    + intros [(lt & (_ & _ & Hv)%Hsome & -> & (d & Hd & ? & ?)%Hv)|(d & ? & ? & ? & ?)]; [|eauto 8].
      exists d. split_and!; [by right|done|done|by apply Hfile].
    + intros (d & [Hd|Hd] & Ht & Hc & Hf); [right; by exists d|left]. destruct (Hex t) as [lt Hlt]; [by exists d|].
      exists lt. split_and!; [done|by rewrite <- (Hfile d Hd)|]. apply Hsome in Hlt as (_ & _ & ->). by exists d.
Qed.

Lemma describes_add_files entries dss all g : Forall2 (fun e ds => Forall (fun d => file d = fst e) ds) entries dss ->
  describes (declares all) (depends all) (owned_by all) g ->
  let g' := foldl add_file g (zip_with local_file entries dss) in
  describes (declares (all ++ concat dss)) (depends (all ++ concat dss)) (owned_by (all ++ concat dss)) g' /\
  declarations g' = declarations g ++ concat dss.
Proof.
  intros H. revert all g. induction H as [|e ds entries dss Hf _ IH]; intros all g Hg; cbn -[add_file].
  - by rewrite !app_nil_r.
  - destruct (IH (all ++ ds) (add_file g (local_file e ds))) as [H1 H2]; [by apply describes_add_file|].
    rewrite app_assoc. split; [done|]. rewrite H2. unfold add_file, local_file. cbn [fst snd].
    rewrite declarations_add_targets. cbn. by rewrite local_declarations_of, <- app_assoc.
Qed.

Lemma bt_get_map (f : list Z -> list (list Z)) s t : bt_get t (map (fun t => (t, f t)) s) = if bs_has t s then Some (f t) else None.
Proof.
  induction s as [|k s IH]; [done|]. cbn. case_bool_decide as E; [by subst|]. apply IH.
Qed.
Lemma maps_to_map (K : list Z -> Prop) (D : list Z -> list Z -> Prop) (f : list Z -> list (list Z)) s : sset s ->
  (forall t, t ∈ s <-> K t) -> (forall t, sset (f t)) -> (forall t x, x ∈ f t <-> D t x) ->
  maps_to K D (map (fun t => (t, f t)) s).
Proof.
  intros Hs HK Hf HD. split.
  - clear HK. induction Hs as [|k s Hx Hs IH]; cbn; [constructor|]. constructor; [|done].
    rewrite Forall_forall in Hx. apply Forall_forall. intros [k' v] (k0 & [= -> ->] & Hk)%list_elem_of_fmap. by apply Hx.
  - intros t. rewrite bt_get_map. destruct (bs_has t s) eqn:E; [apply bs_has_true in E|].
    + split_and!; [by apply HK|done|apply HD].
    + intros Ht%HK%bs_has_true. congruence.
Qed.

Lemma graph_of_describes ds : describes (declares ds) (depends ds) (owned_by ds) (graph_of ds).
Proof.
  assert (forall (f : declaration -> bool) l d, d ∈ List.filter f l <-> d ∈ l /\ f d = true) as Hfilter.
  { intros f l d. by rewrite !list_elem_of_In, filter_In. }
  assert (forall t d, about t d = true <-> target d = t) as Habout by (intros; apply bool_decide_eq_true).
  unfold graph_of. split; cbn.
  - apply set_of_sorted.
  - intros t. unfold known_of, declares. rewrite elem_of_set_of, list_elem_of_fmap. naive_solver.
  - apply maps_to_map; [apply set_of_sorted| |intros; apply set_of_sorted|].
    + intros t. unfold known_of, declares. rewrite elem_of_set_of, list_elem_of_fmap. naive_solver.
    + intros t x. unfold edges_of, depends. rewrite elem_of_set_of, list_elem_of_In, in_concat.
      setoid_rewrite <- list_elem_of_In. setoid_rewrite list_elem_of_fmap. setoid_rewrite Hfilter. setoid_rewrite Habout.
      split; [intros (l & (d & -> & ? & ?) & Hx%list_elem_of_fmap); by exists d|].
      intros (d & ? & ? & Hx%list_elem_of_fmap). eauto 7.
  - apply maps_to_map; [apply set_of_sorted| |intros; apply set_of_sorted|].
    + intros t. unfold owned_of, owned_by. rewrite elem_of_set_of, list_elem_of_fmap. setoid_rewrite Hfilter.
      split; [intros (d & -> & ? & ?); eauto 7|intros (f & d & ? & ? & ? & ?); eauto].
    + intros t f. unfold files_of, owned_by. rewrite elem_of_set_of, list_elem_of_fmap. setoid_rewrite Hfilter.
      setoid_rewrite Hfilter. setoid_rewrite Habout. naive_solver.
  - intros t x (d & ? & ? & ?). by exists d.
Qed.

Lemma add_files_graph entries dss : Forall2 (fun e ds => Forall (fun d => file d = fst e) ds) entries dss ->
  foldl add_file empty_graph (zip_with local_file entries dss) = graph_of (concat dss).
Proof.
  intros H. destruct (describes_add_files entries dss [] empty_graph H) as [Hd He].
  - assert (forall (P : declaration -> Prop), ~ exists d, d ∈ [] /\ P d) as Hno by (intros P (d & Hd%elem_of_nil & _); done).
    split; cbn.
    + constructor.
    + intros t. rewrite elem_of_nil. split; [done|]. intros Ht. by apply Hno in Ht.
    + split; [constructor|]. intros t. apply Hno.
    + split; [constructor|]. intros t (f & d & Hd%elem_of_nil & _). done.
    + intros t x (d & Hd%elem_of_nil & _). done.
  - eapply describes_unique; [exact Hd|apply graph_of_describes|done].
Qed.

(** ** The bounded merge *)
Section merge.
Context (limits : Limits) (globals : list (list Z * list Z)).
Abbreviation sims := (sims limits).

Lemma sims_merge_edges deps edges :
  sims (fun _ => True) (forM (merge_edge limits) edges deps) (Ok (bs_extend deps edges)).
Proof.
  revert edges. induction deps as [|d deps IH]; intros edges; cbn; [by apply sim_ret|].
  eapply (sim_bind_ok _ _ (fun _ => True)); [|intros _; apply IH]. unfold merge_edge.
  eapply sim_silent; [apply quiet_bump|]. eapply sim_silent; [|by apply sim_ret].
  destruct (bs_has d edges); [by intros s Hs|apply quiet_charge].
Qed.

Lemma sims_merge_target path g entry :
  sims (fun _ => True) (merge_target limits path g entry) (Ok (add_target path g entry)).
Proof.
  destruct entry as [name t]. unfold merge_target, add_target.
  eapply sim_silent; [apply quiet_bump|]. eapply sim_silent; [apply quiet_copy|].
  eapply sim_silent; [by apply quiet_limit|]. eapply sim_silent; [apply quiet_copy|].
  eapply (sim_bind_ok _ _ (fun _ => True)); [apply sims_merge_edges|]. intros _.
  destruct (virtual_local t); [by apply sim_ret|].
  eapply sim_silent; [apply quiet_bump|]. eapply sim_silent; [apply quiet_copy|]. by apply sim_ret.
Qed.

Lemma sims_merge_file g parsed : sims (fun _ => True) (merge_file limits g parsed) (Ok (add_file g parsed)).
Proof.
  destruct parsed as [path local]. unfold merge_file, add_file. cbn [fst snd].
  eapply sim_silent; [apply quiet_charge|]. generalize (mkGraph (known_targets g) (dependencies g) (owners g)
    (declarations g ++ local_declarations local)). generalize (local_targets local). clear.
  intros l. induction l as [|entry l IH]; intros g; cbn -[add_target]; [by apply sim_ret|].
  eapply (sim_bind_ok _ _ (fun _ => True)); [apply sims_merge_target|intros _; apply IH].
Qed.

Lemma sims_merge_files l g : sims (fun _ => True) (forM (merge_file limits) g l) (Ok (foldl add_file g l)).
Proof.
  revert g. induction l as [|parsed l IH]; intros g; cbn -[add_file]; [by apply sim_ret|].
  eapply (sim_bind_ok _ _ (fun _ => True)); [apply sims_merge_file|intros _; apply IH].
Qed.

(** Every declaration names its makefile. *)
Lemma directive_file preserve path line first rest ds rest' :
  directive_declarations preserve globals path line first rest = Ok (ds, rest') -> Forall (fun d => file d = path) ds.
Proof.
  unfold directive_declarations. intros ([logical r] & _ & H)%bind_Ok. cbn zeta in H.
  apply refuse_bind_Ok in H as [_ H]. apply refuse_bind_Ok in H as [_ H]. destruct (eqb_list _ _); [destruct r as [|next r]|]; [done|..].
  - apply bind_Ok in H as (ds' & H & [= <- <-]). unfold bare_declaration in H. inv_ok. by repeat constructor.
  - apply bind_Ok in H as (ds' & H & [= <- <-]). unfold rule_declarations in H. case_match. inv_ok.
    apply Forall_forall. by intros d (t & -> & _)%list_elem_of_fmap.
Qed.
Lemma line_file preserve path total fuel : forall rest ds,
  line_declarations preserve globals fuel path total rest = Ok ds -> Forall (fun d => file d = path) ds.
Proof.
  induction fuel as [|fuel IH]; intros [|line rest] ds; cbn; try done; try (intros [= <-]; constructor).
  destruct (negb _); [apply IH|]. intros ([ds' rest'] & Hd & H)%bind_Ok. apply bind_Ok in H as (more & Hm & [= <-]).
  apply Forall_app. split; [by eapply directive_file|by eapply IH].
Qed.

Lemma mapR_zip {E A B C} (f : A -> res E B) (h : A -> B -> C) l :
  mapR (fun x => b ← f x; Ok (h x b)) l = (bs ← mapR f l; Ok (zip_with h l bs)).
Proof.
  induction l as [|x l IH]; cbn; [done|]. destruct (f x); cbn; [|done..]. rewrite IH. by destruct (mapR f l).
Qed.
Lemma mapR_Forall2 {E A B} (f : A -> res E B) l bs : mapR f l = Ok bs -> Forall2 (fun x b => f x = Ok b) l bs.
Proof.
  revert bs. induction l as [|x l IH]; intros bs H; cbn in H; inv_ok; constructor; auto.
Qed.

Lemma validate_global_limit bytes binding e : validate_global limits bytes binding = Err e -> is_limit e.
Proof.
  destruct binding as [name value]. unfold validate_global. unfold refuse. repeat case_match; cbn; try (by intros [= <-]).
  destruct (counter_add bytes _ _ _) as [n|e'|] eqn:E; cbn; [|intros [= <-]; by eapply counter_add_err|done].
  apply counter_add_err.
Qed.
Lemma validate_global_not_Stuck bytes binding : validate_global limits bytes binding <> Stuck.
Proof. destruct binding. unfold validate_global. not_stuck; apply counter_add_not_Stuck. Qed.
Lemma quiet_validate : silent is_limit (within limits) (lift (validate_global_limits limits globals)).
Proof.
  intros s Hs. unfold lift, validate_global_limits, refuse. destruct (_ <? len globals); cbn; [done|].
  destruct (foldM _ _ _) as [n|e|] eqn:E; cbn; [done| |].
  - apply foldM_Err in E as (? & ? & ? & ? & _ & _ & E). by eapply validate_global_limit.
  - apply (foldM_not_Stuck (validate_global limits) (fun _ => True) globals 0); auto using validate_global_not_Stuck.
Qed.

Lemma sims_build files : sane limits ->
  sims (fun _ => True) (build_graph limits globals files)
    (ds ← all_declarations (preserve_empty_endpoints limits) globals files; Ok (graph_of ds)).
Proof.
  intros Hsane. unfold build_graph, all_declarations. eapply sim_silent; [by apply quiet_limit|].
  eapply sim_silent; [apply quiet_validate|].
  rewrite res_bind_assoc. eapply sim_eq.
  - eapply (sim_bind _ _ (fun _ => True)).
    + apply (sim_forM_map is_limit (within limits) (read_file limits globals)
        (fun e => ds ← file_declarations (preserve_empty_endpoints limits) globals e; Ok (local_file e ds)) (fun acc b => acc ++ [b])).
      intros acc e _. eapply sim_eq; [by apply sims_read_file|]. by rewrite res_bind_assoc.
    + intros parsed _ _. apply sims_merge_files.
  - rewrite mapR_zip, !res_bind_assoc. destruct (mapR _ files) as [dss|e|] eqn:E; cbn; [|done..]. f_equal.
    rewrite <- add_files_graph with (entries := files).
    + f_equal. generalize (zip_with local_file files dss). intros l. induction l as [|x l IH] using rev_ind; [done|].
      rewrite foldl_app. cbn. by rewrite IH.
    + apply mapR_Forall2 in E. eapply Forall2_impl; [exact E|]. intros [path contents] ds Hd. by eapply line_file.
Qed.
End merge.
