(* ===== verification/OwnerSelect.v ===== *)
(** * OwnerSelect: a selection is what its roots reach *)

From S2P Require Import Prelude Text Ordered StateRes OwnerGraph OwnerRefine OwnerMerge.

(** ** What a selection should find *)
Definition live (g : MetaMakeOwnerGraph) (t : list Z) : Prop := t <> [] /\ t ∈ known_targets g.

Inductive reachable (g : MetaMakeOwnerGraph) (roots : list (list Z)) : list Z -> Prop :=
| reach_root t : t ∈ roots -> live g t -> reachable g roots t
| reach_step t d : reachable g roots t -> d ∈ dependencies_of g t -> live g d -> reachable g roots d.

(** An endpoint that is asked for and cannot be built. *)
Definition missing (g : MetaMakeOwnerGraph) (roots : list (list Z)) (x : list Z) : Prop :=
  ~ live g x /\ (x ∈ roots \/ exists t, reachable g roots t /\ x ∈ dependencies_of g t).

Lemma live_test g t : (negb (eqb_list t []) && bs_has t (known_targets g)) = true <-> live g t.
Proof.
  rewrite andb_true_iff, negb_true_iff, bs_has_true. unfold live, eqb_list.
  split; intros [H ?]; split; try done; [by apply bool_decide_eq_false in H|by apply bool_decide_eq_false].
Qed.

(** ** Outcomes up to limits *)
Definition gives {A} (Q : A -> Prop) (m : parser A) : Prop :=
  forall s, match fst (m s) with Ok a => Q a | Err e => is_limit e | Stuck => False end.

Section gives.
Context {A B : Type}.
Lemma gives_ret (Q : A -> Prop) a : Q a -> gives Q (mret a).
Proof. by intros HQ s. Qed.
Lemma gives_bind (P : A -> Prop) (Q : B -> Prop) m f : gives P m -> (forall a, P a -> gives Q (f a)) -> gives Q (m ≫= f).
Proof.
  intros Hm Hf s. specialize (Hm s). unfold mbind, SR_bind. destruct (m s) as [[a|e|] s']; cbn in *; [by apply Hf|done..].
Qed.
Lemma gives_weaken (P Q : A -> Prop) m : gives P m -> (forall a, P a -> Q a) -> gives Q m.
Proof. intros Hm HQ s. specialize (Hm s). destruct (fst (m s)); auto. Qed.
End gives.

(** A loop, by an invariant of the part that has been read. *)
Lemma gives_forM {A B} (P : list B -> A -> Prop) (f : A -> B -> parser A) l : forall pre acc, P pre acc ->
  (forall pre x acc, x ∈ l -> P pre acc -> gives (P (pre ++ [x])) (f acc x)) -> gives (P (pre ++ l)) (forM f acc l).
Proof.
  induction l as [|x l IH]; intros pre acc HP Hf; cbn; [rewrite app_nil_r; by apply gives_ret|].
  eapply gives_bind; [apply (Hf pre); [by left|done]|]. intros acc' HP'. rewrite cons_middle, app_assoc.
  apply IH; [done|]. intros pre' y acc'' Hy. apply Hf. by right.
Qed.

Section select.
Context (limits : Limits).

Lemma gives_charge c amount label (Q : unit -> Prop) : Q tt -> gives Q (charge limits c amount label).
Proof.
  intros HQ s. unfold charge, mbind, SR_bind, gets, lift, update.
  destruct (counter_add _ _ _ _) as [v|e|] eqn:E; cbn; [done|by eapply counter_add_err|by apply counter_add_not_Stuck in E].
Qed.
Lemma gives_paid {B} c amount label (Q : B -> Prop) m : gives Q m -> gives Q (charge limits c amount label ≫= fun _ => m).
Proof. intros Hm. eapply (gives_bind (fun _ => True)); [by apply gives_charge|done]. Qed.
Lemma gives_limit {B} b e (Q : B -> Prop) m : is_limit e -> gives Q m -> gives Q (lift (refuse b e) ≫= fun _ => m).
Proof.
  intros He Hm. eapply (gives_bind (fun _ => True)); [|done]. intros s. unfold lift, refuse. by destruct b.
Qed.
Ltac paid := repeat first [apply gives_paid|apply gives_limit; [done|] ].

(** ** Roots and dependencies *)
Definition sorted_in (g : MetaMakeOwnerGraph) (endpoints queue0 missing0 : list (list Z)) (acc : list (list Z) * list (list Z)) : Prop :=
  sset (snd acc) /\
  (forall x, x ∈ fst acc <-> x ∈ queue0 \/ x ∈ endpoints /\ live g x) /\
  (forall x, x ∈ snd acc <-> x ∈ missing0 \/ x ∈ endpoints /\ ~ live g x) /\
  (length (fst acc) <= length queue0 + length endpoints)%nat.

Lemma sorted_in_snoc g pre x queue0 missing0 acc : sorted_in g pre queue0 missing0 acc ->
  sorted_in g (pre ++ [x]) queue0 missing0
    (if negb (eqb_list x []) && bs_has x (known_targets g) then (fst acc ++ [x], snd acc)
     else (fst acc, bs_put str_ltb x (snd acc))).
Proof.
  intros (Hs & Hq & Hm & Hl). destruct (_ && _) eqn:E.
  - apply live_test in E. split_and!; cbn; [done|..].
    + intros y. rewrite elem_of_app, Hq, elem_of_app, !list_elem_of_singleton. naive_solver.
    + intros y. rewrite Hm, elem_of_app, list_elem_of_singleton. naive_solver.
    + rewrite !length_app. cbn. lia.
  - assert (~ live g x) as Hx by (intros Hx%live_test; congruence). split_and!; cbn; [by apply (bs_put_sorted str_ltb)|..].
    + intros y. rewrite Hq, elem_of_app, list_elem_of_singleton. naive_solver.
    + intros y. rewrite (elem_of_bs_put str_ltb), Hm, elem_of_app, list_elem_of_singleton. naive_solver.
    + rewrite !length_app. cbn. lia.
Qed.
Lemma sorted_in_nil g queue0 missing0 : sset missing0 -> sorted_in g [] queue0 missing0 (queue0, missing0).
Proof. intros Hs. split_and!; cbn; [done| | |lia]; intros x; rewrite elem_of_nil; naive_solver. Qed.

Lemma gives_roots g roots : gives (sorted_in g roots [] []) (forM (select_root limits g) ([], []) roots).
Proof.
  apply (gives_forM (fun pre => sorted_in g pre [] []) _ _ []); [apply sorted_in_nil; constructor|].
  intros pre x [queue miss] _ Hacc%(sorted_in_snoc _ _ x). unfold select_root. cbn [fst snd] in *. paid.
  destruct (_ && _); paid; by apply gives_ret.
Qed.
Lemma gives_dependencies g deps queue0 missing0 : sset missing0 ->
  gives (sorted_in g deps queue0 missing0) (forM (select_dependency limits g) (queue0, missing0) deps).
Proof.
  intros Hs. apply (gives_forM (fun pre => sorted_in g pre queue0 missing0) _ _ []); [by apply sorted_in_nil|].
  intros pre x [queue miss] _ Hacc%(sorted_in_snoc _ _ x). unfold select_dependency. cbn [fst snd] in *. paid.
  destruct (_ && _); paid; by apply gives_ret.
Qed.
Lemma gives_owners owners files : sset files ->
  gives (fun files' => sset files' /\ forall f, f ∈ files' <-> f ∈ files \/ f ∈ owners) (forM (select_owner limits) files owners).
Proof.
  intros Hs. apply (gives_forM (fun pre files' => sset files' /\ forall f, f ∈ files' <-> f ∈ files \/ f ∈ pre) _ _ []).
  - split; [done|]. intros f. rewrite elem_of_nil. naive_solver.
  - intros pre x acc _ [Hs' Hf]. unfold select_owner. paid. apply gives_ret. split; [by apply (bs_put_sorted str_ltb)|].
    intros f. rewrite (elem_of_bs_put str_ltb), Hf, elem_of_app, list_elem_of_singleton. naive_solver.
Qed.

(** ** The search *)
Definition pending (g : MetaMakeOwnerGraph) (reached : list (list Z)) : nat :=
  length (concat (map snd (List.filter (fun e => negb (bs_has (fst e) reached)) (dependencies g)))).

Lemma pending_reach g reached t : t ∉ reached ->
  (pending g (bs_put str_ltb t reached) + length (dependencies_of g t) <= pending g reached)%nat.
Proof.
  intros Ht. unfold pending, dependencies_of.
  assert (forall k, bs_has k (bs_put str_ltb t reached) = bool_decide (k = t) || bs_has k reached) as Hhas.
  { intros k. apply eq_true_iff_eq. rewrite orb_true_iff, bool_decide_eq_true, !bs_has_true. apply (elem_of_bs_put str_ltb). }
  induction (dependencies g) as [|[k l] m IH]; cbn; [lia|]. rewrite Hhas. case_bool_decide as E; [subst k|]; cbn.
  - rewrite bool_decide_true by done. cbn. replace (bs_has t reached) with false; cbn.
    + rewrite length_app. destruct (bt_get t m); cbn in *; lia.
    + symmetry. apply not_true_iff_false. by rewrite bs_has_true.
  - rewrite bool_decide_false by congruence. destruct (bs_has k reached); cbn; [done|]. rewrite !length_app. lia.
Qed.

(** What holds whenever the search takes the next target from its queue. *)
Record searching (g : MetaMakeOwnerGraph) (roots queue : list (list Z)) (sel : Selection) : Prop := {
  sel_sorted : sset (reached_targets sel) /\ sset (missing_endpoints sel) /\ sset (selected_owner_files sel);
  sel_reachable : forall t, t ∈ queue \/ t ∈ reached_targets sel -> reachable g roots t;
  sel_roots : forall t, t ∈ roots -> live g t -> t ∈ queue \/ t ∈ reached_targets sel;
  sel_steps : forall t d, t ∈ reached_targets sel -> d ∈ dependencies_of g t -> live g d ->
    d ∈ queue \/ d ∈ reached_targets sel;
  sel_missing : forall x, x ∈ missing_endpoints sel <->
    ~ live g x /\ (x ∈ roots \/ exists t, t ∈ reached_targets sel /\ x ∈ dependencies_of g t);
  sel_files : forall f, f ∈ selected_owner_files sel <-> exists t, t ∈ reached_targets sel /\ f ∈ owners_of g t;
}.

Definition found (g : MetaMakeOwnerGraph) (roots : list (list Z)) (sel : Selection) : Prop :=
  (sset (reached_targets sel) /\ sset (missing_endpoints sel) /\ sset (selected_owner_files sel)) /\
  (forall t, t ∈ reached_targets sel <-> reachable g roots t) /\
  (forall x, x ∈ missing_endpoints sel <-> missing g roots x) /\
  (forall f, f ∈ selected_owner_files sel <-> exists t, reachable g roots t /\ f ∈ owners_of g t).

Lemma searching_found g roots sel : searching g roots [] sel -> found g roots sel.
Proof.
  intros [Hs Hr Hroot Hstep Hm Hf].
  assert (forall t, t ∈ reached_targets sel <-> reachable g roots t) as E.
  { intros t. split; [by intros Ht; apply Hr; right|]. induction 1 as [t Ht Hl|t d Ht IH Hd Hl].
    - destruct (Hroot t Ht Hl) as [[]%elem_of_nil|]; done.
    - destruct (Hstep t d IH Hd Hl) as [[]%elem_of_nil|]; done. }
  split_and!; [apply Hs..|done| |]; unfold missing.
  - intros x. rewrite Hm. by setoid_rewrite E.
  - intros f. rewrite Hf. by setoid_rewrite E.
Qed.

Lemma searching_again g roots t queue sel : searching g roots (t :: queue) sel -> t ∈ reached_targets sel ->
  searching g roots queue sel.
Proof.
  intros [Hs Hr Hroot Hstep Hm Hf] Ht. split; [done| | | |done|done].
  - intros u Hu. apply Hr. rewrite elem_of_cons. naive_solver.
  - intros u Hu Hl. specialize (Hroot u Hu Hl). rewrite elem_of_cons in Hroot. naive_solver.
  - intros u d Hu Hd Hl. specialize (Hstep u d Hu Hd Hl). rewrite elem_of_cons in Hstep. naive_solver.
Qed.

Lemma searching_next g roots t queue sel files queue' miss : searching g roots (t :: queue) sel ->
  sset files -> (forall f, f ∈ files <-> f ∈ selected_owner_files sel \/ f ∈ owners_of g t) ->
  sorted_in g (dependencies_of g t) queue (missing_endpoints sel) (queue', miss) ->
  searching g roots queue' (mkSelection (bs_put str_ltb t (reached_targets sel)) miss files).
Proof.
  intros [ (Hs1 & Hs2 & Hs3) Hr Hroot Hstep Hm Hf] Hsf Hfiles (Hsm & Hq & Hmiss & _). cbn [fst snd] in *.
  assert (forall u, u ∈ bs_put str_ltb t (reached_targets sel) <-> u = t \/ u ∈ reached_targets sel) as Hput
    by (intros; apply (elem_of_bs_put str_ltb)).
  setoid_rewrite elem_of_cons in Hr. setoid_rewrite elem_of_cons in Hroot. setoid_rewrite elem_of_cons in Hstep.
  assert (reachable g roots t) as Ht by (apply Hr; naive_solver).
  split; cbn; [split_and!; [by apply (bs_put_sorted str_ltb)|done..]| | | | |].
  - intros u [ [Hu|[Hu Hl] ]%Hq|[->|Hu]%Hput]; [apply Hr; naive_solver| |done|apply Hr; naive_solver].
    by eapply reach_step.
  - intros u Hu Hl. rewrite Hput, Hq. destruct (Hroot u Hu Hl); naive_solver.
  - intros u d [->|Hu]%Hput Hd Hl; rewrite Hput, Hq; [naive_solver|]. destruct (Hstep u d Hu Hd Hl); naive_solver.
  - intros x. rewrite Hmiss, Hm. setoid_rewrite Hput. naive_solver.
  - intros f. rewrite Hfiles, Hf. setoid_rewrite Hput. naive_solver.
Qed.

Lemma gives_select_from g roots fuel : forall queue sel, searching g roots queue sel ->
  (length queue + pending g (reached_targets sel) <= fuel)%nat ->
  gives (found g roots) (select_from limits fuel g queue sel).
Proof.
  induction fuel as [|fuel IH]; intros [|t queue] sel Hsel Hfuel; cbn [select_from];
    try (apply gives_ret; by apply searching_found); cbn in Hfuel; [lia|].
  paid. destruct (bs_has t (reached_targets sel)) eqn:Eb.
  - apply bs_has_true in Eb. apply IH; [by eapply searching_again|lia].
  - assert (t ∉ reached_targets sel) as Ht by (intros Ht%bs_has_true; congruence).
    destruct (sel_sorted _ _ _ _ Hsel) as (_ & Hsm & Hsf).
    eapply gives_bind; [by apply gives_owners|]. intros files [Hs Hfiles].
    eapply gives_bind; [by apply gives_dependencies|]. intros [queue' miss] Hdeps. apply IH.
    + by eapply searching_next.
    + destruct Hdeps as (_ & _ & _ & Hl). cbn in *. pose proof (pending_reach g _ _ Ht). lia.
Qed.

Lemma pending_nil g : pending g [] = length (concat (map snd (dependencies g))).
Proof. unfold pending. f_equal. f_equal. f_equal. induction (dependencies g) as [|e m IH]; cbn; [done|]. by f_equal. Qed.

Lemma searching_start g roots queue miss : sorted_in g roots [] [] (queue, miss) ->
  searching g roots queue (mkSelection [] miss []).
Proof.
  intros (Hs & Hq & Hm & _). cbn [fst snd] in *.
  split; cbn; [split_and!; [constructor|done|constructor]| | | | |]; setoid_rewrite elem_of_nil.
  - intros t [ [Ht%elem_of_nil|[Ht Hl] ]%Hq|Ht]; [done| |done]. by apply reach_root.
  - intros t Ht Hl. left. apply Hq. by right.
  - done.
  - intros x. rewrite Hm, elem_of_nil. naive_solver.
  - naive_solver.
Qed.

Lemma gives_select g roots s :
  match fst ((select_roots ← forM (select_root limits g) ([], []) roots;
              let '(queue, missing) := select_roots in
              select_from limits (rounds g queue) g queue (mkSelection [] missing [])) s) with
  | Ok sel => found g roots sel | Err e => is_limit e | Stuck => False end.
Proof.
  revert s. change (gives (found g roots) (select_roots ← forM (select_root limits g) ([], []) roots;
              let '(queue, missing) := select_roots in
              select_from limits (rounds g queue) g queue (mkSelection [] missing []))).
  eapply gives_bind; [apply gives_roots|]. intros [queue miss] Hacc.
  apply gives_select_from; [by apply searching_start|unfold rounds; cbn; by rewrite pending_nil].
Qed.
End select.

(** ** Enough work and enough copies *)
Section afford.
Context (limits : Limits).
Hypothesis machine : max_work limits <= usize_max /\ max_total_identity_copy_bytes limits <= usize_max.

(** [m] succeeds whenever [w] units of work and [b] bytes of copies are left,
    and uses no more. *)
Definition affords {A} (w b : Z) (Q : A -> Prop) (m : parser A) : Prop :=
  forall s, work s + w <= max_work limits -> identity_copy_bytes s + b <= max_total_identity_copy_bytes limits ->
  exists a s', m s = (Ok a, s') /\ Q a /\ work s' <= work s + w /\ identity_copy_bytes s' <= identity_copy_bytes s + b.

Lemma affords_ret {A} w b (Q : A -> Prop) a : 0 <= w -> 0 <= b -> Q a -> affords w b Q (mret a).
Proof. intros ? ? HQ s _ _. exists a, s. split_and!; [done..|lia|lia]. Qed.
Lemma affords_bind {A B} w1 b1 w2 b2 (P : A -> Prop) (Q : B -> Prop) m f : 0 <= w2 -> 0 <= b2 ->
  affords w1 b1 P m -> (forall a, P a -> affords w2 b2 Q (f a)) -> affords (w1 + w2) (b1 + b2) Q (m ≫= f).
Proof.
  intros Hw Hb Hm Hf s H1 H2. destruct (Hm s) as (a & s' & E & HP & H3 & H4); [lia..|].
  destruct (Hf a HP s') as (a' & s'' & E' & HQ & H5 & H6); [lia..|].
  exists a', s''. unfold mbind, SR_bind. rewrite E, E'. split_and!; [done..|lia|lia].
Qed.
Lemma affords_more {A} w b w' b' (Q : A -> Prop) m : affords w b Q m -> w <= w' -> b <= b' -> affords w' b' Q m.
Proof.
  intros Hm Hw Hb s H1 H2. destruct (Hm s) as (a & s' & E & HQ & H3 & H4); [lia..|].
  exists a, s'. split_and!; [done..|lia|lia].
Qed.
Lemma affords_gives {A} w b (Q : A -> Prop) m : affords w b (fun _ => True) m -> gives Q m -> affords w b Q m.
Proof.
  intros Hm HQ s H1 H2. destruct (Hm s H1 H2) as (a & s' & E & _ & H3 & H4). specialize (HQ s). rewrite E in HQ.
  exists a, s'. by split_and!.
Qed.
Lemma affords_forM {A B} w b (f : A -> B -> parser A) l : 0 <= w -> 0 <= b ->
  (forall acc x, x ∈ l -> affords w b (fun _ => True) (f acc x)) -> forall acc,
  affords (len l * w) (len l * b) (fun _ => True) (forM f acc l).
Proof.
  intros Hw Hb. induction l as [|x l IH]; intros Hf acc; cbn; [by apply affords_ret|].
  rewrite len_cons. pose proof (len_nonneg l). eapply affords_more; [eapply (affords_bind w b (len l * w) (len l * b)); [nia..| |]|nia|nia].
  - apply Hf. by left.
  - intros acc' _. apply IH. intros acc'' y Hy. apply Hf. by right.
Qed.

Lemma affords_bump label : affords 1 0 (fun _ => True) (bump limits label).
Proof.
  intros s H1 H2. exists tt, (set_counter Work (work s + 1) s). unfold bump, charge, mbind, SR_bind, gets, lift, update, counter_add. cbn.
  rewrite (proj2 (checked_add_Some usize_max (work s) 1 (work s + 1))) by lia. cbn.
  replace (max_work limits <? work s + 1) with false by lia. cbn. destruct s; cbn in *. split_and!; [done..|lia|lia].
Qed.
Lemma affords_copy n label : 0 <= n -> affords 0 n (fun _ => True) (charge_identity_copy limits n label).
Proof.
  intros Hn s H1 H2. exists tt, (set_counter IdentityCopies (identity_copy_bytes s + n) s).
  unfold charge_identity_copy, charge, mbind, SR_bind, gets, lift, update, counter_add. cbn.
  rewrite (proj2 (checked_add_Some usize_max (identity_copy_bytes s) n (identity_copy_bytes s + n))) by lia. cbn.
  replace (max_total_identity_copy_bytes limits <? identity_copy_bytes s + n) with false by lia. cbn.
  destruct s; cbn in *. split_and!; [done..|lia|lia].
Qed.
Lemma affords_then_copy {A} n w b label (Q : A -> Prop) m : 0 <= n <= b -> 0 <= w -> affords w (b - n) Q m ->
  affords w b Q (charge_identity_copy limits n label ≫= fun _ => m).
Proof.
  intros Hn Hw Hm. eapply affords_more; [eapply (affords_bind 0 n w (b - n)); [lia..|apply affords_copy; lia|done]|lia|lia].
Qed.
Lemma affords_then_bump {A} w b label (Q : A -> Prop) m : 1 <= w -> 0 <= b -> affords (w - 1) b Q m ->
  affords w b Q (bump limits label ≫= fun _ => m).
Proof.
  intros Hw Hb Hm. eapply affords_more; [eapply (affords_bind 1 0 (w - 1) b); [lia..|by apply affords_bump|done]|lia|lia].
Qed.

Definition total_len (l : list (list Z)) : Z := foldr (fun x n => len x + n) 0 l.
Lemma total_len_nonneg l : 0 <= total_len l.
Proof. unfold total_len. induction l as [|x l IH]; cbn; [lia|]. pose proof (len_nonneg x). lia. Qed.

Lemma affords_owners owners : forall files, affords 0 (total_len owners) (fun _ => True) (forM (select_owner limits) files owners).
Proof.
  induction owners as [|o owners IH]; intros files; cbn; [by apply affords_ret|]. pose proof (len_nonneg o).
  pose proof (total_len_nonneg owners). eapply (affords_bind 0 (len o) 0 (total_len owners) (fun _ => True)); [lia..| |intros; apply IH].
  unfold select_owner. apply affords_then_copy; [lia..|]. apply affords_ret; [lia|lia|exact I].
Qed.

Context (g : MetaMakeOwnerGraph) (M W : Z).
Hypothesis names_short : forall t d, d ∈ dependencies_of g t -> len d <= M.
Hypothesis owners_short : forall t, total_len (owners_of g t) <= W.
Hypothesis bounds_ok : 0 <= M /\ 0 <= W.

Lemma affords_dependency acc d : len d <= M -> affords 1 M (fun _ => True) (select_dependency limits g acc d).
Proof.
  intros Hd. destruct acc as [queue miss]. unfold select_dependency. pose proof (len_nonneg d).
  apply affords_then_bump; [lia..|]. destruct (_ && _); (apply affords_then_copy; [lia..|]; apply affords_ret; [lia|lia|exact I]).
Qed.
Lemma affords_root acc r : len r <= M -> len r <= max_identity_bytes limits ->
  affords 1 M (fun _ => True) (select_root limits g acc r).
Proof.
  intros Hd Hid. destruct acc as [queue miss]. unfold select_root. pose proof (len_nonneg r).
  apply affords_then_bump; [lia..|]. replace (max_identity_bytes limits <? len r) with false by lia.
  change (lift (refuse false RootLimit) ≫= ?f) with (f tt). cbn beta.
  destruct (_ && _); (apply affords_then_copy; [lia..|]; apply affords_ret; [lia|lia|exact I]).
Qed.

(** What the search may still need. *)
Definition fuel_left (queue : list (list Z)) (sel : Selection) : Z :=
  len queue + 2 * Z.of_nat (pending g (reached_targets sel)).

Lemma affords_select_from roots fuel : forall queue sel, searching g roots queue sel ->
  Forall (fun t => len t <= M) queue -> (length queue + pending g (reached_targets sel) <= fuel)%nat ->
  affords (fuel_left queue sel) ((M + W) * fuel_left queue sel) (fun _ => True) (select_from limits fuel g queue sel).
Proof.
  induction fuel as [|fuel IH]; intros [|t queue] sel Hsel Hq Hfuel; cbn [select_from];
    try (apply affords_ret; [unfold fuel_left, len; cbn; nia..|exact I]); cbn in Hfuel; [lia|].
  apply Forall_cons in Hq as [Ht Hq]. pose proof (len_nonneg t). pose proof (len_nonneg queue).
  assert (fuel_left (t :: queue) sel = 1 + fuel_left queue sel) as -> by (unfold fuel_left; rewrite len_cons; lia).
  assert (0 <= fuel_left queue sel) as Hleft by (unfold fuel_left; lia).
  apply affords_then_bump; [lia|nia|]. apply affords_then_copy; [nia|lia|].
  destruct (bs_has t (reached_targets sel)) eqn:Eb.
  - apply bs_has_true in Eb. eapply affords_more; [apply IH; [by eapply searching_again|done|lia]|lia|nia].
  - assert (t ∉ reached_targets sel) as Hnt by (intros Hx%bs_has_true; congruence).
    destruct (sel_sorted _ _ _ _ Hsel) as (_ & Hsm & Hsf). pose proof (pending_reach g _ _ Hnt) as Hpend.
    pose proof (owners_short t) as HW. pose proof (total_len_nonneg (owners_of g t)).
    set (n := len (dependencies_of g t)). pose proof (len_nonneg (dependencies_of g t)) as Hn. fold n in Hn.
    eapply affords_more; [eapply (affords_bind 0 W (n + (fuel_left queue sel - n)) (n * M + (M + W) * (fuel_left queue sel - n)))|lia|nia].
    all: assert (n <= fuel_left queue sel) by (unfold fuel_left, n, len; lia).
    1, 2: nia.
    { eapply affords_gives; [eapply affords_more; [apply affords_owners|lia|done]|by apply gives_owners]. }
    intros files [Hs Hfiles]. eapply affords_bind; [nia..| |].
    { eapply affords_gives; [|by apply gives_dependencies]. rewrite <- (Z.mul_1_r n) at 1.
      apply affords_forM; [lia..|]. intros acc d Hd. apply affords_dependency. by eapply names_short. }
    intros [queue' miss] Hdeps. pose proof Hdeps as (_ & Hq' & _ & Hl). cbn [fst snd] in *.
    eapply affords_more; [apply IH| |].
    + by eapply searching_next.
    + apply Forall_forall. intros x [Hx|[Hx _] ]%Hq'; [by rewrite Forall_forall in Hq; apply Hq|by eapply names_short].
    + cbn in *. lia.
    + unfold fuel_left, n, len in *. cbn in *. lia.
    + apply Z.mul_le_mono_nonneg_l; [lia|]. unfold fuel_left, n, len in *. cbn in *. lia.
Qed.
End afford.
