(* ===== verification/OwnerTheorems.v ===== *)
(** * OwnerTheorems: what the owner graph is, and what a selection finds

    Begins with the writing of rules as [#MM] lines and their reading back. *)

From S2P Require Import Prelude Text Ordered StateRes OwnerGraph OwnerRefine OwnerMerge OwnerSelect.

(** ** Rules written as [#MM] lines *)
Record rule := mkRule { r_virtual : bool; r_targets : list (list Z); r_deps : list (list Z) }.

(** A name the line syntax does not give a meaning to. *)
Definition name_byte (b : Z) : bool := is_ascii_graphic b && negb ((b =? 34) || (b =? 36) || (b =? 58) || (b =? 92)).
Definition plain_name (t : list Z) : bool :=
  negb (eqb_list t []) && forallb name_byte t && negb (bool_decide (head t = Some 45)).
Definition plain_rule (r : rule) : bool :=
  (0 <? len (r_targets r)) && (len (r_targets r) <=? 254) && (len (r_deps r) <=? 254)
  && forallb plain_name (r_targets r) && forallb plain_name (r_deps r).

Definition render_rule (r : rule) : list Z :=
  rs "#MM" ++ (if r_virtual r then rs "-" else []) ++ rs " " ++ join (rs " ") (r_targets r)
  ++ rs " : " ++ join (rs " ") (r_deps r).
Definition render (rules : list rule) : list Z := concat (map (fun r => render_rule r ++ [10]) rules).

Definition rule_decls (path : list Z) (line : Z) (r : rule) : list declaration :=
  map (fun t => mkDeclaration line path t t (r_virtual r) false (negb (r_virtual r))
                  (map (fun d => mkDependency d d) (r_deps r))) (r_targets r).
Fixpoint rules_decls (path : list Z) (line : Z) (rules : list rule) : list declaration :=
  match rules with
  | [] => []
  | r :: rules => rule_decls path line r ++ rules_decls path (line + 1) rules
  end.

(** ** Bytes *)
Lemma name_byte_true b : name_byte b = true ->
  33 <= b <= 126 /\ b <> 34 /\ b <> 36 /\ b <> 58 /\ b <> 92.
Proof. unfold name_byte. rewrite andb_true_iff. intros [H1%in_range_true H2]. lia. Qed.
Lemma plain_name_true t : plain_name t = true -> t <> [] /\ Forall (fun b => name_byte b = true) t /\ head t <> Some 45.
Proof.
  unfold plain_name. rewrite !andb_true_iff, !negb_true_iff, forallb_forall. intros [ [H1 H2] H3]. split_and!.
  - by apply bool_decide_eq_false in H1.
  - apply Forall_forall. intros b Hb. apply H2. by apply list_elem_of_In.
  - by apply bool_decide_eq_false in H3.
Qed.
Lemma forallb_plain l : forallb plain_name l = true -> Forall (fun t => t <> [] /\ Forall (fun b => name_byte b = true) t /\ head t <> Some 45) l.
Proof.
  rewrite forallb_forall. intros H. apply Forall_forall. intros t Ht. apply plain_name_true, H. by apply list_elem_of_In.
Qed.

(** Bytes of a joined list of names. *)
Lemma join_bytes (P : Z -> Prop) ws : P 32 -> Forall (Forall P) ws -> Forall P (join (rs " ") ws).
Proof.
  intros Hs. induction 1 as [|w ws Hw Hws IH]; cbn; [constructor|]. destruct ws as [|w' ws]; [done|].
  apply Forall_app. split; [done|]. by constructor.
Qed.

Lemma join_length ws : Forall (fun t => t <> []) ws -> (length ws <= length (join (rs " ") ws))%nat.
Proof.
  induction 1 as [|w ws Hw Hws IH]; [done|]. destruct w as [|b w]; [done|]. destruct ws as [|w' ws]; [cbn; lia|].
  change (join (rs " ") ((b :: w) :: w' :: ws)) with ((b :: w) ++ 32 :: join (rs " ") (w' :: ws)).
  rewrite length_app. cbn [length] in *. lia.
Qed.

(** ** Tokens *)
Lemma token_bytes_name w rest : Forall (fun b => name_byte b = true) w ->
  match rest with b :: _ => is_ascii_whitespace b = true | [] => True end -> token_bytes (w ++ rest) = Ok (w, rest).
Proof.
  intros Hw Hr. induction Hw as [|b w Hb Hw IH]; cbn.
  - destruct rest as [|b rest]; cbn; [done|]. by rewrite Hr.
  - apply name_byte_true in Hb. assert (is_ascii_graphic b = true) as Hg by (apply in_range_true; lia).
    rewrite (graphic_not_space _ Hg), Hg. replace (b =? 34) with false by lia. cbn. by rewrite IH.
Qed.
Lemma from_utf8_name w : Forall (fun b => name_byte b = true) w -> from_utf8 w = Some w.
Proof.
  intros Hw. apply from_utf8_ascii. eapply Forall_impl; [exact Hw|]. intros b Hb%name_byte_true. unfold is_ascii. lia.
Qed.

Lemma trim_space bytes : trim_ascii_start (32 :: bytes) = trim_ascii_start bytes.
Proof. done. Qed.
Lemma trim_name w rest : w <> [] -> Forall (fun b => name_byte b = true) w -> trim_ascii_start (w ++ rest) = w ++ rest.
Proof.
  intros Hne Hw. destruct Hw as [|b w Hb Hw]; [done|]. cbn.
  rewrite graphic_not_space; [done|]. unfold name_byte in Hb. by apply andb_true_iff in Hb as [? _].
Qed.

Lemma tokenize_names ws : forall fuel tokens trail, (length ws <= fuel)%nat ->
  Forall (fun t => t <> [] /\ Forall (fun b => name_byte b = true) t /\ head t <> Some 45) ws ->
  len tokens + len ws <= 254 -> trail = [] \/ trail = [32] ->
  tokenize_from fuel (join (rs " ") ws ++ trail) tokens = Ok (tokens ++ ws).
Proof.
  induction ws as [|w ws IH]; intros fuel tokens trail Hf Hws Hl Htr.
  - rewrite app_nil_r. destruct fuel, Htr as [-> | ->]; done.
  - apply Forall_cons in Hws as [ (Hne & Hw & _) Hws]. destruct fuel as [|fuel]; [cbn in Hf; lia|].
    rewrite len_cons in Hl. pose proof (len_nonneg ws).
    assert (exists rest, join (rs " ") (w :: ws) ++ trail = w ++ rest /\
              match rest with b :: _ => is_ascii_whitespace b = true | [] => True end /\
              tokenize_from fuel rest (tokens ++ [w]) = Ok (tokens ++ w :: ws)) as (rest & -> & Hr & Ht).
    { destruct ws as [|w' ws].
      - exists trail. split; [done|]. split; [by destruct Htr as [-> | ->]|].
        change (tokens ++ [w]) with (tokens ++ [w]). destruct fuel, Htr as [-> | ->]; done.
      - exists (32 :: join (rs " ") (w' :: ws) ++ trail). split.
        { change (join (rs " ") (w :: w' :: ws)) with (w ++ 32 :: join (rs " ") (w' :: ws)). by rewrite <- app_assoc. }
        split; [done|].
        assert (tokenize_from fuel (32 :: join (rs " ") (w' :: ws) ++ trail) (tokens ++ [w])
          = tokenize_from fuel (join (rs " ") (w' :: ws) ++ trail) (tokens ++ [w])) as -> by (by destruct fuel).
        rewrite (IH fuel (tokens ++ [w]) trail); [by rewrite <- app_assoc|cbn in *; lia|done|rewrite len_app, len_cons, len_nil; lia|done]. }
    cbn [tokenize_from]. rewrite (trim_name w rest Hne Hw). destruct w as [|b w]; [done|].
    pose proof (token_bytes_name (b :: w) rest Hw Hr) as Etok. cbn [app] in *. rewrite Etok, Ok_bind, (from_utf8_name _ Hw). cbn [ok_or]. rewrite Ok_bind.
    replace (254 <? len (tokens ++ [b :: w])) with false; [done|]. rewrite len_app, len_cons, len_nil. lia.
Qed.

(** ** Names mean themselves *)
Lemma expand_name globals t : Forall (fun b => name_byte b = true) t -> expand_identity globals (length t) t = Ok t.
Proof.
  induction 1 as [|b t Hb Ht IH]; cbn; [done|]. apply name_byte_true in Hb. replace (b =? 36) with false by lia. by rewrite IH.
Qed.
Lemma identity_name preserve globals t : t <> [] -> Forall (fun b => name_byte b = true) t -> identity preserve globals t = Ok t.
Proof.
  intros Hne Ht. unfold identity. rewrite (expand_name _ _ Ht), Ok_bind. unfold eqb_list. by rewrite bool_decide_false.
Qed.
Lemma mapR_names {B} preserve globals (h : list Z -> list Z -> B) l :
  Forall (fun t => t <> [] /\ Forall (fun b => name_byte b = true) t /\ head t <> Some 45) l ->
  mapR (fun raw => name ← identity preserve globals raw; Ok (h raw name)) l = Ok (map (fun t => h t t) l).
Proof.
  induction 1 as [|t l (Hne & Ht & _) Hl IH]; cbn; [done|]. rewrite (identity_name _ _ _ Hne Ht). cbn. by rewrite IH.
Qed.

Section print.
Context (preserve : bool) (globals : list (list Z * list Z)).

Lemma rule_read path line virtual targets deps :
  Forall (fun t => t <> [] /\ Forall (fun b => name_byte b = true) t /\ head t <> Some 45) targets ->
  Forall (fun t => t <> [] /\ Forall (fun b => name_byte b = true) t /\ head t <> Some 45) deps ->
  0 < len targets <= 254 -> len deps <= 254 ->
  rule_declarations preserve globals path line virtual (join (rs " ") targets ++ rs " : " ++ join (rs " ") deps)
  = Ok (rule_decls path line (mkRule virtual targets deps)).
Proof.
  intros Ht Hd Hl Hl'. unfold rule_declarations.
  assert (forall l : list (list Z), Forall (fun t => t <> [] /\ Forall (fun b => name_byte b = true) t /\ head t <> Some 45) l ->
    (length l <= length (join (rs " ") l))%nat) as Hlen.
  { intros l Hl0. apply join_length. eapply Forall_impl; [exact Hl0|]. naive_solver. }
  assert (split_once 58 (join (rs " ") targets ++ rs " : " ++ join (rs " ") deps)
          = Some (join (rs " ") targets ++ [32], 32 :: join (rs " ") deps)) as ->.
  { apply split_once_Some. split; [rewrite <- app_assoc; reflexivity|]. apply Forall_app. split; [|by repeat constructor].
    apply join_bytes; [done|]. eapply Forall_impl; [exact Ht|]. intros t (_ & H & _).
    eapply Forall_impl; [exact H|]. intros b Hb%name_byte_true. cbn. lia. }
  unfold tokenize_make_args. rewrite (tokenize_names targets _ [] [32]); [|rewrite length_app; specialize (Hlen _ Ht); lia|done|rewrite len_nil; lia|by right].
  rewrite Ok_bind.
  replace (tokenize_from (length (32 :: join (rs " ") deps)) (32 :: join (rs " ") deps) [])
    with (tokenize_from (length (32 :: join (rs " ") deps)) (join (rs " ") deps ++ []) []) by (by rewrite app_nil_r).
  rewrite (tokenize_names deps _ [] []); [|cbn [length]; specialize (Hlen _ Hd); lia|done|rewrite len_nil; lia|by left].
  rewrite Ok_bind. cbn [app]. replace (len targets =? 0) with false by lia. cbn [refuse]. rewrite Ok_bind.
  rewrite (mapR_names preserve globals (fun raw name => (raw, name))) by done. rewrite Ok_bind.
  rewrite (mapR_names preserve globals (fun raw name => mkDependency raw name)) by done. rewrite Ok_bind.
  f_equal. unfold rule_decls. cbn. by rewrite map_map.
Qed.

Definition line_byte (b : Z) : Prop := 32 <= b <= 126 /\ b <> 92.

Lemma logical_line_plain text rest : Forall line_byte text -> logical_line text rest = Ok (text, rest).
Proof.
  intros Htext. assert (last_nonspace text <> Some 92) as Hlast.
  { unfold last_nonspace. destruct (trim_ascii_start_suffix (rev text)) as [p Hp]. intros E.
    destruct (trim_ascii_start (rev text)) as [|b l]; [done|]. injection E as ->.
    assert (Forall line_byte (rev text)) as Hrev by (by apply List.Forall_rev).
    rewrite Hp in Hrev. apply Forall_app in Hrev as [_ [ [_ H] _]%Forall_cons]. done. }
  destruct rest; cbn -[last_nonspace starts_with]; by rewrite bool_decide_false.
Qed.

Lemma directive_line_plain text rest : Forall line_byte text -> directive_line text rest = Ok (text, rest).
Proof.
  intros Htext. unfold directive_line. rewrite logical_line_plain by done. rewrite Ok_bind, from_utf8_ascii; [done|].
  eapply Forall_impl; [exact Htext|]. intros b [Hb _]. unfold is_ascii. lia.
Qed.

Lemma names_line_bytes l : Forall (fun t => t <> [] /\ Forall (fun b => name_byte b = true) t /\ head t <> Some 45) l ->
  Forall line_byte (join (rs " ") l).
Proof.
  intros Hl. apply join_bytes; [unfold line_byte; lia|]. eapply Forall_impl; [exact Hl|]. intros t (_ & H & _).
  eapply Forall_impl; [exact H|]. intros b Hb%name_byte_true. unfold line_byte. lia.
Qed.

Lemma names_head l tail : l <> [] -> Forall (fun t => t <> [] /\ Forall (fun b => name_byte b = true) t /\ head t <> Some 45) l ->
  let body := join (rs " ") l ++ tail in
  trim_ascii_start body = body /\ head body <> Some 45 /\ eqb_list body [] = false.
Proof.
  intros Hl. destruct 1 as [|t ts (Hne & Hb & Hh) _]; [done|]. destruct t as [|b t]; [done|]. cbn zeta.
  assert (exists rest, join (rs " ") ((b :: t) :: ts) ++ tail = (b :: t) ++ rest) as [rest ->].
  { destruct ts as [|t' ts]; [eexists; reflexivity|].
    change (join (rs " ") ((b :: t) :: t' :: ts)) with ((b :: t) ++ 32 :: join (rs " ") (t' :: ts)).
    rewrite <- app_assoc. eexists. reflexivity. }
  split; [by apply trim_name|done].
Qed.

Lemma render_bytes r : plain_rule r = true -> Forall line_byte (render_rule r).
Proof.
  unfold plain_rule. rewrite !andb_true_iff. intros [ [_ Ht%forallb_plain] Hd%forallb_plain]. unfold render_rule.
  repeat (apply Forall_app; split); try (by apply names_line_bytes); try destruct (r_virtual r); cbn;
    repeat (apply Forall_cons; split; [unfold line_byte; lia|]); constructor.
Qed.

Lemma directive_read path line r rest : plain_rule r = true ->
  directive_declarations preserve globals path line (render_rule r) rest = Ok (rule_decls path line r, rest).
Proof.
  intros Hr. pose proof (render_bytes r Hr) as Htext. revert Hr.
  unfold plain_rule. rewrite !andb_true_iff, Z.ltb_lt, !Z.leb_le. intros ((((Hl & Hl') & Hl'') & Ht%forallb_plain) & Hd%forallb_plain).
  destruct r as [virtual targets deps]. cbn [r_targets r_deps r_virtual] in *.
  destruct (names_head targets (rs " : " ++ join (rs " ") deps)) as (Htrim & Hhead & Hne); [by intros ->|done|].
  pose proof (rule_read path line virtual targets deps Ht Hd (conj Hl Hl') Hl'') as Hrule.
  unfold render_rule in *. cbn [r_targets r_deps r_virtual] in *. revert Htext Htrim Hhead Hne Hrule.
  generalize (join (rs " ") targets ++ rs " : " ++ join (rs " ") deps). intros body Htext Htrim Hhead Hne Hrule.
  unfold directive_declarations. rewrite directive_line_plain by done. rewrite Ok_bind.
  rewrite (proj2 (existsb_false_Forall _ _)) by (eapply Forall_impl; [exact Htext|]; intros b [Hb _]; lia).
  cbn [refuse]. rewrite Ok_bind. destruct virtual; cbn -[eqb_list].
  - rewrite (bool_decide_true (Some 45 = Some 45)) by done. cbn -[eqb_list].
    rewrite Htrim, bool_decide_false, Hne by done. cbn. by rewrite Hrule.
  - rewrite (bool_decide_false (Some 32 = Some 45)) by done. cbn -[eqb_list].
    rewrite Htrim, bool_decide_false, Hne by done. cbn. by rewrite Hrule.
Qed.

Lemma lines_read path total rules : forall fuel line, (length rules <= fuel)%nat -> forallb plain_rule rules = true ->
  line = total - len rules + 1 ->
  line_declarations preserve globals fuel path total (map render_rule rules) = Ok (rules_decls path line rules).
Proof.
  induction rules as [|r rules IH]; intros fuel line Hf Hr Hline; [by destruct fuel|].
  destruct fuel as [|fuel]; [cbn in Hf; lia|]. cbn [line_declarations map forallb length rules_decls] in *. apply andb_true_iff in Hr as [Hr Hrs].
  assert (starts_with (render_rule r) (rs "#MM") = true) as -> by (apply starts_with_true; by eexists). cbn [negb].
  rewrite len_cons in Hline. replace (total - len (map render_rule rules)) with line by (unfold len in *; rewrite length_map; lia).
  rewrite directive_read, Ok_bind by done. rewrite (IH fuel (line + 1)); [done|lia|done|lia].
Qed.

Lemma split_render rules : forallb plain_rule rules = true -> split_terminator 10 (render rules) = map render_rule rules.
Proof.
  intros Hr. assert (split_on (Z.eqb 10) (render rules) = map render_rule rules ++ [ [] ]) as E.
  { induction rules as [|r rules IH]; [done|]. cbn -[render_rule] in *. apply andb_true_iff in Hr as [Hr Hrs].
    unfold render. cbn -[render_rule]. rewrite <- app_assoc. cbn -[render_rule]. rewrite split_on_app.
    - f_equal. by apply IH.
    - eapply Forall_impl; [by apply render_bytes|]. intros b [Hb _]. apply Z.eqb_neq. lia.
    - done. }
  unfold split_terminator. rewrite E, rev_app_distr. cbn. apply rev_involutive.
Qed.
End print.

(** ** The reference always answers *)
Lemma logical_line_rest logical rest out rest' : logical_line logical rest = Ok (out, rest') ->
  (length rest' <= length rest)%nat.
Proof.
  revert logical. induction rest as [|next rest IH]; intros logical; cbn -[starts_with]; (destruct (negb _); [by intros [= <- <-]|]).
  - done.
  - destruct (starts_with next _); intros (? & _ & H%IH)%bind_Ok; lia.
Qed.
Lemma logical_line_not_Stuck logical rest : logical_line logical rest <> Stuck.
Proof.
  revert logical. induction rest as [|next rest IH]; intros logical; cbn -[starts_with]; (destruct (negb _); [done|]).
  - done.
  - destruct (starts_with next _); not_stuck.
Qed.
#[export] Hint Resolve logical_line_not_Stuck : aros.

Section answers.
Context (preserve : bool) (globals : list (list Z * list Z)).

Lemma identity_answers token : identity preserve globals token <> Stuck.
Proof. unfold identity. not_stuck. by apply expand_identity_not_Stuck. Qed.
Hint Resolve identity_answers : aros.
Lemma mapR_identity_answers {B} (h : list Z -> list Z -> B) l :
  mapR (fun raw => name ← identity preserve globals raw; Ok (h raw name)) l <> Stuck.
Proof. apply mapR_not_Stuck. intros. not_stuck. Qed.
Hint Resolve mapR_identity_answers : aros.

Lemma bare_answers path line virtual next : bare_declaration preserve globals path line virtual next <> Stuck.
Proof.
  unfold bare_declaration. apply bind_not_Stuck; [auto with aros|]. intros parsed _.
  destruct parsed as [|raw [|] ]; cbn; not_stuck.
Qed.
Lemma rule_answers path line virtual body : rule_declarations preserve globals path line virtual body <> Stuck.
Proof.
  unfold rule_declarations. destruct (match split_once 58 body with Some _ => _ | None => _ end).
  not_stuck; apply (mapR_identity_answers (fun raw name => _)).
Qed.
Hint Resolve bare_answers rule_answers : aros.

Lemma directive_answers path line first rest : directive_declarations preserve globals path line first rest <> Stuck.
Proof.
  unfold directive_declarations, directive_line. apply bind_not_Stuck.
  { apply bind_not_Stuck; [auto with aros|]. intros [logical r] _. not_stuck. }
  intros [logical r] _. cbn zeta. apply bind_not_Stuck; [auto with aros|]. intros _ _.
  apply bind_not_Stuck; [auto with aros|]. intros _ _. destruct (eqb_list _ _); [destruct r as [|next r]; [done|]|]; not_stuck.
Qed.
Lemma directive_rest path line first rest ds rest' :
  directive_declarations preserve globals path line first rest = Ok (ds, rest') -> (length rest' <= length rest)%nat.
Proof.
  unfold directive_declarations, directive_line. intros ([logical r] & H0 & H)%bind_Ok. cbn zeta in H.
  apply bind_Ok in H0 as ([logical' r'] & Hl%logical_line_rest & H0). inv_ok.
  destruct (eqb_list _ _); [destruct r as [|next r]; [done|]|]; inv_ok; cbn in *; lia.
Qed.

Lemma lines_answer path total fuel : forall rest, (length rest <= fuel)%nat ->
  line_declarations preserve globals fuel path total rest <> Stuck.
Proof.
  induction fuel as [|fuel IH]; intros [|line rest] Hl; cbn -[starts_with] in *; try done; [lia|].
  destruct (negb _); [apply IH; lia|]. apply bind_not_Stuck; [apply directive_answers|].
  intros [ds rest'] Hr%directive_rest. apply bind_not_Stuck; [apply IH; lia|done].
Qed.
Lemma all_declarations_answer files : all_declarations preserve globals files <> Stuck.
Proof.
  unfold all_declarations. apply bind_not_Stuck; [|done]. apply mapR_not_Stuck. intros [path contents] _.
  by apply lines_answer.
Qed.
End answers.

Lemma owner_graph_exact_core limits globals files : sane limits ->
  match parse_expanded_files limits globals files with
  | Ok g => exists ds, all_declarations (preserve_empty_endpoints limits) globals files = Ok ds /\ g = graph_of ds
  | Err e => is_limit e \/ all_declarations (preserve_empty_endpoints limits) globals files = Err e
  | Stuck => False
  end.
Proof.
  intros Hsane. pose proof (sim_run _ _ _ _ _ zero_counters (sims_build limits globals files Hsane)) as H.
  unfold parse_expanded_files. specialize (H ltac:(intros c; destruct c; apply Hsane)).
  pose proof (all_declarations_answer (preserve_empty_endpoints limits) globals files) as Hns.
  destruct (fst _) as [g|e|]; destruct (all_declarations _ _ _) as [ds|e'|]; cbn in H; naive_solver.
Qed.

(** C20. The owner graph is the graph of the declarations.  Whatever the
    makefiles, the bounded parser either returns the graph whose targets,
    dependencies and owning makefiles are read off the declarations that an
    unbounded reading of the [#MM] lines lists, or stops at one of its limits, or
    reports exactly the error of that reading; it never panics or loops. *)
Theorem owner_graph_exact limits globals files : sane limits ->
  match parse_expanded_files limits globals files with
  | Ok g => exists ds, all_declarations (preserve_empty_endpoints limits) globals files = Ok ds /\ g = graph_of ds
  | Err e => is_limit e \/ all_declarations (preserve_empty_endpoints limits) globals files = Err e
  | Stuck => False
  end.
Proof. apply owner_graph_exact_core. Qed.

Lemma default_sane : sane default_limits.
Proof. intros c. by destruct c. Qed.

(** The makefile of the examples: a continued rule, a reference, a virtual
    target and a bare marker. *)
Definition demo_line (text : list Z) : list Z := text ++ [10].
Definition demo_files : list (list Z * list Z) :=
  [(rs "src/Makefile",
    demo_line (rs "#MM- root-$(CPU) : mid \") ++ demo_line (rs "#MM bare") ++ demo_line (rs "#MM mid : root-arm leaf")
    ++ demo_line (rs "#MM-") ++ demo_line (rs "bare : ignored"))].
Definition demo_globals : list (list Z * list Z) := [(rs "CPU", rs "arm")].
Definition demo_graph : MetaMakeOwnerGraph :=
  match parse_expanded_files default_limits demo_globals demo_files with Ok g => g | _ => empty_graph end.

Lemma owner_graph_exact_witness : exists ds,
  all_declarations false demo_globals demo_files = Ok ds /\ demo_graph = graph_of ds /\
  known_targets demo_graph = [rs "bare"; rs "mid"; rs "root-arm"].
Proof.
  pose proof (owner_graph_exact default_limits demo_globals demo_files default_sane) as H.
  unfold demo_graph. destruct (parse_expanded_files _ _ _) as [g|e|] eqn:E; [|vm_compute in E; discriminate..].
  destruct H as (ds & H1 & H2). exists ds. split; [exact H1|]. split; [exact H2|].
  assert (E' : Ok g = parse_expanded_files default_limits demo_globals demo_files) by (symmetry; exact E).
  vm_compute in E'. injection E' as ->. vm_compute. reflexivity.
Defined.

(** C21. A selection is what its roots reach.  For any graph and any roots, a
    selection that is not stopped by a limit reaches exactly the targets that
    are known, not empty, and joined to a root by dependencies; reports exactly
    the roots and dependencies of reached targets that cannot be built; and
    selects exactly the makefiles that own a reached target.  Its loop always
    ends. *)
Theorem selection_exact limits g roots :
  match select limits g roots with
  | Ok sel => found g roots sel
  | Err e => is_limit e
  | Stuck => False
  end.
Proof. apply gives_select. Qed.

(** C22. A selection returns whenever its budget covers the graph: with [n]
    roots and [m] edges, twice [n + m] units of work, and for each of them the
    length of the longest name and the owners of a target in copied bytes, are
    enough. *)
Theorem selection_returns limits g roots (M W : Z) :
  max_work limits <= usize_max -> max_total_identity_copy_bytes limits <= usize_max -> 0 <= M -> 0 <= W ->
  (forall t d, d ∈ dependencies_of g t -> len d <= M) -> (forall t, total_len (owners_of g t) <= W) ->
  Forall (fun r => len r <= M /\ len r <= max_identity_bytes limits) roots ->
  let budget := 2 * (len roots + len (concat (map snd (dependencies g)))) in
  budget <= max_work limits -> (M + W) * budget <= max_total_identity_copy_bytes limits ->
  exists sel, select limits g roots = Ok sel.
Proof.
  intros Hm1 Hm2 HM HW Hdeps Howners Hroots budget Hwork Hcopy. rewrite Forall_forall in Hroots.
  pose proof (len_nonneg roots) as Hn. pose proof (len_nonneg (concat (map snd (dependencies g)))) as Hm.
  set (e := len (concat (map snd (dependencies g)))) in *.
  destruct (affords_bind limits (len roots * 1) (len roots * M) (len roots + 2 * e) ((M + W) * (len roots + 2 * e))
    (sorted_in g roots [] []) (fun _ => True) (forM (select_root limits g) ([], []) roots)
    (fun r => let '(queue, missing) := r in select_from limits (rounds g queue) g queue (mkSelection [] missing [])))
    with (s := zero_counters) as (sel & s' & E & _); [lia|nia| | |cbn; lia|cbn; nia|].
  - apply affords_gives; [|apply gives_roots]. apply affords_forM; [lia..|]. intros acc r Hr.
    apply (affords_root limits (conj Hm1 Hm2) g M W (conj HM HW)); by apply Hroots.
  - intros [queue miss] Hacc. pose proof Hacc as (_ & Hq & _ & Hl). cbn [fst snd] in *.
    eapply affords_more; [eapply (affords_select_from limits (conj Hm1 Hm2) g M W Hdeps Howners (conj HM HW) roots)|..].
    + by apply searching_start.
    + apply Forall_forall. intros x [Hx%elem_of_nil|[Hx _] ]%Hq; [done|]. by apply Hroots.
    + unfold rounds. cbn. by rewrite pending_nil.
    + unfold fuel_left. cbn. rewrite pending_nil. unfold e, len in *. cbn in Hl. lia.
    + apply Z.mul_le_mono_nonneg_l; [lia|]. unfold fuel_left. cbn. rewrite pending_nil. unfold e, len in *. cbn in Hl. lia.
  - exists sel. unfold select. by rewrite E.
Qed.

(** Rules are read back.  Whatever rules over plain names are written as
    [#MM] lines, the parser returns exactly the graph of these rules, each
    declared on its own line, or stops at a limit. *)
Theorem rendered_rules_read_back limits globals path rules : sane limits -> forallb plain_rule rules = true ->
  match parse_expanded_files limits globals [(path, render rules)] with
  | Ok g => g = graph_of (rules_decls path 1 rules)
  | Err e => is_limit e
  | Stuck => False
  end.
Proof.
  intros Hsane Hr. pose proof (owner_graph_exact_core limits globals [(path, render rules)] Hsane) as H.
  assert (all_declarations (preserve_empty_endpoints limits) globals [(path, render rules)] = Ok (rules_decls path 1 rules)) as E.
  { unfold all_declarations. cbn [mapR file_declarations]. rewrite split_render by done.
    rewrite (lines_read _ _ _ _ _ _ 1); [cbn; by rewrite app_nil_r|by rewrite length_map|done|unfold len; rewrite length_map; lia]. }
  rewrite E in H. destruct (parse_expanded_files _ _ _); naive_solver.
Qed.

(** Two rules that depend on each other. *)
Definition demo_rules : list rule :=
  [mkRule true [rs "all"; rs "world"] [rs "kernel"; rs "lib.a"]; mkRule false [rs "kernel"] []].
Lemma rendered_rules_read_back_witness :
  parse_expanded_files default_limits [] [(rs "m", render demo_rules)] = Ok (graph_of (rules_decls (rs "m") 1 demo_rules)).
Proof.
  pose proof (rendered_rules_read_back default_limits [] (rs "m") demo_rules default_sane eq_refl) as H.
  destruct (parse_expanded_files _ _ _) as [g|e|] eqn:E; [by rewrite H|vm_compute in E; discriminate..].
Defined.

(** The bounds of [selection_returns], by looking at every entry. *)
Lemma bt_get_forallb {V} (f : V -> bool) (m : list (list Z * V)) t v : forallb (fun e => f (snd e)) m = true ->
  bt_get t m = Some v -> f v = true.
Proof.
  induction m as [|[k v'] m IH]; cbn; [done|]. rewrite andb_true_iff. intros [Hv Hm].
  case_bool_decide; [by intros [= <-]|by apply IH].
Qed.
Lemma dependencies_within g M : forallb (fun e => forallb (fun d => len d <=? M) (snd e)) (dependencies g) = true ->
  forall t d, d ∈ dependencies_of g t -> len d <= M.
Proof.
  intros H t d. unfold dependencies_of. destruct (bt_get t (dependencies g)) as [l|] eqn:E; cbn; [|by intros ?%elem_of_nil].
  apply (bt_get_forallb (forallb (fun d => len d <=? M))) in E; [|done]. rewrite forallb_forall in E.
  intros Hd%list_elem_of_In%E. by apply Z.leb_le.
Qed.
Lemma owners_within g W : 0 <= W -> forallb (fun e => total_len (snd e) <=? W) (owners g) = true ->
  forall t, total_len (owners_of g t) <= W.
Proof.
  intros HW H t. unfold owners_of. destruct (bt_get t (owners g)) as [l|] eqn:E; cbn; [|done].
  apply (bt_get_forallb (fun l => total_len l <=? W)) in E; [|done]. by apply Z.leb_le.
Qed.

Lemma selection_returns_witness : exists sel, select default_limits demo_graph [rs "root-arm"; rs "x"] = Ok sel /\
  missing_endpoints sel = [rs "leaf"; rs "x"].
Proof.
  destruct (selection_returns default_limits demo_graph [rs "root-arm"; rs "x"] 16 16) as [sel E].
  1-4: done.
  - apply dependencies_within. vm_compute. reflexivity.
  - apply owners_within; [done|]. vm_compute. reflexivity.
  - repeat constructor; done.
  - vm_compute. discriminate.
  - vm_compute. discriminate.
  - exists sel. split; [exact E|]. vm_compute in E. injection E as <-. reflexivity.
Defined.

(** Variables declared absent stand for their own reference, and cannot also be
    bound. *)
Theorem declared_absence limits files globals absent g : parse_with_declared_absence limits files globals absent = Ok g ->
  exists closed, parse_expanded_files limits closed files = Ok g /\
  forall n, bt_get n closed = (if bs_has n absent then Some (missing_marker n) else bt_get n globals) /\
            (n ∈ absent -> bt_get n globals = None).
Proof.
  unfold parse_with_declared_absence. rewrite refuse_bind_Ok. intros [_ (u & _ & H)%bind_Ok].
  apply bind_Ok in H as (closed & Hc & H). exists closed. split; [done|]. clear H. revert Hc.
  apply (foldM_inv _ (fun pre closed => forall n,
    bt_get n closed = (if bs_has n pre then Some (missing_marker n) else bt_get n globals) /\ (n ∈ pre -> bt_get n globals = None))).
  - intros n. split; [done|by intros ?%elem_of_nil].
  - intros pre x m m' Hm. unfold close_absent. rewrite refuse_bind_Ok. intros [_ H]. apply refuse_bind_Ok in H as [Hb [= <-] ].
    apply bool_decide_eq_false in Hb. destruct (Hm x) as [Hx _]. intros n. rewrite (bt_get_put str_ltb).
    unfold bs_has. rewrite existsb_app. cbn. rewrite orb_false_r. fold (bs_has n pre). destruct (Hm n) as [Hn Hn'].
    rewrite elem_of_app, list_elem_of_singleton. case_bool_decide as E; [subst n|].
    + rewrite orb_true_r. split; [done|]. intros _. destruct (bs_has x pre); [by destruct Hb; rewrite Hx|].
      destruct (bt_get x globals); [|done]. destruct Hb. by rewrite Hx.
    + rewrite orb_false_r. split; [done|]. intros [|]; [auto|done].
Qed.
