(* ===== verification/MetaProject.v ===== *)
(** * MetaProject: configured MetaMake projects

    Models [crates/aros-transpiler/src/metamake_project.rs]: the project
    configuration, the sequential global-variable files, the substitution of
    globals and the plan of source makefiles from an inventory.  A string is the
    list of its UTF-8 bytes; every character the code looks for is ASCII. *)

From S2P Require Import Prelude Text Ordered.

Definition MAX_CONFIG_BYTES : Z := 64 * 1024.
Definition MAX_GLOBAL_BYTES : Z := 8 * 1024 * 1024.
Definition MAX_BINDINGS : Z := 16384.
Definition MAX_VALUE_BYTES : Z := 4095.
Definition MAX_RETAINED_BYTES : Z := 16 * 1024 * 1024.
Definition MAX_PHYSICAL_LINE_BYTES : Z := 255.

Inductive project_error :=
| InvalidConfiguration | SectionSyntax | ProjectName | DefaultInheritance | DuplicateProject
| DefaultDirective | NonliteralDirective | QuotedInput | VariableName | ProjectAbsent
| PhysicalLine | LiteralBasename | AddedPathLimit
| GlobalEntryLimit | InitialGlobal | ProvenancePathLimit | UnsupportedAssignment
| AssignmentLimit | BindingCountLimit
| SubstitutionInput | DollarSyntax | UnterminatedVariable | SubstitutedName | UnboundVariable (name : list Z)
| VariableValue | BufferLimit | ResourceLimit
| InventoryLimit | TopSelection | AddedMakefiles | DirectoryProvenance | UnsupportedEntry
| EmptyInventoryPath | GeneratorContract | SourceSuffix | OwnerLimit.

(** ** Shared checks *)
Definition contains_any (cs s : list Z) : bool := existsb (fun b => existsb (Z.eqb b) cs) s.

Definition physical_line (line : list Z) : res project_error (list Z) :=
  _ ← refuse ((MAX_PHYSICAL_LINE_BYTES <? len line) || negb (ends_with line [10]) || contains_any [0; 13] line) PhysicalLine;
  Ok (removelast line).
Definition variable_byte (b : Z) : bool := is_ascii_alphanumeric b || (b =? 95) || (b =? 45) || (b =? 46).
Definition variable_name (name : list Z) : bool :=
  negb (eqb_list name []) && (len name <? 256) && forallb variable_byte name.
Definition single_component (value : list Z) : res project_error unit :=
  refuse (negb (variable_name value) || eqb_list value (rs ".") || eqb_list value (rs "..")) LiteralBasename.
Definition relative_path (value : list Z) : res project_error unit :=
  _ ← refuse (MAX_VALUE_BYTES <? len value) AddedPathLimit;
  foldM (fun _ component => single_component component) tt (split_on (Z.eqb 47) value).
Definition charge_bytes (current amount limit : Z) : res project_error Z :=
  next ← ok_or (checked_add usize_max current amount) ResourceLimit;
  _ ← refuse (limit <? next) ResourceLimit;
  Ok next.

(** [s.trim_start_matches(f)], and the prefix of [s] before the first [f]. *)
Fixpoint trim_matches (f : Z -> bool) (s : list Z) : list Z :=
  match s with
  | b :: s' => if f b then trim_matches f s' else s
  | [] => []
  end.
Fixpoint span_until (f : Z -> bool) (s : list Z) : list Z * list Z :=
  match s with
  | b :: s' => if f b then ([], s) else let '(head, tail) := span_until f s' in (b :: head, tail)
  | [] => ([], [])
  end.

(** ** The configuration *)
Record ConfiguredProject := mkProject {
  name : list Z;
  top : option (list Z);
  default_makefile : list Z;
  default_target : list Z;
  ignored_directories : list (list Z);
  added_makefiles : list (list Z);
  global_variable_files : list (list Z);
  generator_inputs : list (list Z);
  generator_command : option (list Z);
  global_generator_command : option (list Z);
  make_command : option (list Z);
  variables : list (list Z * list Z);
}.

Definition default_make_command : list Z :=
  rs "make " ++ [34] ++ rs "TOP=$(TOP)" ++ [34; 32; 34] ++ rs "SRCDIR=$(SRCDIR)" ++ [34; 32; 34]
  ++ rs "CURDIR=$(CURDIR)" ++ [34].
Definition initial_project (project : list Z) : ConfiguredProject :=
  mkProject project None (rs "Makefile") (rs "all") [] [] [] [] None None (Some default_make_command) [].

(** [value.split_ascii_whitespace()] *)
Definition split_ascii_whitespace (value : list Z) : list (list Z) :=
  List.filter (fun w => negb (eqb_list w [])) (split_on is_ascii_whitespace value).

(** One directive of the selected project. *)
Definition directive (p : ConfiguredProject) (key value : list Z) : res project_error ConfiguredProject :=
  let 'mkProject n t dm dt ig add gv gi gc ggc mc vars := p in
  if eqb_list key (rs "defaultmakefilename") then
    _ ← single_component value; Ok (mkProject n t value dt ig add gv gi gc ggc mc vars)
  else if eqb_list key (rs "defaulttarget") then Ok (mkProject n t dm value ig add gv gi gc ggc mc vars)
  else if eqb_list key (rs "top") then Ok (mkProject n (Some value) dm dt ig add gv gi gc ggc mc vars)
  else if eqb_list key (rs "ignoredir") then
    _ ← single_component value; Ok (mkProject n t dm dt (bs_put str_ltb value ig) add gv gi gc ggc mc vars)
  else if eqb_list key (rs "add") then
    _ ← relative_path value; Ok (mkProject n t dm dt ig (add ++ [value]) gv gi gc ggc mc vars)
  else if eqb_list key (rs "globalvarfile") then Ok (mkProject n t dm dt ig add (gv ++ [value]) gi gc ggc mc vars)
  else if eqb_list key (rs "genmakefiledeps") then
    _ ← refuse (contains_any [34] value) QuotedInput;
    Ok (mkProject n t dm dt ig add gv (foldl (fun s x => bs_put str_ltb x s) gi (split_ascii_whitespace value))
          gc ggc mc vars)
  else if eqb_list key (rs "genmakefilescript") then Ok (mkProject n t dm dt ig add gv gi (Some value) ggc mc vars)
  else if eqb_list key (rs "genglobalvarfile") then Ok (mkProject n t dm dt ig add gv gi gc (Some value) mc vars)
  else if eqb_list key (rs "maketool") then Ok (mkProject n t dm dt ig add gv gi gc ggc (Some value) vars)
  else
    _ ← ensure (variable_name key) VariableName;
    Ok (mkProject n t dm dt ig add gv gi gc ggc mc (bt_put str_ltb key value vars)).

Record config_state := mkConfig { selected : ConfiguredProject; section : option (list Z); found : bool }.

Definition section_line (project : list Z) (st : config_state) (line : list Z) : res project_error config_state :=
  inner ← ok_or (s ← strip_prefix (rs "[") line; strip_suffix (rs "]") s) SectionSyntax;
  _ ← ensure (variable_name inner) ProjectName;
  _ ← refuse (eqb_list inner (rs "default")) DefaultInheritance;
  if eqb_list inner project then
    _ ← refuse (found st) DuplicateProject;
    Ok (mkConfig (selected st) (Some inner) true)
  else Ok (mkConfig (selected st) (Some inner) (found st)).

Definition directive_line (st : config_state) (line : list Z) : res project_error config_state :=
  _ ← refuse (negb (forallb (fun b => b <? 128) line) || contains_any [13; 0; 64] line) NonliteralDirective;
  let line := trim_matches is_ascii_whitespace line in
  let '(key, rest) := span_until is_ascii_whitespace line in
  p ← directive (selected st) (to_ascii_lowercase key) (trim_matches is_ascii_whitespace rest);
  Ok (mkConfig p (section st) (found st)).

Definition config_line (project : list Z) (st : config_state) (physical : list Z) : res project_error config_state :=
  line ← physical_line physical;
  if eqb_list line [] || starts_with line (rs "#") then Ok st
  else if starts_with line (rs "[") then section_line project st line
  else match section st with
       | None => Err DefaultDirective
       | Some s => if eqb_list s project then directive_line st line else Ok st
       end.

Definition parse_project (text project : list Z) : res project_error ConfiguredProject :=
  _ ← refuse ((MAX_CONFIG_BYTES <? len text) || negb (variable_name project)) InvalidConfiguration;
  st ← foldM (config_line project) (mkConfig (initial_project project) None false) (split_inclusive 10 text);
  _ ← ensure (found st) ProjectAbsent;
  Ok (selected st).

(** ** Substitution *)
Definition append (output value : list Z) : res project_error (list Z) :=
  _ ← refuse (match checked_add usize_max (len output) (len value) with
              | Some n => MAX_VALUE_BYTES <? n
              | None => true
              end) BufferLimit;
  Ok (output ++ value).

Fixpoint substitute_from (fuel : nat) (vars : list (list Z * list Z)) (rest output : list Z)
  : res project_error (list Z) :=
  match split_once 36 rest with
  | None => append output rest
  | Some (before, after) =>
    match fuel with
    | O => Stuck
    | S fuel =>
      output ← append output before;
      body ← ok_or (strip_prefix (rs "(") after) DollarSyntax;
      '(name, rest) ← ok_or (split_once 41 body) UnterminatedVariable;
      _ ← ensure (variable_name name) SubstitutedName;
      value ← ok_or (bt_get name vars) (UnboundVariable name);
      _ ← refuse (contains_any [0; 13; 10] value) VariableValue;
      output ← append output value;
      substitute_from fuel vars rest output
    end
  end.
Definition substitute_globals (text : list Z) (vars : list (list Z * list Z)) : res project_error (list Z) :=
  _ ← refuse ((MAX_VALUE_BYTES <? len text) || contains_any [0; 13; 10] text) SubstitutionInput;
  substitute_from (length text) vars text [].

(** ** Global variables *)
Record GlobalAssignment := mkAssignment { g_file : list Z; g_line : Z; g_name : list Z; g_value : list Z }.
Record ProjectGlobals := mkGlobals { values : list (list Z * list Z); assignments : list GlobalAssignment }.

Record globals_state := mkState {
  retained : Z; work : Z; input_bytes : Z; projection : ProjectGlobals;
}.

Definition check_initial (retained : Z) (binding : list Z * list Z) : res project_error Z :=
  let '(name, value) := binding in
  _ ← refuse (negb (variable_name name) || (MAX_VALUE_BYTES <? len value) || contains_any [0; 13; 10] value) InitialGlobal;
  charge_bytes retained (len name + len value) MAX_RETAINED_BYTES.

Definition is_separator (b : Z) : bool := is_ascii_whitespace b || (b =? 58) || (b =? 61).
(** The name and the text of the value of an assignment line. *)
Definition split_assignment (line : list Z) : list Z * list Z :=
  let line := trim_matches is_ascii_whitespace line in
  let '(name, rest) := span_until is_separator line in
  (name, match split_on (Z.eqb 35) (trim_matches is_separator rest) with w :: _ => w | [] => [] end).

Definition global_line (path : list Z) (st : globals_state) (numbered : Z * list Z) : res project_error globals_state :=
  let '(number, physical) := numbered in
  line ← physical_line physical;
  if eqb_list line [] || starts_with line (rs "#") then Ok st
  else
    let '(name, raw) := split_assignment line in
    _ ← ensure (variable_name name) UnsupportedAssignment;
    value ← substitute_globals raw (values (projection st));
    w ← charge_bytes (work st) (len value + len (trim_matches is_ascii_whitespace line)) MAX_GLOBAL_BYTES;
    r ← charge_bytes (retained st) (len path + len name + len value * 2) MAX_RETAINED_BYTES;
    _ ← refuse (MAX_BINDINGS <=? len (assignments (projection st))) AssignmentLimit;
    let vals := bt_put str_ltb name value (values (projection st)) in
    _ ← refuse (MAX_BINDINGS <? len vals) BindingCountLimit;
    Ok (mkState r w (input_bytes st)
          (mkGlobals vals (assignments (projection st) ++ [mkAssignment path number name value]))).

Fixpoint number_from {A} (n : Z) (l : list A) : list (Z * A) :=
  match l with [] => [] | x :: l => (n, x) :: number_from (n + 1) l end.

Definition global_file (st : globals_state) (entry : list Z * list Z) : res project_error globals_state :=
  let '(path, text) := entry in
  _ ← refuse (MAX_VALUE_BYTES <? len path) ProvenancePathLimit;
  bytes ← charge_bytes (input_bytes st) (len text) MAX_GLOBAL_BYTES;
  foldM (global_line path) (mkState (retained st) (work st) bytes (projection st))
    (number_from 1 (split_inclusive 10 text)).

Definition parse_globals (initial : list (list Z * list Z)) (files : list (list Z * list Z))
  : res project_error ProjectGlobals :=
  _ ← refuse ((MAX_BINDINGS <? len initial) || (256 <? len files)) GlobalEntryLimit;
  retained ← foldM check_initial 0 initial;
  st ← foldM global_file (mkState retained 0 0 (mkGlobals initial [])) files;
  Ok (projection st).

(** ** Source makefiles *)
Inductive InventoryEntry := Directory | RegularFile | Link | Other.
#[global] Instance inventory_entry_eq_dec : EqDecision InventoryEntry.
Proof. solve_decision. Defined.
Record OwnerInput := mkInput { owner : list Z; input : list Z; generated : bool }.

(** Every directory on the way is in the inventory. *)
Fixpoint check_parents (inventory : list (list Z * InventoryEntry)) (parent : list Z) (components : list (list Z))
  : res project_error unit :=
  match components with
  | [] => Ok tt
  | c :: components =>
    let parent := (if eqb_list parent [] then [] else parent ++ rs "/") ++ c in
    _ ← ensure (bool_decide (bt_get parent inventory = Some Directory)) DirectoryProvenance;
    check_parents inventory parent components
  end.

Definition source_basename (p : ConfiguredProject) : list Z := default_makefile p ++ rs ".src".

Definition plan_entry (p : ConfiguredProject) (inventory : list (list Z * InventoryEntry))
  (acc : Z * list (list Z * OwnerInput)) (entry : list Z * InventoryEntry)
  : res project_error (Z * list (list Z * OwnerInput)) :=
  let '(bytes, owners) := acc in
  let '(path, kind) := entry in
  _ ← relative_path path;
  bytes ← charge_bytes bytes (len path) MAX_RETAINED_BYTES;
  let components := split_on (Z.eqb 47) path in
  let directories := if bool_decide (kind = Directory) then components else removelast components in
  if existsb (fun c => bs_has c (ignored_directories p)) directories then Ok (bytes, owners)
  else
    _ ← check_parents inventory [] (removelast components);
    _ ← refuse (bool_decide (kind = Link) || bool_decide (kind = Other)) UnsupportedEntry;
    basename ← ok_or (last components) EmptyInventoryPath;
    if negb (bool_decide (kind = RegularFile))
       || negb (eqb_list basename (default_makefile p)) && negb (eqb_list basename (source_basename p))
    then Ok (bytes, owners)
    else
      let generated := eqb_list basename (source_basename p) in
      _ ← refuse (generated && negb (bool_decide (is_Some (generator_command p)))) GeneratorContract;
      owner ← (if generated then ok_or (strip_suffix (rs ".src") path) SourceSuffix else Ok path);
      let owners := if generated || negb (bool_decide (is_Some (bt_get owner owners)))
                    then bt_put str_ltb owner (mkInput owner path generated) owners else owners in
      _ ← refuse (20000 <? len owners) OwnerLimit;
      Ok (bytes, owners).

Definition plan_source_inputs (p : ConfiguredProject) (inventory : list (list Z * InventoryEntry))
  : res project_error (list OwnerInput) :=
  _ ← refuse (200000 <? len inventory) InventoryLimit;
  _ ← refuse (match top p with Some t => negb (eqb_list t (rs ".")) | None => false end) TopSelection;
  _ ← refuse (0 <? len (added_makefiles p)) AddedMakefiles;
  _ ← single_component (default_makefile p);
  '(_, owners) ← foldM (plan_entry p inventory) (0, []) inventory;
  Ok (map snd owners).
