(* ===== verification/ProjectTheorems.v ===== *)
(** * ProjectTheorems: substitution, global variables and source plans *)

From S2P Require Import Prelude Text Ordered StateRes MetaProject OwnerGraph OwnerRefine OwnerMerge.

(** ** Substitution by pieces

    A text is literal bytes and references; its expansion replaces each
    reference once.  [ok] says which bindings may be used. *)
Inductive expands (vars : list (list Z * list Z)) (ok : list Z -> list Z -> Prop) : list Z -> list Z -> Prop :=
| expands_nil : expands vars ok [] []
| expands_byte b text out : b <> 36 -> expands vars ok text out -> expands vars ok (b :: text) (b :: out)
| expands_reference name value text out : Forall (fun b => b <> 41) name -> bt_get name vars = Some value ->
    ok name value -> expands vars ok text out ->
    expands vars ok (36 :: 40 :: name ++ 41 :: text) (value ++ out).

Lemma expands_literal vars ok w text out : Forall (fun b => b <> 36) w -> expands vars ok text out ->
  expands vars ok (w ++ text) (w ++ out).
Proof. intros Hw Ht. induction Hw as [|b w Hb Hw IH]; cbn; [done|]. by constructor. Qed.
Lemma expands_impl vars (ok ok' : list Z -> list Z -> Prop) text out : expands vars ok text out ->
  (forall n v, bt_get n vars = Some v -> ok n v -> ok' n v) -> expands vars ok' text out.
Proof. intros H Hok. induction H; constructor; auto. Qed.

(** What [substitute_globals] accepts. *)
Definition global_ok (name value : list Z) : Prop := variable_name name = true /\ contains_any [0; 13; 10] value = false.

Lemma append_Ok output value out : append output value = Ok out <->
  out = output ++ value /\ len output + len value <= MAX_VALUE_BYTES.
Proof.
  unfold append. rewrite refuse_bind_Ok. destruct (checked_add _ _ _) as [n|] eqn:E.
  - apply checked_add_Some in E as [-> _]. rewrite Z.ltb_ge. naive_solver.
  - split; [by intros [? _]|]. intros [-> Hl]. exfalso.
    assert (checked_add usize_max (len output) (len value) = Some (len output + len value)) as E'.
    { apply checked_add_Some. split; [done|]. unfold MAX_VALUE_BYTES, usize_max, u64_max in *. lia. }
    congruence.
Qed.

Lemma substitute_from_sound fuel vars : forall rest output out, substitute_from fuel vars rest output = Ok out ->
  exists tail, out = output ++ tail /\ expands vars global_ok rest tail /\ len out <= MAX_VALUE_BYTES.
Proof.
  assert (forall rest output out, split_once 36 rest = None -> append output rest = Ok out ->
    exists tail, out = output ++ tail /\ expands vars global_ok rest tail /\ len out <= MAX_VALUE_BYTES) as Hend.
  { intros rest output out Hs [-> Hl]%append_Ok. apply split_once_None in Hs. exists rest. rewrite len_app. split_and!; [done| |lia].
    rewrite <- (app_nil_r rest) at 1. rewrite <- (app_nil_r rest) at 2. apply expands_literal; [done|constructor]. }
  induction fuel as [|fuel IH]; intros rest output out; cbn [substitute_from]; destruct (split_once 36 rest) as [ [before after]|] eqn:Es; try done; try (by apply Hend).
  apply split_once_Some in Es as [-> Hb]. intros (o1 & [-> _]%append_Ok & H)%bind_Ok.
  apply bind_Ok in H as (body & Hbody%ok_or_Ok%strip_prefix_Some & H). cbn in Hbody. subst after.
  apply bind_Ok in H as ([name rest'] & Hn%ok_or_Ok%split_once_Some & H). destruct Hn as [-> Hname].
  apply ensure_bind_Ok in H as [Hv H]. apply bind_Ok in H as (value & Hval%ok_or_Ok & H).
  apply refuse_bind_Ok in H as [Hc H]. apply bind_Ok in H as (o2 & [-> _]%append_Ok & H).
  apply IH in H as (tail & -> & Ht & Hl). exists (before ++ value ++ tail). rewrite !app_assoc. split_and!; [done| |by rewrite <- !app_assoc in *].
  rewrite <- app_assoc. apply expands_literal; [done|]. by constructor.
Qed.

Lemma expands_first vars ok text out : expands vars ok text out ->
  (Forall (fun b => b <> 36) text /\ out = text) \/
  exists before name value text' out', text = before ++ 36 :: 40 :: name ++ 41 :: text' /\
    out = before ++ value ++ out' /\ Forall (fun b => b <> 36) before /\ Forall (fun b => b <> 41) name /\
    bt_get name vars = Some value /\ ok name value /\ expands vars ok text' out'.
Proof.
  induction 1 as [|b text out Hb H IH|name value text out Hn Hv Hok H _].
  - by left.
  - destruct IH as [ [Hall ->]|(before & name & value & text' & out' & -> & -> & Hbf & Hrest)].
    + left. split; [by constructor|done].
    + right. exists (b :: before), name, value, text', out'. split_and!; [done|done|by constructor|apply Hrest..].
  - right. exists [], name, value, text, out. by split_and!.
Qed.

Lemma substitute_from_complete vars fuel : forall rest tail output, expands vars global_ok rest tail ->
  (length rest <= fuel)%nat -> len output + len tail <= MAX_VALUE_BYTES ->
  substitute_from fuel vars rest output = Ok (output ++ tail).
Proof.
  induction fuel as [|fuel IH]; intros rest tail output H%expands_first Hf Hl.
  { destruct rest; [|cbn in Hf; lia]. destruct H as [ [_ ->]|(before & n & v & t & o & E & _)]; [|by destruct before].
    cbn. by apply append_Ok. }
  cbn [substitute_from]. destruct H as [ [Hall ->]|(before & n & v & t & o & -> & -> & Hb & Hn & Hv & [Hname Hval] & Ht)].
  { rewrite (proj2 (split_once_None 36 rest) Hall). by apply append_Ok. }
  rewrite (proj2 (split_once_Some 36 _ before (40 :: n ++ 41 :: t))) by done.
  rewrite !len_app in Hl. pose proof (len_nonneg v). pose proof (len_nonneg o). pose proof (len_nonneg before).
  rewrite (proj2 (append_Ok output before (output ++ before))) by (split; [done|lia]). rewrite Ok_bind.
  rewrite (proj2 (strip_prefix_Some (rs "(") (40 :: n ++ 41 :: t) (n ++ 41 :: t))) by done. cbn [ok_or]. rewrite Ok_bind.
  rewrite (proj2 (split_once_Some 41 _ n t)) by done. cbn [ok_or]. rewrite Ok_bind, Hname. cbn [ensure]. rewrite Ok_bind, Hv.
  cbn [ok_or]. rewrite Ok_bind, Hval. cbn [refuse]. rewrite Ok_bind.
  rewrite (proj2 (append_Ok (output ++ before) v ((output ++ before) ++ v))) by (split; [done|rewrite len_app; lia]).
  rewrite Ok_bind, (IH t o); [by rewrite <- !app_assoc|done| |rewrite !len_app; lia].
  rewrite length_app in Hf. cbn in Hf. rewrite length_app in Hf. cbn in Hf. lia.
Qed.

Lemma substitute_globals_iff text vars out : substitute_globals text vars = Ok out <->
  len text <= MAX_VALUE_BYTES /\ contains_any [0; 13; 10] text = false /\ len out <= MAX_VALUE_BYTES /\
  expands vars global_ok text out.
Proof.
  unfold substitute_globals. rewrite refuse_bind_Ok, orb_false_iff, Z.ltb_ge. split.
  - intros [ [? ?] (tail & -> & ? & ?)%substitute_from_sound]. done.
  - intros (? & ? & ? & H). split; [done|]. apply (substitute_from_complete _ _ _ _ []); [done..|]. rewrite len_nil. lia.
Qed.

(** ** The identities of the owner graph are expanded the same way *)
Definition identity_ok (name value : list Z) : Prop :=
  name <> [] /\ len name <= REFERENCE_VARIABLE_BYTES /\
  Forall (fun b => is_ascii_graphic b = true /\ b <> 36 /\ b <> 40) name /\
  Forall (fun b => is_ascii_graphic b = true) value.

Lemma global_expansion_complete vars name value rest : Forall (fun b => b <> 41) name -> bt_get name vars = Some value ->
  identity_ok name value -> global_expansion vars (40 :: name ++ 41 :: rest) = Ok (value, rest).
Proof.
  intros Hn Hv (Hne & Hl & Hname & _). cbn. rewrite (proj2 (split_once_Some 41 _ name rest)) by done. cbn [ok_or].
  rewrite Ok_bind, from_utf8_ascii; last first.
  { eapply Forall_impl; [exact Hname|]. intros b [Hb%in_range_true _]. unfold is_ascii. lia. }
  cbn [ok_or]. rewrite Ok_bind. unfold eqb_list. rewrite bool_decide_false by done.
  replace (REFERENCE_VARIABLE_BYTES <? len name) with false by lia. cbn [orb].
  rewrite (proj2 (existsb_false_Forall _ _)); [cbn; by rewrite Hv|].
  eapply Forall_impl; [exact Hname|]. intros b (Hb & H1 & H2). rewrite Hb. cbn. lia.
Qed.

Lemma expand_identity_complete vars fuel : forall text out, expands vars identity_ok text out -> (length text <= fuel)%nat ->
  expand_identity vars fuel text = Ok out.
Proof.
  induction fuel as [|fuel IH]; intros text out H Hf.
  { destruct text; [by inversion H|cbn in Hf; lia]. }
  destruct H as [|b text out Hb H|name value text out Hn Hv Hok H]; [done|..].
  - cbn [expand_identity]. replace (b =? 36) with false by lia. cbn in Hf. by rewrite (IH text out) by (done || lia).
  - cbn [expand_identity]. cbn [Z.eqb Pos.eqb]. rewrite (global_expansion_complete _ _ _ _ Hn Hv Hok), Ok_bind.
    rewrite (proj2 (existsb_false_Forall _ _)).
    + cbn [refuse]. rewrite Ok_bind, (IH text out); [done..|]. cbn in Hf. rewrite length_app in Hf. cbn in Hf. lia.
    + destruct Hok as (_ & _ & _ & Hval). eapply Forall_impl; [exact Hval|]. intros b ->. done.
Qed.

Lemma counter_add_fits current amount max label : current + amount <= max -> max <= usize_max ->
  counter_add current amount max label = Ok (current + amount).
Proof.
  intros H1 H2. unfold counter_add. rewrite (proj2 (checked_add_Some usize_max current amount (current + amount))) by lia.
  cbn. by replace (max <? current + amount) with false by lia.
Qed.

Lemma measure_complete vars fuel : forall bytes text n, expand_identity vars fuel bytes = Ok text ->
  n + len text <= REFERENCE_IDENTITY_BYTES -> measure_identity default_limits vars fuel bytes n = Ok (n + len text).
Proof.
  assert (REFERENCE_IDENTITY_BYTES <= usize_max) as Hmax by done.
  induction fuel as [|fuel IH]; intros [|b bytes] text n; cbn; try done; try (intros [= <-] _; rewrite len_nil; f_equal; lia).
  change (Z.min 4095 REFERENCE_IDENTITY_BYTES) with REFERENCE_IDENTITY_BYTES. destruct (b =? 36); cbn [negb].
  - intros ([value rest] & -> & H)%bind_Ok Hl. apply refuse_bind_Ok in H as [Hc H]. apply bind_Ok in H as (result & H & [= <-]).
    rewrite len_app in *. pose proof (len_nonneg result). rewrite Ok_bind, Hc. cbn [refuse].
    rewrite Ok_bind, counter_add_fits by lia. rewrite Ok_bind, (IH _ result) by (done || lia). f_equal. lia.
  - intros (result & H & [= <-])%bind_Ok Hl. rewrite len_cons in *. pose proof (len_nonneg result).
    rewrite counter_add_fits by lia. rewrite Ok_bind, (IH _ result) by (done || lia). f_equal. lia.
Qed.

Lemma variable_name_ok name : variable_name name = true ->
  name <> [] /\ len name <= REFERENCE_VARIABLE_BYTES /\ Forall (fun b => is_ascii_graphic b = true /\ b <> 36 /\ b <> 40) name.
Proof.
  unfold variable_name. rewrite !andb_true_iff, negb_true_iff, Z.ltb_lt, forallb_forall. intros [ [Hne Hl] Hb].
  split_and!; [by apply bool_decide_eq_false in Hne|unfold REFERENCE_VARIABLE_BYTES; lia|].
  apply Forall_forall. intros b Hin%list_elem_of_In%Hb. unfold variable_byte, is_ascii_alphanumeric in Hin.
  unfold is_ascii_graphic, is_ascii_digit, is_ascii_lowercase, is_ascii_uppercase, in_range in *. lia.
Qed.

(** C23. The two readings of a reference agree.  A name that project
    configuration expands is expanded to the same text when it occurs as an
    endpoint of an owner graph under the default limits, provided it is made of
    visible characters and does not vanish. *)
Theorem substitutions_agree text vars out : substitute_globals text vars = Ok out ->
  Forall (fun b => is_ascii_graphic b = true) text ->
  (forall name value, bt_get name vars = Some value -> Forall (fun b => is_ascii_graphic b = true) value) -> out <> [] ->
  fst (substitute_identity default_limits vars text zero_counters) = Ok out.
Proof.
  intros (_ & _ & Hl & Hexp)%substitute_globals_iff Htext Hvars Hne.
  assert (expand_identity vars (length text) text = Ok out) as E.
  { apply expand_identity_complete; [|done]. eapply expands_impl; [exact Hexp|]. intros n v Hv [Hn _].
    apply variable_name_ok in Hn as (? & ? & ?). split_and!; [done..|by eapply Hvars]. }
  pose proof (expand_graphic _ _ _ _ E Htext) as Hg.
  unfold substitute_identity, mbind, SR_bind, lift at 1. rewrite (measure_complete _ _ _ _ 0 E) by done.
  replace ((0 + len out =? 0) && _) with false; last first.
  { destruct out as [|b out]; [done|]. rewrite len_cons. pose proof (len_nonneg out). symmetry. apply andb_false_iff. left. lia. }
  cbn [lift refuse]. unfold charge_identity_copy, charge, mbind, SR_bind, gets, update. cbn [lift counter_of zero_counters identity_copy_bytes].
  rewrite counter_add_fits; [|cbn; unfold MAX_VALUE_BYTES in *; lia|done]. rewrite (copy_expand _ _ _ _ E). cbn [lift].
  rewrite (proj2 (existsb_false_Forall _ _)); last first.
  { eapply Forall_impl; [exact Hg|]. intros b Hb. by apply graphic_not_space. }
  cbn [refuse]. rewrite from_utf8_ascii; [done|].
  eapply Forall_impl; [exact Hg|]. intros b Hb%in_range_true. unfold is_ascii. lia.
Qed.

Lemma substitutions_agree_witness :
  fst (substitute_identity default_limits [(rs "CPU", rs "arm")] (rs "kernel-$(CPU)") zero_counters) = Ok (rs "kernel-arm").
Proof.
  apply (substitutions_agree (rs "kernel-$(CPU)") [(rs "CPU", rs "arm")] (rs "kernel-arm")).
  - vm_compute. reflexivity.
  - repeat constructor.
  - intros name value. cbn. case_bool_decide; [|discriminate]. intros E. injection E as <-. repeat constructor.
  - discriminate.
Defined.

(** ** Global variables, assignment by assignment *)
Definition located : Type := list Z * Z * (list Z * list Z).
(** The assignment lines of one file, with their numbers. *)
Definition is_assignment (numbered : Z * list Z) : bool :=
  let line := removelast (snd numbered) in negb (eqb_list line [] || starts_with line (rs "#")).
Definition locate (path : list Z) (numbered : Z * list Z) : located :=
  (path, fst numbered, split_assignment (removelast (snd numbered))).
Definition assignment_lines (entry : list Z * list Z) : list located :=
  map (locate (fst entry)) (List.filter is_assignment (number_from 1 (split_inclusive 10 (snd entry)))).

Definition assign_global (vals : list (list Z * list Z)) (a : GlobalAssignment) : list (list Z * list Z) :=
  bt_put str_ltb (g_name a) (g_value a) vals.
(** Each value is expanded with what the assignments before it left. *)
Fixpoint replay (vals : list (list Z * list Z)) (l : list located) : res project_error (list GlobalAssignment) :=
  match l with
  | [] => Ok []
  | (path, number, (name, raw)) :: l =>
    value ← substitute_globals raw vals;
    let a := mkAssignment path number name value in
    more ← replay (assign_global vals a) l;
    Ok (a :: more)
  end.

Lemma replay_snoc vals l done path number name raw value : replay vals l = Ok done ->
  substitute_globals raw (foldl assign_global vals done) = Ok value ->
  replay vals (l ++ [(path, number, (name, raw))]) = Ok (done ++ [mkAssignment path number name value]).
Proof.
  revert vals done. induction l as [|[ [p n] [m r] ] l IH]; intros vals done; cbn.
  - intros [= <-] Hs. cbn in Hs. by rewrite Hs.
  - intros (v & Hv & H)%bind_Ok Hs. apply bind_Ok in H as (more & Hm & [= <-]). rewrite Hv, Ok_bind.
    cbn in Hs. by rewrite (IH _ more Hm Hs).
Qed.

Definition weight (vals : list (list Z * list Z)) : Z := foldr (fun e n => len (fst e) + len (snd e) + n) 0 vals.
Definition bounded_entry (e : list Z * list Z) : Prop := len (fst e) <= REFERENCE_VARIABLE_BYTES /\ len (snd e) <= MAX_VALUE_BYTES.

Lemma weight_put vals k v : weight (bt_put str_ltb k v vals) <= weight vals + len k + len v.
Proof.
  unfold weight. induction vals as [|[k' v'] vals IH]; cbn; [lia|]. pose proof (len_nonneg v'). pose proof (len_nonneg k').
  case_bool_decide; [subst; cbn; lia|]. destruct (str_ltb k k'); cbn in *; lia.
Qed.

Lemma validate_fits vals : forall bytes, Forall bounded_entry vals -> bytes + weight vals <= 16 * 1024 * 1024 ->
  foldM (validate_global default_limits) bytes vals = Ok (bytes + weight vals).
Proof.
  unfold weight. induction vals as [|[k v] vals IH]; intros bytes Hall Hb; cbn in *; [f_equal; lia|].
  apply Forall_cons in Hall as [ [Hk Hv] Hall]. cbn in Hk, Hv. pose proof (len_nonneg k). pose proof (len_nonneg v).
  assert (0 <= weight vals) as Hw.
  { clear. unfold weight. induction vals as [|[k v] vals IH]; cbn; [lia|]. pose proof (len_nonneg k). pose proof (len_nonneg v). lia. }
  unfold weight in Hw. unfold REFERENCE_VARIABLE_BYTES, MAX_VALUE_BYTES in *.
  change (Z.min REFERENCE_IDENTITY_BYTES 255) with 255. replace (255 <? len k) with false by lia. cbn [refuse]. rewrite Ok_bind.
  replace (1024 * 1024 <? len v) with false by lia. cbn [refuse]. rewrite Ok_bind.
  rewrite counter_add_fits by (done || lia). rewrite Ok_bind, counter_add_fits by (done || lia). rewrite Ok_bind.
  rewrite IH by (done || lia). f_equal. lia.
Qed.

Record reading (initial : list (list Z * list Z)) (l : list located) (st : globals_state) : Prop := {
  read_replay : replay initial l = Ok (assignments (projection st));
  read_values : values (projection st) = foldl assign_global initial (assignments (projection st));
  read_bounded : Forall bounded_entry (values (projection st));
  read_weight : weight (values (projection st)) <= retained st <= MAX_RETAINED_BYTES;
  read_count : len (values (projection st)) <= MAX_BINDINGS;
}.

Lemma charge_bytes_Ok current amount limit next : charge_bytes current amount limit = Ok next ->
  next = current + amount /\ next <= limit.
Proof.
  unfold charge_bytes. intros (n & [-> _]%ok_or_Ok%checked_add_Some & H)%bind_Ok.
  apply refuse_bind_Ok in H as [H%Z.ltb_ge [= <-] ]. lia.
Qed.

Lemma reading_line initial l path st numbered st' : reading initial l st -> global_line path st numbered = Ok st' ->
  reading initial (l ++ (if is_assignment numbered then [locate path numbered] else [])) st'.
Proof.
  destruct numbered as [number physical]. intros [Hr Hv Hb Hw Hc]. unfold global_line, is_assignment, locate. cbn [fst snd].
  intros (line & Hline & H)%bind_Ok. unfold physical_line in Hline. apply refuse_bind_Ok in Hline as [_ [= <-] ].
  destruct (eqb_list _ _ || _); cbn [negb].
  { injection H as <-. rewrite app_nil_r. by split. }
  destruct (split_assignment _) as [name raw]. apply ensure_bind_Ok in H as [Hname H].
  apply bind_Ok in H as (value & Hs & H). apply bind_Ok in H as (w & _ & H).
  apply bind_Ok in H as (r & [-> Hret]%charge_bytes_Ok & H). apply refuse_bind_Ok in H as [_ H].
  apply refuse_bind_Ok in H as [Hn%Z.ltb_ge [= <-] ]. pose proof Hs as (_ & _ & Hlen & _)%substitute_globals_iff.
  split; cbn [projection values assignments retained].
  - eapply replay_snoc; [done|]. by rewrite <- Hv.
  - rewrite foldl_app. cbn. by rewrite <- Hv.
  - apply Forall_forall. intros e [->|He]%(bt_put_elem str_ltb); [|by rewrite Forall_forall in Hb; apply Hb].
    split; cbn; [|done]. by apply variable_name_ok in Hname as (_ & ? & _).
  - pose proof (weight_put (values (projection st)) name value). pose proof (len_nonneg path). pose proof (len_nonneg value). lia.
  - done.
Qed.

Lemma reading_lines initial path ls : forall l st st', reading initial l st -> foldM (global_line path) st ls = Ok st' ->
  reading initial (l ++ map (locate path) (List.filter is_assignment ls)) st'.
Proof.
  induction ls as [|x ls IH]; intros l st st' Hr; cbn -[is_assignment global_line].
  - intros [= <-]. by rewrite app_nil_r.
  - intros (st1 & H1 & H2)%bind_Ok. apply (reading_line _ _ _ _ _ _ Hr) in H1. apply (IH _ _ _ H1) in H2.
    destruct (is_assignment x); cbn; [|by rewrite app_nil_r in H2]. by rewrite <- app_assoc in H2.
Qed.
Lemma reading_files initial files : forall l st st', reading initial l st -> foldM global_file st files = Ok st' ->
  reading initial (l ++ concat (map assignment_lines files)) st'.
Proof.
  induction files as [|[path text] files IH]; intros l st st' Hr; cbn -[global_file assignment_lines].
  - intros [= <-]. by rewrite app_nil_r.
  - intros (st1 & H1 & H2)%bind_Ok. unfold global_file in H1. apply refuse_bind_Ok in H1 as [_ H1].
    apply bind_Ok in H1 as (b & _ & H1). apply (reading_lines initial path _ l) in H1; [|by destruct Hr; split].
    apply (IH _ _ _ H1) in H2. by rewrite <- app_assoc in H2.
Qed.

Lemma check_initial_fits initial : forall r0 r, foldM check_initial r0 initial = Ok r -> r0 <= MAX_RETAINED_BYTES ->
  Forall bounded_entry initial /\ r0 + weight initial <= r <= MAX_RETAINED_BYTES.
Proof.
  unfold weight. induction initial as [|[k v] initial IH]; intros r0 r; cbn -[check_initial].
  - intros [= <-] Hr. split; [constructor|lia].
  - intros (r1 & H1 & H2)%bind_Ok Hr. unfold check_initial in H1. apply refuse_bind_Ok in H1 as [Hc [-> H1]%charge_bytes_Ok].
    rewrite !orb_false_iff, negb_false_iff, Z.ltb_ge in Hc. destruct Hc as [ [Hn Hv] _].
    destruct (IH _ _ H2 H1) as [Hall Hw]. split; [|lia]. constructor; [|done].
    split; [|done]. by apply variable_name_ok in Hn as (_ & ? & _).
Qed.

(** Global variables are what their assignments say.  Reading the
    configured files yields exactly their assignment lines, in order, each value
    expanded with the variables the lines before it left; a variable's final
    value is that of its last assignment, or its initial one; and the values
    always fit the limits under which the owner graph accepts them. *)
Theorem globals_sequential initial files g : parse_globals initial files = Ok g ->
  replay initial (concat (map assignment_lines files)) = Ok (assignments g) /\
  (forall n, bt_get n (values g) =
     match last (List.filter (fun a => eqb_list (g_name a) n) (assignments g)) with
     | Some a => Some (g_value a)
     | None => bt_get n initial
     end) /\
  validate_global_limits default_limits (values g) = Ok tt.
Proof.
  unfold parse_globals. rewrite refuse_bind_Ok, orb_false_iff, !Z.ltb_ge. intros ([Hi _] & H).
  apply bind_Ok in H as (r & Hr & H). apply bind_Ok in H as (st & Hst & [= <-]).
  apply check_initial_fits in Hr as [Hall Hw]; [|done]. apply (reading_files initial files []) in Hst; last first.
  { split; cbn [projection values assignments retained]; [done|done|done|lia|done]. }
  destruct Hst as [H1 H2 H3 H4 H5]. split_and!; [done| |].
  - intros n. rewrite H2. clear. generalize (assignments (projection st)). intros l.
    induction l as [|a l IH] using rev_ind; [done|]. rewrite foldl_app, List.filter_app. cbn. unfold assign_global at 1.
    rewrite (bt_get_put str_ltb). unfold eqb_list at 2. case_bool_decide as E; case_bool_decide as E'; try congruence.
    + by rewrite last_snoc.
    + by rewrite app_nil_r.
  - unfold validate_global_limits. change (max_global_bindings default_limits) with MAX_BINDINGS.
    replace (MAX_BINDINGS <? len (values (projection st))) with false by lia. cbn [refuse].
    rewrite Ok_bind, validate_fits; [done..|]. unfold MAX_RETAINED_BYTES in *. lia.
Qed.

Definition demo_initial : list (list Z * list Z) := [(rs "CPU", rs "arm")].
Definition demo_globals_file : list (list Z * list Z) :=
  [(rs "make.cfg", rs "ARCH := linux-$(CPU) # host" ++ [10] ++ rs "# note" ++ [10] ++ rs "ARCH=$(ARCH)x" ++ [10])].
Lemma globals_sequential_witness : exists g, parse_globals demo_initial demo_globals_file = Ok g /\
  bt_get (rs "ARCH") (values g) = Some (rs "linux-arm x") /\
  map g_line (assignments g) = [1; 3] /\
  replay demo_initial (concat (map assignment_lines demo_globals_file)) = Ok (assignments g).
Proof.
  destruct (parse_globals demo_initial demo_globals_file) as [g|e|] eqn:E; [|vm_compute in E; discriminate..].
  destruct (globals_sequential demo_initial demo_globals_file g E) as (H1 & H2 & _).
  exists g. split; [reflexivity|]. split; [|split; [|exact H1] ].
  - rewrite H2. vm_compute in E. injection E as <-. reflexivity.
  - vm_compute in E. injection E as <-. reflexivity.
Defined.

(** ** The plan of source makefiles *)
Definition path_components (path : list Z) : list (list Z) := split_on (Z.eqb 47) path.
(** A regular file with the given name that no ignored directory hides. *)
Definition makefile (p : ConfiguredProject) (inventory : list (list Z * InventoryEntry)) (basename path : list Z) : Prop :=
  (path, RegularFile) ∈ inventory /\ last (path_components path) = Some basename /\
  Forall (fun c => c ∉ ignored_directories p) (removelast (path_components path)).
Definition with_src (path : list Z) : list Z := path ++ rs ".src".

Definition planned_input (p : ConfiguredProject) (inventory : list (list Z * InventoryEntry)) (i : OwnerInput) : Prop :=
  if generated i then input i = with_src (owner i) /\ makefile p inventory (source_basename p) (input i)
  else input i = owner i /\ makefile p inventory (default_makefile p) (input i)
       /\ ~ makefile p inventory (source_basename p) (with_src (owner i)).

Record planning (p : ConfiguredProject) (pre : list (list Z * InventoryEntry)) (owners : list (list Z * OwnerInput)) : Prop := {
  plan_sorted : sorted_keys str_ltb owners;
  plan_get : forall o, match bt_get o owners with
    | Some i => owner i = o /\ planned_input p pre i
    | None => ~ makefile p pre (source_basename p) (with_src o) /\ ~ makefile p pre (default_makefile p) o
    end;
}.

Lemma makefile_snoc p pre path kind basename q : makefile p (pre ++ [(path, kind)]) basename q <->
  makefile p pre basename q \/ q = path /\ kind = RegularFile /\ makefile p [(path, kind)] basename path.
Proof.
  unfold makefile. rewrite elem_of_app, !list_elem_of_singleton. split.
  - intros ([H|[= -> <-] ] & H1 & H2); [by left|]. right. split_and!; done || by rewrite list_elem_of_singleton.
  - intros [(H & H1 & H2)|(-> & -> & _ & H1 & H2)]; split_and!; auto.
Qed.
Lemma source_not_default p : source_basename p <> default_makefile p.
Proof. unfold source_basename. intros E%(f_equal length). rewrite length_app in E. cbn in E. lia. Qed.

(** What a further entry changes for one of the two names of a makefile. *)
Lemma makefile_other p pre path kind basename q : q <> path \/ ~ makefile p [(path, kind)] basename path ->
  makefile p (pre ++ [(path, kind)]) basename q <-> makefile p pre basename q.
Proof. intros H. rewrite makefile_snoc. naive_solver. Qed.

Lemma planned_input_other p pre path kind i :
  input i <> path \/ ~ makefile p [(path, kind)] (source_basename p) path /\ ~ makefile p [(path, kind)] (default_makefile p) path ->
  with_src (owner i) <> path \/ ~ makefile p [(path, kind)] (source_basename p) path ->
  planned_input p pre i -> planned_input p (pre ++ [(path, kind)]) i.
Proof.
  unfold planned_input. intros H1 H2. destruct (generated i); rewrite !makefile_other by naive_solver; done.
Qed.

Lemma planning_skip p pre path kind owners : ~ makefile p [(path, kind)] (source_basename p) path ->
  ~ makefile p [(path, kind)] (default_makefile p) path -> planning p pre owners -> planning p (pre ++ [(path, kind)]) owners.
Proof.
  intros Hs Hd [Hsort Hget]. split; [done|]. intros o. specialize (Hget o). destruct (bt_get o owners) as [i|].
  - destruct Hget as [Ho Hi]. split; [done|]. apply planned_input_other; auto.
  - by rewrite !makefile_other by auto.
Qed.

Lemma with_src_inj a b : with_src a = with_src b -> a = b.
Proof. unfold with_src. intros E. by apply app_inv_tail in E. Qed.

Lemma planning_generated p pre o owners :
  let path := with_src o in makefile p [(path, RegularFile)] (source_basename p) path ->
  planning p pre owners -> planning p (pre ++ [(path, RegularFile)]) (bt_put str_ltb o (mkInput o path true) owners).
Proof.
  intros path Hm [Hsort Hget]. split; [by apply (bt_put_sorted str_ltb)|]. intros o'. rewrite (bt_get_put str_ltb).
  assert (~ makefile p [(path, RegularFile)] (default_makefile p) path) as Hd.
  { destruct Hm as (_ & Hl & _). intros (_ & Hl' & _). rewrite Hl in Hl'. injection Hl' as E. by apply source_not_default in E. }
  case_bool_decide as E; [subst o'|].
  - split; [done|]. unfold planned_input. cbn. split; [done|]. rewrite makefile_snoc. by right.
  - assert (with_src o' <> path) as Hne by (by intros ?%with_src_inj).
    specialize (Hget o'). destruct (bt_get o' owners) as [i|].
    + destruct Hget as [<- Hi]. split; [done|]. unfold planned_input in *. destruct (generated i).
      * rewrite makefile_other; [done|]. left. by destruct Hi as [-> _].
      * by rewrite !makefile_other by auto.
    + by rewrite !makefile_other by auto.
Qed.

Lemma planning_plain p pre path owners : makefile p [(path, RegularFile)] (default_makefile p) path ->
  planning p pre owners ->
  planning p (pre ++ [(path, RegularFile)])
    (if negb (bool_decide (is_Some (bt_get path owners))) then bt_put str_ltb path (mkInput path path false) owners else owners).
Proof.
  intros Hm [Hsort Hget].
  assert (~ makefile p [(path, RegularFile)] (source_basename p) path) as Hs.
  { destruct Hm as (_ & Hl & _). intros (_ & Hl' & _). rewrite Hl in Hl'. injection Hl' as E. by apply (source_not_default p). }
  assert (forall i, planned_input p pre i -> planned_input p (pre ++ [(path, RegularFile)]) i) as Hkeep.
  { intros i. unfold planned_input. destruct (generated i); rewrite !makefile_snoc; naive_solver. }
  assert (forall o i, bt_get o owners = Some i -> owner i = o /\ planned_input p (pre ++ [(path, RegularFile)]) i) as Hsome.
  { intros o i E. specialize (Hget o). rewrite E in Hget. destruct Hget. auto. }
  case_bool_decide as Ein; cbn [negb].
  - split; [done|]. intros o. destruct (bt_get o owners) as [i|] eqn:E; [by apply Hsome|].
    specialize (Hget o). rewrite E in Hget. rewrite !makefile_other; [done| |by auto].
    left. intros ->. rewrite E in Ein. by destruct Ein.
  - split; [by apply (bt_put_sorted str_ltb)|]. intros o. rewrite (bt_get_put str_ltb). case_bool_decide as E; [subst o|].
    + split; [done|]. unfold planned_input. cbn. split; [done|]. split; [rewrite makefile_snoc; by right|].
      rewrite makefile_other by auto. specialize (Hget path). destruct (bt_get path owners); [by destruct Ein|]. naive_solver.
    + destruct (bt_get o owners) as [i|] eqn:E'; [by apply Hsome|]. specialize (Hget o). rewrite E' in Hget.
      by rewrite !makefile_other by auto.
Qed.

Lemma path_components_last path : last (path_components path) <> None.
Proof.
  unfold path_components. destruct (split_on_spec (Z.eqb 47) path) as (w & ws & -> & _). by destruct (exists_last (l := w :: ws)) as (l & x & ->); [|rewrite last_snoc].
Qed.

Lemma planning_entry p inventory pre bytes owners path kind bytes' owners' : planning p pre owners ->
  plan_entry p inventory (bytes, owners) (path, kind) = Ok (bytes', owners') ->
  planning p (pre ++ [(path, kind)]) owners'.
Proof.
  intros Hp. unfold plan_entry. intros (? & _ & H)%bind_Ok. apply bind_Ok in H as (b & _ & H). fold (path_components path) in H.
  set (hidden := existsb _ _) in H.
  assert (forall basename, makefile p [(path, kind)] basename path -> hidden = false /\ kind = RegularFile) as Hmake.
  { intros basename (Hin%list_elem_of_singleton & _ & Hd). injection Hin as <-. split; [|done]. unfold hidden.
    rewrite bool_decide_false by done. apply existsb_false_Forall. eapply Forall_impl; [exact Hd|].
    intros c Hc. apply not_true_iff_false. by rewrite bs_has_true. }
  destruct hidden eqn:Eh.
  { injection H as <- <-. apply planning_skip; [by intros [? _]%Hmake..|done]. }
  apply bind_Ok in H as (? & _ & H). apply refuse_bind_Ok in H as [_ H].
  apply bind_Ok in H as (basename & Hb%ok_or_Ok & H).
  assert (forall name, makefile p [(path, kind)] name path -> basename = name) as Hname.
  { intros name (_ & Hl & _). rewrite Hb in Hl. by injection Hl. }
  destruct (negb _ || _) eqn:Eskip.
  { injection H as <- <-. rewrite orb_true_iff, andb_true_iff, !negb_true_iff, bool_decide_eq_false in Eskip.
    unfold eqb_list in Eskip. rewrite !bool_decide_eq_false in Eskip.
    apply planning_skip; [..|done]; intros Hm; pose proof (Hmake _ Hm) as [_ Hk]; pose proof (Hname _ Hm); naive_solver. }
  rewrite orb_false_iff, andb_false_iff, !negb_false_iff, bool_decide_eq_true in Eskip. destruct Eskip as [-> Ebase].
  assert (forall name, basename = name -> makefile p [(path, RegularFile)] name path) as Hhere.
  { intros name <-. split; [by apply list_elem_of_singleton|]. split; [done|]. unfold hidden in Eh.
    rewrite bool_decide_false in Eh by done. apply existsb_false_Forall in Eh. eapply Forall_impl; [exact Eh|].
    intros c Hc Hin%bs_has_true. congruence. }
  apply refuse_bind_Ok in H as [_ H]. destruct (eqb_list basename (source_basename p)) eqn:Eg.
  - apply eqb_list_true in Eg. apply bind_Ok in H as (o & Ho%ok_or_Ok%strip_suffix_Some & H).
    apply refuse_bind_Ok in H as [_ [= <- <-] ]. subst path. cbn [orb]. apply planning_generated; [by apply Hhere|done].
  - apply bind_Ok in H as (o & [= <-] & H). apply refuse_bind_Ok in H as [_ [= <- <-] ]. cbn [orb].
    destruct Ebase as [Ed|]; [|congruence]. apply eqb_list_true in Ed. by apply planning_plain; [apply Hhere|].
Qed.

(** The plan lists every source makefile once.  A plan contains exactly one
    input per owner, in the order of the owners: the [.src] file of a directory
    that no ignored directory hides, or else the plain makefile that has no
    [.src] beside it. *)
Theorem plan_inputs_exact p inventory inputs : plan_source_inputs p inventory = Ok inputs ->
  ForallOrdPairs (fun i j => str_ltb (owner i) (owner j) = true) inputs /\
  forall i, i ∈ inputs <-> planned_input p inventory i.
Proof.
  unfold plan_source_inputs. intros H. do 3 apply refuse_bind_Ok in H as [_ H]. apply bind_Ok in H as (? & _ & H).
  apply bind_Ok in H as ([bytes owners] & Hf & [= <-]).
  assert (planning p inventory owners) as [Hsort Hget].
  { revert Hf. apply (foldM_inv _ (fun pre st => planning p pre (snd st)) inventory (0, [])).
    - split; [constructor|]. intros o. unfold makefile. cbn. setoid_rewrite elem_of_nil. naive_solver.
    - intros pre [path kind] [b o] [b' o'] Hp Hs. by eapply planning_entry. }
  assert (forall o i, (o, i) ∈ owners -> owner i = o /\ planned_input p inventory i) as Hin.
  { intros o i Hoi%(bt_get_elem str_ltb); [|done]. specialize (Hget o). by rewrite Hoi in Hget. }
  split.
  - clear Hget Hf. induction Hsort as [|[o i] owners Hx Hs IH]; cbn; [constructor|]. constructor; [|apply IH; intros; apply Hin; by right].
    apply Forall_forall. intros j ([o' j'] & -> & Hj)%list_elem_of_fmap. rewrite Forall_forall in Hx. cbn [snd].
    destruct (Hin o i) as [-> _]; [by left|]. destruct (Hin o' j') as [-> _]; [by right|]. exact (Hx _ Hj).
  - intros i. rewrite list_elem_of_fmap. split.
    + intros ([o j] & -> & [_ Hj]%Hin). done.
    + intros Hi. specialize (Hget (owner i)). destruct (bt_get (owner i) owners) as [j|] eqn:E.
      * exists (owner i, j). split; [|by apply (bt_get_elem str_ltb)]. cbn. destruct Hget as [Ho Hj].
        unfold planned_input in Hi, Hj. destruct i as [o inp gen], j as [o' inp' gen']. cbn in *. subst o'.
        destruct gen, gen', Hi as [-> Hi], Hj as [-> Hj]; naive_solver.
      * exfalso. unfold planned_input in Hi. destruct (generated i), Hi as [Hinp Hi]; rewrite Hinp in Hi; naive_solver.
Qed.

Definition demo_project : ConfiguredProject :=
  match parse_project (rs "[aros]" ++ [10] ++ rs "defaultmakefilename mmakefile" ++ [10] ++ rs "ignoredir .git" ++ [10]
                       ++ rs "genmakefilescript genmf" ++ [10]) (rs "aros") with
  | Ok p => p | _ => initial_project [] end.
Definition demo_inventory : list (list Z * InventoryEntry) :=
  [(rs ".git", Directory); (rs ".git/mmakefile", RegularFile); (rs "a", Directory); (rs "a/mmakefile", RegularFile);
   (rs "a/mmakefile.src", RegularFile); (rs "mmakefile", RegularFile); (rs "notes", RegularFile)].
Lemma plan_inputs_exact_witness : exists inputs, plan_source_inputs demo_project demo_inventory = Ok inputs /\
  inputs = [mkInput (rs "a/mmakefile") (rs "a/mmakefile.src") true; mkInput (rs "mmakefile") (rs "mmakefile") false] /\
  planned_input demo_project demo_inventory (mkInput (rs "a/mmakefile") (rs "a/mmakefile.src") true).
Proof.
  destruct (plan_source_inputs demo_project demo_inventory) as [inputs|e|] eqn:E; [|vm_compute in E; discriminate..].
  destruct (plan_inputs_exact demo_project demo_inventory inputs E) as [_ H]. exists inputs. split; [reflexivity|].
  assert (inputs = [mkInput (rs "a/mmakefile") (rs "a/mmakefile.src") true; mkInput (rs "mmakefile") (rs "mmakefile") false]) as Hi.
  { vm_compute in E. injection E as <-. reflexivity. }
  split; [exact Hi|]. apply H. rewrite Hi. left.
Defined.

(** ** Configured projects *)
Record wf_project (project : list Z) (p : ConfiguredProject) : Prop := {
  wf_name : name p = project;
  wf_makefile : single_component (default_makefile p) = Ok tt;
  wf_ignored : sset (ignored_directories p) /\ Forall (fun d => single_component d = Ok tt) (ignored_directories p);
  wf_added : Forall (fun a => relative_path a = Ok tt) (added_makefiles p);
  wf_inputs : sset (generator_inputs p);
  wf_variables : smap (variables p) /\ Forall (fun e => variable_name (fst e) = true) (variables p);
}.

Lemma wf_directive project p key value p' : wf_project project p -> directive p key value = Ok p' -> wf_project project p'.
Proof.
  destruct p as [n t dm dt ig add gv gi gc ggc mc vars]. intros [Hn Hdm [Hig Hig'] Hadd Hgi [Hv Hv'] ]. cbn in *.
  unfold directive. repeat match goal with |- context [eqb_list key ?k] => destruct (eqb_list key k) end; intros H.
  1, 4, 5, 7, 11: apply bind_Ok in H as ([] & Hc & H).
  all: injection H as <-; split; cbn; auto.
  - split; [by apply (bs_put_sorted str_ltb)|]. apply Forall_forall. intros d [->|Hd]%(elem_of_bs_put str_ltb); [done|].
    by rewrite Forall_forall in Hig'; apply Hig'.
  - by apply Forall_app; split; [|apply Forall_singleton].
  - by apply bs_extend_sorted.
  - split; [by apply (bt_put_sorted str_ltb)|]. apply Forall_forall. intros e [->|He]%(bt_put_elem str_ltb).
    + by apply ensure_Ok in Hc.
    + by rewrite Forall_forall in Hv'; apply Hv'.
Qed.

(** A parsed configuration is well formed: the name of its makefiles is a
    single path component, so are the ignored directories, added makefiles are
    relative paths without dots, project variables have valid names, and sets
    and maps are in order; the name is the one that was asked for. *)
Theorem configured_project_valid text project p : parse_project text project = Ok p -> wf_project project p.
Proof.
  unfold parse_project. rewrite refuse_bind_Ok. intros [_ (st & Hst & H)%bind_Ok]. apply bind_Ok in H as (? & _ & [= <-]).
  revert Hst. apply (foldM_inv _ (fun _ st => wf_project project (selected st))).
  - split; cbn; done || (repeat constructor).
  - intros _ physical st1 st2 Hwf. unfold config_line. intros (line & _ & H)%bind_Ok.
    destruct (_ || _); [by injection H as <-|]. destruct (starts_with line _).
    + unfold section_line in H. apply bind_Ok in H as (inner & _ & H). apply ensure_bind_Ok in H as [_ H].
      apply refuse_bind_Ok in H as [_ H]. destruct (eqb_list inner project); [apply refuse_bind_Ok in H as [_ H]|]; by injection H as <-.
    + destruct (section st1) as [s|]; [|done]. destruct (eqb_list s project); [|by injection H as <-].
      unfold directive_line in H. apply refuse_bind_Ok in H as [_ H]. cbn zeta in H. destruct (span_until _ _) as [key rest].
      apply bind_Ok in H as (p & Hp & [= <-]). by eapply wf_directive.
Qed.
Lemma configured_project_valid_witness : wf_project (rs "aros") demo_project.
Proof.
  unfold demo_project. destruct (parse_project _ _) as [p|e|] eqn:E; [|vm_compute in E; discriminate..].
  exact (configured_project_valid _ _ p E).
Defined.
