(* ===== verification/PayloadPath.v ===== *)
(** * PayloadPath: relative paths of a payload and their collision keys

    Models [payload_casefold_path_key] of
    [crates/aros-common/src/publication/payload_path.rs] and the relative paths
    that the packaging code builds by pushing one name after the other.  Such a
    [PathBuf] is the list of its names, each the bytes of a file name; its text
    is the names joined with slashes and decoded as UTF-8. *)

From S2P Require Import Prelude Text Publication Ordered.

(** Canonical composition is the crate unicode-normalization, and lower case is
    the Unicode table of [char::to_lowercase]; the code relies on neither beyond
    comparing keys for equality. *)
Class UnicodeFold := {
  nfc : list Z -> list Z;
  to_lowercase : Z -> list Z;
}.
Definition ascii_fold : UnicodeFold := {| nfc s := s; to_lowercase c := [to_ascii_lower c] |}.

Abbreviation rel_path := (list (list Z)).

(** [Path::parent] of a relative path: the names but the last. *)
Definition parent (path : rel_path) : option rel_path :=
  match path with [] => None | _ => Some (removelast path) end.

(** [path.to_str()] *)
Definition path_text (path : rel_path) : option (list Z) := from_utf8 (join (rs "/") path).
(** [path.to_string_lossy()] *)
Definition path_text_lossy (path : rel_path) : list Z := from_utf8_lossy (join (rs "/") path).

Section key.
Context {U : UnicodeFold}.

(** One component of [payload_casefold_path_key], decoded. *)
Definition payload_component (value : list Z) : res name_error (list Z) :=
  _ ← refuse (eqb_list value []
              || eqb_list value (rs ".")
              || eqb_list value (rs "..")
              || ends_with value (rs ".") || ends_with value (rs " ")
              || existsb invalid_character value
              || (255 <? str_len value)) NotPortable;
  let stem := to_ascii_uppercase (default value (head (split_on (Z.eqb 46) value))) in
  _ ← refuse (reserved_stem stem) ReservedDevice;
  Ok (flat_map to_lowercase (nfc value)).

Definition fold_payload_component (folded : list (list Z)) (c : component)
  : res name_error (list (list Z)) :=
  match c with
  | Normal value =>
    value ← ok_or (from_utf8 value) NotUtf8;
    key ← payload_component value;
    Ok (folded ++ [key])
  | _ => Err NotRelative
  end.

(** [payload_casefold_path_key], on the components of its path. *)
Definition payload_casefold_path_key (path : list component) : res name_error (list Z) :=
  folded ← foldM fold_payload_component [] path;
  _ ← refuse (match folded with [] => true | _ => false end) EmptyPath;
  Ok (join (rs "/") folded).

(** ** Names that have a key *)

(** What the code needs of a name: text that is not empty, [.] or [..] and holds
    neither a separator of any host nor a control character. *)
Definition portable_text (t : list Z) : Prop :=
  t <> [] /\ t <> rs "." /\ t <> rs ".." /\ Forall (fun c => c <> 47 /\ c <> 92 /\ c <> 0) t /\
  str_len t <= 255.
Definition portable_name (n : list Z) : Prop := exists t, from_utf8 n = Some t /\ portable_text t.

Lemma invalid_character_false c : invalid_character c = false -> c <> 47 /\ c <> 92 /\ c <> 0.
Proof. intros H. split_and!; intros ->; revert H; by vm_compute. Qed.

Lemma payload_component_portable v k : payload_component v = Ok k -> portable_text v.
Proof.
  unfold payload_component. intros H. inv_guards.
  repeat match goal with H : eqb_list _ _ = false |- _ => apply bool_decide_eq_false in H end.
  split_and!; try done. match goal with H : existsb _ _ = false |- _ => apply existsb_false_Forall in H;
    eapply Forall_impl; [exact H|] end. apply invalid_character_false.
Qed.

Lemma payload_key_portable path k : payload_casefold_path_key (map Normal path) = Ok k ->
  Forall portable_name path /\ path <> [].
Proof.
  unfold payload_casefold_path_key. intros (folded & Hf & [Hne _]%refuse_bind_Ok)%bind_Ok.
  apply (foldM_inv _ (fun pre l => Forall (fun c => exists n, c = Normal n /\ portable_name n) pre
                                   /\ length l = length pre)) in Hf as [Hall Hlen].
  - rewrite Forall_map in Hall. split.
    + eapply Forall_impl; [exact Hall|]. intros n (n' & [= <-] & Hn). done.
    + intros ->. by destruct folded.
  - split; [constructor|done].
  - intros pre c l l' [Hpre Hlen] Hc. destruct c as [| | |n]; try done. cbn in Hc. inv_ok.
    rewrite Forall_app, Forall_singleton, !length_app, Hlen. split; [|done]. split; [done|].
    eexists; split; [done|]. eexists; split; [done|]. by eapply payload_component_portable.
Qed.

Lemma payload_key_not_Stuck cs : payload_casefold_path_key cs <> Stuck.
Proof.
  unfold payload_casefold_path_key. not_stuck. apply (foldM_not_Stuck _ (fun _ => True)); [done| |done].
  intros l c _ _. destruct c; cbn; not_stuck. unfold payload_component. not_stuck.
Qed.
End key.
#[export] Hint Resolve payload_key_not_Stuck : aros.

(** ** Text of a path *)
Lemma from_utf8_app a b s : from_utf8 a = Some s -> from_utf8 (a ++ b) = app s <$> from_utf8 b.
Proof.
  intros [<- Hs]%utf8_from_utf8. induction Hs as [|c s Hc Hs IH]; [cbn; by destruct (from_utf8 b)|].
  unfold utf8 in *. cbn [mbind list_bind]. rewrite <- app_assoc, from_utf8_char, IH by done.
  by destruct (from_utf8 b).
Qed.

Lemma from_utf8_inj a b s : from_utf8 a = Some s -> from_utf8 b = Some s -> a = b.
Proof. by intros [<- _]%utf8_from_utf8 [<- _]%utf8_from_utf8. Qed.

(** A byte below 128 occurs in a text exactly where it occurs in its encoding. *)
Lemma utf8_Forall_ascii (f : Z -> Prop) s : (forall b, 128 <= b -> f b) -> (forall c, 128 <= c -> f c) ->
  Forall (fun c => is_scalar c = true) s -> Forall f s <-> Forall f (utf8 s).
Proof.
  intros Hb _ Hs. induction Hs as [|c s Hc Hs IH]; [done|].
  unfold utf8 in *. cbn [mbind list_bind]. rewrite Forall_app, Forall_cons, <- IH.
  apply and_iff_compat_r. apply is_scalar_true in Hc. unfold utf8_char. case_match; bool_prop.
  { by rewrite Forall_singleton. }
  split; [intros _|intros _; apply Hb; lia].
  repeat case_match; bool_prop; repeat (apply Forall_cons; split; [apply Hb; Z.div_mod_to_equations; lia|]); constructor.
Qed.

Lemma join_cons2 sep a b ws : join sep (a :: b :: ws) = a ++ sep ++ join sep (b :: ws).
Proof. done. Qed.

Lemma join_snoc sep ws w : ws <> [] -> join sep (ws ++ [w]) = join sep ws ++ sep ++ w.
Proof.
  induction ws as [|a ws IH]; [done|]. intros _. destruct ws as [|b ws]; [done|].
  cbn [app]. rewrite !join_cons2. change (b :: ws ++ [w]) with ((b :: ws) ++ [w]).
  by rewrite IH, <- !app_assoc.
Qed.

Lemma path_text_portable path : Forall portable_name path ->
  exists texts, Forall2 (fun n t => from_utf8 n = Some t) path texts /\ Forall portable_text texts /\
    path_text path = Some (join (rs "/") texts).
Proof.
  unfold path_text. induction 1 as [|n path (t & Ht & Hp) Hpath (texts & H2 & Hall & IH)].
  { exists []. by repeat constructor. }
  exists (t :: texts). split; [by constructor|]. split; [by constructor|].
  destruct H2 as [|n' t' path' texts' Hn' H2]; [done|].
  rewrite !join_cons2, (from_utf8_app _ _ _ Ht). change (rs "/" ++ ?x) with (47 :: x).
  cbn [from_utf8]. change (in_range 0 0x7F 47) with true. cbn iota. by rewrite IH.
Qed.

Lemma portable_name_bytes n : portable_name n ->
  Forall (fun b => b <> 47 /\ b <> 92 /\ b <> 0) n /\ n <> [] /\ n <> rs "." /\ n <> rs "..".
Proof.
  intros (t & [<- Hs]%utf8_from_utf8 & Hne & Hd & Hdd & Hc & _).
  apply (utf8_Forall_ascii (fun c => c <> 47 /\ c <> 92 /\ c <> 0)) in Hc; [|lia..|done].
  split; [done|].
  assert (forall w, Forall is_ascii w -> utf8 t = w -> t = w) as Hw.
  { intros w Hw E. apply (from_utf8_utf8 t) in Hs. rewrite E, (from_utf8_ascii w Hw) in Hs. by injection Hs. }
  split_and!; intros E; [by apply (Hw []) in E|apply (Hw (rs ".")) in E|apply (Hw (rs "..")) in E]; try done;
    repeat constructor; done.
Qed.

Lemma portable_no_slash path : Forall portable_name path -> Forall (Forall (fun b => b <> 47)) path.
Proof.
  intros H. eapply Forall_impl; [exact H|]. intros n (Hn & _)%portable_name_bytes.
  eapply Forall_impl; [exact Hn|]. naive_solver.
Qed.

Lemma piece_component_portable n : portable_name n -> piece_component n = Some (Normal n).
Proof.
  intros (_ & H1 & H2 & H3)%portable_name_bytes. unfold piece_component, eqb_list.
  by rewrite !bool_decide_eq_false_2.
Qed.

(** [Path::components] of the text of a path gives its names back. *)
Lemma components_join path : Forall portable_name path -> components (join (rs "/") path) = map Normal path.
Proof.
  intros Hp. destruct path as [|n path]; [done|]. unfold components.
  change (rs "/") with [47]. rewrite split_on_join; [|done|by apply portable_no_slash].
  inversion Hp as [|? ? Hn Hpath]; subst. pose proof (portable_name_bytes _ Hn) as (Hb & Hne & Hdot & _).
  assert (is_absolute (join [47] (n :: path)) = false) as ->.
  { unfold is_absolute. destruct n as [|b n]; [done|]. inversion Hb as [|? ? Hb' _]; subst.
    destruct path as [|n' path]; [|rewrite join_cons2; cbn [app]];
      apply starts_with_head; naive_solver. }
  unfold eqb_list at 1. rewrite bool_decide_eq_false_2 by done.
  clear -Hp. induction Hp as [|m ms Hm Hms IH]; [done|]. cbn [omap list_omap map].
  by rewrite piece_component_portable, IH.
Qed.

Lemma path_text_inj p q t : Forall portable_name p -> Forall portable_name q ->
  path_text p = Some t -> path_text q = Some t -> p = q.
Proof.
  unfold path_text. intros Hp Hq H1 H2. pose proof (from_utf8_inj _ _ _ H1 H2) as E.
  apply (f_equal components) in E. rewrite !components_join in E by done.
  clear -E. revert q E. induction p as [|n p IH]; intros [|m q]; try done. intros [= -> E]. f_equal. by apply IH.
Qed.

(** ** Parents come first in the order of texts *)
Lemma str_ltb_prefix a c b : str_ltb a (a ++ c :: b) = true.
Proof. induction a as [|x a IH]; [done|]. cbn. by rewrite Z.ltb_irrefl, Z.eqb_refl, IH. Qed.

Lemma path_text_child p n t : Forall portable_name (p ++ [n]) -> p <> [] -> path_text p = Some t ->
  exists u, path_text (p ++ [n]) = Some u /\ str_ltb t u = true.
Proof.
  intros [Hp Hn]%Forall_app Hne Ht. apply Forall_singleton in Hn as (w & Hw & _).
  unfold path_text in *. rewrite join_snoc by done. rewrite (from_utf8_app _ _ _ Ht).
  change (rs "/" ++ n) with (47 :: n). cbn [from_utf8]. change (in_range 0 0x7F 47) with true. cbn iota.
  rewrite Hw. eexists; split; [done|]. apply str_ltb_prefix.
Qed.

Lemma parent_snoc (p : rel_path) n : parent (p ++ [n]) = Some p.
Proof. unfold parent. destruct (p ++ [n]) eqn:E; [by destruct p|]. rewrite <- E. by rewrite removelast_last. Qed.

Lemma parent_Some (path q : rel_path) : parent path = Some q <-> exists n, path = q ++ [n].
Proof.
  split; [|intros [n ->]; apply parent_snoc]. destruct path as [|a path] using rev_ind; [done|].
  rewrite parent_snoc. intros [= <-]. by eexists.
Qed.
