(* ===== verification/ArchiveTypes.v ===== *)
(** * ArchiveTypes: the data shared by writing, reading and extracting packages

    Constants, errors and records of [crates/aros-toolchain/src/package.rs],
    [package_verify.rs] and [package_verify/raw_tar.rs], the inventory entry of
    [crates/aros-common/src/toolchain_manifest.rs], and the interface of the
    crates tar and xz2. *)

From S2P Require Import Prelude Text Digest Publication PayloadPath.

(** ** Limits *)
Definition ARCHIVE_ROOT : list Z := rs "toolchain".
Definition AROS_TOOLCHAIN_MANIFEST_FILE : list Z := rs "toolchain-manifest.json".
Definition TOOLCHAIN_TOOLS_FILE : list Z := rs "toolchain-tools.json".
Definition MAX_ARCHIVE_BYTES : Z := 32 * 1024 * 1024 * 1024.
Definition MAX_ARCHIVE_ENTRIES : Z := 500000.
Definition MAX_EXPANDED_ARCHIVE_BYTES : Z := 32 * 1024 * 1024 * 1024.
Definition MAX_METADATA_BYTES : Z := 16 * 1024 * 1024.
Definition MAX_TOOLCHAIN_TOOLS_BYTES : Z := 16 * 1024.
Definition MAX_PAX_EXTENSION_BYTES : Z := 64 * 1024.
Definition MAX_TOTAL_PAX_EXTENSION_BYTES : Z := 64 * 1024 * 1024.

(** The modes the code writes in octal. *)
Definition m0111 : Z := 1 * 64 + 1 * 8 + 1.
Definition m0644 : Z := 6 * 64 + 4 * 8 + 4.
Definition m0755 : Z := 7 * 64 + 5 * 8 + 5.
Definition m0777 : Z := 7 * 64 + 7 * 8 + 7.

(** ** Errors: one constructor per message *)
Inductive verification_message :=
| CannotInspectInput | InputNotWithinLimit | CannotInitDecoder | CannotReadStream | InvalidEntry
| NoncanonicalHeaderField | UnsupportedExtension | MisplacedPax | InvalidPaxSize | PaxSizeDiffers
| InvalidPaxMode | InvalidPaxOwner | InvalidPaxGroup | InvalidPaxTimestamp | PaxMetadata
| PaxHeaderLimit | PaxCountOverflow | PaxAggregateLimit
| PaxMalformed | PaxNoncanonicalLength | PaxLengthOverflow | PaxLengthInconsistent
| PaxNotTerminated | PaxValueNotCanonical | PaxValueNotUtf8 | PaxEmptyOrDuplicated
| PaxUnsupportedMetadata | PaxNoPathMetadata
| InvalidEntrySize | EntrySizeDiffers | EntryCountOverflow | EntryCountLimit
| ExpandedSizeOverflow | ExpandedSizeLimit | LinkpathOfNonLink
| EntryPathNotUtf8 | EntryPathNotRelativeForm | EntryPathNotCanonical | EntryPathNotSafe
| EntryOutsideRoot | RootNotFirst | DuplicateRoot | NoRelativePath | NotStrictlyOrdered
| PathNotPortable | PathCollision | NoRelativeParent | UndeclaredParent
| InvalidMode | InvalidOwner | InvalidGroup | InvalidTimestamp | NoncanonicalMetadata
| LinkWithoutTarget | LinkTargetNotCanonical | LinkTargetNotUtf8
| BadEmbeddedManifest | BadToolsContract | UnsupportedEntryType | OrphanedPax
| TruncatedStream | TrailerOverflow | NoncanonicalTrailer | TrailingInput
| ManifestMissing | InventorySerialization
| InvalidContract | RootNotPortable | InvalidManifestPath | ManifestPathNotPortable
| MetadataTooLarge | MetadataUnreadable | MetadataTruncated
| PrefixNotUtf8 | UnreadableFile | FileCountOverflow | FileExceedsSize
| FileUnwritable | ForbiddenPrefix | FileTruncated
| ExtractionRootUnsafe | ExtractionNoParent | ExtractionUndeclaredParent | ExtractionParentChanged
| CannotCreateDirectory | CannotSetDirectoryMode | DirectoryNotReal
| CannotCreateFile | CannotSyncFile | CannotSetFileMode
| CannotCreateManifest | CannotWriteManifest | CannotSyncManifest | CannotSetManifestMode
| CannotCreateSymlink | CannotInspectSymlink | SymlinkChanged | NoncanonicalFileMode
| ManifestNotEmbedded | InventoryMismatch
| SetMemberNotUtf8 | SetMemberNotRegular | SetNotADirectory | SetMembersDiffer
| ArchiveUnreadable | ArchiveTooLarge | ChecksumMismatch | MetadataFileUnreadable | MetadataFileTooLarge
| RequestIdentity | RequestBinding | PackageDirNotAbsolute | PackageDirNotReal | PrefixNotAbsoluteUtf8
| ManifestInvalid | ManifestContract | ManifestIdentity | SbomFailed | SbomMismatch | CompilerIdentityMissing | ToolsContractMissing | ToolLayoutInvalid
| RootNotAbsolute | RootNoFinalSegment | ParentNotCanonical | ParentUnsafe | RootExists | RootNotInspectable
| CannotCreateRoot | RootNotReal | ArchiveChanged
| ExtractedManifestUnreadable | ExtractedManifestDiffers | ExtractedNotInventoried | ExtractedDiffers.

Inductive package_message :=
| AbsoluteOrNonUtf8Target | LinkEscapes
| BadArchiveRoot | CannotCreateArchive | CannotTerminate | CannotAlign | CannotFinish
| CannotEnumerate | CannotInspectStaged | UnsupportedStaged | CannotReadLink | LinkNotUtf8
| CannotOpenStaged | RecordTooLarge | CannotWriteHeader | UnrepresentableMetadata
| CannotWritePayload | CannotCopyPayload | StagedFileChanged | CannotPad
| CannotReadCandidate | CandidateNotUtf8 | CandidateNotPortable | CandidateCollision
| CannotInspectCandidate | UnsupportedCandidate | CannotReadRegular | RegularChanged
| CannotStage | ManifestNotRegular | ManifestUnreadable
| PackagePrefixNotUtf8 | CannotScanDirectory | CannotScanFile
| ForbiddenPrefixes (findings : list rel_path)
| InventoryFailed | ManifestRefused
| TimestampRange | SpdxTimestampRange
| FamilyMismatch | NoBinutils | NoTargetContract | IdentityRefused | FamilyLlvmProfile | LegacyFormatFamily | RecipeBinding
| UnsupportedGnuHost | UnsupportedLlvmHost | UnsupportedVersionOrHost | UnsupportedTargetProfile
| RootsNotAbsolute | CandidateInaccessible | CandidateNotReal | CandidateLayout | StagedLayout | OutputExists | UnsafeReleaseId | UnsafePrefix
| DocumentNotSerialized | GeneratedManifestInvalid | SnapshotFailed | CannotReserve | MemberNotWritten | ArchiveNotMeasured | CannotSynchronize.

(** [ContractError::invalid] and [ContractError::identity] of the producer's
    input documents *)
Inductive input_message :=
| DocumentTooLarge | BadDocument | JsonTooDeep | JsonNumber | JsonNotSerialized | JsonTooLarge
| UnsafePatchPath | PatchesUnsorted | SelfDigestMismatch
| LockSchemaFamily | LockVersionOrCount | LockSource | LockConflict | LockPatch | LockOverflow | LockGnuComponents
| LockPython | LockTotal | PatchClosure
| ProfilesShape | ProfileIdentifiers | LlvmTargetContract | GnuTargetMissing | GnuCpu | GnuAbiWidth | GnuFloatAbi
| GnuTriple | GnuCapabilities | GnuCxx | UnknownPreset.

Inductive ContractError :=
| Verification (m : verification_message)
| Package (m : package_message)
| Input (m : input_message).

(** ** The inventory of a payload *)
Record ArosToolchainManifestEntry := mkEntry {
  entry_path : list Z;
  entry_mode : list Z;
  entry_kind : list Z;
  entry_sha256 : option (list Z);
  entry_bytes : option Z;
  entry_target : option (list Z);
}.
#[global] Instance entry_eq_dec : EqDecision ArosToolchainManifestEntry.
Proof. solve_decision. Defined.

(** ** What a payload archive has to be *)
Record PayloadArchiveContract := mkContract {
  archive_root : list Z;
  manifest_file : list Z;
  source_date_epoch : Z;
  capture_toolchain_tools : bool;
  max_entries : Z;
  max_regular_file_bytes : Z;
}.

Record ArchiveTree := mkTree {
  embedded_manifest : list Z;
  entries : list ArosToolchainManifestEntry;
  tree_sha256 : list Z;
  toolchain_tools : option (list Z);
}.

(** ** The crates tar and xz2

    A raw archive entry is its header block, the size the crate attributes to it
    and the results its [read] calls will give.  A stream is what iterating
    [Archive::entries().raw(true)] over a decoder delivers ([None] for an entry
    that is an error), the reads left in the decoder afterwards, and the number
    of compressed bytes it has consumed then. *)
Record tar_entry := mkTarEntry {
  header : list Z;
  entry_size : Z;
  entry_reads : list (option (list Z));
}.
Record tar_stream := mkStream {
  ts_entries : option (list (option tar_entry));
  ts_rest : list (option (list Z));
  ts_total_in : Z;
}.
Record archive_input := mkInput {
  in_metadata : option (bool * Z);
  in_bytes : list Z;
}.

Class TarXz := {
  (** [XzDecoder] under a memory limit and [tar::Archive] over it *)
  open_archive : list Z -> option tar_stream;
  (** [XzEncoder::finish] after the given bytes *)
  xz_encode : list Z -> list Z;
  (** [tar::Header] on its 512 bytes *)
  path_bytes : list Z -> list Z;
  link_name_bytes : list Z -> option (list Z);
  entry_type : list Z -> Z;
  is_ustar : list Z -> bool;
  header_size : list Z -> option Z;
  header_mode : list Z -> option Z;
  header_uid : list Z -> option Z;
  header_gid : list Z -> option Z;
  header_mtime : list Z -> option Z;
}.
