(* ===== verification/ToolchainManifest.v ===== *)
(** * ToolchainManifest: the manifest of a package and the lock that selects one

    Models [crates/aros-common/src/toolchain_manifest.rs] behind serde: the
    compiler identities, the validation of a manifest and of a release lock, the
    selection of an artifact and its download location.  The crate url is the
    class [UrlCrate]; a build environment is a JSON object of a type [J].  What
    serde reads is a record, from which the code makes the value. *)

From S2P Require Import Prelude Text Elf RiscvAttr RiscvContract Digest Publication Ordered StateRes PayloadPath.
From S2P Require Import ArchiveTypes.

Definition AROS_TOOLCHAIN_LOCK_SCHEMA : Z := 1.
Definition AROS_TOOLCHAIN_LOCK_SCHEMA_V2 : Z := 2.
Definition AROS_TOOLCHAIN_MANIFEST_SCHEMA : Z := 1.
Definition AROS_TOOLCHAIN_MANIFEST_SCHEMA_V2 : Z := 2.
Definition MAX_VERSION_COMPONENT : Z := 2147483647.

Inductive metadata_error :=
| UnsupportedSchema | UnsafeSegment | EmptyTriple | CompilerInSchema1 | LlvmVersionMissing | BadLlvmVersion
| LlvmVersionInSchema2 | CompilerMissing | BadVersion | TripleSuffix | TripleComponents | AbiWidth | TripleCpu
| MixedIdentity | NoIdentity
| BadSha256 | BadCommit | NoCapabilities | BadCapability | EmptyInventory | UnsafeInventoryPath
| InventoriesItself | NotPathSorted | FileWithoutSha256 | EmptyTarget | UnsafeTarget | TargetEscapes | InvalidEntryFields
| InvalidUrl | NotHttps | UrlCredentials | UnsafeAsset | NoBaseUrl | StripComponents | UnsafeRequiredPath
| BadTarget
| NoAsset | NullDigest | NoDisabledReason | DuplicateSelector.

(** ** Compiler identities *)
#[global] Instance TargetContract_eq_dec : EqDecision TargetContract.
Proof. solve_decision. Defined.

Inductive ArosCompilerIdentity :=
| LlvmCompiler (version : list Z)
| GnuCompiler (gcc_version binutils_version : list Z) (target : TargetContract).
#[global] Instance ArosCompilerIdentity_eq_dec : EqDecision ArosCompilerIdentity.
Proof. solve_decision. Defined.

Definition is_gnu (c : option ArosCompilerIdentity) : bool :=
  match c with Some (GnuCompiler _ _ _) => true | _ => false end.

Definition all_digits (s : list Z) : bool := forallb is_ascii_digit (utf8 s).

(** [validate_numeric_version] *)
Definition version_component (max_components count : Z) (component : list Z) : res metadata_error Z :=
  let count := count + 1 in
  _ ← refuse (eqb_list component [] || (10 <? str_len component) || negb (all_digits component)) BadVersion;
  value ← ok_or (parse_uint 10 u32_max component) BadVersion;
  _ ← refuse (MAX_VERSION_COMPONENT <? value) BadVersion;
  _ ← refuse (max_components <? count) BadVersion;
  Ok count.
Definition validate_numeric_version (version : list Z) (min_components max_components : Z) : res metadata_error unit :=
  _ ← refuse (max_components * 11 <? str_len version) BadVersion;
  count ← foldM (version_component max_components) 0 (split_on (Z.eqb 46) version);
  refuse (negb ((min_components <=? count) && (count <=? max_components))) BadVersion.

(** [validate_gnu_compiler_versions] *)
Definition validate_gnu_compiler_versions (gcc_version binutils_version : list Z) : res metadata_error unit :=
  _ ← validate_numeric_version gcc_version 3 3;
  validate_numeric_version binutils_version 2 4.

(** [validate_legacy_llvm_version] *)
Definition validate_legacy_llvm_version (version : list Z) : res metadata_error unit :=
  refuse (negb (len (split_on (Z.eqb 46) version) =? 3)
          || existsb (fun c => eqb_list c [] || negb (all_digits c)) (split_on (Z.eqb 46) version)) BadLlvmVersion.

(** [validate_gnu_target_triple] *)
Definition triple_byte (b : Z) : bool := is_ascii_alphanumeric b || (b =? 95) || (b =? 46).
Definition triple_part_ok (part : list Z) : bool :=
  negb (eqb_list part [] || eqb_list part (rs ".") || eqb_list part (rs "..") || negb (forallb triple_byte (utf8 part))).
Definition validate_gnu_target_triple (target_triple abi : list Z) : res metadata_error unit :=
  prefix ← ok_or (strip_suffix (rs "-aros") target_triple) TripleSuffix;
  let parts := split_on (Z.eqb 45) prefix in
  _ ← refuse (eqb_list prefix [] || (128 <? str_len prefix) || existsb (fun part => negb (triple_part_ok part)) parts) TripleComponents;
  let cpu := default [] (head parts) in
  expected_cpu ← (if starts_with abi (rs "ilp32") then Ok (rs "riscv")
                  else if starts_with abi (rs "lp64") then Ok (rs "riscv64")
                  else Err AbiWidth);
  refuse (negb (eqb_list cpu expected_cpu)) TripleCpu.

(** [ArosCompilerIdentity::validate_versions] and [validate_for_target] *)
Definition validate_versions (c : ArosCompilerIdentity) : res metadata_error unit :=
  match c with
  | LlvmCompiler version => validate_numeric_version version 3 3
  | GnuCompiler gcc_version binutils_version _ => validate_gnu_compiler_versions gcc_version binutils_version
  end.
Definition validate_for_target (c : ArosCompilerIdentity) (target_triple : list Z) : res metadata_error unit :=
  _ ← validate_versions c;
  match c with
  | GnuCompiler _ _ target => validate_gnu_target_triple target_triple (abi target)
  | _ => Ok tt
  end.

(** [normalized_compiler_identity] *)
Definition normalized_compiler_identity (llvm_version : option (list Z)) (compiler : option ArosCompilerIdentity)
  : res metadata_error ArosCompilerIdentity :=
  match llvm_version, compiler with
  | Some version, None => Ok (LlvmCompiler version)
  | None, Some identity => Ok identity
  | Some _, Some _ => Err MixedIdentity
  | None, None => Err NoIdentity
  end.

(** [validate_compiler_contract] *)
Definition validate_compiler_contract (schema : Z) (llvm_version : option (list Z)) (compiler : option ArosCompilerIdentity)
    (target_triple : list Z) (require_legacy_llvm : bool) : res metadata_error unit :=
  let legacy := (schema =? AROS_TOOLCHAIN_LOCK_SCHEMA) || (schema =? AROS_TOOLCHAIN_MANIFEST_SCHEMA) in
  let current := (schema =? AROS_TOOLCHAIN_LOCK_SCHEMA_V2) || (schema =? AROS_TOOLCHAIN_MANIFEST_SCHEMA_V2) in
  if legacy then
    _ ← refuse (bool_decide (is_Some compiler)) CompilerInSchema1;
    if require_legacy_llvm then
      version ← ok_or llvm_version LlvmVersionMissing;
      validate_legacy_llvm_version version
    else Ok tt
  else if current then
    _ ← refuse (bool_decide (is_Some llvm_version)) LlvmVersionInSchema2;
    compiler ← ok_or compiler CompilerMissing;
    validate_for_target compiler target_triple
  else Err UnsupportedSchema.

(** ** Compiler fields of a record *)
Inductive PresentField (A : Type) := Absent | Null | Value (value : A).
#[global] Arguments Absent {A}.
#[global] Arguments Null {A}.
#[global] Arguments Value {A} value.
Definition into_value {A} (f : PresentField A) : option A :=
  match f with Value value => Some value | _ => None end.
Definition is_value {A} (f : PresentField A) : bool := match f with Value _ => true | _ => false end.
Definition is_absent {A} (f : PresentField A) : bool := match f with Absent => true | _ => false end.

(** [ArosCompilerIdentity::deserialize], of a record with the same fields; a GNU
    record holds a target contract that its own [deserialize] has validated. *)
Definition identity_from_record (record : ArosCompilerIdentity) : res metadata_error ArosCompilerIdentity :=
  _ ← match record with
      | GnuCompiler _ _ target => _ ← map_err (fun _ => BadTarget) (deserialize target); Ok tt
      | _ => Ok tt
      end;
  _ ← validate_versions record;
  Ok record.

(** [compiler_fields_from_record] *)
Definition compiler_fields_from_record (schema : Z) (llvm_version : PresentField (list Z)) (compiler : option ArosCompilerIdentity)
    (require_legacy_llvm : bool) : res metadata_error (option (list Z) * option ArosCompilerIdentity) :=
  if (schema =? AROS_TOOLCHAIN_LOCK_SCHEMA) || (schema =? AROS_TOOLCHAIN_MANIFEST_SCHEMA) then
    _ ← refuse (bool_decide (is_Some compiler)) CompilerInSchema1;
    _ ← refuse (require_legacy_llvm && negb (is_value llvm_version)) LlvmVersionMissing;
    Ok (into_value llvm_version, None)
  else if (schema =? AROS_TOOLCHAIN_LOCK_SCHEMA_V2) || (schema =? AROS_TOOLCHAIN_MANIFEST_SCHEMA_V2) then
    _ ← refuse (negb (is_absent llvm_version)) LlvmVersionInSchema2;
    compiler ← ok_or compiler CompilerMissing;
    Ok (None, Some compiler)
  else Ok (into_value llvm_version, compiler).

(** The compiler of a record is deserialized before the record is taken apart. *)
Definition compiler_from_record (compiler : option ArosCompilerIdentity) : res metadata_error (option ArosCompilerIdentity) :=
  match compiler with
  | Some record => identity ← identity_from_record record; Ok (Some identity)
  | None => Ok None
  end.

(** ** Fields *)
Definition lower_hex (b : Z) : bool := is_ascii_digit b || in_range 97 102 b.
(** [validate_lower_sha256], [validate_git_commit], [validate_sha256] and
    [validate_segment] *)
Definition validate_lower_sha256 (value : list Z) : res metadata_error unit :=
  refuse (negb (str_len value =? 64) || negb (forallb lower_hex (utf8 value))) BadSha256.
Definition validate_git_commit (value : list Z) : res metadata_error unit :=
  refuse (negb (str_len value =? 40) || negb (forallb lower_hex (utf8 value))) BadCommit.
Definition validate_sha256 (value : list Z) : res metadata_error unit :=
  refuse (negb (str_len value =? 64) || negb (forallb is_ascii_hexdigit (utf8 value))) BadSha256.
Definition validate_path_segment (value : list Z) : res metadata_error unit :=
  refuse (eqb_list value [] || eqb_list value (rs ".") || eqb_list value (rs "..") || contains_char 47 value || contains_char 92 value) UnsafeSegment.

Definition not_normal (c : component) : bool := match c with Normal _ => false | _ => true end.
(** [validate_manifest_path] *)
Definition validate_manifest_path (value : list Z) : res metadata_error unit :=
  refuse (eqb_list value [] || contains_char 92 value || is_absolute (utf8 value) || existsb not_normal (components (utf8 value))) UnsafeInventoryPath.

(** [validate_symlink_target] *)
Definition target_depth (depth : Z) (c : component) : res metadata_error Z :=
  match c with
  | Normal _ => Ok (depth + 1)
  | CurDir => Ok depth
  | ParentDir => if 0 <? depth then Ok (depth - 1) else Err TargetEscapes
  | RootDir => Err TargetEscapes
  end.
Definition validate_symlink_target (path target : list Z) : res metadata_error unit :=
  _ ← refuse (contains_char 92 target || is_absolute (utf8 target)) UnsafeTarget;
  let depth := len (List.filter (fun c => negb (not_normal c)) (removelast (components (utf8 path)))) in
  _ ← foldM target_depth depth (components (utf8 target));
  Ok tt.

(** ** The inventory of a manifest *)

(** One entry of the loop over [self.files]; the state is the previous path. *)
Definition validate_entry (previous : option (list Z)) (entry : ArosToolchainManifestEntry) : res metadata_error (option (list Z)) :=
  _ ← validate_manifest_path (entry_path entry);
  _ ← refuse (eqb_list (entry_path entry) AROS_TOOLCHAIN_MANIFEST_FILE) InventoriesItself;
  _ ← refuse (match previous with Some prior => negb (str_ltb prior (entry_path entry)) | None => false end) NotPathSorted;
  _ ← (if eqb_list (entry_kind entry) (rs "directory") && eqb_list (entry_mode entry) (rs "0755")
          && bool_decide (entry_sha256 entry = None) && bool_decide (entry_bytes entry = None) && bool_decide (entry_target entry = None)
       then Ok tt
       else if eqb_list (entry_kind entry) (rs "file") && (eqb_list (entry_mode entry) (rs "0644") || eqb_list (entry_mode entry) (rs "0755"))
          && bool_decide (is_Some (entry_bytes entry)) && bool_decide (entry_target entry = None)
       then sha256 ← ok_or (entry_sha256 entry) FileWithoutSha256; validate_lower_sha256 sha256
       else if eqb_list (entry_kind entry) (rs "symlink") && eqb_list (entry_mode entry) (rs "0777")
          && bool_decide (entry_sha256 entry = None) && bool_decide (entry_bytes entry = None)
       then
         target ← ok_or (t ← entry_target entry; if eqb_list t [] then None else Some t) EmptyTarget;
         validate_symlink_target (entry_path entry) target
       else Err InvalidEntryFields);
  Ok (Some (entry_path entry)).
Definition validate_inventory (files : list ArosToolchainManifestEntry) : res metadata_error unit :=
  _ ← refuse (bool_decide (files = [])) EmptyInventory;
  _ ← foldM validate_entry None files;
  Ok tt.

(** ** Manifests *)

(** The fields of a manifest; [V] is how the compiler version of schema 1 is
    held: an option in [ArosToolchainManifest], and in the record that serde reads
    with a null kept apart from an absent field. *)
Record manifest_fields (V J : Type) := mkManifest {
  m_schema : Z; m_release_id : list Z; m_host : list Z; m_target_profile : list Z; m_target_triple : list Z;
  m_tree_sha256 : list Z; m_llvm_version : V; m_compiler : option ArosCompilerIdentity;
  m_recipe_sha256 : list Z; m_source_lock_sha256 : list Z; m_profiles_sha256 : list Z;
  m_source_commit : list Z; m_producer_commit : list Z; m_tools_commit : list Z;
  m_source_date_epoch : Z; m_capabilities : list (list Z); m_build_environment : J;
  m_files : list ArosToolchainManifestEntry;
}.
#[global] Arguments mkManifest {V J}.
#[global] Arguments m_schema {V J}. #[global] Arguments m_release_id {V J}. #[global] Arguments m_host {V J}.
#[global] Arguments m_target_profile {V J}. #[global] Arguments m_target_triple {V J}. #[global] Arguments m_tree_sha256 {V J}.
#[global] Arguments m_llvm_version {V J}. #[global] Arguments m_compiler {V J}. #[global] Arguments m_recipe_sha256 {V J}.
#[global] Arguments m_source_lock_sha256 {V J}. #[global] Arguments m_profiles_sha256 {V J}. #[global] Arguments m_source_commit {V J}.
#[global] Arguments m_producer_commit {V J}. #[global] Arguments m_tools_commit {V J}. #[global] Arguments m_source_date_epoch {V J}.
#[global] Arguments m_capabilities {V J}. #[global] Arguments m_build_environment {V J}. #[global] Arguments m_files {V J}.
#[global] Instance manifest_eq_dec {V J} `{!EqDecision V, !EqDecision J} : EqDecision (manifest_fields V J).
Proof. solve_decision. Defined.
Definition ArosToolchainManifest (J : Type) : Type := manifest_fields (option (list Z)) J.
Definition ArosToolchainManifestRecord (J : Type) : Type := manifest_fields (PresentField (list Z)) J.

(** One step of the loop over the capabilities; [seen] is the [HashSet]. *)
Definition validate_capability (seen : list (list Z)) (capability : list Z) : res metadata_error (list (list Z)) :=
  _ ← refuse (eqb_list (trim capability) [] || bool_decide (capability ∈ seen)) BadCapability;
  Ok (capability :: seen).

(** [ArosToolchainManifest::validate] *)
Definition validate_manifest {J} (m : ArosToolchainManifest J) : res metadata_error unit :=
  _ ← refuse (negb ((m_schema m =? AROS_TOOLCHAIN_MANIFEST_SCHEMA) || (m_schema m =? AROS_TOOLCHAIN_MANIFEST_SCHEMA_V2))) UnsupportedSchema;
  _ ← validate_path_segment (m_release_id m);
  _ ← validate_path_segment (m_host m);
  _ ← validate_path_segment (m_target_profile m);
  _ ← refuse (eqb_list (trim (m_target_triple m)) []) EmptyTriple;
  _ ← validate_compiler_contract (m_schema m) (m_llvm_version m) (m_compiler m) (m_target_triple m) true;
  _ ← foldM (fun _ digest => validate_lower_sha256 digest) tt
        [m_tree_sha256 m; m_recipe_sha256 m; m_source_lock_sha256 m; m_profiles_sha256 m];
  _ ← foldM (fun _ commit => validate_git_commit commit) tt [m_source_commit m; m_producer_commit m; m_tools_commit m];
  _ ← refuse (bool_decide (m_capabilities m = [])) NoCapabilities;
  _ ← foldM validate_capability [] (m_capabilities m);
  validate_inventory (m_files m).

(** [ArosToolchainManifest::compiler_identity] *)
Definition compiler_identity {J} (m : ArosToolchainManifest J) : res metadata_error ArosCompilerIdentity :=
  normalized_compiler_identity (m_llvm_version m) (m_compiler m).

(** [ArosToolchainManifest::deserialize] *)
Definition manifest_from_record {J} (r : ArosToolchainManifestRecord J) : res metadata_error (ArosToolchainManifest J) :=
  compiler ← compiler_from_record (m_compiler r);
  fields ← compiler_fields_from_record (m_schema r) (m_llvm_version r) compiler true;
  Ok (mkManifest (m_schema r) (m_release_id r) (m_host r) (m_target_profile r) (m_target_triple r) (m_tree_sha256 r) fields.1 fields.2
        (m_recipe_sha256 r) (m_source_lock_sha256 r) (m_profiles_sha256 r) (m_source_commit r) (m_producer_commit r) (m_tools_commit r)
        (m_source_date_epoch r) (m_capabilities r) (m_build_environment r) (m_files r)).

(** The record of the derived [Serialize]: an absent version is skipped. *)
Definition manifest_record {J} (m : ArosToolchainManifest J) : ArosToolchainManifestRecord J :=
  mkManifest (m_schema m) (m_release_id m) (m_host m) (m_target_profile m) (m_target_triple m) (m_tree_sha256 m)
    (match m_llvm_version m with Some version => Value version | None => Absent end) (m_compiler m)
    (m_recipe_sha256 m) (m_source_lock_sha256 m) (m_profiles_sha256 m) (m_source_commit m) (m_producer_commit m) (m_tools_commit m)
    (m_source_date_epoch m) (m_capabilities m) (m_build_environment m) (m_files m).

(** ** Release locks *)
Record Url := mkUrl {
  url_scheme : list Z; url_host : option (list Z); url_username : list Z;
  url_password : option (list Z); url_query : option (list Z); url_fragment : option (list Z);
}.
Class UrlCrate := { url_parse : list Z -> option Url }.

(** The fields of an artifact, with the version held as in [manifest_fields]. *)
Record artifact_fields (V : Type) := mkArtifact {
  a_host : list Z; a_target_profile : list Z; a_target_triple : list Z; a_asset : list Z; a_sha256 : list Z; a_tree_sha256 : list Z;
  a_llvm_version : V; a_compiler : option ArosCompilerIdentity; a_size : option Z; a_enabled : bool;
  a_disabled_reason : option (list Z); a_strip_components : Z; a_required_paths : list (list Z);
}.
#[global] Arguments mkArtifact {V}.
#[global] Arguments a_host {V}. #[global] Arguments a_target_profile {V}. #[global] Arguments a_target_triple {V}.
#[global] Arguments a_asset {V}. #[global] Arguments a_sha256 {V}. #[global] Arguments a_tree_sha256 {V}.
#[global] Arguments a_llvm_version {V}. #[global] Arguments a_compiler {V}. #[global] Arguments a_size {V}. #[global] Arguments a_enabled {V}.
#[global] Arguments a_disabled_reason {V}. #[global] Arguments a_strip_components {V}. #[global] Arguments a_required_paths {V}.
Definition ArosToolchainArtifact : Type := artifact_fields (option (list Z)).
Definition ArosToolchainArtifactRecord : Type := artifact_fields (PresentField (list Z)).

Record lock_fields (A : Type) := mkLock {
  l_schema : Z; l_release_id : list Z; l_base_url : option (list Z); l_artifacts : list A;
}.
#[global] Arguments mkLock {A}.
#[global] Arguments l_schema {A}. #[global] Arguments l_release_id {A}. #[global] Arguments l_base_url {A}. #[global] Arguments l_artifacts {A}.
Definition ArosToolchainLock : Type := lock_fields ArosToolchainArtifact.
Definition ArosToolchainLockRecord : Type := lock_fields ArosToolchainArtifactRecord.

(** [ArosToolchainArtifact::from_record] and [ArosToolchainLock::deserialize] *)
Definition artifact_from_record (schema : Z) (r : ArosToolchainArtifactRecord) : res metadata_error ArosToolchainArtifact :=
  compiler ← compiler_from_record (a_compiler r);
  fields ← compiler_fields_from_record schema (a_llvm_version r) compiler false;
  Ok (mkArtifact (a_host r) (a_target_profile r) (a_target_triple r) (a_asset r) (a_sha256 r) (a_tree_sha256 r) fields.1 fields.2
        (a_size r) (a_enabled r) (a_disabled_reason r) (a_strip_components r) (a_required_paths r)).
Definition lock_from_record (r : ArosToolchainLockRecord) : res metadata_error ArosToolchainLock :=
  artifacts ← mapR (artifact_from_record (l_schema r)) (l_artifacts r);
  Ok (mkLock (l_schema r) (l_release_id r) (l_base_url r) artifacts).

(** [ArosToolchainLock::serialize]: [ArtifactRecordV1Ref] writes a null version,
    [ArtifactRecordV2Ref] leaves the field out. *)
Definition artifact_record (schema : Z) (a : ArosToolchainArtifact) : ArosToolchainArtifactRecord :=
  let llvm_version := if schema =? AROS_TOOLCHAIN_LOCK_SCHEMA_V2 then Absent
                      else match a_llvm_version a with Some version => Value version | None => Null end in
  mkArtifact (a_host a) (a_target_profile a) (a_target_triple a) (a_asset a) (a_sha256 a) (a_tree_sha256 a) llvm_version (a_compiler a)
    (a_size a) (a_enabled a) (a_disabled_reason a) (a_strip_components a) (a_required_paths a).
Definition lock_record (lock : ArosToolchainLock) : ArosToolchainLockRecord :=
  mkLock (l_schema lock) (l_release_id lock) (l_base_url lock) (map (artifact_record (l_schema lock)) (l_artifacts lock)).

Section lock.
Context {C : UrlCrate}.

(** [parse_credential_free_https_url] *)
Definition parse_credential_free_https_url (value : list Z) : res metadata_error Url :=
  parsed ← ok_or (url_parse value) InvalidUrl;
  _ ← refuse (negb (eqb_list (url_scheme parsed) (rs "https")) || bool_decide (url_host parsed = None)) NotHttps;
  _ ← refuse (negb (eqb_list (url_username parsed) []) || bool_decide (is_Some (url_password parsed))
              || bool_decide (is_Some (url_query parsed)) || bool_decide (is_Some (url_fragment parsed))) UrlCredentials;
  Ok parsed.

(** [validate_relative_asset] *)
Definition validate_relative_asset (value : list Z) : res metadata_error unit :=
  refuse (eqb_list value [] || existsb (fun c => contains_char c value) [92; 63; 35; 58] || is_absolute (utf8 value)
          || existsb not_normal (components (utf8 value))) UnsafeAsset.

(** [validate_relative_path] of a required path: current-directory components are
    allowed. *)
Definition leaves_root (c : component) : bool := match c with ParentDir | RootDir => true | _ => false end.
Definition validate_required_path (value : list Z) : res metadata_error unit :=
  refuse (eqb_list value [] || is_absolute (utf8 value) || existsb leaves_root (components (utf8 value))) UnsafeRequiredPath.

Definition is_null_sha256 (value : list Z) : bool := forallb (Z.eqb 48) (utf8 value).

(** [s.trim_end_matches('/')] and [s.trim_start_matches('/')] *)
Fixpoint trim_start_slashes (s : list Z) : list Z :=
  match s with
  | c :: rest => if c =? 47 then trim_start_slashes rest else s
  | [] => []
  end.
Definition trim_end_slashes (s : list Z) : list Z := rev (trim_start_slashes (rev s)).

Definition names_url (asset : list Z) : bool := bool_decide (is_Some (url_parse asset)) || contains_str (rs "://") asset.

(** [ArosToolchainArtifact::validate] *)
Definition validate_artifact (schema : Z) (a : ArosToolchainArtifact) : res metadata_error unit :=
  _ ← validate_path_segment (a_host a);
  _ ← validate_path_segment (a_target_profile a);
  _ ← refuse (eqb_list (trim (a_target_triple a)) []) EmptyTriple;
  _ ← validate_compiler_contract schema (a_llvm_version a) (a_compiler a) (a_target_triple a) false;
  _ ← validate_sha256 (a_sha256 a);
  _ ← validate_sha256 (a_tree_sha256 a);
  _ ← refuse (8 <? a_strip_components a) StripComponents;
  _ ← foldM (fun _ path => validate_required_path path) tt (a_required_paths a);
  _ ← (if a_enabled a then
         _ ← refuse (eqb_list (trim (a_asset a)) []) NoAsset;
         refuse (is_null_sha256 (a_sha256 a) || is_null_sha256 (a_tree_sha256 a)) NullDigest
       else refuse (match a_disabled_reason a with None | Some [] => true | _ => false end) NoDisabledReason);
  if eqb_list (a_asset a) [] then Ok tt
  else if names_url (a_asset a) then _ ← parse_credential_free_https_url (a_asset a); Ok tt
  else validate_relative_asset (a_asset a).

(** [ArosToolchainLock::asset_url] *)
Definition asset_url (lock : ArosToolchainLock) (a : ArosToolchainArtifact) : res metadata_error (list Z) :=
  if names_url (a_asset a) then _ ← parse_credential_free_https_url (a_asset a); Ok (a_asset a)
  else
    _ ← validate_relative_asset (a_asset a);
    base_url ← ok_or (l_base_url lock) NoBaseUrl;
    let resolved := trim_end_slashes base_url ++ rs "/" ++ trim_start_slashes (a_asset a) in
    _ ← parse_credential_free_https_url resolved;
    Ok resolved.

(** [ArosToolchainLock::validate]; [selectors] is the [HashSet] of its loop. *)
Definition validate_locked (lock : ArosToolchainLock) (selectors : list (list Z * list Z)) (a : ArosToolchainArtifact)
  : res metadata_error (list (list Z * list Z)) :=
  _ ← validate_artifact (l_schema lock) a;
  _ ← (if a_enabled a then _ ← asset_url lock a; Ok tt else Ok tt);
  _ ← refuse (bool_decide ((a_host a, a_target_profile a) ∈ selectors)) DuplicateSelector;
  Ok ((a_host a, a_target_profile a) :: selectors).
Definition validate_lock (lock : ArosToolchainLock) : res metadata_error unit :=
  _ ← refuse (negb ((l_schema lock =? AROS_TOOLCHAIN_LOCK_SCHEMA) || (l_schema lock =? AROS_TOOLCHAIN_LOCK_SCHEMA_V2))) UnsupportedSchema;
  _ ← validate_path_segment (l_release_id lock);
  _ ← match l_base_url lock with Some base_url => _ ← parse_credential_free_https_url base_url; Ok tt | None => Ok tt end;
  _ ← foldM (validate_locked lock) [] (l_artifacts lock);
  Ok tt.

(** [ArosToolchainLock::resolve] *)
Definition resolve (lock : ArosToolchainLock) (host target_profile : list Z) : option ArosToolchainArtifact :=
  find (fun a => eqb_list (a_host a) host && eqb_list (a_target_profile a) target_profile) (l_artifacts lock).
End lock.

(** ** What is written is read back *)

(** A target contract is only ever made by its own [deserialize]. *)
Definition target_read (compiler : option ArosCompilerIdentity) : Prop :=
  match compiler with Some (GnuCompiler _ _ target) => validate target = Ok tt | _ => True end.

Lemma identity_read_back c triple : target_read (Some c) -> validate_for_target c triple = Ok tt -> identity_from_record c = Ok c.
Proof.
  intros Ht (u & Hv & _)%bind_Ok. destruct u. unfold identity_from_record, deserialize. destruct c as [v|g b t]; cbn in Ht.
  - cbn [mbind res_bind]. by rewrite Hv.
  - rewrite Ht. cbn [mbind res_bind map_err]. by rewrite Hv.
Qed.

(** The two shapes a validated pair of compiler fields has. *)
Lemma compiler_contract_cases schema llvm_version compiler triple legacy : target_read compiler ->
  validate_compiler_contract schema llvm_version compiler triple legacy = Ok tt ->
  schema = 1 /\ compiler = None /\ (legacy = true -> is_Some llvm_version) \/
  schema = 2 /\ llvm_version = None /\ exists c, compiler = Some c /\ validate_for_target c triple = Ok tt /\ identity_from_record c = Ok c.
Proof.
  unfold validate_compiler_contract, AROS_TOOLCHAIN_LOCK_SCHEMA, AROS_TOOLCHAIN_MANIFEST_SCHEMA, AROS_TOOLCHAIN_LOCK_SCHEMA_V2, AROS_TOOLCHAIN_MANIFEST_SCHEMA_V2.
  intros Ht. rewrite !orb_diag. destruct (Z.eqb_spec schema 1) as [->|_].
  - intros [Hc Hl]%refuse_bind_Ok. left. apply bool_decide_eq_false, eq_None_not_Some in Hc. split_and!; [done|done|]. intros ->.
    apply bind_Ok in Hl as (v & Hv%ok_or_Ok & _). by eexists.
  - destruct (Z.eqb_spec schema 2) as [->|_]; [|done]. intros [Hl Hc]%refuse_bind_Ok. right.
    apply bool_decide_eq_false, eq_None_not_Some in Hl. apply bind_Ok in Hc as (c & ->%ok_or_Ok & Hc). split_and!; [done|done|].
    exists c. split_and!; [done|done|]. by eapply identity_read_back.
Qed.

Lemma manifest_contract_Ok {J} (m : ArosToolchainManifest J) : validate_manifest m = Ok tt ->
  validate_compiler_contract (m_schema m) (m_llvm_version m) (m_compiler m) (m_target_triple m) true = Ok tt.
Proof.
  unfold validate_manifest. intros Hv. do 5 (apply bind_Ok in Hv as (? & _ & Hv)). by apply bind_Ok in Hv as ([] & Hc & _).
Qed.

Lemma manifest_read_back {J} (m : ArosToolchainManifest J) : validate_manifest m = Ok tt -> target_read (m_compiler m) ->
  manifest_from_record (manifest_record m) = Ok m.
Proof.
  intros Hv%manifest_contract_Ok Ht. unfold manifest_from_record, manifest_record. destruct m; cbn in *.
  destruct (compiler_contract_cases _ _ _ _ _ Ht Hv) as [(-> & -> & Hl)|(-> & -> & c & -> & _ & Hc)]; cbn.
  - by destruct (Hl eq_refl) as [v ->].
  - by rewrite Hc.
Qed.

Section locks.
Context {C : UrlCrate}.
Implicit Types (lock : ArosToolchainLock) (a : ArosToolchainArtifact).

Lemma artifact_contract_Ok schema a : validate_artifact schema a = Ok tt ->
  validate_compiler_contract schema (a_llvm_version a) (a_compiler a) (a_target_triple a) false = Ok tt.
Proof.
  unfold validate_artifact. intros Hv. do 3 (apply bind_Ok in Hv as (? & _ & Hv)). by apply bind_Ok in Hv as ([] & Hc & _).
Qed.

Lemma artifact_read_back schema a : validate_artifact schema a = Ok tt -> target_read (a_compiler a) ->
  artifact_from_record schema (artifact_record schema a) = Ok a.
Proof.
  intros Hv%artifact_contract_Ok Ht. unfold artifact_from_record, artifact_record. destruct a; cbn in *.
  destruct (compiler_contract_cases _ _ _ _ _ Ht Hv) as [(-> & -> & _)|(-> & -> & c & -> & _ & Hc)]; cbn.
  - by destruct a_llvm_version0.
  - by rewrite Hc.
Qed.

(** Every artifact of a validated lock was validated, its selector is new, and
    the location of an enabled one was checked. *)
Lemma lock_artifacts lock : validate_lock lock = Ok tt ->
  NoDup (map (fun a => (a_host a, a_target_profile a)) (l_artifacts lock)) /\
  Forall (fun a => validate_artifact (l_schema lock) a = Ok tt /\ (a_enabled a = true -> exists url, asset_url lock a = Ok url)) (l_artifacts lock).
Proof.
  unfold validate_lock. intros (_ & _ & (_ & _ & (_ & _ & (seen & Hf & _)%bind_Ok)%bind_Ok)%bind_Ok)%bind_Ok.
  apply (foldM_inv (validate_locked lock) (fun pre seen => (forall s, s ∈ seen <-> s ∈ map (fun a => (a_host a, a_target_profile a)) pre) /\
    NoDup (map (fun a => (a_host a, a_target_profile a)) pre) /\
    Forall (fun a => validate_artifact (l_schema lock) a = Ok tt /\ (a_enabled a = true -> exists url, asset_url lock a = Ok url)) pre)) in Hf as (_ & ? & ?); [done| |].
  - split_and!; [|constructor|constructor]. intros s. cbn. done.
  - intros pre a s s' (Hs & Hn & Ha) Hl. unfold validate_locked in Hl. apply bind_Ok in Hl as ([] & Hva & Hl).
    apply bind_Ok in Hl as (u & Hu & [Hd%bool_decide_eq_false [= <-] ]%refuse_bind_Ok). rewrite map_app. cbn [map]. split_and!.
    + intros x. rewrite elem_of_cons, elem_of_app, list_elem_of_singleton, Hs. tauto.
    + apply NoDup_app. split_and!; [done| |apply NoDup_singleton]. intros x Hx ->%list_elem_of_singleton. by apply Hd, Hs.
    + apply Forall_app. split; [done|]. apply Forall_singleton. split; [done|]. intros He. rewrite He in Hu.
      apply bind_Ok in Hu as (url & Hurl & _). by exists url.
Qed.

Lemma lock_read_back lock : validate_lock lock = Ok tt -> Forall (fun a => target_read (a_compiler a)) (l_artifacts lock) ->
  lock_from_record (lock_record lock) = Ok lock.
Proof.
  intros [_ Ha]%lock_artifacts Ht. unfold lock_from_record, lock_record. destruct lock as [schema release base artifacts]. cbn in *.
  enough (mapR (artifact_from_record schema) (map (artifact_record schema) artifacts) = Ok artifacts) as -> by done.
  revert Ht. induction Ha as [|a rest [Hv _] _ IH]; intros Ht; [done|]. apply Forall_cons in Ht as [Ht Hts]. cbn. rewrite (artifact_read_back _ _ Hv Ht). cbn. by rewrite IH.
Qed.

(** ** Locked artifacts *)
Lemma NoDup_map_inj {A B} (f : A -> B) l x y : NoDup (map f l) -> x ∈ l -> y ∈ l -> f x = f y -> x = y.
Proof.
  induction l as [|z l IH]; [by intros _ ?%elem_of_nil|]. cbn. intros [Hz Hl]%NoDup_cons.
  assert (forall w, w ∈ l -> f w ∈ map f l) as Hmap by (intros w Hw; by apply (list_elem_of_fmap_2 f)).
  intros [->|Hx]%elem_of_cons [->|Hy]%elem_of_cons E; [done| | |by apply IH]; exfalso; apply Hz; [rewrite E|rewrite <- E]; by apply Hmap.
Qed.

Definition https_location (value : list Z) : Prop :=
  exists url, url_parse value = Some url /\ url_scheme url = rs "https" /\ is_Some (url_host url) /\ url_username url = [] /\
    url_password url = None /\ url_query url = None /\ url_fragment url = None.

Lemma parse_credential_free_Ok value url : parse_credential_free_https_url value = Ok url -> https_location value.
Proof.
  unfold parse_credential_free_https_url. intros Hv. inv_guards. exists url. unfold eqb_list in *. bool_prop.
  repeat match goal with H : ~ is_Some _ |- _ => apply eq_None_not_Some in H end. split_and!; try done. by apply not_eq_None_Some.
Qed.

Lemma trim_start_slashes_id s : head s <> Some 47 -> trim_start_slashes s = s.
Proof. destruct s as [|c s]; [done|]. cbn. intros Hc. by destruct (Z.eqb_spec c 47) as [->|]. Qed.

Lemma relative_asset_head asset : validate_relative_asset asset = Ok tt -> head asset <> Some 47 /\ asset <> [].
Proof.
  unfold validate_relative_asset. intros Hv. inv_guards. unfold eqb_list in *. bool_prop. split; [|done].
  destruct asset as [|c asset]; [done|]. cbn. intros [= ->]. match goal with H : is_absolute _ = false |- _ => by vm_compute in H end.
Qed.

Lemma asset_url_Ok lock a url : asset_url lock a = Ok url -> https_location url /\
  (url = a_asset a \/ exists base, l_base_url lock = Some base /\ url = trim_end_slashes base ++ rs "/" ++ a_asset a).
Proof.
  unfold asset_url. destruct (names_url (a_asset a)).
  - intros (u & Hu%parse_credential_free_Ok & [= <-])%bind_Ok. auto.
  - intros ([] & Hr%relative_asset_head & (base & Hb%ok_or_Ok & (u & Hu%parse_credential_free_Ok & [= <-])%bind_Ok)%bind_Ok)%bind_Ok.
    rewrite trim_start_slashes_id in Hu |- * by apply Hr. split; [done|]. right. by exists base.
Qed.

Definition hex_digest (value : list Z) : Prop :=
  str_len value = 64 /\ Forall (fun b => is_ascii_hexdigit b = true) (utf8 value) /\ exists b, b ∈ utf8 value /\ b <> 48.

Lemma enabled_artifact schema a : validate_artifact schema a = Ok tt -> a_enabled a = true ->
  hex_digest (a_sha256 a) /\ hex_digest (a_tree_sha256 a) /\ a_strip_components a <= 8 /\
  Forall (fun path => path <> [] /\ is_absolute (utf8 path) = false /\ ParentDir ∉ components (utf8 path)) (a_required_paths a).
Proof.
  assert (forall v, validate_sha256 v = Ok tt -> is_null_sha256 v = false -> hex_digest v) as Hhex.
  { unfold validate_sha256, is_null_sha256. intros v Hv Hn. inv_guards. split_and!; [done| |].
    - apply Forall_forall. intros b Hb%list_elem_of_In. match goal with H : forallb _ _ = true |- _ => rewrite forallb_forall in H; by apply H end.
    - clear -Hn. induction (utf8 v) as [|b l IH]; [done|]. cbn [forallb] in Hn. apply andb_false_iff in Hn as [Hb%Z.eqb_neq|Hl].
      + exists b. split; [by left|]. congruence.
      + destruct (IH Hl) as (x & Hx & ?). exists x. split; [by right|done]. }
  unfold validate_artifact. intros Hv He. rewrite He in Hv. do 4 (apply bind_Ok in Hv as (? & _ & Hv)).
  apply bind_Ok in Hv as ([] & H1 & Hv). apply bind_Ok in Hv as ([] & H2 & Hv). apply bind_Ok in Hv as ([] & Hs%refuse_Ok%Z.ltb_ge & Hv).
  apply bind_Ok in Hv as ([] & Hp & Hv). apply bind_Ok in Hv as ([] & Hn & _). apply bind_Ok in Hn as (_ & _ & Hn%refuse_Ok).
  apply orb_false_iff in Hn as [N1 N2]. split_and!; [by apply Hhex|by apply Hhex|done|]. clear -Hp.
  induction (a_required_paths a) as [|path rest IH]; [constructor|]. cbn [foldM] in Hp. apply bind_Ok in Hp as ([] & Hq & Hp).
  constructor; [|by apply IH]. unfold validate_required_path in Hq. inv_guards. unfold eqb_list in *. bool_prop. split_and!; [done|done|].
  intros Hin. match goal with H : existsb _ _ = false |- _ => apply existsb_false_Forall in H; rewrite Forall_forall in H; by apply H in Hin end.
Qed.

(** C11. A validated release lock selects safely: at most one artifact answers to a
    host and a profile; one that is enabled has a location, the asset itself or
    the asset below the base, that is an https URL with a host and without
    credentials, query or fragment, two digests of 64 hexadecimal digits that
    are not all zero, and required paths that do not leave the root.  Written and
    read back the lock is the same. *)
Theorem locked_artifact_safe lock host profile a : validate_lock lock = Ok tt -> resolve lock host profile = Some a ->
  (forall b, b ∈ l_artifacts lock -> a_host b = host -> a_target_profile b = profile -> b = a) /\
  (a_enabled a = true ->
    (exists url, asset_url lock a = Ok url /\ https_location url /\
      (url = a_asset a \/ exists base, l_base_url lock = Some base /\ url = trim_end_slashes base ++ rs "/" ++ a_asset a)) /\
    hex_digest (a_sha256 a) /\ hex_digest (a_tree_sha256 a) /\ a_strip_components a <= 8 /\
    Forall (fun path => path <> [] /\ is_absolute (utf8 path) = false /\ ParentDir ∉ components (utf8 path)) (a_required_paths a)) /\
  (Forall (fun b => target_read (a_compiler b)) (l_artifacts lock) -> lock_from_record (lock_record lock) = Ok lock).
Proof.
  intros Hv Hr. destruct (lock_artifacts _ Hv) as [Hn Ha]. apply find_some in Hr as [Hin%list_elem_of_In [Eh%eqb_list_true Ep%eqb_list_true]%andb_true_iff].
  rewrite Forall_forall in Ha. destruct (Ha a Hin) as [Hva Hurl]. split_and!.
  - intros b Hb <- Ebp. apply (NoDup_map_inj _ _ _ _ Hn Hb Hin). congruence.
  - intros He. destruct (Hurl He) as [url Hu]. split; [|by eapply enabled_artifact]. exists url. split; [done|]. by eapply asset_url_Ok.
  - by apply lock_read_back.
Qed.
End locks.

(** A reader of plain locations and a lock to run the theorem on. *)
Definition plain_url (value : list Z) : option Url :=
  rest ← strip_prefix (rs "https://") value;
  Some (mkUrl (rs "https") (head (split_on (Z.eqb 47) rest)) [] None None None).
Definition plain_urls : UrlCrate := {| url_parse := plain_url |}.
Definition plain_artifact : ArosToolchainArtifact :=
  mkArtifact (rs "linux-x86_64") (rs "pc-x86_64") (rs "x86_64-aros") (rs "a.tar.xz") (fill 64 97) (fill 64 98) (Some (rs "20.1.0")) None (Some 5) true None 1
    [rs "bin/clang"].
Definition plain_lock : ArosToolchainLock := mkLock 1 (rs "r1") (Some (rs "https://example.org/r1/")) [plain_artifact].

Lemma locked_artifact_safe_witness :
  (forall b, b ∈ l_artifacts plain_lock -> a_host b = rs "linux-x86_64" -> a_target_profile b = rs "pc-x86_64" -> b = plain_artifact) /\
  (a_enabled plain_artifact = true ->
    (exists url, @asset_url plain_urls plain_lock plain_artifact = Ok url /\ @https_location plain_urls url /\
      (url = a_asset plain_artifact \/ exists base, l_base_url plain_lock = Some base /\ url = trim_end_slashes base ++ rs "/" ++ a_asset plain_artifact)) /\
    hex_digest (a_sha256 plain_artifact) /\ hex_digest (a_tree_sha256 plain_artifact) /\ a_strip_components plain_artifact <= 8 /\
    Forall (fun path => path <> [] /\ is_absolute (utf8 path) = false /\ ParentDir ∉ components (utf8 path)) (a_required_paths plain_artifact)) /\
  (Forall (fun b => target_read (a_compiler b)) (l_artifacts plain_lock) -> lock_from_record (lock_record plain_lock) = Ok plain_lock).
Proof.
  apply (@locked_artifact_safe plain_urls plain_lock (rs "linux-x86_64") (rs "pc-x86_64") plain_artifact).
  - vm_compute. reflexivity.
  - vm_compute. reflexivity.
Defined.
