(* ===== verification/ProducerInputs.v ===== *)
(** * ProducerInputs: the recipe, source lock and profiles a package is made from

    Models [crates/aros-toolchain/src/canonical.rs], [recipe.rs],
    [source_lock.rs] and [profiles.rs] behind serde_json: the class
    [ProducerSerde] reads a document into a record and writes a JSON value; the
    checks on the record and the values made from it are the code's. *)

From S2P Require Import Prelude Text Digest Publication Ordered StateRes RiscvContract ArchiveTypes ToolchainManifest.

(** ** Canonical JSON: canonical.rs *)
Definition MAX_DOCUMENT_BYTES : Z := 1024 * 1024.
Definition MAX_DEPTH : Z := 64.

(** [serde_json::Value]; a number that is not a [u64] keeps its text. *)
#[local] Unset Elimination Schemes.
Inductive Value :=
| VNull
| VBool (b : bool)
| VUint (n : Z)
| VNumber (text : list Z)
| VString (s : list Z)
| VArray (items : list Value)
| VObject (members : list (list Z * Value)).
#[local] Set Elimination Schemes.

(** [ordered] *)
Fixpoint ordered (value : Value) (depth : Z) : res ContractError Value :=
  _ ← refuse (MAX_DEPTH <? depth) (Input JsonTooDeep);
  match value with
  | VObject members =>
    members ← mapR (fun m : list Z * Value => let '(key, child) := m in child ← ordered child (depth + 1); Ok (key, child)) members;
    Ok (VObject (foldl (fun sorted m => bt_put str_ltb m.1 m.2 sorted) [] members))
  | VArray items => items ← mapR (fun child => ordered child (depth + 1)) items; Ok (VArray items)
  | VNumber _ => Err (Input JsonNumber)
  | _ => Ok value
  end.

(** ** Records *)
Record Patch := mkPatch { patch_path : list Z; patch_sha256 : list Z }.
Record Recipe := mkRecipe {
  rc_source_commit : list Z; rc_source_tree : list Z; rc_producer_commit : list Z; rc_producer_tree : list Z;
  rc_tools_commit : list Z; rc_tools_tree : list Z; rc_source_date_epoch : Z;
  rc_source_lock_sha256 : list Z; rc_profiles_sha256 : list Z; rc_patches : list Patch; rc_sha256 : list Z;
}.

Inductive lock_schema := LockV2 | LockV3.
Inductive CompilerFamily := Llvm | Gnu.
#[global] Instance CompilerFamily_eq_dec : EqDecision CompilerFamily.
Proof. solve_decision. Defined.
Inductive SourcePurpose := ToolchainComponent | TargetBuildDependency.
#[global] Instance SourcePurpose_eq_dec : EqDecision SourcePurpose.
Proof. solve_decision. Defined.
(** [OneOrMany] *)
Inductive patch_field := NoPatch | OnePatch (path : list Z) | ManyPatches (paths : list (list Z)).

Record source_fields (P : Type) := mkSource {
  so_component : list Z; so_version : list Z; so_purpose : SourcePurpose; so_patches : P;
  so_filename : list Z; so_url : list Z; so_sha256 : list Z; so_size : Z;
}.
#[global] Arguments mkSource {P}.
#[global] Arguments so_component {P}. #[global] Arguments so_version {P}. #[global] Arguments so_purpose {P}. #[global] Arguments so_patches {P}.
#[global] Arguments so_filename {P}. #[global] Arguments so_url {P}. #[global] Arguments so_sha256 {P}. #[global] Arguments so_size {P}.
Definition Source : Type := source_fields (list (list Z)).
Record HostPythonPackage := mkPython {
  py_name : list Z; py_version : list Z; py_filename : list Z; py_url : list Z; py_sha256 : list Z; py_size : Z;
  py_source_root : list Z; py_python_path : list Z;
}.
Record lock_document (S : Type) := mkLockDocument {
  lk_schema : lock_schema; lk_family : CompilerFamily; lk_version : list Z; lk_sources : list S; lk_python : list HostPythonPackage;
}.
#[global] Arguments mkLockDocument {S}.
#[global] Arguments lk_schema {S}. #[global] Arguments lk_family {S}. #[global] Arguments lk_version {S}.
#[global] Arguments lk_sources {S}. #[global] Arguments lk_python {S}.
Record SourceLock := mkSourceLock { sl_record : lock_document Source; sl_sha256 : list Z }.

Record profile_record (T : Type) := mkProfileRecord {
  pr_name : list Z; pr_configure_target : list Z; pr_upstream_output_target : list Z; pr_target_triple : list Z;
  pr_cpu : list Z; pr_platform : list Z; pr_float_abi : list Z; pr_capabilities : list (list Z); pr_target : T;
}.
#[global] Arguments mkProfileRecord {T}.
#[global] Arguments pr_name {T}. #[global] Arguments pr_configure_target {T}. #[global] Arguments pr_upstream_output_target {T}.
#[global] Arguments pr_target_triple {T}. #[global] Arguments pr_cpu {T}. #[global] Arguments pr_platform {T}.
#[global] Arguments pr_float_abi {T}. #[global] Arguments pr_capabilities {T}. #[global] Arguments pr_target {T}.
Record Profile := mkProfile { pf_family : CompilerFamily; pf_document_sha256 : list Z; pf_record : profile_record (option TargetContract) }.
Record profiles_document (T : Type) := mkProfilesDocument {
  pd_schema : list Z; pd_family : CompilerFamily; pd_upstream_commit : list Z; pd_profiles : list (profile_record T);
}.
#[global] Arguments mkProfilesDocument {T}.
#[global] Arguments pd_schema {T}. #[global] Arguments pd_family {T}. #[global] Arguments pd_upstream_commit {T}. #[global] Arguments pd_profiles {T}.
Record Profiles := mkProfiles { ps_family : CompilerFamily; ps_upstream_commit : list Z; ps_profiles : list Profile }.

(** serde_json on the documents of the producer.  The records hold what the
    derived [Deserialize] reads before [try_from] and [deserialize_with] check it;
    a document of profiles-v1 names no family and no target. *)
Class ProducerSerde := {
  read_recipe : list Z -> option Recipe;
  read_source_lock : list Z -> option (lock_document (source_fields patch_field));
  read_profiles_v1 : list Z -> option (profiles_document unit);
  read_profiles_v2 : list Z -> option (profiles_document (option TargetContract));
  json_to_vec : Value -> option (list Z);
}.

Section inputs.
Context {H : Sha256} {C : UrlCrate} {S : ProducerSerde}.

(** [canonical::bytes] *)
Definition canonical_bytes (value : Value) : res ContractError (list Z) :=
  value ← ordered value 0;
  result ← ok_or (json_to_vec value) (Input JsonNotSerialized);
  _ ← refuse (MAX_DOCUMENT_BYTES <=? len result) (Input JsonTooLarge);
  Ok (result ++ [10]).

(** ** Recipes: recipe.rs *)
Definition lowercase_hex (value : list Z) : bool := forallb lower_hex (utf8 value).
(** [GitObjectId::try_from] and [digest] *)
Definition git_object_id (value : list Z) : res ContractError unit :=
  refuse (negb ((str_len value =? 40) && lowercase_hex value)) (Input BadDocument).
Definition digest (value : list Z) : res ContractError (list Z) :=
  _ ← refuse (negb (lowercase_hex value)) (Input BadDocument);
  ok_or (digest_parse value) (Input BadDocument).

(** [safe_relative_path] *)
Definition safe_relative_path (value : list Z) : bool :=
  negb (eqb_list value []) && negb (existsb (fun c => is_control c || (c =? 92) || (c =? 58)) value)
  && forallb (fun part => negb (eqb_list part []) && negb (eqb_list part (rs ".")) && negb (eqb_list part (rs ".."))) (split_on (Z.eqb 47) value).

(** [Record::deserialize] *)
Definition recipe_of_record (r : Recipe) : res ContractError Recipe :=
  _ ← foldM (fun _ id => git_object_id id) tt
        [rc_source_commit r; rc_source_tree r; rc_producer_commit r; rc_producer_tree r; rc_tools_commit r; rc_tools_tree r];
  source_lock_sha256 ← digest (rc_source_lock_sha256 r);
  profiles_sha256 ← digest (rc_profiles_sha256 r);
  patches ← mapR (fun p => sha256 ← digest (patch_sha256 p); Ok (mkPatch (patch_path p) sha256)) (rc_patches r);
  sha256 ← digest (rc_sha256 r);
  Ok (mkRecipe (rc_source_commit r) (rc_source_tree r) (rc_producer_commit r) (rc_producer_tree r) (rc_tools_commit r) (rc_tools_tree r)
        (rc_source_date_epoch r) source_lock_sha256 profiles_sha256 patches sha256).

(** One patch of the loop in [Recipe::parse]. *)
Definition recipe_patch (previous : option (list Z)) (p : Patch) : res ContractError (option (list Z)) :=
  _ ← refuse (negb (safe_relative_path (patch_path p))) (Input UnsafePatchPath);
  _ ← refuse (match previous with Some path => negb (str_ltb path (patch_path p)) | None => false end) (Input PatchesUnsorted);
  Ok (Some (patch_path p)).

(** The fields of a recipe but its own digest, as [to_value] gives them. *)
Definition recipe_material (r : Recipe) : Value :=
  VObject [(rs "schema", VString (rs "aros-toolchain-recipe-v2"));
           (rs "source_commit", VString (rc_source_commit r)); (rs "source_tree", VString (rc_source_tree r));
           (rs "producer_commit", VString (rc_producer_commit r)); (rs "producer_tree", VString (rc_producer_tree r));
           (rs "tools_commit", VString (rc_tools_commit r)); (rs "tools_tree", VString (rc_tools_tree r));
           (rs "source_date_epoch", VUint (rc_source_date_epoch r));
           (rs "source_lock_sha256", VString (rc_source_lock_sha256 r)); (rs "profiles_sha256", VString (rc_profiles_sha256 r));
           (rs "patches", VArray (map (fun p => VObject [(rs "path", VString (patch_path p)); (rs "sha256", VString (patch_sha256 p))]) (rc_patches r)))].

(** [Recipe::parse] *)
Definition parse_recipe (input : list Z) : res ContractError Recipe :=
  _ ← refuse (MAX_DOCUMENT_BYTES <? len input) (Input DocumentTooLarge);
  record ← ok_or (read_recipe input) (Input BadDocument);
  recipe ← recipe_of_record record;
  _ ← foldM recipe_patch None (rc_patches recipe);
  material ← canonical_bytes (recipe_material recipe);
  _ ← refuse (negb (bool_decide (sha256_bytes material = rc_sha256 recipe))) (Input SelfDigestMismatch);
  Ok recipe.

(** ** Source locks: source_lock.rs *)
Definition MAX_PAYLOADS : Z := 1024.
Definition MAX_TOTAL_BYTES : Z := 8 * 1024 * 1024 * 1024.

(** [patch_paths] *)
Definition patch_paths (f : patch_field) : res ContractError (list (list Z)) :=
  match f with
  | NoPatch => Ok []
  | OnePatch path => Ok [path]
  | ManyPatches paths => _ ← refuse (bool_decide (paths = [])) (Input BadDocument); Ok paths
  end.
Definition source_of_record (s : source_fields patch_field) : res ContractError Source :=
  patches ← patch_paths (so_patches s);
  sha256 ← digest (so_sha256 s);
  Ok (mkSource (so_component s) (so_version s) (so_purpose s) patches (so_filename s) (so_url s) sha256 (so_size s)).
Definition python_of_record (p : HostPythonPackage) : res ContractError HostPythonPackage :=
  sha256 ← digest (py_sha256 p);
  Ok (mkPython (py_name p) (py_version p) (py_filename p) (py_url p) sha256 (py_size p) (py_source_root p) (py_python_path p)).

Definition numeric_version (value : list Z) (min_segments max_segments : Z) : bool :=
  let segments := split_on (Z.eqb 46) value in
  (min_segments <=? len segments) && (len segments <=? max_segments)
  && forallb (fun part => negb (eqb_list part []) && all_digits part) segments.
Definition llvm_version (value : list Z) : bool := numeric_version value 3 3.
Definition gcc_version (value : list Z) : bool := numeric_version value 3 3.

Definition token_byte (b : Z) : bool := is_ascii_alphanumeric b || existsb (Z.eqb b) (rs "+._-").
Definition token (value : list Z) : bool :=
  negb (eqb_list value []) && (str_len value <=? 128) && forallb token_byte (utf8 value).
Definition portable_filename (value : list Z) : bool :=
  token value && negb (eqb_list value (rs ".")) && negb (eqb_list value (rs "..")).
Definition single_segment (value : list Z) : bool :=
  token value && negb (eqb_list value (rs ".")) && negb (eqb_list value (rs "..")).
Definition safe_python_path (value : list Z) : bool :=
  eqb_list value (rs ".")
  || negb (eqb_list value []) && negb (starts_with value (rs "/"))
     && forallb (fun part => token part && negb (eqb_list part (rs ".")) && negb (eqb_list part (rs ".."))) (split_on (Z.eqb 47) value).
Definition https_url (value : list Z) : bool :=
  match url_parse value with
  | Some url => eqb_list (url_scheme url) (rs "https") && bool_decide (is_Some (url_host url)) && eqb_list (url_username url) []
                && bool_decide (url_password url = None) && bool_decide (url_query url = None) && bool_decide (url_fragment url = None)
  | None => false
  end.

(** The sets and the sum of the loops in [validate]. *)
Record lock_seen := mkSeen {
  seen_filenames : list (list Z); seen_components : list (list Z * list Z); seen_versions : list (list Z * list Z);
  seen_patches : list (list Z); seen_names : list (list Z); seen_roots : list (list Z); seen_total : Z;
}.

Definition patch_namespace (family : CompilerFamily) : list Z :=
  match family with Llvm => rs "tools/crosstools/llvm/" | Gnu => rs "tools/crosstools/gnu/" end.
Definition is_v3 (schema : lock_schema) : bool := match schema with LockV3 => true | LockV2 => false end.
Definition lock_patch (schema : lock_schema) (family : CompilerFamily) (purpose : SourcePurpose) (patches : list (list Z)) (patch : list Z)
  : res ContractError (list (list Z)) :=
  let source_owned_dependency := is_v3 schema && bool_decide (purpose = TargetBuildDependency) in
  _ ← refuse (negb (safe_relative_path patch) || negb source_owned_dependency && negb (starts_with patch (patch_namespace family))
              || negb (ends_with patch (rs "-aros.diff")) || bool_decide (patch ∈ patches)) (Input LockPatch);
  Ok (patch :: patches).

(** One source of the first loop. *)
Definition lock_source (schema : lock_schema) (family : CompilerFamily) (seen : lock_seen) (s : Source) : res ContractError lock_seen :=
  _ ← refuse (negb (token (so_component s)) || negb (token (so_version s)) || negb (portable_filename (so_filename s))
              || negb (https_url (so_url s)) || (so_size s =? 0)
              || bool_decide ((so_component s, so_version s) ∈ seen_components seen)
              || bool_decide (so_filename s ∈ seen_filenames seen)) (Input LockSource);
  _ ← refuse (is_v3 schema && match bt_get (so_component s) (seen_versions seen) with
                              | Some version => negb (eqb_list version (so_version s))
                              | None => false
                              end) (Input LockConflict);
  patches ← foldM (lock_patch schema family (so_purpose s)) (seen_patches seen) (so_patches s);
  total ← ok_or (checked_add u64_max (seen_total seen) (so_size s)) (Input LockOverflow);
  Ok (mkSeen (so_filename s :: seen_filenames seen) ((so_component s, so_version s) :: seen_components seen)
        (bt_put str_ltb (so_component s) (so_version s) (seen_versions seen)) patches (seen_names seen) (seen_roots seen) total).

(** One package of the second loop. *)
Definition lock_python (seen : lock_seen) (p : HostPythonPackage) : res ContractError lock_seen :=
  _ ← refuse (negb (token (py_name p)) || negb (token (py_version p)) || negb (portable_filename (py_filename p))
              || negb (https_url (py_url p)) || (py_size p =? 0) || negb (single_segment (py_source_root p))
              || negb (safe_python_path (py_python_path p)) || bool_decide (py_name p ∈ seen_names seen)
              || bool_decide (py_source_root p ∈ seen_roots seen) || bool_decide (py_filename p ∈ seen_filenames seen)) (Input LockPython);
  total ← ok_or (checked_add u64_max (seen_total seen) (py_size p)) (Input LockOverflow);
  Ok (mkSeen (py_filename p :: seen_filenames seen) (seen_components seen) (seen_versions seen) (seen_patches seen)
        (py_name p :: seen_names seen) (py_source_root p :: seen_roots seen) total).

(** [validate_gnu_components] *)
Definition toolchain_source (component : list Z) (s : Source) : bool :=
  eqb_list (so_component s) component && bool_decide (so_purpose s = ToolchainComponent).
Definition validate_gnu_components (d : lock_document Source) : res ContractError unit :=
  match List.filter (toolchain_source (rs "gcc")) (lk_sources d), List.filter (toolchain_source (rs "binutils")) (lk_sources d) with
  | [gcc], [binutils] =>
    refuse (negb (eqb_list (so_version gcc) (lk_version d))
            || negb (is_ok (validate_gnu_compiler_versions (so_version gcc) (so_version binutils)))) (Input LockGnuComponents)
  | _, _ => Err (Input LockGnuComponents)
  end.

(** [validate] *)
Definition supported_version (d : lock_document Source) : bool :=
  match lk_schema d, lk_family d with
  | _, Llvm => llvm_version (lk_version d)
  | LockV3, Gnu => gcc_version (lk_version d)
  | LockV2, Gnu => false
  end.
Definition validate_source_lock (d : lock_document Source) : res ContractError unit :=
  _ ← refuse (negb (supported_version d) || bool_decide (lk_sources d = []) || bool_decide (lk_python d = [])
              || (MAX_PAYLOADS <? len (lk_sources d) + len (lk_python d))) (Input LockVersionOrCount);
  seen ← foldM (lock_source (lk_schema d) (lk_family d)) (mkSeen [] [] [] [] [] [] 0) (lk_sources d);
  _ ← (if is_v3 (lk_schema d) && bool_decide (lk_family d = Gnu) then validate_gnu_components d else Ok tt);
  seen ← foldM lock_python seen (lk_python d);
  refuse (MAX_TOTAL_BYTES <? seen_total seen) (Input LockTotal).

(** [SourceLock::parse] *)
Definition parse_source_lock (input : list Z) : res ContractError SourceLock :=
  _ ← refuse (MAX_DOCUMENT_BYTES <? len input) (Input DocumentTooLarge);
  record ← ok_or (read_source_lock input) (Input BadDocument);
  sources ← mapR source_of_record (lk_sources record);
  python ← mapR python_of_record (lk_python record);
  let d := mkLockDocument (lk_schema record) (lk_family record) (lk_version record) sources python in
  _ ← refuse (negb (is_v3 (lk_schema d)) && bool_decide (lk_family d = Gnu)) (Input LockSchemaFamily);
  _ ← validate_source_lock d;
  Ok (mkSourceLock d (sha256_bytes input)).

Definition sl_family (l : SourceLock) : CompilerFamily := lk_family (sl_record l).
Definition sl_version (l : SourceLock) : list Z := lk_version (sl_record l).
Definition source_components (l : SourceLock) : list Source := lk_sources (sl_record l).
Definition host_python_packages (l : SourceLock) : list HostPythonPackage := lk_python (sl_record l).

(** [SourceLock::verify_recipe_patches] *)
Definition path_set (paths : list (list Z)) : list (list Z) := foldl (fun s p => bs_put str_ltb p s) [] paths.
Definition verify_recipe_patches (l : SourceLock) (r : Recipe) : res ContractError unit :=
  refuse (negb (bool_decide (path_set (flat_map so_patches (source_components l)) = path_set (map patch_path (rc_patches r))))) (Input PatchClosure).

(** ** Profiles: profiles.rs *)
Definition MAX_PROFILES : Z := 128.
Definition SUPPORTED_CAPABILITIES : list (list Z) :=
  [rs "c"; rs "cxx"; rs "objc"; rs "compiler-rt"; rs "compiler-rt32"; rs "libcxx"; rs "libcxxabi"; rs "libunwind";
   rs "multilib-collector"; rs "standalone-collector"].
Definition SUPPORTED_GNU_CAPABILITIES : list (list Z) :=
  [rs "c"; rs "cxx"; rs "libgcc"; rs "libstdcxx"; rs "libsupcxx"; rs "standalone-collector"].

Definition identifier_byte (b : Z) : bool := is_ascii_alphanumeric b || (b =? 45) || (b =? 95) || (b =? 46).
Definition identifier (value : list Z) : bool :=
  negb (eqb_list value []) && (str_len value <=? 128) && forallb identifier_byte (utf8 value)
  && negb (eqb_list value (rs ".")) && negb (eqb_list value (rs "..")).

(** [validate_gnu_profile] *)
Definition validate_gnu_profile (p : profile_record (option TargetContract)) : res ContractError unit :=
  target ← ok_or (pr_target p) (Input GnuTargetMissing);
  cpu_width ← (if eqb_list (pr_cpu p) (rs "riscv") then Ok (rs "ilp32")
               else if eqb_list (pr_cpu p) (rs "riscv64") then Ok (rs "lp64")
               else Err (Input GnuCpu));
  _ ← refuse (negb (starts_with (abi target) cpu_width)) (Input GnuAbiWidth);
  _ ← refuse (negb (eqb_list (pr_float_abi p) (abi target))) (Input GnuFloatAbi);
  _ ← refuse (match strip_suffix (rs "-aros") (pr_target_triple p) with
              | None => true
              | Some prefix => negb (identifier prefix) || negb (bool_decide (head (split_on (Z.eqb 45) prefix) = Some (pr_cpu p)))
              end) (Input GnuTriple);
  let has capability := bool_decide (capability ∈ pr_capabilities p) in
  _ ← refuse (negb (has (rs "c")) || negb (has (rs "libgcc")) || negb (has (rs "standalone-collector"))) (Input GnuCapabilities);
  refuse (negb (Bool.eqb (has (rs "cxx")) (has (rs "libstdcxx") && has (rs "libsupcxx")))
          || negb (Bool.eqb (has (rs "libstdcxx")) (has (rs "libsupcxx")))) (Input GnuCxx).

(** One profile of [validate_profiles]; [names] is the set of its loop. *)
Definition supported_capabilities (family : CompilerFamily) : list (list Z) :=
  match family with Llvm => SUPPORTED_CAPABILITIES | Gnu => SUPPORTED_GNU_CAPABILITIES end.
Definition validate_profile (family : CompilerFamily) (names : list (list Z)) (profile : Profile) : res ContractError (list (list Z)) :=
  let p := pf_record profile in
  _ ← refuse (bool_decide (pr_name p ∈ names)
              || existsb (fun value => negb (identifier value))
                   [pr_name p; pr_configure_target p; pr_upstream_output_target p; pr_target_triple p; pr_cpu p; pr_platform p]
              || negb (eqb_list (pr_float_abi p) []) && negb (identifier (pr_float_abi p))
              || bool_decide (pr_capabilities p = [])
              || existsb (fun value => negb (identifier value) || negb (bool_decide (value ∈ supported_capabilities family))) (pr_capabilities p)
              || negb (len (path_set (pr_capabilities p)) =? len (pr_capabilities p))) (Input ProfileIdentifiers);
  _ ← match family with
      | Llvm => refuse (bool_decide (is_Some (pr_target p))) (Input LlvmTargetContract)
      | Gnu => validate_gnu_profile p
      end;
  Ok (pr_name p :: names).
Definition validate_profiles (profiles : list Profile) (family : CompilerFamily) : res ContractError unit :=
  _ ← foldM (validate_profile family) [] profiles; Ok tt.

(** [TargetContract::deserialize] of the target of a profiles-v2 entry *)
Definition profile_of_record (family : CompilerFamily) (sha256 : list Z) (p : profile_record (option TargetContract)) : res ContractError Profile :=
  _ ← match pr_target p with
      | Some target => _ ← map_err (fun _ => Input BadDocument) (deserialize target); Ok tt
      | None => Ok tt
      end;
  Ok (mkProfile family sha256 p).
Definition without_target (p : profile_record unit) : profile_record (option TargetContract) :=
  mkProfileRecord (pr_name p) (pr_configure_target p) (pr_upstream_output_target p) (pr_target_triple p) (pr_cpu p) (pr_platform p)
    (pr_float_abi p) (pr_capabilities p) None.

(** [parse_v1] and [parse_v2] *)
Definition parse_v1 (d : profiles_document unit) (sha256 : list Z) : res ContractError Profiles :=
  _ ← refuse (negb (eqb_list (pd_schema d) (rs "aros-toolchain-profiles-v1")) || bool_decide (pd_profiles d = [])
              || (MAX_PROFILES <? len (pd_profiles d))) (Input ProfilesShape);
  let profiles := map (fun p => mkProfile Llvm sha256 (without_target p)) (pd_profiles d) in
  _ ← validate_profiles profiles Llvm;
  Ok (mkProfiles Llvm (pd_upstream_commit d) profiles).
Definition parse_v2 (d : profiles_document (option TargetContract)) (profiles : list Profile) : res ContractError Profiles :=
  _ ← refuse (negb (eqb_list (pd_schema d) (rs "aros-toolchain-profiles-v2")) || bool_decide (pd_profiles d = [])
              || (MAX_PROFILES <? len (pd_profiles d))) (Input ProfilesShape);
  _ ← validate_profiles profiles (pd_family d);
  Ok (mkProfiles (pd_family d) (pd_upstream_commit d) profiles).

(** [Profiles::parse]: a document that serde does not read as profiles-v1 is
    read as profiles-v2. *)
Definition parse_profiles (input : list Z) : res ContractError Profiles :=
  _ ← refuse (MAX_DOCUMENT_BYTES <? len input) (Input DocumentTooLarge);
  let sha256 := sha256_bytes input in
  let v1 := d ← read_profiles_v1 input; if is_ok (git_object_id (pd_upstream_commit d)) then Some d else None in
  match v1 with
  | Some d => parse_v1 d sha256
  | None =>
    d ← ok_or (read_profiles_v2 input) (Input BadDocument);
    _ ← git_object_id (pd_upstream_commit d);
    profiles ← mapR (profile_of_record (pd_family d) sha256) (pd_profiles d);
    parse_v2 d profiles
  end.

(** [Profiles::select] *)
Definition select (ps : Profiles) (name : list Z) : res ContractError Profile :=
  ok_or (find (fun p => eqb_list (pr_name (pf_record p)) name) (ps_profiles ps)) (Input UnknownPreset).
End inputs.
