(* ===== verification/PackageIdentity.v ===== *)
(** * PackageIdentity: the documents of a package

    Models [crates/aros-toolchain/src/package_identity.rs] and the documents that
    [package.rs] writes: the asset's name, the manifest, the SBOM with its date,
    and the escaping of [pretty_json].  serde_json writes a document as text and
    reads a manifest and a tools document: the class [PackageSerde]. *)

From S2P Require Import Prelude Text Digest Publication Ordered StateRes RiscvContract ArchiveTypes ToolchainManifest ProducerInputs.

Inductive PackageFormat := LegacyLlvmV1 | CompilerFamilyV2.
#[global] Instance PackageFormat_eq_dec : EqDecision PackageFormat.
Proof. solve_decision. Defined.
(** [PackageFormat::default_for] *)
Definition default_for (family : CompilerFamily) : PackageFormat :=
  match family with Llvm => LegacyLlvmV1 | Gnu => CompilerFamilyV2 end.

Definition pf_name (p : Profile) : list Z := pr_name (pf_record p).
Definition pf_target_triple (p : Profile) : list Z := pr_target_triple (pf_record p).
Definition pf_cpu (p : Profile) : list Z := pr_cpu (pf_record p).
Definition pf_capabilities (p : Profile) : list (list Z) := pr_capabilities (pf_record p).

(** ** Identities: package_identity.rs *)

(** [compiler_identity] *)
Definition compiler_identity_of (source_lock : SourceLock) (profile : Profile) : res ContractError ArosCompilerIdentity :=
  _ ← refuse (negb (bool_decide (sl_family source_lock = pf_family profile))) (Package FamilyMismatch);
  identity ← match sl_family source_lock with
             | Llvm => Ok (LlvmCompiler (sl_version source_lock))
             | Gnu =>
               binutils ← ok_or (find (fun s => eqb_list (so_component s) (rs "binutils")) (source_components source_lock)) (Package NoBinutils);
               target ← ok_or (pr_target (pf_record profile)) (Package NoTargetContract);
               Ok (GnuCompiler (sl_version source_lock) (so_version binutils) target)
             end;
  _ ← (if bool_decide (sl_family source_lock = Gnu)
       then map_err (fun _ => Package IdentityRefused) (validate_for_target identity (pf_target_triple profile))
       else Ok tt);
  Ok identity.

(** [validate_family_llvm_profile] *)
Definition validate_family_llvm_profile (profile : Profile) : res ContractError unit :=
  let triple := split_on (Z.eqb 45) (pf_target_triple profile) in
  refuse ((len triple <? 3) || existsb (fun c => eqb_list c []) triple || negb (bool_decide (head triple = Some (pf_cpu profile)))
          || negb (bool_decide (last triple = Some (rs "aros")))) (Package FamilyLlvmProfile).

(** [validate_format_family] *)
Definition validate_format_family (family : CompilerFamily) (format : PackageFormat) : res ContractError unit :=
  refuse (bool_decide (format = LegacyLlvmV1) && negb (bool_decide (family = Llvm))) (Package LegacyFormatFamily).

(** [compiler_identity_for_format] *)
Definition compiler_identity_for_format (source_lock : SourceLock) (profile : Profile) (format : PackageFormat) : res ContractError ArosCompilerIdentity :=
  _ ← validate_format_family (sl_family source_lock) format;
  identity ← compiler_identity_of source_lock profile;
  _ ← (if bool_decide (format = CompilerFamilyV2) then
         _ ← map_err (fun _ => Package IdentityRefused) (validate_for_target identity (pf_target_triple profile));
         if bool_decide (sl_family source_lock = Llvm) then validate_family_llvm_profile profile else Ok tt
       else Ok tt);
  Ok identity.

(** [require_recipe_binding] *)
Definition require_recipe_binding (recipe : Recipe) (source_lock : SourceLock) (profile : Profile) (format : PackageFormat) : res ContractError unit :=
  _ ← validate_format_family (sl_family source_lock) format;
  _ ← refuse ((bool_decide (sl_family source_lock = Gnu) || bool_decide (format = CompilerFamilyV2))
              && (negb (bool_decide (sl_sha256 source_lock = rc_source_lock_sha256 recipe))
                  || negb (bool_decide (pf_document_sha256 profile = rc_profiles_sha256 recipe)))) (Package RecipeBinding);
  verify_recipe_patches source_lock recipe.

(** [canonical_asset_name] and [canonical_family_llvm_asset_name] *)
Definition SUPPORTED_HOSTS : list (list Z) := [rs "linux-x86_64"; rs "linux-aarch64"; rs "macos-x86_64"; rs "macos-aarch64"].
Definition FAMILY_HOSTS : list (list Z) := [rs "linux-x86_64"; rs "linux-aarch64"; rs "macos-aarch64"].
Definition LEGACY_PROFILES : list (list Z) := [rs "pc-x86_64"; rs "arm-raspi"; rs "rpi-aarch64"].
Definition canonical_asset_name (llvm_version host target_profile : list Z) : res ContractError (list Z) :=
  let parts := split_on (Z.eqb 46) llvm_version in
  let version_ok := (len parts =? 3) && forallb (fun part => negb (eqb_list part []) && all_digits part) parts in
  _ ← refuse (negb version_ok || negb (bool_decide (host ∈ SUPPORTED_HOSTS))) (Package UnsupportedVersionOrHost);
  _ ← refuse (negb (bool_decide (target_profile ∈ LEGACY_PROFILES))) (Package UnsupportedTargetProfile);
  Ok (rs "aros-toolchain-v1-llvm" ++ llvm_version ++ rs "-" ++ host ++ rs "-" ++ target_profile ++ rs ".tar.xz").
Definition canonical_family_llvm_asset_name (version host target_profile : list Z) : res ContractError (list Z) :=
  _ ← refuse (negb (bool_decide (host ∈ FAMILY_HOSTS))) (Package UnsupportedLlvmHost);
  Ok (rs "aros-toolchain-v2-llvm" ++ version ++ rs "-" ++ host ++ rs "-" ++ target_profile ++ rs ".tar.xz").

(** [asset_name_for_format] *)
Definition asset_name_for_format (source_lock : SourceLock) (profile : Profile) (host : list Z) (format : PackageFormat) : res ContractError (list Z) :=
  identity ← compiler_identity_for_format source_lock profile format;
  match identity with
  | LlvmCompiler version =>
    match format with
    | LegacyLlvmV1 => canonical_asset_name version host (pf_name profile)
    | CompilerFamilyV2 => canonical_family_llvm_asset_name version host (pf_name profile)
    end
  | GnuCompiler gcc_version binutils_version _ =>
    _ ← refuse (negb (bool_decide (host ∈ FAMILY_HOSTS))) (Package UnsupportedGnuHost);
    Ok (rs "aros-toolchain-v2-gcc" ++ gcc_version ++ rs "-binutils" ++ binutils_version ++ rs "-" ++ host ++ rs "-" ++ pf_name profile
        ++ rs ".tar.xz")
  end.

(** ** Documents *)

(** The UTF-16 units of [char::encode_utf16], and [format!("\\u{unit:04x}")]. *)
Definition encode_utf16 (c : Z) : list Z :=
  if c <? 0x10000 then [c] else [0xD800 + Z.shiftr (c - 0x10000) 10; 0xDC00 + Z.land (c - 0x10000) 0x3FF].
Definition escape_unit (unit : Z) : list Z :=
  rs "\u" ++ map (fun k => hex_digit (Z.land (Z.shiftr unit k) 15)) [12; 8; 4; 0].
(** The loop of [pretty_json] over the rendered text. *)
Definition ascii_json (rendered : list Z) : list Z :=
  flat_map (fun c => if c <? 128 then [c] else flat_map escape_unit (encode_utf16 c)) rendered ++ [10].

Class PackageSerde := {
  environment : Type;
  environment_eq_dec :: EqDecision environment;
  environment_value : environment -> Value;
  (** [serde_json::from_slice] *)
  read_manifest : list Z -> option (ArosToolchainManifestRecord environment);
  (** [to_string_pretty] of [to_value] of a manifest, and of a value *)
  show_manifest : ArosToolchainManifest environment -> option (list Z);
  show_value : Value -> option (list Z);
}.

(** [rfc3339] and [civil_from_days] *)
Definition civil_from_days (days : Z) : Z * Z * Z :=
  let days := days + 719468 in
  let era := (if 0 <=? days then days else days - 146096) ÷ 146097 in
  let doe := days - era * 146097 in
  let yoe := (doe - doe ÷ 1460 + doe ÷ 36524 - doe ÷ 146096) ÷ 365 in
  let year := yoe + era * 400 in
  let day_of_year := doe - (365 * yoe + yoe ÷ 4 - yoe ÷ 100) in
  let month_prime := (5 * day_of_year + 2) ÷ 153 in
  let day := day_of_year - (153 * month_prime + 2) ÷ 5 + 1 in
  let month := month_prime + (if month_prime <? 10 then 3 else -9) in
  (year + (if month <=? 2 then 1 else 0), month, day).
(** [{value:0width}] of a number that is not negative *)
Definition pad_dec (width : Z) (value : Z) : list Z := fill (width - len (show_dec value)) 48 ++ show_dec value.
Definition rfc3339 (seconds : Z) : res ContractError (list Z) :=
  _ ← refuse (i64_max <? seconds) (Package TimestampRange);
  let days := seconds / 86400 in
  let time := seconds mod 86400 in
  let '(year, month, day) := civil_from_days days in
  _ ← refuse (negb ((0 <=? year) && (year <=? 9999))) (Package SpdxTimestampRange);
  Ok (pad_dec 4 year ++ rs "-" ++ pad_dec 2 month ++ rs "-" ++ pad_dec 2 day ++ rs "T" ++ pad_dec 2 (time ÷ 3600) ++ rs ":"
      ++ pad_dec 2 (Z.rem time 3600 ÷ 60) ++ rs ":" ++ pad_dec 2 (Z.rem time 60) ++ rs "Z").

Section documents.
Context {S : PackageSerde}.

(** [pretty_json] *)
Definition pretty_json (rendered : option (list Z)) : res ContractError (list Z) :=
  rendered ← ok_or rendered (Package DocumentNotSerialized); Ok (ascii_json rendered).

(** What a package and its verification are asked for. *)
Record package_request := mkPackageRequest {
  rq_release_id : list Z; rq_host : list Z; rq_recipe : Recipe; rq_source_lock : SourceLock; rq_profile : Profile;
  rq_environment : environment; rq_prefixes : list (list Z);
}.

(** [manifest] *)
Definition manifest_schema (format : PackageFormat) : Z :=
  if bool_decide (format = CompilerFamilyV2) then AROS_TOOLCHAIN_MANIFEST_SCHEMA_V2 else AROS_TOOLCHAIN_MANIFEST_SCHEMA.
Definition manifest_of (request : package_request) (format : PackageFormat) (identity : ArosCompilerIdentity) (tree_sha256 : list Z)
    (files : list ArosToolchainManifestEntry) : ArosToolchainManifest environment :=
  let family_v2 := bool_decide (format = CompilerFamilyV2) in
  mkManifest (manifest_schema format) (rq_release_id request) (rq_host request) (pf_name (rq_profile request)) (pf_target_triple (rq_profile request))
    tree_sha256 (if family_v2 then None else Some (sl_version (rq_source_lock request))) (if family_v2 then Some identity else None)
    (rc_sha256 (rq_recipe request)) (rc_source_lock_sha256 (rq_recipe request)) (rc_profiles_sha256 (rq_recipe request))
    (rc_source_commit (rq_recipe request)) (rc_producer_commit (rq_recipe request)) (rc_tools_commit (rq_recipe request))
    (rc_source_date_epoch (rq_recipe request)) (pf_capabilities (rq_profile request)) (rq_environment request) files.
Definition manifest (request : package_request) (format : PackageFormat) (tree_sha256 : list Z) (files : list ArosToolchainManifestEntry)
  : res ContractError (ArosToolchainManifest environment) :=
  identity ← compiler_identity_for_format (rq_source_lock request) (rq_profile request) format;
  let m := manifest_of request format identity tree_sha256 files in
  _ ← map_err (fun _ => Package GeneratedManifestInvalid) (validate_manifest m);
  Ok m.

(** ** The SBOM: [spdx_bytes] *)
Definition spdx_package (id name version location sha256 : list Z) : Value :=
  VObject [(rs "SPDXID", VString id); (rs "name", VString name); (rs "versionInfo", VString version); (rs "downloadLocation", VString location);
           (rs "filesAnalyzed", VBool false);
           (rs "checksums", VArray [VObject [(rs "algorithm", VString (rs "SHA256")); (rs "checksumValue", VString sha256)] ]);
           (rs "licenseConcluded", VString (rs "NOASSERTION")); (rs "licenseDeclared", VString (rs "NOASSERTION"));
           (rs "copyrightText", VString (rs "NOASSERTION"))].
Definition spdx_relationship (left kind right : list Z) : Value :=
  VObject [(rs "spdxElementId", VString left); (rs "relationshipType", VString kind); (rs "relatedSpdxElement", VString right)].
Definition toolchain_id : list Z := rs "SPDXRef-Package-AROSToolchain".
Definition spdx_source (index : nat) (source : Source) : Value * Value :=
  let id := rs "SPDXRef-Source-" ++ show_dec (Z.of_nat index + 1) in
  (spdx_package id (so_component source) (so_version source) (so_url source) (so_sha256 source),
   match so_purpose source with
   | ToolchainComponent => spdx_relationship toolchain_id (rs "GENERATED_FROM") id
   | TargetBuildDependency => spdx_relationship id (rs "BUILD_DEPENDENCY_OF") toolchain_id
   end).
Definition spdx_python (index : nat) (package : HostPythonPackage) : Value * Value :=
  let id := rs "SPDXRef-HostPython-" ++ show_dec (Z.of_nat index + 1) in
  (spdx_package id (py_name package) (py_version package) (py_url package) (py_sha256 package),
   spdx_relationship id (rs "BUILD_DEPENDENCY_OF") toolchain_id).
Definition spdx_document (source_lock : SourceLock) (m : ArosToolchainManifest environment) (created : list Z) : Value :=
  let materials := imap spdx_source (source_components source_lock) ++ imap spdx_python (host_python_packages source_lock) in
  VObject [(rs "spdxVersion", VString (rs "SPDX-2.3")); (rs "dataLicense", VString (rs "CC0-1.0")); (rs "SPDXID", VString (rs "SPDXRef-DOCUMENT"));
           (rs "name", VString (rs "AROS-toolchain-" ++ take 16 (m_tree_sha256 m)));
           (rs "documentNamespace", VString (rs "https://github.com/metaneutrons/aros-toolchains/toolchain/" ++ m_tree_sha256 m));
           (rs "creationInfo", VObject [(rs "created", VString created); (rs "creators", VArray [VString (rs "Tool: aros-toolchain-producer-2")])]);
           (rs "documentDescribes", VArray [VString toolchain_id]);
           (rs "packages", VArray (spdx_package toolchain_id (rs "AROS " ++ m_target_profile m ++ rs " toolchain") (m_release_id m) (rs "NOASSERTION")
                                     (m_tree_sha256 m) :: map fst materials));
           (rs "relationships", VArray (map snd materials))].
Definition spdx_bytes (source_lock : SourceLock) (m : ArosToolchainManifest environment) : res ContractError (list Z) :=
  created ← rfc3339 (m_source_date_epoch m);
  pretty_json (show_value (spdx_document source_lock m created)).
End documents.
