(* ===== verification/PrefixScan.v ===== *)
(** * PrefixScan: searching a stream for forbidden prefixes, chunk by chunk

    Models [read_exact_entry] and [hash_entry_with_output] of
    [crates/aros-toolchain/src/package_verify.rs] and [scan_file] of
    [package.rs].  Both search for build prefixes while they read, keeping the
    end of what they have read as the overlap to the next chunk.  The lemmas show
    that the way a reader cuts its bytes into chunks makes no difference. *)

From S2P Require Import Prelude Text Digest StateRes PayloadPath ArchiveTypes.

(** ** The window search *)

(** [iter().map(len).max().unwrap_or(1) - 1] *)
Definition max_overlap (needles : list (list Z)) : Z :=
  match needles with
  | [] => 1
  | n :: ns => foldr (fun x m => Z.max (len x) m) (len n) ns
  end - 1.

(** [scan.windows(needle.len()).any(|window| window == needle)] for some needle *)
Definition any_needle (needles : list (list Z)) (scan : list Z) : bool :=
  existsb (fun needle => contains_str needle scan) needles.

(** [overlap = scan[scan.len() - max_overlap.min(scan.len())..]] *)
Definition keep_overlap (needles : list (list Z)) (scan : list Z) : list Z :=
  drop (Z.to_nat (len scan - Z.min (max_overlap needles) (len scan))) scan.

(** [prefix.to_str()] for every prefix, less the empty ones *)
Definition prefix_needles {E} (e : E) (prefixes : list (list Z)) : res E (list (list Z)) :=
  texts ← mapR (fun p => _ ← ok_or (from_utf8 p) e; Ok p) prefixes;
  Ok (filter (fun n => n <> []) texts).

(** ** Verifying and extracting *)
Section hash.
Context {H : Sha256} {C : Type}.

Definition verification {A} (m : verification_message) : res ContractError A := Err (Verification m).

(** [read_exact_entry] *)
Definition read_exact_entry (reads : list (option (list Z))) (expected_size : Z)
  : res ContractError (list Z) :=
  _ ← refuse (MAX_METADATA_BYTES <? expected_size) (Verification MetadataTooLarge);
  read_limit ← ok_or (checked_add u64_max expected_size 1) (Verification MetadataTooLarge);
  output ← ok_or (stream (take_reader read_limit reads)) (Verification MetadataUnreadable);
  _ ← refuse (negb (len output =? expected_size)) (Verification MetadataTruncated);
  Ok output.

(** The loop of [hash_entry_with_output]; [sink] is the output file, if any. *)
Fixpoint hash_entry_loop (sink : option (list Z -> SR C ContractError unit)) (needles : list (list Z))
    (expected_size : Z) (reads : list (option (list Z))) (overlap absorbed : list Z) (read_total : Z)
  : SR C ContractError (list Z) :=
  let finish :=
    _ ← lift (refuse (negb (read_total =? expected_size)) (Verification FileTruncated));
    mret (sha256_bytes absorbed) in
  match reads with
  | [] => finish
  | None :: _ => fail (Verification UnreadableFile)
  | Some chunk :: reads =>
    if len chunk =? 0 then finish
    else
      read_total ← lift (ok_or (checked_add u64_max read_total (len chunk)) (Verification FileCountOverflow));
      _ ← lift (refuse (expected_size <? read_total) (Verification FileExceedsSize));
      _ ← match sink with Some write => write chunk | None => mret tt end;
      if bool_decide (needles = []) then
        hash_entry_loop sink needles expected_size reads overlap (absorbed ++ chunk) read_total
      else
        let scan := overlap ++ chunk in
        _ ← lift (refuse (any_needle needles scan) (Verification ForbiddenPrefix));
        hash_entry_loop sink needles expected_size reads (keep_overlap needles scan)
          (absorbed ++ chunk) read_total
  end.
Definition hash_entry_with_output (reads : list (option (list Z))) (expected_size : Z)
    (forbidden_prefixes : list (list Z)) (sink : option (list Z -> SR C ContractError unit))
  : SR C ContractError (list Z) :=
  needles ← lift (prefix_needles (Verification PrefixNotUtf8) forbidden_prefixes);
  hash_entry_loop sink needles expected_size reads [] [] 0.
End hash.

(** ** Packaging: [scan_file] on the results of its reads *)
Fixpoint scan_reads (needles : list (list Z)) (reads : list (option (list Z))) (overlap : list Z)
  : res ContractError bool :=
  match reads with
  | [] => Ok false
  | None :: _ => Err (Package CannotScanFile)
  | Some chunk :: reads =>
    if len chunk =? 0 then Ok false
    else
      let content := overlap ++ chunk in
      if any_needle needles content then Ok true
      else scan_reads needles reads (keep_overlap needles content)
  end.

(** ** Chunks do not matter *)
Lemma contains_str_true needle s : contains_str needle s = true <-> exists x y, s = x ++ needle ++ y.
Proof.
  induction s as [|c s IH]; cbn [contains_str].
  - rewrite orb_false_r, starts_with_true. split.
    + intros [r E]. exists [], r. done.
    + intros (x & y & E). symmetry in E. apply app_nil in E as [-> E]. by exists y.
  - rewrite orb_true_iff, starts_with_true, IH. split.
    + intros [[r E]|(x & y & ->)]; [by exists [], r|by exists (c :: x), y].
    + intros ([|c' x] & y & E); [left; by exists y|]. injection E as -> ->. right. by exists x, y.
Qed.

Lemma any_needle_true needles s :
  any_needle needles s = true <-> exists n x y, n ∈ needles /\ s = x ++ n ++ y.
Proof.
  unfold any_needle. rewrite existsb_exists. setoid_rewrite contains_str_true.
  setoid_rewrite <- list_elem_of_In. naive_solver.
Qed.

Lemma any_needle_app needles a b : any_needle needles b = true -> any_needle needles (a ++ b) = true.
Proof.
  rewrite !any_needle_true. intros (n & x & y & Hn & ->). exists n, (a ++ x), y. by rewrite <- app_assoc.
Qed.

Lemma any_needle_app_l needles a b : any_needle needles a = true -> any_needle needles (a ++ b) = true.
Proof.
  rewrite !any_needle_true. intros (n & x & y & Hn & ->). exists n, x, (y ++ b). by rewrite <- !app_assoc.
Qed.

Lemma max_overlap_bound needles n : n ∈ needles -> len n - 1 <= max_overlap needles.
Proof.
  unfold max_overlap. destruct needles as [|m ms]; [by intros ?%elem_of_nil|]. intros Hn.
  enough (len n <= foldr (fun x k => Z.max (len x) k) (len m) ms) by lia.
  assert (len m <= foldr (fun x k => Z.max (len x) k) (len m) ms) as Hm by (clear; induction ms as [|? ? IH]; cbn [foldr]; lia).
  apply elem_of_cons in Hn as [->|Hn]; [done|]. clear Hm.
  induction ms as [|m' ms IH]; [by apply elem_of_nil in Hn|]. cbn [foldr].
  apply elem_of_cons in Hn as [->|Hn]; [lia|]. specialize (IH Hn). lia.
Qed.

Lemma max_overlap_nonneg needles : Forall (fun n => n <> []) needles -> 0 <= max_overlap needles.
Proof.
  destruct needles as [|n ns]; [by vm_compute|]. intros [Hn _]%Forall_cons.
  pose proof (max_overlap_bound (n :: ns) n (list_elem_of_here _ _)).
  destruct n; [done|]. rewrite len_cons in H. pose proof (len_nonneg n). lia.
Qed.

(** The overlap is a suffix, long enough for every needle that is not yet
    complete. *)
Lemma any_needle_overlap needles seen chunk : Forall (fun n => n <> []) needles ->
  any_needle needles seen = false ->
  any_needle needles (seen ++ chunk) = any_needle needles (keep_overlap needles seen ++ chunk).
Proof.
  intros Hne Hseen. apply eq_iff_eq_true. split; [|].
  - rewrite !any_needle_true. intros (n & x & y & Hn & E).
    pose proof (max_overlap_bound _ _ Hn) as Hmax. pose proof (max_overlap_nonneg _ Hne) as H0.
    pose proof (len_nonneg seen). pose proof (len_nonneg x).
    unfold keep_overlap. set (k := Z.to_nat _).
    assert (k <= length seen)%nat as Hk by (unfold k, len; lia).
    destruct (decide (length x + length n <= length seen)%nat) as [Hin|Hout].
    { exfalso. apply not_true_iff_false in Hseen. apply Hseen, any_needle_true.
      exists n, x, (take (length seen - length x - length n) y). split; [done|].
      apply (f_equal (take (length seen))) in E. rewrite take_app_length in E. etrans; [exact E|].
      rewrite !take_app, (take_ge x), (take_ge n) by lia. done. }
    assert (k <= length x)%nat as Hkx by (unfold k, len in *; lia).
    exists n, (drop k x), y. split; [done|].
    apply (f_equal (drop k)) in E. rewrite !drop_app in E.
    replace (k - length seen)%nat with O in E by lia. replace (k - length x)%nat with O in E by lia.
    by rewrite !drop_0 in E.
  - intros Hk. rewrite <- (take_drop (Z.to_nat (len seen - Z.min (max_overlap needles) (len seen))) seen), <- app_assoc.
    by apply any_needle_app.
Qed.

(** Cutting the overlap twice is cutting it once. *)
Lemma keep_overlap_app needles seen chunk : Forall (fun n => n <> []) needles ->
  keep_overlap needles (keep_overlap needles seen ++ chunk) = keep_overlap needles (seen ++ chunk).
Proof.
  intros Hne. pose proof (max_overlap_nonneg _ Hne) as H0. unfold keep_overlap.
  set (m := max_overlap needles) in *. rewrite !len_app.
  assert (len (drop (Z.to_nat (len seen - Z.min m (len seen))) seen) = Z.min m (len seen)) as E.
  { rewrite len_drop; pose proof (len_nonneg seen); lia. }
  rewrite E. set (k := Z.to_nat (len seen - Z.min m (len seen))) in *. rewrite !drop_app.
  assert (len seen = Z.of_nat (length seen)) as Hs by done. assert (len chunk = Z.of_nat (length chunk)) as Hc by done.
  assert (length (drop k seen) = Z.to_nat (Z.min m (len seen))) as Hl by (pose proof (len_nonneg seen); unfold len in *; lia).
  rewrite drop_drop. f_equal; f_equal; unfold k in *; lia.
Qed.

(** What has been found once stays found. *)
Lemma any_needle_mono needles a b : any_needle needles (a ++ b) = false -> any_needle needles a = false.
Proof. intros H. apply not_true_iff_false. intros E%(any_needle_app_l _ _ b). congruence. Qed.

Lemma any_needle_nil needles : Forall (fun n => n <> []) needles -> any_needle needles [] = false.
Proof.
  intros Hne. apply not_true_iff_false. rewrite any_needle_true. intros (n & x & y & Hn & E).
  rewrite Forall_forall in Hne. apply (Hne n Hn). symmetry in E. apply app_nil in E as [_ E]. by apply app_nil in E as [-> _].
Qed.

Lemma filter_nonempty texts : Forall (fun n : list Z => n <> []) (filter (fun n => n <> []) texts).
Proof. apply Forall_forall. intros n [Hn _]%list_elem_of_filter. done. Qed.

Lemma mapR_id {E A} (f : A -> res E A) l : (forall a b, f a = Ok b -> b = a) -> forall l', mapR f l = Ok l' -> l' = l.
Proof.
  intros Hf. induction l as [|a l IH]; cbn; intros l' H'; inv_ok; [done|]. f_equal; eauto.
Qed.

Lemma prefix_needles_Ok {E} (e : E) prefixes needles : prefix_needles e prefixes = Ok needles ->
  needles = filter (fun n => n <> []) prefixes /\ Forall (fun n => n <> []) needles.
Proof.
  unfold prefix_needles. intros H. inv_ok. split; [|apply filter_nonempty]. f_equal.
  eapply mapR_id; [|done]. intros a b Hab. cbn in Hab. by inv_ok.
Qed.

Lemma prefix_needles_utf8 {E} (e : E) prefixes : forallb (fun p => bool_decide (is_Some (from_utf8 p))) prefixes = true ->
  prefix_needles e prefixes = Ok (filter (fun n => n <> []) prefixes).
Proof.
  intros Hp. unfold prefix_needles. enough (mapR (fun p => _ ← ok_or (from_utf8 p) e; Ok p) prefixes = Ok prefixes) as -> by done.
  induction prefixes as [|p ps IH]; [done|]. cbn in Hp. apply andb_true_iff in Hp as [ [t Ht]%bool_decide_eq_true Hps].
  cbn [mapR]. rewrite Ht. cbn. by rewrite IH.
Qed.

Lemma prefix_needles_all_utf8 {E} (e : E) prefixes needles : prefix_needles e prefixes = Ok needles ->
  forallb (fun p => bool_decide (is_Some (from_utf8 p))) prefixes = true.
Proof.
  unfold prefix_needles. intros (texts & Hm & _)%bind_Ok. revert texts Hm. induction prefixes as [|p ps IH]; intros texts; [done|]. cbn [mapR].
  intros (t & (u & Hu%ok_or_Ok & _)%bind_Ok & (ts & Hts & _)%bind_Ok)%bind_Ok. cbn. by rewrite Hu, (IH _ Hts).
Qed.

(** [scan_file] answers for the whole file, however it is read. *)
Lemma keep_overlap_nil needles : keep_overlap needles [] = [].
Proof. unfold keep_overlap. by rewrite drop_nil. Qed.

Lemma keep_overlap_no_needles s : keep_overlap [] s = [].
Proof.
  unfold keep_overlap. apply drop_ge. change (max_overlap []) with 0.
  pose proof (len_nonneg s). unfold len in *. lia.
Qed.

Lemma stream_chunk ch reads : ch <> [] -> stream (Some ch :: reads) = app ch <$> stream reads.
Proof. by destruct ch. Qed.

Lemma len_chunk {A} (ch : list A) : (len ch =? 0) = bool_decide (ch = []).
Proof. destruct ch; [done|]. rewrite bool_decide_eq_false_2 by done. apply Z.eqb_neq. rewrite len_cons. pose proof (len_nonneg ch). lia. Qed.

Lemma scan_reads_from needles reads : Forall (fun n => n <> []) needles -> forall seen content,
  any_needle needles seen = false -> stream reads = Some content ->
  scan_reads needles reads (keep_overlap needles seen) = Ok (any_needle needles (seen ++ content)).
Proof.
  intros Hne. induction reads as [|[ch|] reads IH]; intros seen content Hseen; [| |done].
  { intros [= <-]. by rewrite app_nil_r, Hseen. }
  cbn [scan_reads]. rewrite len_chunk. case_bool_decide as Hch.
  { subst ch. intros [= <-]. by rewrite app_nil_r, Hseen. }
  rewrite stream_chunk by done. intros (rest & Hrest & ->)%fmap_Some. cbv zeta.
  rewrite <- any_needle_overlap by done. rewrite app_assoc.
  destruct (any_needle needles (seen ++ ch)) eqn:Hf; [by rewrite (any_needle_app_l _ _ _ Hf)|].
  rewrite keep_overlap_app by done. by apply IH.
Qed.

Lemma scan_reads_exact needles reads content : Forall (fun n => n <> []) needles ->
  stream reads = Some content -> scan_reads needles reads [] = Ok (any_needle needles content).
Proof.
  intros Hne Hs. rewrite <- (keep_overlap_nil needles).
  by rewrite (scan_reads_from needles reads Hne [] content) by (by try apply any_needle_nil).
Qed.

(** ** The hashing loop

    [abs data s] is the state in which the output holds [data]. *)
Section hash_loop.
Context {H : Sha256} {C : Type} (sink : option (list Z -> SR C ContractError unit)) (needles : list (list Z)).
Context (Hne : Forall (fun n => n <> []) needles).

Definition write_to (chunk : list Z) : SR C ContractError unit :=
  match sink with Some write => write chunk | None => mret tt end.

Lemma hash_finish expected absorbed total (s : C) d s' :
  (_ ← lift (refuse (negb (total =? expected)) (Verification FileTruncated)); mret (sha256_bytes absorbed)) s = (Ok d, s') <->
  total = expected /\ d = sha256_bytes absorbed /\ s' = s.
Proof.
  rewrite SR_bind_Ok. setoid_rewrite lift_Ok. setoid_rewrite refuse_Ok. setoid_rewrite negb_false_iff.
  setoid_rewrite Z.eqb_eq. unfold mret, SR_ret. naive_solver.
Qed.

Lemma hash_entry_loop_Ok (abs : list Z -> C) expected reads :
  (forall data chunk s', write_to chunk (abs data) = (Ok tt, s') -> s' = abs (data ++ chunk)) ->
  forall absorbed d s', any_needle needles absorbed = false ->
  hash_entry_loop sink needles expected reads (keep_overlap needles absorbed) absorbed (len absorbed) (abs absorbed) = (Ok d, s') ->
  exists content, stream reads = Some content /\ len (absorbed ++ content) = expected /\
    any_needle needles (absorbed ++ content) = false /\ d = sha256_bytes (absorbed ++ content) /\
    s' = abs (absorbed ++ content).
Proof.
  intros Hw. induction reads as [|[ch|] reads IH]; intros absorbed d s' Hab; cbn [hash_entry_loop].
  { intros (Hl & -> & ->)%hash_finish. exists []. rewrite app_nil_r. done. }
  2: done.
  rewrite len_chunk. case_bool_decide as Hch.
  { subst ch. intros (Hl & -> & ->)%hash_finish. exists []. rewrite app_nil_r. done. }
  rewrite stream_chunk by done.
  intros (total & s1 & [Ht ->]%lift_Ok & Hrun)%SR_bind_Ok. apply ok_or_Ok, checked_add_Some in Ht as [-> _].
  apply SR_bind_Ok in Hrun as ([] & s1 & [_ ->]%lift_Ok & Hrun).
  apply SR_bind_Ok in Hrun as ([] & s1 & ->%Hw & Hrun). rewrite <- len_app in Hrun.
  assert (any_needle needles (absorbed ++ ch) = false /\
    hash_entry_loop sink needles expected reads (keep_overlap needles (absorbed ++ ch)) (absorbed ++ ch)
      (len (absorbed ++ ch)) (abs (absorbed ++ ch)) = (Ok d, s')) as [Hn Hrun'].
  { case_bool_decide as Hnil.
    - rewrite Hnil in *. rewrite !keep_overlap_no_needles in *. done.
    - apply SR_bind_Ok in Hrun as ([] & s1 & [Hr%refuse_Ok ->]%lift_Ok & Hrun).
      rewrite <- any_needle_overlap in Hr by done. split; [done|]. by rewrite <- keep_overlap_app. }
  destruct (IH _ _ _ Hn Hrun') as (rest & Hs & Hl & Hany & -> & ->).
  exists (ch ++ rest). rewrite Hs, app_assoc. done.
Qed.

Lemma hash_entry_loop_complete (abs : list Z -> C) expected reads :
  (forall data chunk, write_to chunk (abs data) = (Ok tt, abs (data ++ chunk))) -> expected <= u64_max ->
  forall absorbed content, any_needle needles (absorbed ++ content) = false ->
  stream reads = Some content -> len (absorbed ++ content) = expected ->
  hash_entry_loop sink needles expected reads (keep_overlap needles absorbed) absorbed (len absorbed) (abs absorbed) =
    (Ok (sha256_bytes (absorbed ++ content)), abs (absorbed ++ content)).
Proof.
  intros Hw Hmax. induction reads as [|[ch|] reads IH]; intros absorbed content Hab; cbn [hash_entry_loop]; [| |done].
  { intros [= <-]. rewrite app_nil_r. intros Hl. by apply hash_finish. }
  rewrite len_chunk. case_bool_decide as Hch.
  { subst ch. intros [= <-]. rewrite app_nil_r. intros Hl. by apply hash_finish. }
  rewrite stream_chunk by done. intros (rest & Hrest & ->)%fmap_Some. rewrite app_assoc in *. intros Hl.
  pose proof (any_needle_mono _ _ _ Hab) as Hpre.
  assert (len (absorbed ++ ch) <= expected) as Hle by (rewrite <- Hl, (len_app (absorbed ++ ch)); pose proof (len_nonneg rest); lia).
  rewrite len_app in Hle.
  apply SR_bind_Ok. eexists _, _. split; [apply lift_Ok; split; [apply ok_or_Ok, checked_add_Some; split; [done|lia]|done]|].
  apply SR_bind_Ok. eexists tt, _. split; [apply lift_Ok; split; [apply refuse_Ok, Z.ltb_ge; lia|done]|].
  apply SR_bind_Ok. eexists tt, _. split; [apply Hw|]. rewrite <- len_app. specialize (IH _ _ Hab Hrest Hl).
  case_bool_decide as Hnil.
  - rewrite Hnil in *. rewrite keep_overlap_no_needles in *. done.
  - apply SR_bind_Ok. eexists tt, _. split; [apply lift_Ok; split; [|done]|].
    + apply refuse_Ok. by rewrite <- any_needle_overlap by (done || eapply any_needle_mono, Hpre).
    + by rewrite keep_overlap_app.
Qed.

(** An accepted size is a 64-bit number. *)
Lemma hash_entry_loop_bound expected reads : forall overlap absorbed total s d s', total <= u64_max ->
  hash_entry_loop sink needles expected reads overlap absorbed total s = (Ok d, s') -> expected <= u64_max.
Proof.
  induction reads as [|[ch|] reads IH]; intros overlap absorbed total s d s' Ht; cbn [hash_entry_loop]; [by intros (<- & _)%hash_finish| |done].
  destruct (_ =? 0); [by intros (<- & _)%hash_finish|].
  intros (total' & s1 & [Hadd%ok_or_Ok%checked_add_Some ->]%lift_Ok & Hrun)%SR_bind_Ok.
  apply SR_bind_Ok in Hrun as (_ & s1 & [_ ->]%lift_Ok & Hrun). apply SR_bind_Ok in Hrun as (_ & s1 & _ & Hrun).
  assert (total' <= u64_max) by lia. case_bool_decide; [by eapply IH|]. apply SR_bind_Ok in Hrun as (_ & s2 & [_ ->]%lift_Ok & Hrun). by eapply IH.
Qed.
End hash_loop.
