(* ===== verification/TarWriter.v ===== *)
(** * TarWriter: the bytes of a package archive

    Models the tar half of [crates/aros-toolchain/src/package.rs]: numeric and
    text fields, header blocks with their checksum, PAX records and padding.  The
    writer is the list of bytes it has accepted; [accepts n] says whether the
    encoder below it takes [n] bytes in all. *)

From S2P Require Import Prelude Text Digest PayloadPath ArchiveTypes.

Section writer.
Variable accepts : Z -> bool.

Definition package {A} (m : package_message) : res ContractError A := Err (Package m).

(** [Write::write_all] on a [CountingWriter], whose count is the length. *)
Definition write_all (m : package_message) (output bytes : list Z) : res ContractError (list Z) :=
  _ ← refuse (negb (accepts (len output + len bytes))) (Package m);
  _ ← ok_or (checked_add u64_max (len output) (len bytes)) (Package m);
  Ok (output ++ bytes).

(** [write_tar_string]: one byte per character, [?] for those that are not
    ASCII; what does not fit is dropped. *)
Fixpoint write_tar_string (field value : list Z) : list Z :=
  match value, field with
  | [], _ => field
  | _ :: _, [] => []
  | character :: value, _ :: field =>
    (if in_range 0 127 character then character else 63) :: write_tar_string field value
  end.

(** [format!("{value:0width$o}")] *)
Fixpoint oct_digits (fuel : nat) (v : Z) (acc : list Z) : list Z :=
  match fuel with
  | O => acc
  | S fuel => let acc := (48 + v mod 8) :: acc in
              if v <? 8 then acc else oct_digits fuel (v / 8) acc
  end.
Definition format_octal (width v : Z) : list Z :=
  let digits := oct_digits (S (Z.to_nat (Z.log2 v))) v [] in
  fill (width - len digits) 48 ++ digits.

(** [write_tar_octal] *)
Definition write_tar_octal (h : list Z) (a b value : Z) : res ContractError (list Z) :=
  digits ← ok_or (checked_sub (b - a) 1) (Package UnrepresentableMetadata);
  _ ← refuse (8 ^ digits <=? value) (Package UnrepresentableMetadata);
  or_stuck (copy_at h a b (format_octal digits value ++ [0])).

Definition put_string (h : list Z) (a b : Z) (value : list Z) : res ContractError (list Z) :=
  field ← or_stuck (get_range h a b);
  or_stuck (copy_at h a b (write_tar_string field value)).

(** [write_tar_header] *)
Definition tar_header (name : list Z) (mode uid gid size mtime kind : Z) (target : list Z)
  : res ContractError (list Z) :=
  let h := fill 512 0 in
  h ← put_string h 0 100 name;
  h ← write_tar_octal h 100 108 mode;
  h ← write_tar_octal h 108 116 uid;
  h ← write_tar_octal h 116 124 gid;
  h ← write_tar_octal h 124 136 size;
  h ← write_tar_octal h 136 148 mtime;
  h ← or_stuck (copy_at h 148 156 (fill 8 32));
  h ← or_stuck (copy_at h 156 157 [kind]);
  h ← put_string h 157 257 target;
  h ← or_stuck (copy_at h 257 265 (rs "ustar" ++ [0] ++ rs "00"));
  let checksum := foldr Z.add 0 h in
  or_stuck (copy_at h 148 155 (format_octal 6 checksum ++ [0])).
Definition write_tar_header (output name : list Z) (mode uid gid size mtime kind : Z) (target : list Z)
  : res ContractError (list Z) :=
  h ← tar_header name mode uid gid size mtime kind target;
  write_all CannotWriteHeader output h.

(** [write_tar_padding] *)
Definition write_tar_padding (output : list Z) (size : Z) : res ContractError (list Z) :=
  let remainder := size mod 512 in
  if remainder =? 0 then Ok output else write_all CannotPad output (fill (512 - remainder) 0).

(** [write_tar_payload] *)
Definition write_tar_payload (output payload : list Z) : res ContractError (list Z) :=
  output ← write_all CannotWritePayload output payload;
  write_tar_padding output (len payload).

(** [copy_tar_payload]: [io::copy] to the end of the file, then a size check. *)
Definition copy_tar_payload (output : list Z) (input : list (option (list Z))) (size : Z)
  : res ContractError (list Z) :=
  content ← ok_or (stream input) (Package CannotCopyPayload);
  output ← write_all CannotCopyPayload output content;
  _ ← refuse (negb (len content =? size)) (Package StagedFileChanged);
  write_tar_padding output size.

(** [decimal_digits] *)
Fixpoint decimal_digits_from (fuel : nat) (value digits : Z) : Z :=
  match fuel with
  | O => digits
  | S fuel => if 10 <=? value then decimal_digits_from fuel (value / 10) (digits + 1) else digits
  end.
Definition decimal_digits (value : Z) : Z := decimal_digits_from (S (Z.to_nat (Z.log2 value))) value 1.

(** The loop of [append_pax_record]: a record's length counts its own digits. *)
Fixpoint record_length (fuel : nat) (base length : Z) : res ContractError Z :=
  match fuel with
  | O => Stuck
  | S fuel =>
    next ← ok_or (checked_add usize_max base (decimal_digits length)) (Package RecordTooLarge);
    if next =? length then Ok length else record_length fuel base next
  end.
Definition RECORD_LENGTH_FUEL : nat := 21.

(** [append_pax_record] *)
Definition append_pax_record (output key value : list Z) : res ContractError (list Z) :=
  keyed ← ok_or (checked_add usize_max (len key) (len value)) (Package RecordTooLarge);
  base ← ok_or (checked_add usize_max keyed 3) (Package RecordTooLarge);
  first ← or_stuck (checked_add usize_max base 1);
  length ← record_length RECORD_LENGTH_FUEL base first;
  Ok (output ++ show_dec length ++ rs " " ++ key ++ rs "=" ++ value ++ [10]).

(** [write_pax_entry] *)
Definition pax_extensions (name : list Z) (kind : Z) (target : list Z) : list (list Z * list Z) :=
  (if negb (forallb (in_range 0 127) name) || (100 <? str_len name) then [(rs "path", utf8 name)] else []) ++
  (if (kind =? 50) && (negb (forallb (in_range 0 127) target) || (100 <? str_len target))
   then [(rs "linkpath", utf8 target)] else []).
Definition append_extension (records : list Z) (extension : list Z * list Z) : res ContractError (list Z) :=
  append_pax_record records extension.1 extension.2.
Definition write_extensions (archive name : list Z) (kind : Z) (target : list Z)
  : res ContractError (list Z) :=
  match pax_extensions name kind target with
  | [] => Ok archive
  | extensions =>
    records ← foldM append_extension [] extensions;
    archive ← write_tar_header archive (rs "././@PaxHeader") 0 0 0 (len records) 0 120 [];
    write_tar_payload archive records
  end.
Definition write_pax_entry (archive name : list Z) (mode epoch kind : Z) (target : list Z)
    (payload : option (list (option (list Z)) * Z)) : res ContractError (list Z) :=
  let size := match payload with Some (_, size) => size | None => 0 end in
  archive ← write_extensions archive name kind target;
  archive ← write_tar_header archive name mode 0 0 size epoch kind target;
  match payload with
  | Some (file, _) => copy_tar_payload archive file size
  | None => Ok archive
  end.
End writer.

(** ** Numbers *)
Lemma decimal_digits_from_add fuel v d : decimal_digits_from fuel v d = d - 1 + decimal_digits_from fuel v 1.
Proof.
  revert v d; induction fuel as [|fuel IH]; intros v d; cbn; [lia|]. case_match; [|lia].
  rewrite (IH _ (d + 1)), (IH _ (1 + 1)). lia.
Qed.

Lemma dec_digits_count fuel v acc : 0 <= v < 10 ^ Z.of_nat fuel -> (0 < fuel)%nat ->
  len (dec_digits fuel v acc) = decimal_digits_from fuel v 1 + len acc.
Proof.
  revert v acc; induction fuel as [|fuel IH]; intros v acc Hv Hf; [lia|]. cbn [dec_digits decimal_digits_from].
  rewrite Z.ltb_antisym. destruct (10 <=? v) eqn:E; cbn [negb]; bool_prop; [|rewrite len_cons; lia].
  rewrite Nat2Z.inj_succ, Z.pow_succ_r in Hv by lia.
  rewrite IH, len_cons; [rewrite (decimal_digits_from_add _ _ (1 + 1)); lia| |].
  - split; [apply Z.div_pos; lia|apply Z.div_lt_upper_bound; lia].
  - destruct fuel; [cbn in *; lia|lia].
Qed.

(** [decimal_digits] is the length of the decimal rendering. *)
Lemma decimal_digits_spec v : 0 <= v -> decimal_digits v = len (show_dec v).
Proof.
  intros Hv. unfold show_dec, decimal_digits. case_match; bool_prop; [lia|].
  rewrite dec_digits_count, len_nil; [lia| |lia]. split; [done|].
  destruct (decide (v = 0)) as [->|]; [by vm_compute|]. apply pow10_log2. lia.
Qed.

(** [d] digits suffice exactly for the numbers below [10 ^ d]. *)
Lemma decimal_digits_from_bounds fuel v : 0 <= v < 10 ^ Z.of_nat fuel -> (0 < fuel)%nat ->
  let d := decimal_digits_from fuel v 1 in
  1 <= d /\ v < 10 ^ d /\ (1 < d -> 10 ^ (d - 1) <= v).
Proof.
  revert v; induction fuel as [|fuel IH]; intros v Hv Hf; [lia|]. cbn [decimal_digits_from].
  destruct (10 <=? v) eqn:E; bool_prop; [|cbv zeta; change (10 ^ 1) with 10; lia].
  rewrite Nat2Z.inj_succ, Z.pow_succ_r in Hv by lia.
  destruct (IH (v / 10)) as (H1 & H2 & H3).
  - split; [apply Z.div_pos; lia|apply Z.div_lt_upper_bound; lia].
  - destruct fuel; [cbn in *; lia|lia].
  - rewrite decimal_digits_from_add. set (d := decimal_digits_from fuel (v / 10) 1) in *. cbv zeta.
    replace (1 + 1 - 1 + d) with (Z.succ d) by lia. rewrite Z.pow_succ_r by lia.
    split_and!; [lia|Z.div_mod_to_equations; lia|]. intros _. replace (Z.succ d - 1) with d by lia.
    destruct (decide (1 < d)) as [Hd|Hd].
    + specialize (H3 Hd). replace d with (Z.succ (d - 1)) by lia. rewrite Z.pow_succ_r by lia.
      Z.div_mod_to_equations; lia.
    + replace d with 1 by lia. change (10 ^ 1) with 10. lia.
Qed.

Lemma decimal_digits_bounds v : 0 <= v ->
  1 <= decimal_digits v /\ v < 10 ^ decimal_digits v /\ (1 < decimal_digits v -> 10 ^ (decimal_digits v - 1) <= v).
Proof.
  intros Hv. apply decimal_digits_from_bounds; [|lia]. split; [done|].
  destruct (decide (v = 0)) as [->|]; [by vm_compute|]. apply pow10_log2. lia.
Qed.

Lemma decimal_digits_mono v w : 0 <= v <= w -> decimal_digits v <= decimal_digits w.
Proof.
  intros Hv. destruct (decimal_digits_bounds v) as (H1 & _ & H2); [lia|].
  destruct (decimal_digits_bounds w) as (H3 & H4 & _); [lia|].
  destruct (decide (decimal_digits v <= decimal_digits w)) as [|Hgt]; [done|exfalso].
  specialize (H2 ltac:(lia)).
  assert (10 ^ decimal_digits w <= 10 ^ (decimal_digits v - 1)) by (apply Z.pow_le_mono_r; lia). lia.
Qed.

Lemma decimal_digits_usize v : 0 <= v <= usize_max -> decimal_digits v <= 20.
Proof.
  intros Hv. etrans; [apply (decimal_digits_mono v usize_max); lia|]. by vm_compute.
Qed.

(** ** The length of a PAX record is found

    Every round counts at least one digit more than the last, and no length has
    more than twenty. *)
Lemma record_length_Ok fuel base l : 0 <= base -> base + 20 <= usize_max ->
  1 <= l - base <= decimal_digits l -> l - base <= 20 -> (Z.to_nat (20 - (l - base)) < fuel)%nat ->
  exists n, record_length fuel base l = Ok n /\ n = base + decimal_digits n /\ base < n.
Proof.
  intros Hb Hmax. revert l. induction fuel as [|fuel IH]; intros l Hl H2 Hf; [lia|]. cbn [record_length].
  assert (decimal_digits l <= 20) as H20 by (apply decimal_digits_usize; lia).
  unfold checked_add. rewrite (proj2 (Z.leb_le _ _)) by lia. cbn [ok_or mbind res_bind].
  destruct (Z.eqb_spec (base + decimal_digits l) l) as [E|Hne].
  { exists l. split; [done|]. split; [done|lia]. }
  apply IH.
  - split; [lia|]. assert (decimal_digits l <= decimal_digits (base + decimal_digits l)); [|lia].
    apply decimal_digits_mono. lia.
  - lia.
  - lia.
Qed.

(** The record [append_pax_record] writes, whose number is its own length. *)
Definition pax_record (key value : list Z) (n : Z) : list Z :=
  show_dec n ++ rs " " ++ key ++ rs "=" ++ value ++ [10].

Lemma append_pax_record_Ok output key value : len key + len value + 24 <= usize_max ->
  exists n, append_pax_record output key value = Ok (output ++ pax_record key value n) /\
    len (pax_record key value n) = n /\ len key + len value + 3 < n <= len key + len value + 23.
Proof.
  intros Hmax. pose proof (len_nonneg key). pose proof (len_nonneg value).
  set (base := len key + len value + 3).
  assert (1 <= decimal_digits (base + 1)) as Hd by (apply decimal_digits_bounds; lia).
  destruct (record_length_Ok RECORD_LENGTH_FUEL base (base + 1)) as (n & Hn & En & Hlt);
    [lia..|unfold RECORD_LENGTH_FUEL; lia|].
  assert (n <= base + 20) as Hub.
  { destruct (decide (n <= usize_max)) as [Hle|Hgt]; [pose proof (decimal_digits_usize n); lia|].
    exfalso. revert Hn. clear -Hgt. generalize RECORD_LENGTH_FUEL (base + 1). intros fuel.
    induction fuel as [|fuel IH]; intros l; cbn [record_length]; [done|].
    intros (next & Hnext & H')%bind_Ok. apply ok_or_Ok, checked_add_Some in Hnext as [-> Hb].
    case_match; bool_prop; [injection H' as <-; lia|]. by apply IH in H'. }
  exists n. split_and!; [| |lia..].
  - unfold append_pax_record.
    step_by ltac:(apply ok_or_Ok, checked_add_Some; split; [done|lia]).
    step_by ltac:(apply ok_or_Ok, checked_add_Some; split; [done|lia]).
    step_by ltac:(apply or_stuck_Ok, checked_add_Some; split; [done|lia]).
    step_by ltac:(exact Hn). done.
  - unfold pax_record. rewrite !len_app, <- decimal_digits_spec by lia. unfold base in En.
    change (len (rs " ")) with 1. change (len (rs "=")) with 1. change (len [10]) with 1. lia.
Qed.

(** ** Octal fields *)
Lemma to_digit_oct d : 0 <= d < 8 -> to_digit 8 (48 + d) = Some d.
Proof.
  intros. unfold to_digit, is_ascii_digit.
  rewrite (proj2 (in_range_true _ _ _)) by lia. case_match; bool_prop; [f_equal; lia|lia].
Qed.

Lemma oct_digits_spec fuel v acc : 0 <= v < 8 ^ Z.of_nat fuel -> (0 < fuel)%nat ->
  exists ds, oct_digits fuel v acc = ds ++ acc /\ Forall (fun c => 48 <= c < 56) ds /\
    (forall a, digits_value 8 a ds = Some (a * 8 ^ len ds + v)) /\ (forall w, 0 < w -> v < 8 ^ w -> len ds <= w).
Proof.
  revert v acc; induction fuel as [|fuel IH]; intros v acc Hv Hf; [lia|]. cbn [oct_digits].
  pose proof (Z.mod_pos_bound v 8 ltac:(lia)). destruct (v <? 8) eqn:E; bool_prop.
  { exists [48 + v mod 8]. split_and!; [done|by repeat constructor; lia| |].
    - intros a. cbn [digits_value]. rewrite to_digit_oct by lia. cbn. f_equal.
      rewrite Z.mod_small by lia. change (8 ^ len [48 + v]) with 8. lia.
    - intros w Hw _. change (len [48 + v mod 8]) with 1. lia. }
  rewrite Nat2Z.inj_succ, Z.pow_succ_r in Hv by lia.
  destruct (IH (v / 8) ((48 + v mod 8) :: acc)) as (ds & -> & Hds & Hval & Hw).
  - split; [apply Z.div_pos; lia|apply Z.div_lt_upper_bound; lia].
  - destruct fuel; [cbn in *; lia|lia].
  - exists (ds ++ [48 + v mod 8]). rewrite <- app_assoc. split_and!; [done| | |].
    + apply Forall_app. split; [done|]. constructor; [lia|constructor].
    + intros a. assert (forall l x b, digits_value 8 b (l ++ [x]) =
        (y ← digits_value 8 b l; d ← to_digit 8 x; Some (y * 8 + d))) as Happ.
      { induction l as [|c l IHl]; intros x b; [done|]. cbn [app digits_value].
        destruct (to_digit 8 c); [|done]. cbn. apply IHl. }
      rewrite Happ, Hval. cbn. rewrite to_digit_oct by lia. cbn. f_equal.
      rewrite len_app. change (len [48 + v mod 8]) with 1. rewrite Z.pow_add_r by (pose proof (len_nonneg ds); lia).
      change (8 ^ 1) with 8. pose proof (Z.div_mod v 8). lia.
    + intros w Hw' Hlt. rewrite len_app. change (len [48 + v mod 8]) with 1.
      destruct (decide (w = 1)) as [->|]; [change (8 ^ 1) with 8 in Hlt; lia|].
      assert (len ds <= w - 1); [|lia]. apply Hw; [lia|]. apply Z.div_lt_upper_bound; [lia|].
      rewrite <- Z.pow_succ_r by lia. by replace (Z.succ (w - 1)) with w by lia.
Qed.

Lemma pow8_log2 v : 0 < v -> v < 8 ^ Z.of_nat (S (Z.to_nat (Z.log2 v))).
Proof.
  intros Hv. pose proof (Z.log2_nonneg v). destruct (Z.log2_spec v Hv) as [_ Hlt].
  rewrite Nat2Z.inj_succ, Z2Nat.id by done.
  eapply Z.lt_le_trans; [exact Hlt|]. apply Z.pow_le_mono_l. lia.
Qed.

(** [n] octal digits of value [v]. *)
Definition octal_field (ds : list Z) (n v : Z) : Prop :=
  len ds = n /\ Forall (fun c => 48 <= c < 56) ds /\ digits_value 8 0 ds = Some v.

Lemma format_octal_spec width v : 0 <= v < 8 ^ width -> 0 < width ->
  octal_field (format_octal width v) width v.
Proof.
  intros Hv Hw. unfold format_octal.
  destruct (oct_digits_spec (S (Z.to_nat (Z.log2 v))) v []) as (ds & -> & Hds & Hval & Hlen); [|lia|].
  { split; [lia|]. destruct (decide (v = 0)) as [->|]; [by vm_compute|]. apply pow8_log2. lia. }
  rewrite app_nil_r. specialize (Hlen width Hw ltac:(lia)). split_and!.
  - rewrite len_app, len_fill by lia. lia.
  - apply Forall_app. split; [|done]. unfold fill. apply Forall_replicate. lia.
  - unfold fill. generalize (Z.to_nat (width - len ds)). intros n.
    induction n as [|n IH]; cbn [replicate app digits_value]; [by rewrite Hval|].
    change (to_digit 8 48) with (Some 0). cbn. exact IH.
Qed.

(** ** Header blocks *)
Lemma write_tar_string_len field value : length (write_tar_string field value) = length field.
Proof. revert field; induction value as [|c value IH]; intros [|f field]; cbn; auto. Qed.

Definition name_field (n : Z) (value : list Z) : list Z := write_tar_string (fill n 0) value.

Lemma name_field_len n value : 0 <= n -> len (name_field n value) = n.
Proof. intros. unfold len, name_field. rewrite write_tar_string_len. fold (len (fill n 0)). by rewrite len_fill. Qed.

Lemma name_field_u8 n value : Forall (fun c => 0 <= c) value -> Forall is_u8 (name_field n value).
Proof.
  unfold name_field, fill. generalize (Z.to_nat n). intros k Hv. revert k.
  induction Hv as [|c value Hc Hv IH]; intros [|k]; cbn [replicate write_tar_string]; try by constructor.
  - constructor; [by vm_compute|]. apply Forall_replicate. by vm_compute.
  - constructor; [|apply IH]. case_match; [|by vm_compute].
    apply in_range_true in H. unfold is_u8, u8_max. lia.
Qed.

Record header_fields := mkFields {
  hf_name : list Z; hf_mode : list Z; hf_uid : list Z; hf_gid : list Z; hf_size : list Z;
  hf_mtime : list Z; hf_checksum : list Z; hf_kind : Z; hf_target : list Z;
}.
(** The layout of a ustar header without prefix, owner names and devices. *)
Definition header_block (f : header_fields) : list Z :=
  hf_name f ++ (hf_mode f ++ [0]) ++ (hf_uid f ++ [0]) ++ (hf_gid f ++ [0]) ++ (hf_size f ++ [0]) ++
  (hf_mtime f ++ [0]) ++ (hf_checksum f ++ [0]) ++ [32] ++ [hf_kind f] ++ hf_target f ++
  (rs "ustar" ++ [0] ++ rs "00") ++ fill 247 0.

Lemma copy_at_mid {A} (p old q w : list A) a b : len p = a -> len old = b - a -> len w = b - a ->
  copy_at (p ++ old ++ q) a b w = Some (p ++ w ++ q).
Proof.
  intros Hp Ho Hw. pose proof (len_nonneg p). pose proof (len_nonneg old). pose proof (len_nonneg q).
  apply copy_at_Some. rewrite !len_app. split_and!; try lia.
  unfold len in *. rewrite take_app_length' by lia. f_equal. f_equal.
  rewrite app_assoc, drop_app_length'; [done|]. rewrite length_app. lia.
Qed.

Lemma foldr_add_app l l' : foldr Z.add 0 (l ++ l') = foldr Z.add 0 l + foldr Z.add 0 l'.
Proof. induction l as [|x l IH]; cbn; lia. Qed.

Lemma foldr_add_u8 l : Forall is_u8 l -> 0 <= foldr Z.add 0 l <= 255 * len l.
Proof.
  induction 1 as [|x l Hx Hl IH]; [by vm_compute|]. rewrite len_cons. cbn.
  unfold is_u8, u8_max in Hx. lia.
Qed.

Lemma octal_u8 l : Forall (fun c => 48 <= c < 56) l -> Forall is_u8 l.
Proof. intros H. eapply Forall_impl; [exact H|]. unfold is_u8, u8_max. cbn. lia. Qed.

(** The sum that the checksum field of a block records: its own eight bytes
    count as spaces. *)
Definition block_sum (f : header_fields) : Z :=
  foldr Z.add 0 (header_block (mkFields (hf_name f) (hf_mode f) (hf_uid f) (hf_gid f) (hf_size f)
    (hf_mtime f) (fill 6 32) (hf_kind f) (hf_target f))) + 32.

Definition wf_fields (name : list Z) (mode uid gid size mtime kind : Z) (target : list Z) (f : header_fields) : Prop :=
  hf_name f = name_field 100 name /\ hf_target f = name_field 100 target /\ hf_kind f = kind /\
  octal_field (hf_mode f) 7 mode /\ octal_field (hf_uid f) 7 uid /\ octal_field (hf_gid f) 7 gid /\
  octal_field (hf_size f) 11 size /\ octal_field (hf_mtime f) 11 mtime /\ octal_field (hf_checksum f) 6 (block_sum f).

(** Writing one octal field of a block whose fields before it are [p]. *)
Lemma write_tar_octal_at p old q a b value : len p = a -> len old = b - a -> 1 < b - a ->
  0 <= value < 8 ^ (b - a - 1) ->
  exists ds, octal_field ds (b - a - 1) value /\
    write_tar_octal (p ++ old ++ q) a b value = Ok (p ++ (ds ++ [0]) ++ q).
Proof.
  intros Hp Ho Hw Hv. exists (format_octal (b - a - 1) value).
  pose proof (format_octal_spec (b - a - 1) value Hv ltac:(lia)) as Hf. split; [done|].
  unfold write_tar_octal. step_by ltac:(apply ok_or_Ok, checked_sub_Some; split; [done|lia]).
  guard_by ltac:(apply Z.leb_gt; lia). apply or_stuck_Ok, copy_at_mid; [done..|].
  destruct Hf as (Hl & _). rewrite len_app, Hl. change (len [0]) with 1. lia.
Qed.

Lemma put_string_at p q a b value : len p = a -> 0 <= b - a ->
  put_string (p ++ fill (b - a) 0 ++ q) a b value = Ok (p ++ name_field (b - a) value ++ q).
Proof.
  intros Hp Hw. unfold put_string.
  assert (len (fill (b - a) 0) = b - a) as Hl by by rewrite len_fill.
  step_by ltac:(apply or_stuck_Ok, get_range_app_mid; rewrite ?Hl; lia).
  apply or_stuck_Ok, copy_at_mid; [done..|by apply name_field_len].
Qed.

Lemma wf_fields_lens name mode uid gid size mtime kind target f :
  wf_fields name mode uid gid size mtime kind target f -> len (header_block f) = 512.
Proof.
  unfold header_block. intros (-> & -> & _ & (H1 & _) & (H2 & _) & (H3 & _) & (H4 & _) & (H5 & _) & (H6 & _)).
  rewrite !len_app, !name_field_len, H1, H2, H3, H4, H5, H6, len_fill by lia. by vm_compute.
Qed.

Definition header_ranges (mode uid gid size mtime kind : Z) : Prop :=
  0 <= mode < 8 ^ 7 /\ 0 <= uid < 8 ^ 7 /\ 0 <= gid < 8 ^ 7 /\ 0 <= size < 8 ^ 11 /\
  0 <= mtime < 8 ^ 11 /\ is_u8 kind.

(** One octal field written at the front of what is still blank: [ds] are its
    digits and [p'] names the part of the block that is done. *)
Ltac octal_step p a b value ds p' :=
  let F := fresh "F" ds in let E := fresh "E" in
  match goal with |- context [write_tar_octal (p ++ ?old ++ ?q) a b value] =>
    destruct (write_tar_octal_at p old q a b value) as (ds & F & E); [done|done|done|done|];
    rewrite E; clear E; cbn [mbind res_bind]; rewrite (app_assoc p (ds ++ [0]));
    let H := fresh "H" p' in
    assert (len (p ++ ds ++ [0]) = b) as H;
      [destruct F as (F & _); rewrite !len_app, F; change (len [0]) with 1; lia|];
    set (p' := p ++ ds ++ [0]) in *
  end.

(** [write_tar_header] writes one ustar block with its fields and checksum. *)
Lemma tar_header_Ok name mode uid gid size mtime kind target :
  header_ranges mode uid gid size mtime kind ->
  Forall (fun c => 0 <= c) name -> Forall (fun c => 0 <= c) target ->
  exists f, wf_fields name mode uid gid size mtime kind target f /\
    tar_header name mode uid gid size mtime kind target = Ok (header_block f).
Proof.
  intros (Hmode & Huid & Hgid & Hsize & Hmtime & Hkind) Hname Htarget. unfold tar_header. cbv zeta.
  change (fill 512 0) with ([] ++ fill (100 - 0) 0 ++ fill 8 0 ++ fill 8 0 ++ fill 8 0 ++ fill 12 0 ++ fill 12 0 ++
    fill 8 0 ++ fill 1 0 ++ fill (257 - 157) 0 ++ fill 8 0 ++ fill 247 0).
  rewrite put_string_at by done. cbn [mbind res_bind app]. change (100 - 0) with 100.
  set (N := name_field 100 name). assert (len N = 100) as HN by by apply name_field_len.
  octal_step N 100 108 mode m P1. octal_step P1 108 116 uid u P2. octal_step P2 116 124 gid g P3.
  octal_step P3 124 136 size z P4. octal_step P4 136 148 mtime t P5.
  rewrite (copy_at_mid P5 (fill 8 0)) by done. cbn [or_stuck mbind res_bind].
  rewrite (app_assoc P5), (copy_at_mid (P5 ++ fill 8 32) (fill 1 0)) by (rewrite ?len_app, ?HP5; done). cbn [or_stuck mbind res_bind].
  rewrite (app_assoc (P5 ++ _)), (put_string_at ((P5 ++ fill 8 32) ++ [kind])) by (rewrite ?len_app, ?HP5; done). cbn [mbind res_bind].
  change (257 - 157) with 100. set (T := name_field 100 target). assert (len T = 100) as HT by by apply name_field_len.
  rewrite (app_assoc (_ ++ [kind])), (copy_at_mid (_ ++ T) (fill 8 0)) by (rewrite ?len_app, ?HP5, ?HT; done).
  cbn [or_stuck mbind res_bind]. rewrite <- !app_assoc.
  match goal with |- context [format_octal 6 ?x] => set (sum := x) end.
  assert (0 <= sum < 8 ^ 6) as Hsum.
  { unfold sum, P5, P4, P3, P2, P1. rewrite !foldr_add_app.
    repeat match goal with F : octal_field ?ds _ _ |- _ => destruct F as (? & ?%octal_u8%foldr_add_u8 & _) end.
    pose proof (foldr_add_u8 N (name_field_u8 _ _ Hname)). pose proof (foldr_add_u8 T (name_field_u8 _ _ Htarget)).
    unfold is_u8, u8_max in Hkind. set (S1 := foldr Z.add 0 (fill 8 32)). vm_compute in S1.
    set (S2 := foldr Z.add 0 (rs "ustar")). vm_compute in S2. set (S3 := foldr Z.add 0 (0 :: rs "00")). vm_compute in S3.
    set (S4 := foldr Z.add 0 (fill 247 0)). vm_compute in S4. unfold S1, S2, S3, S4. cbn [foldr]. change (8 ^ 6) with 262144. lia. }
  pose proof (format_octal_spec 6 sum Hsum ltac:(lia)) as Fsum.
  exists (mkFields N m u g z t (format_octal 6 sum) kind T). split.
  - unfold wf_fields. cbn [hf_name hf_target hf_kind hf_mode hf_uid hf_gid hf_size hf_mtime hf_checksum].
    split_and!; try done. enough (block_sum (mkFields N m u g z t (format_octal 6 sum) kind T) = sum) as -> by done.
    unfold block_sum, header_block. cbn [hf_name hf_target hf_kind hf_mode hf_uid hf_gid hf_size hf_mtime hf_checksum].
    unfold sum, P5, P4, P3, P2, P1. change (fill 8 32) with (fill 6 32 ++ [32] ++ [32]). rewrite !foldr_add_app. cbn [foldr]. lia.
  - change (fill 8 32) with (fill 7 32 ++ [32]). rewrite <- (app_assoc (fill 7 32)).
    destruct Fsum as (Fl & _).
    rewrite (copy_at_mid P5 (fill 7 32)) by (rewrite ?len_app, ?Fl; done). cbn [or_stuck]. f_equal.
    unfold header_block. cbn [hf_name hf_target hf_kind hf_mode hf_uid hf_gid hf_size hf_mtime hf_checksum].
    unfold P5, P4, P3, P2, P1. by rewrite <- !app_assoc.
Qed.
