(* ===== verification/TarReader.v ===== *)
(** * TarReader: header blocks and PAX records of a package archive, read back

    Models the checks of [crates/aros-toolchain/src/package_verify/raw_tar.rs] on
    one raw header and on the records of a PAX extension, and states as the class
    [TarXzLaws] what the crates tar and xz2 document for ustar archives.  The
    theorems of the scan itself do not use the laws; the round trip with the
    writer does. *)

From S2P Require Import Prelude Text Digest PayloadPath ArchiveTypes TarWriter.

(** ** Reading a PAX extension *)
Record PaxOverrides := mkPax { pax_path : option (list Z); pax_linkpath : option (list Z) }.

(** [match key { .. }] *)
Definition set_override (overrides : PaxOverrides) (key value : list Z) : res ContractError PaxOverrides :=
  if eqb_list key (rs "path") && negb (eqb_list value []) && bool_decide (pax_path overrides = None)
  then Ok (mkPax (Some value) (pax_linkpath overrides))
  else if eqb_list key (rs "linkpath") && negb (eqb_list value []) && bool_decide (pax_linkpath overrides = None)
  then Ok (mkPax (pax_path overrides) (Some value))
  else if eqb_list key (rs "path") || eqb_list key (rs "linkpath")
  then Err (Verification PaxEmptyOrDuplicated)
  else Err (Verification PaxUnsupportedMetadata).

(** One round of the loop: the record at [offset] and where it ends. *)
Definition parse_pax_record (bytes : list Z) (offset : Z) (overrides : PaxOverrides)
  : res ContractError (Z * PaxOverrides) :=
  remaining ← or_stuck (get_range bytes offset (len bytes));
  separator ← ok_or (position (Z.eqb 32) remaining) (Verification PaxMalformed);
  let length_bytes := slice remaining 0 separator in
  _ ← refuse (eqb_list length_bytes [] || negb (forallb is_ascii_digit length_bytes)
              || ((1 <? len length_bytes) && bool_decide (head length_bytes = Some 48)))
        (Verification PaxNoncanonicalLength);
  length_text ← ok_or (from_utf8 length_bytes) (Verification PaxMalformed);
  record_len ← ok_or (parse_uint 10 usize_max length_text) (Verification PaxLengthOverflow);
  stop ← ok_or (checked_add usize_max offset record_len) (Verification PaxLengthOverflow);
  _ ← refuse ((record_len <=? separator + 3) || (len bytes <? stop)) (Verification PaxLengthInconsistent);
  record ← or_stuck (get_range bytes offset stop);
  _ ← refuse (bool_decide (last record <> Some 10)) (Verification PaxNotTerminated);
  key_value ← or_stuck (get_range record (separator + 1) (len record - 1));
  equals ← ok_or (position (Z.eqb 61) key_value) (Verification PaxMalformed);
  let key := slice key_value 0 equals in
  let value := slice key_value (equals + 1) (len key_value) in
  _ ← refuse (contains_char 0 value || contains_char 92 value) (Verification PaxValueNotCanonical);
  _ ← ok_or (from_utf8 value) (Verification PaxValueNotUtf8);
  overrides ← set_override overrides key value;
  Ok (stop, overrides).

Fixpoint parse_pax_from (fuel : nat) (bytes : list Z) (offset : Z) (overrides : PaxOverrides)
  : res ContractError PaxOverrides :=
  if offset <? len bytes then
    match fuel with
    | O => Stuck
    | S fuel =>
      next ← parse_pax_record bytes offset overrides;
      parse_pax_from fuel bytes next.1 next.2
    end
  else Ok overrides.

(** [parse_pax_overrides] *)
Definition parse_pax_overrides (bytes : list Z) : res ContractError PaxOverrides :=
  overrides ← parse_pax_from (length bytes) bytes 0 (mkPax None None);
  _ ← refuse (bool_decide (pax_path overrides = None /\ pax_linkpath overrides = None)) (Verification PaxNoPathMetadata);
  Ok overrides.

(** [account_pax_extension] *)
Definition account_pax_extension (total size : Z) : res ContractError Z :=
  _ ← refuse ((size =? 0) || (MAX_PAX_EXTENSION_BYTES <? size)) (Verification PaxHeaderLimit);
  total ← ok_or (checked_add u64_max total size) (Verification PaxCountOverflow);
  _ ← refuse (MAX_TOTAL_PAX_EXTENSION_BYTES <? total) (Verification PaxAggregateLimit);
  Ok total.

(** [has_only_trailing_nuls] *)
Definition has_only_trailing_nuls (field : list Z) : bool :=
  match position (Z.eqb 0) field with
  | None => true
  | Some first_nul => forallb (Z.eqb 0) (slice field first_nul (len field))
  end.

Section header.
Context {T : TarXz}.

(** [validate_tar_header_string_fields] *)
Definition validate_tar_header_string_fields (h : list Z) : res ContractError unit :=
  name ← or_stuck (get_range h 0 100);
  link_field ← or_stuck (get_range h 157 257);
  prefix_is_canonical ←
    (if is_ustar h then prefix ← or_stuck (get_range h 345 500); Ok (has_only_trailing_nuls prefix)
     else Ok true);
  let path := path_bytes h in
  refuse (negb (has_only_trailing_nuls name) || negb (has_only_trailing_nuls link_field)
          || negb prefix_is_canonical
          || contains_char 0 path || contains_char 92 path
          || match link_name_bytes h with
             | Some value => contains_char 0 value || contains_char 92 value
             | None => false
             end) (Verification NoncanonicalHeaderField).

(** [verify_pax_header] *)
Definition verify_pax_header (h : list Z) (expected_size : Z) : res ContractError unit :=
  mode ← ok_or (header_mode h) (Verification InvalidPaxMode);
  uid ← ok_or (header_uid h) (Verification InvalidPaxOwner);
  gid ← ok_or (header_gid h) (Verification InvalidPaxGroup);
  mtime ← ok_or (header_mtime h) (Verification InvalidPaxTimestamp);
  size ← ok_or (header_size h) (Verification InvalidPaxSize);
  refuse (negb (eqb_list (path_bytes h) (rs "././@PaxHeader"))
          || match link_name_bytes h with Some value => negb (eqb_list value []) | None => false end
          || negb (entry_type h =? 120)
          || negb (mode =? 0) || negb (uid =? 0) || negb (gid =? 0) || negb (mtime =? 0)
          || negb (size =? expected_size) || (expected_size =? 0) || negb (is_ustar h))
    (Verification PaxMetadata).

(** [verify_header] *)
Definition verify_header (h : list Z) (epoch : Z) (expected_mode : option Z) (expected_size : Z)
  : res ContractError unit :=
  mode ← ok_or (header_mode h) (Verification InvalidMode);
  uid ← ok_or (header_uid h) (Verification InvalidOwner);
  gid ← ok_or (header_gid h) (Verification InvalidGroup);
  mtime ← ok_or (header_mtime h) (Verification InvalidTimestamp);
  size ← ok_or (header_size h) (Verification InvalidEntrySize);
  refuse (match expected_mode with
          | Some expected => negb (mode =? expected)
          | None => negb ((mode =? m0644) || (mode =? m0755))
          end
          || negb (uid =? 0) || negb (gid =? 0) || negb (mtime =? epoch) || negb (size =? expected_size))
    (Verification NoncanonicalMetadata).
End header.

(** ** What the crates document for ustar archives

    Fields end at their first NUL, numbers are octal digits before a NUL, an
    absent link name is [None]; iteration yields the members up to the first zero
    block, each with its body, and leaves what follows that block unread. *)
Definition until_nul (field : list Z) : list Z := default field (
  (fun n => slice field 0 n) <$> position (Z.eqb 0) field).

Definition wf_block (f : header_fields) : Prop :=
  len (hf_name f) = 100 /\ len (hf_target f) = 100 /\ is_u8 (hf_kind f) /\
  (exists v, octal_field (hf_mode f) 7 v) /\ (exists v, octal_field (hf_uid f) 7 v) /\
  (exists v, octal_field (hf_gid f) 7 v) /\ (exists v, octal_field (hf_size f) 11 v) /\
  (exists v, octal_field (hf_mtime f) 11 v) /\ octal_field (hf_checksum f) 6 (block_sum f).

Definition padding (size : Z) : list Z := fill ((- size) mod 512) 0.
Definition member : Type := header_fields * list Z.
Definition member_bytes (m : member) : list Z := header_block m.1 ++ m.2 ++ padding (len m.2).
Definition wf_member (m : member) : Prop := wf_block m.1 /\ octal_field (hf_size m.1) 11 (len m.2).

(** The entry the reader delivers for a member. *)
Definition entry_of (m : member) (e : option tar_entry) : Prop :=
  exists reads, e = Some (mkTarEntry (header_block m.1) (len m.2) reads) /\ stream reads = Some m.2.

Class TarXzLaws (T : TarXz) : Prop := {
  path_bytes_block : forall f, wf_block f -> path_bytes (header_block f) = until_nul (hf_name f);
  link_name_block : forall f, wf_block f -> link_name_bytes (header_block f) =
    if bool_decide (head (hf_target f) = Some 0) then None else Some (until_nul (hf_target f));
  entry_type_block : forall f, wf_block f -> hf_kind f ∈ [48; 50; 53; 120] -> entry_type (header_block f) = hf_kind f;
  is_ustar_block : forall f, wf_block f -> is_ustar (header_block f) = true;
  header_size_block : forall f v, wf_block f -> octal_field (hf_size f) 11 v -> header_size (header_block f) = Some v;
  header_mode_block : forall f v, wf_block f -> octal_field (hf_mode f) 7 v -> header_mode (header_block f) = Some v;
  header_uid_block : forall f v, wf_block f -> octal_field (hf_uid f) 7 v -> header_uid (header_block f) = Some v;
  header_gid_block : forall f v, wf_block f -> octal_field (hf_gid f) 7 v -> header_gid (header_block f) = Some v;
  header_mtime_block : forall f v, wf_block f -> octal_field (hf_mtime f) 11 v -> header_mtime (header_block f) = Some v;
  open_archive_members : forall ms rest, Forall wf_member ms -> Forall (fun b => b = 0) rest ->
    let file := xz_encode (concat (map member_bytes ms) ++ fill 512 0 ++ rest) in
    exists es reads, open_archive file = Some (mkStream (Some es) reads (len file)) /\
      Forall2 entry_of ms es /\ stream reads = Some rest;
}.

(** ** The loop comes to an end *)
Lemma parse_pax_record_progress bytes offset ov next : 0 <= offset ->
  parse_pax_record bytes offset ov = Ok next -> offset + 4 <= next.1 <= len bytes.
Proof.
  intros H0. unfold parse_pax_record. cbv zeta. intros H. inv_guards. cbn [fst].
  repeat match goal with H : checked_add _ _ _ = Some _ |- _ => apply checked_add_Some in H as [-> ?] end.
  repeat match goal with H : position _ _ = Some _ |- _ => apply position_Some in H as (? & ? & ? & ? & ? & ?) end.
  lia.
Qed.

Lemma parse_pax_record_not_Stuck bytes offset ov : 0 <= offset < len bytes ->
  parse_pax_record bytes offset ov <> Stuck.
Proof.
  intros Ho. unfold parse_pax_record. cbv zeta.
  apply bind_not_Stuck; [apply or_stuck_not_Stuck, get_range_is_Some; lia|]. intros remaining Hrem.
  apply bind_not_Stuck; [apply ok_or_not_Stuck|]. intros sep Hsep%ok_or_Ok%position_Some.
  do 3 (apply bind_not_Stuck; [solve [eauto with aros]|intros ? ?]).
  apply bind_not_Stuck; [apply ok_or_not_Stuck|]. intros stop [-> _]%ok_or_Ok%checked_add_Some.
  apply bind_not_Stuck; [apply refuse_not_Stuck|]. intros _ Hr%refuse_Ok. bool_prop.
  destruct Hsep as (_ & _ & _ & _ & [Hs _] & _).
  apply bind_not_Stuck; [apply or_stuck_not_Stuck, get_range_is_Some; lia|].
  intros record Hrec%or_stuck_Ok%get_range_len.
  apply bind_not_Stuck; [apply refuse_not_Stuck|]. intros _ _.
  apply bind_not_Stuck; [apply or_stuck_not_Stuck, get_range_is_Some; lia|]. intros kv _.
  not_stuck. unfold set_override. not_stuck.
Qed.

Lemma parse_pax_from_not_Stuck fuel bytes offset ov : 0 <= offset -> len bytes - offset <= Z.of_nat fuel ->
  parse_pax_from fuel bytes offset ov <> Stuck.
Proof.
  revert offset ov. induction fuel as [|fuel IH]; intros offset ov H0 Hf; cbn [parse_pax_from];
    destruct (offset <? len bytes) eqn:E; bool_prop; try done; [lia|].
  apply bind_not_Stuck; [by apply parse_pax_record_not_Stuck|].
  intros next Hn%parse_pax_record_progress; [|done]. apply IH; lia.
Qed.

Lemma parse_pax_overrides_not_Stuck bytes : parse_pax_overrides bytes <> Stuck.
Proof.
  unfold parse_pax_overrides. apply bind_not_Stuck; [|intros; not_stuck].
  apply parse_pax_from_not_Stuck; unfold len; lia.
Qed.
#[export] Hint Resolve parse_pax_overrides_not_Stuck : aros.

(** ** Records that were written are read back *)
Definition pax_value (value : list Z) : Prop :=
  value <> [] /\ contains_char 0 value = false /\ contains_char 92 value = false /\ is_Some (from_utf8 value).

Lemma position_first c p q : Forall (fun x => x <> c) p -> position (Z.eqb c) (p ++ c :: q) = Some (len p).
Proof.
  intros Hp. apply position_app; [|apply Z.eqb_refl]. eapply Forall_impl; [exact Hp|].
  cbn. intros x Hx. by apply Z.eqb_neq.
Qed.

Lemma show_dec_canonical v : 0 <= v ->
  (eqb_list (show_dec v) [] || negb (forallb is_ascii_digit (show_dec v))
   || ((1 <? len (show_dec v)) && bool_decide (head (show_dec v) = Some 48))) = false.
Proof.
  intros Hv. rewrite (proj2 (forallb_forall _ _)).
  2: { pose proof (show_dec_digit v Hv) as Hd. by rewrite List.Forall_forall in Hd. }
  destruct (show_dec_lead v Hv) as [->|(d & l & -> & Hd)]; [done|]. cbn [negb]. rewrite orb_false_r. cbn [head].
  rewrite (bool_decide_eq_false_2 (Some d = Some 48)) by (intros [= ->]; lia). by rewrite andb_false_r.
Qed.

Lemma show_dec_digits_ne v c : 0 <= v -> is_ascii_digit c = false -> Forall (fun x => x <> c) (show_dec v).
Proof.
  intros Hv Hc. eapply Forall_impl; [by apply show_dec_digit|]. cbn. intros x Hx ->. congruence.
Qed.

Lemma digit_is_ascii c : is_ascii_digit c = true -> is_ascii c.
Proof. unfold is_ascii_digit, is_ascii. intros ?%in_range_true. lia. Qed.

Lemma parse_pax_record_written pre post key value n ov ov' :
  pax_value value -> Forall (fun c => c <> 61) key -> set_override ov key value = Ok ov' ->
  len (pax_record key value n) = n -> len pre + n <= usize_max ->
  parse_pax_record (pre ++ pax_record key value n ++ post) (len pre) ov = Ok (len pre + n, ov').
Proof.
  intros (Hne & H0 & H92 & [t Ht]) Hkey Hset Hn Hmax.
  pose proof (len_nonneg pre). pose proof (len_nonneg post). pose proof (len_nonneg key). pose proof (len_nonneg value).
  pose proof (len_nonneg (show_dec n)). assert (0 <= n) as Hn0 by (rewrite <- Hn; apply len_nonneg).
  set (r := pax_record key value n) in *.
  assert (len (show_dec n) + len key + len value + 3 = n) as Hlen.
  { etrans; [|exact Hn]. unfold r, pax_record. rewrite !len_app. change (len (rs " ")) with 1. change (len (rs "=")) with 1.
    change (len [10]) with 1. lia. }
  assert (0 < len value) as Hv by (destruct value; [done|]; rewrite len_cons; pose proof (len_nonneg value); lia).
  unfold parse_pax_record. cbv zeta.
  step_by ltac:(apply or_stuck_Ok; rewrite <- (app_nil_r (r ++ post)) at 1; apply get_range_app_mid; [done|by rewrite len_app]).
  assert (r ++ post = show_dec n ++ 32 :: (key ++ rs "=" ++ value ++ [10]) ++ post) as Er.
  { unfold r, pax_record. by rewrite <- !app_assoc. }
  step_by ltac:(apply ok_or_Ok; rewrite Er; apply position_first, show_dec_digits_ne; done).
  rewrite slice_prefix.
  assert (take (Z.to_nat (len (show_dec n))) (r ++ post) = show_dec n) as ->.
  { rewrite Er. unfold len. rewrite Nat2Z.id. by rewrite take_app_length. }
  guard_by ltac:(by apply show_dec_canonical).
  step_by ltac:(apply ok_or_Ok, from_utf8_ascii; eapply Forall_impl; [by apply show_dec_digit|]; exact digit_is_ascii).
  step_by ltac:(apply ok_or_Ok, parse_uint_show; lia).
  step_by ltac:(apply ok_or_Ok, checked_add_Some; split; [done|lia]).
  guard_by ltac:(rewrite !len_app; apply orb_false_iff; split; [apply Z.leb_gt|apply Z.ltb_ge]; lia).
  step_by ltac:(apply or_stuck_Ok, (get_range_app_mid pre r post); lia).
  assert (r = (show_dec n ++ rs " ") ++ (key ++ rs "=" ++ value) ++ [10]) as Er'.
  { unfold r, pax_record. by rewrite <- !app_assoc. }
  guard_by ltac:(apply bool_decide_eq_false; rewrite Er', !app_assoc, last_snoc; tauto).
  step_by ltac:(apply or_stuck_Ok; rewrite Hn, Er'; apply get_range_app_mid; rewrite !len_app;
    change (len (rs " ")) with 1; change (len (rs "=")) with 1; lia).
  step_by ltac:(apply ok_or_Ok, (position_first 61 key value Hkey)).
  rewrite slice_prefix. change (rs "=" ++ value) with (61 :: value).
  assert (take (Z.to_nat (len key)) (key ++ 61 :: value) = key) as ->
    by (unfold len; rewrite Nat2Z.id; apply take_app_length).
  assert (slice (key ++ 61 :: value) (len key + 1) (len (key ++ 61 :: value)) = value) as ->.
  { rewrite slice_suffix by lia. rewrite (cons_middle 61), app_assoc.
    apply drop_app_length'. rewrite length_app. cbn. unfold len. lia. }
  rewrite H0, H92. guard_by ltac:(done). step_by ltac:(apply ok_or_Ok, Ht). by rewrite Hset.
Qed.

Definition extensions (path link : option (list Z)) : list (list Z * list Z) :=
  (match path with Some v => [(rs "path", v)] | None => [] end) ++
  (match link with Some v => [(rs "linkpath", v)] | None => [] end).
Definition opt_len (o : option (list Z)) : Z := match o with Some v => len v | None => 0 end.

Lemma parse_pax_from_step fuel pre post key value n ov ov' :
  pax_value value -> Forall (fun c => c <> 61) key -> set_override ov key value = Ok ov' ->
  len (pax_record key value n) = n -> 0 < n -> len pre + n <= usize_max ->
  parse_pax_from (S fuel) (pre ++ pax_record key value n ++ post) (len pre) ov =
  parse_pax_from fuel (pre ++ pax_record key value n ++ post) (len (pre ++ pax_record key value n)) ov'.
Proof.
  intros Hv Hk Hset Hn Hpos Hmax. cbn [parse_pax_from]. rewrite (proj2 (Z.ltb_lt _ _)).
  2: { rewrite !len_app. pose proof (len_nonneg post). lia. }
  rewrite (parse_pax_record_written _ _ _ _ _ _ ov') by done. cbn. by rewrite len_app, Hn.
Qed.

Lemma parse_pax_from_end fuel bytes ov : parse_pax_from fuel bytes (len bytes) ov = Ok ov.
Proof. destruct fuel; cbn [parse_pax_from]; by rewrite Z.ltb_irrefl. Qed.

Lemma set_path v link : v <> [] -> set_override (mkPax None link) (rs "path") v = Ok (mkPax (Some v) link).
Proof. intros Hv. unfold set_override, eqb_list. by rewrite (bool_decide_eq_false_2 (v = [])). Qed.
Lemma set_linkpath v path : v <> [] -> set_override (mkPax path None) (rs "linkpath") v = Ok (mkPax path (Some v)).
Proof. intros Hv. unfold set_override, eqb_list. by rewrite (bool_decide_eq_false_2 (v = [])). Qed.

Lemma key_no_equals key : key ∈ [rs "path"; rs "linkpath"] -> Forall (fun c => c <> 61) key.
Proof. intros [->|[->|[]%elem_of_nil]%elem_of_cons]%elem_of_cons; repeat constructor; done. Qed.

(** A list of one record. *)
Lemma one_record_read key value n ov : pax_value value -> key ∈ [rs "path"; rs "linkpath"] ->
  set_override (mkPax None None) key value = Ok ov -> ~ (pax_path ov = None /\ pax_linkpath ov = None) ->
  len (pax_record key value n) = n -> 0 < n <= usize_max ->
  parse_pax_overrides (pax_record key value n) = Ok ov.
Proof.
  intros Hv Hk Hset Hov Hn Hb. unfold parse_pax_overrides.
  destruct (length (pax_record key value n)) as [|fuel] eqn:El; [unfold len in Hn; lia|].
  rewrite <- (app_nil_r (pax_record key value n)) at 1.
  rewrite (parse_pax_from_step _ [] [] key value n _ ov); try done; [|by apply key_no_equals|lia|rewrite len_nil; lia].
  cbn [app]. rewrite app_nil_r, parse_pax_from_end. cbn. by rewrite bool_decide_eq_false_2.
Qed.

(** What [write_pax_entry] puts in front of a member is what the reader takes
    out: the same path and the same link target. *)
Lemma extensions_read path link : path <> None \/ link <> None ->
  (forall v, path = Some v -> pax_value v) -> (forall v, link = Some v -> pax_value v) ->
  opt_len path + opt_len link + 100 <= usize_max ->
  exists records, foldM append_extension [] (extensions path link) = Ok records /\
    parse_pax_overrides records = Ok (mkPax path link) /\
    0 < len records <= opt_len path + opt_len link + 70.
Proof.
  intros Hsome Hp Hl Hmax. unfold extensions, append_extension. set (pk := rs "path"). set (lk := rs "linkpath").
  assert (0 <= opt_len path) by (destruct path; cbn; [apply len_nonneg|lia]).
  assert (0 <= opt_len link) by (destruct link; cbn; [apply len_nonneg|lia]).
  assert (len pk = 4) as Hpk by done. assert (len lk = 8) as Hlk by done.
  assert (pk ∈ [rs "path"; rs "linkpath"]) as Kp by (left; done).
  assert (lk ∈ [rs "path"; rs "linkpath"]) as Kl by (right; left; done).
  destruct path as [p|], link as [l|]; cbn [app foldM opt_len fst snd] in *; [| | |naive_solver].
  - specialize (Hp p eq_refl). specialize (Hl l eq_refl).
    destruct (append_pax_record_Ok [] pk p) as (n & -> & Hn & Bn); [lia|]. cbn [mbind res_bind app].
    destruct (append_pax_record_Ok (pax_record pk p n) lk l) as (m & -> & Hm & Bm); [lia|]. cbn [mbind res_bind].
    eexists; split; [done|]. rewrite len_app, Hn, Hm. split; [|lia].
    unfold parse_pax_overrides. set (bytes := pax_record pk p n ++ pax_record lk l m).
    assert (len bytes = n + m) as E by (unfold bytes; rewrite len_app; lia).
    destruct (length bytes) as [|[|fuel] ] eqn:El; [unfold len in E; lia..|].
    unfold bytes. rewrite (parse_pax_from_step _ [] (pax_record lk l m) pk p n _ (mkPax (Some p) None));
      try done; [|by apply key_no_equals|apply set_path, Hp|lia|rewrite len_nil; lia].
    cbn [app]. rewrite <- (app_nil_r (pax_record lk l m)).
    rewrite (parse_pax_from_step _ (pax_record pk p n) [] lk l m _ (mkPax (Some p) (Some l)));
      try done; [|by apply key_no_equals|apply set_linkpath, Hl|lia|lia].
    by rewrite app_nil_r, parse_pax_from_end.
  - specialize (Hp p eq_refl). destruct (append_pax_record_Ok [] pk p) as (n & -> & Hn & Bn); [lia|].
    eexists; split; [done|]. cbn [app]. rewrite Hn. split; [|lia].
    apply one_record_read; try done; [apply set_path, Hp|naive_solver|lia].
  - specialize (Hl l eq_refl). destruct (append_pax_record_Ok [] lk l) as (n & -> & Hn & Bn); [lia|].
    eexists; split; [done|]. cbn [app]. rewrite Hn. split; [|lia].
    apply one_record_read; try done; [apply set_linkpath, Hl|naive_solver|lia].
Qed.
