(* ===== verification/PayloadTree.v ===== *)
(** * PayloadTree: a payload tree and its canonical inventory

    Models [crates/aros-common/src/toolchain_inventory.rs] over a directory tree.
    A directory holds its children by name; [fails c p] says that the system call
    [c] on the path [p] fails, so an operation that returns has seen none of them
    fail.  [read_dir] gives its entries in no particular order and the code sorts
    them by name before it visits them, which is [in_order]. *)

From S2P Require Import Prelude Text Digest StateRes Ordered Publication PayloadPath ArchiveTypes TarWriter.

(** ** Trees *)
Inductive node :=
| File (mode : Z) (data : list Z)
| Dir (kids : list (list Z * node))
| Link (target : list Z)
| Special.

Fixpoint node_at (n : node) (path : rel_path) : option node :=
  match path with
  | [] => Some n
  | name :: path =>
    match n with
    | Dir kids => kid ← bt_get name kids; node_at kid path
    | _ => None
    end
  end.

(** The system calls of a traversal. *)
Inductive fs_call :=
| ReadDir | Inspect | ReadLink | OpenFile | Measure | Remeasure
| CreateArchive | FinishArchive | SyncArchive | StageEntry | RemoveManifest | WriteManifest
| Reserve | MeasureArchive | WriteMember | SyncPackage.
(** What the reading of a file saw. *)
Inductive measured := Measured | MeasureFailed | FileChanged.

(** Visit the named steps in the order of their names. *)
Definition in_order {S E} (steps : list (list Z * (S -> res E S))) (s : S) : res E S :=
  foldM (fun s step => step.2 s) s (sort_by str_ltb fst steps).

(** ** The inventory *)
Inductive inventory_error := InvRead | InvPath | InvTarget | InvChanged | InvUnsupported | InvSerialize.

(** [normalized_toolchain_file_mode] *)
Definition normalized_toolchain_file_mode (mode : Z) : Z :=
  if Z.land mode m0111 =? 0 then m0644 else m0755.

(** [portable_relative_path] of the components of a path *)
Definition portable_component (c : component) : res inventory_error (list Z) :=
  match c with
  | Normal value => ok_or (from_utf8 value) InvPath
  | _ => Err InvPath
  end.
Definition portable_relative_path (cs : list component) : res inventory_error (list Z) :=
  names ← mapR portable_component cs; Ok (join (rs "/") names).

Section inventory.
Context {H : Sha256}.
Variable fails : fs_call -> rel_path -> bool.
Variable measure : rel_path -> measured.

(** The entry of one child that is not a directory. *)
Definition link_entry (path target : list Z) : ArosToolchainManifestEntry :=
  mkEntry path (rs "0777") (rs "symlink") None None (Some target).
Definition directory_entry (path : list Z) : ArosToolchainManifestEntry :=
  mkEntry path (rs "0755") (rs "directory") None None None.
Definition file_entry (path : list Z) (mode : Z) (data : list Z) : ArosToolchainManifestEntry :=
  mkEntry path (format_octal 4 (normalized_toolchain_file_mode mode)) (rs "file")
    (Some (sha256_bytes data)) (Some (len data)) None.

Definition excluded (exclusions : list rel_path) (child : rel_path) : bool :=
  existsb (fun e => bool_decide (child = e) || bool_decide (e `prefix_of` child)) exclusions.

(** [collect_tree_entries] *)
Fixpoint collect_tree_entries (n : node) (relative : rel_path) (exclusions : list rel_path)
    (output : list ArosToolchainManifestEntry) {struct n}
  : res inventory_error (list ArosToolchainManifestEntry) :=
  match n with
  | Dir kids =>
    _ ← refuse (fails ReadDir relative) InvRead;
    in_order (map (fun k : list Z * node => let '(name, kid) := k in (name, fun output =>
      let child := relative ++ [name] in
      if excluded exclusions child then Ok output
      else
        _ ← refuse (fails Inspect child) InvRead;
        path ← portable_relative_path (map Normal child);
        match kid with
        | Link target =>
          _ ← refuse (fails ReadLink child) InvRead;
          target ← ok_or (from_utf8 target) InvTarget;
          Ok (output ++ [link_entry path target])
        | Dir _ => collect_tree_entries kid child exclusions (output ++ [directory_entry path])
        | File mode data =>
          match measure child with
          | MeasureFailed => Err InvRead
          | FileChanged => Err InvChanged
          | Measured =>
            _ ← refuse (fails Remeasure child) InvRead;
            Ok (output ++ [file_entry path mode data])
          end
        | Special => Err InvUnsupported
        end)) kids) output
  | _ => Err InvRead
  end.

(** The canonical JSON of an entry: keys in order, absent fields left out.
    [serde_json::to_vec] of such an object is the function [json]. *)
Inductive json_value := JString (s : list Z) | JNumber (n : Z).
Definition canonical_entry (e : ArosToolchainManifestEntry) : list (list Z * json_value) :=
  [(rs "mode", JString (entry_mode e)); (rs "path", JString (entry_path e))] ++
  match entry_sha256 e with Some s => [(rs "sha256", JString s)] | None => [] end ++
  match entry_bytes e with Some n => [(rs "size", JNumber n)] | None => [] end ++
  match entry_target e with Some t => [(rs "target", JString t)] | None => [] end ++
  [(rs "type", JString (entry_kind e))].

Variable json : list (list Z * json_value) -> option (list Z).

(** [toolchain_inventory_sha256] *)
Definition inventory_line (e : ArosToolchainManifestEntry) : res inventory_error (list Z) :=
  bytes ← ok_or (json (canonical_entry e)) InvSerialize; Ok (bytes ++ [10]).
Definition toolchain_inventory_sha256 (es : list ArosToolchainManifestEntry) : res inventory_error (list Z) :=
  ls ← mapR inventory_line es; Ok (sha256_bytes (concat ls)).

(** [toolchain_tree_inventory_excluding] *)
Definition toolchain_tree_inventory_excluding (root : node) (exclusions : list (list Z))
  : res inventory_error (list Z * list ArosToolchainManifestEntry) :=
  excluded ← mapR (fun value => _ ← portable_relative_path (components value);
                                Ok (omap (fun c => match c with Normal n => Some n | _ => None end) (components value))) exclusions;
  es ← collect_tree_entries root [] excluded [];
  let es := sort_by str_ltb entry_path es in
  digest ← toolchain_inventory_sha256 es;
  Ok (digest, es).
Definition toolchain_tree_inventory (root : node) : res inventory_error (list Z * list ArosToolchainManifestEntry) :=
  toolchain_tree_inventory_excluding root [AROS_TOOLCHAIN_MANIFEST_FILE].
End inventory.

(** ** Well-formed trees

    A directory has each name once; keeping the children in the order of their
    names makes equal trees equal, and no operation depends on it. *)
Inductive tree_wf : node -> Prop :=
| wf_file mode data : tree_wf (File mode data)
| wf_link target : tree_wf (Link target)
| wf_special : tree_wf Special
| wf_dir kids : sorted_keys str_ltb kids -> Forall (fun k => tree_wf k.2) kids -> tree_wf (Dir kids).

Lemma tree_ind (P : node -> Prop) :
  (forall mode data, P (File mode data)) -> (forall target, P (Link target)) -> P Special ->
  (forall kids, Forall (fun k => P k.2) kids -> P (Dir kids)) -> forall n, P n.
Proof.
  intros Hf Hl Hs Hd. fix IH 1. intros [mode data|kids|target|]; [apply Hf| |apply Hl|apply Hs].
  apply Hd. induction kids as [|[name kid] kids IHk]; constructor; [apply IH|exact IHk].
Qed.

Lemma tree_wf_dir kids : tree_wf (Dir kids) -> sorted_keys str_ltb kids /\ Forall (fun k => tree_wf k.2) kids.
Proof. by inversion 1. Qed.

Lemma node_at_app n p q : node_at n (p ++ q) = (m ← node_at n p; node_at m q).
Proof.
  revert n; induction p as [|name p IH]; intros n; [done|]. cbn. destruct n; try done.
  destruct (bt_get name kids); [|done]. cbn. apply IH.
Qed.

Lemma tree_wf_at n p m : tree_wf n -> node_at n p = Some m -> tree_wf m.
Proof.
  revert n; induction p as [|name p IH]; intros n Hn; cbn; [by intros [= <-]|].
  destruct n as [|kids| |]; try done. apply tree_wf_dir in Hn as [Hs Hk].
  intros (kid & Hg & Hp)%bind_Some. apply (bt_get_elem str_ltb) in Hg; [|done].
  rewrite Forall_forall in Hk. eapply IH; [|done]. by apply (Hk (name, kid)).
Qed.

(** [in_order] visits sorted children as they are. *)
Lemma in_order_kids {S E} (step : list Z -> node -> S -> res E S) kids s : sorted_keys str_ltb kids ->
  in_order (map (fun k : list Z * node => let '(name, kid) := k in (name, step name kid)) kids) s =
  foldM (fun s k => step k.1 k.2 s) s kids.
Proof.
  intros Hs. unfold in_order. rewrite sort_by_sorted.
  - clear Hs. revert s. induction kids as [|[name kid] kids IH]; intros s; [done|]. cbn.
    destruct (step name kid s); [apply IH|done|done].
  - apply _.
  - unfold sorted_keys, key_lt in Hs. induction Hs as [|[name kid] kids Hx Hs IH]; [constructor|]. cbn. constructor; [|done].
    apply Forall_map. eapply Forall_impl; [exact Hx|]. by intros [].
Qed.

(** ** The nodes a traversal visits

    Below [n], whose own path is [relative], parents before children; what
    [skip] rejects is left out with everything below it. *)
Fixpoint walk (skip : rel_path -> bool) (n : node) (relative : rel_path) : list (rel_path * node) :=
  match n with
  | Dir kids => flat_map (fun k : list Z * node => let '(name, kid) := k in
      let child := relative ++ [name] in
      if skip child then [] else (child, kid) :: walk skip kid child) kids
  | _ => []
  end.
Definition walk_all : node -> rel_path -> list (rel_path * node) := walk (fun _ => false).

Lemma elem_of_walk skip n rel p m : tree_wf n ->
  (p, m) ∈ walk skip n rel <->
  exists q, q <> [] /\ p = rel ++ q /\ node_at n q = Some m /\
    (forall a b, q = a ++ b -> a <> [] -> skip (rel ++ a) = false).
Proof.
  intros Hwf. revert rel. induction n as [mode data|target| |kids IH] using tree_ind; intros rel;
    try (split; [intros []%elem_of_nil|]; intros ([|name q] & Hq & _ & Hat & _); done).
  apply tree_wf_dir in Hwf as [Hs Hk]. cbn [walk].
  rewrite list_elem_of_In, in_flat_map. setoid_rewrite <- list_elem_of_In. rewrite Forall_forall in IH, Hk. split.
  - intros ([name kid] & Hin & Hp). destruct (skip (rel ++ [name])) eqn:E; [by apply elem_of_nil in Hp|].
    apply (bt_get_elem str_ltb) in Hin as Hg; [|done].
    apply elem_of_cons in Hp as [[= -> ->]|Hp].
    + exists [name]. split_and!; [done|done|cbn; by rewrite Hg|]. intros [|x a] b Hab Ha; [done|].
      injection Hab as <- Hab. symmetry in Hab. apply app_nil in Hab as [-> ->]. done.
    + apply (IH (name, kid)) in Hp as (q & Hq & -> & Hat & Hskip); [|done|by apply (Hk (name, kid))].
      exists (name :: q). rewrite <- app_assoc. split_and!; [done|done|cbn; by rewrite Hg|].
      intros [|x a] b Hab Ha; [done|]. injection Hab as <- ->. destruct a as [|y a]; [done|].
      replace (rel ++ name :: y :: a) with ((rel ++ [name]) ++ y :: a) by by rewrite <- app_assoc. by eapply Hskip.
  - intros ([|name q] & Hq & -> & Hat & Hskip); [done|]. cbn in Hat. apply bind_Some in Hat as (kid & Hg & Hat).
    apply (bt_get_elem str_ltb) in Hg; [|done]. exists (name, kid). split; [done|].
    rewrite (Hskip [name] q eq_refl) by done. destruct q as [|name' q].
    + cbn in Hat. injection Hat as <-. by left.
    + right. apply (IH (name, kid)); [done|by apply (Hk (name, kid))|]. exists (name' :: q).
      split_and!; [done|by rewrite <- app_assoc|done|]. intros a b Hab Ha. rewrite <- app_assoc. apply (Hskip (name :: a) b); [by rewrite Hab|done].
Qed.

Lemma elem_of_walk_all n p m : tree_wf n -> (p, m) ∈ walk_all n [] <-> p <> [] /\ node_at n p = Some m.
Proof. intros Hwf. unfold walk_all. rewrite elem_of_walk by done. cbn [app]. naive_solver. Qed.

(** Every path is visited once. *)
Lemma walk_NoDup skip n rel : tree_wf n -> NoDup (walk skip n rel).*1.
Proof.
  revert rel. induction n as [mode data|target| |kids IH] using tree_ind; intros rel Hwf; try constructor.
  apply tree_wf_dir in Hwf as [Hs Hk]. cbn [walk].
  pose proof (sorted_keys_NoDup str_ltb _ Hs) as Hnd. clear Hs.
  induction kids as [|[name kid] kids IHk]; [constructor|]. cbn [flat_map].
  apply Forall_cons in IH as [IH IHs], Hk as [Hk Hks]. cbn in Hnd. apply NoDup_cons in Hnd as [Hnin Hnd].
  rewrite fmap_app. apply NoDup_app. split_and!; [|intros p Hp Hp'|by apply IHk].
  - destruct (skip _); [constructor|]. cbn. constructor; [|by apply IH].
    intros ([p m] & E & Hp)%list_elem_of_fmap. cbn in E. subst p. apply elem_of_walk in Hp as (q & Hq & E & _); [|done].
    symmetry in E. rewrite <- (app_nil_r (rel ++ [name])) in E at 2. by apply app_inv_head in E.
  - assert (forall nm kd, p ∈ (if skip (rel ++ [nm]) then [] else (rel ++ [nm], kd) :: walk skip kd (rel ++ [nm])).*1 ->
      tree_wf kd -> exists q, p = rel ++ nm :: q) as Hpre.
    { intros nm kd Hin Hkd. destruct (skip (rel ++ [nm])) in Hin; [by apply elem_of_nil in Hin|].
      apply list_elem_of_fmap in Hin as ([p' m] & -> & Hin). apply elem_of_cons in Hin as [[= -> _]|Hin]; [by exists []|].
      apply elem_of_walk in Hin as (q & _ & -> & _); [|done]. exists q. by rewrite <- app_assoc. }
    apply Hpre in Hp as [q ->]; [|done]. apply list_elem_of_fmap in Hp' as ([p' m] & E & Hin). cbn in E. subst p'.
    apply list_elem_of_In, in_flat_map in Hin as ([nm kd] & Hin & Hin'). apply list_elem_of_In in Hin, Hin'.
    destruct (Hpre nm kd) as [q' E].
    { apply list_elem_of_fmap. by exists (rel ++ name :: q, m). }
    { rewrite Forall_forall in Hks. by apply (Hks (nm, kd)). }
    apply app_inv_head in E. injection E as -> _. apply Hnin. apply list_elem_of_fmap. by exists (nm, kd).
Qed.

(** ** The inventory lists exactly the nodes of the tree *)
Section inventory_spec.
Context {H : Sha256} (fails : fs_call -> rel_path -> bool) (measure : rel_path -> measured).

(** No call on a visited node fails. *)
Definition visited (p : rel_path) (n : node) : Prop :=
  fails Inspect p = false /\ (exists t, portable_relative_path (map Normal p) = Ok t) /\
  match n with
  | File _ _ => measure p = Measured /\ fails Remeasure p = false
  | Dir _ => fails ReadDir p = false
  | Link target => fails ReadLink p = false /\ is_Some (from_utf8 target)
  | Special => False
  end.

Definition path_name (p : rel_path) : list Z :=
  match portable_relative_path (map Normal p) with Ok t => t | _ => [] end.
Definition node_entry (x : rel_path * node) : ArosToolchainManifestEntry :=
  match x.2 with
  | File mode data => file_entry (path_name x.1) mode data
  | Link target => link_entry (path_name x.1) (default [] (from_utf8 target))
  | _ => directory_entry (path_name x.1)
  end.

Lemma node_entry_path x : entry_path (node_entry x) = path_name x.1.
Proof. by destruct x as [p []]. Qed.

Definition visit_child (exclusions : list rel_path) (relative : rel_path) (name : list Z) (kid : node)
    (output : list ArosToolchainManifestEntry) : res inventory_error (list ArosToolchainManifestEntry) :=
  let child := relative ++ [name] in
  if excluded exclusions child then Ok output
  else
    _ ← refuse (fails Inspect child) InvRead;
    path ← portable_relative_path (map Normal child);
    match kid with
    | Link target =>
      _ ← refuse (fails ReadLink child) InvRead;
      target ← ok_or (from_utf8 target) InvTarget;
      Ok (output ++ [link_entry path target])
    | Dir _ => collect_tree_entries fails measure kid child exclusions (output ++ [directory_entry path])
    | File mode data =>
      match measure child with
      | MeasureFailed => Err InvRead
      | FileChanged => Err InvChanged
      | Measured =>
        _ ← refuse (fails Remeasure child) InvRead;
        Ok (output ++ [file_entry path mode data])
      end
    | Special => Err InvUnsupported
    end.

Lemma collect_dir kids rel ex out : sorted_keys str_ltb kids ->
  collect_tree_entries fails measure (Dir kids) rel ex out =
  (_ ← refuse (fails ReadDir rel) InvRead; foldM (fun out k => visit_child ex rel k.1 k.2 out) out kids).
Proof.
  intros Hs. cbn [collect_tree_entries]. destruct (refuse _ _) as [[]|e|]; [|done|done]. cbn [mbind res_bind].
  by apply (in_order_kids (visit_child ex rel)).
Qed.

Lemma collect_Ok n rel ex out out' : tree_wf n -> (exists kids, n = Dir kids) ->
  collect_tree_entries fails measure n rel ex out = Ok out' <->
  fails ReadDir rel = false /\ Forall (fun x => visited x.1 x.2) (walk (excluded ex) n rel) /\
  out' = out ++ map node_entry (walk (excluded ex) n rel).
Proof.
  revert rel out out'. induction n as [mode data|target| |kids IH] using tree_ind; intros rel out out' Hwf [kids' E]; try done.
  clear E kids'. apply tree_wf_dir in Hwf as [Hs Hk]. rewrite collect_dir by done. rewrite refuse_bind_Ok.
  apply and_iff_compat_l. cbn [walk]. clear Hs. revert out. induction kids as [|[name kid] kids IHk]; intros out.
  { cbn. rewrite app_nil_r. naive_solver. }
  apply Forall_cons in IH as [IH IHs], Hk as [Hk Hks]. specialize (IHk IHs Hks). cbn [foldM flat_map fst snd] in *.
  rewrite bind_Ok. setoid_rewrite IHk. rewrite Forall_app, map_app. clear IHk IHs Hks.
  enough (forall o, visit_child ex rel name kid out = Ok o <->
    Forall (fun x => visited x.1 x.2) (if excluded ex (rel ++ [name]) then [] else (rel ++ [name], kid) :: walk (excluded ex) kid (rel ++ [name])) /\
    o = out ++ map node_entry (if excluded ex (rel ++ [name]) then [] else (rel ++ [name], kid) :: walk (excluded ex) kid (rel ++ [name]))) as Hv.
  { setoid_rewrite Hv. split.
    - intros (o & [H1 ->] & H2 & ->). by rewrite <- app_assoc.
    - intros ([H1 H2] & ->). eexists. split; [done|]. by rewrite <- app_assoc. }
  intros o. unfold visit_child. cbv zeta. destruct (excluded ex (rel ++ [name])).
  { cbn. rewrite app_nil_r. split; [intros [= ->]; split; [constructor|done]|by intros [_ ->]]. }
  rewrite refuse_bind_Ok, Forall_cons. cbn [map fst snd]. unfold visited at 1, node_entry at 1, path_name. cbn [fst snd].
  destruct (portable_relative_path (map Normal (rel ++ [name]))) as [t|e|]; [|cbn; naive_solver..]. cbn [mbind res_bind].
  destruct kid as [mode data|kids'|target|]; cbn [walk map].
  - destruct (measure _); [|naive_solver..]. rewrite refuse_bind_Ok. naive_solver.
  - rewrite (IH (rel ++ [name]) _ _ Hk (ex_intro _ _ eq_refl)). cbn [walk]. rewrite <- app_assoc. cbn [app]. naive_solver.
  - rewrite refuse_bind_Ok. destruct (from_utf8 target); cbn; [|naive_solver]. naive_solver.
  - naive_solver.
Qed.
End inventory_spec.

(** The path of a portable node is its text. *)
Lemma path_name_portable p t : Forall portable_name p -> path_text p = Some t ->
  portable_relative_path (map Normal p) = Ok t /\ path_name p = t.
Proof.
  intros Hp Ht. enough (portable_relative_path (map Normal p) = Ok t) as E by (unfold path_name; by rewrite E).
  destruct (path_text_portable p Hp) as (texts & H2 & _ & E). rewrite Ht in E. injection E as ->.
  unfold portable_relative_path. enough (mapR portable_component (map Normal p) = Ok texts) as -> by done.
  clear -H2. induction H2 as [|n u p texts Hn _ IH]; [done|]. cbn. rewrite Hn. cbn. by rewrite IH.
Qed.

(** A traversal that leaves out one file visits every other node. *)
Lemma walk_without_file n q mode data p m : tree_wf n -> node_at n q = Some (File mode data) ->
  (p, m) ∈ walk (excluded [q]) n [] <-> p <> [] /\ node_at n p = Some m /\ p <> q.
Proof.
  intros Hwf Hq.
  assert (forall a, excluded [q] a = true <-> q `prefix_of` a) as Hex.
  { intros a. unfold excluded. cbn. rewrite orb_false_r, orb_true_iff, !bool_decide_eq_true. split; [|by right]. by intros [->|?]. }
  rewrite elem_of_walk by done. split.
  - intros (r & Hr & -> & Hat & Hskip). split_and!; [done|done|]. cbn [app]. intros ->.
    specialize (Hskip q [] (eq_sym (app_nil_r _)) Hr). cbn [app] in Hskip.
    pose proof (proj2 (Hex q) (reflexivity _)). congruence.
  - intros (Hp & Hat & Hne). exists p. split_and!; try done. intros a b -> Ha. cbn [app].
    destruct (excluded [q] a) eqn:E; [|done]. apply Hex in E as [c ->]. exfalso.
    rewrite <- app_assoc, node_at_app, Hq in Hat. cbn in Hat. destruct (c ++ b) as [|? ?] eqn:Ecb; [|done].
    apply Hne. by rewrite <- app_assoc, Ecb, app_nil_r.
Qed.

(** The names of a path of normal components. *)
Lemma omap_normal (p : rel_path) : omap (fun c => match c with Normal n => Some n | _ => None end) (map Normal p) = p.
Proof. induction p as [|n p IH]; [done|]. cbn. by rewrite IH. Qed.
