(* ===== verification/Packaging.v ===== *)
(** * Packaging: from a candidate tree to a package archive

    Models the tree half of [crates/aros-toolchain/src/package.rs]: staging a
    candidate, the prefix scan, and the deterministic archive of the staged tree.
    [fails] and [measure] are as in PayloadTree; [file_reads p data] are the
    results of reading the file [p] that holds [data], and [accepts] is the
    archive's encoder. *)

From S2P Require Import Prelude Text Digest StateRes Ordered Publication PayloadPath ArchiveTypes.
From S2P Require Import PrefixScan TarWriter PayloadTree.

Definition MAX_PREFIX_FINDINGS : Z := 20.

(** ** Link targets *)
Definition link_depth (depth : Z) (c : component) : res ContractError Z :=
  match c with
  | Normal _ => Ok (depth + 1)
  | CurDir => Ok depth
  | ParentDir => if 0 <? depth then Ok (depth - 1) else Err (Package LinkEscapes)
  | RootDir => Err (Package LinkEscapes)
  end.
(** [validate_link_target] *)
Definition validate_link_target (relative : rel_path) (target : list Z) : res ContractError unit :=
  _ ← refuse (is_absolute target || bool_decide (from_utf8 target = None)) (Package AbsoluteOrNonUtf8Target);
  let depth := match parent relative with Some p => len p | None => 0 end in
  _ ← foldM link_depth depth (components target);
  Ok tt.

Section packaging.
Context {H : Sha256} {U : UnicodeFold} {T : TarXz}.
Variable fails : fs_call -> rel_path -> bool.
Variable measure : rel_path -> measured.
Variable file_reads : rel_path -> list Z -> list (option (list Z)).
Variable accepts : Z -> bool.

(** ** Staging: [copy_candidate] and [copy_directory] *)
Definition ignored_name (name : list Z) : bool :=
  eqb_list name (rs ".DS_Store") || starts_with name (rs ".installflag-").

(** The staged children and the collision keys seen so far. *)
Definition staging : Type := list (list Z * node) * list (list Z).

Definition stage (st : staging) (name : list Z) (n : node) : staging := (bt_put str_ltb name n st.1, st.2).

Fixpoint copy_directory (n : node) (relative : rel_path) (portable_paths : list (list Z)) {struct n}
  : res ContractError staging :=
  match n with
  | Dir kids =>
    _ ← refuse (fails ReadDir relative) (Package CannotReadCandidate);
    in_order (map (fun k : list Z * node => let '(name, kid) := k in (name, fun st : staging =>
      text ← ok_or (from_utf8 name) (Package CandidateNotUtf8);
      if ignored_name text then Ok st
      else
        let child := relative ++ [name] in
        folded ← map_err (fun _ => Package CandidateNotPortable) (payload_casefold_path_key (map Normal child));
        _ ← refuse (bs_has folded st.2) (Package CandidateCollision);
        let st := (st.1, bs_put str_ltb folded st.2) in
        _ ← refuse (fails Inspect child) (Package CannotInspectCandidate);
        match kid with
        | Link target =>
          _ ← refuse (fails ReadLink child) (Package CannotReadLink);
          _ ← validate_link_target child target;
          _ ← refuse (fails StageEntry child) (Package CannotStage);
          Ok (stage st name (Link target))
        | Dir _ =>
          _ ← refuse (fails StageEntry child) (Package CannotStage);
          below ← copy_directory kid child st.2;
          Ok (stage (st.1, below.2) name (Dir below.1))
        | File mode data =>
          match measure child with
          | MeasureFailed => Err (Package CannotReadRegular)
          | FileChanged => Err (Package RegularChanged)
          | Measured =>
            _ ← refuse (fails StageEntry child) (Package CannotStage);
            Ok (stage st name (File (normalized_toolchain_file_mode mode) data))
          end
        | Special => Err (Package UnsupportedCandidate)
        end)) kids) ([], portable_paths)
  | _ => Err (Package CannotReadCandidate)
  end.
Definition copy_candidate (candidate : node) : res ContractError node :=
  _ ← refuse (fails StageEntry []) (Package CannotStage);
  st ← copy_directory candidate [] [];
  Ok (Dir st.1).

(** [remove_embedded_manifest] *)
Definition remove_embedded_manifest (root : node) : res ContractError node :=
  let path := [AROS_TOOLCHAIN_MANIFEST_FILE] in
  _ ← refuse (fails Inspect path) (Package ManifestUnreadable);
  match node_at root path with
  | None => Ok root
  | Some (File _ _) =>
    _ ← refuse (fails RemoveManifest path) (Package ManifestNotRegular);
    match root with
    | Dir kids => Ok (Dir (filter (fun k => k.1 <> AROS_TOOLCHAIN_MANIFEST_FILE) kids))
    | _ => Ok root
    end
  | Some _ => Err (Package ManifestNotRegular)
  end.

(** ** Prefix scan: [scan_prefixes] and [scan_directory] *)
Fixpoint scan_directory (n : node) (relative : rel_path) (needles : list (list Z)) (findings : list rel_path) {struct n}
  : res ContractError (list rel_path) :=
  match n with
  | Dir kids =>
    _ ← refuse (fails ReadDir relative) (Package CannotScanDirectory);
    in_order (map (fun k : list Z * node => let '(name, kid) := k in (name, fun findings =>
      if MAX_PREFIX_FINDINGS <=? len findings then Ok findings
      else
        let child := relative ++ [name] in
        _ ← refuse (fails Inspect child) (Package CannotScanDirectory);
        match kid with
        | Dir _ => scan_directory kid child needles findings
        | File _ data =>
          _ ← refuse (fails OpenFile child) (Package CannotScanFile);
          found ← scan_reads needles (file_reads child data) [];
          Ok (if found : bool then findings ++ [child] else findings)
        | _ => Ok findings
        end)) kids) findings
  | _ => Err (Package CannotScanDirectory)
  end.
Definition scan_prefixes (root : node) (prefixes : list (list Z)) : res ContractError unit :=
  needles ← prefix_needles (Package PackagePrefixNotUtf8) prefixes;
  findings ← scan_directory root [] needles [];
  refuse (negb (bool_decide (findings = []))) (Package (ForbiddenPrefixes findings)).

(** ** The archive *)
Fixpoint collect_paths (n : node) (relative : rel_path) (paths : list rel_path) {struct n}
  : res ContractError (list rel_path) :=
  match n with
  | Dir kids =>
    _ ← refuse (fails ReadDir relative) (Package CannotEnumerate);
    in_order (map (fun k : list Z * node => let '(name, kid) := k in (name, fun paths =>
      let child := relative ++ [name] in
      let paths := paths ++ [child] in
      _ ← refuse (fails Inspect child) (Package CannotInspectStaged);
      match kid with
      | Dir _ => collect_paths kid child paths
      | _ => Ok paths
      end)) kids) paths
  | _ => Err (Package CannotEnumerate)
  end.

(** [append_entry] *)
Definition archive_name (archive_root : list Z) (relative : rel_path) (is_dir : bool) : list Z :=
  let name := if bool_decide (relative = []) then archive_root ++ rs "/"
              else archive_root ++ rs "/" ++ path_text_lossy relative in
  if is_dir && negb (ends_with name (rs "/")) then name ++ rs "/" else name.
Definition append_entry (root : node) (epoch : Z) (archive_root : list Z) (archive : list Z) (relative : rel_path)
  : res ContractError (list Z) :=
  _ ← refuse (fails Inspect relative) (Package CannotInspectStaged);
  source ← ok_or (node_at root relative) (Package CannotInspectStaged);
  match source with
  | Link target =>
    _ ← refuse (fails ReadLink relative) (Package CannotReadLink);
    target ← ok_or (from_utf8 target) (Package LinkNotUtf8);
    write_pax_entry accepts archive (archive_name archive_root relative false) m0777 epoch 50 target None
  | Dir _ =>
    write_pax_entry accepts archive (archive_name archive_root relative true) m0755 epoch 53 [] None
  | File mode data =>
    _ ← refuse (fails OpenFile relative) (Package CannotOpenStaged);
    write_pax_entry accepts archive (archive_name archive_root relative false)
      (normalized_toolchain_file_mode mode) epoch 48 [] (Some (file_reads relative data, len data))
  | Special => Err (Package UnsupportedStaged)
  end.

(** [write_payload_archive]: the tar stream, and the file it compresses to. *)
Definition archive_root_ok (archive_root : list Z) : bool :=
  bool_decide (components (utf8 archive_root) = [Normal (utf8 archive_root)]) &&
  is_ok (payload_casefold_path_key (components (utf8 archive_root))).
Definition write_tar_stream (root : node) (epoch : Z) (archive_root : list Z) : res ContractError (list Z) :=
  archive ← append_entry root epoch archive_root [] [];
  paths ← collect_paths root [] [];
  let paths := sort_by str_ltb path_text_lossy paths in
  archive ← foldM (append_entry root epoch archive_root) archive paths;
  archive ← write_all accepts CannotTerminate archive (fill 1024 0);
  let remainder := len archive mod 10240 in
  if remainder =? 0 then Ok archive else write_all accepts CannotAlign archive (fill (10240 - remainder) 0).
Definition write_payload_archive (root : node) (epoch : Z) (archive_root : list Z) : res ContractError (list Z) :=
  _ ← refuse (negb (archive_root_ok archive_root)) (Package BadArchiveRoot);
  _ ← refuse (fails CreateArchive []) (Package CannotCreateArchive);
  tar ← write_tar_stream root epoch archive_root;
  _ ← refuse (fails FinishArchive []) (Package CannotFinish);
  _ ← refuse (fails SyncArchive []) (Package CannotFinish);
  Ok (xz_encode tar).

(** ** Packaging a candidate

    The part of [package_internal] that turns a candidate into an archive.
    [manifest] renders the manifest of an inventory and [layout] checks the tools
    of a GNU candidate in the staged tree; PackageCommand supplies both.
    [write_new] creates the manifest in the staged tree. *)
Variable json : list (list Z * json_value) -> option (list Z).
Variable manifest : list Z -> list ArosToolchainManifestEntry -> res ContractError (list Z).
Variable layout : node -> res ContractError unit.

Definition write_manifest (root : node) (bytes : list Z) : res ContractError node :=
  _ ← refuse (fails WriteManifest [AROS_TOOLCHAIN_MANIFEST_FILE]) (Package ManifestRefused);
  match root with
  | Dir kids =>
    _ ← refuse (bool_decide (is_Some (bt_get AROS_TOOLCHAIN_MANIFEST_FILE kids))) (Package ManifestRefused);
    Ok (Dir (bt_put str_ltb AROS_TOOLCHAIN_MANIFEST_FILE (File m0644 bytes) kids))
  | _ => Err (Package ManifestRefused)
  end.

Record packaged := mkPackaged {
  staged_root : node;
  manifest_bytes : list Z;
  files : list ArosToolchainManifestEntry;
  files_sha256 : list Z;
  archive_bytes : list Z;
}.
Definition package_tree (candidate : node) (forbidden_prefixes : list (list Z)) (epoch : Z) : res ContractError packaged :=
  staged ← copy_candidate candidate;
  staged ← remove_embedded_manifest staged;
  _ ← layout staged;
  _ ← scan_prefixes staged forbidden_prefixes;
  inventory ← map_err (fun _ => Package InventoryFailed) (toolchain_tree_inventory fails measure json staged);
  bytes ← manifest inventory.1 inventory.2;
  staged ← write_manifest staged bytes;
  archive ← write_payload_archive staged epoch ARCHIVE_ROOT;
  Ok (mkPackaged staged bytes inventory.2 inventory.1 archive).
End packaging.
