(* ===== verification/ArchiveScan.v ===== *)
(** * ArchiveScan: reading a package archive

    Models [scan_archive] of
    [crates/aros-toolchain/src/package_verify/raw_tar.rs], the consumers it
    feeds, and the verification of a package of [package_verify.rs].  The trait
    [ArchiveConsumer] is a class over the consumer's state, so that verifying and
    extracting share one scan, as they do in the code. *)

From S2P Require Import Prelude Text Digest StateRes Ordered Publication PayloadPath ArchiveTypes.
From S2P Require Import PrefixScan TarWriter TarReader PayloadTree Packaging.

Class ArchiveConsumer (C : Type) := {
  consume_directory : rel_path -> SR C ContractError unit;
  consume_symlink : rel_path -> list Z -> SR C ContractError unit;
  consume_manifest : rel_path -> list (option (list Z)) -> Z -> SR C ContractError (list Z);
  consume_regular : rel_path -> list Z -> list (option (list Z)) -> Z -> list (list Z) -> SR C ContractError (list Z);
}.

(** [VerifyingArchiveConsumer]: no state of its own. *)
#[export] Instance VerifyingArchiveConsumer {H : Sha256} : ArchiveConsumer unit := {|
  consume_directory _ := mret tt;
  consume_symlink _ _ := mret tt;
  consume_manifest _ reads size := lift (read_exact_entry reads size);
  consume_regular _ _ reads size prefixes := hash_entry_with_output reads size prefixes None;
|}.

(** ** Budgets and paths *)

(** [ArchiveBudget::account] *)
Definition account (budget : Z * Z) (regular_file : bool) (size max_entries max_regular_file_bytes : Z)
  : res ContractError (Z * Z) :=
  entries ← ok_or (checked_add u64_max budget.1 1) (Verification EntryCountOverflow);
  _ ← refuse (max_entries <? entries) (Verification EntryCountLimit);
  if regular_file then
    expanded ← ok_or (checked_add u64_max budget.2 size) (Verification ExpandedSizeOverflow);
    _ ← refuse (max_regular_file_bytes <? expanded) (Verification ExpandedSizeLimit);
    Ok (entries, expanded)
  else Ok (entries, budget.2).

(** [validate_canonical_archive_path] *)
Definition validate_canonical_archive_path (bytes : list Z) (kind : Z) (archive_root : list Z) : res ContractError unit :=
  path ← ok_or (from_utf8 bytes) (Verification EntryPathNotUtf8);
  let is_directory := kind =? 53 in
  _ ← refuse (eqb_list path [] || starts_with path (rs "/")
              || contains_char 92 path || contains_char 0 path
              || contains_str (rs "//") path
              || (negb is_directory && ends_with path (rs "/"))) (Verification EntryPathNotRelativeForm);
  let without := if is_directory && ends_with path (rs "/") then default path (strip_suffix (rs "/") path) else path in
  refuse (existsb (fun c => eqb_list c [] || eqb_list c (rs ".") || eqb_list c (rs "..")) (split_on (Z.eqb 47) without)
          || negb (bool_decide (head (split_on (Z.eqb 47) without) = Some archive_root))) (Verification EntryPathNotCanonical).

Definition normal_name (c : component) : res ContractError (list Z) :=
  match c with Normal name => Ok name | _ => Err (Verification EntryPathNotSafe) end.
(** [package_relative_path] *)
Definition package_relative_path (path archive_root : list Z) : res ContractError (option rel_path * bool) :=
  names ← mapR normal_name (components path);
  match names with
  | [] => Err (Verification EntryPathNotSafe)
  | root :: relative =>
    _ ← refuse (negb (eqb_list root (utf8 archive_root))) (Verification EntryOutsideRoot);
    if bool_decide (relative = []) then Ok (None, true) else Ok (Some relative, false)
  end.

(** [validate_payload_archive_contract] *)
Definition validate_payload_archive_contract {U : UnicodeFold} (contract : PayloadArchiveContract) : res ContractError unit :=
  _ ← refuse (negb (bool_decide (components (utf8 (archive_root contract)) = [Normal (utf8 (archive_root contract))]))
              || (max_entries contract =? 0) || (max_regular_file_bytes contract =? 0)) (Verification InvalidContract);
  _ ← map_err (fun _ => Verification RootNotPortable) (payload_casefold_path_key (components (utf8 (archive_root contract))));
  let cs := components (utf8 (manifest_file contract)) in
  _ ← refuse (bool_decide (cs = []) || negb (forallb (fun c => match c with Normal _ => true | _ => false end) cs))
        (Verification InvalidManifestPath);
  _ ← map_err (fun _ => Verification ManifestPathNotPortable) (payload_casefold_path_key cs);
  Ok tt.

(** [verify_archive_terminal] *)
Fixpoint verify_archive_terminal (reads : list (option (list Z))) (trailer_size : Z) : res ContractError unit :=
  match reads with
  | [] => Ok tt
  | None :: _ => Err (Verification TruncatedStream)
  | Some chunk :: reads =>
    if len chunk =? 0 then Ok tt
    else
      trailer_size ← ok_or (checked_add u64_max trailer_size (len chunk)) (Verification TrailerOverflow);
      _ ← refuse ((20 * 512 <? trailer_size) || existsb (fun b => negb (b =? 0)) chunk) (Verification NoncanonicalTrailer);
      verify_archive_terminal reads trailer_size
  end.

(** ** The scan *)
Record scan_state := mkScan {
  sc_entries : list ArosToolchainManifestEntry;
  sc_seen : list (list Z);
  sc_directories : list rel_path;
  sc_previous : option (list Z);
  sc_manifest : option (list Z);
  sc_tools : option (list Z);
  sc_budget : Z * Z;
  sc_pending : option PaxOverrides;
  sc_pax_total : Z;
  sc_index : Z;
}.
Definition scan_start : scan_state := mkScan [] [] [[]] None None None (0, 0) None 0 0.

Section scan.
Context {H : Sha256} {U : UnicodeFold} {T : TarXz} {C : Type} `{!ArchiveConsumer C}.
Variable contract : PayloadArchiveContract.
Variable forbidden_prefixes : list (list Z).

(** A PAX extension: its overrides wait for the next member. *)
Definition scan_pax (st : scan_state) (entry : tar_entry) : res ContractError scan_state :=
  let h := header entry in
  _ ← refuse ((sc_index st =? 0) || bool_decide (is_Some (sc_pending st))) (Verification MisplacedPax);
  size ← ok_or (header_size h) (Verification InvalidPaxSize);
  _ ← refuse (negb (entry_size entry =? size)) (Verification PaxSizeDiffers);
  _ ← verify_pax_header h size;
  total ← account_pax_extension (sc_pax_total st) size;
  bytes ← read_exact_entry (entry_reads entry) size;
  overrides ← parse_pax_overrides bytes;
  Ok (mkScan (sc_entries st) (sc_seen st) (sc_directories st) (sc_previous st) (sc_manifest st) (sc_tools st)
        (sc_budget st) (Some overrides) total (sc_index st)).

(** Size, budget and path of a member: everything before the root is told
    apart from the rest. *)
Definition member_path (st : scan_state) (entry : tar_entry)
  : res ContractError (Z * (Z * Z) * option rel_path * option (list Z)) :=
  let h := header entry in
  size ← ok_or (header_size h) (Verification InvalidEntrySize);
  _ ← refuse (negb (entry_size entry =? size)) (Verification EntrySizeDiffers);
  budget ← account (sc_budget st) (entry_type h =? 48) size (max_entries contract) (max_regular_file_bytes contract);
  let link := pax ← sc_pending st; pax_linkpath pax in
  _ ← refuse (bool_decide (is_Some link) && negb (entry_type h =? 50)) (Verification LinkpathOfNonLink);
  let bytes := default (path_bytes h) (pax ← sc_pending st; pax_path pax) in
  _ ← validate_canonical_archive_path bytes (entry_type h) (archive_root contract);
  _ ← ok_or (from_utf8 bytes) (Verification EntryPathNotUtf8);
  relative ← package_relative_path bytes (archive_root contract);
  Ok (size, budget, if relative.2 : bool then None else relative.1, link).

(** Order, portability, collisions and parents: the checks every member below
    the root passes before its kind is looked at. *)
Definition admit_member (st : scan_state) (relative : rel_path)
  : res ContractError (list Z * list Z) :=
  text ← ok_or (path_text relative) (Verification EntryPathNotUtf8);
  let text := map (fun c => if c =? 92 then 47 else c) text in
  _ ← refuse (match sc_previous st with Some previous => negb (str_ltb previous text) | None => false end)
        (Verification NotStrictlyOrdered);
  collision ← map_err (fun _ => Verification PathNotPortable) (payload_casefold_path_key (map Normal relative));
  _ ← refuse (bs_has collision (sc_seen st)) (Verification PathCollision);
  up ← ok_or (parent relative) (Verification NoRelativeParent);
  _ ← refuse (negb (bool_decide (up ∈ sc_directories st))) (Verification UndeclaredParent);
  Ok (text, collision).

(** The target of a symbolic link. *)
Definition link_target (h : list Z) (relative : rel_path) (override : option (list Z)) : res ContractError (list Z) :=
  target ← ok_or (match override with Some t => Some t | None => link_name_bytes h end) (Verification LinkWithoutTarget);
  _ ← refuse (eqb_list target [] || contains_char 0 target || contains_char 92 target) (Verification LinkTargetNotCanonical);
  _ ← ok_or (from_utf8 target) (Verification LinkTargetNotUtf8);
  _ ← validate_link_target relative target;
  Ok target.

(** A regular file other than the manifest. *)
Definition scan_regular (st : scan_state) (entry : tar_entry) (size : Z) (relative : rel_path) (text : list Z)
  : SR C ContractError (ArosToolchainManifestEntry * option (list Z)) :=
  mode ← lift (ok_or (header_mode (header entry)) (Verification InvalidMode));
  let mode := if Z.land mode m0111 =? 0 then rs "0644" else rs "0755" in
  if capture_toolchain_tools contract && bool_decide (map Normal relative = components TOOLCHAIN_TOOLS_FILE) then
    _ ← lift (refuse ((MAX_TOOLCHAIN_TOOLS_BYTES <? size) || bool_decide (is_Some (sc_tools st))) (Verification BadToolsContract));
    bytes ← lift (read_exact_entry (entry_reads entry) size);
    sha256 ← consume_regular relative mode [Some bytes] size forbidden_prefixes;
    mret (mkEntry text mode (rs "file") (Some sha256) (Some size) None, Some bytes)
  else
    sha256 ← consume_regular relative mode (entry_reads entry) size forbidden_prefixes;
    mret (mkEntry text mode (rs "file") (Some sha256) (Some size) None, sc_tools st).

Definition scan_member (st : scan_state) (entry : tar_entry) : SR C ContractError scan_state :=
  let h := header entry in
  head ← lift (member_path st entry);
  let '(size, budget, relative, link) := head in
  if sc_index st =? 0 then
    _ ← lift (refuse (bool_decide (is_Some relative) || negb (entry_type h =? 53)) (Verification RootNotFirst));
    _ ← lift (verify_header h (source_date_epoch contract) (Some m0755) 0);
    mret (mkScan (sc_entries st) (sc_seen st) (sc_directories st) (sc_previous st) (sc_manifest st) (sc_tools st)
            budget None (sc_pax_total st) 1)
  else
    index ← lift (ok_or (checked_add u64_max (sc_index st) 1) (Verification EntryCountOverflow));
    relative ← lift (ok_or relative (Verification DuplicateRoot));
    admitted ← lift (admit_member st relative);
    let text := admitted.1 in
    let next entries directories manifest tools :=
      mkScan entries (bs_put str_ltb admitted.2 (sc_seen st)) directories (Some text) manifest tools
        budget None (sc_pax_total st) index in
    if entry_type h =? 53 then
      _ ← lift (verify_header h (source_date_epoch contract) (Some m0755) 0);
      _ ← consume_directory relative;
      mret (next (sc_entries st ++ [directory_entry text]) (relative :: sc_directories st) (sc_manifest st) (sc_tools st))
    else if entry_type h =? 50 then
      _ ← lift (verify_header h (source_date_epoch contract) (Some m0777) 0);
      target ← lift (link_target h relative link);
      _ ← consume_symlink relative target;
      mret (next (sc_entries st ++ [link_entry text (default [] (from_utf8 target))]) (sc_directories st) (sc_manifest st) (sc_tools st))
    else if entry_type h =? 48 then
      _ ← lift (verify_header h (source_date_epoch contract) None size);
      if bool_decide (map Normal relative = components (utf8 (manifest_file contract))) then
        _ ← lift (refuse (bool_decide (is_Some (sc_manifest st)) || (MAX_METADATA_BYTES <? size)) (Verification BadEmbeddedManifest));
        bytes ← consume_manifest relative (entry_reads entry) size;
        mret (next (sc_entries st) (sc_directories st) (Some bytes) (sc_tools st))
      else
        found ← scan_regular st entry size relative text;
        mret (next (sc_entries st ++ [found.1]) (sc_directories st) (sc_manifest st) found.2)
    else fail (Verification UnsupportedEntryType).

(** One iteration of the loop over the archive's entries. *)
Definition scan_entry (st : scan_state) (item : option tar_entry) : SR C ContractError scan_state :=
  entry ← lift (ok_or item (Verification InvalidEntry));
  let kind := entry_type (header entry) in
  _ ← lift (validate_tar_header_string_fields (header entry));
  _ ← lift (refuse ((kind =? 103) || (kind =? 76) || (kind =? 75)) (Verification UnsupportedExtension));
  if kind =? 120 then lift (scan_pax st entry) else scan_member st entry.

Variable json : list (list Z * json_value) -> option (list Z).

(** [scan_archive] *)
Definition scan_archive (input : archive_input) : SR C ContractError ArchiveTree :=
  _ ← lift (validate_payload_archive_contract contract);
  metadata ← lift (ok_or (in_metadata input) (Verification CannotInspectInput));
  _ ← lift (refuse (negb metadata.1 || (MAX_ARCHIVE_BYTES <? metadata.2)) (Verification InputNotWithinLimit));
  opened ← lift (ok_or (open_archive (in_bytes input)) (Verification CannotInitDecoder));
  items ← lift (ok_or (ts_entries opened) (Verification CannotReadStream));
  st ← forM scan_entry scan_start items;
  _ ← lift (refuse (bool_decide (is_Some (sc_pending st))) (Verification OrphanedPax));
  _ ← lift (verify_archive_terminal (ts_rest opened) 0);
  _ ← lift (refuse (negb (ts_total_in opened =? metadata.2)) (Verification TrailingInput));
  manifest ← lift (ok_or (sc_manifest st) (Verification ManifestMissing));
  tree_sha256 ← lift (map_err (fun _ => Verification InventorySerialization) (toolchain_inventory_sha256 json (sc_entries st)));
  mret (mkTree manifest (sc_entries st) tree_sha256 (sc_tools st)).
End scan.

(** [compiler_archive_contract] *)
Definition compiler_archive_contract (epoch : Z) (gnu : bool) : PayloadArchiveContract :=
  mkContract ARCHIVE_ROOT AROS_TOOLCHAIN_MANIFEST_FILE epoch gnu MAX_ARCHIVE_ENTRIES MAX_EXPANDED_ARCHIVE_BYTES.

(** The comparison of an archive with its external manifest in
    [verify_members_validated]. *)
Definition compare_manifest (tree : ArchiveTree) (manifest_bytes : list Z)
    (manifest_files : list ArosToolchainManifestEntry) (manifest_tree_sha256 : list Z) : res ContractError unit :=
  _ ← refuse (negb (bool_decide (embedded_manifest tree = manifest_bytes))) (Verification ManifestNotEmbedded);
  refuse (negb (bool_decide (entries tree = manifest_files)) || negb (bool_decide (tree_sha256 tree = manifest_tree_sha256)))
    (Verification InventoryMismatch).
