(* ===== verification/ArchiveSafety.v ===== *)
(** * ArchiveSafety: what an accepted archive is

    The members a scan has admitted, in the order of the archive, are a log.
    [scan_inv] relates the state of [scan_archive] to its log, for every
    consumer; [scan_archive_sim] carries a relation between two consumers through
    their scans of one archive, and [scan_archive_log] a property of one. *)

From S2P Require Import Prelude Text Digest StateRes Ordered Publication PayloadPath ArchiveTypes.
From S2P Require Import PrefixScan TarWriter TarReader PayloadTree Packaging ArchiveScan.

(** ** The log of a scan *)
Inductive logged :=
| LDir
| LLink (target : list Z)
| LFile (mode : list Z) (size : Z) (sha256 : list Z) (reads : list (option (list Z)))
| LManifest (size : Z) (bytes : list Z).
Abbreviation log_item := (list (list Z) * logged)%type.

Definition item_text (x : log_item) : list Z := default [] (path_text x.1).
#[global] Arguments item_text x : simpl never.
Definition item_entry (x : log_item) : option ArosToolchainManifestEntry :=
  match x.2 with
  | LDir => Some (directory_entry (item_text x))
  | LLink target => Some (link_entry (item_text x) (default [] (from_utf8 target)))
  | LFile mode size sha256 _ => Some (mkEntry (item_text x) mode (rs "file") (Some sha256) (Some size) None)
  | LManifest _ _ => None
  end.
Definition item_size (x : log_item) : Z :=
  match x.2 with LFile _ size _ _ | LManifest size _ => size | _ => 0 end.

(** A directory is available for children: the root or a logged directory. *)
Definition declared (log : list log_item) (d : rel_path) : Prop := d = [] \/ (d, LDir) ∈ log.

(** A link target leaves its directory no further than the root, read name by
    name. *)
Definition inside (relative : rel_path) (target : list Z) : Prop :=
  is_absolute target = false /\ exists depth, foldM link_depth (len (removelast relative)) (components target) = Ok depth.

Section safety.
Context {H : Sha256} {U : UnicodeFold} {T : TarXz}.
Context (contract : PayloadArchiveContract) (prefixes : list (list Z)).

Definition manifest_path : list component := components (utf8 (manifest_file contract)).

Definition item_ok (x : log_item) : Prop :=
  match x.2 with
  | LDir => True
  | LLink target => target <> [] /\ is_Some (from_utf8 target) /\ contains_char 0 target = false /\
                    contains_char 92 target = false /\ inside x.1 target
  | LFile mode _ _ _ => (mode = rs "0644" \/ mode = rs "0755") /\ map Normal x.1 <> manifest_path
  | LManifest size _ => size <= MAX_METADATA_BYTES /\ map Normal x.1 = manifest_path
  end.

(** What a new member may be. *)
Definition admissible (log : list log_item) (relative : rel_path) : Prop :=
  Forall portable_name relative /\ relative <> [] /\
  (forall x, x ∈ log -> str_ltb (item_text x) (default [] (path_text relative)) = true) /\
  (exists k, payload_casefold_path_key (map Normal relative) = Ok k /\
     forall x, x ∈ log -> payload_casefold_path_key (map Normal x.1) <> Ok k) /\
  declared log (removelast relative).

(** A log built by admitting one member after the other. *)
Inductive well_formed_log : list log_item -> Prop :=
| log_nil : well_formed_log []
| log_snoc log x : well_formed_log log -> admissible log x.1 -> item_ok x -> well_formed_log (log ++ [x]).

Definition total_size (log : list log_item) : Z := foldr (fun x n => item_size x + n) 0 log.

(** The tools document a scan has captured is the content of a logged file. *)
Definition captured (log : list log_item) (b : list Z) : Prop :=
  exists p mode size sha, map Normal p = components TOOLCHAIN_TOOLS_FILE /\ (p, LFile mode size sha [Some b]) ∈ log.

Record scan_inv (st : scan_state) (log : list log_item) : Prop := {
  inv_entries : sc_entries st = omap item_entry log;
  inv_seen : forall k, k ∈ sc_seen st <-> exists x, x ∈ log /\ payload_casefold_path_key (map Normal x.1) = Ok k;
  inv_directories : forall d, d ∈ sc_directories st <-> declared log d;
  inv_previous : sc_previous st = item_text <$> last log;
  inv_manifest : forall b, sc_manifest st = Some b <-> exists p size, (p, LManifest size b) ∈ log;
  inv_tools : forall b, sc_tools st = Some b -> captured log b;
  inv_log : well_formed_log log;
  inv_index : sc_index st = 0 /\ log = [] /\ sc_budget st = (0, 0) \/
              1 <= sc_index st /\ (sc_budget st).1 = 1 + len log /\ (sc_budget st).1 <= max_entries contract;
  inv_bytes : (sc_budget st).2 = total_size log /\
              ((sc_budget st).2 = 0 \/ (sc_budget st).2 <= max_regular_file_bytes contract);
}.

(** ** Properties of a log *)
Lemma log_inv log : well_formed_log log -> Forall (fun x => Forall portable_name x.1 /\ x.1 <> [] /\ item_ok x) log.
Proof.
  induction 1 as [|log x Hlog IH Hadm Hok]; [constructor|]. apply Forall_app. split; [done|].
  apply Forall_singleton. destruct Hadm as (? & ? & _). done.
Qed.

Lemma log_sorted log : well_formed_log log -> ForallOrdPairs (fun x y => str_ltb (item_text x) (item_text y) = true) log.
Proof.
  induction 1 as [|log x Hlog IH Hadm Hok]; [constructor|]. apply ForallOrdPairs_snoc. split; [done|].
  apply Forall_forall. intros y Hy. destruct Hadm as (_ & _ & Hlt & _). by apply Hlt.
Qed.

Lemma log_last log x y : well_formed_log log -> last log = Some y -> x ∈ log ->
  x = y \/ str_ltb (item_text x) (item_text y) = true.
Proof.
  intros Hlog. destruct Hlog as [|log z Hlog Hadm Hok]; [done|]. rewrite last_snoc. intros [= ->].
  rewrite elem_of_app, list_elem_of_singleton. intros [Hx| ->]; [right|by left].
  destruct Hadm as (_ & _ & Hlt & _). by apply Hlt.
Qed.

Lemma log_declared log : well_formed_log log -> Forall (fun x => declared log (removelast x.1)) log.
Proof.
  assert (forall l x d, declared l d -> declared (l ++ [x]) d) as Hmono.
  { intros l x d [->|Hd]; [by left|right]. apply elem_of_app. by left. }
  induction 1 as [|log x Hlog IH Hadm Hok]; [constructor|]. apply Forall_app. split.
  - eapply Forall_impl; [exact IH|]. cbn. eauto.
  - apply Forall_singleton. destruct Hadm as (_ & _ & _ & _ & Hd). by apply Hmono.
Qed.

Lemma total_size_snoc log x : total_size (log ++ [x]) = total_size log + item_size x.
Proof. unfold total_size. induction log as [|y log IH]; cbn; lia. Qed.

Lemma portable_text_unslash p t : Forall portable_name p -> path_text p = Some t ->
  map (fun c => if c =? 92 then 47 else c) t = t.
Proof.
  intros Hp Ht. destruct (path_text_portable p Hp) as (texts & _ & Htexts & Ht'). rewrite Ht in Ht'. injection Ht' as ->.
  enough (Forall (fun c => c <> 92) (join (rs "/") texts)) as Hall.
  { clear -Hall. induction Hall as [|c l Hc Hl IH]; [done|]. cbn. rewrite IH. by destruct (Z.eqb_spec c 92). }
  clear -Htexts. induction Htexts as [|t texts Ht Htexts IH]; [constructor|].
  assert (Forall (fun c => c <> 92) t) as Ht92.
  { destruct Ht as (_ & _ & _ & Hc & _). eapply Forall_impl; [exact Hc|]. cbn. naive_solver. }
  destruct texts as [|t' texts]; [done|]. rewrite join_cons2. rewrite !Forall_app. split_and!; [done| |done].
  by repeat constructor.
Qed.

(** [admit_member] admits exactly what the log may grow by. *)
Lemma admit_member_Ok st log relative text k : scan_inv st log ->
  admit_member st relative = Ok (text, k) ->
  admissible log relative /\ path_text relative = Some text /\ payload_casefold_path_key (map Normal relative) = Ok k.
Proof.
  intros Hinv. unfold admit_member. cbv zeta. intros Hadm. inv_guards.
  match goal with H : payload_casefold_path_key _ = Ok _ |- _ => rename H into Hk end.
  match goal with H : path_text relative = Some ?t |- _ => rename H into Ht; rename t into txt end.
  match goal with H : parent relative = Some ?u |- _ => rename H into Hup; rename u into up end.
  destruct (payload_key_portable _ _ Hk) as [Hp Hne]. rewrite (portable_text_unslash _ _ Hp Ht) in *.
  split; [|done]. split_and!; [done|done| |exists k; split; [done|] |].
  - intros x Hx. rewrite Ht. cbn [default]. destruct (last log) as [y|] eqn:Hl.
    2: { apply last_None in Hl. subst log. by apply elem_of_nil in Hx. }
    assert (str_ltb (item_text y) txt = true) as Hyt.
    { rewrite (inv_previous _ _ Hinv), Hl in *. cbn in H1. by bool_prop. }
    destruct (log_last log x y (inv_log _ _ Hinv) Hl Hx) as [->|Hxy]; [done|]. by eapply ltb_trans.
  - intros x Hx Ek. assert (k ∈ sc_seen st) as Hin by (apply (inv_seen _ _ Hinv); eauto).
    apply bs_has_true in Hin. congruence.
  - apply (inv_directories _ _ Hinv). apply parent_Some in Hup as [n ->]. rewrite removelast_last. done.
Qed.

(** ** What the parts of a step establish *)
Lemma account_Ok budget regular size me mb b : account budget regular size me mb = Ok b ->
  b.1 = budget.1 + 1 /\ b.1 <= me /\
  (if regular then b.2 = budget.2 + size /\ b.2 <= mb else b.2 = budget.2).
Proof.
  unfold account. intros Hacc. destruct regular; inv_guards;
    repeat match goal with H : checked_add _ _ _ = Some _ |- _ => apply checked_add_Some in H as [-> ?] end; cbn; split_and!; try lia; done.
Qed.

Lemma member_path_Ok st entry size budget rel link : member_path contract st entry = Ok (size, budget, rel, link) ->
  account (sc_budget st) (entry_type (header entry) =? 48) size (max_entries contract) (max_regular_file_bytes contract) = Ok budget.
Proof. unfold member_path. cbv zeta. intros Hm. inv_guards. done. Qed.

Lemma link_target_Ok h p override t : p <> [] -> link_target h p override = Ok t -> item_ok (p, LLink t).
Proof.
  intros Hne. unfold link_target. intros Hl. inv_guards. unfold item_ok, inside. cbn.
  match goal with H : validate_link_target _ _ = Ok _ |- _ => rename H into Hv end.
  unfold validate_link_target in Hv. cbv zeta in Hv. inv_guards.
  match goal with H : eqb_list _ _ = false |- _ => apply bool_decide_eq_false in H end.
  split_and!; try done. destruct p as [|a p]; [done|]. cbn [parent] in *. eauto.
Qed.

(** What admitting one item does to the invariant. *)
Lemma scan_inv_snoc st log x text k st' : scan_inv st log ->
  path_text x.1 = Some text -> payload_casefold_path_key (map Normal x.1) = Ok k ->
  admissible log x.1 -> item_ok x ->
  1 <= sc_index st -> 1 <= sc_index st' -> sc_entries st' = sc_entries st ++ (match item_entry x with Some e => [e] | None => [] end) ->
  sc_seen st' = bs_put str_ltb k (sc_seen st) ->
  sc_directories st' = (match x.2 with LDir => [x.1] | _ => [] end) ++ sc_directories st ->
  sc_previous st' = Some text ->
  sc_manifest st' = (match x.2 with LManifest _ b => Some b | _ => sc_manifest st end) ->
  (sc_budget st').1 = (sc_budget st).1 + 1 -> (sc_budget st').1 <= max_entries contract ->
  (sc_budget st').2 = (sc_budget st).2 + item_size x ->
  ((sc_budget st').2 = (sc_budget st).2 \/ (sc_budget st').2 <= max_regular_file_bytes contract) ->
  (forall b, sc_tools st' = Some b -> sc_tools st = Some b \/
     map Normal x.1 = components TOOLCHAIN_TOOLS_FILE /\ exists mode size sha, x.2 = LFile mode size sha [Some b]) ->
  scan_inv st' (log ++ [x]).
Proof.
  intros Hinv Ht Hk Hadm Hok Hi Hi' He Hs Hd Hp Hm Hb1 Hb1' Hb2 Hb2' Htools.
  split.
  - rewrite He, (inv_entries _ _ Hinv), omap_app. cbn. by destruct (item_entry x).
  - intros k'. rewrite Hs, (elem_of_bs_put str_ltb), (inv_seen _ _ Hinv). setoid_rewrite elem_of_app.
    setoid_rewrite list_elem_of_singleton. split.
    + intros [->|(y & Hy & E)]; eauto.
    + intros (y & [Hy| ->] & E); [eauto|]. left. congruence.
  - intros d. rewrite Hd, elem_of_app, (inv_directories _ _ Hinv). unfold declared.
    rewrite elem_of_app, list_elem_of_singleton. destruct x as [p [ | | | ] ]; cbn;
      rewrite ?list_elem_of_singleton, ?elem_of_nil; naive_solver.
  - rewrite Hp, last_snoc. cbn. unfold item_text. by rewrite Ht.
  - intros b. rewrite Hm. setoid_rewrite elem_of_app. setoid_rewrite list_elem_of_singleton.
    pose proof (inv_manifest _ _ Hinv b) as Hb. destruct x as [p [ |t|mode size sha reads|size b'] ]; cbn; try naive_solver.
    split; [intros [= ->]; eauto|]. intros (p' & size' & [Hin|[= -> -> ->] ]); [|done]. exfalso.
    (* a second manifest would have the same path *)
    pose proof (log_inv _ (inv_log _ _ Hinv)) as Hall. rewrite Forall_forall in Hall.
    destruct (Hall _ Hin) as (Hpn & _ & _ & Hpath). destruct Hok as [_ Hpath']. cbn in *.
    destruct Hadm as (_ & _ & _ & (k' & Ek & Hnew) & _). cbn in Ek. apply (Hnew _ Hin). cbn. by rewrite Hpath, <- Hpath'.
  - intros b [Hb|(Hb & mode & size & sha & Ex)]%Htools.
    + destruct (inv_tools _ _ Hinv b Hb) as (p & mode & size & sha & ? & ?). exists p, mode, size, sha. rewrite elem_of_app. auto.
    + exists x.1, mode, size, sha. split; [done|]. rewrite <- Ex, elem_of_app, list_elem_of_singleton. right. by destruct x.
  - by constructor; [apply inv_log with st|..].
  - right. split; [done|]. destruct (inv_index _ _ Hinv) as [(? & _)|(_ & E & _)]; [lia|].
    rewrite len_app, Hb1, E. change (len [x]) with 1. split; [lia|]. lia.
  - destruct (inv_bytes _ _ Hinv) as [E1 E2]. rewrite total_size_snoc. split; [lia|]. destruct Hb2' as [->|]; [done|by right].
Qed.
Lemma scan_pax_inv st log entry st' : scan_inv st log -> scan_pax st entry = Ok st' -> scan_inv st' log.
Proof.
  intros Hinv. unfold scan_pax. cbv zeta. intros Hp. inv_guards. destruct Hinv. by constructor.
Qed.

Lemma mode_text_ok mode : (if Z.land mode m0111 =? 0 then rs "0644" else rs "0755") = rs "0644" \/
  (if Z.land mode m0111 =? 0 then rs "0644" else rs "0755") = rs "0755".
Proof. case_match; auto. Qed.

(** ** A relation carried through two scans

    The first consumer decides whether the archive is accepted; the second takes
    whatever the first has taken, with the same results. *)
Definition new_item (log : list log_item) (x : log_item) : Prop :=
  well_formed_log log /\ admissible log x.1 /\ item_ok x.

Section simulation.
Context {C1 C2 : Type} {A1 : ArchiveConsumer C1} {A2 : ArchiveConsumer C2} (R : list log_item -> C1 -> C2 -> Prop).

Record consumer_simulates : Prop := {
  simulates_directory : forall log p s1 s1' s2, new_item log (p, LDir) -> R log s1 s2 ->
    consume_directory p s1 = (Ok tt, s1') -> exists s2', consume_directory p s2 = (Ok tt, s2') /\ R (log ++ [(p, LDir)]) s1' s2';
  simulates_symlink : forall log p t s1 s1' s2, new_item log (p, LLink t) -> R log s1 s2 ->
    consume_symlink p t s1 = (Ok tt, s1') -> exists s2', consume_symlink p t s2 = (Ok tt, s2') /\ R (log ++ [(p, LLink t)]) s1' s2';
  simulates_regular : forall log p mode reads size sha s1 s1' s2, new_item log (p, LFile mode size sha reads) -> R log s1 s2 ->
    consume_regular p mode reads size prefixes s1 = (Ok sha, s1') ->
    exists s2', consume_regular p mode reads size prefixes s2 = (Ok sha, s2') /\ R (log ++ [(p, LFile mode size sha reads)]) s1' s2';
  simulates_manifest : forall log p reads size bytes s1 s1' s2, new_item log (p, LManifest size bytes) -> R log s1 s2 ->
    consume_manifest p reads size s1 = (Ok bytes, s1') ->
    exists s2', consume_manifest p reads size s2 = (Ok bytes, s2') /\ R (log ++ [(p, LManifest size bytes)]) s1' s2';
}.

Hypothesis sim : consumer_simulates.

(** A computation that does not depend on the consumer. *)
Ltac same := apply SR_bind_Ok; eexists _, _; split; [apply lift_Ok; split; [eassumption|reflexivity]|].
(** The operation of the second consumer that [Hrun] says succeeds. *)
Ltac step Hrun := apply SR_bind_Ok; eexists _, _; split; [exact Hrun|].

Lemma scan_regular_sim st entry size p text found log s1 s1' s2 : R log s1 s2 -> path_text p = Some text ->
  well_formed_log log -> admissible log p -> map Normal p <> manifest_path ->
  scan_regular contract prefixes st entry size p text s1 = (Ok found, s1') ->
  exists mode sha reads s2', scan_regular contract prefixes st entry size p text s2 = (Ok found, s2') /\
    item_ok (p, LFile mode size sha reads) /\ R (log ++ [(p, LFile mode size sha reads)]) s1' s2' /\
    item_entry (p, LFile mode size sha reads) = Some found.1 /\
    (forall b, found.2 = Some b -> sc_tools st = Some b \/ map Normal p = components TOOLCHAIN_TOOLS_FILE /\ reads = [Some b]).
Proof.
  intros HR Ht Hlog Hadm Hm. unfold scan_regular. intros (mode & s & [Hmode ->]%lift_Ok & Hrun)%SR_bind_Ok. cbv zeta in Hrun |- *.
  set (tm := if Z.land mode m0111 =? 0 then rs "0644" else rs "0755") in *.
  assert (forall sha reads, item_ok (p, LFile tm size sha reads)) as Hok by (intros sha reads; split; [apply mode_text_ok|done]).
  assert (forall sha reads, item_entry (p, LFile tm size sha reads) = Some (mkEntry text tm (rs "file") (Some sha) (Some size) None)) as Hent
    by (intros sha reads; unfold item_entry, item_text; cbn [fst snd]; by rewrite Ht).
  assert (forall reads sha, consume_regular p tm reads size prefixes s1 = (Ok sha, s1') ->
    exists s2', consume_regular p tm reads size prefixes s2 = (Ok sha, s2') /\ R (log ++ [(p, LFile tm size sha reads)]) s1' s2') as Hsim
    by (intros; eapply (simulates_regular sim); [split_and!; [done|done|apply Hok]|done|done]).
  destruct (_ && _) eqn:Ecap.
  - apply andb_true_iff in Ecap as [_ Ecap%bool_decide_eq_true]. apply SR_bind_Ok in Hrun as (u & s & [Hr ->]%lift_Ok & Hrun). apply SR_bind_Ok in Hrun as (bytes & s & [Hb ->]%lift_Ok & Hrun).
    apply SR_bind_Ok in Hrun as (sha & s & Hreg & Hrun). injection Hrun as <- <-. apply Hsim in Hreg as (s2' & Hreg & HR').
    exists tm, sha, [Some bytes], s2'. split_and!; [|apply Hok|done|apply Hent|intros b [= <-]; by right]. same. same. same. step Hreg. done.
  - apply SR_bind_Ok in Hrun as (sha & s & Hreg & Hrun). injection Hrun as <- <-. apply Hsim in Hreg as (s2' & Hreg & HR').
    exists tm, sha, (entry_reads entry), s2'. split_and!; [|apply Hok|done|apply Hent|by left]. same. step Hreg. done.
Qed.

Lemma scan_member_sim st log entry st' s1 s1' s2 : scan_inv st log -> R log s1 s2 ->
  scan_member contract prefixes st entry s1 = (Ok st', s1') ->
  exists log' s2', scan_member contract prefixes st entry s2 = (Ok st', s2') /\ scan_inv st' log' /\ R log' s1' s2'.
Proof.
  intros Hinv HR. unfold scan_member. cbv zeta.
  intros ([[ [size budget] rel] link] & s & [Hmp ->]%lift_Ok & Hrun)%SR_bind_Ok.
  pose proof (account_Ok _ _ _ _ _ _ (member_path_Ok _ _ _ _ _ _ Hmp)) as (Hb1 & Hb1' & Hb2).
  destruct (Z.eqb_spec (sc_index st) 0) as [Hi|Hi].
  { apply SR_bind_Ok in Hrun as (u & s & [Hr ->]%lift_Ok & Hrun). apply SR_bind_Ok in Hrun as (u' & s & [Hv ->]%lift_Ok & Hrun).
    injection Hrun as <- <-. exists log, s2. split; [by same; same; same|]. apply refuse_Ok in Hr. bool_prop. split; [|done].
    destruct (inv_index _ _ Hinv) as [(_ & -> & Eb)|(? & _)]; [|lia]. rewrite Eb in *. cbn [fst snd] in *.
    rewrite (proj2 (Z.eqb_neq (entry_type _) 48)) in Hb2 by lia. destruct Hinv. constructor; try done.
    - right. cbn. rewrite len_nil. lia.
    - cbn. rewrite Hb2. cbn. auto. }
  destruct (inv_index _ _ Hinv) as [(? & _)|(Hi1 & _)]; [done|].
  apply SR_bind_Ok in Hrun as (index & s & [Hidx ->]%lift_Ok & Hrun). pose proof Hidx as Hidx'%ok_or_Ok%checked_add_Some.
  apply SR_bind_Ok in Hrun as (p & s & [Hp ->]%lift_Ok & Hrun). apply SR_bind_Ok in Hrun as ([text k] & s & [Hadm ->]%lift_Ok & Hrun).
  destruct (admit_member_Ok _ _ _ _ _ Hinv Hadm) as (Hadm' & Ht & Hk). cbn [fst snd] in Hrun.
  pose proof (inv_log _ _ Hinv) as Hlog.
  assert (forall x, item_text (p, x) = text) as Etext by (intros x; unfold item_text; cbn [fst]; by rewrite Ht).
  destruct (Z.eqb_spec (entry_type (header entry)) 53) as [E53|N53].
  { apply SR_bind_Ok in Hrun as (u & s & [Hv ->]%lift_Ok & Hrun). apply SR_bind_Ok in Hrun as ([] & s & Hdir & Hrun). injection Hrun as <- <-.
    eapply (simulates_directory sim) in Hdir as (s2' & Hdir & HR'); [|done|done]. exists (log ++ [(p, LDir)]), s2'. split_and!; [| |done].
    - same. same. same. same. cbn [fst snd]. same. step Hdir. done.
    - rewrite (proj2 (Z.eqb_neq _ 48)) in Hb2 by lia.
      eapply (scan_inv_snoc st log (p, LDir)); try done; try (cbn; rewrite ?Etext; lia || done); by left. }
  destruct (Z.eqb_spec (entry_type (header entry)) 50) as [E50|N50].
  { apply SR_bind_Ok in Hrun as (u & s & [Hv ->]%lift_Ok & Hrun). apply SR_bind_Ok in Hrun as (target & s & [Hlt ->]%lift_Ok & Hrun).
    apply SR_bind_Ok in Hrun as ([] & s & Hlink & Hrun). injection Hrun as <- <-.
    pose proof Hlt as Hlt'%link_target_Ok; [|by destruct Hadm' as (_ & ? & _)].
    eapply (simulates_symlink sim) in Hlink as (s2' & Hlink & HR'); [|done|done]. exists (log ++ [(p, LLink target)]), s2'. split_and!; [| |done].
    - same. same. same. same. cbn [fst snd]. same. same. step Hlink. done.
    - rewrite (proj2 (Z.eqb_neq _ 48)) in Hb2 by lia.
      eapply (scan_inv_snoc st log (p, LLink target)); try done; try (cbn; rewrite ?Etext; lia || done); by left. }
  destruct (Z.eqb_spec (entry_type (header entry)) 48) as [E48|N48]; [|done].
  apply SR_bind_Ok in Hrun as (u & s & [Hv ->]%lift_Ok & Hrun). case_bool_decide as Hman.
  - apply SR_bind_Ok in Hrun as (u' & s & [Hr ->]%lift_Ok & Hrun). apply SR_bind_Ok in Hrun as (bytes & s & Hm & Hrun). injection Hrun as <- <-.
    pose proof Hr as Hr'%refuse_Ok. bool_prop.
    eapply (simulates_manifest sim _ p) in Hm as (s2' & Hm & HR'); [|done|done]. exists (log ++ [(p, LManifest size bytes)]), s2'. split_and!; [| |done].
    + same. same. same. same. cbn [fst snd]. same. rewrite bool_decide_eq_true_2 by done. same. step Hm. done.
    + eapply (scan_inv_snoc st log (p, LManifest size _)); try done; try (cbn; unfold item_entry; cbn; rewrite ?app_nil_r; lia || done); by left.
  - apply SR_bind_Ok in Hrun as (found & s & Hreg & Hrun). injection Hrun as <- <-.
    destruct (scan_regular_sim _ _ _ _ _ _ _ _ _ _ HR Ht Hlog Hadm' Hman Hreg) as (mode & sha & reads & s2' & Hreg' & Hok & HR' & He & Htools).
    exists (log ++ [(p, LFile mode size sha reads)]), s2'. split_and!; [| |done].
    + same. same. same. same. cbn [fst snd]. same. rewrite bool_decide_eq_false_2 by done. step Hreg'. done.
    + eapply (scan_inv_snoc st log (p, LFile mode size sha reads)); try done; try (cbn; lia || done); [by rewrite He|].
      intros b [?|[? ->] ]%Htools; [by left|]. right. eauto.
Qed.

Lemma scan_entries_sim items : forall st log s1 st' s1' s2, scan_inv st log -> R log s1 s2 ->
  forM (scan_entry contract prefixes) st items s1 = (Ok st', s1') ->
  exists log' s2', forM (scan_entry contract prefixes) st items s2 = (Ok st', s2') /\ scan_inv st' log' /\ R log' s1' s2'.
Proof.
  induction items as [|item items IH]; intros st log s1 st' s1' s2 Hinv HR; cbn [forM]; [intros [= <- <-]; by eexists _, _|].
  intros (st1 & s & Hstep & Hrest)%SR_bind_Ok.
  assert (exists log1 s2', scan_entry contract prefixes st item s2 = (Ok st1, s2') /\ scan_inv st1 log1 /\ R log1 s s2') as (log1 & s3 & Hrun & Hinv1 & HR1).
  { revert Hstep. unfold scan_entry. intros (entry & s3 & [Hit ->]%lift_Ok & Hstep)%SR_bind_Ok. cbv zeta in Hstep.
    apply SR_bind_Ok in Hstep as (u & s3 & [Hf ->]%lift_Ok & Hstep). apply SR_bind_Ok in Hstep as (u' & s3 & [Hr ->]%lift_Ok & Hstep).
    destruct (_ =? 120) eqn:Ek.
    - apply lift_Ok in Hstep as [Hpax ->]. exists log, s2. split_and!; [|by eapply scan_pax_inv|done].
      same. cbv zeta. same. same. rewrite Ek. by apply lift_Ok.
    - destruct (scan_member_sim _ _ _ _ _ _ _ Hinv HR Hstep) as (log1 & s3 & Hm & ? & ?). exists log1, s3. split_and!; [|done|done].
      same. cbv zeta. same. same. by rewrite Ek. }
  destruct (IH _ _ _ _ _ _ Hinv1 HR1 Hrest) as (log' & s2' & Hrun' & ? & ?). exists log', s2'. split_and!; [|done|done]. by step Hrun.
Qed.

(** What the first consumer accepts, the second accepts with the same result;
    the archive is a well-formed log whose entries are the inventory, within the
    limits of its contract. *)
Lemma scan_archive_sim json input s1 tree s1' s2 : R [] s1 s2 ->
  scan_archive contract prefixes json input s1 = (Ok tree, s1') ->
  exists log s2', scan_archive contract prefixes json input s2 = (Ok tree, s2') /\
    well_formed_log log /\ R log s1' s2' /\ entries tree = omap item_entry log /\
    (exists p size, (p, LManifest size (embedded_manifest tree)) ∈ log) /\
    1 + len log <= max_entries contract /\
    (total_size log = 0 \/ total_size log <= max_regular_file_bytes contract) /\
    toolchain_inventory_sha256 json (entries tree) = Ok (tree_sha256 tree) /\
    (forall b, toolchain_tools tree = Some b -> captured log b).
Proof.
  intros HR. unfold scan_archive. intros Hrun.
  repeat (apply SR_bind_Ok in Hrun as (? & ? & [? ->]%lift_Ok & Hrun)). apply SR_bind_Ok in Hrun as (st & s & Hscan & Hrun).
  repeat (apply SR_bind_Ok in Hrun as (? & ? & [? ->]%lift_Ok & Hrun)). injection Hrun as <- <-.
  destruct (fun Hi => scan_entries_sim _ _ [] _ _ _ _ Hi HR Hscan) as (log & s2' & Hscan' & Hinv & HR').
  - split; cbn; try done; try (intros; set_solver); try by left.
    intros d. rewrite list_elem_of_singleton. unfold declared. set_solver.
  - exists log, s2'. split; [do 5 same; step Hscan'; do 5 same; done|]. cbn. pose proof (inv_entries _ _ Hinv) as He.
    match goal with H : ok_or (sc_manifest _) _ = Ok _ |- _ => apply ok_or_Ok, (inv_manifest _ _ Hinv) in H; rename H into Hman end.
    split_and!; try done.
    + apply Hinv.
    + destruct (inv_index _ _ Hinv) as [(_ & -> & _)|(_ & E & ?)]; [|lia]. destruct Hman as (? & ? & []%elem_of_nil).
    + destruct (inv_bytes _ _ Hinv) as [<- ?]. done.
    + by eapply map_err_Ok.
    + apply Hinv.
Qed.
End simulation.

(** ** A property carried through one scan *)
Section rule.
Context {C : Type} {consumer : ArchiveConsumer C} (R : list log_item -> C -> Prop).

Record consumer_keeps : Prop := {
  keeps_directory : forall log p s s', new_item log (p, LDir) -> R log s ->
    consume_directory p s = (Ok tt, s') -> R (log ++ [(p, LDir)]) s';
  keeps_symlink : forall log p t s s', new_item log (p, LLink t) -> R log s ->
    consume_symlink p t s = (Ok tt, s') -> R (log ++ [(p, LLink t)]) s';
  keeps_regular : forall log p mode reads size sha s s', new_item log (p, LFile mode size sha reads) -> R log s ->
    consume_regular p mode reads size prefixes s = (Ok sha, s') -> R (log ++ [(p, LFile mode size sha reads)]) s';
  keeps_manifest : forall log p reads size bytes s s', new_item log (p, LManifest size bytes) -> R log s ->
    consume_manifest p reads size s = (Ok bytes, s') -> R (log ++ [(p, LManifest size bytes)]) s';
}.

Lemma keeps_simulates : consumer_keeps -> consumer_simulates (fun log s1 s2 => s2 = s1 /\ R log s1).
Proof.
  intros [Hd Hs Hr Hm]. split.
  - intros log p s1 s1' s2 Hn [-> HR] Hrun. eauto.
  - intros log p t s1 s1' s2 Hn [-> HR] Hrun. eauto.
  - intros log p mode reads size sha s1 s1' s2 Hn [-> HR] Hrun. eauto.
  - intros log p reads size bytes s1 s1' s2 Hn [-> HR] Hrun. eauto.
Qed.

Lemma scan_archive_log json input s tree s' : consumer_keeps -> R [] s ->
  scan_archive contract prefixes json input s = (Ok tree, s') ->
  exists log, well_formed_log log /\ R log s' /\ entries tree = omap item_entry log /\
    (exists p size, (p, LManifest size (embedded_manifest tree)) ∈ log) /\
    1 + len log <= max_entries contract /\
    (total_size log = 0 \/ total_size log <= max_regular_file_bytes contract) /\
    toolchain_inventory_sha256 json (entries tree) = Ok (tree_sha256 tree) /\
    (forall b, toolchain_tools tree = Some b -> captured log b).
Proof.
  intros Hkeeps HR Hrun. destruct (scan_archive_sim _ (keeps_simulates Hkeeps) json input s tree s' s (conj eq_refl HR) Hrun)
    as (log & s2' & _ & Hlog & [_ HR'] & Hrest). exists log. done.
Qed.
End rule.
End safety.
