(* ===== verification/Extraction.v ===== *)
(** * Extraction: writing the members of an archive below a fresh root

    Models [ExtractingArchiveConsumer] and [extract_payload_archive] of
    [crates/aros-toolchain/src/package_verify.rs] and [open_directory] of
    [filesystem.rs].  The disk is one tree.  Creating an entry resolves the
    path of its parent as the kernel does, following symbolic links; only
    [open_directory] refuses them. *)

From S2P Require Import Prelude Text Digest StateRes Ordered Publication PayloadPath ArchiveTypes.
From S2P Require Import PrefixScan TarWriter TarReader PayloadTree Packaging ArchiveScan.

(** ** The disk *)

(** [n] in the place of what is at [path]; the parent is a directory. *)
Fixpoint put_at (d : node) (path : rel_path) (n : node) : node :=
  match path with
  | [] => n
  | name :: path =>
    match d with
    | Dir kids =>
      match path with
      | [] => Dir (bt_put str_ltb name n kids)
      | _ => match bt_get name kids with
             | Some kid => Dir (bt_put str_ltb name (put_at kid path n) kids)
             | None => d
             end
      end
    | _ => d
    end
  end.

(** Where a path leads from the directory [here]: at most [hops] symbolic links
    are followed, and every component on the way is a directory. *)
Definition MAX_SYMLINKS : nat := 40.
Fixpoint follow (hops : nat) (d : node) (here : rel_path) (pending : list component) : option rel_path :=
  (fix go (here : rel_path) (pending : list component) : option rel_path :=
     match pending with
     | [] => Some here
     | RootDir :: rest => go [] rest
     | CurDir :: rest => go here rest
     | ParentDir :: rest => go (removelast here) rest
     | Normal name :: rest =>
       match node_at d (here ++ [name]) with
       | Some (Dir _) => go (here ++ [name]) rest
       | Some (Link target) =>
         match hops with
         | O => None
         | S hops => follow hops d here (components target ++ rest)
         end
       | _ => None
       end
     end) here pending.

(** The place of the last name of a path: in the directory its parent leads to. *)
Definition locate (d : node) (path : rel_path) : option rel_path :=
  name ← last path;
  dir ← follow MAX_SYMLINKS d [] (map Normal (removelast path));
  Some (dir ++ [name]).

(** The system calls: [mkdir], [open] with [O_CREAT | O_EXCL], [symlink],
    [chmod] and [lstat]. *)
Definition create_node (d : node) (path : rel_path) (n : node) : option (node * rel_path) :=
  real ← locate d path;
  match node_at d real with
  | None => Some (put_at d real n, real)
  | Some _ => None
  end.
Definition lstat (d : node) (path : rel_path) : option node :=
  real ← locate d path; node_at d real.
Definition chmod (d : node) (path : rel_path) (mode : Z) : option node :=
  real ← locate d path;
  real ← match node_at d real with
         | Some (Link target) => follow MAX_SYMLINKS d (removelast real) (components target)
         | _ => Some real
         end;
  match node_at d real with
  | Some (File _ data) => Some (put_at d real (File mode data))
  | Some (Dir kids) => Some d
  | _ => None
  end.
Definition append_data (d : node) (real : rel_path) (bytes : list Z) : node :=
  match node_at d real with
  | Some (File mode data) => put_at d real (File mode (data ++ bytes))
  | _ => d
  end.

(** [open_directory]: every component is opened with [O_DIRECTORY | O_NOFOLLOW]. *)
Definition open_directory (d : node) (path : rel_path) : bool :=
  match node_at d path with Some (Dir _) => true | _ => false end.

(** ** The extracting consumer *)
Record extraction := mkExtraction { ex_disk : node; ex_directories : list rel_path }.

Inductive ex_call := ExMkdir | ExChmod | ExCreate | ExWrite | ExSync | ExSymlink | ExLstat | ExOpenDir.

Section consumer.
Context {H : Sha256}.
Variable root : rel_path.
(** [ex_fails c p]: the call fails on this path for a reason of its own. *)
Variable ex_fails : ex_call -> rel_path -> bool.
(** The mode [open] gives a new file. *)
Variable create_mode : Z.

Definition set_disk (d : node) : SR extraction ContractError unit :=
  update (fun s => mkExtraction d (ex_directories s)).

Definition try_call (c : ex_call) (p : rel_path) (m : verification_message) : SR extraction ContractError unit :=
  lift (refuse (ex_fails c p) (Verification m)).

(** [require_parent] *)
Definition require_parent (relative : rel_path) : SR extraction ContractError unit :=
  up ← lift (ok_or (parent relative) (Verification ExtractionNoParent));
  dirs ← gets ex_directories;
  _ ← lift (refuse (negb (bool_decide (up ∈ dirs))) (Verification ExtractionUndeclaredParent));
  _ ← try_call ExOpenDir up ExtractionParentChanged;
  d ← gets ex_disk;
  lift (refuse (negb (open_directory d (root ++ up))) (Verification ExtractionParentChanged)).

Definition create (c : ex_call) (relative : rel_path) (n : node) (m : verification_message)
  : SR extraction ContractError rel_path :=
  _ ← try_call c relative m;
  d ← gets ex_disk;
  made ← lift (ok_or (create_node d (root ++ relative) n) (Verification m));
  _ ← set_disk made.1;
  mret made.2.

Definition set_mode (relative : rel_path) (mode : Z) (m : verification_message) : SR extraction ContractError unit :=
  _ ← try_call ExChmod relative m;
  d ← gets ex_disk;
  d ← lift (ok_or (chmod d (root ++ relative) mode) (Verification m));
  set_disk d.

(** [create_directory] *)
Definition create_directory (relative : rel_path) : SR extraction ContractError unit :=
  _ ← require_parent relative;
  _ ← create ExMkdir relative (Dir []) CannotCreateDirectory;
  _ ← set_mode relative m0755 CannotSetDirectoryMode;
  _ ← try_call ExOpenDir relative DirectoryNotReal;
  d ← gets ex_disk;
  _ ← lift (refuse (negb (open_directory d (root ++ relative))) (Verification DirectoryNotReal));
  update (fun s => mkExtraction (ex_disk s) (relative :: ex_directories s)).

(** [ArchiveConsumer::symlink] *)
Definition extract_symlink (relative : rel_path) (target : list Z) : SR extraction ContractError unit :=
  _ ← require_parent relative;
  _ ← create ExSymlink relative (Link target) CannotCreateSymlink;
  _ ← try_call ExLstat relative CannotInspectSymlink;
  d ← gets ex_disk;
  found ← lift (ok_or (lstat d (root ++ relative)) (Verification CannotInspectSymlink));
  lift (refuse (match found with Link _ => false | _ => true end) (Verification SymlinkChanged)).

(** [Write::write_all] on the open file; [real] is where it was created. *)
Definition write_file (relative real : rel_path) (m : verification_message) (bytes : list Z) : SR extraction ContractError unit :=
  _ ← try_call ExWrite relative m;
  d ← gets ex_disk;
  set_disk (append_data d real bytes).

(** [write_regular] *)
Definition write_regular (relative : rel_path) (mode : Z) (reads : list (option (list Z))) (size : Z)
    (forbidden_prefixes : list (list Z)) : SR extraction ContractError (list Z) :=
  _ ← require_parent relative;
  real ← create ExCreate relative (File create_mode []) CannotCreateFile;
  digest ← hash_entry_with_output reads size forbidden_prefixes (Some (write_file relative real FileUnwritable));
  _ ← try_call ExSync relative CannotSyncFile;
  _ ← set_mode relative mode CannotSetFileMode;
  mret digest.

(** [write_manifest] *)
Definition extract_manifest (relative : rel_path) (reads : list (option (list Z))) (size : Z)
  : SR extraction ContractError (list Z) :=
  contents ← lift (read_exact_entry reads size);
  _ ← require_parent relative;
  real ← create ExCreate relative (File create_mode []) CannotCreateManifest;
  _ ← write_file relative real CannotWriteManifest contents;
  _ ← try_call ExSync relative CannotSyncManifest;
  _ ← set_mode relative m0644 CannotSetManifestMode;
  mret contents.

(** [ArchiveConsumer::regular] *)
Definition extract_regular (relative : rel_path) (mode : list Z) (reads : list (option (list Z))) (size : Z)
    (forbidden_prefixes : list (list Z)) : SR extraction ContractError (list Z) :=
  mode ← lift (if eqb_list mode (rs "0644") then Ok m0644
               else if eqb_list mode (rs "0755") then Ok m0755
               else Err (Verification NoncanonicalFileMode));
  write_regular relative mode reads size forbidden_prefixes.

Definition ExtractingArchiveConsumer : ArchiveConsumer extraction := {|
  consume_directory := create_directory;
  consume_symlink := extract_symlink;
  consume_manifest := extract_manifest;
  consume_regular := extract_regular;
|}.

(** [extract_payload_archive] *)
Definition extract_payload_archive {U : UnicodeFold} {T : TarXz} (contract : PayloadArchiveContract)
    (forbidden_prefixes : list (list Z)) (json : list (list Z * json_value) -> option (list Z))
    (input : archive_input) (disk : node) : res ContractError ArchiveTree * node :=
  if ex_fails ExOpenDir [] || negb (open_directory disk root)
  then (Err (Verification ExtractionRootUnsafe), disk)
  else
    let '(r, s) := @scan_archive H U T extraction ExtractingArchiveConsumer contract forbidden_prefixes json input
                     (mkExtraction disk [[]]) in
    (r, ex_disk s).
End consumer.
