(* ===== verification/ExtractionSpecs.v ===== *)
(** * ExtractionSpecs: where extraction writes, and the tree it leaves

    First what every operation of the extracting consumer does to the disk, on
    success and on failure: it stays below the root.  Then [represents], which
    relates the log of a scan to a directory tree: the same paths, and at each the
    node the archive declared.  The consumer keeps it, so that a successful
    extraction leaves exactly the declared tree, and the inventory computed from
    the disk is the one the scan returned. *)

From S2P Require Import Prelude Text Digest Publication Ordered StateRes PayloadPath ArchiveTypes PrefixScan.
From S2P Require Import TarWriter TarReader PayloadTree Packaging ArchiveScan ArchiveSafety Extraction.

Definition is_dir (d : node) (p : rel_path) : Prop := exists kids, node_at d p = Some (Dir kids).

Lemma open_directory_true d p : open_directory d p = true <-> is_dir d p.
Proof.
  unfold open_directory, is_dir. destruct (node_at d p) as [[]|]; split; try done; try (by intros [? [=]]); eauto.
Qed.

(** ** Replacing a node *)
Lemma is_dir_cons d name p : is_dir d (name :: p) <->
  exists kids kid, d = Dir kids /\ bt_get name kids = Some kid /\ is_dir kid p.
Proof.
  unfold is_dir. cbn. split.
  - intros [kids Hat]. destruct d as [|kids'| |]; try done. apply bind_Some in Hat as (kid & Hg & Hat). eauto 10.
  - intros (kids & kid & -> & Hg & kids' & Hat). exists kids'. by rewrite Hg.
Qed.

Lemma is_dir_prefix d p q : is_dir d (p ++ q) -> is_dir d p.
Proof.
  revert d. induction p as [|name p IH]; intros d.
  - destruct q as [|name q]; [done|]. intros (kids & kid & -> & _)%is_dir_cons. by exists kids.
  - cbn [app]. rewrite !is_dir_cons. intros (kids & kid & -> & Hg & Hd). eauto 10.
Qed.

(** The parent of a path is a directory, or the path is the root. *)
Definition can_put (d : node) (p : rel_path) : Prop := p = [] \/ is_dir d (removelast p).

Lemma can_put_cons d name p : can_put d (name :: p) <->
  exists kids, d = Dir kids /\ (p = [] \/ exists kid, bt_get name kids = Some kid /\ can_put kid p).
Proof.
  unfold can_put. split.
  - intros [?|Hd]; [done|]. destruct p as [|name' p].
    { destruct Hd as [kids Hat]. cbn in Hat. injection Hat as ->. eauto. }
    change (removelast (name :: name' :: p)) with (name :: removelast (name' :: p)) in Hd.
    apply is_dir_cons in Hd as (kids & kid & -> & Hg & Hd). eauto 10.
  - intros (kids & -> & [->|(kid & Hg & Hd)]); right; [by exists kids|]. destruct p as [|name' p]; [by exists kids|].
    change (removelast (name :: name' :: p)) with (name :: removelast (name' :: p)).
    destruct Hd as [?|Hd]; [done|]. apply is_dir_cons. eauto 10.
Qed.

Lemma put_at_cons kids name p n : put_at (Dir kids) (name :: p) n =
  match p with
  | [] => Dir (bt_put str_ltb name n kids)
  | _ => match bt_get name kids with
         | Some kid => Dir (bt_put str_ltb name (put_at kid p n) kids)
         | None => Dir kids
         end
  end.
Proof. done. Qed.

Lemma node_at_put d p n q : can_put d p -> node_at (put_at d p n) (p ++ q) = node_at n q.
Proof.
  revert d. induction p as [|name p IH]; intros d; [done|]. rewrite can_put_cons.
  intros (kids & -> & Hp). rewrite put_at_cons. destruct p as [|name' p].
  - cbn. by rewrite bt_get_put, bool_decide_eq_true_2.
  - destruct Hp as [?|(kid & Hg & Hp)]; [done|]. rewrite Hg. cbn [app node_at].
    rewrite bt_get_put, bool_decide_eq_true_2 by done. cbn. apply (IH kid Hp).
Qed.

Lemma put_at_put d p n q m : can_put d p ->
  put_at (put_at d p n) (p ++ q) m = put_at d p (put_at n q m).
Proof.
  revert d. induction p as [|name p IH]; intros d; [done|]. rewrite can_put_cons.
  intros (kids & -> & Hp). destruct p as [|name' p].
  - cbn [app]. rewrite !put_at_cons. destruct q as [|name' q]; [by rewrite bt_put_put|].
    rewrite bt_get_put, bool_decide_eq_true_2 by done. by rewrite bt_put_put.
  - destruct Hp as [?|(kid & Hg & Hp)]; [done|]. rewrite !put_at_cons, Hg. cbn [app]. rewrite put_at_cons.
    rewrite bt_get_put, bool_decide_eq_true_2 by done. rewrite bt_put_put. f_equal. f_equal. apply (IH kid Hp).
Qed.

Lemma put_at_twice d p n m : can_put d p -> put_at (put_at d p n) p m = put_at d p m.
Proof. intros Hp. rewrite <- (app_nil_r p) at 2. by rewrite put_at_put. Qed.

Lemma node_at_put_same d p n : can_put d p -> node_at (put_at d p n) p = Some n.
Proof. intros Hp. rewrite <- (app_nil_r p) at 2. by rewrite node_at_put. Qed.

Lemma put_at_same t p n : tree_wf t -> node_at t p = Some n -> put_at t p n = t.
Proof.
  revert t. induction p as [|name p IH]; intros t Hwf; [by intros [= ->]|].
  cbn [node_at]. destruct t as [|kids| |]; try done. apply tree_wf_dir in Hwf as [Hs Hk]. intros (kid & Hg & Hat)%bind_Some.
  rewrite put_at_cons, Hg. destruct p as [|name' p].
  - cbn in Hat. injection Hat as ->. by rewrite (bt_put_same str_ltb).
  - rewrite IH, (bt_put_same str_ltb); [done|done|done| |done].
    apply (bt_get_elem str_ltb) in Hg; [|done]. rewrite Forall_forall in Hk. by apply (Hk (name, kid)).
Qed.

(** What else is on the disk stays; a directory above the new node stays one. *)
Lemma node_at_put_other t p n q : can_put t p -> (forall r, q <> p ++ r) ->
  node_at (put_at t p n) q = node_at t q \/ is_dir t q /\ is_dir (put_at t p n) q.
Proof.
  revert t q. induction p as [|name p IH]; intros t q; [intros _ Hq; by destruct (Hq q)|].
  rewrite can_put_cons. intros (kids & -> & Hp) Hq.
  assert (is_dir (Dir kids) [] /\ is_dir (put_at (Dir kids) (name :: p) n) []) as Hroot.
  { rewrite put_at_cons. split; [by exists kids|]. destruct p; [by eexists|]. case_match; by eexists. }
  destruct q as [|name' q]; [by right|].
  rewrite put_at_cons. destruct p as [|name2 p].
  - left. cbn. rewrite bt_get_put, bool_decide_eq_false_2; [done|]. intros ->. by apply (Hq q).
  - destruct Hp as [?|(kid & Hg & Hp)]; [done|]. rewrite Hg. rewrite !is_dir_cons. cbn [node_at].
    rewrite bt_get_put. case_bool_decide as E; [subst name'|by left]. rewrite Hg. cbn [mbind option_bind].
    destruct (IH kid q Hp) as [Hsame|[H1 H2]].
    + intros r ->. by apply (Hq r).
    + by left.
    + right. split; [by eauto 10|]. eexists _, _. split; [done|]. rewrite bt_get_put, bool_decide_eq_true_2 by done. done.
Qed.

Lemma put_at_wf t p n : tree_wf t -> tree_wf n -> can_put t p -> tree_wf (put_at t p n).
Proof.
  revert t. induction p as [|name p IH]; intros t Ht Hn; [done|]. rewrite can_put_cons.
  intros (kids & -> & Hp). apply tree_wf_dir in Ht as [Hs Hk]. rewrite put_at_cons.
  assert (forall k, tree_wf k -> tree_wf (Dir (bt_put str_ltb name k kids))) as Hput.
  { intros k Hwk. constructor; [by apply bt_put_sorted; [apply _|]|]. apply Forall_forall. intros x Hx.
    apply bt_put_elem in Hx as [->|Hx]; [done|]. rewrite Forall_forall in Hk. by apply Hk. }
  destruct p as [|name' p]; [by apply Hput|]. destruct Hp as [?|(kid & Hg & Hp)]; [done|]. rewrite Hg.
  apply Hput, IH; [|done|done]. apply (bt_get_elem str_ltb) in Hg; [|done]. rewrite Forall_forall in Hk. by apply (Hk (name, kid)).
Qed.

(** ** Resolving a path that passes through real directories only *)
Lemma follow_dirs hops d a b : is_dir d (a ++ b) -> follow hops d a (map Normal b) = Some (a ++ b).
Proof.
  intros Hd. destruct hops as [|hops]; cbn [follow];
    (revert a Hd; induction b as [|name b IH]; intros a Hd; [by rewrite app_nil_r|]; cbn [map];
     assert (is_dir d (a ++ [name])) as [kids ->] by (apply (is_dir_prefix d _ b); by rewrite <- app_assoc);
     rewrite IH by (by rewrite <- app_assoc); by rewrite <- app_assoc).
Qed.

Lemma locate_dirs d p name : is_dir d p -> locate d (p ++ [name]) = Some (p ++ [name]).
Proof.
  intros Hd. unfold locate. rewrite last_snoc, removelast_last. cbn [mbind option_bind].
  by rewrite (follow_dirs MAX_SYMLINKS d [] p Hd).
Qed.

Lemma create_node_dirs d p name n : is_dir d p ->
  create_node d (p ++ [name]) n =
  match node_at d (p ++ [name]) with None => Some (put_at d (p ++ [name]) n, p ++ [name]) | Some _ => None end.
Proof. intros Hd. unfold create_node. by rewrite locate_dirs. Qed.

Lemma removelast_root (root rel : rel_path) : rel <> [] -> removelast (root ++ rel) = root ++ removelast rel.
Proof. intros Hne. by apply removelast_app. Qed.

Lemma put_at_dir kids p n : p <> [] -> exists kids', put_at (Dir kids) p n = Dir kids'.
Proof. destruct p as [|name p]; [done|]. intros _. rewrite put_at_cons. destruct p; [by eexists|]. case_match; by eexists. Qed.

(** ** Containment: no operation changes anything outside the root *)
Section containment.
Context {H : Sha256} (root : rel_path) (ex_fails : ex_call -> rel_path -> bool) (create_mode : Z) (disk : node).
Context (Hroot : is_dir disk root).

(** The disk is the old one but for what is below the root. *)
Definition contained_in (s : extraction) : Prop := exists kids, ex_disk s = put_at disk root (Dir kids).

Definition contained {A} (P : extraction -> Prop) (m : SR extraction ContractError A) (Q : A -> extraction -> Prop) : Prop :=
  forall s, contained_in s -> P s -> contained_in (m s).2 /\ forall a s', m s = (Ok a, s') -> Q a s'.

Lemma contained_bind {A B} P (m : SR extraction ContractError A) (f : A -> SR extraction ContractError B) Q R :
  contained P m Q -> (forall a, contained (Q a) (f a) R) -> contained P (m ≫= f) R.
Proof.
  intros Hm Hf s Hs HP. destruct (Hm s Hs HP) as [H1 H2]. unfold mbind, SR_bind.
  destruct (m s) as [[a|e|] s1]; cbn in H1; [|by split..]. by apply Hf; [|apply H2].
Qed.

Lemma contained_lift {A} P (c : res ContractError A) : contained P (lift c) (fun a s => P s /\ c = Ok a).
Proof. intros s Hs HP. split; [done|]. intros a s' [-> ->]%lift_Ok. done. Qed.

Lemma contained_ret {A} P (a : A) : contained P (mret a) (fun b s => P s).
Proof. intros s Hs HP. split; [done|]. by intros ? ? [= _ <-]. Qed.

Lemma contained_gets {A} P (f : extraction -> A) : contained P (gets f) (fun a s => P s /\ a = f s).
Proof. intros s Hs HP. split; [done|]. intros a s' [= <- <-]. done. Qed.

Lemma contained_weaken {A} (P P' : extraction -> Prop) (m : SR extraction ContractError A) (Q Q' : A -> extraction -> Prop) :
  contained P' m Q' -> (forall s, P s -> P' s) -> (forall a s, Q' a s -> Q a s) -> contained P m Q.
Proof. intros Hm HP HQ s Hs Hp. destruct (Hm s Hs (HP s Hp)) as [H1 H2]. split; [done|]. eauto. Qed.

Definition anything {A} (_ : A) (_ : extraction) : Prop := True.

Lemma can_put_root : can_put disk root.
Proof.
  destruct root as [|name r] using rev_ind; [by left|right]. rewrite removelast_last. by eapply is_dir_prefix.
Qed.

(** The parent of [rel] is a real directory below the root. *)
Definition ready (rel : rel_path) (s : extraction) : Prop :=
  exists up name, rel = up ++ [name] /\ is_dir (ex_disk s) (root ++ up).
(** And at [rel] itself there is a file or a directory. *)
Definition present (rel : rel_path) (s : extraction) : Prop :=
  ready rel s /\ exists n, node_at (ex_disk s) (root ++ rel) = Some n /\ forall t, n <> Link t.

Lemma try_call_contained P c p m : contained P (try_call ex_fails c p m) (fun _ => P).
Proof. eapply contained_weaken; [apply contained_lift|done|]. by intros _ s [? _]. Qed.

Lemma require_parent_contained rel :
  contained (fun _ => True) (require_parent root ex_fails rel) (fun _ => ready rel).
Proof.
  intros s Hs _. split.
  - unfold require_parent, mbind, SR_bind, try_call, lift, gets. repeat case_match; simplify_eq; done.
  - intros [] s'. unfold require_parent, try_call. intros Hrun. inv_sr. inv_guards.
    match goal with H : parent rel = Some ?u |- _ => apply parent_Some in H as [name ->]; exists u, name end.
    split; [done|]. by apply open_directory_true.
Qed.

Lemma is_dir_put d p n q : can_put d p -> is_dir d q -> (forall r, q <> p ++ r) -> is_dir (put_at d p n) q.
Proof.
  intros Hp Hq Hne. destruct (node_at_put_other d p n q Hp Hne) as [E|[_ ?] ]; [|done].
  destruct Hq as [kids Hq]. exists kids. by rewrite E.
Qed.

(** Putting a node below the root keeps the disk contained. *)
Lemma contained_put s rel n : contained_in s -> ready rel s ->
  contained_in (mkExtraction (put_at (ex_disk s) (root ++ rel) n) (ex_directories s)) /\
  can_put (ex_disk s) (root ++ rel) /\
  ready rel (mkExtraction (put_at (ex_disk s) (root ++ rel) n) (ex_directories s)).
Proof.
  intros [kids Hk] (up & name & -> & Hd).
  assert (can_put (ex_disk s) (root ++ up ++ [name])) as Hcan.
  { right. rewrite app_assoc, removelast_last. done. }
  split_and!; [|done|].
  - unfold contained_in. cbn. rewrite Hk, put_at_put by apply can_put_root.
    destruct (put_at_dir kids (up ++ [name]) n) as [kids' ->]; [by destruct up|]. by eexists.
  - exists up, name. split; [done|]. cbn. apply is_dir_put; [done|done|].
    intros r E. apply (f_equal length) in E. rewrite !length_app in E. cbn in E. lia.
Qed.

Lemma create_contained c rel n m :
  contained (ready rel) (create root ex_fails c rel n m)
    (fun real s => real = root ++ rel /\ ready rel s /\ node_at (ex_disk s) (root ++ rel) = Some n).
Proof.
  unfold create. eapply contained_bind; [apply try_call_contained|]. intros [].
  eapply contained_bind; [apply contained_gets|]. intros d.
  eapply contained_bind; [apply contained_lift|]. intros [d' real]. cbn [fst snd].
  intros s Hs [[Hready ->] Hc%ok_or_Ok]. pose proof (contained_put s rel n Hs Hready) as (Hin & Hcan & Hready').
  destruct Hready as (up & name & -> & Hd). rewrite app_assoc in Hc. rewrite create_node_dirs in Hc by done.
  destruct (node_at (ex_disk s) ((root ++ up) ++ [name])) in Hc; [done|]. injection Hc as <- <-. rewrite <- app_assoc in *. cbn. split; [done|].
  intros a s' [= <- <-]. split_and!; [done|done|]. cbn. by rewrite node_at_put_same.
Qed.

Lemma set_mode_contained rel mode m : contained (present rel) (set_mode root ex_fails rel mode m) (fun _ => anything ()).
Proof.
  unfold set_mode. eapply contained_bind; [apply try_call_contained|]. intros [].
  eapply contained_bind; [apply contained_gets|]. intros d. eapply contained_bind; [apply contained_lift|]. intros d'.
  intros s Hs [[ [Hready (n & Hn & Hnl)] ->] Hc%ok_or_Ok]. split; [|done]. cbn.
  destruct (contained_put s rel (match n with File _ data => File mode data | _ => n end) Hs Hready) as (Hin & _ & _).
  destruct Hready as (up & name & -> & Hd). unfold chmod in Hc. rewrite app_assoc, locate_dirs in Hc by done.
  cbn [mbind option_bind] in Hc. rewrite <- app_assoc in Hc. rewrite Hn in Hc.
  destruct n as [mode' data|kids|t|]; [| |by destruct (Hnl t)|]; cbn in Hc; rewrite Hn in Hc; [injection Hc as <-; done|injection Hc as <-|done].
  destruct Hs as [kids0 E]. by exists kids0.
Qed.

Lemma write_file_contained rel m bytes :
  contained (present rel) (write_file ex_fails rel (root ++ rel) m bytes) (fun _ => present rel).
Proof.
  unfold write_file. eapply contained_bind; [apply try_call_contained|]. intros [].
  eapply contained_bind; [apply contained_gets|]. intros d s Hs [ [Hready (n & Hn & Hnl)] ->]. unfold set_disk, update. cbn.
  unfold append_data. rewrite Hn. destruct n as [mode data|kids|t|].
  - destruct (contained_put s rel (File mode (data ++ bytes)) Hs Hready) as (Hin & Hcan & Hready'). split; [done|].
    intros [] s' [= <-]. split; [done|]. eexists. cbn. by rewrite node_at_put_same.
  - split; [by destruct Hs as [k E]; exists k|]. intros [] s' [= <-]. split; [by destruct s|]. by exists (Dir kids).
  - by destruct (Hnl t).
  - split; [by destruct Hs as [k E]; exists k|]. intros [] s' [= <-]. split; [by destruct s|]. by exists Special.
Qed.

Lemma hash_loop_contained rel m needles expected reads : forall overlap absorbed total,
  contained (present rel) (hash_entry_loop (Some (write_file ex_fails rel (root ++ rel) m)) needles expected reads overlap absorbed total)
    (fun _ => present rel).
Proof.
  assert (forall a total, contained (present rel)
    (_ ← lift (refuse (negb (total =? expected)) (Verification FileTruncated)); mret (sha256_bytes a)) (fun _ => present rel)) as Hfin.
  { intros a total. eapply contained_bind; [apply contained_lift|]. intros []. eapply contained_weaken; [apply contained_ret|by intros s [? _]|done]. }
  induction reads as [|[chunk|] reads IH]; intros overlap absorbed total; cbn [hash_entry_loop]; [apply Hfin| |].
  2: { intros s Hs HP. by split. }
  case_match; [apply Hfin|]. eapply contained_bind; [apply contained_lift|]. intros total'.
  eapply contained_bind; [apply contained_lift|]. intros []. eapply contained_bind.
  { eapply contained_weaken; [apply write_file_contained|by intros s [[? _] _]|done]. }
  intros []. case_bool_decide; [apply IH|]. eapply contained_bind; [apply contained_lift|]. intros [].
  eapply contained_weaken; [apply IH|by intros s [? _]|done].
Qed.

(** Whatever happens during an operation, it stays below the root. *)
Lemma contained_preserves {A} (m : SR extraction ContractError A) Q :
  contained (fun _ => True) m Q -> preserves contained_in m.
Proof. intros Hm s Hs. by apply Hm. Qed.

Lemma create_present c rel n m : (forall t, n <> Link t) ->
  contained (ready rel) (create root ex_fails c rel n m) (fun real s => real = root ++ rel /\ present rel s).
Proof.
  intros Hn. eapply contained_weaken; [apply create_contained|done|]. intros real s (-> & Hr & Hat).
  split; [done|]. split; [done|]. eauto.
Qed.

Lemma create_directory_preserves rel : preserves contained_in (create_directory root ex_fails rel).
Proof.
  apply (contained_preserves _ anything). unfold create_directory. eapply contained_bind; [apply require_parent_contained|]. intros [].
  eapply contained_bind; [by apply create_present|]. intros real. eapply contained_bind.
  { eapply contained_weaken; [apply set_mode_contained|by intros s [_ ?]|done]. }
  intros []. eapply contained_bind; [apply try_call_contained|]. intros []. eapply contained_bind; [apply contained_gets|]. intros d.
  eapply contained_bind; [apply contained_lift|]. intros [] s [kids E] _. split; [by exists kids|]. exact (fun _ _ _ => I).
Qed.

Lemma extract_symlink_preserves rel target : preserves contained_in (extract_symlink root ex_fails rel target).
Proof.
  apply (contained_preserves _ anything). unfold extract_symlink. eapply contained_bind; [apply require_parent_contained|]. intros [].
  eapply contained_bind; [apply create_contained|]. intros real. eapply contained_bind; [apply try_call_contained|]. intros [].
  eapply contained_bind; [apply contained_gets|]. intros d. eapply contained_bind; [apply contained_lift|]. intros found.
  eapply contained_weaken; [apply contained_lift|exact (fun _ x => x)|done].
Qed.

Lemma write_regular_preserves rel mode reads size prefixes :
  preserves contained_in (write_regular root ex_fails create_mode rel mode reads size prefixes).
Proof.
  apply (contained_preserves _ anything). unfold write_regular. eapply contained_bind; [apply require_parent_contained|]. intros [].
  eapply contained_bind; [by apply create_present|]. intros real. eapply (contained_bind _ _ _ (fun _ => present rel)).
  { intros s Hs [-> Hp]. revert s Hs Hp.
    change (contained (present rel) (hash_entry_with_output reads size prefixes
      (Some (write_file ex_fails rel (root ++ rel) FileUnwritable))) (fun _ => present rel)).
    unfold hash_entry_with_output. eapply contained_bind; [apply contained_lift|]. intros needles.
    eapply contained_weaken; [apply hash_loop_contained|by intros s [? _]|done]. }
  intros digest. eapply contained_bind; [apply try_call_contained|]. intros [].
  eapply contained_bind; [apply set_mode_contained|]. intros [].
  eapply contained_weaken; [apply contained_ret|exact (fun _ x => x)|done].
Qed.

Lemma extract_manifest_preserves rel reads size :
  preserves contained_in (extract_manifest root ex_fails create_mode rel reads size).
Proof.
  unfold extract_manifest. apply preserves_bind; [apply preserves_lift|]. intros contents.
  apply (contained_preserves _ anything). eapply contained_bind; [apply require_parent_contained|]. intros [].
  eapply contained_bind; [by apply create_present|]. intros real. eapply (contained_bind _ _ _ (fun _ => present rel)).
  { intros s Hs [-> Hp]. revert s Hs Hp. apply write_file_contained. }
  intros []. eapply contained_bind; [apply try_call_contained|]. intros [].
  eapply contained_bind; [apply set_mode_contained|]. intros [].
  eapply contained_weaken; [apply contained_ret|exact (fun _ x => x)|done].
Qed.

Lemma extract_regular_preserves rel mode reads size prefixes :
  preserves contained_in (extract_regular root ex_fails create_mode rel mode reads size prefixes).
Proof.
  unfold extract_regular. apply preserves_bind; [apply preserves_lift|]. intros m. apply write_regular_preserves.
Qed.

#[local] Hint Resolve create_directory_preserves extract_symlink_preserves extract_manifest_preserves
  extract_regular_preserves : preserves.

Lemma scan_contained {U : UnicodeFold} {T : TarXz} contract prefixes json input :
  preserves contained_in (@scan_archive H U T extraction (ExtractingArchiveConsumer root ex_fails create_mode)
    contract prefixes json input).
Proof.
  unfold scan_archive. keep. unfold scan_entry. keep. unfold scan_member. keep.
  all: try (unfold scan_regular; keep). all: cbn; eauto with preserves.
Qed.
End containment.

(** ** What a successful operation leaves *)
Section success.
Context {H : Sha256} (root : rel_path) (ex_fails : ex_call -> rel_path -> bool) (create_mode : Z).

(** A new node at [rel], in a directory that was there. *)
Definition made (rel : rel_path) (n : node) (s s' : extraction) : Prop :=
  rel <> [] /\ is_dir (ex_disk s) (root ++ removelast rel) /\ node_at (ex_disk s) (root ++ rel) = None /\
  ex_disk s' = put_at (ex_disk s) (root ++ rel) n.

Lemma made_at rel n s s' : made rel n s s' -> node_at (ex_disk s') (root ++ rel) = Some n /\
  is_dir (ex_disk s') (root ++ removelast rel) /\ can_put (ex_disk s) (root ++ rel).
Proof.
  intros (Hne & Hd & _ & ->). assert (can_put (ex_disk s) (root ++ rel)) as Hcan.
  { right. by rewrite removelast_root. }
  split_and!; [| |done].
  - by rewrite node_at_put_same.
  - apply is_dir_put; [done|done|]. intros r E.
    apply (f_equal length) in E. rewrite !length_app in E. pose proof (app_removelast_last [] Hne) as Er.
    apply (f_equal length) in Er. rewrite length_app in Er. cbn in Er. lia.
Qed.

Lemma made_again rel n m s s1 s' : made rel n s s1 -> ex_disk s' = put_at (ex_disk s1) (root ++ rel) m -> made rel m s s'.
Proof.
  intros Hm E. pose proof (made_at _ _ _ _ Hm) as (_ & _ & Hcan). destruct Hm as (Hne & Hd & Hnone & E1).
  split_and!; try done. rewrite E, E1. by rewrite put_at_twice.
Qed.

Ltac run_sr := unfold try_call, set_disk in *; inv_sr; inv_ok.

Lemma require_parent_ready rel s s' u : require_parent root ex_fails rel s = (Ok u, s') ->
  s' = s /\ rel <> [] /\ is_dir (ex_disk s) (root ++ removelast rel) /\ removelast rel ∈ ex_directories s.
Proof.
  unfold require_parent. intros Hrun. run_sr. bool_prop.
  match goal with H : parent rel = Some _ |- _ => apply parent_Some in H as [name ->] end. rewrite removelast_last.
  split_and!; [done|by intros [_ ?]%app_nil|by apply open_directory_true|done].
Qed.

Lemma create_made c rel n m s real s' : rel <> [] -> is_dir (ex_disk s) (root ++ removelast rel) ->
  create root ex_fails c rel n m s = (Ok real, s') ->
  made rel n s s' /\ real = root ++ rel /\ ex_directories s' = ex_directories s.
Proof.
  intros Hne Hd. unfold create. intros Hrun. run_sr.
  match goal with H : create_node _ _ _ = Some _ |- _ => rename H into Hc end.
  rewrite (app_removelast_last [] Hne) in Hc. rewrite app_assoc, create_node_dirs in Hc by done.
  rewrite <- app_assoc, <- (app_removelast_last [] Hne) in Hc.
  destruct (node_at (ex_disk s) (root ++ rel)) eqn:E; [done|]. injection Hc as <-. done.
Qed.

Lemma set_mode_made rel mode m s0 s n u s' : made rel n s0 s -> (forall t, n <> Link t) ->
  set_mode root ex_fails rel mode m s = (Ok u, s') ->
  made rel (match n with File _ data => File mode data | _ => n end) s0 s' /\ ex_directories s' = ex_directories s.
Proof.
  intros Hm Hnl. unfold set_mode. intros Hrun. run_sr.
  match goal with H : chmod _ _ _ = Some _ |- _ => rename H into Hc end.
  pose proof (made_at _ _ _ _ Hm) as (Hat & Hd & _). pose proof Hm as (Hne & _).
  unfold chmod in Hc. rewrite (app_removelast_last [] Hne), app_assoc, locate_dirs in Hc by done.
  rewrite <- app_assoc, <- (app_removelast_last [] Hne) in Hc. cbn [mbind option_bind] in Hc. rewrite Hat in Hc.
  destruct n as [mode' data|kids|t|]; [| |by destruct (Hnl t)|]; cbn in Hc; rewrite Hat in Hc; [| |done]; injection Hc as <-.
  - split; [|done]. by eapply made_again.
  - split; [|done]. destruct Hm as (? & ? & ? & E). by split_and!.
Qed.

Lemma write_file_made rel m bytes s0 s mode data u s' : made rel (File mode data) s0 s ->
  write_file ex_fails rel (root ++ rel) m bytes s = (Ok u, s') ->
  made rel (File mode (data ++ bytes)) s0 s' /\ ex_directories s' = ex_directories s.
Proof.
  intros Hm. unfold write_file. intros Hrun. run_sr. split; [|done]. eapply made_again; [done|]. cbn.
  unfold append_data. by rewrite (proj1 (made_at _ _ _ _ Hm)).
Qed.

Lemma create_directory_made rel s u s' : create_directory root ex_fails rel s = (Ok u, s') ->
  made rel (Dir []) s s' /\ ex_directories s' = rel :: ex_directories s.
Proof.
  unfold create_directory. intros ([] & s1 & (-> & Hne & Hd & _)%require_parent_ready & Hrun)%SR_bind_Ok.
  apply SR_bind_Ok in Hrun as (real & s1 & (Hm & -> & E1)%create_made & Hrun); [|done..].
  apply SR_bind_Ok in Hrun as ([] & s2 & (Hm2 & E2)%(set_mode_made _ _ _ _ _ _ _ _ Hm) & Hrun); [|done].
  run_sr. split; [done|]. cbn. by rewrite E2, E1.
Qed.

Lemma extract_symlink_made rel t s u s' : extract_symlink root ex_fails rel t s = (Ok u, s') ->
  made rel (Link t) s s' /\ ex_directories s' = ex_directories s.
Proof.
  unfold extract_symlink. intros ([] & s1 & (-> & Hne & Hd & _)%require_parent_ready & Hrun)%SR_bind_Ok.
  apply SR_bind_Ok in Hrun as (real & s1 & (Hm & -> & E1)%create_made & Hrun); [|done..]. run_sr. done.
Qed.

Lemma hash_output_made rel m reads size prefixes mode s0 s digest s' : made rel (File mode []) s0 s ->
  hash_entry_with_output reads size prefixes (Some (write_file ex_fails rel (root ++ rel) m)) s = (Ok digest, s') ->
  exists data, stream reads = Some data /\ len data = size /\ digest = sha256_bytes data /\
    any_needle (filter (fun n => n <> []) prefixes) data = false /\
    made rel (File mode data) s0 s' /\ ex_directories s' = ex_directories s.
Proof.
  intros Hm. unfold hash_entry_with_output. intros (needles & s1 & [Hn ->]%lift_Ok & Hrun)%SR_bind_Ok.
  apply prefix_needles_Ok in Hn as [-> Hne]. set (ns := filter _ prefixes) in *.
  set (abs data := mkExtraction (put_at (ex_disk s) (root ++ rel) (File mode data)) (ex_directories s)).
  assert (s = abs []) as Es.
  { unfold abs. destruct s as [d dirs]. cbn in *. f_equal. pose proof (made_at _ _ _ _ Hm) as (_ & _ & Hcan).
    destruct Hm as (_ & _ & _ & E). cbn in E. subst d.
    by rewrite put_at_twice. }
  assert (forall data, made rel (File mode data) s0 (abs data)) as Habs.
  { intros data. by eapply made_again. }
  rewrite Es in Hrun.
  assert (forall data chunk s2, write_to (Some (write_file ex_fails rel (root ++ rel) m)) chunk (abs data) = (Ok tt, s2) ->
    s2 = abs (data ++ chunk)) as Hw.
  { intros data chunk s2 Hw. unfold write_to, write_file in Hw. run_sr.
    match goal with Hup : update _ _ = _ |- _ => injection Hup as <- end. unfold abs. cbn. f_equal.
    pose proof (proj1 (made_at _ _ _ _ (Habs data))) as Hat. cbn in Hat. unfold append_data. rewrite Hat.
    assert (can_put (ex_disk s) (root ++ rel)) as Hcan.
    { right. rewrite removelast_root by apply Hm. by apply (made_at _ _ _ _ Hm). }
    by rewrite put_at_twice. }
  pose proof (hash_entry_loop_Ok _ ns Hne abs size reads Hw []) as Hloop.
  rewrite keep_overlap_nil, len_nil in Hloop. cbn [app] in Hloop.
  destruct (Hloop digest s' (any_needle_nil _ Hne) Hrun) as (data & Hs & Hl & Hany & -> & ->).
  exists data. split_and!; try done; apply Habs.
Qed.

Lemma write_regular_made rel mode reads size prefixes s digest s' :
  write_regular root ex_fails create_mode rel mode reads size prefixes s = (Ok digest, s') ->
  exists data, stream reads = Some data /\ len data = size /\ digest = sha256_bytes data /\
    any_needle (filter (fun n => n <> []) prefixes) data = false /\
    made rel (File mode data) s s' /\ ex_directories s' = ex_directories s.
Proof.
  unfold write_regular. intros ([] & s1 & (-> & Hne & Hd & _)%require_parent_ready & Hrun)%SR_bind_Ok.
  apply SR_bind_Ok in Hrun as (real & s1 & (Hm & -> & E1)%create_made & Hrun); [|done..].
  apply SR_bind_Ok in Hrun as (dg & s2 & (data & Hs & Hl & -> & Hany & Hm2 & E2)%(hash_output_made _ _ _ _ _ _ _ _ _ _ Hm) & Hrun).
  unfold try_call in Hrun. apply SR_bind_Ok in Hrun as ([] & s3 & [_ ->]%lift_Ok & Hrun).
  apply SR_bind_Ok in Hrun as ([] & s3 & (Hm3 & E3)%(set_mode_made _ _ _ _ _ _ _ _ Hm2) & Hrun); [|done].
  injection Hrun as <- <-. exists data. split_and!; try done. by rewrite E3, E2.
Qed.

Lemma extract_manifest_made rel reads size s contents s' :
  extract_manifest root ex_fails create_mode rel reads size s = (Ok contents, s') ->
  len contents = size /\ made rel (File m0644 contents) s s' /\ ex_directories s' = ex_directories s.
Proof.
  unfold extract_manifest. intros (cs & s0 & [Hread ->]%lift_Ok & Hrun)%SR_bind_Ok.
  apply SR_bind_Ok in Hrun as ([] & s1 & (-> & Hne & Hd & _)%require_parent_ready & Hrun).
  apply SR_bind_Ok in Hrun as (real & s1 & (Hm & -> & E1)%create_made & Hrun); [|done..].
  apply SR_bind_Ok in Hrun as ([] & s2 & (Hm2 & E2)%(write_file_made _ _ _ _ _ _ _ _ _ Hm) & Hrun).
  unfold try_call in Hrun. apply SR_bind_Ok in Hrun as ([] & s3 & [_ ->]%lift_Ok & Hrun).
  apply SR_bind_Ok in Hrun as ([] & s3 & (Hm3 & E3)%(set_mode_made _ _ _ _ _ _ _ _ Hm2) & Hrun); [|done].
  injection Hrun as <- <-. cbn [app] in Hm3. split_and!; [|done|by rewrite E3, E2].
  unfold read_exact_entry in Hread. inv_guards. done.
Qed.
End success.

(** ** Trees that represent a list of declared nodes

    [declares p x n] says that the node [n] is what [x] declares at [p]; of a
    directory it declares only that it is one. *)
Section represents.
Context {X : Type} (declares : rel_path -> X -> node -> Prop).

Record represents (log : list (rel_path * X)) (n : node) : Prop := {
  rep_declared : forall p x, (p, x) ∈ log -> exists m, node_at n p = Some m /\ declares p x m;
  rep_only : forall p m, p <> [] -> node_at n p = Some m -> exists x, (p, x) ∈ log;
}.

(** A node that a consumer creates has nothing below it. *)
Definition leaf (n : node) : Prop := forall name q, node_at n (name :: q) = None.

Context (declares_dir : forall p x kids kids', declares p x (Dir kids) -> declares p x (Dir kids')).

Lemma represents_put log t p x n : represents log t -> node_at t p = None -> is_dir t (removelast p) -> p <> [] ->
  leaf n -> declares p x n -> represents (log ++ [(p, x)]) (put_at t p n).
Proof.
  intros [Hd Ho] Hnone Hdir Hne Hleaf Hx. assert (can_put t p) as Hcan by by right. split.
  - intros q y. rewrite elem_of_app, list_elem_of_singleton. intros [Hq|[= -> ->] ].
    2: { exists n. by rewrite node_at_put_same. }
    destruct (Hd q y Hq) as (m & Hm & Hy).
    destruct (node_at_put_other t p n q Hcan) as [E|[ [k Ek] [k' Ek'] ] ].
    + intros r ->. rewrite node_at_app, Hnone in Hm. done.
    + exists m. by rewrite E.
    + exists (Dir k'). split; [done|]. rewrite Ek in Hm. injection Hm as <-. by eapply declares_dir.
  - intros q m Hq Hm. setoid_rewrite elem_of_app. setoid_rewrite list_elem_of_singleton.
    destruct (decide (p `prefix_of` q)) as [ [r ->]|Hpre].
    + rewrite node_at_put in Hm by done. destruct r as [|name r]; [|by rewrite Hleaf in Hm]. rewrite app_nil_r. eauto.
    + destruct (node_at_put_other t p n q Hcan) as [E|[ [k Ek] _] ].
      * intros r ->. by apply Hpre, prefix_app_r.
      * rewrite E in Hm. destruct (Ho q m Hq Hm) as [y Hy]. eauto.
      * destruct (Ho q _ Hq Ek) as [y Hy]. eauto.
Qed.

(** The disk with such a tree below the root, and one more node on it. *)
Context (root : rel_path) (disk : node) (Hroot : is_dir disk root).

Definition extracted (log : list (rel_path * X)) (s : extraction) : Prop :=
  exists kids, ex_disk s = put_at disk root (Dir kids) /\ tree_wf (Dir kids) /\ represents log (Dir kids).

Lemma extracted_made log p x n s s' : extracted log s -> made root p n s s' -> leaf n -> tree_wf n -> declares p x n ->
  extracted (log ++ [(p, x)]) s'.
Proof.
  intros (kids & Es & Hwf & Hrep) (Hne & Hdir & Hnone & Es') Hleaf Hn Hx. unfold extracted. rewrite Es'.
  pose proof (can_put_root root disk Hroot) as Hcan.
  rewrite Es in *. unfold is_dir in Hdir. rewrite !node_at_put in * by done. rewrite put_at_put by done.
  destruct (put_at_dir kids p n Hne) as [kids' E]. exists kids'. rewrite <- E. split_and!; [done| |].
  - apply put_at_wf; [done|done|]. right. exact Hdir.
  - by apply represents_put.
Qed.
End represents.

(** ** What the log of a scan declares *)
Section log.
Context {H : Sha256} (prefixes : list (list Z)).

Definition file_mode (text : list Z) (mode : Z) : Prop :=
  text = rs "0644" /\ mode = m0644 \/ text = rs "0755" /\ mode = m0755.

Definition declares (p : rel_path) (x : logged) (n : node) : Prop :=
  match x, n with
  | LDir, Dir _ => True
  | LLink target, Link target' => target' = target
  | LFile text size sha256 reads, File mode data =>
    file_mode text mode /\ stream reads = Some data /\ len data = size /\ sha256 = sha256_bytes data /\
    any_needle (filter (fun n => n <> []) prefixes) data = false
  | LManifest size bytes, File mode data => mode = m0644 /\ data = bytes /\ len bytes = size
  | _, _ => False
  end.

Lemma declares_dir p x kids kids' : declares p x (Dir kids) -> declares p x (Dir kids').
Proof. by destruct x. Qed.

(** ** The consumer keeps the relation *)
Context {U : UnicodeFold} (contract : PayloadArchiveContract).
Context (root : rel_path) (ex_fails : ex_call -> rel_path -> bool) (create_mode : Z) (disk : node) (Hroot : is_dir disk root).

Lemma extracting_keeps :
  @consumer_keeps U contract prefixes extraction (ExtractingArchiveConsumer root ex_fails create_mode) (extracted declares root disk).
Proof.
  split; cbn [consume_directory consume_symlink consume_regular consume_manifest ExtractingArchiveConsumer].
  - intros log p s s' _ HR (Hm & _)%create_directory_made. eapply extracted_made; [apply declares_dir|exact Hroot|done|done|done| |done]. repeat constructor.
  - intros log p t s s' _ HR (Hm & _)%extract_symlink_made. eapply extracted_made; [apply declares_dir|exact Hroot|done|done|done|constructor|done].
  - intros log p mode reads size sha s s' _ HR. unfold extract_regular. intros (m & s1 & [Hmode ->]%lift_Ok & Hrun)%SR_bind_Ok.
    apply write_regular_made in Hrun as (data & Hs & Hl & -> & Hany & Hm & _).
    eapply extracted_made; [apply declares_dir|exact Hroot|done|done|done|constructor|]. split_and!; try done.
    unfold file_mode, eqb_list in *. repeat case_bool_decide; simplify_eq; auto.
  - intros log p reads size bytes s s' _ HR (Hl & Hm & _)%extract_manifest_made.
    eapply extracted_made; [apply declares_dir|exact Hroot|done|done|done|constructor|]. done.
Qed.
End log.

Lemma map_Normal_inj (p q : rel_path) : map Normal p = map Normal q -> p = q.
Proof. revert q. induction p as [|a p IH]; intros [|b q]; try done. intros [= -> E]. f_equal. by apply IH. Qed.

(** ** The inventory of a tree that represents a log *)
Section inventory_of.
Context {H : Sha256} {U : UnicodeFold} (contract : PayloadArchiveContract) (prefixes : list (list Z)).
Context (log : list log_item) (kids : list (list Z * node)).
Context (Hlog : well_formed_log contract log) (Hrep : represents (declares prefixes) log (Dir kids)) (Hwf : tree_wf (Dir kids)).

Lemma item_text_path p x : (p, x) ∈ log -> Forall portable_name p /\ p <> [] /\ item_ok contract (p, x) /\
  path_text p = Some (item_text (p, x)).
Proof.
  intros Hx. pose proof (log_inv _ _ Hlog) as Hall. rewrite Forall_forall in Hall. destruct (Hall _ Hx) as (Hp & Hne & Hok).
  split_and!; try done. unfold item_text. cbn [fst]. destruct (path_text_portable p Hp) as (texts & _ & _ & ->). done.
Qed.

(** A path of the log names one item. *)
Lemma log_functional p x y : (p, x) ∈ log -> (p, y) ∈ log -> x = y.
Proof.
  intros Hx Hy. pose proof (log_sorted _ _ Hlog) as Hs.
  assert (forall a b, a ∈ log -> b ∈ log -> item_text a = item_text b -> a = b) as Hinj.
  { clear -Hs. induction Hs as [|a l Ha Hs IH]; [intros ? ? []%elem_of_nil|]. rewrite Forall_forall in Ha.
    intros b c [->|Hb]%elem_of_cons [->|Hc]%elem_of_cons E; [done| | |by apply IH].
    - apply Ha in Hc. rewrite E, ltb_irrefl in Hc. done.
    - apply Ha in Hb. rewrite E, ltb_irrefl in Hb. done. }
  assert ((p, x) = (p, y)) as [= ->] by (by apply Hinj). done.
Qed.

Context (mpath : rel_path) (msize : Z) (mbytes : list Z) (Hman : (mpath, LManifest msize mbytes) ∈ log).

Lemma manifest_components : manifest_path contract = map Normal mpath.
Proof. by destruct (item_text_path _ _ Hman) as (_ & _ & [_ <-] & _). Qed.

(** What is listed: every node but the manifest. *)
Lemma walk_log p m : (p, m) ∈ walk (excluded [mpath]) (Dir kids) [] <->
  p <> [] /\ node_at (Dir kids) p = Some m /\ p <> mpath.
Proof.
  destruct (rep_declared _ _ _ Hrep _ _ Hman) as (f & Hf & Hdecl). destruct f as [mode data| | |]; try done.
  by eapply walk_without_file.
Qed.

Lemma node_entry_item p x m : (p, x) ∈ log -> node_at (Dir kids) p = Some m -> p <> mpath ->
  declares prefixes p x m /\ item_entry (p, x) = Some (node_entry (p, m)).
Proof.
  intros Hx Hm Hne. destruct (rep_declared _ _ _ Hrep _ _ Hx) as (m' & Hm' & Hdecl). rewrite Hm in Hm'. injection Hm' as <-.
  split; [done|]. destruct (item_text_path _ _ Hx) as (Hp & Hnil & Hok & Ht).
  pose proof (proj2 (path_name_portable _ _ Hp Ht)) as En. unfold node_entry, item_entry. cbn [fst snd]. rewrite En.
  destruct x as [|t|text size sha reads|size bytes], m as [mode data|kids'|t'|]; try done.
  - cbn in Hdecl. by subst t'.
  - destruct Hdecl as (Hmode & _ & <- & -> & _). unfold file_entry. by destruct Hmode as [ [-> ->]|[-> ->] ].
  - exfalso. apply Hne. destruct Hok as [_ Hpath]. cbn in Hpath. rewrite manifest_components in Hpath.
    by apply map_Normal_inj.
Qed.

Lemma inventory_of_log json digest : toolchain_inventory_sha256 json (omap item_entry log) = Ok digest ->
  toolchain_tree_inventory_excluding (fun _ _ => false) (fun _ => Measured) json (Dir kids) [utf8 (manifest_file contract)] =
    Ok (digest, omap item_entry log).
Proof.
  intros Hdig. unfold toolchain_tree_inventory_excluding. fold (manifest_path contract).
  destruct (item_text_path _ _ Hman) as (Hmp & _ & _ & Hmt).
  assert (mapR (fun value => _ ← portable_relative_path (components value);
    Ok (omap (fun c => match c with Normal n => Some n | _ => None end) (components value))) [utf8 (manifest_file contract)] =
    Ok [mpath]) as ->.
  { cbn [mapR]. change (components (utf8 (manifest_file contract))) with (manifest_path contract).
    rewrite manifest_components. rewrite (proj1 (path_name_portable _ _ Hmp Hmt)). cbn [mbind res_bind]. by rewrite omap_normal. }
  cbn [mbind res_bind].
  assert (collect_tree_entries (fun _ _ => false) (fun _ => Measured) (Dir kids) [] [mpath] [] =
    Ok (map node_entry (walk (excluded [mpath]) (Dir kids) []))) as ->.
  { apply collect_Ok; [done|by eexists|]. split_and!; [done| |done]. apply Forall_forall. intros [p m] Hp.
    apply walk_log in Hp as (Hne & Hat & Hneq). destruct (rep_only _ _ _ Hrep _ _ Hne Hat) as [x Hx].
    destruct (node_entry_item _ _ _ Hx Hat Hneq) as [Hdecl _]. destruct (item_text_path _ _ Hx) as (Hpn & _ & Hok & Ht).
    unfold visited. cbn [fst snd]. split_and!; [done| |].
    - eexists. apply (proj1 (path_name_portable _ _ Hpn Ht)).
    - destruct m as [| |t|]; try done; [|by destruct x]. destruct x as [|t'| |]; try done. cbn in Hdecl. subst t'.
      destruct Hok as (_ & ? & _). done. }
  cbn [mbind res_bind]. rewrite (sort_by_unique entry_path _ (omap item_entry log)).
  - by rewrite Hdig.
  - rewrite map_map. apply (NoDup_fmap_2_strong (fun x => entry_path (node_entry x)) (walk (excluded [mpath]) (Dir kids) [])).
    2: { apply (NoDup_fmap_1 fst), walk_NoDup, Hwf. }
    intros [p m] [q n] Hp Hq. rewrite !node_entry_path. cbn [fst].
    apply walk_log in Hp as (Hp0 & Hp & _). apply walk_log in Hq as (Hq0 & Hq & _).
    destruct (rep_only _ _ _ Hrep _ _ Hp0 Hp) as [x Hx]. destruct (rep_only _ _ _ Hrep _ _ Hq0 Hq) as [y Hy].
    destruct (item_text_path _ _ Hx) as (Hpp & _ & _ & Ep). destruct (item_text_path _ _ Hy) as (Hqp & _ & _ & Eq).
    rewrite (proj2 (path_name_portable _ _ Hpp Ep)), (proj2 (path_name_portable _ _ Hqp Eq)). intros E.
    rewrite <- E in Eq. pose proof (path_text_inj _ _ _ Hpp Hqp Ep Eq) as ->. congruence.
  - pose proof (log_sorted _ _ Hlog) as Hs. clear -Hs. induction Hs as [|a l Ha Hs IH]; [constructor|].
    cbn. destruct (item_entry a) as [e|] eqn:Ee; [|done]. constructor; [|done]. apply Forall_forall.
    intros e' (b & Hb & Eb)%list_elem_of_omap. rewrite Forall_forall in Ha. specialize (Ha b Hb).
    assert (forall c f, item_entry c = Some f -> entry_path f = item_text c) as Hpath.
    { intros [p [|t|? ? ? ?|? ?] ] f; try done; by intros [= <-]. }
    by rewrite (Hpath _ _ Ee), (Hpath _ _ Eb).
  - intros e. rewrite list_elem_of_omap, list_elem_of_In, in_map_iff. setoid_rewrite <- list_elem_of_In. split.
    + intros ([p m] & <- & Hp). apply walk_log in Hp as (Hne & Hat & Hneq).
      destruct (rep_only _ _ _ Hrep _ _ Hne Hat) as [x Hx]. exists (p, x). split; [done|]. by eapply node_entry_item.
    + intros ([p x] & Hx & Ee). destruct (rep_declared _ _ _ Hrep _ _ Hx) as (m & Hat & _).
      destruct (decide (p = mpath)) as [->|Hneq].
      { rewrite (log_functional _ _ _ Hx Hman) in Ee. done. }
      destruct (node_entry_item _ _ _ Hx Hat Hneq) as [_ E]. exists (p, m). split; [congruence|].
      apply walk_log. split_and!; [|done|done]. by destruct (item_text_path _ _ Hx) as (_ & ? & _).
Qed.
End inventory_of.
