(* ===== verification/ArchiveMembers.v ===== *)
(** * ArchiveMembers: what the writer puts into an archive, and how it reads back

    The bytes [write_tar_stream] produces are ustar members: one, or two with a
    PAX extension in front, for the root and for every path of the tree in the
    order of the paths' texts, then a trailer of zeros that the reader accepts.
    Under the laws of the tar crate every header field reads back as it was
    written, and the name of an entry gives its relative path back. *)

From S2P Require Import Prelude Text Digest Publication Ordered StateRes PayloadPath ArchiveTypes PrefixScan.
From S2P Require Import TarWriter TarReader PayloadTree Packaging ArchiveScan.

Abbreviation nonneg := (Forall (fun c => 0 <= c)).

Lemma nonneg_const s : forallb (fun c => 0 <=? c) s = true -> nonneg s.
Proof. rewrite forallb_forall, <- List.Forall_forall. intros Hs. eapply Forall_impl; [exact Hs|]. cbn. lia. Qed.

(** The members of one entry. *)
Definition written (name : list Z) (mode epoch kind : Z) (target data : list Z) (ms : list member) : Prop :=
  exists f, wf_fields name mode 0 0 (len data) epoch kind target f /\
  match pax_extensions name kind target with
  | [] => ms = [(f, data)]
  | exts => exists records g, foldM append_extension [] exts = Ok records /\
      wf_fields (rs "././@PaxHeader") 0 0 0 (len records) 0 120 [] g /\ ms = [(g, records); (f, data)]
  end.

Lemma wf_fields_block name mode uid gid size mtime kind target f :
  wf_fields name mode uid gid size mtime kind target f -> is_u8 kind -> wf_block f.
Proof.
  intros (Hn & Ht & Hk & ? & ? & ? & ? & ? & ?) Hu. unfold wf_block. rewrite Hn, Ht, Hk, !name_field_len by lia.
  split_and!; eauto.
Qed.

Lemma written_wf name mode epoch kind target data ms : written name mode epoch kind target data ms -> is_u8 kind ->
  Forall wf_member ms.
Proof.
  assert (forall f n m u g t k tg d, is_u8 k -> wf_fields n m u g (len d) t k tg f -> wf_member (f, d)) as Hm.
  { intros * Hk Hf. split; [by eapply wf_fields_block|]. cbn. apply Hf. }
  intros (f & Hf & Hms) Hk. assert (is_u8 120) by (unfold is_u8, u8_max; lia).
  destruct (pax_extensions name kind target); [subst ms; apply Forall_singleton; exact (Hm _ _ _ _ _ _ _ _ _ Hk Hf)|].
  destruct Hms as (records & g & _ & Hg & ->).
  apply Forall_cons. split; [by eapply (Hm _ _ _ _ _ _ 120)|]. apply Forall_singleton. exact (Hm _ _ _ _ _ _ _ _ _ Hk Hf).
Qed.

Lemma wf_member_len m : wf_member m -> exists k, 0 <= k /\ len (member_bytes m) = 512 * k.
Proof.
  intros [(Hn & Ht & _ & (? & Hm & _) & (? & Hu & _) & (? & Hg & _) & (? & Hs & _) & (? & Ht' & _) & (Hc & _)) _].
  unfold member_bytes, padding. exists (1 + (len m.2 + (- len m.2) mod 512) / 512).
  pose proof (len_nonneg m.2). pose proof (Z.mod_pos_bound (- len m.2) 512 ltac:(lia)).
  assert (len (header_block m.1) = 512) as E.
  { unfold header_block. rewrite !len_app, Hn, Ht, Hm, Hu, Hg, Hs, Ht', Hc, len_fill by lia. by vm_compute. }
  rewrite !len_app, len_fill, E by lia. Z.div_mod_to_equations. lia.
Qed.

Lemma members_len ms : Forall wf_member ms -> exists k, 0 <= k /\ len (concat (map member_bytes ms)) = 512 * k.
Proof.
  induction 1 as [|m ms (k & Hk & E)%wf_member_len Hms (k' & Hk' & E')]; [by exists 0|].
  exists (k + k'). cbn. rewrite len_app. lia.
Qed.

Section writer.
Variable accepts : Z -> bool.

Lemma write_all_Ok m output bytes output' : write_all accepts m output bytes = Ok output' -> output' = output ++ bytes.
Proof. unfold write_all. intros Hw. inv_ok. done. Qed.

Lemma write_tar_padding_Ok output size output' : write_tar_padding accepts output size = Ok output' ->
  output' = output ++ padding size.
Proof.
  unfold write_tar_padding, padding. cbv zeta. case_match; bool_prop.
  - intros [= <-]. assert ((- size) mod 512 = 0) as -> by (Z.div_mod_to_equations; lia). by rewrite app_nil_r.
  - intros ->%write_all_Ok. do 2 f_equal. Z.div_mod_to_equations. lia.
Qed.

Lemma tar_header_ranges name mode uid gid size mtime kind target h :
  tar_header name mode uid gid size mtime kind target = Ok h ->
  mode < 8 ^ 7 /\ uid < 8 ^ 7 /\ gid < 8 ^ 7 /\ size < 8 ^ 11 /\ mtime < 8 ^ 11.
Proof.
  assert (forall l a b value l', write_tar_octal l a b value = Ok l' -> value < 8 ^ (b - a - 1)) as Hoct.
  { intros l a b value l'. unfold write_tar_octal. intros Hw. inv_ok.
    match goal with H : checked_sub _ _ = Some _ |- _ => apply checked_sub_Some in H as [-> _] end. bool_prop. lia. }
  unfold tar_header. cbv zeta. intros Hw.
  apply bind_Ok in Hw as (h1 & _ & Hw). apply bind_Ok in Hw as (h2 & H1%Hoct & Hw). apply bind_Ok in Hw as (h3 & H2%Hoct & Hw).
  apply bind_Ok in Hw as (h4 & H3%Hoct & Hw). apply bind_Ok in Hw as (h5 & H4%Hoct & Hw). apply bind_Ok in Hw as (h6 & H5%Hoct & _).
  done.
Qed.

Lemma write_tar_header_Ok output name mode size mtime kind target output' :
  write_tar_header accepts output name mode 0 0 size mtime kind target = Ok output' ->
  0 <= mode -> 0 <= size -> 0 <= mtime -> is_u8 kind -> nonneg name -> nonneg target ->
  exists f, wf_fields name mode 0 0 size mtime kind target f /\ output' = output ++ header_block f.
Proof.
  unfold write_tar_header. intros (h & Hh & ->%write_all_Ok)%bind_Ok Hmode Hsize Hmtime Hkind Hname Htarget.
  pose proof (tar_header_ranges _ _ _ _ _ _ _ _ _ Hh) as (? & ? & ? & ? & ?).
  destruct (tar_header_Ok name mode 0 0 size mtime kind target) as (f & Hf & E); [by split_and!|done|done|].
  rewrite Hh in E. injection E as ->. by exists f.
Qed.

(** What is copied after the header. *)
Definition payload_data (payload : option (list (option (list Z)) * Z)) (data : list Z) : Prop :=
  match payload with
  | Some (reads, _) => stream reads = Some data
  | None => data = []
  end.

Lemma write_pax_entry_written archive name mode epoch kind target payload data archive' :
  write_pax_entry accepts archive name mode epoch kind target payload = Ok archive' ->
  payload_data payload data -> (forall reads size, payload = Some (reads, size) -> 0 <= size) ->
  0 <= mode -> 0 <= epoch -> is_u8 kind -> nonneg name -> nonneg target ->
  exists ms, written name mode epoch kind target data ms /\ archive' = archive ++ concat (map member_bytes ms).
Proof.
  unfold write_pax_entry. cbv zeta. intros (a1 & Hext & (a2 & Hhead & Hpay)%bind_Ok)%bind_Ok Hdata Hsz Hmode Hepoch Hkind Hname Htarget.
  set (size := match payload with Some (_, size) => size | None => 0 end) in *.
  assert (0 <= size) as Hsize by (unfold size; destruct payload as [ [reads s]|]; [by eapply Hsz|lia]).
  apply write_tar_header_Ok in Hhead as (f & Hf & ->); [|done..].
  assert (size = len data /\ archive' = (a1 ++ header_block f) ++ data ++ padding (len data)) as [Esize ->].
  { clear Hf. unfold size. destruct payload as [ [reads s]|].
    - unfold copy_tar_payload in Hpay. cbn in Hdata. rewrite Hdata in Hpay. cbn [ok_or mbind res_bind] in Hpay.
      apply bind_Ok in Hpay as (o & ->%write_all_Ok & (_ & Hr%refuse_Ok & ->%write_tar_padding_Ok)%bind_Ok).
      bool_prop. split; [lia|]. by rewrite Hr, <- !app_assoc.
    - cbn in Hdata. subst data. injection Hpay as <-. split; [done|]. by rewrite !app_nil_r. }
  rewrite Esize in Hf. unfold write_extensions in Hext.
  destruct (pax_extensions name kind target) as [|x xs] eqn:Eext.
  { injection Hext as <-. exists [(f, data)]. split; [exists f; by rewrite Eext|]. cbn. unfold member_bytes. cbn.
    by rewrite app_nil_r, <- !app_assoc. }
  apply bind_Ok in Hext as (records & Hrec & (a3 & Hh & Hp)%bind_Ok).
  apply write_tar_header_Ok in Hh as (g & Hg & ->); [|done|apply len_nonneg|done|done|by apply nonneg_const|done].
  unfold write_tar_payload in Hp. apply bind_Ok in Hp as (a4 & ->%write_all_Ok & ->%write_tar_padding_Ok).
  exists [(g, records); (f, data)]. split.
  - exists f. split; [done|]. rewrite Eext. by exists records, g.
  - cbn. unfold member_bytes. cbn. by rewrite app_nil_r, <- !app_assoc.
Qed.

(** ** The entries of a tree *)
Definition kind_of (n : node) : Z := match n with File _ _ => 48 | Link _ => 50 | _ => 53 end.
Definition mode_of (n : node) : Z :=
  match n with File mode _ => normalized_toolchain_file_mode mode | Link _ => m0777 | _ => m0755 end.
Definition target_text (n : node) : list Z := match n with Link target => default [] (from_utf8 target) | _ => [] end.
Definition data_of (n : node) : list Z := match n with File _ data => data | _ => [] end.
Definition is_directory (n : node) : bool := match n with Dir _ => true | _ => false end.

Definition entry_written (epoch : Z) (archive_root : list Z) (x : rel_path * node) (ms : list member) : Prop :=
  written (archive_name archive_root x.1 (is_directory x.2)) (mode_of x.2) epoch (kind_of x.2) (target_text x.2) (data_of x.2) ms /\
  match x.2 with Link target => is_Some (from_utf8 target) | Special => False | _ => True end.

Lemma scalar_nonneg s : Forall (fun c => is_scalar c = true) s -> nonneg s.
Proof. intros Hs. eapply Forall_impl; [exact Hs|]. cbn. intros c Hc%is_scalar_true. lia. Qed.

Lemma archive_name_nonneg archive_root p d : nonneg archive_root -> nonneg (archive_name archive_root p d).
Proof.
  intros Hr. unfold archive_name. assert (nonneg (rs "/")) by by apply nonneg_const.
  pose proof (scalar_nonneg _ (from_utf8_lossy_scalar (join (rs "/") p))) as Hp. fold (path_text_lossy p) in Hp.
  repeat case_match; rewrite ?Forall_app; done.
Qed.

Lemma kind_of_u8 n : is_u8 (kind_of n).
Proof. by destruct n. Qed.

Lemma mode_of_range n : 0 <= mode_of n.
Proof. destruct n; try done. cbn. unfold normalized_toolchain_file_mode. by case_match. Qed.

Section tree.
Context (fails : fs_call -> rel_path -> bool) (file_reads : rel_path -> list Z -> list (option (list Z))).
Context (root : node) (epoch : Z) (archive_root : list Z) (Hepoch : 0 <= epoch) (Hroot : nonneg archive_root).
(** A file that is read to its end delivers its bytes. *)
Context (Hreads : forall p mode data, node_at root p = Some (File mode data) -> stream (file_reads p data) = Some data).

Lemma append_entry_written archive p n archive' : node_at root p = Some n ->
  append_entry fails file_reads accepts root epoch archive_root archive p = Ok archive' ->
  exists ms, entry_written epoch archive_root (p, n) ms /\ archive' = archive ++ concat (map member_bytes ms).
Proof.
  intros Hn. unfold append_entry. rewrite Hn. intros (_ & _ & Hw)%bind_Ok. cbn [ok_or mbind res_bind] in Hw.
  pose proof (kind_of_u8 n). pose proof (mode_of_range n).
  destruct n as [mode data|kids|target|]; [| | |done].
  - apply bind_Ok in Hw as (_ & _ & Hw). apply (write_pax_entry_written _ _ _ _ _ _ _ data) in Hw as (ms & Hms & ->); try done.
    + exists ms. done.
    + by eapply Hreads.
    + intros reads size [= _ <-]. apply len_nonneg.
    + by apply archive_name_nonneg.
  - apply (write_pax_entry_written _ _ _ _ _ _ _ []) in Hw as (ms & Hms & ->); try done; [by exists ms|].
    by apply archive_name_nonneg.
  - apply bind_Ok in Hw as (_ & _ & (t & Ht%ok_or_Ok & Hw)%bind_Ok).
    apply (write_pax_entry_written _ _ _ _ _ _ _ []) in Hw as (ms & Hms & ->); try done.
    + exists ms. unfold entry_written. cbn. rewrite Ht. done.
    + by apply archive_name_nonneg.
    + apply utf8_from_utf8 in Ht as [_ Ht]. by apply scalar_nonneg.
Qed.

Lemma append_entries_written nodes : Forall (fun x => node_at root x.1 = Some x.2) nodes ->
  forall archive archive', foldM (append_entry fails file_reads accepts root epoch archive_root) archive (map fst nodes) = Ok archive' ->
  exists mss, Forall2 (entry_written epoch archive_root) nodes mss /\
    archive' = archive ++ concat (map member_bytes (concat mss)).
Proof.
  induction 1 as [|[p n] nodes Hn Hnodes IH]; intros archive archive'; cbn [map foldM fst].
  { intros [= <-]. exists []. split; [constructor|]. by rewrite app_nil_r. }
  intros (a1 & Ha & Hrest)%bind_Ok. apply append_entry_written with (n := n) in Ha as (ms & Hms & ->); [|done].
  apply IH in Hrest as (mss & Hmss & ->). exists (ms :: mss). split; [by constructor|].
  cbn. by rewrite map_app, concat_app, <- app_assoc.
Qed.

Lemma collect_paths_Ok n rel paths paths' : tree_wf n -> collect_paths fails n rel paths = Ok paths' ->
  paths' = paths ++ map fst (walk_all n rel).
Proof.
  revert rel paths paths'. induction n as [mode data|target| |kids IH] using tree_ind; intros rel paths paths' Hwf; try done.
  apply tree_wf_dir in Hwf as [Hs Hk]. cbn [collect_paths]. intros (_ & _ & Hw)%bind_Ok.
  rewrite (in_order_kids (fun name kid paths => let child := rel ++ [name] in let paths := paths ++ [child] in
    _ ← refuse (fails Inspect child) (Package CannotInspectStaged);
    match kid with Dir _ => collect_paths fails kid child paths | _ => Ok paths end)) in Hw by done.
  unfold walk_all. cbn [walk]. clear Hs. revert paths Hw. induction kids as [|[name kid] kids IHk]; intros paths; cbn [foldM flat_map fst snd].
  { intros [= <-]. by rewrite app_nil_r. }
  apply Forall_cons in IH as [IH IHs], Hk as [Hk Hks]. intros (p1 & Hp & Hrest)%bind_Ok. cbv zeta in Hp.
  apply IHk in Hrest; [|done|done]. subst paths'. apply bind_Ok in Hp as (_ & _ & Hp). rewrite map_app, app_assoc. f_equal.
  cbn [map fst]. destruct kid as [mode data|kids'|target|]; cbn [walk map]; try (injection Hp as <-; done).
  apply IH in Hp; [|done]. rewrite Hp. unfold walk_all. by rewrite <- app_assoc.
Qed.

(** The nodes in the order of the archive. *)
Definition archive_nodes : list (rel_path * node) := sort_by str_ltb (fun x => path_text_lossy x.1) (walk_all root []).

Lemma sort_by_map {A B} (f : A -> B) (key : B -> list Z) l :
  sort_by str_ltb key (map f l) = map f (sort_by str_ltb (fun x => key (f x)) l).
Proof.
  unfold sort_by. induction l as [|x l IH]; [done|]. cbn [map foldr]. rewrite IH. clear IH.
  generalize (foldr (insert_by str_ltb (fun x => key (f x))) [] l). intros k.
  induction k as [|y k IHk]; [done|]. cbn. case_match; [|done]. cbn. by rewrite IHk.
Qed.

Lemma write_tar_stream_members bytes : tree_wf root ->
  write_tar_stream fails file_reads accepts root epoch archive_root = Ok bytes ->
  exists rootms mss rest, entry_written epoch archive_root ([], root) rootms /\
    Forall2 (entry_written epoch archive_root) archive_nodes mss /\
    bytes = concat (map member_bytes (rootms ++ concat mss)) ++ fill 512 0 ++ rest /\
    Forall (fun b => b = 0) rest /\ len rest <= 20 * 512.
Proof.
  intros Hwf. unfold write_tar_stream. intros (a1 & H1 & (paths & H2 & (a2 & H3 & (a3 & ->%write_all_Ok & H4)%bind_Ok)%bind_Ok)%bind_Ok)%bind_Ok.
  cbv zeta in *. apply append_entry_written with (n := root) in H1 as (rootms & Hrootms & ->); [|done].
  apply collect_paths_Ok in H2 as ->; [|done]. cbn [app] in H3. rewrite sort_by_map in H3. fold archive_nodes in H3.
  apply append_entries_written in H3 as (mss & Hmss & ->).
  2: { apply Forall_forall. intros [p n]. unfold archive_nodes. rewrite (sort_by_perm str_ltb _ (walk_all root [])).
       intros Hp%elem_of_walk_all; [|done]. by destruct Hp. }
  cbn [app] in H4. rewrite <- concat_app, <- map_app in H4.
  assert (Forall wf_member (rootms ++ concat mss)) as Hwfm.
  { apply Forall_app. split; [eapply written_wf; [apply Hrootms|apply kind_of_u8]|].
    apply Forall_concat. clear -Hmss. induction Hmss as [|x ms l mss Hms _ IH]; [constructor|]. constructor; [|done].
    eapply written_wf; [apply Hms|apply kind_of_u8]. }
  destruct (members_len _ Hwfm) as (k & Hk & Elen). set (body := concat _) in *.
  exists rootms, mss. change (fill 1024 0) with (fill 512 0 ++ fill 512 0) in H4. rewrite app_assoc in H4.
  assert (forall n, Forall (fun b => b = 0) (fill n 0)) as Hzero by (intros n; unfold fill; by apply Forall_replicate).
  case_match; bool_prop.
  - injection H4 as <-. exists (fill 512 0). rewrite <- app_assoc. split_and!; [done|done|done|apply Hzero|done].
  - apply write_all_Ok in H4. subst bytes. eexists (fill 512 0 ++ fill _ 0). rewrite <- !app_assoc. split_and!; [done|done|done| |].
    + apply Forall_app. split; apply Hzero.
    + rewrite !len_app, Elen in *. change (len (fill 512 0)) with 512 in *.
      rewrite len_fill; Z.div_mod_to_equations; lia.
Qed.
End tree.
End writer.

(** ** Text fields *)
Definition clean (v : list Z) : Prop := Forall (fun c => c <> 0 /\ c <> 92) v.

(** What a field of [n] bytes shows of a text. *)
Definition shown (n : Z) (v : list Z) : list Z :=
  map (fun c => if in_range 0 127 c then c else 63) (take (Z.to_nat n) v).

Lemma name_field_shown n v : 0 <= n -> name_field n v = shown n v ++ fill (n - len (shown n v)) 0.
Proof.
  intros Hn. unfold name_field, shown, fill, len. 
  destruct (Z_of_nat_complete n Hn) as [k ->]. rewrite Nat2Z.id. clear Hn. revert k.
  induction v as [|c v IH]; intros k.
  { rewrite take_nil. cbn. rewrite Z.sub_0_r, Nat2Z.id. by destruct k. }
  destruct k as [|k]; [done|]. cbn [replicate write_tar_string take map app length]. f_equal. rewrite IH. do 2 f_equal. lia.
Qed.

Lemma shown_clean n v : clean v -> clean (shown n v).
Proof.
  intros Hv. unfold clean, shown. apply Forall_map. apply (Forall_take _ (Z.to_nat n)) in Hv.
  eapply Forall_impl; [exact Hv|]. cbn. intros c Hc. case_match; [done|lia].
Qed.

Lemma shown_ascii n v : forallb (in_range 0 127) v = true -> len v <= n -> shown n v = v.
Proof.
  intros Ha Hl. unfold shown. rewrite take_ge by (unfold len in Hl; lia). rewrite forallb_forall in Ha.
  induction v as [|c v IH]; [done|]. cbn. rewrite (Ha c) by by left. f_equal. apply IH; [intros x Hx; apply Ha; by right|].
  rewrite len_cons in Hl. lia.
Qed.

Lemma clean_contains v : clean v -> contains_char 0 v = false /\ contains_char 92 v = false.
Proof.
  unfold contains_char. induction 1 as [|c v Hc Hv [IH1 IH2] ]; [done|]. cbn [existsb]. rewrite IH1, IH2.
  split; apply orb_false_iff; (split; [apply Z.eqb_neq; lia|done]).
Qed.

Lemma position_zeros v n : clean v ->
  position (Z.eqb 0) (v ++ fill n 0) = if 0 <? n then Some (len v) else None.
Proof.
  intros Hv. destruct (0 <? n) eqn:E; bool_prop.
  - unfold fill. destruct (Z.to_nat n) as [|k] eqn:Ek; [lia|]. cbn [replicate].
    apply position_app; [|done]. eapply Forall_impl; [exact Hv|]. cbn beta. intros c Hc. apply Z.eqb_neq. lia.
  - unfold fill. replace (Z.to_nat n) with 0%nat by lia. rewrite app_nil_r. apply position_None.
    eapply Forall_impl; [exact Hv|]. cbn beta. intros c Hc. apply Z.eqb_neq. lia.
Qed.

Lemma name_field_text v : clean v -> until_nul (name_field 100 v) = shown 100 v /\
  has_only_trailing_nuls (name_field 100 v) = true.
Proof.
  intros Hv. pose proof (shown_clean 100 v Hv) as Hs. rewrite name_field_shown by done.
  unfold until_nul, has_only_trailing_nuls. rewrite position_zeros by done. set (n := 100 - len (shown 100 v)).
  destruct (0 <? n) eqn:E; bool_prop.
  - cbn [fmap option_fmap option_map default]. pose proof (len_nonneg (shown 100 v)) as Hlen. split.
    + rewrite slice_prefix. unfold len. rewrite Nat2Z.id. by rewrite take_app_length.
    + rewrite slice_suffix by done. unfold len at 1. rewrite Nat2Z.id, drop_app_length.
      unfold fill. generalize (Z.to_nat n). intros k. by induction k.
  - cbn. split; [|done]. unfold fill. replace (Z.to_nat n) with 0%nat by lia. by rewrite app_nil_r.
Qed.

(** ** A header block that was written *)
Section block.
Context {T : TarXz} {L : TarXzLaws T}.

Lemma block_ranges f : wf_block f ->
  get_range (header_block f) 0 100 = Some (hf_name f) /\
  get_range (header_block f) 157 257 = Some (hf_target f) /\
  get_range (header_block f) 345 500 = Some (fill 155 0).
Proof.
  intros (Hn & Ht & _ & (? & Hm & _) & (? & Hu & _) & (? & Hg & _) & (? & Hs & _) & (? & Ht' & _) & (Hc & _)).
  set (front := hf_name f ++ (hf_mode f ++ [0]) ++ (hf_uid f ++ [0]) ++ (hf_gid f ++ [0]) ++ (hf_size f ++ [0]) ++
    (hf_mtime f ++ [0]) ++ (hf_checksum f ++ [0]) ++ [32] ++ [hf_kind f]).
  assert (len front = 157) as Hfront.
  { unfold front. rewrite !len_app, Hn, Hm, Hu, Hg, Hs, Ht', Hc. done. }
  set (magic := rs "ustar" ++ [0] ++ rs "00"). assert (len magic = 8) as Hmagic by done.
  assert (header_block f = front ++ hf_target f ++ magic ++ fill 247 0) as E.
  { unfold header_block, front. by rewrite <- !app_assoc. }
  split_and!.
  - unfold header_block. rewrite <- Hn. apply get_range_prefix.
  - rewrite E. apply get_range_app_mid; lia.
  - change (fill 247 0) with (fill 80 0 ++ fill 155 0 ++ fill 12 0) in E.
    assert (header_block f = (front ++ hf_target f ++ magic ++ fill 80 0) ++ fill 155 0 ++ fill 12 0) as ->.
    { rewrite E. by rewrite <- !app_assoc. }
    apply get_range_app_mid; rewrite ?len_app, ?Hfront, ?Ht, ?Hmagic; done.
Qed.

Context (name : list Z) (mode size mtime kind : Z) (target : list Z) (f : header_fields).
Context (Hf : wf_fields name mode 0 0 size mtime kind target f) (Hkind : kind ∈ [48; 50; 53; 120]).
Context (Hname : clean name) (Htarget : clean target).

Lemma written_block : wf_block f.
Proof.
  eapply wf_fields_block; [exact Hf|]. repeat (apply elem_of_cons in Hkind as [->|Hkind]; [by unfold is_u8, u8_max|]).
  by apply elem_of_nil in Hkind.
Qed.

Lemma written_path : path_bytes (header_block f) = shown 100 name.
Proof.
  rewrite (path_bytes_block _ written_block). destruct Hf as (-> & _). by apply name_field_text.
Qed.

Lemma written_link : link_name_bytes (header_block f) = match target with [] => None | _ => Some (shown 100 target) end.
Proof.
  rewrite (link_name_block _ written_block). destruct Hf as (_ & -> & _).
  rewrite (proj1 (name_field_text target Htarget)). rewrite name_field_shown by done.
  destruct target as [|c t]; [done|]. apply Forall_cons in Htarget as [Hc _].
  rewrite bool_decide_eq_false_2; [done|]. unfold shown. cbn. intros [= E]. case_match; lia.
Qed.

Lemma written_numbers : entry_type (header_block f) = kind /\ is_ustar (header_block f) = true /\
  header_size (header_block f) = Some size /\ header_mode (header_block f) = Some mode /\
  header_uid (header_block f) = Some 0 /\ header_gid (header_block f) = Some 0 /\ header_mtime (header_block f) = Some mtime.
Proof.
  pose proof written_block as Hb. destruct Hf as (_ & _ & E & Hm & Hu & Hg & Hs & Ht & _). split_and!.
  - rewrite entry_type_block; [done|done|by rewrite E].
  - by apply is_ustar_block.
  - by apply header_size_block.
  - by apply header_mode_block.
  - by apply header_uid_block.
  - by apply header_gid_block.
  - by apply header_mtime_block.
Qed.

Lemma written_strings : validate_tar_header_string_fields (header_block f) = Ok tt.
Proof.
  unfold validate_tar_header_string_fields. destruct (block_ranges f written_block) as (-> & -> & ->).
  cbn [or_stuck mbind res_bind]. destruct written_numbers as (_ & -> & _). cbn [mbind res_bind].
  rewrite written_path, written_link. pose proof Hf as (-> & -> & _).
  rewrite (proj2 (name_field_text name Hname)), (proj2 (name_field_text target Htarget)).
  destruct (clean_contains _ (shown_clean 100 name Hname)) as [-> ->].
  destruct target as [|c t]; [done|]. by destruct (clean_contains _ (shown_clean 100 _ Htarget)) as [-> ->].
Qed.

Lemma written_header epoch expected : mtime = epoch ->
  match expected with Some m => mode = m | None => mode = m0644 \/ mode = m0755 end ->
  verify_header (header_block f) epoch expected size = Ok tt.
Proof.
  intros <- Hm. unfold verify_header. destruct written_numbers as (_ & _ & -> & -> & -> & -> & ->).
  cbn [ok_or mbind res_bind]. apply refuse_Ok. rewrite !Z.eqb_refl. cbn [negb]. rewrite !orb_false_r.
  destruct expected as [m|]; [subst m; by rewrite Z.eqb_refl|]. by destruct Hm as [->| ->].
Qed.
End block.

Lemma written_pax_header {T : TarXz} {L : TarXzLaws T} size g :
  wf_fields (rs "././@PaxHeader") 0 0 0 size 0 120 [] g -> 0 < size ->
  verify_pax_header (header_block g) size = Ok tt /\ validate_tar_header_string_fields (header_block g) = Ok tt /\
  entry_type (header_block g) = 120 /\ header_size (header_block g) = Some size.
Proof.
  intros Hg Hs. assert (120 ∈ [48; 50; 53; 120]) as Hk by set_solver.
  assert (clean (rs "././@PaxHeader")) as Hn by (repeat constructor; done). assert (clean []) as Ht by constructor.
  destruct (written_numbers _ _ _ _ _ _ _ Hg Hk) as (E1 & E2 & E3 & E4 & E5 & E6 & E7).
  split_and!; [|by eapply written_strings|done|done]. unfold verify_pax_header.
  rewrite E3, E4, E5, E6, E7. cbn [ok_or mbind res_bind]. apply refuse_Ok. rewrite E1, E2, Z.eqb_refl.
  rewrite (written_path _ _ _ _ _ _ _ Hg Hk Hn), (written_link _ _ _ _ _ _ _ Hg Hk Ht).
  rewrite (proj2 (Z.eqb_neq size 0)) by lia. rewrite (Z.eqb_refl size). by vm_compute.
Qed.

(** ** Names of entries *)
Lemma from_utf8_lossy_exact l s : from_utf8 l = Some s -> from_utf8_lossy l = s.
Proof.
  remember (length l) as n eqn:Hn. revert l s Hn. induction (lt_wf n) as [n _ IH]; intros l s ->.
  destruct l as [|b0 l1]; [by intros [= <-]|]. cbn [from_utf8 from_utf8_lossy].
  assert (forall k c, (length k < S (length l1))%nat -> cons c <$> from_utf8 k = Some s -> c :: from_utf8_lossy k = s) as Hk.
  { intros k c Hlen (s' & Hs & ->)%fmap_Some. f_equal. by eapply (IH (length k)). }
  destruct (in_range 0 0x7F b0); [apply Hk; lia|].
  destruct l1 as [|b1 l2]; [done|]. cbn [length] in Hk.
  destruct (lead2 b0) eqn:E2; cbn [andb].
  { destruct (is_cont b1); [apply Hk; lia|]. destruct l2 as [|b2 l3]; [done|].
    assert (lead3 b0 = false) as ->.
    { unfold lead2, lead3 in *. apply in_range_true in E2. apply in_range_false. lia. }
    cbn [andb]. destruct l3 as [|b3 l4]; [done|].
    assert (lead4 b0 = false) as ->.
    { unfold lead2, lead4 in *. apply in_range_true in E2. apply in_range_false. lia. }
    done. }
  destruct l2 as [|b2 l3]; [done|]. cbn [length] in Hk. destruct (lead3 b0) eqn:E3; cbn [andb].
  { destruct (second3 b0 b1 && is_cont b2) eqn:Ec.
    - apply andb_true_iff in Ec as [-> ->]. apply Hk. lia.
    - destruct l3 as [|b3 l4]; [done|].
      assert (lead4 b0 = false) as ->.
      { unfold lead3, lead4 in *. apply in_range_true in E3. apply in_range_false. lia. }
      done. }
  destruct l3 as [|b3 l4]; [done|]. cbn [length] in Hk. destruct (lead4 b0); [|done]. cbn [andb].
  destruct (second4 b0 b1); [|done]. cbn [andb]. destruct (is_cont b2); [|done]. cbn [andb].
  destruct (is_cont b3); [|done]. apply Hk. lia.
Qed.

Lemma utf8_app a b : utf8 (a ++ b) = utf8 a ++ utf8 b.
Proof. unfold utf8. apply bind_app. Qed.

Definition scalars (s : list Z) : Prop := Forall (fun c => is_scalar c = true) s.

(** The root of an archive, as a name. *)
Definition root_name (archive_root : list Z) : Prop := scalars archive_root /\ portable_name (utf8 archive_root).

Lemma root_name_text archive_root : root_name archive_root -> portable_text archive_root.
Proof. intros [Hs (t & Ht & Hp)]. rewrite from_utf8_utf8 in Ht by done. by injection Ht as <-. Qed.

(** *** Words joined by slashes *)
Section words.
Context (ws : list (list Z)) (Hne : ws <> []) (Hws : Forall (fun w => w <> [] /\ Forall (fun c => c <> 47) w) ws).

Lemma join_last : exists u c, join [47] ws = u ++ [c] /\ c <> 47.
Proof.
  revert Hne. pose proof Hws as HW. clear Hws. induction HW as [|w ws' [Hw Hc] _ IH]; [done|]. intros _. destruct ws' as [|w' ws'].
  - destruct w as [|c u _] using rev_ind; [done|]. exists u, c. split; [done|].
    apply Forall_app in Hc as [_ Hc]. by apply Forall_inv in Hc.
  - destruct IH as (u & c & E & Hc'); [done|]. exists (w ++ [47] ++ u), c. split; [|done].
    rewrite join_cons2, E. by rewrite <- !app_assoc.
Qed.

Lemma join_no_trailing_slash : ends_with (join [47] ws) (rs "/") = false.
Proof.
  apply not_true_iff_false. intros [r Er]%ends_with_true. destruct join_last as (u & c & E & Hc).
  rewrite E in Er. by apply app_inj_tail in Er as [_ ->].
Qed.

Lemma contains_str_skip w r : Forall (fun c => c <> 47) w -> contains_str (rs "//") (w ++ r) = contains_str (rs "//") r.
Proof.
  induction 1 as [|c w Hc _ IH]; [done|]. cbn [app contains_str]. change (rs "//") with [47; 47] in *.
  rewrite starts_with_head by done. exact IH.
Qed.

Lemma join_no_double_slash tail : tail = [] \/ tail = [47] -> contains_str (rs "//") (join [47] ws ++ tail) = false.
Proof.
  intros Htail. revert Hne. pose proof Hws as HW. clear Hws. induction HW as [|w ws' [Hw Hc] Hws' IH]; [done|]. intros _. destruct ws' as [|w' ws'].
  { cbn [join]. rewrite contains_str_skip by done. by destruct Htail as [->| ->]. }
  rewrite join_cons2, <- app_assoc, contains_str_skip by done. specialize (IH ltac:(done)).
  apply Forall_cons in Hws' as [ [Hw' Hc'] _]. destruct w' as [|c w']; [done|]. apply Forall_cons in Hc' as [Hc' _].
  assert (exists r, join [47] ((c :: w') :: ws') = c :: r) as [r Er] by (destruct ws'; by eexists).
  rewrite Er in *. cbn [app] in *.
  change (starts_with (47 :: c :: r ++ tail) (rs "//") || contains_str (rs "//") (c :: r ++ tail) = false).
  rewrite IH, orb_false_r.
  apply not_true_iff_false. intros [q Eq]%starts_with_true. injection Eq as -> _. done.
Qed.

Lemma join_not_absolute tail : starts_with (join [47] ws ++ tail) (rs "/") = false.
Proof.
  destruct Hws as [|w ws' [Hw Hc] _]; [done|]. destruct w as [|c w]; [done|]. apply Forall_cons in Hc as [Hc _].
  change (rs "/") with [47]. destruct ws'; cbn [join app]; by apply starts_with_head.
Qed.

Lemma join_nonempty tail : eqb_list (join [47] ws ++ tail) [] = false.
Proof.
  apply bool_decide_eq_false. destruct join_last as (u & c & -> & _). by destruct u.
Qed.

Lemma split_join : split_on (Z.eqb 47) (join [47] ws) = ws.
Proof. apply split_on_join; [done|]. eapply Forall_impl; [exact Hws|]. by intros w [_ ?]. Qed.
End words.

Lemma join_utf8 ws : utf8 (join [47] ws) = join [47] (map utf8 ws).
Proof.
  induction ws as [|w ws IH]; [done|]. destruct ws as [|w' ws]; [done|]. cbn [map]. rewrite !join_cons2, !utf8_app, IH. done.
Qed.

Lemma Forall_join_names (P : Z -> Prop) ws : P 47 -> Forall (Forall P) ws -> Forall P (join [47] ws).
Proof.
  intros H47. induction 1 as [|w ws Hw Hws IH]; [constructor|]. destruct ws as [|w' ws]; [done|].
  rewrite join_cons2, !Forall_app. split_and!; [done|by repeat constructor|done].
Qed.

(** A trailing slash adds no component. *)
Lemma components_slash ws : Forall portable_name ws -> ws <> [] ->
  components (join [47] ws ++ [47]) = map Normal ws.
Proof.
  intros Hws Hne. rewrite <- (components_join ws Hws). change (rs "/") with [47].
  assert (Forall (fun w => w <> [] /\ Forall (fun c => c <> 47) w) ws) as Hw.
  { eapply Forall_impl; [exact Hws|]. intros w (Hb & Hn & _)%portable_name_bytes. split; [done|].
    eapply Forall_impl; [exact Hb|]. naive_solver. }
  unfold components, is_absolute. rewrite (join_not_absolute ws Hne Hw [47]).
  rewrite <- (app_nil_r (join [47] ws)) at 2. rewrite (join_not_absolute ws Hne Hw []).
  assert (split_on (Z.eqb 47) (join [47] ws ++ [47]) = ws ++ [ [] ]) as ->.
  { replace (join [47] ws ++ [47]) with (join [47] (ws ++ [ [] ])) by (by rewrite join_snoc, app_nil_r).
    apply split_on_join; [by destruct ws|]. apply Forall_app. split; [|by repeat constructor].
    eapply Forall_impl; [exact Hw|]. by intros w [_ ?]. }
  rewrite split_join by done. destruct ws as [|w ws]; [done|]. cbn [app].
  assert (forall l, omap piece_component (l ++ [ [] ]) = omap piece_component l) as Ho.
  { intros l. rewrite omap_app. cbn. by rewrite app_nil_r. }
  change (w :: ws ++ [ [] ]) with ((w :: ws) ++ [ [] ]). by rewrite (Ho (w :: ws)).
Qed.

Lemma normal_names ws : mapR normal_name (map Normal ws) = Ok ws.
Proof. induction ws as [|w ws IH]; [done|]. cbn. by rewrite IH. Qed.

Section names.
Context (archive_root : list Z) (Hroot : root_name archive_root) (p : rel_path) (Hp : Forall portable_name p).

Lemma portable_words texts : Forall portable_text texts -> Forall (fun w => w <> [] /\ Forall (fun c => c <> 47) w) texts.
Proof.
  intros Ht. eapply Forall_impl; [exact Ht|]. intros w (Hne & _ & _ & Hc & _). split; [done|].
  eapply Forall_impl; [exact Hc|]. naive_solver.
Qed.

(** The pieces of the name, and whether a slash ends it. *)
Lemma archive_name_join d : (p = [] -> d = true) ->
  exists texts, Forall2 (fun n t => from_utf8 n = Some t) p texts /\ Forall portable_text texts /\
    archive_name archive_root p d = join [47] (archive_root :: texts) ++ (if d then [47] else []).
Proof.
  intros Hd. destruct (path_text_portable p Hp) as (texts & H2 & Ht & Ep). exists texts. split_and!; [done|done|].
  unfold archive_name. destruct H2 as [|n t p' texts' Hn H2].
  { rewrite Hd, bool_decide_eq_true_2 by done. rewrite (proj2 (ends_with_true _ _)) by (by exists archive_root). done. }
  rewrite bool_decide_eq_false_2 by done. unfold path_text_lossy. unfold path_text in Ep.
  rewrite (from_utf8_lossy_exact _ _ Ep). rewrite join_cons2. change (rs "/") with [47]. destruct d; [|by rewrite app_nil_r].
  rewrite <- join_cons2. rewrite join_no_trailing_slash; [done|done|]. apply portable_words. constructor; [|done].
  by apply root_name_text.
Qed.

(** The name of an entry passes the checks on paths and is its relative path. *)
Lemma archive_name_accepted d kind : (kind =? 53) = d -> (p = [] -> d = true) ->
  let name := archive_name archive_root p d in
  clean name /\ from_utf8 (utf8 name) = Some name /\
  validate_canonical_archive_path (utf8 name) kind archive_root = Ok tt /\
  package_relative_path (utf8 name) archive_root = Ok (if bool_decide (p = []) then (None, true) else (Some p, false)).
Proof.
  intros Hkind Hd name. destruct (archive_name_join d Hd) as (texts & H2 & Ht & En). fold name in En.
  pose proof (root_name_text _ Hroot) as Hrt. set (ws := archive_root :: texts) in *. set (tail := if d then [47] else []) in *.
  assert (Forall portable_text ws) as Hws by by constructor. pose proof (portable_words _ Hws) as Hw.
  assert (ws <> []) as Hne by done.
  assert (Forall scalars ws) as Hsc.
  { constructor; [apply Hroot|]. clear -H2. induction H2 as [|n t p texts Hn _ IH]; [constructor|].
    constructor; [by apply utf8_from_utf8 in Hn as [_ ?]|done]. }
  assert (scalars name) as Hname.
  { rewrite En. apply Forall_app. split; [by apply Forall_join_names|]. unfold tail. destruct d; by repeat constructor. }
  assert (clean name) as Hclean.
  { rewrite En. apply Forall_app. split; [|unfold tail; destruct d; by repeat constructor]. apply Forall_join_names; [done|].
    eapply Forall_impl; [exact Hws|]. intros w (_ & _ & _ & Hc & _). eapply Forall_impl; [exact Hc|]. naive_solver. }
  assert (utf8 name = join [47] (utf8 archive_root :: p) ++ tail) as Eb.
  { rewrite En, utf8_app, join_utf8. f_equal; [|unfold tail; by destruct d]. unfold ws. cbn [map]. do 2 f_equal.
    clear -H2. induction H2 as [|n t p texts Hn _ IH]; [done|]. cbn. rewrite IH. by apply utf8_from_utf8 in Hn as [-> _]. }
  pose proof (from_utf8_utf8 _ Hname) as Hdec. split_and!; [done|done| |].
  - unfold validate_canonical_archive_path. rewrite Hdec. cbn [ok_or mbind res_bind]. rewrite Hkind.
    destruct (clean_contains _ Hclean) as [-> ->]. rewrite En. rewrite (join_nonempty ws Hne Hw), (join_not_absolute ws Hne Hw).
    rewrite (join_no_double_slash ws Hne Hw) by (unfold tail; destruct d; auto). cbn [orb].
    assert ((if d && ends_with (join [47] ws ++ tail) (rs "/") then default (join [47] ws ++ tail) (strip_suffix (rs "/") (join [47] ws ++ tail))
      else join [47] ws ++ tail) = join [47] ws) as ->.
    { unfold tail. destruct d; cbn [andb]; [|by rewrite app_nil_r]. rewrite (proj2 (ends_with_true _ _)) by by eexists.
      by rewrite (proj2 (strip_suffix_Some (rs "/") (join [47] ws ++ [47]) (join [47] ws))). }
    rewrite split_join by done. guard_by ltac:(unfold tail; destruct d; [done|]; cbn [negb andb]; rewrite app_nil_r; by apply join_no_trailing_slash).
    apply refuse_Ok. cbn [head ws]. unfold ws. rewrite bool_decide_eq_true_2 by done. cbn [negb]. rewrite orb_false_r.
    fold ws. apply existsb_false_Forall. eapply Forall_impl; [exact Hws|]. intros w (H1 & H3 & H4 & _).
    unfold eqb_list. by rewrite !bool_decide_eq_false_2.
  - unfold package_relative_path. rewrite Eb.
    assert (components (join [47] (utf8 archive_root :: p) ++ tail) = map Normal (utf8 archive_root :: p)) as ->.
    { assert (Forall portable_name (utf8 archive_root :: p)) as Hall by (constructor; [apply Hroot|done]).
      unfold tail. destruct d; [by apply components_slash|]. rewrite app_nil_r. by apply components_join. }
    rewrite normal_names. cbn [mbind res_bind]. unfold eqb_list. rewrite (bool_decide_eq_true_2 (utf8 archive_root = utf8 archive_root)) by done. cbn [negb refuse].
    by case_bool_decide.
Qed.
End names.
