(* ===== verification/ArchiveReadback.v ===== *)
(** * ArchiveReadback: a scan accepts what the writer wrote

    For every consumer that takes the nodes of a tree one after the other, the
    scan of an archive of that tree runs to its end, with the tree's entries as
    the inventory.  [node_fits] and [tree_fits] are the checks of the scan that
    the writer does not make itself. *)

From S2P Require Import Prelude Text Digest StateRes Ordered Publication PayloadPath ArchiveTypes.
From S2P Require Import PrefixScan TarWriter TarReader PayloadTree Packaging ArchiveScan ArchiveSafety ArchiveMembers.

(** ** Reading a member's bytes *)
Lemma stream_take_reader reads : forall limit content, stream reads = Some content -> len content < limit ->
  stream (take_reader limit reads) = Some content.
Proof.
  induction reads as [|[ch|] reads IH]; intros limit content; cbn [take_reader]; [done| |done].
  intros Hs Hl. pose proof (len_nonneg content). rewrite (proj2 (Z.eqb_neq limit 0)) by lia. cbv zeta.
  destruct (decide (ch = [])) as [->|Hch]; [by rewrite take_nil|].
  rewrite stream_chunk in Hs by done. apply fmap_Some in Hs as (rest & Hr & ->). rewrite len_app in Hl.
  pose proof (len_nonneg rest). rewrite take_ge by (unfold len in *; lia). rewrite stream_chunk by done.
  rewrite (IH (limit - len ch) rest Hr) by lia. done.
Qed.

Lemma read_exact_entry_Ok reads content : stream reads = Some content -> len content <= MAX_METADATA_BYTES ->
  read_exact_entry reads (len content) = Ok content.
Proof.
  intros Hs Hl. unfold read_exact_entry. guard_by ltac:(by apply Z.ltb_ge).
  step_by ltac:(apply ok_or_Ok, checked_add_Some; split; [done|]; unfold MAX_METADATA_BYTES, u64_max in *; lia).
  step_by ltac:(apply ok_or_Ok, stream_take_reader; [exact Hs|lia]).
  guard_by ltac:(by rewrite Z.eqb_refl). done.
Qed.

(** ** Extensions of one entry *)
Definition long_text (s : list Z) : bool := negb (forallb (in_range 0 127) s) || (100 <? str_len s).

Lemma short_text s : long_text s = false -> shown 100 s = s /\ utf8 s = s.
Proof.
  unfold long_text. intros [Ha Hl]%orb_false_iff. apply negb_false_iff in Ha. apply Z.ltb_ge in Hl. split.
  - apply shown_ascii; [done|]. pose proof (str_len_ge s). lia.
  - apply utf8_ascii. rewrite forallb_forall, <- List.Forall_forall in Ha. eapply Forall_impl; [exact Ha|].
    intros c Hc%in_range_true. unfold is_ascii. lia.
Qed.

Lemma append_extension_len exts : forall records records', foldM append_extension records exts = Ok records' ->
  len records + foldr (fun e n => len e.2 + n) 0 exts <= len records'.
Proof.
  induction exts as [|[key value] exts IH]; intros records records'; cbn [foldM foldr snd]; [intros [= <-]; lia|].
  intros (r & Hr & Hrest%IH)%bind_Ok. enough (len records + len value <= len r) by lia.
  unfold append_extension, append_pax_record in Hr. inv_ok. rewrite !len_app. cbn [fst snd].
  rewrite len_cons, len_app, len_cons, len_app. unfold len. lia.
Qed.

Definition path_override (name : list Z) : option (list Z) := if long_text name then Some (utf8 name) else None.
Definition link_override (kind : Z) (target : list Z) : option (list Z) :=
  if (kind =? 50) && long_text target then Some (utf8 target) else None.

Lemma pax_extensions_eq name kind target : pax_extensions name kind target = extensions (path_override name) (link_override kind target).
Proof.
  unfold pax_extensions, extensions, path_override, link_override. fold (long_text name) (long_text target).
  by destruct (long_text name), (kind =? 50), (long_text target).
Qed.

Lemma clean_pax_value s : clean s -> scalars s -> s <> [] -> pax_value (utf8 s).
Proof.
  intros Hc Hs Hne.
  assert (clean (utf8 s)) as Hu.
  { refine (proj1 (utf8_Forall_ascii (fun c => c <> 0 /\ c <> 92) s _ _ Hs) Hc); intros; lia. }
  unfold pax_value. destruct (clean_contains _ Hu) as [-> ->]. split_and!; [|done|done|by rewrite from_utf8_utf8].
  intros E. apply Hne. apply (f_equal from_utf8) in E. rewrite from_utf8_utf8 in E by done. by injection E.
Qed.

(** The records in front of an entry are read back as its overrides. *)
Lemma records_read name kind target records :
  clean name -> scalars name -> name <> [] -> clean target -> scalars target -> (kind = 50 -> target <> []) ->
  pax_extensions name kind target <> [] -> foldM append_extension [] (pax_extensions name kind target) = Ok records ->
  len records <= MAX_PAX_EXTENSION_BYTES ->
  parse_pax_overrides records = Ok (mkPax (path_override name) (link_override kind target)) /\ 0 < len records.
Proof.
  intros Hcn Hsn Hnn Hct Hst Hnt Hne Hrec Hlen. rewrite pax_extensions_eq in *.
  assert (opt_len (path_override name) + opt_len (link_override kind target) <= len records) as Hopt.
  { apply append_extension_len in Hrec. rewrite len_nil in Hrec. etrans; [|exact Hrec]. unfold extensions.
    destruct (path_override name), (link_override kind target); cbn; lia. }
  destruct (extensions_read (path_override name) (link_override kind target)) as (r & Hr & Hp & Hl & _).
  - destruct (path_override name); [by left|]. destruct (link_override kind target); [by right|]. done.
  - unfold path_override. intros v. case_match; [|done]. intros [= <-]. by apply clean_pax_value.
  - unfold link_override. intros v. destruct (Z.eqb_spec kind 50); [|done]. case_match; [|done]. intros [= <-]. apply clean_pax_value; auto.
  - unfold MAX_PAX_EXTENSION_BYTES, usize_max, u64_max in *. lia.
  - rewrite Hrec in Hr. injection Hr as <-. done.
Qed.

(** ** What the scan asks of a tree *)
Section readback.
Context {H : Sha256} {U : UnicodeFold} {T : TarXz} {L : TarXzLaws T} {C : Type} `{!ArchiveConsumer C}.
Context (contract : PayloadArchiveContract) (prefixes : list (list Z)).

Definition is_manifest (p : rel_path) : bool := bool_decide (map Normal p = components (utf8 (manifest_file contract))).
Definition is_tools (p : rel_path) : bool :=
  capture_toolchain_tools contract && bool_decide (map Normal p = components TOOLCHAIN_TOOLS_FILE).

Definition node_name (x : rel_path * node) : list Z := archive_name (archive_root contract) x.1 (is_directory x.2).
Definition extension_bytes (x : rel_path * node) : Z :=
  match foldM append_extension [] (pax_extensions (node_name x) (kind_of x.2) (target_text x.2)) with
  | Ok records => len records
  | _ => 0
  end.

Definition node_fits (x : rel_path * node) : bool :=
  is_ok (payload_casefold_path_key (map Normal x.1)) && (extension_bytes x <=? MAX_PAX_EXTENSION_BYTES) &&
  match x.2 with
  | Dir _ => true
  | Link target => negb (eqb_list target []) && negb (contains_char 0 target) && negb (contains_char 92 target) &&
                   is_ok (validate_link_target x.1 target)
  | File _ data =>
    if is_manifest x.1 then len data <=? MAX_METADATA_BYTES
    else negb (any_needle (filter (fun n => n <> []) prefixes) data) &&
         (negb (is_tools x.1) || (len data <=? MAX_TOOLCHAIN_TOOLS_BYTES))
  | Special => false
  end.

Definition path_key (p : rel_path) : list Z :=
  match payload_casefold_path_key (map Normal p) with Ok k => k | _ => [] end.
Definition sum (f : rel_path * node -> Z) (nodes : list (rel_path * node)) : Z := foldr (fun x n => f x + n) 0 nodes.
Definition file_size (x : rel_path * node) : Z := len (data_of x.2).

(** The root has no extension, since the scan takes none in front of it, and
    the limits are 64-bit numbers. *)
Definition contract_fits : bool :=
  is_ok (validate_payload_archive_contract contract) &&
  forallb is_scalar (archive_root contract) && negb (long_text (archive_root contract ++ rs "/")) &&
  (max_entries contract <=? u64_max) && (max_regular_file_bytes contract <=? u64_max).

Definition tree_fits (nodes : list (rel_path * node)) : bool :=
  forallb node_fits nodes && bool_decide (NoDup (map (fun x => path_key x.1) nodes)) &&
  (1 + len nodes <=? max_entries contract) && (sum file_size nodes <=? max_regular_file_bytes contract) &&
  (sum extension_bytes nodes <=? MAX_TOTAL_PAX_EXTENSION_BYTES) &&
  forallb (fun p => bool_decide (is_Some (from_utf8 p))) prefixes.

Context (Hcontract : contract_fits = true).

Lemma contract_root : root_name (archive_root contract) /\ long_text (archive_root contract ++ rs "/") = false /\
  max_entries contract <= u64_max /\ max_regular_file_bytes contract <= u64_max.
Proof.
  unfold contract_fits in Hcontract. rewrite !andb_true_iff in Hcontract. destruct Hcontract as [[[ [Hv Hs] Hl] Hm] Hb].
  apply negb_true_iff in Hl. apply Z.leb_le in Hm, Hb. split_and!; [|done..].
  rewrite forallb_forall, <- List.Forall_forall in Hs. split; [exact Hs|].
  destruct (validate_payload_archive_contract contract) as [ []|e|] eqn:E; try done.
  unfold validate_payload_archive_contract in E. inv_guards.
  match goal with H : components (utf8 (archive_root contract)) = _ |- _ => rename H into Hcs end.
  match goal with H : payload_casefold_path_key (components (utf8 (archive_root contract))) = Ok ?k |- _ => rename H into Hk end.
  rewrite Hcs in Hk. change [Normal (utf8 (archive_root contract))] with (map Normal [utf8 (archive_root contract)]) in Hk.
  apply payload_key_portable in Hk as [Hk _]. by apply Forall_inv in Hk.
Qed.

(** ** The members of one entry *)
Definition with_pending (st : scan_state) (pending : option PaxOverrides) (total : Z) : scan_state :=
  mkScan (sc_entries st) (sc_seen st) (sc_directories st) (sc_previous st) (sc_manifest st) (sc_tools st)
    (sc_budget st) pending total (sc_index st).

(** The member proper of an entry, with the overrides in front of it. *)
Record member_of (x : rel_path * node) (pending : option PaxOverrides) (entry : tar_entry) : Prop := {
  mo_entry : exists f reads, entry = mkTarEntry (header_block f) (len (data_of x.2)) reads /\
    stream reads = Some (data_of x.2) /\
    wf_fields (node_name x) (mode_of x.2) 0 0 (len (data_of x.2)) (source_date_epoch contract) (kind_of x.2) (target_text x.2) f;
  mo_path : default (shown 100 (node_name x)) (pax ← pending; pax_path pax) = utf8 (node_name x);
  mo_link : kind_of x.2 = 50 -> default (shown 100 (target_text x.2)) (pax ← pending; pax_linkpath pax) = utf8 (target_text x.2);
  mo_other : kind_of x.2 <> 50 -> (pax ← pending; pax_linkpath pax) = None;
}.

Definition link_clean (n : node) : Prop :=
  match n with
  | Link target => target <> [] /\ contains_char 0 target = false /\ contains_char 92 target = false /\ is_Some (from_utf8 target)
  | Special => False
  | _ => True
  end.

Record placed (x : rel_path * node) : Prop := {
  pl_portable : Forall portable_name x.1;
  pl_root : x.1 = [] -> is_directory x.2 = true;
  pl_clean : link_clean x.2;
}.

Lemma kind_directory n : link_clean n -> (kind_of n =? 53) = is_directory n.
Proof. by destruct n. Qed.

Lemma contains_clean v : contains_char 0 v = false -> contains_char 92 v = false -> clean v.
Proof.
  unfold contains_char. intros H0%existsb_false_Forall H92%existsb_false_Forall. apply Forall_forall. intros c Hc.
  rewrite Forall_forall in H0, H92. specialize (H0 c Hc). specialize (H92 c Hc). bool_prop. lia.
Qed.

Lemma target_texts n : link_clean n -> clean (target_text n) /\ scalars (target_text n) /\
  (kind_of n = 50 -> target_text n <> [] /\ n = Link (utf8 (target_text n))).
Proof.
  destruct n as [mode data|kids|target|]; try done; try (intros _; by repeat constructor).
  intros (Hne & H0 & H92 & [t Ht]). cbn [target_text kind_of]. rewrite Ht. cbn [default]. apply utf8_from_utf8 in Ht as [E Hs]. split_and!; [|done|].
  - refine (proj2 (utf8_Forall_ascii (fun c => c <> 0 /\ c <> 92) t _ _ Hs) _); [intros; lia..|]. rewrite E. by apply contains_clean.
  - intros _. unfold id. rewrite E. split; [|done]. intros ->. by subst target.
Qed.

Lemma node_texts x : placed x -> clean (node_name x) /\ scalars (node_name x) /\ node_name x <> [] /\
  validate_canonical_archive_path (utf8 (node_name x)) (kind_of x.2) (archive_root contract) = Ok tt /\
  from_utf8 (utf8 (node_name x)) = Some (node_name x) /\
  package_relative_path (utf8 (node_name x)) (archive_root contract) =
    Ok (if bool_decide (x.1 = []) then (None, true) else (Some x.1, false)).
Proof.
  intros [Hp Hr Hc]. destruct contract_root as [Hroot _].
  destruct (archive_name_accepted _ Hroot _ Hp _ _ (kind_directory _ Hc) Hr) as (H1 & H2 & H3 & H4).
  split_and!; [done|by apply utf8_from_utf8 in H2 as [_ ?]| |done..].
  unfold node_name, archive_name. apply root_name_text in Hroot as (Hne & _). destruct (archive_root contract); [done|].
  repeat case_match; done.
Qed.

(** A PAX extension in front of an entry becomes the pending overrides. *)
Lemma scan_extension st records g reads ov : sc_index st <> 0 -> sc_pending st = None ->
  wf_fields (rs "././@PaxHeader") 0 0 0 (len records) 0 120 [] g -> stream reads = Some records ->
  parse_pax_overrides records = Ok ov -> 0 < len records <= MAX_PAX_EXTENSION_BYTES -> 0 <= sc_pax_total st ->
  sc_pax_total st + len records <= MAX_TOTAL_PAX_EXTENSION_BYTES ->
  forall s : C, scan_entry contract prefixes st (Some (mkTarEntry (header_block g) (len records) reads)) s =
    (Ok (with_pending st (Some ov) (sc_pax_total st + len records)), s).
Proof.
  intros Hi Hpend Hg Hreads Hparse Hlen Htotal Hmax s. destruct (written_pax_header _ _ Hg) as (Hv & Hstr & Hkind & Hsize); [lia|].
  unfold scan_entry, lift, mbind, SR_bind. cbn [ok_or header]. rewrite Hstr, Hkind. cbn [Z.eqb Pos.eqb orb refuse].
  unfold scan_pax. cbn [header entry_size entry_reads]. rewrite Hpend, Hsize, (proj2 (Z.eqb_neq _ _) Hi). cbn [orb ok_or mbind res_bind].
  rewrite bool_decide_eq_false_2 by (by intros [? ?]). cbn [refuse mbind res_bind]. rewrite Z.eqb_refl. cbn [negb refuse mbind res_bind].
  rewrite Hv. cbn [mbind res_bind].
  assert (account_pax_extension (sc_pax_total st) (len records) = Ok (sc_pax_total st + len records)) as ->.
  { unfold account_pax_extension. guard_by ltac:(apply orb_false_iff; split; [apply Z.eqb_neq; lia|apply Z.ltb_ge; lia]).
    step_by ltac:(apply ok_or_Ok, checked_add_Some; split; [done|unfold MAX_TOTAL_PAX_EXTENSION_BYTES, u64_max in *; lia]).
    guard_by ltac:(apply Z.ltb_ge; lia). done. }
  cbn [mbind res_bind]. rewrite (read_exact_entry_Ok _ _ Hreads) by (unfold MAX_PAX_EXTENSION_BYTES, MAX_METADATA_BYTES in *; lia).
  cbn [mbind res_bind]. rewrite Hparse. done.
Qed.

(** The scan of an entry's members is the scan of its member proper, with the
    overrides pending. *)
Lemma scan_written st x ms es : entry_written (source_date_epoch contract) (archive_root contract) x ms ->
  Forall2 entry_of ms es -> placed x -> extension_bytes x <= MAX_PAX_EXTENSION_BYTES ->
  sc_pending st = None -> 0 <= sc_pax_total st -> sc_pax_total st + extension_bytes x <= MAX_TOTAL_PAX_EXTENSION_BYTES ->
  (sc_index st = 0 -> long_text (node_name x) = false /\ kind_of x.2 <> 50) ->
  exists pending entry, member_of x pending entry /\
    forall s : C, forM (scan_entry contract prefixes) st es s =
      scan_entry contract prefixes (with_pending st pending (sc_pax_total st + extension_bytes x)) (Some entry) s.
Proof.
  intros [(f & Hf & Hms) _] Hes Hpl Hext Hpend Ht0 Ht Hfirst.
  destruct (node_texts x Hpl) as (Hcn & Hsn & Hnn & _). destruct (target_texts x.2 (pl_clean _ Hpl)) as (Hct & Hst & Hlt).
  set (exts := pax_extensions (node_name x) (kind_of x.2) (target_text x.2)) in *.
  assert (default (shown 100 (node_name x)) (path_override (node_name x)) = utf8 (node_name x)) as Epath.
  { unfold path_override. destruct (long_text (node_name x)) eqn:E; [done|]. by destruct (short_text _ E) as [-> ->]. }
  assert (kind_of x.2 = 50 -> default (shown 100 (target_text x.2)) (link_override (kind_of x.2) (target_text x.2)) = utf8 (target_text x.2)) as Elink.
  { intros E50. unfold link_override. rewrite E50. cbn [Z.eqb Pos.eqb andb]. destruct (long_text (target_text x.2)) eqn:E; [done|].
    by destruct (short_text _ E) as [-> ->]. }
  assert (kind_of x.2 <> 50 -> link_override (kind_of x.2) (target_text x.2) = None) as Eother.
  { intros N50. unfold link_override. by rewrite (proj2 (Z.eqb_neq _ _) N50). }
  assert (exts = extensions (path_override (node_name x)) (link_override (kind_of x.2) (target_text x.2))) as Eexts
    by apply pax_extensions_eq.
  fold (node_name x) in Hms. fold exts in Hms. unfold extension_bytes in *. fold exts in Hext, Ht |- *.
  destruct exts as [|e0 exts'] eqn:Ee.
  - subst ms. inversion Hes as [|? ? ? ? (reads & -> & Hreads) Hnil]; subst. inversion Hnil; subst. cbn in Hreads.
    exists None, (mkTarEntry (header_block f) (len (data_of x.2)) reads). split.
    + assert (path_override (node_name x) = None /\ link_override (kind_of x.2) (target_text x.2) = None) as [E1 E2].
      { unfold extensions in Eexts. by destruct (path_override (node_name x)), (link_override (kind_of x.2) (target_text x.2)). }
      split; [by exists f, reads| | |done]; cbn; [by rewrite E1 in Epath|]. intros E50. specialize (Elink E50). by rewrite E2 in Elink.
    + intros s. cbn [forM foldM]. rewrite SR_bind_mret. f_equal. cbn. rewrite Z.add_0_r. unfold with_pending. rewrite <- Hpend. by destruct st.
  - destruct Hms as (records & g & Hrec & Hg & ->). rewrite Hrec in *.
    inversion Hes as [|? ? ? ? (reads1 & -> & Hreads1) Hes']; subst. inversion Hes' as [|? ? ? ? (reads & -> & Hreads) Hnil]; subst.
    inversion Hnil; subst. cbn in Hreads, Hreads1. rewrite <- Ee in Hrec.
    destruct (records_read (node_name x) (kind_of x.2) (target_text x.2) records) as [Hparse Hpos]; try done.
    { intros E50. by apply Hlt. }
    { fold exts. by rewrite Ee. }
    exists (Some (mkPax (path_override (node_name x)) (link_override (kind_of x.2) (target_text x.2)))),
      (mkTarEntry (header_block f) (len (data_of x.2)) reads). split; [split; [by exists f, reads|done|done|done]|].
    intros s. cbn [forM]. cbn [fst snd].
    assert (sc_index st <> 0) as Hi.
    { intros Hi. destruct (Hfirst Hi) as [E1 E2]. unfold path_override in Eexts. rewrite E1, (Eother E2) in Eexts. done. }
    unfold mbind at 1, SR_bind at 1.
    rewrite (scan_extension st records g reads1 _ Hi Hpend Hg Hreads1 Hparse ltac:(lia) Ht0 Ht s). apply SR_bind_mret.
Qed.
(** ** The state of a scan that has taken some nodes *)
Definition is_file (n : node) : bool := match n with File _ _ => true | _ => false end.
Definition taken_entry (x : rel_path * node) : option ArosToolchainManifestEntry :=
  if is_manifest x.1 && is_file x.2 then None else Some (node_entry x).
Definition manifest_data (x : rel_path * node) : option (list Z) :=
  if is_manifest x.1 && is_file x.2 then Some (data_of x.2) else None.
Definition tools_data (x : rel_path * node) : option (list Z) :=
  if negb (is_manifest x.1) && is_tools x.1 && is_file x.2 then Some (data_of x.2) else None.
Definition node_text (x : rel_path * node) : list Z := default [] (path_text x.1).

Record scanned (taken : list (rel_path * node)) (st : scan_state) : Prop := {
  sd_entries : sc_entries st = omap taken_entry taken;
  sd_seen : forall k, k ∈ sc_seen st <-> exists x, x ∈ taken /\ path_key x.1 = k;
  sd_directories : forall d, d ∈ sc_directories st <-> d = [] \/ exists kids, (d, Dir kids) ∈ taken;
  sd_previous : sc_previous st = node_text <$> last taken;
  sd_manifest : sc_manifest st = last (omap manifest_data taken);
  sd_tools : sc_tools st = last (omap tools_data taken);
  sd_budget : sc_budget st = (1 + len taken, sum file_size taken);
  sd_index : sc_index st = 1 + len taken;
}.

(** A node that comes next: new, below a directory already taken, and after
    all of them in the order of texts. *)
Record follows (taken : list (rel_path * node)) (x : rel_path * node) : Prop := {
  fo_path : x.1 <> [];
  fo_parent : removelast x.1 = [] \/ exists kids, (removelast x.1, Dir kids) ∈ taken;
  fo_order : forall y, y ∈ taken -> str_ltb (node_text y) (node_text x) = true;
  fo_key : forall y, y ∈ taken -> path_key y.1 <> path_key x.1;
}.

Lemma follows_new taken x y : follows taken x -> y ∈ taken -> y.1 <> x.1.
Proof. intros Hf Hy E. apply (fo_key _ _ Hf y Hy). by rewrite E. Qed.

Definition mode_text (mode : Z) : list Z := format_octal 4 (normalized_toolchain_file_mode mode).

(** A consumer that takes every node that follows. *)
Record consumer_accepts (R : list (rel_path * node) -> C -> Prop) : Prop := {
  accepts_directory : forall taken p kids s, R taken s -> follows taken (p, Dir kids) ->
    exists s', consume_directory p s = (Ok tt, s') /\ R (taken ++ [(p, Dir kids)]) s';
  accepts_symlink : forall taken p target s, R taken s -> follows taken (p, Link target) ->
    exists s', consume_symlink p target s = (Ok tt, s') /\ R (taken ++ [(p, Link target)]) s';
  accepts_regular : forall taken p mode data reads s, R taken s -> follows taken (p, File mode data) ->
    is_manifest p = false -> stream reads = Some data -> len data <= u64_max -> any_needle (filter (fun n => n <> []) prefixes) data = false ->
    exists s', consume_regular p (mode_text mode) reads (len data) prefixes s = (Ok (sha256_bytes data), s') /\
      R (taken ++ [(p, File mode data)]) s';
  accepts_manifest : forall taken p mode data reads s, R taken s -> follows taken (p, File mode data) ->
    is_manifest p = true -> stream reads = Some data -> len data <= MAX_METADATA_BYTES ->
    exists s', consume_manifest p reads (len data) s = (Ok data, s') /\ R (taken ++ [(p, File mode data)]) s';
}.

Lemma sum_snoc f taken x : sum f (taken ++ [x]) = sum f taken + f x.
Proof. unfold sum. induction taken as [|y taken IH]; cbn; lia. Qed.

Lemma file_size_other x : is_file x.2 = false -> file_size x = 0.
Proof. by destruct x as [p []]. Qed.

Lemma kind_file n : link_clean n -> (kind_of n =? 48) = is_file n.
Proof. by destruct n. Qed.

(** The fields of a member as the scan reads them. *)
Record read_member (x : rel_path * node) (pending : option PaxOverrides) (entry : tar_entry) : Prop := {
  rm_size : entry_size entry = len (data_of x.2) /\ header_size (header entry) = Some (len (data_of x.2));
  rm_kind : entry_type (header entry) = kind_of x.2;
  rm_mode : header_mode (header entry) = Some (mode_of x.2);
  rm_strings : validate_tar_header_string_fields (header entry) = Ok tt;
  rm_path : default (path_bytes (header entry)) (pax ← pending; pax_path pax) = utf8 (node_name x);
  rm_link : kind_of x.2 = 50 ->
    match (pax ← pending; pax_linkpath pax) with Some t => Some t | None => link_name_bytes (header entry) end =
      Some (utf8 (target_text x.2));
  rm_other : kind_of x.2 <> 50 -> (pax ← pending; pax_linkpath pax) = None;
  rm_header : forall expected,
    match expected with Some m => mode_of x.2 = m | None => mode_of x.2 = m0644 \/ mode_of x.2 = m0755 end ->
    verify_header (header entry) (source_date_epoch contract) expected (len (data_of x.2)) = Ok tt;
  rm_reads : stream (entry_reads entry) = Some (data_of x.2);
}.

Lemma kind_of_elem n : kind_of n ∈ [48; 50; 53; 120].
Proof. destruct n; set_solver. Qed.

Lemma member_of_read x pending entry : placed x -> member_of x pending entry -> read_member x pending entry.
Proof.
  intros Hpl [(f & reads & -> & Hreads & Hf) Hpath Hlink Hother].
  destruct (node_texts x Hpl) as (Hcn & _). destruct (target_texts x.2 (pl_clean _ Hpl)) as (Hct & _ & Hlt).
  pose proof (kind_of_elem x.2) as Hk.
  destruct (written_numbers _ _ _ _ _ _ _ Hf Hk) as (E1 & _ & E3 & E4 & _).
  split; cbn [header entry_size entry_reads]; try done.
  - by eapply written_strings.
  - by rewrite (written_path _ _ _ _ _ _ _ Hf Hk Hcn).
  - intros E50. specialize (Hlink E50). rewrite (written_link _ _ _ _ _ _ _ Hf Hk Hct).
    destruct (Hlt E50) as [Hne _]. destruct (pax ← pending; pax_linkpath pax); cbn in Hlink; [by rewrite Hlink|].
    destruct (target_text x.2); [done|]. by rewrite Hlink.
  - intros expected Hm. by eapply written_header.
Qed.

Lemma member_path_read st n m x pending total entry : sc_budget st = (n, m) -> placed x -> read_member x pending entry ->
  n + 1 <= max_entries contract -> m + file_size x <= max_regular_file_bytes contract ->
  member_path contract (with_pending st pending total) entry =
    Ok (len (data_of x.2), (n + 1, m + file_size x),
        (if bool_decide (x.1 = []) then None else Some x.1), (pax ← pending; pax_linkpath pax)).
Proof.
  intros Hb Hpl Hrm Hme Hmb. destruct contract_root as (_ & _ & Hu1 & Hu2).
  destruct (node_texts x Hpl) as (_ & _ & _ & Hval & Hutf & Hrel). destruct (rm_size _ _ _ Hrm) as [Es Eh].
  unfold member_path. cbn [sc_pending sc_budget with_pending]. rewrite Eh. cbn [ok_or mbind res_bind].
  rewrite Es, Z.eqb_refl. cbn [negb refuse mbind res_bind]. rewrite (rm_kind _ _ _ Hrm), (kind_file _ (pl_clean _ Hpl)), Hb.
  assert (account (n, m) (is_file x.2) (len (data_of x.2)) (max_entries contract)
    (max_regular_file_bytes contract) = Ok (n + 1, m + file_size x)) as ->.
  { unfold account. cbn [fst snd]. step_by ltac:(apply ok_or_Ok, checked_add_Some; split; [done|lia]).
    guard_by ltac:(apply Z.ltb_ge; lia).
    destruct (is_file x.2) eqn:Ef; [|by rewrite (file_size_other _ Ef), Z.add_0_r].
    step_by ltac:(apply ok_or_Ok, checked_add_Some; split; [done|unfold file_size in *; lia]).
    guard_by ltac:(apply Z.ltb_ge; unfold file_size in *; lia). done. }
  cbn [mbind res_bind]. fold (mbind (M:=option) pax_linkpath pending). guard_by ltac:(
    destruct (Z.eqb_spec (kind_of x.2) 50) as [E|N]; [by rewrite andb_false_r|by rewrite (rm_other _ _ _ Hrm N)]).
  rewrite (rm_path _ _ _ Hrm), Hval. cbn [mbind res_bind]. rewrite Hutf. cbn [ok_or mbind res_bind]. rewrite Hrel. cbn [mbind res_bind].
  by case_bool_decide.
Qed.

Lemma node_fits_key x : node_fits x = true -> payload_casefold_path_key (map Normal x.1) = Ok (path_key x.1).
Proof.
  unfold node_fits, path_key. rewrite !andb_true_iff. intros [ [Hk _] _]. by destruct (payload_casefold_path_key _).
Qed.

Lemma last_elem {A} (l : list A) x : last l = Some x -> x ∈ l.
Proof. intros [l' ->]%last_Some. apply elem_of_app. right. by left. Qed.

Lemma admit_member_read taken st x pending total : scanned taken st -> placed x -> follows taken x -> node_fits x = true ->
  admit_member (with_pending st pending total) x.1 = Ok (node_text x, path_key x.1).
Proof.
  intros Hsc Hpl Hfo Hfit. pose proof (node_fits_key _ Hfit) as Hk.
  unfold admit_member. cbn [sc_previous sc_seen sc_directories with_pending].
  destruct (path_text_portable _ (pl_portable _ Hpl)) as (texts & _ & _ & Et).
  assert (path_text x.1 = Some (node_text x)) as Ht by (unfold node_text; by rewrite Et). rewrite Ht.
  cbn [ok_or mbind res_bind]. clear Et texts.
  assert (map (fun c => if c =? 92 then 47 else c) (node_text x) = node_text x) as ->.
  { exact (portable_text_unslash _ _ (pl_portable _ Hpl) Ht). }
  guard_by ltac:(rewrite (sd_previous _ _ Hsc); destruct (last taken) as [y|] eqn:El; cbn; [|done];
    apply last_elem in El; by rewrite (fo_order _ _ Hfo y El)).
  rewrite Hk. cbn [map_err mbind res_bind]. guard_by ltac:(
    apply not_true_iff_false; intros (y & Hy & E)%bs_has_true%(sd_seen _ _ Hsc); by apply (fo_key _ _ Hfo y Hy)).
  pose proof (fo_path _ _ Hfo) as Hne.
  assert (parent x.1 = Some (removelast x.1)) as -> by (by destruct (x.1)). cbn [ok_or mbind res_bind].
  guard_by ltac:(apply negb_false_iff, bool_decide_eq_true, (sd_directories _ _ Hsc), Hfo). done.
Qed.

(** What taking one node does to the state. *)
Lemma scanned_node_snoc taken st x st' : scanned taken st -> node_fits x = true ->
  sc_entries st' = sc_entries st ++ (match taken_entry x with Some e => [e] | None => [] end) ->
  sc_seen st' = bs_put str_ltb (path_key x.1) (sc_seen st) ->
  sc_directories st' = (if is_directory x.2 then [x.1] else []) ++ sc_directories st ->
  sc_previous st' = Some (node_text x) ->
  sc_manifest st' = (match manifest_data x with Some b => Some b | None => sc_manifest st end) ->
  sc_tools st' = (match tools_data x with Some b => Some b | None => sc_tools st end) ->
  sc_budget st' = (2 + len taken, sum file_size taken + file_size x) ->
  sc_index st' = sc_index st + 1 -> scanned (taken ++ [x]) st'.
Proof.
  intros Hsc Hfit He Hs Hd Hp Hm Ht Hb Hi.
  assert (forall {B} (f : rel_path * node -> option B), last (omap f (taken ++ [x])) = match f x with Some b => Some b | None => last (omap f taken) end) as Hlast.
  { intros B f. rewrite omap_app. cbn. destruct (f x) as [b|]; [by rewrite last_snoc|by rewrite app_nil_r]. }
  split.
  - rewrite He, (sd_entries _ _ Hsc), omap_app. cbn. by destruct (taken_entry x).
  - intros k. rewrite Hs, (elem_of_bs_put str_ltb), (sd_seen _ _ Hsc). setoid_rewrite elem_of_app. setoid_rewrite list_elem_of_singleton.
    naive_solver.
  - intros d. rewrite Hd, elem_of_app, (sd_directories _ _ Hsc). setoid_rewrite elem_of_app. setoid_rewrite list_elem_of_singleton.
    destruct x as [p [| kids| |] ]; cbn; rewrite ?list_elem_of_singleton, ?elem_of_nil; naive_solver.
  - by rewrite Hp, last_snoc.
  - by rewrite Hm, Hlast, (sd_manifest _ _ Hsc).
  - by rewrite Ht, Hlast, (sd_tools _ _ Hsc).
  - rewrite Hb, sum_snoc, len_app. change (len [x]) with 1. f_equal. lia.
  - rewrite Hi, (sd_index _ _ Hsc), len_app. change (len [x]) with 1. lia.
Qed.
(** ** Taking a node *)
Lemma scan_entry_member st entry s : validate_tar_header_string_fields (header entry) = Ok tt ->
  entry_type (header entry) ∈ [48; 50; 53] -> scan_entry contract prefixes st (Some entry) s = scan_member contract prefixes st entry s.
Proof.
  intros Hstr Hk. unfold scan_entry. rewrite (lift_bind _ _ entry) by done. cbv zeta.
  rewrite (lift_bind _ _ tt) by done.
  rewrite (lift_bind _ _ tt); repeat (apply elem_of_cons in Hk as [->|Hk]; [done|]); by apply elem_of_nil in Hk.
Qed.

Lemma mode_of_cases mode data : mode_of (File mode data) = m0644 \/ mode_of (File mode data) = m0755.
Proof. cbn. unfold normalized_toolchain_file_mode. case_match; auto. Qed.

Lemma mode_text_scan mode data : (if Z.land (mode_of (File mode data)) m0111 =? 0 then rs "0644" else rs "0755") = mode_text mode.
Proof. cbn. unfold mode_text, normalized_toolchain_file_mode. by destruct (Z.land mode m0111 =? 0). Qed.

Section taking.
Context (R : list (rel_path * node) -> C -> Prop) (Hacc : consumer_accepts R).
Context (taken : list (rel_path * node)) (st : scan_state) (x : rel_path * node) (pending : option PaxOverrides) (total : Z) (entry : tar_entry).
Context (Hsc : scanned taken st) (Hpl : placed x) (Hfo : follows taken x) (Hfit : node_fits x = true) (Hrm : read_member x pending entry).
Context (Hme : 2 + len taken <= max_entries contract) (Hmb : sum file_size taken + file_size x <= max_regular_file_bytes contract).

Definition took (s : C) : Prop := exists st' s',
  scan_member contract prefixes (with_pending st pending total) entry s = (Ok st', s') /\
  scanned (taken ++ [x]) st' /\ sc_pending st' = None /\ sc_pax_total st' = total /\ R (taken ++ [x]) s'.

(** The part of [scan_member] before it looks at the kind of the member. *)
Lemma scan_member_head s :
  scan_member contract prefixes (with_pending st pending total) entry s =
  (let next entries directories manifest tools :=
     mkScan entries (bs_put str_ltb (path_key x.1) (sc_seen st)) directories (Some (node_text x)) manifest tools
       (2 + len taken, sum file_size taken + file_size x) None total (sc_index st + 1) in
   if kind_of x.2 =? 53 then
     _ ← lift (verify_header (header entry) (source_date_epoch contract) (Some m0755) 0);
     _ ← consume_directory x.1;
     mret (next (sc_entries st ++ [directory_entry (node_text x)]) (x.1 :: sc_directories st) (sc_manifest st) (sc_tools st))
   else if kind_of x.2 =? 50 then
     _ ← lift (verify_header (header entry) (source_date_epoch contract) (Some m0777) 0);
     target ← lift (link_target (header entry) x.1 (pax ← pending; pax_linkpath pax));
     _ ← consume_symlink x.1 target;
     mret (next (sc_entries st ++ [link_entry (node_text x) (default [] (from_utf8 target))]) (sc_directories st) (sc_manifest st) (sc_tools st))
   else if kind_of x.2 =? 48 then
     _ ← lift (verify_header (header entry) (source_date_epoch contract) None (len (data_of x.2)));
     if is_manifest x.1 then
       _ ← lift (refuse (bool_decide (is_Some (sc_manifest st)) || (MAX_METADATA_BYTES <? len (data_of x.2))) (Verification BadEmbeddedManifest));
       bytes ← consume_manifest x.1 (entry_reads entry) (len (data_of x.2));
       mret (next (sc_entries st) (sc_directories st) (Some bytes) (sc_tools st))
     else
       found ← scan_regular contract prefixes (with_pending st pending total) entry (len (data_of x.2)) x.1 (node_text x);
       mret (next (sc_entries st ++ [found.1]) (sc_directories st) (sc_manifest st) found.2)
   else fail (Verification UnsupportedEntryType)) s.
Proof.
  destruct contract_root as (_ & _ & Hu & _). unfold scan_member. cbv zeta.
  rewrite (lift_bind _ _ _ _ (member_path_read st _ _ x pending total entry (sd_budget _ _ Hsc) Hpl Hrm ltac:(lia) Hmb)).
  replace (1 + len taken + 1) with (2 + len taken) by lia.
  cbn [with_pending sc_index sc_entries sc_seen sc_directories sc_manifest sc_tools sc_pax_total].
  pose proof (len_nonneg taken). rewrite (sd_index _ _ Hsc). rewrite (proj2 (Z.eqb_neq (1 + len taken) 0)) by lia.
  rewrite (lift_bind _ _ (1 + len taken + 1)) by (apply ok_or_Ok, checked_add_Some; split; [done|lia]).
  rewrite (bool_decide_eq_false_2 (x.1 = [])) by apply Hfo. rewrite (lift_bind _ _ x.1) by done.
  rewrite (lift_bind _ _ _ _ (admit_member_read _ _ _ pending total Hsc Hpl Hfo Hfit)). cbn [fst snd].
  rewrite (rm_kind _ _ _ Hrm). done.
Qed.

Lemma took_by s st' s' : scan_member contract prefixes (with_pending st pending total) entry s = (Ok st', s') ->
  R (taken ++ [x]) s' -> sc_seen st' = bs_put str_ltb (path_key x.1) (sc_seen st) -> sc_previous st' = Some (node_text x) ->
  sc_budget st' = (2 + len taken, sum file_size taken + file_size x) -> sc_index st' = sc_index st + 1 ->
  sc_pending st' = None -> sc_pax_total st' = total ->
  sc_entries st' = sc_entries st ++ (match taken_entry x with Some e => [e] | None => [] end) ->
  sc_directories st' = (if is_directory x.2 then [x.1] else []) ++ sc_directories st ->
  sc_manifest st' = (match manifest_data x with Some b => Some b | None => sc_manifest st end) ->
  sc_tools st' = (match tools_data x with Some b => Some b | None => sc_tools st end) -> took s.
Proof.
  intros Hrun HR ? ? ? ? ? ? ? ? ? ?. exists st', s'. split_and!; try done. by eapply scanned_node_snoc.
Qed.

(** Nothing at the path of [x] was taken before. *)
Lemma none_before {B} (f : rel_path * node -> option B) (P : rel_path -> Prop) :
  (forall y b, f y = Some b -> P y.1) -> (forall p q, P p -> P q -> p = q) -> P x.1 -> last (omap f taken) = None.
Proof.
  intros Hf Hinj Hx. destruct (last (omap f taken)) as [b|] eqn:E; [|done]. exfalso.
  apply last_elem, list_elem_of_omap in E as (y & Hy & Eb). apply (follows_new _ _ _ Hfo Hy). apply Hinj; [by eapply Hf|done].
Qed.

Lemma normal_inj (p q : rel_path) cs : map Normal p = cs -> map Normal q = cs -> p = q.
Proof.
  intros <-. revert q. induction p as [|a p IH]; intros [|b q]; try done. cbn. intros [= -> E]. f_equal. by apply IH.
Qed.

Lemma node_text_name : path_name x.1 = node_text x.
Proof.
  destruct (path_text_portable _ (pl_portable _ Hpl)) as (texts & _ & _ & Et). unfold node_text. rewrite Et.
  by apply path_name_portable, Et; apply Hpl.
Qed.

Lemma take_directory kids s : x.2 = Dir kids -> R taken s -> took s.
Proof.
  intros Ex HR. pose proof (scan_member_head s) as Hhead. pose proof (rm_header _ _ _ Hrm (Some m0755)) as Hv.
  pose proof (accepts_directory R Hacc taken x.1 kids s HR) as Hdir. rewrite <- Ex, <- surjective_pairing in Hdir.
  destruct (Hdir Hfo) as (s' & Hrun & HR'). rewrite Ex in Hhead, Hv. cbn [kind_of mode_of data_of Z.eqb Pos.eqb] in Hhead, Hv. cbv zeta in Hhead.
  rewrite (lift_bind _ _ tt), (SR_bind_step _ _ tt s s' Hrun) in Hhead by (by apply Hv).
  eapply took_by; [exact Hhead|try done..];
    unfold taken_entry, manifest_data, tools_data, node_entry; rewrite Ex; cbn [is_file is_directory]; rewrite ?andb_false_r; try done.
  by rewrite node_text_name.
Qed.

Lemma take_symlink target s : x.2 = Link target -> R taken s -> took s.
Proof.
  intros Ex HR. pose proof (scan_member_head s) as Hhead. pose proof (rm_header _ _ _ Hrm (Some m0777)) as Hv.
  pose proof (accepts_symlink R Hacc taken x.1 target s HR) as Hlink. rewrite <- Ex, <- surjective_pairing in Hlink.
  destruct (Hlink Hfo) as (s' & Hrun & HR'). pose proof (rm_link _ _ _ Hrm) as Htarget.
  pose proof (pl_clean _ Hpl) as Hclean. pose proof Hfit as Hfit'. unfold node_fits in Hfit'. rewrite !andb_true_iff in Hfit'. destruct Hfit' as [_ Hfl].
  rewrite Ex in Hhead, Hv, Htarget, Hclean, Hfl. cbn [kind_of mode_of data_of Z.eqb Pos.eqb target_text] in *. cbv zeta in Hhead.
  destruct Hclean as (Hne & H0 & H92 & [t Ht]). specialize (Htarget eq_refl). rewrite Ht in Htarget. cbn [default] in Htarget. unfold id in Htarget.
  pose proof Ht as [Et _]%utf8_from_utf8. rewrite Et in Htarget.
  assert (link_target (header entry) x.1 (pax ← pending; pax_linkpath pax) = Ok target) as Hlt.
  { unfold link_target. rewrite Htarget. cbn [ok_or mbind res_bind]. rewrite H0, H92.
    guard_by ltac:(unfold eqb_list; by rewrite bool_decide_eq_false_2). rewrite Ht. cbn [ok_or mbind res_bind].
    rewrite !andb_true_iff in Hfl. destruct Hfl as [_ Hfl]. by destruct (validate_link_target x.1 target) as [ []| |]. }
  rewrite (lift_bind _ _ tt) in Hhead by (by apply Hv). rewrite (lift_bind _ _ _ _ Hlt), (SR_bind_step _ _ tt s s' Hrun) in Hhead.
  eapply took_by; [exact Hhead|try done..];
    unfold taken_entry, manifest_data, tools_data, node_entry; rewrite Ex; cbn [is_file is_directory]; rewrite ?andb_false_r; try done.
  by rewrite node_text_name.
Qed.

Lemma take_file mode data s : x.2 = File mode data -> R taken s -> took s.
Proof.
  intros Ex HR. pose proof (scan_member_head s) as Hhead. pose proof (rm_header _ _ _ Hrm None) as Hv.
  pose proof (rm_reads _ _ _ Hrm) as Hreads. pose proof (rm_mode _ _ _ Hrm) as Hmode.
  pose proof Hfit as Hfit'. unfold node_fits in Hfit'. rewrite !andb_true_iff in Hfit'. destruct Hfit' as [_ Hfl].
  destruct contract_root as (_ & _ & _ & Hu).
  assert (0 <= sum file_size taken) as Hsum.
  { unfold sum. clear. induction taken as [|y l IH]; cbn; [lia|]. unfold file_size at 1. pose proof (len_nonneg (data_of y.2)). lia. }
  assert (file_size x = len data) as Esize by (unfold file_size; by rewrite Ex).
  assert (len data <= u64_max) as Hlen by (pose proof (len_nonneg data); lia).
  rewrite Ex in Hhead, Hv, Hreads, Hmode, Hfl. cbn [kind_of data_of Z.eqb Pos.eqb] in *. cbv zeta in Hhead.
  rewrite (lift_bind _ _ tt) in Hhead by (apply Hv, mode_of_cases). destruct (is_manifest x.1) eqn:Eman.
  - apply Z.leb_le in Hfl. rewrite (lift_bind _ _ tt) in Hhead.
    2: { apply refuse_Ok, orb_false_iff. split; [|by apply Z.ltb_ge]. apply bool_decide_eq_false. rewrite (sd_manifest _ _ Hsc).
         rewrite (none_before manifest_data (fun p => is_manifest p = true)); [by intros [? ?]| | |done].
         - intros y b. unfold manifest_data. destruct (is_manifest y.1); [done|]. done.
         - intros p q Hp%bool_decide_eq_true Hq%bool_decide_eq_true. by eapply normal_inj. }
    pose proof (accepts_manifest R Hacc taken x.1 mode data (entry_reads entry) s HR) as Hm. rewrite <- Ex, <- surjective_pairing in Hm.
    destruct (Hm Hfo Eman Hreads Hfl) as (s' & Hrun & HR'). rewrite (SR_bind_step _ _ _ s s' Hrun) in Hhead.
    eapply took_by; [exact Hhead|try done..];
      unfold taken_entry, manifest_data, tools_data; rewrite ?Ex, ?Eman; cbn [is_file andb negb]; by rewrite ?app_nil_r.
  - apply andb_true_iff in Hfl as [Hany Htools]. apply negb_true_iff in Hany.
    assert (exists s', scan_regular contract prefixes (with_pending st pending total) entry (len data) x.1 (node_text x) s =
      (Ok (node_entry x, match tools_data x with Some b => Some b | None => sc_tools st end), s') /\ R (taken ++ [x]) s') as (s' & Hrun & HR').
    { unfold scan_regular. rewrite (lift_bind _ _ _ _ (proj2 (ok_or_Ok _ _ _) Hmode)). cbv zeta. rewrite mode_text_scan.
      assert (forall sha, sha = sha256_bytes data -> mkEntry (node_text x) (mode_text mode) (rs "file") (Some sha) (Some (len data)) None = node_entry x) as He.
      { intros sha ->. unfold node_entry. rewrite Ex, node_text_name. done. }
      fold (is_tools x.1). pose proof (accepts_regular R Hacc taken x.1 mode data) as Hreg. rewrite <- Ex, <- surjective_pairing in Hreg.
      destruct (is_tools x.1) eqn:Etools.
      - apply orb_true_iff in Htools as [?|Htools]; [done|]. apply Z.leb_le in Htools. rewrite (lift_bind _ _ tt).
        2: { apply refuse_Ok, orb_false_iff. split; [by apply Z.ltb_ge|]. apply bool_decide_eq_false. cbn [with_pending sc_tools]. rewrite (sd_tools _ _ Hsc).
             rewrite (none_before tools_data (fun p => is_tools p = true)); [by intros [? ?]| | |done].
             - intros y b. unfold tools_data. destruct (is_tools y.1); [done|]. by rewrite andb_false_r.
             - intros p q [_ Hp%bool_decide_eq_true]%andb_true_iff [_ Hq%bool_decide_eq_true]%andb_true_iff. by eapply normal_inj. }
        rewrite (lift_bind _ _ data) by (apply read_exact_entry_Ok; [done|unfold MAX_TOOLCHAIN_TOOLS_BYTES, MAX_METADATA_BYTES in *; lia]).
        destruct (Hreg [Some data] s HR Hfo Eman) as (s' & Hrun & HR'); [by destruct data; [done|]; cbn; rewrite app_nil_r|done|done|].
        exists s'. split; [|done]. rewrite (SR_bind_step _ _ _ s s' Hrun). unfold tools_data. rewrite Ex, Eman, Etools. cbn.
        by rewrite He.
      - destruct (Hreg (entry_reads entry) s HR Hfo Eman Hreads Hlen Hany) as (s' & Hrun & HR'). exists s'. split; [|done].
        rewrite (SR_bind_step _ _ _ s s' Hrun). unfold tools_data. rewrite Etools, andb_false_r. cbn. by rewrite He. }
    rewrite (SR_bind_step _ _ _ s s' Hrun) in Hhead. cbn [fst snd] in Hhead.
    eapply took_by; [exact Hhead|try done..]; unfold taken_entry, manifest_data; rewrite ?Eman, ?Ex; done.
Qed.

Lemma take_node s : R taken s -> took s.
Proof.
  pose proof (pl_clean _ Hpl) as Hclean. destruct (x.2) as [mode data|kids|target|] eqn:Ex; [| | |done].
  - by eapply take_file.
  - by eapply take_directory.
  - by eapply take_symlink.
Qed.
End taking.

(** ** The root *)
Lemma take_root kids pending total entry (s : C) : read_member ([], Dir kids) pending entry ->
  1 <= max_entries contract -> 0 <= max_regular_file_bytes contract ->
  exists st', scan_member contract prefixes (with_pending scan_start pending total) entry s = (Ok st', s) /\
    scanned [] st' /\ sc_pending st' = None /\ sc_pax_total st' = total.
Proof.
  intros Hrm Hme Hmb. assert (placed ([], Dir kids)) as Hpl by (split; [constructor|done|done]).
  unfold scan_member. cbv zeta.
  rewrite (lift_bind _ _ _ _ (member_path_read scan_start 0 0 _ pending total entry eq_refl Hpl Hrm ltac:(lia) Hmb)).
  cbn [fst snd]. rewrite (bool_decide_eq_true_2 ([] = [])) by done. cbn [with_pending scan_start sc_index Z.eqb].
  rewrite (rm_kind _ _ _ Hrm). rewrite (lift_bind _ _ tt).
  2: { apply refuse_Ok, orb_false_iff. split; [|done]. apply bool_decide_eq_false. by intros [? ?]. }
  rewrite (lift_bind _ _ tt) by (by apply (rm_header _ _ _ Hrm (Some m0755))).
  eexists. split; [done|]. split; [|done]. split; cbn; try done.
  - intros k. split; [by intros ?%elem_of_nil|by intros (? & ?%elem_of_nil & _)].
  - intros d. rewrite list_elem_of_singleton. split; [auto|]. by intros [->|[? ?%elem_of_nil] ].
Qed.

(** ** All nodes *)
Lemma Forall2_concat_inv {A B} (P : A -> B -> Prop) mss : forall es, Forall2 P (concat mss) es ->
  exists ess, es = concat ess /\ Forall2 (Forall2 P) mss ess.
Proof.
  induction mss as [|ms mss IH]; intros es Hes; cbn in Hes.
  - inversion Hes. by exists [].
  - apply Forall2_app_inv_l in Hes as (es1 & es2 & H1 & (ess & -> & H2)%IH & ->). exists (es1 :: ess). split; [done|by constructor].
Qed.

Section nodes.
Context (nodes : list (rel_path * node)).
Context (Hnodes : forall taken x rest, nodes = taken ++ x :: rest -> placed x /\ follows taken x).
Context (Hfits : tree_fits nodes = true).

Lemma sum_nonneg f l : (forall x, 0 <= f x) -> 0 <= sum f l.
Proof. intros Hf. unfold sum. induction l as [|x l IH]; cbn; [lia|]. specialize (Hf x). lia. Qed.
Lemma sum_app f l1 l2 : sum f (l1 ++ l2) = sum f l1 + sum f l2.
Proof. unfold sum. induction l1 as [|x l1 IH]; cbn; lia. Qed.
Lemma extension_bytes_nonneg x : 0 <= extension_bytes x.
Proof. unfold extension_bytes. case_match; [apply len_nonneg|lia|lia]. Qed.
Lemma file_size_nonneg x : 0 <= file_size x.
Proof. apply len_nonneg. Qed.

Lemma tree_fits_at taken x rest : nodes = taken ++ x :: rest -> node_fits x = true /\
  2 + len taken <= max_entries contract /\ sum file_size taken + file_size x <= max_regular_file_bytes contract /\
  sum extension_bytes taken + extension_bytes x <= MAX_TOTAL_PAX_EXTENSION_BYTES /\ extension_bytes x <= MAX_PAX_EXTENSION_BYTES.
Proof.
  intros E. unfold tree_fits in Hfits. rewrite !andb_true_iff in Hfits. destruct Hfits as [[[[ [Hf _] Hn] Hs] He] _].
  apply Z.leb_le in Hn, Hs, He. rewrite E in Hn, Hs, He. rewrite len_app, len_cons in Hn. rewrite !sum_app in *.
  change (sum ?f (x :: rest)) with (f x + sum f rest) in *. pose proof (len_nonneg rest).
  pose proof (sum_nonneg file_size rest file_size_nonneg). pose proof (sum_nonneg extension_bytes rest extension_bytes_nonneg).
  rewrite forallb_forall in Hf. assert (node_fits x = true) as Hx by (apply Hf, list_elem_of_In; rewrite E; set_solver).
  split_and!; [done|lia|lia|lia|]. unfold node_fits in Hx. rewrite !andb_true_iff in Hx. destruct Hx as [ [_ Hx] _]. lia.
Qed.

Lemma scan_nodes R : consumer_accepts R -> forall rest taken mss ess st s, nodes = taken ++ rest ->
  Forall2 (entry_written (source_date_epoch contract) (archive_root contract)) rest mss -> Forall2 (Forall2 entry_of) mss ess ->
  scanned taken st -> sc_pending st = None -> sc_pax_total st = sum extension_bytes taken -> R taken s ->
  exists st' s', forM (scan_entry contract prefixes) st (concat ess) s = (Ok st', s') /\ scanned nodes st' /\
    sc_pending st' = None /\ R nodes s'.
Proof.
  intros Hacc. induction rest as [|x rest IH]; intros taken mss ess st s En Hw He Hsc Hpend Htot HR.
  - inversion Hw; subst mss. inversion He; subst ess. rewrite app_nil_r in En. subst taken. exists st, s. done.
  - apply Forall2_cons_inv_l in Hw as (ms & mss' & Hms & Hmss & ->). apply Forall2_cons_inv_l in He as (es & ess' & Hes & Hess & ->). cbn [concat].
    destruct (Hnodes _ _ _ En) as [Hpl Hfo]. destruct (tree_fits_at _ _ _ En) as (Hfit & Hme & Hmb & Hex & Hex').
    pose proof (sum_nonneg extension_bytes taken extension_bytes_nonneg). pose proof (len_nonneg taken).
    destruct (scan_written st x ms es) as (pending & entry & Hmo & Hrun); try done; try lia.
    { rewrite (sd_index _ _ Hsc). lia. }
    pose proof (member_of_read _ _ _ Hpl Hmo) as Hrm.
    destruct (take_node R Hacc taken st x pending (sc_pax_total st + extension_bytes x) entry Hsc Hpl Hfo Hfit Hrm Hme Hmb s HR)
      as (st' & s' & Hmem & Hsc' & Hpend' & Htot' & HR').
    rewrite <- scan_entry_member, <- Hrun in Hmem.
    2: { apply Hrm. }
    2: { rewrite (rm_kind _ _ _ Hrm). pose proof (pl_clean _ Hpl). destruct (x.2); set_solver. }
    rewrite (forM_app _ _ _ _ _ _ _ Hmem).
    apply (IH (taken ++ [x]) mss' ess'); try done; [by rewrite <- app_assoc|].
    rewrite Htot', Htot, sum_app. unfold sum at 3. cbn. lia.
Qed.

Lemma verify_terminal_zeros reads : forall rest n, stream reads = Some rest -> Forall (fun b => b = 0) rest ->
  0 <= n -> n + len rest <= 20 * 512 -> verify_archive_terminal reads n = Ok tt.
Proof.
  induction reads as [|[ch|] reads IH]; intros rest n; cbn [verify_archive_terminal]; [done| |done].
  rewrite len_chunk. case_bool_decide as Hch; [done|]. rewrite stream_chunk by done. intros (rest' & Hr & ->)%fmap_Some Hz Hn Hl.
  apply Forall_app in Hz as [Hz Hz']. rewrite len_app in Hl. pose proof (len_nonneg rest'). pose proof (len_nonneg ch).
  step_by ltac:(apply ok_or_Ok, checked_add_Some; split; [done|unfold u64_max; lia]).
  guard_by ltac:(apply orb_false_iff; split; [apply Z.ltb_ge; lia|]; apply existsb_false_Forall; eapply Forall_impl; [exact Hz|]; by intros ? ->).
  eapply IH; [done|done|lia|lia].
Qed.

(** The scan of an archive of these nodes. *)
Lemma scan_archive_written R json root kids rootms mss rest s manifest digest :
  consumer_accepts R -> R [] s -> root = Dir kids ->
  entry_written (source_date_epoch contract) (archive_root contract) ([], root) rootms ->
  Forall2 (entry_written (source_date_epoch contract) (archive_root contract)) nodes mss ->
  Forall (fun b => b = 0) rest -> len rest <= 20 * 512 ->
  let archive := xz_encode (concat (map member_bytes (rootms ++ concat mss)) ++ fill 512 0 ++ rest) in
  len archive <= MAX_ARCHIVE_BYTES -> last (omap manifest_data nodes) = Some manifest ->
  toolchain_inventory_sha256 json (omap taken_entry nodes) = Ok digest ->
  exists s', scan_archive contract prefixes json (mkInput (Some (true, len archive)) archive) s =
    (Ok (mkTree manifest (omap taken_entry nodes) digest (last (omap tools_data nodes))), s') /\ R nodes s'.
Proof.
  intros Hacc HR -> Hroot Hmss Hzero Hrest archive Hsize Hman Hdig.
  assert (Forall wf_member (rootms ++ concat mss)) as Hwfm.
  { apply Forall_app. split; [eapply written_wf; [apply Hroot|apply kind_of_u8]|].
    apply Forall_concat. clear -Hmss. induction Hmss as [|x ms l mss Hms _ IH]; [constructor|]. constructor; [|done].
    eapply written_wf; [apply Hms|apply kind_of_u8]. }
  destruct (open_archive_members _ rest Hwfm Hzero) as (es & reads & Hopen & Hes & Hreads). fold archive in Hopen.
  apply Forall2_app_inv_l in Hes as (es1 & es2 & Hes1 & (ess & -> & Hess)%Forall2_concat_inv & ->).
  destruct contract_root as (Hrootname & Hshort & _).
  pose proof Hcontract as Hc. unfold contract_fits in Hc. rewrite !andb_true_iff in Hc. destruct Hc as [[[ [Hv _] _] _] _].
  destruct (validate_payload_archive_contract contract) as [ []|e|] eqn:Ev; try done.
  assert (1 <= max_entries contract /\ 0 <= max_regular_file_bytes contract) as [Hme Hmb].
  { pose proof Hfits as Hf. unfold tree_fits in Hf. rewrite !andb_true_iff in Hf. destruct Hf as [[[[ [_ _] Hn] Hs] _] _].
    apply Z.leb_le in Hn, Hs. pose proof (len_nonneg nodes). pose proof (sum_nonneg file_size nodes file_size_nonneg). lia. }
  assert (placed ([], Dir kids)) as Hplroot by (split; [constructor|done|done]).
  assert (long_text (node_name ([], Dir kids)) = false) as Hlong.
  { unfold node_name, archive_name. cbn [fst snd is_directory]. rewrite bool_decide_eq_true_2 by done.
    rewrite (proj2 (ends_with_true _ _)) by by eexists. done. }
  assert (extension_bytes ([], Dir kids) = 0) as Eext.
  { unfold extension_bytes. rewrite pax_extensions_eq. unfold path_override. by rewrite Hlong. }
  destruct (scan_written scan_start ([], Dir kids) rootms es1) as (pending & entry & Hmo & Hrun); try done; try (rewrite Eext; done).
  rewrite Eext in Hrun. cbn [scan_start sc_pax_total] in Hrun. pose proof (member_of_read _ _ _ Hplroot Hmo) as Hrm.
  destruct (take_root kids pending (0 + 0) entry s Hrm Hme Hmb) as (st1 & Hmem & Hsc1 & Hpend1 & Htot1).
  rewrite <- scan_entry_member, <- Hrun in Hmem.
  2: { apply Hrm. }
  2: { rewrite (rm_kind _ _ _ Hrm). set_solver. }
  destruct (scan_nodes R Hacc nodes [] mss ess st1 s) as (st' & s' & Hall & Hsc & Hpend & HR'); try done.
  exists s'. split; [|done]. unfold scan_archive.
  rewrite (lift_bind _ _ tt) by done. cbn [in_metadata in_bytes]. rewrite (lift_bind _ _ (true, len archive)) by done.
  rewrite (lift_bind _ _ tt) by (apply refuse_Ok; cbn; by apply Z.ltb_ge).
  rewrite (lift_bind _ _ _ _ (proj2 (ok_or_Ok _ _ _) Hopen)). cbn [ts_entries ts_rest ts_total_in].
  rewrite (lift_bind _ _ (es1 ++ concat ess)) by done.
  rewrite <- (forM_app _ _ _ _ _ _ _ Hmem) in Hall. rewrite (SR_bind_step _ _ _ _ _ Hall).
  rewrite (lift_bind _ _ tt) by (apply refuse_Ok, bool_decide_eq_false; rewrite Hpend; by intros [? ?]).
  rewrite (lift_bind _ _ tt) by (by eapply verify_terminal_zeros).
  rewrite (lift_bind _ _ tt) by (apply refuse_Ok; cbn; by rewrite Z.eqb_refl).
  rewrite (lift_bind _ _ manifest) by (apply ok_or_Ok; by rewrite (sd_manifest _ _ Hsc)).
  rewrite (sd_entries _ _ Hsc), (sd_tools _ _ Hsc), Hdig. done.
Qed.
End nodes.
End readback.
