(* ===== verification/ExtractionTotal.v ===== *)
(** * ExtractionTotal: the archive of a tree is verified and extracted

    When no system call fails of itself, the extracting consumer takes every
    node that follows, and what it has taken is on the disk: the same files and
    links, with the modes an archive can express.  The nodes of a tree come in
    the order of the archive as the scan requires, so that verification and
    extraction of an archive that [write_payload_archive] produced both run to
    their end. *)

From S2P Require Import Prelude Text Digest Publication Ordered StateRes PayloadPath ArchiveTypes PrefixScan.
From S2P Require Import TarWriter TarReader PayloadTree Packaging ArchiveScan ArchiveSafety Extraction ExtractionSpecs ArchiveMembers.
From S2P Require Import ArchiveReadback.

Definition no_failure : ex_call -> rel_path -> bool := fun _ _ => false.

Section runs.
Context {H : Sha256} (root : rel_path) (create_mode : Z).

(** There is room for an entry: its parent was declared and is a directory, and
    nothing is there yet. *)
Definition room (p : rel_path) (s : extraction) : Prop :=
  p <> [] /\ removelast p ∈ ex_directories s /\ is_dir (ex_disk s) (root ++ removelast p) /\
  node_at (ex_disk s) (root ++ p) = None.

Lemma require_parent_runs p s : room p s -> require_parent root no_failure p s = (Ok tt, s).
Proof.
  intros (Hne & Hin & Hd & _). unfold require_parent. rewrite (lift_bind _ _ (removelast p)) by (apply ok_or_Ok; by destruct p).
  cbn [mbind SR_bind gets]. unfold mbind, SR_bind, gets, lift, try_call, lift.
  rewrite bool_decide_eq_true_2 by done. cbn. by rewrite (proj2 (open_directory_true _ _) Hd).
Qed.

Lemma create_runs c p n m s : room p s ->
  create root no_failure c p n m s = (Ok (root ++ p), mkExtraction (put_at (ex_disk s) (root ++ p) n) (ex_directories s)).
Proof.
  intros (Hne & _ & Hd & Hnone). unfold create, try_call, no_failure, mbind, SR_bind, lift, gets, set_disk, update. cbn.
  rewrite (app_removelast_last [] Hne) at 1. rewrite app_assoc, create_node_dirs by done.
  rewrite <- app_assoc, <- (app_removelast_last [] Hne), Hnone. done.
Qed.

Lemma made_created p n s : room p s -> made root p n s (mkExtraction (put_at (ex_disk s) (root ++ p) n) (ex_directories s)).
Proof. intros (Hne & _ & Hd & Hnone). by split_and!. Qed.

Lemma set_mode_runs p mode m s0 s n : made root p n s0 s -> match n with File _ _ | Dir _ => True | _ => False end ->
  exists s', set_mode root no_failure p mode m s = (Ok tt, s').
Proof.
  intros Hm Hn. pose proof (made_at _ _ _ _ _ Hm) as (Hat & Hd & _). pose proof Hm as (Hne & _).
  unfold set_mode, try_call, no_failure, mbind, SR_bind, lift, gets, set_disk, update. cbn.
  assert (is_Some (chmod (ex_disk s) (root ++ p) mode)) as [d ->]; [|by eexists].
  unfold chmod. rewrite (app_removelast_last [] Hne), app_assoc, locate_dirs by done.
  rewrite <- app_assoc, <- (app_removelast_last [] Hne). cbn [mbind option_bind]. rewrite Hat.
  destruct n; try done; cbn; rewrite Hat; by eexists.
Qed.

Lemma create_directory_runs p s : room p s -> exists s', create_directory root no_failure p s = (Ok tt, s').
Proof.
  intros Hr. unfold create_directory. rewrite (SR_bind_step _ _ _ _ _ (require_parent_runs p s Hr)).
  rewrite (SR_bind_step _ _ _ _ _ (create_runs _ p (Dir []) _ s Hr)). pose proof (made_created p (Dir []) s Hr) as Hm.
  destruct (set_mode_runs p m0755 CannotSetDirectoryMode _ _ _ Hm I) as [s2 Hs2]. rewrite (SR_bind_step _ _ _ _ _ Hs2).
  apply (set_mode_made root no_failure p m0755 CannotSetDirectoryMode _ _ _ _ _ Hm) in Hs2 as [Hm2 _]; [|done].
  pose proof (made_at _ _ _ _ _ Hm2) as (Hat & _). unfold try_call, no_failure, mbind, SR_bind, lift, gets. cbn.
  unfold open_directory. rewrite Hat. by eexists.
Qed.

Lemma extract_symlink_runs p target s : room p s -> exists s', extract_symlink root no_failure p target s = (Ok tt, s').
Proof.
  intros Hr. unfold extract_symlink. rewrite (SR_bind_step _ _ _ _ _ (require_parent_runs p s Hr)).
  rewrite (SR_bind_step _ _ _ _ _ (create_runs _ p (Link target) _ s Hr)). pose proof (made_created p (Link target) s Hr) as Hm.
  pose proof (made_at _ _ _ _ _ Hm) as (Hat & Hd & _). pose proof Hm as (Hne & _).
  unfold try_call, no_failure, mbind, SR_bind, lift, gets. cbn in *.
  set (d := put_at (ex_disk s) (root ++ p) (Link target)) in *. unfold lstat.
  rewrite (app_removelast_last [] Hne). rewrite app_assoc, locate_dirs by done.
  rewrite <- app_assoc, <- (app_removelast_last [] Hne). cbn [mbind option_bind]. rewrite Hat. by eexists.
Qed.

Lemma write_file_runs p m bytes s0 s mode data : made root p (File mode data) s0 s ->
  exists s', write_file no_failure p (root ++ p) m bytes s = (Ok tt, s').
Proof. intros _. unfold write_file, try_call, no_failure, mbind, SR_bind, lift, gets, set_disk, update. cbn. by eexists. Qed.

Lemma hash_output_runs p m reads data prefixes mode s0 s : made root p (File mode []) s0 s ->
  stream reads = Some data -> len data <= u64_max -> forallb (fun q => bool_decide (is_Some (from_utf8 q))) prefixes = true ->
  any_needle (filter (fun n => n <> []) prefixes) data = false ->
  exists s', hash_entry_with_output reads (len data) prefixes (Some (write_file no_failure p (root ++ p) m)) s = (Ok (sha256_bytes data), s').
Proof.
  intros Hm Hs Hl Hp Hany. unfold hash_entry_with_output.
  rewrite (lift_bind _ _ (filter (fun n => n <> []) prefixes)) by by apply prefix_needles_utf8.
  set (ns := filter _ prefixes) in *. assert (Forall (fun n => n <> []) ns) as Hne by apply filter_nonempty.
  set (abs data := mkExtraction (put_at (ex_disk s) (root ++ p) (File mode data)) (ex_directories s)).
  assert (s = abs []) as Es.
  { unfold abs. destruct s as [d dirs]. cbn in *. f_equal. pose proof (made_at _ _ _ _ _ Hm) as (_ & _ & Hcan).
    destruct Hm as (_ & _ & _ & E). cbn in E. subst d. by rewrite put_at_twice. }
  assert (forall data chunk, write_to (Some (write_file no_failure p (root ++ p) m)) chunk (abs data) = (Ok tt, abs (data ++ chunk))) as Hw.
  { intros dt chunk. assert (made root p (File mode dt) s0 (abs dt)) as Hd by by eapply made_again.
    pose proof (made_at _ _ _ _ _ Hd) as (Hat & _). pose proof (made_at _ _ _ _ _ Hm) as (_ & Hdir & _).
    unfold write_to, write_file, try_call, no_failure, mbind, SR_bind, lift, gets, set_disk, update. cbn.
    unfold append_data. cbn in Hat. rewrite Hat. unfold abs. do 2 f_equal.
    rewrite put_at_twice; [done|]. right. by rewrite removelast_root by apply Hm. }
  pose proof (hash_entry_loop_complete _ ns Hne abs (len data) reads Hw Hl [] data Hany Hs eq_refl) as Hloop.
  rewrite keep_overlap_nil, len_nil in Hloop. cbn [app] in Hloop. rewrite <- Es in Hloop. eauto.
Qed.

Lemma write_regular_runs p mode reads data prefixes s : room p s -> stream reads = Some data -> len data <= u64_max ->
  forallb (fun q => bool_decide (is_Some (from_utf8 q))) prefixes = true ->
  any_needle (filter (fun n => n <> []) prefixes) data = false ->
  exists s', write_regular root no_failure create_mode p mode reads (len data) prefixes s = (Ok (sha256_bytes data), s').
Proof.
  intros Hr Hs Hl Hp Hany. unfold write_regular. rewrite (SR_bind_step _ _ _ _ _ (require_parent_runs p s Hr)).
  rewrite (SR_bind_step _ _ _ _ _ (create_runs _ p (File create_mode []) _ s Hr)). pose proof (made_created p (File create_mode []) s Hr) as Hm.
  destruct (hash_output_runs p FileUnwritable reads data prefixes _ _ _ Hm Hs Hl Hp Hany) as [s2 Hs2]. rewrite (SR_bind_step _ _ _ _ _ Hs2).
  apply (hash_output_made _ _ _ _ _ _ _ _ _ _ _ _ Hm) in Hs2 as (dt & _ & _ & _ & _ & Hm2 & _).
  unfold try_call. rewrite (lift_bind _ _ tt) by done.
  destruct (set_mode_runs p mode CannotSetFileMode _ _ _ Hm2 I) as [s3 Hs3]. rewrite (SR_bind_step _ _ _ _ _ Hs3). by eexists.
Qed.

Lemma extract_manifest_runs p reads size data s : room p s -> read_exact_entry reads size = Ok data ->
  exists s', extract_manifest root no_failure create_mode p reads size s = (Ok data, s').
Proof.
  intros Hr Hread. unfold extract_manifest. rewrite (lift_bind _ _ data) by done.
  rewrite (SR_bind_step _ _ _ _ _ (require_parent_runs p s Hr)).
  rewrite (SR_bind_step _ _ _ _ _ (create_runs _ p (File create_mode []) _ s Hr)). pose proof (made_created p (File create_mode []) s Hr) as Hm.
  destruct (write_file_runs p CannotWriteManifest data _ _ _ _ Hm) as [s2 Hs2]. rewrite (SR_bind_step _ _ _ _ _ Hs2).
  apply (write_file_made _ _ _ _ _ _ _ _ _ _ _ Hm) in Hs2 as [Hm2 _]. unfold try_call. rewrite (lift_bind _ _ tt) by done.
  destruct (set_mode_runs p m0644 CannotSetManifestMode _ _ _ Hm2 I) as [s3 Hs3]. rewrite (SR_bind_step _ _ _ _ _ Hs3). by eexists.
Qed.
End runs.

(** ** The consumer takes every node that follows *)
Section accepts.
Context {H : Sha256} {U : UnicodeFold} (contract : PayloadArchiveContract) (prefixes : list (list Z)).
Context (root : rel_path) (create_mode : Z) (disk : node) (Hroot : is_dir disk root).
Context (Hprefixes : forallb (fun q => bool_decide (is_Some (from_utf8 q))) prefixes = true).

(** The node on the disk for a node of the archive. *)
Definition copies (p : rel_path) (n m : node) : Prop :=
  match n with
  | File mode data => m = File (if is_manifest contract p then m0644 else normalized_toolchain_file_mode mode) data
  | Dir _ => exists kids, m = Dir kids
  | Link target => m = Link target
  | Special => False
  end.

Lemma copies_dir p n kids kids' : copies p n (Dir kids) -> copies p n (Dir kids').
Proof. destruct n; cbn; try done. eauto. Qed.

Definition on_disk (taken : list (rel_path * node)) (s : extraction) : Prop :=
  extracted copies root disk taken s /\
  forall d, d ∈ ex_directories s <-> d = [] \/ exists kids, (d, Dir kids) ∈ taken.

Lemma follows_room taken x s : on_disk taken s -> follows taken x -> room root x.1 s.
Proof.
  intros [(kids & Es & Hwf & Hrep) Hdirs] Hfo. pose proof (can_put_root root disk Hroot) as Hcan.
  split_and!; [apply Hfo|apply Hdirs, Hfo| |].
  - unfold is_dir. rewrite Es, node_at_put by done. destruct (fo_parent _ _ Hfo) as [->|[k Hk] ]; [by eexists|].
    destruct (rep_declared _ _ _ Hrep _ _ Hk) as (m & Hm & [k' ->]). eauto.
  - rewrite Es, node_at_put by done. destruct (node_at (Dir kids) x.1) as [m|] eqn:E; [|done]. exfalso.
    destruct (rep_only _ _ _ Hrep _ _ (fo_path _ _ Hfo) E) as [y Hy]. by apply (follows_new _ _ _ Hfo Hy).
Qed.

Lemma on_disk_made taken p n m s s' : on_disk taken s -> made root p m s s' -> leaf m -> tree_wf m -> copies p n m ->
  ex_directories s' = (if is_directory n then [p] else []) ++ ex_directories s -> on_disk (taken ++ [(p, n)]) s'.
Proof.
  intros [Hex Hdirs] Hm Hleaf Hwf Hc Ed. split; [eapply extracted_made; [apply copies_dir|done..]|].
  intros d. rewrite Ed, elem_of_app, Hdirs. setoid_rewrite elem_of_app. setoid_rewrite list_elem_of_singleton.
  destruct n; cbn; rewrite ?list_elem_of_singleton, ?elem_of_nil; naive_solver.
Qed.

Lemma mode_text_cases mode : mode_text mode = rs "0644" /\ normalized_toolchain_file_mode mode = m0644 \/
  mode_text mode = rs "0755" /\ normalized_toolchain_file_mode mode = m0755.
Proof. unfold mode_text, normalized_toolchain_file_mode. destruct (_ =? 0); auto. Qed.

Lemma extracting_accepts :
  @consumer_accepts H U extraction (ExtractingArchiveConsumer root no_failure create_mode) contract prefixes on_disk.
Proof.
  split; cbn [consume_directory consume_symlink consume_regular consume_manifest ExtractingArchiveConsumer].
  - intros taken p kids s HR Hfo. destruct (create_directory_runs root p s (follows_room _ _ _ HR Hfo)) as [s' Hrun].
    exists s'. split; [done|]. apply create_directory_made in Hrun as [Hm Ed].
    eapply on_disk_made; [done|done|done|by repeat constructor|by eexists|done].
  - intros taken p target s HR Hfo. destruct (extract_symlink_runs root p target s (follows_room _ _ _ HR Hfo)) as [s' Hrun].
    exists s'. split; [done|]. apply extract_symlink_made in Hrun as [Hm Ed].
    eapply on_disk_made; [done|done|done|by constructor|done|done].
  - intros taken p mode data reads s HR Hfo Hnm Hs Hl Hany.
    assert (exists s', extract_regular root no_failure create_mode p (mode_text mode) reads (len data) prefixes s = (Ok (sha256_bytes data), s') /\
      made root p (File (normalized_toolchain_file_mode mode) data) s s' /\ ex_directories s' = ex_directories s) as (s' & Hrun & Hm & Ed).
    { destruct (write_regular_runs root create_mode p (normalized_toolchain_file_mode mode) reads data prefixes s (follows_room _ _ _ HR Hfo) Hs Hl Hprefixes Hany)
        as [s' Hrun]. exists s'. split.
      - unfold extract_regular. rewrite (lift_bind _ _ (normalized_toolchain_file_mode mode)); [done|].
        destruct (mode_text_cases mode) as [ [-> ->]|[-> ->] ]; done.
      - apply write_regular_made in Hrun as (dt & Hs' & _ & _ & _ & Hm & Ed). rewrite Hs in Hs'. by injection Hs' as <-. }
    exists s'. split; [done|]. eapply on_disk_made; [done|done|done|by constructor| |done]. cbn. by rewrite Hnm.
  - intros taken p mode data reads s HR Hfo Hman Hs Hl.
    destruct (extract_manifest_runs root create_mode p reads (len data) data s (follows_room _ _ _ HR Hfo) (read_exact_entry_Ok _ _ Hs Hl)) as [s' Hrun].
    exists s'. split; [done|]. apply extract_manifest_made in Hrun as (_ & Hm & Ed).
    eapply on_disk_made; [done|done|done|by constructor| |done]. cbn. by rewrite Hman.
Qed.
End accepts.

(** ** Trees with the same nodes are the same tree *)
Lemma same_nodes t : forall u, tree_wf t -> tree_wf u -> is_dir t [] -> is_dir u [] ->
  (forall p, p <> [] -> match node_at t p, node_at u p with
    | None, None => True
    | Some (Dir _), Some (Dir _) => True
    | Some a, Some b => a = b
    | _, _ => False
    end) -> t = u.
Proof.
  induction t as [mode data|target| |kids IH] using tree_ind; intros u Ht Hu [kt [= <-] ] [ku Eu] Hsame; try done.
  cbn in Eu. injection Eu as ->. apply tree_wf_dir in Ht as [Hs Hk], Hu as [Hs' Hk']. f_equal.
  rewrite Forall_forall in IH, Hk, Hk'. apply (sorted_keys_eq str_ltb); [done|done|]. intros name.
  assert (forall q, node_at (Dir kids) (name :: q) = (k ← bt_get name kids; node_at k q)) as E1 by done.
  assert (forall q, node_at (Dir ku) (name :: q) = (k ← bt_get name ku; node_at k q)) as E2 by done.
  pose proof (Hsame [name] ltac:(done)) as Htop. rewrite E1, E2 in Htop.
  destruct (bt_get name kids) as [a|] eqn:Ea, (bt_get name ku) as [b|] eqn:Eb; cbn in Htop; try done.
  2: { by destruct a. }
  f_equal. destruct a as [mode data|ka|t|]; [by destruct b| |by destruct b|by destruct b].
  destruct b as [|kb| |]; try done. apply (bt_get_elem str_ltb) in Ea as Ia; [|done]. apply (bt_get_elem str_ltb) in Eb as Ib; [|done].
  apply (IH (name, Dir ka) Ia); [by apply (Hk _ Ia)|by apply (Hk' _ Ib)|by eexists|by eexists|].
  intros p Hp. specialize (Hsame (name :: p) ltac:(done)). rewrite E1, E2 in Hsame. by cbn in Hsame.
Qed.

(** ** The verifying consumer takes every node *)
Lemma verifying_accepts {H : Sha256} {U : UnicodeFold} contract prefixes :
  forallb (fun q => bool_decide (is_Some (from_utf8 q))) prefixes = true ->
  @consumer_accepts H U unit VerifyingArchiveConsumer contract prefixes (fun _ _ => True).
Proof.
  intros Hp. split; cbn [consume_directory consume_symlink consume_regular consume_manifest VerifyingArchiveConsumer].
  - intros _ p kids s _ _. by exists s.
  - intros _ p target s _ _. by exists s.
  - intros _ p mode data reads [] _ _ _ Hs Hl Hany. exists tt. split; [|done]. unfold hash_entry_with_output.
    rewrite (lift_bind _ _ _ _ (prefix_needles_utf8 _ _ Hp)).
    pose proof (hash_entry_loop_complete (C:=unit) None _ (filter_nonempty prefixes) (fun _ => tt) (len data) reads) as Hloop.
    specialize (Hloop (fun _ _ => eq_refl) Hl [] data Hany Hs eq_refl). by rewrite keep_overlap_nil in Hloop.
  - intros _ p mode data reads s _ _ _ Hs Hl. exists s. split; [|done]. unfold lift. by rewrite read_exact_entry_Ok.
Qed.

(** ** The nodes of a tree, one after the other *)
Section tree.
Context {H : Sha256} {U : UnicodeFold} (contract : PayloadArchiveContract) (prefixes : list (list Z)).
Context (kids : list (list Z * node)) (Hwf : tree_wf (Dir kids)).

Definition root_nodes : list (rel_path * node) := archive_nodes (Dir kids).

Context (Hfits : tree_fits contract prefixes root_nodes = true).

Lemma elem_of_root_nodes p n : (p, n) ∈ root_nodes <-> p <> [] /\ node_at (Dir kids) p = Some n.
Proof. unfold root_nodes, archive_nodes. rewrite (sort_by_perm str_ltb _ (walk_all (Dir kids) [])). by apply elem_of_walk_all. Qed.

Lemma root_node_fits x : x ∈ root_nodes -> node_fits contract prefixes x = true.
Proof.
  intros Hx. pose proof Hfits as Hf. unfold tree_fits in Hf. rewrite !andb_true_iff in Hf. destruct Hf as [[[[ [Hf _] _] _] _] _].
  rewrite forallb_forall in Hf. by apply Hf, list_elem_of_In.
Qed.

Lemma root_prefixes : forallb (fun q => bool_decide (is_Some (from_utf8 q))) prefixes = true.
Proof. pose proof Hfits as Hf. unfold tree_fits in Hf. rewrite !andb_true_iff in Hf. apply Hf. Qed.

Lemma root_node_portable p n : (p, n) ∈ root_nodes -> Forall portable_name p.
Proof. intros Hx%root_node_fits%node_fits_key. by apply payload_key_portable in Hx as [? _]. Qed.

Lemma root_node_placed x : x ∈ root_nodes -> placed x.
Proof.
  destruct x as [p n]. intros Hx. pose proof (root_node_portable _ _ Hx) as Hp. pose proof (root_node_fits _ Hx) as Hfit.
  apply elem_of_root_nodes in Hx as [Hne _]. split; [done|by intros ?|]. cbn [snd]. unfold node_fits in Hfit.
  rewrite !andb_true_iff in Hfit. destruct Hfit as [_ Hn]. cbn [fst snd] in Hn. destruct n as [mode data|kids'|target|]; try done.
  rewrite !andb_true_iff, !negb_true_iff in Hn. destruct Hn as [[ [H1 H2] H3] H4]. apply bool_decide_eq_false in H1. cbn.
  split_and!; [done|done|done|]. destruct (validate_link_target p target) eqn:E; try done.
  unfold validate_link_target in E. inv_guards. destruct (from_utf8 target); [by eexists|done].
Qed.

Lemma node_text_lossy p n : (p, n) ∈ root_nodes -> path_text p = Some (node_text (p, n)) /\ path_text_lossy p = node_text (p, n).
Proof.
  intros Hx%root_node_portable. destruct (path_text_portable p Hx) as (texts & _ & _ & E). unfold node_text. cbn [fst]. rewrite E.
  split; [done|]. unfold path_text_lossy. by apply from_utf8_lossy_exact.
Qed.

Lemma root_nodes_sorted : ForallOrdPairs (fun x y => str_ltb (node_text x) (node_text y) = true) root_nodes.
Proof.
  assert (ForallOrdPairs (fun x y => str_ltb (path_text_lossy x.1) (path_text_lossy y.1) = true) root_nodes) as Hs.
  { unfold root_nodes, archive_nodes. apply (sort_by_strict str_ltb (fun x : rel_path * node => path_text_lossy x.1)).
    apply (NoDup_fmap_2_strong (fun x : rel_path * node => path_text_lossy x.1) (walk_all (Dir kids) [])).
    2: { apply (NoDup_fmap_1 fst), walk_NoDup, Hwf. }
    assert (forall z, z ∈ walk_all (Dir kids) [] -> z ∈ root_nodes) as Hin.
    { intros z. unfold root_nodes, archive_nodes. by rewrite (sort_by_perm str_ltb _ (walk_all (Dir kids) [])). }
    intros [p n] [q m] Hp%Hin Hq%Hin. cbn [fst]. destruct (node_text_lossy _ _ Hp) as [Ep ->]. destruct (node_text_lossy _ _ Hq) as [Eq ->].
    intros E. rewrite <- E in Eq. pose proof (path_text_inj _ _ _ (root_node_portable _ _ Hp) (root_node_portable _ _ Hq) Ep Eq) as ->.
    apply elem_of_root_nodes in Hp as [_ Hp], Hq as [_ Hq]. congruence. }
  assert (Forall (fun x => path_text_lossy x.1 = node_text x) root_nodes) as Ht.
  { apply Forall_forall. intros [p n] Hx. by apply node_text_lossy. }
  revert Hs Ht. generalize root_nodes. intros l Hs. induction Hs as [|x l Hx Hs IH]; [constructor|].
  intros [Ex Hl]%Forall_cons. constructor; [|by apply IH]. rewrite Forall_forall in Hx, Hl |- *. intros y Hy.
  rewrite <- Ex, <- (Hl y Hy). by apply Hx.
Qed.

Lemma root_nodes_follow taken x rest : root_nodes = taken ++ x :: rest -> placed x /\ follows taken x.
Proof.
  intros E. assert (x ∈ root_nodes) as Hx by (rewrite E; set_solver). split; [by apply root_node_placed|].
  pose proof root_nodes_sorted as Hs. rewrite E in Hs.
  assert (forall y, y ∈ taken -> str_ltb (node_text y) (node_text x) = true) as Hbefore.
  { intros y Hy. clear -Hs Hy. induction taken as [|z taken IH]; [by apply elem_of_nil in Hy|]. cbn in Hs. inversion Hs as [|? ? Hz Hs']; subst.
    apply elem_of_cons in Hy as [->|Hy]; [|by apply IH]. rewrite Forall_forall in Hz. apply Hz. set_solver. }
  assert (forall y, y ∈ rest -> str_ltb (node_text x) (node_text y) = true) as Hafter.
  { intros y Hy. clear -Hs Hy. induction taken as [|z taken IH]; cbn in Hs; inversion Hs as [|? ? Hz Hs']; subst; [|by apply IH].
    rewrite Forall_forall in Hz. by apply Hz. }
  destruct x as [p n]. pose proof (proj1 (elem_of_root_nodes p n) Hx) as [Hne Hat]. split; [done| |done|].
  - cbn [fst]. destruct (decide (removelast p = [])) as [?|Hup]; [by left|right].
    pose proof (app_removelast_last [] Hne) as Ep. set (up := removelast p) in *. set (name := List.last p []) in *.
    pose proof Hat as Hat'. rewrite Ep, node_at_app in Hat'. apply bind_Some in Hat' as (d & Hd & Hd').
    destruct d as [|kd| |]; try done. exists kd. assert ((up, Dir kd) ∈ root_nodes) as Hin by (by apply elem_of_root_nodes).
    pose proof (root_node_portable _ _ Hx) as Hp. destruct (node_text_lossy _ _ Hin) as [Et _]. rewrite Ep in Hp.
    destruct (path_text_child up name _ Hp Hup Et) as (u & Hu & Hlt). rewrite <- Ep in Hu.
    destruct (node_text_lossy _ _ Hx) as [Etx _]. rewrite Etx in Hu. injection Hu as <-.
    rewrite E in Hin. apply elem_of_app in Hin as [?|[ [= Hbad _]|Hin]%elem_of_cons]; [done| |].
    + exfalso. rewrite Hbad in Ep. apply (f_equal length) in Ep. rewrite length_app in Ep. cbn in Ep. lia.
    + apply Hafter in Hin. pose proof (ltb_trans _ _ _ Hlt Hin) as Hbad. by rewrite ltb_irrefl in Hbad.
  - intros y Hy Ek. pose proof Hfits as Hf. unfold tree_fits in Hf. rewrite !andb_true_iff in Hf. destruct Hf as [[[[ [_ Hnd] _] _] _] _].
    apply bool_decide_eq_true in Hnd. rewrite E, map_app in Hnd. apply NoDup_app in Hnd as (_ & Hnd & _).
    apply (Hnd (path_key y.1)); [by apply (list_elem_of_fmap_2 (fun x : rel_path * node => path_key x.1))|].
    cbn. rewrite Ek. by left.
Qed.

(** ** The inventory the scan builds is the tree's *)
Context (mpath : rel_path) (mmode : Z) (manifest : list Z).
Context (Hpath : map Normal mpath = components (utf8 (manifest_file contract))) (Hman : node_at (Dir kids) mpath = Some (File mmode manifest)).

Lemma is_manifest_true p : is_manifest contract p = true <-> p = mpath.
Proof.
  unfold is_manifest. rewrite bool_decide_eq_true, <- Hpath. split; [|by intros ->]. intros E. by eapply normal_inj.
Qed.

Lemma taken_manifest : last (omap (manifest_data contract) root_nodes) = Some manifest.
Proof.
  assert (forall b, b ∈ omap (manifest_data contract) root_nodes -> b = manifest) as Hall.
  { intros b ([p n] & Hx & Eb)%list_elem_of_omap. unfold manifest_data in Eb. cbn [fst snd] in Eb.
    destruct (is_manifest contract p) eqn:Em; [|done]. apply is_manifest_true in Em as ->. apply elem_of_root_nodes in Hx as [_ Hx].
    rewrite Hman in Hx. injection Hx as <-. cbn in Eb. by injection Eb as <-. }
  destruct (last (omap (manifest_data contract) root_nodes)) as [b|] eqn:E.
  - f_equal. apply Hall. by apply last_elem.
  - exfalso. apply last_None in E. apply (elem_of_nil manifest). rewrite <- E. apply list_elem_of_omap.
    exists (mpath, File mmode manifest). split.
    + apply elem_of_root_nodes. split; [|done]. intros ->. done.
    + unfold manifest_data. cbn [fst snd is_file data_of]. by rewrite (proj2 (is_manifest_true mpath)).
Qed.

Lemma taken_entry_other p n : (p, n) ∈ root_nodes ->
  taken_entry contract (p, n) = if bool_decide (p = mpath) then None else Some (node_entry (p, n)).
Proof.
  intros [_ Hx]%elem_of_root_nodes. unfold taken_entry. cbn [fst snd]. case_bool_decide as E.
  - subst p. rewrite Hman in Hx. injection Hx as <-. by rewrite (proj2 (is_manifest_true mpath)).
  - destruct (is_manifest contract p) eqn:Em; [|done]. by apply is_manifest_true in Em.
Qed.

Lemma taken_inventory json fails measure digest es :
  toolchain_tree_inventory_excluding fails measure json (Dir kids) [utf8 (manifest_file contract)] = Ok (digest, es) ->
  omap (taken_entry contract) root_nodes = es /\ toolchain_inventory_sha256 json es = Ok digest.
Proof.
  unfold toolchain_tree_inventory_excluding. cbn [mapR]. rewrite <- Hpath, omap_normal.
  intros (ex & Hex & (out & Hc & (dg & Hdig & [= <- <-])%bind_Ok)%bind_Ok)%bind_Ok. split; [|done].
  assert (ex = [mpath]) as -> by (by inv_ok). apply collect_Ok in Hc as (_ & _ & ->); [|done|by eexists]. cbn [app].
  assert (forall p n, (p, n) ∈ walk (excluded [mpath]) (Dir kids) [] <-> (p, n) ∈ root_nodes /\ p <> mpath) as Hwalk.
  { intros p n. rewrite (walk_without_file _ _ _ _ _ _ Hwf Hman), elem_of_root_nodes. naive_solver. }
  assert (forall p n, (p, n) ∈ root_nodes -> path_name p = node_text (p, n)) as Hname.
  { intros p n Hx. apply (proj2 (path_name_portable _ _ (root_node_portable _ _ Hx) (proj1 (node_text_lossy _ _ Hx)))). }
  symmetry. apply (sort_by_unique entry_path).
  - rewrite map_map. apply (NoDup_fmap_2_strong (fun x => entry_path (node_entry x)) (walk (excluded [mpath]) (Dir kids) [])).
    2: { apply (NoDup_fmap_1 fst), walk_NoDup, Hwf. }
    intros [p n] [q m] [Hp _]%Hwalk [Hq _]%Hwalk. rewrite !node_entry_path. cbn [fst]. rewrite (Hname _ _ Hp), (Hname _ _ Hq).
    intros E. destruct (node_text_lossy _ _ Hp) as [Ep _], (node_text_lossy _ _ Hq) as [Eq _]. rewrite <- E in Eq.
    pose proof (path_text_inj _ _ _ (root_node_portable _ _ Hp) (root_node_portable _ _ Hq) Ep Eq) as ->.
    apply elem_of_root_nodes in Hp as [_ Hp], Hq as [_ Hq]. congruence.
  - pose proof root_nodes_sorted as Hs. assert (forall x e, x ∈ root_nodes -> taken_entry contract x = Some e -> entry_path e = node_text x) as Hpe.
    { intros [p n] e Hx. rewrite (taken_entry_other _ _ Hx). case_bool_decide; [done|]. intros [= <-]. rewrite node_entry_path. by apply Hname. }
    revert Hs Hpe. generalize root_nodes. intros l Hs. induction Hs as [|a l Ha Hs IH]; intros Hpe; [constructor|].
    assert (forall x e, x ∈ l -> taken_entry contract x = Some e -> entry_path e = node_text x) as Hpe' by (intros; apply Hpe; [by right|done]).
    cbn. destruct (taken_entry contract a) as [e|] eqn:Ee; [|by apply IH]. constructor; [|by apply IH].
    apply Forall_forall. intros e' (b & Hb & Eb)%list_elem_of_omap. rewrite Forall_forall in Ha. specialize (Ha b Hb).
    rewrite (Hpe a e), (Hpe' b e'); [done|done|done|by left|done].
  - intros e. rewrite list_elem_of_In, in_map_iff, list_elem_of_omap. setoid_rewrite <- list_elem_of_In. split.
    + intros ([p n] & <- & [Hp Hne]%Hwalk). exists (p, n). split; [done|]. rewrite (taken_entry_other _ _ Hp). by rewrite bool_decide_eq_false_2.
    + intros ([p n] & Hp & Ee). rewrite (taken_entry_other _ _ Hp) in Ee. case_bool_decide; [done|]. injection Ee as <-.
      exists (p, n). split; [done|]. by apply Hwalk.
Qed.
End tree.
