(* ===== verification/PackageSpecs.v ===== *)
(** * PackageSpecs: from a candidate to a package that verifies and extracts

    [staged_tree] collects what [copy_candidate] ensures: portable paths with
    distinct collision keys, links that stay inside by their names, files with a
    normalized mode; removing an embedded manifest and a passed prefix scan keep
    it, and [write_manifest] adds exactly one node.  [package_tree_Ok] states what
    a successful packaging run has ensured.  With [within_limits], the checks of
    the reader that packaging does not make, the archive it wrote is accepted with
    the same inventory, and extracting it gives the staged tree back. *)

From S2P Require Import Prelude Text Digest Publication Ordered StateRes PayloadPath ArchiveTypes PrefixScan.
From S2P Require Import TarWriter TarReader PayloadTree Packaging ArchiveScan ArchiveSafety Extraction ExtractionSpecs ArchiveMembers.
From S2P Require Import ArchiveReadback ExtractionTotal.

Section staged.
Context {U : UnicodeFold}.

Definition node_key (x : rel_path * node) : list Z := path_key x.1.

(** What staging lets through. *)
Definition staged_node (x : rel_path * node) : Prop :=
  payload_casefold_path_key (map Normal x.1) = Ok (node_key x) /\
  match x.2 with
  | File mode _ => mode = m0644 \/ mode = m0755
  | Dir _ => True
  | Link target => validate_link_target x.1 target = Ok tt
  | Special => False
  end.

Record staged_tree (n : node) (rel : rel_path) (before : list (list Z)) : Prop := {
  st_wf : tree_wf n;
  st_nodes : Forall staged_node (walk_all n rel);
  st_distinct : NoDup (map node_key (walk_all n rel));
  st_new : forall k, k ∈ map node_key (walk_all n rel) -> k ∉ before;
}.

(** ** Children that are appended *)
Lemma bt_put_last (kids : list (list Z * node)) name n : Forall (fun k => str_ltb k.1 name = true) kids ->
  bt_put str_ltb name n kids = kids ++ [(name, n)].
Proof.
  induction 1 as [|[nm kd] kids Hk _ IH]; [done|]. cbn in Hk |- *. rewrite bool_decide_eq_false_2.
  2: { intros ->. by rewrite ltb_irrefl in Hk. }
  destruct (str_ltb name nm) eqn:E; [|by rewrite IH].
  pose proof (ltb_trans _ _ _ Hk E) as Hbad. by rewrite ltb_irrefl in Hbad.
Qed.

Lemma sorted_keys_snoc (kids : list (list Z * node)) name n : sorted_keys str_ltb kids ->
  Forall (fun k => str_ltb k.1 name = true) kids -> sorted_keys str_ltb (kids ++ [(name, n)]).
Proof. intros Hs Hk. unfold sorted_keys. by apply ForallOrdPairs_snoc. Qed.

Lemma walk_all_snoc kids name n rel :
  walk_all (Dir (kids ++ [(name, n)])) rel = walk_all (Dir kids) rel ++ (rel ++ [name], n) :: walk_all n (rel ++ [name]).
Proof. unfold walk_all. cbn [walk]. rewrite flat_map_app. cbn. by rewrite app_nil_r. Qed.

(** A child is staged behind those before it. *)
Lemma staged_tree_snoc kids name n rel before : staged_tree (Dir kids) rel before ->
  Forall (fun k => str_ltb k.1 name = true) kids -> staged_node (rel ++ [name], n) ->
  staged_tree n (rel ++ [name]) (path_key (rel ++ [name]) :: map node_key (walk_all (Dir kids) rel) ++ before) ->
  path_key (rel ++ [name]) ∉ before -> path_key (rel ++ [name]) ∉ map node_key (walk_all (Dir kids) rel) ->
  staged_tree (Dir (kids ++ [(name, n)])) rel before.
Proof.
  intros [Hw Hn Hd Hb] Hlt Hnode [Hw' Hn' Hd' Hb'] Hk Hk'. apply tree_wf_dir in Hw as [Hs Hks].
  split; rewrite ?walk_all_snoc, ?map_app.
  - constructor; [by apply sorted_keys_snoc|]. apply Forall_app. split; [done|]. by apply Forall_singleton.
  - apply Forall_app. split; [done|]. by constructor.
  - cbn [map]. apply NoDup_app. split_and!; [done| |].
    + intros k Hin [->|Hbad]%elem_of_cons; [done|]. apply Hb' in Hbad. apply Hbad. right. apply elem_of_app. by left.
    + constructor; [|done]. intros Hbad%Hb'. apply Hbad. by left.
  - intros k. rewrite elem_of_app. cbn [map]. intros [Hin|[->|Hin]%elem_of_cons] Hbad.
    + by apply (Hb k).
    + done.
    + apply (Hb' k Hin). right. apply elem_of_app. by right.
Qed.

Section copy.
Context (fails : fs_call -> rel_path -> bool) (measure : rel_path -> measured).

Definition copy_child (relative : rel_path) (name : list Z) (kid : node) (st : staging) : res ContractError staging :=
  text ← ok_or (from_utf8 name) (Package CandidateNotUtf8);
  if ignored_name text then Ok st
  else
    let child := relative ++ [name] in
    folded ← map_err (fun _ => Package CandidateNotPortable) (payload_casefold_path_key (map Normal child));
    _ ← refuse (bs_has folded st.2) (Package CandidateCollision);
    let st := (st.1, bs_put str_ltb folded st.2) in
    _ ← refuse (fails Inspect child) (Package CannotInspectCandidate);
    match kid with
    | Link target =>
      _ ← refuse (fails ReadLink child) (Package CannotReadLink);
      _ ← validate_link_target child target;
      _ ← refuse (fails StageEntry child) (Package CannotStage);
      Ok (stage st name (Link target))
    | Dir _ =>
      _ ← refuse (fails StageEntry child) (Package CannotStage);
      below ← copy_directory fails measure kid child st.2;
      Ok (stage (st.1, below.2) name (Dir below.1))
    | File mode data =>
      match measure child with
      | MeasureFailed => Err (Package CannotReadRegular)
      | FileChanged => Err (Package RegularChanged)
      | Measured =>
        _ ← refuse (fails StageEntry child) (Package CannotStage);
        Ok (stage st name (File (normalized_toolchain_file_mode mode) data))
      end
    | Special => Err (Package UnsupportedCandidate)
    end.

(** The children staged so far, their names among those visited, and the keys
    seen: the old ones and those of the nodes below. *)
Definition staged_so_far (rel : rel_path) (before : list (list Z)) (visited : list (list Z * node)) (st : staging) : Prop :=
  staged_tree (Dir st.1) rel before /\ (forall k, k ∈ st.1.*1 -> k ∈ visited.*1) /\
  forall k, k ∈ st.2 <-> k ∈ before \/ k ∈ map node_key (walk_all (Dir st.1) rel).

Definition copies_below (n : node) : Prop := forall rel before st, tree_wf n -> copy_directory fails measure n rel before = Ok st ->
  exists kids, n = Dir kids /\ staged_so_far rel before kids st.

Lemma copy_child_staged rel before visited st name kid st' : staged_so_far rel before visited st ->
  Forall (fun k => str_ltb k.1 name = true) visited -> tree_wf kid -> copies_below kid ->
  copy_child rel name kid st = Ok st' -> staged_so_far rel before (visited ++ [(name, kid)]) st'.
Proof.
  intros (Htree & Hnames & Hkeys) Hlt Hwf Hbelow. unfold copy_child. cbv zeta. intros (text & _ & Hc)%bind_Ok.
  assert (forall k, k ∈ visited.*1 -> k ∈ (visited ++ [(name, kid)]).*1) as Hmono.
  { intros k Hk. rewrite fmap_app. apply elem_of_app. by left. }
  destruct (ignored_name text).
  { injection Hc as <-. split_and!; [done| |done]. intros k Hk. by apply Hmono, Hnames. }
  apply bind_Ok in Hc as (folded & Hf%map_err_Ok & (_ & Hnew%refuse_Ok & (_ & _ & Hc)%bind_Ok)%bind_Ok). cbn [fst snd] in Hc.
  assert (folded = path_key (rel ++ [name])) as -> by (unfold path_key; by rewrite Hf).
  assert (path_key (rel ++ [name]) ∉ st.2) as Hfresh by (intros Hin%bs_has_true; congruence).
  rewrite Hkeys in Hfresh.
  assert (Forall (fun k => str_ltb k.1 name = true) st.1) as Hlt'.
  { apply Forall_forall. intros [nm kd] Hin. cbn. assert (nm ∈ visited.*1) as Hv by (apply Hnames; by apply (list_elem_of_fmap_2 fst) in Hin).
    apply list_elem_of_fmap in Hv as ([nm' kd'] & -> & Hv). rewrite Forall_forall in Hlt. apply (Hlt _ Hv). }
  assert (forall n keys, staged_node (rel ++ [name], n) ->
    staged_tree n (rel ++ [name]) (bs_put str_ltb (path_key (rel ++ [name])) st.2) ->
    (forall k, k ∈ keys <-> k ∈ bs_put str_ltb (path_key (rel ++ [name])) st.2 \/ k ∈ map node_key (walk_all n (rel ++ [name]))) ->
    staged_so_far rel before (visited ++ [(name, kid)]) (stage (st.1, keys) name n)) as Hadd.
  { intros n keys Hnode [H1 H2 H3 H4] Hk. unfold stage. cbn [fst snd]. rewrite bt_put_last by done. split_and!.
    - apply staged_tree_snoc; try done; try tauto. split; try done. intros k Hin Hbad. apply (H4 k Hin).
      apply (elem_of_bs_put str_ltb). rewrite Hkeys. apply elem_of_cons in Hbad as [->|Hbad]; [by left|].
      apply elem_of_app in Hbad as [?|?]; auto.
    - intros k. cbn [fst]. rewrite fmap_app, elem_of_app. intros [Hin|Hin]; [by apply Hmono, Hnames|].
      rewrite fmap_app, elem_of_app. by right.
    - intros k. cbn [fst snd]. rewrite Hk, (elem_of_bs_put str_ltb), Hkeys, walk_all_snoc, map_app, elem_of_app. cbn [map].
      rewrite elem_of_cons. unfold node_key at 5. cbn [fst]. tauto. }
  assert (forall n, (forall p, walk_all n p = []) -> tree_wf n -> staged_node (rel ++ [name], n) ->
    staged_so_far rel before (visited ++ [(name, kid)]) (stage (st.1, bs_put str_ltb (path_key (rel ++ [name])) st.2) name n)) as Hleaf.
  { intros n Hn Hw Hnode. apply Hadd; [done| |].
    - split; rewrite ?Hn; [done|constructor|constructor|]. by intros k ?%elem_of_nil.
    - intros k. rewrite Hn. cbn. rewrite elem_of_nil. tauto. }
  destruct kid as [mode data|kids|target|]; [| | |done].
  - destruct (measure _); [|done|done]. apply bind_Ok in Hc as (_ & _ & [= <-]). apply Hleaf; [done|constructor|].
    split; [done|]. cbn. unfold normalized_toolchain_file_mode. case_match; auto.
  - apply bind_Ok in Hc as (_ & _ & (below & Hb & [= <-])%bind_Ok). cbn [fst].
    destruct (Hbelow _ _ _ Hwf Hb) as (kids' & _ & Ht & _ & Hk). apply Hadd; [by split|done|].
    intros k. by rewrite Hk.
  - apply bind_Ok in Hc as (_ & _ & (u & Hv & (_ & _ & [= <-])%bind_Ok)%bind_Ok). destruct u.
    apply Hleaf; [done|constructor|]. by split.
Qed.

Lemma copy_directory_staged n : copies_below n.
Proof.
  induction n as [mode data|target| |kids IH] using tree_ind; intros rel before st Hwf; try done.
  apply tree_wf_dir in Hwf as [Hs Hk]. cbn [copy_directory]. intros (_ & _ & Hc)%bind_Ok. exists kids. split; [done|].
  rewrite (in_order_kids (copy_child rel)) in Hc by done.
  enough (forall rest visited st0, kids = visited ++ rest -> staged_so_far rel before visited st0 ->
    foldM (fun st k => copy_child rel k.1 k.2 st) st0 rest = Ok st -> staged_so_far rel before kids st) as Hgen.
  { apply (Hgen kids [] ([], before)); [done| |done]. split_and!.
    - split; cbn; [by repeat constructor|constructor|constructor|]. by intros k ?%elem_of_nil.
    - by intros k ?%elem_of_nil.
    - intros k. cbn. rewrite elem_of_nil. tauto. }
  induction rest as [|[name kid] rest IHr]; intros visited st0 E Hst; cbn [foldM fst snd].
  { intros [= <-]. rewrite app_nil_r in E. by subst visited. }
  intros (st1 & H1 & Hrest)%bind_Ok. apply (IHr (visited ++ [(name, kid)]) st1); [by rewrite <- app_assoc| |done].
  rewrite Forall_forall in IH, Hk. assert ((name, kid) ∈ kids) as Hin by (rewrite E; set_solver).
  eapply copy_child_staged; [exact Hst| |by apply (Hk _ Hin)|by apply (IH _ Hin)|exact H1].
  apply Forall_forall. intros k Hkv. unfold sorted_keys in Hs. rewrite E in Hs. clear -Hs Hkv.
  induction visited as [|z visited IHv]; [by apply elem_of_nil in Hkv|]. cbn in Hs. inversion Hs as [|? ? Hz Hs']; subst.
  apply elem_of_cons in Hkv as [->|Hkv]; [|by apply IHv]. rewrite Forall_forall in Hz. apply (Hz (name, kid)). set_solver.
Qed.

Lemma copy_candidate_staged candidate staged : tree_wf candidate -> copy_candidate fails measure candidate = Ok staged ->
  staged_tree staged [] [] /\ exists kids, staged = Dir kids.
Proof.
  unfold copy_candidate. intros Hwf (_ & _ & (st & Hc & [= <-])%bind_Ok)%bind_Ok.
  apply (copy_directory_staged candidate) in Hc as (kids & _ & Ht & _); [|done]. eauto.
Qed.
End copy.

(** ** Leaving children out *)
Lemma sublist_ForallOrdPairs {A} (R : A -> A -> Prop) l k : l `sublist_of` k -> ForallOrdPairs R k -> ForallOrdPairs R l.
Proof.
  induction 1 as [|x l k Hl IH|x l k Hl IH]; intros Hk; [constructor| |]; inversion Hk as [|? ? Hx Hk']; subst; [|by apply IH].
  constructor; [|by apply IH]. apply Forall_forall. intros y Hy. rewrite Forall_forall in Hx. apply Hx. by eapply elem_of_sublist.
Qed.

Lemma walk_all_sublist kids' kids rel : kids' `sublist_of` kids -> walk_all (Dir kids') rel `sublist_of` walk_all (Dir kids) rel.
Proof.
  unfold walk_all. cbn [walk]. induction 1 as [|[name kid] l k Hl IH|[name kid] l k Hl IH]; cbn [flat_map]; [done| |].
  - by apply sublist_app.
  - by apply sublist_inserts_l.
Qed.

Lemma staged_tree_sublist kids' kids rel before : kids' `sublist_of` kids -> staged_tree (Dir kids) rel before ->
  staged_tree (Dir kids') rel before.
Proof.
  intros Hsub [Hw Hn Hd Hb]. pose proof (walk_all_sublist _ _ rel Hsub) as Hwalk. apply tree_wf_dir in Hw as [Hs Hk].
  assert (forall x, x ∈ walk_all (Dir kids') rel -> x ∈ walk_all (Dir kids) rel) as Hin by (intros x Hx; by eapply elem_of_sublist).
  split.
  - constructor; [by eapply sublist_ForallOrdPairs|]. apply Forall_forall. intros x Hx. rewrite Forall_forall in Hk. apply Hk. by eapply elem_of_sublist.
  - apply Forall_forall. intros x Hx. rewrite Forall_forall in Hn. by apply Hn, Hin.
  - eapply sublist_NoDup; [exact Hd|]. by apply (fmap_sublist node_key).
  - intros k ([p n] & -> & Hx)%list_elem_of_fmap. apply Hb. by apply (list_elem_of_fmap_2 node_key), Hin.
Qed.

Lemma remove_embedded_manifest_staged fails kids root : staged_tree (Dir kids) [] [] ->
  remove_embedded_manifest fails (Dir kids) = Ok root ->
  exists kids', root = Dir kids' /\ staged_tree (Dir kids') [] [] /\ bt_get AROS_TOOLCHAIN_MANIFEST_FILE kids' = None.
Proof.
  intros Ht. unfold remove_embedded_manifest. cbv zeta. intros (_ & _ & Hr)%bind_Ok.
  change (node_at (Dir kids) [AROS_TOOLCHAIN_MANIFEST_FILE]) with (k ← bt_get AROS_TOOLCHAIN_MANIFEST_FILE kids; Some k) in Hr.
  destruct (bt_get AROS_TOOLCHAIN_MANIFEST_FILE kids) as [k|] eqn:Eg; cbn in Hr; [|injection Hr as <-; eauto].
  destruct k as [mode data| | |]; try done. apply bind_Ok in Hr as (_ & _ & [= <-]).
  eexists. split; [done|]. assert (filter (fun k : list Z * node => k.1 <> AROS_TOOLCHAIN_MANIFEST_FILE) kids `sublist_of` kids) as Hsub by apply sublist_filter.
  split; [by eapply staged_tree_sublist|]. clear. induction kids as [|[name kid] kids IH]; [done|]. rewrite filter_cons.
  cbn [fst]. case_decide as Hd; [|done]. cbn. by rewrite bool_decide_eq_false_2.
Qed.

(** ** A scan without findings *)
Section prefix_scan.
Context (fails : fs_call -> rel_path -> bool) (file_reads : rel_path -> list Z -> list (option (list Z))).
Context (Hreads : forall p data, stream (file_reads p data) = Some data) (needles : list (list Z)) (Hne : Forall (fun n => n <> []) needles).

Definition prefix_free (x : rel_path * node) : Prop :=
  match x.2 with File _ data => any_needle needles data = false | _ => True end.

Definition scan_child (relative : rel_path) (name : list Z) (kid : node) (findings : list rel_path) : res ContractError (list rel_path) :=
  if MAX_PREFIX_FINDINGS <=? len findings then Ok findings
  else
    let child := relative ++ [name] in
    _ ← refuse (fails Inspect child) (Package CannotScanDirectory);
    match kid with
    | Dir _ => scan_directory fails file_reads kid child needles findings
    | File _ data =>
      _ ← refuse (fails OpenFile child) (Package CannotScanFile);
      found ← scan_reads needles (file_reads child data) [];
      Ok (if found : bool then findings ++ [child] else findings)
    | _ => Ok findings
    end.

Definition scans (nodes : list (rel_path * node)) (findings r : list rel_path) : Prop :=
  exists extra, r = findings ++ extra /\ (extra = [] -> len findings < MAX_PREFIX_FINDINGS -> Forall prefix_free nodes).

Lemma scans_app n1 n2 f r1 r2 : scans n1 f r1 -> scans n2 r1 r2 -> scans (n1 ++ n2) f r2.
Proof.
  intros (e1 & -> & H1) (e2 & -> & H2). exists (e1 ++ e2). rewrite app_assoc. split; [done|]. intros [-> ->]%app_nil Hl.
  rewrite app_nil_r in H2. apply Forall_app. auto.
Qed.

Lemma scan_directory_scans n rel findings r : tree_wf n -> scan_directory fails file_reads n rel needles findings = Ok r ->
  scans (walk_all n rel) findings r.
Proof.
  revert rel findings r. induction n as [mode data|target| |kids IH] using tree_ind; intros rel findings r Hwf; try done.
  apply tree_wf_dir in Hwf as [Hs Hk]. cbn [scan_directory]. intros (_ & _ & Hc)%bind_Ok.
  rewrite (in_order_kids (scan_child rel)) in Hc by done. unfold walk_all. cbn [walk]. clear Hs. revert findings Hc.
  induction kids as [|[name kid] kids IHk]; intros findings; cbn [foldM flat_map fst snd].
  { intros [= <-]. exists []. rewrite app_nil_r. split; [done|]. constructor. }
  apply Forall_cons in IH as [IH IHs], Hk as [Hk Hks]. intros (r1 & H1 & Hrest)%bind_Ok.
  eapply scans_app; [|by apply IHk]. unfold scan_child in H1. destruct (MAX_PREFIX_FINDINGS <=? len findings) eqn:El; bool_prop.
  { injection H1 as <-. exists []. rewrite app_nil_r. split; [done|]. lia. }
  apply bind_Ok in H1 as (_ & _ & H1). cbv zeta in H1.
  change ((rel ++ [name], kid) :: walk (fun _ => false) kid (rel ++ [name])) with ([(rel ++ [name], kid)] ++ walk_all kid (rel ++ [name])).
  destruct kid as [mode data|kids'|target|].
  - apply bind_Ok in H1 as (_ & _ & (found & Hf & [= <-])%bind_Ok).
    rewrite (scan_reads_exact _ _ data Hne) in Hf by done. injection Hf as <-. cbn [walk_all walk app].
    destruct (any_needle needles data) eqn:E; [by exists [rel ++ [name]]|]. exists []. rewrite app_nil_r. split; [done|].
    intros _ _. apply Forall_singleton. exact E.
  - apply IH in H1 as (extra & -> & Hx); [|done]. exists extra. split; [done|]. intros He Hl. apply Forall_app. split; [|by apply Hx].
    by apply Forall_singleton.
  - injection H1 as <-. exists []. rewrite app_nil_r. split; [done|]. intros _ _. by apply Forall_singleton.
  - injection H1 as <-. exists []. rewrite app_nil_r. split; [done|]. intros _ _. by apply Forall_singleton.
Qed.
End prefix_scan.

Lemma scan_prefixes_free fails file_reads root prefixes u : tree_wf root -> (forall p data, stream (file_reads p data) = Some data) ->
  scan_prefixes fails file_reads root prefixes = Ok u ->
  Forall (prefix_free (filter (fun n => n <> []) prefixes)) (walk_all root []) /\
  forallb (fun p => bool_decide (is_Some (from_utf8 p))) prefixes = true.
Proof.
  intros Hwf Hreads. unfold scan_prefixes. intros (needles & Hn & (findings & Hf & Hr%refuse_Ok)%bind_Ok)%bind_Ok. bool_prop. subst findings.
  split.
  - pose proof (prefix_needles_Ok _ _ _ Hn) as [-> Hne]. apply scan_directory_scans in Hf as (extra & E & Hx); [|done..].
    cbn in E. by apply Hx.
  - unfold prefix_needles in Hn. apply bind_Ok in Hn as (texts & Hm & _). clear -Hm. revert texts Hm.
    induction prefixes as [|p ps IH]; intros texts; [done|]. cbn [mapR forallb]. intros (t & Ht & (ts & Hts & _)%bind_Ok)%bind_Ok.
    apply bind_Ok in Ht as (x & Hx%ok_or_Ok & _). rewrite (IH _ Hts), andb_true_r. apply bool_decide_eq_true. by eexists.
Qed.

(** ** One more file *)
Lemma walk_all_put kids name mode data rel : bt_get name kids = None ->
  walk_all (Dir (bt_put str_ltb name (File mode data) kids)) rel ≡ₚ (rel ++ [name], File mode data) :: walk_all (Dir kids) rel.
Proof.
  unfold walk_all. cbn [walk]. induction kids as [|[nm kd] kids IH]; cbn [bt_get bt_put flat_map]; [done|].
  case_bool_decide as Hn; [done|]. intros Hg. destruct (str_ltb name nm); [done|]. cbn [flat_map].
  rewrite (IH Hg). symmetry. apply (Permutation_middle ((rel ++ [nm], kd) :: walk (fun _ => false) kd (rel ++ [nm]))).
Qed.

Lemma walk_excluding_put kids name mode data : bt_get name kids = None ->
  walk (excluded [ [name] ]) (Dir (bt_put str_ltb name (File mode data) kids)) [] = walk (excluded [ [name] ]) (Dir kids) [].
Proof.
  assert (excluded [ [name] ] [name] = true) as Hex by (unfold excluded; cbn; by rewrite bool_decide_eq_true_2).
  cbn [walk app]. induction kids as [|[nm kd] kids IH]; cbn [bt_get bt_put flat_map]; [by rewrite Hex|].
  case_bool_decide as Hn; [done|]. intros Hg. destruct (str_ltb name nm); cbn [flat_map]; [by rewrite Hex|]. by rewrite (IH Hg).
Qed.
End staged.

Definition manifest_rel : rel_path := [AROS_TOOLCHAIN_MANIFEST_FILE].

(** ** The archive of a tree that fits *)
Section written.
Context {H : Sha256} {U : UnicodeFold} {T : TarXz} {L : TarXzLaws T}.
Context (fails : fs_call -> rel_path -> bool) (file_reads : rel_path -> list Z -> list (option (list Z))) (accepts : Z -> bool).
Context (Hreads : forall p data, stream (file_reads p data) = Some data).
Context (contract : PayloadArchiveContract) (prefixes : list (list Z)) (json : list (list Z * json_value) -> option (list Z)).
Context (kids : list (list Z * node)) (Hwf : tree_wf (Dir kids)).
Context (Hcontract : contract_fits contract = true) (Hfits : tree_fits contract prefixes (root_nodes kids) = true).
Context (mpath : rel_path) (mmode : Z) (manifest : list Z).
Context (Hpath : map Normal mpath = components (utf8 (manifest_file contract))) (Hman : node_at (Dir kids) mpath = Some (File mmode manifest)).
Context (Hepoch : 0 <= source_date_epoch contract) (archive : list Z) (Hsize : len archive <= MAX_ARCHIVE_BYTES).
Context (Hwrite : write_payload_archive fails file_reads accepts (Dir kids) (source_date_epoch contract) (archive_root contract) = Ok archive).
Context (es : list ArosToolchainManifestEntry) (digest : list Z).
Context (Hinv : omap (taken_entry contract) (root_nodes kids) = es /\ toolchain_inventory_sha256 json es = Ok digest).

(** Every consumer that takes the nodes of the tree takes them from its archive. *)
Abbreviation tools := (last (omap (tools_data contract) (root_nodes kids))).
Lemma written_scanned {C} `{!ArchiveConsumer C} R s : consumer_accepts contract prefixes R -> R [] s ->
  exists s', scan_archive contract prefixes json (mkInput (Some (true, len archive)) archive) s =
    (Ok (mkTree manifest es digest tools), s') /\ R (root_nodes kids) s'.
Proof.
  intros Hacc HR. destruct Hinv as [He Hdig]. unfold write_payload_archive in Hwrite.
  apply bind_Ok in Hwrite as (_ & _ & (_ & _ & (tar & Htar & (_ & _ & (_ & _ & Hx)%bind_Ok)%bind_Ok)%bind_Ok)%bind_Ok).
  injection Hx as Earchive. destruct (contract_root contract Hcontract) as ([Hsc _] & _).
  destruct (write_tar_stream_members accepts fails file_reads (Dir kids) _ _ Hepoch (scalar_nonneg _ Hsc) (fun p mode data _ => Hreads p data) tar Hwf Htar)
    as (rootms & mss & rest & Hroot & Hmss & -> & Hzero & Hrest).
  destruct (scan_archive_written contract prefixes Hcontract (root_nodes kids) (root_nodes_follow contract prefixes kids Hwf Hfits) Hfits
    R json (Dir kids) kids rootms mss rest s manifest digest) as (s' & Hrun & HR'); try done.
  - by rewrite Earchive.
  - by eapply taken_manifest.
  - by rewrite He.
  - rewrite Earchive, He in Hrun. eauto.
Qed.

Lemma written_verified :
  scan_archive contract prefixes json (mkInput (Some (true, len archive)) archive) tt = (Ok (mkTree manifest es digest tools), tt).
Proof.
  destruct (written_scanned (fun _ _ => True) tt) as ([] & Hrun & _); [|done|done].
  by apply verifying_accepts; eapply root_prefixes.
Qed.

(** Extraction gives the tree back, with the modes that archives express. *)
Definition normalized_node (x : rel_path * node) : Prop :=
  match x.2 with
  | File mode _ => mode = if is_manifest contract x.1 then m0644 else normalized_toolchain_file_mode mode
  | Special => False
  | _ => True
  end.

Lemma written_extracted root create_mode disk : tree_wf disk -> node_at disk root = Some (Dir []) -> Forall normalized_node (root_nodes kids) ->
  extract_payload_archive root no_failure create_mode contract prefixes json (mkInput (Some (true, len archive)) archive) disk =
    (Ok (mkTree manifest es digest tools), put_at disk root (Dir kids)).
Proof.
  intros Hdisk Hempty Hnorm. assert (is_dir disk root) as Hroot by by eexists.
  pose proof (can_put_root root disk Hroot) as Hcan.
  destruct (@written_scanned extraction (ExtractingArchiveConsumer root no_failure create_mode) (on_disk contract root disk) (mkExtraction disk [ [] ]))
    as (s' & Hrun & [(kids' & Ed & Hwf' & Hrep) _]).
  - by apply extracting_accepts; [|eapply root_prefixes].
  - split.
    + exists []. cbn. split_and!; [|by repeat constructor|].
      * by rewrite put_at_same.
      * split; [by intros p x ?%elem_of_nil|]. by intros [|name p] m.
    + intros d. cbn. rewrite list_elem_of_singleton. split; [auto|]. by intros [->|[? ?%elem_of_nil] ].
  - unfold extract_payload_archive. rewrite (proj2 (open_directory_true disk root) Hroot). cbn [no_failure orb negb].
    rewrite Hrun, Ed. do 2 f_equal. apply same_nodes; [done|done|by eexists|by eexists|].
    intros p Hp. destruct (node_at (Dir kids') p) as [m|] eqn:E'.
    + destruct (rep_only _ _ _ Hrep _ _ Hp E') as [n Hn]. destruct (rep_declared _ _ _ Hrep _ _ Hn) as (m' & Em' & Hc).
      rewrite E' in Em'. injection Em' as <-. pose proof (proj1 (elem_of_root_nodes kids Hwf p n) Hn) as [_ ->].
      rewrite Forall_forall in Hnorm. specialize (Hnorm _ Hn). unfold normalized_node in Hnorm. cbn [fst snd] in Hnorm.
      destruct n as [mode data|kn|target|]; cbn in Hc; [|by destruct Hc as [k ->]|by subst m|done]. subst m. by rewrite <- Hnorm.
    + destruct (node_at (Dir kids) p) as [n|] eqn:E; [|done]. assert ((p, n) ∈ root_nodes kids) as Hn by (by apply elem_of_root_nodes).
      destruct (rep_declared _ _ _ Hrep _ _ Hn) as (m & Em & _). congruence.
Qed.
End written.

(** The inventory leaves the manifest out. *)
Lemma inventory_put {H : Sha256} fails measure json kids bytes r : tree_wf (Dir kids) -> bt_get AROS_TOOLCHAIN_MANIFEST_FILE kids = None ->
  toolchain_tree_inventory fails measure json (Dir kids) = Ok r ->
  toolchain_tree_inventory fails measure json (Dir (bt_put str_ltb AROS_TOOLCHAIN_MANIFEST_FILE (File m0644 bytes) kids)) = Ok r.
Proof.
  intros Hwf Hfree. unfold toolchain_tree_inventory, toolchain_tree_inventory_excluding.
  intros (ex & Hex & (out & Hc & Hrest)%bind_Ok)%bind_Ok. apply bind_Ok. exists ex. split; [done|]. apply bind_Ok. exists out. split; [|done].
  assert (ex = [ [AROS_TOOLCHAIN_MANIFEST_FILE] ]) as -> by (vm_compute in Hex |- *; congruence).
  apply collect_Ok; [|by eexists|].
  - apply (put_at_wf (Dir kids) [AROS_TOOLCHAIN_MANIFEST_FILE] (File m0644 bytes)); [done|constructor|right; by eexists].
  - apply collect_Ok in Hc; [|done|by eexists]. by rewrite walk_excluding_put.
Qed.

(** ** What a packaging run has ensured *)
Section package.
Context {H : Sha256} {U : UnicodeFold} {T : TarXz}.
Context (fails : fs_call -> rel_path -> bool) (measure : rel_path -> measured).
Context (file_reads : rel_path -> list Z -> list (option (list Z))) (accepts : Z -> bool).
Context (Hreads : forall p data, stream (file_reads p data) = Some data).
Context (json : list (list Z * json_value) -> option (list Z)) (manifest : list Z -> list ArosToolchainManifestEntry -> res ContractError (list Z)).
Context (layout : node -> res ContractError unit).
Context (candidate : node) (prefixes : list (list Z)) (epoch : Z).

Record packaged_from (kids : list (list Z * node)) (p : packaged) : Prop := {
  pk_root : staged_root p = Dir (bt_put str_ltb AROS_TOOLCHAIN_MANIFEST_FILE (File m0644 (manifest_bytes p)) kids);
  pk_free : bt_get AROS_TOOLCHAIN_MANIFEST_FILE kids = None;
  pk_staged : staged_tree (Dir kids) [] [];
  pk_layout : layout (Dir kids) = Ok tt;
  pk_prefixes : Forall (prefix_free (filter (fun n => n <> []) prefixes)) (walk_all (Dir kids) []) /\
    forallb (fun q => bool_decide (is_Some (from_utf8 q))) prefixes = true;
  pk_inventory : toolchain_tree_inventory fails measure json (Dir kids) = Ok (files_sha256 p, files p);
  pk_manifest : manifest (files_sha256 p) (files p) = Ok (manifest_bytes p);
  pk_archive : write_payload_archive fails file_reads accepts (staged_root p) epoch ARCHIVE_ROOT = Ok (archive_bytes p);
}.

Lemma package_tree_Ok p : tree_wf candidate ->
  package_tree fails measure file_reads accepts json manifest layout candidate prefixes epoch = Ok p -> exists kids, packaged_from kids p.
Proof.
  intros Hwf. unfold package_tree. intros (staged & [Ht [kids0 ->] ]%(copy_candidate_staged _ _ _ _ Hwf) & Hp)%bind_Ok.
  apply bind_Ok in Hp as (root1 & Hrm & Hp). apply (remove_embedded_manifest_staged _ _ _ Ht) in Hrm as (kids & -> & Hst & Hfree).
  apply bind_Ok in Hp as ([] & Hlayout & Hp).
  apply bind_Ok in Hp as (u & Hscan & ([digest es] & Hinv%map_err_Ok & (bytes & Hman & (root2 & Hw & (archive & Harch & [= <-])%bind_Ok)%bind_Ok)%bind_Ok)%bind_Ok).
  apply scan_prefixes_free in Hscan; [|apply Hst|done]. cbn [fst snd] in *. exists kids. unfold write_manifest in Hw.
  apply bind_Ok in Hw as (_ & _ & (_ & _ & [= <-])%bind_Ok). by split.
Qed.

(** The checks of the reader that packaging leaves open. *)
Definition node_within (contract : PayloadArchiveContract) (x : rel_path * node) : bool :=
  (extension_bytes contract x <=? MAX_PAX_EXTENSION_BYTES) &&
  match x.2 with
  | Link target => negb (eqb_list target []) && negb (contains_char 0 target) && negb (contains_char 92 target)
  | File _ data =>
    if is_manifest contract x.1 then len data <=? MAX_METADATA_BYTES
    else negb (is_tools contract x.1) || (len data <=? MAX_TOOLCHAIN_TOOLS_BYTES)
  | _ => true
  end &&
  (is_manifest contract x.1 || negb (bool_decide (path_key x.1 = path_key manifest_rel))).
Definition within_limits (contract : PayloadArchiveContract) (nodes : list (rel_path * node)) : bool :=
  forallb (node_within contract) nodes &&
  (1 + len nodes <=? max_entries contract) && (sum file_size nodes <=? max_regular_file_bytes contract) &&
  (sum (extension_bytes contract) nodes <=? MAX_TOTAL_PAX_EXTENSION_BYTES).

Section fits.
Context (gnu : bool) (kids : list (list Z * node)) (p : packaged) (Hpk : packaged_from kids p).
Let contract := compiler_archive_contract epoch gnu.
Let all_kids := bt_put str_ltb AROS_TOOLCHAIN_MANIFEST_FILE (File m0644 (manifest_bytes p)) kids.

Lemma compiler_contract_fits : contract_fits contract = true.
Proof. unfold contract. by destruct gnu; vm_compute. Qed.

Lemma compiler_manifest q : is_manifest contract q = true <-> q = manifest_rel.
Proof.
  assert (map Normal manifest_rel = components (utf8 (manifest_file contract))) as E by by vm_compute.
  unfold is_manifest. rewrite <- E, bool_decide_eq_true. split; [|by intros ->]. intros Hq. by eapply normal_inj.
Qed.

Lemma all_nodes_perm : root_nodes all_kids ≡ₚ (manifest_rel, File m0644 (manifest_bytes p)) :: walk_all (Dir kids) [].
Proof.
  unfold root_nodes, archive_nodes. rewrite (sort_by_perm str_ltb _ (walk_all (Dir all_kids) [])).
  apply (walk_all_put kids AROS_TOOLCHAIN_MANIFEST_FILE m0644 (manifest_bytes p) []). apply Hpk.
Qed.

Lemma all_kids_wf : tree_wf (Dir all_kids).
Proof.
  apply (put_at_wf (Dir kids) [AROS_TOOLCHAIN_MANIFEST_FILE] (File m0644 (manifest_bytes p)));
    [apply Hpk|constructor|right; by eexists].
Qed.

Lemma other_node x : x ∈ walk_all (Dir kids) [] -> staged_node x /\ prefix_free (filter (fun n => n <> []) prefixes) x /\
  is_manifest contract x.1 = false.
Proof.
  intros Hx. pose proof (st_nodes _ _ _ (pk_staged _ _ Hpk)) as Hn. pose proof (proj1 (pk_prefixes _ _ Hpk)) as Hp.
  rewrite Forall_forall in Hn, Hp. split_and!; [by apply Hn|by apply Hp|]. apply not_true_iff_false. intros Em%compiler_manifest.
  destruct x as [q n]. cbn in Em. subst q. apply elem_of_walk_all in Hx as [_ Hx]; [|apply Hpk].
  change (node_at (Dir kids) manifest_rel) with (k ← bt_get AROS_TOOLCHAIN_MANIFEST_FILE kids; Some k) in Hx.
  by rewrite (pk_free _ _ Hpk) in Hx.
Qed.

Lemma package_fits : within_limits contract (root_nodes all_kids) = true ->
  tree_fits contract prefixes (root_nodes all_kids) = true.
Proof.
  unfold within_limits, tree_fits. rewrite !andb_true_iff. intros [[ [Hw Hn] Hs] He]. split_and!; try done; [| |apply Hpk].
  - rewrite forallb_forall in Hw. apply forallb_forall. intros x Hx. specialize (Hw x Hx). apply list_elem_of_In in Hx.
    rewrite all_nodes_perm in Hx. unfold node_within in Hw. rewrite !andb_true_iff in Hw. destruct Hw as [ [Hext Hkind] _].
    unfold node_fits. rewrite Hext, andb_true_r. apply elem_of_cons in Hx as [->|Hx].
    + cbn [fst snd] in *. rewrite (proj2 (compiler_manifest manifest_rel)) in * by done. rewrite Hkind. by vm_compute.
    + destruct (other_node x Hx) as ([Hk Hnode] & Hpre & Hman). rewrite Hk, Hman in *. cbn [is_ok andb]. unfold prefix_free in Hpre.
      destruct (x.2) as [mode data|kd|target|]; try done.
      * by rewrite Hpre, Hkind.
      * by rewrite Hkind, Hnode.
  - apply bool_decide_eq_true. rewrite all_nodes_perm. cbn [map fst]. apply NoDup_cons. split; [|apply (st_distinct _ _ _ (pk_staged _ _ Hpk))].
    intros (x & Ek & Hx)%list_elem_of_fmap. rewrite forallb_forall in Hw. destruct (other_node x Hx) as (_ & _ & Hman).
    assert (node_within contract x = true) as Hwx.
    { apply Hw, list_elem_of_In. rewrite all_nodes_perm. by right. }
    unfold node_within in Hwx. rewrite !andb_true_iff, Hman in Hwx. destruct Hwx as [_ Hkey]. cbn in Hkey.
    rewrite bool_decide_eq_true_2 in Hkey; done.
Qed.

Lemma package_normalized : Forall (normalized_node contract) (root_nodes all_kids).
Proof.
  rewrite all_nodes_perm. constructor.
  - unfold normalized_node. cbn [fst snd]. by rewrite (proj2 (compiler_manifest manifest_rel)).
  - apply Forall_forall. intros x Hx. destruct (other_node x Hx) as ([_ Hnode] & _ & Hman). unfold normalized_node. rewrite Hman.
    destruct (x.2); try done. by destruct Hnode as [->| ->].
Qed.

Lemma manifest_at : node_at (Dir all_kids) manifest_rel = Some (File m0644 (manifest_bytes p)).
Proof.
  change (node_at (Dir all_kids) manifest_rel) with (k ← bt_get AROS_TOOLCHAIN_MANIFEST_FILE all_kids; Some k).
  unfold all_kids. rewrite bt_get_put, bool_decide_eq_true_2 by done. done.
Qed.

Lemma package_inventory : within_limits contract (root_nodes all_kids) = true ->
  omap (taken_entry contract) (root_nodes all_kids) = files p /\
  toolchain_inventory_sha256 json (files p) = Ok (files_sha256 p).
Proof.
  intros Hw. eapply (taken_inventory contract prefixes all_kids all_kids_wf (package_fits Hw) manifest_rel m0644 (manifest_bytes p));
    [by vm_compute|exact manifest_at|].
  change [utf8 (manifest_file contract)] with [AROS_TOOLCHAIN_MANIFEST_FILE]. apply inventory_put; apply Hpk.
Qed.

Context {L : TarXzLaws T} (Hepoch : 0 <= epoch) (Hwithin : within_limits contract (root_nodes all_kids) = true).
Context (Hsize : len (archive_bytes p) <= MAX_ARCHIVE_BYTES).

Lemma package_written : write_payload_archive fails file_reads accepts (Dir all_kids) (source_date_epoch contract) (archive_root contract) =
  Ok (archive_bytes p).
Proof. pose proof (pk_archive _ _ Hpk) as Hw. by rewrite (pk_root _ _ Hpk) in Hw. Qed.

(** The verifier accepts the package, and its manifest agrees. *)
Definition package_archive_tree : ArchiveTree :=
  mkTree (manifest_bytes p) (files p) (files_sha256 p) (last (omap (tools_data contract) (root_nodes all_kids))).
Lemma package_verified :
  scan_archive contract prefixes json (mkInput (Some (true, len (archive_bytes p))) (archive_bytes p)) tt = (Ok package_archive_tree, tt) /\
  compare_manifest package_archive_tree (manifest_bytes p) (files p) (files_sha256 p) = Ok tt.
Proof.
  pose proof (written_verified fails file_reads accepts Hreads contract prefixes json all_kids all_kids_wf compiler_contract_fits
    (package_fits Hwithin) manifest_rel m0644 (manifest_bytes p) ltac:(by vm_compute) manifest_at Hepoch (archive_bytes p) Hsize
    package_written _ _ (package_inventory Hwithin)) as Hrun.
  split; [exact Hrun|]. unfold compare_manifest. cbn [package_archive_tree embedded_manifest entries tree_sha256].
  by rewrite !bool_decide_eq_true_2.
Qed.

(** The tools document is what the staged tree has at its place. *)
Lemma package_tools mode data : gnu = true -> node_at (Dir kids) [TOOLCHAIN_TOOLS_FILE] = Some (File mode data) ->
  toolchain_tools package_archive_tree = Some data.
Proof.
  intros Hg Hat. cbn [package_archive_tree toolchain_tools].
  set (x := ([TOOLCHAIN_TOOLS_FILE], File mode data)).
  assert (tools_data contract x = Some data) as Hx by (unfold tools_data, contract; rewrite Hg; by vm_compute).
  assert (x ∈ root_nodes all_kids) as Hin.
  { apply (elem_of_root_nodes all_kids all_kids_wf). split; [done|]. change ((k ← bt_get TOOLCHAIN_TOOLS_FILE all_kids; Some k) = Some (File mode data)).
    unfold all_kids. rewrite bt_get_put, bool_decide_eq_false_2 by (by vm_compute). exact Hat. }
  enough (forall y b, y ∈ root_nodes all_kids -> tools_data contract y = Some b -> b = data) as Hall.
  { destruct (last (omap (tools_data contract) (root_nodes all_kids))) as [b|] eqn:El.
    - apply last_Some_elem_of, list_elem_of_omap in El as (y & Hy & Hb). f_equal. by eapply Hall.
    - apply last_None in El. assert (data ∈ omap (tools_data contract) (root_nodes all_kids)) as Hd by (apply list_elem_of_omap; eauto).
      rewrite El in Hd. by apply elem_of_nil in Hd. }
  intros [q n] b Hy. unfold tools_data. cbn [fst snd]. destruct (is_tools contract q) eqn:Et; [|by rewrite andb_false_r].
  apply andb_true_iff in Et as [_ Eq%bool_decide_eq_true]. assert (q = [TOOLCHAIN_TOOLS_FILE]) as -> by (apply map_Normal_inj; by rewrite Eq).
  apply (elem_of_root_nodes all_kids all_kids_wf) in Hy as [_ Hy]. apply (elem_of_root_nodes all_kids all_kids_wf) in Hin as [_ Hin].
  cbn [fst snd x] in Hin, Hy. rewrite Hin in Hy. injection Hy as <-. cbn [is_file data_of]. by destruct (_ && _); [intros [= <-]|].
Qed.

(** Extracting it gives the staged tree. *)
Lemma package_extracted root create_mode disk : tree_wf disk -> node_at disk root = Some (Dir []) ->
  extract_payload_archive root no_failure create_mode contract prefixes json
    (mkInput (Some (true, len (archive_bytes p))) (archive_bytes p)) disk =
  (Ok package_archive_tree, put_at disk root (staged_root p)).
Proof.
  intros Hdisk Hempty. rewrite (pk_root _ _ Hpk).
  exact (written_extracted fails file_reads accepts Hreads contract prefixes json all_kids all_kids_wf compiler_contract_fits
    (package_fits Hwithin) manifest_rel m0644 (manifest_bytes p) ltac:(by vm_compute) manifest_at Hepoch (archive_bytes p) Hsize
    package_written _ _ (package_inventory Hwithin) root create_mode disk Hdisk Hempty package_normalized).
Qed.
End fits.
End package.
