(* ===== verification/ToolLayout.v ===== *)
(** * ToolLayout: resolving declared tools in an inventory and on disk

    Models [crates/aros-common/src/toolchain_layout.rs]: the tools document, its
    binding to a compiler, the declared paths and their resolution on disk; and
    [resolve_inventory_path] and the loop of [validate_archive] in
    [crates/aros-toolchain/src/package_layout.rs].  The document is read by
    serde_json, the class [ToolsSerde]. *)

From S2P Require Import Prelude Text Digest StateRes Ordered Publication PayloadPath ArchiveTypes ToolchainManifest.
From S2P Require Import TarWriter PayloadTree Extraction ExtractionSpecs.

Definition MAX_TOOL_PATH_LENGTH : Z := 1024.
Definition MAX_TOOL_PATH_SEGMENTS : Z := 32.

(** ** Roles *)
Record ToolRoles := mkRoles {
  role_c : list Z; role_cxx : list Z; role_assembler : list Z; role_linker : list Z; role_archive : list Z;
  role_ranlib : list Z; role_strip : list Z; role_collector : list Z;
  role_nm : option (list Z); role_objcopy : option (list Z); role_objdump : option (list Z);
}.
Definition optional_role (role : list Z) (path : option (list Z)) : list (list Z * list Z) :=
  match path with Some path => [(role, path)] | None => [] end.
(** [ToolRoles::entries] *)
Definition roles (r : ToolRoles) : list (list Z * list Z) :=
  [(rs "c", role_c r); (rs "cxx", role_cxx r); (rs "assembler", role_assembler r); (rs "linker", role_linker r);
   (rs "archive", role_archive r); (rs "ranlib", role_ranlib r); (rs "strip", role_strip r);
   (rs "collector", role_collector r)] ++
  optional_role (rs "nm") (role_nm r) ++ optional_role (rs "objcopy") (role_objcopy r) ++
  optional_role (rs "objdump") (role_objdump r).

(** ** Declared paths *)
Inductive tool_path_error := PathLength | TooManySegments | TraversalSegment | LeadingDash | NonPortableCharacter | NotCanonicalRelative.

Definition tool_byte (b : Z) : bool :=
  is_ascii_alphanumeric b || (b =? 46) || (b =? 95) || (b =? 43) || (b =? 45).
Definition validate_segment (segment : list Z) : res tool_path_error unit :=
  _ ← refuse (eqb_list segment [] || eqb_list segment (rs ".") || eqb_list segment (rs "..")) TraversalSegment;
  _ ← refuse (starts_with segment (rs "-")) LeadingDash;
  refuse (negb (forallb tool_byte (utf8 segment))) NonPortableCharacter.
(** [validate_tool_path] *)
Definition validate_tool_path (path : list Z) : res tool_path_error unit :=
  _ ← refuse (eqb_list path [] || (MAX_TOOL_PATH_LENGTH <? str_len path)) PathLength;
  let segments := split_on (Z.eqb 47) path in
  _ ← refuse (MAX_TOOL_PATH_SEGMENTS <? len segments) TooManySegments;
  _ ← foldM (fun _ segment => validate_segment segment) tt segments;
  refuse (is_absolute (utf8 path)
          || existsb (fun c => match c with Normal _ => false | _ => true end) (components (utf8 path))) NotCanonicalRelative.

(** ** The tools document *)
Record ToolRolesV1Record := mkRolesV1 {
  t_c : list Z; t_cxx : list Z; t_assembler : list Z; t_linker : list Z; t_archive : list Z; t_ranlib : list Z; t_strip : list Z; t_collector : list Z;
}.
(** The records of the later schemas have the eight roles of the first and two or
    three more. *)
Inductive ToolchainToolLayoutRecord :=
| ToolsV1 (compiler : ArosCompilerIdentity) (target_triple : list Z) (tools : ToolRolesV1Record)
| ToolsV2 (compiler : ArosCompilerIdentity) (target_triple : list Z) (tools : ToolRolesV1Record) (nm objcopy : list Z)
| ToolsV3 (compiler : ArosCompilerIdentity) (target_triple : list Z) (tools : ToolRolesV1Record) (nm objcopy objdump : list Z).
Class ToolsSerde := { read_tools : list Z -> option ToolchainToolLayoutRecord }.

Inductive ToolchainToolsSchemaVersion := V1 | V2 | V3.
Record ToolchainToolLayout := mkLayout {
  ly_schema_version : ToolchainToolsSchemaVersion; ly_compiler : ArosCompilerIdentity; ly_target_triple : list Z;
  ly_tools : ToolRoles; ly_sha256 : list Z;
}.

Definition roles_of (t : ToolRolesV1Record) (nm objcopy objdump : option (list Z)) : ToolRoles :=
  mkRoles (t_c t) (t_cxx t) (t_assembler t) (t_linker t) (t_archive t) (t_ranlib t) (t_strip t) (t_collector t) nm objcopy objdump.

Inductive layout_error := LayoutTooLarge | LayoutInvalid | LayoutNotGnu | LayoutTarget | LayoutPath (role : list Z) (e : tool_path_error)
| CompilerDiffers | TripleDiffers.

(** [ToolchainToolLayout::parse] *)
Definition parse_layout {H : Sha256} {S : ToolsSerde} (bytes : list Z) : res layout_error ToolchainToolLayout :=
  _ ← refuse (MAX_TOOLCHAIN_TOOLS_BYTES <? len bytes) LayoutTooLarge;
  record ← ok_or (read_tools bytes) LayoutInvalid;
  let '(schema_version, compiler, target_triple, tools) :=
    match record with
    | ToolsV1 compiler target_triple t => (V1, compiler, target_triple, roles_of t None None None)
    | ToolsV2 compiler target_triple t nm objcopy => (V2, compiler, target_triple, roles_of t (Some nm) (Some objcopy) None)
    | ToolsV3 compiler target_triple t nm objcopy objdump => (V3, compiler, target_triple, roles_of t (Some nm) (Some objcopy) (Some objdump))
    end in
  compiler ← map_err (fun _ => LayoutInvalid) (identity_from_record compiler);
  _ ← refuse (negb (is_gnu (Some compiler))) LayoutNotGnu;
  _ ← map_err (fun _ => LayoutTarget) (validate_for_target compiler target_triple);
  _ ← foldM (fun _ role => map_err (LayoutPath role.1) (validate_tool_path role.2)) tt (roles tools);
  Ok (mkLayout schema_version compiler target_triple tools (sha256_bytes bytes)).

(** [ToolchainToolLayout::validate_binding] *)
Definition validate_binding (layout : ToolchainToolLayout) (compiler : ArosCompilerIdentity) (target_triple : list Z) : res layout_error unit :=
  _ ← refuse (negb (is_gnu (Some compiler))) LayoutNotGnu;
  _ ← map_err (fun _ => LayoutTarget) (validate_for_target compiler target_triple);
  _ ← refuse (negb (bool_decide (ly_compiler layout = compiler))) CompilerDiffers;
  refuse (negb (eqb_list (ly_target_triple layout) target_triple)) TripleDiffers.

(** ** Resolution in an inventory *)
Inductive PendingComponent := PNormal (segment : list Z) | PCurrent | PParent.

Inductive resolve_error :=
| EscapesRoot | AbsentFromInventory | TooManyLinks | NoTarget | TargetNotUtf8 | NotExecutable | NotADirectory | ResolvesToRoot.

(** [entries.iter().map(..).collect::<BTreeMap<_, _>>()] *)
Definition inventory_map (entries : list ArosToolchainManifestEntry) : list (list Z * ArosToolchainManifestEntry) :=
  foldl (fun m e => bt_put str_ltb (entry_path e) e m) [] entries.

Definition pending_of (c : component) : res resolve_error PendingComponent :=
  match c with
  | Normal value => text ← ok_or (from_utf8 value) TargetNotUtf8; Ok (PNormal text)
  | CurDir => Ok PCurrent
  | ParentDir => Ok PParent
  | RootDir => Err EscapesRoot
  end.

(** The loop of [resolve_inventory_path]: [hops] links may still be followed. *)
Fixpoint resolve_pending (hops : nat) (inventory : list (list Z * ArosToolchainManifestEntry))
    (resolved : list (list Z)) (pending : list PendingComponent) : res resolve_error ArosToolchainManifestEntry :=
  (fix go (resolved : list (list Z)) (pending : list PendingComponent) : res resolve_error ArosToolchainManifestEntry :=
     match pending with
     | [] => Err ResolvesToRoot
     | PCurrent :: rest => go resolved rest
     | PParent :: rest => if bool_decide (resolved = []) then Err EscapesRoot else go (removelast resolved) rest
     | PNormal segment :: rest =>
       let path := resolved ++ [segment] in
       entry ← ok_or (bt_get (join (rs "/") path) inventory) AbsentFromInventory;
       if eqb_list (entry_kind entry) (rs "symlink") then
         match hops with
         | O => Err TooManyLinks
         | S hops =>
           target ← ok_or (entry_target entry) NoTarget;
           replacement ← mapR pending_of (components (utf8 target));
           resolve_pending hops inventory resolved (replacement ++ rest)
         end
       else if bool_decide (rest = []) then
         if negb (eqb_list (entry_kind entry) (rs "file")) || negb (eqb_list (entry_mode entry) (rs "0755"))
         then Err NotExecutable else Ok entry
       else if negb (eqb_list (entry_kind entry) (rs "directory")) then Err NotADirectory
       else go path rest
     end) resolved pending.
Definition MAX_LINK_HOPS : nat := 40.
(** [resolve_inventory_path] *)
Definition resolve_inventory_path (inventory : list (list Z * ArosToolchainManifestEntry)) (declared_path : list Z)
  : res resolve_error ArosToolchainManifestEntry :=
  resolve_pending MAX_LINK_HOPS inventory [] (map PNormal (split_on (Z.eqb 47) declared_path)).

(** The loop of [validate_archive]. *)
Definition validate_archive_tools (tools : ToolRoles) (entries : list ArosToolchainManifestEntry) : res (list Z * resolve_error) unit :=
  let inventory := inventory_map entries in
  foldM (fun _ role => _ ← map_err (fun e => (role.1, e)) (resolve_inventory_path inventory role.2); Ok tt) tt (roles tools).

(** ** Resolution on disk *)

(** [Path::canonicalize]: every component but the last is a directory, links are
    followed, the last included. *)
Fixpoint canonicalize (hops : nat) (d : node) (here : rel_path) (pending : list component) : option rel_path :=
  (fix go (here : rel_path) (pending : list component) : option rel_path :=
     match pending with
     | [] => Some here
     | RootDir :: rest => go [] rest
     | CurDir :: rest => go here rest
     | ParentDir :: rest => go (removelast here) rest
     | Normal name :: rest =>
       match node_at d (here ++ [name]) with
       | Some (Dir _) => go (here ++ [name]) rest
       | Some (Link target) =>
         match hops with
         | O => None
         | S hops => canonicalize hops d here (components target ++ rest)
         end
       | Some _ => if bool_decide (rest = []) then Some (here ++ [name]) else None
       | None => None
       end
     end) here pending.

Inductive tool_error := CannotResolve | OutsideRoot | NotRegular | NoExecutablePermission.
(** One role of [resolve_tools]: where it leads; the root is a path of real
    directories. *)
Definition resolve_tool (d : node) (root : rel_path) (relative : list Z) : res tool_error rel_path :=
  target ← ok_or (canonicalize MAX_LINK_HOPS d root (components (utf8 relative))) CannotResolve;
  _ ← refuse (negb (bool_decide (root `prefix_of` target))) OutsideRoot;
  match node_at d target with
  | Some (File mode _) =>
    _ ← refuse (Z.land mode m0111 =? 0) NoExecutablePermission;
    Ok target
  | _ => Err NotRegular
  end.
(** [resolve_tools] returns the declared paths, below the root. *)
Definition resolve_tools (d : node) (root : rel_path) (tools : ToolRoles)
  : res (list Z * tool_error) (list (list Z * (rel_path * list Z))) :=
  mapR (fun role => _ ← map_err (fun e => (role.1, e)) (resolve_tool d root role.2); Ok (role.1, (root, role.2))) (roles tools).

(** ** Splitting at slashes *)
Lemma split_on_Forall (P : Z -> Prop) path : P 47 -> Forall (Forall P) (split_on (Z.eqb 47) path) -> Forall P path.
Proof.
  intros H47. induction path as [|b path IH]; [constructor|]. cbn [split_on]. destruct (47 =? b) eqn:E.
  - apply Z.eqb_eq in E. subst b. intros [_ Hp]%Forall_cons. constructor; auto.
  - destruct (split_on (Z.eqb 47) path) as [|w ws].
    + intros [Hw _]%Forall_cons. apply Forall_cons in Hw as [Hb _]. constructor; [done|]. by apply IH.
    + intros [Hw Hws]%Forall_cons. apply Forall_cons in Hw as [Hb Hw]. constructor; [done|]. apply IH. by constructor.
Qed.

Lemma split_on_free path : Forall (Forall (fun c => c <> 47)) (split_on (Z.eqb 47) path).
Proof.
  induction path as [|b path IH]; cbn [split_on]; [by repeat constructor|]. destruct (47 =? b) eqn:E; [by constructor|].
  destruct (split_on (Z.eqb 47) path) as [|w ws]; [repeat constructor; apply Z.eqb_neq in E; lia|].
  apply Forall_cons in IH as [H1 H2]. constructor; [|done]. constructor; [apply Z.eqb_neq in E; lia|done].
Qed.

(** ** What the inventory accepts, the disk has *)
Section agreement.
Context {H : Sha256} (entries : list ArosToolchainManifestEntry) (n : node) (d : node) (root : rel_path).
Context (Hat : node_at d root = Some n).

(** Every entry is that of a node with a portable path. *)
Definition listed (e : ArosToolchainManifestEntry) : Prop := exists p m, p <> [] /\ Forall portable_name p /\
  node_at n p = Some m /\ e = node_entry (p, m) /\ match m with Link t => is_Some (from_utf8 t) | Special => False | _ => True end.
Context (Hlisted : Forall listed entries).

Lemma inventory_map_listed path e : bt_get path (inventory_map entries) = Some e -> listed e /\ entry_path e = path.
Proof.
  unfold inventory_map.
  enough (forall es m, Forall listed es -> (forall k e, bt_get k m = Some e -> listed e /\ entry_path e = k) ->
    forall k e, bt_get k (foldl (fun m e => bt_put str_ltb (entry_path e) e m) m es) = Some e -> listed e /\ entry_path e = k) as Hgen
    by (by apply (Hgen entries [])).
  clear. induction es as [|x es IH]; intros m Hes Hm; [done|]. apply Forall_cons in Hes as [Hx Hes]. cbn [foldl].
  apply IH; [done|]. intros k e. rewrite bt_get_put. case_bool_decide as E; [intros [= <-]; by subst|]. apply Hm.
Qed.

(** The names that a list of segments stands for. *)
Definition spells (q : rel_path) (segments : list (list Z)) : Prop := Forall2 (fun name t => from_utf8 name = Some t /\ Forall (fun c => c <> 47) t /\ t <> []) q segments.

Definition slash_free (c : PendingComponent) : Prop := match c with PNormal t => Forall (fun x => x <> 47) t | _ => True end.
Definition component_of (c : PendingComponent) : component :=
  match c with PNormal t => Normal (utf8 t) | PCurrent => CurDir | PParent => ParentDir end.

Lemma entry_node resolved segment q e : spells q resolved -> Forall (fun x => x <> 47) segment ->
  bt_get (join (rs "/") (resolved ++ [segment])) (inventory_map entries) = Some e ->
  exists m, node_at n (q ++ [utf8 segment]) = Some m /\ e = node_entry (q ++ [utf8 segment], m) /\ spells (q ++ [utf8 segment]) (resolved ++ [segment]) /\
    match m with Link t => is_Some (from_utf8 t) | Special => False | _ => True end.
Proof.
  intros Hq Hseg [(p & m & Hne & Hp & Hm & -> & Hlink) Epath]%inventory_map_listed.
  rewrite node_entry_path in Epath. cbn [fst] in Epath. destruct (path_text_portable p Hp) as (texts & H2 & Ht & Et).
  rewrite (proj2 (path_name_portable _ _ Hp Et)) in Epath.
  assert (texts = resolved ++ [segment]) as ->.
  { apply (f_equal (split_on (Z.eqb 47))) in Epath. change (rs "/") with [47] in Epath. rewrite !split_on_join in Epath; [done|by destruct resolved| | |].
    - apply Forall_app. split; [|by apply Forall_singleton]. clear -Hq. induction Hq as [|? ? ? ? (_ & ? & _) _ IH]; by constructor.
    - intros ->. inversion H2; by subst.
    - eapply Forall_impl; [exact Ht|]. intros t (_ & _ & _ & Hc & _). eapply Forall_impl; [exact Hc|]. naive_solver. }
  apply Forall2_app_inv_r in H2 as (p1 & p2 & H21 & H22 & ->). inversion H22 as [|x ? ? ? Hx Hnil]; subst. inversion Hnil; subst.
  assert (p1 = q) as ->.
  { clear -Hq H21. revert q Hq. induction H21 as [|x t p1 ts Hx _ IH]; intros q Hq; inversion Hq as [|y ? q' ? (Hy & _) Hq']; subst; [done|].
    f_equal; [by eapply from_utf8_inj|by apply IH]. }
  pose proof Hx as [Ex _]%utf8_from_utf8. rewrite Ex. exists m. split_and!; try done. apply Forall2_app; [done|]. constructor; [|constructor].
  split_and!; [done|done|]. apply Forall_app in Ht as [_ Ht]. apply Forall_inv in Ht. by destruct Ht.
Qed.

Lemma pending_of_components cs replacement : mapR pending_of cs = Ok replacement -> map component_of replacement = cs.
Proof.
  revert replacement. induction cs as [|c cs IH]; intros replacement; cbn [mapR]; [by intros [= <-]|].
  intros (x & Hx & (xs & Hxs & [= <-])%bind_Ok)%bind_Ok. cbn [map]. rewrite (IH xs Hxs). f_equal.
  destruct c; cbn in Hx; try (injection Hx as <-; done); [done|]. apply bind_Ok in Hx as (t & Ht%ok_or_Ok & [= <-]).
  cbn. by apply utf8_from_utf8 in Ht as [-> _].
Qed.

Lemma component_slash_free bytes replacement : mapR pending_of (components bytes) = Ok replacement -> Forall slash_free replacement.
Proof.
  intros Hm. assert (forall name, Normal name ∈ components bytes -> Forall (fun c => c <> 47) name) as Hc.
  { intros name. unfold components.
    assert (forall ws, Forall (Forall (fun c => c <> 47)) ws -> Normal name ∈ omap piece_component ws -> Forall (fun c => c <> 47) name) as Ho.
    { intros ws Hws (w & Hw & Ew)%list_elem_of_omap. unfold piece_component in Ew. repeat case_match; simplify_eq. rewrite Forall_forall in Hws. by apply Hws. }
    pose proof (split_on_free bytes) as Hws.
    destruct (is_absolute bytes); [intros [?|Hin]%elem_of_cons; [done|by eapply Ho]|].
    destruct (split_on (Z.eqb 47) bytes) as [|w ws] eqn:E; [by intros ?%elem_of_nil|]. destruct (eqb_list w (rs ".")).
    - intros [?|Hin]%elem_of_cons; [done|by eapply Ho].
    - by apply Ho. }
  revert replacement Hm Hc. generalize (components bytes). induction l as [|c cs IH]; intros replacement; cbn [mapR]; [by intros [= <-]|].
  intros (x & Hx & (xs & Hxs & [= <-])%bind_Ok)%bind_Ok Hc. constructor; [|apply (IH xs Hxs); intros; apply Hc; by right].
  destruct c; cbn in Hx; try (injection Hx as <-; done); [done|]. apply bind_Ok in Hx as (t & Ht%ok_or_Ok & [= <-]). cbn.
  assert (Forall (fun c => c <> 47) name) as Hn by (apply Hc; by left).
  apply utf8_from_utf8 in Ht as [<- Hs]. refine (proj2 (utf8_Forall_ascii (fun c => c <> 47) t _ _ Hs) Hn); intros; lia.
Qed.

Lemma below_root q : node_at d (root ++ q) = node_at n q.
Proof. by rewrite node_at_app, Hat. Qed.

(** The node a segment leads to, by the kind of its entry. *)
Lemma entry_kind_node p m e : e = node_entry (p, m) ->
  (eqb_list (entry_kind e) (rs "symlink") = true -> exists t, m = Link t /\ entry_target e = Some (default [] (from_utf8 t))) /\
  (eqb_list (entry_kind e) (rs "symlink") = false -> forall t, m <> Link t) /\
  (eqb_list (entry_kind e) (rs "directory") = true -> m = Special \/ exists k, m = Dir k) /\
  (eqb_list (entry_kind e) (rs "file") = true -> eqb_list (entry_mode e) (rs "0755") = true ->
     exists mode data, m = File mode data /\ (Z.land mode m0111 =? 0) = false).
Proof.
  intros ->. destruct m as [mode data|kids|t|]; cbn [node_entry snd fst file_entry directory_entry link_entry entry_kind entry_mode entry_target];
    split_and!; try done; eauto.
  intros _. unfold normalized_toolchain_file_mode. destruct (Z.land mode m0111 =? 0) eqn:E; [by vm_compute|]. eauto.
Qed.

Lemma resolve_pending_eq hops inventory resolved pending : resolve_pending hops inventory resolved pending =
  match pending with
  | [] => Err ResolvesToRoot
  | PCurrent :: rest => resolve_pending hops inventory resolved rest
  | PParent :: rest => if bool_decide (resolved = []) then Err EscapesRoot else resolve_pending hops inventory (removelast resolved) rest
  | PNormal segment :: rest =>
    let path := resolved ++ [segment] in
    entry ← ok_or (bt_get (join (rs "/") path) inventory) AbsentFromInventory;
    if eqb_list (entry_kind entry) (rs "symlink") then
      match hops with
      | O => Err TooManyLinks
      | S hops =>
        target ← ok_or (entry_target entry) NoTarget;
        replacement ← mapR pending_of (components (utf8 target));
        resolve_pending hops inventory resolved (replacement ++ rest)
      end
    else if bool_decide (rest = []) then
      if negb (eqb_list (entry_kind entry) (rs "file")) || negb (eqb_list (entry_mode entry) (rs "0755"))
      then Err NotExecutable else Ok entry
    else if negb (eqb_list (entry_kind entry) (rs "directory")) then Err NotADirectory
    else resolve_pending hops inventory path rest
  end.
Proof. destruct hops, pending as [|[] ?]; done. Qed.

Lemma canonicalize_eq hops here pending : canonicalize hops d here pending =
  match pending with
  | [] => Some here
  | RootDir :: rest => canonicalize hops d [] rest
  | CurDir :: rest => canonicalize hops d here rest
  | ParentDir :: rest => canonicalize hops d (removelast here) rest
  | Normal name :: rest =>
    match node_at d (here ++ [name]) with
    | Some (Dir _) => canonicalize hops d (here ++ [name]) rest
    | Some (Link target) =>
      match hops with
      | O => None
      | S hops => canonicalize hops d here (components target ++ rest)
      end
    | Some _ => if bool_decide (rest = []) then Some (here ++ [name]) else None
    | None => None
    end
  end.
Proof. destruct hops, pending as [|[] ?]; done. Qed.

Lemma spells_removelast q resolved : spells q resolved -> resolved <> [] ->
  q <> [] /\ spells (removelast q) (removelast resolved) /\ removelast (root ++ q) = root ++ removelast q.
Proof.
  intros Hq Hne. destruct resolved as [|t resolved _] using rev_ind; [done|].
  apply Forall2_app_inv_r in Hq as (q1 & q2 & Hq1 & Hq2 & ->). inversion Hq2 as [|x ? ? ? Hx Hnil]; subst. inversion Hnil; subst.
  rewrite app_assoc, !removelast_last. split_and!; [by destruct q1|done|done].
Qed.

Lemma is_dir_removelast q : is_dir n q -> is_dir n (removelast q).
Proof.
  intros Hd. destruct q as [|name q _] using rev_ind; [done|]. rewrite removelast_last. by eapply is_dir_prefix.
Qed.

Lemma resolve_pending_found hops : forall resolved pending q e, spells q resolved -> Forall slash_free pending -> is_dir n q ->
  resolve_pending hops (inventory_map entries) resolved pending = Ok e ->
  exists p mode data, canonicalize hops d (root ++ q) (map component_of pending) = Some (root ++ p) /\
    node_at n p = Some (File mode data) /\ (Z.land mode m0111 =? 0) = false /\ e = node_entry (p, File mode data).
Proof.
  induction (lt_wf hops) as [hops _ IHh]. intros resolved pending. revert resolved.
  induction pending as [|c pending IH]; intros resolved q e Hq Hfree Hdir; rewrite resolve_pending_eq, canonicalize_eq; [done|].
  apply Forall_cons in Hfree as [Hc Hfree]. cbn [map]. destruct c as [segment| |]; cbn [component_of].
  - intros (entry & Hget%ok_or_Ok & Hrun)%bind_Ok. destruct (entry_node _ _ _ _ Hq Hc Hget) as (m & Hm & He & Hq' & Hlink).
    pose proof (entry_kind_node _ _ _ He) as (Hsym & Hnosym & Hdirk & Hfilek).
    rewrite <- app_assoc, below_root, Hm. destruct (eqb_list (entry_kind entry) (rs "symlink")) eqn:Ek.
    + destruct (Hsym eq_refl) as (t & -> & Et). destruct hops as [|hops]; [done|]. rewrite Et in Hrun. cbn [ok_or mbind res_bind] in Hrun.
      destruct Hlink as [text Htext]. rewrite Htext in Hrun. cbn [default] in Hrun. unfold id in Hrun. pose proof Htext as [Eu _]%utf8_from_utf8. rewrite Eu in Hrun.
      apply bind_Ok in Hrun as (replacement & Hrep & Hrun). rewrite <- (pending_of_components _ _ Hrep), <- map_app.
      eapply (IHh hops ltac:(lia)); [done| |done|done]. apply Forall_app. split; [by eapply component_slash_free|done].
    + specialize (Hnosym eq_refl). case_bool_decide as Hrest.
      * subst pending. destruct (negb _ || negb _) eqn:Ef; [done|]. injection Hrun as ->. apply orb_false_iff in Ef as [E1%negb_false_iff E2%negb_false_iff].
        destruct (Hfilek E1 E2) as (mode & data & -> & Hx). exists (q ++ [utf8 segment]), mode, data. by rewrite app_assoc.
      * destruct (eqb_list (entry_kind entry) (rs "directory")) eqn:Ed; [|done]. cbn [negb] in Hrun.
        destruct (Hdirk eq_refl) as [->|[k ->] ]; [done|]. rewrite app_assoc. rewrite <- app_assoc. eapply IH; [done|done|by eexists|done].
  - intros Hrun. by eapply IH.
  - case_bool_decide as Hnil; [done|]. intros Hrun. destruct (spells_removelast _ _ Hq Hnil) as (_ & Hq' & ->).
    eapply IH; [done|done|by apply is_dir_removelast|done].
Qed.

Lemma tool_byte_ascii b : tool_byte b = true -> 0 <= b < 128.
Proof.
  unfold tool_byte, is_ascii_alphanumeric, is_ascii_digit, is_ascii_lowercase, is_ascii_uppercase.
  rewrite !orb_true_iff, !in_range_true, !Z.eqb_eq. lia.
Qed.

Lemma validate_segment_Ok segment u : validate_segment segment = Ok u ->
  segment <> [] /\ segment <> rs "." /\ segment <> rs ".." /\ Forall is_ascii segment.
Proof.
  unfold validate_segment. intros Hv. inv_guards. repeat match goal with H : eqb_list _ _ = false |- _ => apply bool_decide_eq_false in H end.
  split_and!; try done. match goal with H : forallb tool_byte _ = true |- _ => rename H into Hb end.
  apply forallb_utf8 in Hb; [|intros b Hb'; by apply tool_byte_ascii]. eapply Forall_impl; [exact Hb|]. intros b Hb'. by apply tool_byte_ascii.
Qed.

(** A declared path is its segments. *)
Lemma tool_path_components path u : validate_tool_path path = Ok u ->
  components (utf8 path) = map component_of (map PNormal (split_on (Z.eqb 47) path)).
Proof.
  unfold validate_tool_path. cbv zeta. intros Hv. inv_guards.
  match goal with H : foldM _ _ _ = Ok _ |- _ => rename H into Hf end. match goal with H : is_absolute _ = false |- _ => rename H into Ha end.
  assert (Forall (fun w => exists u, validate_segment w = Ok u) (split_on (Z.eqb 47) path)) as Hsegs.
  { clear -Hf. revert Hf. generalize (split_on (Z.eqb 47) path). intros l. generalize tt at 1. induction l as [|w l IH]; intros t; cbn [foldM]; [constructor|].
    intros ([] & Hw & Hl)%bind_Ok. constructor; [by eexists|]. by eapply IH. }
  assert (Forall (fun w => w <> [] /\ w <> rs "." /\ w <> rs ".." /\ Forall is_ascii w) (split_on (Z.eqb 47) path)) as Hok.
  { eapply Forall_impl; [exact Hsegs|]. intros w [u' Hw]. by eapply validate_segment_Ok. }
  assert (Forall is_ascii path) as Hascii.
  { apply split_on_Forall; [unfold is_ascii; lia|]. eapply Forall_impl; [exact Hok|]. naive_solver. }
  rewrite (utf8_ascii path Hascii) in *. unfold components. rewrite Ha. rewrite map_map.
  destruct (split_on (Z.eqb 47) path) as [|w ws] eqn:E; [done|].
  assert (eqb_list w (rs ".") = false) as ->.
  { apply Forall_cons in Hok as [(_ & Hd & _) _]. by apply bool_decide_eq_false. }
  clear -Hok. induction Hok as [|v vs (H1 & H2 & H3 & H4) _ IH]; [done|]. cbn [omap list_omap map]. unfold piece_component, eqb_list.
  rewrite !bool_decide_eq_false_2 by done. cbn [component_of]. rewrite (utf8_ascii v H4). f_equal. exact IH.
Qed.

Lemma declared_path_found path e : is_dir n [] -> validate_tool_path path = Ok tt ->
  resolve_inventory_path (inventory_map entries) path = Ok e ->
  exists p mode data, resolve_tool d root path = Ok (root ++ p) /\ node_at n p = Some (File mode data) /\ e = node_entry (p, File mode data).
Proof.
  intros Hdir Hval Hres. unfold resolve_inventory_path in Hres.
  pose proof (tool_path_components _ _ Hval) as Ec.
  assert (Forall slash_free (map PNormal (split_on (Z.eqb 47) path))) as Hfree by (apply Forall_map; exact (split_on_free path)).
  eapply (resolve_pending_found _ [] _ []) in Hres as (p & mode & data & Hcan & Hp & Hx & ->); [|constructor|done|done].
  rewrite app_nil_r, <- Ec in Hcan. exists p, mode, data. split_and!; [|done|done]. unfold resolve_tool. rewrite Hcan. cbn [ok_or mbind res_bind].
  rewrite (bool_decide_eq_true_2 (root `prefix_of` root ++ p)) by by apply prefix_app_r. cbn [negb refuse mbind res_bind].
  rewrite below_root, Hp, Hx. done.
Qed.

(** Tools accepted from the inventory are found on disk. *)
Lemma tools_found tools u : is_dir n [] -> Forall (fun role => validate_tool_path role.2 = Ok tt) (roles tools) ->
  validate_archive_tools tools entries = Ok u ->
  resolve_tools d root tools = Ok (map (fun role => (role.1, (root, role.2))) (roles tools)).
Proof.
  intros Hdir Hval Hres. unfold validate_archive_tools in Hres. unfold resolve_tools. cbv zeta in Hres. revert Hval Hres. generalize (roles tools).
  induction l as [|[role path] l IH]; intros Hval; cbn [foldM mapR map fst snd]; [done|].
  apply Forall_cons in Hval as [Hp Hl]. intros ([] & Hrole & Hrest)%bind_Ok.
  apply bind_Ok in Hrole as (e & Hres%map_err_Ok & _). cbn in Hp.
  destruct (declared_path_found path e Hdir Hp Hres) as (p & mode & data & -> & _). cbn. by rewrite (IH Hl Hrest).
Qed.
End agreement.
