(* ===== verification/PackageSet.v ===== *)
(** * PackageSet: verifying a package set and extracting its archive

    Models [verify_with_format], [verify_members_validated] and
    [verify_manifest_identity] of [crates/aros-toolchain/src/package_verify.rs]
    with their readers, [crates/aros-toolchain/src/package_extract.rs],
    [ArosToolchainManifest::load] of [aros-common/src/toolchain_manifest.rs], and
    [validate_archive] and [validate_root] of [package_layout.rs].  A package
    directory is a tree; a file that does not change while it is read is one of
    its nodes. *)

From S2P Require Import Prelude Text Digest StateRes Ordered Publication PayloadPath ArchiveTypes ToolchainManifest ProducerInputs PackageIdentity.
From S2P Require Import PrefixScan TarWriter TarReader PayloadTree Packaging ArchiveScan ArchiveSafety.
From S2P Require Import Extraction ExtractionSpecs ToolLayout.

Definition MAX_MANIFEST_BYTES : Z := 4 * 1024 * 1024.

Section package_set.
Context {H : Sha256} {U : UnicodeFold} {T : TarXz} {S : PackageSerde} {L : ToolsSerde}.
Variable json : list (list Z * json_value) -> option (list Z).
Abbreviation toolchain_manifest := (ArosToolchainManifest environment).

(** [PackageVerificationRequest]: the selected inputs and the directory. *)
Record verification_request := mkRequest { vr_inputs : package_request; vr_package_dir : list Z }.
Variable request : verification_request.
Variable format : PackageFormat.
Abbreviation inputs := (vr_inputs request).

(** ** Reading the members of a set *)

(** [require_exact_outer_members] *)
Definition outer_member (actual : list (list Z)) (member : list Z * node) : res ContractError (list (list Z)) :=
  name ← ok_or (from_utf8 member.1) (Verification SetMemberNotUtf8);
  _ ← refuse (match member.2 with File _ _ => false | _ => true end) (Verification SetMemberNotRegular);
  Ok (bs_put str_ltb name actual).
Definition require_exact_outer_members (directory : node) (expected : list (list Z)) : res ContractError unit :=
  members ← match directory with Dir kids => Ok kids | _ => Err (Verification SetNotADirectory) end;
  actual ← foldM outer_member [] members;
  refuse (negb (bool_decide (actual = foldl (fun s name => bs_put str_ltb name s) [] expected))) (Verification SetMembersDiffer).

(** [open_regular_file_nofollow] *)
Definition open_regular (directory : node) (path : rel_path) : option (list Z) :=
  match node_at directory path with Some (File _ data) => Some data | _ => None end.

(** [measure_archive] *)
Definition measure_archive (directory : node) (name : list Z) : res ContractError (list Z * Z * list Z) :=
  data ← ok_or (open_regular directory [utf8 name]) (Verification ArchiveUnreadable);
  _ ← refuse (MAX_ARCHIVE_BYTES <? len data) (Verification ArchiveTooLarge);
  Ok (data, len data, sha256_bytes data).

(** [read_metadata] *)
Definition read_metadata (directory : node) (name : list Z) : res ContractError (list Z) :=
  data ← ok_or (open_regular directory [utf8 name]) (Verification MetadataFileUnreadable);
  _ ← refuse (MAX_METADATA_BYTES <? len data) (Verification MetadataFileTooLarge);
  Ok data.

(** ** Documents *)

(** [serde_json::from_slice] of a manifest, and the same followed by [validate] *)
Definition json_manifest (bytes : list Z) : option toolchain_manifest :=
  record ← read_manifest bytes;
  match manifest_from_record record with Ok m => Some m | _ => None end.
Definition decode_manifest (bytes : list Z) : option toolchain_manifest :=
  m ← json_manifest bytes; if is_ok (validate_manifest m) then Some m else None.

(** [validate_archive] *)
Definition bound_tools (bytes : list Z) (compiler : ArosCompilerIdentity) (target_triple : list Z) : res layout_error ToolRoles :=
  layout ← parse_layout bytes;
  _ ← validate_binding layout compiler target_triple;
  Ok (ly_tools layout).
Definition validate_archive (bytes : list Z) (compiler : ArosCompilerIdentity) (target_triple : list Z) (es : list ArosToolchainManifestEntry)
  : res ContractError unit :=
  tools ← map_err (fun _ => Verification ToolLayoutInvalid) (bound_tools bytes compiler target_triple);
  map_err (fun _ => Verification ToolLayoutInvalid) (validate_archive_tools tools es).

(** [ToolchainToolLayout::load] and [validate_root] *)
Definition validate_root (disk : node) (root : rel_path) (compiler : ArosCompilerIdentity) (target_triple : list Z) : res ContractError unit :=
  _ ← refuse (negb (open_directory disk root)) (Verification ToolLayoutInvalid);
  bytes ← ok_or (open_regular disk (root ++ [TOOLCHAIN_TOOLS_FILE])) (Verification ToolLayoutInvalid);
  tools ← map_err (fun _ => Verification ToolLayoutInvalid) (bound_tools bytes compiler target_triple);
  _ ← map_err (fun _ => Verification ToolLayoutInvalid) (resolve_tools disk root tools);
  Ok tt.

(** ** Verifying *)
Record VerifiedPackage := mkVerified {
  vp_manifest : toolchain_manifest;
  vp_archive_sha256 : list Z;
  vp_archive_size : Z;
}.

(** [PackageAssetPaths::for_asset] *)
Definition manifest_name (asset : list Z) : list Z := asset ++ rs ".manifest.json".
Definition checksum_name (asset : list Z) : list Z := asset ++ rs ".sha256".
Definition sbom_name (asset : list Z) : list Z := asset ++ rs ".spdx.json".

Definition manifest_contract (m : toolchain_manifest) : PayloadArchiveContract :=
  compiler_archive_contract (m_source_date_epoch m) (is_gnu (m_compiler m)).

(** [asset_name_for_format] of the request *)
Definition asset_name : res ContractError (list Z) :=
  asset_name_for_format (rq_source_lock inputs) (rq_profile inputs) (rq_host inputs) format.

(** [validate_request], of a package directory that can be inspected *)
Definition validate_request (directory : node) : res ContractError unit :=
  _ ← map_err (fun _ => Verification RequestIdentity) (compiler_identity_for_format (rq_source_lock inputs) (rq_profile inputs) format);
  _ ← map_err (fun _ => Verification RequestBinding) (require_recipe_binding (rq_recipe inputs) (rq_source_lock inputs) (rq_profile inputs) format);
  _ ← refuse (negb (is_absolute (vr_package_dir request))) (Verification PackageDirNotAbsolute);
  _ ← refuse (match directory with Dir _ => false | _ => true end) (Verification PackageDirNotReal);
  _ ← verify_recipe_patches (rq_source_lock inputs) (rq_recipe inputs);
  refuse (existsb (fun prefix => negb (is_absolute prefix) || bool_decide (from_utf8 prefix = None)) (rq_prefixes inputs)) (Verification PrefixNotAbsoluteUtf8).

(** [verify_manifest_identity] *)
Definition verify_manifest_identity (m : toolchain_manifest) : res ContractError unit :=
  let recipe := rq_recipe inputs in
  let expected := [rq_release_id inputs; rq_host inputs; pf_name (rq_profile inputs); pf_target_triple (rq_profile inputs); rc_sha256 recipe;
                   rc_source_lock_sha256 recipe; rc_profiles_sha256 recipe; rc_source_commit recipe; rc_producer_commit recipe; rc_tools_commit recipe] in
  let actual := [m_release_id m; m_host m; m_target_profile m; m_target_triple m; m_recipe_sha256 m; m_source_lock_sha256 m; m_profiles_sha256 m;
                 m_source_commit m; m_producer_commit m; m_tools_commit m] in
  _ ← refuse (negb (bool_decide (actual = expected)) || negb (m_source_date_epoch m =? rc_source_date_epoch recipe)
              || negb (m_schema m =? manifest_schema format)) (Verification ManifestIdentity);
  identity ← map_err (fun _ => Verification ManifestIdentity) (compiler_identity m);
  selected ← compiler_identity_for_format (rq_source_lock inputs) (rq_profile inputs) format;
  refuse (negb (bool_decide (identity = selected)) || negb (bool_decide (m_capabilities m = pf_capabilities (rq_profile inputs)))
          || negb (bool_decide (m_build_environment m = rq_environment inputs))) (Verification ManifestIdentity).

(** [verify_archive_tree] *)
Definition verify_archive_tree (archive : list Z) (m : toolchain_manifest) : res ContractError ArchiveTree :=
  (scan_archive (C:=unit) (manifest_contract m) (rq_prefixes inputs) json (mkInput (Some (true, len archive)) archive) tt).1.

(** [verify_members_validated] *)
Definition verify_members_validated (asset : list Z) (directory : node) : res ContractError VerifiedPackage :=
  measured ← measure_archive directory asset;
  let '(archive, size, sha256) := measured in
  checksum ← read_metadata directory (checksum_name asset);
  _ ← refuse (negb (bool_decide (checksum = utf8 (sha256 ++ rs "  " ++ asset ++ [10])))) (Verification ChecksumMismatch);
  manifest_bytes ← read_metadata directory (manifest_name asset);
  m ← ok_or (json_manifest manifest_bytes) (Verification ManifestInvalid);
  _ ← map_err (fun _ => Verification ManifestContract) (validate_manifest m);
  _ ← verify_manifest_identity m;
  expected_sbom ← spdx_bytes (rq_source_lock inputs) m;
  sbom ← read_metadata directory (sbom_name asset);
  _ ← refuse (negb (bool_decide (sbom = expected_sbom))) (Verification SbomMismatch);
  tree ← verify_archive_tree archive m;
  _ ← compare_manifest tree manifest_bytes (m_files m) (m_tree_sha256 m);
  _ ← (if bool_decide (sl_family (rq_source_lock inputs) = Gnu) then
         compiler ← ok_or (m_compiler m) (Verification CompilerIdentityMissing);
         tools ← ok_or (toolchain_tools tree) (Verification ToolsContractMissing);
         validate_archive tools compiler (m_target_triple m) (entries tree)
       else Ok tt);
  Ok (mkVerified m sha256 size).

(** [verify_with_format] *)
Definition verify_with_format (directory : node) : res ContractError VerifiedPackage :=
  _ ← validate_request directory;
  asset ← asset_name;
  _ ← require_exact_outer_members directory [asset; manifest_name asset; checksum_name asset; sbom_name asset];
  verify_members_validated asset directory.

(** ** Extracting *)
Variable ex_fails : ex_call -> rel_path -> bool.
Variable create_mode : Z.

(** [checked_absent_root] *)
Definition checked_absent_root (disk : node) (path : list Z) : res ContractError rel_path :=
  _ ← refuse (negb (is_absolute path)) (Verification RootNotAbsolute);
  name ← ok_or (file_name path) (Verification RootNoFinalSegment);
  up ← ok_or (canonicalize MAX_LINK_HOPS disk [] (removelast (components path))) (Verification ParentNotCanonical);
  _ ← refuse (negb (open_directory disk up)) (Verification ParentUnsafe);
  let root := up ++ [name] in
  _ ← refuse (ex_fails ExLstat []) (Verification RootNotInspectable);
  _ ← refuse (bool_decide (is_Some (node_at disk root))) (Verification RootExists);
  Ok root.

(** [create_fresh_root] *)
Definition create_fresh_root (disk : node) (path : list Z) : res ContractError rel_path * node :=
  match checked_absent_root disk path with
  | Ok root =>
    if ex_fails ExMkdir [] then (Err (Verification CannotCreateRoot), disk)
    else
      let disk := put_at disk root (Dir []) in
      if ex_fails ExOpenDir [] || negb (open_directory disk root) then (Err (Verification RootNotReal), disk)
      else (Ok root, disk)
  | Err e => (Err e, disk)
  | Stuck => (Stuck, disk)
  end.

(** [ArosToolchainManifest::load] *)
Definition load_manifest (disk : node) (root : rel_path) : option toolchain_manifest :=
  bytes ← open_regular disk (root ++ [AROS_TOOLCHAIN_MANIFEST_FILE]);
  if MAX_MANIFEST_BYTES <? len bytes then None
  else _ ← from_utf8 bytes; decode_manifest bytes.

(** [verify_extracted_tree] *)
Variable fails : fs_call -> rel_path -> bool.
Variable measure : rel_path -> measured.
Definition verify_extracted_tree (disk : node) (root : rel_path) (m : toolchain_manifest) : res ContractError unit :=
  extracted ← ok_or (load_manifest disk root) (Verification ExtractedManifestUnreadable);
  _ ← refuse (negb (bool_decide (extracted = m))) (Verification ExtractedManifestDiffers);
  tree ← ok_or (node_at disk root) (Verification ExtractedNotInventoried);
  inventory ← map_err (fun _ => Verification ExtractedNotInventoried) (toolchain_tree_inventory fails measure json tree);
  _ ← refuse (negb (bool_decide (inventory.1 = m_tree_sha256 m)) || negb (bool_decide (inventory.2 = m_files m))) (Verification ExtractedDiffers);
  match m_compiler m with
  | Some (GnuCompiler _ _ _ as compiler) => validate_root disk root compiler (m_target_triple m)
  | _ => Ok tt
  end.

(** [verify_and_extract_with_format]; [later] is the package directory when the
    archive is measured again. *)
Definition verify_and_extract (directory later disk : node) (path : list Z) : res ContractError (rel_path * VerifiedPackage) * node :=
  match verify_with_format directory with
  | Ok verified =>
    let '(created, disk) := create_fresh_root disk path in
    match created with
    | Ok root =>
      let again :=
        asset ← asset_name;
        measured ← measure_archive later asset;
        let '(archive, size, sha256) := measured in
        _ ← refuse (negb (size =? vp_archive_size verified) || negb (bool_decide (sha256 = vp_archive_sha256 verified))) (Verification ArchiveChanged);
        Ok archive in
      match again with
      | Ok archive =>
        let '(r, disk) := extract_payload_archive root ex_fails create_mode (manifest_contract (vp_manifest verified)) (rq_prefixes inputs) json
                            (mkInput (Some (true, len archive)) archive) disk in
        (_ ← r; _ ← verify_extracted_tree disk root (vp_manifest verified); Ok (root, verified), disk)
      | Err e => (Err e, disk)
      | Stuck => (Stuck, disk)
      end
    | Err e => (Err e, disk)
    | Stuck => (Stuck, disk)
    end
  | Err e => (Err e, disk)
  | Stuck => (Stuck, disk)
  end.
End package_set.
