(* ===== verification/PackageSetSpecs.v ===== *)
(** * PackageSetSpecs: what verification accepts, extraction writes

    The extracting consumer simulates the verifying one: when no system call
    fails of itself, it takes every member that verification has taken, with the
    same digests.  So a verified package extracts, and its tree on disk passes
    the checks that follow. *)

From S2P Require Import Prelude Text Digest StateRes Ordered Publication PayloadPath ArchiveTypes ToolchainManifest ProducerInputs PackageIdentity.
From S2P Require Import PrefixScan TarWriter TarReader PayloadTree Packaging ArchiveScan ArchiveSafety.
From S2P Require Import ArchiveReadback Extraction ExtractionSpecs ExtractionTotal ToolLayout PackageSet.

(** ** The simulation *)
Section simulation.
Context {H : Sha256} {U : UnicodeFold} (contract : PayloadArchiveContract) (prefixes : list (list Z)).
Context (root : rel_path) (create_mode : Z) (disk : node) (Hroot : is_dir disk root).

Definition tracked (log : list log_item) (s : extraction) : Prop :=
  extracted (declares prefixes) root disk log s /\ forall d, d ∈ ex_directories s <-> declared log d.

Lemma new_item_room log x s : new_item contract log x -> tracked log s -> room root x.1 s.
Proof.
  intros (Hlog & (Hp & Hne & _ & (k & Ek & Hnew) & Hd) & _) [ (kids & Es & Hwf & Hrep) Hdirs]. pose proof (can_put_root root disk Hroot) as Hcan.
  split_and!; [done|by apply Hdirs| |].
  - unfold is_dir. rewrite Es, node_at_put by done. destruct Hd as [->|Hd]; [by eexists|].
    destruct (rep_declared _ _ _ Hrep _ _ Hd) as (m & Hm & Hdecl). destruct m; try done. eauto.
  - rewrite Es, node_at_put by done. destruct (node_at (Dir kids) x.1) as [m|] eqn:E; [|done]. exfalso.
    destruct (rep_only _ _ _ Hrep _ _ Hne E) as [y Hy]. by apply (Hnew _ Hy).
Qed.

Lemma tracked_made log p x n s s' : tracked log s -> made root p n s s' -> leaf n -> tree_wf n -> declares prefixes p x n ->
  ex_directories s' = (match x with LDir => [p] | _ => [] end) ++ ex_directories s -> tracked (log ++ [(p, x)]) s'.
Proof.
  intros [Hex Hdirs] Hm Hleaf Hwf Hc Ed. split; [eapply extracted_made; [apply declares_dir|done..]|].
  intros d. rewrite Ed, elem_of_app, Hdirs. unfold declared. rewrite elem_of_app, list_elem_of_singleton.
  destruct x; cbn; rewrite ?list_elem_of_singleton, ?elem_of_nil; naive_solver.
Qed.

(** What the verifying consumer found out about a file. *)
Lemma hashed reads size sha : hash_entry_with_output (C:=unit) reads size prefixes None tt = (Ok sha, tt) ->
  exists data, stream reads = Some data /\ len data = size /\ size <= u64_max /\ sha = sha256_bytes data /\
    forallb (fun q => bool_decide (is_Some (from_utf8 q))) prefixes = true /\ any_needle (filter (fun n => n <> []) prefixes) data = false.
Proof.
  unfold hash_entry_with_output. intros (needles & [] & [Hn _]%lift_Ok & Hrun)%SR_bind_Ok.
  pose proof (prefix_needles_all_utf8 _ _ _ Hn) as Hu. apply prefix_needles_Ok in Hn as [-> Hne].
  pose proof (hash_entry_loop_bound None _ _ _ _ _ _ _ _ _ (ltac:(done) : 0 <= u64_max) Hrun) as Hmax.
  set (ns := filter _ prefixes) in *. pose proof (any_needle_nil _ Hne) as Hnil.
  destruct (hash_entry_loop_Ok None ns Hne (fun _ => tt) size reads (fun _ _ s' _ => match s' with tt => eq_refl end) [] sha tt Hnil)
    as (data & Hs & Hl & Hany & -> & _); [by rewrite keep_overlap_nil|]. by exists data.
Qed.

Lemma extracting_simulates :
  @consumer_simulates U contract prefixes unit extraction VerifyingArchiveConsumer (ExtractingArchiveConsumer root no_failure create_mode)
    (fun log _ s => tracked log s).
Proof.
  split; cbn [consume_directory consume_symlink consume_regular consume_manifest ExtractingArchiveConsumer VerifyingArchiveConsumer].
  - intros log p _ _ s Hn HR _. destruct (create_directory_runs root p s (new_item_room _ _ _ Hn HR)) as [s' Hrun].
    exists s'. split; [done|]. apply create_directory_made in Hrun as [Hm Ed].
    eapply tracked_made; [done|done|done|by repeat constructor|done|done].
  - intros log p t _ _ s Hn HR _. destruct (extract_symlink_runs root p t s (new_item_room _ _ _ Hn HR)) as [s' Hrun].
    exists s'. split; [done|]. apply extract_symlink_made in Hrun as [Hm Ed].
    eapply tracked_made; [done|done|done|by constructor|done|done].
  - intros log p mode reads size sha [] [] s Hn HR (data & Hs & <- & Hmax & -> & Hu & Hany)%hashed.
    pose proof (new_item_room _ _ _ Hn HR) as Hroom. destruct Hn as (_ & _ & [Hmode _]). cbn in Hmode.
    assert (exists m, file_mode mode m /\ (if eqb_list mode (rs "0644") then Ok m0644
      else if eqb_list mode (rs "0755") then Ok m0755 else Err (Verification NoncanonicalFileMode)) = Ok m) as (m & Hfm & Em).
    { destruct Hmode as [->| ->]; [exists m0644|exists m0755]; (split; [|done]); [by left|by right]. }
    destruct (write_regular_runs root create_mode p m reads data prefixes s Hroom Hs Hmax Hu Hany) as [s' Hrun]. exists s'. split.
    + unfold extract_regular. by rewrite (lift_bind _ _ m).
    + apply write_regular_made in Hrun as (dt & Hs' & _ & _ & _ & Hm & Ed). rewrite Hs in Hs'. injection Hs' as <-.
      eapply tracked_made; [done|done|done|by constructor| |done]. done.
  - intros log p reads size bytes [] [] s Hn HR [Hread _]%lift_Ok.
    destruct (extract_manifest_runs root create_mode p reads size bytes s (new_item_room _ _ _ Hn HR) Hread) as [s' Hrun].
    exists s'. split; [done|]. apply extract_manifest_made in Hrun as (Hl & Hm & Ed).
    eapply tracked_made; [done|done|done|by constructor|done|done].
Qed.
End simulation.

(** ** The tree of an accepted archive *)
Section holds.
Context {H : Sha256} {U : UnicodeFold} (contract : PayloadArchiveContract) (prefixes : list (list Z)).
Context (json : list (list Z * json_value) -> option (list Z)).

Definition holds_archive (tree : ArchiveTree) (kids : list (list Z * node)) : Prop :=
  exists log path size, tree_wf (Dir kids) /\ well_formed_log contract log /\ represents (declares prefixes) log (Dir kids) /\
    entries tree = omap item_entry log /\ (path, LManifest size (embedded_manifest tree)) ∈ log /\
    toolchain_inventory_sha256 json (entries tree) = Ok (tree_sha256 tree) /\
    (forall b, toolchain_tools tree = Some b -> captured log b).

Lemma holds_manifest tree kids : holds_archive tree kids ->
  exists path, components (utf8 (manifest_file contract)) = map Normal path /\ node_at (Dir kids) path = Some (File m0644 (embedded_manifest tree)) /\
    forall p mode data, node_at (Dir kids) p = Some (File mode data) -> p <> path ->
      (mode = m0644 \/ mode = m0755) /\ any_needle (filter (fun n => n <> []) prefixes) data = false.
Proof.
  intros (log & path & size & Hk & Hlog & Hrep & He & Hman & Hd & _).
  pose proof (manifest_components contract log Hlog path size _ Hman) as Hpath. exists path. split_and!; [done| |].
  - destruct (rep_declared _ _ _ Hrep _ _ Hman) as ([mode data| | |] & Hat & Hdecl); try done. cbn in Hdecl. destruct Hdecl as (-> & -> & _). done.
  - intros p mode data Hat Hne. assert (p <> []) as Hp by (by intros ->).
    destruct (rep_only _ _ _ Hrep _ _ Hp Hat) as [x Hx]. destruct (rep_declared _ _ _ Hrep _ _ Hx) as (m & Hm & Hdecl).
    rewrite Hat in Hm. injection Hm as <-. destruct x as [|t|text sz sha reads|sz bytes]; try done.
    + destruct Hdecl as ([ [_ ->]|[_ ->] ] & _ & _ & _ & Hany); auto.
    + destruct Hne. pose proof (item_text_path contract log Hlog _ _ Hx) as (_ & _ & [_ Hp'] & _). cbn in Hp'. rewrite Hpath in Hp'.
      by apply map_Normal_inj.
Qed.

Lemma holds_inventory tree kids : holds_archive tree kids ->
  toolchain_tree_inventory_excluding (fun _ _ => false) (fun _ => Measured) json (Dir kids) [utf8 (manifest_file contract)] =
    Ok (tree_sha256 tree, entries tree).
Proof.
  intros (log & path & size & Hk & Hlog & Hrep & He & Hman & Hd & _). rewrite He in Hd |- *. by eapply inventory_of_log.
Qed.

Lemma holds_listed tree kids : holds_archive tree kids -> Forall (listed (Dir kids)) (entries tree).
Proof.
  intros (log & path & size & Hk & Hlog & Hrep & He & Hman & _).
  rewrite He. apply Forall_forall. intros e ([p x] & Hx & Ee)%list_elem_of_omap.
  destruct (item_text_path contract log Hlog _ _ Hx) as (Hp & Hne & Hok & _). destruct (rep_declared _ _ _ Hrep _ _ Hx) as (m & Hm & Hdecl).
  exists p, m. split_and!; [done|done|done| |].
  - enough (p <> path) as Hneq by (destruct (node_entry_item contract prefixes log kids Hlog Hrep path size _ Hman _ _ _ Hx Hm Hneq) as [_ E]; congruence).
    intros ->. rewrite (log_functional contract log Hlog _ _ _ Hx Hman) in Ee. done.
  - destruct m as [| |t|]; try done; [|by destruct x]. destruct x as [|t'| |]; try done. cbn in Hdecl. subst t'. destruct Hok as (_ & ? & _). done.
Qed.

Lemma holds_tools tree kids b : holds_archive tree kids -> toolchain_tools tree = Some b ->
  exists mode, node_at (Dir kids) [TOOLCHAIN_TOOLS_FILE] = Some (File mode b).
Proof.
  intros (log & path & size & Hk & Hlog & Hrep & _ & _ & _ & Htools) (p & mode & sz & sha & Hp & Hin)%Htools.
  assert (p = [TOOLCHAIN_TOOLS_FILE]) as -> by by apply map_Normal_inj.
  destruct (rep_declared _ _ _ Hrep _ _ Hin) as ([m data| | |] & Hat & Hdecl); try done.
  destruct Hdecl as (_ & Hs & _). exists m. rewrite Hat. do 2 f_equal. destruct b; cbn in Hs; [by injection Hs|].
  injection Hs as <-. by rewrite app_nil_r.
Qed.

(** ** Extraction leaves such a tree *)
Context {T : TarXz} (root : rel_path) (create_mode : Z) (disk : node).

Lemma extracted_start X (R : rel_path -> X -> node -> Prop) : node_at disk root = Some (Dir []) -> tree_wf disk ->
  extracted R root disk [] (mkExtraction disk [ [] ]).
Proof.
  intros Hempty Hwf. exists []. split_and!; [cbn; by rewrite put_at_same|repeat constructor|]. split.
  - intros p x []%elem_of_nil.
  - intros [|name p] m Hne; done.
Qed.

Lemma extraction_holds ex_fails input tree disk' : node_at disk root = Some (Dir []) -> tree_wf disk ->
  extract_payload_archive root ex_fails create_mode contract prefixes json input disk = (Ok tree, disk') ->
  is_dir disk root /\ exists kids, disk' = put_at disk root (Dir kids) /\ holds_archive tree kids.
Proof.
  intros Hempty Hwf. unfold extract_payload_archive. destruct (_ || _); [done|].
  assert (is_dir disk root) as Hroot by by eexists. intros Hrun. split; [done|].
  destruct (scan_archive contract prefixes json input (mkExtraction disk [ [] ])) as [r s] eqn:Es. injection Hrun as -> <-.
  destruct (scan_archive_log contract prefixes _ json input (mkExtraction disk [ [] ]) tree s (extracting_keeps prefixes contract root ex_fails create_mode disk Hroot))
    as (log & Hlog & (kids & Ed & Hk & Hrep) & He & (path & size & Hman) & _ & _ & Hd & Ht); [by apply extracted_start|exact Es|].
  exists kids. split; [done|]. by exists log, path, size.
Qed.

(** What was verified is extracted, when no system call fails of itself. *)
Lemma verified_extracts input tree u : node_at disk root = Some (Dir []) -> tree_wf disk ->
  scan_archive (C:=unit) contract prefixes json input tt = (Ok tree, u) ->
  exists kids, extract_payload_archive root no_failure create_mode contract prefixes json input disk = (Ok tree, put_at disk root (Dir kids)) /\
    holds_archive tree kids.
Proof.
  intros Hempty Hwf Hrun. assert (is_dir disk root) as Hroot by by eexists.
  destruct (scan_archive_sim contract prefixes _ (extracting_simulates contract prefixes root create_mode disk Hroot) json input tt tree u (mkExtraction disk [ [] ]))
    as (log & s & Hrun' & Hlog & [ (kids & Ed & Hk & Hrep) _] & He & (path & size & Hman) & _ & _ & Hd & Ht); [|exact Hrun|].
  { split; [by apply extracted_start|]. intros d. cbn. rewrite list_elem_of_singleton. unfold declared. set_solver. }
  exists kids. split; [|by exists log, path, size]. unfold extract_payload_archive. rewrite (proj2 (open_directory_true _ _) Hroot). cbn [no_failure orb negb].
  by rewrite Hrun', Ed.
Qed.
End holds.

(** ** Package sets *)
Section package_set.
Context {H : Sha256} {U : UnicodeFold} {T : TarXz} {S : PackageSerde} {L : ToolsSerde}.
Context (json : list (list Z * json_value) -> option (list Z)) (request : verification_request) (format : PackageFormat).
Abbreviation inputs := (vr_inputs request).

Lemma open_regular_Some d p data : open_regular d p = Some data <-> exists mode, node_at d p = Some (File mode data).
Proof. unfold open_regular. repeat case_match; naive_solver. Qed.

Lemma decode_manifest_Some bytes m : decode_manifest bytes = Some m <-> json_manifest bytes = Some m /\ validate_manifest m = Ok tt.
Proof.
  unfold decode_manifest. destruct (json_manifest bytes) as [m'|]; cbn; [|by split; [|intros [? _] ] ].
  destruct (validate_manifest m') as [[]| |] eqn:E; cbn; (split; [intros Hm|intros [Hm Hv] ]); try (injection Hm as ->); try done; congruence.
Qed.

(** A manifest with the requested identity has the compiler of the request. *)
Lemma manifest_identity_family m : verify_manifest_identity request format m = Ok tt -> is_gnu (m_compiler m) = true ->
  sl_family (rq_source_lock inputs) = Gnu.
Proof.
  unfold verify_manifest_identity. cbv zeta. intros (? & _ & Hv)%bind_Ok Hg.
  apply bind_Ok in Hv as (identity & Hid%map_err_Ok & Hv). apply bind_Ok in Hv as (selected & Hs & Hv%refuse_Ok).
  rewrite !orb_false_iff in Hv. destruct Hv as [ [E%negb_false_iff%bool_decide_eq_true _] _]. subst selected.
  unfold compiler_identity, normalized_compiler_identity in Hid. destruct (m_compiler m) as [c|]; [|done]. cbn in Hg.
  assert (identity = c) as -> by (destruct (m_llvm_version m); [done|by injection Hid as <-]). destruct c as [|g b t]; [done|].
  unfold compiler_identity_for_format in Hs. apply bind_Ok in Hs as (? & _ & Hs). apply bind_Ok in Hs as (i & Hi & Hs).
  apply bind_Ok in Hs as (? & _ & [= ->]). unfold compiler_identity_of in Hi. apply bind_Ok in Hi as (? & _ & Hi).
  apply bind_Ok in Hi as (i & Hi & (? & _ & [= ->])%bind_Ok). by destruct (sl_family (rq_source_lock inputs)).
Qed.

(** What a verified set is. *)
Lemma verify_with_format_Ok directory v : verify_with_format json request format directory = Ok v ->
  exists asset archive manifest_bytes tree, asset_name request format = Ok asset /\
    measure_archive directory asset = Ok (archive, vp_archive_size v, vp_archive_sha256 v) /\
    open_regular directory [utf8 (manifest_name asset)] = Some manifest_bytes /\ decode_manifest manifest_bytes = Some (vp_manifest v) /\
    scan_archive (C:=unit) (manifest_contract (vp_manifest v)) (rq_prefixes inputs) json (mkInput (Some (true, len archive)) archive) tt = (Ok tree, tt) /\
    embedded_manifest tree = manifest_bytes /\ entries tree = m_files (vp_manifest v) /\ tree_sha256 tree = m_tree_sha256 (vp_manifest v) /\
    forall compiler, m_compiler (vp_manifest v) = Some compiler -> is_gnu (Some compiler) = true ->
      exists tools, toolchain_tools tree = Some tools /\ validate_archive tools compiler (m_target_triple (vp_manifest v)) (entries tree) = Ok tt.
Proof.
  unfold verify_with_format. intros (? & _ & (asset & Ha & (? & _ & Hv)%bind_Ok)%bind_Ok)%bind_Ok. unfold verify_members_validated in Hv.
  apply bind_Ok in Hv as ([ [archive size] sha] & Hm & Hv). cbv zeta in Hv.
  apply bind_Ok in Hv as (? & _ & Hv). apply bind_Ok in Hv as (? & _ & Hv).
  apply bind_Ok in Hv as (mb & Hmb & Hv). apply bind_Ok in Hv as (m & Hdec%ok_or_Ok & Hv).
  apply bind_Ok in Hv as ([] & Hval%map_err_Ok & Hv). apply bind_Ok in Hv as ([] & Hid & Hv).
  apply bind_Ok in Hv as (? & _ & Hv). apply bind_Ok in Hv as (? & _ & Hv). apply bind_Ok in Hv as (? & _ & Hv).
  apply bind_Ok in Hv as (tree & Htree & Hv). apply bind_Ok in Hv as (? & Hcmp & Hv). apply bind_Ok in Hv as (u & Hgnu & [= <-]).
  exists asset, archive, mb, tree. cbn [vp_archive_size vp_archive_sha256 vp_manifest].
  unfold read_metadata in Hmb. apply bind_Ok in Hmb as (data & Hopen%ok_or_Ok & Hmb). apply refuse_bind_Ok in Hmb as [_ [= <-] ].
  unfold compare_manifest in Hcmp. apply refuse_bind_Ok in Hcmp as [E1%negb_false_iff%bool_decide_eq_true Hcmp%refuse_Ok].
  apply orb_false_iff in Hcmp as [E2%negb_false_iff%bool_decide_eq_true E3%negb_false_iff%bool_decide_eq_true].
  unfold verify_archive_tree in Htree. destruct (scan_archive _ _ _ _ _) as [r []] eqn:Es. cbn in Htree. subst r.
  split_and!; try done; [by apply decode_manifest_Some|]. intros compiler Hc Hg. rewrite bool_decide_eq_true_2 in Hgnu.
  2: { apply (manifest_identity_family m Hid). by rewrite Hc. }
  rewrite Hc in Hgnu. cbn [ok_or mbind res_bind] in Hgnu. apply bind_Ok in Hgnu as (tools & Htools%ok_or_Ok & Hgnu). exists tools. by destruct u.
Qed.

Lemma bound_tools_Ok bytes compiler triple tools : bound_tools bytes compiler triple = Ok tools -> Forall (fun role => validate_tool_path role.2 = Ok tt) (roles tools).
Proof.
  unfold bound_tools. intros (layout & Hp & (? & _ & [= <-])%bind_Ok)%bind_Ok. unfold parse_layout in Hp.
  apply bind_Ok in Hp as (? & _ & Hp). apply bind_Ok in Hp as (record & _ & Hp).
  destruct (match record with ToolsV1 _ _ _ => _ | _ => _ end) as [ [ [version compiler'] triple'] tools].
  apply bind_Ok in Hp as (? & _ & Hp). apply bind_Ok in Hp as (? & _ & Hp). apply bind_Ok in Hp as (? & _ & Hp).
  apply bind_Ok in Hp as (? & Hpaths & [= <-]). cbn [ly_tools]. clear -Hpaths.
  induction (roles tools) as [|role rest IH]; [constructor|]. cbn [foldM] in Hpaths. apply bind_Ok in Hpaths as ([] & Hr%map_err_Ok & Hpaths).
  constructor; [done|by apply IH].
Qed.

(** The tree of an accepted archive passes the checks after extraction. *)
Lemma extracted_tree_verifies disk root m tree kids prefixes :
  node_at disk root = Some (Dir kids) -> holds_archive (manifest_contract m) prefixes json tree kids ->
  decode_manifest (embedded_manifest tree) = Some m -> entries tree = m_files m -> tree_sha256 tree = m_tree_sha256 m ->
  len (embedded_manifest tree) <= MAX_MANIFEST_BYTES -> is_Some (from_utf8 (embedded_manifest tree)) ->
  (forall compiler, m_compiler m = Some compiler -> is_gnu (Some compiler) = true ->
     exists tools, toolchain_tools tree = Some tools /\ validate_archive tools compiler (m_target_triple m) (entries tree) = Ok tt) ->
  node_at (Dir kids) [AROS_TOOLCHAIN_MANIFEST_FILE] = Some (File m0644 (embedded_manifest tree)) /\
  toolchain_tree_inventory (fun _ _ => false) (fun _ => Measured) json (Dir kids) = Ok (m_tree_sha256 m, m_files m) /\
  verify_extracted_tree json (fun _ _ => false) (fun _ => Measured) disk root m = Ok tt.
Proof.
  intros Hat Hh Hdec He Hd Hmax [text Htext] Hgnu. destruct (holds_manifest _ _ _ _ _ Hh) as (path & Hpath & Hman & _).
  assert (path = [AROS_TOOLCHAIN_MANIFEST_FILE]) as -> by (apply map_Normal_inj; by rewrite <- Hpath).
  pose proof (holds_inventory _ _ _ _ _ Hh) as Hinv. rewrite He, Hd in Hinv.
  change (toolchain_tree_inventory (fun _ _ => false) (fun _ => Measured) json (Dir kids) = Ok (m_tree_sha256 m, m_files m)) in Hinv.
  split_and!; [done|done|]. unfold verify_extracted_tree.
  assert (load_manifest disk root = Some m) as ->.
  { unfold load_manifest. rewrite (proj2 (open_regular_Some disk (root ++ [AROS_TOOLCHAIN_MANIFEST_FILE]) (embedded_manifest tree)))
      by (exists m0644; by rewrite node_at_app, Hat).
    cbn [mbind option_bind]. rewrite (proj2 (Z.ltb_ge _ _) Hmax), Htext. done. }
  cbn [ok_or mbind res_bind]. rewrite (bool_decide_eq_true_2 (m = m)) by done. cbn [negb refuse mbind res_bind]. rewrite Hat. cbn [ok_or mbind res_bind].
  rewrite Hinv. cbn [map_err mbind res_bind fst snd]. rewrite (bool_decide_eq_true_2 (m_tree_sha256 m = m_tree_sha256 m)), (bool_decide_eq_true_2 (m_files m = m_files m)) by done. cbn [negb orb refuse mbind res_bind].
  destruct (m_compiler m) as [ [v|g b target]|]; [done| |done]. destruct (Hgnu _ eq_refl eq_refl) as (bytes & Htools & Hval). clear Hgnu.
  unfold validate_archive in Hval. apply bind_Ok in Hval as (tools & Hparse & Hval). pose proof Hparse as Hp%map_err_Ok%bound_tools_Ok.
  apply map_err_Ok in Hval. destruct (holds_tools _ _ _ _ _ _ Hh Htools) as [mode Hfile].
  unfold validate_root. rewrite (proj2 (open_directory_true disk root)) by by eexists. cbn [negb refuse mbind res_bind].
  rewrite (proj2 (open_regular_Some disk (root ++ [TOOLCHAIN_TOOLS_FILE]) bytes)) by (exists mode; by rewrite node_at_app, Hat).
  cbn [ok_or mbind res_bind]. rewrite Hparse. cbn [mbind res_bind].
  rewrite (tools_found (entries tree) (Dir kids) disk root Hat (holds_listed _ _ _ _ _ Hh) tools tt); [done|by eexists|done|done].
Qed.
End package_set.
