(* ===== verification/PackageTheorems.v ===== *)
(** * PackageTheorems: what packaging, verifying and extracting promise

    The theorems run on a small reader of uncompressed ustar archives, an
    instance of [TarXz] of which the laws [TarXzLaws] are proved: they can be
    met. *)

From S2P Require Import Prelude Text Digest Publication Ordered StateRes PayloadPath ArchiveTypes PrefixScan.
From S2P Require Import TarWriter TarReader PayloadTree Packaging ArchiveScan ArchiveSafety Extraction ExtractionSpecs ArchiveMembers.
From S2P Require Import ArchiveReadback ExtractionTotal PackageSpecs ToolLayout PackageSetSpecs.

(** ** A reader of ustar archives *)
Definition octal (field : list Z) : option Z := digits_value 8 0 (until_nul field).

Fixpoint read_members (fuel : nat) (bytes : list Z) : option (list (option tar_entry) * list Z) :=
  match fuel with
  | O => None
  | S fuel =>
    if len bytes <? 512 then None
    else
      let h := take 512 bytes in
      if forallb (Z.eqb 0) h then Some ([], drop 512 bytes)
      else
        size ← octal (slice h 124 136);
        let after := drop 512 bytes in
        rest ← read_members fuel (drop (Z.to_nat (size + (- size) mod 512)) after);
        Some (Some (mkTarEntry h size [Some (take (Z.to_nat size) after)]) :: rest.1, rest.2)
  end.

Definition ustar : TarXz := {|
  open_archive file := r ← read_members (S (length file)) file; Some (mkStream (Some r.1) [Some r.2] (len file));
  xz_encode bytes := bytes;
  path_bytes h := until_nul (slice h 0 100);
  link_name_bytes h := let field := slice h 157 257 in
    if bool_decide (head field = Some 0) then None else Some (until_nul field);
  entry_type h := default 0 (get_at h 156);
  is_ustar h := eqb_list (slice h 257 263) (rs "ustar" ++ [0]);
  header_size h := octal (slice h 124 136);
  header_mode h := octal (slice h 100 108);
  header_uid h := octal (slice h 108 116);
  header_gid h := octal (slice h 116 124);
  header_mtime h := octal (slice h 136 148);
|}.

Lemma octal_field_octal ds n v : octal_field ds n v -> octal (ds ++ [0]) = Some v.
Proof.
  intros (_ & Hd & Hv). unfold octal, until_nul.
  rewrite (position_app (Z.eqb 0) ds 0 []); [|eapply Forall_impl; [exact Hd|]; intros c [? ?]; apply Z.eqb_neq; lia|done].
  cbn [fmap option_fmap option_map default]. rewrite slice_prefix. unfold len. rewrite Nat2Z.id, take_app_length. done.
Qed.

Section block.
Context (f : header_fields) (Hf : wf_block f).

(** Where the fields of a block are. *)
Lemma block_slice p x q a b : header_block f = p ++ x ++ q -> len p = a -> len x = b - a -> slice (header_block f) a b = x.
Proof. intros -> Hp Hx. apply slice_app_mid; lia. Qed.

Lemma block_fields :
  slice (header_block f) 0 100 = hf_name f /\ slice (header_block f) 100 108 = hf_mode f ++ [0] /\
  slice (header_block f) 108 116 = hf_uid f ++ [0] /\ slice (header_block f) 116 124 = hf_gid f ++ [0] /\
  slice (header_block f) 124 136 = hf_size f ++ [0] /\ slice (header_block f) 136 148 = hf_mtime f ++ [0] /\
  slice (header_block f) 157 257 = hf_target f /\ slice (header_block f) 257 263 = rs "ustar" ++ [0] /\
  get_at (header_block f) 156 = Some (hf_kind f) /\ len (header_block f) = 512.
Proof.
  pose proof Hf as (Hn & Ht & _ & (? & Hm & _) & (? & Hu & _) & (? & Hg & _) & (? & Hs & _) & (? & Ht' & _) & (Hc & _)).
  assert (len [0] = 1) as H1 by done. assert (len [32] = 1) as H32 by done. assert (len [hf_kind f] = 1) as Hk by done.
  set (A := hf_name f) in *. set (B := hf_mode f ++ [0]). set (C := hf_uid f ++ [0]). set (D := hf_gid f ++ [0]).
  set (E := hf_size f ++ [0]). set (F := hf_mtime f ++ [0]). set (G := hf_checksum f ++ [0]).
  assert (len B = 8) as HB by (unfold B; rewrite len_app; lia). assert (len C = 8) as HC by (unfold C; rewrite len_app; lia).
  assert (len D = 8) as HD by (unfold D; rewrite len_app; lia). assert (len E = 12) as HE by (unfold E; rewrite len_app; lia).
  assert (len F = 12) as HF by (unfold F; rewrite len_app; lia). assert (len G = 7) as HG by (unfold G; rewrite len_app; lia).
  set (M := rs "ustar" ++ [0]). assert (len M = 6) as HM by done. set (V := rs "00" ++ fill 247 0). assert (len V = 249) as HV by done.
  assert (header_block f = A ++ B ++ C ++ D ++ E ++ F ++ G ++ [32] ++ [hf_kind f] ++ hf_target f ++ M ++ V) as Eb.
  { unfold header_block, A, B, C, D, E, F, G, M, V. rewrite <- !app_assoc. done. }
  assert (forall p x q a b, header_block f = p ++ x ++ q -> len p = a -> len x = b - a -> slice (header_block f) a b = x) as Hsl
    by exact block_slice.
  split_and!.
  - apply (Hsl [] _ (B ++ C ++ D ++ E ++ F ++ G ++ [32] ++ [hf_kind f] ++ hf_target f ++ M ++ V)); [done|done|lia].
  - apply (Hsl A _ (C ++ D ++ E ++ F ++ G ++ [32] ++ [hf_kind f] ++ hf_target f ++ M ++ V)); [done|lia|lia].
  - apply (Hsl (A ++ B) _ (D ++ E ++ F ++ G ++ [32] ++ [hf_kind f] ++ hf_target f ++ M ++ V)); [by rewrite Eb, <- !app_assoc|rewrite !len_app; lia|lia].
  - apply (Hsl (A ++ B ++ C) _ (E ++ F ++ G ++ [32] ++ [hf_kind f] ++ hf_target f ++ M ++ V)); [by rewrite Eb, <- !app_assoc|rewrite !len_app; lia|lia].
  - apply (Hsl (A ++ B ++ C ++ D) _ (F ++ G ++ [32] ++ [hf_kind f] ++ hf_target f ++ M ++ V)); [by rewrite Eb, <- !app_assoc|rewrite !len_app; lia|lia].
  - apply (Hsl (A ++ B ++ C ++ D ++ E) _ (G ++ [32] ++ [hf_kind f] ++ hf_target f ++ M ++ V)); [by rewrite Eb, <- !app_assoc|rewrite !len_app; lia|lia].
  - apply (Hsl (A ++ B ++ C ++ D ++ E ++ F ++ G ++ [32] ++ [hf_kind f]) _ (M ++ V)); [by rewrite Eb, <- !app_assoc|rewrite !len_app; lia|lia].
  - apply (Hsl (A ++ B ++ C ++ D ++ E ++ F ++ G ++ [32] ++ [hf_kind f] ++ hf_target f) _ V); [by rewrite Eb, <- !app_assoc|rewrite !len_app; lia|lia].
  - replace (header_block f) with ((A ++ B ++ C ++ D ++ E ++ F ++ G ++ [32]) ++ hf_kind f :: hf_target f ++ M ++ V) by (rewrite Eb, <- !app_assoc; done).
    apply get_at_mid. rewrite !len_app. lia.
  - rewrite Eb, !len_app. lia.
Qed.

(** A header block is not a block of zeros. *)
Lemma block_not_zero : forallb (Z.eqb 0) (header_block f) = false.
Proof.
  apply not_true_iff_false. intros Hz. rewrite forallb_forall in Hz.
  destruct block_fields as (_ & _ & _ & _ & _ & _ & _ & Hm & _).
  assert (117 ∈ header_block f) as Hin.
  { assert (117 ∈ slice (header_block f) 257 263) as Hs by (rewrite Hm; by left).
    unfold slice in Hs. eapply elem_of_sublist; [exact Hs|]. etrans; [apply sublist_take|apply sublist_drop]. }
  apply list_elem_of_In, Hz in Hin. done.
Qed.
End block.

(** ** Members *)
Lemma take_drop_block (h q : list Z) : len h = 512 -> take 512 (h ++ q) = h /\ drop 512 (h ++ q) = q.
Proof. unfold len. intros Hl. split; [by apply take_app_length'; lia|apply drop_app_length'; lia]. Qed.

Lemma read_member_step fuel m q : wf_member m ->
  read_members (S fuel) (member_bytes m ++ q) =
  (rest ← read_members fuel q; Some (Some (mkTarEntry (header_block m.1) (len m.2) [Some m.2]) :: rest.1, rest.2)).
Proof.
  intros [Hf Hs]. destruct (block_fields m.1 Hf) as (_ & _ & _ & _ & Hsize & _ & _ & _ & _ & Hl).
  unfold member_bytes. rewrite <- !app_assoc. destruct (take_drop_block (header_block m.1) (m.2 ++ padding (len m.2) ++ q) Hl) as [Et Ed].
  cbn [read_members]. rewrite Et, Ed, (block_not_zero _ Hf), Hsize, (octal_field_octal _ _ _ Hs).
  rewrite (proj2 (Z.ltb_ge _ _)) by (rewrite len_app, Hl; pose proof (len_nonneg (m.2 ++ padding (len m.2) ++ q)); lia).
  cbn [mbind option_bind]. pose proof (len_nonneg m.2). pose proof (Z.mod_pos_bound (- len m.2) 512 ltac:(lia)).
  assert (drop (Z.to_nat (len m.2 + (- len m.2) mod 512)) (m.2 ++ padding (len m.2) ++ q) = q) as ->.
  { rewrite app_assoc. apply drop_app_length'. rewrite length_app.
    assert (len (padding (len m.2)) = (- len m.2) mod 512) as Hp by (unfold padding; by rewrite len_fill by lia). unfold len in *. lia. }
  assert (take (Z.to_nat (len m.2)) (m.2 ++ padding (len m.2) ++ q) = m.2) as ->; [|done].
  unfold len. rewrite Nat2Z.id. apply take_app_length.
Qed.

Lemma read_members_all ms rest : Forall wf_member ms -> forall fuel, (length ms < fuel)%nat ->
  read_members fuel (concat (map member_bytes ms) ++ fill 512 0 ++ rest) =
    Some (map (fun m => Some (mkTarEntry (header_block m.1) (len m.2) [Some m.2])) ms, rest).
Proof.
  induction 1 as [|m ms Hm Hms IH]; intros fuel Hfuel; (destruct fuel as [|fuel]; [cbn in Hfuel; lia|]).
  - cbn [map concat app]. cbn [read_members]. destruct (take_drop_block (fill 512 0) rest eq_refl) as [-> ->].
    rewrite (proj2 (Z.ltb_ge _ _)) by (rewrite len_app; change (len (fill 512 0)) with 512; pose proof (len_nonneg rest); lia). done.
  - cbn [map concat]. rewrite <- app_assoc, read_member_step by done. rewrite IH by (cbn in Hfuel; lia). done.
Qed.

Lemma members_count ms : Forall wf_member ms -> (length ms <= length (concat (map member_bytes ms)))%nat.
Proof.
  induction 1 as [|m ms [Hf _] Hms IH]; [done|]. cbn [map concat]. rewrite length_app. cbn [length].
  destruct (block_fields m.1 Hf) as (_ & _ & _ & _ & _ & _ & _ & _ & _ & Hl). unfold member_bytes at 1. rewrite !length_app. unfold len in Hl. lia.
Qed.

#[export] Instance ustar_laws : TarXzLaws ustar.
Proof.
  split; cbn [path_bytes link_name_bytes entry_type is_ustar header_size header_mode header_uid header_gid header_mtime ustar xz_encode open_archive].
  1-9: intros f; intros; destruct (block_fields f ltac:(done)) as (E1 & E2 & E3 & E4 & E5 & E6 & E7 & E8 & E9 & _).
  - by rewrite E1.
  - by rewrite E7.
  - by rewrite E9.
  - rewrite E8. by apply bool_decide_eq_true.
  - rewrite E5. by eapply octal_field_octal.
  - rewrite E2. by eapply octal_field_octal.
  - rewrite E3. by eapply octal_field_octal.
  - rewrite E4. by eapply octal_field_octal.
  - rewrite E6. by eapply octal_field_octal.
  - intros ms rest Hms Hz. cbv zeta. set (file := concat (map member_bytes ms) ++ fill 512 0 ++ rest).
    pose proof (members_count ms Hms) as Hc.
    eexists _, _. rewrite (read_members_all ms rest Hms) by (unfold file; rewrite length_app; lia). cbn. split_and!; [done| |].
    + clear. induction ms as [|m ms IH]; constructor; [|done]. exists [Some m.2]. split; [done|]. destruct (m.2); [done|]. cbn. by rewrite app_nil_r.
    + destruct rest; [done|]. cbn. by rewrite app_nil_r.
Qed.

(** ** A candidate to run the theorems on *)
Definition no_failures : fs_call -> rel_path -> bool := fun _ _ => false.
Definition measured_all : rel_path -> measured := fun _ => Measured.
Definition read_at_once (p : rel_path) (data : list Z) : list (option (list Z)) := [Some data].
Definition takes_all (n : Z) : bool := true.
Definition plain_json (fields : list (list Z * json_value)) : option (list Z) :=
  Some (concat (map (fun f => f.1 ++ rs "=" ++ match f.2 with JString s => utf8 s | JNumber n => show_dec n end ++ rs ";") fields)).
Definition plain_manifest (digest : list Z) (es : list ArosToolchainManifestEntry) : res ContractError (list Z) :=
  Ok (concat (map (fun e => utf8 (entry_path e) ++ [10]) es)).

Definition no_layout (staged : node) : res ContractError unit := Ok tt.

Definition compiler_tree : node := Dir [
  (rs "bin", Dir [(rs "cc", File m0755 (rs "run")); (rs "gcc", Link (rs "cc")); (rs "ld", File 511 (rs "link"))]);
  (rs "lib", Dir [(rs "libgcc.a", File 384 (rs "archive")); (rs "so", Dir [])]);
  (rs "toolchain-manifest.json", File m0644 (rs "stale"))].

Lemma read_at_once_stream p data : stream (read_at_once p data) = Some data.
Proof. unfold read_at_once. destruct data; [done|]. cbn. by rewrite app_nil_r. Qed.

(** Trees with sorted names, decided. *)
Fixpoint sorted_tree (n : node) : bool :=
  match n with
  | Dir kids =>
    (fix sorted (kids : list (list Z * node)) : bool :=
       match kids with
       | [] => true
       | (name, kid) :: rest => sorted_tree kid && forallb (fun k => str_ltb name k.1) rest && sorted rest
       end) kids
  | _ => true
  end.
Lemma sorted_tree_wf n : sorted_tree n = true -> tree_wf n.
Proof.
  induction n as [mode data|target| |kids IH] using tree_ind; [constructor|constructor|constructor|]. intros Hs.
  enough (sorted_keys str_ltb kids /\ Forall (fun k => tree_wf k.2) kids) as [? ?] by by constructor.
  induction kids as [|[name kid] rest IHr]; [split; constructor|]. apply Forall_cons in IH as [IH IHs].
  cbn in Hs. rewrite !andb_true_iff in Hs. destruct Hs as [ [H1 H2] H3]. destruct (IHr IHs H3) as [Hsr Hwr].
  split; constructor; try done; [|by apply IH]. rewrite forallb_forall, <- List.Forall_forall in H2. exact H2.
Qed.

Definition compiler_package : packaged :=
  match @package_tree toy_sha256 ascii_fold ustar no_failures measured_all read_at_once takes_all plain_json plain_manifest no_layout
          compiler_tree [rs "/build"] 1700000000 with
  | Ok p => p
  | _ => mkPackaged Special [] [] [] []
  end.

Lemma compiler_package_Ok : @package_tree toy_sha256 ascii_fold ustar no_failures measured_all read_at_once takes_all plain_json plain_manifest no_layout
  compiler_tree [rs "/build"] 1700000000 = Ok compiler_package.
Proof. vm_compute. reflexivity. Qed.

(** ** Packages verify and extract to what was packaged *)

(** The archive that packaging a candidate produces is accepted by the
    verifier of its own format and agrees with the external manifest: the same
    embedded manifest, the same inventory, the same tree digest.  Assumed are the
    documented behaviour of the crates tar and xz2, files that read back as they
    are, and that the staged tree is within the reader's limits, which packaging
    does not check. *)
Theorem package_verifies {H : Sha256} {U : UnicodeFold} {T : TarXz} {L : TarXzLaws T} fails measure file_reads accepts json manifest layout
    candidate prefixes epoch gnu p :
  tree_wf candidate -> (forall q data, stream (file_reads q data) = Some data) -> 0 <= epoch ->
  package_tree fails measure file_reads accepts json manifest layout candidate prefixes epoch = Ok p ->
  within_limits (compiler_archive_contract epoch gnu) (archive_nodes (staged_root p)) = true ->
  len (archive_bytes p) <= MAX_ARCHIVE_BYTES ->
  exists tree,
    scan_archive (compiler_archive_contract epoch gnu) prefixes json
      (mkInput (Some (true, len (archive_bytes p))) (archive_bytes p)) tt = (Ok tree, tt) /\
    compare_manifest tree (manifest_bytes p) (files p) (files_sha256 p) = Ok tt.
Proof.
  intros Hwf Hreads Hepoch Hp Hw Hs. destruct (package_tree_Ok _ _ _ _ Hreads _ _ _ _ _ _ _ Hwf Hp) as [kids Hpk].
  rewrite (pk_root _ _ _ _ _ _ _ _ _ _ _ Hpk) in Hw. eexists. by eapply package_verified.
Qed.

Lemma package_verifies_witness : exists tree,
  @scan_archive toy_sha256 ascii_fold ustar unit (@VerifyingArchiveConsumer toy_sha256) (compiler_archive_contract 1700000000 true) [rs "/build"] plain_json
    (mkInput (Some (true, len (archive_bytes compiler_package))) (archive_bytes compiler_package)) tt = (Ok tree, tt) /\
  compare_manifest tree (manifest_bytes compiler_package) (files compiler_package) (files_sha256 compiler_package) = Ok tt.
Proof.
  apply (@package_verifies toy_sha256 ascii_fold ustar ustar_laws no_failures measured_all read_at_once takes_all plain_json plain_manifest no_layout
    compiler_tree [rs "/build"] 1700000000 true compiler_package).
  - by apply sorted_tree_wf.
  - exact read_at_once_stream.
  - done.
  - exact compiler_package_Ok.
  - vm_compute. reflexivity.
  - vm_compute. discriminate.
Defined.


Definition work_disk : node := Dir [(rs "etc", Dir [(rs "passwd", File m0644 (rs "root"))]); (rs "work", Dir [(rs "out", Dir [])])].


(** ** What staging ensures *)



(** ** Properties of a log *)
Lemma trivial_keeps {U : UnicodeFold} {C : Type} (consumer : ArchiveConsumer C) contract prefixes :
  consumer_keeps contract prefixes (fun _ (_ : C) => True).
Proof. done. Qed.

Lemma log_key_Ok {U : UnicodeFold} contract log : well_formed_log contract log ->
  Forall (fun x : log_item => payload_casefold_path_key (map Normal x.1) = Ok (path_key x.1)) log.
Proof.
  induction 1 as [|log x Hlog IH (_ & _ & _ & (k & Ek & _) & _) Hok]; [constructor|]. apply Forall_app. split; [done|].
  apply Forall_singleton. unfold path_key. by rewrite Ek.
Qed.

Lemma log_keys {U : UnicodeFold} contract log : well_formed_log contract log -> NoDup (map (fun x : log_item => path_key x.1) log).
Proof.
  induction 1 as [|log x Hlog IH (_ & _ & _ & (k & Ek & Hnew) & _) Hok]; [constructor|].
  rewrite map_app. apply NoDup_app. split_and!; [done| |apply NoDup_singleton]. unfold path_key at 2. cbn. rewrite Ek.
  intros k' Hk ->%list_elem_of_singleton. apply list_elem_of_In, in_map_iff in Hk as (y & Ey & Hy%list_elem_of_In).
  apply (Hnew y Hy). rewrite <- Ey. pose proof (log_key_Ok _ _ Hlog) as Hall. rewrite Forall_forall in Hall. by apply Hall.
Qed.

(** ** What an accepted archive is *)

(** C13. Whatever bytes it is given and whoever consumes the members, a scan that
    succeeds has read an inventory whose paths are portable, strictly ordered,
    distinct under case folding and each below a directory listed before it;
    whose links stay inside by their names and whose files have mode 0644 or
    0755; with one manifest of bounded size, within the limits of the contract
    on entries and bytes, and with the digest of exactly these entries. *)
Theorem accepted_archive {H : Sha256} {U : UnicodeFold} {T : TarXz} {C : Type} (consumer : ArchiveConsumer C) contract prefixes json input (s s' : C) tree :
  scan_archive contract prefixes json input s = (Ok tree, s') ->
  exists log, entries tree = omap item_entry log /\
    Forall (fun x => Forall portable_name x.1 /\ x.1 <> [] /\ item_ok contract x /\ declared log (removelast x.1)) log /\
    ForallOrdPairs (fun x y => str_ltb (item_text x) (item_text y) = true) log /\
    NoDup (map (fun x => path_key x.1) log) /\
    (exists path size, (path, LManifest size (embedded_manifest tree)) ∈ log) /\
    1 + len log <= max_entries contract /\ (total_size log = 0 \/ total_size log <= max_regular_file_bytes contract) /\
    toolchain_inventory_sha256 json (entries tree) = Ok (tree_sha256 tree).
Proof.
  intros Hrun. destruct (scan_archive_log contract prefixes (fun _ _ => True) json input s tree s' (trivial_keeps consumer contract prefixes) I Hrun)
    as (log & Hlog & _ & He & Hman & Hn & Hb & Hd & _).
  exists log. split_and!; try done.
  - pose proof (log_inv _ _ Hlog) as H1. pose proof (log_declared _ _ Hlog) as H2. rewrite Forall_forall in H1, H2 |- *. naive_solver.
  - by eapply log_sorted.
  - by eapply log_keys.
Qed.

Lemma accepted_archive_witness : exists tree, exists log, entries tree = omap item_entry log /\
    Forall (fun x => Forall portable_name x.1 /\ x.1 <> [] /\ item_ok (compiler_archive_contract 1700000000 true) x /\ declared log (removelast x.1)) log /\
    ForallOrdPairs (fun x y => str_ltb (item_text x) (item_text y) = true) log /\
    NoDup (map (fun x => @path_key ascii_fold x.1) log) /\
    (exists path size, (path, LManifest size (embedded_manifest tree)) ∈ log) /\
    1 + len log <= max_entries (compiler_archive_contract 1700000000 true) /\
    (total_size log = 0 \/ total_size log <= max_regular_file_bytes (compiler_archive_contract 1700000000 true)) /\
    @toolchain_inventory_sha256 toy_sha256 plain_json (entries tree) = Ok (tree_sha256 tree).
Proof.
  eexists. apply (@accepted_archive toy_sha256 ascii_fold ustar unit (@VerifyingArchiveConsumer toy_sha256) (compiler_archive_contract 1700000000 true)
    [rs "/build"] plain_json (mkInput (Some (true, len (archive_bytes compiler_package))) (archive_bytes compiler_package)) tt tt).
  vm_compute. reflexivity.
Defined.

(** ** Extraction *)

(** What is apart from a new node stays as it was. *)
Lemma node_at_put_apart t p n q : can_put t p -> ~ p `prefix_of` q -> ~ q `prefix_of` p -> node_at (put_at t p n) q = node_at t q.
Proof.
  revert t q. induction p as [|name p IH]; intros t q; [intros _ Hq; by destruct Hq; apply prefix_nil|].
  rewrite can_put_cons. intros (kids & -> & Hp) Hpq Hqp. destruct q as [|name' q]; [by destruct Hqp; apply prefix_nil|].
  rewrite put_at_cons. destruct p as [|name2 p].
  - cbn. rewrite bt_get_put, bool_decide_eq_false_2; [done|]. intros ->. apply Hpq. apply prefix_cons, prefix_nil.
  - destruct Hp as [?|(kid & Hg & Hp)]; [done|]. rewrite Hg. cbn [node_at]. rewrite bt_get_put.
    case_bool_decide as E; [subst name'|done]. rewrite Hg. cbn [mbind option_bind]. apply IH; [done| |]; intros Hpre.
    + by apply Hpq, prefix_cons.
    + by apply Hqp, prefix_cons.
Qed.

Lemma extract_contained {H : Sha256} {U : UnicodeFold} {T : TarXz} root ex_fails create_mode contract prefixes json input disk :
  tree_wf disk -> let after := (extract_payload_archive root ex_fails create_mode contract prefixes json input disk).2 in
  after = disk \/ is_dir disk root /\ exists kids, after = put_at disk root (Dir kids).
Proof.
  intros Hwf after. unfold after, extract_payload_archive. destruct (_ || _) eqn:E; [by left|]. apply orb_false_iff in E as [_ E%negb_false_iff].
  apply open_directory_true in E as Hroot. pose proof Hroot as [kids Hk].
  pose proof (scan_contained root ex_fails create_mode disk Hroot contract prefixes json input (mkExtraction disk [ [] ])) as Hc.
  destruct (scan_archive contract prefixes json input (mkExtraction disk [ [] ])) as [r s] eqn:Es. cbn [fst snd] in *.
  right. split; [done|]. apply Hc. exists kids. cbn. by rewrite put_at_same.
Qed.

(** C12. Extraction never changes anything outside its root: for every input,
    every failure of a system call and every outcome, each path that is not at or
    below the root has afterwards what it had before, and a directory above the
    root is still one.  Symbolic links that were extracted do not lead later
    members out of the root. *)
Theorem extraction_contained {H : Sha256} {U : UnicodeFold} {T : TarXz} root ex_fails create_mode contract prefixes json input disk q :
  tree_wf disk -> ~ root `prefix_of` q ->
  let after := (extract_payload_archive root ex_fails create_mode contract prefixes json input disk).2 in
  node_at after q = node_at disk q \/ q `prefix_of` root /\ is_dir disk q /\ is_dir after q.
Proof.
  intros Hwf Hq after. destruct (extract_contained root ex_fails create_mode contract prefixes json input disk Hwf) as [E|(Hroot & kids & E)];
    fold after in E; rewrite E; [by left|]. pose proof (can_put_root root disk Hroot) as Hcan.
  destruct (decide (q `prefix_of` root)) as [Hpre|Hpre]; [|left; by apply node_at_put_apart].
  destruct (node_at_put_other disk root (Dir kids) q Hcan) as [?|?]; [|by left|by right].
  intros r ->. by apply Hq, prefix_app_r.
Qed.

(** An archive whose links lead out of the root, and a member below one of them. *)
Definition hostile_archive : list Z :=
  let member archive name mode kind target payload :=
    archive ← archive; write_pax_entry takes_all archive (rs "toolchain/" ++ name) mode 1700000000 kind target payload in
  match member (member (member (member (member (member (member (Ok [])
      (rs "") m0755 53 [] None) (rs "deep/") m0755 53 [] None) (rs "deep/a/") m0755 53 [] None) (rs "deep/a/b/") m0755 53 [] None)
      (rs "deep/a/b/up") m0777 50 (rs "../../..") None) (rs "t") m0777 50 (rs "deep/a/b/up/../../etc") None)
      (rs "t/passwd") m0644 48 [] (Some ([Some (rs "mine")], 4)) with
  | Ok archive => archive ++ fill 1024 0
  | _ => []
  end.
Definition hostile_input : archive_input := mkInput (Some (true, len hostile_archive)) hostile_archive.

Lemma extraction_contained_witness :
  let ran := @extract_payload_archive toy_sha256 [rs "work"; rs "out"] no_failure m0644 ascii_fold ustar (compiler_archive_contract 1700000000 true)
    [rs "/build"] plain_json hostile_input work_disk in
  ran.1 = Err (Verification UndeclaredParent) /\ node_at ran.2 [rs "work"; rs "out"; rs "t"] = Some (Link (rs "deep/a/b/up/../../etc")) /\
  (node_at ran.2 [rs "etc"; rs "passwd"] = node_at work_disk [rs "etc"; rs "passwd"] \/
   [rs "etc"; rs "passwd"] `prefix_of` [rs "work"; rs "out"] /\ is_dir work_disk [rs "etc"; rs "passwd"] /\ is_dir ran.2 [rs "etc"; rs "passwd"]).
Proof.
  split_and!; [vm_compute; reflexivity|vm_compute; reflexivity|].
  apply (@extraction_contained toy_sha256 ascii_fold ustar [rs "work"; rs "out"] no_failure m0644).
  - by apply sorted_tree_wf.
  - vm_compute. intros [k E]. discriminate.
Defined.

(** C15. A successful extraction into an empty directory leaves there exactly
    what it returns: the inventory computed from the disk, less the manifest, is
    the returned one with the returned digest, the manifest on disk has the
    returned bytes, every file has mode 0644 or 0755, and none but the manifest
    contains a forbidden prefix; the rest of the disk is as it was. *)
Theorem extraction_exact {H : Sha256} {U : UnicodeFold} {T : TarXz} root ex_fails create_mode contract prefixes json input disk tree disk' :
  node_at disk root = Some (Dir []) -> tree_wf disk ->
  extract_payload_archive root ex_fails create_mode contract prefixes json input disk = (Ok tree, disk') ->
  exists kids path, disk' = put_at disk root (Dir kids) /\
    toolchain_tree_inventory_excluding no_failures measured_all json (Dir kids) [utf8 (manifest_file contract)] = Ok (tree_sha256 tree, entries tree) /\
    components (utf8 (manifest_file contract)) = map Normal path /\ node_at (Dir kids) path = Some (File m0644 (embedded_manifest tree)) /\
    (forall p mode data, node_at (Dir kids) p = Some (File mode data) -> p <> path ->
       (mode = m0644 \/ mode = m0755) /\ any_needle (filter (fun n => n <> []) prefixes) data = false).
Proof.
  intros Hempty Hwf Hrun. destruct (extraction_holds _ _ _ _ _ _ _ _ _ _ Hempty Hwf Hrun) as (_ & kids & Ed & Hh).
  destruct (holds_manifest _ _ _ _ _ Hh) as (path & Hpath & Hat & Hfiles). exists kids, path. split_and!; [done|by eapply holds_inventory|done|done|exact Hfiles].
Qed.

Definition compiler_input : archive_input := mkInput (Some (true, len (archive_bytes compiler_package))) (archive_bytes compiler_package).
Definition extracted_package : res ContractError ArchiveTree * node :=
  @extract_payload_archive toy_sha256 [rs "work"; rs "out"] no_failure m0644 ascii_fold ustar (compiler_archive_contract 1700000000 true)
    [rs "/build"] plain_json compiler_input work_disk.
Definition extracted_files : ArchiveTree := match extracted_package.1 with Ok tree => tree | _ => mkTree [] [] [] None end.

Lemma extraction_exact_witness :
  exists kids path, extracted_package.2 = put_at work_disk [rs "work"; rs "out"] (Dir kids) /\
    @toolchain_tree_inventory_excluding toy_sha256 no_failures measured_all plain_json (Dir kids) [utf8 AROS_TOOLCHAIN_MANIFEST_FILE] =
      Ok (tree_sha256 extracted_files, entries extracted_files) /\
    components (utf8 AROS_TOOLCHAIN_MANIFEST_FILE) = map Normal path /\ node_at (Dir kids) path = Some (File m0644 (embedded_manifest extracted_files)) /\
    (forall p mode data, node_at (Dir kids) p = Some (File mode data) -> p <> path ->
       (mode = m0644 \/ mode = m0755) /\ any_needle (filter (fun n => n <> []) [rs "/build"]) data = false).
Proof.
  apply (@extraction_exact toy_sha256 ascii_fold ustar [rs "work"; rs "out"] no_failure m0644 (compiler_archive_contract 1700000000 true)
    [rs "/build"] plain_json compiler_input work_disk).
  - reflexivity.
  - by apply sorted_tree_wf.
  - vm_compute. reflexivity.
Defined.

(** ** Searching for build prefixes *)

(** C18. However a file is cut into reads, the packager's scan finds a build
    prefix exactly when one occurs in the whole content, and the verifier's
    hashing accepts exactly the contents of the declared size without such an
    occurrence, with the digest of the whole content: keeping the longest prefix
    less one byte between chunks loses nothing. *)
Theorem prefix_scan_exact {H : Sha256} reads content prefixes size :
  stream reads = Some content -> Forall (fun p => is_Some (from_utf8 p)) prefixes -> size <= u64_max ->
  let occurs := exists n x y, n ∈ prefixes /\ n <> [] /\ content = x ++ n ++ y in
  (exists found, (needles ← prefix_needles (Package PackagePrefixNotUtf8) prefixes; scan_reads needles reads []) = Ok found /\ (found = true <-> occurs)) /\
  (forall d, hash_entry_with_output reads size prefixes None tt = (Ok d, tt) <-> len content = size /\ d = sha256_bytes content /\ ~ occurs).
Proof.
  intros Hs Hp Hsize occurs. set (needles := filter (fun n => n <> []) prefixes).
  assert (Forall (fun n => n <> []) needles) as Hne by apply filter_nonempty.
  assert (any_needle needles content = true <-> occurs) as Hocc.
  { rewrite any_needle_true. unfold occurs, needles. setoid_rewrite list_elem_of_filter. naive_solver. }
  assert (forall E (e : E), prefix_needles e prefixes = Ok needles) as Hn.
  { intros E e. apply prefix_needles_utf8, forallb_forall. intros p Hin%list_elem_of_In. rewrite Forall_forall in Hp.
    by apply bool_decide_eq_true, Hp. }
  split.
  - rewrite Hn. cbn [mbind res_bind]. rewrite (scan_reads_exact _ _ content) by done. eauto.
  - intros d. unfold hash_entry_with_output. rewrite Hn, <- Hocc, not_true_iff_false.
    assert ((ns ← lift (Ok needles); hash_entry_loop None ns size reads [] [] 0) tt =
      hash_entry_loop None needles size reads (keep_overlap needles []) [] (len (A:=Z) []) tt) as -> by by rewrite keep_overlap_nil.
    pose proof (any_needle_nil _ Hne) as Hnil. split.
    + intros Hrun. destruct (hash_entry_loop_Ok None needles Hne (fun _ => tt) size reads (fun _ _ s' _ => match s' with tt => eq_refl end) [] d tt Hnil Hrun)
        as (content' & Hs' & Hl & Hany & -> & _). rewrite Hs in Hs'. by injection Hs' as <-.
    + intros (Hl & -> & Hany). by apply (hash_entry_loop_complete None needles Hne (fun _ => tt) size reads (fun _ _ => eq_refl) Hsize [] content).
Qed.

Lemma prefix_scan_exact_witness :
  let occurs := exists n x y, n ∈ [rs "/build"] /\ n <> [] /\ rs "a/build" = x ++ n ++ y in
  (exists found, (needles ← prefix_needles (Package PackagePrefixNotUtf8) [rs "/build"];
      scan_reads needles [Some (rs "a/bu"); Some (rs "il"); Some (rs "d")] []) = Ok found /\ (found = true <-> occurs)) /\
  (forall d, @hash_entry_with_output toy_sha256 unit [Some (rs "a/bu"); Some (rs "il"); Some (rs "d")] 7 [rs "/build"] None tt = (Ok d, tt) <->
     len (rs "a/build") = 7 /\ d = @sha256_bytes toy_sha256 (rs "a/build") /\ ~ occurs).
Proof.
  apply (@prefix_scan_exact toy_sha256 [Some (rs "a/bu"); Some (rs "il"); Some (rs "d")] (rs "a/build") [rs "/build"] 7).
  - reflexivity.
  - constructor; [vm_compute; eauto|constructor].
  - vm_compute. discriminate.
Defined.

(** ** Tools *)


Definition compiler_roles : ToolRoles :=
  mkRoles (rs "bin/gcc") (rs "bin/gcc") (rs "bin/cc") (rs "bin/ld") (rs "bin/ld") (rs "bin/ld") (rs "bin/ld") (rs "bin/cc") None (Some (rs "bin/cc")) None.


(** ** Where packaging and verifying stop short *)

(** A candidate whose two links lead out of the root together. *)
Definition chained_candidate : node := Dir [
  (rs "deep", Dir [(rs "a", Dir [(rs "b", Dir [(rs "up", Link (rs "../../.."))])])]);
  (rs "t", Link (rs "deep/a/b/up/../outside"))].
Definition chained_disk : node := Dir [(rs "outside", File m0644 (rs "host")); (rs "root", Dir [])].
Definition package_of (candidate : node) : res ContractError packaged :=
  @package_tree toy_sha256 ascii_fold ustar no_failures measured_all read_at_once takes_all plain_json plain_manifest no_layout candidate [] 1700000000.
Definition extract_of (p : packaged) (disk : node) : res ContractError ArchiveTree * node :=
  @extract_payload_archive toy_sha256 [rs "root"] no_failure m0644 ascii_fold ustar (compiler_archive_contract 1700000000 true) [] plain_json
    (mkInput (Some (true, len (archive_bytes p))) (archive_bytes p)) disk.


Definition scan_of (p : packaged) : res ContractError ArchiveTree :=
  (@scan_archive toy_sha256 ascii_fold ustar unit (@VerifyingArchiveConsumer toy_sha256) (compiler_archive_contract 1700000000 true) [] plain_json
    (mkInput (Some (true, len (archive_bytes p))) (archive_bytes p)) tt).1.

(** Packaging succeeds on a candidate whose archive the verifier of the same
    format refuses: one with a file whose name differs from that of the manifest
    only in case, since the manifest is added after the collision check. *)
Theorem packaged_but_refused :
  exists p, package_of (Dir [(rs "TOOLCHAIN-MANIFEST.JSON", File m0644 (rs "x"))]) = Ok p /\ scan_of p = Err (Verification PathCollision).
Proof. eexists. split; [vm_compute; reflexivity|]. vm_compute. reflexivity. Qed.
