(* ===== verification/PackageCommand.v ===== *)
(** * PackageCommand: from a request to a package set that verifies

    Models [package_internal] of [crates/aros-toolchain/src/package.rs] with its
    request, up to the directory it publishes, and proves the set against
    [verify_with_format] and [verify_and_extract]. *)

From S2P Require Import Prelude Text Digest Publication Ordered StateRes RiscvContract PayloadPath ArchiveTypes ToolchainManifest ProducerInputs PackageIdentity.
From S2P Require Import PrefixScan TarWriter TarReader PayloadTree Packaging ArchiveScan ArchiveSafety Extraction ExtractionSpecs ArchiveMembers.
From S2P Require Import ArchiveReadback ExtractionTotal PackageSpecs ToolLayout PackageSet PackageSetSpecs PackageTheorems.

(** [safe_segment] *)
Definition safe_segment (value : list Z) : bool :=
  negb (eqb_list value []) && negb (eqb_list value (rs ".")) && negb (eqb_list value (rs "..")) && forallb identifier_byte (utf8 value).

Section command.
Context {H : Sha256} {U : UnicodeFold} {T : TarXz} {C : UrlCrate} {P : ProducerSerde} {S : PackageSerde} {L : ToolsSerde}.
Variable fails : fs_call -> rel_path -> bool.
Variable measure : rel_path -> measured.
Variable file_reads : rel_path -> list Z -> list (option (list Z)).
Variable accepts : Z -> bool.
Variable json : list (list Z * json_value) -> option (list Z).

(** [PackageRequest]; the candidate is at [pc_candidate] on the disk, and its
    private copy is staged at [pc_stage]. *)
Record package_command := mkCommand {
  pc_inputs : package_request;
  pc_candidate_root : list Z;
  pc_output_dir : list Z;
  pc_disk : node;
  pc_candidate : rel_path;
  pc_stage : rel_path;
  (** [copy_tree_from_snapshot_nofollow]: the tree it has acquired *)
  pc_snapshot : option node;
  pc_output_exists : bool;
}.
Variable command : package_command.
Variable format : PackageFormat.
Abbreviation inputs := (pc_inputs command).
Abbreviation lock := (rq_source_lock inputs).
Abbreviation profile := (rq_profile inputs).

(** [validate_request] *)
Definition validate_package_request : res ContractError node :=
  identity ← compiler_identity_for_format lock profile format;
  _ ← require_recipe_binding (rq_recipe inputs) lock profile format;
  _ ← refuse (negb (is_absolute (pc_candidate_root command)) || negb (is_absolute (pc_output_dir command))) (Package RootsNotAbsolute);
  candidate ← ok_or (node_at (pc_disk command) (pc_candidate command)) (Package CandidateInaccessible);
  _ ← refuse (match candidate with Dir _ => false | _ => true end) (Package CandidateNotReal);
  _ ← (if bool_decide (sl_family lock = Gnu)
       then map_err (fun _ => Package CandidateLayout) (validate_root (pc_disk command) (pc_candidate command) identity (pf_target_triple profile))
       else Ok tt);
  _ ← refuse (pc_output_exists command) (Package OutputExists);
  _ ← refuse (negb (safe_segment (rq_release_id inputs))) (Package UnsafeReleaseId);
  _ ← asset_name_for_format lock profile (rq_host inputs) format;
  _ ← canonical_bytes (environment_value (rq_environment inputs));
  _ ← refuse (existsb (fun prefix => negb (is_absolute prefix) || bool_decide (from_utf8 prefix = None)) (rq_prefixes inputs)) (Package UnsafePrefix);
  Ok candidate.

(** The check of the staged tree of a GNU candidate. *)
Definition staged_layout (staged : node) : res ContractError unit :=
  if bool_decide (sl_family lock = Gnu) then
    identity ← compiler_identity_of lock profile;
    map_err (fun _ => Package StagedLayout)
      (validate_root (put_at (pc_disk command) (pc_stage command) staged) (pc_stage command) identity (pf_target_triple profile))
  else Ok tt.

Definition render_manifest (tree_sha256 : list Z) (es : list ArosToolchainManifestEntry) : res ContractError (list Z) :=
  m ← manifest inputs format tree_sha256 es; pretty_json (show_manifest m).

(** [PackageOutput], with the members of the directory that is published *)
Record PackageOutput := mkOutput {
  po_packaged : packaged;
  po_manifest : ArosToolchainManifest environment;
  po_asset : list Z;
  po_sbom : list Z;
  po_archive_sha256 : list Z;
  po_archive_size : Z;
  po_directory : node;
}.

(** [write_new] of the members of the set, in the order of the code *)
Definition write_member (members : list (list Z * node)) (member : list Z * list Z) : res ContractError (list (list Z * node)) :=
  _ ← refuse (fails WriteMember [utf8 member.1] || bool_decide (is_Some (bt_get (utf8 member.1) members))) (Package MemberNotWritten);
  Ok (bt_put str_ltb (utf8 member.1) (File m0644 member.2) members).

(** [package_internal], before the set is published *)
Definition package_internal : res ContractError PackageOutput :=
  candidate ← validate_package_request;
  _ ← refuse (fails Reserve []) (Package CannotReserve);
  source ← (if bool_decide (format = CompilerFamilyV2) then ok_or (pc_snapshot command) (Package SnapshotFailed) else Ok candidate);
  p ← package_tree fails measure file_reads accepts json render_manifest staged_layout source (rq_prefixes inputs) (rc_source_date_epoch (rq_recipe inputs));
  m ← manifest inputs format (files_sha256 p) (files p);
  asset ← asset_name_for_format lock profile (rq_host inputs) format;
  let archive := archive_bytes p in
  _ ← refuse (fails MeasureArchive [utf8 asset]) (Package ArchiveNotMeasured);
  let sha256 := sha256_bytes archive in
  sbom ← spdx_bytes lock m;
  members ← foldM write_member [] [(asset, archive); (manifest_name asset, manifest_bytes p);
                                   (checksum_name asset, utf8 (sha256 ++ rs "  " ++ asset ++ [10])); (sbom_name asset, sbom)];
  _ ← refuse (fails SyncPackage []) (Package CannotSynchronize);
  Ok (mkOutput p m asset sbom sha256 (len archive) (Dir members)).
End command.

(** ** The members of a set *)

(** The four names of a set in the order of the directory. *)
Definition set_members (asset archive manifest checksum sbom : list Z) : list (list Z * node) :=
  [(utf8 asset, File m0644 archive); (utf8 (manifest_name asset), File m0644 manifest);
   (utf8 (checksum_name asset), File m0644 checksum); (utf8 (sbom_name asset), File m0644 sbom)].

Lemma str_ltb_app a x y : str_ltb (a ++ x) (a ++ y) = str_ltb x y.
Proof. induction a as [|c a IH]; [done|]. cbn. by rewrite Z.ltb_irrefl, Z.eqb_refl. Qed.

Lemma member_names asset : utf8 (manifest_name asset) = utf8 asset ++ rs ".manifest.json" /\
  utf8 (checksum_name asset) = utf8 asset ++ rs ".sha256" /\ utf8 (sbom_name asset) = utf8 asset ++ rs ".spdx.json".
Proof. unfold manifest_name, checksum_name, sbom_name. by rewrite !utf8_app. Qed.

Lemma write_member_last fails members name data members' : Forall (fun k => str_ltb k.1 (utf8 name) = true) members ->
  write_member fails members (name, data) = Ok members' -> members' = members ++ [(utf8 name, File m0644 data)].
Proof. unfold write_member. intros Hlt [_ [= <-] ]%refuse_bind_Ok. by apply bt_put_last. Qed.

Lemma write_members fails asset archive manifest checksum sbom members :
  foldM (write_member fails) [] [(asset, archive); (manifest_name asset, manifest); (checksum_name asset, checksum); (sbom_name asset, sbom)] = Ok members ->
  members = set_members asset archive manifest checksum sbom.
Proof.
  destruct (member_names asset) as (E1 & E2 & E3). cbn [foldM]. intros (m1 & H1 & (m2 & H2 & (m3 & H3 & (m4 & H4 & [= <-])%bind_Ok)%bind_Ok)%bind_Ok)%bind_Ok.
  apply write_member_last in H1 as ->; [|constructor].
  apply write_member_last in H2 as ->; [|rewrite E1; repeat constructor; apply str_ltb_prefix].
  apply write_member_last in H3 as ->; [|rewrite E2; repeat constructor; cbn [fst]; [apply str_ltb_prefix|rewrite E1; by rewrite str_ltb_app] ].
  apply write_member_last in H4 as ->; [done|].
  rewrite E3. repeat constructor; cbn [fst]; [apply str_ltb_prefix|rewrite E1; by rewrite str_ltb_app|rewrite E2; by rewrite str_ltb_app].
Qed.

(** Reading the members back. *)
Lemma member_at asset archive manifest checksum sbom : let d := Dir (set_members asset archive manifest checksum sbom) in
  node_at d [utf8 asset] = Some (File m0644 archive) /\ node_at d [utf8 (manifest_name asset)] = Some (File m0644 manifest) /\
  node_at d [utf8 (checksum_name asset)] = Some (File m0644 checksum) /\ node_at d [utf8 (sbom_name asset)] = Some (File m0644 sbom).
Proof.
  assert (forall a x y : list Z, x <> y -> a ++ x <> a ++ y) as Happ by (intros a x y Hn E%app_inv_head; done).
  assert (forall a x : list Z, x <> [] -> a ++ x <> a) as Hself by (intros a x Hn E; apply (Happ a x []); [done|by rewrite app_nil_r]).
  unfold set_members. destruct (member_names asset) as (-> & -> & ->). cbn [node_at bt_get]. split_and!;
    repeat (case_bool_decide as E;
      [try done; exfalso; revert E; first [apply Hself; vm_compute; discriminate|apply Happ; vm_compute; discriminate]|try (by destruct E); clear E]).
Qed.

Lemma metadata_at {H : Sha256} d name mode data : node_at d [utf8 name] = Some (File mode data) -> len data <= MAX_METADATA_BYTES ->
  read_metadata d name = Ok data.
Proof.
  intros Hat Hl. unfold read_metadata. rewrite (proj2 (open_regular_Some d [utf8 name] data)) by by eexists. cbn [ok_or mbind res_bind].
  by rewrite (proj2 (Z.ltb_ge _ _) Hl).
Qed.

Lemma archive_at {H : Sha256} d name mode data : node_at d [utf8 name] = Some (File mode data) -> len data <= MAX_ARCHIVE_BYTES ->
  measure_archive d name = Ok (data, len data, sha256_bytes data).
Proof.
  intros Hat Hl. unfold measure_archive. rewrite (proj2 (open_regular_Some d [utf8 name] data)) by by eexists. cbn [ok_or mbind res_bind].
  by rewrite (proj2 (Z.ltb_ge _ _) Hl).
Qed.

Lemma members_exact asset archive manifest checksum sbom : Forall (fun c => is_scalar c = true) asset ->
  require_exact_outer_members (Dir (set_members asset archive manifest checksum sbom)) [asset; manifest_name asset; checksum_name asset; sbom_name asset] = Ok tt.
Proof.
  intros Hs. assert (forall s, Forall is_ascii s -> from_utf8 (utf8 (asset ++ s)) = Some (asset ++ s)) as Hu.
  { intros s Ha. apply from_utf8_utf8, Forall_app. split; [done|]. eapply Forall_impl; [exact Ha|]. intros c Hc. apply is_scalar_true. unfold is_ascii in Hc. lia. }
  unfold require_exact_outer_members, set_members, outer_member. cbn [mbind res_bind foldM fst snd].
  rewrite (from_utf8_utf8 asset Hs). unfold manifest_name, checksum_name, sbom_name.
  rewrite !Hu by (repeat constructor; done). cbn [ok_or mbind res_bind refuse foldl]. by rewrite bool_decide_eq_true_2.
Qed.

(** ** Identities and manifests *)
Lemma identity_Ok lock profile format id : compiler_identity_for_format lock profile format = Ok id ->
  (format = LegacyLlvmV1 -> sl_family lock = Llvm) /\ is_gnu (Some id) = bool_decide (sl_family lock = Gnu) /\
  (sl_family lock = Llvm -> id = LlvmCompiler (sl_version lock)) /\
  (forall g b t, id = GnuCompiler g b t -> pr_target (pf_record profile) = Some t) /\
  compiler_identity_of lock profile = Ok id.
Proof.
  unfold compiler_identity_for_format. intros (u & Hf & (i & Hi & (u' & _ & [= ->])%bind_Ok)%bind_Ok)%bind_Ok.
  split_and!; [| | | |done].
  - intros ->. unfold validate_format_family in Hf. apply refuse_Ok in Hf. rewrite bool_decide_eq_true_2 in Hf by done.
    cbn in Hf. by apply negb_false_iff, bool_decide_eq_true in Hf.
  - unfold compiler_identity_of in Hi. apply bind_Ok in Hi as (? & _ & (i & Hi & (? & _ & [= ->])%bind_Ok)%bind_Ok).
    destruct (sl_family lock); [by injection Hi as <-|]. apply bind_Ok in Hi as (? & _ & (? & _ & [= <-])%bind_Ok). done.
  - intros Hl. unfold compiler_identity_of in Hi. rewrite Hl in Hi. apply bind_Ok in Hi as (? & _ & Hi). by injection Hi as <-.
  - intros g b t ->. unfold compiler_identity_of in Hi. apply bind_Ok in Hi as (? & _ & (i & Hi & (? & _ & [= ->])%bind_Ok)%bind_Ok).
    destruct (sl_family lock); [done|]. apply bind_Ok in Hi as (? & _ & (t' & Ht%ok_or_Ok & [= _ _ ->])%bind_Ok). done.
Qed.

Section manifests.
Context {S : PackageSerde}.

Lemma manifest_Ok request format sha es m : manifest request format sha es = Ok m ->
  exists id, compiler_identity_for_format (rq_source_lock request) (rq_profile request) format = Ok id /\
    m = manifest_of request format id sha es /\ validate_manifest m = Ok tt.
Proof. unfold manifest. intros (id & Hid & ([] & Hv%map_err_Ok & [= <-])%bind_Ok)%bind_Ok. by exists id. Qed.

(** The manifest of a request has the identity the request selects. *)
Lemma manifest_identity_verified request dir format sha es m : manifest request format sha es = Ok m ->
  verify_manifest_identity (mkRequest request dir) format m = Ok tt.
Proof.
  intros (id & Hid & -> & _)%manifest_Ok. unfold verify_manifest_identity, compiler_identity. cbn [vr_inputs]. rewrite Hid.
  destruct (identity_Ok _ _ _ _ Hid) as (Hf & _ & Hl & _). unfold manifest_of.
  cbn [m_release_id m_host m_target_profile m_target_triple m_recipe_sha256 m_source_lock_sha256 m_profiles_sha256 m_source_commit m_producer_commit
    m_tools_commit m_source_date_epoch m_schema m_llvm_version m_compiler m_capabilities m_build_environment].
  rewrite bool_decide_eq_true_2, !Z.eqb_refl by done. cbn [negb orb refuse mbind res_bind].
  assert (normalized_compiler_identity
    (if bool_decide (format = CompilerFamilyV2) then None else Some (sl_version (rq_source_lock request)))
    (if bool_decide (format = CompilerFamilyV2) then Some id else None) = Ok id) as ->.
  { destruct format; [rewrite bool_decide_eq_false_2 by done|rewrite bool_decide_eq_true_2 by done; done]. cbn. by rewrite Hl by auto. }
  cbn [map_err mbind res_bind]. by rewrite !bool_decide_eq_true_2.
Qed.

(** Its bytes decode to it. *)
Lemma manifest_decoded request format sha es m bytes :
  (forall n t, show_manifest n = Some t -> read_manifest (ascii_json t) = Some (manifest_record n)) ->
  (forall t, pr_target (pf_record (rq_profile request)) = Some t -> validate t = Ok tt) ->
  manifest request format sha es = Ok m -> pretty_json (show_manifest m) = Ok bytes -> json_manifest bytes = Some m.
Proof.
  intros Hserde Ht Hm (text & Hs%ok_or_Ok & [= <-])%bind_Ok. unfold json_manifest. rewrite (Hserde _ _ Hs). cbn [mbind option_bind].
  destruct (manifest_Ok _ _ _ _ _ Hm) as (id & Hid & -> & Hv). rewrite manifest_read_back; [done|done|].
  destruct (identity_Ok _ _ _ _ Hid) as (_ & _ & _ & Hp & _). unfold manifest_of, target_read. cbn [m_compiler].
  destruct (bool_decide _); [|done]. destruct id as [v|g b t]; [done|]. by eapply Ht, Hp.
Qed.
End manifests.

(** ** The set verifies *)
Section verifies.
Context {H : Sha256} {U : UnicodeFold} {T : TarXz} {Laws : TarXzLaws T} {P : ProducerSerde} {S : PackageSerde} {L : ToolsSerde}.
Context (fails : fs_call -> rel_path -> bool) (measure : rel_path -> measured) (file_reads : rel_path -> list Z -> list (option (list Z))).
Context (accepts : Z -> bool) (json : list (list Z * json_value) -> option (list Z)) (command : package_command) (format : PackageFormat).
Context (Hreads : forall q data, stream (file_reads q data) = Some data).
Abbreviation inputs := (pc_inputs command).
Abbreviation lock := (rq_source_lock inputs).
Abbreviation profile := (rq_profile inputs).
Abbreviation epoch := (rc_source_date_epoch (rq_recipe inputs)).
Abbreviation gnu := (bool_decide (sl_family lock = Gnu)).

(** What a packaging run has ensured. *)
Record packaged_set (out : PackageOutput) (kids : list (list Z * node)) : Prop := {
  ks_binding : require_recipe_binding (rq_recipe inputs) lock profile format = Ok tt;
  ks_prefixes : existsb (fun prefix => negb (is_absolute prefix) || bool_decide (from_utf8 prefix = None)) (rq_prefixes inputs) = false;
  ks_packaged : packaged_from fails measure file_reads accepts json (render_manifest command format) (staged_layout command) (rq_prefixes inputs) epoch
    kids (po_packaged out);
  ks_manifest : manifest inputs format (files_sha256 (po_packaged out)) (files (po_packaged out)) = Ok (po_manifest out);
  ks_asset : asset_name_for_format lock profile (rq_host inputs) format = Ok (po_asset out);
  ks_sbom : spdx_bytes lock (po_manifest out) = Ok (po_sbom out);
  ks_archive : po_archive_sha256 out = sha256_bytes (archive_bytes (po_packaged out)) /\ po_archive_size out = len (archive_bytes (po_packaged out));
  ks_directory : po_directory out = Dir (set_members (po_asset out) (archive_bytes (po_packaged out)) (manifest_bytes (po_packaged out))
    (utf8 (po_archive_sha256 out ++ rs "  " ++ po_asset out ++ [10])) (po_sbom out));
}.

Lemma package_internal_Ok out : (forall n, node_at (pc_disk command) (pc_candidate command) = Some n \/ pc_snapshot command = Some n -> tree_wf n) ->
  package_internal fails measure file_reads accepts json command format = Ok out -> exists kids, packaged_set out kids.
Proof.
  intros Hwf. unfold package_internal. intros (candidate & Hval & (_ & _ & (source & Hsrc & (p & Hp & (m & Hm & (asset & Ha & Hout)%bind_Ok)%bind_Ok)%bind_Ok)%bind_Ok)%bind_Ok)%bind_Ok.
  cbv zeta in Hout. apply bind_Ok in Hout as (_ & _ & (sbom & Hs & (members & Hw%write_members & (_ & _ & [= <-])%bind_Ok)%bind_Ok)%bind_Ok).
  unfold validate_package_request in Hval.
  apply bind_Ok in Hval as (id & _ & (u & Hb & (_ & _ & (c & Hc%ok_or_Ok & Hval)%bind_Ok)%bind_Ok)%bind_Ok). destruct u.
  do 6 (apply bind_Ok in Hval as (? & _ & Hval)). apply refuse_bind_Ok in Hval as [Hpre [= <-] ].
  assert (tree_wf source) as Hsw by (apply Hwf; destruct (bool_decide _); [right; by apply ok_or_Ok in Hsrc|left; by injection Hsrc as <-]).
  destruct (package_tree_Ok _ _ _ _ Hreads _ _ _ _ _ _ _ Hsw Hp) as [kids Hk]. exists kids. split; cbn; try done. by rewrite Hw.
Qed.
(** The tools document of a GNU candidate was found in the staged tree. *)
Lemma staged_tools out kids : packaged_set out kids -> can_put (pc_disk command) (pc_stage command) -> sl_family lock = Gnu ->
  exists id mode bytes tools, compiler_identity_of lock profile = Ok id /\ node_at (Dir kids) [TOOLCHAIN_TOOLS_FILE] = Some (File mode bytes) /\
    bound_tools bytes id (pf_target_triple profile) = Ok tools.
Proof.
  intros Hk Hput Hg. pose proof (pk_layout _ _ _ _ _ _ _ _ _ _ _ (ks_packaged _ _ Hk)) as Hl. unfold staged_layout in Hl.
  rewrite bool_decide_eq_true_2 in Hl by done. apply bind_Ok in Hl as (id & Hid & Hl%map_err_Ok). unfold validate_root in Hl.
  apply bind_Ok in Hl as (_ & _ & (bytes & Hb%ok_or_Ok%open_regular_Some & (tools & Ht%map_err_Ok & _)%bind_Ok)%bind_Ok).
  destruct Hb as [mode Hb]. rewrite node_at_app, node_at_put_same in Hb by done. by exists id, mode, bytes, tools.
Qed.

Lemma set_contract out kids : packaged_set out kids -> manifest_contract (po_manifest out) = compiler_archive_contract epoch gnu.
Proof.
  intros Hk. destruct (manifest_Ok _ _ _ _ _ (ks_manifest _ _ Hk)) as (id & Hid & -> & _). destruct (identity_Ok _ _ _ _ Hid) as (Hf & Hg & _).
  unfold manifest_contract, manifest_of. cbn [m_source_date_epoch m_compiler]. f_equal. destruct format.
  - rewrite Hf by done. done.
  - rewrite bool_decide_eq_true_2 by done. done.
Qed.

(** The request of a packaging run is accepted by verification. *)
Lemma set_request out kids dir d : packaged_set out kids -> is_absolute dir = true -> validate_request (mkRequest inputs dir) format (Dir d) = Ok tt.
Proof.
  intros Hk Hd. destruct (manifest_Ok _ _ _ _ _ (ks_manifest _ _ Hk)) as (id & Hid & _). unfold validate_request. cbn [vr_inputs vr_package_dir].
  rewrite Hid, (ks_binding _ _ Hk), Hd, (ks_prefixes _ _ Hk). cbn [map_err mbind res_bind negb refuse].
  pose proof (ks_binding _ _ Hk) as Hb. unfold require_recipe_binding in Hb. apply bind_Ok in Hb as (_ & _ & (_ & _ & ->)%bind_Ok). done.
Qed.

Lemma checksum_length sha asset : len (utf8 (sha256_bytes sha ++ rs "  " ++ asset ++ [10])) = 67 + str_len asset.
Proof.
  destruct (digest_from_bytes_spec _ (sha256_raw_u8 sha)) as (Hl & Ha & _). unfold str_len. rewrite !utf8_app, !len_app.
  unfold sha256_bytes at 1. rewrite (utf8_ascii _ Ha), Hl, sha256_raw_len. change (len (utf8 (rs "  "))) with 2. change (len (utf8 [10])) with 1. lia.
Qed.

Context (Hserde : forall n t, show_manifest n = Some t -> read_manifest (ascii_json t) = Some (manifest_record n)).
Context (Htarget : forall t, pr_target (pf_record profile) = Some t -> validate t = Ok tt).

Lemma set_verifies out kids dir : packaged_set out kids -> can_put (pc_disk command) (pc_stage command) -> 0 <= epoch -> is_absolute dir = true ->
  Forall (fun c => is_scalar c = true) (po_asset out) -> str_len (po_asset out) <= 255 ->
  within_limits (compiler_archive_contract epoch gnu) (archive_nodes (staged_root (po_packaged out))) = true ->
  len (archive_bytes (po_packaged out)) <= MAX_ARCHIVE_BYTES ->
  len (manifest_bytes (po_packaged out)) <= MAX_METADATA_BYTES -> len (po_sbom out) <= MAX_METADATA_BYTES ->
  (forall id mode bytes tools, sl_family lock = Gnu -> node_at (Dir kids) [TOOLCHAIN_TOOLS_FILE] = Some (File mode bytes) ->
     bound_tools bytes id (pf_target_triple profile) = Ok tools -> validate_archive_tools tools (files (po_packaged out)) = Ok tt) ->
  verify_with_format json (mkRequest inputs dir) format (po_directory out) =
    Ok (mkVerified (po_manifest out) (po_archive_sha256 out) (po_archive_size out)).
Proof.
  intros Hk Hput Hepoch Hdir Hscalar Hshort Hwithin Hsize Hmb Hsb Htools. pose proof (ks_packaged _ _ Hk) as Hpk.
  rewrite (pk_root _ _ _ _ _ _ _ _ _ _ _ Hpk) in Hwithin.
  destruct (package_verified _ _ _ _ Hreads json _ _ _ _ gnu kids _ Hpk Hepoch Hwithin Hsize) as [Hscan Hcmp].
  destruct (ks_archive _ _ Hk) as [Esha Esize]. rewrite (ks_directory _ _ Hk).
  set (members := set_members _ _ _ _ _). destruct (member_at (po_asset out) (archive_bytes (po_packaged out)) (manifest_bytes (po_packaged out))
    (utf8 (po_archive_sha256 out ++ rs "  " ++ po_asset out ++ [10])) (po_sbom out)) as (Harch & Hman & Hsum & Hsbom). fold members in Harch, Hman, Hsum, Hsbom.
  unfold verify_with_format. rewrite (set_request _ _ _ _ Hk Hdir). cbn [mbind res_bind]. unfold asset_name. cbn [vr_inputs].
  rewrite (ks_asset _ _ Hk). cbn [mbind res_bind]. rewrite (members_exact _ _ _ _ _ Hscalar : require_exact_outer_members (Dir members) _ = _). cbn [mbind res_bind].
  unfold verify_members_validated. rewrite (archive_at _ _ _ _ Harch Hsize). cbn [mbind res_bind].
  rewrite (metadata_at _ _ _ _ Hsum) by (rewrite Esha, checksum_length; unfold MAX_METADATA_BYTES; lia). cbn [mbind res_bind].
  rewrite (bool_decide_eq_true_2 (utf8 (po_archive_sha256 out ++ _) = utf8 (sha256_bytes _ ++ _))) by (by rewrite Esha). cbn [negb refuse mbind res_bind].
  rewrite (metadata_at _ _ _ _ Hman Hmb). cbn [mbind res_bind].
  pose proof (pk_manifest _ _ _ _ _ _ _ _ _ _ _ Hpk) as Hrender. unfold render_manifest in Hrender. rewrite (ks_manifest _ _ Hk) in Hrender. cbn [mbind res_bind] in Hrender.
  rewrite (manifest_decoded _ _ _ _ _ _ Hserde Htarget (ks_manifest _ _ Hk) Hrender). cbn [ok_or mbind res_bind].
  destruct (manifest_Ok _ _ _ _ _ (ks_manifest _ _ Hk)) as (id & Hid & Em & Hvalid). rewrite Hvalid. cbn [map_err mbind res_bind].
  rewrite (manifest_identity_verified _ dir _ _ _ _ (ks_manifest _ _ Hk)). cbn [mbind res_bind vr_inputs]. rewrite (ks_sbom _ _ Hk). cbn [mbind res_bind].
  rewrite (metadata_at _ _ _ _ Hsbom Hsb). cbn [mbind res_bind]. rewrite (bool_decide_eq_true_2 (po_sbom out = po_sbom out)) by done. cbn [negb refuse mbind res_bind].
  unfold verify_archive_tree. cbn [vr_inputs]. rewrite (set_contract _ _ Hk), Hscan. cbn [fst mbind res_bind].
  assert (m_files (po_manifest out) = files (po_packaged out) /\ m_tree_sha256 (po_manifest out) = files_sha256 (po_packaged out) /\
    m_target_triple (po_manifest out) = pf_target_triple profile) as (-> & -> & ->) by (by rewrite Em).
  rewrite Hcmp. cbn [mbind res_bind]. destruct (identity_Ok _ _ _ _ Hid) as (Hf & Hg & _ & _ & Hid').
  destruct (bool_decide_reflect (sl_family lock = Gnu)) as [Hgnu|Hgnu]; [|by rewrite Esha, Esize].
  destruct (staged_tools _ _ Hk Hput Hgnu) as (id' & mode & bytes & tools & E & Hat & Hbound). rewrite Hid' in E. injection E as <-.
  assert (m_compiler (po_manifest out) = Some id) as ->.
  { rewrite Em. unfold manifest_of. cbn [m_compiler]. destruct format; [by rewrite Hf in Hgnu|by rewrite bool_decide_eq_true_2]. }
  cbn [ok_or mbind res_bind]. rewrite (package_tools _ _ _ _ json _ _ _ _ true kids _ Hpk mode bytes eq_refl Hat). cbn [ok_or mbind res_bind].
  unfold validate_archive. rewrite Hbound. cbn [map_err mbind res_bind package_archive_tree entries].
  rewrite (Htools id mode bytes tools Hgnu Hat Hbound). cbn [map_err mbind res_bind]. by rewrite Esha, Esize.
Qed.
End verifies.

(** ** A GNU package to run the theorems on

    A tree with one tool and a link to it; serde reads and writes one manifest
    and one tools document. *)
Definition gnu_tree : node := Dir [
  (rs "bin", Dir [(rs "cc", File m0755 (rs "run")); (rs "gcc", Link (rs "../bin/cc"))]);
  (TOOLCHAIN_TOOLS_FILE, File m0644 (rs "tools"))].
Definition gnu_compiler : ArosCompilerIdentity := GnuCompiler (rs "14.2.0") (rs "2.43") example_contract.
Definition gnu_triple : list Z := rs "riscv-unknown-aros".
Definition hex_of (c : Z) (n : Z) : list Z := fill n c.
Definition gnu_recipe : Recipe :=
  mkRecipe (hex_of 97 40) (hex_of 97 40) (hex_of 98 40) (hex_of 98 40) (hex_of 99 40) (hex_of 99 40) 1700000000 (hex_of 48 64) (hex_of 49 64) [] (hex_of 50 64).
Definition gnu_lock : SourceLock :=
  mkSourceLock (mkLockDocument LockV3 Gnu (rs "14.2.0")
    [mkSource (rs "gcc") (rs "14.2.0") ToolchainComponent [] (rs "gcc.tar.xz") (rs "https://example.org/gcc") (hex_of 52 64) 1;
     mkSource (rs "binutils") (rs "2.43") ToolchainComponent [] (rs "binutils.tar.xz") (rs "https://example.org/binutils") (hex_of 53 64) 1]
    [mkPython (rs "mako") (rs "1.3") (rs "mako.tar.gz") (rs "https://example.org/mako") (hex_of 54 64) 1 (rs "mako") (rs ".")]) (hex_of 48 64).
Definition gnu_profile : Profile :=
  mkProfile Gnu (hex_of 49 64) (mkProfileRecord (rs "riscv-board") (rs "riscv") (rs "riscv") gnu_triple (rs "riscv") (rs "board") (rs "ilp32")
    [rs "c"; rs "libgcc"; rs "standalone-collector"] (Some example_contract)).
Definition gnu_inventory : list Z * list ArosToolchainManifestEntry :=
  match @toolchain_tree_inventory toy_sha256 no_failures measured_all plain_json gnu_tree with Ok r => r | _ => ([], []) end.
Definition gnu_manifest : ArosToolchainManifest unit :=
  mkManifest 2 (rs "r1") (rs "linux-x86_64") (rs "riscv-board") gnu_triple gnu_inventory.1 None (Some gnu_compiler) (hex_of 50 64) (hex_of 48 64)
    (hex_of 49 64) (hex_of 97 40) (hex_of 98 40) (hex_of 99 40) 1700000000 [rs "c"; rs "libgcc"; rs "standalone-collector"] tt gnu_inventory.2.
Definition gnu_text : list Z := rs "{manifest}".
Definition gnu_serde : PackageSerde := {|
  environment := unit;
  environment_value _ := VObject [];
  read_manifest bytes := if bool_decide (bytes = ascii_json gnu_text) then Some (manifest_record gnu_manifest) else None;
  show_manifest m := if bool_decide (m = gnu_manifest) then Some gnu_text else None;
  show_value _ := Some (rs "{sbom}");
|}.
Definition gnu_producer : ProducerSerde := {|
  read_recipe _ := None; read_source_lock _ := None; read_profiles_v1 _ := None; read_profiles_v2 _ := None; json_to_vec _ := Some (rs "{}") |}.
Definition gnu_tools : ToolsSerde := {|
  read_tools bytes := if bool_decide (bytes = rs "tools") then
    Some (ToolsV1 gnu_compiler gnu_triple (let cc := rs "bin/gcc" in mkRolesV1 cc cc cc cc cc cc cc cc)) else None |}.
Definition gnu_inputs : @package_request gnu_serde :=
  @mkPackageRequest gnu_serde (rs "r1") (rs "linux-x86_64") gnu_recipe gnu_lock gnu_profile tt [rs "/build"].
Definition gnu_disk : node := Dir [(rs "candidate", gnu_tree); (rs "out", Dir [])].
Definition gnu_command : @package_command gnu_serde :=
  @mkCommand gnu_serde gnu_inputs (rs "/candidate") (rs "/out/set") gnu_disk [rs "candidate"] [rs "out"; rs "stage"] (Some gnu_tree) false.
Definition gnu_packaging : res ContractError (@PackageOutput gnu_serde) :=
  @package_internal toy_sha256 ascii_fold ustar gnu_producer gnu_serde gnu_tools no_failures measured_all read_at_once takes_all plain_json gnu_command
    CompilerFamilyV2.
Definition gnu_output : @PackageOutput gnu_serde :=
  match gnu_packaging with Ok o => o | _ => @mkOutput gnu_serde (mkPackaged Special [] [] [] []) gnu_manifest [] [] [] 0 Special end.
Lemma gnu_packaging_Ok : gnu_packaging = Ok gnu_output.
Proof. vm_compute. reflexivity. Qed.
Definition gnu_request : @verification_request gnu_serde := @mkRequest gnu_serde gnu_inputs (rs "/out/set").
Definition gnu_verified : @VerifiedPackage gnu_serde :=
  @mkVerified gnu_serde gnu_manifest (po_archive_sha256 gnu_output) (po_archive_size gnu_output).



(** ** Verified package sets *)
Lemma checked_absent_root_Ok ex_fails disk path root : checked_absent_root ex_fails disk path = Ok root ->
  node_at disk root = None /\ can_put disk root /\ root <> [].
Proof.
  unfold checked_absent_root. cbv zeta. intros Hc. inv_guards.
  match goal with H : open_directory _ _ = true |- _ => apply open_directory_true in H; rename H into Hdir end.
  split_and!; [|right; by rewrite removelast_last|by intros [_ ?]%app_nil].
  match goal with H : ~ is_Some (node_at disk ?r) |- _ => by destruct (node_at disk r) eqn:E; [destruct H; eexists|] end.
Qed.



(** The two limits on a manifest disagree: verification accepts an embedded
    and an external manifest of up to 16 MiB, while loading the extracted one
    refuses more than 4 MiB, whatever it says; so a verified package in between
    extracts and is then refused. *)
Theorem manifest_limits_disagree {H : Sha256} {S : PackageSerde} {L : ToolsSerde} disk root directory name mode data :
  MAX_MANIFEST_BYTES < len data <= MAX_METADATA_BYTES -> node_at directory [utf8 name] = Some (File mode data) ->
  node_at disk (root ++ [AROS_TOOLCHAIN_MANIFEST_FILE]) = Some (File mode data) ->
  read_metadata directory name = Ok data /\ read_exact_entry [Some data] (len data) = Ok data /\
  load_manifest disk root = None /\
  (forall json fails measure m, verify_extracted_tree json fails measure disk root m = Err (Verification ExtractedManifestUnreadable)).
Proof.
  intros [Hlo Hhi] Hdir Hdisk.
  assert (load_manifest disk root = None) as Hload.
  { unfold load_manifest. rewrite (proj2 (open_regular_Some _ _ data)) by by eexists. cbn [mbind option_bind]. by rewrite (proj2 (Z.ltb_lt _ _) Hlo). }
  split_and!; [| |done|].
  - unfold read_metadata. rewrite (proj2 (open_regular_Some _ _ data)) by by eexists. cbn [ok_or mbind res_bind]. by rewrite (proj2 (Z.ltb_ge _ _) Hhi).
  - apply read_exact_entry_Ok; [|done]. destruct data; [done|]. cbn. by rewrite app_nil_r.
  - intros. unfold verify_extracted_tree. by rewrite Hload.
Qed.

Definition blank_manifest : list Z := fill (4 * 1024 * 1024 + 1) 32.

Lemma manifest_limits_disagree_witness :
  let disk := Dir [(AROS_TOOLCHAIN_MANIFEST_FILE, File m0644 blank_manifest)] in
  read_metadata disk AROS_TOOLCHAIN_MANIFEST_FILE = Ok blank_manifest /\ read_exact_entry [Some blank_manifest] (len blank_manifest) = Ok blank_manifest /\
  @load_manifest gnu_serde disk [] = None /\
  (forall json fails measure m, @verify_extracted_tree toy_sha256 gnu_serde gnu_tools json fails measure disk [] m = Err (Verification ExtractedManifestUnreadable)).
Proof.
  intros disk. apply (@manifest_limits_disagree toy_sha256 gnu_serde gnu_tools disk [] disk AROS_TOOLCHAIN_MANIFEST_FILE m0644 blank_manifest).
  - unfold blank_manifest. rewrite len_fill by lia. unfold MAX_MANIFEST_BYTES, MAX_METADATA_BYTES. lia.
  - unfold disk. generalize blank_manifest. reflexivity.
  - unfold disk. generalize blank_manifest. reflexivity.
Defined.
